(* ===== verification/_CoqProject ===== *)
-Q . S2P
Prelude.v
Transam.v
CString.v
ClogFiles.v
HeapTuple.v
Proc.v
CatalogTx.v
World.v
Snapshot.v
TwoPhase.v
Xact.v
XactSpec.v
Visibility.v
LwLock.v
BufPage.v
Fsm.v
Slru.v
CommitTs.v
Lock.v
Deadlock.v
WaitFor.v
RelFile.v
Smgr.v
BufMgr.v
BufSpec.v
HeapForm.v
MultiXact.v
Heap.v
HeapSpec.v
HeapScan.v
Crc32c.v
Wal.v
WalSpec.v
WalSegments.v
Pglz.v
Toast.v
NbtPage.v
Nbtree.v
NbtTree.v
NbtSpec.v
Numeric.v
NumericSpec.v
NumericText.v
NumericType.v
Predicate.v
Ssi.v
SsiSpec.v
TupleTape.v
Tuplesort.v
TupleOrder.v
RowOrder.v
TuplesortSpec.v
Tuplestore.v
TuplestoreSpec.v
HashJoin.v
HashJoinSpec.v
HashJoinBuild.v
HashJoinRun.v
HashJoinTotal.v
Multibyte.v
TextFuncs.v
TextSpec.v
Datetime.v
DatetimeSpec.v
Expr.v
ExprSpec.v
PlanNode.v
NestLoop.v
ExecNodes.v
ExecNodesSpec.v
SortNodeSpec.v
MergeJoin.v
MergeJoinSpec.v
JoinsAgree.v
