(* ===== verification/Prelude.v ===== *)
(** * A verification library for pgcpp

    pgcpp is a C++ port of PostgreSQL.  This library models its transactional
    core, the storage below it and the heap and B-tree access methods between
    them, sorting, joins and expressions of the executor, and the numeric, text and
    date types, as executable definitions that follow the C++ functions one by one, and proves
    what makes them correct.  Paths below are relative to the
    directory of the sources.

    ** The program's parts and how they interact

    A backend runs commands inside a transaction ([xact.cpp]).  The transaction
    manager assigns transaction ids and records their outcome in the commit log
    ([transam.cpp]), publishes the running id in the process table ([proc.cpp],
    [procarray.cpp]), takes snapshots of the running transactions
    ([snapshot.cpp]), saves and restores the catalog ([catalog.cpp]), and hands
    prepared transactions to [twophase.cpp].  A reader decides with
    [visibility.cpp] whether a tuple version belongs to its snapshot; it asks
    the commit log and the transaction manager, and writes hint bits to the
    tuple header.

    The heap access method ([heapam.cpp]) forms tuples from values, of which
    large ones are compressed and cut into chunks ([toast.cpp]), puts them on
    slotted pages ([bufpage.cpp]), marks them deleted, chains their versions,
    locks them, with multixacts ([multixact.cpp]) for several lockers, and
    scans them under a snapshot.  B-tree indexes ([nbtree/]) map keys to tuple identifiers.
    Both reach their pages through the buffer pool ([bufmgr.cpp]), which reads
    and writes blocks with the storage manager ([smgr.cpp], [md.cpp]); the free
    space map ([freespace/]) says which page has room.

    Changes are logged in the write-ahead log ([xloginsert.cpp], [xlog.cpp]),
    each record under a checksum ([crc32c.cpp]), and replayed by recovery
    ([xlogreader.cpp], [xlogrecovery.cpp]).  Commit timestamps
    ([commit_ts.cpp]) and multixacts live in SLRU page caches ([slru.cpp]).
    Backends exclude each other with lightweight locks ([lwlock.cpp]) and
    relation locks ([lock.cpp], [lmgr.cpp]), and find deadlocks in wait-for
    graphs ([deadlock.cpp], twice).  Serializable transactions take predicate
    locks ([predicate.cpp]) and are refused when their read-write conflicts may
    form a cycle ([ssi.cpp]).

    The executor passes tuples in slots ([tupletable.cpp]).  It sorts them in
    memory or through sorted runs on files ([tuplesort.cpp]), keeps them in
    stores that spill to a file ([tuplestore.cpp]), and joins them by hashing
    ([node_hash.cpp], [node_hashjoin.cpp]), one batch of hashes in memory and
    the others in stores, by nested loops ([node_nestloop.cpp]), or by equal keys
    ([node_mergejoin.cpp]).  The nodes of a plan ask their children for a tuple at a time: LIMIT, materialization, UNION
    ALL, DISTINCT, GROUP BY and ORDER BY are such nodes.  Expressions are evaluated
    against the slots ([exec_expr.cpp]).

    The values in tuples belong to SQL types.  The numeric type
    ([types/numeric.cpp]) computes with decimals of any length; texts
    ([string_funcs.cpp]) are bytes in the database's encoding ([utils/mb/]), dates
    and timestamps ([datetime.cpp]) count days and microseconds.

    ** Files

    - [Prelude]: machine integers, bytes, the error-and-state monad [M]
      ([ereport] is an outcome that leaves the state as it is), digits, ordered
      traversal of maps, and the shared lemmas and tactics.
    - [Transam], [ClogFiles]: src/transaction/transam.cpp.  Shared memory and
      the backend-local cache are separate parts of the state; the clog is a
      finite map; [ClogFiles] adds the pg_xact/ page files.
    - [CString]: the C library calls the sources use ([snprintf] with %X and
      %u, [strtol], [strtoul]).
    - [HeapTuple]: include/transaction/heap_tuple.hpp, bit by bit.
    - [Proc]: src/storage/ipc/proc.cpp and src/transaction/procarray.cpp.
    - [CatalogTx]: the transactional part of src/catalog/catalog.cpp.
    - [World]: the state of a backend that the transaction manager threads
      through all components, with a lens per component.
    - [Snapshot]: src/transaction/snapshot.cpp, over a store of snapshot
      objects, since the code shares them by pointer.
    - [TwoPhase]: src/transaction/twophase.cpp with its text files.
    - [Xact], [XactSpec]: src/transaction/xact.cpp and its theorems.
    - [Visibility]: src/transaction/visibility.cpp against the interface
      [XactOracle], which the world implements.
    - [LwLock]: src/storage/ipc/lwlock.cpp as an interleaving of atomic steps.
    - [BufPage]: src/storage/buffer/bufpage.cpp and include/storage/bufpage.hpp.
      A page is its header fields, its line pointers and its bytes.
    - [Fsm]: src/storage/freespace/fsmpage.cpp and freespace.cpp.
    - [Slru], [CommitTs], [MultiXact]: src/transaction/slru.cpp, commit_ts.cpp
      and multixact.cpp.
    - [Lock]: src/transaction/lock.cpp and lmgr.cpp.
    - [Deadlock], [WaitFor]: src/transaction/deadlock.cpp and
      src/storage/ipc/deadlock.cpp.
    - [RelFile], [Smgr]: file names of relations, and the storage manager over
      segment files; [RelFile] states the interface [PageStore] the buffer
      manager is verified against.
    - [BufMgr], [BufSpec]: the buffer pool (descriptors, hash table, free list,
      clock sweep) and its refinement of a map from block tags to pages.
    - [HeapForm]: the layout of values in a tuple ([heap_form_tuple] and
      [heap_deform_tuple] of src/access/heap/heapam.cpp).
    - [Heap], [HeapSpec], [HeapScan]: the heap access method, on a state of
      pages and pins that abstracts the buffer pool as [BufSpec] justifies; its
      writing operations, and its scans with their cache of visible tuples.
    - [Crc32c], [Wal], [WalSpec], [WalSegments]: the checksum, the log writer
      and reader with recovery, their theorems, and segment files.
    - [Pglz], [Toast]: the compressor, and chunked storage of large values
      against the interface [ToastStore] of a TOAST table.
    - [NbtPage], [Nbtree], [NbtTree], [NbtSpec]: B-tree pages and keys, the
      operations of the index, the tree as a list of leaves with separators,
      and what an index promises.
    - [Numeric], [NumericSpec], [NumericText], [NumericType]:
      src/types/numeric.cpp, its arithmetic against rational numbers, its text
      form, and its closure under all operations.
    - [Predicate], [Ssi], [SsiSpec]: src/storage/ipc/predicate.cpp and
      src/transaction/ssi.cpp, and the invariant of the conflict graph.
    - [TupleTape]: slots and the bytes of a tuple on a temporary file, which
      the sort and the store share.
    - [Tuplesort], [TupleOrder], [TuplesortSpec]: src/utils/sort/tuplesort.cpp,
      its comparison as an order, and its theorem, against the interface
      [StdSort]; [RowOrder]: what ORDER BY means, by the values of the columns
      and apart from the code.
    - [Tuplestore], [TuplestoreSpec]: src/utils/sort/tuplestore.cpp.
    - [HashJoin]: src/executor/node_hash.cpp and node_hashjoin.cpp, against the
      interfaces [Expressions] and [StdMultimap]; [HashJoinSpec] has the rows of
      a join, [HashJoinBuild] the batches after building, [HashJoinRun] the
      turns of the loop, [HashJoinTotal] all batches together.
    - [Multibyte]: src/utils/mb/.
    - [TextFuncs], [TextSpec]: src/types/string_funcs.cpp and its theorems.
    - [Datetime], [DatetimeSpec]: src/types/datetime.cpp and its theorems.
    - [Expr], [ExprSpec]: src/executor/exec_expr.cpp with the functions it calls,
      against three-valued logic.
    - [PlanNode]: the interface between plan nodes; [NestLoop]:
      src/executor/node_nestloop.cpp over any two of them; [ExecNodes]:
      node_limit.cpp, node_material.cpp, node_append.cpp, node_unique.cpp,
      node_group.cpp and node_sort.cpp; [ExecNodesSpec], [SortNodeSpec]: the lists
      of tuples they yield.
    - [MergeJoin], [MergeJoinSpec]: node_mergejoin.cpp and its rows.
    - [JoinsAgree]: hash joins and nested loops with the evaluator's expressions.

    ** What the theorems show

    - Heap: a scan returns exactly the rows its snapshot sees, page by page;
      what inserting, updating, deleting and locking a row do to the rows of
      the relation, and that stored values come back.
    - B-tree: an index filled with distinct keys, through all splits, answers
      every scan with the matching entries in key order; binary and linear
      search agree.
    - Write-ahead log: after a crash recovery replays exactly the flushed
      records, in order, whatever was torn behind them; damaged records are
      rejected; the three checksum routines agree and detect bursts; segment
      files read back.
    - TOAST: compression and chunked storage of all the columns of a row are undone
      by fetching.
    - Buffers and files: the pool with replacement refines plain pages (for blocks
      with distinct home slots in its hash table), its victim search ends, fails only when it must, and makes progress; blocks
      written past the end of a relation read back.
    - Visibility: the MVCC test decides the reference definition of snapshot
      visibility on versions without hints, for every transaction system that
      satisfies the interface, and a version called surely dead is invisible
      to every later snapshot.
    - Transactions: an invariant of the state stack under every sequence of
      calls, what COMMIT, ROLLBACK, savepoints and errors do to all parts of
      the state, the single assignment of ids.
    - Logs: the commit log with its cache refines a map of statuses, the SLRU
      refines a map of pages and multixacts a table of member lists; the page
      files, the two-phase files and the commit timestamps survive a restart.
    - Numeric: sums, differences, comparisons and roundings are exact, products
      of up to 21 digit groups and quotients by one digit group too; the text
      form round-trips; every result is well formed.
    - Serializable isolation: the conflicts recorded among committed
      transactions form no cycle, whatever the sequence of calls, as long as no
      transaction is released twice.
    - Sorting: the external sort returns its tuples complete and in the order of
      [RowOrder], and the store in the order they were put, however often they
      spill.
    - Hash join: for every number of batches the rows are those of the join by the
      values of the keys, unless different keys have the same hash (right and full
      joins under conditions that [HashJoinTotal] states); integer columns
      never do.
    - Plan nodes: over children that return the same tuples whenever they are
      started, each node is such a node itself and returns a function of its
      children's tuples; a query with DISTINCT, ORDER BY, LIMIT and OFFSET
      returns what it says, and nested loops and hash joins agree on expressions that
      raise no error; the merge join
      is a join when no outer tuple has two partners.
    - Expressions: the evaluator agrees with three-valued logic wherever that
      knows the answer.
    - Texts: LIKE decides its specification on characters, replacing and splitting cut at the
      same places, UTF-8 and the conversions round-trip.
    - Dates: day numbers and dates correspond one to one, timestamps and their
      text round-trip, truncation rounds down.
    - Pages: adding, deleting and compacting tuples keeps the page well
      formed and every other tuple's bytes; the free space search is exact.
    - Concurrency: mutual exclusion of lightweight locks in every
      interleaving, registration of backends, exactness of both deadlock
      detectors.
    - Some theorems prove that the code falls short of what it is meant to do
      (a lost delete through a wrong hint bit or a lock bit, a stale status
      cache, commits beyond the log's capacity, a failed savepoint that still
      commits, a page overwrite that clobbers, a session lock that is lost, a
      full page whose rows a scan drops, a torn log tail that hides later
      records, a compressed value that comes back compressed, equal keys an
      index scan misses, quotients with wrong or missing decimals, products
      that overflow, a dangerous structure that commits, a second release that commits
      a cycle, a failed block that is prepared, a read that records no
      conflict, types a sort leaves unsorted, sorts that share their files, join
      rows lost, found by hash alone or by null keys, a validation that hangs, weekdays before
      2000, rows kept for an unknown condition, repeated distinct values).  They
      state the behaviour of the code as it is.

    ** Bounds and fuel

    Integers keep their C++ width where arithmetic can wrap ([u8] to [i64]).
    Loops without a structural argument take fuel, and the theorems hold at
    the fuel the operations use, which they show to be enough: the stack depth
    for savepoint loops, the number of digits for printing (10 decimal or 8
    hexadecimal digits for 32 bits), the number of waiters for the deadlock
    searches, the number of tree nodes for the free space page, two turns of
    the clock, one more than the files for removing segments, one per block for
    heap and index scans, one per row for a whole scan, one per byte for
    recovery, segment writes and the compressor, one per slot for the binary
    search, ten turns for choosing the batches of a hash join.  The loops of
    [ExecProcNode] of plan nodes take fuel as an argument; their theorems give a
    bound from which on every fuel gives the same rows.  An index of the B-tree
    theorem holds fewer entries than [NbtTree.capacity] (172890 for four-byte
    keys, 496 for the longest text keys), since the code does not split a full
    root.

    ** Not modelled

    Operating-system failures (a write, open, fsync or mkdir that fails,
    exhausted memory), the resets and fallbacks that only unit tests use, and
    the subsystems above and beside this core: parser, planner, commands, the
    plan nodes not named above (scans, aggregation, windows, set operations),
    index access methods other than the B-tree, shared invalidation, server and
    protocol code, SQL types other than numeric, text and dates.  A temporary
    file of a sort has one user, which [TuplesortSpec.sorts_share_files] shows to
    be an assumption.  A section under a lightweight lock is one step of the
    model.  A TOAST table is an
    interface, which the catalog and the heap would implement.

    ** Plan

    Next: the hash and BRIN indexes on the same page and buffer model; vacuum;
    shared invalidation messages; aggregation and set operations as plan nodes;
    the heap as an implementation of the TOAST table. *)

From Stdlib Require Import ZArith Lia Ascii.
From stdpp Require Import base gmap list strings sorting.

#[export] Set Warnings "-clear-no-such-hyp".
#[global] Open Scope Z_scope.

(** ** Notations *)

Declare Scope pgcpp_scope.
Delimit Scope pgcpp_scope with pg.

(** ** Machine integers

    [u8], [u16], [u32], [u64], [i32] and [i64] are the conversions the C++ compiler
    applies when a value is stored in an unsigned or signed integer of that
    width. *)

Definition u8 (z : Z) : Z := z `mod` 2 ^ 8.
Definition u16 (z : Z) : Z := z `mod` 2 ^ 16.
Definition u32 (z : Z) : Z := z `mod` 2 ^ 32.
Definition u64 (z : Z) : Z := z `mod` 2 ^ 64.
Definition i32 (z : Z) : Z := (z + 2 ^ 31) `mod` 2 ^ 32 - 2 ^ 31.

Definition i64 (z : Z) : Z := (z + 2 ^ 63) `mod` 2 ^ 64 - 2 ^ 63.

Definition is_u8 (z : Z) : Prop := 0 ≤ z < 2 ^ 8.
Definition is_u16 (z : Z) : Prop := 0 ≤ z < 2 ^ 16.
Definition is_u32 (z : Z) : Prop := 0 ≤ z < 2 ^ 32.

Lemma u32_small z : is_u32 z → u32 z = z.
Proof. intros ?. apply Z.mod_small. done. Qed.

Lemma u64_small z : 0 ≤ z < 2 ^ 64 → u64 z = z.
Proof. apply Z.mod_small. Qed.

Lemma u8_small z : is_u8 z → u8 z = z.
Proof. intros ?. apply Z.mod_small. done. Qed.

Lemma u32_range z : is_u32 (u32 z).
Proof. apply Z.mod_pos_bound. lia. Qed.

Lemma u16_range z : is_u16 (u16 z).
Proof. apply Z.mod_pos_bound. lia. Qed.

Lemma u8_range z : is_u8 (u8 z).
Proof. apply Z.mod_pos_bound. lia. Qed.

Lemma i32_range z : - 2 ^ 31 ≤ i32 z < 2 ^ 31.
Proof. unfold i32. pose proof (Z.mod_pos_bound (z + 2 ^ 31) (2 ^ 32)). lia. Qed.

Lemma i32_small z : - 2 ^ 31 ≤ z < 2 ^ 31 → i32 z = z.
Proof. intros ?. unfold i32. rewrite Z.mod_small; lia. Qed.

(** The signed reading of a wrapped difference depends on the difference only. *)
Lemma i32_u32 z : i32 (u32 z) = i32 z.
Proof. unfold i32, u32. rewrite Zplus_mod_idemp_l. done. Qed.

(** A mask of one bit tests that bit. *)
Lemma flag_bit st k : 0 ≤ k → negb (Z.land st (2 ^ k) =? 0) = Z.testbit st k.
Proof.
  intros Hk. destruct (Z.testbit st k) eqn:E.
  - apply negb_true_iff, Z.eqb_neq. intros Hz. apply (f_equal (λ z, Z.testbit z k)) in Hz.
    rewrite Z.land_spec, E, Z.pow2_bits_true, Z.bits_0 in Hz by done. done.
  - apply negb_false_iff, Z.eqb_eq. apply Z.bits_inj_0. intros j. rewrite Z.land_spec.
    destruct (decide (j = k)) as [->|]; [by rewrite E|]. rewrite Z.pow2_bits_false by done. apply andb_false_r.
Qed.

(** Joining the high and the low bits. *)
Lemma lor_low n x y : 0 ≤ n → 0 ≤ y < 2 ^ n → Z.lor (Z.shiftl x n) y = x * 2 ^ n + y.
Proof.
  intros Hn Hy. pose proof (Z.add_lor_land (Z.shiftl x n) y) as H. rewrite Z.shiftl_mul_pow2 in * by lia.
  assert (Z.land (x * 2 ^ n) y = 0) as Hz; [|lia].
  rewrite <- (Z.mod_small y (2 ^ n)) by done. rewrite <- Z.land_ones by done.
  rewrite Z.land_assoc, (Z.land_comm _ (Z.ones n)), Z.land_assoc, (Z.land_comm (Z.ones n)), Z.land_ones by done.
  by rewrite Z.mod_mul by lia.
Qed.

(** The bytes of a [n]-byte integer in memory, least significant first. *)
Fixpoint to_le (n : nat) (z : Z) : list Z :=
  match n with O => [] | S n' => z `mod` 256 :: to_le n' (z / 256) end.
Definition of_le (bytes : list Z) : Z := foldr (λ b acc, b + 256 * acc) 0 bytes.

Lemma length_to_le n z : length (to_le n z) = n.
Proof. revert z. induction n as [|n IH]; intros z; simpl; [done|]. by rewrite IH. Qed.

Lemma to_le_u8 n z : Forall is_u8 (to_le n z).
Proof.
  revert z. induction n as [|n IH]; intros z; cbn [to_le]; constructor; [|done].
  unfold is_u8. pose proof (Z.mod_pos_bound z 256). lia.
Qed.

Lemma of_le_bound b : Forall is_u8 b → 0 ≤ of_le b < 256 ^ Z.of_nat (length b).
Proof.
  induction 1 as [|x b Hx _ IH]; [done|]. change (of_le (x :: b)) with (x + 256 * of_le b). cbn [length].
  rewrite Nat2Z.inj_succ, Z.pow_succ_r by lia. unfold is_u8 in Hx. lia.
Qed.

Lemma of_le_inj a b : Forall is_u8 a → Forall is_u8 b → length a = length b → of_le a = of_le b → a = b.
Proof.
  intros Ha. revert b. induction Ha as [|x a Hx _ IH]; intros [|y b] Hb Hl Heq; try done.
  inversion Hb as [|?? Hy Hb']; subst.
  change (of_le (x :: a)) with (x + 256 * of_le a) in Heq. change (of_le (y :: b)) with (y + 256 * of_le b) in Heq.
  unfold is_u8 in *. assert (x = y ∧ of_le a = of_le b) as [-> H] by lia.
  f_equal. apply IH; [done|by injection Hl|done].
Qed.

Lemma of_to_le n z : of_le (to_le n z) = z `mod` 256 ^ Z.of_nat n.
Proof.
  revert z. induction n as [|n IH]; intros z; [by rewrite Z.mod_1_r|].
  cbn [to_le]. change (of_le (?b :: ?l)) with (b + 256 * of_le l). rewrite IH.
  rewrite Nat2Z.inj_succ, Z.pow_succ_r by lia. rewrite Z.rem_mul_r by lia. lia.
Qed.

Lemma i64_of_to_le z : - 2 ^ 63 ≤ z < 2 ^ 63 → i64 (of_le (to_le 8 z)) = z.
Proof.
  intros Hz. rewrite of_to_le. change (256 ^ Z.of_nat 8) with (2 ^ 64). unfold i64.
  rewrite Zplus_mod_idemp_l, Z.mod_small; lia.
Qed.

(** The entries of a [std::map] in the order it is traversed: by ascending key. *)
Definition key_le {A : Type} (a b : Z * A) : Prop := a.1 ≤ b.1.
#[export] Instance key_le_dec {A : Type} : RelDecision (@key_le A).
Proof. intros a b. unfold key_le. apply _. Defined.

Definition map_entries {A : Type} (m : gmap Z A) : list (Z * A) := merge_sort key_le (map_to_list m).

Lemma elem_of_map_entries {A : Type} (m : gmap Z A) k x : (k, x) ∈ map_entries m ↔ m !! k = Some x.
Proof. unfold map_entries. rewrite merge_sort_Permutation. apply elem_of_map_to_list. Qed.

(** ** Errors and state

    [ereport(kError, msg)] throws to the nearest handler and leaves the
    program state as it was at that point: an operation is a function from a
    state to an outcome and a state. *)

Inductive outcome (A : Type) : Type :=
| Ret (a : A)
| Ereport (msg : string).
Arguments Ret {A} a.
Arguments Ereport {A} msg.

Definition M (S A : Type) : Type := S → outcome A * S.

#[global] Instance M_ret {S} : MRet (M S) := λ A a s, (Ret a, s).
#[global] Instance M_bind {S} : MBind (M S) := λ A B f m s,
  match m s with
  | (Ret a, s') => f a s'
  | (Ereport e, s') => (Ereport e, s')
  end.

Definition ereport {S A} (msg : string) : M S A := λ s, (Ereport msg, s).
Definition get {S} : M S S := λ s, (Ret s, s).
Definition gets {S A} (f : S → A) : M S A := λ s, (Ret (f s), s).
Definition modify {S} (f : S → S) : M S unit := λ s, (Ret tt, f s).
Definition when {S} (b : bool) (m : M S unit) : M S unit := if b then m else mret tt.

(** The final state of a run, whatever its outcome. *)
Definition exec {S A} (m : M S A) (s : S) : S := snd (m s).
(** The value a run returned, if it did not raise an error. *)
Definition returned {A} (o : outcome A) : option A :=
  match o with Ret a => Some a | Ereport _ => None end.

Section monad_laws.
  Context {S A B C : Type}.
  Implicit Types (m : M S A) (f : A → M S B).

Lemma bind_ret_run (m : M S A) (f : A → M S B) s a s' :
    m s = (Ret a, s') → (m ≫= f) s = f a s'.
Proof. intros H. unfold mbind, M_bind. by rewrite H. Qed.

Lemma bind_err_run (m : M S A) (f : A → M S B) s e s' :
    m s = (Ereport e, s') → (m ≫= f) s = (Ereport e, s').
Proof. intros H. unfold mbind, M_bind. by rewrite H. Qed.

Lemma bind_inv_ret (m : M S A) (f : A → M S B) s b s'' :
    (m ≫= f) s = (Ret b, s'') → ∃ a s', m s = (Ret a, s') ∧ f a s' = (Ret b, s'').
Proof.
    unfold mbind, M_bind. destruct (m s) as [[a|e] s'] eqn:E; intros H; [eauto|done].
Qed.

Lemma bind_assoc_run (m : M S A) (f : A → M S B) (g : B → M S C) s :
    ((m ≫= f) ≫= g) s = (m ≫= λ a, f a ≫= g) s.
Proof. unfold mbind, M_bind. by destruct (m s) as [[a|e] s']. Qed.
End monad_laws.

(** ** Tactics *)

(** Unfold the monad and step through the matches of a run. *)
Ltac run_step :=
  unfold mbind, M_bind, mret, M_ret, modify, gets, get, when, ereport in *; simpl in *.

(** Split a boolean test of the code into its two branches, as propositions. *)
Ltac split_if :=
  match goal with
  | |- context [if ?b then _ else _] => destruct b eqn:?
  end.

(** Turn the boolean comparisons of the hypotheses into propositions. *)
Ltac to_prop :=
  repeat match goal with
  | H : (_ && _)%bool = true |- _ => apply andb_true_iff in H as [? ?]
  | H : (_ && _)%bool = false |- _ => apply andb_false_iff in H
  | H : (_ || _)%bool = true |- _ => apply orb_true_iff in H
  | H : (_ || _)%bool = false |- _ => apply orb_false_iff in H as [? ?]
  | H : negb _ = true |- _ => apply negb_true_iff in H
  | H : negb _ = false |- _ => apply negb_false_iff in H
  | H : (_ =? _)%Z = true |- _ => apply Z.eqb_eq in H
  | H : (_ =? _)%Z = false |- _ => apply Z.eqb_neq in H
  | H : (_ <? _)%Z = true |- _ => apply Z.ltb_lt in H
  | H : (_ <? _)%Z = false |- _ => apply Z.ltb_ge in H
  | H : (_ <=? _)%Z = true |- _ => apply Z.leb_le in H
  | H : (_ <=? _)%Z = false |- _ => apply Z.leb_gt in H
  | H : bool_decide _ = true |- _ => apply bool_decide_eq_true in H
  | H : bool_decide _ = false |- _ => apply bool_decide_eq_false in H
  end.

(** Lookups of a finite map after an update, both ways of the key test. *)
Ltac map_cases :=
  repeat (rewrite lookup_insert || rewrite lookup_delete); repeat case_decide;
  simplify_eq; try done.

(** ** Lists *)

(** Replacing an element changes the number of those in [P] by the element. *)
Lemma filter_insert_length {A} (P : A → Prop) `{!∀ x, Decision (P x)} (l : list A) i x y :
  l !! i = Some x →
  (length (filter P (<[i:=y]> l)) + (if decide (P x) then 1 else 0)
   = length (filter P l) + (if decide (P y) then 1 else 0))%nat.
Proof.
  revert i. induction l as [|z l IH]; intros [|i] Hi; simplify_eq/=.
  - rewrite !filter_cons. repeat case_decide; simpl; lia.
  - specialize (IH i Hi). rewrite !filter_cons. destruct (decide (P z)); simpl; lia.
Qed.

Lemma filter_same {A} (P Q : A → Prop) `{!∀ x, Decision (P x), !∀ x, Decision (Q x)} (l : list A) :
  (∀ x, x ∈ l → P x ↔ Q x) → filter P l = filter Q l.
Proof.
  induction l as [|x l IH]; intros Hpq; [done|]. rewrite !filter_cons, IH by (intros; apply Hpq; by right).
  assert (Hx : P x ↔ Q x) by (apply Hpq; by left). repeat case_decide; tauto.
Qed.

Create HintDb pgcpp.
Create Rewrite HintDb pgcpp.
#[export] Hint Resolve u32_range u16_range u8_range i32_range : pgcpp.
#[export] Hint Rewrite i32_u32 : pgcpp.

(** ** Positional notation

    [digits b fuel z] is the representation [printf] produces for a
    nonnegative [z] in base [b]; [undigits] is the accumulation loop of
    [strtol]/[strtoul]. *)

Fixpoint digits (b : Z) (fuel : nat) (z : Z) (acc : list Z) : list Z :=
  match fuel with
  | O => acc
  | S f => if z / b =? 0 then z `mod` b :: acc
           else digits b f (z / b) (z `mod` b :: acc)
  end.

Definition undigits (b : Z) (l : list Z) : Z := foldl (λ a d, a * b + d) 0 l.

Lemma undigits_app b l1 l2 :
  undigits b (l1 ++ l2) = foldl (λ a d, a * b + d) (undigits b l1) l2.
Proof. unfold undigits. by rewrite foldl_app. Qed.

Lemma undigits_zeros b n l : undigits b (replicate n 0 ++ l) = undigits b l.
Proof.
  rewrite undigits_app. assert (undigits b (replicate n 0) = 0) as ->; [|done].
  induction n as [|n IH]; [done|]. rewrite replicate_S_end, undigits_app, IH. done.
Qed.

Lemma foldl_digits_shift b l a :
  foldl (λ a d, a * b + d) a l = a * b ^ Z.of_nat (length l) + undigits b l.
Proof.
  unfold undigits. revert a. induction l as [|d l IH]; intros a; simpl; [lia|].
  rewrite IH, (IH (0 * b + d)). rewrite !Z.mul_add_distr_r.
  replace (Z.of_nat (S (length l))) with (1 + Z.of_nat (length l)) by lia.
  rewrite Z.pow_add_r by lia. lia.
Qed.

Lemma undigits_cons b d l :
  undigits b (d :: l) = d * b ^ Z.of_nat (length l) + undigits b l.
Proof.
  unfold undigits at 1. cbn [foldl]. rewrite foldl_digits_shift. lia.
Qed.

(** Enough fuel prints every digit: [strtol] reads back what [printf] wrote. *)
Lemma undigits_digits b fuel z acc :
  2 ≤ b → 0 ≤ z < b ^ Z.of_nat fuel → (0 < fuel)%nat →
  undigits b (digits b fuel z acc) = z * b ^ Z.of_nat (length acc) + undigits b acc.
Proof.
  intros Hb. revert z acc. induction fuel as [|f IH]; intros z acc Hz Hf; [lia|].
  simpl. pose proof (Z.div_mod z b ltac:(lia)) as Hdm.
  case_match eqn:E; to_prop.
  - rewrite undigits_cons. nia.
  - assert (0 ≤ z / b) by (apply Z.div_pos; lia).
    assert (z / b < b ^ Z.of_nat f).
    { apply Z.div_lt_upper_bound; [lia|].
      replace (Z.of_nat (S f)) with (1 + Z.of_nat f) in Hz by lia.
      rewrite Z.pow_add_r in Hz by lia. lia. }
    destruct f as [|f]; [simpl in *; lia|].
    rewrite IH by lia. rewrite undigits_cons. simpl length.
    replace (Z.of_nat (S (length acc))) with (1 + Z.of_nat (length acc)) by lia.
    rewrite Z.pow_add_r by lia. nia.
Qed.

Lemma digits_range b fuel z acc :
  2 ≤ b → Forall (λ d, 0 ≤ d < b) acc → Forall (λ d, 0 ≤ d < b) (digits b fuel z acc).
Proof.
  intros Hb. revert z acc. induction fuel as [|f IH]; intros z acc Ha; [done|].
  simpl. assert (0 ≤ z `mod` b < b) by (apply Z.mod_pos_bound; lia).
  case_match; [by constructor|]. apply IH. by constructor.
Qed.

Lemma digits_nonempty b fuel z acc : (0 < fuel)%nat → digits b fuel z acc ≠ [].
Proof.
  revert z acc. induction fuel as [|f IH]; intros z acc Hf; [lia|]. simpl.
  case_match; [done|]. destruct f as [|f]; [done|]. apply IH. lia.
Qed.
