(* ===== verification/Transam.v ===== *)
(** * Transaction ids and the commit log

    Models include/transaction/transam.hpp and src/transaction/transam.cpp:
    the modular comparison of transaction ids, the commit log (CLOG) and the
    next-XID counter in shared memory, the one-entry status cache of each
    backend, and the pg_xact/ page files (2 bits per transaction).

    A critical section under an LWLock is one step of the model.  The CLOG is
    the zero-filled array of [kMaxXids] status bytes: a finite map in which an
    absent entry is the zero byte, [kInProgress]. *)

From stdpp Require Import base gmap list strings pretty numbers.
From S2P Require Import Prelude.

Module Transam.

Definition TransactionId := Z.
Definition kMaxXids : Z := Z.shiftl 1 24.
Definition kInvalidTransactionId : Z := 0.
Definition kBootstrapTransactionId : Z := 1.
Definition kFrozenTransactionId : Z := 2.
Definition kFirstNormalTransactionId : Z := 3.

(** ** Comparison *)

Definition TransactionIdPrecedes (id1 id2 : Z) : bool := i32 (u32 (id1 - id2)) <? 0.
Definition TransactionIdFollows (id1 id2 : Z) : bool := 0 <? i32 (u32 (id1 - id2)).
Definition TransactionIdPrecedesOrEquals (id1 id2 : Z) : bool := i32 (u32 (id1 - id2)) <=? 0.
Definition TransactionIdFollowsOrEquals (id1 id2 : Z) : bool := 0 <=? i32 (u32 (id1 - id2)).
Definition TransactionIdEquals (id1 id2 : Z) : bool := id1 =? id2.
Definition TransactionIdIsValid (xid : Z) : bool := negb (xid =? kInvalidTransactionId).
Definition TransactionIdIsNormal (xid : Z) : bool := kFirstNormalTransactionId <=? xid.

(** ** Commit log and variable cache *)

Inductive XidStatus := kInProgress | kCommitted | kAborted | kSubCommitted.

#[global] Instance XidStatus_eq_dec : EqDecision XidStatus.
Proof. solve_decision. Defined.

Definition XidStatus_to_Z (s : XidStatus) : Z :=
  match s with kInProgress => 0 | kCommitted => 1 | kAborted => 2 | kSubCommitted => 3 end.

(** [static_cast<XidStatus>] of a 2-bit value. *)
Definition XidStatus_of_Z (z : Z) : XidStatus :=
  if z =? 0 then kInProgress else if z =? 1 then kCommitted
  else if z =? 2 then kAborted else kSubCommitted.

Record VariableCacheData := mkVariableCache { nextXid : Z; oldestXid : Z }.

(** The named regions of shared memory ([None]: not allocated yet). *)
Record shmem := mkShmem {
  CommitLog : option (gmap Z XidStatus);
  VariableCache : option VariableCacheData
}.

(** The process-local variables of one backend.  [g_clog_base] and
    [g_variable_cache] tell whether the pointers into shared memory are set. *)
Record local := mkLocal {
  g_clog_base : bool;
  g_variable_cache : bool;
  cached_xid : Z;
  cached_status : XidStatus;
  ClogDirectory : string;
  DirtyClogPages : gset Z
}.

Record state := mkState { shm : shmem; loc : local }.

(** The state of a freshly started process that attaches to nothing. *)
Definition initial_local : local := mkLocal false false kInvalidTransactionId kInProgress "" ∅.
Definition initial_state : state := mkState (mkShmem None None) initial_local.

Definition clog_get (m : gmap Z XidStatus) (xid : Z) : XidStatus := default kInProgress (m !! xid).

(** What dereferencing [g_clog_base] reads: [None] is the null pointer. *)
Definition clog_of (s : state) : option (gmap Z XidStatus) :=
  if g_clog_base (loc s) then CommitLog (shm s) else None.
Definition varcache_of (s : state) : option VariableCacheData :=
  if g_variable_cache (loc s) then VariableCache (shm s) else None.

Definition set_clog (m : gmap Z XidStatus) (s : state) : state :=
  mkState (mkShmem (Some m) (VariableCache (shm s))) (loc s).
Definition set_varcache (v : VariableCacheData) (s : state) : state :=
  mkState (mkShmem (CommitLog (shm s)) (Some v)) (loc s).
Definition set_cache (xid : Z) (st : XidStatus) (s : state) : state :=
  mkState (shm s) (mkLocal (g_clog_base (loc s)) (g_variable_cache (loc s)) xid st
                           (ClogDirectory (loc s)) (DirtyClogPages (loc s))).
Definition set_dirty (d : gset Z) (s : state) : state :=
  mkState (shm s) (mkLocal (g_clog_base (loc s)) (g_variable_cache (loc s))
                           (cached_xid (loc s)) (cached_status (loc s)) (ClogDirectory (loc s)) d).
Definition set_dir (d : string) (s : state) : state :=
  mkState (shm s) (mkLocal (g_clog_base (loc s)) (g_variable_cache (loc s))
                           (cached_xid (loc s)) (cached_status (loc s)) d (DirtyClogPages (loc s))).

Definition kClogXidsPerPage : Z := 32768.
Definition kSlruPageSize : Z := 8192.

Definition FetchFromCommitLog (s : state) (xid : Z) : XidStatus :=
  match clog_of s with
  | None => kInProgress
  | Some m => if kMaxXids <=? xid then kInProgress else clog_get m xid
  end.

Definition MarkDirty (xid : Z) (s : state) : state :=
  set_dirty ({[ xid / kClogXidsPerPage ]} ∪ DirtyClogPages (loc s)) s.

(** [InitializeCommitLog]: [ShmemInitStruct] returns the region of that name,
    or allocates it with [found = false]. *)
Definition fresh_clog : gmap Z XidStatus :=
  <[kFrozenTransactionId := kCommitted]>
    (<[kBootstrapTransactionId := kCommitted]>
       (<[kInvalidTransactionId := kCommitted]> ∅)).

Definition InitializeCommitLog : M state unit :=
  modify (λ s, mkState
    (mkShmem (match CommitLog (shm s) with Some m => Some m | None => Some fresh_clog end)
             (match VariableCache (shm s) with
              | Some v => Some v
              | None => Some (mkVariableCache kFirstNormalTransactionId kFirstNormalTransactionId)
              end))
    (mkLocal true true kInvalidTransactionId kInProgress
             (ClogDirectory (loc s)) (DirtyClogPages (loc s)))).

Definition TransactionLogFetch (xid : Z) : M state XidStatus := λ s,
  if negb (TransactionIdIsNormal xid) then (Ret kCommitted, s)
  else if xid =? cached_xid (loc s) then (Ret (cached_status (loc s)), s)
  else let status := FetchFromCommitLog s xid in (Ret status, set_cache xid status s).

Definition TransactionIdGetStatus (xid : Z) : M state XidStatus := TransactionLogFetch xid.

Definition TransactionIdDidCommit (xid : Z) : M state bool :=
  status ← TransactionIdGetStatus xid;
  mret (bool_decide (status = kCommitted)).

Definition TransactionIdDidAbort (xid : Z) : M state bool :=
  if negb (TransactionIdIsNormal xid) then mret false
  else status ← TransactionIdGetStatus xid; mret (bool_decide (status = kAborted)).

(** The body the three status writers share: write the byte and mark its page
    under the lock, then drop the cached entry of this transaction. *)
Definition clog_write (xid : Z) (st : XidStatus) (s : state) : state :=
  match clog_of s with
  | Some m => if xid <? kMaxXids then MarkDirty xid (set_clog (<[xid := st]> m) s) else s
  | None => s
  end.

Definition drop_cached (xid : Z) (s : state) : state :=
  if xid =? cached_xid (loc s)
  then set_cache kInvalidTransactionId (cached_status (loc s)) s else s.

Definition set_status (xid : Z) (st : XidStatus) : M state unit :=
  modify (clog_write xid st);; modify (drop_cached xid).

#[global] Arguments set_status : simpl never.
#[global] Arguments clog_write : simpl never.
#[global] Arguments drop_cached : simpl never.

Definition TransactionIdCommit (xid : Z) : M state unit :=
  if negb (TransactionIdIsNormal xid)
  then ereport ("cannot commit special transaction id " +:+ pretty xid)
  else set_status xid kCommitted.

Definition TransactionIdAbort (xid : Z) : M state unit :=
  if negb (TransactionIdIsNormal xid)
  then ereport ("cannot abort special transaction id " +:+ pretty xid)
  else set_status xid kAborted.

Definition TransactionIdSetInProgress (xid : Z) : M state unit :=
  if negb (TransactionIdIsNormal xid) then mret tt else set_status xid kInProgress.

Definition AllocateNextTransactionId : M state Z :=
  xid ← (λ s, match varcache_of s with
              | Some v => (Ret (nextXid v),
                           set_varcache (mkVariableCache (u32 (nextXid v + 1)) (oldestXid v)) s)
              | None => (Ret kInvalidTransactionId, s)
              end);
  if xid =? kInvalidTransactionId then ereport "variable cache not initialized"
  else TransactionIdSetInProgress xid;; mret xid.

Definition GetNextTransactionId : M state Z := λ s,
  (Ret (u32 (match varcache_of s with
             | Some v => nextXid v
             | None => kFirstNormalTransactionId
             end - 1)), s).

Definition ResetTransactionState : M state unit := InitializeCommitLog.

Lemma kMaxXids_val : kMaxXids = 16777216.
Proof. reflexivity. Qed.

(** ** Lemmas on the comparison *)

Lemma precedes_spec a b : TransactionIdPrecedes a b = true ↔ i32 (a - b) < 0.
Proof. unfold TransactionIdPrecedes. rewrite i32_u32. lia. Qed.

Lemma follows_or_equals_spec a b :
  TransactionIdFollowsOrEquals a b = negb (TransactionIdPrecedes a b).
Proof. unfold TransactionIdFollowsOrEquals, TransactionIdPrecedes. lia. Qed.

Lemma i32_u32_diff x y : - 2 ^ 31 ≤ x - y < 2 ^ 31 → i32 (u32 x - u32 y) = x - y.
Proof.
  intros ?. unfold i32, u32.
  replace (x `mod` 2 ^ 32 - y `mod` 2 ^ 32 + 2 ^ 31)
    with (x - y + 2 ^ 31 + (y / 2 ^ 32 - x / 2 ^ 32) * 2 ^ 32).
  - rewrite Z.mod_add by lia. rewrite Z.mod_small; lia.
  - pose proof (Z.div_mod x (2 ^ 32)). pose proof (Z.div_mod y (2 ^ 32)). lia.
Qed.

Lemma precedes_near x y :
  - 2 ^ 31 ≤ x - y < 2 ^ 31 → TransactionIdPrecedes (u32 x) (u32 y) = (x <? y).
Proof.
  intros ?. unfold TransactionIdPrecedes. rewrite i32_u32, i32_u32_diff by lia. lia.
Qed.

Lemma precedes_lt x y :
  is_u32 x → is_u32 y → - 2 ^ 31 ≤ x - y < 2 ^ 31 → TransactionIdPrecedes x y = (x <? y).
Proof.
  intros ???. rewrite <- (u32_small x), <- (u32_small y) at 1 by done. by apply precedes_near.
Qed.

Lemma precedes_irrefl x : TransactionIdPrecedes x x = false.
Proof. unfold TransactionIdPrecedes. by rewrite Z.sub_diag. Qed.

(** Transaction ids are compared on a circle: inside any window of 2^31
    consecutive ids, wherever it starts and even where it crosses the 2^32
    wrap-around, [TransactionIdPrecedes] (and with it its three siblings)
    orders the ids the way they were assigned. *)
Theorem precedes_window (base a b : Z) (Ha : 0 ≤ a < 2 ^ 31) (Hb : 0 ≤ b < 2 ^ 31) :
  TransactionIdPrecedes (u32 (base + a)) (u32 (base + b)) = (a <? b) ∧
  TransactionIdFollows (u32 (base + a)) (u32 (base + b)) = (b <? a) ∧
  TransactionIdPrecedesOrEquals (u32 (base + a)) (u32 (base + b)) = (a <=? b) ∧
  TransactionIdFollowsOrEquals (u32 (base + a)) (u32 (base + b)) = (b <=? a).
Proof.
  unfold TransactionIdPrecedes, TransactionIdFollows, TransactionIdPrecedesOrEquals,
    TransactionIdFollowsOrEquals.
  rewrite !i32_u32, !i32_u32_diff by lia. repeat split; lia.
Qed.

Lemma precedes_window_witness :
  TransactionIdPrecedes (u32 (4294967290 + 1)) (u32 (4294967290 + 10)) = true.
Proof.
  destruct (precedes_window 4294967290 1 10) as [H _]; [lia|lia|]. exact H.
Defined.

(** ** Lemmas on the commit log *)

(** The cached entry of a backend repeats what the commit log holds. *)
Definition cache_coherent (s : state) : Prop :=
  TransactionIdIsNormal (cached_xid (loc s)) = true →
  cached_status (loc s) = FetchFromCommitLog s (cached_xid (loc s)).

(** The pointers of the backend are set and the regions exist. *)
Definition attached (s : state) : Prop :=
  is_Some (clog_of s) ∧ is_Some (varcache_of s).

(** The status other backends would read for [xid]: special ids are committed. *)
Definition status_of (s : state) (xid : Z) : XidStatus :=
  if TransactionIdIsNormal xid then FetchFromCommitLog s xid else kCommitted.

Lemma fetch_set_cache xid st s y :
  FetchFromCommitLog (set_cache xid st s) y = FetchFromCommitLog s y.
Proof. done. Qed.

Lemma status_set_cache xid st s y : status_of (set_cache xid st s) y = status_of s y.
Proof. done. Qed.

Lemma fetch_log_run xid s :
  cache_coherent s →
  ∃ s', TransactionLogFetch xid s = (Ret (status_of s xid), s') ∧ cache_coherent s' ∧
        shm s' = shm s ∧ (∀ y, status_of s' y = status_of s y) ∧
        DirtyClogPages (loc s') = DirtyClogPages (loc s) ∧
        g_clog_base (loc s') = g_clog_base (loc s) ∧
        g_variable_cache (loc s') = g_variable_cache (loc s).
Proof.
  intros Hc. unfold TransactionLogFetch, status_of.
  destruct (TransactionIdIsNormal xid) eqn:En; simpl; [|by eauto 10].
  destruct (xid =? cached_xid (loc s)) eqn:E; to_prop.
  - exists s. subst. rewrite Hc by done. eauto 10.
  - eexists. split; [done|]. split; [|done]. intros _. done.
Qed.

Lemma did_commit_run xid s :
  cache_coherent s →
  ∃ s', TransactionIdDidCommit xid s = (Ret (bool_decide (status_of s xid = kCommitted)), s') ∧
        cache_coherent s' ∧ (∀ y, status_of s' y = status_of s y).
Proof.
  intros Hc. destruct (fetch_log_run xid s Hc) as (s' & Hr & Hc' & _ & Hs & _).
  exists s'. split; [|done]. unfold TransactionIdDidCommit, TransactionIdGetStatus.
  by rewrite (bind_ret_run _ _ _ _ _ Hr).
Qed.

Lemma did_abort_run xid s :
  cache_coherent s →
  ∃ s', TransactionIdDidAbort xid s = (Ret (bool_decide (status_of s xid = kAborted)), s') ∧
        cache_coherent s' ∧ (∀ y, status_of s' y = status_of s y).
Proof.
  intros Hc. unfold TransactionIdDidAbort.
  destruct (TransactionIdIsNormal xid) eqn:En; simpl.
  - destruct (fetch_log_run xid s Hc) as (s' & Hr & Hc' & _ & Hs & _).
    exists s'. split; [|done]. unfold TransactionIdGetStatus.
    by rewrite (bind_ret_run _ _ _ _ _ Hr).
  - exists s. unfold status_of. by rewrite En.
Qed.

(** The effect of a status write on every later read of the log. *)
Lemma fetch_clog_write xid st s y :
  is_Some (clog_of s) →
  FetchFromCommitLog (clog_write xid st s) y =
    if bool_decide (y = xid ∧ xid < kMaxXids) then st else FetchFromCommitLog s y.
Proof.
  intros [m Hm]. unfold clog_write, FetchFromCommitLog. rewrite Hm.
  destruct (xid <? kMaxXids) eqn:E; to_prop.
  - assert (Hc : clog_of (MarkDirty xid (set_clog (<[xid:=st]> m) s)) = Some (<[xid:=st]> m)).
    { unfold clog_of in *. simpl. by destruct (g_clog_base (loc s)). }
    rewrite Hc. unfold clog_get. rewrite lookup_insert.
    repeat case_bool_decide; repeat case_decide; destruct (kMaxXids <=? y) eqn:?; to_prop;
      simpl; try done; lia.
  - rewrite Hm, bool_decide_eq_false_2 by lia. done.
Qed.

Lemma clog_write_frame xid st s :
  cached_xid (loc (clog_write xid st s)) = cached_xid (loc s) ∧
  cached_status (loc (clog_write xid st s)) = cached_status (loc s) ∧
  varcache_of (clog_write xid st s) = varcache_of s ∧
  (is_Some (clog_of s) → is_Some (clog_of (clog_write xid st s))).
Proof.
  unfold clog_write, varcache_of, clog_of.
  destruct (g_clog_base (loc s)) eqn:Eb; [|done].
  destruct (CommitLog (shm s)) eqn:Ec; [|by rewrite Eb, Ec].
  destruct (xid <? kMaxXids); simpl; rewrite ?Eb, ?Ec; by eauto.
Qed.

Lemma drop_cached_frame xid s :
  shm (drop_cached xid s) = shm s ∧ clog_of (drop_cached xid s) = clog_of s ∧
  varcache_of (drop_cached xid s) = varcache_of s ∧
  (∀ y, status_of (drop_cached xid s) y = status_of s y).
Proof. unfold drop_cached. by destruct (xid =? _). Qed.

Lemma set_status_run xid st s :
  TransactionIdIsNormal xid = true → cache_coherent s → is_Some (clog_of s) →
  ∃ s', set_status xid st s = (Ret tt, s') ∧ cache_coherent s' ∧
        is_Some (clog_of s') ∧ varcache_of s' = varcache_of s ∧
        (∀ y, status_of s' y = if bool_decide (y = xid ∧ xid < kMaxXids) then st
                               else status_of s y).
Proof.
  intros Hn Hc Hm. eexists. split; [done|].
  destruct (clog_write_frame xid st s) as (Hcx & Hcs & Hv & Hat).
  destruct (drop_cached_frame xid (clog_write xid st s)) as (_ & Hcl & Hv' & Hst).
  split_and!.
  - intros H. unfold drop_cached in *. destruct (xid =? _) eqn:E; [done|]. to_prop.
    rewrite fetch_clog_write, Hcx, Hcs in * by done.
    rewrite bool_decide_eq_false_2 by (intros [??]; lia). by apply Hc.
  - rewrite Hcl. by apply Hat.
  - by rewrite Hv', Hv.
  - intros y. rewrite Hst. unfold status_of. rewrite fetch_clog_write by done.
    repeat case_bool_decide; destruct_and?; subst; by rewrite ?Hn.
Qed.

(** ** The commit log as an abstract map

    What the commit log promises its clients: a map from transaction ids to
    statuses in which special ids are committed.  [clog_op] are the calls a
    backend makes, [exec_op] runs the code, [spec_op] the abstract map. *)

Inductive clog_op :=
| OpGetStatus (xid : Z)
| OpDidCommit (xid : Z)
| OpDidAbort (xid : Z)
| OpCommit (xid : Z)
| OpAbort (xid : Z)
| OpSetInProgress (xid : Z).

Inductive clog_out := OutStatus (st : XidStatus) | OutBool (b : bool) | OutUnit | OutError.

Definition op_xid (op : clog_op) : Z :=
  match op with
  | OpGetStatus x | OpDidCommit x | OpDidAbort x | OpCommit x | OpAbort x | OpSetInProgress x => x
  end.

Definition observe {A} (f : A → clog_out) (r : outcome A * state) : clog_out * state :=
  match r with (Ret a, s) => (f a, s) | (Ereport _, s) => (OutError, s) end.

Definition exec_op (op : clog_op) (s : state) : clog_out * state :=
  match op with
  | OpGetStatus x => observe OutStatus (TransactionIdGetStatus x s)
  | OpDidCommit x => observe OutBool (TransactionIdDidCommit x s)
  | OpDidAbort x => observe OutBool (TransactionIdDidAbort x s)
  | OpCommit x => observe (λ _, OutUnit) (TransactionIdCommit x s)
  | OpAbort x => observe (λ _, OutUnit) (TransactionIdAbort x s)
  | OpSetInProgress x => observe (λ _, OutUnit) (TransactionIdSetInProgress x s)
  end.

Definition clog_map := Z → XidStatus.
Definition map_set (f : clog_map) (xid : Z) (st : XidStatus) : clog_map :=
  λ y, if bool_decide (y = xid) then st else f y.

Definition spec_op (op : clog_op) (f : clog_map) : clog_out * clog_map :=
  match op with
  | OpGetStatus x => (OutStatus (f x), f)
  | OpDidCommit x => (OutBool (bool_decide (f x = kCommitted)), f)
  | OpDidAbort x => (OutBool (bool_decide (f x = kAborted)), f)
  | OpCommit x => if TransactionIdIsNormal x then (OutUnit, map_set f x kCommitted) else (OutError, f)
  | OpAbort x => if TransactionIdIsNormal x then (OutUnit, map_set f x kAborted) else (OutError, f)
  | OpSetInProgress x =>
      (OutUnit, if TransactionIdIsNormal x then map_set f x kInProgress else f)
  end.

Fixpoint exec_ops (ops : list clog_op) (s : state) : list clog_out * state :=
  match ops with
  | [] => ([], s)
  | op :: ops => let '(o, s1) := exec_op op s in
                 let '(os, s2) := exec_ops ops s1 in (o :: os, s2)
  end.

Fixpoint spec_ops (ops : list clog_op) (f : clog_map) : list clog_out :=
  match ops with
  | [] => []
  | op :: ops => let '(o, f1) := spec_op op f in o :: spec_ops ops f1
  end.

Definition clog_sim (s : state) (f : clog_map) : Prop :=
  cache_coherent s ∧ is_Some (clog_of s) ∧ ∀ y, status_of s y = f y.

Lemma fetch_log_attached xid s s' st :
  TransactionLogFetch xid s = (Ret st, s') → clog_of s' = clog_of s.
Proof. unfold TransactionLogFetch. repeat case_match; intros; simplify_eq; done. Qed.

Lemma write_sim xid st s f :
  clog_sim s f → TransactionIdIsNormal xid = true → xid < kMaxXids →
  ∃ s', set_status xid st s = (Ret tt, s') ∧ clog_sim s' (map_set f xid st).
Proof.
  intros (Hc & Ha & Hs) Hn Hx.
  destruct (set_status_run xid st s Hn Hc Ha) as (s' & -> & Hc' & Ha' & _ & Hs').
  exists s'. split; [done|]. split_and!; [done|done|]. intros y. rewrite Hs', Hs. unfold map_set.
  case_bool_decide as Hd; [destruct Hd as [-> _]; by rewrite bool_decide_eq_true_2|].
  case_bool_decide; [subst; tauto|done].
Qed.

Lemma exec_op_sim op s f :
  clog_sim s f → op_xid op < kMaxXids →
  ∃ s', exec_op op s = (fst (spec_op op f), s') ∧ clog_sim s' (snd (spec_op op f)).
Proof.
  intros Hsim Hx. pose proof Hsim as (Hc & Ha & Hs).
  destruct op as [x|x|x|x|x|x]; simpl in *.
  - destruct (fetch_log_run x s Hc) as (s' & Hr & Hc' & _ & Hs' & _).
    pose proof (fetch_log_attached _ _ _ _ Hr) as Ha'. exists s'.
    unfold TransactionIdGetStatus. rewrite Hr, Hs. simpl. split; [done|].
    split_and!; [done|by rewrite Ha'|]. intros y. by rewrite Hs', Hs.
  - destruct (fetch_log_run x s Hc) as (s' & Hr & Hc' & _ & Hs' & _).
    pose proof (fetch_log_attached _ _ _ _ Hr) as Ha'. exists s'.
    unfold TransactionIdDidCommit, TransactionIdGetStatus.
    rewrite (bind_ret_run _ _ _ _ _ Hr), Hs. simpl. split; [done|].
    split_and!; [done|by rewrite Ha'|]. intros y. by rewrite Hs', Hs.
  - unfold TransactionIdDidAbort. destruct (TransactionIdIsNormal x) eqn:En; simpl.
    + destruct (fetch_log_run x s Hc) as (s' & Hr & Hc' & _ & Hs' & _).
      pose proof (fetch_log_attached _ _ _ _ Hr) as Ha'. exists s'.
      unfold TransactionIdGetStatus. rewrite (bind_ret_run _ _ _ _ _ Hr), Hs. simpl.
      split; [done|]. split_and!; [done|by rewrite Ha'|]. intros y. by rewrite Hs', Hs.
    + exists s. specialize (Hs x). unfold status_of in Hs. rewrite En in Hs. by rewrite <- Hs.
  - unfold TransactionIdCommit. destruct (TransactionIdIsNormal x) eqn:En; cbn [negb]; [|by eauto].
    destruct (write_sim x kCommitted s f Hsim En Hx) as (s' & -> & ?). by exists s'.
  - unfold TransactionIdAbort. destruct (TransactionIdIsNormal x) eqn:En; cbn [negb]; [|by eauto].
    destruct (write_sim x kAborted s f Hsim En Hx) as (s' & -> & ?). by exists s'.
  - unfold TransactionIdSetInProgress. destruct (TransactionIdIsNormal x) eqn:En; cbn [negb]; [|by eauto].
    destruct (write_sim x kInProgress s f Hsim En Hx) as (s' & -> & ?). by exists s'.
Qed.

(** C29: For every sequence of commit-log calls made by one backend on ids the
    log can hold, the answers of the code, read through its one-entry cache,
    are those of an uncached map from ids to statuses; in particular no read
    returns a status that a commit or an abort has replaced. *)
Theorem commit_log_refines (ops : list clog_op) (s : state)
  (Hcoherent : cache_coherent s) (Hattached : is_Some (clog_of s))
  (Hrange : Forall (λ op, op_xid op < kMaxXids) ops) :
  fst (exec_ops ops s) = spec_ops ops (status_of s).
Proof.
  assert (Hsim : clog_sim s (status_of s)) by done. revert Hsim.
  generalize (status_of s). clear Hcoherent Hattached.
  revert s. induction Hrange as [|op ops Hop _ IH]; intros s f Hsim; simpl; [done|].
  destruct (exec_op_sim op s f Hsim Hop) as (s' & Heq & Hsim').
  rewrite Heq. destruct (spec_op op f) as [o f'] eqn:Es. simpl in *.
  specialize (IH s' f' Hsim'). destruct (exec_ops ops s') as [os s''].
  simpl in *. by rewrite IH.
Qed.

Definition ready_state : state := exec InitializeCommitLog initial_state.

Lemma commit_log_refines_witness :
  fst (exec_ops [OpSetInProgress 3; OpDidCommit 3; OpCommit 3; OpDidCommit 3; OpAbort 4;
                 OpGetStatus 4; OpCommit 2] ready_state)
  = [OutUnit; OutBool false; OutUnit; OutBool true; OutUnit; OutStatus kAborted; OutError].
Proof.
  rewrite commit_log_refines; [reflexivity|intros H; discriminate H|eexists; reflexivity|].
  repeat constructor.
Defined.

(** The status cache is private to a backend while the log is shared:
    when a backend has read a running transaction's status, and another
    backend then commits that transaction, the first backend keeps answering
    that it did not commit, although the log it reads says it did. *)
Theorem stale_cache_across_backends (sh : shmem) (writer reader : local) (xid : Z)
  (Hn : TransactionIdIsNormal xid = true) (Hx : xid < kMaxXids)
  (Hw : is_Some (clog_of (mkState sh writer))) (Hr : g_clog_base reader = true)
  (Hwc : cache_coherent (mkState sh writer))
  (Hread : cached_xid reader = xid ∧ cached_status reader = kInProgress) :
  let sh' := shm (exec (TransactionIdCommit xid) (mkState sh writer)) in
  fst (TransactionIdDidCommit xid (mkState sh' reader)) = Ret false ∧
  status_of (mkState sh' reader) xid = kCommitted.
Proof.
  destruct Hread as [Hcx Hcs]. unfold exec, TransactionIdCommit. rewrite Hn. cbn [negb].
  destruct (set_status_run xid kCommitted _ Hn Hwc Hw) as (s' & -> & _ & Ha & _ & Hs).
  simpl. split.
  - unfold TransactionIdDidCommit, TransactionIdGetStatus, TransactionLogFetch. run_step.
    rewrite Hn. simpl. rewrite Hcx, Z.eqb_refl, Hcs. done.
  - specialize (Hs xid). rewrite bool_decide_eq_true_2 in Hs by done.
    unfold status_of, FetchFromCommitLog, clog_of in *. rewrite Hn in *. simpl. rewrite Hr.
    destruct (g_clog_base (loc s')); [done|]. destruct Ha as [? Ha]. done.
Qed.

Definition polled_state : state :=
  exec (TransactionIdGetStatus 3) (mkState (shm (exec AllocateNextTransactionId ready_state))
                                           (loc ready_state)).

Lemma stale_cache_across_backends_witness :
  fst (TransactionIdDidCommit 3
         (mkState (shm (exec (TransactionIdCommit 3) (mkState (shm polled_state) (loc ready_state))))
                  (loc polled_state))) = Ret false.
Proof.
  apply (stale_cache_across_backends (shm polled_state) (loc ready_state) (loc polled_state) 3);
    try reflexivity.
  - eexists; reflexivity.
  - intros H; discriminate H.
  - split; reflexivity.
Defined.

(** The log has room for 2^24 transactions only: committing a transaction
    with a larger id is accepted and leaves the log unchanged, so the
    transaction never reads as committed. *)
Theorem commit_beyond_clog_is_lost (s : state) (xid : Z)
  (Hc : cache_coherent s) (Ha : is_Some (clog_of s)) (Hx : kMaxXids ≤ xid) :
  fst (TransactionIdCommit xid s) = Ret tt ∧
  fst (TransactionIdDidCommit xid (exec (TransactionIdCommit xid) s)) = Ret false.
Proof.
  assert (Hn : TransactionIdIsNormal xid = true).
  { unfold TransactionIdIsNormal, kFirstNormalTransactionId. rewrite kMaxXids_val in Hx. lia. }
  unfold exec, TransactionIdCommit. rewrite Hn. cbn [negb].
  destruct (set_status_run xid kCommitted s Hn Hc Ha) as (s' & -> & Hc' & _ & _ & Hs).
  split; [done|]. simpl.
  destruct (did_commit_run xid s' Hc') as (s'' & -> & _). simpl. f_equal.
  rewrite Hs, (bool_decide_eq_false_2 (xid = xid ∧ _)) by lia. unfold status_of, FetchFromCommitLog. rewrite Hn.
  destruct (clog_of s); [|done]. by rewrite (proj2 (Z.leb_le _ _)).
Qed.

Lemma commit_beyond_clog_is_lost_witness :
  fst (TransactionIdDidCommit 16777216 (exec (TransactionIdCommit 16777216) ready_state)) = Ret false.
Proof.
  apply commit_beyond_clog_is_lost; [intros H; discriminate H|eexists; reflexivity|].
  vm_compute. discriminate.
Defined.

(** ** Assignment of transaction ids *)

Lemma allocate_run s v :
  varcache_of s = Some v → cache_coherent s → is_Some (clog_of s) →
  let s1 := set_varcache (mkVariableCache (u32 (nextXid v + 1)) (oldestXid v)) s in
  AllocateNextTransactionId s =
    if nextXid v =? kInvalidTransactionId then (Ereport "variable cache not initialized", s1)
    else (Ret (nextXid v), exec (TransactionIdSetInProgress (nextXid v)) s1).
Proof.
  intros Hv Hc Ha s1. unfold AllocateNextTransactionId, exec. run_step. rewrite Hv.
  fold s1. destruct (nextXid v =? _); [done|].
  unfold TransactionIdSetInProgress. by destruct (negb _).
Qed.

Lemma set_varcache_frame v s :
  clog_of (set_varcache v s) = clog_of s ∧ (cache_coherent s → cache_coherent (set_varcache v s)) ∧
  (∀ y, status_of (set_varcache v s) y = status_of s y) ∧
  (is_Some (varcache_of s) → varcache_of (set_varcache v s) = Some v).
Proof.
  split_and!; try done. unfold varcache_of. simpl. by destruct (g_variable_cache _); [|intros []].
Qed.

(** One assignment. *)
Lemma allocate_next_run (s : state) (v : VariableCacheData)
  (Hv : varcache_of s = Some v) (Hc : cache_coherent s) (Ha : is_Some (clog_of s))
  (Hn : kFirstNormalTransactionId ≤ nextXid v < 2 ^ 32 - 1) :
  ∃ s', AllocateNextTransactionId s = (Ret (nextXid v), s') ∧
        varcache_of s' = Some (mkVariableCache (nextXid v + 1) (oldestXid v)) ∧
        cache_coherent s' ∧ is_Some (clog_of s') ∧
        ∀ y, status_of s' y = if bool_decide (y = nextXid v) then kInProgress else status_of s y.
Proof.
  assert (Hnorm : TransactionIdIsNormal (nextXid v) = true)
    by (unfold TransactionIdIsNormal; lia).
  unfold kFirstNormalTransactionId in Hn.
  rewrite (allocate_run s v), (proj2 (Z.eqb_neq (nextXid v) _)) by (done || (unfold kInvalidTransactionId; lia)).
  set (v' := mkVariableCache _ _).
  destruct (set_varcache_frame v' s) as (Hcl & Hco & Hst & Hva).
  unfold exec, TransactionIdSetInProgress. rewrite Hnorm. cbn [negb].
  destruct (set_status_run (nextXid v) kInProgress (set_varcache v' s)) as (s' & -> & ? & ? & Hv' & Hs');
    [done|auto|by rewrite Hcl|].
  exists s'. split_and!; try done.
  - rewrite Hv', Hva by eauto. subst v'. f_equal. f_equal. apply u32_small. unfold is_u32. lia.
  - intros y. rewrite Hs', Hst. case_bool_decide as Hd.
    { destruct Hd as [-> _]. by rewrite bool_decide_eq_true_2. }
    case_bool_decide; [subst y|done].
    unfold status_of, FetchFromCommitLog. rewrite Hnorm. destruct (clog_of s); [|done].
    case_match; [done|]. to_prop. lia.
Qed.

(** [k] assignments one after the other. *)
Fixpoint allocate_n (k : nat) : M state (list Z) :=
  match k with
  | O => mret []
  | S k' => x ← AllocateNextTransactionId; xs ← allocate_n k'; mret (x :: xs)
  end.

(** Transaction ids are handed out in order and never twice (up to the
    wrap-around of the counter): [k] assignments return the [k] consecutive
    ids from the counter on and advance it by [k]; each of them is then in
    progress and every other transaction's status is as it was. *)
Theorem allocate_assigns_next (k : nat) (s : state) (v : VariableCacheData)
  (Hv : varcache_of s = Some v) (Hc : cache_coherent s) (Ha : is_Some (clog_of s))
  (Hn : kFirstNormalTransactionId ≤ nextXid v) (Hk : nextXid v + Z.of_nat k < 2 ^ 32) :
  ∃ s', allocate_n k s = (Ret (seqZ (nextXid v) (Z.of_nat k)), s') ∧
        varcache_of s' = Some (mkVariableCache (nextXid v + Z.of_nat k) (oldestXid v)) ∧
        ∀ y, status_of s' y = if bool_decide (nextXid v ≤ y < nextXid v + Z.of_nat k)
                              then kInProgress else status_of s y.
Proof.
  revert s v Hv Hc Ha Hn Hk. induction k as [|k IH]; intros s v Hv Hc Ha Hn Hk.
  { exists s. rewrite Z.add_0_r. split; [done|]. split; [by destruct v|].
    intros y. by rewrite bool_decide_eq_false_2 by lia. }
  destruct (allocate_next_run s v Hv Hc Ha) as (s1 & Hr & Hv1 & Hc1 & Ha1 & Hs1); [lia|].
  destruct (IH s1 _ Hv1 Hc1 Ha1) as (s2 & Hr2 & Hv2 & Hs2); [simpl; lia|simpl; lia|].
  exists s2. cbn [allocate_n]. rewrite (bind_ret_run _ _ _ _ _ Hr), (bind_ret_run _ _ _ _ _ Hr2).
  simpl in *. split_and!.
  - unfold mret, M_ret. f_equal. f_equal. rewrite (seqZ_cons (nextXid v)) by lia.
    f_equal. f_equal; lia.
  - rewrite Hv2. f_equal. f_equal. lia.
  - intros y. rewrite Hs2, Hs1. repeat case_bool_decide; try done; lia.
Qed.

Lemma allocate_assigns_next_witness :
  ∃ s', allocate_n 3 ready_state = (Ret [3; 4; 5], s') ∧ varcache_of s' = Some (mkVariableCache 6 3).
Proof.
  destruct (allocate_assigns_next 3 ready_state (mkVariableCache 3 3)) as (s' & H1 & H2 & _).
  - reflexivity.
  - intros H; discriminate H.
  - eexists; reflexivity.
  - unfold kFirstNormalTransactionId; simpl; lia.
  - simpl; lia.
  - exists s'. split; [exact H1|exact H2].
Defined.

(** The counter has no wrap-around protection: after the id 2^32 - 1 has
    been assigned the next call fails with the message for an uninitialised
    cache, and the call after it hands out the reserved bootstrap id 1, which
    can be neither committed nor aborted. *)
Theorem allocate_wraps_to_reserved_ids (s : state) (v : VariableCacheData)
  (Hv : varcache_of s = Some v) (Hc : cache_coherent s) (Ha : is_Some (clog_of s))
  (Hn : nextXid v = 2 ^ 32 - 1) :
  let s1 := exec AllocateNextTransactionId s in
  let s2 := exec AllocateNextTransactionId s1 in
  fst (AllocateNextTransactionId s) = Ret (2 ^ 32 - 1) ∧
  fst (AllocateNextTransactionId s1) = Ereport "variable cache not initialized" ∧
  fst (AllocateNextTransactionId s2) = Ret kBootstrapTransactionId ∧
  ∀ s', ∃ msg, TransactionIdCommit kBootstrapTransactionId s' = (Ereport msg, s').
Proof.
  assert (H1 : ∃ s1, AllocateNextTransactionId s = (Ret (2 ^ 32 - 1), s1) ∧
    varcache_of s1 = Some (mkVariableCache 0 (oldestXid v)) ∧ cache_coherent s1 ∧ is_Some (clog_of s1)).
  { rewrite (allocate_run s v), Hn by done. change (_ =? _) with false. cbn match.
    set (v' := mkVariableCache _ _). destruct (set_varcache_frame v' s) as (Hcl & Hco & _ & Hva).
    unfold exec, TransactionIdSetInProgress. change (negb _) with false. cbn match.
    destruct (set_status_run (2 ^ 32 - 1) kInProgress (set_varcache v' s)) as (s1 & -> & ? & ? & Hv1 & _);
      [done|auto|by rewrite Hcl|].
    exists s1. rewrite Hv1, Hva by eauto. done. }
  destruct H1 as (s1 & Hr1 & Hv1 & Hc1 & Ha1). unfold exec. rewrite Hr1. cbn [snd fst].
  rewrite (allocate_run s1 _ Hv1 Hc1 Ha1). cbn [nextXid]. change (0 =? _) with true. cbn match.
  cbn [fst snd]. set (v2 := mkVariableCache _ _).
  destruct (set_varcache_frame v2 s1) as (Hcl & Hco & _ & Hva).
  rewrite (allocate_run _ v2) by (auto || by rewrite ?Hcl). split_and!; try done.
  intros s'. by eexists.
Qed.

Lemma allocate_wraps_to_reserved_ids_witness :
  fst (AllocateNextTransactionId
         (exec AllocateNextTransactionId
           (exec AllocateNextTransactionId (set_varcache (mkVariableCache (2 ^ 32 - 1) 3) ready_state))))
  = Ret 1.
Proof.
  destruct (allocate_wraps_to_reserved_ids
              (set_varcache (mkVariableCache (2 ^ 32 - 1) 3) ready_state)
              (mkVariableCache (2 ^ 32 - 1) 3)) as (_ & _ & H & _).
  - reflexivity.
  - intros H; discriminate H.
  - eexists; reflexivity.
  - reflexivity.
  - exact H.
Defined.

End Transam.
