(* ===== verification/CString.v ===== *)
(** * The C library's number formatting and parsing

    The parts of [snprintf] ("%X" with a width, "%u") and of
    [strtol]/[strtoul] that the modelled code uses, on strings as lists of
    characters.  A C string handed to [strtol] ends at its first NUL. *)

From Stdlib Require Import Ascii.
From stdpp Require Import base list strings.
From S2P Require Import Prelude.

Module CString.

Definition chars (s : string) : list ascii := String.list_ascii_of_string s.
Definition of_chars (l : list ascii) : string := String.string_of_list_ascii l.

Lemma chars_of_chars l : chars (of_chars l) = l.
Proof. apply String.list_ascii_of_string_of_list_ascii. Qed.

Lemma of_chars_chars s : of_chars (chars s) = s.
Proof. apply String.string_of_list_ascii_of_string. Qed.

Lemma append_inj_l (a b c : string) : a +:+ b = a +:+ c → b = c.
Proof. induction a as [|ch a IH]; simpl; [done|]. intros H. injection H. done. Qed.

Lemma chars_app s1 s2 : chars (s1 +:+ s2) = chars s1 ++ chars s2.
Proof. induction s1 as [|c s1 IH]; simpl; [done|]. by f_equal. Qed.

(** ** Printing *)

(** The digit [d] (0 to 15) as "%X" prints it. *)
Definition digit_char (d : Z) : ascii :=
  ascii_of_N (Z.to_N (if d <? 10 then d + 48 else d + 55)).

(** "%0<width>X" or "%0<width>u" of a nonnegative number. *)
Definition print_digits (b : Z) (fuel : nat) (z : Z) : list ascii := map digit_char (digits b fuel z []).
Definition print_padded (b : Z) (width fuel : nat) (z : Z) : list ascii :=
  let ds := digits b fuel z [] in
  map digit_char (replicate (width - length ds) 0 ++ ds).

(** ** Parsing *)

Definition is_space (c : ascii) : bool :=
  let n := N_of_ascii c in (n =? 32)%N || ((9 <=? n) && (n <=? 13))%N.

Definition digit_val (c : ascii) : option Z :=
  let n := Z.of_N (N_of_ascii c) in
  if (48 <=? n) && (n <=? 57) then Some (n - 48)
  else if (65 <=? n) && (n <=? 90) then Some (n - 55)
  else if (97 <=? n) && (n <=? 122) then Some (n - 87)
  else None.

Definition digit_in (b : Z) (c : ascii) : option Z :=
  d ← digit_val c; if d <? b then Some d else None.

Fixpoint skip_space (l : list ascii) : list ascii :=
  match l with c :: l' => if is_space c then skip_space l' else l | [] => [] end.

(** The longest run of digits, and what follows it. *)
Fixpoint span_digits (b : Z) (l : list ascii) : list Z * list ascii :=
  match l with
  | [] => ([], [])
  | c :: l' => match digit_in b c with
               | Some d => let '(ds, r) := span_digits b l' in (d :: ds, r)
               | None => ([], l)
               end
  end.

Definition take_sign (l : list ascii) : bool * list ascii :=
  match l with
  | "-"%char :: l' => (true, l')
  | "+"%char :: l' => (false, l')
  | _ => (false, l)
  end.

(** Base 16 skips a "0x" that is followed by a hexadecimal digit. *)
Definition skip_0x (b : Z) (l : list ascii) : list ascii :=
  match l with
  | "0"%char :: x :: c :: l' =>
      if (b =? 16) && (Ascii.eqb x "x" || Ascii.eqb x "X")%bool
      then match digit_in b c with Some _ => c :: l' | None => l end
      else l
  | _ => l
  end.

(** The sign, the value of the digits and the unread rest; [None] when there
    is no digit (then [*end] is the start of the string and the value 0). *)
Definition scan_integer (b : Z) (l : list ascii) : option (bool * Z * list ascii) :=
  let '(neg, l1) := take_sign (skip_space l) in
  let '(ds, rest) := span_digits b (skip_0x b l1) in
  match ds with [] => None | _ => Some (neg, undigits b ds, rest) end.

Definition strtol (b : Z) (l : list ascii) : option (Z * list ascii) :=
  match scan_integer b l with
  | None => None
  | Some (neg, v, rest) =>
      Some (if neg then Z.max (- v) (- 2 ^ 63) else Z.min v (2 ^ 63 - 1), rest)
  end.

(** [strtoul] returns [ULONG_MAX] on overflow and negates modulo 2^64. *)
Definition strtoul (b : Z) (l : list ascii) : Z :=
  match scan_integer b l with
  | None => 0
  | Some (neg, v, _) =>
      if 2 ^ 64 <=? v then 2 ^ 64 - 1 else if neg then u64 (- v) else v
  end.

(** The characters of a C string: up to the first NUL. *)
Fixpoint c_str (l : list ascii) : list ascii :=
  match l with
  | [] => []
  | c :: l' => if Ascii.eqb c zero then [] else c :: c_str l'
  end.

(** ** Reading back what was printed *)

Lemma digit_in_char b d : 0 ≤ d < b → b ≤ 16 → digit_in b (digit_char d) = Some d.
Proof.
  intros Hd Hb.
  assert (Hall : ∀ n : nat, (n < 16)%nat → digit_val (digit_char (Z.of_nat n)) = Some (Z.of_nat n)).
  { intros n Hn. do 16 (destruct n as [|n]; [reflexivity|]). lia. }
  specialize (Hall (Z.to_nat d) ltac:(lia)). rewrite Z2Nat.id in Hall by lia.
  unfold digit_in. rewrite Hall. simpl. by rewrite (proj2 (Z.ltb_lt d b)) by lia.
Qed.

(** A printed digit is neither a space nor a sign nor the "x" of a prefix. *)
Lemma digit_char_plain d :
  0 ≤ d < 16 →
  is_space (digit_char d) = false ∧ digit_char d ≠ "-"%char ∧ digit_char d ≠ "+"%char ∧
  digit_char d ≠ "x"%char ∧ digit_char d ≠ "X"%char ∧ digit_char d ≠ "."%char ∧
  digit_char d ≠ zero ∧ digit_char d ≠ "010"%char ∧ digit_char d ≠ "="%char.
Proof.
  intros Hd.
  assert (Hall : ∀ n : nat, (n < 16)%nat → let c := digit_char (Z.of_nat n) in
    is_space c = false ∧ c ≠ "-"%char ∧ c ≠ "+"%char ∧ c ≠ "x"%char ∧ c ≠ "X"%char ∧
    c ≠ "."%char ∧ c ≠ zero ∧ c ≠ "010"%char ∧ c ≠ "="%char).
  { intros n Hn. do 16 (destruct n as [|n]; [vm_compute; split_and!; discriminate || reflexivity|]).
    lia. }
  specialize (Hall (Z.to_nat d) ltac:(lia)). by rewrite Z2Nat.id in Hall by lia.
Qed.

Definition not_digit_head (b : Z) (l : list ascii) : Prop :=
  match l with [] => True | c :: _ => digit_in b c = None end.

Lemma span_digits_chars b ds rest :
  b ≤ 16 → Forall (λ d, 0 ≤ d < b) ds → not_digit_head b rest →
  span_digits b (map digit_char ds ++ rest) = (ds, rest).
Proof.
  intros Hb Hds Hr. induction Hds as [|d ds Hd _ IH]; simpl.
  - destruct rest as [|c rest]; [done|]. simpl in *. by rewrite Hr.
  - by rewrite digit_in_char, IH by lia.
Qed.

Lemma skip_0x_chars b d ds rest :
  2 ≤ b ≤ 16 → Forall (λ d, 0 ≤ d < b) (d :: ds) → not_digit_head b rest →
  (b = 16 → head rest ≠ Some "x"%char ∧ head rest ≠ Some "X"%char) →
  skip_0x b (map digit_char (d :: ds) ++ rest) = map digit_char (d :: ds) ++ rest.
Proof.
  intros Hb Hds Hr Hx. unfold skip_0x.
  destruct (map digit_char (d :: ds) ++ rest) as [|c0 [|c1 [|c2 l]]] eqn:E; try (repeat case_match; done).
  assert (H1 : b = 16 → c1 ≠ "x"%char ∧ c1 ≠ "X"%char).
  { intros H16. simpl in E. injection E as E0 E. destruct ds as [|d1 ds]; simpl in E.
    - subst rest. destruct (Hx H16) as [Hx1 Hx2]. split; intros ->; [by apply Hx1|by apply Hx2].
    - injection E as <- _. inversion Hds as [|?? _ Hds']; subst. inversion Hds'; subst.
      destruct (digit_char_plain d1) as (_ & _ & _ & ? & ? & _); [lia|done]. }
  repeat case_match; try done. to_prop. subst. destruct (H1 eq_refl).
  match goal with H : _ ∨ _ |- _ => destruct H as [?%Ascii.eqb_eq|?%Ascii.eqb_eq] end; done.
Qed.

Lemma take_sign_plain c l : c ≠ "-"%char → c ≠ "+"%char → take_sign (c :: l) = (false, c :: l).
Proof. destruct c as [[] [] [] [] [] [] [] []]; done. Qed.

Lemma scan_digits_chars b ds rest :
  2 ≤ b ≤ 16 → Forall (λ d, 0 ≤ d < b) ds → ds ≠ [] → not_digit_head b rest →
  (b = 16 → head rest ≠ Some "x"%char ∧ head rest ≠ Some "X"%char) →
  scan_integer b (map digit_char ds ++ rest) = Some (false, undigits b ds, rest).
Proof.
  intros Hb Hds Hne Hr Hx. destruct ds as [|d ds]; [done|].
  assert (Hd : 0 ≤ d < 16) by (inversion Hds; lia).
  destruct (digit_char_plain d Hd) as (Hs & Hm & Hp & _).
  unfold scan_integer.
  assert (Hskip : skip_space (map digit_char (d :: ds) ++ rest) = map digit_char (d :: ds) ++ rest)
    by (simpl; by rewrite Hs).
  rewrite Hskip.
  assert (Hsign := take_sign_plain (digit_char d) (map digit_char ds ++ rest) Hm Hp).
  change (take_sign _) with (take_sign (digit_char d :: (map digit_char ds ++ rest))).
  rewrite Hsign. change (digit_char d :: _) with (map digit_char (d :: ds) ++ rest).
  rewrite skip_0x_chars, span_digits_chars by (done || lia). done.
Qed.

Lemma undigits_printed b width fuel z :
  2 ≤ b → 0 ≤ z < b ^ Z.of_nat fuel → (0 < fuel)%nat →
  undigits b (replicate width 0 ++ digits b fuel z []) = z.
Proof.
  intros. rewrite undigits_zeros, undigits_digits by done. simpl. unfold undigits. simpl. lia.
Qed.

(** Scanning a zero-padded number gives the number back. *)
Lemma scan_print_padded b width fuel z rest :
  2 ≤ b ≤ 16 → 0 ≤ z < b ^ Z.of_nat fuel → (0 < fuel)%nat → not_digit_head b rest →
  (b = 16 → head rest ≠ Some "x"%char ∧ head rest ≠ Some "X"%char) →
  scan_integer b (print_padded b width fuel z ++ rest) = Some (false, z, rest).
Proof.
  intros Hb Hz Hf Hr Hx. unfold print_padded. rewrite scan_digits_chars; try done.
  - by rewrite undigits_printed by lia.
  - apply Forall_app. split; [apply Forall_replicate; lia|]. apply digits_range; [lia|constructor].
  - intros [_ H]%app_nil. by apply digits_nonempty in H.
Qed.

Lemma print_padded_plain b width fuel z :
  2 ≤ b ≤ 16 → Forall (λ c, ∃ d, 0 ≤ d < 16 ∧ c = digit_char d) (print_padded b width fuel z).
Proof.
  intros Hb. unfold print_padded. apply Forall_fmap.
  apply Forall_app. split.
  - apply Forall_replicate. exists 0. done.
  - eapply Forall_impl; [apply (digits_range b); [lia|constructor]|].
    intros d Hd. exists d. split; [simpl in Hd; lia|done].
Qed.

End CString.
