(* ===== verification/ClogFiles.v ===== *)
(** * Persistence of the commit log: pg_xact/

    Models [SetClogDirectory], [LoadClogFiles], [FlushClogFiles],
    [ShutdownClog] and [ResetClogPersistence] of src/transaction/transam.cpp:
    dirty pages of the log are written as files of 8192 bytes, 2 bits per
    transaction, named by their page number in hexadecimal.

    The directory is a map from file names to contents; [unopenable] are the
    names [open] fails on.  [write], [fsync] and [mkdir] succeed. *)

From Stdlib Require Import Ascii.
From stdpp Require Import base gmap list strings.
From S2P Require Import Prelude CString Transam.
Import CString Transam.

Module ClogFiles.

Record filesystem := mkFs {
  dir_exists : bool;
  files : gmap string (list Z);
  unopenable : gset string
}.

Definition PageFileName (pageno : Z) : string := of_chars (print_padded 16 4 8 pageno).

(** One byte of a page: the inner loop over the four transactions it holds. *)
Fixpoint encode_quad (clog : gmap Z XidStatus) (xid_start i : Z) (js : list Z) (byte : Z) : Z :=
  match js with
  | [] => byte
  | j :: js' =>
      let xid := u32 (xid_start + i * 4 + j) in
      if kMaxXids <=? xid then byte
      else encode_quad clog xid_start i js'
             (u8 (Z.lor byte (u8 (Z.shiftl (Z.land (XidStatus_to_Z (clog_get clog xid)) 3) (j * 2)))))
  end.

Definition encode_page (clog : gmap Z XidStatus) (pageno : Z) : list Z :=
  let xid_start := u32 (pageno * kClogXidsPerPage) in
  map (λ i, encode_quad clog xid_start i [0; 1; 2; 3] 0) (seqZ 0 kSlruPageSize).

Fixpoint decode_quad (xid_start i byte : Z) (js : list Z) (clog : gmap Z XidStatus) : gmap Z XidStatus :=
  match js with
  | [] => clog
  | j :: js' =>
      let xid := u32 (xid_start + i * 4 + j) in
      if kMaxXids <=? xid then clog
      else decode_quad xid_start i byte js'
             (<[xid := XidStatus_of_Z (Z.land (Z.shiftr byte (j * 2)) 3)]> clog)
  end.

Fixpoint decode_bytes (xid_start i : Z) (bytes : list Z) (clog : gmap Z XidStatus) : gmap Z XidStatus :=
  match bytes with
  | [] => clog
  | b :: bytes' => decode_bytes xid_start (i + 1) bytes' (decode_quad xid_start i b [0; 1; 2; 3] clog)
  end.

(** The page number a directory entry names, when it is a page file. *)
Definition parse_page_name (name : string) : option Z :=
  if bool_decide (head (chars name) = Some "."%char) then None
  else match strtol 16 (c_str (chars name)) with
       | Some (pageno, []) => if pageno <? 0 then None else Some pageno
       | _ => None
       end.

(** The body of the [readdir] loop for one entry. *)
Definition load_entry (denied : gset string) (clog : gmap Z XidStatus)
    (entry : string * list Z) : gmap Z XidStatus :=
  match parse_page_name (fst entry) with
  | None => clog
  | Some pageno =>
      if bool_decide (fst entry ∈ denied) then clog
      else decode_bytes (u32 (u32 pageno * kClogXidsPerPage)) 0
             (take (Z.to_nat kSlruPageSize) (snd entry)) clog
  end.

Definition SetClogDirectory (dir : string) : M state unit := modify (set_dir dir).

(** [entries] is the order in which [readdir] enumerates the directory. *)
Definition LoadClogFiles (fs : filesystem) (entries : list (string * list Z)) : M state unit :=
  modify (λ s,
    match clog_of s with
    | Some clog =>
        if bool_decide (ClogDirectory (loc s) = "") then s
        else if negb (dir_exists fs) then s
        else set_clog (foldl (load_entry (unopenable fs)) clog entries) s
    | None => s
    end).

Definition flush_page (clog : gmap Z XidStatus) (fs : filesystem) (pageno : Z) : filesystem :=
  if bool_decide (PageFileName pageno ∈ unopenable fs) then fs
  else mkFs (dir_exists fs) (<[PageFileName pageno := encode_page clog pageno]> (files fs)) (unopenable fs).

Definition FlushClogFiles (fs : filesystem) : M state filesystem := λ s,
  match clog_of s with
  | Some clog =>
      if bool_decide (ClogDirectory (loc s) = "") then (Ret fs, s)
      else (Ret (foldl (flush_page clog) (mkFs true (files fs) (unopenable fs))
                       (elements (DirtyClogPages (loc s)))),
            set_dirty ∅ s)
  | None => (Ret fs, s)
  end.

Definition ShutdownClog (fs : filesystem) : M state filesystem := FlushClogFiles fs.

Definition ResetClogPersistence : M state unit := modify (λ s, set_dirty ∅ (set_dir "" s)).

(** ** File names *)

Lemma parse_PageFileName p : 0 ≤ p < 2 ^ 31 → parse_page_name (PageFileName p) = Some p.
Proof.
  intros Hp. unfold parse_page_name, PageFileName. rewrite chars_of_chars.
  assert (Hc : c_str (print_padded 16 4 8 p) = print_padded 16 4 8 p).
  { pose proof (print_padded_plain 16 4 8 p ltac:(lia)) as H.
    induction H as [|c l (d & Hd & ->) _ IH]; [done|]. simpl.
    destruct (digit_char_plain d Hd) as (_ & _ & _ & _ & _ & _ & Hz & _).
    destruct (Ascii.eqb_spec (digit_char d) zero); [done|]. by rewrite IH. }
  assert (Hs : strtol 16 (print_padded 16 4 8 p) = Some (p, [])).
  { unfold strtol. rewrite <- (app_nil_r (print_padded 16 4 8 p)).
    rewrite scan_print_padded by (done || lia). f_equal. f_equal. lia. }
  assert (Hd : ∃ d l, 0 ≤ d < 16 ∧ print_padded 16 4 8 p = digit_char d :: l).
  { pose proof (print_padded_plain 16 4 8 p ltac:(lia)) as H.
    destruct (print_padded 16 4 8 p) as [|c l] eqn:E; [by vm_compute in Hs|].
    inversion H as [|?? (d & Hd & ->)]; subst. eauto. }
  destruct Hd as (d & l & Hd & Hl). rewrite Hc, Hs, Hl.
  destruct (digit_char_plain d Hd) as (_ & _ & _ & _ & _ & Hdot & _).
  rewrite bool_decide_eq_false_2 by (simpl; congruence).
  by rewrite (proj2 (Z.ltb_ge p 0)) by lia.
Qed.

Lemma PageFileName_inj p q :
  0 ≤ p < 2 ^ 31 → 0 ≤ q < 2 ^ 31 → PageFileName p = PageFileName q → p = q.
Proof.
  intros Hp Hq H. apply (f_equal parse_page_name) in H.
  rewrite !parse_PageFileName in H by done. by injection H.
Qed.
(** ** Pages *)

Definition decode_status (byte k : Z) : XidStatus := XidStatus_of_Z (Z.land (Z.shiftr byte (k * 2)) 3).

Lemma decode_quad_lookup xs i byte clog y :
  0 ≤ xs + i * 4 → xs + i * 4 + 4 ≤ kMaxXids →
  decode_quad xs i byte [0; 1; 2; 3] clog !! y =
    if decide (xs + i * 4 ≤ y < xs + i * 4 + 4)
    then Some (decode_status byte (y - (xs + i * 4))) else clog !! y.
Proof.
  intros H0 H1. rewrite kMaxXids_val in *. cbn [decode_quad]. rewrite kMaxXids_val.
  rewrite !u32_small by (unfold is_u32; lia).
  rewrite !(proj2 (Z.leb_gt _ _)) by lia. rewrite !lookup_insert.
  repeat case_decide; subst; try lia; try (f_equal; unfold decode_status; do 3 f_equal; lia); done.
Qed.

Lemma decode_bytes_lookup xs i bytes clog y :
  0 ≤ xs → 0 ≤ i → xs + (i + Z.of_nat (length bytes)) * 4 ≤ kMaxXids →
  decode_bytes xs i bytes clog !! y =
    match (if decide (xs + i * 4 ≤ y) then bytes !! Z.to_nat ((y - xs) / 4 - i) else None) with
    | Some b => Some (decode_status b ((y - xs) `mod` 4))
    | None => clog !! y
    end.
Proof.
  intros Hxs. revert i clog. induction bytes as [|b bytes IH]; intros i clog Hi Hm; cbn [decode_bytes].
  { by case_decide. }
  cbn [length] in Hm. rewrite IH by lia. rewrite decode_quad_lookup by lia.
  pose proof (Z.div_mod (y - xs) 4 ltac:(lia)) as Hdm.
  pose proof (Z.mod_pos_bound (y - xs) 4 ltac:(lia)) as Hmb.
  destruct (decide (xs + i * 4 ≤ y < xs + i * 4 + 4)) as [Hin|Hout].
  - rewrite decide_False by lia. rewrite decide_True by lia.
    replace ((y - xs) / 4 - i) with 0 by lia. simpl. do 2 f_equal. lia.
  - destruct (decide (xs + (i + 1) * 4 ≤ y)).
    + rewrite decide_True by lia.
      replace (Z.to_nat ((y - xs) / 4 - i)) with (S (Z.to_nat ((y - xs) / 4 - (i + 1)))) by lia.
      done.
    + rewrite decide_False by lia. done.
Qed.

Lemma quad_roundtrip clog xs i j :
  0 ≤ xs + i * 4 → xs + i * 4 + 4 ≤ kMaxXids → 0 ≤ j < 4 →
  decode_status (encode_quad clog xs i [0; 1; 2; 3] 0) j = clog_get clog (xs + i * 4 + j).
Proof.
  intros H0 H1 Hj. cbn [encode_quad]. rewrite kMaxXids_val in *.
  rewrite !u32_small by (unfold is_u32; lia). rewrite !(proj2 (Z.leb_gt _ _)) by lia.
  assert (j = 0 ∨ j = 1 ∨ j = 2 ∨ j = 3) as [-> | [-> | [-> | ->]]] by lia;
    destruct (clog_get clog (xs + i * 4 + 0)), (clog_get clog (xs + i * 4 + 1)),
      (clog_get clog (xs + i * 4 + 2)), (clog_get clog (xs + i * 4 + 3)); reflexivity.
Qed.

Definition kClogPages : Z := kMaxXids / kClogXidsPerPage.

Lemma kClogPages_val : kClogPages = 512.
Proof. reflexivity. Qed.

Lemma length_encode_page clog p : length (encode_page clog p) = Z.to_nat kSlruPageSize.
Proof. unfold encode_page. by rewrite length_fmap, length_seqZ. Qed.

Lemma decode_page_other p bytes clog y :
  0 ≤ p < kClogPages → y / kClogXidsPerPage ≠ p →
  decode_bytes (u32 (u32 p * kClogXidsPerPage)) 0 (take (Z.to_nat kSlruPageSize) bytes) clog !! y = clog !! y.
Proof.
  intros Hp Hy. rewrite kClogPages_val in Hp. unfold kClogXidsPerPage, kSlruPageSize in *.
  assert (Hlen : (length (take (Z.to_nat 8192) bytes) ≤ Z.to_nat 8192)%nat) by (rewrite length_take; lia).
  rewrite (u32_small p), u32_small by (unfold is_u32; lia).
  rewrite decode_bytes_lookup by (rewrite ?kMaxXids_val; lia). case_decide; [|done].
  rewrite lookup_ge_None_2; [done|]. etrans; [exact Hlen|].
  pose proof (Z.div_mod y 32768 ltac:(lia)). pose proof (Z.mod_pos_bound y 32768 ltac:(lia)).
  pose proof (Z.div_mod (y - p * 32768) 4 ltac:(lia)).
  pose proof (Z.mod_pos_bound (y - p * 32768) 4 ltac:(lia)). lia.
Qed.

Lemma decode_encode_page clog p clog' y :
  0 ≤ p < kClogPages → y / kClogXidsPerPage = p →
  decode_bytes (u32 (u32 p * kClogXidsPerPage)) 0 (take (Z.to_nat kSlruPageSize) (encode_page clog p)) clog' !! y
  = Some (clog_get clog y).
Proof.
  intros Hp Hy. rewrite kClogPages_val in Hp.
  rewrite take_ge by (by rewrite length_encode_page).
  pose proof (length_encode_page clog p) as Hlen. unfold kClogXidsPerPage, kSlruPageSize in *.
  pose proof (Z.div_mod y 32768 ltac:(lia)). pose proof (Z.mod_pos_bound y 32768 ltac:(lia)).
  rewrite (u32_small p), u32_small by (unfold is_u32; lia).
  rewrite decode_bytes_lookup by (rewrite ?kMaxXids_val; lia). rewrite decide_True by lia.
  pose proof (Z.div_mod (y - p * 32768) 4 ltac:(lia)).
  pose proof (Z.mod_pos_bound (y - p * 32768) 4 ltac:(lia)).
  set (i := (y - p * 32768) / 4) in *. rewrite Z.sub_0_r.
  unfold encode_page, kClogXidsPerPage. rewrite list_lookup_fmap.
  rewrite (u32_small (p * 32768)) by (unfold is_u32; lia).
  rewrite lookup_seqZ_lt by (unfold kSlruPageSize; lia). cbn [fmap option_fmap option_map].
  rewrite quad_roundtrip by (rewrite ?kMaxXids_val; lia). do 2 f_equal. lia.
Qed.

(** ** The directory *)

(** Every page file of the directory has the name the code gives it. *)
Definition canonical (fs : filesystem) : Prop :=
  unopenable fs = ∅ ∧
  ∀ name q, is_Some (files fs !! name) → parse_page_name name = Some q →
            name = PageFileName q ∧ 0 ≤ q < kClogPages.

Lemma load_entry_other name bytes clog y :
  (∀ q, parse_page_name name = Some q → 0 ≤ q < kClogPages ∧ y / kClogXidsPerPage ≠ q) →
  load_entry ∅ clog (name, bytes) !! y = clog !! y.
Proof.
  intros H. unfold load_entry. cbn [fst snd]. destruct (parse_page_name name) as [q|]; [|done].
  rewrite bool_decide_eq_false_2 by set_solver. destruct (H q eq_refl). by apply decode_page_other.
Qed.

Lemma load_entries_lookup clog p y entries clog' :
  0 ≤ p < kClogPages → y / kClogXidsPerPage = p →
  NoDup entries.*1 →
  (∀ name bytes q, (name, bytes) ∈ entries → parse_page_name name = Some q →
                   name = PageFileName q ∧ 0 ≤ q < kClogPages) →
  (∀ bytes, (PageFileName p, bytes) ∈ entries → bytes = encode_page clog p) →
  ((PageFileName p, encode_page clog p) ∈ entries ∨ clog' !! y = Some (clog_get clog y)) →
  foldl (load_entry ∅) clog' entries !! y = Some (clog_get clog y).
Proof.
  intros Hp Hy. revert clog'. induction entries as [|[name bytes] es IH]; intros clog' Hnd Hcan Hpage Hor.
  { destruct Hor as [H%not_elem_of_nil|H]; done. }
  cbn [foldl]. apply NoDup_cons in Hnd as [Hni Hnd]. simpl in Hni.
  assert (Hp31 : 0 ≤ p < 2 ^ 31) by (rewrite kClogPages_val in Hp; lia).
  apply IH; [done|set_solver..|].
  destruct (decide (name = PageFileName p)) as [->|Hne].
  - right. rewrite (Hpage bytes) by set_solver. unfold load_entry. cbn [fst snd].
    rewrite parse_PageFileName, bool_decide_eq_false_2 by (done || set_solver).
    by apply decode_encode_page.
  - destruct Hor as [Hin|Hy']; [left; set_solver|]. right.
    rewrite load_entry_other; [done|]. intros q Hq.
    destruct (Hcan name bytes q ltac:(set_solver) Hq) as [-> ?]. split; [done|]. congruence.
Qed.

Lemma flush_pages_files clog pages fs :
  unopenable fs = ∅ → Forall (λ p, 0 ≤ p < kClogPages) pages →
  let fs' := foldl (flush_page clog) fs pages in
  unopenable fs' = ∅ ∧ dir_exists fs' = dir_exists fs ∧
  ∀ name, files fs' !! name =
    match parse_page_name name with
    | Some q => if bool_decide (q ∈ pages ∧ name = PageFileName q) then Some (encode_page clog q)
                else files fs !! name
    | None => files fs !! name
    end.
Proof.
  intros Hu Hp. revert fs Hu. induction Hp as [|p pages Hp _ IH]; intros fs Hu; cbn [foldl].
  { split_and!; try done. intros name. case_match; [|done].
    rewrite bool_decide_eq_false_2; [done|]. set_solver. }
  assert (Hp31 : 0 ≤ p < 2 ^ 31) by (rewrite kClogPages_val in Hp; lia).
  assert (Hf : flush_page clog fs p =
    mkFs (dir_exists fs) (<[PageFileName p := encode_page clog p]> (files fs)) (unopenable fs)).
  { unfold flush_page. rewrite bool_decide_eq_false_2; [done|]. rewrite Hu. set_solver. }
  rewrite Hf. edestruct IH as (Hu' & Hd & Hl); [|split_and!; [exact Hu'|exact Hd|]]; [done|].
  intros name. rewrite Hl. cbn [files]. rewrite lookup_insert.
  destruct (parse_page_name name) as [q|] eqn:Eq.
  - destruct (decide (PageFileName p = name)) as [Hn|Hn].
    + subst name. rewrite parse_PageFileName in Eq by done. injection Eq as <-.
      rewrite (bool_decide_eq_true_2 (p ∈ p :: pages ∧ _)) by set_solver. by case_bool_decide.
    + assert (q ∈ p :: pages ∧ name = PageFileName q ↔ q ∈ pages ∧ name = PageFileName q) as Hiff.
      { rewrite elem_of_cons. split; [|tauto]. intros [[Hqp|Hqp] Hname]; [congruence|done]. }
      by rewrite (bool_decide_ext _ _ Hiff).
  - rewrite decide_False; [done|]. intros <-. by rewrite parse_PageFileName in Eq.
Qed.

Lemma flush_canonical clog pages fs :
  canonical fs → Forall (λ p, 0 ≤ p < kClogPages) pages →
  canonical (foldl (flush_page clog) (mkFs true (files fs) (unopenable fs)) pages).
Proof.
  intros [Hu Hc] Hp.
  destruct (flush_pages_files clog pages (mkFs true (files fs) (unopenable fs)) Hu Hp) as (Hu' & _ & Hl).
  split; [done|]. intros name q Hs Hq. rewrite Hl, Hq in Hs. cbn [files] in Hs.
  case_bool_decide as Hd; [|by apply (Hc name q)].
  destruct Hd as [Hin ->]. split; [done|]. by rewrite Forall_forall in Hp; apply Hp.
Qed.

(** The pages a backend marks dirty are pages of the log. *)
Definition dirty_in_range (s : state) : Prop := ∀ p, p ∈ DirtyClogPages (loc s) → 0 ≤ p < kClogPages.

(** Flushing the commit log to pg_xact/ and loading the directory into the
    commit log of a restarted server gives every transaction of a flushed
    page the status it had, in whatever order the directory is enumerated and
    whatever the new server's log held before. *)
Theorem clog_files_roundtrip (s s2 : state) (clog clog2 : gmap Z XidStatus) (fs fs' : filesystem)
  (entries : list (string * list Z)) (xid : Z)
  (Hclog : clog_of s = Some clog) (Hdir : ClogDirectory (loc s) ≠ "")
  (Hdirty : dirty_in_range s) (Hcan : canonical fs)
  (Hflush : fst (FlushClogFiles fs s) = Ret fs')
  (Hreaddir : entries ≡ₚ map_to_list (files fs'))
  (Hclog2 : clog_of s2 = Some clog2) (Hdir2 : ClogDirectory (loc s2) ≠ "")
  (Hxid : xid / kClogXidsPerPage ∈ DirtyClogPages (loc s)) :
  FetchFromCommitLog (exec (LoadClogFiles fs' entries) s2) xid = FetchFromCommitLog s xid.
Proof.
  set (p := xid / kClogXidsPerPage) in *. pose proof (Hdirty p Hxid) as Hp.
  unfold FlushClogFiles in Hflush. rewrite Hclog, bool_decide_eq_false_2 in Hflush by done.
  simpl in Hflush. injection Hflush as <-.
  assert (Hpages : Forall (λ p, 0 ≤ p < kClogPages) (elements (DirtyClogPages (loc s)))).
  { apply Forall_forall. intros q Hq%elem_of_elements. by apply Hdirty. }
  set (fs1 := mkFs true (files fs) (unopenable fs)) in *.
  destruct Hcan as [Hu Hc].
  destruct (flush_pages_files clog _ fs1 Hu Hpages) as (Hu' & Hd' & Hl).
  destruct (flush_canonical clog _ fs (conj Hu Hc) Hpages) as [_ Hc'].
  set (fs' := foldl _ _ _) in *.
  assert (Hxr : xid < kMaxXids).
  { pose proof (Z.div_mod xid kClogXidsPerPage ltac:(done)).
    pose proof (Z.mod_pos_bound xid kClogXidsPerPage ltac:(done)).
    rewrite kClogPages_val, kMaxXids_val in *. unfold kClogXidsPerPage in *. lia. }
  assert (Hin : ∀ name bytes, (name, bytes) ∈ entries ↔ files fs' !! name = Some bytes).
  { intros. rewrite Hreaddir. apply elem_of_map_to_list. }
  assert (Hp31 : 0 ≤ p < 2 ^ 31) by (rewrite kClogPages_val in Hp; lia).
  assert (Hpage : files fs' !! PageFileName p = Some (encode_page clog p)).
  { rewrite Hl, parse_PageFileName by done. rewrite bool_decide_eq_true_2; [done|].
    split; [by apply elem_of_elements|done]. }
  unfold FetchFromCommitLog, exec, LoadClogFiles, modify. cbn [snd].
  rewrite Hclog2, (bool_decide_eq_false_2 _ Hdir2). cbn [dir_exists]. rewrite Hd'. cbn [negb].
  assert (Hco : clog_of (set_clog (foldl (load_entry (unopenable fs')) clog2 entries) s2)
                = Some (foldl (load_entry (unopenable fs')) clog2 entries)).
  { unfold clog_of in *. simpl. by destruct (g_clog_base (loc s2)). }
  change (dir_exists fs1) with true. cbn [negb]. rewrite Hco, Hclog, Hu'.
  destruct (kMaxXids <=? xid) eqn:E; [done|]. unfold clog_get at 1.
  rewrite (load_entries_lookup clog p xid entries clog2 Hp eq_refl); [done| | | |].
  - rewrite Hreaddir. apply NoDup_fst_map_to_list.
  - intros name bytes q Hb Hq. apply Hin in Hb. apply Hc'; [by eexists|done].
  - intros bytes Hb. apply Hin in Hb. congruence.
  - left. by apply Hin.
Qed.

Definition flushed_state : state :=
  exec (_ ← AllocateNextTransactionId; _ ← AllocateNextTransactionId;
        TransactionIdCommit 3;; TransactionIdAbort 4;; SetClogDirectory "pg_xact") ready_state.

Definition flushed_fs : filesystem :=
  foldl (flush_page (default ∅ (clog_of flushed_state))) (mkFs true ∅ ∅)
    (elements (DirtyClogPages (loc flushed_state))).

Lemma clog_files_roundtrip_witness :
  FetchFromCommitLog (exec (LoadClogFiles flushed_fs (map_to_list (files flushed_fs)))
                           (set_dir "pg_xact" ready_state)) 4 = kAborted.
Proof.
  rewrite (clog_files_roundtrip flushed_state (set_dir "pg_xact" ready_state)
             (default ∅ (clog_of flushed_state)) fresh_clog (mkFs false ∅ ∅) flushed_fs
             (map_to_list (files flushed_fs)) 4); try reflexivity; try discriminate.
  - intros p Hp. replace (DirtyClogPages (loc flushed_state)) with ({[0]} : gset Z) in Hp by reflexivity.
    apply elem_of_singleton in Hp. subst p. rewrite kClogPages_val. lia.
  - split; [reflexivity|]. intros name q [x Hx]. discriminate Hx.
Defined.

End ClogFiles.
