(* ===== verification/HeapTuple.v ===== *)
(** * Heap tuple headers

    Models include/transaction/heap_tuple.hpp: the tuple header, the status
    bits of [t_infomask] and the accessors of the visibility code.  Header
    fields keep their machine width: [t_infomask] and [t_infomask2] are 16-bit
    values on which the accessors work bitwise. *)

From stdpp Require Import base list.
From S2P Require Import Prelude.

Module HeapTuple.

Record ItemPointerData := mkTid { ip_blkid : Z; ip_posid : Z }.

Record HeapTupleHeaderData := mkHeader {
  t_xmin : Z;
  t_xmax : Z;
  t_cid : Z;
  t_ctid : ItemPointerData;
  t_infomask2 : Z;
  t_infomask : Z;
  t_hoff : Z
}.

#[global] Instance ItemPointerData_eq_dec : EqDecision ItemPointerData.
Proof. solve_decision. Defined.
#[global] Instance HeapTupleHeaderData_eq_dec : EqDecision HeapTupleHeaderData.
Proof. solve_decision. Defined.

Definition kHeapTupleHeaderSize : Z := 23.
Definition kMaxAlign : Z := 8.
Definition MaxAlignOf (size : Z) : Z := Z.land (size + kMaxAlign - 1) (Z.lnot (kMaxAlign - 1)).
Definition kHeapTupleHeaderAligned : Z := MaxAlignOf kHeapTupleHeaderSize.

Definition kHeapXminCommitted : Z := 0x0100.
Definition kHeapXminInvalid : Z := 0x0200.
Definition kHeapXminFrozen : Z := 0x0400.
Definition kHeapXmaxLocked : Z := 0x0080.
Definition kHeapXmaxExclusiveLock : Z := 0x0040.
Definition kHeapXmaxKeyshrLock : Z := 0x0010.
Definition kHeapXmaxShrLock : Z := 0x0020.
Definition kHeapXmaxCommitted : Z := 0x0400.
Definition kHeapXmaxInvalid : Z := 0x0800.
Definition kHeapHasNull : Z := 0x0001.
Definition kHeapUpdated : Z := 0x2000.
Definition kHeapNattsMask : Z := 0x07FF.
Definition kHeapHotUpdated : Z := 0x4000.
Definition kHeapOnlyTuple : Z := 0x8000.

(** [(mask & flag) != 0], the test the C++ conditions perform. *)
Definition has_flag (mask flag : Z) : bool := negb (Z.land mask flag =? 0).

Definition set_infomask (m : Z) (tup : HeapTupleHeaderData) : HeapTupleHeaderData :=
  mkHeader (t_xmin tup) (t_xmax tup) (t_cid tup) (t_ctid tup) (t_infomask2 tup) m (t_hoff tup).

Definition set_infomask2 (m : Z) (tup : HeapTupleHeaderData) : HeapTupleHeaderData :=
  mkHeader (t_xmin tup) (t_xmax tup) (t_cid tup) (t_ctid tup) m (t_infomask tup) (t_hoff tup).

Definition HeapTupleHeaderGetXmin (tup : HeapTupleHeaderData) : Z := t_xmin tup.
Definition HeapTupleHeaderGetXmax (tup : HeapTupleHeaderData) : Z := t_xmax tup.
Definition HeapTupleHeaderGetCid (tup : HeapTupleHeaderData) : Z := t_cid tup.

Definition HeapTupleHeaderSetXmin (tup : HeapTupleHeaderData) (xid : Z) : HeapTupleHeaderData :=
  mkHeader xid (t_xmax tup) (t_cid tup) (t_ctid tup) (t_infomask2 tup) (t_infomask tup) (t_hoff tup).
Definition HeapTupleHeaderSetXmax (tup : HeapTupleHeaderData) (xid : Z) : HeapTupleHeaderData :=
  mkHeader (t_xmin tup) xid (t_cid tup) (t_ctid tup) (t_infomask2 tup) (t_infomask tup) (t_hoff tup).
Definition HeapTupleHeaderSetCid (tup : HeapTupleHeaderData) (cid : Z) : HeapTupleHeaderData :=
  mkHeader (t_xmin tup) (t_xmax tup) cid (t_ctid tup) (t_infomask2 tup) (t_infomask tup) (t_hoff tup).
Definition HeapTupleHeaderSetTid (tup : HeapTupleHeaderData) (tid : ItemPointerData) : HeapTupleHeaderData :=
  mkHeader (t_xmin tup) (t_xmax tup) (t_cid tup) tid (t_infomask2 tup) (t_infomask tup) (t_hoff tup).

Inductive XactStatus := XInProgress | XCommitted | XAborted | XFrozen.

#[global] Instance XactStatus_eq_dec : EqDecision XactStatus.
Proof. solve_decision. Defined.

Definition HeapTupleHeaderGetXminStatus (tup : HeapTupleHeaderData) : XactStatus :=
  let info := t_infomask tup in
  if has_flag info kHeapXminCommitted then XCommitted
  else if has_flag info kHeapXminInvalid then XAborted
  else if has_flag info kHeapXminFrozen then XFrozen
  else XInProgress.

Definition HeapTupleHeaderGetXmaxStatus (tup : HeapTupleHeaderData) : XactStatus :=
  let info := t_infomask tup in
  if has_flag info kHeapXmaxCommitted then XCommitted
  else if has_flag info kHeapXmaxInvalid then XAborted
  else XInProgress.

(** [m |= on; m &= ~off] on a 16-bit field. *)
Definition set_clear (on off : Z) (m : Z) : Z := u16 (Z.land (u16 (Z.lor m on)) (Z.lnot off)).

Definition HeapTupleHeaderSetXminCommitted (tup : HeapTupleHeaderData) : HeapTupleHeaderData :=
  set_infomask (set_clear kHeapXminCommitted kHeapXminInvalid (t_infomask tup)) tup.
Definition HeapTupleHeaderSetXminInvalid (tup : HeapTupleHeaderData) : HeapTupleHeaderData :=
  set_infomask (set_clear kHeapXminInvalid kHeapXminCommitted (t_infomask tup)) tup.
Definition HeapTupleHeaderSetXmaxCommitted (tup : HeapTupleHeaderData) : HeapTupleHeaderData :=
  set_infomask (set_clear kHeapXmaxCommitted kHeapXmaxInvalid (t_infomask tup)) tup.
Definition HeapTupleHeaderSetXmaxInvalid (tup : HeapTupleHeaderData) : HeapTupleHeaderData :=
  set_infomask (set_clear kHeapXmaxInvalid kHeapXmaxCommitted (t_infomask tup)) tup.

Definition HeapTupleHeaderGetNatts (tup : HeapTupleHeaderData) : Z := Z.land (t_infomask2 tup) kHeapNattsMask.
Definition HeapTupleHeaderSetNatts (tup : HeapTupleHeaderData) (natts : Z) : HeapTupleHeaderData :=
  set_infomask2 (u16 (Z.lor (Z.land (t_infomask2 tup) (Z.lnot kHeapNattsMask))
                            (u16 (Z.land natts kHeapNattsMask)))) tup.
Definition HeapTupleHeaderHasNulls (tup : HeapTupleHeaderData) : bool := has_flag (t_infomask tup) kHeapHasNull.
Definition HeapTupleHeaderIsHotUpdated (tup : HeapTupleHeaderData) : bool :=
  has_flag (t_infomask2 tup) kHeapHotUpdated.
Definition HeapTupleHeaderIsHeapOnly (tup : HeapTupleHeaderData) : bool :=
  has_flag (t_infomask2 tup) kHeapOnlyTuple.

(** ** Bits

    A flag of the header is a single bit: [has_flag] is [Z.testbit]. *)

Lemma has_flag_bit m n : 0 ≤ n → has_flag m (2 ^ n) = Z.testbit m n.
Proof. apply flag_bit. Qed.

Lemma u16_testbit z n : 0 ≤ n < 16 → Z.testbit (u16 z) n = Z.testbit z n.
Proof. intros ?. unfold u16. by rewrite Z.mod_pow2_bits_low by lia. Qed.

(** Setting one bit and clearing another, seen bit by bit. *)
Lemma set_clear_testbit i j m n :
  0 ≤ i → 0 ≤ j → 0 ≤ n < 16 →
  Z.testbit (set_clear (2 ^ i) (2 ^ j) m) n =
    (if decide (n = j) then false else if decide (n = i) then true else Z.testbit m n).
Proof.
  intros Hi Hj Hn. unfold set_clear.
  rewrite u16_testbit, Z.land_spec, u16_testbit, Z.lor_spec, Z.lnot_spec by lia.
  repeat case_decide; subst; rewrite ?Z.pow2_bits_true by lia; rewrite ?Z.pow2_bits_false by lia;
    simpl; rewrite ?orb_true_r, ?orb_false_r, ?andb_false_r, ?andb_true_r; done.
Qed.

Definition xmin_status_of (m : Z) : XactStatus :=
  if Z.testbit m 8 then XCommitted else if Z.testbit m 9 then XAborted
  else if Z.testbit m 10 then XFrozen else XInProgress.
Definition xmax_status_of (m : Z) : XactStatus :=
  if Z.testbit m 10 then XCommitted else if Z.testbit m 11 then XAborted else XInProgress.

Lemma xmin_status_bits tup : HeapTupleHeaderGetXminStatus tup = xmin_status_of (t_infomask tup).
Proof.
  unfold HeapTupleHeaderGetXminStatus, xmin_status_of.
  change kHeapXminCommitted with (2 ^ 8). change kHeapXminInvalid with (2 ^ 9).
  change kHeapXminFrozen with (2 ^ 10). by rewrite !has_flag_bit by lia.
Qed.

Lemma xmax_status_bits tup : HeapTupleHeaderGetXmaxStatus tup = xmax_status_of (t_infomask tup).
Proof.
  unfold HeapTupleHeaderGetXmaxStatus, xmax_status_of.
  change kHeapXmaxCommitted with (2 ^ 10). change kHeapXmaxInvalid with (2 ^ 11).
  by rewrite !has_flag_bit by lia.
Qed.

Lemma locked_bit tup : has_flag (t_infomask tup) kHeapXmaxLocked = Z.testbit (t_infomask tup) 7.
Proof. change kHeapXmaxLocked with (2 ^ 7). by rewrite has_flag_bit by lia. Qed.

Lemma updated_bit tup : has_flag (t_infomask tup) kHeapUpdated = Z.testbit (t_infomask tup) 13.
Proof. change kHeapUpdated with (2 ^ 13). by rewrite has_flag_bit by lia. Qed.

#[export] Hint Rewrite xmin_status_bits xmax_status_bits locked_bit updated_bit : pgcpp.

(** The effect of the four hint writers on the bits the readers test. *)
Lemma set_xmin_committed_bits tup n :
  0 ≤ n < 16 → Z.testbit (t_infomask (HeapTupleHeaderSetXminCommitted tup)) n =
    (if decide (n = 9) then false else if decide (n = 8) then true else Z.testbit (t_infomask tup) n).
Proof. intros. apply (set_clear_testbit 8 9); lia. Qed.

Lemma set_xmin_invalid_bits tup n :
  0 ≤ n < 16 → Z.testbit (t_infomask (HeapTupleHeaderSetXminInvalid tup)) n =
    (if decide (n = 8) then false else if decide (n = 9) then true else Z.testbit (t_infomask tup) n).
Proof. intros. apply (set_clear_testbit 9 8); lia. Qed.

Lemma set_xmax_committed_bits tup n :
  0 ≤ n < 16 → Z.testbit (t_infomask (HeapTupleHeaderSetXmaxCommitted tup)) n =
    (if decide (n = 11) then false else if decide (n = 10) then true else Z.testbit (t_infomask tup) n).
Proof. intros. apply (set_clear_testbit 10 11); lia. Qed.

Lemma set_xmax_invalid_bits tup n :
  0 ≤ n < 16 → Z.testbit (t_infomask (HeapTupleHeaderSetXmaxInvalid tup)) n =
    (if decide (n = 10) then false else if decide (n = 11) then true else Z.testbit (t_infomask tup) n).
Proof. intros. apply (set_clear_testbit 11 10); lia. Qed.

End HeapTuple.
