(* ===== verification/Proc.v ===== *)
(** * Backends: the PGPROC pool and the ProcArray

    Models src/storage/ipc/proc.cpp (slots of the shared PGPROC pool, the
    compact PGXACT array, the freelist) and the registration part of
    src/transaction/procarray.cpp (the shared array of the slots in use).

    The pool, the PGXACT array and the ProcArray are regions of shared
    memory, [None] until allocated; a [found] flag of [ShmemInitStruct] is
    whether the region existed.  A pointer to a slot is its index.  Sections
    under kProcArrayLock are single steps (the lock is recursive, so
    [InitProcess] may call [ProcArrayAdd] while holding it). *)

From stdpp Require Import base list sets.
From S2P Require Import Prelude Transam.
Import Transam.

Module Proc.

Definition kMaxBackends : Z := 100.

Inductive ProcStatus := kIdle | kWaiting | kBlocked.

Record PGPROC := mkProc {
  pid : Z;
  xid : Z;
  xmin : Z;
  lxid : Z;
  status : ProcStatus;
  is_aux : bool;
  next : option nat;
  pgprocno : Z
}.

Record PGXACT := mkXact { px_xid : Z; px_xmin : Z }.

Record ProcArrayStruct := mkProcArray { pgprocnos : list Z; numProcs : nat }.

Record state := mkState {
  ProcPool : option (list PGPROC);
  PgXactArray : option (list PGXACT);
  ProcArray : option ProcArrayStruct;
  (* process-local *)
  g_proc_freelist : option nat;
  MyProc : option nat;
  NextLxid : Z
}.

Definition initial_state : state := mkState None None None None None 1.

Definition default_proc : PGPROC :=
  mkProc 0 kInvalidTransactionId kInvalidTransactionId 0 kIdle false None (-1).
Definition default_xact : PGXACT := mkXact kInvalidTransactionId kInvalidTransactionId.

(** ** Field updates *)

Definition set_pool (p : list PGPROC) (s : state) : state :=
  mkState (Some p) (PgXactArray s) (ProcArray s) (g_proc_freelist s) (MyProc s) (NextLxid s).
Definition set_pgxact (a : list PGXACT) (s : state) : state :=
  mkState (ProcPool s) (Some a) (ProcArray s) (g_proc_freelist s) (MyProc s) (NextLxid s).
Definition set_procarray (a : ProcArrayStruct) (s : state) : state :=
  mkState (ProcPool s) (PgXactArray s) (Some a) (g_proc_freelist s) (MyProc s) (NextLxid s).
Definition set_freelist (f : option nat) (s : state) : state :=
  mkState (ProcPool s) (PgXactArray s) (ProcArray s) f (MyProc s) (NextLxid s).
Definition set_myproc (m : option nat) (s : state) : state :=
  mkState (ProcPool s) (PgXactArray s) (ProcArray s) (g_proc_freelist s) m (NextLxid s).
Definition set_lxid (n : Z) (s : state) : state :=
  mkState (ProcPool s) (PgXactArray s) (ProcArray s) (g_proc_freelist s) (MyProc s) n.

Definition set_next (n : option nat) (p : PGPROC) : PGPROC :=
  mkProc (pid p) (xid p) (xmin p) (lxid p) (status p) (is_aux p) n (pgprocno p).
Definition set_pgprocno (n : Z) (p : PGPROC) : PGPROC :=
  mkProc (pid p) (xid p) (xmin p) (lxid p) (status p) (is_aux p) (next p) n.

(** ** ProcArray *)

Definition nprocs : nat := Z.to_nat kMaxBackends.

Definition InitializeProcArray (s : state) : state :=
  match ProcArray s with
  | Some _ => s
  | None => set_procarray (mkProcArray (replicate nprocs (-1)) 0) s
  end.

Definition ResetProcArray (s : state) : state :=
  set_procarray (mkProcArray (replicate nprocs (-1)) 0) (InitializeProcArray s).

(** [procno]: the pool index of the backend, [None] for a null pointer. *)
Definition ProcArrayAdd (procno : option Z) (s0 : state) : state :=
  let s := InitializeProcArray s0 in
  match procno, ProcArray s with
  | Some n, Some pa =>
      if n <? 0 then s
      else if bool_decide (numProcs pa < nprocs)%nat
           then set_procarray (mkProcArray (<[numProcs pa := n]> (pgprocnos pa)) (numProcs pa + 1)) s
           else s
  | _, _ => s
  end.

(** The removal loop: find the entry, move the last one into its place. *)
Fixpoint remove_loop (i fuel : nat) (n : Z) (pa : ProcArrayStruct) : ProcArrayStruct :=
  match fuel with
  | O => pa
  | S fuel' =>
      if bool_decide (i < numProcs pa)%nat then
        if bool_decide (pgprocnos pa !! i = Some n) then
          let last := (numProcs pa - 1)%nat in
          mkProcArray (<[last := -1]> (<[i := default (-1) (pgprocnos pa !! last)]> (pgprocnos pa))) last
        else remove_loop (i + 1) fuel' n pa
      else pa
  end.

Definition ProcArrayRemove (procno : option Z) (s : state) : state :=
  match procno, ProcArray s with
  | Some n, Some pa => if n <? 0 then s else set_procarray (remove_loop 0 (numProcs pa) n pa) s
  | _, _ => s
  end.

Definition GetPgXactByIndex (s : state) (index : Z) : option PGXACT :=
  match PgXactArray s with
  | None => None
  | Some a => if (index <? 0) || (kMaxBackends <=? index) then None else a !! Z.to_nat index
  end.

(** The entries of the ProcArray that are in use. *)
Definition live_procs (pa : ProcArrayStruct) : list Z := take (numProcs pa) (pgprocnos pa).

(** The scan loops of the snapshot code: the valid XIDs of the live entries. *)
Definition running_xids (s : state) : list Z :=
  match ProcArray s with
  | None => []
  | Some pa => omap (λ no, x ← GetPgXactByIndex s no;
                           if TransactionIdIsValid (px_xid x) then Some (px_xid x) else None)
                    (live_procs pa)
  end.

(** The loop that keeps the oldest XID seen; 0 when there is none. *)
Definition older (oldest x : Z) : Z :=
  if (oldest =? kInvalidTransactionId) || TransactionIdPrecedes x oldest then x else oldest.
Definition oldest_xid (l : list Z) : Z := foldl older kInvalidTransactionId l.

Definition GetOldestXmin (ignore : Z) (s : state) : Z :=
  let keep x := negb (negb (ignore =? kInvalidTransactionId) && (x =? ignore)) in
  let oldest := oldest_xid (base.filter (λ x, keep x = true) (running_xids s)) in
  if oldest =? kInvalidTransactionId then kFrozenTransactionId else oldest.

Definition CountRunningXacts (s : state) : Z :=
  match ProcArray s with None => 0 | Some pa => Z.of_nat (numProcs pa) end.

Definition ProcArrayContains (x : Z) (s : state) : bool :=
  match ProcArray s with
  | None => false
  | Some pa => existsb (λ no, match GetPgXactByIndex s no with
                              | Some p => px_xid p =? x
                              | None => false
                              end) (live_procs pa)
  end.

(** ** The PGPROC pool *)

(** Rebuilding the freelist from the slots with [pid == 0], last slot first. *)
Fixpoint relink (i : nat) (pool : list PGPROC) (free : option nat) : list PGPROC * option nat :=
  match i with
  | O => (pool, free)
  | S i' => match pool !! i' with
            | Some p => if pid p =? 0 then relink i' (<[i' := set_next free p]> pool) (Some i')
                        else relink i' pool free
            | None => relink i' pool free
            end
  end.

Definition fresh_slot (i : nat) : PGPROC :=
  set_next (if bool_decide (i + 1 < nprocs)%nat then Some (i + 1)%nat else None)
           (set_pgprocno (Z.of_nat i) default_proc).

Definition ProcGlobalInit (s : state) : state :=
  let s1 := match PgXactArray s with
            | Some _ => s
            | None => set_pgxact (replicate nprocs default_xact) s
            end in
  match ProcPool s1 with
  | None => set_freelist (Some 0%nat) (set_pool (map fresh_slot (seq 0 nprocs)) s1)
  | Some pool =>
      let '(pool', free) := relink nprocs (imap (λ i p, set_pgprocno (Z.of_nat i) p) pool) None in
      set_freelist free (set_pool pool' s1)
  end.

(** [mypid] is what [getpid] returns. *)
Definition InitProcess (mypid : Z) (s0 : state) : option nat * state :=
  let s := ProcGlobalInit s0 in
  match g_proc_freelist s, ProcPool s with
  | Some i, Some pool =>
      match pool !! i with
      | Some p =>
          let p' := mkProc mypid kInvalidTransactionId kInvalidTransactionId (NextLxid s)
                           kIdle false None (pgprocno p) in
          let s1 := set_lxid (NextLxid s + 1) (set_pool (<[i := p']> pool) (set_freelist (next p) s)) in
          let s2 := match PgXactArray s1 with
                    | Some a => if 0 <=? pgprocno p
                                then set_pgxact (<[Z.to_nat (pgprocno p) := default_xact]> a) s1 else s1
                    | None => s1
                    end in
          (Some i, ProcArrayAdd (Some (pgprocno p)) (set_myproc (Some i) s2))
      | None => (None, s)
      end
  | _, _ => (None, s)
  end.

Definition ProcKill (s : state) : state :=
  match MyProc s, ProcPool s with
  | Some i, Some pool =>
      match pool !! i with
      | Some p =>
          let s1 := ProcArrayRemove (Some (pgprocno p)) s in
          let s2 := match PgXactArray s1 with
                    | Some a => if 0 <=? pgprocno p
                                then set_pgxact (<[Z.to_nat (pgprocno p) := default_xact]> a) s1 else s1
                    | None => s1
                    end in
          let p' := mkProc 0 kInvalidTransactionId kInvalidTransactionId (lxid p) (status p)
                           (is_aux p) (g_proc_freelist s2) (pgprocno p) in
          set_myproc None (set_freelist (Some i) (set_pool (<[i := p']> pool) s2))
      | None => s
      end
  | _, _ => s
  end.

(** [GetMyPgXact]: the index of the current backend's PGXACT entry. *)
Definition GetMyPgXact (s : state) : option nat :=
  match MyProc s, ProcPool s, PgXactArray s with
  | Some i, Some pool, Some _ =>
      match pool !! i with
      | Some p => if pgprocno p <? 0 then None else Some (Z.to_nat (pgprocno p))
      | None => None
      end
  | _, _, _ => None
  end.

(** [pgxact->xid = x] through [GetMyPgXact], when it is not null. *)
Definition set_my_xid (x : Z) (s : state) : state :=
  match GetMyPgXact s, PgXactArray s with
  | Some n, Some a =>
      match a !! n with
      | Some e => set_pgxact (<[n := mkXact x (px_xmin e)]> a) s
      | None => s
      end
  | _, _ => s
  end.

Definition NumProcs (s : state) : Z :=
  match ProcPool s with
  | None => 0
  | Some pool => Z.of_nat (length (base.filter (λ p, pid p ≠ 0) pool))
  end.

(** ** Lemmas on the ProcArray *)

Lemma live_add pa n :
  (numProcs pa < length (pgprocnos pa))%nat →
  live_procs (mkProcArray (<[numProcs pa := n]> (pgprocnos pa)) (numProcs pa + 1)) = live_procs pa ++ [n].
Proof.
  intros H. unfold live_procs. cbn [numProcs pgprocnos]. rewrite Nat.add_1_r.
  rewrite (take_S_r _ _ n) by (by apply list_lookup_insert_eq).
  by rewrite take_insert_ge by lia.
Qed.

(** Overwriting one element: the old one leaves the list, the new one enters. *)
Lemma insert_Permutation {A} (l : list A) i x y :
  l !! i = Some x → x :: <[i := y]> l ≡ₚ y :: l.
Proof.
  intros H. assert (i < length l)%nat by (by eapply lookup_lt_Some).
  rewrite insert_take_drop by done. rewrite <- (take_drop_middle l i x H) at 3.
  rewrite <- !Permutation_middle. apply perm_swap.
Qed.

Lemma live_swap_last pa i n :
  (i < numProcs pa ≤ length (pgprocnos pa))%nat → pgprocnos pa !! i = Some n →
  let last := (numProcs pa - 1)%nat in
  n :: live_procs (mkProcArray (<[last := -1]> (<[i := default (-1) (pgprocnos pa !! last)]> (pgprocnos pa))) last)
  ≡ₚ live_procs pa.
Proof.
  intros Hi Hn last. unfold live_procs. cbn [numProcs pgprocnos].
  rewrite (take_insert_ge _ last last) by lia.
  assert (Hlast : is_Some (pgprocnos pa !! last)) by (apply lookup_lt_is_Some; lia).
  destruct Hlast as [y Hy]. rewrite Hy. cbn [default from_option id].
  replace (numProcs pa) with (S last) by lia. rewrite (take_S_r _ last y) by done.
  rewrite (Permutation_app_comm _ [y]). simpl.
  destruct (decide (i = last)) as [->|Hne].
  - rewrite take_insert_ge by lia. by simplify_eq.
  - rewrite take_insert_lt by lia. apply insert_Permutation.
    rewrite lookup_take_lt by lia. done.
Qed.

Lemma remove_loop_spec n i fuel pa :
  (numProcs pa ≤ length (pgprocnos pa))%nat → (numProcs pa ≤ i + fuel)%nat →
  (∃ j, i ≤ j < numProcs pa ∧ pgprocnos pa !! j = Some n)%nat →
  n :: live_procs (remove_loop i fuel n pa) ≡ₚ live_procs pa ∧
  length (pgprocnos (remove_loop i fuel n pa)) = length (pgprocnos pa) ∧
  S (numProcs (remove_loop i fuel n pa)) = numProcs pa.
Proof.
  intros Hle. revert i. induction fuel as [|fuel IH]; intros i Hf (j & Hj & Hn); [lia|].
  cbn [remove_loop]. rewrite bool_decide_eq_true_2 by lia.
  case_bool_decide as Hi.
  - split; [apply live_swap_last; [lia|done]|]. cbn [pgprocnos numProcs].
    rewrite !length_insert. split; [done|lia].
  - apply IH; [lia|]. exists j. split; [|done]. destruct (decide (i = j)); [by subst|lia].
Qed.

(** ** The registration invariant *)

(** The ProcArray lists exactly the slots of the pool that are in use. *)
Record proc_inv (s : state) (pool : list PGPROC) (a : list PGXACT) (pa : ProcArrayStruct) : Prop := {
  inv_pool : ProcPool s = Some pool;
  inv_xact : PgXactArray s = Some a;
  inv_array : ProcArray s = Some pa;
  inv_pool_len : length pool = nprocs;
  inv_xact_len : length a = nprocs;
  inv_array_len : length (pgprocnos pa) = nprocs;
  inv_num : (numProcs pa ≤ nprocs)%nat;
  inv_nodup : NoDup (live_procs pa);
  inv_live : ∀ n, n ∈ live_procs pa ↔
                  ∃ i p, n = Z.of_nat i ∧ pool !! i = Some p ∧ pid p ≠ 0;
  inv_no : ∀ i p, pool !! i = Some p → pgprocno p = Z.of_nat i
}.

Definition registered (s : state) : Prop := ∃ pool a pa, proc_inv s pool a pa.

Lemma live_length pa :
  (numProcs pa ≤ length (pgprocnos pa))%nat → length (live_procs pa) = numProcs pa.
Proof. intros. unfold live_procs. rewrite length_take. lia. Qed.

(** [relink] changes the [next] fields only and ends at a free slot. *)
Lemma relink_spec i pool free pool' free' :
  relink i pool free = (pool', free') →
  length pool' = length pool ∧
  (∀ j, pid <$> pool' !! j = pid <$> pool !! j) ∧
  (∀ j, pgprocno <$> pool' !! j = pgprocno <$> pool !! j) ∧
  (free' = free ∧ (∀ j p, (j < i)%nat → pool !! j = Some p → pid p ≠ 0) ∨
   ∃ k, free' = Some k ∧ (k < i)%nat ∧ pid <$> pool !! k = Some 0).
Proof.
  revert pool free. induction i as [|i IH]; intros pool free H; cbn [relink] in H.
  { simplify_eq. split_and!; try done. left. split; [done|]. intros. lia. }
  destruct (pool !! i) as [p|] eqn:Ep; [destruct (pid p =? 0) eqn:E|].
  - apply IH in H as (Hl & Hp & Hn & Hf). rewrite length_insert in Hl.
    assert (Hsame : ∀ {B} (f : PGPROC → B) j, f (set_next free p) = f p →
      f <$> <[i:=set_next free p]> pool !! j = f <$> pool !! j).
    { intros B f j Hf'. destruct (decide (i = j)) as [->|].
      - rewrite list_lookup_insert_eq by (by eapply lookup_lt_Some). rewrite Ep. simpl. by rewrite Hf'.
      - by rewrite list_lookup_insert_ne. }
    split_and!; [done|intros j; by rewrite Hp, Hsame|intros j; by rewrite Hn, Hsame|].
    right. to_prop. destruct Hf as [[-> _]|(k & -> & Hk & Hz)].
    + exists i. rewrite Ep. simpl. rewrite E. split; [done|]. split; [lia|done].
    + exists k. rewrite Hsame in Hz by done. split; [done|]. split; [lia|done].
  - apply IH in H as (Hl & Hp & Hn & Hf). split_and!; try done. to_prop.
    destruct Hf as [[-> Hf]|(k & -> & Hk & Hz)]; [left|right; exists k; split; [done|split; [lia|done]]].
    split; [done|]. intros j q Hj Hq. destruct (decide (j = i)) as [->|]; [by simplify_eq|].
    apply (Hf j); [lia|done].
  - apply IH in H as (Hl & Hp & Hn & Hf). split_and!; try done.
    destruct Hf as [[-> Hf]|(k & -> & Hk & Hz)]; [left|right; exists k; split; [done|split; [lia|done]]].
    split; [done|]. intros j q Hj Hq. destruct (decide (j = i)) as [->|]; [by simplify_eq|].
    apply (Hf j); [lia|done].
Qed.

(** Two pools agree on what the invariant reads. *)
Lemma proc_inv_pool s pool a pa pool' free :
  proc_inv s pool a pa → length pool' = length pool →
  (∀ j, pid <$> pool' !! j = pid <$> pool !! j) →
  (∀ j p, pool' !! j = Some p → pgprocno p = Z.of_nat j) →
  proc_inv (set_freelist free (set_pool pool' s)) pool' a pa.
Proof.
  intros [] Hl Hp Hn. constructor; try done; [by rewrite Hl|].
  intros n. rewrite inv_live0. split; intros (i & p & -> & Hi & Hz); specialize (Hp i); rewrite Hi in Hp.
  - apply fmap_Some in Hp as (q & Hq & Hpq). exists i, q.
    split; [done|]. split; [done|congruence].
  - symmetry in Hp. simpl in Hp. destruct (pool !! i) as [q|] eqn:Eq; [|done].
    exists i, q. simpl in Hp. split; [done|]. split; [done|]. injection Hp. congruence.
Qed.

Lemma global_init_inv s pool a pa :
  proc_inv s pool a pa →
  ∃ pool', proc_inv (ProcGlobalInit s) pool' a pa ∧
           MyProc (ProcGlobalInit s) = MyProc s ∧
           (∀ j, pid <$> pool' !! j = pid <$> pool !! j) ∧
           (g_proc_freelist (ProcGlobalInit s) = None ∧ (∀ j p, pool !! j = Some p → pid p ≠ 0) ∨
            ∃ k, g_proc_freelist (ProcGlobalInit s) = Some k ∧ pid <$> pool !! k = Some 0).
Proof.
  intros Hinv. pose proof Hinv as []. unfold ProcGlobalInit. rewrite inv_xact0, inv_pool0.
  destruct (relink nprocs _ None) as [pool' free] eqn:E.
  apply relink_spec in E as (Hl & Hp & Hn & Hf). rewrite length_imap in Hl.
  assert (Hpid : ∀ j, pid <$> imap (λ i p, set_pgprocno (Z.of_nat i) p) pool !! j = pid <$> pool !! j)
    by (intros j; rewrite list_lookup_imap; by destruct (pool !! j)).
  exists pool'. split_and!.
  - apply (proc_inv_pool s pool); [done|done| |].
    + intros j. by rewrite Hp, Hpid.
    + intros j p Hj. specialize (Hn j). rewrite Hj, list_lookup_imap in Hn.
      destruct (pool !! j) as [q|] eqn:Eq; simpl in Hn; [|done]. by injection Hn.
  - done.
  - intros j. by rewrite Hp, Hpid.
  - cbn [g_proc_freelist set_freelist]. destruct Hf as [[-> Hf]|(k & -> & Hk & Hz)].
    + left. split; [done|]. intros j p Hj.
      specialize (Hf j (set_pgprocno (Z.of_nat j) p)). rewrite list_lookup_imap, Hj in Hf.
      apply Hf; [|done]. rewrite <- inv_pool_len0. by eapply lookup_lt_Some.
    + right. exists k. by rewrite Hpid in Hz.
Qed.


Definition live_of (s : state) : list Z :=
  match ProcArray s with Some pa => live_procs pa | None => [] end.

(** A free slot leaves room in the ProcArray. *)
Lemma live_room s pool a pa k p :
  proc_inv s pool a pa → pool !! k = Some p → pid p = 0 →
  (numProcs pa < nprocs)%nat ∧ Z.of_nat k ∉ live_procs pa.
Proof.
  intros [] Hk Hp.
  assert (Hni : Z.of_nat k ∉ live_procs pa).
  { rewrite inv_live0. intros (i & q & Hi & Hq & Hz). apply Nat2Z.inj in Hi. by simplify_eq. }
  split; [|done].
  assert (Hsub : (Z.of_nat k :: live_procs pa) ⊆+ seqZ 0 (Z.of_nat nprocs)).
  { apply NoDup_submseteq; [by constructor|]. intros x Hx. apply elem_of_seqZ.
    apply elem_of_cons in Hx as [->|Hx].
    - apply lookup_lt_Some in Hk. lia.
    - apply inv_live0 in Hx as (i & q & -> & Hq & _). apply lookup_lt_Some in Hq. lia. }
  apply submseteq_length in Hsub. rewrite length_seqZ in Hsub. simpl in Hsub.
  rewrite live_length in Hsub by lia. lia.
Qed.

(** Marking slot [k] used and appending it to the ProcArray. *)
Lemma proc_inv_claim s s' pool a pa k p p' a' :
  proc_inv s pool a pa → pool !! k = Some p → pid p = 0 → pid p' ≠ 0 → pgprocno p' = pgprocno p →
  ProcPool s' = Some (<[k := p']> pool) → PgXactArray s' = Some a' → length a' = length a →
  ProcArray s' = Some (mkProcArray (<[numProcs pa := Z.of_nat k]> (pgprocnos pa)) (numProcs pa + 1)) →
  registered s' ∧ live_of s' = live_of s ++ [Z.of_nat k].
Proof.
  intros Hinv Hk Hp Hp' Hno Hs Hx Hxl Ha. destruct (live_room _ _ _ _ _ _ Hinv Hk Hp) as [Hroom Hni].
  pose proof Hinv as [].
  assert (Hlive := live_add pa (Z.of_nat k) ltac:(lia)).
  split; [|unfold live_of; by rewrite Ha, inv_array0].
  eexists _, _, _. constructor; [done..| | | | | | |]; cbn [pgprocnos numProcs];
    rewrite ?length_insert; try done; try lia; rewrite ?Hlive.
  - apply NoDup_app. split_and!; [done| |apply NoDup_singleton].
    intros x Hx' ->%list_elem_of_singleton. done.
  - intros n. rewrite elem_of_app, list_elem_of_singleton, inv_live0. split.
    + intros [(i & q & -> & Hq & Hz)| ->].
      * exists i. destruct (decide (i = k)) as [->|]; [by simplify_eq|].
        exists q. by rewrite list_lookup_insert_ne.
      * exists k, p'. rewrite list_lookup_insert_eq by (by eapply lookup_lt_Some). done.
    + intros (i & q & -> & Hq & Hz). destruct (decide (i = k)) as [->|]; [by right|].
      rewrite list_lookup_insert_ne in Hq by done. left. eauto.
  - intros i q Hq. destruct (decide (i = k)) as [->|].
    + rewrite list_lookup_insert_eq in Hq by (by eapply lookup_lt_Some). simplify_eq.
      rewrite Hno. by apply inv_no0.
    + rewrite list_lookup_insert_ne in Hq by done. by apply inv_no0.
Qed.

Lemma init_process_spec mypid s :
  registered s → mypid ≠ 0 →
  match InitProcess mypid s with
  | (Some k, s') => registered s' ∧ MyProc s' = Some k ∧ live_of s' = live_of s ++ [Z.of_nat k]
  | (None, s') => registered s' ∧ live_of s' = live_of s ∧
                  ∀ pool i p, ProcPool s = Some pool → pool !! i = Some p → pid p ≠ 0
  end.
Proof.
  intros (pool & a & pa & Hinv) Hpid.
  destruct (global_init_inv s pool a pa Hinv) as (pool' & Hinv' & _ & Hp & Hf).
  unfold InitProcess. pose proof Hinv as []. pose proof Hinv' as [Hpool' Hx' Ha' Hpl' Hxl' _ _ _ _ Hno'].
  assert (Hlo : live_of (ProcGlobalInit s) = live_of s)
    by (unfold live_of; by rewrite inv_array0, Ha').
  destruct Hf as [[Hf Hall]|(k & Hf & Hk)]; rewrite Hf.
  { split_and!; [by eexists _, _, _|done|]. intros pool0 i p Hq. rewrite inv_pool0 in Hq. simplify_eq. eauto. }
  rewrite Hpool'. rewrite <- Hp in Hk. apply fmap_Some in Hk as (p & Hk & Hz). rewrite Hk.
  cbn [PgXactArray set_lxid set_pool set_freelist]. rewrite Hx'.
  assert (Hnok := Hno' k p Hk). rewrite Hnok.
  rewrite (proj2 (Z.leb_le 0 (Z.of_nat k))) by lia.
  destruct (live_room _ _ _ _ _ _ Hinv' Hk (eq_sym Hz)) as [Hroom _].
  unfold ProcArrayAdd, InitializeProcArray. cbn [ProcArray set_myproc set_pgxact set_lxid set_pool set_freelist].
  rewrite Ha'. cbn [ProcArray set_myproc set_pgxact set_lxid set_pool set_freelist]. rewrite Ha'.
  rewrite (proj2 (Z.ltb_ge (Z.of_nat k) 0)), bool_decide_eq_true_2 by lia.
  rewrite <- Hlo.
  match goal with |- registered ?s' ∧ _ =>
    destruct (proc_inv_claim (ProcGlobalInit s) s' pool' a pa k p
      (mkProc mypid kInvalidTransactionId kInvalidTransactionId (NextLxid (ProcGlobalInit s))
              kIdle false None (Z.of_nat k)) (<[Z.to_nat (Z.of_nat k) := default_xact]> a)) as [Hreg Hl]
  end; try done.
  apply length_insert.
Qed.

Lemma proc_kill_spec s pool i p :
  registered s → MyProc s = Some i → ProcPool s = Some pool → pool !! i = Some p → pid p ≠ 0 →
  registered (ProcKill s) ∧ Z.of_nat i :: live_of (ProcKill s) ≡ₚ live_of s.
Proof.
  intros (pool0 & a & pa & Hinv) Hmy Hpool Hi Hp. pose proof Hinv as []. simplify_eq.
  assert (Hno := inv_no0 i p Hi).
  assert (Hin : Z.of_nat i ∈ live_procs pa) by (apply inv_live0; eauto).
  apply list_elem_of_lookup in Hin as [j Hj]. assert (Hjl := lookup_lt_Some _ _ _ Hj).
  rewrite live_length in Hjl by lia. unfold live_procs in Hj. rewrite lookup_take_lt in Hj by done.
  destruct (remove_loop_spec (Z.of_nat i) 0 (numProcs pa) pa) as (Hperm & Hlen & Hnum); [lia|lia|eauto with lia|].
  set (pa' := remove_loop 0 (numProcs pa) (Z.of_nat i) pa) in *.
  assert (Hnd : NoDup (Z.of_nat i :: live_procs pa')) by (by rewrite Hperm).
  apply NoDup_cons in Hnd as [Hni Hnd].
  unfold ProcKill, ProcArrayRemove. rewrite Hmy, Hpool, Hi, inv_array0, Hno.
  rewrite (proj2 (Z.ltb_ge (Z.of_nat i) 0)) by lia.
  cbn [PgXactArray set_procarray]. rewrite inv_xact0, (proj2 (Z.leb_le 0 (Z.of_nat i))) by lia.
  fold pa'. unfold live_of. cbn [ProcArray set_myproc set_freelist set_pool set_pgxact set_procarray].
  rewrite inv_array0. split; [|done].
  eexists _, _, _. constructor; [done..| | | | | | |]; rewrite ?length_insert; try done; try lia.
  - intros n. split.
    + intros Hn. assert (Hn' : n ∈ live_procs pa) by (rewrite <- Hperm; set_solver).
      apply inv_live0 in Hn' as (i' & q & -> & Hq & Hz). exists i', q.
      rewrite list_lookup_insert_ne; [done|]. intros ->. done.
    + intros (i' & q & -> & Hq & Hz). destruct (decide (i' = i)) as [->|Hne].
      * rewrite list_lookup_insert_eq in Hq by (by eapply lookup_lt_Some). by simplify_eq.
      * rewrite list_lookup_insert_ne in Hq by done.
        assert (Hn' : Z.of_nat i' ∈ live_procs pa) by (apply inv_live0; eauto).
        rewrite <- Hperm in Hn'. apply elem_of_cons in Hn' as [Heq%Nat2Z.inj|?]; [done|done].
  - intros i' q Hq. destruct (decide (i' = i)) as [->|].
    + rewrite list_lookup_insert_eq in Hq by (by eapply lookup_lt_Some). by simplify_eq.
    + rewrite list_lookup_insert_ne in Hq by done. by apply inv_no0.
Qed.

(** The ProcArray always lists exactly the backends that hold a slot of
    the PGPROC pool, each once: starting a backend appends its slot (or
    reports that all 100 slots are in use) and its exit removes exactly that
    slot, whichever backends came and went in between. *)
Theorem backend_registration (s : state) (mypid : Z) (Hreg : registered s) (Hpid : mypid ≠ 0) :
  match InitProcess mypid s with
  | (Some k, s') =>
      registered s' ∧ MyProc s' = Some k ∧ live_of s' = live_of s ++ [Z.of_nat k] ∧
      registered (ProcKill s') ∧ live_of (ProcKill s') ≡ₚ live_of s
  | (None, s') =>
      registered s' ∧ live_of s' = live_of s ∧
      ∀ pool i p, ProcPool s = Some pool → pool !! i = Some p → pid p ≠ 0
  end.
Proof.
  pose proof (init_process_spec mypid s Hreg Hpid) as H.
  destruct (InitProcess mypid s) as [[k|] s'] eqn:E; [|done].
  destruct H as (Hreg' & Hmy & Hlive). pose proof Hreg' as (pool & a & pa & Hinv). pose proof Hinv as [].
  assert (Hin : Z.of_nat k ∈ live_procs pa).
  { unfold live_of in Hlive. rewrite inv_array0 in Hlive. rewrite Hlive. set_solver. }
  apply inv_live0 in Hin as (i & p & Hik%Nat2Z.inj & Hp & Hz). subst i.
  destruct (proc_kill_spec s' pool k p Hreg' Hmy inv_pool0 Hp Hz) as [Hk Hperm].
  split_and!; try done. rewrite Hlive, (Permutation_app_comm _ [_]) in Hperm. simpl in Hperm.
  by apply Permutation_cons_inv in Hperm.
Qed.


(** The state after the postmaster set up shared memory. *)
Definition ready_state : state := ProcGlobalInit (InitializeProcArray initial_state).

Lemma ready_state_registered : registered ready_state.
Proof.
  eexists _, _, _. constructor; try reflexivity.
  - vm_compute. lia.
  - constructor.
  - intros n. split; [intros H; by apply not_elem_of_nil in H|].
    intros (i & p & -> & Hp & Hz). exfalso. apply Hz.
    assert (Hi := lookup_lt_Some _ _ _ Hp). rewrite list_lookup_fmap in Hp.
    apply fmap_Some in Hp as (j & _ & ->). done.
  - intros i p Hp. rewrite list_lookup_fmap in Hp. apply fmap_Some in Hp as (j & Hj & ->).
    apply lookup_seq in Hj as [-> _]. done.
Qed.

Lemma backend_registration_witness :
  live_of (ProcKill (snd (InitProcess 4242 ready_state))) ≡ₚ [].
Proof.
  pose proof (backend_registration ready_state 4242 ready_state_registered ltac:(discriminate)) as H.
  replace (InitProcess 4242 ready_state)
    with (Some 0%nat, snd (InitProcess 4242 ready_state)) in H by (vm_compute; reflexivity).
  destruct H as (_ & _ & _ & _ & H). exact H.
Defined.

(** ** The oldest running transaction *)

(** [x] is a running transaction no other one precedes. *)
Definition is_oldest (l : list Z) (x : Z) : Prop :=
  x ∈ l ∧ ∀ y, y ∈ l → TransactionIdPrecedes y x = false.

(** The XIDs lie in one window of the circle, where the comparison is an order. *)
Definition in_window (base : Z) (x : Z) : Prop := ∃ d, 0 ≤ d < 2 ^ 31 ∧ x = u32 (base + d).

Lemma precedes_in_window base x y :
  in_window base x → in_window base y →
  ∃ dx dy, 0 ≤ dx < 2 ^ 31 ∧ 0 ≤ dy < 2 ^ 31 ∧ x = u32 (base + dx) ∧ y = u32 (base + dy) ∧
           TransactionIdPrecedes x y = (dx <? dy).
Proof.
  intros (dx & Hx & ->) (dy & Hy & ->). exists dx, dy. rewrite precedes_near by lia.
  split_and!; try done; lia.
Qed.

Lemma precedes_window_trans base x y z :
  in_window base x → in_window base y → in_window base z →
  TransactionIdPrecedes y x = false → TransactionIdPrecedes z y = false →
  TransactionIdPrecedes z x = false.
Proof.
  intros (dx & Hx & ->) (dy & Hy & ->) (dz & Hz & ->). rewrite !precedes_near by lia. lia.
Qed.

Lemma precedes_window_asym base x y :
  in_window base x → in_window base y →
  TransactionIdPrecedes x y = true → TransactionIdPrecedes y x = false.
Proof. intros (dx & Hx & ->) (dy & Hy & ->). rewrite !precedes_near by lia. lia. Qed.

Lemma oldest_xid_spec base l :
  Forall (λ x, in_window base x ∧ x ≠ kInvalidTransactionId) l → l ≠ [] →
  is_oldest l (oldest_xid l).
Proof.
  intros Hl Hne. unfold oldest_xid.
  assert (Hgen : ∀ l old, Forall (λ x, in_window base x ∧ x ≠ kInvalidTransactionId) l →
    in_window base old → old ≠ kInvalidTransactionId → is_oldest (old :: l) (foldl older old l)).
  { clear l Hl Hne. induction l as [|x l IH]; intros old Hl Hw Hv; cbn [foldl].
    { split; [set_solver|]. intros y ->%list_elem_of_singleton. apply precedes_irrefl. }
    apply Forall_cons in Hl as [[Hx Hxv] Hl].
    assert (Hstep : older old x = if TransactionIdPrecedes x old then x else old).
    { unfold older. rewrite (proj2 (Z.eqb_neq old _)) by done. done. }
    rewrite Hstep. destruct (TransactionIdPrecedes x old) eqn:E.
    - destruct (IH x Hl Hx Hxv) as [Hin Hmin]. split; [set_solver|].
      intros y Hy. apply elem_of_cons in Hy as [->|Hy]; [|by apply Hmin].
      assert (Hr : in_window base (foldl older x l)).
      { apply elem_of_cons in Hin as [->|Hin]; [done|].
        rewrite Forall_forall in Hl. by apply Hl. }
      apply (precedes_window_trans base _ x old); [done..| |].
      + apply Hmin. set_solver.
      + by apply (precedes_window_asym base).
    - destruct (IH old Hl Hw Hv) as [Hin Hmin]. split; [set_solver|].
      intros y Hy. apply elem_of_cons in Hy as [->|Hy]; [apply Hmin; set_solver|].
      apply elem_of_cons in Hy as [->|Hy]; [|apply Hmin; set_solver].
      assert (Hr : in_window base (foldl older old l)).
      { apply elem_of_cons in Hin as [->|Hin]; [done|].
        rewrite Forall_forall in Hl. by apply Hl. }
      apply (precedes_window_trans base _ old x); [done..| |done]. apply Hmin. set_solver. }
  destruct l as [|x l]; [done|]. apply Forall_cons in Hl as [[Hx Hxv] Hl].
  cbn [foldl]. change (older kInvalidTransactionId x) with x. by apply Hgen.
Qed.

Lemma oldest_xid_nil : oldest_xid [] = kInvalidTransactionId.
Proof. done. Qed.

End Proc.
