(* ===== verification/CatalogTx.v ===== *)
(** * The transactional catalog

    Models the transaction-facing part of src/catalog/catalog.cpp: the deep
    copy of the user-created rows taken when a transaction starts, its
    restoration on abort, and the on-commit save.

    The catalog is its 22 row vectors (pg_class, pg_attribute, ...,
    pg_extension, in the order of the C++ class); a row is its key OID (the
    [oid_field] of the C++ templates) and its other columns.  Deep copies are
    values.  [Save] writes the rows to [persist_path_]; here it records the
    rows written. *)

From stdpp Require Import base list strings.
From S2P Require Import Prelude.

Module CatalogTx.

Definition kFirstNormalObjectId : Z := 16384.
Definition kNumCatalogTables : nat := 22.

Record row := mkRow { row_oid : Z; row_cols : list string }.

#[global] Instance row_eq_dec : EqDecision row.
Proof. solve_decision. Defined.

Record CatalogSnapshot := mkCatSnapshot { snap_tables : list (list row); snap_next_oid : Z }.

Record Catalog := mkCatalog {
  tables : list (list row);
  next_oid : Z;
  snapshot_ : option CatalogSnapshot;
  dirty_ : bool;
  persist_path_ : string;
  saved : option (list (list row))
}.

Definition is_user (r : row) : bool := kFirstNormalObjectId <=? row_oid r.

Definition CopyUserRowsToSnapshot (src : list row) : list row := base.filter (λ r, is_user r = true) src.
Definition FreeUserRows (vec : list row) : list row := base.filter (λ r, is_user r = false) vec.
Definition RestoreUserRows (src dst : list row) : list row := dst ++ src.

Definition set_snapshot (sn : option CatalogSnapshot) (c : Catalog) : Catalog :=
  mkCatalog (tables c) (next_oid c) sn (dirty_ c) (persist_path_ c) (saved c).
Definition set_tables (t : list (list row)) (c : Catalog) : Catalog :=
  mkCatalog t (next_oid c) (snapshot_ c) (dirty_ c) (persist_path_ c) (saved c).
Definition set_dirty (d : bool) (c : Catalog) : Catalog :=
  mkCatalog (tables c) (next_oid c) (snapshot_ c) d (persist_path_ c) (saved c).

Definition DiscardSnapshot (c : Catalog) : Catalog := set_snapshot None c.

Definition TakeSnapshot (c : Catalog) : Catalog :=
  let c1 := DiscardSnapshot c in
  set_snapshot (Some (mkCatSnapshot (map CopyUserRowsToSnapshot (tables c1)) (next_oid c1))) c1.

Definition RestoreSnapshot (c : Catalog) : Catalog :=
  match snapshot_ c with
  | None => c
  | Some sn =>
      set_dirty false
        (set_tables (zip_with (λ live snap, RestoreUserRows snap (FreeUserRows live))
                              (tables c) (snap_tables sn)) c)
  end.

(** The user rows of each table, which is what [Save] writes. *)
Definition Save (c : Catalog) : list (list row) := map CopyUserRowsToSnapshot (tables c).

Definition CommitDirty (c : Catalog) : Catalog :=
  if dirty_ c && negb (bool_decide (persist_path_ c = "")) then
    mkCatalog (tables c) (next_oid c) (snapshot_ c) false (persist_path_ c) (Some (Save c))
  else c.

Definition PreWrite (c : Catalog) : Catalog :=
  match snapshot_ c with Some _ => set_dirty true c | None => c end.

(** A DDL write: [PreWrite], then one row vector changes. *)
Definition ddl_write (t : nat) (f : list row → list row) (c : Catalog) : Catalog :=
  let c1 := PreWrite c in set_tables (alter f t (tables c1)) c1.

(** ** Rollback of DDL *)

(** A write that leaves the built-in rows of its table alone. *)
Definition user_write (f : list row → list row) : Prop := ∀ l, FreeUserRows (f l) = FreeUserRows l.

Inductive ddl_steps : Catalog → Catalog → Prop :=
| ddl_none c : ddl_steps c c
| ddl_more c t f c' : user_write f → ddl_steps (ddl_write t f c) c' → ddl_steps c c'.

Lemma filter_split l : FreeUserRows l ++ CopyUserRowsToSnapshot l ≡ₚ l.
Proof.
  unfold FreeUserRows, CopyUserRowsToSnapshot. induction l as [|r l IH]; [done|].
  rewrite !filter_cons. destruct (is_user r) eqn:E; simpl.
  - rewrite <- Permutation_middle. by constructor.
  - by constructor.
Qed.

Lemma ddl_steps_builtin c c' :
  ddl_steps c c' → is_Some (snapshot_ c) →
  snapshot_ c' = snapshot_ c ∧ map FreeUserRows (tables c') = map FreeUserRows (tables c).
Proof.
  induction 1 as [|c t f c' Hf _ IH]; [done|]. intros [sn Hs].
  assert (Hsn : snapshot_ (ddl_write t f c) = snapshot_ c)
    by (unfold ddl_write, PreWrite; by rewrite Hs).
  destruct IH as [IH1 IH2]; [by rewrite Hsn; eauto|]. rewrite IH1, IH2, Hsn. split; [done|].
  unfold ddl_write, PreWrite. rewrite Hs. cbn [tables set_tables set_dirty].
  clear -Hf. generalize (tables c) as ts. induction t as [|t IH]; intros [|x ts]; simpl; [done|by rewrite Hf|done|].
  f_equal. apply IH.
Qed.

(** Rolling back undoes DDL: whatever user rows the transaction inserted,
    changed or deleted in any catalog table, after [RestoreSnapshot] every
    table holds the rows it held when the transaction took its snapshot, the
    catalog is clean, and OIDs handed out meanwhile are not reused. *)
Theorem rollback_restores_catalog (c c' : Catalog) (Hsteps : ddl_steps (TakeSnapshot c) c') :
  Forall2 Permutation (tables (RestoreSnapshot c')) (tables c) ∧
  dirty_ (RestoreSnapshot c') = false ∧ next_oid (RestoreSnapshot c') = next_oid c'.
Proof.
  destruct (ddl_steps_builtin _ _ Hsteps) as [Hsn Hb]; [by eexists|].
  unfold RestoreSnapshot. rewrite Hsn. cbn -[zip_with]. split; [|done].
  cbn [tables set_snapshot TakeSnapshot DiscardSnapshot] in Hb. clear -Hb.
  revert Hb. generalize (tables c') as ts'. generalize (tables c) as ts.
  induction ts as [|t ts IH]; intros [|t' ts'] Hb; simpl in *; try done.
  injection Hb as Ht Hts. constructor; [|by apply IH].
  unfold RestoreUserRows. rewrite Ht. apply filter_split.
Qed.

Definition demo_catalog : Catalog :=
  mkCatalog (replicate 22 [mkRow 11 ["pg_catalog"]; mkRow 16384 ["t1"]]) 16385 None false "" None.

Lemma rollback_restores_catalog_witness :
  let c' := ddl_write 0 (λ l, l ++ [mkRow 16385 ["t2"]]) (TakeSnapshot demo_catalog) in
  Forall2 Permutation (tables (RestoreSnapshot c')) (tables demo_catalog).
Proof.
  intros c'. apply (rollback_restores_catalog demo_catalog c').
  eapply (ddl_more _ 0 (λ l, l ++ [mkRow 16385 ["t2"]])); [|apply ddl_none].
  intros l. unfold FreeUserRows. rewrite filter_app. simpl. by rewrite app_nil_r.
Defined.

(** [CommitDirty] saves exactly when DDL happened under a snapshot and a path
    is configured. *)
Lemma commit_dirty_saves c t f :
  is_Some (snapshot_ c) → persist_path_ c ≠ "" →
  let c1 := ddl_write t f c in
  saved (CommitDirty c1) = Some (Save c1) ∧ dirty_ (CommitDirty c1) = false.
Proof.
  intros [sn Hs] Hp. unfold ddl_write, PreWrite, CommitDirty. rewrite Hs.
  cbn [dirty_ set_tables set_dirty persist_path_]. by rewrite bool_decide_eq_false_2 by done.
Qed.

End CatalogTx.
