(* ===== verification/World.v ===== *)
(** * The state of a backend

    Collects the state the transaction manager works on: the commit log
    ([Transam]), the process array ([Proc]), the transaction state stack of
    src/transaction/xact.cpp, the snapshot manager of
    src/transaction/snapshot.cpp, the prepared transactions of
    src/transaction/twophase.cpp, the catalog, and the per-backend caches the
    transaction manager invalidates.

    Components reach their own part of the state through a lens: [zoom] runs
    an operation of a component inside the whole. *)

From stdpp Require Import base gmap list strings.
From S2P Require Import Prelude Transam Proc CatalogTx.
Import Transam.

(** ** Lenses: what a component needs to know of the state around it *)

Class Lens (W S : Type) := { view : W → S; over : S → W → W }.

Class LensLaws (W S : Type) `{!Lens W S} := {
  view_over : ∀ (s : S) (w : W), view (over s w) = s;
  over_view : ∀ w : W, over (view w : S) w = w;
  over_over : ∀ (s s' : S) (w : W), over s (over s' w) = over s w
}.

Definition zoom {W S A} `{!Lens W S} (m : M S A) : M W A := λ w,
  let '(r, s) := m (view w) in (r, over s w).

(** A component's run carries over to the whole state. *)
Lemma zoom_run {W S A} `{!Lens W S} (m : M S A) (w : W) r s :
  m (view w) = (r, s) → zoom m w = (r, over s w).
Proof. intros H. unfold zoom. by rewrite H. Qed.

Lemma zoom_view {W S A} `{LensLaws W S} (m : M S A) (w : W) :
  fst (zoom m w) = fst (m (view w)) ∧ view (exec (zoom m) w) = exec m (view w).
Proof. unfold zoom, exec. destruct (m (view w)) as [r s]. simpl. by rewrite view_over. Qed.

Module World.

Definition kInvalidSubTransactionId : Z := 0.
Definition kTopSubTransactionId : Z := 1.
Definition kFirstCommandId : Z := 0.
Definition kInvalidCommandId : Z := 0xFFFFFFFF.

(** ** Transaction state (include/transaction/xact.hpp) *)

Inductive TransState := TsDefault | TsStart | TsInProgress | TsCommit | TsAbort | TsPrepare.

Inductive TBlockState :=
| kDefault | kStarted | kBegin | kInProgress | kEnd | kAbort | kAbortEnd | kAbortPending
| kSubBegin | kSubInProgress | kSubRelease | kSubCommit | kSubAbort | kSubAbortPending
| kSubRestart | kSubAbortRestart.

Inductive IsolationLevel := kReadUncommitted | kReadCommitted | kRepeatableRead | kSerializable.

#[global] Instance TransState_eq_dec : EqDecision TransState.
Proof. solve_decision. Defined.
#[global] Instance TBlockState_eq_dec : EqDecision TBlockState.
Proof. solve_decision. Defined.
#[global] Instance IsolationLevel_eq_dec : EqDecision IsolationLevel.
Proof. solve_decision. Defined.

(** One entry of the state stack.  The stack is a list with the current
    (sub)transaction at its head; [parent] is the rest of the list. *)
Record TransactionStateData := mkTs {
  transaction_id : Z;
  sub_transaction_id : Z;
  name : string;
  savepoint_level : Z;
  tstate : TransState;
  block_state : TBlockState;
  nesting_level : Z;
  command_id : Z;
  command_id_before_subxact : Z;
  isolation_level : IsolationLevel;
  read_only : bool;
  deferrable : bool
}.

Definition default_ts : TransactionStateData :=
  mkTs kInvalidTransactionId kInvalidSubTransactionId "" 0 TsDefault kDefault 0
       kFirstCommandId kFirstCommandId kReadCommitted false false.

Definition set_xid (x : Z) (t : TransactionStateData) :=
  mkTs x (sub_transaction_id t) (name t) (savepoint_level t) (tstate t) (block_state t) (nesting_level t)
       (command_id t) (command_id_before_subxact t) (isolation_level t) (read_only t) (deferrable t).
Definition set_tstate (x : TransState) (t : TransactionStateData) :=
  mkTs (transaction_id t) (sub_transaction_id t) (name t) (savepoint_level t) x (block_state t) (nesting_level t)
       (command_id t) (command_id_before_subxact t) (isolation_level t) (read_only t) (deferrable t).
Definition set_block (x : TBlockState) (t : TransactionStateData) :=
  mkTs (transaction_id t) (sub_transaction_id t) (name t) (savepoint_level t) (tstate t) x (nesting_level t)
       (command_id t) (command_id_before_subxact t) (isolation_level t) (read_only t) (deferrable t).
Definition set_command (x : Z) (t : TransactionStateData) :=
  mkTs (transaction_id t) (sub_transaction_id t) (name t) (savepoint_level t) (tstate t) (block_state t) (nesting_level t)
       x (command_id_before_subxact t) (isolation_level t) (read_only t) (deferrable t).
Definition set_name (n : string) (t : TransactionStateData) :=
  mkTs (transaction_id t) (sub_transaction_id t) n (savepoint_level t) (tstate t) (block_state t) (nesting_level t)
       (command_id t) (command_id_before_subxact t) (isolation_level t) (read_only t) (deferrable t).
Definition set_level (l : Z) (t : TransactionStateData) :=
  mkTs (transaction_id t) (sub_transaction_id t) (name t) l (tstate t) (block_state t) (nesting_level t)
       (command_id t) (command_id_before_subxact t) (isolation_level t) (read_only t) (deferrable t).
Definition set_isolation (l : IsolationLevel) (t : TransactionStateData) :=
  mkTs (transaction_id t) (sub_transaction_id t) (name t) (savepoint_level t) (tstate t) (block_state t) (nesting_level t)
       (command_id t) (command_id_before_subxact t) l (read_only t) (deferrable t).
Definition set_read_only (b : bool) (t : TransactionStateData) :=
  mkTs (transaction_id t) (sub_transaction_id t) (name t) (savepoint_level t) (tstate t) (block_state t) (nesting_level t)
       (command_id t) (command_id_before_subxact t) (isolation_level t) b (deferrable t).
Definition set_deferrable (b : bool) (t : TransactionStateData) :=
  mkTs (transaction_id t) (sub_transaction_id t) (name t) (savepoint_level t) (tstate t) (block_state t) (nesting_level t)
       (command_id t) (command_id_before_subxact t) (isolation_level t) (read_only t) b.

(** The stack and the subtransaction counter. *)
Record XactStack := mkStack { StateStack : list TransactionStateData; NextSubTransactionId : Z }.

(** ** Snapshots (include/transaction/snapshot.hpp) *)

Inductive SnapshotType := kMVCC | kSelf | kAny | kToast.

Record SnapshotData := mkSnapshot {
  snapshot_type : SnapshotType;
  s_xmin : Z;
  s_xmax : Z;
  xip : list Z;
  snapshot_xid : Z;
  curcid : Z;
  taken_during_recovery : bool
}.

Definition set_curcid (c : Z) (s : SnapshotData) : SnapshotData :=
  mkSnapshot (snapshot_type s) (s_xmin s) (s_xmax s) (xip s) (snapshot_xid s) c (taken_during_recovery s).

Definition XidInSnapshot (s : SnapshotData) (x : Z) : bool := existsb (λ y, y =? x) (xip s).
Definition XidLtXmin (s : SnapshotData) (x : Z) : bool :=
  TransactionIdIsValid (s_xmin s) && TransactionIdPrecedes x (s_xmin s).
Definition XidGeXmax (s : SnapshotData) (x : Z) : bool :=
  TransactionIdIsValid (s_xmax s) && TransactionIdFollowsOrEquals x (s_xmax s).

(** Snapshots are heap objects shared by reference: the snapshot store maps
    locations to them, and the stack and the two cached pointers hold
    locations. *)
Record SnapMgr := mkSnapMgr {
  snap_store : gmap nat SnapshotData;
  snap_next : nat;
  ActiveSnapshotStack : list nat;
  active_snapshot : option nat;
  catalog_snapshot : option nat
}.

(** ** Prepared transactions (include/transaction/twophase.hpp) *)

Record TwoPhaseState := mkTwoPhase {
  gid : string;
  tp_xid : Z;
  tp_isolation : IsolationLevel;
  tp_read_only : bool;
  tp_deferrable : bool
}.

Record TwoPhaseReg := mkTwoPhaseReg {
  StateList : list TwoPhaseState;
  tp_dir : string;
  tp_files : gmap string string
}.

(** ** Caches the transaction manager touches *)

Record Caches := mkCaches {
  num_commit : Z;                (* pg_stat_database of the current database *)
  num_rollback : Z;
  scan_cnums : list Z;           (* rs_cached_cnum of the active heap scans *)
  relcache : gset Z;             (* OIDs with a relcache entry *)
  syscache : option (gset Z)     (* entries of the syscache, if there is one *)
}.

Record world := mkWorld {
  w_tx : Transam.state;
  w_proc : Proc.state;
  w_xact : XactStack;
  w_snap : SnapMgr;
  w_cat : option CatalogTx.Catalog;
  w_2pc : TwoPhaseReg;
  w_caches : Caches
}.

#[global] Instance lens_tx : Lens world Transam.state :=
  {| view := w_tx;
     over s w := mkWorld s (w_proc w) (w_xact w) (w_snap w) (w_cat w) (w_2pc w) (w_caches w) |}.
#[global] Instance lens_proc : Lens world Proc.state :=
  {| view := w_proc;
     over s w := mkWorld (w_tx w) s (w_xact w) (w_snap w) (w_cat w) (w_2pc w) (w_caches w) |}.
#[global] Instance lens_xact : Lens world XactStack :=
  {| view := w_xact;
     over s w := mkWorld (w_tx w) (w_proc w) s (w_snap w) (w_cat w) (w_2pc w) (w_caches w) |}.
#[global] Instance lens_snap : Lens world SnapMgr :=
  {| view := w_snap;
     over s w := mkWorld (w_tx w) (w_proc w) (w_xact w) s (w_cat w) (w_2pc w) (w_caches w) |}.
#[global] Instance lens_cat : Lens world (option CatalogTx.Catalog) :=
  {| view := w_cat;
     over s w := mkWorld (w_tx w) (w_proc w) (w_xact w) (w_snap w) s (w_2pc w) (w_caches w) |}.
#[global] Instance lens_2pc : Lens world TwoPhaseReg :=
  {| view := w_2pc;
     over s w := mkWorld (w_tx w) (w_proc w) (w_xact w) (w_snap w) (w_cat w) s (w_caches w) |}.
#[global] Instance lens_caches : Lens world Caches :=
  {| view := w_caches;
     over s w := mkWorld (w_tx w) (w_proc w) (w_xact w) (w_snap w) (w_cat w) (w_2pc w) s |}.

#[global] Instance lens_tx_laws : LensLaws world Transam.state.
Proof. split; by intros; repeat (match goal with w : world |- _ => destruct w end). Qed.
#[global] Instance lens_proc_laws : LensLaws world Proc.state.
Proof. split; by intros; repeat (match goal with w : world |- _ => destruct w end). Qed.
#[global] Instance lens_xact_laws : LensLaws world XactStack.
Proof. split; by intros; repeat (match goal with w : world |- _ => destruct w end). Qed.
#[global] Instance lens_snap_laws : LensLaws world SnapMgr.
Proof. split; by intros; repeat (match goal with w : world |- _ => destruct w end). Qed.
#[global] Instance lens_cat_laws : LensLaws world (option CatalogTx.Catalog).
Proof. split; by intros; repeat (match goal with w : world |- _ => destruct w end). Qed.
#[global] Instance lens_2pc_laws : LensLaws world TwoPhaseReg.
Proof. split; by intros; repeat (match goal with w : world |- _ => destruct w end). Qed.
#[global] Instance lens_caches_laws : LensLaws world Caches.
Proof. split; by intros; repeat (match goal with w : world |- _ => destruct w end). Qed.

(** ** The current (sub)transaction *)

Definition CurrentState (w : world) : option TransactionStateData := head (StateStack (w_xact w)).

(** The top-level transaction: the last element of the stack. *)
Definition TopState (w : world) : option TransactionStateData := list.last (StateStack (w_xact w)).

Definition GetCurrentTransactionIdIfAny (w : world) : Z :=
  match CurrentState w with None => kInvalidTransactionId | Some t => transaction_id t end.

Definition GetCurrentSubTransactionId (w : world) : Z :=
  match CurrentState w with None => kInvalidSubTransactionId | Some t => sub_transaction_id t end.

Definition GetCurrentTransactionNestingLevel (w : world) : Z :=
  match CurrentState w with None => 0 | Some t => nesting_level t end.

Definition GetCurrentCommandId (w : world) : Z :=
  match CurrentState w with None => kFirstCommandId | Some t => command_id t end.

Definition GetTopLevelTransactionIdIfAny (w : world) : Z :=
  match TopState w with None => kInvalidTransactionId | Some t => transaction_id t end.

Definition TransactionIdIsCurrentTransactionId (w : world) (x : Z) : bool :=
  match CurrentState w with
  | None => false
  | Some _ =>
      existsb (λ t, transaction_id t =? x) (StateStack (w_xact w)) ||
      (GetCurrentTransactionIdIfAny w =? x)
  end.

Definition GetTransactionIsolationLevel (w : world) : IsolationLevel :=
  match TopState w with None => kReadCommitted | Some t => isolation_level t end.
Definition GetTransactionReadOnly (w : world) : bool :=
  match TopState w with None => false | Some t => read_only t end.
Definition GetTransactionDeferrable (w : world) : bool :=
  match TopState w with None => false | Some t => deferrable t end.

Definition initial_world : world :=
  mkWorld Transam.initial_state Proc.initial_state (mkStack [] (kTopSubTransactionId + 1))
          (mkSnapMgr ∅ 0 [] None None) None (mkTwoPhaseReg [] "" ∅)
          (mkCaches 0 0 [] ∅ None).

End World.
