(* ===== verification/Snapshot.v ===== *)
(** * Snapshots

    Models src/transaction/snapshot.cpp and the snapshot-building part of
    src/transaction/procarray.cpp ([GetRunningTransactionData]): building a
    snapshot from the running transactions, the stack of active snapshots,
    and the catalog snapshot.  Snapshots are objects in a store; the stack
    holds locations, so a snapshot pushed twice or kept by a caller is shared. *)

From stdpp Require Import base gmap list sets strings.
From S2P Require Import Prelude Transam Proc World.
Import Transam World.

Module Snapshot.

(** The running XIDs, [xmax] and [xmin] ([xip_out], [*xmax_out], [*xmin_out]). *)
Definition GetRunningTransactionData : M world (list Z * Z * Z) :=
  pa ← gets (λ w, Proc.ProcArray (w_proc w));
  match pa with
  | None =>
      next ← zoom GetNextTransactionId;
      mret ([], u32 (next + 1), kFrozenTransactionId)
  | Some _ =>
      xip_out ← gets (λ w, Proc.running_xids (w_proc w));
      next ← zoom GetNextTransactionId;
      let oldest := Proc.oldest_xid xip_out in
      mret (xip_out, u32 (next + 1),
            if oldest =? kInvalidTransactionId then kFrozenTransactionId else oldest)
  end.

(** Storing through a snapshot pointer. *)
Definition store_snapshot (l : nat) (s : SnapshotData) (m : SnapMgr) : SnapMgr :=
  mkSnapMgr (<[l := s]> (snap_store m)) (snap_next m) (ActiveSnapshotStack m)
            (active_snapshot m) (catalog_snapshot m).
Definition set_stack (st : list nat) (m : SnapMgr) : SnapMgr :=
  mkSnapMgr (snap_store m) (snap_next m) st (active_snapshot m) (catalog_snapshot m).
Definition set_active (a : option nat) (m : SnapMgr) : SnapMgr :=
  mkSnapMgr (snap_store m) (snap_next m) (ActiveSnapshotStack m) a (catalog_snapshot m).
Definition set_catalog (c : option nat) (m : SnapMgr) : SnapMgr :=
  mkSnapMgr (snap_store m) (snap_next m) (ActiveSnapshotStack m) (active_snapshot m) c.

Definition default_snapshot : SnapshotData :=
  mkSnapshot kMVCC kInvalidTransactionId kInvalidTransactionId [] kInvalidTransactionId
             kFirstCommandId false.

(** [makePallocNode<SnapshotData>()]: a fresh location. *)
Definition palloc_snapshot (s : SnapshotData) : M SnapMgr nat := λ m,
  (Ret (snap_next m),
   mkSnapMgr (<[snap_next m := s]> (snap_store m)) (S (snap_next m)) (ActiveSnapshotStack m)
             (active_snapshot m) (catalog_snapshot m)).

(** The snapshot the current state gives. *)
Definition compute_snapshot : M world SnapshotData :=
  r ← GetRunningTransactionData;
  let '(xip_out, xmax_out, xmin_out) := r in
  sxid ← gets GetCurrentTransactionIdIfAny;
  cid ← gets GetCurrentCommandId;
  mret (mkSnapshot kMVCC xmin_out xmax_out xip_out sxid cid false).

(** [None] is the null pointer. *)
Definition GetSnapshotData (snapshot : option nat) : M world unit :=
  match snapshot with
  | None => mret tt
  | Some l => s ← compute_snapshot; zoom (modify (store_snapshot l s))
  end.

Definition GetLatestSnapshot : M world nat :=
  l ← zoom (palloc_snapshot default_snapshot);
  GetSnapshotData (Some l);;
  mret l.

Definition GetTransactionSnapshot : M world nat :=
  st ← gets (λ w, ActiveSnapshotStack (w_snap w));
  match st with
  | l :: _ => mret l
  | [] =>
      l ← GetLatestSnapshot;
      zoom (modify (λ m, set_stack [l] (set_active (Some l) m)));;
      mret l
  end.

Definition ResetTransactionSnapshot : M world unit :=
  zoom (modify (λ m, set_catalog None (set_active None (set_stack [] m)))).

Definition PushActiveSnapshot (l : nat) : M world unit :=
  zoom (modify (λ m, set_stack (l :: ActiveSnapshotStack m) m)).

(** The deep copy is a fresh object with the same contents. *)
Definition PushCopiedSnapshot (l : nat) : M world unit :=
  s ← gets (λ w, default default_snapshot (snap_store (w_snap w) !! l));
  l' ← zoom (palloc_snapshot s);
  zoom (modify (λ m, set_stack (l' :: ActiveSnapshotStack m) m)).

Definition PopActiveSnapshot : M world unit :=
  zoom (modify (λ m, set_stack (tail (ActiveSnapshotStack m)) m)).

Definition ActiveSnapshotSet (w : world) : bool :=
  negb (bool_decide (ActiveSnapshotStack (w_snap w) = [])).

Definition GetActiveSnapshot (w : world) : option nat := head (ActiveSnapshotStack (w_snap w)).

Definition GetCatalogSnapshot : M world nat :=
  c ← gets (λ w, catalog_snapshot (w_snap w));
  match c with
  | Some l => mret l
  | None =>
      l ← GetLatestSnapshot;
      zoom (modify (set_catalog (Some l)));;
      mret l
  end.

Definition InvalidateCatalogSnapshot : M world unit := zoom (modify (set_catalog None)).

Definition GetNonHistoricCatalogSnapshot (w : world) : option nat :=
  match catalog_snapshot (w_snap w) with
  | Some l => Some l
  | None => GetActiveSnapshot w
  end.

Definition InitializeSnapshotManager : M world unit :=
  zoom (modify (λ m, set_catalog None (set_active None (set_stack [] m)))).

Definition MakeSnapshot (xmin xmax : Z) (xips : list Z) (w : world) : SnapshotData :=
  mkSnapshot kMVCC xmin xmax xips (GetCurrentTransactionIdIfAny w) (GetCurrentCommandId w) false.

(** ** What a snapshot promises *)

(** The running transactions of [w] lie in the half-circle of ids that ends at
    the counter: none is older than [horizon], none is assigned yet. *)
Definition running_ok (w : world) (horizon : Z) : Prop :=
  ∃ v n, varcache_of (w_tx w) = Some v ∧ nextXid v = u32 (horizon + n) ∧ 0 < n < 2 ^ 31 ∧
         nextXid v ≠ kInvalidTransactionId ∧
         ∀ x, x ∈ Proc.running_xids (w_proc w) →
              ∃ d, 0 ≤ d < n ∧ x = u32 (horizon + d).

(** The transactions running when the snapshot was taken are listed in it,
    and it brackets them: none precedes [xmin], all precede [xmax]. *)
Record snapshot_ok (s : SnapshotData) (running : list Z) (next : Z) : Prop := {
  ok_xip : xip s = running;
  ok_xmax : s_xmax s = next;
  ok_below : ∀ x, x ∈ running → XidLtXmin s x = false;
  ok_above : ∀ x, x ∈ running → XidGeXmax s x = false;
  ok_xmin : running = [] ∧ s_xmin s = kFrozenTransactionId ∨ s_xmin s ∈ running
}.

Lemma running_valid s x : x ∈ Proc.running_xids s → x ≠ kInvalidTransactionId.
Proof.
  unfold Proc.running_xids. destruct (Proc.ProcArray s); [|by intros ?%not_elem_of_nil].
  rewrite list_elem_of_omap. intros (no & _ & Hx).
  destruct (Proc.GetPgXactByIndex s no) as [e|]; simpl in Hx; [|done].
  destruct (TransactionIdIsValid (Proc.px_xid e)) eqn:E; simplify_eq.
  unfold TransactionIdIsValid in E. to_prop. done.
Qed.

Lemma next_plus_one n : is_u32 n → u32 (u32 (n - 1) + 1) = n.
Proof.
  intros H. unfold u32. rewrite Zplus_mod_idemp_l. replace (n - 1 + 1) with n by lia.
  by apply Z.mod_small.
Qed.

Lemma compute_snapshot_run w v :
  varcache_of (w_tx w) = Some v → is_u32 (nextXid v) → is_Some (Proc.ProcArray (w_proc w)) →
  let running := Proc.running_xids (w_proc w) in
  let oldest := Proc.oldest_xid running in
  compute_snapshot w =
    (Ret (mkSnapshot kMVCC
            (if oldest =? kInvalidTransactionId then kFrozenTransactionId else oldest)
            (nextXid v) running (GetCurrentTransactionIdIfAny w) (GetCurrentCommandId w) false), w).
Proof.
  intros Hv Hn [pa Hpa]. unfold compute_snapshot, GetRunningTransactionData, zoom, GetNextTransactionId.
  run_step. rewrite Hpa. simpl. rewrite Hv, next_plus_one by done. by destruct w.
Qed.

Lemma running_window w horizon x :
  running_ok w horizon → x ∈ Proc.running_xids (w_proc w) → Proc.in_window horizon x.
Proof. intros (v & n & _ & _ & Hn & _ & Hr) Hx. destruct (Hr x Hx) as (d & ? & ->). exists d. split; [lia|done]. Qed.

Lemma compute_snapshot_ok w horizon v :
  running_ok w horizon → varcache_of (w_tx w) = Some v → is_Some (Proc.ProcArray (w_proc w)) →
  ∃ s, compute_snapshot w = (Ret s, w) ∧
       snapshot_ok s (Proc.running_xids (w_proc w)) (nextXid v) ∧
       curcid s = GetCurrentCommandId w ∧ snapshot_xid s = GetCurrentTransactionIdIfAny w.
Proof.
  intros Hrun Hv Hpa. pose proof Hrun as (v' & n & Hv' & Hnext & Hn & Hnz & Hr). simplify_eq.
  eexists. split; [apply compute_snapshot_run; [done| |done]; rewrite Hnext; apply u32_range|].
  split; [|done]. set (running := Proc.running_xids (w_proc w)) in *.
  assert (Hall : Forall (λ x, Proc.in_window horizon x ∧ x ≠ kInvalidTransactionId) running).
  { apply Forall_forall. intros x Hx. split; [by apply (running_window w)|by apply (running_valid (w_proc w))]. }
  destruct (decide (running = [])) as [He|Hne].
  { constructor; cbn [xip s_xmax s_xmin]; rewrite ?He; try done; try (by intros x ?%not_elem_of_nil).
    by left. }
  destruct (Proc.oldest_xid_spec horizon running Hall Hne) as [Hin Hmin].
  rewrite (proj2 (Z.eqb_neq (Proc.oldest_xid running) _))
    by (by apply (running_valid (w_proc w))).
  constructor; cbn [xip s_xmax s_xmin]; [done|done| | |by right].
  - intros x Hx. unfold XidLtXmin. cbn [s_xmin]. rewrite Hmin by done. apply andb_false_r.
  - intros x Hx. unfold XidGeXmax. cbn [s_xmax]. rewrite follows_or_equals_spec.
    destruct (Hr x Hx) as (d & Hd & ->). rewrite Hnext, precedes_near by lia.
    rewrite (proj2 (Z.ltb_lt _ _)) by lia. apply andb_false_r.
Qed.

(** The transactions that are running: the ids in the entries of the backends that
    the process array lists. *)
Definition running (p : Proc.state) (x : Z) : Prop :=
  x ≠ kInvalidTransactionId ∧
  ∃ pa k no e, Proc.ProcArray p = Some pa ∧ (k < Proc.numProcs pa)%nat ∧ Proc.pgprocnos pa !! k = Some no ∧ Proc.GetPgXactByIndex p no = Some e ∧ Proc.px_xid e = x.

Lemma running_listed p x : x ∈ Proc.running_xids p ↔ running p x.
Proof.
  unfold Proc.running_xids, running. destruct (Proc.ProcArray p) as [pa|]; [|split; [by intros ?%not_elem_of_nil|by intros (_ & ? & ? & ? & ? & ? & _)]].
  rewrite list_elem_of_omap. unfold Proc.live_procs. split.
  - intros (no & Hno & Hx). apply list_elem_of_lookup in Hno as (k & Hk). apply lookup_take_Some in Hk as [Hk Hlt]. destruct (Proc.GetPgXactByIndex p no) as [e|] eqn:Ee; [|done]. cbn in Hx.
    destruct (TransactionIdIsValid (Proc.px_xid e)) eqn:Ev; [|done]. injection Hx as <-. split; [intros E; by rewrite E in Ev|]. by exists pa, k, no, e.
  - intros (Hv & pa' & k & no & e & [= <-] & Hlt & Hk & He & Hx). exists no. split; [apply list_elem_of_lookup; exists k; by apply lookup_take_Some|]. rewrite He. cbn. rewrite Hx.
    assert (TransactionIdIsValid x = true) as ->; [|done]. unfold TransactionIdIsValid. apply negb_true_iff, Z.eqb_neq. exact Hv.
Qed.

(** C30: A snapshot taken by a backend lists exactly the transactions running at
    that moment, the ids of the entries of all backends in the process array; none of
    them precedes its [xmin], all of them precede its [xmax], which is the next id to
    be assigned, and [xmin] is itself running (or the frozen id when nothing runs).
    The running ids are within half the circle of ids below the next one. *)
Theorem snapshot_brackets_running (w : world) (horizon : Z) (v : VariableCacheData)
  (n : Z) (Hn : 0 < n < 2 ^ 31) (Hnext : nextXid v = u32 (horizon + n)) (Hvalid : nextXid v ≠ kInvalidTransactionId)
  (Hrun : ∀ x, running (w_proc w) x → ∃ d, 0 ≤ d < n ∧ x = u32 (horizon + d)) (Hv : varcache_of (w_tx w) = Some v)
  (Hpa : is_Some (Proc.ProcArray (w_proc w))) :
  ∃ l w' s, GetLatestSnapshot w = (Ret l, w') ∧ snap_store (w_snap w') !! l = Some s ∧
            (∀ x, x ∈ xip s ↔ running (w_proc w) x) ∧
            s_xmax s = nextXid v ∧
            (∀ x, running (w_proc w) x → XidLtXmin s x = false ∧ XidGeXmax s x = false) ∧
            ((∀ x, ¬ running (w_proc w) x) ∧ s_xmin s = kFrozenTransactionId ∨ running (w_proc w) (s_xmin s)) ∧
            curcid s = GetCurrentCommandId w ∧
            snapshot_xid s = GetCurrentTransactionIdIfAny w ∧
            l = snap_next (w_snap w).
Proof.
  assert (Hok : running_ok w horizon) by (exists v, n; do 4 (split; [assumption|]); intros x Hx; by apply Hrun, running_listed).
  unfold GetLatestSnapshot, GetSnapshotData. run_step. unfold zoom at 1. simpl.
  set (w1 := mkWorld _ _ _ _ _ _ _).
  destruct (compute_snapshot_ok w1 horizon v) as (s & Hs & [O1 O2 O3 O4 O5] & Hc & Hx); [done|done|done|].
  rewrite Hs. unfold zoom. simpl. eexists _, _, s. split; [done|]. simpl.
  rewrite lookup_insert_eq. split; [done|]. setoid_rewrite <- running_listed. change (w_proc w1) with (w_proc w) in *. split_and!; try done.
  - intros x. by rewrite O1.
  - intros x Hxr. split; [by apply O3|by apply O4].
  - destruct O5 as [[E ?]|?]; [left|by right]. split; [|done]. intros x. rewrite E. apply not_elem_of_nil.
Qed.

Definition demo_world : world :=
  let w := mkWorld Transam.ready_state (snd (Proc.InitProcess 4242 Proc.ready_state))
             (mkStack [set_xid 3 default_ts] 2) (mkSnapMgr ∅ 0 [] None None) None
             (mkTwoPhaseReg [] "" ∅) (mkCaches 0 0 [] ∅ None) in
  let w1 := exec (zoom AllocateNextTransactionId) w in
  over (Proc.set_my_xid 3 (w_proc w1)) w1.

Lemma demo_running x : running (w_proc demo_world) x ↔ x = 3.
Proof. rewrite <- running_listed. replace (Proc.running_xids (w_proc demo_world)) with [3] by (vm_compute; reflexivity). apply list_elem_of_singleton. Qed.

Lemma snapshot_brackets_running_witness :
  ∃ l w' s, GetLatestSnapshot demo_world = (Ret l, w') ∧ snap_store (w_snap w') !! l = Some s ∧ (∀ x, x ∈ xip s ↔ x = 3) ∧ s_xmax s = 4.
Proof.
  destruct (snapshot_brackets_running demo_world 3 (mkVariableCache 4 3) 1) as (l & w' & s & H1 & H2 & H3 & H4 & _).
  - lia.
  - reflexivity.
  - discriminate.
  - intros x ->%demo_running. exists 0. split; [lia|reflexivity].
  - reflexivity.
  - eexists; vm_compute; reflexivity.
  - exists l, w', s. split; [exact H1|]. split; [exact H2|]. split; [|exact H4]. intros x. rewrite H3. apply demo_running.
Defined.

(** ** The active snapshot stack *)

(** The locations a well-formed manager hands out are allocated. *)
Definition snap_wf (m : SnapMgr) : Prop :=
  (∀ l, is_Some (snap_store m !! l) → (l < snap_next m)%nat) ∧
  Forall (λ l, is_Some (snap_store m !! l)) (ActiveSnapshotStack m).

(** A pushed copy is isolated from its original: after
    [PushCopiedSnapshot], changing the active snapshot leaves the caller's
    snapshot as it was, and popping restores the stack; a snapshot pushed by
    [PushActiveSnapshot] is the caller's own object, so the same change is
    seen by the caller. *)
Theorem pushed_snapshot_aliasing (w : world) (l : nat) (s : SnapshotData) (cid : Z)
  (Hwf : snap_wf (w_snap w)) (Hl : snap_store (w_snap w) !! l = Some s) :
  let touch w := match GetActiveSnapshot w with
                 | Some a => exec (zoom (modify (λ m, store_snapshot a
                     (set_curcid cid (default default_snapshot (snap_store m !! a))) m))) w
                 | None => w
                 end in
  let wc := touch (exec (PushCopiedSnapshot l) w) in
  let wp := touch (exec (PushActiveSnapshot l) w) in
  snap_store (w_snap wc) !! l = Some s ∧
  ActiveSnapshotStack (w_snap (exec PopActiveSnapshot wc)) = ActiveSnapshotStack (w_snap w) ∧
  (∃ a, GetActiveSnapshot wc = Some a ∧ snap_store (w_snap wc) !! a = Some (set_curcid cid s)) ∧
  snap_store (w_snap wp) !! l = Some (set_curcid cid s).
Proof.
  destruct Hwf as [Hlt _]. assert (Hne : snap_next (w_snap w) ≠ l).
  { assert (l < snap_next (w_snap w))%nat by (apply Hlt; eauto). lia. }
  intros touch wc wp. subst wc wp touch. unfold exec, GetActiveSnapshot, PushCopiedSnapshot, PushActiveSnapshot,
    PopActiveSnapshot, palloc_snapshot, zoom. run_step. rewrite Hl. simpl.
  rewrite !lookup_insert_eq. simpl. split_and!.
  - by rewrite !lookup_insert_ne.
  - done.
  - exists (snap_next (w_snap w)). split; [done|]. by rewrite lookup_insert_eq.
  - done.
Qed.

Definition one_snapshot_world : world :=
  over (mkSnapMgr {[0%nat := default_snapshot]} 1 [] None None) demo_world.

Lemma pushed_snapshot_aliasing_witness :
  ∃ a, GetActiveSnapshot (exec (PushCopiedSnapshot 0) one_snapshot_world) = Some a ∧ a ≠ 0%nat ∧
       snap_store (w_snap (exec (PushCopiedSnapshot 0) one_snapshot_world)) !! 0%nat = Some default_snapshot.
Proof.
  destruct (pushed_snapshot_aliasing one_snapshot_world 0 default_snapshot 7) as (_ & _ & (a & Ha & _) & _).
  - split; [|constructor]. intros l [x Hx].
    change (snap_store (w_snap one_snapshot_world)) with ({[0%nat := default_snapshot]} : gmap nat SnapshotData) in Hx.
    apply lookup_singleton_Some in Hx as [<- _]. simpl. lia.
  - reflexivity.
  - exists a. vm_compute in Ha. injection Ha as <-. split; [reflexivity|]. split; [discriminate|reflexivity].
Defined.

(** The transaction snapshot is taken once and reused until it is reset. *)
Lemma transaction_snapshot_cached w l w' :
  GetTransactionSnapshot w = (Ret l, w') → GetTransactionSnapshot w' = (Ret l, w').
Proof.
  unfold GetTransactionSnapshot at 1. run_step.
  destruct (ActiveSnapshotStack (w_snap w)) as [|l0 st] eqn:E.
  - destruct (GetLatestSnapshot w) as [[l1|] w1]; [|done]. unfold zoom. simpl.
    intros H. simplify_eq. unfold GetTransactionSnapshot. run_step. done.
  - intros H. simplify_eq. unfold GetTransactionSnapshot. run_step. by rewrite E.
Qed.

End Snapshot.
