(* ===== verification/TwoPhase.v ===== *)
(** * Prepared transactions

    Models src/transaction/twophase.cpp (and the isolation-level names of
    src/transaction/xact.cpp its files contain): the in-memory list of
    prepared transactions, COMMIT PREPARED / ROLLBACK PREPARED, and the
    pg_twophase/ files, one "key=value" text file per transaction.

    The directory is a map from file names to contents (writes and removals
    succeed). *)

From Stdlib Require Import Ascii.
From stdpp Require Import base gmap list strings sets.
From S2P Require Import Prelude CString Transam Proc World.
Import CString Transam World.

Module TwoPhase.

(** ** Isolation level names *)

Definition ParseIsolationLevelName (n : string) : IsolationLevel :=
  if bool_decide (n = "serializable") then kSerializable
  else if bool_decide (n = "repeatable read") then kRepeatableRead
  else if bool_decide (n = "read uncommitted") then kReadUncommitted
  else kReadCommitted.

Definition IsolationLevelName (l : IsolationLevel) : string :=
  match l with
  | kReadUncommitted => "read uncommitted"
  | kReadCommitted => "read committed"
  | kRepeatableRead => "repeatable read"
  | kSerializable => "serializable"
  end.

(** ** Files *)

Definition FormatXidHex (x : Z) : string := of_chars (print_padded 16 16 8 x).

Definition TwoPhaseFilePath (dir : string) (x : Z) : string :=
  if bool_decide (dir = "") then "" else dir +:+ "/" +:+ FormatXidHex x.

Definition newline : string := of_chars ["010"%char].

(** What [operator<<] prints for an unsigned integer. *)
Definition print_uint (z : Z) : string := of_chars (print_padded 10 1 10 z).

Definition state_lines (s : TwoPhaseState) : list string :=
  [ "gid=" +:+ gid s;
    "xid=" +:+ print_uint (tp_xid s);
    "isolation=" +:+ IsolationLevelName (tp_isolation s);
    "read_only=" +:+ (if tp_read_only s then "1" else "0");
    "deferrable=" +:+ (if tp_deferrable s then "1" else "0") ].

(** The characters [WriteStateFile] puts in the file. *)
Definition state_file (s : TwoPhaseState) : string :=
  foldr (λ l acc, l +:+ newline +:+ acc) "" (state_lines s).

Definition WriteStateFile (s : TwoPhaseState) (r : TwoPhaseReg) : TwoPhaseReg :=
  if bool_decide (tp_dir r = "") then r
  else mkTwoPhaseReg (StateList r) (tp_dir r) (<[TwoPhaseFilePath (tp_dir r) (tp_xid s) := state_file s]> (tp_files r)).

Definition RemoveStateFile (x : Z) (r : TwoPhaseReg) : TwoPhaseReg :=
  if bool_decide (tp_dir r = "") then r
  else mkTwoPhaseReg (StateList r) (tp_dir r) (delete (TwoPhaseFilePath (tp_dir r) x) (tp_files r)).

(** [line.find('=')] and the two [substr]s: key and value. *)
Fixpoint split_eq (l : list ascii) : option (list ascii * list ascii) :=
  match l with
  | [] => None
  | c :: l' => if Ascii.eqb c "=" then Some ([], l')
               else '(k, v) ← split_eq l'; Some (c :: k, v)
  end.

Definition set_gid (g : string) (s : TwoPhaseState) :=
  mkTwoPhase g (tp_xid s) (tp_isolation s) (tp_read_only s) (tp_deferrable s).
Definition set_tp_xid (x : Z) (s : TwoPhaseState) :=
  mkTwoPhase (gid s) x (tp_isolation s) (tp_read_only s) (tp_deferrable s).
Definition set_tp_isolation (l : IsolationLevel) (s : TwoPhaseState) :=
  mkTwoPhase (gid s) (tp_xid s) l (tp_read_only s) (tp_deferrable s).
Definition set_tp_read_only (b : bool) (s : TwoPhaseState) :=
  mkTwoPhase (gid s) (tp_xid s) (tp_isolation s) b (tp_deferrable s).
Definition set_tp_deferrable (b : bool) (s : TwoPhaseState) :=
  mkTwoPhase (gid s) (tp_xid s) (tp_isolation s) (tp_read_only s) b.

(** [ParseLine]; its boolean result is not used by the caller. *)
Definition ParseLine (line : list ascii) (s : TwoPhaseState) : TwoPhaseState :=
  match split_eq line with
  | None => s
  | Some (k, v) =>
      let key := of_chars k in let val := of_chars v in
      if bool_decide (key = "gid") then set_gid val s
      else if bool_decide (key = "xid") then set_tp_xid (u32 (strtoul 10 (c_str v))) s
      else if bool_decide (key = "isolation") then set_tp_isolation (ParseIsolationLevelName val) s
      else if bool_decide (key = "read_only") then set_tp_read_only (bool_decide (val = "1")) s
      else if bool_decide (key = "deferrable") then set_tp_deferrable (bool_decide (val = "1")) s
      else s
  end.

(** [std::getline] until the end of the file: a last line without newline
    counts when it is not empty.  [acc] is the line read so far, reversed. *)
Fixpoint getlines (l acc : list ascii) : list (list ascii) :=
  match l with
  | [] => match acc with [] => [] | _ => [reverse acc] end
  | c :: l' => if Ascii.eqb c "010" then reverse acc :: getlines l' [] else getlines l' (c :: acc)
  end.

Definition default_two_phase : TwoPhaseState :=
  mkTwoPhase "" kInvalidTransactionId kReadCommitted false false.

Definition ReadStateFile (content : string) (s : TwoPhaseState) : TwoPhaseState :=
  foldl (λ s line, ParseLine line s) s (getlines (chars content) []).

(** ** The list of prepared transactions *)

(** An error message built with [snprintf] in a buffer of 256 bytes. *)
Definition dquote : string := of_chars ["034"%char].
Definition errbuf (before : string) (g : string) (after : string) : string :=
  of_chars (take 255 (chars (before +:+ dquote) ++ c_str (chars g) ++ chars (dquote +:+ after))).

Definition set_list (l : list TwoPhaseState) (r : TwoPhaseReg) : TwoPhaseReg :=
  mkTwoPhaseReg l (tp_dir r) (tp_files r).

Definition SaveTwoPhaseState (s : TwoPhaseState) : M TwoPhaseReg unit := λ r,
  if existsb (λ t, bool_decide (gid t = gid s)) (StateList r)
  then (Ereport (errbuf "transaction identifier " (gid s) " is already in use"), r)
  else (Ret tt, WriteStateFile s (set_list (StateList r ++ [s]) r)).

Fixpoint remove_gid (g : string) (l : list TwoPhaseState) : option (TwoPhaseState * list TwoPhaseState) :=
  match l with
  | [] => None
  | t :: l' => if bool_decide (gid t = g) then Some (t, l')
               else '(found, rest) ← remove_gid g l'; Some (found, t :: rest)
  end.

Definition RemoveTwoPhaseState (g : string) : M TwoPhaseReg bool := λ r,
  match remove_gid g (StateList r) with
  | Some (t, rest) => (Ret true, set_list rest (RemoveStateFile (tp_xid t) r))
  | None => (Ret false, r)
  end.

Definition LookupTwoPhaseState (g : string) (r : TwoPhaseReg) : option TwoPhaseState :=
  list_find (λ t, gid t = g) (StateList r) ≫= λ p, Some (snd p).

Definition finish_prepared (mark : Z → M Transam.state unit) (g : string) : M world bool :=
  found ← gets (λ w, LookupTwoPhaseState g (w_2pc w));
  match found with
  | None => ereport (errbuf "prepared transaction with identifier " g " does not exist")
  | Some s => zoom (mark (tp_xid s));; zoom (RemoveTwoPhaseState g);; mret true
  end.

Definition CommitPreparedTransaction (g : string) : M world bool := finish_prepared TransactionIdCommit g.
Definition RollbackPreparedTransaction (g : string) : M world bool := finish_prepared TransactionIdAbort g.

Definition NumTwoPhaseStates (r : TwoPhaseReg) : nat := length (StateList r).

Definition SetTwoPhaseDirectory (d : string) : M TwoPhaseReg unit :=
  modify (λ r, mkTwoPhaseReg (StateList r) d (tp_files r)).

(** [entries]: the regular files of the directory in iteration order. *)
Definition load_states (entries : list (string * string)) : list TwoPhaseState :=
  base.filter (λ s, gid s ≠ "") (map (λ e, ReadStateFile (snd e) default_two_phase) entries).

Definition LoadTwoPhaseFiles (dir_exists : bool) (entries : list (string * string)) : M TwoPhaseReg unit :=
  modify (λ r,
    if bool_decide (tp_dir r = "") then set_list [] r
    else if negb dir_exists then set_list [] r
    else set_list (load_states entries) r).

Definition FlushTwoPhaseFiles (dir_exists : bool) : M TwoPhaseReg unit :=
  modify (λ r,
    if bool_decide (tp_dir r = "") then r
    else if negb dir_exists then r
    else foldl (λ r s, WriteStateFile s r) r (StateList r)).

Definition ResetTwoPhaseState : M TwoPhaseReg unit :=
  modify (λ r, mkTwoPhaseReg [] (tp_dir r) (if bool_decide (tp_dir r = "") then tp_files r else ∅)).

(** ** The file format *)

Lemma parse_isolation_name l : ParseIsolationLevelName (IsolationLevelName l) = l.
Proof. by destruct l. Qed.

Definition no_newline (l : list ascii) : Prop := "010"%char ∉ l.

Lemma getlines_line l rest acc :
  no_newline l → getlines (l ++ "010"%char :: rest) acc = (reverse acc ++ l) :: getlines rest [].
Proof.
  revert acc. induction l as [|c l IH]; intros acc Hn; simpl; [by rewrite app_nil_r|].
  apply not_elem_of_cons in Hn as [Hc Hn].
  destruct (Ascii.eqb_spec c "010"); [by subst|].
  rewrite IH by done. by rewrite reverse_cons, <- app_assoc.
Qed.

Lemma getlines_lines ls :
  Forall (λ l, no_newline (chars l)) ls →
  getlines (chars (foldr (λ l acc, l +:+ newline +:+ acc) "" ls)) [] = map chars ls.
Proof.
  induction 1 as [|l ls Hl _ IH]; [done|]. simpl. rewrite !chars_app. simpl.
  rewrite getlines_line by done. by rewrite IH.
Qed.

Lemma split_eq_app k v : "="%char ∉ k → split_eq (k ++ "="%char :: v) = Some (k, v).
Proof.
  induction k as [|c k IH]; intros Hn; simpl; [done|].
  apply not_elem_of_cons in Hn as [Hc Hn].
  destruct (Ascii.eqb_spec c "="); [by subst|]. by rewrite IH.
Qed.

Lemma parse_line_key (key val : string) (s : TwoPhaseState) :
  "="%char ∉ chars key →
  ParseLine (chars (key +:+ "=" +:+ val)) s =
    (if bool_decide (key = "gid") then set_gid val s
     else if bool_decide (key = "xid") then set_tp_xid (u32 (strtoul 10 (c_str (chars val)))) s
     else if bool_decide (key = "isolation") then set_tp_isolation (ParseIsolationLevelName val) s
     else if bool_decide (key = "read_only") then set_tp_read_only (bool_decide (val = "1")) s
     else if bool_decide (key = "deferrable") then set_tp_deferrable (bool_decide (val = "1")) s
     else s).
Proof.
  intros H. unfold ParseLine. rewrite !chars_app. simpl. rewrite split_eq_app by done.
  by rewrite !of_chars_chars.
Qed.

Lemma c_str_plain b width fuel z :
  2 ≤ b ≤ 16 → c_str (print_padded b width fuel z) = print_padded b width fuel z.
Proof.
  intros Hb. pose proof (print_padded_plain b width fuel z Hb) as H.
  induction H as [|c l (d & Hd & ->) _ IH]; [done|]. simpl.
  destruct (digit_char_plain d Hd) as (_ & _ & _ & _ & _ & _ & Hz & _).
  destruct (Ascii.eqb_spec (digit_char d) zero); [done|]. by rewrite IH.
Qed.

Lemma print_uint_read z : is_u32 z → u32 (strtoul 10 (c_str (chars (print_uint z)))) = z.
Proof.
  intros Hz. unfold print_uint. rewrite chars_of_chars, c_str_plain by lia. unfold strtoul.
  rewrite <- (app_nil_r (print_padded 10 1 10 z)), scan_print_padded; try done;
    try (unfold is_u32 in Hz; lia).
  rewrite (proj2 (Z.leb_gt _ _)) by (unfold is_u32 in Hz; lia). by apply u32_small.
Qed.

Lemma print_uint_no_newline z : no_newline (chars (print_uint z)).
Proof.
  unfold no_newline, print_uint. rewrite chars_of_chars. intros Hin.
  pose proof (print_padded_plain 10 1 10 z ltac:(lia)) as H. rewrite Forall_forall in H.
  destruct (H _ Hin) as (d & Hd & Heq). destruct (digit_char_plain d Hd) as (_&_&_&_&_&_&_&Hn&_). done.
Qed.

(** A GID that the file format can carry. *)
Definition gid_ok (g : string) : Prop := no_newline (chars g) ∧ g ≠ "".
Definition tp_ok (s : TwoPhaseState) : Prop := gid_ok (gid s) ∧ is_u32 (tp_xid s).


Lemma state_file_roundtrip_aux s :
  tp_ok s → ReadStateFile (state_file s) default_two_phase = s.
Proof.
  intros [[Hn Hne] Hx]. unfold ReadStateFile, state_file. rewrite getlines_lines.
  - unfold state_lines. cbn [map foldl].
    change ("gid=" +:+ gid s) with ("gid" +:+ "=" +:+ gid s).
    change ("xid=" +:+ print_uint (tp_xid s)) with ("xid" +:+ "=" +:+ print_uint (tp_xid s)).
    change ("isolation=" +:+ ?x) with ("isolation" +:+ "=" +:+ x).
    change ("read_only=" +:+ ?x) with ("read_only" +:+ "=" +:+ x).
    change ("deferrable=" +:+ ?x) with ("deferrable" +:+ "=" +:+ x).
    rewrite !parse_line_key by (apply (bool_decide_unpack _); vm_compute; done).
    cbn [bool_decide decide_rel]. rewrite print_uint_read by done. rewrite parse_isolation_name.
    destruct s as [g x l ro de]; simpl. by destruct ro, de.
  - unfold state_lines. repeat constructor; unfold no_newline; rewrite chars_app, not_elem_of_app;
      (split; [apply (bool_decide_unpack _); vm_compute; done|]).
    + done.
    + apply print_uint_no_newline.
    + destruct (tp_isolation s); apply (bool_decide_unpack _); vm_compute; done.
    + destruct (tp_read_only s); apply (bool_decide_unpack _); vm_compute; done.
    + destruct (tp_deferrable s); apply (bool_decide_unpack _); vm_compute; done.
Qed.

(** ** The directory mirrors the list *)

Lemma FormatXidHex_inj x y : is_u32 x → is_u32 y → FormatXidHex x = FormatXidHex y → x = y.
Proof.
  unfold is_u32. intros Hx Hy H. unfold FormatXidHex in H. apply (f_equal chars) in H.
  rewrite !chars_of_chars in H. apply (f_equal (λ l, scan_integer 16 (l ++ []))) in H.
  rewrite !scan_print_padded in H by (done || lia). by injection H.
Qed.

Lemma path_inj d x y :
  d ≠ "" → is_u32 x → is_u32 y → TwoPhaseFilePath d x = TwoPhaseFilePath d y → x = y.
Proof.
  intros Hd Hx Hy. unfold TwoPhaseFilePath. rewrite bool_decide_eq_false_2 by done.
  intros H%append_inj_l%append_inj_l. by apply FormatXidHex_inj.
Qed.

(** With a directory configured: identifiers and XIDs are unique, and the
    directory holds exactly the files of the listed transactions. *)
Record tp_wf (r : TwoPhaseReg) : Prop := {
  wf_dir : tp_dir r ≠ "";
  wf_ok : Forall tp_ok (StateList r);
  wf_gids : NoDup (gid <$> StateList r);
  wf_xids : NoDup (tp_xid <$> StateList r);
  wf_files : ∀ path c, tp_files r !! path = Some c ↔
                       ∃ s, s ∈ StateList r ∧ path = TwoPhaseFilePath (tp_dir r) (tp_xid s) ∧ c = state_file s
}.

Lemma save_wf s r :
  tp_wf r → tp_ok s → gid s ∉ gid <$> StateList r → tp_xid s ∉ tp_xid <$> StateList r →
  ∃ r', SaveTwoPhaseState s r = (Ret tt, r') ∧ tp_wf r' ∧ StateList r' = StateList r ++ [s] ∧ tp_dir r' = tp_dir r.
Proof.
  intros [Hd Hok Hg Hx Hf] Hs Hgid Hxid. unfold SaveTwoPhaseState.
  assert (Hnone : existsb (λ t, bool_decide (gid t = gid s)) (StateList r) = false).
  { apply not_true_is_false. rewrite existsb_exists. intros (t & Hin%list_elem_of_In & Ht).
    to_prop. apply Hgid. rewrite <- Ht. by apply list_elem_of_fmap_2. }
  rewrite Hnone. unfold WriteStateFile. cbn [tp_dir set_list]. rewrite bool_decide_eq_false_2 by done.
  eexists. split; [done|]. split; [|done]. constructor; cbn [tp_dir StateList set_list tp_files].
  - done.
  - apply Forall_app. split; [done|]. by constructor.
  - rewrite fmap_app. apply NoDup_app. split_and!; [done| |apply NoDup_singleton].
    intros g Hg' ->%list_elem_of_singleton. done.
  - rewrite fmap_app. apply NoDup_app. split_and!; [done| |apply NoDup_singleton].
    intros x Hx' ->%list_elem_of_singleton. done.
  - intros path c. rewrite lookup_insert. case_decide as Hp.
    + split.
      * intros H. simplify_eq. exists s. split; [set_solver|done].
      * intros (t & Ht & Hpt & ->). apply elem_of_app in Ht as [Ht|Ht%list_elem_of_singleton]; [|by subst].
        exfalso. apply Hxid. rewrite Hpt in Hp. rewrite Forall_forall in Hok.
        apply path_inj in Hp; [|done|apply Hs|by apply Hok].
        rewrite Hp. by apply list_elem_of_fmap_2.
    + rewrite Hf. split; intros (t & Ht & Hpt & ->); exists t; (split; [|done]); [set_solver|].
      apply elem_of_app in Ht as [Ht|Ht%list_elem_of_singleton]; [done|by subst].
Qed.

Lemma remove_gid_spec g l t rest :
  remove_gid g l = Some (t, rest) → gid t = g ∧ l ≡ₚ t :: rest.
Proof.
  revert t rest. induction l as [|u l IH]; intros t rest H; simpl in H; [done|].
  case_bool_decide; simplify_eq; [done|].
  destruct (remove_gid g l) as [[t' rest']|] eqn:E; simpl in H; simplify_eq.
  destruct (IH t rest' eq_refl) as [Hg Hp]. split; [done|]. rewrite Hp. apply perm_swap.
Qed.

Lemma remove_gid_none g l : remove_gid g l = None → g ∉ gid <$> l.
Proof.
  induction l as [|u l IH]; intros H; simpl in *; [set_solver|].
  case_bool_decide; [done|]. destruct (remove_gid g l) as [[]|]; [done|]. set_solver.
Qed.

Lemma remove_wf g r :
  tp_wf r →
  match RemoveTwoPhaseState g r with
  | (Ret true, r') => tp_wf r' ∧ ∃ t, gid t = g ∧ StateList r ≡ₚ t :: StateList r'
  | (Ret false, r') => r' = r ∧ g ∉ gid <$> StateList r
  | (Ereport _, _) => False
  end.
Proof.
  intros [Hd Hok Hg Hx Hf]. unfold RemoveTwoPhaseState.
  destruct (remove_gid g (StateList r)) as [[t rest]|] eqn:E; [|split; [done|by apply remove_gid_none]].
  apply remove_gid_spec in E as [Ht Hp]. split; [|exists t; split; done].
  rewrite Hp in Hok.
  assert (Hg' : NoDup (gid <$> t :: rest)) by (by rewrite <- Hp).
  assert (Hx' : NoDup (tp_xid <$> t :: rest)) by (by rewrite <- Hp).
  clear Hg Hx. rename Hg' into Hg, Hx' into Hx. cbn [fmap list_fmap] in Hg, Hx.
  apply NoDup_cons in Hg as [Hgn Hg]. apply NoDup_cons in Hx as [Hxn Hx].
  apply Forall_cons in Hok as [Hokt Hok].
  unfold RemoveStateFile. rewrite bool_decide_eq_false_2 by done.
  constructor; cbn [tp_dir StateList set_list tp_files]; try done.
  intros path c. rewrite lookup_delete. case_decide as Hpath.
  - split; [done|]. intros (u & Hu & Hpu & _). exfalso. apply Hxn. rewrite Forall_forall in Hok.
    rewrite Hpu in Hpath. apply path_inj in Hpath; [|done|apply Hokt|by apply Hok].
    rewrite Hpath. by apply list_elem_of_fmap_2.
  - rewrite Hf. split; intros (u & Hu & Hpu & ->); exists u; (split; [|done]).
    + rewrite Hp in Hu. apply elem_of_cons in Hu as [->|Hu]; [by subst|done].
    + rewrite Hp. set_solver.
Qed.

(** Reading the mirrored directory, in any order, gives the list back. *)
Lemma load_states_perm r entries :
  tp_wf r → entries ≡ₚ map_to_list (tp_files r) → load_states entries ≡ₚ StateList r.
Proof.
  intros [Hd Hok Hg Hx Hf] He. unfold load_states.
  set (mk := λ s, (TwoPhaseFilePath (tp_dir r) (tp_xid s), state_file s)).
  assert (Hmap : map_to_list (tp_files r) ≡ₚ mk <$> StateList r).
  { apply NoDup_Permutation.
    - apply NoDup_map_to_list.
    - apply NoDup_fmap_2_strong; [|by eapply NoDup_fmap_1].
      intros s t Hs Ht [= Hpath _]. rewrite Forall_forall in Hok.
      apply path_inj in Hpath; [|done|by apply Hok|by apply Hok].
      apply list_elem_of_lookup in Hs as [i Hi]. apply list_elem_of_lookup in Ht as [j Hj].
      assert (i = j) as ->; [|congruence].
      eapply NoDup_lookup; [exact Hx| |]; rewrite list_lookup_fmap; [by rewrite Hi|by rewrite Hj, Hpath].
    - intros [path c]. rewrite elem_of_map_to_list, Hf, list_elem_of_fmap. unfold mk. naive_solver. }
  rewrite He, Hmap. match goal with |- ?a ≡ₚ ?b => cut (a = b); [by intros ->|] end. clear -Hok.
  induction Hok as [|s l Hs _ IH]; [done|].
  cbn [fmap list_fmap map]. rewrite <- IH at 2. unfold mk at 1. cbn [snd].
  rewrite state_file_roundtrip_aux by done. apply filter_cons_True. apply Hs.
Qed.

(** Prepared transactions survive a restart: after any history of PREPARE
    and COMMIT/ROLLBACK PREPARED that keeps the registry well formed, loading
    the pg_twophase directory in whatever order it is listed rebuilds the
    same set of prepared transactions, every field included. *)
Theorem prepared_survive_restart (r r2 : TwoPhaseReg) (entries : list (string * string))
  (Hwf : tp_wf r) (Hdir : tp_dir r2 = tp_dir r) (Hentries : entries ≡ₚ map_to_list (tp_files r)) :
  StateList (exec (LoadTwoPhaseFiles true entries) r2) ≡ₚ StateList r.
Proof.
  unfold exec, LoadTwoPhaseFiles, modify. simpl. rewrite Hdir, bool_decide_eq_false_2 by apply Hwf.
  by apply load_states_perm.
Qed.

Definition demo_prepared (g : string) (x : Z) : TwoPhaseState :=
  mkTwoPhase g x kSerializable true false.
Definition demo_reg : TwoPhaseReg :=
  exec (SaveTwoPhaseState (demo_prepared "order=42" 7)) (mkTwoPhaseReg [] "pg_twophase" ∅).

Lemma demo_prepared_ok : tp_ok (demo_prepared "order=42" 7).
Proof.
  split; [split; [apply (bool_decide_unpack _); vm_compute; done|done]|]. unfold is_u32; simpl; lia.
Qed.

Lemma demo_reg_wf : tp_wf demo_reg.
Proof.
  destruct (save_wf (demo_prepared "order=42" 7) (mkTwoPhaseReg [] "pg_twophase" ∅)) as (r' & Hr & Hwf & _).
  - constructor; simpl; [done|constructor|constructor|constructor|]. intros path c. rewrite lookup_empty.
    split; [done|]. intros (s & Hs & _). by apply not_elem_of_nil in Hs.
  - apply demo_prepared_ok.
  - set_solver.
  - set_solver.
  - unfold demo_reg, exec. by rewrite Hr.
Qed.

Lemma prepared_survive_restart_witness :
  StateList (exec (LoadTwoPhaseFiles true (map_to_list (tp_files demo_reg)))
                  (mkTwoPhaseReg [] "pg_twophase" ∅)) ≡ₚ [demo_prepared "order=42" 7].
Proof.
  apply (prepared_survive_restart demo_reg (mkTwoPhaseReg [] "pg_twophase" ∅)
           (map_to_list (tp_files demo_reg)) demo_reg_wf eq_refl). reflexivity.
Defined.

(** A GID with a line break is not stored faithfully: the file of a
    transaction prepared under the two-line GID "a", "gid=b" is read back as
    a transaction prepared under "b". *)
Theorem newline_gid_not_restored :
  let s := demo_prepared ("a" +:+ newline +:+ "gid=b") 7 in
  ReadStateFile (state_file s) default_two_phase = demo_prepared "b" 7.
Proof. vm_compute. reflexivity. Qed.

(** ** COMMIT PREPARED and ROLLBACK PREPARED *)

Lemma lookup_remove g l :
  list_find (λ t, gid t = g) l ≫= (λ p, Some (snd p)) = fst <$> remove_gid g l.
Proof.
  induction l as [|t l IH]; [done|]. cbn [list_find remove_gid].
  case_bool_decide as Hd.
  - rewrite decide_True by done. done.
  - rewrite decide_False by done.
    destruct (list_find _ l) as [[i u]|], (remove_gid g l) as [[u' rest]|]; simpl in *; by simplify_eq.
Qed.

Lemma finish_prepared_run mark st g w s :
  (mark = TransactionIdCommit ∧ st = Transam.kCommitted ∨
   mark = TransactionIdAbort ∧ st = Transam.kAborted) →
  tp_wf (w_2pc w) → LookupTwoPhaseState g (w_2pc w) = Some s →
  TransactionIdIsNormal (tp_xid s) = true → tp_xid s < kMaxXids →
  cache_coherent (w_tx w) → is_Some (clog_of (w_tx w)) →
  ∃ w', finish_prepared mark g w = (Ret true, w') ∧
        (∀ y, status_of (w_tx w') y = if bool_decide (y = tp_xid s) then st else status_of (w_tx w) y) ∧
        tp_wf (w_2pc w') ∧ StateList (w_2pc w) ≡ₚ s :: StateList (w_2pc w') ∧
        LookupTwoPhaseState g (w_2pc w') = None.
Proof.
  intros Hmark Hwf Hl Hn Hx Hc Ha. unfold finish_prepared. run_step. rewrite Hl.
  destruct (set_status_run (tp_xid s) st (w_tx w) Hn Hc Ha) as (t & Ht & _ & _ & _ & Hs).
  assert (Hm : mark (tp_xid s) (w_tx w) = (Ret tt, t)).
  { destruct Hmark as [[-> ->]|[-> ->]]; unfold TransactionIdCommit, TransactionIdAbort; by rewrite Hn. }
  rewrite (zoom_run _ w _ _ Hm). simpl.
  pose proof Hl as Hl'. unfold LookupTwoPhaseState in Hl'. rewrite lookup_remove in Hl'.
  pose proof (remove_wf g (w_2pc w) Hwf) as Hr.
  destruct (remove_gid g (StateList (w_2pc w))) as [[u rest]|] eqn:E; simpl in Hl'; [|done].
  injection Hl' as ->. unfold RemoveTwoPhaseState in Hr. rewrite E in Hr.
  destruct Hr as [Hwf' (t' & Hg & Hp)].
  erewrite zoom_run by (unfold RemoveTwoPhaseState; simpl; rewrite E; done). simpl.
  eexists. split; [done|]. simpl.
  apply remove_gid_spec in E as [Hgs Hps]. split_and!; try done.
  - intros y. rewrite Hs. repeat case_bool_decide; try done; naive_solver.
  - unfold LookupTwoPhaseState. cbn [StateList set_list]. rewrite lookup_remove.
    destruct (remove_gid g rest) as [[u rest']|] eqn:E'; [|done]. exfalso.
    apply remove_gid_spec in E' as [Hgu Hpu]. destruct Hwf as [_ _ Hgids _ _].
    assert (Hnd : NoDup (gid <$> s :: u :: rest')) by (by rewrite <- Hpu, <- Hps).
    apply NoDup_cons in Hnd as [Hnin _]. apply Hnin. simpl. rewrite Hgs, Hgu. set_solver.
Qed.

(** COMMIT PREPARED and ROLLBACK PREPARED settle a prepared transaction:
    its id becomes committed (aborted) in the commit log and no other status
    changes, the transaction leaves the registry and its file is removed, so
    that the identifier is unknown afterwards; an unknown identifier raises
    an error and changes nothing. *)
Theorem prepared_transaction_settled (w : world) (g : string)
  (Hwf : tp_wf (w_2pc w)) (Hc : cache_coherent (w_tx w)) (Ha : is_Some (clog_of (w_tx w)))
  (Hxids : Forall (λ s, TransactionIdIsNormal (tp_xid s) = true ∧ tp_xid s < kMaxXids)
                  (StateList (w_2pc w))) :
  match LookupTwoPhaseState g (w_2pc w) with
  | None => ∃ msg, CommitPreparedTransaction g w = (Ereport msg, w) ∧
                   RollbackPreparedTransaction g w = (Ereport msg, w)
  | Some s =>
      (∃ w', CommitPreparedTransaction g w = (Ret true, w') ∧
             (∀ y, status_of (w_tx w') y =
                   if bool_decide (y = tp_xid s) then Transam.kCommitted else status_of (w_tx w) y) ∧
             tp_wf (w_2pc w') ∧ StateList (w_2pc w) ≡ₚ s :: StateList (w_2pc w') ∧
             LookupTwoPhaseState g (w_2pc w') = None) ∧
      (∃ w', RollbackPreparedTransaction g w = (Ret true, w') ∧
             (∀ y, status_of (w_tx w') y =
                   if bool_decide (y = tp_xid s) then Transam.kAborted else status_of (w_tx w) y) ∧
             tp_wf (w_2pc w') ∧ StateList (w_2pc w) ≡ₚ s :: StateList (w_2pc w') ∧
             LookupTwoPhaseState g (w_2pc w') = None)
  end.
Proof.
  destruct (LookupTwoPhaseState g (w_2pc w)) as [s|] eqn:E.
  - assert (Hin : s ∈ StateList (w_2pc w)).
    { unfold LookupTwoPhaseState in E. rewrite lookup_remove in E.
      destruct (remove_gid g _) as [[u rest]|] eqn:E'; simpl in E; simplify_eq.
      apply remove_gid_spec in E' as [_ ->]. set_solver. }
    rewrite Forall_forall in Hxids. destruct (Hxids s Hin) as [Hn Hx].
    split; eapply finish_prepared_run; eauto.
  - unfold CommitPreparedTransaction, RollbackPreparedTransaction, finish_prepared. run_step.
    rewrite E. by eexists.
Qed.

Definition demo_tp_world : world :=
  over demo_reg (over (set_varcache (mkVariableCache 8 3) Transam.ready_state) initial_world).

Lemma prepared_transaction_settled_witness :
  ∃ w', CommitPreparedTransaction "order=42" demo_tp_world = (Ret true, w') ∧
        status_of (w_tx w') 7 = Transam.kCommitted ∧ StateList (w_2pc w') = [].
Proof.
  pose proof (prepared_transaction_settled demo_tp_world "order=42") as H.
  destruct H as [(w' & H1 & H2 & _ & H4 & _) _].
  - apply demo_reg_wf.
  - intros H; discriminate H.
  - eexists; reflexivity.
  - constructor; [|constructor]. split; reflexivity.
  - exists w'. split; [exact H1|]. split; [rewrite H2; reflexivity|].
    change (StateList (w_2pc demo_tp_world)) with [demo_prepared "order=42" 7] in H4.
    apply Permutation_length in H4. simpl in H4. destruct (StateList (w_2pc w')); [reflexivity|discriminate H4].
Defined.

End TwoPhase.
