(* ===== verification/Xact.v ===== *)
(** * The transaction state machine

    Models src/transaction/xact.cpp: the stack of (sub)transaction states, the
    deferred assignment of transaction ids, BEGIN / COMMIT / ROLLBACK /
    PREPARE TRANSACTION, the per-command entry points and savepoints.

    The stack is a list whose head is the current (sub)transaction and whose
    tail is its [parent] chain; a [TransactionState] pointer is a position in
    it.  Warnings are printed and change nothing. *)

From stdpp Require Import base gmap list strings sets.
From S2P Require Import Prelude CString Transam Proc CatalogTx World Snapshot TwoPhase.
Import CString Transam World Snapshot TwoPhase.

Module Xact.

(** ** The stack *)

Definition upd_stack (f : list TransactionStateData → list TransactionStateData) : M world unit :=
  zoom (modify (λ x : XactStack, mkStack (f (StateStack x)) (NextSubTransactionId x))).

(** [s->field = ...] for the current state and for the top-level state. *)
Definition upd_head (f : TransactionStateData → TransactionStateData) (st : list TransactionStateData) :=
  match st with t :: rest => f t :: rest | [] => [] end.
Definition upd_last (f : TransactionStateData → TransactionStateData) (st : list TransactionStateData) :=
  alter f (pred (length st)) st.

Definition upd_current (f : TransactionStateData → TransactionStateData) : M world unit := upd_stack (upd_head f).
Definition upd_top (f : TransactionStateData → TransactionStateData) : M world unit := upd_stack (upd_last f).

Definition set_nesting (n : Z) (t : TransactionStateData) :=
  mkTs (transaction_id t) (sub_transaction_id t) (name t) (savepoint_level t) (tstate t) (block_state t) n
       (command_id t) (command_id_before_subxact t) (isolation_level t) (read_only t) (deferrable t).
Definition set_sub (n : Z) (t : TransactionStateData) :=
  mkTs (transaction_id t) n (name t) (savepoint_level t) (tstate t) (block_state t) (nesting_level t)
       (command_id t) (command_id_before_subxact t) (isolation_level t) (read_only t) (deferrable t).
Definition set_command_before (n : Z) (t : TransactionStateData) :=
  mkTs (transaction_id t) (sub_transaction_id t) (name t) (savepoint_level t) (tstate t) (block_state t) (nesting_level t)
       (command_id t) n (isolation_level t) (read_only t) (deferrable t).

Definition PushState : M world unit :=
  upd_stack (λ st,
    let t0 := set_nesting (Z.of_nat (length st) + 1) default_ts in
    let t := match st with
             | p :: _ => set_command_before (command_id p) (set_command (command_id p) t0)
             | [] => t0
             end in
    t :: st).

Definition PopState : M world unit := upd_stack tail.

(** ** Calls into other components *)

Definition on_catalog (f : CatalogTx.Catalog → CatalogTx.Catalog) : M world unit :=
  zoom (modify (fmap f : option CatalogTx.Catalog → option CatalogTx.Catalog)).

Definition clear_pgxact_xid : M world unit := zoom (modify (Proc.set_my_xid kInvalidTransactionId)).

Definition ReportCommitCurrentDb : M world unit :=
  zoom (modify (λ c, mkCaches (num_commit c + 1) (num_rollback c) (scan_cnums c) (relcache c) (syscache c))).
Definition ReportAbortCurrentDb : M world unit :=
  zoom (modify (λ c, mkCaches (num_commit c) (num_rollback c + 1) (scan_cnums c) (relcache c) (syscache c))).
Definition ResetRelcache : M world unit :=
  zoom (modify (λ c, mkCaches (num_commit c) (num_rollback c) (scan_cnums c) ∅ (syscache c))).
Definition InvalidateSysCache : M world unit :=
  zoom (modify (λ c, mkCaches (num_commit c) (num_rollback c) (scan_cnums c) (relcache c) ((λ _, ∅) <$> syscache c))).
Definition InvalidateAllVisibilityCaches : M world unit :=
  zoom (modify (λ c, mkCaches (num_commit c) (num_rollback c) ((λ _, kInvalidCommandId) <$> scan_cnums c)
                              (relcache c) (syscache c))).

(** ** Top-level transactions *)

Definition StartTransaction : M world unit :=
  PushState;;
  upd_current (λ s, set_tstate TsInProgress (set_command kFirstCommandId (set_sub kTopSubTransactionId
    (set_xid kInvalidTransactionId (set_block kStarted (set_tstate TsStart s))))));;
  on_catalog CatalogTx.TakeSnapshot.

Definition CommitTransaction : M world unit :=
  cur ← gets CurrentState;
  match cur with
  | None => mret tt
  | Some s =>
      upd_current (set_tstate TsCommit);;
      when (TransactionIdIsValid (transaction_id s)) (zoom (TransactionIdCommit (transaction_id s)));;
      clear_pgxact_xid;;
      ResetTransactionSnapshot;;
      on_catalog (λ c, CatalogTx.DiscardSnapshot (CatalogTx.CommitDirty c));;
      ReportCommitCurrentDb;;
      PopState
  end.

Definition AbortTransaction : M world unit :=
  cur ← gets CurrentState;
  match cur with
  | None => mret tt
  | Some s =>
      upd_current (set_tstate TsAbort);;
      when (TransactionIdIsValid (transaction_id s)) (zoom (TransactionIdAbort (transaction_id s)));;
      clear_pgxact_xid;;
      ResetTransactionSnapshot;;
      cat ← gets w_cat;
      when (bool_decide (is_Some cat))
        (on_catalog (λ c, CatalogTx.DiscardSnapshot (CatalogTx.RestoreSnapshot c));;
         ResetRelcache;; InvalidateSysCache);;
      ReportAbortCurrentDb;;
      PopState
  end.

(** ** Subtransactions *)

Definition has_parent (w : world) : bool := bool_decide (2 ≤ length (StateStack (w_xact w)))%nat.

Definition next_sub_id : M world Z :=
  zoom (λ x : XactStack, (Ret (NextSubTransactionId x),
                          mkStack (StateStack x) (u32 (NextSubTransactionId x + 1)))).

Definition StartSubTransaction : M world unit :=
  cur ← gets CurrentState;
  match cur with
  | None => ereport "cannot start subtransaction without a parent transaction"
  | Some parent =>
      PushState;;
      id ← next_sub_id;
      upd_current (λ s, set_command_before (command_id parent) (set_command (command_id parent)
        (set_sub id (set_xid (transaction_id parent) (set_block kSubInProgress (set_tstate TsInProgress s))))))
  end.

(** The current state's field is copied to its parent, then it is popped. *)
Definition pop_into_parent (field : TransactionStateData → Z) (st : list TransactionStateData) :=
  match st with
  | s :: p :: rest => set_command (field s) p :: rest
  | _ => st
  end.

Definition CommitSubTransaction : M world unit := upd_stack (pop_into_parent command_id).
Definition AbortSubTransaction : M world unit := upd_stack (pop_into_parent command_id_before_subxact).

(** ** Queries *)

Definition IsTransactionBlock (w : world) : bool :=
  match CurrentState w with
  | None => false
  | Some s => negb (bool_decide (block_state s = kDefault)) && negb (bool_decide (block_state s = kStarted))
  end.

Definition IsAbortedTransactionBlock (w : world) : bool :=
  match CurrentState w with
  | None => false
  | Some s => match block_state s with
              | kAbort | kAbortEnd | kAbortPending | kSubAbort | kSubAbortPending | kSubAbortRestart => true
              | _ => false
              end
  end.

Definition IsTransactionOrTransactionBlock (w : world) : bool :=
  match CurrentState w with None => false | Some s => negb (bool_decide (tstate s = TsDefault)) end.

Definition TransactionBlockStateAsString (w : world) : string :=
  match CurrentState w with
  | None => "default"
  | Some s => match block_state s with
              | kDefault => "default" | kStarted => "started" | kBegin => "begin"
              | kInProgress => "in progress" | kEnd => "end" | kAbort => "abort"
              | kAbortEnd => "abort end" | kAbortPending => "abort pending" | kSubBegin => "sub begin"
              | kSubInProgress => "sub in progress" | kSubRelease => "sub release"
              | kSubCommit => "sub commit" | kSubAbort => "sub abort"
              | kSubAbortPending => "sub abort pending" | kSubRestart => "sub restart"
              | kSubAbortRestart => "sub abort restart"
              end
  end.

(** ** Transaction ids and command ids *)

(** Assign an id to the top-level transaction and publish it in PGXACT. *)
Definition assign_top_xid : M world unit :=
  x ← zoom AllocateNextTransactionId;
  upd_top (set_xid x);;
  zoom (modify (Proc.set_my_xid x)).

Definition GetCurrentTransactionId : M world Z :=
  cur ← gets CurrentState;
  match cur with
  | None => mret kInvalidTransactionId
  | Some s =>
      if TransactionIdIsValid (transaction_id s) then mret (transaction_id s)
      else
        top ← gets GetTopLevelTransactionIdIfAny;
        when (negb (TransactionIdIsValid top)) assign_top_xid;;
        top' ← gets GetTopLevelTransactionIdIfAny;
        upd_current (set_xid top');;
        mret top'
  end.

(** Unlike [GetCurrentTransactionId] this does not set the PGXACT entry. *)
Definition GetTopLevelTransactionId : M world Z :=
  cur ← gets CurrentState;
  match cur with
  | None => mret kInvalidTransactionId
  | Some _ =>
      top ← gets GetTopLevelTransactionIdIfAny;
      if TransactionIdIsValid top then mret top
      else x ← zoom AllocateNextTransactionId; upd_top (set_xid x);; mret x
  end.

Definition CommandCounterIncrement : M world unit :=
  cur ← gets CurrentState;
  match cur with
  | None => mret tt
  | Some s =>
      let cid := if command_id s <? kInvalidCommandId - 1 then command_id s + 1 else command_id s in
      upd_current (set_command cid);;
      snap ← gets GetActiveSnapshot;
      match snap with
      | Some l => zoom (modify (λ m, store_snapshot l
                          (set_curcid cid (default default_snapshot (snap_store m !! l))) m))
      | None => mret tt
      end;;
      InvalidateAllVisibilityCaches
  end.

(** ** Transaction blocks *)

Definition BeginTransactionBlock : M world bool :=
  cur ← gets CurrentState;
  match cur with
  | None => StartTransaction;; upd_current (set_block kBegin);; mret true
  | Some s =>
      if bool_decide (block_state s = kStarted)
      then upd_current (set_block kInProgress);; mret true
      else mret false
  end.

Definition EndTransactionBlock : M world bool :=
  cur ← gets CurrentState;
  match cur with
  | None => mret false
  | Some s =>
      match block_state s with
      | kStarted => CommitTransaction;; mret true
      | kInProgress | kBegin => upd_current (set_block kEnd);; CommitTransaction;; mret true
      | kAbort | kAbortEnd => AbortTransaction;; mret false
      | kAbortPending => upd_current (set_block kAbort);; AbortTransaction;; mret false
      | kSubInProgress | kSubAbort => mret false
      | _ => mret false
      end
  end.

(** The loop that aborts every subtransaction: at most one round per entry. *)
Fixpoint abort_all_subs (fuel : nat) : M world unit :=
  match fuel with
  | O => mret tt
  | S f => p ← gets has_parent;
           if (p : bool) then AbortSubTransaction;; abort_all_subs f else mret tt
  end.

Definition AbortTransactionBlock : M world unit :=
  cur ← gets CurrentState;
  match cur with
  | None => mret tt
  | Some s =>
      match block_state s with
      | kStarted | kInProgress | kBegin => upd_current (set_block kAbort);; AbortTransaction
      | kAbort | kAbortEnd => AbortTransaction
      | kSubInProgress =>
          n ← gets (λ w, length (StateStack (w_xact w)));
          abort_all_subs n;; AbortTransaction
      | _ => AbortTransaction
      end
  end.

Definition PrepareTransactionBlock (g : string) : M world bool :=
  cur ← gets CurrentState;
  match cur with
  | None => ereport "PREPARE TRANSACTION can only be used in transaction blocks"
  | Some s =>
      p ← gets has_parent;
      if (p : bool) then ereport "cannot PREPARE a transaction that has performed subtransactions"
      else
        when (negb (TransactionIdIsValid (transaction_id s))) assign_top_xid;;
        x ← gets GetTopLevelTransactionIdIfAny;
        zoom (SaveTwoPhaseState (mkTwoPhase g x (isolation_level s) (read_only s) (deferrable s)));;
        upd_top (set_tstate TsPrepare);;
        clear_pgxact_xid;;
        ResetTransactionSnapshot;;
        on_catalog (λ c, CatalogTx.DiscardSnapshot (CatalogTx.CommitDirty c));;
        PopState;;
        mret true
  end.

(** ** Per-command control *)

Definition StartTransactionCommand : M world unit :=
  cur ← gets CurrentState;
  match cur with
  | None => StartTransaction
  | Some s => if bool_decide (block_state s = kBegin) then upd_current (set_block kInProgress) else mret tt
  end.

Definition CommitTransactionCommand : M world unit :=
  cur ← gets CurrentState;
  match cur with
  | None => mret tt
  | Some s =>
      match block_state s with
      | kStarted => CommitTransaction
      | kInProgress => CommandCounterIncrement
      | kEnd => CommitTransaction
      | kAbort | kAbortEnd => AbortTransaction
      | _ => CommandCounterIncrement
      end
  end.

Definition AbortCurrentTransaction : M world unit :=
  cur ← gets CurrentState;
  match cur with
  | None => mret tt
  | Some s =>
      match block_state s with
      | kStarted => AbortTransaction
      | kInProgress | kBegin => upd_current (set_block kAbortPending)
      | kSubInProgress => upd_current (set_block kSubAbort);; AbortSubTransaction
      | _ => mret tt
      end
  end.

(** ** Savepoints *)

Definition BeginSavepoint (n : string) : M world unit :=
  cur ← gets CurrentState;
  match cur with
  | None => ereport "SAVEPOINT can only be used in transaction blocks"
  | Some parent =>
      StartSubTransaction;;
      upd_current (λ s, set_level (savepoint_level parent + 1) (set_name n s))
  end.

(** The stack from the innermost state with that name on. *)
Fixpoint find_savepoint (n : string) (st : list TransactionStateData) : list TransactionStateData :=
  match st with
  | [] => []
  | t :: rest => if bool_decide (name t = n) then st else find_savepoint n rest
  end.

(** [while (CurrentState() != target) Op();], [target] being the state that has
    [depth] entries from it to the bottom of the stack. *)
Fixpoint pop_until (op : M world unit) (depth fuel : nat) : M world unit :=
  match fuel with
  | O => mret tt
  | S f => n ← gets (λ w, length (StateStack (w_xact w)));
           if bool_decide (n = depth) then mret tt else op;; pop_until op depth f
  end.

Definition ReleaseSavepoint (n : string) : M world unit :=
  p ← gets has_parent;
  if negb p then ereport "RELEASE SAVEPOINT can only be used in transaction blocks"
  else
    st ← gets (λ w, StateStack (w_xact w));
    let target := find_savepoint n st in
    if bool_decide (length target < 2)%nat then ereport (errbuf "savepoint " n " does not exist")
    else pop_until CommitSubTransaction (length target) (length st);; CommitSubTransaction.

Definition RollbackToSavepoint (n : string) : M world unit :=
  p ← gets has_parent;
  if negb p then ereport "ROLLBACK TO SAVEPOINT can only be used in transaction blocks"
  else
    st ← gets (λ w, StateStack (w_xact w));
    let target := find_savepoint n st in
    if bool_decide (length target < 2)%nat then ereport (errbuf "savepoint " n " does not exist")
    else
      pop_until AbortSubTransaction (length target - 1) (length st);;
      StartSubTransaction;;
      upd_current (set_name n).

Definition InitializeTransactionSystem : M world unit :=
  zoom (modify (λ _ : XactStack, mkStack [] (kTopSubTransactionId + 1)));;
  zoom InitializeCommitLog.

Definition SetTransactionIsolationLevel (l : IsolationLevel) : M world unit := upd_top (set_isolation l).
Definition SetTransactionReadOnly (b : bool) : M world unit := upd_top (set_read_only b).
Definition SetTransactionDeferrable (b : bool) : M world unit := upd_top (set_deferrable b).

End Xact.
