(* ===== verification/XactSpec.v ===== *)
(** * Correctness of the transaction state machine

    Theorems on the operations of [Xact] (src/transaction/xact.cpp): the
    invariant of the state stack under every call of the public interface,
    what COMMIT, ROLLBACK and the savepoint commands do, and how an error
    inside a block or a savepoint is resolved.

    [swp m Q st] is a weakest precondition over the state stack: a run of [m]
    from any state with stack [st] ends with an outcome and a stack in [Q]. *)

From stdpp Require Import base gmap list strings sets relations.
From S2P Require Import Prelude CString Transam Proc CatalogTx World Snapshot TwoPhase Xact.
Import CString Transam World Snapshot TwoPhase Xact.

Module XactSpec.

Definition tstack : Type := list TransactionStateData.

Definition stack_of (w : world) : tstack := StateStack (w_xact w).

(** ** Reasoning about the stack *)

Definition swp {A} (m : M world A) (Q : outcome A → tstack → Prop) (st : tstack) : Prop :=
  ∀ w, stack_of w = st → Q (fst (m w)) (stack_of (snd (m w))).

Lemma swp_ret {A} (a : A) Q st : Q (Ret a) st → swp (mret a) Q st.
Proof. by intros ? w <-. Qed.

Lemma swp_err {A} e (Q : outcome A → tstack → Prop) st : Q (Ereport e) st → swp (ereport e) Q st.
Proof. by intros ? w <-. Qed.

Lemma swp_bind {A B} (m : M world A) (f : A → M world B) Q st :
  swp m (λ r st', match r with Ret a => swp (f a) Q st' | Ereport e => Q (Ereport e) st' end) st →
  swp (m ≫= f) Q st.
Proof.
  intros H w Hw. specialize (H w Hw). unfold mbind, M_bind.
  destruct (m w) as [[a|e] w']; [by apply H|done].
Qed.

Lemma swp_upd f Q st : Q (Ret tt) (f st) → swp (upd_stack f) Q st.
Proof. by intros ? w <-. Qed.

Lemma swp_gets {A} (g : world → A) Q st :
  (∀ w, stack_of w = st → Q (Ret (g w)) st) → swp (gets g) Q st.
Proof. intros H w Hw. simpl. rewrite Hw. by apply H. Qed.

(** A query that reads the stack only. *)
Lemma swp_query {A} (g : world → A) (h : tstack → A) Q st :
  (∀ w, g w = h (stack_of w)) → Q (Ret (h st)) st → swp (gets g) Q st.
Proof. intros H HQ. apply swp_gets. intros w <-. by rewrite H. Qed.

(** Operations of the other components leave the stack alone. *)
Class Frame {A} (m : M world A) : Prop := frame : ∀ w, stack_of (exec m w) = stack_of w.

Lemma swp_frame {A} (m : M world A) `{!Frame m} Q st : (∀ r, Q r st) → swp m Q st.
Proof. intros H w <-. pose proof (frame (m := m) w) as Hf. unfold exec in Hf. rewrite Hf. apply H. Qed.

#[local] Ltac zoomed := intros w; unfold exec, zoom; destruct (_ (view w)) as [??]; done.

#[export] Instance frame_tx {A} (m : M Transam.state A) : Frame (zoom m : M world A).
Proof. zoomed. Qed.
#[export] Instance frame_proc {A} (m : M Proc.state A) : Frame (zoom m : M world A).
Proof. zoomed. Qed.
#[export] Instance frame_snap {A} (m : M SnapMgr A) : Frame (zoom m : M world A).
Proof. zoomed. Qed.
#[export] Instance frame_cat {A} (m : M (option CatalogTx.Catalog) A) : Frame (zoom m : M world A).
Proof. zoomed. Qed.
#[export] Instance frame_2pc {A} (m : M TwoPhaseReg A) : Frame (zoom m : M world A).
Proof. zoomed. Qed.
#[export] Instance frame_caches {A} (m : M Caches A) : Frame (zoom m : M world A).
Proof. zoomed. Qed.
#[export] Instance frame_next_sub : Frame next_sub_id.
Proof. by intros w. Qed.
#[export] Instance frame_ret {A} (a : A) : Frame (mret a : M world A).
Proof. by intros w. Qed.
#[export] Instance frame_when b (m : M world unit) `{!Frame m} : Frame (when b m).
Proof. destruct b; apply _. Qed.
#[export] Instance frame_gets {A} (g : world → A) : Frame (gets g).
Proof. by intros w. Qed.
#[export] Instance frame_bind {A B} (m : M world A) (f : A → M world B)
  `{!Frame m} `{!∀ a, Frame (f a)} : Frame (m ≫= f).
Proof.
  intros w. pose proof (frame (m := m) w) as Hw. unfold exec, mbind, M_bind in *.
  destruct (m w) as [[a|e] w']; [|done]. simpl in Hw.
  match goal with H : ∀ a, Frame (f a) |- _ => pose proof (H a w') as Hf end.
  unfold exec in Hf. by rewrite Hf.
Qed.
#[export] Instance frame_catalog f : Frame (on_catalog f).
Proof. apply _. Qed.
#[export] Instance frame_pgxact : Frame clear_pgxact_xid.
Proof. apply _. Qed.
#[export] Instance frame_reset_snapshot : Frame ResetTransactionSnapshot.
Proof. apply _. Qed.

Lemma swp_current Q st : Q (Ret (head st)) st → swp (gets CurrentState) Q st.
Proof. by apply swp_query. Qed.
Lemma swp_parent Q st :
  Q (Ret (bool_decide (2 ≤ length st)%nat)) st → swp (gets has_parent) Q st.
Proof. intros ?. by apply (swp_query _ (λ st : tstack, bool_decide (2 ≤ length st)%nat)). Qed.
Lemma swp_length Q st :
  Q (Ret (length st)) st → swp (gets (λ w, length (StateStack (w_xact w)))) Q st.
Proof. intros ?. by apply (swp_query _ (@length _)). Qed.
Lemma swp_stack Q st : Q (Ret st) st → swp (gets (λ w, StateStack (w_xact w))) Q st.
Proof. intros ?. by apply (swp_query _ id). Qed.

Lemma swp_next_sub Q st : (∀ id, Q (Ret id) st) → swp next_sub_id Q st.
Proof. intros H w <-. apply H. Qed.

Definition top_xid (st : tstack) : Z :=
  match list.last st with Some t => transaction_id t | None => kInvalidTransactionId end.
Lemma swp_top_xid Q st :
  Q (Ret (top_xid st)) st → swp (gets GetTopLevelTransactionIdIfAny) Q st.
Proof. apply swp_query. by intros w. Qed.

(** One step of a run: expose the first call, then dispatch on it. *)
Ltac swp_step :=
  lazymatch goal with
  | |- swp (mbind _ _) _ _ => apply swp_bind
  | |- swp (gets CurrentState) _ _ => apply swp_current; cbn [hd_error head]; cbv beta iota
  | |- swp (gets has_parent) _ _ => apply swp_parent; cbv beta iota
  | |- swp (gets (λ w, length _)) _ _ => apply swp_length; cbv beta iota
  | |- swp (gets (λ w, StateStack _)) _ _ => apply swp_stack; cbv beta iota
  | |- swp (gets GetTopLevelTransactionIdIfAny) _ _ => apply swp_top_xid; cbv beta iota
  | |- swp (upd_stack _) _ _ => apply swp_upd; cbv beta iota
  | |- swp (upd_current _) _ _ => apply swp_upd; cbn [upd_head]; cbv beta iota
  | |- swp (upd_top _) _ _ => apply swp_upd; cbv beta iota
  | |- swp next_sub_id _ _ => apply swp_next_sub; intros ?; cbv beta iota
  | |- swp PopState _ _ => apply swp_upd; cbv beta iota
  | |- swp PushState _ _ => apply swp_upd; cbv beta iota
  | |- swp (mret _) _ _ => apply swp_ret; cbv beta iota
  | |- swp (ereport _) _ _ => apply swp_err; cbv beta iota
  | |- swp (if ?b then _ else _) _ _ => let E := fresh "E" in destruct b eqn:E
  | |- swp (when ?b _) _ _ =>
      first [apply swp_frame; [apply _|]; intros [?|?]; cbv beta iota
            |let E := fresh "E" in destruct b eqn:E; unfold when; cbv beta iota]
  | |- swp _ _ _ => apply swp_frame; [apply _|]; intros [?|?]; cbv beta iota
  end.

(** ** The invariant of the stack *)

(** The states a top-level transaction rests in between two calls. *)
Definition top_state (b : TBlockState) : bool :=
  match b with kStarted | kBegin | kInProgress | kEnd | kAbort | kAbortPending => true | _ => false end.

(** A stack holds one top-level transaction at its bottom and subtransactions
    above it; each of these is in progress, knows its depth, shares the
    top-level id or has none yet, and remembers the command its parent was at
    when it started. *)
Inductive stack_wf : tstack → Prop :=
| wf_nil : stack_wf []
| wf_top t : top_state (block_state t) = true → nesting_level t = 1 →
    sub_transaction_id t = kTopSubTransactionId → stack_wf [t]
| wf_sub s p rest :
    stack_wf (p :: rest) → block_state s = kSubInProgress →
    nesting_level s = Z.of_nat (length (p :: rest)) + 1 →
    (transaction_id s = kInvalidTransactionId ∨ transaction_id s = top_xid (p :: rest)) →
    command_id_before_subxact s = command_id p → command_id p ≤ command_id s →
    stack_wf (s :: p :: rest).

Lemma top_xid_cons s p rest : top_xid (s :: p :: rest) = top_xid (p :: rest).
Proof. unfold top_xid. by rewrite last_cons_cons. Qed.

Lemma stack_wf_tail s p rest : stack_wf (s :: p :: rest) → stack_wf (p :: rest).
Proof. by inversion 1. Qed.

(** The current command id may move forward. *)
Lemma stack_wf_command s rest c :
  stack_wf (s :: rest) → command_id s ≤ c → stack_wf (set_command c s :: rest).
Proof.
  intros Hwf Hc. inversion Hwf; subst; [by constructor|constructor; try done].
  cbn [command_id set_command]. lia.
Qed.

Lemma stack_wf_id s p rest : stack_wf (s :: p :: rest) →
  transaction_id s = kInvalidTransactionId ∨ transaction_id s = top_xid (s :: p :: rest).
Proof. rewrite top_xid_cons. by inversion 1. Qed.

Lemma upd_last_cons f s p rest : upd_last f (s :: p :: rest) = s :: upd_last f (p :: rest).
Proof. done. Qed.

Lemma top_xid_upd_last f st :
  top_xid (upd_last f st) =
    match list.last st with Some t => transaction_id (f t) | None => kInvalidTransactionId end.
Proof.
  induction st as [|p [|q rest] IH]; [done|done|]. rewrite upd_last_cons, last_cons_cons, <- IH.
  destruct (upd_last f (q :: rest)) eqn:E; [by destruct rest|]. by rewrite top_xid_cons.
Qed.

(** A field of the top-level transaction that the invariant does not mention. *)
Definition benign (f : TransactionStateData → TransactionStateData) : Prop :=
  ∀ t, block_state (f t) = block_state t ∧ nesting_level (f t) = nesting_level t ∧
       sub_transaction_id (f t) = sub_transaction_id t ∧ command_id (f t) = command_id t ∧
       command_id_before_subxact (f t) = command_id_before_subxact t.

Lemma upd_last_head f st p rest :
  benign f → upd_last f st = p :: rest →
  ∃ p0 rest0, st = p0 :: rest0 ∧ command_id p = command_id p0 ∧ length rest = length rest0.
Proof.
  intros Hf. destruct st as [|p0 [|q rest0]]; [done| |].
  - intros H. injection H as <- <-. exists p0, []. split_and!; [done|apply Hf|done].
  - rewrite upd_last_cons. intros H. injection H as <- <-. eexists _, _. split_and!; [done|done|].
    unfold upd_last. by rewrite length_alter.
Qed.

Lemma stack_wf_upd_last f st :
  benign f → stack_wf st →
  (top_xid st = kInvalidTransactionId ∨ ∀ t, transaction_id (f t) = transaction_id t) →
  stack_wf (upd_last f st).
Proof.
  intros Hf Hwf Hid. induction Hwf as [|t|s p rest Hwf IH Hb Hn Hx Hc Hle]; [constructor| |].
  - destruct (Hf t) as (?&?&?&_). constructor; congruence.
  - rewrite upd_last_cons. rewrite top_xid_cons in Hid. specialize (IH Hid).
    assert (Hx' : transaction_id s = kInvalidTransactionId ∨
                  transaction_id s = top_xid (upd_last f (p :: rest))).
    { destruct Hx as [Hx|Hx]; [by left|]. destruct Hid as [Hz|Hid]; [left; congruence|].
      right. rewrite Hx, top_xid_upd_last. unfold top_xid. by case_match. }
    destruct (upd_last f (p :: rest)) as [|p' rest'] eqn:E; [by destruct rest|].
    destruct (upd_last_head f (p :: rest) p' rest' Hf E) as (p0 & rest0 & [= <- <-] & Hcp & Hlen).
    constructor; try done; simpl in *; congruence.
Qed.

Lemma stack_wf_push t rest s :
  stack_wf (t :: rest) → block_state s = kSubInProgress →
  nesting_level s = Z.of_nat (length (t :: rest)) + 1 → transaction_id s = transaction_id t →
  command_id_before_subxact s = command_id t → command_id s = command_id t →
  stack_wf (s :: t :: rest).
Proof.
  intros Hwf Hb Hn Hx Hc Hi. constructor; [done|done|done| |done|lia].
  rewrite Hx. destruct rest as [|p rest]; [by right|]. by apply stack_wf_id.
Qed.

(** ** The effect of each building block on the stack *)

(** An operation that ends a top-level transaction pops it, or raises before
    that and leaves it on the stack. *)
Definition popped (t : TransactionStateData) (r : outcome unit) (st' : tstack) : Prop :=
  match r with Ret _ => st' = [] | Ereport _ => ∃ x, st' = [set_tstate x t] end.

Lemma commit_swp t : swp CommitTransaction (popped t) [t].
Proof. unfold CommitTransaction, ReportCommitCurrentDb. repeat swp_step; unfold popped; eauto. Qed.

Lemma abort_swp t : swp AbortTransaction (popped t) [t].
Proof.
  unfold AbortTransaction, ReportAbortCurrentDb, ResetRelcache, InvalidateSysCache.
  repeat swp_step; unfold popped; eauto.
Qed.

Lemma swp_wand {A} (m : M world A) (Q Q' : outcome A → tstack → Prop) st :
  swp m Q st → (∀ r st', Q r st' → Q' r st') → swp m Q' st.
Proof. intros H HQ w Hw. by apply HQ, H. Qed.

Lemma popped_wf t r st' : stack_wf [t] → popped t r st' → stack_wf st'.
Proof.
  intros Hwf. destruct r; simpl; [intros ->; constructor|intros [x ->]].
  inversion Hwf; subst. by constructor.
Qed.

Lemma start_swp : swp StartTransaction (λ _, stack_wf) [].
Proof. unfold StartTransaction. repeat swp_step; by constructor. Qed.

Lemma start_sub_swp st :
  stack_wf st → swp StartSubTransaction (λ r st',
    match r, st with
    | Ret _, p :: rest => ∃ s, st' = s :: st ∧ stack_wf st' ∧ name s = "" ∧ savepoint_level s = 0 ∧
                               command_id s = command_id p ∧ transaction_id s = transaction_id p
    | Ereport _, [] => st' = []
    | _, _ => False
    end) st.
Proof.
  intros Hwf. unfold StartSubTransaction. destruct st as [|p rest]; repeat swp_step; try done.
  eexists. split; [done|]. split; [|done]. by apply stack_wf_push.
Qed.

(** Aborting a subtransaction leaves its parent as it was before it started. *)
Lemma abort_sub_stack s p rest :
  stack_wf (s :: p :: rest) → pop_into_parent command_id_before_subxact (s :: p :: rest) = p :: rest.
Proof.
  intros Hwf. inversion Hwf; subst. simpl. destruct p; simpl in *. by subst.
Qed.

(** Committing one moves its command counter to the parent. *)
Lemma commit_sub_stack s p rest :
  stack_wf (s :: p :: rest) → stack_wf (set_command (command_id s) p :: rest).
Proof.
  intros Hwf. apply stack_wf_command; [by eapply stack_wf_tail|]. by inversion Hwf.
Qed.

Lemma abort_all_subs_swp fuel st t :
  stack_wf st → list.last st = Some t → (length st ≤ fuel)%nat →
  swp (abort_all_subs fuel) (λ r st', r = Ret tt ∧ st' = [t] ∧ stack_wf [t]) st.
Proof.
  revert st. induction fuel as [|f IH]; intros st Hwf Hl Hlen.
  { destruct st; simpl in *; [done|lia]. }
  simpl. swp_step. swp_step. destruct st as [|s [|p rest]]; [done| |].
  - rewrite bool_decide_eq_false_2 by (simpl; lia). swp_step. simpl in Hl. by simplify_eq.
  - rewrite bool_decide_eq_true_2 by (simpl; lia). swp_step. unfold AbortSubTransaction. swp_step.
    rewrite abort_sub_stack by done.
    apply IH; [by eapply stack_wf_tail|by rewrite last_cons_cons in Hl|simpl in *; lia].
Qed.

Lemma stack_wf_last st : st ≠ [] → stack_wf st → ∃ t, list.last st = Some t.
Proof. intros. destruct (list.last st) eqn:E; [eauto|]. by apply last_None in E. Qed.

(** ** The public interface *)

Inductive api :=
| CallBegin | CallEnd | CallAbortBlock | CallPrepare (g : string)
| CallStartCommand | CallCommitCommand | CallAbortCurrent
| CallSavepoint (n : string) | CallRelease (n : string) | CallRollbackTo (n : string)
| CallGetXid | CallGetTopXid | CallCommandCounter
| CallIsolation (l : IsolationLevel) | CallReadOnly (b : bool) | CallDeferrable (b : bool)
| CallInitialize.

Definition run_api (c : api) : M world unit :=
  match c with
  | CallBegin => BeginTransactionBlock;; mret tt
  | CallEnd => EndTransactionBlock;; mret tt
  | CallAbortBlock => AbortTransactionBlock
  | CallPrepare g => PrepareTransactionBlock g;; mret tt
  | CallStartCommand => StartTransactionCommand
  | CallCommitCommand => CommitTransactionCommand
  | CallAbortCurrent => AbortCurrentTransaction
  | CallSavepoint n => BeginSavepoint n
  | CallRelease n => ReleaseSavepoint n
  | CallRollbackTo n => RollbackToSavepoint n
  | CallGetXid => GetCurrentTransactionId;; mret tt
  | CallGetTopXid => GetTopLevelTransactionId;; mret tt
  | CallCommandCounter => CommandCounterIncrement
  | CallIsolation l => SetTransactionIsolationLevel l
  | CallReadOnly b => SetTransactionReadOnly b
  | CallDeferrable b => SetTransactionDeferrable b
  | CallInitialize => InitializeTransactionSystem
  end.

(** A call that raises an error still has an effect on the state. *)
Inductive step : world → world → Prop :=
| step_call c w : step w (exec (run_api c) w).

Definition keeps {A} (m : M world A) : Prop := ∀ st, stack_wf st → swp m (λ _, stack_wf) st.

Lemma keeps_unit {A} (m : M world A) : keeps m → keeps (m;; mret tt).
Proof.
  intros Hm st Hwf. apply swp_bind. eapply swp_wand; [by apply Hm|]. intros [a|e] st' H; [|done]. by apply swp_ret.
Qed.

Lemma keeps_commit t : stack_wf [t] → swp CommitTransaction (λ _, stack_wf) [t].
Proof. intros ?. eapply swp_wand; [apply commit_swp|]. intros r st'. by apply popped_wf. Qed.
Lemma keeps_abort t : stack_wf [t] → swp AbortTransaction (λ _, stack_wf) [t].
Proof. intros ?. eapply swp_wand; [apply abort_swp|]. intros r st'. by apply popped_wf. Qed.

Lemma swp_seq_ret {A} (m : M world unit) (a : A) st :
  swp m (λ _, stack_wf) st → swp (m;; mret a) (λ _, stack_wf) st.
Proof.
  intros H. apply swp_bind. eapply swp_wand; [exact H|]. intros [?|?] ? ?; [|done]. by apply swp_ret.
Qed.

(** The block state of a single entry is a top-level one. *)
Lemma single_top t : stack_wf [t] → top_state (block_state t) = true.
Proof. by inversion 1. Qed.
Lemma sub_state s p rest : stack_wf (s :: p :: rest) → block_state s = kSubInProgress.
Proof. by inversion 1. Qed.
Lemma set_block_wf b t : stack_wf [t] → top_state b = true → stack_wf [set_block b t].
Proof. inversion 1; subst. intros ?. by constructor. Qed.

(** Split on the depth of the stack: empty, top level, inside a savepoint. *)
Ltac by_depth st Hwf :=
  destruct st as [|t [|p rest]]; [|pose proof (single_top _ Hwf)|pose proof (sub_state _ _ _ Hwf)];
  swp_step; swp_step.

(** Close what the invariant lemmas close. *)
Ltac wf_step :=
  lazymatch goal with
  | |- swp (@mbind _ _ _ _ (λ _, mret _) _) _ _ => apply swp_seq_ret
  | _ => swp_step
  end.
Ltac wf_done := repeat wf_step; auto with pgcpp.

Lemma command_counter_keeps : keeps CommandCounterIncrement.
Proof.
  intros st Hwf. unfold CommandCounterIncrement, InvalidateAllVisibilityCaches.
  destruct st as [|s rest]; swp_step; swp_step; [by swp_step|].
  set (cid := if _ <? _ then _ else _).
  assert (Hc : stack_wf (set_command cid s :: rest)).
  { apply stack_wf_command; [done|]. subst cid. case_match; lia. }
  swp_step. swp_step. cbn [upd_head]. swp_step. apply swp_gets. intros w _.
  swp_step. destruct (GetActiveSnapshot w); repeat swp_step; done.
Qed.
#[local] Hint Resolve keeps_commit keeps_abort set_block_wf command_counter_keeps start_swp wf_nil : pgcpp.

Lemma begin_keeps : keeps BeginTransactionBlock.
Proof.
  intros st Hwf. unfold BeginTransactionBlock. by_depth st Hwf.
  - unfold StartTransaction. repeat swp_step; by constructor.
  - wf_done.
  - rewrite bool_decide_eq_false_2 by congruence. wf_done.
Qed.

Lemma end_keeps : keeps EndTransactionBlock.
Proof.
  intros st Hwf. unfold EndTransactionBlock. by_depth st Hwf; [wf_done| |].
  - destruct (block_state t) eqn:E; try done; wf_done.
  - replace (block_state t) with kSubInProgress. wf_done.
Qed.

Lemma abort_block_keeps : keeps AbortTransactionBlock.
Proof.
  intros st Hwf. unfold AbortTransactionBlock. by_depth st Hwf; [wf_done| |].
  - destruct (block_state t) eqn:E; try done; wf_done.
  - replace (block_state t) with kSubInProgress. swp_step. swp_step. swp_step.
    destruct (stack_wf_last (t :: p :: rest)) as [b Hb]; [done|done|].
    eapply swp_wand; [by apply (abort_all_subs_swp _ _ b)|].
    intros r st' (-> & -> & ?). auto with pgcpp.
Qed.

Lemma benign_xid x : benign (set_xid x).
Proof. by intros t. Qed.

Lemma upd_last_wf x st :
  stack_wf st → top_xid st = kInvalidTransactionId → stack_wf (upd_last (set_xid x) st).
Proof. intros. apply stack_wf_upd_last; [apply benign_xid|done|by left]. Qed.

(** Assigning the id of the top-level transaction, when it has none. *)
Lemma assign_top_swp st :
  swp assign_top_xid (λ r st', match r with
    | Ret _ => ∃ x, st' = upd_last (set_xid x) st
    | Ereport _ => st' = st ∨ ∃ x, st' = upd_last (set_xid x) st end) st.
Proof. unfold assign_top_xid. repeat swp_step; eauto. Qed.

(** The current entry may take the top-level id. *)
Lemma stack_wf_take_id s rest :
  stack_wf (s :: rest) → stack_wf (set_xid (top_xid (s :: rest)) s :: rest).
Proof.
  intros Hwf. inversion Hwf; subst; constructor; try done. rewrite top_xid_cons. by right.
Qed.

Lemma valid_false x : TransactionIdIsValid x = false → x = kInvalidTransactionId.
Proof. unfold TransactionIdIsValid. intros. to_prop. done. Qed.

Lemma upd_last_head_wf st st' x :
  stack_wf st → st' = upd_last (set_xid x) st → top_xid st = kInvalidTransactionId →
  stack_wf (upd_head (set_xid (top_xid st')) st').
Proof.
  intros Hwf -> Hx. pose proof (upd_last_wf x st Hwf Hx) as Hwf'.
  destruct (upd_last _ st) as [|s rest]; [constructor|]. by apply stack_wf_take_id.
Qed.

Lemma get_xid_keeps : keeps GetCurrentTransactionId.
Proof.
  intros st Hwf. unfold GetCurrentTransactionId.
  destruct st as [|s rest]; swp_step; swp_step; [wf_done|]. swp_step; [wf_done|].
  swp_step. swp_step. swp_step.
  destruct (TransactionIdIsValid (top_xid (s :: rest))) eqn:Et; cbn [negb when].
  - repeat swp_step. by apply stack_wf_take_id.
  - apply valid_false in Et. eapply swp_wand; [apply assign_top_swp|]. intros [?|?] st'; cbv beta iota.
    + intros [x Hx]. repeat swp_step. by eapply upd_last_head_wf.
    + intros [->|[x ->]]; [done|]. by apply upd_last_wf.
Qed.

Lemma get_top_xid_keeps : keeps GetTopLevelTransactionId.
Proof.
  intros st Hwf. unfold GetTopLevelTransactionId.
  destruct st as [|s rest]; swp_step; swp_step; [wf_done|]. swp_step. swp_step.
  swp_step; [wf_done|]. apply valid_false in E. repeat swp_step; [|done]. by apply upd_last_wf.
Qed.

Lemma set_top_keeps f :
  benign f → (∀ t, transaction_id (f t) = transaction_id t) → keeps (upd_top f).
Proof. intros Hf Hid st Hwf. swp_step. apply stack_wf_upd_last; auto. Qed.

Lemma prepare_keeps g : keeps (PrepareTransactionBlock g).
Proof.
  intros st Hwf. unfold PrepareTransactionBlock. by_depth st Hwf; [wf_done| |].
  - assert (Hset : ∀ x, stack_wf [set_xid x t]) by (intros x; inversion Hwf; by constructor).
    assert (Hprep : ∀ t', stack_wf [t'] → stack_wf [set_tstate TsPrepare t'])
      by (intros t' Hw; inversion Hw; by constructor).
    swp_step. swp_step. cbn [length]. rewrite bool_decide_eq_false_2 by lia.
    swp_step. destruct (negb _); unfold when.
    + eapply swp_wand; [apply assign_top_swp|]. intros [?|?] st'; cbv beta iota.
      * intros [x ->]. cbn. repeat swp_step; cbn; auto with pgcpp.
      * intros [->|[x ->]]; [done|apply Hset].
    + repeat swp_step; cbn; auto with pgcpp.
  - swp_step. swp_step. rewrite bool_decide_eq_true_2 by (simpl; lia). by swp_step.
Qed.

Lemma commands_keep :
  keeps StartTransactionCommand ∧ keeps CommitTransactionCommand ∧ keeps AbortCurrentTransaction.
Proof.
  split_and!; intros st Hwf;
    [unfold StartTransactionCommand|unfold CommitTransactionCommand|unfold AbortCurrentTransaction];
    by_depth st Hwf; try by wf_done.
  - rewrite bool_decide_eq_false_2 by congruence. wf_done.
  - destruct (block_state t) eqn:E; try done; wf_done; by apply command_counter_keeps.
  - replace (block_state t) with kSubInProgress. by apply command_counter_keeps.
  - destruct (block_state t) eqn:E; try done; wf_done.
  - replace (block_state t) with kSubInProgress. swp_step. swp_step.
    unfold AbortSubTransaction. swp_step. inversion Hwf; subst.
    change (pop_into_parent command_id_before_subxact (set_block kSubAbort t :: p :: rest))
      with (pop_into_parent command_id_before_subxact (t :: p :: rest)).
    rewrite abort_sub_stack by done. done.
Qed.

(** ** Savepoints *)

Lemma find_savepoint_suffix n st : ∃ pre, st = pre ++ find_savepoint n st.
Proof.
  induction st as [|t st [pre IH]]; [by exists []|]. simpl. case_bool_decide; [by exists []|].
  exists (t :: pre). simpl. by rewrite <- IH.
Qed.

(** The loops of RELEASE and ROLLBACK TO reach their target: the stack has
    room for one round per entry. *)
Lemma pop_abort_swp pre p rest fuel :
  stack_wf (pre ++ p :: rest) → (length (pre ++ p :: rest) ≤ fuel)%nat →
  swp (pop_until AbortSubTransaction (length (p :: rest)) fuel)
      (λ r st', r = Ret tt ∧ st' = p :: rest) (pre ++ p :: rest).
Proof.
  revert fuel. induction pre as [|s pre IH]; intros [|fuel] Hwf Hf; try (simpl in Hf; lia).
  - simpl. swp_step. swp_step. rewrite bool_decide_eq_true_2 by done. by swp_step.
  - cbn [app pop_until] in *. swp_step. swp_step.
    rewrite bool_decide_eq_false_2 by (simpl; rewrite length_app; simpl; lia).
    swp_step. unfold AbortSubTransaction. swp_step.
    assert (∃ q l, pre ++ p :: rest = q :: l) as (q & l & E)
      by (destruct pre; simpl; eauto). rewrite E in *.
    rewrite abort_sub_stack by done. apply IH; [by eapply stack_wf_tail|simpl in *; lia].
Qed.

Lemma pop_commit_swp pre p rest fuel c :
  stack_wf (pre ++ p :: rest) → (length (pre ++ p :: rest) ≤ fuel)%nat →
  command_id <$> head (pre ++ p :: rest) = Some c →
  swp (pop_until CommitSubTransaction (length (p :: rest)) fuel)
      (λ r st', r = Ret tt ∧ st' = set_command c p :: rest ∧ stack_wf st') (pre ++ p :: rest).
Proof.
  revert p pre. induction fuel as [|fuel IH]; intros p pre Hwf Hf Hc.
  { rewrite length_app in Hf. simpl in Hf. lia. }
  destruct pre as [|s [|q pre]]; cbn [app pop_until] in *; swp_step; swp_step.
  - rewrite bool_decide_eq_true_2 by done. swp_step. simpl in Hc. simplify_eq. by destruct p.
  - rewrite bool_decide_eq_false_2 by (simpl; lia). swp_step. unfold CommitSubTransaction. swp_step.
    simpl in Hc. simplify_eq. pose proof (commit_sub_stack _ _ _ Hwf) as Hwf'.
    apply (IH (set_command (command_id s) p) []); [done|simpl in *; lia|done].
  - rewrite bool_decide_eq_false_2 by (simpl; rewrite length_app; simpl; lia).
    swp_step. unfold CommitSubTransaction. swp_step.
    simpl in Hc. simplify_eq. pose proof (commit_sub_stack _ _ _ Hwf) as Hwf'.
    apply (IH p (set_command (command_id s) q :: pre)); [done|simpl in *; lia|done].
Qed.

Lemma release_swp n st c t p rest :
  stack_wf st → find_savepoint n st = t :: p :: rest → command_id <$> head st = Some c →
  swp (ReleaseSavepoint n)
      (λ r st', r = Ret tt ∧ st' = set_command c p :: rest ∧ stack_wf st') st.
Proof.
  intros Hwf Hf Hc. destruct (find_savepoint_suffix n st) as [pre Hst]. rewrite Hf in Hst.
  unfold ReleaseSavepoint. swp_step. swp_step.
  rewrite bool_decide_eq_true_2 by (rewrite Hst, length_app; simpl; lia). cbn [negb].
  swp_step. swp_step. cbv zeta. rewrite Hf, bool_decide_eq_false_2 by (simpl; lia).
  swp_step. subst st.
  eapply swp_wand; [eapply pop_commit_swp; [done|done|exact Hc]|].
  intros r st' (-> & -> & Hwf'). unfold CommitSubTransaction. swp_step. cbn [pop_into_parent].
  split_and!; [done|done|]. by apply commit_sub_stack in Hwf'.
Qed.

Lemma rollback_to_swp n st t p rest :
  stack_wf st → find_savepoint n st = t :: p :: rest →
  swp (RollbackToSavepoint n)
      (λ r st', r = Ret tt ∧ stack_wf st' ∧
                ∃ s, st' = s :: p :: rest ∧ name s = n ∧ savepoint_level s = 0 ∧
                     command_id s = command_id p ∧ transaction_id s = transaction_id p) st.
Proof.
  intros Hwf Hf. destruct (find_savepoint_suffix n st) as [pre Hst]. rewrite Hf in Hst.
  unfold RollbackToSavepoint. swp_step. swp_step.
  rewrite bool_decide_eq_true_2 by (rewrite Hst, length_app; simpl; lia). cbn [negb].
  swp_step. swp_step. cbv zeta. rewrite Hf, bool_decide_eq_false_2 by (simpl; lia).
  swp_step. replace (pre ++ t :: p :: rest) with ((pre ++ [t]) ++ p :: rest) in Hst
    by (by rewrite <- app_assoc).
  assert (Hwf' : stack_wf (p :: rest)).
  { clear -Hwf Hst. subst st. induction (pre ++ [t]) as [|s l IH]; [done|]. simpl in *.
    destruct (l ++ p :: rest) eqn:E; [by destruct l|]. apply IH. by eapply stack_wf_tail. }
  rewrite Hst at 2. eapply swp_wand; [apply pop_abort_swp; [by rewrite <- Hst|by rewrite <- Hst]|].
  intros r st' (-> & ->). swp_step. eapply swp_wand; [by apply start_sub_swp|].
  intros [?|?] st' Hs; [|done]. destruct Hs as (s & -> & Hw & Hn & Hl & Hcmd & Hid).
  swp_step. split; [done|]. split; [by inversion Hw; constructor|]. eauto 10.
Qed.

Lemma no_savepoint_swp n st :
  (length (find_savepoint n st) < 2)%nat →
  swp (ReleaseSavepoint n) (λ r st', (∃ e, r = Ereport e) ∧ st' = st) st ∧
  swp (RollbackToSavepoint n) (λ r st', (∃ e, r = Ereport e) ∧ st' = st) st.
Proof.
  intros Hl. unfold ReleaseSavepoint, RollbackToSavepoint.
  split; (swp_step; swp_step; swp_step; [swp_step; by eauto|]);
    swp_step; swp_step; cbv zeta; rewrite bool_decide_eq_true_2 by done; swp_step; by eauto.
Qed.

Lemma savepoints_keep n :
  keeps (BeginSavepoint n) ∧ keeps (ReleaseSavepoint n) ∧ keeps (RollbackToSavepoint n).
Proof.
  split_and!; intros st Hwf.
  - unfold BeginSavepoint. destruct st as [|p rest]; swp_step; swp_step; [wf_done|].
    swp_step. eapply swp_wand; [by apply start_sub_swp|]. intros [?|?] st' Hs; [|done].
    destruct Hs as (s & -> & Hw & _). swp_step. by inversion Hw; constructor.
  - destruct (find_savepoint n st) as [|t [|p rest]] eqn:E.
    1, 2: eapply swp_wand; [apply no_savepoint_swp; rewrite E; simpl; lia|]; by intros r st' [_ ->].
    assert (∃ c, command_id <$> head st = Some c) as [c Hc] by (destruct st; simpl in *; eauto; done).
    eapply swp_wand; [by eapply release_swp|]. by intros r st' (_ & _ & ?).
  - destruct (find_savepoint n st) as [|t [|p rest]] eqn:E.
    1, 2: eapply swp_wand; [apply no_savepoint_swp; rewrite E; simpl; lia|]; by intros r st' [_ ->].
    eapply swp_wand; [by eapply rollback_to_swp|]. by intros r st' (_ & ? & _).
Qed.

Lemma run_api_keeps c : keeps (run_api c).
Proof.
  destruct commands_keep as (? & ? & ?).
  destruct c as [| | |g| | | |n|n|n| | | |l|b|b|]; simpl;
    try (apply keeps_unit); try (apply savepoints_keep); try done;
    auto using begin_keeps, end_keeps, abort_block_keeps, prepare_keeps, get_xid_keeps,
      get_top_xid_keeps, command_counter_keeps.
  1-3: by apply set_top_keeps.
  intros st _ w Hw. unfold InitializeTransactionSystem.
  rewrite (bind_ret_run _ _ w tt (over (mkStack [] (kTopSubTransactionId + 1)) w)) by done.
  change (stack_wf (stack_of (exec (zoom InitializeCommitLog)
    (over (mkStack [] (kTopSubTransactionId + 1)) w)))). rewrite frame. constructor.
Qed.

(** ** Properties of the stack *)

(** What the queries answer about a well-formed stack. *)
Lemma wf_ids st x :
  stack_wf st → x ≠ kInvalidTransactionId →
  existsb (λ t, transaction_id t =? x) st = bool_decide (x = top_xid st).
Proof.
  intros Hwf Hx. induction Hwf as [|t|s p rest Hwf IH Hb Hn Hid Hc Hle].
  - symmetry. by apply bool_decide_eq_false_2.
  - simpl. rewrite orb_false_r. unfold top_xid. simpl. case_bool_decide; lia.
  - rewrite top_xid_cons.
    change (existsb _ (s :: p :: rest))
      with ((transaction_id s =? x) || existsb (λ t, transaction_id t =? x) (p :: rest)).
    rewrite IH. case_bool_decide; [apply orb_true_r|].
    rewrite orb_false_r. apply Z.eqb_neq. destruct Hid; congruence.
Qed.

Lemma wf_depth st : stack_wf st → default 0 (nesting_level <$> head st) = Z.of_nat (length st).
Proof. destruct 1 as [|t|s p rest]; [done|done|]. simpl in *. lia. Qed.

(** C25: Whatever sequence of calls a client makes, failing ones included, the
    transaction stack stays well formed: one top-level transaction at the
    bottom and, above it, savepoints in progress that share its id; the
    nesting level reported is the depth of the stack, and an id counts as
    current exactly when it is the top-level transaction's. *)
Theorem transaction_stack_invariant (w0 w : world)
  (Hstart : StateStack (w_xact w0) = []) (Hsteps : rtc step w0 w) :
  stack_wf (StateStack (w_xact w)) ∧
  GetCurrentTransactionNestingLevel w = Z.of_nat (length (StateStack (w_xact w))) ∧
  ∀ x, x ≠ kInvalidTransactionId →
       TransactionIdIsCurrentTransactionId w x = bool_decide (x = GetTopLevelTransactionIdIfAny w).
Proof.
  assert (Hwf : stack_wf (stack_of w)).
  { assert (Hwf0 : stack_wf (stack_of w0)) by (unfold stack_of; rewrite Hstart; constructor).
    clear Hstart. induction Hsteps as [|w0 w1 w [c w0'] _ IH]; [done|]. apply IH.
    by apply (run_api_keeps c _ Hwf0 w0'). }
  split_and!; [done| |].
  - rewrite <- wf_depth by done. unfold GetCurrentTransactionNestingLevel, CurrentState.
    by destruct (StateStack (w_xact w)).
  - intros x Hx. pose proof (wf_ids _ x Hwf Hx) as He. unfold stack_of in *.
    unfold TransactionIdIsCurrentTransactionId, CurrentState, GetTopLevelTransactionIdIfAny, TopState,
      GetCurrentTransactionIdIfAny, CurrentState in *.
    rewrite He. fold (top_xid (StateStack (w_xact w))).
    destruct (StateStack (w_xact w)) as [|t rest]; simpl.
    + symmetry. by apply bool_decide_eq_false_2.
    + case_bool_decide; [done|]. simpl. simpl in He. destruct (transaction_id t =? x); [done|done].
Qed.

Definition ready_world : world :=
  over Transam.ready_state (over (snd (Proc.InitProcess 4242 Proc.ready_state))
    (over (Some CatalogTx.demo_catalog) initial_world)).

Definition run_calls (l : list api) (w : world) : world := foldl (λ w c, exec (run_api c) w) w l.

Lemma run_calls_steps l w : rtc step w (run_calls l w).
Proof.
  revert w. induction l as [|c l IH]; intros w; [apply rtc_refl|].
  eapply rtc_l; [apply step_call|apply IH].
Qed.

Lemma run_calls_wf l w :
  StateStack (w_xact w) = [] → stack_wf (StateStack (w_xact (run_calls l w))).
Proof.
  intros Hw. assert (Hwf : stack_wf (StateStack (w_xact w))) by (rewrite Hw; constructor). clear Hw.
  revert w Hwf. induction l as [|c l IH]; intros w Hwf; [done|]. apply IH. by apply (run_api_keeps c _ Hwf w).
Qed.

Lemma transaction_stack_invariant_witness :
  let w := run_calls [CallBegin; CallSavepoint "a"; CallGetXid; CallSavepoint "b"; CallEnd] ready_world in
  GetCurrentTransactionNestingLevel w = 3 ∧ TransactionIdIsCurrentTransactionId w 3 = true ∧
  TransactionIdIsCurrentTransactionId w 4 = false.
Proof.
  intros w. destruct (transaction_stack_invariant ready_world w) as (_ & H2 & H3).
  - reflexivity.
  - apply run_calls_steps.
  - split; [rewrite H2; vm_compute; reflexivity|]. split; rewrite H3 by discriminate; vm_compute; reflexivity.
Defined.

(** The savepoint commands act on the innermost savepoint of that name:
    RELEASE removes it and all savepoints inside it and keeps the command
    counter reached; ROLLBACK TO removes them, restores the command counter
    its parent had and leaves a fresh savepoint of the same name in place;
    an unknown name raises an error and changes nothing.  The loops always
    reach their target. *)
Theorem savepoint_commands (w : world) (n : string) (Hwf : stack_wf (StateStack (w_xact w))) :
  let st := StateStack (w_xact w) in
  let released := ReleaseSavepoint n w in
  let rolled := RollbackToSavepoint n w in
  match find_savepoint n st with
  | t :: p :: rest =>
      fst released = Ret tt ∧
      StateStack (w_xact (snd released)) = set_command (GetCurrentCommandId w) p :: rest ∧
      fst rolled = Ret tt ∧
      ∃ s, StateStack (w_xact (snd rolled)) = s :: p :: rest ∧ name s = n ∧
           command_id s = command_id p ∧ transaction_id s = transaction_id p
  | _ => (∃ e, fst released = Ereport e) ∧ StateStack (w_xact (snd released)) = st ∧
         (∃ e, fst rolled = Ereport e) ∧ StateStack (w_xact (snd rolled)) = st
  end.
Proof.
  intros st released rolled. destruct (find_savepoint n st) as [|t [|p rest]] eqn:E.
  1, 2: destruct (no_savepoint_swp n st ltac:(rewrite E; simpl; lia)) as [H1 H2];
        destruct (H1 w eq_refl) as [He1 Hs1], (H2 w eq_refl) as [He2 Hs2]; by split_and!.
  assert (Hc : command_id <$> head st = Some (GetCurrentCommandId w)).
  { unfold GetCurrentCommandId, CurrentState. fold st. destruct st; [done|done]. }
  destruct (release_swp n st _ t p rest Hwf E Hc w eq_refl) as (H1 & H2 & _).
  destruct (rollback_to_swp n st t p rest Hwf E w eq_refl) as (H3 & _ & s & H4 & H5 & _ & H6 & H7).
  split_and!; try done. by exists s.
Qed.

Definition savepoint_world : world :=
  run_calls [CallBegin; CallSavepoint "a"; CallSavepoint "b"; CallSavepoint "c"] ready_world.

Lemma savepoint_world_wf : stack_wf (StateStack (w_xact savepoint_world)).
Proof. unfold savepoint_world. apply run_calls_wf. reflexivity. Qed.

Lemma savepoint_commands_witness :
  fst (RollbackToSavepoint "a" savepoint_world) = Ret tt ∧
  length (StateStack (w_xact (snd (RollbackToSavepoint "a" savepoint_world)))) = 2%nat.
Proof.
  pose proof (savepoint_commands savepoint_world "a" savepoint_world_wf) as H.
  assert (Hl : length (find_savepoint "a" (StateStack (w_xact savepoint_world))) = 2%nat)
    by (vm_compute; reflexivity).
  cbv zeta in H. revert H Hl.
  generalize (find_savepoint "a" (StateStack (w_xact savepoint_world))). intros l H Hl.
  destruct l as [|t [|p rest]]; [discriminate Hl|discriminate Hl|].
  destruct H as (_ & _ & H3 & s & H4 & _). split; [exact H3|]. rewrite H4. exact Hl.
Defined.

(** ** Ending a transaction *)

(** The XID the backend shows to the others, [None] without a PGXACT entry. *)
Definition published (s : Proc.state) : option Z :=
  n ← Proc.GetMyPgXact s; a ← Proc.PgXactArray s; e ← a !! n; Some (Proc.px_xid e).

Lemma published_set x s : published (Proc.set_my_xid x s) = (λ _, x) <$> published s.
Proof.
  unfold published, Proc.set_my_xid. destruct (Proc.GetMyPgXact s) as [n|] eqn:En; [|by rewrite En].
  destruct (Proc.PgXactArray s) as [a|] eqn:Ea; [|by rewrite En, Ea].
  destruct (a !! n) as [e|] eqn:Ee; [|rewrite En; simpl; rewrite Ea; simpl; by rewrite Ee].
  assert (Hg : Proc.GetMyPgXact (Proc.set_pgxact (<[n:=Proc.mkXact x (Proc.px_xmin e)]> a) s) = Some n).
  { unfold Proc.GetMyPgXact in *. simpl. by rewrite Ea in En. }
  rewrite Hg. simpl. rewrite list_lookup_insert_eq by (by eapply lookup_lt_Some). simpl. by rewrite Ee.
Qed.

(** The state after a top-level transaction with id [x] has ended with
    status [st]. *)
Record ended (w w' : world) (x : Z) (st : XidStatus) : Prop := {
  ended_stack : stack_of w' = [];
  ended_log : ∀ y, status_of (w_tx w') y =
    if bool_decide (y = x ∧ x ≠ kInvalidTransactionId) then st else status_of (w_tx w) y;
  ended_published : published (w_proc w') = (λ _, kInvalidTransactionId) <$> published (w_proc w);
  ended_snapshots : ActiveSnapshotStack (w_snap w') = [] ∧ catalog_snapshot (w_snap w') = None;
  ended_2pc : w_2pc w' = w_2pc w
}.

(** The ids the commit log can record, or none. *)
Definition recordable (x : Z) : Prop :=
  x = kInvalidTransactionId ∨ TransactionIdIsNormal x = true ∧ x < kMaxXids.

Lemma status_write_run mark st x s :
  (mark = TransactionIdCommit ∧ st = Transam.kCommitted ∨ mark = TransactionIdAbort ∧ st = Transam.kAborted) →
  recordable x → cache_coherent s → is_Some (clog_of s) →
  ∃ s', (if TransactionIdIsValid x then mark x else mret tt) s = (Ret tt, s') ∧
        cache_coherent s' ∧ is_Some (clog_of s') ∧
        ∀ y, status_of s' y = if bool_decide (y = x ∧ x ≠ kInvalidTransactionId) then st else status_of s y.
Proof.
  intros Hm [->|[Hn Hx]] Hc Ha.
  - exists s. split_and!; try done. intros y. by rewrite bool_decide_eq_false_2 by naive_solver.
  - assert (Hv : x ≠ kInvalidTransactionId) by (intros ->; done).
    unfold TransactionIdIsValid. rewrite (proj2 (Z.eqb_neq _ _) Hv). cbn [negb].
    destruct (set_status_run x st s Hn Hc Ha) as (s' & Hr & Hc' & Ha' & _ & Hs).
    exists s'. split_and!; [|done|done|].
    + destruct Hm as [[-> ->]|[-> ->]]; unfold TransactionIdCommit, TransactionIdAbort; by rewrite Hn.
    + intros y. rewrite Hs. repeat case_bool_decide; naive_solver.
Qed.

Lemma zoom_when b (m : M Transam.state unit) (w : world) :
  when b (zoom m) w = zoom (if b then m else mret tt) w.
Proof. destruct b; [done|]. unfold when, zoom. simpl. by destruct w. Qed.

Lemma commit_run w t :
  stack_of w = [t] → recordable (transaction_id t) → cache_coherent (w_tx w) → is_Some (clog_of (w_tx w)) →
  ∃ w', CommitTransaction w = (Ret tt, w') ∧ ended w w' (transaction_id t) Transam.kCommitted ∧
        w_cat w' = (λ c, CatalogTx.DiscardSnapshot (CatalogTx.CommitDirty c)) <$> w_cat w ∧
        num_commit (w_caches w') = num_commit (w_caches w) + 1 ∧
        num_rollback (w_caches w') = num_rollback (w_caches w).
Proof.
  intros Hst Hr Hc Ha. unfold CommitTransaction.
  erewrite bind_ret_run by (unfold gets, CurrentState; unfold stack_of in Hst; by rewrite Hst).
  cbn [hd_error]. erewrite bind_ret_run by done.
  destruct (status_write_run TransactionIdCommit Transam.kCommitted (transaction_id t) (w_tx w))
    as (s' & Hs & Hc' & Ha' & Hlog); [by left|done|done|done|].
  erewrite bind_ret_run; [|rewrite zoom_when; by apply zoom_run].
  repeat (erewrite bind_ret_run by done). eexists. split; [done|]. unfold stack_of in Hst.
  split; [|done]. constructor; simpl; [|done|by rewrite published_set|done|done].
  unfold stack_of. simpl. by rewrite Hst.
Qed.

(** After a rollback the catalog is back at its snapshot, and the caches that
    could point into the discarded rows are empty. *)
Definition catalog_undone (w w' : world) : Prop :=
  w_cat w' = (λ c, CatalogTx.DiscardSnapshot (CatalogTx.RestoreSnapshot c)) <$> w_cat w ∧
  (is_Some (w_cat w) → relcache (w_caches w') = ∅ ∧ ∀ c, syscache (w_caches w') = Some c → c = ∅).

Lemma abort_run w t :
  stack_of w = [t] → recordable (transaction_id t) → cache_coherent (w_tx w) → is_Some (clog_of (w_tx w)) →
  ∃ w', AbortTransaction w = (Ret tt, w') ∧ ended w w' (transaction_id t) Transam.kAborted ∧
        catalog_undone w w' ∧
        num_commit (w_caches w') = num_commit (w_caches w) ∧
        num_rollback (w_caches w') = num_rollback (w_caches w) + 1.
Proof.
  intros Hst Hr Hc Ha. unfold AbortTransaction.
  erewrite bind_ret_run by (unfold gets, CurrentState; unfold stack_of in Hst; by rewrite Hst).
  cbn [hd_error]. erewrite bind_ret_run by done.
  destruct (status_write_run TransactionIdAbort Transam.kAborted (transaction_id t) (w_tx w))
    as (s' & Hs & Hc' & Ha' & Hlog); [by right|done|done|done|].
  erewrite bind_ret_run; [|rewrite zoom_when; by apply zoom_run].
  do 3 (erewrite bind_ret_run by done). unfold stack_of in Hst.
  destruct (w_cat w) as [c|] eqn:Ecat.
  - erewrite bind_ret_run by (simpl; rewrite Ecat; done). erewrite bind_ret_run by done.
    eexists. split; [done|]. simpl. split; [constructor|split; [|done]]; simpl;
      [|done|by rewrite published_set|done|done|].
    + unfold stack_of. simpl. by rewrite Hst.
    + unfold catalog_undone. simpl. rewrite Ecat. split; [done|].
      intros _. split; [done|]. intros s. destruct (syscache _); by intros [= <-].
  - erewrite bind_ret_run by (simpl; rewrite Ecat; done). erewrite bind_ret_run by done.
    eexists. split; [done|]. simpl. split; [constructor|split; [|done]]; simpl;
      [|done|by rewrite published_set|done|done|].
    + unfold stack_of. simpl. by rewrite Hst.
    + unfold catalog_undone. simpl. rewrite Ecat. split; [done|]. by intros [? ?].
Qed.

(** Changing the block state of the current entry. *)
Lemma set_block_run b w t rest :
  stack_of w = t :: rest →
  ∃ w1, upd_current (set_block b) w = (Ret tt, w1) ∧ stack_of w1 = set_block b t :: rest ∧
        w_tx w1 = w_tx w ∧ w_proc w1 = w_proc w ∧ w_snap w1 = w_snap w ∧ w_cat w1 = w_cat w ∧
        w_2pc w1 = w_2pc w ∧ w_caches w1 = w_caches w.
Proof.
  intros Hst. eexists. split; [done|]. unfold stack_of in *. simpl. by rewrite Hst.
Qed.

Lemma ended_from w w1 w' x st :
  ended w1 w' x st → w_tx w1 = w_tx w → w_proc w1 = w_proc w → w_2pc w1 = w_2pc w → ended w w' x st.
Proof.
  intros [H1 H2 H3 H4 H5] E1 E2 E3. rewrite E1 in H2. rewrite E2 in H3. rewrite E3 in H5. by constructor.
Qed.

(** C27: COMMIT of a block (or of an autocommit statement) succeeds: the
    transaction's id, if it got one, is committed in the log and no other
    status changes, the id is withdrawn from the running transactions, the
    stack and the snapshots are empty again, DDL is saved and its undo copy
    dropped, and exactly one commit is counted. *)
Theorem commit_ends_block (w : world) (t : TransactionStateData)
  (Hst : StateStack (w_xact w) = [t])
  (Hb : block_state t = kStarted ∨ block_state t = kBegin ∨ block_state t = kInProgress)
  (Hr : recordable (transaction_id t)) (Hc : cache_coherent (w_tx w)) (Ha : is_Some (clog_of (w_tx w))) :
  ∃ w', EndTransactionBlock w = (Ret true, w') ∧ ended w w' (transaction_id t) Transam.kCommitted ∧
        w_cat w' = (λ c, CatalogTx.DiscardSnapshot (CatalogTx.CommitDirty c)) <$> w_cat w ∧
        num_commit (w_caches w') = num_commit (w_caches w) + 1 ∧
        num_rollback (w_caches w') = num_rollback (w_caches w).
Proof.
  unfold EndTransactionBlock.
  erewrite bind_ret_run by (unfold gets, CurrentState; by rewrite Hst). cbn [hd_error].
  destruct (set_block_run kEnd w t [] Hst) as (w1 & Hw1 & Hst1 & Htx & Hpr & Hsn & Hcat & H2 & Hca).
  destruct (commit_run w t Hst Hr Hc Ha) as (w2 & Hrun & He & Hrest).
  destruct (commit_run w1 (set_block kEnd t) Hst1) as (w3 & Hrun3 & He3 & Hcat3 & Hn3);
    [done|by rewrite Htx|by rewrite Htx|].
  destruct Hb as [->|[->| ->]].
  - exists w2. by erewrite bind_ret_run by exact Hrun.
  - exists w3. erewrite bind_ret_run by exact Hw1. erewrite bind_ret_run by exact Hrun3.
    split; [done|]. split; [by eapply ended_from|]. by rewrite Hcat3, Hcat, <- Hca.
  - exists w3. erewrite bind_ret_run by exact Hw1. erewrite bind_ret_run by exact Hrun3.
    split; [done|]. split; [by eapply ended_from|]. by rewrite Hcat3, Hcat, <- Hca.
Qed.

Definition written_world : world := run_calls [CallBegin; CallStartCommand; CallGetXid] ready_world.

Definition world_top (w : world) : TransactionStateData := default default_ts (list.last (StateStack (w_xact w))).

Lemma written_stack : StateStack (w_xact written_world) = [world_top written_world].
Proof. vm_compute. reflexivity. Qed.

Lemma written_log : cache_coherent (w_tx written_world) ∧ is_Some (clog_of (w_tx written_world)).
Proof. split; [intros H; vm_compute in H; discriminate H|eexists; vm_compute; reflexivity]. Qed.

Lemma commit_ends_block_witness :
  ∃ w', EndTransactionBlock written_world = (Ret true, w') ∧ status_of (w_tx w') 3 = Transam.kCommitted.
Proof.
  destruct (commit_ends_block written_world (world_top written_world)) as (w' & H1 & H2 & _).
  - exact written_stack.
  - right. right. vm_compute. reflexivity.
  - right. vm_compute. split; reflexivity.
  - apply written_log.
  - apply written_log.
  - exists w'. split; [exact H1|]. destruct H2 as [_ H2 _ _ _]. rewrite H2.
    replace (transaction_id (world_top written_world)) with 3 by (vm_compute; reflexivity). reflexivity.
Defined.

(** Operations that change nothing but the stack. *)
Definition only_stack {A} (m : M world A) : Prop := ∀ w, ∃ x : XactStack, exec m w = over x w.

Lemma only_stack_upd f : only_stack (upd_stack f).
Proof. intros w. by eexists. Qed.

Lemma only_stack_ret {A} (a : A) : only_stack (mret a : M world A).
Proof. intros w. exists (w_xact w). by destruct w. Qed.

Lemma only_stack_bind {A B} (m : M world A) (f : A → M world B) :
  only_stack m → (∀ a, only_stack (f a)) → only_stack (m ≫= f).
Proof.
  intros Hm Hf w. destruct (Hm w) as [x Hx]. unfold exec, mbind, M_bind in *.
  destruct (m w) as [[a|e] w1]; [|by exists x]. simpl in Hx. subst w1.
  destruct (Hf a (over x w)) as [y Hy]. exists y. unfold exec in Hy. etrans; [exact Hy|]. by destruct w.
Qed.

Lemma only_stack_gets {A} (g : world → A) : only_stack (gets g).
Proof. intros w. exists (w_xact w). by destruct w. Qed.

Lemma abort_all_subs_only fuel : only_stack (abort_all_subs fuel).
Proof.
  induction fuel as [|f IH]; [apply only_stack_ret|]. simpl.
  apply only_stack_bind; [apply only_stack_gets|]. intros [|]; [|apply only_stack_ret].
  apply only_stack_bind; [apply only_stack_upd|done].
Qed.

(** C28: ROLLBACK undoes the transaction at whatever savepoint depth it is
    given: the id, if one was assigned, is aborted in the log and no other
    status changes, the stack and the snapshots are empty, caches of catalog rows
    are emptied, and exactly one rollback is counted.  DDL is undone: whatever
    the transaction did to the user rows of the catalog tables since it took its
    copy of them, every table holds the rows again that it held then. *)
Theorem rollback_ends_block (w : world) (t : TransactionStateData)
  (Hwf : stack_wf (StateStack (w_xact w))) (Hlast : list.last (StateStack (w_xact w)) = Some t)
  (Hr : recordable (transaction_id t)) (Hc : cache_coherent (w_tx w)) (Ha : is_Some (clog_of (w_tx w))) :
  ∃ w', AbortTransactionBlock w = (Ret tt, w') ∧ ended w w' (transaction_id t) Transam.kAborted ∧
        catalog_undone w w' ∧
        (∀ before now, w_cat w = Some now → CatalogTx.ddl_steps (CatalogTx.TakeSnapshot before) now →
           ∃ after, w_cat w' = Some after ∧ Forall2 Permutation (CatalogTx.tables after) (CatalogTx.tables before) ∧
                    CatalogTx.dirty_ after = false ∧ CatalogTx.next_oid after = CatalogTx.next_oid now) ∧
        num_commit (w_caches w') = num_commit (w_caches w) ∧
        num_rollback (w_caches w') = num_rollback (w_caches w) + 1.
Proof.
  assert (Hundone : ∀ w', catalog_undone w w' → ∀ before now, w_cat w = Some now → CatalogTx.ddl_steps (CatalogTx.TakeSnapshot before) now →
    ∃ after, w_cat w' = Some after ∧ Forall2 Permutation (CatalogTx.tables after) (CatalogTx.tables before) ∧ CatalogTx.dirty_ after = false ∧ CatalogTx.next_oid after = CatalogTx.next_oid now).
  { intros w' [Hcat _] before now Hnow Hsteps. rewrite Hnow in Hcat. eexists. split; [exact Hcat|]. by apply CatalogTx.rollback_restores_catalog. }
  unfold AbortTransactionBlock.
  destruct (StateStack (w_xact w)) as [|s [|p rest]] eqn:Hst; [done| |];
    (erewrite bind_ret_run by (unfold gets, CurrentState; by rewrite Hst)); cbn [hd_error].
  - simpl in Hlast. injection Hlast as ->. pose proof (single_top _ Hwf) as Htop.
    destruct (set_block_run kAbort w t [] Hst) as (w1 & Hw1 & Hst1 & Htx & Hpr & Hsn & Hcat & H2 & Hca).
    destruct (abort_run w t Hst Hr Hc Ha) as (w2 & Hrun & He2 & Hcat2 & Hn2).
    destruct (abort_run w1 (set_block kAbort t) Hst1) as (w3 & Hrun3 & He3 & Hcat3 & Hn3);
      [done|by rewrite Htx|by rewrite Htx|].
    assert (Hcat' : catalog_undone w w3) by (unfold catalog_undone in *; by rewrite <- Hcat).
    destruct (block_state t); try done; try (exists w2; split_and!; [done|done|done|by apply Hundone|apply Hn2|apply Hn2]);
      exists w3; (erewrite bind_ret_run by exact Hw1); (split; [done|]);
      (split; [by eapply ended_from|]); (split; [done|]); (split; [by apply Hundone|]); by rewrite <- Hca.
  - rewrite (sub_state _ _ _ Hwf). erewrite bind_ret_run by done. rewrite Hst.
    destruct (abort_all_subs_swp (length (s :: p :: rest)) _ t Hwf Hlast (le_n _) w Hst) as (Hret & Hst1 & _).
    destruct (abort_all_subs_only (length (s :: p :: rest)) w) as [x Hx]. unfold exec in Hx.
    destruct (abort_all_subs _ w) as [r w1] eqn:E. cbn [fst snd] in *. subst r.
    erewrite bind_ret_run by exact E.
    destruct (abort_run w1 t Hst1 Hr) as (w2 & Hrun & He & Hrest); [by rewrite Hx|by rewrite Hx|].
    exists w2. split; [done|]. rewrite Hx in *. destruct Hrest as (Hcat & Hn). split_and!; [by eapply ended_from|done|by apply Hundone|apply Hn|apply Hn].
Qed.

Definition nested_world : world :=
  run_calls [CallBegin; CallStartCommand; CallGetXid; CallSavepoint "a"; CallSavepoint "b"] ready_world.

Lemma nested_wf : stack_wf (StateStack (w_xact nested_world)).
Proof. unfold nested_world. apply run_calls_wf. reflexivity. Qed.

Lemma nested_log : cache_coherent (w_tx nested_world) ∧ is_Some (clog_of (w_tx nested_world)).
Proof. split; [intros H; vm_compute in H; discriminate H|eexists; vm_compute; reflexivity]. Qed.

(** The same world with a table created in the transaction. *)
Definition created_table : CatalogTx.Catalog := CatalogTx.ddl_write 0 (λ l, l ++ [CatalogTx.mkRow 16385 ["t2"]]) (CatalogTx.TakeSnapshot CatalogTx.demo_catalog).
Definition with_catalog (c : CatalogTx.Catalog) (w : world) : world := mkWorld (w_tx w) (w_proc w) (w_xact w) (w_snap w) (Some c) (w_2pc w) (w_caches w).
Definition ddl_world : world := with_catalog created_table nested_world.
Lemma with_catalog_parts c w : w_xact (with_catalog c w) = w_xact w ∧ w_tx (with_catalog c w) = w_tx w ∧ w_cat (with_catalog c w) = Some c.
Proof. done. Qed.

Lemma rollback_ends_block_witness :
  ∃ w' after, AbortTransactionBlock ddl_world = (Ret tt, w') ∧ status_of (w_tx w') 3 = Transam.kAborted ∧
    w_cat w' = Some after ∧ Forall2 Permutation (CatalogTx.tables after) (CatalogTx.tables CatalogTx.demo_catalog).
Proof.
  destruct (with_catalog_parts created_table nested_world) as (Ex & Et & Ec). fold ddl_world in Ex, Et, Ec.
  destruct (rollback_ends_block ddl_world (world_top nested_world)) as (w' & H1 & H2 & _ & Hddl & _).
  - rewrite Ex. exact nested_wf.
  - rewrite Ex. vm_compute. reflexivity.
  - right. vm_compute. split; reflexivity.
  - rewrite Et. apply nested_log.
  - rewrite Et. apply nested_log.
  - destruct (Hddl CatalogTx.demo_catalog created_table Ec) as (after & Hcat & Htables & _).
    { eapply (CatalogTx.ddl_more _ 0 (λ l, l ++ [CatalogTx.mkRow 16385 ["t2"]])); [|apply CatalogTx.ddl_none]. intros l. unfold CatalogTx.FreeUserRows. rewrite filter_app. simpl. by rewrite app_nil_r. }
    exists w', after. split; [exact H1|]. split; [|by split]. destruct H2 as [_ H2 _ _ _]. rewrite H2.
    replace (transaction_id (world_top nested_world)) with 3 by (vm_compute; reflexivity). reflexivity.
Defined.

(** ** Errors inside a block *)

(** What a client can still call in a failed block whose transaction has the id [x]:
    everything but what ends the block, PREPARE TRANSACTION and the initialization of
    the backend; and an id is not assigned any more. *)
Definition block_call (x : Z) (c : api) : bool :=
  match c with
  | CallEnd | CallAbortBlock | CallPrepare _ | CallInitialize => false
  | CallGetXid | CallGetTopXid => TransactionIdIsValid x
  | _ => true
  end.

(** The stack of a failed block: savepoints above the entry that failed. *)
Definition failed_stack (x : Z) (st : tstack) : Prop := ∃ t, list.last st = Some t ∧ block_state t = kAbortPending ∧ transaction_id t = x.

Lemma failed_head f x t rest : (rest = [] → block_state (f t) = block_state t ∧ transaction_id (f t) = transaction_id t) → failed_stack x (t :: rest) → failed_stack x (f t :: rest).
Proof.
  intros Hf (u & Hl & Hb & Hx). destruct rest as [|p rest]; [|exists u; by rewrite last_cons_cons in *]. injection Hl as <-. destruct (Hf eq_refl) as [E1 E2]. exists (f t). by rewrite E1, E2.
Qed.
Lemma failed_cons x s st : failed_stack x st → failed_stack x (s :: st).
Proof. intros (u & Hl & H). exists u. split; [|done]. destruct st; [done|]. by rewrite last_cons_cons. Qed.
Lemma failed_tail x s p rest : failed_stack x (s :: p :: rest) → failed_stack x (p :: rest).
Proof. intros (u & Hl & H). exists u. by rewrite last_cons_cons in Hl. Qed.
Lemma failed_suffix x pre p rest : failed_stack x (pre ++ p :: rest) → failed_stack x (p :: rest).
Proof. intros (u & Hl & H). exists u. by rewrite last_app_cons in Hl. Qed.

(** The setters of the top-level entry. *)
Lemma failed_upd_last f x st : (∀ t, block_state (f t) = block_state t ∧ transaction_id (f t) = transaction_id t) → failed_stack x st → failed_stack x (upd_last f st).
Proof.
  intros Hf (u & Hl & Hb & Hx). exists (f u). destruct (Hf u) as [-> ->]. split; [|done]. clear Hb Hx. induction st as [|s [|p rest] IH]; [done|by injection Hl as ->|].
  rewrite last_cons_cons in Hl. specialize (IH Hl). rewrite upd_last_cons. destruct (upd_last f (p :: rest)); [done|]. by rewrite last_cons_cons.
Qed.

(** The top entry of a failed block. *)
Lemma failed_current x st t rest : stack_wf st → failed_stack x st → st = t :: rest → block_state t = kSubInProgress ∧ rest ≠ [] ∨ rest = [] ∧ block_state t = kAbortPending ∧ transaction_id t = x.
Proof.
  intros Hwf (u & Hl & Hb & Hx) ->. destruct rest as [|p rest]; [right; by injection Hl as ->|left]. split; [by eapply sub_state|done].
Qed.

(** ** Calls that stay on the stack *)

(** The log, the process table and the prepared transactions are left alone. *)
Class Quiet {A} (m : M world A) : Prop := quiet : ∀ w, let w' := exec m w in w_tx w' = w_tx w ∧ w_proc w' = w_proc w ∧ w_2pc w' = w_2pc w.
#[export] Instance quiet_ret {A} (a : A) : Quiet (mret a : M world A).
Proof. by intros w. Qed.
#[export] Instance quiet_err {A} e : Quiet (ereport e : M world A).
Proof. by intros w. Qed.
#[export] Instance quiet_gets {A} (g : world → A) : Quiet (gets g).
Proof. by intros w. Qed.
#[export] Instance quiet_stack {A} (m : M XactStack A) : Quiet (zoom m : M world A).
Proof. intros w. unfold exec, zoom. by destruct (m (view w)). Qed.
#[export] Instance quiet_snap {A} (m : M SnapMgr A) : Quiet (zoom m : M world A).
Proof. intros w. unfold exec, zoom. by destruct (m (view w)). Qed.
#[export] Instance quiet_caches {A} (m : M Caches A) : Quiet (zoom m : M world A).
Proof. intros w. unfold exec, zoom. by destruct (m (view w)). Qed.
#[export] Instance quiet_bind {A B} (m : M world A) (f : A → M world B) `{!Quiet m} `{!∀ a, Quiet (f a)} : Quiet (m ≫= f).
Proof.
  intros w. pose proof (quiet (m := m) w) as Hw. unfold exec, mbind, M_bind in *. destruct (m w) as [[a|e] w']; [|done]. cbn in Hw |- *.
  match goal with H : ∀ a, Quiet (f a) |- _ => pose proof (H a w') as Hf end. unfold exec in Hf. destruct Hw as (<- & <- & <-). exact Hf.
Qed.

Lemma counter_quiet : Quiet CommandCounterIncrement.
Proof.
  unfold CommandCounterIncrement, InvalidateAllVisibilityCaches, upd_current, upd_stack. apply quiet_bind; [apply _|]. intros [s|]; [|apply _]. apply quiet_bind; [apply _|]. intros _.
  apply quiet_bind; [apply _|]. intros [l|]; apply _.
Qed.
Lemma pop_until_quiet m n fuel : Quiet m → Quiet (pop_until m n fuel).
Proof. intros Hm. induction fuel as [|fuel IH]; cbn [pop_until]; [apply _|]. apply quiet_bind; [apply _|]. intros k. destruct (bool_decide _); apply _. Qed.
Lemma start_sub_quiet : Quiet StartSubTransaction.
Proof. unfold StartSubTransaction, PushState, next_sub_id, upd_current, upd_stack. apply quiet_bind; [apply _|]. intros [s|]; apply _. Qed.
Lemma commit_sub_quiet : Quiet CommitSubTransaction.
Proof. unfold CommitSubTransaction, upd_stack. apply _. Qed.
Lemma abort_sub_quiet : Quiet AbortSubTransaction.
Proof. unfold AbortSubTransaction, upd_stack. apply _. Qed.
Lemma savepoints_quiet n : Quiet (BeginSavepoint n) ∧ Quiet (ReleaseSavepoint n) ∧ Quiet (RollbackToSavepoint n).
Proof.
  pose proof start_sub_quiet. pose proof commit_sub_quiet. pose proof abort_sub_quiet.
  assert (Hpop : ∀ m k fuel, Quiet m → Quiet (pop_until m k fuel)) by (intros; by apply pop_until_quiet).
  unfold BeginSavepoint, ReleaseSavepoint, RollbackToSavepoint, upd_current, upd_stack.
  split_and!; repeat first [apply _ | (apply quiet_bind; [first [apply _ | apply Hpop; apply _]|]; intros ?) | case_match].
Qed.

Lemma swp_and {A} (m : M world A) Q1 Q2 st : swp m Q1 st → swp m Q2 st → swp m (λ r st', Q1 r st' ∧ Q2 r st') st.
Proof. intros H1 H2 w Hw. split; [by apply H1|by apply H2]. Qed.

(** The command counter is no part of what makes a block failed. *)
Lemma counter_failed x st : failed_stack x st → swp CommandCounterIncrement (λ _, failed_stack x) st.
Proof.
  intros Hf. unfold CommandCounterIncrement, InvalidateAllVisibilityCaches. destruct st as [|s rest]; swp_step; swp_step; [by swp_step|]. swp_step. swp_step.
  assert (Hs : failed_stack x (upd_head (set_command (if command_id s <? kInvalidCommandId - 1 then command_id s + 1 else command_id s)) (s :: rest))) by (apply failed_head; [done|done]).
  swp_step. apply swp_gets. intros w _. swp_step. destruct (GetActiveSnapshot w); repeat swp_step; exact Hs.
Qed.

Lemma savepoints_failed n x st : stack_wf st → failed_stack x st →
  swp (BeginSavepoint n) (λ _, failed_stack x) st ∧ swp (ReleaseSavepoint n) (λ _, failed_stack x) st ∧ swp (RollbackToSavepoint n) (λ _, failed_stack x) st.
Proof.
  intros Hwf Hf. split_and!.
  - unfold BeginSavepoint. destruct st as [|p rest]; swp_step; swp_step; [by swp_step|]. swp_step. eapply swp_wand; [by apply start_sub_swp|]. intros [?|?] st' Hs; [|done].
    destruct Hs as (s & -> & _). swp_step. by apply failed_cons.
  - destruct (find_savepoint n st) as [|t [|p rest]] eqn:E.
    1, 2: eapply swp_wand; [apply no_savepoint_swp; rewrite E; simpl; lia|]; by intros r st' [_ ->].
    assert (∃ c, command_id <$> head st = Some c) as [c Hc] by (destruct st; simpl in *; eauto; done).
    destruct (find_savepoint_suffix n st) as [pre Hst]. rewrite E in Hst. rewrite Hst in Hf. apply failed_suffix, failed_tail in Hf.
    eapply swp_wand; [by eapply release_swp|]. intros r st' (_ & -> & _). by apply (failed_head (set_command c)).
  - destruct (find_savepoint n st) as [|t [|p rest]] eqn:E.
    1, 2: eapply swp_wand; [apply no_savepoint_swp; rewrite E; simpl; lia|]; by intros r st' [_ ->].
    destruct (find_savepoint_suffix n st) as [pre Hst]. rewrite E in Hst. rewrite Hst in Hf. apply failed_suffix, failed_tail in Hf.
    eapply swp_wand; [by eapply rollback_to_swp|]. intros r st' (_ & _ & s & -> & _). by apply failed_cons.
Qed.

(** ** A failed block stays one *)

Definition failed_block (w0 w : world) (x : Z) : Prop :=
  stack_wf (stack_of w) ∧ failed_stack x (stack_of w) ∧ w_tx w = w_tx w0 ∧ w_proc w = w_proc w0 ∧ w_2pc w = w_2pc w0.

Lemma quiet_failed m w0 w x : Quiet m → swp m (λ _ st, stack_wf st ∧ failed_stack x st) (stack_of w) → failed_block w0 w x → failed_block w0 (exec (m : M world unit) w) x.
Proof.
  intros Hq Hm (Hwf & Hf & Ht & Hp & H2). destruct (quiet (m := m) w) as (Q1 & Q2 & Q3). destruct (Hm w eq_refl) as [Hwf' Hf']. split_and!; [exact Hwf'|exact Hf'|..]; congruence.
Qed.

Lemma block_call_failed c w0 w x : block_call x c = true → failed_block w0 w x → failed_block w0 (exec (run_api c) w) x.
Proof.
  intros Hc Hb. pose proof Hb as (Hwf & Hf & _). pose proof counter_quiet as Hcq.
  assert (Hset : ∀ f, benign f → (∀ t, block_state (f t) = block_state t ∧ transaction_id (f t) = transaction_id t) → failed_block w0 (exec (upd_top f) w) x).
  { intros f Hbe Hid. apply quiet_failed; [unfold upd_top, upd_stack; apply _| |done]. swp_step. split; [|by apply failed_upd_last]. apply stack_wf_upd_last; [done|done|]. right. intros t. apply Hid. }
  assert (Hcount : failed_block w0 (exec CommandCounterIncrement w) x) by (apply quiet_failed; [done|apply swp_and; [by apply command_counter_keeps|by apply counter_failed]|done]).
  assert (Hsame : ∀ (m : M world unit), (∃ r, m w = (r, w)) → failed_block w0 (exec m w) x) by (intros m (r & E); unfold exec; by rewrite E).
  destruct (stack_of w) as [|t rest] eqn:Est; [by destruct Hf as (? & ? & _)|]. pose proof (failed_current x _ t rest Hwf Hf eq_refl) as Hcur.
  assert (Hhd : ∀ A (f : option TransactionStateData → M world A), (gets CurrentState ≫= f) w = f (Some t) w) by (intros A f; unfold mbind, M_bind, gets, CurrentState; unfold stack_of in Est; by rewrite Est).
  destruct c; try done; cbn [run_api block_call] in *.
  - apply Hsame. unfold BeginTransactionBlock. eexists. rewrite bind_assoc_run, Hhd. destruct Hcur as [[E _]|(_ & E & _)]; rewrite bool_decide_eq_false_2 by congruence; done.
  - apply Hsame. unfold StartTransactionCommand. eexists. rewrite Hhd. destruct Hcur as [[E _]|(_ & E & _)]; rewrite bool_decide_eq_false_2 by congruence; done.
  - unfold exec, CommitTransactionCommand. rewrite Hhd. destruct Hcur as [[-> _]|(_ & -> & _)]; exact Hcount.
  - destruct Hcur as [[E Hr]|(_ & E & _)]; [|apply Hsame; unfold AbortCurrentTransaction; eexists; by rewrite Hhd, E].
    destruct rest as [|p rest]; [done|]. assert (Hm : failed_block w0 (exec (upd_current (set_block kSubAbort);; AbortSubTransaction) w) x).
    { apply quiet_failed; [unfold AbortSubTransaction, upd_current, upd_stack; apply _| |done]. rewrite Est. unfold AbortSubTransaction. swp_step. swp_step. swp_step. cbn [upd_head pop_into_parent command_id_before_subxact set_block].
      pose proof (abort_sub_stack _ _ _ Hwf) as Ha. cbn [pop_into_parent] in Ha. rewrite Ha. split; [by eapply stack_wf_tail|by eapply failed_tail]. }
    unfold exec, AbortCurrentTransaction. rewrite Hhd, E. exact Hm.
  - apply quiet_failed; [apply savepoints_quiet| |done]. rewrite Est. apply swp_and; [by apply savepoints_keep|by apply savepoints_failed].
  - apply quiet_failed; [apply savepoints_quiet| |done]. rewrite Est. apply swp_and; [by apply savepoints_keep|by apply savepoints_failed].
  - apply quiet_failed; [apply savepoints_quiet| |done]. rewrite Est. apply swp_and; [by apply savepoints_keep|by apply savepoints_failed].
  - destruct (TransactionIdIsValid (transaction_id t)) eqn:Ev; [apply Hsame; unfold GetCurrentTransactionId; eexists; rewrite bind_assoc_run, Hhd, Ev; done|].
    destruct Hcur as [[E Hr]|(_ & _ & E)]; [|by rewrite E, Hc in Ev]. assert (Htop : top_xid (stack_of w) = x) by (destruct Hf as (u & Hl & _ & <-); rewrite Est; unfold top_xid; by rewrite Hl).
    assert (Hm : failed_block w0 (exec (upd_current (set_xid x)) w) x).
    { apply quiet_failed; [unfold upd_current, upd_stack; apply _| |done]. rewrite Est. swp_step. split; [|by apply failed_head]. pose proof (stack_wf_take_id t rest Hwf) as Hw. by rewrite <- Est, Htop in Hw. }
    assert (Eq : exec (GetCurrentTransactionId;; mret tt) w = exec (upd_current (set_xid x)) w); [|by rewrite Eq].
    assert (Eg : GetCurrentTransactionId w = (Ret x, exec (upd_current (set_xid x)) w)).
    { unfold GetCurrentTransactionId. rewrite Hhd, Ev. rewrite (bind_ret_run (gets GetTopLevelTransactionIdIfAny) _ w x w) by (unfold gets; by rewrite <- Htop).
      rewrite Hc. cbn [negb when]. rewrite (bind_ret_run (mret tt) _ w tt w) by done. by rewrite (bind_ret_run (gets GetTopLevelTransactionIdIfAny) _ w x w) by (unfold gets; by rewrite <- Htop). }
    unfold exec at 1. by rewrite (bind_ret_run _ _ _ _ _ Eg).
  - apply Hsame. exists (Ret tt). assert (Htop : top_xid (stack_of w) = x) by (destruct Hf as (u & Hl & _ & <-); rewrite Est; unfold top_xid; by rewrite Hl).
    assert (Eg : GetTopLevelTransactionId w = (Ret x, w)).
    { unfold GetTopLevelTransactionId. rewrite Hhd. rewrite (bind_ret_run (gets GetTopLevelTransactionIdIfAny) _ w x w) by (unfold gets; by rewrite <- Htop). by rewrite Hc. }
    by rewrite (bind_ret_run _ _ _ _ _ Eg).
  - apply Hset; [by intros ?|done].
  - apply Hset; [by intros ?|done].
  - apply Hset; [by intros ?|done].
Qed.

(** C31: A block in which an error occurred never commits.  After an error outside
    any savepoint, whatever the client calls, savepoint commands and a second BEGIN
    included, the COMMIT that follows reports failure: without an open savepoint it
    aborts the transaction, and with one it does nothing.  The calls are all of the
    interface but those that end the block, the initialization of the backend and
    PREPARE TRANSACTION, which does succeed ([failed_block_prepares]); an error in a
    savepoint is another case ([failed_savepoint_still_commits]). *)
Theorem failed_block_never_commits (w : world) (t : TransactionStateData) (calls : list api)
  (Hst : StateStack (w_xact w) = [t])
  (Hwf : stack_wf [t])
  (Hb : block_state t = kBegin ∨ block_state t = kInProgress)
  (Hcalls : Forall (λ c, block_call (transaction_id t) c = true) calls)
  (Hr : recordable (transaction_id t)) (Hc : cache_coherent (w_tx w)) (Ha : is_Some (clog_of (w_tx w))) :
  let w1 := run_calls (CallAbortCurrent :: calls) w in
  ∃ w', EndTransactionBlock w1 = (Ret false, w') ∧
    if decide (length (StateStack (w_xact w1)) = 1%nat)
    then IsAbortedTransactionBlock w1 = true ∧ ended w w' (transaction_id t) Transam.kAborted
    else w' = w1 ∧ w_tx w1 = w_tx w.
Proof.
  intros w1. assert (Hf : failed_block w w1 (transaction_id t)).
  { unfold w1. cbn [run_calls foldl].
    assert (Hf : failed_block w (exec (run_api CallAbortCurrent) w) (transaction_id t)).
    { assert (E : exec (run_api CallAbortCurrent) w = exec (upd_current (set_block kAbortPending)) w).
      { unfold run_api, AbortCurrentTransaction, exec. erewrite bind_ret_run by (unfold gets, CurrentState; by rewrite Hst). cbn [hd_error]. by destruct Hb as [-> | ->]. }
      rewrite E. destruct (set_block_run kAbortPending w t [] Hst) as (w2 & Hw2 & Hst2 & Htx & Hpr & _ & _ & H22 & _). unfold exec. rewrite Hw2. cbn [snd].
      split; [rewrite Hst2; by apply set_block_wf|]. split; [rewrite Hst2; by eexists|done]. }
    revert Hf. generalize (exec (run_api CallAbortCurrent) w). clear -Hcalls.
    induction Hcalls as [|c calls Hc _ IH]; intros w2 Hf; [done|]. by apply IH, block_call_failed. }
  destruct Hf as (Hwf1 & Hf1 & Ht & Hp & H2). pose proof Hf1 as (u & Hl & _). destruct (stack_of w1) as [|s rest] eqn:Est; [done|].
  pose proof (failed_current _ _ s rest Hwf1 Hf1 eq_refl) as Hcur. unfold stack_of in Est. rewrite Est. unfold EndTransactionBlock.
  erewrite bind_ret_run by (unfold gets, CurrentState; by rewrite Est). cbn [hd_error]. destruct Hcur as [[Hs Hne]|(-> & Hs & Hx)]; rewrite Hs.
  - exists w1. split; [done|]. destruct rest as [|p rest]; [done|]. by rewrite decide_False by (cbn; lia).
  - destruct (set_block_run kAbort w1 s [] Est) as (w2 & Hw2 & Hst2 & Htx & Hpr & _ & _ & H22 & _).
    destruct (abort_run w2 (set_block kAbort s) Hst2) as (w3 & Hrun & He & _); [simpl; by rewrite Hx|by rewrite Htx, Ht|by rewrite Htx, Ht|].
    exists w3. erewrite bind_ret_run by exact Hw2. erewrite bind_ret_run by exact Hrun. split; [done|]. rewrite decide_True by done. split.
    + unfold IsAbortedTransactionBlock, CurrentState. rewrite Est. simpl. by rewrite Hs.
    + simpl in He. rewrite Hx in He. eapply ended_from; [done|congruence..].
Qed.

Lemma failed_block_never_commits_witness :
  ∃ w', EndTransactionBlock (run_calls [CallAbortCurrent; CallBegin; CallSavepoint "s"; CallCommitCommand; CallRelease "s"] written_world)
          = (Ret false, w') ∧ status_of (w_tx w') 3 = Transam.kAborted.
Proof.
  destruct (failed_block_never_commits written_world (world_top written_world)
              [CallBegin; CallSavepoint "s"; CallCommitCommand; CallRelease "s"]) as (w' & H1 & H2).
  - exact written_stack.
  - rewrite <- written_stack. apply run_calls_wf. reflexivity.
  - right. vm_compute. reflexivity.
  - repeat constructor.
  - right. vm_compute. split; reflexivity.
  - apply written_log.
  - apply written_log.
  - exists w'. split; [exact H1|]. rewrite decide_True in H2 by (vm_compute; reflexivity). destruct H2 as [_ [_ H2 _ _ _]]. rewrite H2.
    replace (transaction_id (world_top written_world)) with 3 by (vm_compute; reflexivity). reflexivity.
Defined.

(** PREPARE TRANSACTION does not look at the state of the block: a failed block can
    be prepared, and then committed by COMMIT PREPARED. *)
Theorem failed_block_prepares :
  let w1 := run_calls [CallAbortCurrent] written_world in
  IsAbortedTransactionBlock w1 = true ∧ (PrepareTransactionBlock "g" w1).1 = Ret true.
Proof. vm_compute. split; reflexivity. Qed.

(** An error inside a savepoint does not fail the block: the handler pops
    the savepoint, the block no longer reports as aborted, and a following
    COMMIT succeeds.  Since a savepoint shares the id of its transaction, the
    commit also commits what the failed savepoint wrote. *)
Theorem failed_savepoint_still_commits (w : world) (s t : TransactionStateData)
  (Hwf : stack_wf (StateStack (w_xact w))) (Hst : StateStack (w_xact w) = [s; t])
  (Hb : block_state t = kBegin ∨ block_state t = kInProgress)
  (Hr : recordable (transaction_id t)) (Hc : cache_coherent (w_tx w)) (Ha : is_Some (clog_of (w_tx w))) :
  let w1 := exec AbortCurrentTransaction w in
  IsAbortedTransactionBlock w1 = false ∧
  ∃ w', EndTransactionBlock w1 = (Ret true, w') ∧ ended w w' (transaction_id t) Transam.kCommitted.
Proof.
  intros w1. rewrite Hst in Hwf.
  assert (Hw1 : w1 = over (mkStack [t] (NextSubTransactionId (w_xact w))) w).
  { unfold w1, exec, AbortCurrentTransaction, CurrentState. run_step. rewrite Hst. simpl.
    rewrite (sub_state _ _ _ Hwf). simpl. rewrite Hst.
    change (pop_into_parent _ (upd_head (set_block kSubAbort) [s; t]))
      with (pop_into_parent command_id_before_subxact [s; t]).
    by rewrite abort_sub_stack by done. }
  assert (Hst1 : stack_of w1 = [t]) by (by rewrite Hw1).
  split.
  { unfold IsAbortedTransactionBlock, CurrentState. unfold stack_of in Hst1. rewrite Hst1. simpl.
    by destruct Hb as [-> | ->]. }
  unfold EndTransactionBlock.
  erewrite bind_ret_run by (unfold gets, CurrentState; unfold stack_of in Hst1; by rewrite Hst1).
  cbn [hd_error].
  destruct (set_block_run kEnd w1 t [] Hst1) as (w2 & Hw2 & Hst2 & Htx & Hpr & _ & _ & H22 & _).
  destruct (commit_run w2 (set_block kEnd t) Hst2) as (w3 & Hrun & He & _);
    [done|by rewrite Htx, Hw1|by rewrite Htx, Hw1|].
  exists w3. assert (He' : ended w w3 (transaction_id t) Transam.kCommitted).
  { eapply ended_from; [exact He|rewrite Htx|rewrite Hpr|rewrite H22]; by rewrite Hw1. }
  destruct Hb as [-> | ->]; (erewrite bind_ret_run by exact Hw2); (erewrite bind_ret_run by exact Hrun); done.
Qed.

Definition in_savepoint_world : world :=
  run_calls [CallBegin; CallStartCommand; CallSavepoint "a"; CallGetXid] ready_world.

Lemma in_savepoint_stack :
  StateStack (w_xact in_savepoint_world)
  = [default default_ts (head (StateStack (w_xact in_savepoint_world))); world_top in_savepoint_world].
Proof. vm_compute. reflexivity. Qed.

Lemma in_savepoint_wf : stack_wf (StateStack (w_xact in_savepoint_world)).
Proof. unfold in_savepoint_world. apply run_calls_wf. reflexivity. Qed.

Lemma in_savepoint_log : cache_coherent (w_tx in_savepoint_world) ∧ is_Some (clog_of (w_tx in_savepoint_world)).
Proof. split; [intros H; vm_compute in H; discriminate H|eexists; vm_compute; reflexivity]. Qed.

Lemma failed_savepoint_still_commits_witness :
  ∃ w', EndTransactionBlock (exec AbortCurrentTransaction in_savepoint_world) = (Ret true, w') ∧
        status_of (w_tx w') 3 = Transam.kCommitted.
Proof.
  destruct (failed_savepoint_still_commits in_savepoint_world
    (default default_ts (head (StateStack (w_xact in_savepoint_world))))
    (world_top in_savepoint_world)) as (_ & w' & H1 & H2).
  - exact in_savepoint_wf.
  - exact in_savepoint_stack.
  - right. vm_compute. reflexivity.
  - right. vm_compute. split; reflexivity.
  - apply in_savepoint_log.
  - apply in_savepoint_log.
  - exists w'. split; [exact H1|]. destruct H2 as [_ H2 _ _ _]. rewrite H2.
    replace (transaction_id (world_top in_savepoint_world)) with 3 by (vm_compute; reflexivity). reflexivity.
Defined.

(** ** Assignment of the transaction id *)

Lemma top_xid_set x st : st ≠ [] → top_xid (upd_last (set_xid x) st) = x.
Proof.
  intros Hne. rewrite top_xid_upd_last. destruct (list.last st) eqn:E; [done|]. by apply last_None in E.
Qed.

Lemma get_xid_known w t rest :
  stack_of w = t :: rest → TransactionIdIsValid (transaction_id t) = true →
  GetCurrentTransactionId w = (Ret (transaction_id t), w).
Proof.
  intros Hst Hv. unfold GetCurrentTransactionId, gets, CurrentState. run_step.
  unfold stack_of in Hst. rewrite Hst. simpl. by rewrite Hv.
Qed.

Lemma get_xid_assigns w x s1 t rest :
  stack_of w = t :: rest → transaction_id t = kInvalidTransactionId → top_xid (t :: rest) = kInvalidTransactionId →
  AllocateNextTransactionId (w_tx w) = (Ret x, s1) →
  ∃ w', GetCurrentTransactionId w = (Ret x, w') ∧ w_tx w' = s1 ∧
        w_proc w' = Proc.set_my_xid x (w_proc w) ∧
        stack_of w' = upd_head (set_xid x) (upd_last (set_xid x) (t :: rest)).
Proof.
  intros Hst Hcur Htop Hr. unfold GetCurrentTransactionId, stack_of in *.
  erewrite bind_ret_run by (unfold gets, CurrentState; by rewrite Hst). cbn [hd_error].
  rewrite Hcur. change (TransactionIdIsValid kInvalidTransactionId) with false. cbv iota.
  erewrite bind_ret_run by (unfold gets, GetTopLevelTransactionIdIfAny, TopState; by rewrite Hst).
  unfold top_xid in Htop. rewrite Htop.
  change (negb (TransactionIdIsValid kInvalidTransactionId)) with true. unfold when, assign_top_xid.
  rewrite bind_assoc_run. erewrite bind_ret_run by (by apply zoom_run).
  rewrite bind_assoc_run. erewrite bind_ret_run by done. erewrite bind_ret_run by done.
  assert (Hq : ∀ w2, stack_of w2 = upd_last (set_xid x) (t :: rest) → GetTopLevelTransactionIdIfAny w2 = x).
  { intros w2 Hw2. pose proof (top_xid_set x (t :: rest) ltac:(done)) as Hx. by rewrite <- Hw2 in Hx. }
  erewrite bind_ret_run by done. rewrite Hq by (unfold stack_of; simpl; by rewrite Hst).
  erewrite bind_ret_run by done. eexists. split; [done|]. simpl. by rewrite Hst.
Qed.

(** The id of a transaction is assigned on first use, at any savepoint
    depth: the call returns the next id of the counter, which is then in
    progress in the log, is the current and the top-level id, and is the one
    other backends see; asking again returns the same id and changes nothing. *)
Theorem xid_assigned_once (w : world) (v : VariableCacheData)
  (Hwf : stack_wf (StateStack (w_xact w))) (Hne : StateStack (w_xact w) ≠ [])
  (Hnone : GetTopLevelTransactionIdIfAny w = kInvalidTransactionId)
  (Hv : varcache_of (w_tx w) = Some v) (Hc : cache_coherent (w_tx w)) (Ha : is_Some (clog_of (w_tx w)))
  (Hn : kFirstNormalTransactionId ≤ nextXid v < 2 ^ 32 - 1) :
  ∃ w', GetCurrentTransactionId w = (Ret (nextXid v), w') ∧
        status_of (w_tx w') (nextXid v) = Transam.kInProgress ∧
        GetTopLevelTransactionIdIfAny w' = nextXid v ∧
        TransactionIdIsCurrentTransactionId w' (nextXid v) = true ∧
        published (w_proc w') = (λ _, nextXid v) <$> published (w_proc w) ∧
        GetCurrentTransactionId w' = (Ret (nextXid v), w').
Proof.
  assert (Hx0 : nextXid v ≠ kInvalidTransactionId)
    by (unfold kFirstNormalTransactionId, kInvalidTransactionId in *; lia).
  destruct (allocate_next_run (w_tx w) v Hv Hc Ha Hn) as (s1 & Hr & _ & _ & _ & Hs1).
  destruct (StateStack (w_xact w)) as [|t rest] eqn:Hst; [done|].
  assert (Htop : top_xid (t :: rest) = kInvalidTransactionId).
  { unfold GetTopLevelTransactionIdIfAny, TopState in Hnone. by rewrite Hst in Hnone. }
  assert (Hcur : transaction_id t = kInvalidTransactionId).
  { destruct rest as [|p rest]; [by unfold top_xid in Htop|].
    destruct (stack_wf_id _ _ _ Hwf) as [?|?]; congruence. }
  destruct (get_xid_assigns w (nextXid v) s1 t rest Hst Hcur Htop Hr) as (w' & Hrun & Htx & Hpr & Hst').
  assert (Hxt : top_xid (stack_of w') = nextXid v).
  { rewrite Hst'. destruct rest as [|p rest]; [done|]. rewrite upd_last_cons. simpl.
    pose proof (top_xid_set (nextXid v) (p :: rest) ltac:(done)) as Hx.
    destruct (upd_last _ (p :: rest)); [by rewrite <- Hx|]. by rewrite top_xid_cons. }
  assert (Hhd : ∃ t' rest', stack_of w' = t' :: rest' ∧ transaction_id t' = nextXid v).
  { rewrite Hst'. destruct rest as [|p rest]; [eauto|]. rewrite upd_last_cons. simpl. eauto. }
  destruct Hhd as (t' & rest' & Hst2 & Hid).
  exists w'. split_and!; [done| | | | |].
  - rewrite Htx, Hs1, bool_decide_eq_true_2 by done. done.
  - exact Hxt.
  - unfold TransactionIdIsCurrentTransactionId, CurrentState. unfold stack_of in Hst2. rewrite Hst2. simpl.
    by rewrite Hid, Z.eqb_refl.
  - by rewrite Hpr, published_set.
  - rewrite <- Hid at 1. eapply get_xid_known; [exact Hst2|]. unfold TransactionIdIsValid. rewrite Hid.
    by rewrite (proj2 (Z.eqb_neq _ _) Hx0).
Qed.

Definition unassigned_world : world := run_calls [CallBegin; CallSavepoint "a"; CallSavepoint "b"] ready_world.

Lemma unassigned_wf : stack_wf (StateStack (w_xact unassigned_world)).
Proof. unfold unassigned_world. apply run_calls_wf. reflexivity. Qed.

Lemma xid_assigned_once_witness :
  ∃ w', GetCurrentTransactionId unassigned_world = (Ret 3, w') ∧ published (w_proc w') = Some 3.
Proof.
  destruct (xid_assigned_once unassigned_world (mkVariableCache 3 3)) as (w' & H1 & _ & _ & _ & H5 & _).
  - exact unassigned_wf.
  - vm_compute. discriminate.
  - vm_compute. reflexivity.
  - vm_compute. reflexivity.
  - unfold cache_coherent.
    replace (TransactionIdIsNormal _) with false by (vm_compute; reflexivity). discriminate.
  - eexists; vm_compute; reflexivity.
  - unfold kFirstNormalTransactionId; simpl; lia.
  - exists w'. split; [exact H1|]. rewrite H5. vm_compute. reflexivity.
Defined.

End XactSpec.
