(* ===== verification/Visibility.v ===== *)
(** * Tuple visibility

    Models src/transaction/visibility.cpp: which tuple versions a snapshot
    sees.  The visibility code asks the transaction system four questions;
    [XactOracle] is that interface, [OracleLaws] what it promises, and the
    backend state of [World] implements it.  A check may store hint bits in
    the tuple header, so it returns the header it leaves behind. *)

From stdpp Require Import base gmap list strings sets.
From S2P Require Import Prelude Transam HeapTuple Proc World Snapshot Xact.
Import Transam HeapTuple World.

(** ** What visibility needs of the transaction system *)

Class XactOracle (S : Type) := {
  DidCommit : Z → M S bool;
  DidAbort : Z → M S bool;
  IsCurrent : S → Z → bool;
  CurrentCommand : S → Z
}.

(** [xid_status] is what the commit log records; answering a question changes
    neither it nor the identity of the current transaction. *)
Class OracleLaws (S : Type) `{!XactOracle S} := {
  oracle_ok : S → Prop;
  xid_status : S → Z → XidStatus;
  same_answers : S → S → Prop := λ s s',
    (∀ x, xid_status s' x = xid_status s x) ∧ (∀ x, IsCurrent s' x = IsCurrent s x) ∧
    CurrentCommand s' = CurrentCommand s;
  did_commit_law : ∀ s x, oracle_ok s → ∃ s',
    DidCommit x s = (Ret (bool_decide (xid_status s x = Transam.kCommitted)), s') ∧
    oracle_ok s' ∧ same_answers s s';
  did_abort_law : ∀ s x, oracle_ok s → ∃ s',
    DidAbort x s = (Ret (bool_decide (xid_status s x = Transam.kAborted)), s') ∧
    oracle_ok s' ∧ same_answers s s';
  special_committed : ∀ s x, oracle_ok s → TransactionIdIsNormal x = false →
    xid_status s x = Transam.kCommitted
}.

#[global] Instance world_oracle : XactOracle world := {|
  DidCommit x := zoom (TransactionIdDidCommit x);
  DidAbort x := zoom (TransactionIdDidAbort x);
  IsCurrent := TransactionIdIsCurrentTransactionId;
  CurrentCommand := GetCurrentCommandId
|}.

#[global] Program Instance world_oracle_laws : OracleLaws world := {|
  oracle_ok w := cache_coherent (w_tx w);
  xid_status w := status_of (w_tx w)
|}.
Next Obligation.
  intros w x Hc. destruct (did_commit_run x (w_tx w) Hc) as (s' & Hr & Hc' & Hs).
  exists (over s' w). split; [by apply zoom_run|]. by repeat split.
Qed.
Next Obligation.
  intros w x Hc. destruct (did_abort_run x (w_tx w) Hc) as (s' & Hr & Hc' & Hs).
  exists (over s' w). split; [by apply zoom_run|]. by repeat split.
Qed.
Next Obligation. intros w x _ Hn. simpl. unfold status_of. by rewrite Hn. Qed.

Module Visibility.

Section operations.
  Context {S : Type} `{!XactOracle S}.

(** The result and [*hint_committed]. *)
Definition XidVisibleInSnapshot (xid : Z) (snapshot : SnapshotData) : M S (bool * bool) :=
  if negb (TransactionIdIsNormal xid) then mret (true, true)
  else if XidGeXmax snapshot xid then mret (false, false)
  else if XidLtXmin snapshot xid then
    c ← DidCommit xid; mret (if (c : bool) then (true, true) else (false, false))
  else if XidInSnapshot snapshot xid then mret (false, false)
  else c ← DidCommit xid; mret (if (c : bool) then (true, true) else (false, false)).

(** Step 1 of [HeapTupleSatisfiesMVCC]: [None] is an early [return false]. *)
Definition mvcc_xmin (tup : HeapTupleHeaderData) (snapshot : SnapshotData) :
  M S (option bool * HeapTupleHeaderData) :=
  let xmin := HeapTupleHeaderGetXmin tup in
  let xmax := HeapTupleHeaderGetXmax tup in
  match HeapTupleHeaderGetXminStatus tup with
  | XCommitted => mret (Some true, tup)
  | XAborted => mret (None, tup)
  | XFrozen => mret (Some true, tup)
  | XInProgress =>
      if negb (TransactionIdIsValid xmin) then mret (None, tup)
      else
        cur ← gets (λ s, IsCurrent s xmin);
        if (cur : bool) then
          if curcid snapshot <? HeapTupleHeaderGetCid tup then mret (None, tup)
          else if has_flag (t_infomask tup) kHeapUpdated && (xmin =? xmax) then mret (None, tup)
          else mret (Some true, tup)
        else
          r ← XidVisibleInSnapshot xmin snapshot;
          let '(xmin_visible, hint_committed) := r in
          if (hint_committed : bool) then mret (Some xmin_visible, HeapTupleHeaderSetXminCommitted tup)
          else if negb xmin_visible then
            a ← DidAbort xmin;
            mret (Some xmin_visible, if (a : bool) then HeapTupleHeaderSetXminInvalid tup else tup)
          else mret (Some xmin_visible, tup)
  end.

(** Step 2: is the version still there for this snapshot? *)
Definition mvcc_xmax (xmax : Z) (tup : HeapTupleHeaderData) (snapshot : SnapshotData) :
  M S (bool * HeapTupleHeaderData) :=
  if negb (TransactionIdIsValid xmax) then mret (true, tup)
  else if has_flag (t_infomask tup) kHeapXmaxLocked then mret (true, tup)
  else
    match HeapTupleHeaderGetXmaxStatus tup with
    | XCommitted =>
        if XidLtXmin snapshot xmax then mret (false, tup)
        else if XidGeXmax snapshot xmax then mret (true, tup)
        else if XidInSnapshot snapshot xmax then mret (true, tup)
        else mret (false, tup)
    | XAborted => mret (true, tup)
    | XInProgress =>
        cur ← gets (λ s, IsCurrent s xmax);
        if (cur : bool) then
          mret (curcid snapshot <? HeapTupleHeaderGetCid tup, tup)
        else if XidLtXmin snapshot xmax then
          c ← DidCommit xmax;
          mret (if (c : bool) then (false, HeapTupleHeaderSetXmaxCommitted tup)
                else (true, HeapTupleHeaderSetXmaxInvalid tup))
        else if XidGeXmax snapshot xmax then mret (true, tup)
        else if XidInSnapshot snapshot xmax then
          c ← DidCommit xmax;
          mret (if (c : bool) then (true, tup) else (true, HeapTupleHeaderSetXmaxInvalid tup))
        else
          c ← DidCommit xmax;
          mret (if (c : bool) then (false, HeapTupleHeaderSetXmaxCommitted tup)
                else (true, HeapTupleHeaderSetXmaxInvalid tup))
    | XFrozen => mret (true, tup)
    end.

Definition HeapTupleSatisfiesMVCC (tup : HeapTupleHeaderData) (snapshot : SnapshotData) :
  M S (bool * HeapTupleHeaderData) :=
  let xmax := HeapTupleHeaderGetXmax tup in
  r ← mvcc_xmin tup snapshot;
  match r with
  | (Some true, tup1) => mvcc_xmax xmax tup1 snapshot
  | (_, tup1) => mret (false, tup1)
  end.

Definition HeapTupleSatisfiesSelf (tup : HeapTupleHeaderData) : M S bool :=
  let xmin := HeapTupleHeaderGetXmin tup in
  let xmax := HeapTupleHeaderGetXmax tup in
  if negb (TransactionIdIsValid xmin) then mret false
  else
    cur ← gets (λ s, IsCurrent s xmin);
    cmd ← gets CurrentCommand;
    ok ← (if (cur : bool) then mret (negb (cmd <? HeapTupleHeaderGetCid tup)) else DidCommit xmin);
    if negb ok then mret false
    else if negb (TransactionIdIsValid xmax) then mret true
    else
      curx ← gets (λ s, IsCurrent s xmax);
      if (curx : bool) then mret (cmd <? HeapTupleHeaderGetCid tup)
      else c ← DidCommit xmax; mret (negb c).

Definition HeapTupleSatisfiesAny (tup : HeapTupleHeaderData) : M S bool := mret true.

Definition HeapTupleIsSurelyDead (tup : HeapTupleHeaderData) (snapshot : SnapshotData) : M S bool :=
  let xmax := HeapTupleHeaderGetXmax tup in
  if negb (TransactionIdIsValid xmax) then mret false
  else
    c ← DidCommit xmax;
    if negb c then mret false
    else if negb (TransactionIdPrecedes xmax (s_xmin snapshot)) then mret false
    else mret true.

End operations.

(** ** The reference definition of visibility *)

(** The transaction [x] committed, and did so before the snapshot was taken. *)
Definition sees (status : Z → XidStatus) (snapshot : SnapshotData) (x : Z) : bool :=
  bool_decide (status x = Transam.kCommitted) &&
  negb (XidGeXmax snapshot x) && negb (XidInSnapshot snapshot x).

(** A version is visible when its inserter is seen and its deleter is not;
    changes of the own transaction count by command. *)
Definition inserted_for status (current : Z → bool) (tup : HeapTupleHeaderData) (snapshot : SnapshotData) : bool :=
  if current (t_xmin tup)
  then (t_cid tup <=? curcid snapshot) &&
       negb (has_flag (t_infomask tup) kHeapUpdated && (t_xmin tup =? t_xmax tup))
  else negb (TransactionIdIsNormal (t_xmin tup)) || sees status snapshot (t_xmin tup).

Definition deleted_for status (current : Z → bool) (tup : HeapTupleHeaderData) (snapshot : SnapshotData) : bool :=
  TransactionIdIsValid (t_xmax tup) && negb (has_flag (t_infomask tup) kHeapXmaxLocked) &&
  (if current (t_xmax tup) then t_cid tup <=? curcid snapshot else sees status snapshot (t_xmax tup)).

Definition visible_for status current tup snapshot : bool :=
  inserted_for status current tup snapshot && negb (deleted_for status current tup snapshot).

(** No hint is stored in the header. *)
Definition unhinted (tup : HeapTupleHeaderData) : Prop :=
  ∀ n, 8 ≤ n ≤ 11 → Z.testbit (t_infomask tup) n = false.

(** The snapshot brackets the id: what precedes its [xmin] was neither
    running nor unassigned when it was taken. *)
Definition bracketed (snapshot : SnapshotData) (x : Z) : Prop :=
  XidLtXmin snapshot x = true → XidGeXmax snapshot x = false ∧ XidInSnapshot snapshot x = false.

Section correctness.
  Context {S : Type} `{OracleLaws S}.
  Implicit Types (s : S) (tup : HeapTupleHeaderData) (snapshot : SnapshotData).

Lemma same_answers_refl s : same_answers s s.
Proof. by repeat split. Qed.

Lemma same_answers_trans s1 s2 s3 : same_answers s1 s2 → same_answers s2 s3 → same_answers s1 s3.
Proof.
  intros (A1 & B1 & C1) (A2 & B2 & C2). split_and!; intros; by rewrite ?A2, ?B2, ?C2, ?A1, ?B1, ?C1.
Qed.

(** The answer of the snapshot test, and the hint it gives. *)
Lemma xid_visible_run x snapshot s :
  oracle_ok s → bracketed snapshot x →
  let b := negb (TransactionIdIsNormal x) || sees (xid_status s) snapshot x in
  ∃ s', XidVisibleInSnapshot x snapshot s = (Ret (b, b), s') ∧ oracle_ok s' ∧ same_answers s s'.
Proof.
  intros Hok Hbr b. unfold XidVisibleInSnapshot, b, sees.
  destruct (TransactionIdIsNormal x) eqn:En; cbn [negb orb].
  2: { exists s. split_and!; [done|done|apply same_answers_refl]. }
  destruct (did_commit_law s x Hok) as (s' & Hr & Hok' & Hsame).
  destruct (XidGeXmax snapshot x) eqn:Eg.
  { exists s. rewrite andb_false_r. split_and!; [done|done|apply same_answers_refl]. }
  destruct (XidLtXmin snapshot x) eqn:El.
  - exists s'. rewrite (bind_ret_run _ _ _ _ _ Hr). destruct (Hbr El) as [_ ->].
    rewrite !andb_true_r. by destruct (bool_decide _).
  - destruct (XidInSnapshot snapshot x) eqn:Ei.
    + exists s. rewrite andb_false_r. split_and!; [done|done|apply same_answers_refl].
    + exists s'. rewrite (bind_ret_run _ _ _ _ _ Hr). rewrite !andb_true_r. by destruct (bool_decide _).
Qed.

(** Storing the first hint does not disturb what step 2 reads. *)
Definition xmax_bits_same (tup tup1 : HeapTupleHeaderData) : Prop :=
  t_xmax tup1 = t_xmax tup ∧ t_cid tup1 = t_cid tup ∧
  ∀ n, n = 7 ∨ n = 10 ∨ n = 11 → Z.testbit (t_infomask tup1) n = Z.testbit (t_infomask tup) n.

Lemma mvcc_xmin_run tup snapshot s :
  oracle_ok s → unhinted tup → t_xmin tup ≠ kInvalidTransactionId → bracketed snapshot (t_xmin tup) →
  ∃ o tup1 s', mvcc_xmin tup snapshot s = (Ret (o, tup1), s') ∧ oracle_ok s' ∧ same_answers s s' ∧
    xmax_bits_same tup tup1 ∧
    (o = Some true ∧ inserted_for (xid_status s) (IsCurrent s) tup snapshot = true ∨
     o ≠ Some true ∧ inserted_for (xid_status s) (IsCurrent s) tup snapshot = false).
Proof.
  intros Hok Hun Hx Hbr. unfold mvcc_xmin, inserted_for.
  rewrite xmin_status_bits. unfold xmin_status_of. rewrite !Hun by lia.
  unfold HeapTupleHeaderGetXmin, HeapTupleHeaderGetXmax, HeapTupleHeaderGetCid.
  unfold TransactionIdIsValid at 1. rewrite (proj2 (Z.eqb_neq _ _) Hx). cbn [negb].
  rewrite (bind_ret_run (gets _) _ s _ s eq_refl).
  assert (Hrefl : xmax_bits_same tup tup) by done.
  destruct (IsCurrent s (t_xmin tup)) eqn:Ec.
  - destruct (curcid snapshot <? t_cid tup) eqn:E; to_prop.
    { eexists _, _, s. split; [done|]. split_and!; [done|apply same_answers_refl|done|]. right. split; [done|].
      apply andb_false_iff. left. apply Z.leb_gt. lia. }
    rewrite (proj2 (Z.leb_le _ _)) by lia. cbn [andb].
    destruct (_ && _) eqn:Eu; eexists _, _, s; (split; [done|]);
      split_and!; try done; try apply same_answers_refl; [by right|by left].
  - destruct (xid_visible_run (t_xmin tup) snapshot s Hok Hbr) as (s1 & Hr & Hok1 & Hs1).
    rewrite (bind_ret_run _ _ _ _ _ Hr). destruct (negb _ || sees _ _ _) eqn:Eb.
    + eexists _, _, s1. split; [done|]. split_and!; [done|done| |by left].
      split_and!; [done|done|]. intros n Hn. rewrite set_xmin_committed_bits by lia.
      destruct Hn as [-> |[-> | ->]]; done.
    + cbn [negb]. destruct (did_abort_law s1 (t_xmin tup) Hok1) as (s2 & Ha & Hok2 & Hs2).
      rewrite (bind_ret_run _ _ _ _ _ Ha). eexists _, _, s2. split; [done|].
      split_and!; [done|by eapply same_answers_trans| |by right].
      destruct (bool_decide _); [|done]. split_and!; [done|done|]. intros n Hn.
      rewrite set_xmin_invalid_bits by lia. destruct Hn as [-> |[-> | ->]]; done.
Qed.

Lemma mvcc_xmax_run tup snapshot s :
  oracle_ok s → unhinted tup → bracketed snapshot (t_xmax tup) →
  ∀ tup1, xmax_bits_same tup tup1 →
  ∃ tup2 s', mvcc_xmax (t_xmax tup) tup1 snapshot s =
               (Ret (negb (deleted_for (xid_status s) (IsCurrent s) tup snapshot), tup2), s') ∧
             oracle_ok s' ∧ same_answers s s'.
Proof.
  intros Hok Hun Hbr tup1 (Hx & Hcid & Hbits). unfold mvcc_xmax, deleted_for, sees.
  destruct (TransactionIdIsValid (t_xmax tup)) eqn:Ev; cbn [negb andb].
  2: { eexists _, s. split_and!; [done|done|apply same_answers_refl]. }
  rewrite !locked_bit, (Hbits 7) by lia.
  destruct (Z.testbit (t_infomask tup) 7) eqn:El; cbn [negb andb].
  { eexists _, s. split_and!; [done|done|apply same_answers_refl]. }
  rewrite xmax_status_bits. unfold xmax_status_of. rewrite !Hbits, !Hun by lia.
  rewrite (bind_ret_run (gets _) _ s _ s eq_refl).
  destruct (IsCurrent s (t_xmax tup)) eqn:Ec.
  { eexists _, s. split_and!; [|done|apply same_answers_refl]. unfold HeapTupleHeaderGetCid. rewrite Hcid.
    by rewrite <- Z.ltb_antisym. }
  destruct (did_commit_law s (t_xmax tup) Hok) as (s' & Hr & Hok' & Hsame).
  destruct (XidLtXmin snapshot (t_xmax tup)) eqn:Elt.
  { destruct (Hbr Elt) as [-> ->]. rewrite (bind_ret_run _ _ _ _ _ Hr), !andb_true_r.
    destruct (bool_decide _); by eexists _, s'. }
  destruct (XidGeXmax snapshot (t_xmax tup)) eqn:Eg.
  { rewrite andb_false_r. eexists _, s. split_and!; [done|done|apply same_answers_refl]. }
  destruct (XidInSnapshot snapshot (t_xmax tup)) eqn:Ei;
    rewrite (bind_ret_run _ _ _ _ _ Hr), ?andb_false_r, ?andb_true_r;
    destruct (bool_decide _); by eexists _, s'.
Qed.

Lemma mvcc_visible tup snapshot s :
  oracle_ok s → unhinted tup → t_xmin tup ≠ kInvalidTransactionId →
  bracketed snapshot (t_xmin tup) → bracketed snapshot (t_xmax tup) →
  ∃ tup' s', HeapTupleSatisfiesMVCC tup snapshot s =
               (Ret (visible_for (xid_status s) (IsCurrent s) tup snapshot, tup'), s') ∧
             oracle_ok s' ∧ same_answers s s'.
Proof.
  intros Hok Hun Hx Hbmin Hbmax.
  destruct (mvcc_xmin_run tup snapshot s Hok Hun Hx Hbmin)
    as (o & tup1 & s1 & Hr1 & Hok1 & Hs1 & Hbits & Hins).
  unfold HeapTupleSatisfiesMVCC, visible_for, HeapTupleHeaderGetXmax.
  rewrite (bind_ret_run _ _ _ _ _ Hr1).
  destruct Hins as [[-> ->]|[Ho ->]]; cbn [andb].
  - destruct (mvcc_xmax_run tup snapshot s1 Hok1 Hun Hbmax tup1 Hbits) as (tup2 & s2 & Hr2 & Hok2 & Hs2).
    exists tup2, s2. rewrite Hr2. split_and!; [|done|by eapply same_answers_trans].
    destruct Hs1 as (Hst & Hcur & _). unfold deleted_for, sees. by rewrite Hst, Hcur.
  - exists tup1, s1. split_and!; [|done|done]. by destruct o as [[]|].
Qed.

(** C24: On a tuple version that carries no hints yet, the MVCC check decides
    exactly the reference definition: a version is visible when its inserting
    transaction committed before the snapshot (or is the own one, at an
    earlier command) and no deleting transaction did, row locks apart.  The
    answers the commit log gives are left as they were. *)
Theorem mvcc_decides_visibility (tup : HeapTupleHeaderData) (snapshot : SnapshotData) (s : S)
  (Hok : oracle_ok s) (Hun : unhinted tup) (Hx : t_xmin tup ≠ kInvalidTransactionId)
  (Hbmin : bracketed snapshot (t_xmin tup)) (Hbmax : bracketed snapshot (t_xmax tup)) :
  ∃ tup' s', HeapTupleSatisfiesMVCC tup snapshot s =
               (Ret (visible_for (xid_status s) (IsCurrent s) tup snapshot, tup'), s') ∧
             oracle_ok s' ∧ same_answers s s'.
Proof. by apply mvcc_visible. Qed.

(** A header whose xmin hint says committed and whose deletion hint says
    aborted is visible to every snapshot, without asking the log. *)
Lemma mvcc_hinted_visible tup snapshot s :
  Z.testbit (t_infomask tup) 8 = true → Z.testbit (t_infomask tup) 10 = false →
  Z.testbit (t_infomask tup) 11 = true → HeapTupleSatisfiesMVCC tup snapshot s = (Ret (true, tup), s).
Proof.
  intros H8 H10 H11. unfold HeapTupleSatisfiesMVCC, mvcc_xmin.
  rewrite xmin_status_bits. unfold xmin_status_of. rewrite H8.
  rewrite (bind_ret_run _ _ s (Some true, tup) s) by done. unfold mvcc_xmax.
  destruct (negb _); [done|]. destruct (has_flag _ _); [done|].
  rewrite xmax_status_bits. unfold xmax_status_of. by rewrite H10, H11.
Qed.

(** A reader can undo a concurrent DELETE.  When the check meets a version
    whose deleter is still running (it is listed in the snapshot), it takes
    the deleter for aborted and stores that as a hint; afterwards the version
    stays visible to every snapshot, also to those taken after the deleter
    committed, for which the reference definition says it is deleted. *)
Theorem running_delete_is_lost (tup : HeapTupleHeaderData) (snapshot : SnapshotData) (s : S)
  (Hok : oracle_ok s) (Hun : unhinted tup) (Hx : t_xmin tup ≠ kInvalidTransactionId)
  (Hbmin : bracketed snapshot (t_xmin tup)) (Hbmax : bracketed snapshot (t_xmax tup))
  (Hother : IsCurrent s (t_xmin tup) = false ∧ IsCurrent s (t_xmax tup) = false)
  (Hins : inserted_for (xid_status s) (IsCurrent s) tup snapshot = true)
  (Hdel : TransactionIdIsValid (t_xmax tup) = true ∧ Z.testbit (t_infomask tup) 7 = false)
  (Hrunning : xid_status s (t_xmax tup) = Transam.kInProgress ∧
              XidGeXmax snapshot (t_xmax tup) = false ∧ XidInSnapshot snapshot (t_xmax tup) = true) :
  ∃ tup' s', HeapTupleSatisfiesMVCC tup snapshot s = (Ret (true, tup'), s') ∧
    ∀ (later : S) (snapshot2 : SnapshotData),
      HeapTupleSatisfiesMVCC tup' snapshot2 later = (Ret (true, tup'), later) ∧
      (IsCurrent later (t_xmax tup) = false → sees (xid_status later) snapshot2 (t_xmax tup) = true →
       deleted_for (xid_status later) (IsCurrent later) tup' snapshot2 = true).
Proof.
  destruct Hother as [Hc1 Hc2], Hdel as [Hv Hlock], Hrunning as (Hst & Hge & Hin).
  assert (Hlt : XidLtXmin snapshot (t_xmax tup) = false).
  { destruct (XidLtXmin snapshot (t_xmax tup)) eqn:E; [|done]. destruct (Hbmax E). congruence. }
  unfold HeapTupleSatisfiesMVCC at 1, mvcc_xmin.
  rewrite xmin_status_bits. unfold xmin_status_of. rewrite !Hun by lia.
  unfold HeapTupleHeaderGetXmin, HeapTupleHeaderGetXmax. unfold TransactionIdIsValid at 1.
  rewrite (proj2 (Z.eqb_neq _ _) Hx). cbn [negb].
  unfold inserted_for in Hins. rewrite Hc1 in Hins.
  destruct (xid_visible_run (t_xmin tup) snapshot s Hok Hbmin) as (s1 & Hr & Hok1 & Hs1).
  rewrite bind_assoc_run, (bind_ret_run (gets _) _ s _ s eq_refl), Hc1.
  rewrite bind_assoc_run, (bind_ret_run _ _ _ _ _ Hr), Hins.
  rewrite (bind_ret_run _ _ s1 (Some true, HeapTupleHeaderSetXminCommitted tup) s1) by done.
  set (tup1 := HeapTupleHeaderSetXminCommitted tup).
  assert (Hb : ∀ n, n = 7 ∨ n = 10 ∨ n = 11 → Z.testbit (t_infomask tup1) n = false).
  { intros n Hn. unfold tup1. rewrite set_xmin_committed_bits by lia.
    destruct Hn as [-> |[-> | ->]]; [exact Hlock|exact (Hun 10 ltac:(lia))|exact (Hun 11 ltac:(lia))]. }
  assert (Hb8 : Z.testbit (t_infomask tup1) 8 = true)
    by (unfold tup1; rewrite set_xmin_committed_bits by lia; done).
  unfold mvcc_xmax. rewrite Hv. cbn [negb]. rewrite locked_bit, (Hb 7) by lia.
  rewrite xmax_status_bits. unfold xmax_status_of. rewrite !Hb by lia.
  destruct Hs1 as (Hst1 & Hcur1 & _).
  rewrite (bind_ret_run (gets _) _ s1 _ s1 eq_refl), Hcur1, Hc2, Hlt, Hge, Hin.
  destruct (did_commit_law s1 (t_xmax tup) Hok1) as (s2 & Hr2 & _).
  rewrite (bind_ret_run _ _ _ _ _ Hr2), Hst1, Hst, bool_decide_eq_false_2 by done.
  eexists _, s2. split; [done|]. intros later snapshot2. split.
  - apply mvcc_hinted_visible; rewrite set_xmax_invalid_bits by lia; done.
  - intros Hcl Hsee. unfold deleted_for. rewrite locked_bit, set_xmax_invalid_bits by lia.
    simpl (decide _). rewrite (Hb 7) by lia. change (t_xmax _) with (t_xmax tup). by rewrite Hv, Hcl, Hsee.
Qed.

(** The committed hint overrules the snapshot.  A version whose inserter
    is listed as running in the snapshot (or is newer) is invisible to it, as
    it should; once another reader has stored the hint that the inserter
    committed, the same snapshot sees the version: reads are not repeatable. *)
Theorem committed_hint_overrules_snapshot (tup : HeapTupleHeaderData) (snapshot : SnapshotData) (s : S)
  (Hok : oracle_ok s) (Hun : unhinted tup) (Hx : TransactionIdIsNormal (t_xmin tup) = true)
  (Hxmax : t_xmax tup = kInvalidTransactionId) (Hbmin : bracketed snapshot (t_xmin tup))
  (Hother : IsCurrent s (t_xmin tup) = false)
  (Hafter : XidGeXmax snapshot (t_xmin tup) = true ∨ XidInSnapshot snapshot (t_xmin tup) = true) :
  (∃ tup' s', HeapTupleSatisfiesMVCC tup snapshot s = (Ret (false, tup'), s')) ∧
  HeapTupleSatisfiesMVCC (HeapTupleHeaderSetXminCommitted tup) snapshot s
  = (Ret (true, HeapTupleHeaderSetXminCommitted tup), s).
Proof.
  assert (Hx0 : t_xmin tup ≠ kInvalidTransactionId) by (intros E; by rewrite E in Hx).
  split.
  - destruct (mvcc_xmin_run tup snapshot s Hok Hun Hx0 Hbmin) as (o & tup1 & s1 & Hr & _ & _ & _ & Hins).
    exists tup1, s1. unfold HeapTupleSatisfiesMVCC. rewrite (bind_ret_run _ _ _ _ _ Hr).
    destruct Hins as [[-> Hi]|[Ho _]]; [|by destruct o as [[]|]]. exfalso.
    unfold inserted_for in Hi. rewrite Hother, Hx in Hi. unfold sees in Hi. simpl in Hi. to_prop.
    destruct Hafter; congruence.
  - unfold HeapTupleSatisfiesMVCC, mvcc_xmin. rewrite xmin_status_bits. unfold xmin_status_of.
    rewrite set_xmin_committed_bits by lia. cbn [decide].
    rewrite (bind_ret_run _ _ s (Some true, HeapTupleHeaderSetXminCommitted tup) s) by done.
    unfold mvcc_xmax, HeapTupleHeaderGetXmax. simpl. by rewrite Hxmax.
Qed.

Lemma surely_dead_run tup snapshot s :
  oracle_ok s →
  ∃ s', HeapTupleIsSurelyDead tup snapshot s =
    (Ret (TransactionIdIsValid (t_xmax tup) &&
          bool_decide (xid_status s (t_xmax tup) = Transam.kCommitted) &&
          TransactionIdPrecedes (t_xmax tup) (s_xmin snapshot)), s') ∧ oracle_ok s'.
Proof.
  intros Hok. unfold HeapTupleIsSurelyDead, HeapTupleHeaderGetXmax.
  destruct (TransactionIdIsValid (t_xmax tup)); cbn [negb andb]; [|by exists s].
  destruct (did_commit_law s (t_xmax tup) Hok) as (s' & Hr & Hok' & _).
  rewrite (bind_ret_run _ _ _ _ _ Hr). exists s'. split; [|done].
  destruct (bool_decide _); [|done]. by destruct (TransactionIdPrecedes _ _).
Qed.

(** Vacuum reclaims only what nobody can see: when a version that is not
    merely locked is found surely dead at a horizon, no snapshot whose [xmin]
    is at or after that horizon sees it. *)
Theorem surely_dead_unseen (tup : HeapTupleHeaderData) (horizon snapshot : SnapshotData) (s s' : S) (base : Z)
  (Hok : oracle_ok s) (Hdead : HeapTupleIsSurelyDead tup horizon s = (Ret true, s'))
  (Hnolock : has_flag (t_infomask tup) kHeapXmaxLocked = false)
  (Hother : IsCurrent s (t_xmax tup) = false) (Hbr : bracketed snapshot (t_xmax tup))
  (Hvalid : TransactionIdIsValid (s_xmin snapshot) = true)
  (Hwin : Forall (Proc.in_window base) [t_xmax tup; s_xmin horizon; s_xmin snapshot])
  (Hnotolder : TransactionIdPrecedes (s_xmin snapshot) (s_xmin horizon) = false) :
  visible_for (xid_status s) (IsCurrent s) tup snapshot = false.
Proof.
  destruct (surely_dead_run tup horizon s Hok) as (s1 & Hr & _). rewrite Hr in Hdead.
  injection Hdead as Hd _. apply andb_true_iff in Hd as [Hd Hp]. apply andb_true_iff in Hd as [Hv Hc].
  apply bool_decide_eq_true in Hc.
  apply Forall_cons in Hwin as [W1 Hwin]. apply Forall_cons in Hwin as [W2 Hwin].
  apply Forall_cons in Hwin as [W3 _].
  assert (Hlt : XidLtXmin snapshot (t_xmax tup) = true).
  { unfold XidLtXmin. rewrite Hvalid. simpl. 
    destruct W1 as (d1 & E1 & Q1), W2 as (d2 & E2 & Q2), W3 as (d3 & E3 & Q3).
    rewrite Q1, Q2, Q3 in *. rewrite precedes_near in * by lia. lia. }
  destruct (Hbr Hlt) as [Hge Hin].
  unfold visible_for. apply andb_false_iff. right. unfold deleted_for, sees.
  by rewrite Hv, Hnolock, Hother, Hge, Hin, bool_decide_eq_true_2 by done.
Qed.

(** A row lock can cost the row: the dead-row test does not look at the
    lock flag, so a row that was only locked (SELECT ... FOR UPDATE) by a
    transaction that has since committed counts as surely dead once the
    horizon has passed the locker, although the MVCC check reports the very
    same version as visible. *)
Theorem locked_row_counts_as_dead (tup : HeapTupleHeaderData) (snapshot : SnapshotData) (s : S)
  (Hok : oracle_ok s) (Hun : unhinted tup) (Hx : t_xmin tup ≠ kInvalidTransactionId)
  (Hbmin : bracketed snapshot (t_xmin tup)) (Hbmax : bracketed snapshot (t_xmax tup))
  (Hins : inserted_for (xid_status s) (IsCurrent s) tup snapshot = true)
  (Hlock : has_flag (t_infomask tup) kHeapXmaxLocked = true)
  (Hlocker : TransactionIdIsValid (t_xmax tup) = true ∧
             xid_status s (t_xmax tup) = Transam.kCommitted ∧
             TransactionIdPrecedes (t_xmax tup) (s_xmin snapshot) = true) :
  fst (HeapTupleIsSurelyDead tup snapshot s) = Ret true ∧
  ∃ tup' s', HeapTupleSatisfiesMVCC tup snapshot s = (Ret (true, tup'), s').
Proof.
  destruct Hlocker as (Hv & Hc & Hp). split.
  - destruct (surely_dead_run tup snapshot s Hok) as (s' & -> & _).
    by rewrite Hv, Hp, bool_decide_eq_true_2 by done.
  - destruct (mvcc_xmin_run tup snapshot s Hok Hun Hx Hbmin) as (o & t1 & s1 & Hr1 & Hok1 & Hs1 & Hb & Hi).
    unfold HeapTupleSatisfiesMVCC, HeapTupleHeaderGetXmax. rewrite (bind_ret_run _ _ _ _ _ Hr1).
    destruct Hi as [[-> _]|[_ Hi]]; [|congruence].
    destruct (mvcc_xmax_run tup snapshot s1 Hok1 Hun Hbmax t1 Hb) as (t2 & s2 & Hr2 & _).
    exists t2, s2. rewrite Hr2. unfold deleted_for. by rewrite Hlock, andb_false_r.
Qed.

End correctness.

(** ** Witnesses *)

(** A backend at rest: transaction 3 is committed, 4 and 5 are running. *)
Definition vis_world : world :=
  over (exec (TransactionIdCommit 3) (exec (allocate_n 3) Transam.ready_state)) initial_world.
Definition vis_snapshot : SnapshotData := mkSnapshot kMVCC 4 6 [4; 5] 0 0 false.
Definition row (xmin xmax mask : Z) : HeapTupleHeaderData := mkHeader xmin xmax 0 (mkTid 0 1) 2 mask 24.

Lemma vis_ok : oracle_ok vis_world.
Proof. intros Hn. vm_compute in Hn. discriminate Hn. Qed.

Lemma row_unhinted xmin xmax m : m = 0 ∨ m = kHeapXmaxLocked → unhinted (row xmin xmax m).
Proof.
  intros Hm n Hn. assert (n = 8 ∨ n = 9 ∨ n = 10 ∨ n = 11) as [-> |[-> |[-> | ->]]] by lia;
    destruct Hm as [-> | ->]; reflexivity.
Qed.

Lemma vis_bracketed x : x = 0 ∨ x = 3 ∨ x = 4 ∨ x = 6 → bracketed vis_snapshot x.
Proof. intros [-> |[-> |[-> | ->]]] H; vm_compute in H; try discriminate H; by vm_compute. Qed.

Lemma mvcc_decides_visibility_witness :
  ∃ tup' s', HeapTupleSatisfiesMVCC (row 3 0 0) vis_snapshot vis_world = (Ret (true, tup'), s').
Proof.
  destruct (mvcc_decides_visibility (row 3 0 0) vis_snapshot vis_world) as (tup' & s' & H & _).
  - exact vis_ok.
  - apply row_unhinted. left. reflexivity.
  - discriminate.
  - apply vis_bracketed. simpl. lia.
  - apply vis_bracketed. simpl. lia.
  - exists tup', s'. exact H.
Defined.

Lemma running_delete_is_lost_witness :
  ∃ tup' s', HeapTupleSatisfiesMVCC (row 3 4 0) vis_snapshot vis_world = (Ret (true, tup'), s') ∧
    let later := exec (zoom (TransactionIdCommit 4)) s' in
    HeapTupleSatisfiesMVCC tup' (mkSnapshot kMVCC 5 6 [5] 0 0 false) later = (Ret (true, tup'), later).
Proof.
  destruct (running_delete_is_lost (row 3 4 0) vis_snapshot vis_world) as (tup' & s' & H1 & H2).
  - exact vis_ok.
  - apply row_unhinted. left. reflexivity.
  - discriminate.
  - apply vis_bracketed. simpl. lia.
  - apply vis_bracketed. simpl. lia.
  - split; reflexivity.
  - vm_compute. reflexivity.
  - split; reflexivity.
  - split; [vm_compute; reflexivity|split; reflexivity].
  - exists tup', s'. split; [exact H1|]. apply H2.
Defined.

Lemma committed_hint_overrules_snapshot_witness :
  HeapTupleSatisfiesMVCC (HeapTupleHeaderSetXminCommitted (row 4 0 0)) vis_snapshot vis_world
  = (Ret (true, HeapTupleHeaderSetXminCommitted (row 4 0 0)), vis_world).
Proof.
  apply committed_hint_overrules_snapshot.
  - exact vis_ok.
  - apply row_unhinted. left. reflexivity.
  - reflexivity.
  - reflexivity.
  - apply vis_bracketed. simpl. lia.
  - reflexivity.
  - right. reflexivity.
Defined.

Lemma surely_dead_unseen_witness :
  visible_for (xid_status vis_world) (IsCurrent vis_world) (row 3 3 0) vis_snapshot = false.
Proof.
  destruct (surely_dead_run (row 3 3 0) vis_snapshot vis_world vis_ok) as (s' & Hr & _).
  apply (surely_dead_unseen (row 3 3 0) vis_snapshot vis_snapshot vis_world s' 3).
  - exact vis_ok.
  - rewrite Hr. reflexivity.
  - reflexivity.
  - reflexivity.
  - apply vis_bracketed. simpl. lia.
  - reflexivity.
  - repeat constructor; [exists 0|exists 1|exists 1]; (split; [lia|reflexivity]).
  - reflexivity.
Defined.

Lemma locked_row_counts_as_dead_witness :
  fst (HeapTupleIsSurelyDead (row 3 3 kHeapXmaxLocked) vis_snapshot vis_world) = Ret true.
Proof.
  apply locked_row_counts_as_dead.
  - exact vis_ok.
  - apply row_unhinted. right. reflexivity.
  - discriminate.
  - apply vis_bracketed. simpl. lia.
  - apply vis_bracketed. simpl. lia.
  - vm_compute. reflexivity.
  - reflexivity.
  - split; [reflexivity|split; [vm_compute; reflexivity|reflexivity]].
Defined.

End Visibility.
