(* ===== verification/LwLock.v ===== *)
(** * Lightweight locks

    Models src/storage/ipc/lwlock.cpp: reader/writer locks whose state is one
    atomic 32-bit word in shared memory (bit 31: held exclusively, bits 0-30:
    number of shared holders), taken by compare-and-swap, and the list of
    locks each backend holds.

    The unit of interleaving is one access to an atomic word: a call that has
    to spin is a program point ([activity]) at which other backends may run.
    The process-local bookkeeping of a call is part of its last access.  A
    weak compare-and-swap may fail although the word has the expected value. *)

From stdpp Require Import base gmap list relations.
From S2P Require Import Prelude.

Module LwLock.

Definition kExclusiveBit : Z := 0x80000000.
Definition kSharedCountMask : Z := 0x7FFFFFFF.

Inductive LWLockMode := kExclusive | kShared.
#[global] Instance LWLockMode_eq_dec : EqDecision LWLockMode.
Proof. solve_decision. Defined.

(** Locks are named by their position in the shared lock arrays. *)
Record HeldLock := mkHeld { h_lock : nat; h_mode : LWLockMode; h_count : Z }.

Fixpoint FindHeld (held : list HeldLock) (lock : nat) : option HeldLock :=
  match held with
  | [] => None
  | h :: rest => if bool_decide (h_lock h = lock) then Some h else FindHeld rest lock
  end.

(** [h->count++] through the pointer [FindHeld] returned. *)
Fixpoint bump (held : list HeldLock) (lock : nat) : list HeldLock :=
  match held with
  | [] => []
  | h :: rest => if bool_decide (h_lock h = lock) then mkHeld lock (h_mode h) (h_count h + 1) :: rest
                 else h :: bump rest lock
  end.

Definition SharedHolders (word : Z) : Z := Z.land word kSharedCountMask.
Definition ExclusiveHeld (word : Z) : bool := negb (Z.land word kExclusiveBit =? 0).

(** Where a backend is inside the lock code. *)
Inductive activity :=
| Idle
| SpinExclusive (lock : nat)
| SpinShared (lock : nat) (old_state : Z)
| TryShared (lock : nat) (old_state : Z).

Record backend := mkBackend { HeldLocks : list HeldLock; act : activity }.

(** ** The calls, up to their first shared access

    The result is [Some r] when the call returned [r]. *)

Definition LWLockAcquire (lock : nat) (mode : LWLockMode) (word : Z) (b : backend) : option bool * backend :=
  match FindHeld (HeldLocks b) lock with
  | Some h => if bool_decide (h_mode h = mode)
              then (Some true, mkBackend (bump (HeldLocks b) lock) Idle)
              else (Some false, b)
  | None => match mode with
            | kExclusive => (None, mkBackend (HeldLocks b) (SpinExclusive lock))
            | kShared => (None, mkBackend (HeldLocks b) (SpinShared lock word))
            end
  end.

Definition push_held (lock : nat) (mode : LWLockMode) (b : backend) : backend :=
  mkBackend (HeldLocks b ++ [mkHeld lock mode 1]) Idle.

(** One round of the loops; [cas_ok] says whether a compare-and-swap whose
    expected value matches succeeds (the weak form may fail spuriously).
    The first component is the new state word. *)
Definition spin_round (cas_ok : bool) (word : Z) (b : backend) : Z * option bool * backend :=
  match act b with
  | Idle => (word, None, b)
  | SpinExclusive lock =>
      if (word =? 0) && cas_ok then (kExclusiveBit, Some true, push_held lock kExclusive b)
      else (word, None, b)
  | SpinShared lock old =>
      if ExclusiveHeld old then (word, None, mkBackend (HeldLocks b) (SpinShared lock word))
      else if (word =? old) && cas_ok then (u32 (old + 1), Some true, push_held lock kShared b)
      else (word, None, mkBackend (HeldLocks b) (SpinShared lock word))
  | TryShared lock old =>
      if ExclusiveHeld old then (word, Some false, mkBackend (HeldLocks b) Idle)
      else if (word =? old) && cas_ok then (u32 (old + 1), Some true, push_held lock kShared b)
      else (word, None, mkBackend (HeldLocks b) (TryShared lock word))
  end.

Definition spin_lock (b : backend) : option nat :=
  match act b with
  | Idle => None
  | SpinExclusive l | SpinShared l _ | TryShared l _ => Some l
  end.

Definition LWLockConditionalAcquire (lock : nat) (mode : LWLockMode) (word : Z) (b : backend) :
  Z * option bool * backend :=
  match FindHeld (HeldLocks b) lock with
  | Some h => if bool_decide (h_mode h = mode)
              then (word, Some true, mkBackend (bump (HeldLocks b) lock) Idle)
              else match mode with
                   | kExclusive => if word =? 0 then (kExclusiveBit, Some true, push_held lock kExclusive b)
                                   else (word, Some false, b)
                   | kShared => (word, None, mkBackend (HeldLocks b) (TryShared lock word))
                   end
  | None => match mode with
            | kExclusive => if word =? 0 then (kExclusiveBit, Some true, push_held lock kExclusive b)
                            else (word, Some false, b)
            | kShared => (word, None, mkBackend (HeldLocks b) (TryShared lock word))
            end
  end.

(** The loop of [LWLockRelease]: the remaining entries, and the mode the lock
    was given up in when its count reached zero. *)
Fixpoint release_held (held : list HeldLock) (lock : nat) : list HeldLock * option LWLockMode :=
  match held with
  | [] => ([], None)
  | h :: rest =>
      if bool_decide (h_lock h = lock) then
        if 0 <? h_count h - 1 then (mkHeld lock (h_mode h) (h_count h - 1) :: rest, None)
        else (rest, Some (h_mode h))
      else let '(rest', m) := release_held rest lock in (h :: rest', m)
  end.

Definition LWLockRelease (lock : nat) (word : Z) (b : backend) : Z * backend :=
  let '(held', m) := release_held (HeldLocks b) lock in
  (match m with
   | Some kExclusive => Z.land word kSharedCountMask
   | Some kShared => u32 (word - 1)
   | None => word
   end, mkBackend held' (act b)).

Definition LWLockHeldByMe (lock : nat) (b : backend) : bool :=
  bool_decide (is_Some (FindHeld (HeldLocks b) lock)).
Definition LWLockHeldByMeInMode (lock : nat) (mode : LWLockMode) (b : backend) : bool :=
  match FindHeld (HeldLocks b) lock with Some h => bool_decide (h_mode h = mode) | None => false end.

Definition NumHeldLWLocks (b : backend) : Z := foldr (λ h n, h_count h + n) 0 (HeldLocks b).

(** ** The system: the lock words and the backends *)

Record system := mkSystem { words : gmap nat Z; backends : list backend }.

Definition word_of (s : system) (lock : nat) : Z := default 0 (words s !! lock).

Definition put (s : system) (lock : nat) (w : Z) (i : nat) (b : backend) : system :=
  mkSystem (<[lock := w]> (words s)) (<[i := b]> (backends s)).

Inductive step : system → system → Prop :=
| step_acquire s i b lock mode r b' :
    backends s !! i = Some b → act b = Idle →
    LWLockAcquire lock mode (word_of s lock) b = (r, b') →
    step s (put s lock (word_of s lock) i b')
| step_conditional s i b lock mode w r b' :
    backends s !! i = Some b → act b = Idle →
    LWLockConditionalAcquire lock mode (word_of s lock) b = (w, r, b') →
    step s (put s lock w i b')
| step_spin s i b lock cas_ok w r b' :
    backends s !! i = Some b → spin_lock b = Some lock →
    spin_round cas_ok (word_of s lock) b = (w, r, b') →
    step s (put s lock w i b')
| step_release s i b lock w b' :
    backends s !! i = Some b → act b = Idle →
    LWLockRelease lock (word_of s lock) b = (w, b') →
    step s (put s lock w i b').

(** [n] backends that hold nothing, all locks free. *)
Definition start (n : nat) : system := mkSystem ∅ (replicate n (mkBackend [] Idle)).

(** ** The invariant *)

Definition mode_of (b : backend) (lock : nat) : option LWLockMode := h_mode <$> FindHeld (HeldLocks b) lock.

Definition held_wf (held : list HeldLock) : Prop :=
  NoDup (h_lock <$> held) ∧ Forall (λ h, 0 < h_count h) held.

Definition spin_ok (b : backend) : Prop :=
  match act b with
  | Idle => True
  | SpinExclusive l | SpinShared l _ => mode_of b l = None
  | TryShared l old => mode_of b l = None ∨ ExclusiveHeld old = true
  end.

Definition backend_ok (b : backend) : Prop := held_wf (HeldLocks b) ∧ spin_ok b.

(** The number of backends that hold [lock] in [mode]. *)
Definition holders (s : system) (lock : nat) (mode : LWLockMode) : nat :=
  length (base.filter (λ b, mode_of b lock = Some mode) (backends s)).

(** The word of a lock says who holds it. *)
Definition word_ok (w : Z) (exclusive shared : nat) : Prop :=
  (exclusive = 1 ∧ shared = 0)%nat ∧ w = kExclusiveBit ∨ exclusive = 0%nat ∧ w = Z.of_nat shared.

Record lock_inv (s : system) : Prop := {
  inv_backends : Forall backend_ok (backends s);
  inv_count : Z.of_nat (length (backends s)) < 2 ^ 31;
  inv_words : ∀ l, word_ok (word_of s l) (holders s l kExclusive) (holders s l kShared)
}.

(** ** The held-lock list *)

Lemma find_bump held lock l : h_mode <$> FindHeld (bump held lock) l = h_mode <$> FindHeld held l.
Proof.
  induction held as [|h rest IH]; [done|]. simpl. repeat case_bool_decide; simpl; try done;
    repeat case_bool_decide; simpl in *; congruence.
Qed.

Lemma bump_locks held lock : h_lock <$> bump held lock = h_lock <$> held.
Proof. induction held as [|h rest IH]; [done|]. simpl. case_bool_decide; csimpl; congruence. Qed.

Lemma bump_wf held lock : held_wf held → held_wf (bump held lock).
Proof.
  intros [Hn Hc]. split; [by rewrite bump_locks|]. clear Hn.
  induction Hc as [|h rest Hh Hc IH]; [constructor|]. simpl. case_bool_decide; constructor; simpl; auto. lia.
Qed.

Lemma find_none held lock : FindHeld held lock = None ↔ lock ∉ h_lock <$> held.
Proof.
  induction held as [|h rest IH]; csimpl; [set_solver|]. case_bool_decide; [set_solver|]. set_solver.
Qed.

Lemma find_push held lock mode l :
  FindHeld held lock = None →
  h_mode <$> FindHeld (held ++ [mkHeld lock mode 1]) l =
    if decide (l = lock) then Some mode else h_mode <$> FindHeld held l.
Proof.
  intros Hn. induction held as [|h rest IH]; simpl in *.
  - repeat case_bool_decide; case_decide; simpl; congruence.
  - destruct (decide (h_lock h = lock)) as [E|E].
    + by rewrite bool_decide_eq_true_2 in Hn.
    + rewrite bool_decide_eq_false_2 in Hn by done. case_bool_decide; [|by apply IH].
      by rewrite decide_False by congruence.
Qed.

Lemma push_wf held lock mode : FindHeld held lock = None → held_wf held → held_wf (held ++ [mkHeld lock mode 1]).
Proof.
  intros Hn [Hd Hc]. split.
  - rewrite fmap_app. apply NoDup_app. split_and!; [done| |by apply NoDup_singleton].
    apply find_none in Hn. intros x Hx Hs. csimpl in Hs. set_solver.
  - apply Forall_app. split; [done|]. by repeat constructor.
Qed.

Lemma release_spec held lock held' m :
  held_wf held → release_held held lock = (held', m) →
  held_wf held' ∧ (∀ l, l ∈ h_lock <$> held' → l ∈ h_lock <$> held) ∧
  match m with
  | None => ∀ l, h_mode <$> FindHeld held' l = h_mode <$> FindHeld held l
  | Some mode => h_mode <$> FindHeld held lock = Some mode ∧
                 ∀ l, h_mode <$> FindHeld held' l = if decide (l = lock) then None else h_mode <$> FindHeld held l
  end.
Proof.
  revert held' m. induction held as [|h rest IH]; intros held' m [Hn Hc] Hr; simpl in Hr.
  { simplify_eq. done. }
  csimpl in Hn. apply NoDup_cons in Hn as [Hh Hn]. apply Forall_cons in Hc as [Hch Hc].
  case_bool_decide as Hl.
  - destruct (0 <? h_count h - 1) eqn:Eq; simplify_eq; to_prop.
    + split; [split; [csimpl; by constructor|constructor; [simpl; lia|done]]|].
      split; [set_solver|]. intros l. simpl. by case_bool_decide.
    + split; [done|]. split; [set_solver|]. simpl. rewrite bool_decide_eq_true_2 by done. split; [done|].
      intros l. case_decide as E; [subst; by rewrite (proj2 (find_none _ _) Hh)|].
      by rewrite bool_decide_eq_false_2 by done.
  - destruct (release_held rest lock) as [rest' m'] eqn:Er. simplify_eq.
    destruct (IH _ _ (conj Hn Hc) eq_refl) as ([Hn' Hc'] & Hsub & Hm).
    split; [split; [csimpl; constructor; [set_solver|done]|by constructor]|]. split; [set_solver|].
    destruct m as [mode|]; simpl.
    + destruct Hm as [Hm1 Hm2]. rewrite bool_decide_eq_false_2 by done. split; [done|].
      intros l. case_bool_decide; [|apply Hm2]. by rewrite decide_False by congruence.
    + intros l. case_bool_decide; [done|apply Hm].
Qed.

(** ** One step *)

(** How a backend's hold on a lock and the lock's word may change together. *)
Inductive word_change (w : Z) : option LWLockMode → Z → option LWLockMode → Prop :=
| change_none m : word_change w m w m
| change_exclusive : w = 0 → word_change w None kExclusiveBit (Some kExclusive)
| change_shared : ExclusiveHeld w = false → word_change w None (u32 (w + 1)) (Some kShared)
| change_unexclusive : word_change w (Some kExclusive) (Z.land w kSharedCountMask) None
| change_unshared : word_change w (Some kShared) (u32 (w - 1)) None.

Lemma holders_put s lock w i b b' l m :
  backends s !! i = Some b →
  (holders (put s lock w i b') l m + (if decide (mode_of b l = Some m) then 1 else 0)
   = holders s l m + (if decide (mode_of b' l = Some m) then 1 else 0))%nat.
Proof. intros Hi. exact (filter_insert_length (λ b, mode_of b l = Some m) _ i b b' Hi). Qed.

Lemma word_ok_change w m w' m' e sh e' sh' :
  word_ok w e sh → word_change w m w' m' → Z.of_nat sh < 2 ^ 31 → Z.of_nat sh' < 2 ^ 31 →
  (e' + (if decide (m = Some kExclusive) then 1 else 0)
   = e + (if decide (m' = Some kExclusive) then 1 else 0))%nat →
  (sh' + (if decide (m = Some kShared) then 1 else 0)
   = sh + (if decide (m' = Some kShared) then 1 else 0))%nat →
  word_ok w' e' sh'.
Proof.
  unfold word_ok, kExclusiveBit, u32. intros Hw Hch Hsh Hsh'.
  inversion Hch as [m0|Hz|Hx| |]; subst; clear Hch.
  { repeat case_decide; lia. }
  all: repeat (case_decide; try congruence; []); intros He Hs.
  - destruct Hw as [[[-> ->] E]|[-> E]]; [unfold kExclusiveBit in E; lia|]. left. split; [lia|done].
  - destruct Hw as [[_ ->]|[-> ->]]; [by unfold ExclusiveHeld, kExclusiveBit in Hx; simpl in Hx|].
    right. split; [lia|]. unfold u32. rewrite Z.mod_small; lia.
  - destruct Hw as [[[-> ->] ->]|[-> _]]; [|lia]. right. split; [lia|].
    replace sh' with 0%nat by lia. reflexivity.
  - destruct Hw as [[[-> ->] _]|[-> ->]]; [lia|]. right. split; [lia|]. unfold u32. rewrite Z.mod_small; lia.
Qed.

Lemma inv_put s lock w i b b' :
  lock_inv s → backends s !! i = Some b → backend_ok b' →
  (∀ l, l ≠ lock → mode_of b' l = mode_of b l) →
  word_change (word_of s lock) (mode_of b lock) w (mode_of b' lock) →
  lock_inv (put s lock w i b').
Proof.
  intros [Hb Hc Hw] Hi Hok Hother Hch. split.
  - by apply Forall_insert.
  - simpl. by rewrite length_insert.
  - intros l. pose proof (holders_put s lock w i b b' l kExclusive Hi) as He.
    pose proof (holders_put s lock w i b b' l kShared Hi) as Hs. specialize (Hw l).
    assert (Hle : (holders s l kShared ≤ length (backends s))%nat) by apply length_filter.
    assert (Hle' : (holders (put s lock w i b') l kShared ≤ length (backends s))%nat).
    { unfold holders. etrans; [apply length_filter|]. simpl. by rewrite length_insert. }
    assert (Hword : word_of (put s lock w i b') l = if decide (lock = l) then w else word_of s l).
    { unfold word_of. simpl. rewrite lookup_insert. destruct (decide (lock = l)); done. }
    rewrite Hword. case_decide as E; [subst l|].
    + eapply word_ok_change; [exact Hw|exact Hch|lia|lia|exact He|exact Hs].
    + rewrite Hother in He, Hs by done. eapply word_ok_change; [exact Hw|apply change_none|lia|lia|exact He|exact Hs].
Qed.

(** A step that leaves every hold and every word as it was. *)
Lemma inv_put_local s lock i b b' :
  lock_inv s → backends s !! i = Some b → backend_ok b' →
  (∀ l, mode_of b' l = mode_of b l) → lock_inv (put s lock (word_of s lock) i b').
Proof.
  intros Hinv Hi Hok Hm. eapply inv_put; [done|exact Hi|done|auto|]. rewrite Hm. constructor.
Qed.

Lemma push_held_ok lock mode b :
  held_wf (HeldLocks b) → mode_of b lock = None →
  backend_ok (push_held lock mode b) ∧
  (∀ l, mode_of (push_held lock mode b) l = if decide (l = lock) then Some mode else mode_of b l).
Proof.
  intros Hwf Hn. assert (Hf : FindHeld (HeldLocks b) lock = None).
  { unfold mode_of in Hn. by destruct (FindHeld _ _). }
  split; [split; [by apply push_wf|done]|]. intros l. by apply find_push.
Qed.

(** Taking a free hold with a word change the lock allows. *)
Lemma inv_take s lock w i b mode :
  lock_inv s → backends s !! i = Some b → held_wf (HeldLocks b) → mode_of b lock = None →
  word_change (word_of s lock) None w (Some mode) → lock_inv (put s lock w i (push_held lock mode b)).
Proof.
  intros Hinv Hi Hwf Hn Hch. destruct (push_held_ok lock mode b Hwf Hn) as [Hok Hm].
  eapply inv_put; [done|exact Hi|done| |].
  - intros l Hl. by rewrite Hm, decide_False.
  - by rewrite Hm, decide_True, Hn.
Qed.

Lemma spin_inv s i b lock cas_ok w r b' :
  lock_inv s → backends s !! i = Some b → spin_lock b = Some lock →
  spin_round cas_ok (word_of s lock) b = (w, r, b') → lock_inv (put s lock w i b').
Proof.
  intros Hinv Hi Hl Hr. pose proof (inv_backends s Hinv) as Hall.
  assert (Hb : backend_ok b) by (rewrite Forall_lookup in Hall; by eapply Hall).
  destruct Hb as [Hwf Hspin]. unfold spin_round, spin_lock, spin_ok in *.
  assert (Hsame : ∀ a, backend_ok (mkBackend (HeldLocks b) a) → lock_inv (put s lock (word_of s lock) i (mkBackend (HeldLocks b) a))).
  { intros a Ha. by eapply inv_put_local. }
  destruct (act b) as [|l|l old|l old] eqn:Ea; simplify_eq.
  - destruct (_ && _) eqn:E; simplify_eq; to_prop.
    + apply inv_take; [done|done|done|done|by constructor].
    + destruct b' as [hb ab]. simpl in *. subst ab. by apply Hsame.
  - destruct (ExclusiveHeld old) eqn:Ex; [simplify_eq; by apply Hsame|].
    destruct (_ && _) eqn:E; simplify_eq; to_prop; [|by apply Hsame].
    subst old. apply inv_take; [done|done|done|done|by constructor].
  - destruct (ExclusiveHeld old) eqn:Ex; [simplify_eq; by apply Hsame|].
    destruct Hspin as [Hspin|?]; [|done].
    destruct (_ && _) eqn:E; simplify_eq; to_prop; [|apply Hsame; split; [done|by left]].
    subst old. apply inv_take; [done|done|done|done|by constructor].
Qed.

Lemma mode_some b lock h : FindHeld (HeldLocks b) lock = Some h → mode_of b lock = Some (h_mode h).
Proof. unfold mode_of. by intros ->. Qed.
Lemma mode_none b lock : FindHeld (HeldLocks b) lock = None → mode_of b lock = None.
Proof. unfold mode_of. by intros ->. Qed.

Lemma holders_pos s i b lock m :
  backends s !! i = Some b → mode_of b lock = Some m → (1 ≤ holders s lock m)%nat.
Proof.
  intros Hi Hm. unfold holders.
  assert (Hin : b ∈ base.filter (λ b, mode_of b lock = Some m) (backends s)).
  { apply list_elem_of_filter. split; [done|by eapply list_elem_of_lookup_2]. }
  destruct (base.filter _ _); [by apply not_elem_of_nil in Hin|simpl; lia].
Qed.

(** Some backend holds the lock, so its word is not zero. *)
Lemma held_word s i b lock m :
  lock_inv s → backends s !! i = Some b → mode_of b lock = Some m →
  match m with kExclusive => word_of s lock = kExclusiveBit | kShared => 0 < word_of s lock end.
Proof.
  intros Hinv Hi Hm. pose proof (inv_words s Hinv lock) as Hw.
  pose proof (holders_pos s i b lock m Hi Hm) as Hpos.
  unfold word_ok in Hw. destruct m; lia.
Qed.

Lemma step_inv s s' : step s s' → lock_inv s → lock_inv s'.
Proof.
  intros Hstep Hinv. pose proof (inv_backends s Hinv) as Hall. rewrite Forall_lookup in Hall.
  destruct Hstep as [s i b lock mode r b' Hi Hidle Hr|s i b lock mode w r b' Hi Hidle Hr
                    |s i b lock ok w r b' Hi Hl Hr|s i b lock w b' Hi Hidle Hr];
    destruct (Hall i b Hi) as [Hwf Hsp].
  - unfold LWLockAcquire in Hr. destruct (FindHeld _ lock) as [h|] eqn:Ef.
    + case_bool_decide; simplify_eq.
      * eapply inv_put_local; [done|exact Hi|split; [by apply bump_wf|done]|]. intros l. apply find_bump.
      * by eapply inv_put_local.
    + destruct mode; simplify_eq; (eapply inv_put_local; [done|exact Hi|split; [done|by apply mode_none]|done]).
  - assert (Hlocal : ∀ b2, backend_ok b2 → (∀ l, mode_of b2 l = mode_of b l) →
                     lock_inv (put s lock (word_of s lock) i b2)) by (intros; by eapply inv_put_local).
    unfold LWLockConditionalAcquire in Hr. destruct (FindHeld _ lock) as [h|] eqn:Ef.
    + pose proof (held_word s i b lock _ Hinv Hi (mode_some _ _ _ Ef)) as Hword.
      case_bool_decide; simplify_eq.
      * apply Hlocal; [split; [by apply bump_wf|done]|]. intros l. apply find_bump.
      * destruct mode; simplify_eq.
        -- destruct (word_of s lock =? 0) eqn:E; simplify_eq; to_prop; [|by apply Hlocal].
           destruct (h_mode h); [by rewrite Hword in E|lia].
        -- apply Hlocal; [split; [done|right]|done].
           destruct (h_mode h); [|congruence]. by rewrite Hword.
    + apply mode_none in Ef. destruct mode.
      * destruct (word_of s lock =? 0) eqn:E; simplify_eq; to_prop; [|by apply Hlocal].
        apply inv_take; [done|done|done|done|by constructor].
      * simplify_eq. apply Hlocal; [split; [done|by left]|done].
  - by eapply spin_inv.
  - unfold LWLockRelease in Hr. destruct (release_held (HeldLocks b) lock) as [held' m] eqn:Er. simplify_eq.
    destruct (release_spec _ _ _ _ Hwf Er) as (Hwf' & _ & Hm).
    assert (Hok : backend_ok (mkBackend held' (act b))) by (split; [done|unfold spin_ok; simpl; by rewrite Hidle]).
    destruct m as [m|]; [destruct Hm as [Hm1 Hm2]|by eapply inv_put_local].
    eapply inv_put; [done|exact Hi|done| |].
    + intros l Hl. unfold mode_of. simpl. by rewrite Hm2, decide_False.
    + unfold mode_of. simpl. rewrite Hm2, decide_True, Hm1 by done. destruct m; constructor.
Qed.

Lemma start_inv n : Z.of_nat n < 2 ^ 31 → lock_inv (start n).
Proof.
  intros Hn. split; simpl.
  - apply Forall_replicate. split; [split; constructor|done].
  - by rewrite length_replicate.
  - intros l. right. assert (Hz : ∀ m, holders (start n) l m = 0%nat).
    { intros m. unfold holders. clear Hn. induction n as [|n IH]; [done|]. simpl in *.
      rewrite filter_cons_False by done. apply IH. }
    rewrite !Hz. done.
Qed.

(** Two entries of a list that both satisfy [P] make its filter longer than one. *)
Lemma two_holders s lock m i j b c :
  backends s !! i = Some b → backends s !! j = Some c → i ≠ j →
  mode_of b lock = Some m → mode_of c lock = Some m → (2 ≤ holders s lock m)%nat.
Proof.
  intros Hi Hj Hne Hb Hc. unfold holders.
  pose proof (filter_insert_length (λ b, mode_of b lock = Some m) (backends s) i b (mkBackend [] Idle) Hi) as H1.
  assert (Hj' : <[i:=mkBackend [] Idle]> (backends s) !! j = Some c) by (by rewrite list_lookup_insert_ne).
  pose proof (filter_insert_length (λ b, mode_of b lock = Some m) _ j c (mkBackend [] Idle) Hj') as H2.
  cbv beta in H1, H2. assert (He : mode_of (mkBackend [] Idle) lock ≠ Some m) by done.
  rewrite (decide_True _ _ Hb), (decide_False _ _ He) in H1.
  rewrite (decide_True _ _ Hc), (decide_False _ _ He) in H2. lia.
Qed.

(** C32: Mutual exclusion: whatever the backends do and however their accesses
    to the lock word interleave, when one backend holds a lock exclusively no
    other backend holds it in any mode, and the word tells so: it is the
    exclusive bit, or the number of shared holders. *)
Theorem lwlock_mutual_exclusion (n : nat) (s : system) (i j lock : nat) (b c : backend)
  (Hn : Z.of_nat n < 2 ^ 31) (Hreach : rtc step (start n) s)
  (Hi : backends s !! i = Some b) (Hj : backends s !! j = Some c)
  (Hx : LWLockHeldByMeInMode lock kExclusive b = true) :
  (LWLockHeldByMe lock c = true → j = i) ∧
  ExclusiveHeld (word_of s lock) = true ∧ SharedHolders (word_of s lock) = 0 ∧
  ∀ l, ExclusiveHeld (word_of s l) = false →
       SharedHolders (word_of s l) = Z.of_nat (holders s l kShared).
Proof.
  assert (Hinv : lock_inv s).
  { pose proof (start_inv n Hn) as H0. clear -Hreach H0.
    induction Hreach as [|s0 s1 s Hs _ IH]; [done|]. by apply IH, (step_inv s0). }
  assert (Hb : mode_of b lock = Some kExclusive).
  { unfold LWLockHeldByMeInMode, mode_of in *. destruct (FindHeld _ _) as [h|]; [|done]. simpl. to_prop. congruence. }
  pose proof (held_word s i b lock kExclusive Hinv Hi Hb) as Hw. rewrite Hw.
  pose proof (inv_words s Hinv lock) as Hwok. unfold word_ok in Hwok. rewrite Hw in Hwok.
  assert (Hle : (holders s lock kShared ≤ length (backends s))%nat) by apply length_filter.
  pose proof (inv_count s Hinv) as Hc. unfold kExclusiveBit in Hwok.
  split_and!; [|done|done|].
  - intros Hheld. destruct (decide (j = i)) as [|Hne]; [done|exfalso].
    unfold LWLockHeldByMe in Hheld. to_prop. destruct Hheld as [h Hh]. apply mode_some in Hh.
    destruct (h_mode h).
    + pose proof (two_holders s lock kExclusive i j b c Hi Hj ltac:(done) Hb Hh). lia.
    + pose proof (held_word s j c lock kShared Hinv Hj Hh) as Hpos.
      pose proof (holders_pos s j c lock kShared Hj Hh). lia.
  - intros l Hl. pose proof (inv_words s Hinv l) as [[_ E]|[_ E]]; rewrite E in *; [done|].
    assert (Hle' : (holders s l kShared ≤ length (backends s))%nat) by apply length_filter.
    unfold SharedHolders, kSharedCountMask. change 2147483647 with (Z.ones 31).
    rewrite Z.land_ones, Z.mod_small by lia. done.
Qed.

(** A backend that takes lock 7 exclusively while another spins on it. *)
Definition taken : system :=
  let s0 := start 2 in
  let s1 := put s0 7 0 0 (mkBackend [] (SpinExclusive 7)) in
  let s2 := put s1 7 kExclusiveBit 0 (push_held 7 kExclusive (mkBackend [] (SpinExclusive 7))) in
  put s2 7 kExclusiveBit 1 (mkBackend [] (SpinShared 7 kExclusiveBit)).

Lemma taken_reachable : rtc step (start 2) taken.
Proof.
  eapply rtc_l; [eapply (step_acquire (start 2) 0 _ 7 kExclusive); reflexivity|].
  eapply rtc_l; [eapply (step_spin _ 0 _ 7 true); reflexivity|].
  eapply rtc_l; [eapply (step_acquire _ 1 _ 7 kShared); reflexivity|]. apply rtc_refl.
Qed.

Lemma lwlock_mutual_exclusion_witness :
  ExclusiveHeld (word_of taken 7) = true ∧ (LWLockHeldByMe 7 (mkBackend [] (SpinShared 7 kExclusiveBit)) = true → 1%nat = 0%nat).
Proof.
  destruct (lwlock_mutual_exclusion 2 taken 0 1 7 (mkBackend [mkHeld 7 kExclusive 1] Idle)
              (mkBackend [] (SpinShared 7 kExclusiveBit))) as (H1 & H2 & _).
  - lia.
  - exact taken_reachable.
  - reflexivity.
  - reflexivity.
  - reflexivity.
  - split; [exact H2|exact H1].
Defined.

Lemma release_pushed held lock mode :
  FindHeld held lock = None → release_held (held ++ [mkHeld lock mode 1]) lock = (held, Some mode).
Proof.
  induction held as [|h rest IH]; simpl; [by rewrite bool_decide_eq_true_2|].
  case_bool_decide; [done|]. intros Hn. by rewrite IH.
Qed.

(** [k] recursive acquisitions of a lock already held in that mode. *)
Fixpoint acquire_again (k : nat) (lock : nat) (mode : LWLockMode) (w : Z) (b : backend) : backend :=
  match k with O => b | S k' => acquire_again k' lock mode w (snd (LWLockAcquire lock mode w b)) end.
Fixpoint release_n (k : nat) (lock : nat) (w : Z) (b : backend) : Z * backend :=
  match k with O => (w, b) | S k' => let '(w1, b1) := LWLockRelease lock w b in release_n k' lock w1 b1 end.

Lemma bump_pushed held lock mode c :
  FindHeld held lock = None → bump (held ++ [mkHeld lock mode c]) lock = held ++ [mkHeld lock mode (c + 1)].
Proof.
  induction held as [|h rest IH]; simpl; [by rewrite bool_decide_eq_true_2|].
  case_bool_decide; [done|]. intros Hn. by rewrite IH.
Qed.

Lemma find_pushed held lock mode c :
  FindHeld held lock = None → FindHeld (held ++ [mkHeld lock mode c]) lock = Some (mkHeld lock mode c).
Proof.
  induction held as [|h rest IH]; simpl; [by rewrite bool_decide_eq_true_2|].
  case_bool_decide; [done|]. intros Hn. by rewrite IH.
Qed.

Lemma acquire_again_spec k lock mode w held c :
  FindHeld held lock = None →
  acquire_again k lock mode w (mkBackend (held ++ [mkHeld lock mode c]) Idle)
  = mkBackend (held ++ [mkHeld lock mode (c + Z.of_nat k)]) Idle.
Proof.
  intros Hn. revert c. induction k as [|k IH]; intros c; [by rewrite Z.add_0_r|].
  cbn [acquire_again]. unfold LWLockAcquire. cbn [HeldLocks]. rewrite find_pushed by done.
  cbn [h_mode]. rewrite bool_decide_eq_true_2, bump_pushed by done. cbn [snd]. rewrite IH.
  by replace (c + 1 + Z.of_nat k) with (c + Z.of_nat (S k)) by lia.
Qed.

Lemma release_decrements held lock mode c :
  FindHeld held lock = None → 1 < c →
  release_held (held ++ [mkHeld lock mode c]) lock = (held ++ [mkHeld lock mode (c - 1)], None).
Proof.
  intros Hn Hc. induction held as [|h rest IH]; simpl in *.
  - rewrite bool_decide_eq_true_2 by done. by rewrite (proj2 (Z.ltb_lt _ _)) by lia.
  - case_bool_decide; [done|]. by rewrite IH.
Qed.

(** An undisturbed acquisition succeeds at its first compare-and-swap, in
    shared mode also while others share the lock; re-acquiring it any number
    of times only counts, and the matching number of releases gives the lock
    back: the word and the list of held locks are what they were. *)
Theorem acquire_release_roundtrip (lock : nat) (mode : LWLockMode) (w : Z) (b : backend) (k : nat)
  (Hfree : FindHeld (HeldLocks b) lock = None) (Hidle : act b = Idle)
  (Hw : mode = kExclusive ∧ w = 0 ∨ mode = kShared ∧ 0 ≤ w < 2 ^ 31 - 1) :
  ∃ b1 w1 b2, LWLockAcquire lock mode w b = (None, b1) ∧
    spin_round true w b1 = (w1, Some true, b2) ∧
    LWLockHeldByMeInMode lock mode b2 = true ∧
    release_n (S k) lock w1 (acquire_again k lock mode w1 b2) = (w, b).
Proof.
  set (w1 := match mode with kExclusive => kExclusiveBit | kShared => u32 (w + 1) end).
  exists (snd (LWLockAcquire lock mode w b)), w1, (push_held lock mode b).
  assert (Hacq : spin_round true w (snd (LWLockAcquire lock mode w b)) = (w1, Some true, push_held lock mode b)).
  { unfold LWLockAcquire. rewrite Hfree. destruct Hw as [[-> ->]|[-> Hw]]; [done|]. simpl. unfold spin_round. simpl.
    assert (Hx : ExclusiveHeld w = false).
    { unfold ExclusiveHeld, kExclusiveBit. change 2147483648 with (2 ^ 31).
      rewrite negb_false_iff, Z.eqb_eq. apply Z.bits_inj'. intros n Hn. rewrite Z.land_spec, Z.bits_0.
      destruct (decide (n = 31)) as [->|]; [|rewrite Z.pow2_bits_false by lia; apply andb_false_r].
      rewrite (Z.bits_above_log2 w 31); [done|lia|]. destruct (decide (w = 0)) as [->|]; [done|].
      apply Z.log2_lt_pow2; lia. }
    rewrite Hx, Z.eqb_refl. done. }
  split_and!.
  - unfold LWLockAcquire. rewrite Hfree. by destruct mode.
  - done.
  - unfold LWLockHeldByMeInMode, push_held. simpl. rewrite find_pushed by done. by rewrite bool_decide_eq_true_2.
  - unfold push_held. rewrite acquire_again_spec by done.
    assert (Hlast : LWLockRelease lock w1 (mkBackend (HeldLocks b ++ [mkHeld lock mode 1]) Idle) = (w, b)).
    { unfold LWLockRelease. simpl. rewrite release_pushed by done. subst w1. destruct b as [h a]. simpl in *. subst a.
      f_equal. destruct Hw as [[-> ->]|[-> Hw]]; [done|]. unfold u32. rewrite (Z.mod_small (w + 1)) by lia.
      rewrite Z.mod_small; lia. }
    clear Hacq. induction k as [|k IH].
    { change (1 + Z.of_nat 0) with 1. cbn [release_n]. by rewrite Hlast. }
    cbn [release_n] in *. unfold LWLockRelease at 1. cbn [HeldLocks act].
    rewrite release_decrements by (done || lia).
    replace (1 + Z.of_nat (S k) - 1) with (1 + Z.of_nat k) by lia. exact IH.
Qed.

Lemma acquire_release_roundtrip_witness :
  ∃ b1 w1 b2, LWLockAcquire 3 kShared 5 (mkBackend [mkHeld 9 kExclusive 2] Idle) = (None, b1) ∧
    spin_round true 5 b1 = (w1, Some true, b2) ∧
    release_n 4 3 w1 (acquire_again 3 3 kShared w1 b2) = (5, mkBackend [mkHeld 9 kExclusive 2] Idle).
Proof.
  destruct (acquire_release_roundtrip 3 kShared 5 (mkBackend [mkHeld 9 kExclusive 2] Idle) 3)
    as (b1 & w1 & b2 & H1 & H2 & _ & H4).
  - reflexivity.
  - reflexivity.
  - right. split; [reflexivity|lia].
  - exists b1, w1, b2. split; [exact H1|]. split; [exact H2|exact H4].
Defined.

End LwLock.
