(* ===== verification/BufPage.v ===== *)
(** * Slotted pages

    Models src/storage/buffer/bufpage.cpp and include/storage/bufpage.hpp: the
    page header, the line pointer array that grows upwards behind it, and the
    tuple data that grows downwards from the special area.

    A page is its header fields, its line pointer slots and its bytes.  Bytes
    and slots are functions of their position, so that what lies between
    [pd_lower] and [pd_upper], and the slots behind [pd_lower], keep whatever
    was there, as the memory of the page does; that slots and tuple bytes never
    share memory is the part [pd_lower <= pd_upper] of the invariant. *)

From Stdlib Require Import Sorting.Sorted.
From stdpp Require Import base list numbers strings sets.
From S2P Require Import Prelude.

Module BufPage.

Definition kBlckSz : Z := 8192.
Definition kInvalidOffsetNumber : Z := 0.
Definition kPageHeaderSize : Z := 24.
Definition kPageLayoutVersion : Z := 4.
Definition kPageSizeVersion : Z := Z.lor (u16 kBlckSz) kPageLayoutVersion.
Definition kLPUnused : Z := 0.
Definition kLPNormal : Z := 1.
Definition kLPRedirect : Z := 2.
Definition kLPDead : Z := 3.
Definition kPageHasFreeLines : Z := 0x0001.
Definition kItemIdSize : Z := 4.   (* sizeof(ItemIdData) *)
Definition kItemAlign : Z := kItemIdSize.

Record ItemIdData := mkItemId { li_off : Z; li_flags : Z; li_len : Z }.

Record Page := mkPage {
  pd_lsn : Z;
  pd_checksum : Z;
  pd_flags : Z;
  pd_lower : Z;
  pd_upper : Z;
  pd_special : Z;
  pd_pagesize_version : Z;
  pd_prune_xid : Z;
  linp : Z → ItemIdData;        (* by offset number, from 1 *)
  bytes : Z → Z                 (* by position in the page *)
}.

(** ** Access to memory *)

Definition memmove (dst src len : Z) (m : Z → Z) : Z → Z :=
  λ k, if (dst <=? k) && (k <? dst + len) then m (src + (k - dst)) else m k.

(** [memcpy] from a buffer outside the page. *)
Definition memcpy_in (dst : Z) (item : list Z) (m : Z → Z) : Z → Z :=
  λ k, if (dst <=? k) && (k <? dst + Z.of_nat (length item))
       then default 0 (item !! Z.to_nat (k - dst)) else m k.

Definition read (m : Z → Z) (off len : Z) : list Z := m <$> seqZ off len.

Definition set_linp (n : Z) (id : ItemIdData) (l : Z → ItemIdData) : Z → ItemIdData :=
  λ k, if k =? n then id else l k.

Definition with_lower (v : Z) (p : Page) : Page :=
  mkPage (pd_lsn p) (pd_checksum p) (pd_flags p) v (pd_upper p) (pd_special p)
         (pd_pagesize_version p) (pd_prune_xid p) (linp p) (bytes p).
Definition with_upper (v : Z) (p : Page) : Page :=
  mkPage (pd_lsn p) (pd_checksum p) (pd_flags p) (pd_lower p) v (pd_special p)
         (pd_pagesize_version p) (pd_prune_xid p) (linp p) (bytes p).
Definition with_flags (v : Z) (p : Page) : Page :=
  mkPage (pd_lsn p) (pd_checksum p) v (pd_lower p) (pd_upper p) (pd_special p)
         (pd_pagesize_version p) (pd_prune_xid p) (linp p) (bytes p).
Definition with_linp (v : Z → ItemIdData) (p : Page) : Page :=
  mkPage (pd_lsn p) (pd_checksum p) (pd_flags p) (pd_lower p) (pd_upper p) (pd_special p)
         (pd_pagesize_version p) (pd_prune_xid p) v (bytes p).
Definition with_bytes (v : Z → Z) (p : Page) : Page :=
  mkPage (pd_lsn p) (pd_checksum p) (pd_flags p) (pd_lower p) (pd_upper p) (pd_special p)
         (pd_pagesize_version p) (pd_prune_xid p) (linp p) v.

(** [li_off] and [li_len] are 15-bit fields. *)
Definition u15 (z : Z) : Z := z `mod` 2 ^ 15.

(** ** Accessors *)

Definition PageGetItemId (p : Page) (n : Z) : ItemIdData := linp p n.
Definition PageGetMaxOffsetNumber (p : Page) : Z := u16 ((pd_lower p - kPageHeaderSize) / kItemIdSize).
Definition PageGetPageSize (p : Page) : Z :=
  Z.land (pd_pagesize_version p) (u16 (Z.lnot kPageLayoutVersion)).
Definition PageGetItem (p : Page) (id : ItemIdData) : list Z := read (bytes p) (li_off id) (li_len id).
Definition ItemIdIsNormal (id : ItemIdData) : bool := li_flags id =? kLPNormal.

Definition MaxAlignDown (size : Z) : Z := Z.land size (Z.lnot (kItemAlign - 1)).
Definition MaxAlignUp (size : Z) : Z := Z.land (size + (kItemAlign - 1)) (Z.lnot (kItemAlign - 1)).

Definition zero_id : ItemIdData := mkItemId 0 0 0.

(** ** Operations *)

Definition PageInit (page_size special_size : Z) : Page :=
  mkPage 0 0 0 kPageHeaderSize (u16 (page_size - special_size)) (u16 (page_size - special_size))
         kPageSizeVersion 0 (λ _, zero_id) (λ _, 0).

(** [item]: the [size] bytes to store. *)
Definition PageAddItem (item : list Z) (offset_number : Z) (p : Page) : Z * Page :=
  let size := Z.of_nat (length item) in
  let lower := pd_lower p in
  let upper := pd_upper p in
  let line_off := if offset_number =? kInvalidOffsetNumber
                  then u16 (PageGetMaxOffsetNumber p + 1) else offset_number in
  let item_id_index := line_off - 1 in
  let new_lower := kPageHeaderSize + (item_id_index + 1) * kItemIdSize in
  let aligned_size := MaxAlignUp size in
  if (upper <? lower + aligned_size) || (upper - aligned_size <? new_lower)
  then (kInvalidOffsetNumber, p)
  else
    let item_offset := upper - aligned_size in
    let bytes' := if 0 <? size then memcpy_in item_offset item (bytes p) else bytes p in
    (line_off,
     with_upper (u16 item_offset)
       (with_lower (u16 new_lower)
          (with_linp (set_linp line_off (mkItemId (u15 item_offset) kLPNormal (u15 size)) (linp p))
             (with_bytes bytes' p)))).

Definition PageGetHeapFreeSpace (p : Page) : Z :=
  Z.max 0 (Z.land (pd_upper p - pd_lower p - kItemIdSize) (Z.lnot (kItemIdSize - 1))).
Definition PageGetFreeSpace (p : Page) : Z :=
  Z.max 0 (MaxAlignDown (pd_upper p - pd_lower p - kItemIdSize)).
Definition PageGetExactFreeSpace (p : Page) : Z := pd_upper p - pd_lower p.
Definition PageGetFreeSpaceForMultipleTuples (p : Page) (n : Z) : Z :=
  Z.max 0 (MaxAlignDown (pd_upper p - pd_lower p - n * kItemIdSize)).

(** The offset numbers [1 .. nline]. *)
Definition offsets (nline : Z) : list Z := seqZ 1 nline.

(** [std::sort] by descending position; positions of non-empty tuples are
    distinct, so the order of equal ones does not matter. *)
Fixpoint insert_desc (key : Z → Z) (n : Z) (l : list Z) : list Z :=
  match l with
  | [] => [n]
  | m :: l' => if key m <? key n then n :: l else m :: insert_desc key n l'
  end.
Definition sort_desc (key : Z → Z) (l : list Z) : list Z := foldr (insert_desc key) [] l.

(** One round of the compaction loop: the page and [new_upper]. *)
Definition move_to (acc : Page * Z) (n : Z) : Page * Z :=
  let '(p, new_upper) := acc in
  let lp := PageGetItemId p n in
  let new_upper' := u16 (new_upper - MaxAlignUp (li_len lp)) in
  (with_linp (set_linp n (mkItemId (u15 new_upper') (li_flags lp) (li_len lp)) (linp p))
     (with_bytes (memmove new_upper' (li_off lp) (li_len lp) (bytes p)) p), new_upper').

Definition compactify_tuples (p : Page) : Page :=
  let nline := PageGetMaxOffsetNumber p in
  let items := base.filter (λ i, ItemIdIsNormal (PageGetItemId p i) = true) (offsets nline) in
  match items with
  | [] => with_upper (pd_special p) p
  | _ =>
      let sorted := sort_desc (λ i, li_off (PageGetItemId p i)) items in
      let '(p', new_upper) := foldl move_to (p, pd_special p) sorted in
      with_upper new_upper p'
  end.

(** [while (nline > 0 && slot nline is unused) --nline], from [nline] down. *)
Fixpoint trim (p : Page) (n : nat) : Z :=
  match n with
  | O => 0
  | S n' => if li_flags (PageGetItemId p (Z.of_nat n)) =? kLPUnused then trim p n' else Z.of_nat n
  end.
Definition trim_lower (nline : Z) (p : Page) : Page :=
  with_lower (u16 (kPageHeaderSize + trim p (Z.to_nat nline) * kItemIdSize)) p.

Definition clear_id (n : Z) (p : Page) : Page := with_linp (set_linp n zero_id (linp p)) p.

(** Moving the tuples of [to_move] up by [diff], one after the other. *)
Definition shift_up (diff : Z) (p : Page) (n : Z) : Page :=
  let lp := PageGetItemId p n in
  with_linp (set_linp n (mkItemId (u15 (u16 (li_off lp + diff))) (li_flags lp) (li_len lp)) (linp p))
    (with_bytes (memmove (li_off lp + diff) (li_off lp) (li_len lp) (bytes p)) p).

Definition close_gap (diff : Z) (to_move : list Z) (p : Page) : Page :=
  foldl (shift_up diff) p (sort_desc (λ i, li_off (PageGetItemId p i)) to_move).

Definition PageIndexTupleDelete (offset : Z) : M Page unit := λ p,
  let nline := PageGetMaxOffsetNumber p in
  if (offset <? 1) || (nline <? offset) then ereport "PageIndexTupleDelete: invalid offset" p
  else
    let lp := PageGetItemId p offset in
    if negb (ItemIdIsNormal lp) then ereport "PageIndexTupleDelete: line pointer is not normal" p
    else
      let deleted_off := li_off lp in
      let deleted_aligned := MaxAlignUp (li_len lp) in
      let p1 := clear_id offset p in
      let p2 := if offset =? nline then trim_lower nline p1 else p1 in
      if deleted_aligned =? 0 then (Ret tt, p2)
      else
        let to_move := base.filter (λ i, ItemIdIsNormal (PageGetItemId p2 i) &&
                                         (li_off (PageGetItemId p2 i) <? deleted_off) = true)
                                   (offsets (PageGetMaxOffsetNumber p2)) in
        (Ret tt, with_upper (u16 (pd_upper p2 + deleted_aligned)) (close_gap deleted_aligned to_move p2)).

Definition PageIndexMultiDelete (itemids : list Z) (p : Page) : Page :=
  let nline := PageGetMaxOffsetNumber p in
  let p1 := foldl (λ p off, if (off <? 1) || (nline <? off) then p else clear_id off p) p itemids in
  let p2 := compactify_tuples (trim_lower nline p1) in
  with_flags (u16 (Z.lor (pd_flags p2) kPageHasFreeLines)) p2.

Definition PageIndexTupleDeleteNoCompact (offset : Z) (p : Page) : Page :=
  let nline := PageGetMaxOffsetNumber p in
  if (offset <? 1) || (nline <? offset) then p
  else
    let p1 := clear_id offset p in
    if offset =? nline then trim_lower nline p1
    else with_flags (u16 (Z.lor (pd_flags p1) kPageHasFreeLines)) p1.

Definition PageIndexTupleOverwrite (offnum : Z) (newitem : list Z) (p : Page) : bool * Page :=
  let nline := PageGetMaxOffsetNumber p in
  let newsize := Z.of_nat (length newitem) in
  if (offnum <? 1) || (nline <? offnum) then (false, p)
  else
    let lp := PageGetItemId p offnum in
    if negb (ItemIdIsNormal lp) then (false, p)
    else
      let old_raw := li_len lp in
      let old_aligned := MaxAlignUp old_raw in
      let new_aligned := MaxAlignUp newsize in
      if old_raw <? newsize then (false, p)
      else
        let p1 := if 0 <? newsize then with_bytes (memcpy_in (li_off lp) newitem (bytes p)) p else p in
        let p2 := with_linp (set_linp offnum (mkItemId (li_off lp) (li_flags lp) (u15 (u16 newsize))) (linp p1)) p1 in
        if new_aligned <? old_aligned then
          let diff := old_aligned - new_aligned in
          let overwrite_off := li_off lp in
          let to_move := base.filter (λ i, ItemIdIsNormal (PageGetItemId p2 i) && negb (i =? offnum) &&
                                           (li_off (PageGetItemId p2 i) <? overwrite_off) = true)
                                     (offsets nline) in
          (true, with_upper (u16 (pd_upper p2 + diff)) (close_gap diff to_move p2))
        else (true, p2).

(** The loop that shifts the normal line pointers to the front. *)
Definition pack_slot (acc : Page * Z) (i : Z) : Page * Z :=
  let '(p, new_idx) := acc in
  let lp := PageGetItemId p i in
  if ItemIdIsNormal lp then
    let new_idx' := new_idx + 1 in
    if new_idx' =? i then (p, new_idx')
    else (clear_id i (with_linp (set_linp new_idx' lp (linp p)) p), new_idx')
  else (clear_id i p, new_idx).

Definition PageRepairFragmentation (p : Page) : Page :=
  let nline := PageGetMaxOffsetNumber p in
  let nused := length (base.filter (λ i, ItemIdIsNormal (PageGetItemId p i) = true) (offsets nline)) in
  if bool_decide (nused = 0)%nat then
    let p1 := with_lower kPageHeaderSize (with_upper (pd_special p) p) in
    let p2 := foldl (λ p i, clear_id i p) p1 (offsets nline) in
    with_flags (Z.land (pd_flags p2) (Z.lnot kPageHasFreeLines)) p2
  else
    let p1 := compactify_tuples p in
    let '(p2, new_idx) := foldl pack_slot (p1, 0) (offsets nline) in
    let p3 := with_lower (u16 (kPageHeaderSize + new_idx * kItemIdSize)) p2 in
    with_flags (Z.land (pd_flags p3) (Z.lnot kPageHasFreeLines)) p3.

Definition PageGetTempPage (p : Page) : Page :=
  mkPage (pd_lsn p) (pd_checksum p) (pd_flags p) kPageHeaderSize (pd_special p) (pd_special p)
         (pd_pagesize_version p) (pd_prune_xid p) (λ _, zero_id)
         (λ k, if (pd_special p <=? k) && (k <? PageGetPageSize p) then bytes p k else 0).

Definition PageGetTempPageCopy (p : Page) : Page := p.

Definition PageGetTempPageCopySpecial (special_size : Z) (p : Page) : Page :=
  let page_size := PageGetPageSize p in
  let copy_size := Z.min (page_size - pd_special p) special_size in
  let start := page_size - special_size in
  mkPage (pd_lsn p) (pd_checksum p) (pd_flags p) kPageHeaderSize (u16 start) (u16 start)
         (pd_pagesize_version p) (pd_prune_xid p) (λ _, zero_id)
         (λ k, if (start <=? k) && (k <? start + copy_size) then bytes p (pd_special p + (k - start)) else 0).

Definition PageRestoreTempPage (temp_page page : Page) : Page := temp_page.

(** ** Alignment *)

Lemma align_up_spec z : MaxAlignUp z = 4 * ((z + 3) / 4).
Proof.
  unfold MaxAlignUp, kItemAlign, kItemIdSize. change (4 - 1) with (Z.ones 2).
  rewrite <- Z.ldiff_land, Z.ldiff_ones_r, Z.shiftl_mul_pow2, Z.shiftr_div_pow2 by lia.
  change (Z.ones 2) with 3. change (2 ^ 2) with 4. lia.
Qed.

Lemma align_up_bounds z : z ≤ MaxAlignUp z < z + 4.
Proof. rewrite align_up_spec. pose proof (Z.div_mod (z + 3) 4). pose proof (Z.mod_pos_bound (z + 3) 4). lia. Qed.

Lemma align_up_pos z : 0 < z → 0 < MaxAlignUp z.
Proof. pose proof (align_up_bounds z). lia. Qed.

(** ** Memory *)

Lemma read_ext m m' off len : (∀ k, off ≤ k < off + len → m k = m' k) → read m off len = read m' off len.
Proof. intros H. unfold read. apply list_fmap_ext. intros i k Hk. apply lookup_seqZ in Hk. apply H. lia. Qed.

Lemma read_shift m m' off off' len :
  (∀ k, 0 ≤ k < len → m (off + k) = m' (off' + k)) → read m off len = read m' off' len.
Proof.
  intros H. unfold read. apply list_eq. intros i. rewrite !list_lookup_fmap.
  destruct (decide (Z.of_nat i < len)) as [Hi|Hi].
  - rewrite !(proj2 (lookup_seqZ _ _ _ _) (conj eq_refl Hi)). simpl. f_equal. apply H. lia.
  - rewrite !lookup_seqZ_ge by lia. done.
Qed.

Lemma memmove_outside dst src len m k : ¬ (dst ≤ k < dst + len) → memmove dst src len m k = m k.
Proof. intros H. unfold memmove. destruct (_ && _) eqn:E; [to_prop; lia|done]. Qed.

Lemma memmove_inside dst src len m k : 0 ≤ k < len → memmove dst src len m (dst + k) = m (src + k).
Proof.
  intros H. unfold memmove. rewrite (proj2 (Z.leb_le _ _)), (proj2 (Z.ltb_lt _ _)) by lia. simpl. f_equal. lia.
Qed.

Lemma memcpy_outside dst item m k :
  ¬ (dst ≤ k < dst + Z.of_nat (length item)) → memcpy_in dst item m k = m k.
Proof. intros H. unfold memcpy_in. destruct (_ && _) eqn:E; [to_prop; lia|done]. Qed.

Lemma read_memcpy dst item m : read (memcpy_in dst item m) dst (Z.of_nat (length item)) = item.
Proof.
  unfold read. apply list_eq. intros i. rewrite list_lookup_fmap.
  destruct (decide (i < length item)%nat) as [Hi|Hi].
  - rewrite (proj2 (lookup_seqZ dst (Z.of_nat (length item)) i (dst + Z.of_nat i))) by lia. simpl. unfold memcpy_in.
    rewrite (proj2 (Z.leb_le _ _)), (proj2 (Z.ltb_lt _ _)) by lia. simpl.
    replace (Z.to_nat (dst + Z.of_nat i - dst)) with i by lia.
    destruct (lookup_lt_is_Some_2 item i Hi) as [x ->]. done.
  - rewrite lookup_seqZ_ge by lia. simpl. symmetry. apply lookup_ge_None. lia.
Qed.

(** ** The invariant *)

Definition nslots (p : Page) : Z := (pd_lower p - kPageHeaderSize) / kItemIdSize.

Definition normal (p : Page) (i : Z) : Prop := 1 ≤ i ≤ nslots p ∧ ItemIdIsNormal (linp p i) = true.

(** The bytes a tuple occupies, its padding included. *)
Definition item_end (id : ItemIdData) : Z := li_off id + MaxAlignUp (li_len id).

Definition apart (a b : ItemIdData) : Prop := item_end a ≤ li_off b ∨ item_end b ≤ li_off a.

Record page_wf (p : Page) : Prop := {
  wf_slots : pd_lower p = kPageHeaderSize + nslots p * kItemIdSize ∧ 0 ≤ nslots p;
  wf_order : pd_lower p ≤ pd_upper p ≤ pd_special p;
  wf_size : pd_special p < 2 ^ 15;
  wf_item : ∀ i, normal p i → pd_upper p ≤ li_off (linp p i) ∧ 0 < li_len (linp p i) ∧
                              item_end (linp p i) ≤ pd_special p;
  wf_apart : ∀ i j, normal p i → normal p j → i ≠ j → apart (linp p i) (linp p j)
}.

Lemma wf_max_offset p : page_wf p → PageGetMaxOffsetNumber p = nslots p.
Proof.
  intros [[Hl Hn] Ho Hs _ _]. unfold PageGetMaxOffsetNumber. fold (nslots p).
  unfold kPageHeaderSize, kItemIdSize, u16 in *. rewrite Z.mod_small; lia.
Qed.

Lemma init_wf page_size special_size :
  0 ≤ special_size → special_size + kPageHeaderSize ≤ page_size → page_size < 2 ^ 15 →
  page_wf (PageInit page_size special_size).
Proof.
  intros H0 H1 H2. unfold kPageHeaderSize in *.
  assert (Hu : u16 (page_size - special_size) = page_size - special_size).
  { unfold u16. rewrite Z.mod_small; lia. }
  assert (Hnone : ∀ i, ¬ normal (PageInit page_size special_size) i) by (intros i [_ ?]; done).
  split; [split; [reflexivity|vm_compute; discriminate]| | |intros i Hi; by apply Hnone in Hi
         |intros i j Hi; by apply Hnone in Hi]; simpl; rewrite ?Hu; unfold kPageHeaderSize; lia.
Qed.

(** ** Adding a tuple *)

Lemma add_item_fits (p : Page) (item : list Z) :
  page_wf p → 0 < Z.of_nat (length item) →
  let size := Z.of_nat (length item) in
  pd_lower p + kItemIdSize + MaxAlignUp size ≤ pd_upper p →
  let '(off, p') := PageAddItem item kInvalidOffsetNumber p in
  off = nslots p + 1 ∧ page_wf p' ∧ nslots p' = nslots p + 1 ∧ normal p' off ∧
  PageGetItem p' (PageGetItemId p' off) = item ∧
  pd_upper p' - pd_lower p' = pd_upper p - pd_lower p - kItemIdSize - MaxAlignUp size ∧
  ∀ i, normal p i → normal p' i ∧ linp p' i = linp p i ∧
                    PageGetItem p' (PageGetItemId p' i) = PageGetItem p (PageGetItemId p i).
Proof.
  intros Hwf Hne size Efit. pose proof (wf_max_offset p Hwf) as Hmax. destruct Hwf as [[Hl Hn] Ho Hs Hitem Hap].
  pose proof (align_up_bounds size) as Hal. fold size in Hne.
  assert (Hslot : u16 (nslots p + 1) = nslots p + 1).
  { unfold u16, kPageHeaderSize, kItemIdSize in *. rewrite Z.mod_small; lia. }
  unfold PageAddItem. rewrite Z.eqb_refl, Hmax, Hslot. fold size.
  replace (kPageHeaderSize + (nslots p + 1 - 1 + 1) * kItemIdSize) with (pd_lower p + 4)
    by (unfold kPageHeaderSize, kItemIdSize in *; lia).
  rewrite (proj2 (orb_false_iff _ _)) by (unfold kItemIdSize in *; split; apply Z.ltb_ge; lia).
  rewrite (proj2 (Z.ltb_lt _ _)) by done.
  set (off := pd_upper p - MaxAlignUp size). set (slot := nslots p + 1) in *.
  unfold kPageHeaderSize, kItemIdSize in *.
  assert (Hu : u16 off = off ∧ u15 off = off ∧ u15 size = size ∧ u16 (pd_lower p + 4) = pd_lower p + 4).
  { unfold u16, u15, off. repeat split; rewrite Z.mod_small; lia. }
  destruct Hu as (-> & -> & -> & ->).
  set (id := mkItemId off kLPNormal size).
  set (p' := with_upper _ _).
  assert (Hns : nslots p' = slot).
  { unfold nslots, p', slot, kPageHeaderSize, kItemIdSize. simpl. rewrite Hl. unfold nslots, kPageHeaderSize, kItemIdSize.
    replace (24 + (pd_lower p - 24) / 4 * 4 + 4 - 24) with (((pd_lower p - 24) / 4 + 1) * 4) by lia.
    by rewrite Z.div_mul by lia. }
  assert (Hlin : ∀ i, linp p' i = if i =? slot then id else linp p i) by done.
  assert (Hold : ∀ i, i ≠ slot → normal p' i ↔ normal p i).
  { intros i Hi. unfold normal. rewrite Hns, Hlin, (proj2 (Z.eqb_neq _ _) Hi). unfold slot in *.
    split; intros [? ?]; (split; [lia|done]). }
  assert (Hid : item_end id = pd_upper p) by (unfold item_end, id, off; simpl; lia).
  split; [done|]. split; [|split; [done|]]; [|split; [|split; [|split]]].
  - split; [rewrite Hns; unfold kPageHeaderSize, kItemIdSize; simpl; unfold slot; lia
           |simpl; unfold off; lia|done| |].
    + intros i Hi. rewrite Hlin. destruct (i =? slot) eqn:E; to_prop.
      * rewrite Hid. simpl. unfold off. lia.
      * apply Hold in Hi; [|done]. destruct (Hitem i Hi) as (? & ? & ?). simpl. unfold off. lia.
    + intros i j Hi Hj Hij. rewrite !Hlin. unfold apart.
      destruct (i =? slot) eqn:E1, (j =? slot) eqn:E2; to_prop; [lia| | |].
      * apply Hold in Hj; [|done]. destruct (Hitem j Hj). rewrite Hid. lia.
      * apply Hold in Hi; [|done]. destruct (Hitem i Hi). rewrite Hid. lia.
      * apply Hold in Hi, Hj; [|done..]. by apply Hap.
  - split; [rewrite Hns; unfold slot; lia|]. rewrite Hlin, Z.eqb_refl. done.
  - unfold PageGetItem, PageGetItemId. rewrite Hlin, Z.eqb_refl. simpl. apply read_memcpy.
  - simpl. unfold off. lia.
  - intros i Hi. assert (Hne' : i ≠ slot) by (destruct Hi as [Hi _]; unfold slot; lia).
    split; [by apply Hold|]. assert (Hsame : linp p' i = linp p i) by (rewrite Hlin; by rewrite (proj2 (Z.eqb_neq _ _) Hne')).
    split; [done|]. unfold PageGetItem, PageGetItemId. rewrite Hsame. apply read_ext.
    intros k Hk. simpl. apply memcpy_outside. destruct (Hitem i Hi) as (? & _ & _). fold size. unfold off. lia.
Qed.

(** A tuple added to a page can be read back and disturbs nothing: if it
    and its line pointer fit, [PageAddItem] returns the next offset number,
    the page stays well formed, the new slot reads as the given bytes and
    every tuple that was on the page keeps its line pointer and its bytes;
    if they do not fit, the call reports so and changes nothing. *)
Theorem page_add_item (p : Page) (item : list Z)
  (Hwf : page_wf p) (Hne : 0 < Z.of_nat (length item)) :
  let size := Z.of_nat (length item) in
  let '(off, p') := PageAddItem item kInvalidOffsetNumber p in
  if pd_lower p + kItemIdSize + MaxAlignUp size <=? pd_upper p then
    off = nslots p + 1 ∧ page_wf p' ∧ nslots p' = nslots p + 1 ∧ normal p' off ∧
    PageGetItem p' (PageGetItemId p' off) = item ∧
    pd_upper p' - pd_lower p' = pd_upper p - pd_lower p - kItemIdSize - MaxAlignUp size ∧
    ∀ i, normal p i → normal p' i ∧ linp p' i = linp p i ∧
                      PageGetItem p' (PageGetItemId p' i) = PageGetItem p (PageGetItemId p i)
  else off = kInvalidOffsetNumber ∧ p' = p.
Proof.
  intros size. destruct (_ <=? _) eqn:Efit; to_prop.
  - by apply add_item_fits.
  - unfold PageAddItem. rewrite Z.eqb_refl, (wf_max_offset p Hwf). destruct Hwf as [[Hl Hn] Ho Hs _ _].
    unfold u16, kPageHeaderSize, kItemIdSize in *. fold size. rewrite (Z.mod_small (nslots p + 1)) by lia.
    rewrite (proj2 (orb_true_iff _ _)); [done|]. right. apply Z.ltb_lt. lia.
Qed.

(** ** Moving tuples

    Compaction and deletion move tuples towards the end of the page, the
    highest one first.  [place] is one move; [layout p u l] says that the moves
    [l] (slot, new position) go upwards, stay below [u] and each other, and
    meet the tuples in descending order. *)

Definition place (p : Page) (m : Z * Z) : Page :=
  let '(n, t) := m in
  let lp := linp p n in
  with_linp (set_linp n (mkItemId t (li_flags lp) (li_len lp)) (linp p))
    (with_bytes (memmove t (li_off lp) (li_len lp) (bytes p)) p).

Fixpoint layout (p : Page) (u : Z) (l : list (Z * Z)) : Prop :=
  match l with
  | [] => True
  | (n, t) :: l' =>
      li_off (linp p n) ≤ t ∧ t + MaxAlignUp (li_len (linp p n)) ≤ u ∧ 0 ≤ li_len (linp p n) ∧
      (n ∉ l'.*1) ∧ Forall (λ m, item_end (linp p m) ≤ li_off (linp p n)) (l'.*1) ∧ layout p t l'
  end.

Definition lowest (u : Z) (l : list (Z * Z)) : Z := default u (snd <$> list.last l).

Lemma lowest_cons u n t l : lowest u ((n, t) :: l) = lowest t l.
Proof. unfold lowest. destruct l as [|m l]; [done|]. rewrite last_cons_cons. by destruct (list.last (m :: l)) eqn:E; [|apply last_None in E]. Qed.

Lemma layout_lowest p u l : layout p u l → lowest u l ≤ u.
Proof.
  revert u. induction l as [|[n t] l IH]; intros u; [done|]. rewrite lowest_cons. simpl.
  intros (_ & Ht & Hlen & _ & _ & Hl). pose proof (align_up_bounds (li_len (linp p n))). specialize (IH t Hl). lia.
Qed.

Lemma layout_ext p p' u l : (∀ n, n ∈ l.*1 → linp p' n = linp p n) → layout p u l → layout p' u l.
Proof.
  revert u. induction l as [|[n t] l IH]; intros u Hsame; simpl; [done|].
  intros (H1 & H2 & H2' & H3 & H4 & H5). rewrite (Hsame n) by (csimpl; set_solver). split_and!; try done.
  - rewrite Forall_forall in *. intros m Hm. rewrite Hsame by (csimpl; set_solver). by apply H4.
  - apply IH; [|done]. intros m Hm. apply Hsame. csimpl. set_solver.
Qed.

Record same_frame (p p' : Page) : Prop := {
  sf_lower : pd_lower p' = pd_lower p;
  sf_upper : pd_upper p' = pd_upper p;
  sf_special : pd_special p' = pd_special p;
  sf_flags : pd_flags p' = pd_flags p
}.

(** The moves leave every tuple with its bytes, and other memory alone. *)
Lemma place_all p u l :
  layout p u l →
  let p' := foldl place p l in
  same_frame p p' ∧
  (∀ n, n ∉ l.*1 → linp p' n = linp p n) ∧
  (∀ n t, (n, t) ∈ l → linp p' n = mkItemId t (li_flags (linp p n)) (li_len (linp p n)) ∧
                       read (bytes p') t (li_len (linp p n)) = PageGetItem p (linp p n)) ∧
  (∀ k, k < lowest u l ∨ u ≤ k → bytes p' k = bytes p k).
Proof.
  revert p u. induction l as [|[n t] l IH]; intros p u Hl p'.
  { split_and!; try done. by intros n t ?%not_elem_of_nil. }
  simpl in Hl. destruct Hl as (Hup & Hfit & Hlen & Hnin & Hbelow & Hl).
  set (p1 := place p (n, t)).
  assert (Hlin1 : ∀ m, linp p1 m = if m =? n then mkItemId t (li_flags (linp p n)) (li_len (linp p n)) else linp p m) by done.
  assert (Hsame : ∀ m, m ∈ l.*1 → linp p1 m = linp p m).
  { intros m Hm. rewrite Hlin1. by rewrite (proj2 (Z.eqb_neq _ _)) by (intros ->; done). }
  assert (Hl1 : layout p1 t l) by (by eapply layout_ext).
  pose proof (layout_lowest _ _ _ Hl) as Hlow. pose proof (align_up_bounds (li_len (linp p n))) as Hal.
  destruct (IH p1 t Hl1) as (Hf & Hother & Hmoved & Hbytes). fold p1 in p'.
  assert (Hb1 : ∀ k, ¬ (t ≤ k < t + li_len (linp p n)) → bytes p1 k = bytes p k)
    by (intros k Hk; by apply memmove_outside).
  split_and!.
  - destruct Hf as [????]. by constructor.
  - intros m Hm. csimpl in Hm. apply not_elem_of_cons in Hm as [Hmn Hm]. unfold p'. rewrite Hother by done.
    rewrite Hlin1. by rewrite (proj2 (Z.eqb_neq _ _) Hmn).
  - intros m t' Hm. apply elem_of_cons in Hm as [[= -> ->]|Hm].
    + unfold p'. rewrite Hother by done. rewrite Hlin1, Z.eqb_refl. split; [done|].
      unfold PageGetItem. apply read_shift. intros k Hk. rewrite Hbytes by lia.
      by apply memmove_inside.
    + unfold p'. assert (Hm1 : m ∈ l.*1) by (apply list_elem_of_fmap; by exists (m, t')).
      destruct (Hmoved m t' Hm) as [H1 H2]. rewrite Hsame in H1, H2 by done. split; [done|].
      etrans; [exact H2|]. unfold PageGetItem. apply read_ext. intros k Hk. apply Hb1.
      rewrite Forall_forall in Hbelow. specialize (Hbelow m Hm1). unfold item_end in Hbelow.
      pose proof (align_up_bounds (li_len (linp p m))). lia.
  - intros k Hk. rewrite lowest_cons in Hk. unfold p'. rewrite Hbytes by lia. apply Hb1. lia.
Qed.

(** *** Sorting *)

Lemma insert_desc_perm key n l : insert_desc key n l ≡ₚ n :: l.
Proof.
  induction l as [|m l IH]; simpl; [done|]. destruct (_ <? _); [done|]. rewrite IH. apply perm_swap.
Qed.

Lemma sort_desc_perm key l : sort_desc key l ≡ₚ l.
Proof. induction l as [|n l IH]; simpl; [done|]. by rewrite insert_desc_perm, IH. Qed.

Lemma insert_desc_sorted key n l :
  StronglySorted (λ a b, key b ≤ key a) l → StronglySorted (λ a b, key b ≤ key a) (insert_desc key n l).
Proof.
  induction 1 as [|m l Hs IH Hm]; simpl; [repeat constructor|]. destruct (_ <? _) eqn:E; to_prop.
  - constructor; [by constructor|]. constructor; [lia|]. eapply Forall_impl; [exact Hm|]. simpl. lia.
  - constructor; [done|]. rewrite insert_desc_perm. constructor; [lia|done].
Qed.

Lemma sort_desc_sorted key l : StronglySorted (λ a b, key b ≤ key a) (sort_desc key l).
Proof. induction l as [|n l IH]; simpl; [constructor|]. by apply insert_desc_sorted. Qed.

(** *** What a layout gives *)

Lemma layout_within p u l n t :
  layout p u l → (n, t) ∈ l → lowest u l ≤ t ∧ t + MaxAlignUp (li_len (linp p n)) ≤ u ∧ li_off (linp p n) ≤ t.
Proof.
  revert u. induction l as [|[m t'] l IH]; intros u Hl Hin; [by apply not_elem_of_nil in Hin|].
  rewrite lowest_cons. simpl in Hl. destruct Hl as (Hup & Hfit & Hlen & _ & _ & Hl).
  pose proof (align_up_bounds (li_len (linp p m))). pose proof (layout_lowest _ _ _ Hl).
  apply elem_of_cons in Hin as [[= -> ->]|Hin]; [lia|]. destruct (IH t' Hl Hin). lia.
Qed.

Lemma layout_apart p u l n t m t' :
  layout p u l → (n, t) ∈ l → (m, t') ∈ l → n ≠ m →
  t + MaxAlignUp (li_len (linp p n)) ≤ t' ∨ t' + MaxAlignUp (li_len (linp p m)) ≤ t.
Proof.
  revert u. induction l as [|[a ta] l IH]; intros u Hl Hn Hm Hne; [by apply not_elem_of_nil in Hn|].
  simpl in Hl. destruct Hl as (_ & _ & _ & _ & _ & Hl).
  apply elem_of_cons in Hn as [[= -> ->]|Hn]; apply elem_of_cons in Hm as [[= -> ->]|Hm].
  - done.
  - right. by destruct (layout_within _ _ _ _ _ Hl Hm) as (_ & ? & _).
  - left. by destruct (layout_within _ _ _ _ _ Hl Hn) as (_ & ? & _).
  - by eapply IH.
Qed.

(** *** Compaction *)

Fixpoint targets (p : Page) (u : Z) (l : list Z) : list (Z * Z) :=
  match l with
  | [] => []
  | n :: l' => let t := u - MaxAlignUp (li_len (linp p n)) in (n, t) :: targets p t l'
  end.

Lemma targets_fst p u l : (targets p u l).*1 = l.
Proof. revert u. induction l as [|n l IH]; intros u; csimpl; [done|]. by rewrite IH. Qed.

(** The tuples of [l], in descending order, can be packed below [u]. *)
Lemma targets_layout p u l :
  NoDup l → StronglySorted (λ a b, li_off (linp p b) ≤ li_off (linp p a)) l →
  (∀ i, i ∈ l → 0 < li_len (linp p i) ∧ item_end (linp p i) ≤ u) →
  (∀ i j, i ∈ l → j ∈ l → i ≠ j → apart (linp p i) (linp p j)) →
  layout p u (targets p u l).
Proof.
  revert u. induction l as [|n l IH]; intros u Hnd Hs Hi Ha; [done|].
  apply NoDup_cons in Hnd as [Hn Hnd]. inversion Hs as [|? ? Hs' Hall]; subst.
  destruct (Hi n ltac:(set_solver)) as [Hlen Hend]. unfold item_end in Hend.
  assert (Hbelow : ∀ m, m ∈ l → item_end (linp p m) ≤ li_off (linp p n)).
  { intros m Hm. rewrite Forall_forall in Hall. specialize (Hall m Hm).
    destruct (Hi m ltac:(set_solver)) as [Hlm _]. pose proof (align_up_pos _ Hlm). pose proof (align_up_pos _ Hlen).
    destruct (Ha n m ltac:(set_solver) ltac:(set_solver) ltac:(intros ->; done)) as [Hd|Hd]; unfold item_end in *; lia. }
  simpl. rewrite targets_fst. split_and!; [lia|lia|lia|done| |].
  - by apply Forall_forall.
  - apply IH; [done|done| |].
    + intros i Hil. split; [apply Hi; set_solver|]. specialize (Hbelow i Hil). lia.
    + intros i j ???. apply Ha; set_solver.
Qed.

(** The compaction loop performs these moves. *)
Lemma fold_move_targets l p u :
  NoDup l → layout p u (targets p u l) → (∀ i, i ∈ l → 0 ≤ li_off (linp p i)) → u < 2 ^ 15 →
  foldl move_to (p, u) l = (foldl place p (targets p u l), lowest u (targets p u l)).
Proof.
  revert p u. induction l as [|n l IH]; intros p u Hnd Hl Hpos Hu; [done|].
  apply NoDup_cons in Hnd as [Hn Hnd]. simpl in Hl. destruct Hl as (Hup & Hfit & Hlen & _ & _ & Hl).
  pose proof (Hpos n ltac:(set_solver)) as Hp0. pose proof (align_up_bounds (li_len (linp p n))) as Hal.
  set (t := u - MaxAlignUp (li_len (linp p n))) in *.
  assert (Hmove : move_to (p, u) n = (place p (n, t), t)).
  { unfold move_to, place, PageGetItemId. fold t.
    assert (u16 t = t ∧ u15 t = t) as [-> ->]; [|done].
    unfold u16, u15. split; rewrite Z.mod_small; lia. }
  cbn [foldl targets]. rewrite Hmove, lowest_cons. set (p1 := place p (n, t)).
  assert (Hsame : ∀ m, m ∈ l → linp p1 m = linp p m).
  { intros m Hm. unfold p1. simpl. unfold set_linp. by rewrite (proj2 (Z.eqb_neq _ _)) by (intros ->; done). }
  assert (Htg : ∀ v l', (∀ m, m ∈ l' → m ∈ l) → targets p1 v l' = targets p v l').
  { intros v l'. revert v. induction l' as [|m l' IH']; intros v Hsub; cbn [targets]; [done|].
    rewrite Hsame by (apply Hsub; set_solver). rewrite IH' by set_solver. done. }
  assert (Hl1 : layout p1 t (targets p1 t l)).
  { rewrite Htg by done. eapply layout_ext; [|exact Hl]. intros m. rewrite targets_fst. apply Hsame. }
  rewrite IH; [by rewrite Htg by done|done|done| |lia].
  intros i Hi. rewrite Hsame by done. apply Hpos. set_solver.
Qed.

Definition normals (p : Page) : list Z :=
  base.filter (λ i, ItemIdIsNormal (PageGetItemId p i) = true) (offsets (PageGetMaxOffsetNumber p)).

Lemma normals_spec p i : page_wf p → i ∈ normals p ↔ normal p i.
Proof.
  intros Hwf. unfold normals, offsets, normal. rewrite wf_max_offset, list_elem_of_filter, elem_of_seqZ by done.
  unfold PageGetItemId. destruct Hwf as [[_ ?] _ _ _ _]. split; intros [? ?]; split; done || lia.
Qed.

Lemma normals_nodup p : NoDup (normals p).
Proof. apply NoDup_filter, NoDup_seqZ. Qed.

(** The room the tuples of a page take. *)
Definition used_room (p : Page) (l : list Z) : Z := foldr (λ i n, MaxAlignUp (li_len (linp p i)) + n) 0 l.

Lemma lowest_targets p u l : lowest u (targets p u l) = u - used_room p l.
Proof.
  revert u. induction l as [|n l IH]; intros u; simpl; [unfold lowest; simpl; lia|].
  rewrite lowest_cons, IH. lia.
Qed.

Lemma used_room_perm p l l' : l ≡ₚ l' → used_room p l = used_room p l'.
Proof. induction 1; simpl; lia. Qed.

(** [p'] has the tuples of [p], possibly elsewhere. *)
Record same_tuples (p p' : Page) : Prop := {
  st_slots : nslots p' = nslots p;
  st_normal : ∀ i, normal p' i ↔ normal p i;
  st_item : ∀ i, normal p i → li_len (linp p' i) = li_len (linp p i) ∧
                              PageGetItem p' (linp p' i) = PageGetItem p (linp p i);
  st_other : ∀ i, ¬ normal p i → linp p' i = linp p i
}.

(** Moving the tuples of a layout, all others lying above it, keeps the page
    well formed. *)
Lemma relocate_wf p u l up :
  page_wf p → layout p u l → Forall (normal p) l.*1 → u ≤ pd_special p →
  (∀ i, normal p i → i ∉ l.*1 → u ≤ li_off (linp p i)) → pd_lower p ≤ up ≤ lowest u l →
  let p' := with_upper up (foldl place p l) in
  page_wf p' ∧ same_tuples p p' ∧ pd_lower p' = pd_lower p ∧ pd_special p' = pd_special p ∧ pd_flags p' = pd_flags p.
Proof.
  intros Hwf Hl Hsub Hu Habove Hup p'. destruct (place_all p u l Hl) as ([Hfl Hfu Hfs Hff] & Hother & Hmoved & Hbytes).
  destruct Hwf as [Hslots Hord Hsize Hitem Hap]. set (p1 := foldl place p l) in *.
  pose proof (layout_lowest _ _ _ Hl) as Hlow. rewrite Forall_forall in Hsub.
  assert (Hcase : ∀ i, (∃ t, (i, t) ∈ l) ∨ i ∉ l.*1).
  { intros i. destruct (decide (i ∈ l.*1)) as [Hi|]; [left|by right].
    apply list_elem_of_fmap in Hi as ([i' t] & -> & Hi). by exists t. }
  assert (Hin : ∀ i t, (i, t) ∈ l → normal p i).
  { intros i t Hi. apply Hsub. apply list_elem_of_fmap. by exists (i, t). }
  assert (Hsl : nslots p' = nslots p) by (unfold nslots, p'; simpl; by rewrite Hfl).
  assert (Hiff : ∀ i, normal p' i ↔ normal p i).
  { intros i. unfold normal. rewrite Hsl. destruct (Hcase i) as [[t Ht]|Hi]; [|by rewrite <- (Hother i Hi)].
    destruct (Hmoved i t Ht) as [E _]. change (linp p' i) with (linp p1 i). by rewrite E. }
  assert (Hend : ∀ i, normal p i → item_end (linp p' i) ≤ pd_special p ∧ up ≤ li_off (linp p' i) ∧
                      0 < li_len (linp p' i)).
  { intros i Hi. destruct (Hitem i Hi) as (H1 & H2 & H3). change (linp p' i) with (linp p1 i).
    destruct (Hcase i) as [[t Ht]|Hn].
    - destruct (Hmoved i t Ht) as [-> _]. destruct (layout_within _ _ _ _ _ Hl Ht) as (? & ? & _).
      unfold item_end. simpl. lia.
    - rewrite (Hother i Hn). specialize (Habove i Hi Hn). lia. }
  split; [|split_and!; try done].
  - split; [by rewrite Hsl; unfold p'; simpl; rewrite Hfl| |by unfold p'; simpl; rewrite Hfs| |].
    + unfold p'. simpl. rewrite Hfl, Hfs. lia.
    + intros i Hi. apply Hiff in Hi. destruct (Hend i Hi) as (? & ? & ?). unfold p' at 1 5. simpl.
      rewrite Hfs. done.
    + intros i j Hi Hj Hij. apply Hiff in Hi, Hj.
      change (linp p' i) with (linp p1 i). change (linp p' j) with (linp p1 j).
      destruct (Hcase i) as [[ti Hti]|Hni], (Hcase j) as [[tj Htj]|Hnj].
      * destruct (Hmoved i ti Hti) as [-> _], (Hmoved j tj Htj) as [-> _]. exact (layout_apart _ _ _ _ _ _ _ Hl Hti Htj Hij).
      * destruct (Hmoved i ti Hti) as [-> _]. rewrite (Hother j Hnj). left.
        destruct (layout_within _ _ _ _ _ Hl Hti) as (_ & ? & _). specialize (Habove j Hj Hnj). unfold item_end. simpl. lia.
      * destruct (Hmoved j tj Htj) as [-> _]. rewrite (Hother i Hni). right.
        destruct (layout_within _ _ _ _ _ Hl Htj) as (_ & ? & _). specialize (Habove i Hi Hni). unfold item_end. simpl. lia.
      * rewrite (Hother i Hni), (Hother j Hnj). by apply Hap.
  - split; [done|done| |].
    + intros i Hi. change (linp p' i) with (linp p1 i). destruct (Hcase i) as [[t Ht]|Hn].
      * destruct (Hmoved i t Ht) as [-> Hrd]. by split.
      * rewrite (Hother i Hn). split; [done|]. unfold PageGetItem. apply read_ext. intros k Hk.
        apply Hbytes. right. specialize (Habove i Hi Hn). lia.
    + intros i Hi. apply Hother. intros Hl'. apply Hi, Hsub, Hl'.
Qed.

(** Compaction: same slots, same tuples, no room between them. *)
Lemma compactify_spec p :
  page_wf p →
  let p' := compactify_tuples p in
  page_wf p' ∧ same_tuples p p' ∧ pd_lower p' = pd_lower p ∧ pd_special p' = pd_special p ∧ pd_flags p' = pd_flags p ∧
  pd_upper p' = pd_special p - used_room p (normals p).
Proof.
  intros Hwf. pose proof (λ i, normals_spec p i Hwf) as Hnorm. pose proof (normals_nodup p) as Hnd.
  destruct (Hwf) as [Hslots Hord Hsize Hitem Hap].
  set (sorted := sort_desc (λ i, li_off (PageGetItemId p i)) (normals p)).
  assert (Hperm : sorted ≡ₚ normals p) by apply sort_desc_perm.
  assert (Hin : ∀ i, i ∈ sorted ↔ normal p i) by (intros i; by rewrite Hperm).
  assert (Hlay : layout p (pd_special p) (targets p (pd_special p) sorted)).
  { apply targets_layout; [by rewrite Hperm|apply sort_desc_sorted| |].
    - intros i Hi. apply Hin in Hi. destruct (Hitem i Hi) as (? & ? & ?). done.
    - intros i j Hi Hj. apply Hin in Hi, Hj. by apply Hap. }
  assert (Hroom : pd_lower p ≤ lowest (pd_special p) (targets p (pd_special p) sorted)).
  { clear Hnd. destruct (list.last (targets p (pd_special p) sorted)) as [[n t]|] eqn:E; unfold lowest; rewrite E; simpl; [|lia].
    apply last_Some_elem_of in E. destruct (layout_within _ _ _ _ _ Hlay E) as (_ & _ & Hge).
    assert (Hn : normal p n).
    { apply Hin. rewrite <- (targets_fst p (pd_special p) sorted). apply list_elem_of_fmap. by exists (n, t). }
    destruct (Hitem n Hn). lia. }
  assert (Heq : compactify_tuples p = with_upper (lowest (pd_special p) (targets p (pd_special p) sorted))
                  (foldl place p (targets p (pd_special p) sorted))).
  { unfold compactify_tuples. fold (normals p). fold sorted.
    destruct (normals p) as [|n0 rest0] eqn:En; [done|].
    rewrite fold_move_targets; [done|by rewrite Hperm|done| |done].
    intros i Hi. apply Hin in Hi. destruct (Hitem i Hi), Hslots. unfold kPageHeaderSize, kItemIdSize in *. lia. }
  destruct (relocate_wf p (pd_special p) (targets p (pd_special p) sorted)
              (lowest (pd_special p) (targets p (pd_special p) sorted)) Hwf Hlay) as (H1 & H2 & H3 & H4 & H5);
    [|lia| |lia|].
  - rewrite targets_fst. apply Forall_forall. intros i. apply Hin.
  - intros i Hi Hn. exfalso. rewrite targets_fst, Hin in Hn. done.
  - intros p'. unfold p'. rewrite Heq. split_and!; try done. simpl.
    rewrite lowest_targets. by rewrite (used_room_perm p _ _ Hperm).
Qed.

(** *** Packing the line pointers *)

Definition normals_upto (p : Page) (n : nat) : list Z :=
  base.filter (λ i, ItemIdIsNormal (PageGetItemId p i) = true) (offsets (Z.of_nat n)).

Lemma normals_upto_S p n :
  normals_upto p (S n) = normals_upto p n ++
    (if ItemIdIsNormal (linp p (Z.of_nat n + 1)) then [Z.of_nat n + 1] else []).
Proof.
  unfold normals_upto, offsets. rewrite seqZ_S, filter_app. f_equal.
  replace (1 + Z.of_nat n) with (Z.of_nat n + 1) by lia. unfold PageGetItemId.
  destruct (ItemIdIsNormal _) eqn:E; [by rewrite filter_cons_True|by rewrite filter_cons_False by congruence].
Qed.

Lemma normals_upto_length p n : (length (normals_upto p n) ≤ n)%nat.
Proof. unfold normals_upto, offsets. etrans; [apply length_filter|]. rewrite length_seqZ. lia. Qed.

Lemma pack_fold p n :
  let '(q, idx) := foldl pack_slot (p, 0) (offsets (Z.of_nat n)) in
  idx = Z.of_nat (length (normals_upto p n)) ∧ same_frame p q ∧ bytes q = bytes p ∧
  (∀ (k : nat) i, normals_upto p n !! k = Some i → linp q (Z.of_nat k + 1) = linp p i) ∧
  (∀ j, idx < j ≤ Z.of_nat n → linp q j = zero_id) ∧ (∀ j, Z.of_nat n < j → linp q j = linp p j).
Proof.
  induction n as [|n IH]; [simpl; split_and!; try done; lia|].
  unfold offsets. rewrite seqZ_S, foldl_snoc. fold (offsets (Z.of_nat n)).
  destruct (foldl pack_slot (p, 0) (offsets (Z.of_nat n))) as [q idx].
  destruct IH as (Hidx & Hf & Hb & Hk & Hz & Hrest).
  pose proof (normals_upto_length p n) as Hle. pose proof (normals_upto_S p n) as HS.
  replace (1 + Z.of_nat n) with (Z.of_nat n + 1) by lia.
  assert (Hcur : linp q (Z.of_nat n + 1) = linp p (Z.of_nat n + 1)) by (apply Hrest; lia).
  unfold pack_slot, PageGetItemId. rewrite Hcur. destruct (ItemIdIsNormal (linp p (Z.of_nat n + 1))) eqn:E.
  - rewrite HS. assert (Hlen : Z.of_nat (length (normals_upto p n ++ [Z.of_nat n + 1])) = idx + 1).
    { rewrite length_app. simpl. lia. }
    assert (Hlook : ∀ (k : nat) i, (normals_upto p n ++ [Z.of_nat n + 1]) !! k = Some i →
                     normals_upto p n !! k = Some i ∧ Z.of_nat k < idx ∨ Z.of_nat k = idx ∧ i = Z.of_nat n + 1).
    { intros k i Hki. apply lookup_app_Some in Hki as [Hki|[Hge Hki]].
      - left. split; [done|]. apply lookup_lt_Some in Hki. lia.
      - right. apply list_lookup_singleton_Some in Hki as [? <-]. split; [lia|done]. }
    destruct (idx + 1 =? Z.of_nat n + 1) eqn:Ei; to_prop; rewrite Hlen.
    + split_and!; try done; [|lia|intros j Hj; apply Hrest; lia].
      intros k i Hki. destruct (Hlook k i Hki) as [[Hk' _]|[-> ->]]; [by apply Hk|].
      by replace (idx + 1) with (Z.of_nat n + 1).
    + split_and!; try done; [by destruct Hf; constructor|..]; cbn [linp clear_id with_linp]; unfold set_linp.
      * intros k i Hki. destruct (Hlook k i Hki) as [[Hk' Hlt]|[Hkidx ->]].
        -- rewrite !(proj2 (Z.eqb_neq _ _)) by lia. by apply Hk.
        -- rewrite Hkidx, Z.eqb_refl, (proj2 (Z.eqb_neq _ _)) by lia. done.
      * intros j Hj. destruct (j =? Z.of_nat n + 1) eqn:E1; [done|]. to_prop.
        rewrite (proj2 (Z.eqb_neq _ _)) by lia. apply Hz. lia.
      * intros j Hj. rewrite !(proj2 (Z.eqb_neq _ _)) by lia. apply Hrest. lia.
  - rewrite HS, app_nil_r. split_and!; try done; [by destruct Hf; constructor|..]; cbn [linp clear_id with_linp]; unfold set_linp.
    + intros k i Hki. rewrite (proj2 (Z.eqb_neq _ _)); [by apply Hk|].
      apply lookup_lt_Some in Hki. lia.
    + intros j Hj. destruct (j =? Z.of_nat n + 1) eqn:E1; [done|]. to_prop. apply Hz. lia.
    + intros j Hj. rewrite (proj2 (Z.eqb_neq _ _)) by lia. apply Hrest. lia.
Qed.

Lemma clear_all_frame l p :
  let q := foldl (λ p i, clear_id i p) p l in same_frame p q ∧ bytes q = bytes p.
Proof.
  revert p. induction l as [|i l IH]; intros p; [done|]. simpl.
  destruct (IH (clear_id i p)) as [[????] ?]. split; [by constructor|done].
Qed.

(** A page without tuples becomes an empty page. *)
Lemma repair_empty p :
  page_wf p → normals p = [] →
  let p' := PageRepairFragmentation p in
  page_wf p' ∧ nslots p' = 0 ∧ PageGetExactFreeSpace p' = pd_special p - kPageHeaderSize - kItemIdSize * 0 - 0.
Proof.
  intros Hwf Hz. destruct (Hwf) as [[Hlow Hn] Hord Hsize Hitem Hap].
  unfold PageRepairFragmentation. fold (normals p). rewrite Hz, bool_decide_eq_true_2 by done.
  set (p1 := with_lower _ _). destruct (clear_all_frame (offsets (PageGetMaxOffsetNumber p)) p1) as [[Hl Hu Hs _] _].
  set (q := foldl _ p1 _) in *. unfold kPageHeaderSize, kItemIdSize in *.
  assert (Hns : nslots (with_flags (Z.land (pd_flags q) (Z.lnot kPageHasFreeLines)) q) = 0)
    by (unfold nslots; simpl; by rewrite Hl).
  split_and!; [|done|unfold PageGetExactFreeSpace; simpl; rewrite Hl, Hu; simpl; lia].
  split; rewrite ?Hns; simpl; rewrite ?Hl, ?Hu, ?Hs; unfold kPageHeaderSize; simpl; try lia.
  - intros i [Hi _]. rewrite Hns in Hi. lia.
  - intros i j [Hi _]. rewrite Hns in Hi. lia.
Qed.

Lemma used_room_ext p p' l :
  (∀ i, i ∈ l → li_len (linp p' i) = li_len (linp p i)) → used_room p' l = used_room p l.
Proof.
  induction l as [|i l IH]; intros H; simpl; [done|]. rewrite H, IH by set_solver. done.
Qed.

Lemma normals_slots p : page_wf p → normals p = normals_upto p (Z.to_nat (nslots p)).
Proof.
  intros Hwf. unfold normals, normals_upto. rewrite wf_max_offset by done.
  destruct Hwf as [[_ Hn] _ _ _ _]. by rewrite Z2Nat.id.
Qed.

Lemma same_tuples_normals p p' : page_wf p → page_wf p' → same_tuples p p' → normals p' = normals p.
Proof.
  intros Hwf Hwf' [Hs Hn _ _]. unfold normals. rewrite !wf_max_offset, Hs by done.
  apply filter_same. intros i Hi. apply elem_of_seqZ in Hi.
  specialize (Hn i). unfold normal in Hn. rewrite Hs in Hn. unfold PageGetItemId.
  split; intros Hx; apply Hn; (split; [lia|done]).
Qed.

(** Otherwise the tuples move together, and so do the slots. *)
Lemma repair_packed p :
  page_wf p → length (normals p) ≠ 0%nat →
  let p' := PageRepairFragmentation p in
  page_wf p' ∧ nslots p' = Z.of_nat (length (normals p)) ∧
  (∀ (k : nat) i, normals p !! k = Some i →
     normal p' (Z.of_nat k + 1) ∧
     PageGetItem p' (PageGetItemId p' (Z.of_nat k + 1)) = PageGetItem p (PageGetItemId p i)) ∧
  PageGetExactFreeSpace p' =
    pd_special p - kPageHeaderSize - kItemIdSize * Z.of_nat (length (normals p)) - used_room p (normals p).
Proof.
  intros Hwf Hnz. destruct (compactify_spec p Hwf) as (Hwf1 & Hst & Hl1 & Hs1 & _ & Hu1).
  pose proof (same_tuples_normals _ _ Hwf Hwf1 Hst) as Hnm. pose proof (normals_slots _ Hwf1) as Hns1.
  destruct Hst as [Hns Hnorm Hitems _].
  unfold PageRepairFragmentation. fold (normals p). rewrite bool_decide_eq_false_2 by done.
  set (p1 := compactify_tuples p) in *.
  assert (Hoff : offsets (PageGetMaxOffsetNumber p) = offsets (Z.of_nat (Z.to_nat (nslots p1)))).
  { rewrite wf_max_offset, Hns by done. f_equal. destruct Hwf as [[_ ?] _ _ _ _]. lia. }
  rewrite Hoff. pose proof (pack_fold p1 (Z.to_nat (nslots p1))) as Hpack. rewrite <- Hns1, Hnm in Hpack.
  destruct (foldl pack_slot (p1, 0) _) as [q idx]. destruct Hpack as (Hidx & [Hfl Hfu Hfs _] & Hb & Hk & _ & _).
  set (m := length (normals p)) in *.
  destruct Hwf1 as [[Hlow Hn] Hord Hsize Hitem Hap]. pose proof (normals_upto_length p1 (Z.to_nat (nslots p1))) as Hle.
  rewrite <- Hns1, Hnm in Hle. fold m in Hle. unfold kPageHeaderSize, kItemIdSize in *.
  assert (Hlo : u16 (24 + idx * 4) = 24 + idx * 4) by (unfold u16; rewrite Z.mod_small; lia).
  rewrite Hlo. set (p' := with_flags _ _).
  assert (Hslots : nslots p' = idx).
  { unfold nslots, p', kPageHeaderSize, kItemIdSize. simpl. replace (24 + idx * 4 - 24) with (idx * 4) by lia.
    by rewrite Z.div_mul by lia. }
  assert (Hslot : ∀ j, 1 ≤ j ≤ idx → ∃ i, normals p !! Z.to_nat (j - 1) = Some i ∧ normal p1 i ∧ linp p' j = linp p1 i).
  { intros j Hj. destruct (lookup_lt_is_Some_2 (normals p) (Z.to_nat (j - 1))) as [i Hi]; [fold m; lia|].
    exists i. split; [done|]. split.
    - apply Hnorm, normals_spec; [done|]. by eapply list_elem_of_lookup_2.
    - change (linp p' j) with (linp q j). rewrite <- (Hk _ _ Hi). f_equal. lia. }
  assert (Hget : ∀ (k : nat) i, normals p !! k = Some i → normal p' (Z.of_nat k + 1) ∧ linp p' (Z.of_nat k + 1) = linp p1 i).
  { intros k i Hi. assert (Hlt := lookup_lt_Some _ _ _ Hi). fold m in Hlt.
    destruct (Hslot (Z.of_nat k + 1)) as (i' & Hi' & Hn1 & Hlin); [lia|].
    replace (Z.to_nat (Z.of_nat k + 1 - 1)) with k in Hi' by lia. simplify_eq.
    split; [split; [lia|rewrite Hlin; apply Hn1]|done]. }
  split_and!.
  - split; [rewrite Hslots; unfold p', kPageHeaderSize, kItemIdSize; simpl; lia|unfold p'; simpl; rewrite Hfu, Hfs; lia|unfold p'; simpl; by rewrite Hfs| |].
    + intros j [Hj _]. rewrite Hslots in Hj. destruct (Hslot j Hj) as (i & _ & Hi & ->). unfold p' at 1 2. simpl.
      rewrite Hfu, Hfs. by apply Hitem.
    + intros j j' [Hj _] [Hj' _] Hne. rewrite Hslots in Hj, Hj'.
      destruct (Hslot j Hj) as (i & Hi & Hni & ->), (Hslot j' Hj') as (i' & Hi' & Hni' & ->). apply Hap; [done..|].
      intros <-. apply Hne. assert (Z.to_nat (j - 1) = Z.to_nat (j' - 1)); [|lia].
      by eapply NoDup_lookup; [apply normals_nodup|..].
  - by rewrite Hslots.
  - intros k i Hi. destruct (Hget k i Hi) as [Hnk Hlin]. split; [done|].
    assert (Hi1 : normal p i) by (apply normals_spec; [done|]; by eapply list_elem_of_lookup_2).
    destruct (Hitems i Hi1) as [_ Heq]. unfold PageGetItemId. rewrite <- Heq. unfold PageGetItem. rewrite Hlin.
    unfold p'. simpl. by rewrite Hb.
  - unfold PageGetExactFreeSpace, p'. simpl. rewrite Hfu, Hu1. lia.
Qed.

(** Defragmenting a page keeps its tuples, in their order, and wastes no
    room: afterwards slot [k+1] holds the [k]-th of the tuples the page had,
    byte for byte, there are no other slots, and all room the tuples do not
    take, each rounded up to 4 bytes and with its line pointer, is free. *)
Theorem repair_fragmentation_packs (p : Page) (Hwf : page_wf p) :
  let p' := PageRepairFragmentation p in
  page_wf p' ∧ nslots p' = Z.of_nat (length (normals p)) ∧
  (∀ (k : nat) i, normals p !! k = Some i →
     normal p' (Z.of_nat k + 1) ∧
     PageGetItem p' (PageGetItemId p' (Z.of_nat k + 1)) = PageGetItem p (PageGetItemId p i)) ∧
  PageGetExactFreeSpace p' =
    pd_special p - kPageHeaderSize - kItemIdSize * Z.of_nat (length (normals p)) - used_room p (normals p).
Proof.
  destruct (decide (length (normals p) = 0%nat)) as [Hz|Hnz].
  - apply length_zero_iff_nil in Hz. destruct (repair_empty p Hwf Hz) as (H1 & H2 & H3).
    rewrite Hz. split_and!; [done|done|done|exact H3].
  - destruct (repair_packed p Hwf Hnz) as (H1 & H2 & H3 & H4). by split_and!.
Qed.

(** *** Closing the gap of a deleted tuple *)

Definition shifted (p : Page) (d : Z) (l : list Z) : list (Z * Z) := (λ n, (n, li_off (linp p n) + d)) <$> l.

Lemma shifted_fst p d l : (shifted p d l).*1 = l.
Proof. unfold shifted. rewrite <- list_fmap_compose. induction l; csimpl; [done|]. by f_equal. Qed.

Lemma shifted_layout p d u l :
  0 ≤ d → NoDup l → StronglySorted (λ a b, li_off (linp p b) ≤ li_off (linp p a)) l →
  (∀ i, i ∈ l → 0 < li_len (linp p i) ∧ item_end (linp p i) + d ≤ u) →
  (∀ i j, i ∈ l → j ∈ l → i ≠ j → apart (linp p i) (linp p j)) →
  layout p u (shifted p d l).
Proof.
  intros Hd. revert u. induction l as [|n l IH]; intros u Hnd Hs Hi Ha; [done|].
  apply NoDup_cons in Hnd as [Hn Hnd]. inversion Hs as [|? ? Hs' Hall]; subst.
  destruct (Hi n ltac:(set_solver)) as [Hlen Hend]. unfold item_end in Hend.
  assert (Hbelow : ∀ m, m ∈ l → item_end (linp p m) ≤ li_off (linp p n)).
  { intros m Hm. rewrite Forall_forall in Hall. specialize (Hall m Hm).
    destruct (Hi m ltac:(set_solver)) as [Hlm _]. pose proof (align_up_pos _ Hlm). pose proof (align_up_pos _ Hlen).
    destruct (Ha n m ltac:(set_solver) ltac:(set_solver) ltac:(intros ->; done)); unfold item_end in *; lia. }
  cbn [shifted fmap list_fmap layout]. fold (shifted p d l). rewrite shifted_fst.
  split_and!; [lia|lia|lia|done|by apply Forall_forall|].
  apply IH; [done|done| |].
  - intros i Hil. split; [apply Hi; set_solver|]. specialize (Hbelow i Hil). lia.
  - intros i j ???. apply Ha; set_solver.
Qed.

Lemma fold_shift_place d l p :
  NoDup l → (∀ i, i ∈ l → 0 ≤ li_off (linp p i) + d < 2 ^ 15) →
  foldl (shift_up d) p l = foldl place p (shifted p d l).
Proof.
  revert p. induction l as [|n l IH]; intros p Hnd Hr; [done|]. apply NoDup_cons in Hnd as [Hn Hnd].
  pose proof (Hr n ltac:(set_solver)) as Hrn. cbn [foldl shifted fmap list_fmap]. fold (shifted p d l).
  assert (Hmove : shift_up d p n = place p (n, li_off (linp p n) + d)).
  { unfold shift_up, place, PageGetItemId.
    assert (u15 (u16 (li_off (linp p n) + d)) = li_off (linp p n) + d) as ->; [|done].
    unfold u15, u16. rewrite (Z.mod_small _ (2 ^ 16)), Z.mod_small; lia. }
  rewrite Hmove. set (p1 := place p _).
  assert (Hsame : ∀ m, m ∈ l → linp p1 m = linp p m).
  { intros m Hm. unfold p1. simpl. unfold set_linp. by rewrite (proj2 (Z.eqb_neq _ _)) by (intros ->; done). }
  rewrite IH; [|done|intros i Hi; rewrite Hsame by done; apply Hr; set_solver].
  f_equal. unfold shifted. apply list_fmap_ext. intros k m Hm. rewrite Hsame; [done|]. by eapply list_elem_of_lookup_2.
Qed.

(** Removing one slot from a page, the tuple bytes untouched. *)
Lemma trim_spec p n :
  0 ≤ trim p n ≤ Z.of_nat n ∧ ∀ i, trim p n < i ≤ Z.of_nat n → li_flags (linp p i) = kLPUnused.
Proof.
  induction n as [|n IH]; cbn [trim]; [split; [lia|intros i Hi; lia]|]. unfold PageGetItemId.
  destruct (_ =? kLPUnused) eqn:E; to_prop; [|split; [lia|intros i Hi; lia]].
  destruct IH as [H1 H2]. split; [lia|]. intros i Hi.
  destruct (decide (i = Z.of_nat (S n))) as [->|]; [done|]. apply H2. lia.
Qed.

(** The page with slot [off] cleared and the slot array possibly cut back. *)
Lemma drop_slot_wf p off k :
  page_wf p → 0 ≤ k ≤ nslots p → (∀ i, k < i ≤ nslots p → i ≠ off → ¬ normal p i) →
  let p2 := with_lower (kPageHeaderSize + k * kItemIdSize) (clear_id off p) in
  page_wf p2 ∧ nslots p2 = k ∧ bytes p2 = bytes p ∧
  (∀ i, normal p2 i ↔ normal p i ∧ i ≠ off) ∧ (∀ i, i ≠ off → linp p2 i = linp p i).
Proof.
  intros Hwf Hk Hcut p2. destruct Hwf as [[Hlow Hn] Hord Hsize Hitem Hap].
  assert (Hns : nslots p2 = k).
  { unfold nslots, p2, kPageHeaderSize, kItemIdSize. simpl. replace (24 + k * 4 - 24) with (k * 4) by lia.
    by rewrite Z.div_mul by lia. }
  assert (Hlin : ∀ i, linp p2 i = if i =? off then zero_id else linp p i) by done.
  assert (Hiff : ∀ i, normal p2 i ↔ normal p i ∧ i ≠ off).
  { intros i. unfold normal at 1. rewrite Hns, Hlin. destruct (i =? off) eqn:E; to_prop.
    - split; [by intros [_ ?]|by intros [_ ?]].
    - split.
      + intros [Hi Hf]. split; [split; [lia|done]|done].
      + intros [[Hi Hf] Hne]. split; [|done]. destruct (decide (i ≤ k)); [lia|].
        exfalso. apply (Hcut i); [lia|done|by split]. }
  assert (Hother : ∀ i, i ≠ off → linp p2 i = linp p i).
  { intros i Hi. rewrite Hlin. by rewrite (proj2 (Z.eqb_neq _ _) Hi). }
  split_and!; try done. split.
  - rewrite Hns. unfold p2, kPageHeaderSize, kItemIdSize. simpl. lia.
  - unfold p2, kPageHeaderSize, kItemIdSize in *. simpl. lia.
  - done.
  - intros i Hi. apply Hiff in Hi as [Hi Hne]. rewrite Hother by done. by apply Hitem.
  - intros i j Hi Hj Hij. apply Hiff in Hi as [Hi Hne], Hj as [Hj Hne']. rewrite !Hother by done. by apply Hap.
Qed.

(** When no tuple meets the [d] bytes from [lo] on, the tuples below them may
    move up by [d]. *)
Lemma close_gap_wf p lo d to_move :
  page_wf p → 0 < d → pd_upper p ≤ lo → lo + d ≤ pd_special p →
  (∀ i, normal p i → item_end (linp p i) ≤ lo ∨ lo + d ≤ li_off (linp p i)) →
  NoDup to_move → (∀ i, i ∈ to_move ↔ normal p i ∧ li_off (linp p i) < lo) →
  let p' := with_upper (u16 (pd_upper p + d)) (close_gap d to_move p) in
  page_wf p' ∧ same_tuples p p' ∧ pd_lower p' = pd_lower p ∧ pd_upper p' = pd_upper p + d.
Proof.
  intros Hwf Hd Hlo Hhi Hgap Hnd Hin p'. destruct (Hwf) as [[Hlow Hn] Hord Hsize Hitem Hap].
  set (sorted := sort_desc (λ i, li_off (PageGetItemId p i)) to_move) in *.
  assert (Hperm : sorted ≡ₚ to_move) by apply sort_desc_perm.
  assert (Hs : ∀ i, i ∈ sorted → normal p i ∧ 0 < li_len (linp p i) ∧ pd_upper p ≤ li_off (linp p i) ∧
                                 item_end (linp p i) + d ≤ lo + d).
  { intros i Hi. rewrite Hperm in Hi. apply Hin in Hi as [Hi Hlt]. destruct (Hitem i Hi) as (? & ? & _).
    split_and!; try done. destruct (Hgap i Hi); lia. }
  unfold kPageHeaderSize, kItemIdSize in *.
  assert (Hlay : layout p (lo + d) (shifted p d sorted)).
  { apply shifted_layout; [lia|by rewrite Hperm|apply sort_desc_sorted| |].
    - intros i Hi. by destruct (Hs i Hi) as (? & ? & ? & ?).
    - intros i j Hi Hj. destruct (Hs i Hi), (Hs j Hj). by apply Hap. }
  assert (Heq : close_gap d to_move p = foldl place p (shifted p d sorted)).
  { unfold close_gap. fold sorted. apply fold_shift_place; [by rewrite Hperm|]. intros i Hi.
    destruct (Hs i Hi) as (Hni & Hlen & ? & He). destruct (Hitem i Hni) as (? & ? & ?).
    pose proof (align_up_pos _ Hlen). unfold item_end in He. lia. }
  assert (Hlowest : pd_upper p + d ≤ lowest (lo + d) (shifted p d sorted)).
  { unfold lowest. destruct (list.last (shifted p d sorted)) as [[n t]|] eqn:E; simpl; [|lia].
    apply last_Some_elem_of in E. apply list_elem_of_fmap in E as (m & [= -> ->] & Hm).
    destruct (Hs m Hm) as (_ & _ & ? & _). lia. }
  assert (Hu : u16 (pd_upper p + d) = pd_upper p + d) by (unfold u16; rewrite Z.mod_small; lia).
  destruct (relocate_wf p (lo + d) (shifted p d sorted) (pd_upper p + d) Hwf Hlay) as (H1 & H2 & H3 & _);
    [|lia| |lia|].
  - rewrite shifted_fst. apply Forall_forall. intros i Hi. apply (Hs i Hi).
  - intros i Hi Hni. rewrite shifted_fst, Hperm, Hin in Hni. destruct (Hgap i Hi) as [He|]; [|done].
    destruct (Hitem i Hi) as (_ & Hlen & _). pose proof (align_up_pos _ Hlen). unfold item_end in He.
    exfalso. apply Hni. split; [done|lia].
  - unfold p'. rewrite Hu, Heq. by split_and!.
Qed.

Lemma trimmed_page p off :
  page_wf p → normal p off →
  ∃ k, (if off =? nslots p then trim_lower (nslots p) (clear_id off p) else clear_id off p)
       = with_lower (kPageHeaderSize + k * kItemIdSize) (clear_id off p) ∧ 0 ≤ k ≤ nslots p ∧
       (∀ i, k < i ≤ nslots p → i ≠ off → ¬ normal p i).
Proof.
  intros [[Hlow Hn] Hord Hsize _ _] [Hoff _]. destruct (off =? nslots p) eqn:E; to_prop.
  - destruct (trim_spec (clear_id off p) (Z.to_nat (nslots p))) as [Hk Hun]. rewrite Z2Nat.id in Hk, Hun by done.
    exists (trim (clear_id off p) (Z.to_nat (nslots p))). unfold trim_lower.
    assert (Hu : u16 (kPageHeaderSize + trim (clear_id off p) (Z.to_nat (nslots p)) * kItemIdSize)
                 = kPageHeaderSize + trim (clear_id off p) (Z.to_nat (nslots p)) * kItemIdSize).
    { unfold u16, kPageHeaderSize, kItemIdSize in *. rewrite Z.mod_small; lia. }
    rewrite Hu. split_and!; [done|lia|lia|]. intros i Hi Hne [_ Hf]. specialize (Hun i Hi).
    simpl in Hun. unfold set_linp in Hun. rewrite (proj2 (Z.eqb_neq _ _) Hne) in Hun.
    unfold ItemIdIsNormal in Hf. by rewrite Hun in Hf.
  - exists (nslots p). rewrite <- Hlow. split_and!; [by destruct p|lia|lia|]. intros i Hi. lia.
Qed.

(** Deleting a tuple from a page removes that tuple only: the call
    succeeds on a slot in use, the page stays well formed, every other tuple
    keeps its slot and its bytes although it may move, and the room of the
    tuple (and of the slots freed at the end of the array) becomes free; a
    slot that is not in use is reported and nothing changes. *)
Theorem tuple_delete_keeps_others (p : Page) (off : Z) (Hwf : page_wf p) :
  (normal p off →
     ∃ p', PageIndexTupleDelete off p = (Ret tt, p') ∧ page_wf p' ∧
       (∀ i, normal p' i ↔ normal p i ∧ i ≠ off) ∧
       (∀ i, normal p i → i ≠ off →
          PageGetItem p' (PageGetItemId p' i) = PageGetItem p (PageGetItemId p i)) ∧
       PageGetExactFreeSpace p' = PageGetExactFreeSpace p + MaxAlignUp (li_len (PageGetItemId p off)) +
                                  kItemIdSize * (nslots p - nslots p')) ∧
  (¬ normal p off → ∃ msg, PageIndexTupleDelete off p = (Ereport msg, p)).
Proof.
  pose proof (wf_max_offset p Hwf) as Hmax. split.
  2: { intros Hno. unfold PageIndexTupleDelete. rewrite Hmax. destruct (_ || _) eqn:E; [by eexists|].
       to_prop. destruct (ItemIdIsNormal (PageGetItemId p off)) eqn:En; [|by eexists].
       exfalso. apply Hno. split; [lia|done]. }
  intros Hoff. destruct (trimmed_page p off Hwf Hoff) as (k & Hk & Hkn & Hcut).
  destruct (drop_slot_wf p off k Hwf Hkn Hcut) as (Hwf2 & Hns2 & Hb2 & Hiff2 & Hlin2).
  set (p2 := with_lower (kPageHeaderSize + k * kItemIdSize) (clear_id off p)) in *.
  destruct (wf_item p Hwf off Hoff) as (Hlo & Hlen & Hhi).
  set (d := MaxAlignUp (li_len (linp p off))) in *. assert (Hd : 0 < d) by (by apply align_up_pos).
  set (u := li_off (linp p off) + d). unfold item_end in Hhi. fold d in Hhi.
  set (to_move := base.filter (λ i, ItemIdIsNormal (PageGetItemId p2 i) &&
                    (li_off (PageGetItemId p2 i) <? li_off (linp p off)) = true) (offsets (PageGetMaxOffsetNumber p2))).
  assert (Hin : ∀ i, i ∈ to_move ↔ normal p2 i ∧ li_off (linp p2 i) < li_off (linp p off)).
  { intros i. unfold to_move, offsets. rewrite list_elem_of_filter, elem_of_seqZ, wf_max_offset by done.
    unfold normal, PageGetItemId. rewrite andb_true_iff, Z.ltb_lt. destruct (wf_slots p2 Hwf2).
    split; [intros [[? ?] ?]|intros [[? ?] ?]]; (split; [split|]; done || lia). }
  destruct (close_gap_wf p2 (li_off (linp p off)) d to_move) as (Hwf' & [Hns' Hnorm' Hitem' _] & Hl' & Hu').
  - done.
  - done.
  - exact Hlo.
  - exact Hhi.
  - intros i Hi. apply Hiff2 in Hi as [Hi Hne]. rewrite Hlin2 by done.
    by apply (wf_apart p Hwf).
  - apply NoDup_filter, NoDup_seqZ.
  - exact Hin.
  - exists (with_upper (u16 (pd_upper p2 + d)) (close_gap d to_move p2)). split_and!.
    + unfold PageIndexTupleDelete. rewrite Hmax. destruct Hoff as [Hrange Hflag].
      rewrite (proj2 (orb_false_iff _ _)) by (split; apply Z.ltb_ge; lia).
      unfold PageGetItemId at 1. rewrite Hflag. cbn [negb]. rewrite Hk.
      change (MaxAlignUp (li_len (PageGetItemId p off))) with d.
      rewrite (proj2 (Z.eqb_neq _ _)) by lia. reflexivity.
    + exact Hwf'.
    + intros i. rewrite Hnorm'. apply Hiff2.
    + intros i Hi Hne. unfold PageGetItemId. destruct (Hitem' i) as [_ He]; [by apply Hiff2|].
      etrans; [exact He|]. unfold PageGetItem. by rewrite Hlin2, Hb2.
    + unfold PageGetExactFreeSpace. rewrite Hl', Hu', Hns', Hns2. unfold p2. simpl.
      destruct (wf_slots p Hwf) as [-> _]. fold d. unfold PageGetItemId. fold d. lia.
Qed.

(** Overwriting a tuple by a shorter one can destroy it: the tuples below
    it are moved up over its own first bytes.  On a page with two tuples,
    replacing the first by one byte succeeds, and that tuple then reads as
    the first byte of the other one. *)
Theorem overwrite_clobbers_tuple :
  let p := snd (PageAddItem [11; 12; 13; 14] 0
                  (snd (PageAddItem [1; 2; 3; 4; 5; 6; 7; 8] 0 (PageInit kBlckSz 0)))) in
  let '(ok, p') := PageIndexTupleOverwrite 1 [9] p in
  ok = true ∧ PageGetItem p' (PageGetItemId p' 1) = [11] ∧
  PageGetItem p' (PageGetItemId p' 2) = [11; 12; 13; 14].
Proof. vm_compute. done. Qed.

(** Adding a tuple at an offset number in the middle of the line pointer
    array cuts the array off behind it: the tuples in the later slots are
    lost, although the call reports success. *)
Theorem add_item_at_offset_truncates (p : Page) (item : list Z) (off : Z)
  (Hwf : page_wf p) (Hoff : 1 ≤ off < nslots p)
  (Hfit : pd_lower p + MaxAlignUp (Z.of_nat (length item)) ≤ pd_upper p) :
  let '(r, p') := PageAddItem item off p in
  r = off ∧ PageGetMaxOffsetNumber p' = off ∧ ∀ i, off < i → ¬ normal p' i.
Proof.
  destruct Hwf as [[Hlow Hn] Hord Hsize _ _]. unfold PageAddItem, kInvalidOffsetNumber.
  rewrite (proj2 (Z.eqb_neq _ _)) by lia. unfold kPageHeaderSize, kItemIdSize in *.
  replace (off - 1 + 1) with off by lia.
  rewrite (proj2 (orb_false_iff _ _)) by (split; apply Z.ltb_ge; lia).
  set (p' := with_upper _ _). assert (Hl : pd_lower p' = 24 + off * 4).
  { unfold p'. simpl. unfold u16. rewrite Z.mod_small; lia. }
  assert (Hns : nslots p' = off).
  { unfold nslots, kPageHeaderSize, kItemIdSize. rewrite Hl. replace (24 + off * 4 - 24) with (off * 4) by lia.
    by rewrite Z.div_mul by lia. }
  split_and!; [done| |].
  - unfold PageGetMaxOffsetNumber. fold (nslots p'). rewrite Hns. unfold u16. rewrite Z.mod_small; lia.
  - intros i Hi [Hr _]. lia.
Qed.

(** ** Witnesses *)

Definition first_item : list Z := [1; 2; 3; 4; 5; 6; 7; 8].
Definition second_item : list Z := [11; 12; 13; 14].
Definition one_item : Page := snd (PageAddItem first_item 0 (PageInit kBlckSz 0)).
Definition two_items : Page := snd (PageAddItem second_item 0 one_item).

Lemma empty_wf : page_wf (PageInit kBlckSz 0).
Proof. apply init_wf; unfold kBlckSz, kPageHeaderSize; lia. Qed.

Lemma one_item_wf : page_wf one_item.
Proof.
  pose proof (add_item_fits (PageInit kBlckSz 0) first_item empty_wf ltac:(done)) as Hadd.
  apply Hadd. vm_compute. discriminate.
Qed.

Lemma two_items_wf : page_wf two_items.
Proof.
  pose proof (add_item_fits one_item second_item one_item_wf ltac:(done)) as Hadd.
  apply Hadd. vm_compute. discriminate.
Qed.

Lemma page_add_item_witness :
  let '(off, p') := PageAddItem second_item kInvalidOffsetNumber one_item in
  off = nslots one_item + 1 ∧ page_wf p' ∧ PageGetItem p' (PageGetItemId p' off) = second_item.
Proof.
  pose proof (page_add_item one_item second_item one_item_wf ltac:(done)) as Hadd.
  destruct (PageAddItem second_item kInvalidOffsetNumber one_item) as [off p'].
  assert (Hfit : (pd_lower one_item + kItemIdSize + MaxAlignUp (Z.of_nat (length second_item))
                  <=? pd_upper one_item) = true) by (vm_compute; reflexivity).
  cbv zeta in Hadd. rewrite Hfit in Hadd. destruct Hadd as (Hoff & Hwf & _ & _ & Hitem & _).
  exact (conj Hoff (conj Hwf Hitem)).
Defined.

Lemma repair_fragmentation_packs_witness :
  page_wf two_items ∧ nslots (PageRepairFragmentation two_items) = 2.
Proof.
  split; [exact two_items_wf|].
  destruct (repair_fragmentation_packs two_items two_items_wf) as (_ & Hn & _).
  exact Hn.
Defined.

Lemma tuple_delete_keeps_others_witness :
  normal two_items 1 ∧ ∃ p', PageIndexTupleDelete 1 two_items = (Ret tt, p') ∧ page_wf p'.
Proof.
  assert (Hn : normal two_items 1) by (split; [vm_compute; split; discriminate|reflexivity]).
  split; [exact Hn|].
  destruct (proj1 (tuple_delete_keeps_others two_items 1 two_items_wf) Hn) as (p' & Hrun & Hwf & _).
  exists p'. exact (conj Hrun Hwf).
Defined.

Lemma add_item_at_offset_truncates_witness :
  normal two_items 2 ∧ ¬ normal (snd (PageAddItem [9] 1 two_items)) 2.
Proof.
  split; [split; [vm_compute; split; discriminate|reflexivity]|].
  pose proof (add_item_at_offset_truncates two_items [9] 1 two_items_wf) as Hcut.
  destruct (PageAddItem [9] 1 two_items) as [r p'].
  destruct Hcut as (_ & _ & Hlost); [vm_compute; split; [discriminate|reflexivity]|vm_compute; discriminate|].
  apply Hlost. reflexivity.
Defined.

End BufPage.
