(* ===== verification/Fsm.v ===== *)
(** * The free space map

    Models src/storage/freespace/fsmpage.cpp (a page of free-space categories,
    kept as a binary tree of maxima) and src/storage/freespace/freespace.cpp
    (the categories of the blocks of each relation).

    The loops up and down the tree take fewer steps than the page has nodes,
    which is their fuel. *)

From stdpp Require Import base gmap list sets.
From S2P Require Import Prelude.

Module FsmPage.

Definition kFsmLeafNodesPerPage : Z := 162.
Definition kFsmNodesPerPage : Z := 2 * kFsmLeafNodesPerPage - 1.

Record FSMPageData := mkFsmPage { nodes : list Z; fp_next_slot : Z }.

Definition node_at (page : FSMPageData) (i : Z) : Z := default 0 (nodes page !! Z.to_nat i).
Definition set_node (i v : Z) (page : FSMPageData) : FSMPageData :=
  mkFsmPage (<[Z.to_nat i := v]> (nodes page)) (fp_next_slot page).

Definition NodeIndexFromSlot (slot : Z) : Z := (kFsmLeafNodesPerPage - 1) + slot.

Definition ParentIndex (node_index : Z) : Z :=
  if node_index =? 0 then -1 else (node_index - 1) / 2.

Definition MaxOfChildren (page : FSMPageData) (node_index : Z) : Z :=
  let left := 2 * node_index + 1 in
  let right := 2 * node_index + 2 in
  if kFsmNodesPerPage <=? left then 0
  else
    let l := node_at page left in
    let r := if right <? kFsmNodesPerPage then node_at page right else 0 in
    Z.max l r.

(** The loop of [PropagateUp], from a node. *)
Fixpoint propagate (fuel : nat) (node : Z) (page : FSMPageData) : FSMPageData :=
  match fuel with
  | O => page
  | S f =>
      if node =? 0 then page
      else let parent := ParentIndex node in propagate f parent (set_node parent (MaxOfChildren page parent) page)
  end.

Definition PropagateUp (slot : Z) (page : FSMPageData) : FSMPageData :=
  propagate (Z.to_nat kFsmNodesPerPage) (NodeIndexFromSlot slot) page.

Definition FSMPageInit : FSMPageData := mkFsmPage (replicate (Z.to_nat kFsmNodesPerPage) 0) 0.

Definition FSMPageGetFreeSpace (page : FSMPageData) : Z := node_at page 0.

Definition FSMPageSetFreeSpace (slot value : Z) (page : FSMPageData) : FSMPageData :=
  if (slot <? 0) || (kFsmLeafNodesPerPage <=? slot) then page
  else PropagateUp slot (set_node (NodeIndexFromSlot slot) value page).

(** The walk from the root; [None] is the early [return -1]. *)
Fixpoint descend (fuel : nat) (page : FSMPageData) (min_value node : Z) : option Z :=
  match fuel with
  | O => Some node
  | S f =>
      if node <? kFsmLeafNodesPerPage - 1 then
        let left := 2 * node + 1 in
        let right := 2 * node + 2 in
        let lv := if left <? kFsmNodesPerPage then node_at page left else 0 in
        let rv := if right <? kFsmNodesPerPage then node_at page right else 0 in
        if (min_value <=? lv) && (rv <=? lv) then descend f page min_value left
        else if min_value <=? rv then descend f page min_value right
        else None
      else Some node
  end.

Definition FSMPageSearchFreeSpace (min_value : Z) (page : FSMPageData) : Z * FSMPageData :=
  if node_at page 0 <? min_value then (-1, page)
  else
    match descend (Z.to_nat kFsmNodesPerPage) page min_value 0 with
    | None => (-1, page)
    | Some node => let slot := node - (kFsmLeafNodesPerPage - 1) in (slot, mkFsmPage (nodes page) slot)
    end.

Definition FSMPageGetSlot (page : FSMPageData) (slot : Z) : Z :=
  if (slot <? 0) || (kFsmLeafNodesPerPage <=? slot) then 0 else node_at page (NodeIndexFromSlot slot).

Definition FSMPageClear (page : FSMPageData) : FSMPageData := FSMPageInit.
Definition FSMLeftChild (node_index : Z) : Z := 2 * node_index + 1.
Definition FSMRightChild (node_index : Z) : Z := 2 * node_index + 2.
Definition FSMSlotToNodeIndex (slot : Z) : Z := NodeIndexFromSlot slot.

(** ** The tree of maxima *)

Definition kInternal : Z := 161.

Definition max_at (page : FSMPageData) (i : Z) : Prop :=
  node_at page i = Z.max (node_at page (2 * i + 1)) (node_at page (2 * i + 2)).

Record fsm_ok (page : FSMPageData) : Prop := {
  ok_length : length (nodes page) = Z.to_nat kFsmNodesPerPage;
  ok_max : ∀ i, 0 ≤ i < kInternal → max_at page i
}.

(** [in_slot slot]: a leaf the page has. *)
Definition in_slot (slot : Z) : Prop := 0 ≤ slot < kFsmLeafNodesPerPage.

Lemma node_set page i v j :
  length (nodes page) = Z.to_nat kFsmNodesPerPage → 0 ≤ i < kFsmNodesPerPage → 0 ≤ j →
  node_at (set_node i v page) j = if j =? i then v else node_at page j.
Proof.
  intros Hl Hi Hj. unfold node_at, set_node. cbn [nodes]. destruct (j =? i) eqn:E; to_prop.
  - subst. rewrite list_lookup_insert_eq by lia. done.
  - rewrite list_lookup_insert_ne by lia. done.
Qed.

Lemma parent_spec n : 0 < n → 0 ≤ ParentIndex n < n ∧ (n = 2 * ParentIndex n + 1 ∨ n = 2 * ParentIndex n + 2).
Proof.
  intros Hn. unfold ParentIndex. rewrite (proj2 (Z.eqb_neq _ _)) by lia.
  pose proof (Z.div_mod (n - 1) 2). pose proof (Z.mod_pos_bound (n - 1) 2). lia.
Qed.

Lemma max_of_children page i : 0 ≤ i < kInternal →
  MaxOfChildren page i = Z.max (node_at page (2 * i + 1)) (node_at page (2 * i + 2)).
Proof.
  unfold kInternal. intros Hi. unfold MaxOfChildren. change kFsmNodesPerPage with 323.
  rewrite (proj2 (Z.leb_gt _ _)) by lia. rewrite (proj2 (Z.ltb_lt _ _)) by lia. done.
Qed.

(** Walking up from [node] repairs a tree that is wrong at its parent only, and
    touches no leaf. *)
Lemma propagate_ok f node page :
  length (nodes page) = Z.to_nat kFsmNodesPerPage → 0 ≤ node < kFsmNodesPerPage → (Z.to_nat node < f)%nat →
  (∀ i, 0 ≤ i < kInternal → (node = 0 ∨ i ≠ ParentIndex node) → max_at page i) →
  fsm_ok (propagate f node page) ∧ ∀ j, kInternal ≤ j → node_at (propagate f node page) j = node_at page j.
Proof.
  revert node page. induction f as [|f IH]; intros node page Hl Hn Hf Hmax; [lia|]. cbn [propagate].
  destruct (node =? 0) eqn:E; to_prop; [split; [split; [done|]; intros i Hi; apply Hmax; [done|by left]|done]|].
  destruct (parent_spec node) as [Hp Hchild]; [lia|]. set (parent := ParentIndex node) in *.
  assert (Hpi : parent < kInternal) by (unfold kInternal; change kFsmNodesPerPage with 323 in *; lia).
  set (v := MaxOfChildren page parent). assert (Hset := λ j, node_set page parent v j Hl ltac:(unfold kInternal in *; lia)).
  destruct (IH parent (set_node parent v page)) as [Hok Hleaf].
  - unfold set_node. cbn [nodes]. by rewrite length_insert.
  - lia.
  - lia.
  - intros i Hi Hor. unfold max_at. rewrite !Hset by lia.
    destruct (i =? parent) eqn:Ei; to_prop.
    + subst i. rewrite (proj2 (Z.eqb_neq (2 * parent + 1) _)), (proj2 (Z.eqb_neq (2 * parent + 2) _)) by lia.
      by apply max_of_children.
    + assert (2 * i + 1 ≠ parent ∧ 2 * i + 2 ≠ parent) as [H1 H2].
      { destruct Hor as [H0|H0]; [lia|]. destruct (decide (parent = 0)); [lia|].
        destruct (parent_spec parent) as [? ?]; [lia|]. lia. }
      rewrite (proj2 (Z.eqb_neq _ _) H1), (proj2 (Z.eqb_neq _ _) H2). apply Hmax; [done|by right].
  - split; [done|]. intros j Hj. rewrite Hleaf, Hset by (unfold kInternal in *; lia).
    by rewrite (proj2 (Z.eqb_neq _ _)) by lia.
Qed.

Lemma set_ok slot value page :
  fsm_ok page → in_slot slot →
  let page' := FSMPageSetFreeSpace slot value page in
  fsm_ok page' ∧ ∀ t, in_slot t → FSMPageGetSlot page' t = if t =? slot then value else FSMPageGetSlot page t.
Proof.
  intros [Hl Hmax] Hs. unfold in_slot in *. unfold FSMPageSetFreeSpace, PropagateUp, FSMPageGetSlot, NodeIndexFromSlot.
  change kFsmLeafNodesPerPage with 162 in *. change (162 - 1) with 161.
  rewrite (proj2 (orb_false_iff (slot <? 0) _)) by (split; [apply Z.ltb_ge|apply Z.leb_gt]; lia).
  assert (Hset := λ j, node_set page (161 + slot) value j Hl ltac:(change kFsmNodesPerPage with 323; lia)).
  destruct (propagate_ok (Z.to_nat kFsmNodesPerPage) (161 + slot) (set_node (161 + slot) value page)) as [Hok Hleaf].
  - unfold set_node. cbn [nodes]. by rewrite length_insert.
  - change kFsmNodesPerPage with 323. lia.
  - change kFsmNodesPerPage with 323. lia.
  - intros i Hi Hor. unfold kInternal in *. destruct (parent_spec (161 + slot)) as [? Hch]; [lia|].
    unfold max_at. rewrite !Hset by lia. rewrite !(proj2 (Z.eqb_neq _ _)) by lia. by apply Hmax.
  - split; [done|]. intros t Ht.
    rewrite (proj2 (orb_false_iff (t <? 0) _)) by (split; [apply Z.ltb_ge|apply Z.leb_gt]; lia).
    rewrite Hleaf, Hset by (unfold kInternal; lia). destruct (t =? slot) eqn:E; to_prop.
    + subst. by rewrite Z.eqb_refl.
    + by rewrite (proj2 (Z.eqb_neq _ _)) by lia.
Qed.

(** No node exceeds the root. *)
Lemma below_root page i : fsm_ok page → 0 ≤ i < kFsmNodesPerPage → node_at page i ≤ node_at page 0.
Proof.
  intros [_ Hmax] Hi. assert (Hwf : ∀ n : nat, ∀ i, (Z.to_nat i < n)%nat → 0 ≤ i < kFsmNodesPerPage → node_at page i ≤ node_at page 0).
  { induction n as [|n IH]; intros j Hj Hr; [lia|]. destruct (decide (j = 0)) as [->|]; [lia|].
    destruct (parent_spec j) as [Hp Hch]; [lia|]. change kFsmNodesPerPage with 323 in *.
    specialize (IH (ParentIndex j) ltac:(lia) ltac:(lia)). specialize (Hmax (ParentIndex j) ltac:(unfold kInternal; lia)).
    unfold max_at in Hmax. destruct Hch as [Hc|Hc]; rewrite Hc; lia. }
  by eapply (Hwf (S (Z.to_nat i))); [lia|].
Qed.

(** Going down from a node with a large enough value ends in such a leaf. *)
Lemma descend_ok f page v node :
  fsm_ok page → 0 ≤ node < kFsmNodesPerPage → v ≤ node_at page node → (Z.to_nat kFsmNodesPerPage ≤ f + Z.to_nat node)%nat →
  ∃ leaf, descend f page v node = Some leaf ∧ kInternal ≤ leaf < kFsmNodesPerPage ∧ v ≤ node_at page leaf.
Proof.
  intros Hok. revert node. induction f as [|f IH]; intros node Hn Hv Hf; [change kFsmNodesPerPage with 323 in *; lia|].
  cbn [descend]. change (kFsmLeafNodesPerPage - 1) with 161. destruct (node <? 161) eqn:E; to_prop.
  2: { exists node. unfold kInternal. split_and!; [done|lia|lia|done]. }
  pose proof (ok_max page Hok node ltac:(unfold kInternal; lia)) as Hmax. unfold max_at in Hmax.
  change kFsmNodesPerPage with 323 in *. rewrite !(proj2 (Z.ltb_lt _ 323)) by lia.
  destruct (_ && _) eqn:El; [|destruct (v <=? node_at page (2 * node + 2)) eqn:Er].
  - apply andb_true_iff in El as [El _]. to_prop. apply IH; lia.
  - to_prop. apply IH; lia.
  - exfalso. apply Z.leb_gt in Er. apply andb_false_iff in El as [El|El]; apply Z.leb_gt in El; lia.
Qed.

(** The tree of an FSM page stays correct and searching it is exact:
    setting a slot stores that value there and nowhere else and keeps every
    inner node the maximum of its children; the search for a category then
    returns a slot of at least that category whenever the page has one, and
    -1 exactly when it has none; neither changes what the slots hold. *)
Theorem fsm_search_exact (page : FSMPageData) (slot value min_value : Z)
  (Hok : fsm_ok page) (Hslot : in_slot slot) :
  let page1 := FSMPageSetFreeSpace slot value page in
  let '(r, page2) := FSMPageSearchFreeSpace min_value page1 in
  (∀ t, in_slot t → FSMPageGetSlot page1 t = if t =? slot then value else FSMPageGetSlot page t) ∧
  (if r =? -1 then ∀ t, in_slot t → FSMPageGetSlot page1 t < min_value
   else in_slot r ∧ min_value ≤ FSMPageGetSlot page1 r ∧ fp_next_slot page2 = r) ∧
  fsm_ok page2 ∧ nodes page2 = nodes page1.
Proof.
  destruct (set_ok slot value page Hok Hslot) as [Hok1 Hget]. set (page1 := FSMPageSetFreeSpace slot value page) in *.
  assert (Hslots : ∀ t, in_slot t → FSMPageGetSlot page1 t = node_at page1 (161 + t)).
  { intros t Ht. unfold in_slot in Ht. unfold FSMPageGetSlot, NodeIndexFromSlot. change kFsmLeafNodesPerPage with 162 in *.
    by rewrite (proj2 (orb_false_iff _ _)) by (split; [apply Z.ltb_ge|apply Z.leb_gt]; lia). }
  unfold FSMPageSearchFreeSpace. destruct (node_at page1 0 <? min_value) eqn:E; to_prop.
  - split_and!; [done| |done|done]. intros t Ht. rewrite Hslots by done.
    pose proof (below_root page1 (161 + t) Hok1) as Hb. unfold in_slot in Ht. change kFsmNodesPerPage with 323 in Hb.
    change kFsmLeafNodesPerPage with 162 in Ht. lia.
  - destruct (descend_ok (Z.to_nat kFsmNodesPerPage) page1 min_value 0 Hok1) as (leaf & -> & Hl & Hv);
      [change kFsmNodesPerPage with 323; lia|lia|lia|].
    change (kFsmLeafNodesPerPage - 1) with 161. unfold kInternal in Hl. change kFsmNodesPerPage with 323 in Hl.
    assert (Hin : in_slot (leaf - 161)) by (unfold in_slot; change kFsmLeafNodesPerPage with 162; lia).
    split; [exact Hget|]. split; [|split; [destruct Hok1; by split|done]].
    rewrite (proj2 (Z.eqb_neq _ _)) by (unfold in_slot in Hin; lia).
    split_and!; [exact Hin| |done]. rewrite Hslots by done. by replace (161 + (leaf - 161)) with leaf by lia.
Qed.

Lemma init_ok : fsm_ok FSMPageInit.
Proof.
  split; [apply length_replicate|]. intros i _. unfold max_at, node_at, FSMPageInit. cbn [nodes].
  assert (Hz : ∀ k, default 0 (replicate (Z.to_nat kFsmNodesPerPage) 0 !! k) = 0).
  { intros k. destruct (replicate _ 0 !! k) eqn:E; [|done]. by apply lookup_replicate in E as [-> _]. }
  by rewrite !Hz.
Qed.

Lemma fsm_search_exact_witness :
  in_slot 100 ∧ FSMPageGetSlot (FSMPageSetFreeSpace 100 30 FSMPageInit) 100 = 30 ∧
  (FSMPageSearchFreeSpace 20 (FSMPageSetFreeSpace 100 30 FSMPageInit)).1 = 100.
Proof.
  assert (Hs : in_slot 100) by (split; vm_compute; [discriminate|reflexivity]).
  split; [exact Hs|]. split; [|vm_compute; reflexivity].
  pose proof (fsm_search_exact FSMPageInit 100 30 20 init_ok Hs) as Hsearch. cbv zeta in Hsearch.
  destruct (FSMPageSearchFreeSpace 20 _) as [r page2]. exact (proj1 Hsearch 100 Hs).
Defined.

End FsmPage.

Module FreeSpace.

Definition kFsmFreeSpaceMax : Z := 255.
Definition kInvalidBlockNumber : Z := 0xFFFFFFFF.

(** [RelFileNode]: tablespace, database and relation file. *)
Record RelFileNode := mkRelFileNode { spc_node : Z; db_node : Z; rel_node : Z }.
#[global] Instance rnode_eq_dec : EqDecision RelFileNode.
Proof. solve_decision. Defined.
#[global] Instance rnode_countable : Countable RelFileNode.
Proof.
  refine (inj_countable' (λ r, (spc_node r, db_node r, rel_node r)) (λ t, mkRelFileNode t.1.1 t.1.2 t.2) _).
  by intros [].
Defined.

(** [FsmMap()]: the category of every recorded block of every relation. *)
Abbreviation FsmMap := (gmap RelFileNode (gmap Z Z)).

Definition ClampCategory (cat : Z) : Z := if kFsmFreeSpaceMax <? cat then kFsmFreeSpaceMax else cat.

Definition GetPageWithFreeSpace (rnode : RelFileNode) (min_cat : Z) (m : FsmMap) : Z :=
  match m !! rnode with
  | None => kInvalidBlockNumber
  | Some rel => match list_find (λ kv : Z * Z, min_cat ≤ kv.2) (map_entries rel) with
                | Some (_, kv) => kv.1
                | None => kInvalidBlockNumber
                end
  end.

Definition RecordPageWithFreeSpace (rnode : RelFileNode) (block cat : Z) (m : FsmMap) : FsmMap :=
  <[rnode := <[block := ClampCategory cat]> (default ∅ (m !! rnode))]> m.

Definition FreeSpaceMapTruncateRel (rnode : RelFileNode) (nblocks : Z) (m : FsmMap) : FsmMap :=
  match m !! rnode with
  | None => m
  | Some rel => <[rnode := base.filter (λ kv : Z * Z, kv.1 < nblocks) rel]> m
  end.

Definition FreeSpaceMapVacuumRel (rnode : RelFileNode) (m : FsmMap) : Z * FsmMap :=
  match m !! rnode with
  | None => (0, m)
  | Some rel => (i32 (Z.of_nat (size rel)), delete rnode m)
  end.

Definition FreeSpaceMapDropRel (rnode : RelFileNode) (m : FsmMap) : Z * FsmMap := FreeSpaceMapVacuumRel rnode m.
Definition ResetFreeSpaceMap (m : FsmMap) : FsmMap := ∅.
Definition GetFreeSpaceMapForRel (rnode : RelFileNode) (m : FsmMap) : list (Z * Z) :=
  match m !! rnode with None => [] | Some rel => map_entries rel end.

Definition FreeSpaceCategoryForBytes (bytes : Z) : Z :=
  if bytes <=? 0 then 0
  else let cat := bytes / 32 in if kFsmFreeSpaceMax <? cat then u8 kFsmFreeSpaceMax else u8 cat.

Definition BytesForFreeSpaceCategory (cat : Z) : Z := cat * 32.
Definition NumFSMRelations (m : FsmMap) : Z := i32 (Z.of_nat (size m)).

(** What is recorded for a block. *)
Definition recorded (m : FsmMap) (rnode : RelFileNode) (block : Z) : option Z := m !! rnode ≫= λ rel, rel !! block.

Lemma recorded_insert m rnode block cat r b :
  recorded (RecordPageWithFreeSpace rnode block cat m) r b =
    if decide (r = rnode ∧ b = block) then Some (ClampCategory cat) else recorded m r b.
Proof.
  unfold recorded, RecordPageWithFreeSpace. destruct (decide (r = rnode)) as [->|Hr].
  - rewrite lookup_insert_eq. simpl. destruct (decide (b = block)) as [->|Hb].
    + by rewrite lookup_insert_eq, decide_True.
    + rewrite lookup_insert_ne, decide_False by naive_solver. by destruct (m !! rnode).
  - rewrite lookup_insert_ne, decide_False by naive_solver. done.
Qed.

Lemma recorded_truncate m rnode nblocks r b :
  recorded (FreeSpaceMapTruncateRel rnode nblocks m) r b =
    if decide (r = rnode ∧ nblocks ≤ b) then None else recorded m r b.
Proof.
  unfold recorded, FreeSpaceMapTruncateRel. destruct (m !! rnode) as [rel|] eqn:E.
  - destruct (decide (r = rnode)) as [->|Hr].
    + rewrite lookup_insert_eq, E. simpl. destruct (decide (nblocks ≤ b)).
      * rewrite decide_True by done. apply map_lookup_filter_None. right. intros x _. simpl. lia.
      * rewrite decide_False by naive_solver. destruct (rel !! b) as [x|] eqn:Eb.
        -- apply map_lookup_filter_Some. simpl. split; [done|lia].
        -- apply map_lookup_filter_None. by left.
    + rewrite lookup_insert_ne, decide_False by naive_solver. done.
  - case_decide as Hd; [|done]. destruct Hd as [-> _]. by rewrite E.
Qed.

(** The search returns a recorded block of at least that category when there is
    one. *)
Lemma get_page_spec m rnode min_cat :
  let r := GetPageWithFreeSpace rnode min_cat m in
  (∃ cat, recorded m rnode r = Some cat ∧ min_cat ≤ cat) ∨
  (r = kInvalidBlockNumber ∧ ∀ b cat, recorded m rnode b = Some cat → cat < min_cat).
Proof.
  unfold GetPageWithFreeSpace, recorded. destruct (m !! rnode) as [rel|]; simpl; [|right; split; [done|]; by intros ??].
  destruct (list_find _ _) as [[i [b cat]]|] eqn:E.
  - left. apply list_find_Some in E as (Hi & Hc & _). exists cat. split; [|done].
    apply elem_of_map_entries. by eapply list_elem_of_lookup_2.
  - right. split; [done|]. intros b cat Hb. apply list_find_None in E. apply elem_of_map_entries in Hb.
    rewrite Forall_forall in E. specialize (E _ Hb). simpl in E. lia.
Qed.

(** Both the room of a page and the room a caller asks for are rounded down to
    a category, so a page that is too small for the request can be returned:
    for every request that is not a multiple of 32 bytes, a page whose room is
    that multiple below it is. *)
Theorem page_found_may_not_fit (rnode : RelFileNode) (block request : Z) :
  0 < request < 8160 → request `mod` 32 ≠ 0 →
  let room := request - request `mod` 32 in
  let m := RecordPageWithFreeSpace rnode block (FreeSpaceCategoryForBytes room) ∅ in
  room < request ∧ GetPageWithFreeSpace rnode (FreeSpaceCategoryForBytes request) m = block.
Proof.
  intros Hr Hm room m. pose proof (Z.mod_pos_bound request 32) as Hb. pose proof (Z.div_mod request 32) as Hdm.
  split; [unfold room; lia|].
  assert (Hcat : FreeSpaceCategoryForBytes room = FreeSpaceCategoryForBytes request).
  { unfold FreeSpaceCategoryForBytes, kFsmFreeSpaceMax, u8.
    assert (Hd : room / 32 = request / 32) by (symmetry; apply Z.div_unique with 0; unfold room; lia).
    rewrite (proj2 (Z.leb_gt request _)) by lia. destruct (room <=? 0) eqn:E; to_prop; [|by rewrite Hd].
    assert (request / 32 = 0) as -> by (unfold room in E; lia). done. }
  assert (Hle : FreeSpaceCategoryForBytes request ≤ 255).
  { unfold FreeSpaceCategoryForBytes, kFsmFreeSpaceMax. destruct (_ <=? 0); [lia|]. destruct (_ <? _); [done|].
    pose proof (u8_range (request / 32)). unfold is_u8 in *. lia. }
  unfold m, GetPageWithFreeSpace, RecordPageWithFreeSpace. rewrite lookup_insert_eq, lookup_empty, Hcat. simpl.
  unfold ClampCategory, kFsmFreeSpaceMax. rewrite (proj2 (Z.ltb_ge _ _)) by lia.
  unfold map_entries. rewrite insert_empty, map_to_list_singleton. simpl. by rewrite decide_True.
Qed.

(** The free space map answers from what was recorded: a category recorded
    for a block is found again (capped at 255) and truncation drops exactly
    the blocks from the new end on; a search returns a block recorded with at
    least the requested category, and reports none only when no block of the
    relation has one. *)
Theorem free_space_map_consistent (m : FsmMap) (rnode r : RelFileNode) (block b cat nblocks min_cat : Z) :
  (recorded (RecordPageWithFreeSpace rnode block cat m) r b =
     if decide (r = rnode ∧ b = block) then Some (Z.min 255 cat) else recorded m r b) ∧
  (recorded (FreeSpaceMapTruncateRel rnode nblocks m) r b =
     if decide (r = rnode ∧ nblocks ≤ b) then None else recorded m r b) ∧
  let found := GetPageWithFreeSpace rnode min_cat m in
  ((∃ c, recorded m rnode found = Some c ∧ min_cat ≤ c) ∨
   (found = kInvalidBlockNumber ∧ ∀ b' c, recorded m rnode b' = Some c → c < min_cat)).
Proof.
  split_and!; [|apply recorded_truncate|apply get_page_spec].
  rewrite recorded_insert. case_decide; [|done]. f_equal. unfold ClampCategory, kFsmFreeSpaceMax.
  destruct (255 <? cat) eqn:E; to_prop; lia.
Qed.

End FreeSpace.
