(* ===== verification/Slru.v ===== *)
(** * The page cache of the transaction logs

    Models src/transaction/slru.cpp and include/transaction/slru.hpp: a cache
    of at most [capacity] pages of 8192 bytes, evicted in least-recently-used
    order, dirty pages being written to files named by their page number when
    a directory is configured.

    The directory is a map from paths to file contents; opening and writing
    succeed.  A copy beyond the end of a page is undefined in the code, so the
    theorems are about accesses inside a page. *)

From Stdlib Require Import Ascii.
From stdpp Require Import base gmap list strings sets.
From S2P Require Import Prelude CString Transam.
Import CString Transam.

Module Slru.

Inductive SlruPageStatus := kEmpty | kValid | kDirty.
#[global] Instance status_eq_dec : EqDecision SlruPageStatus.
Proof. solve_decision. Defined.

Record SlruPage := mkSlruPage { pageno : Z; status : SlruPageStatus; data : list Z }.

Record SlruCtl := mkCtl {
  name : string;
  capacity : Z;
  disk_dir : string;
  pages : gmap Z SlruPage;
  lru_order : list Z;
  reads : Z;
  writes : Z;
  flushes : Z
}.

(** The control block and the files. *)
Record slru := mkSlru { ctl : SlruCtl; files : gmap string (list Z) }.

Definition set_pages (f : gmap Z SlruPage → gmap Z SlruPage) (c : SlruCtl) : SlruCtl :=
  mkCtl (name c) (capacity c) (disk_dir c) (f (pages c)) (lru_order c) (reads c) (writes c) (flushes c).
Definition set_lru (f : list Z → list Z) (c : SlruCtl) : SlruCtl :=
  mkCtl (name c) (capacity c) (disk_dir c) (pages c) (f (lru_order c)) (reads c) (writes c) (flushes c).
Definition set_stats (r w f : Z) (c : SlruCtl) : SlruCtl :=
  mkCtl (name c) (capacity c) (disk_dir c) (pages c) (lru_order c) r w f.
Definition upd (f : SlruCtl → SlruCtl) (s : slru) : slru := mkSlru (f (ctl s)) (files s).

Definition zero_page : list Z := replicate (Z.to_nat kSlruPageSize) 0.

Definition PageFilePath (dir : string) (p : Z) : string :=
  dir +:+ "/" +:+ of_chars (print_padded 16 4 8 (u32 p)).

(** Bytes a short file does not have keep what the page had. *)
Definition ReadPageFromDisk (dir : string) (p : Z) (page : SlruPage) (fs : gmap string (list Z)) : bool * SlruPage :=
  match fs !! PageFilePath dir p with
  | None => (false, page)
  | Some c =>
      let got := take (Z.to_nat kSlruPageSize) c in
      (true, mkSlruPage (pageno page) (status page) (got ++ drop (length got) (data page)))
  end.

Definition WritePageToDisk (dir : string) (p : Z) (page : SlruPage) (fs : gmap string (list Z)) :
  gmap string (list Z) :=
  <[PageFilePath dir p := take (Z.to_nat kSlruPageSize) (data page)]> fs.

(** [erase] of the first occurrence. *)
Fixpoint erase_first (p : Z) (l : list Z) : list Z :=
  match l with
  | [] => []
  | x :: l' => if x =? p then l' else x :: erase_first p l'
  end.

Definition TouchPage (p : Z) (c : SlruCtl) : SlruCtl := set_lru (λ l, erase_first p l ++ [p]) c.

Definition EvictOnePage (s : slru) : slru :=
  match lru_order (ctl s) with
  | [] => s
  | victim :: rest =>
      let c1 := set_lru (λ _, rest) (ctl s) in
      match pages c1 !! victim with
      | None => mkSlru c1 (files s)
      | Some page =>
          let fs := if bool_decide (status page = kDirty) && negb (bool_decide (disk_dir c1 = ""))
                    then WritePageToDisk (disk_dir c1) victim page (files s) else files s in
          mkSlru (set_pages (delete victim) c1) fs
      end
  end.

Definition LoadPage (p : Z) (s : slru) : SlruPage * slru :=
  match pages (ctl s) !! p with
  | Some page => (page, upd (TouchPage p) s)
  | None =>
      let s1 := if capacity (ctl s) <=? Z.of_nat (size (pages (ctl s))) then EvictOnePage s else s in
      let page0 := mkSlruPage p kValid zero_page in
      let page := if bool_decide (disk_dir (ctl s1) = "") then page0
                  else snd (ReadPageFromDisk (disk_dir (ctl s1)) p page0 (files s1)) in
      (page, upd (λ c, set_lru (λ l, l ++ [p]) (set_pages (insert p page) c)) s1)
  end.

Definition SimpleLruInit (n : string) (cap : Z) (dir : string) : SlruCtl := mkCtl n cap dir ∅ [] 0 0 0.

Definition SimpleLruRead (p : Z) (offset len : nat) (s : slru) : list Z * slru :=
  let '(page, s1) := LoadPage p s in
  (take len (drop offset (data page)),
   upd (λ c, set_stats (u64 (reads c + 1)) (writes c) (flushes c) c) s1).

(** [memcpy] of [src] into the page. *)
Definition overlay (offset : nat) (src d : list Z) : list Z :=
  take offset d ++ src ++ drop (offset + length src) d.

Definition SimpleLruWrite (p : Z) (offset : nat) (src : list Z) (s : slru) : slru :=
  let '(page, s1) := LoadPage p s in
  upd (λ c, set_pages (insert p (mkSlruPage (pageno page) kDirty (overlay offset src (data page))))
              (set_stats (reads c) (u64 (writes c + 1)) (flushes c) c)) s1.

(** One round of the flush loop: a dirty page is written and becomes clean. *)
Definition flush_one (dir : string) (fs : gmap string (list Z)) (e : Z * SlruPage) : gmap string (list Z) :=
  if bool_decide (status (snd e) = kDirty) then WritePageToDisk dir (fst e) (snd e) fs else fs.
Definition clean (page : SlruPage) : SlruPage :=
  if bool_decide (status page = kDirty) then mkSlruPage (pageno page) kValid (data page) else page.

Definition SimpleLruFlush (s : slru) : slru :=
  let dir := disk_dir (ctl s) in
  let s1 := if negb (bool_decide (dir = ""))
            then mkSlru (set_pages (fmap clean) (ctl s)) (foldl (flush_one dir) (files s) (map_to_list (pages (ctl s))))
            else upd (set_pages (fmap (λ pg, mkSlruPage (pageno pg) kValid (data pg)))) s in
  upd (λ c, set_stats (reads c) (writes c) (u64 (flushes c + 1)) c) s1.

Definition SimpleLruReset (s : slru) : slru :=
  upd (λ c, set_stats 0 0 0 (set_lru (λ _, []) (set_pages (λ _, ∅) c))) s.

(** [delete ctl]: only the files remain. *)
Definition SimpleLruFree (s : slru) : gmap string (list Z) := files (SimpleLruFlush s).

(** ** File names *)

Definition is_int (p : Z) : Prop := - 2 ^ 31 ≤ p < 2 ^ 31.

Lemma page_path_inj dir p q : is_int p → is_int q → PageFilePath dir p = PageFilePath dir q → p = q.
Proof.
  unfold is_int. intros Hp Hq Heq. unfold PageFilePath in Heq. apply append_inj_l, append_inj_l in Heq.
  apply (f_equal (λ n, scan_integer 16 (chars n ++ []))) in Heq. rewrite !chars_of_chars in Heq.
  pose proof (u32_range p). pose proof (u32_range q). unfold is_u32 in *.
  rewrite !scan_print_padded in Heq by (done || lia). injection Heq as Heq.
  apply (f_equal i32) in Heq. rewrite !i32_u32, !i32_small in Heq by done. done.
Qed.

(** ** What the cache stands for *)

(** The contents of a page as its file has them. *)
Definition disk_page (dir : string) (fs : gmap string (list Z)) (p : Z) : list Z :=
  data (snd (ReadPageFromDisk dir p (mkSlruPage p kValid zero_page) fs)).

Definition contents (s : slru) (p : Z) : list Z :=
  match pages (ctl s) !! p with
  | Some page => data page
  | None => disk_page (disk_dir (ctl s)) (files s) p
  end.

Record slru_wf (s : slru) : Prop := {
  wf_dir : disk_dir (ctl s) ≠ "";
  wf_nodup : NoDup (lru_order (ctl s));
  wf_lru : ∀ p, p ∈ lru_order (ctl s) ↔ is_Some (pages (ctl s) !! p);
  wf_keys : ∀ p page, pages (ctl s) !! p = Some page → is_int p ∧ length (data page) = Z.to_nat kSlruPageSize;
  wf_clean : ∀ p page, pages (ctl s) !! p = Some page → status page ≠ kDirty →
                       data page = disk_page (disk_dir (ctl s)) (files s) p;
  wf_size : Z.of_nat (size (pages (ctl s))) ≤ Z.max 1 (capacity (ctl s))
}.

Lemma length_zero_page : length zero_page = Z.to_nat kSlruPageSize.
Proof. apply length_replicate. Qed.

Lemma length_disk_page dir fs p : length (disk_page dir fs p) = Z.to_nat kSlruPageSize.
Proof.
  unfold disk_page, ReadPageFromDisk. destruct (fs !! _) as [c|]; cbn [snd data]; [|apply length_zero_page].
  rewrite length_app, length_drop, length_zero_page, length_take. lia.
Qed.

Lemma disk_page_write dir fs p page q :
  is_int p → is_int q → length (data page) = Z.to_nat kSlruPageSize →
  disk_page dir (WritePageToDisk dir p page fs) q = if decide (p = q) then data page else disk_page dir fs q.
Proof.
  intros Hp Hq Hl. unfold disk_page, ReadPageFromDisk, WritePageToDisk. destruct (decide (p = q)) as [<-|Hne].
  - rewrite lookup_insert_eq. cbn [snd data]. rewrite (take_ge (data page)) by lia. rewrite take_ge by lia.
    rewrite drop_ge by (rewrite length_zero_page; lia). apply app_nil_r.
  - rewrite lookup_insert_ne; [done|]. intros Heq. by apply page_path_inj in Heq.
Qed.

Lemma erase_first_perm p l : p ∈ l → erase_first p l ++ [p] ≡ₚ l.
Proof.
  induction l as [|x l IH]; [by intros ?%not_elem_of_nil|]. intros Hin. cbn [erase_first].
  destruct (x =? p) eqn:E; to_prop; [subst; by rewrite (comm (++))|]. simpl. apply perm_skip, IH.
  by apply elem_of_cons in Hin as [->|].
Qed.

(** Evicting a page makes room and loses nothing. *)
Lemma evict_wf s :
  slru_wf s →
  let s' := EvictOnePage s in
  slru_wf s' ∧ (∀ p, is_int p → contents s' p = contents s p) ∧
  capacity (ctl s') = capacity (ctl s) ∧ (∀ p, pages (ctl s) !! p = None → pages (ctl s') !! p = None) ∧
  (size (pages (ctl s')) = size (pages (ctl s)) - 1)%nat.
Proof.
  intros Hwf s'. destruct (Hwf) as [Hd Hnd Hlru Hk Hc Hsz]. unfold s', EvictOnePage.
  destruct (lru_order (ctl s)) as [|victim rest] eqn:El.
  { split_and!; try done. assert (pages (ctl s) = ∅) as ->; [|by rewrite map_size_empty].
    apply map_empty. intros p. destruct (pages (ctl s) !! p) eqn:E; [|done].
    exfalso. apply (not_elem_of_nil p), Hlru. by rewrite E. }
  destruct (proj1 (Hlru victim)) as [page Hpage]; [set_solver|]. cbn [set_lru pages disk_dir]. rewrite Hpage.
  rewrite (bool_decide_false (disk_dir (ctl s) = "")), andb_true_r by done.
  destruct (Hk _ _ Hpage) as [Hv Hlen]. apply NoDup_cons in Hnd as [Hni Hnd].
  set (fs := if bool_decide (status page = kDirty) then _ else _).
  assert (Hdisk : ∀ q, is_int q → disk_page (disk_dir (ctl s)) fs q =
                    if decide (victim = q) then data page else disk_page (disk_dir (ctl s)) (files s) q).
  { intros q Hq. unfold fs. case_bool_decide as Hst; [by apply disk_page_write|].
    destruct (decide (victim = q)) as [<-|]; [|done]. symmetry. by apply Hc. }
  split_and!.
  - split; cbn [ctl set_pages set_lru disk_dir lru_order pages files capacity]; [done|done| | | |].
    + intros p. rewrite lookup_delete. case_decide as Hp; [subst; split; [done|by intros []]|].
      rewrite <- Hlru, elem_of_cons. split; [by right|]. by intros [->|].
    + intros p pg Hp. rewrite lookup_delete_Some in Hp. by apply Hk, Hp.
    + intros p pg Hp Hst. rewrite lookup_delete_Some in Hp. destruct Hp as [Hne Hp].
      rewrite Hdisk by (by eapply Hk). rewrite decide_False by done. by apply Hc.
    + rewrite map_size_delete_Some by done. lia.
  - intros p Hp. unfold contents. cbn [ctl set_pages set_lru disk_dir lru_order pages files].
    rewrite lookup_delete, Hdisk by done. case_decide; [subst; by rewrite Hpage|done].
  - done.
  - intros p Hp. cbn [ctl set_pages set_lru pages]. rewrite lookup_delete. by case_decide.
  - cbn [ctl set_pages set_lru pages]. rewrite map_size_delete_Some by done. lia.
Qed.

(** A page in the cache is the page it stands for, and loading one keeps all
    others. *)
Lemma load_wf s p :
  slru_wf s → is_int p →
  let '(page, s') := LoadPage p s in
  slru_wf s' ∧ (∀ q, is_int q → contents s' q = contents s q) ∧
  pages (ctl s') !! p = Some page ∧ data page = contents s p.
Proof.
  intros Hwf Hp. unfold LoadPage. destruct (pages (ctl s) !! p) as [page|] eqn:Ep.
  - destruct (Hwf) as [Hd Hnd Hlru Hk Hc Hsz].
    assert (Hperm : erase_first p (lru_order (ctl s)) ++ [p] ≡ₚ lru_order (ctl s)).
    { apply erase_first_perm, Hlru. by rewrite Ep. }
    split_and!; [|done|done|unfold contents; by rewrite Ep].
    split; cbn [upd ctl TouchPage set_lru disk_dir lru_order pages files capacity]; try done.
    + by rewrite Hperm.
    + intros q. by rewrite Hperm.
  - set (s1 := if _ <=? _ then _ else s).
    assert (H1 : slru_wf s1 ∧ (∀ q, is_int q → contents s1 q = contents s q) ∧ pages (ctl s1) !! p = None ∧
                 (Z.of_nat (size (pages (ctl s1))) + 1 ≤ Z.max 1 (capacity (ctl s1)))).
    { unfold s1. destruct (capacity (ctl s) <=? _) eqn:Ecap; to_prop.
      - destruct (evict_wf s Hwf) as (Hw1 & Hc1 & Hcap & Hnone & Hsize). split_and!; [done|done|by apply Hnone|].
        rewrite Hsize, Hcap. pose proof (wf_size s Hwf). lia.
      - split_and!; [done|done|done|lia]. }
    destruct H1 as ([Hd Hnd Hlru Hk Hc Hsz] & Hcont & Hnone & Hroom). clearbody s1.
    rewrite bool_decide_false by done. set (page := snd (ReadPageFromDisk _ _ _ _)).
    assert (Hpage : data page = disk_page (disk_dir (ctl s1)) (files s1) p) by done.
    split_and!; cbn [upd ctl set_lru set_pages pages].
    + split; cbn [upd ctl set_lru set_pages disk_dir lru_order pages files capacity]; [done| | | | |].
      * apply NoDup_app. split_and!; [done| |apply NoDup_singleton]. intros q Hq ->%list_elem_of_singleton.
        apply Hlru in Hq. rewrite Hnone in Hq. by destruct Hq.
      * intros q. rewrite elem_of_app, list_elem_of_singleton, Hlru, lookup_insert.
        case_decide; [subst; naive_solver|]. split; [by intros [?| ->]|by left].
      * intros q pg Hq. apply lookup_insert_Some in Hq as [[<- <-]|[_ Hq]]; [|by apply Hk].
        split; [done|]. rewrite Hpage. apply length_disk_page.
      * intros q pg Hq Hst. apply lookup_insert_Some in Hq as [[<- <-]|[_ Hq]]; [done|by apply Hc].
      * rewrite map_size_insert_None by done. lia.
    + intros q Hq. rewrite <- Hcont by done. unfold contents. cbn [upd ctl set_lru set_pages pages disk_dir files].
      rewrite lookup_insert. case_decide; [subst; by rewrite Hnone|done].
    + by rewrite lookup_insert_eq.
    + rewrite <- Hcont by done. unfold contents. by rewrite Hnone.
Qed.

(** ** The reference: a map from page numbers to pages *)

Definition page_map : Type := Z → list Z.

Inductive slru_op :=
| OpRead (p : Z) (offset len : nat)
| OpWrite (p : Z) (offset : nat) (src : list Z)
| OpFlush
| OpRestart.     (* [SimpleLruFlush], then [SimpleLruReset] *)

Definition exec_op (o : slru_op) (s : slru) : list Z * slru :=
  match o with
  | OpRead p off len => SimpleLruRead p off len s
  | OpWrite p off src => ([], SimpleLruWrite p off src s)
  | OpFlush => ([], SimpleLruFlush s)
  | OpRestart => ([], SimpleLruReset (SimpleLruFlush s))
  end.

Definition spec_op (o : slru_op) (m : page_map) : list Z * page_map :=
  match o with
  | OpRead p off len => (take len (drop off (m p)), m)
  | OpWrite p off src => ([], λ q, if q =? p then overlay off src (m p) else m q)
  | OpFlush | OpRestart => ([], m)
  end.

Fixpoint run_ops {A : Type} (f : slru_op → A → list Z * A) (os : list slru_op) (a : A) : list (list Z) * A :=
  match os with
  | [] => ([], a)
  | o :: os' => let '(r, a1) := f o a in let '(rs, a2) := run_ops f os' a1 in (r :: rs, a2)
  end.

(** The accesses the code may make: page numbers are [int]s and the bytes lie
    inside the page. *)
Definition op_ok (o : slru_op) : Prop :=
  match o with
  | OpRead p off len => is_int p ∧ (off + len ≤ Z.to_nat kSlruPageSize)%nat
  | OpWrite p off src => is_int p ∧ (off + length src ≤ Z.to_nat kSlruPageSize)%nat
  | _ => True
  end.

Definition slru_sim (s : slru) (m : page_map) : Prop := slru_wf s ∧ ∀ p, is_int p → contents s p = m p.

Lemma wf_stats s r w f : slru_wf s → slru_wf (upd (λ c, set_stats (r c) (w c) (f c) c) s).
Proof. intros [????? ?]. by split. Qed.

Lemma length_overlay off src d :
  (off + length src ≤ length d)%nat → length (overlay off src d) = length d.
Proof. intros ?. unfold overlay. rewrite !length_app, length_take, length_drop. lia. Qed.

Lemma lookup_overlay off src d i :
  (off + length src ≤ length d)%nat →
  overlay off src d !! i = if decide (off ≤ i < off + length src)%nat then src !! (i - off)%nat else d !! i.
Proof.
  intros Hb. unfold overlay. case_decide as Hi.
  - rewrite lookup_app_r by (rewrite length_take; lia). rewrite length_take, Nat.min_l by lia. by rewrite lookup_app_l by lia.
  - destruct (decide (i < off)%nat).
    + rewrite lookup_app_l by (rewrite length_take; lia). by rewrite lookup_take_lt.
    + rewrite lookup_app_r by (rewrite length_take; lia). rewrite length_take, Nat.min_l by lia.
      rewrite lookup_app_r by lia. rewrite lookup_drop. f_equal. lia.
Qed.

Lemma slice_overlay off src d : (off + length src ≤ length d)%nat →
  take (length src) (drop off (overlay off src d)) = src.
Proof.
  intros Hb. unfold overlay. rewrite drop_app_ge by (rewrite length_take; lia).
  rewrite length_take, Nat.min_l by lia. by rewrite Nat.sub_diag, drop_0, take_app_length.
Qed.

Lemma slice_overlay_other off src d off' len :
  (off + length src ≤ length d → off' + len ≤ off ∨ off + length src ≤ off' →
   take len (drop off' (overlay off src d)) = take len (drop off' d))%nat.
Proof.
  intros Hb Hd. apply list_eq. intros i. destruct (decide (i < len)%nat).
  - rewrite !lookup_take_lt, !lookup_drop, lookup_overlay by done. rewrite decide_False by lia. done.
  - by rewrite !lookup_take_ge by lia.
Qed.

Lemma slru_write_sim s m p off src :
  slru_sim s m → op_ok (OpWrite p off src) → slru_sim (SimpleLruWrite p off src s) (spec_op (OpWrite p off src) m).2.
Proof.
  intros [Hwf Hm] [Hp Hoff]. unfold SimpleLruWrite. pose proof (load_wf s p Hwf Hp) as Hload.
  destruct (LoadPage p s) as [page s1]. destruct Hload as ([Hd Hnd Hlru Hk Hc Hsz] & Hcont & Hpage & Hdata).
  destruct (Hk _ _ Hpage) as [_ Hlen]. split.
  - split; cbn [upd ctl set_pages set_stats disk_dir lru_order pages files capacity]; [done|done| | | |].
    + intros q. rewrite Hlru, lookup_insert. case_decide; [subst; by rewrite Hpage|done].
    + intros q pg Hq. apply lookup_insert_Some in Hq as [[<- <-]|[_ Hq]]; [|by apply Hk].
      split; [done|]. cbn [data]. rewrite length_overlay; [done|lia].
    + intros q pg Hq Hst. apply lookup_insert_Some in Hq as [[<- <-]|[_ Hq]]; [done|by apply Hc].
    + rewrite map_size_insert_Some by done. done.
  - intros q Hq. unfold contents. cbn [upd ctl set_pages set_stats disk_dir pages files spec_op snd].
    destruct (q =? p) eqn:E; to_prop.
    + subst. rewrite lookup_insert_eq. cbn [data]. by rewrite Hdata, Hm.
    + rewrite lookup_insert_ne by done. rewrite <- Hm, <- Hcont by done. done.
Qed.

Lemma slru_read_sim s m p off len :
  slru_sim s m → op_ok (OpRead p off len) →
  let '(r, s') := SimpleLruRead p off len s in r = take len (drop off (m p)) ∧ slru_sim s' m.
Proof.
  intros [Hwf Hm] [Hp _]. unfold SimpleLruRead. pose proof (load_wf s p Hwf Hp) as Hload.
  destruct (LoadPage p s) as [page s1]. destruct Hload as (Hwf1 & Hcont & _ & Hdata).
  split; [by rewrite Hdata, Hm|]. split; [by apply wf_stats|]. intros q Hq. rewrite <- Hm, <- Hcont by done. done.
Qed.

Lemma flush_fold dir l fs q :
  NoDup l.*1 → (∀ p pg, (p, pg) ∈ l → is_int p ∧ length (data pg) = Z.to_nat kSlruPageSize) → is_int q →
  let fs' := foldl (flush_one dir) fs l in
  (∀ pg, (q, pg) ∈ l → status pg = kDirty → disk_page dir fs' q = data pg) ∧
  ((∀ pg, (q, pg) ∈ l → status pg ≠ kDirty) → disk_page dir fs' q = disk_page dir fs q).
Proof.
  intros Hnd Hok Hq. revert fs. induction l as [|[k pg0] l IH]; intros fs.
  { split; [by intros pg ?%not_elem_of_nil|done]. }
  apply NoDup_cons in Hnd as [Hni Hnd].
  specialize (IH Hnd (λ p pg Hin, Hok p pg (list_elem_of_further _ _ _ Hin))). cbn [foldl].
  set (fs1 := flush_one dir fs (k, pg0)). destruct (IH fs1) as [IH1 IH2].
  destruct (Hok k pg0) as [Hk Hlen]; [apply list_elem_of_here|].
  assert (Hfs1 : disk_page dir fs1 q =
            if decide (k = q ∧ status pg0 = kDirty) then data pg0 else disk_page dir fs q).
  { unfold fs1, flush_one. cbn [fst snd]. case_bool_decide as Hst.
    - rewrite disk_page_write by done. repeat case_decide; naive_solver.
    - case_decide; naive_solver. }
  split.
  - intros pg Hin Hst. apply elem_of_cons in Hin as [Heq|Hin]; [|by apply IH1]. simplify_eq.
    rewrite IH2, Hfs1, decide_True by done || (intros pg' Hin'; exfalso; apply Hni, list_elem_of_fmap; by exists (k, pg')).
    done.
  - intros Hno. rewrite IH2 by (intros pg Hin; apply Hno; by apply list_elem_of_further). rewrite Hfs1, decide_False; [done|].
    intros [-> Hst]. apply (Hno pg0); [apply list_elem_of_here|done].
Qed.

Lemma flush_wf s :
  slru_wf s →
  let s' := SimpleLruFlush s in
  slru_wf s' ∧ (∀ p, is_int p → contents s' p = contents s p) ∧
  (∀ p, is_int p → contents s' p = disk_page (disk_dir (ctl s')) (files s') p).
Proof.
  intros [Hd Hnd Hlru Hk Hc Hsz] s'. unfold s', SimpleLruFlush. rewrite bool_decide_false by done. cbn [negb].
  set (fs := foldl _ _ _).
  assert (Hfold : ∀ q, is_int q → (∀ pg, pages (ctl s) !! q = Some pg → status pg = kDirty → disk_page (disk_dir (ctl s)) fs q = data pg) ∧
     ((∀ pg, pages (ctl s) !! q = Some pg → status pg ≠ kDirty) → disk_page (disk_dir (ctl s)) fs q = disk_page (disk_dir (ctl s)) (files s) q)).
  { intros q Hq. destruct (flush_fold (disk_dir (ctl s)) (map_to_list (pages (ctl s))) (files s) q) as [H1 H2];
      [apply NoDup_fst_map_to_list| |done|].
    - intros p pg Hin. apply elem_of_map_to_list in Hin. by apply Hk.
    - split; [intros pg Hpg; apply H1; by apply elem_of_map_to_list|].
      intros Hno. apply H2. intros pg Hin. apply Hno. by apply elem_of_map_to_list. }
  assert (Hdata : ∀ q pg, pages (ctl s) !! q = Some pg → data pg = disk_page (disk_dir (ctl s)) fs q).
  { intros q pg Hpg. destruct (Hk _ _ Hpg) as [Hq _]. destruct (Hfold q Hq) as [H1 H2].
    destruct (decide (status pg = kDirty)) as [Hst|Hst]; [by rewrite (H1 pg)|]. rewrite H2; [by apply Hc|naive_solver]. }
  assert (Hclean : ∀ pg, data (clean pg) = data pg) by (intros pg; unfold clean; by case_bool_decide).
  assert (Hmiss : ∀ q, is_int q → pages (ctl s) !! q = None →
                  disk_page (disk_dir (ctl s)) fs q = disk_page (disk_dir (ctl s)) (files s) q).
  { intros q Hq Hnone. apply (Hfold q Hq). intros pg. by rewrite Hnone. }
  split; [|split].
  - split; cbn [upd ctl set_pages set_stats disk_dir lru_order pages files capacity]; [done|done| | | |].
    + intros q. by rewrite lookup_fmap, fmap_is_Some.
    + intros q pg Hq. rewrite lookup_fmap_Some in Hq. destruct Hq as (pg0 & <- & Hq). rewrite Hclean. by apply Hk.
    + intros q pg Hq _. rewrite lookup_fmap_Some in Hq. destruct Hq as (pg0 & <- & Hq). rewrite Hclean. by apply Hdata.
    + by rewrite map_size_fmap.
  - intros q Hq. unfold contents. cbn [upd ctl set_pages set_stats disk_dir pages files]. rewrite lookup_fmap.
    destruct (pages (ctl s) !! q) as [pg|] eqn:E; cbn [fmap option_fmap option_map]; [apply Hclean|by apply Hmiss].
  - intros q Hq. unfold contents. cbn [upd ctl set_pages set_stats disk_dir pages files]. rewrite lookup_fmap.
    destruct (pages (ctl s) !! q) as [pg|] eqn:E; cbn [fmap option_fmap option_map]; [|done].
    rewrite Hclean. by apply Hdata.
Qed.

Lemma reset_sim s : slru_wf s → slru_sim (SimpleLruReset (SimpleLruFlush s)) (contents s).
Proof.
  intros Hwf. destruct (flush_wf s Hwf) as ([Hd Hnd Hlru Hk Hc Hsz] & Hsame & Hdisk). split.
  - split; cbn [SimpleLruReset upd ctl set_pages set_lru set_stats disk_dir lru_order pages files capacity]; [done| | | | |].
    + apply NoDup_nil_2.
    + intros p. rewrite lookup_empty. split; [by intros ?%not_elem_of_nil|by intros []].
    + intros p pg. by rewrite lookup_empty.
    + intros p pg. by rewrite lookup_empty.
    + rewrite map_size_empty. lia.
  - intros p Hp. rewrite <- Hsame, Hdisk by done. done.
Qed.

Lemma slru_op_sim o s m :
  slru_sim s m → op_ok o →
  (exec_op o s).1 = (spec_op o m).1 ∧ slru_sim (exec_op o s).2 (spec_op o m).2.
Proof.
  intros Hsim Hok. destruct o as [p off len|p off src| |]; cbn [exec_op].
  - pose proof (slru_read_sim s m p off len Hsim Hok) as Hr. by destruct (SimpleLruRead p off len s).
  - split; [done|]. by apply slru_write_sim.
  - split; [done|]. destruct Hsim as [Hwf Hm]. destruct (flush_wf s Hwf) as (Hwf' & Hsame & _).
    split; [done|]. intros p Hp. cbn [snd spec_op]. rewrite Hsame by done. by apply Hm.
  - split; [done|]. destruct Hsim as [Hwf Hm]. destruct (reset_sim s Hwf) as [Hwf' Hsame].
    split; [done|]. intros p Hp. cbn [snd spec_op]. rewrite Hsame by done. by apply Hm.
Qed.

Lemma run_ops_sim os s m :
  slru_sim s m → Forall op_ok os →
  (run_ops exec_op os s).1 = (run_ops spec_op os m).1 ∧ slru_sim (run_ops exec_op os s).2 (run_ops spec_op os m).2.
Proof.
  intros Hsim Hok. revert s m Hsim. induction Hok as [|o os Ho _ IH]; intros s m Hsim; [done|].
  cbn [run_ops]. destruct (slru_op_sim o s m Hsim Ho) as [Hr Hs]. destruct (exec_op o s) as [r s1], (spec_op o m) as [r' m1].
  destruct (IH s1 m1 Hs) as [Hrs Hs']. destruct (run_ops exec_op os s1), (run_ops spec_op os m1).
  cbn [fst snd] in *. by subst.
Qed.

Lemma slru_init_sim n cap dir fs : dir ≠ "" → slru_sim (mkSlru (SimpleLruInit n cap dir) fs) (disk_page dir fs).
Proof.
  intros Hd. split; [|done]. split; cbn [ctl SimpleLruInit disk_dir lru_order pages files capacity]; [done| | | | |].
  - apply NoDup_nil_2.
  - intros p. rewrite lookup_empty. split; [by intros ?%not_elem_of_nil|by intros []].
  - intros p pg. by rewrite lookup_empty.
  - intros p pg. by rewrite lookup_empty.
  - rewrite map_size_empty. lia.
Qed.

(** The configuration never changes. *)
Definition config (s : slru) : Z * string := (capacity (ctl s), disk_dir (ctl s)).

Lemma evict_config s : config (EvictOnePage s) = config s.
Proof. unfold EvictOnePage. destruct (lru_order _); [done|]. cbn zeta. by destruct (_ !! _). Qed.

Lemma load_config p s : config (LoadPage p s).2 = config s.
Proof. unfold LoadPage. destruct (_ !! p); [done|]. destruct (_ <=? _); [exact (evict_config s)|done]. Qed.

Lemma exec_config o s : config (exec_op o s).2 = config s.
Proof.
  destruct o as [p off len|p off src| |]; cbn [exec_op snd].
  - unfold SimpleLruRead. rewrite <- (load_config p s). by destruct (LoadPage p s).
  - unfold SimpleLruWrite. rewrite <- (load_config p s). by destruct (LoadPage p s).
  - unfold SimpleLruFlush. by destruct (negb _).
  - unfold SimpleLruFlush. by destruct (negb _).
Qed.

Lemma run_config os s : config (run_ops exec_op os s).2 = config s.
Proof.
  revert s. induction os as [|o os IH]; intros s; [done|]. cbn [run_ops].
  rewrite <- (exec_config o s). destruct (exec_op o s) as [r s1]. specialize (IH s1). by destruct (run_ops exec_op os s1).
Qed.


Lemma load_miss_memory p s :
  disk_dir (ctl s) = "" → pages (ctl s) !! p = None → (LoadPage p s).1 = mkSlruPage p kValid zero_page.
Proof.
  intros Hmem Hp. unfold LoadPage. rewrite Hp. cbn [fst]. rewrite bool_decide_eq_true_2; [done|].
  destruct (_ <=? _); [|done]. pose proof (evict_config s) as [= _ Hd]. congruence.
Qed.

Lemma load_evicts p v s rest page :
  lru_order (ctl s) = v :: rest → pages (ctl s) !! v = Some page → pages (ctl s) !! p = None →
  capacity (ctl s) ≤ Z.of_nat (size (pages (ctl s))) →
  pages (ctl (LoadPage p s).2) !! v = None ∧ disk_dir (ctl (LoadPage p s).2) = disk_dir (ctl s).
Proof.
  intros Hlru Hv Hp Hfull. split; [|by pose proof (load_config p s) as [= _ Hd]].
  unfold LoadPage. rewrite Hp, (proj2 (Z.leb_le _ _)) by done. unfold EvictOnePage. rewrite Hlru.
  cbn [set_lru pages]. rewrite Hv. cbn [snd upd ctl set_lru set_pages pages].
  rewrite lookup_insert_ne by congruence. apply lookup_delete_eq.
Qed.

(** A page cache without a directory forgets what it evicts: when it is
    full, reading one more page makes the least recently used page read as
    zeros afterwards, whatever had been written to it. *)
Theorem memory_slru_forgets (s : slru) (p v : Z) (rest : list Z) (page : SlruPage) (off len : nat)
  (Hmem : disk_dir (ctl s) = "") (Hlru : lru_order (ctl s) = v :: rest)
  (Hv : pages (ctl s) !! v = Some page) (Hp : pages (ctl s) !! p = None)
  (Hfull : capacity (ctl s) ≤ Z.of_nat (size (pages (ctl s))))
  (Hin : (off + len ≤ Z.to_nat kSlruPageSize)%nat) :
  let '(before, s0) := SimpleLruRead v off len s in
  let '(_, s1) := SimpleLruRead p 0 1 s in
  before = take len (drop off (data page)) ∧
  (SimpleLruRead v off len s1).1 = replicate len 0.
Proof.
  unfold SimpleLruRead. destruct (load_evicts p v s rest page) as [Hgone Hdir]; [done..|].
  destruct (LoadPage p s) as [page1 s1]. cbn [snd] in Hgone, Hdir. unfold LoadPage at 1. rewrite Hv. split; [done|].
  rewrite (surjective_pairing (LoadPage v _)). cbn [fst].
  rewrite load_miss_memory; [|exact (eq_trans Hdir Hmem)|exact Hgone]. cbn [data]. unfold zero_page.
  rewrite drop_replicate, take_replicate. f_equal. lia.
Qed.

(** ** Witnesses *)

Definition demo_ops : list slru_op := [OpWrite 0 8 [1; 2]; OpWrite 1 0 [3]; OpRead 0 8 2; OpRestart; OpRead 1 0 1].

Lemma demo_ops_ok : Forall op_ok demo_ops.
Proof.
  repeat (apply Forall_cons; split); try exact I; try apply Forall_nil_2;
    (split; [unfold is_int; lia|apply Nat.leb_le; vm_compute; reflexivity]).
Qed.


Definition memory_slru : slru := SimpleLruWrite 7 0 [42] (mkSlru (SimpleLruInit "commit_ts" 1 "") ∅).

Lemma memory_page : pages (ctl memory_slru) !! 7 = Some (mkSlruPage 7 kDirty (overlay 0 [42] zero_page)).
Proof. reflexivity. Qed.

Lemma memory_slru_forgets_witness :
  (SimpleLruRead 7 0 1 (SimpleLruRead 8 0 1 memory_slru).2).1 = [0].
Proof.
  pose proof (memory_slru_forgets memory_slru 8 7 [] _ 0 1 ltac:(reflexivity) ltac:(reflexivity) memory_page
                ltac:(reflexivity) ltac:(discriminate) ltac:(apply Nat.leb_le; vm_compute; reflexivity)) as Hf.
  destruct (SimpleLruRead 7 0 1 memory_slru), (SimpleLruRead 8 0 1 memory_slru) as [r s1].
  exact (proj2 Hf).
Defined.

End Slru.
