(* ===== verification/CommitTs.v ===== *)
(** * Commit timestamps

    Models src/transaction/commit_ts.cpp: an array of 8-byte timestamps indexed
    by transaction id, kept in the pages of an SLRU. *)

From stdpp Require Import base gmap list strings sets.
From S2P Require Import Prelude Transam Slru.
Import Transam Slru.

Module CommitTs.

Definition kTimestampSize : Z := 8.     (* sizeof(TimestampTz) *)
Definition kCommitTsEntriesPerPage : Z := kSlruPageSize / kTimestampSize.

(** [Ctl()], null before initialization, and the files of the cluster. *)
Record commit_ts := mkCts { Ctl : option SlruCtl; cts_files : gmap string (list Z) }.

Definition InitializeCommitTs (dir : string) (s : commit_ts) : commit_ts :=
  let fs := match Ctl s with Some c => SimpleLruFree (mkSlru c (cts_files s)) | None => cts_files s end in
  mkCts (Some (SimpleLruInit "commit_ts" 16 dir)) fs.

(** An operation of the SLRU when it is initialized. *)
Definition on_ctl (f : slru → slru) (s : commit_ts) : commit_ts :=
  match Ctl s with
  | None => s
  | Some c => let r := f (mkSlru c (cts_files s)) in mkCts (Some (ctl r)) (files r)
  end.

Definition ResetCommitTs : commit_ts → commit_ts := on_ctl SimpleLruReset.
Definition ShutdownCommitTs : commit_ts → commit_ts := on_ctl SimpleLruFlush.
Definition FlushCommitTs : commit_ts → commit_ts := on_ctl SimpleLruFlush.

Definition entry_page (xid : Z) : Z := i32 (xid / kCommitTsEntriesPerPage).
Definition entry_offset (xid : Z) : Z := i32 (xid `mod` kCommitTsEntriesPerPage) * kTimestampSize.

Definition TransactionIdSetCommitTs (xid ts : Z) (s : commit_ts) : commit_ts :=
  on_ctl (SimpleLruWrite (entry_page xid) (Z.to_nat (entry_offset xid)) (to_le 8 ts)) s.

Definition TransactionIdGetCommitTs (xid : Z) (s : commit_ts) : Z * commit_ts :=
  match Ctl s with
  | None => (0, s)
  | Some c =>
      if negb (TransactionIdIsValid xid) then (0, s)
      else
        let '(bytes, r) := SimpleLruRead (entry_page xid) (Z.to_nat (entry_offset xid)) 8 (mkSlru c (cts_files s)) in
        (i64 (of_le bytes), mkCts (Some (ctl r)) (files r))
  end.

Definition TransactionTreeSetCommitTsData (xid ts : Z) (subxids : list Z) (s : commit_ts) : commit_ts :=
  foldl (λ s sub, TransactionIdSetCommitTs sub ts s) (TransactionIdSetCommitTs xid ts s) subxids.

(** ** What the log records *)

(** The timestamp an array of pages holds for a transaction. *)
Definition entry (m : page_map) (xid : Z) : Z :=
  i64 (of_le (take 8 (drop (Z.to_nat (entry_offset xid)) (m (entry_page xid))))).

Definition recorded (s : commit_ts) (xid : Z) : Z :=
  match Ctl s with Some c => entry (contents (mkSlru c (cts_files s))) xid | None => 0 end.

Definition cts_ok (s : commit_ts) : Prop :=
  match Ctl s with Some c => slru_wf (mkSlru c (cts_files s)) | None => False end.

Definition is_timestamp (ts : Z) : Prop := - 2 ^ 63 ≤ ts < 2 ^ 63.

Lemma entry_position xid :
  is_u32 xid → entry_page xid = xid / 1024 ∧ entry_offset xid = (xid `mod` 1024) * 8 ∧
               is_int (entry_page xid) ∧ 0 ≤ entry_offset xid ≤ 8184.
Proof.
  unfold is_u32. intros Hx. unfold entry_page, entry_offset. change kCommitTsEntriesPerPage with 1024.
  change kTimestampSize with 8. pose proof (Z.mod_pos_bound xid 1024). pose proof (Z.div_mod xid 1024).
  rewrite !i32_small by lia. unfold is_int. split_and!; lia.
Qed.

Lemma entry_in_page xid : is_u32 xid → (Z.to_nat (entry_offset xid) + 8 ≤ Z.to_nat kSlruPageSize)%nat.
Proof. intros Hx. destruct (entry_position xid Hx) as (_ & _ & _ & ?). change kSlruPageSize with 8192. lia. Qed.

(** Entries of different transactions do not overlap. *)
Lemma entry_write m xid ts y :
  is_u32 xid → is_u32 y → is_timestamp ts → (∀ p, is_int p → length (m p) = Z.to_nat kSlruPageSize) →
  entry (spec_op (OpWrite (entry_page xid) (Z.to_nat (entry_offset xid)) (to_le 8 ts)) m).2 y
  = if decide (y = xid) then ts else entry m y.
Proof.
  intros Hx Hy Hts Hlen. destruct (entry_position xid Hx) as (Hpx & Hox & Hix & Hbx).
  destruct (entry_position y Hy) as (Hpy & Hoy & _ & Hby). pose proof (entry_in_page xid Hx) as Hinx.
  unfold entry. cbn [spec_op snd]. destruct (entry_page y =? entry_page xid) eqn:E; to_prop.
  - rewrite E. set (d := m (entry_page xid)). assert (Hd : length d = Z.to_nat kSlruPageSize) by (by apply Hlen).
    pose proof (length_to_le 8 ts) as Hl8. case_decide as Heq.
    + subst y. pose proof (slice_overlay (Z.to_nat (entry_offset xid)) (to_le 8 ts) d ltac:(lia)) as Hs.
      rewrite Hl8 in Hs. rewrite Hs. by apply i64_of_to_le.
    + rewrite slice_overlay_other; [done|lia|]. rewrite Hl8.
      assert (xid `mod` 1024 ≠ y `mod` 1024).
      { intros Hm. apply Heq. rewrite (Z.div_mod xid 1024), (Z.div_mod y 1024) by lia. lia. }
      lia.
  - rewrite decide_False; [done|]. by intros ->.
Qed.

Lemma length_contents s p : slru_wf s → length (contents s p) = Z.to_nat kSlruPageSize.
Proof.
  intros Hwf. unfold contents. destruct (_ !! p) eqn:E; [by eapply (wf_keys s Hwf)|apply length_disk_page].
Qed.

Lemma entry_ext m m' xid : is_u32 xid → (∀ p, is_int p → m p = m' p) → entry m xid = entry m' xid.
Proof. intros Hx He. destruct (entry_position xid Hx) as (_ & _ & Hi & _). unfold entry. by rewrite He. Qed.

Lemma set_recorded s xid ts :
  cts_ok s → is_u32 xid → is_timestamp ts →
  let s' := TransactionIdSetCommitTs xid ts s in
  cts_ok s' ∧ ∀ y, is_u32 y → recorded s' y = if decide (y = xid) then ts else recorded s y.
Proof.
  intros Hok Hx Hts. unfold cts_ok, recorded, TransactionIdSetCommitTs, on_ctl in *.
  destruct (Ctl s) as [c|]; [|done]. set (st := mkSlru c (cts_files s)) in *. cbn [Ctl cts_files].
  destruct (slru_write_sim st (contents st) (entry_page xid) (Z.to_nat (entry_offset xid)) (to_le 8 ts)) as [Hwf Hm].
  - by split.
  - destruct (entry_position xid Hx) as (_ & _ & Hi & _). split; [done|]. rewrite length_to_le. by apply entry_in_page.
  - set (st' := SimpleLruWrite _ _ _ st) in *.
    assert (Heta : mkSlru (ctl st') (files st') = st') by (by destruct st'). rewrite Heta. split; [done|].
    intros y Hy. rewrite <- entry_write by (try done; intros; by apply length_contents). by apply entry_ext.
Qed.

Lemma get_recorded s xid :
  cts_ok s → is_u32 xid →
  let '(r, s') := TransactionIdGetCommitTs xid s in
  r = (if TransactionIdIsValid xid then recorded s xid else 0) ∧ cts_ok s' ∧ ∀ y, is_u32 y → recorded s' y = recorded s y.
Proof.
  intros Hok Hx. unfold cts_ok, recorded, TransactionIdGetCommitTs in *. destruct (Ctl s) as [c|] eqn:Ec; [|done].
  destruct (TransactionIdIsValid xid); cbn [negb]; [|by rewrite Ec]. set (st := mkSlru c (cts_files s)) in *.
  pose proof (slru_read_sim st (contents st) (entry_page xid) (Z.to_nat (entry_offset xid)) 8) as Hr.
  destruct (SimpleLruRead _ _ _ st) as [bytes st']. cbn [Ctl cts_files].
  destruct Hr as [-> [Hwf Hm]]; [by split| |].
  - destruct (entry_position xid Hx) as (_ & _ & Hi & _). split; [done|by apply entry_in_page].
  - assert (Heta : mkSlru (ctl st') (files st') = st') by (by destruct st'). rewrite Heta.
    split; [done|]. split; [done|]. intros y Hy. by apply entry_ext.
Qed.

(** A shutdown writes everything to the files; starting again finds it. *)
Lemma restart_recorded s dir :
  cts_ok s → (∀ c, Ctl s = Some c → disk_dir c = dir) →
  let s' := InitializeCommitTs dir s in
  cts_ok s' ∧ ∀ y, is_u32 y → recorded s' y = recorded s y.
Proof.
  intros Hok Hdir. unfold cts_ok, recorded, InitializeCommitTs in *. destruct (Ctl s) as [c|] eqn:Ec; [|done].
  cbn [Ctl cts_files]. specialize (Hdir c eq_refl). set (st := mkSlru c (cts_files s)) in *.
  destruct (slru_init_sim "commit_ts" 16 dir (SimpleLruFree st)) as [Hwf Hm].
  { rewrite <- Hdir. apply (wf_dir st Hok). }
  split; [done|]. intros y Hy. apply entry_ext; [done|]. intros p Hp. rewrite Hm by done.
  destruct (flush_wf st Hok) as (_ & Hsame & Hdisk). rewrite <- Hsame, Hdisk by done.
  unfold SimpleLruFree, SimpleLruFlush. rewrite <- Hdir. by destruct (negb _).
Qed.

Lemma tree_recorded s xid ts subs :
  cts_ok s → is_u32 xid → Forall is_u32 subs → is_timestamp ts →
  let s' := TransactionTreeSetCommitTsData xid ts subs s in
  cts_ok s' ∧ ∀ y, is_u32 y → recorded s' y = if decide (y ∈ xid :: subs) then ts else recorded s y.
Proof.
  intros Hok Hx Hsubs Hts. unfold TransactionTreeSetCommitTsData.
  destruct (set_recorded s xid ts Hok Hx Hts) as [Hok1 Hr1]. set (s1 := TransactionIdSetCommitTs xid ts s) in *.
  assert (Hfold : ∀ s1, cts_ok s1 → cts_ok (foldl (λ s sub, TransactionIdSetCommitTs sub ts s) s1 subs) ∧
            ∀ y, is_u32 y → recorded (foldl (λ s sub, TransactionIdSetCommitTs sub ts s) s1 subs) y
                            = if decide (y ∈ subs) then ts else recorded s1 y).
  { clear s1 Hok1 Hr1. induction Hsubs as [|b subs Hb _ IH]; intros s1 Hok1.
    { split; [done|]. intros. by rewrite decide_False by apply not_elem_of_nil. }
    cbn [foldl]. destruct (set_recorded s1 b ts Hok1 Hb Hts) as [Hok2 Hr2]. destruct (IH _ Hok2) as [Hok3 Hr3].
    split; [done|]. intros y Hy. rewrite Hr3, Hr2 by done.
    repeat case_decide; set_solver. }
  destruct (Hfold s1 Hok1) as [Hok2 Hr2]. split; [done|]. intros y Hy. rewrite Hr2, Hr1 by done.
  repeat case_decide; set_solver.
Qed.

Definition directory (s : commit_ts) : option string := disk_dir <$> Ctl s.

Lemma set_directory s xid ts : directory (TransactionIdSetCommitTs xid ts s) = directory s.
Proof.
  unfold directory, TransactionIdSetCommitTs, on_ctl. destruct (Ctl s) as [c|] eqn:Ec; [|by rewrite Ec].
  cbn [Ctl fmap option_fmap option_map]. f_equal.
  pose proof (exec_config (OpWrite (entry_page xid) (Z.to_nat (entry_offset xid)) (to_le 8 ts))
                (mkSlru c (cts_files s))) as [= _ Hd]. exact Hd.
Qed.

Lemma tree_directory s xid ts subs : directory (TransactionTreeSetCommitTsData xid ts subs s) = directory s.
Proof.
  unfold TransactionTreeSetCommitTsData. rewrite <- (set_directory s xid ts). generalize (TransactionIdSetCommitTs xid ts s).
  induction subs as [|b subs IH]; intros s1; [done|]. cbn [foldl]. rewrite IH. apply set_directory.
Qed.

Lemma get_value s y :
  cts_ok s → is_u32 y → (TransactionIdGetCommitTs y s).1 = if TransactionIdIsValid y then recorded s y else 0.
Proof.
  intros Hok Hy. pose proof (get_recorded s y Hok Hy) as Hg. by destruct (TransactionIdGetCommitTs y s), Hg as [-> _].
Qed.

(** Commit timestamps are kept: recording the timestamp of a transaction
    and its subtransactions makes every query of one of them return it, also
    after the module is initialized again on the same directory as after a
    restart, and leaves the timestamps of all other transactions as they
    were; the invalid id always has timestamp 0. *)
Theorem commit_timestamps_kept (s : commit_ts) (dir : string) (xid ts : Z) (subs : list Z) (y : Z)
  (Hok : cts_ok s) (Hdir : directory s = Some dir)
  (Hxid : is_u32 xid) (Hsubs : Forall is_u32 subs) (Hts : is_timestamp ts) (Hy : is_u32 y) :
  let s1 := TransactionTreeSetCommitTsData xid ts subs s in
  let expected := if negb (TransactionIdIsValid y) then 0
                  else if decide (y ∈ xid :: subs) then ts else (TransactionIdGetCommitTs y s).1 in
  (TransactionIdGetCommitTs y s1).1 = expected ∧
  (TransactionIdGetCommitTs y (InitializeCommitTs dir s1)).1 = expected.
Proof.
  intros s1 expected. destruct (tree_recorded s xid ts subs Hok Hxid Hsubs Hts) as [Hok1 Hr1]. fold s1 in Hok1, Hr1.
  assert (Hd1 : ∀ c, Ctl s1 = Some c → disk_dir c = dir).
  { intros c Hc. pose proof (tree_directory s xid ts subs) as Ht. fold s1 in Ht. unfold directory at 1 in Ht.
    rewrite Hc, Hdir in Ht. by injection Ht. }
  destruct (restart_recorded s1 dir Hok1 Hd1) as [Hok2 Hr2].
  rewrite !get_value, Hr2, Hr1 by done. unfold expected. rewrite get_value by done.
  destruct (TransactionIdIsValid y); cbn [negb]; [|done]. by case_decide.
Qed.

Definition fresh_cts : commit_ts := InitializeCommitTs "pg_commit_ts" (mkCts None ∅).

Lemma fresh_ok : cts_ok fresh_cts.
Proof. apply (slru_init_sim "commit_ts" 16 "pg_commit_ts" ∅). done. Qed.

Lemma commit_timestamps_kept_witness :
  (TransactionIdGetCommitTs 2050
     (InitializeCommitTs "pg_commit_ts" (TransactionTreeSetCommitTsData 7 123456789 [2050] fresh_cts))).1 = 123456789.
Proof.
  pose proof (commit_timestamps_kept fresh_cts "pg_commit_ts" 7 123456789 [2050] 2050 fresh_ok eq_refl
    ltac:(unfold is_u32; lia) ltac:(apply Forall_singleton; unfold is_u32; lia)
    ltac:(unfold is_timestamp; lia) ltac:(unfold is_u32; lia)) as Hkept.
  cbv zeta in Hkept. rewrite decide_True in Hkept by (apply list_elem_of_further, list_elem_of_here).
  exact (proj2 Hkept).
Defined.

End CommitTs.
