(* ===== verification/Lock.v ===== *)
(** * Relation locks

    Models src/transaction/lock.cpp and lmgr.cpp: the conflict table of the
    eight lock modes and the list of locks the backend holds, for the
    transaction or for the session. *)

From stdpp Require Import base list sets.
From S2P Require Import Prelude.

Module Lock.

Inductive LockMode :=
| kNoLock | kAccessShareLock | kRowShareLock | kRowExclusiveLock | kShareUpdateExclusiveLock
| kShareLock | kShareRowExclusiveLock | kExclusiveLock | kAccessExclusiveLock.
#[global] Instance mode_eq_dec : EqDecision LockMode.
Proof. solve_decision. Defined.

(** The values of the enumeration. *)
Definition mode_val (m : LockMode) : Z :=
  match m with
  | kNoLock => 0 | kAccessShareLock => 1 | kRowShareLock => 2 | kRowExclusiveLock => 3
  | kShareUpdateExclusiveLock => 4 | kShareLock => 5 | kShareRowExclusiveLock => 6
  | kExclusiveLock => 7 | kAccessExclusiveLock => 8
  end.

Record LockTag := mkTag { relid : Z; locktag_type : Z }.
#[global] Instance tag_eq_dec : EqDecision LockTag.
Proof. solve_decision. Defined.

Definition kLockTagRelation : Z := 1.
Definition kNumLockModes : Z := 8.

Definition kConflictMatrix : list (list bool) :=
  [ [false; false; false; false; false; false; false; false; false];
    [false; false; false; false; false; false; false; false; true];
    [false; false; false; false; false; false; false; true; true];
    [false; false; false; false; false; true; true; true; true];
    [false; false; false; false; true; true; true; true; true];
    [false; false; false; true; true; false; true; true; true];
    [false; false; false; true; true; true; true; true; true];
    [false; false; true; true; true; true; true; true; true];
    [true; true; true; true; true; true; true; true; true] ].

Record HeldLock := mkHeldLock { tag : LockTag; mode : LockMode; session_lock : bool }.

Definition matches (t : LockTag) (m : LockMode) (h : HeldLock) : bool := bool_decide (tag h = t) && bool_decide (mode h = m).

(** The index of the first match, -1 when there is none. *)
Definition FindHeldLock (t : LockTag) (m : LockMode) (locks : list HeldLock) : Z :=
  match list_find (λ h, matches t m h = true) locks with Some (i, _) => Z.of_nat i | None => -1 end.

Definition LockConflicts (mode1 mode2 : LockMode) : bool :=
  let m1 := mode_val mode1 in
  let m2 := mode_val mode2 in
  if (m1 <? 0) || (kNumLockModes <? m1) || (m2 <? 0) || (kNumLockModes <? m2) then true
  else default false (kConflictMatrix !! Z.to_nat m1 ≫= λ row, row !! Z.to_nat m2).

Definition LockAcquire (t : LockTag) (m : LockMode) (session : bool) (locks : list HeldLock) : bool * list HeldLock :=
  if bool_decide (m = kNoLock) then (true, locks)
  else if 0 <=? FindHeldLock t m locks then (true, locks)
  else (true, locks ++ [mkHeldLock t m session]).

Definition LockRelease (t : LockTag) (m : LockMode) (locks : list HeldLock) : bool * list HeldLock :=
  let idx := FindHeldLock t m locks in
  if idx <? 0 then (false, locks) else (true, delete (Z.to_nat idx) locks).

Definition LockReleaseAll (session : bool) (locks : list HeldLock) : list HeldLock :=
  if session then [] else base.filter (λ h, session_lock h = true) locks.

Definition LockHeld (t : LockTag) (m : LockMode) (locks : list HeldLock) : bool :=
  existsb (λ h, bool_decide (tag h = t) && (mode_val m <=? mode_val (mode h))) locks.

(** One round of the loop of [LockModeHeld]. *)
Definition stronger (t : LockTag) (strongest : LockMode) (h : HeldLock) : LockMode :=
  if bool_decide (tag h = t) && (mode_val strongest <? mode_val (mode h)) then mode h else strongest.

Definition LockModeHeld (t : LockTag) (locks : list HeldLock) : LockMode := foldl (stronger t) kNoLock locks.

Definition InitializeLockManager (locks : list HeldLock) : list HeldLock := [].
Definition ResetLockManager (locks : list HeldLock) : list HeldLock := [].
Definition GetLockCount (locks : list HeldLock) : Z := i32 (Z.of_nat (length locks)).

Inductive RowLockStrength := kForKeyShare | kForShare | kForNoKeyUpdate | kForUpdate.

Definition RowLockStrengthToLockMode (s : RowLockStrength) : LockMode :=
  match s with
  | kForUpdate | kForNoKeyUpdate => kRowExclusiveLock
  | kForShare | kForKeyShare => kRowShareLock
  end.

Definition strength_val (s : RowLockStrength) : Z :=
  match s with kForKeyShare => 0 | kForShare => 1 | kForNoKeyUpdate => 2 | kForUpdate => 3 end.

Definition RowLockStrengthConflicts (a b : RowLockStrength) : bool :=
  let s1 := strength_val a in
  let s2 := strength_val b in
  if (s1 =? 3) || (s2 =? 3) then true
  else if (s1 =? 2) || (s2 =? 2) then true
  else false.

(** ** lmgr.cpp *)

Definition relation_tag (r : Z) : LockTag := mkTag r kLockTagRelation.

Definition LockRelation (r : Z) (m : LockMode) := LockAcquire (relation_tag r) m false.
Definition UnlockRelation (r : Z) (m : LockMode) := LockRelease (relation_tag r) m.
Definition UnlockRelations (rs : list Z) (m : LockMode) (locks : list HeldLock) : list HeldLock :=
  foldl (λ l r, (UnlockRelation r m l).2) locks rs.
Definition LockRelationIdForSession (r : Z) (m : LockMode) := LockAcquire (relation_tag r) m true.
Definition UnlockRelationIdForSession (r : Z) (m : LockMode) := LockRelease (relation_tag r) m.

(** ** The lock table *)

(** At most one entry per object and mode, and none for [kNoLock]. *)
Definition table_ok (locks : list HeldLock) : Prop :=
  NoDup ((λ h, (tag h, mode h)) <$> locks) ∧ ∀ h, h ∈ locks → mode h ≠ kNoLock.

Definition holds (locks : list HeldLock) (t : LockTag) (m : LockMode) (session : bool) : Prop :=
  mkHeldLock t m session ∈ locks.

Lemma matches_spec t m h : matches t m h = true ↔ tag h = t ∧ mode h = m.
Proof. unfold matches. rewrite andb_true_iff, !bool_decide_eq_true. done. Qed.

Lemma find_spec t m locks :
  (0 ≤ FindHeldLock t m locks ∧ ∃ s, locks !! Z.to_nat (FindHeldLock t m locks) = Some (mkHeldLock t m s))
  ∨ (FindHeldLock t m locks = -1 ∧ ∀ s, ¬ holds locks t m s).
Proof.
  unfold FindHeldLock. destruct (list_find _ locks) as [[i h]|] eqn:E.
  - left. split; [lia|]. apply list_find_Some in E as (Hi & Hm & _). apply matches_spec in Hm as [<- <-].
    exists (session_lock h). rewrite Nat2Z.id, Hi. by destruct h.
  - right. split; [done|]. intros s Hs. apply list_find_None in E. rewrite Forall_forall in E.
    apply (E _ Hs). by apply matches_spec.
Qed.

Lemma table_ok_inj locks t m s s' : table_ok locks → holds locks t m s → holds locks t m s' → s = s'.
Proof.
  intros [Hnd _] H1 H2. apply list_elem_of_lookup in H1 as [i Hi], H2 as [j Hj].
  assert (i = j) as ->; [|congruence].
  eapply NoDup_lookup; [exact Hnd| |]; rewrite list_lookup_fmap; [by rewrite Hi|by rewrite Hj].
Qed.

Lemma acquire_ok t m s locks :
  table_ok locks →
  let '(r, locks') := LockAcquire t m s locks in
  r = true ∧ table_ok locks' ∧
  (m ≠ kNoLock → ∃ s', holds locks' t m s') ∧
  (∀ t' m' s', holds locks' t' m' s' ↔
     holds locks t' m' s' ∨ (t' = t ∧ m' = m ∧ s' = s ∧ m ≠ kNoLock ∧ ∀ s0, ¬ holds locks t m s0)).
Proof.
  intros Hok. unfold LockAcquire. case_bool_decide as Hm; [split_and!; naive_solver|].
  destruct (find_spec t m locks) as [[Hge [s0 Hi]]|[Hlt Hno]].
  - rewrite (proj2 (Z.leb_le _ _)) by done. apply list_elem_of_lookup_2 in Hi. split_and!; [done|done|by exists s0|].
    intros t' m' s'. split; [by left|]. intros [?|(_ & _ & _ & _ & Hno)]; [done|]. by destruct (Hno s0).
  - rewrite Hlt. simpl. split_and!; [done| | |].
    + destruct Hok as [Hnd Hmodes]. split.
      * rewrite fmap_app. apply NoDup_app. split_and!; [done| |apply NoDup_singleton].
        intros [t' m'] Hin Hin'. simpl in Hin'. apply list_elem_of_singleton in Hin'. simplify_eq.
        apply list_elem_of_fmap in Hin as (h & Heq & Hh). apply (Hno (session_lock h)). unfold holds. destruct h. by simplify_eq/=.
      * intros h Hh. apply elem_of_app in Hh as [Hh|Hh]; [by apply Hmodes|]. by apply list_elem_of_singleton in Hh as ->.
    + intros _. exists s. unfold holds. apply elem_of_app. right. by apply list_elem_of_singleton.
    + intros t' m' s'. unfold holds. rewrite elem_of_app, list_elem_of_singleton. naive_solver.
Qed.

Lemma release_ok t m locks :
  table_ok locks →
  let '(r, locks') := LockRelease t m locks in
  (r = true ↔ ∃ s, holds locks t m s) ∧ table_ok locks' ∧
  ∀ t' m' s', holds locks' t' m' s' ↔ holds locks t' m' s' ∧ ¬ (t' = t ∧ m' = m).
Proof.
  intros Hok. unfold LockRelease. destruct (find_spec t m locks) as [[Hge [s0 Hi]]|[Hlt Hno]].
  - rewrite (proj2 (Z.ltb_ge _ _)) by done. set (i := Z.to_nat _) in *.
    assert (Hperm : locks ≡ₚ mkHeldLock t m s0 :: delete i locks) by (by apply delete_Permutation).
    destruct (Hok) as [Hnd Hmodes].
    assert (Hnd' := Hnd). rewrite Hperm in Hnd'. cbn [fmap list_fmap map tag mode] in Hnd'. apply NoDup_cons in Hnd' as [Hni Hnd'].
    split_and!.
    + split; [|done]. intros _. exists s0. by eapply list_elem_of_lookup_2.
    + split; [done|]. intros h Hh. apply Hmodes. rewrite Hperm. by apply list_elem_of_further.
    + intros t' m' s'. unfold holds. rewrite Hperm at 2. rewrite elem_of_cons. split.
      * intros Hin. split; [by right|]. intros [-> ->]. apply Hni, list_elem_of_fmap. by exists (mkHeldLock t m s').
      * naive_solver.
  - rewrite Hlt. simpl. split_and!; [naive_solver|done|]. intros t' m' s'. split; [|naive_solver].
    intros Hh. split; [done|]. intros [-> ->]. by apply (Hno s').
Qed.

Lemma release_all_ok session locks :
  table_ok locks →
  table_ok (LockReleaseAll session locks) ∧
  ∀ t m s, holds (LockReleaseAll session locks) t m s ↔ session = false ∧ s = true ∧ holds locks t m s.
Proof.
  intros [Hnd Hmodes]. unfold LockReleaseAll, holds. destruct session.
  - split; [split; [apply NoDup_nil_2|by intros h ?%not_elem_of_nil]|]. intros. split; [by intros ?%not_elem_of_nil|by intros [? _]].
  - split.
    + split; [|intros h Hh; apply list_elem_of_filter in Hh as [_ Hh]; by apply Hmodes].
      eapply sublist_NoDup; [exact Hnd|]. apply fmap_sublist, sublist_filter.
    + intros. rewrite list_elem_of_filter. simpl. naive_solver.
Qed.

Lemma mode_held_fold t locks strongest :
  let r := foldl (stronger t) strongest locks in
  (r = strongest ∨ ∃ s, holds locks t r s) ∧ mode_val strongest ≤ mode_val r ∧
  (∀ m s, holds locks t m s → mode_val m ≤ mode_val r).
Proof.
  revert strongest. induction locks as [|h locks IH]; intros strongest; cbn [foldl].
  { split_and!; [by left|lia|]. intros m s Hh. by apply not_elem_of_nil in Hh. }
  set (st := stronger t strongest h). destruct (IH st) as (Hr & Hge & Hall). clear IH. set (r := foldl _ st locks) in *.
  assert (Hst : (st = strongest ∨ (tag h = t ∧ st = mode h)) ∧ mode_val strongest ≤ mode_val st ∧
                (tag h = t → mode_val (mode h) ≤ mode_val st)).
  { unfold st, stronger. case_bool_decide; simpl; [|split_and!; [by left|lia|done]].
    destruct (_ <? _) eqn:E; to_prop; (split_and!; [naive_solver|lia|lia]). }
  destruct Hst as (Hst & Hge' & Hh). split_and!.
  - destruct Hr as [->|[s Hs]]; [|right; exists s; by apply list_elem_of_further].
    destruct Hst as [|[<- ->]]; [by left|]. right. exists (session_lock h). destruct h. apply list_elem_of_here.
  - lia.
  - intros m s Hin. apply elem_of_cons in Hin as [<-|Hin]; [simpl in Hh; specialize (Hh eq_refl); lia|by eapply Hall].
Qed.

Lemma lock_held_iff t m locks :
  m ≠ kNoLock → LockHeld t m locks = true ↔ mode_val m ≤ mode_val (LockModeHeld t locks).
Proof.
  intros Hm. destruct (mode_held_fold t locks kNoLock) as (Hst & _ & Hall). fold (LockModeHeld t locks) in *. split.
  - intros Hheld. apply existsb_exists in Hheld as (h & Hin & Hh). rewrite andb_true_iff, bool_decide_eq_true, Z.leb_le in Hh.
    destruct Hh as [Ht Hle]. etrans; [exact Hle|]. apply (Hall _ (session_lock h)). apply list_elem_of_In in Hin.
    destruct h. simpl in *. by subst.
  - intros Hle. destruct Hst as [Hst|[s Hs]].
    + rewrite Hst in Hle. by destruct m.
    + apply existsb_exists. exists (mkHeldLock t (LockModeHeld t locks) s). split; [by apply list_elem_of_In|].
      cbn [tag mode]. rewrite bool_decide_eq_true_2 by done. by apply Z.leb_le.
Qed.

(** Every sequence of calls. *)
Inductive lock_call :=
| CallAcquire (t : LockTag) (m : LockMode) (session : bool)
| CallRelease (t : LockTag) (m : LockMode)
| CallReleaseAll (session : bool).

Definition exec_call (c : lock_call) (locks : list HeldLock) : list HeldLock :=
  match c with
  | CallAcquire t m s => (LockAcquire t m s locks).2
  | CallRelease t m => (LockRelease t m locks).2
  | CallReleaseAll s => LockReleaseAll s locks
  end.

Definition exec_calls (cs : list lock_call) : list HeldLock := foldl (λ l c, exec_call c l) [] cs.

Lemma calls_ok cs : table_ok (exec_calls cs).
Proof.
  unfold exec_calls. assert (Hgen : ∀ locks, table_ok locks → table_ok (foldl (λ l c, exec_call c l) locks cs)).
  { induction cs as [|c cs IH]; intros locks Hok; [done|]. cbn [foldl]. apply IH. destruct c as [t m s|t m|s]; cbn [exec_call].
    - pose proof (acquire_ok t m s locks Hok) as Ha. destruct (LockAcquire t m s locks). apply Ha.
    - pose proof (release_ok t m locks Hok) as Ha. destruct (LockRelease t m locks). apply Ha.
    - by apply release_all_ok. }
  apply Hgen. split; [apply NoDup_nil_2|by intros h ?%not_elem_of_nil].
Qed.

(** The lock table is exact after any sequence of calls: it has one entry
    per object and mode; acquiring a lock adds it and releasing it removes it,
    whatever else is held, and releasing reports whether it was held; the end
    of a transaction releases exactly the locks not taken for the session; and
    the queries answer with the strongest mode held on the object. *)
Theorem lock_table_exact (cs : list lock_call) (t : LockTag) (m : LockMode) (Hm : m ≠ kNoLock) :
  let locks := exec_calls cs in
  NoDup ((λ h, (tag h, mode h)) <$> locks) ∧
  (∃ s, holds (LockAcquire t m false locks).2 t m s) ∧
  (∀ s, ¬ holds (LockRelease t m locks).2 t m s) ∧
  ((LockRelease t m locks).1 = true ↔ ∃ s, holds locks t m s) ∧
  (∀ t' m' s', (t', m') ≠ (t, m) →
     (holds (LockAcquire t m false locks).2 t' m' s' ↔ holds locks t' m' s') ∧
     (holds (LockRelease t m locks).2 t' m' s' ↔ holds locks t' m' s')) ∧
  (∀ t' m' s', holds (LockReleaseAll false locks) t' m' s' ↔ s' = true ∧ holds locks t' m' s') ∧
  (LockHeld t m locks = true ↔ mode_val m ≤ mode_val (LockModeHeld t locks)).
Proof.
  intros locks. pose proof (calls_ok cs) as Hok. fold locks in Hok. clearbody locks.
  pose proof (acquire_ok t m false locks Hok) as Ha. pose proof (release_ok t m locks Hok) as Hr.
  destruct (LockAcquire t m false locks) as [ra la], (LockRelease t m locks) as [rr lr].
  destruct Ha as (_ & _ & Ha1 & Ha2), Hr as (Hr1 & _ & Hr2). cbn [fst snd]. split_and!.
  - apply Hok.
  - by apply Ha1.
  - intros s Hs. apply Hr2 in Hs. naive_solver.
  - apply Hr1.
  - intros t' m' s' Hne. rewrite Ha2, Hr2. split; naive_solver.
  - intros t' m' s'. destruct (release_all_ok false locks Hok) as [_ Hall]. rewrite Hall. naive_solver.
  - by apply lock_held_iff.
Qed.

(** The conflict table is the documented one: two modes conflict
    symmetrically, a stronger mode conflicts with everything a weaker one
    conflicts with, with the one exception that [ShareLock] does not conflict
    with itself although weaker modes conflict with it; and every mode
    conflicts with [AccessExclusiveLock]. *)
Theorem conflict_table_monotone (a b c : LockMode)
  (Ha : a ≠ kNoLock) (Hb : b ≠ kNoLock) (Hc : c ≠ kNoLock) :
  LockConflicts a b = LockConflicts b a ∧ LockConflicts a kAccessExclusiveLock = true ∧
  (mode_val a ≤ mode_val b → LockConflicts a c = true → LockConflicts b c = true ∨
     (b = kShareLock ∧ c = kShareLock)).
Proof.
  split; [destruct a, b; done|]. split; [destruct a; done|]. intros Hle Hac.
  destruct a, b, c; first [left; reflexivity|right; split; reflexivity|discriminate Hac|destruct (Hle eq_refl)].
Qed.

Lemma conflict_table_monotone_witness :
  LockConflicts kRowExclusiveLock kExclusiveLock = LockConflicts kExclusiveLock kRowExclusiveLock.
Proof.
  exact (proj1 (conflict_table_monotone kRowExclusiveLock kExclusiveLock kShareLock
                  ltac:(discriminate) ltac:(discriminate) ltac:(discriminate))).
Defined.

Lemma lock_table_exact_witness :
  kShareLock ≠ kNoLock ∧
  (∀ s, ¬ holds (LockRelease (relation_tag 5) kShareLock (exec_calls [CallAcquire (relation_tag 5) kShareLock true])).2
          (relation_tag 5) kShareLock s).
Proof.
  assert (Hm : kShareLock ≠ kNoLock) by discriminate.
  split; [exact Hm|].
  exact (proj1 (proj2 (proj2 (lock_table_exact [CallAcquire (relation_tag 5) kShareLock true] (relation_tag 5) kShareLock Hm)))).
Defined.

(** A lock first taken for the transaction and then for the session is not
    kept for the session: the second request finds it held and returns, and
    the end of the transaction releases it. *)
Theorem session_lock_lost (t : LockTag) (m : LockMode) :
  m ≠ kNoLock →
  let locks := (LockAcquire t m true (LockAcquire t m false []).2).2 in
  LockHeld t m locks = true ∧ LockReleaseAll false locks = [].
Proof.
  intros Hm. unfold LockAcquire at 2, FindHeldLock. rewrite (bool_decide_false _ Hm). simpl.
  unfold LockAcquire, FindHeldLock. rewrite (bool_decide_false _ Hm). cbn [app snd].
  cbn [list_find]. rewrite decide_True by (by apply matches_spec). simpl.
  rewrite bool_decide_eq_true_2 by done. rewrite Z.leb_refl. done.
Qed.

End Lock.
