(* ===== verification/Deadlock.v ===== *)
(** * Deadlock detection on the wait-for graph of transactions

    Models src/transaction/deadlock.cpp: the graph of waiting transactions, the
    depth-first search for a cycle through a given transaction, and the choice
    of the victim.

    The search removes a node from [visiting] when it leaves it, so it walks
    every simple path from the start; its recursion depth is bounded by the
    number of transactions that wait, which is the fuel [DetectDeadlock] gives
    it.  The theorems show that this fuel never runs out before the answer. *)

From stdpp Require Import base gmap sets list relations.
From S2P Require Import Prelude Transam.

Module Deadlock.

(** [WaitGraph()]: the transactions each waiter waits for. *)
Abbreviation WaitGraph := (gmap Z (list Z)).

Record DfsState := mkDfs {
  visiting : gset Z;
  path : list Z;
  start_xid : Z;
  found_cycle : bool;
  cycle : list Z
}.

Definition enter (node : Z) (st : DfsState) : DfsState :=
  mkDfs ({[node]} ∪ visiting st) (path st ++ [node]) (start_xid st) (found_cycle st) (cycle st).
Definition leave (node : Z) (st : DfsState) : DfsState :=
  mkDfs (visiting st ∖ {[node]}) (removelast (path st)) (start_xid st) (found_cycle st) (cycle st).
Definition report (st : DfsState) : DfsState :=
  mkDfs (visiting st) (path st) (start_xid st) true (path st).

(** The loop over the neighbours; [leave] when none of them closes a cycle. *)
Fixpoint dfs_neighbors (visit : Z → DfsState → DfsState) (node : Z) (ns : list Z) (st : DfsState) : DfsState :=
  match ns with
  | [] => leave node st
  | neighbor :: ns' =>
      if (neighbor =? start_xid st) && bool_decide (0 < length (path st))%nat then report st
      else if bool_decide (neighbor ∉ visiting st) then
        let st' := visit neighbor st in
        if found_cycle st' then st' else dfs_neighbors visit node ns' st'
      else dfs_neighbors visit node ns' st
  end.

Fixpoint DfsVisit (g : WaitGraph) (fuel : nat) (node : Z) (st : DfsState) : DfsState :=
  match fuel with
  | O => st
  | S f =>
      let st1 := enter node st in
      match g !! node with
      | Some ns => dfs_neighbors (DfsVisit g f) node ns st1
      | None => leave node st1
      end
  end.

Definition AddWaitEdge (waiter holder : Z) (g : WaitGraph) : WaitGraph :=
  let edges := default [] (g !! waiter) in
  <[waiter := if bool_decide (holder ∈ edges) then edges else edges ++ [holder]]> g.

Definition RemoveWaitEdgesFor (xid : Z) (g : WaitGraph) : WaitGraph :=
  base.filter (λ h, h ≠ xid) <$> delete xid g.

Definition run_dfs (g : WaitGraph) (start : Z) : DfsState :=
  DfsVisit g (S (size g)) start (mkDfs ∅ [] start false []).

Definition DetectDeadlock (g : WaitGraph) (start : Z) : bool := found_cycle (run_dfs g start).
Definition FindDeadlockCycle (g : WaitGraph) (start : Z) : list Z := cycle (run_dfs g start).

Definition SelectVictim (cyc : list Z) : Z :=
  match cyc with
  | [] => Transam.kInvalidTransactionId
  | x :: _ => foldl (λ victim xid, if victim <? xid then xid else victim) x cyc
  end.

Definition GetWaitEdges (g : WaitGraph) : list (Z * Z) :=
  flat_map (λ e, map (pair e.1) e.2) (map_to_list g).
Definition GetWaitersFor (holder : Z) (g : WaitGraph) : list Z :=
  (base.filter (λ e : Z * list Z, holder ∈ e.2) (map_to_list g)).*1.
Definition GetHoldersWaitedBy (waiter : Z) (g : WaitGraph) : list Z := default [] (g !! waiter).
Definition ResetDeadlockDetector (g : WaitGraph) : WaitGraph := ∅.

(** ** The meaning of the graph *)

Definition waits (g : WaitGraph) (a b : Z) : Prop := b ∈ default [] (g !! a).

(** [a] waits for the first of [l], each of [l] for the next, the last for [s]. *)
Fixpoint chain (g : WaitGraph) (a : Z) (l : list Z) (s : Z) : Prop :=
  match l with
  | [] => waits g a s
  | b :: l' => waits g a b ∧ chain g b l' s
  end.

Lemma chain_tc g a l s : chain g a l s → tc (waits g) a s.
Proof.
  revert a. induction l as [|b l IH]; intros a; simpl; [by apply tc_once|].
  intros [Hab Hc]. eapply tc_l; [exact Hab|by apply IH].
Qed.

Lemma chain_suffix g a l1 b l2 s : chain g a (l1 ++ b :: l2) s → chain g b l2 s.
Proof. revert a. induction l1 as [|c l1 IH]; intros a; simpl; [by intros [_ ?]|]. intros [_ Hc]. by eapply IH. Qed.

(** Loops can be cut out of a chain. *)
Lemma tc_simple_chain g a s : tc (waits g) a s → ∃ l, chain g a l s ∧ NoDup (a :: l).
Proof.
  induction 1 as [a s Hw|a b s Hw _ (l & Hc & Hnd)].
  - exists []. split; [done|]. apply NoDup_singleton.
  - destruct (decide (a ∈ b :: l)) as [Hin|Hni].
    + apply list_elem_of_split in Hin as (l1 & l2 & Heq). exists l2. destruct l1 as [|c l1]; simplify_eq/=.
      * by split.
      * split; [by eapply chain_suffix|]. by apply NoDup_cons in Hnd as [_ (_ & _ & ?)%NoDup_app].
    + exists (b :: l). split; [done|]. by apply NoDup_cons.
Qed.

(** ** Correctness of the search *)

(** What a search from [node] with the path [p] behind it looks for. *)
Definition closes (g : WaitGraph) (p : list Z) (s node : Z) (l : list Z) : Prop :=
  chain g node l s ∧ NoDup (node :: l) ∧ ∀ x, x ∈ node :: l → x ∉ p.

Record searching (g : WaitGraph) (st : DfsState) : Prop := {
  not_found : found_cycle st = false;
  visiting_path : visiting st = list_to_set (path st);
  path_nodup : NoDup (path st);
  path_waits : ∀ x, x ∈ path st → x ∈ dom g
}.

Definition answers (g : WaitGraph) (node : Z) (st st' : DfsState) : Prop :=
  (found_cycle st' = true ∧
     ∃ l, closes g (path st) (start_xid st) node l ∧ cycle st' = path st ++ node :: l)
  ∨ (st' = st ∧ ∀ l, ¬ closes g (path st) (start_xid st) node l).

Lemma path_bound g st : searching g st → (length (path st) ≤ size g)%nat.
Proof.
  intros [_ _ Hnd Hw]. rewrite <- (size_dom (D := gset Z) g), <- (size_list_to_set (C := gset Z) (path st)) by done.
  apply subseteq_size. intros x Hx. apply elem_of_list_to_set in Hx. by apply Hw.
Qed.

Lemma leave_enter node st : node ∉ visiting st → leave node (enter node st) = st.
Proof.
  intros Hn. destruct st as [v p s f c]. unfold leave, enter. simpl in *. f_equal; [set_solver|].
  apply removelast_last.
Qed.

Lemma enter_searching g node st ns :
  searching g st → node ∉ path st → g !! node = Some ns → searching g (enter node st).
Proof.
  intros [Hf Hv Hnd Hw] Hn Hg. split; simpl; [done|rewrite Hv; set_solver| |].
  - apply NoDup_app. split_and!; [done|set_solver|apply NoDup_singleton].
  - intros x Hx. apply elem_of_app in Hx as [Hx|Hx]; [by apply Hw|].
    apply list_elem_of_singleton in Hx as ->. by apply elem_of_dom.
Qed.

Lemma neighbors_answer g visit node ns st :
  searching g st → path st ≠ [] →
  (∀ nb, nb ∉ path st → answers g nb st (visit nb st)) →
  let st' := dfs_neighbors visit node ns st in
  (found_cycle st' = true ∧
     ((start_xid st ∈ ns ∧ cycle st' = path st) ∨
      ∃ nb l, nb ∈ ns ∧ closes g (path st) (start_xid st) nb l ∧ cycle st' = path st ++ nb :: l))
  ∨ (st' = leave node st ∧ ∀ nb, nb ∈ ns → nb ≠ start_xid st ∧ ∀ l, ¬ closes g (path st) (start_xid st) nb l).
Proof.
  intros Hs Hp Hvisit. induction ns as [|nb ns IH]; cbn [dfs_neighbors]; [right; set_solver|].
  assert (Hpos : bool_decide (0 < length (path st))%nat = true).
  { apply bool_decide_eq_true. destruct (path st); [done|simpl; lia]. }
  rewrite Hpos, andb_true_r. destruct (nb =? start_xid st) eqn:E; to_prop.
  { left. split; [done|]. left. split; [set_solver|done]. }
  destruct (bool_decide (nb ∉ visiting st)) eqn:Ev.
  - apply bool_decide_eq_true in Ev. rewrite (visiting_path g st Hs), elem_of_list_to_set in Ev.
    destruct (Hvisit nb Ev) as [(Hf & l & Hl & Hc)|[Heq Hno]].
    + rewrite Hf. left. split; [done|]. right. exists nb, l. split_and!; [set_solver|done|done].
    + rewrite Heq, (not_found g st Hs). destruct IH as [(Hf & Hc)|[Hl Hno']].
      * left. split; [done|]. destruct Hc as [[? ?]|(nb' & l & ? & ? & ?)]; [left; set_solver|right].
        exists nb', l. split_and!; [set_solver|done|done].
      * right. split; [done|]. intros nb' Hin. apply elem_of_cons in Hin as [->|Hin]; [by split|by apply Hno'].
  - apply bool_decide_eq_false, dec_stable in Ev. rewrite (visiting_path g st Hs), elem_of_list_to_set in Ev.
    destruct IH as [(Hf & Hc)|[Hl Hno']].
    + left. split; [done|]. destruct Hc as [[? ?]|(nb' & l & ? & ? & ?)]; [left; set_solver|right].
      exists nb', l. split_and!; [set_solver|done|done].
    + right. split; [done|]. intros nb' Hin. apply elem_of_cons in Hin as [->|Hin]; [|by apply Hno'].
      split; [done|]. intros l (_ & _ & Hd). apply (Hd nb); [set_solver|done].
Qed.

(** A search that has fuel for the rest of the graph answers, and when it finds
    nothing it leaves its state as it was. *)
Lemma visit_answers g f node st :
  searching g st → node ∉ path st → start_xid st ∈ path st ++ [node] →
  (size g < f + length (path st))%nat → answers g node st (DfsVisit g f node st).
Proof.
  revert node st. induction f as [|f IH]; intros node st Hs Hn Hstart Hf.
  { pose proof (path_bound g st Hs). lia. }
  assert (Hv : node ∉ visiting st) by (by rewrite (visiting_path g st Hs), elem_of_list_to_set).
  cbn [DfsVisit]. destruct (g !! node) as [ns|] eqn:Eg.
  - assert (Hw : ∀ b, waits g node b ↔ b ∈ ns) by (intros b; unfold waits; by rewrite Eg).
    pose proof (enter_searching g node st ns Hs Hn Eg) as Hs1.
    destruct (neighbors_answer g (DfsVisit g f) node ns (enter node st) Hs1) as [(Hfound & Hc)|[Hl Hno]].
    + simpl. by destruct (path st).
    + intros nb Hnb. apply IH; [done|done|simpl; set_solver|]. simpl. rewrite length_app. simpl. lia.
    + left. split; [done|]. destruct Hc as [[Hin Hc]|(nb & l & Hin & (Hch & Hnd & Hd) & Hc)]; simpl in *.
      * exists []. split; [|done]. split_and!; [by apply Hw|apply NoDup_singleton|set_solver].
      * exists (nb :: l). rewrite <- app_assoc in Hc. split; [|done]. split_and!.
        -- by split; [apply Hw|].
        -- apply NoDup_cons. split; [|done]. intros Hx. apply (Hd _ Hx). set_solver.
        -- intros x Hx. apply elem_of_cons in Hx as [->|Hx]; [done|]. specialize (Hd x Hx). set_solver.
    + right. rewrite Hl, leave_enter by done. split; [done|]. intros [|b l] (Hch & Hnd & Hd).
      * destruct (Hno (start_xid st)) as [Hne _]; [by apply Hw|]. by apply Hne.
      * destruct Hch as [Hb Hch]. destruct (Hno b) as [_ Hnone]; [by apply Hw|]. apply (Hnone l).
        apply NoDup_cons in Hnd as [Hni Hnd]. split_and!; [done|done|]. intros x Hx. simpl.
        assert (x ∉ path st) by (apply Hd; set_solver). intros Hin. apply elem_of_app in Hin as [?|Hin]; [done|].
        apply list_elem_of_singleton in Hin as ->. done.
  - right. rewrite leave_enter by done. split; [done|]. intros l (Hch & _ & _).
    destruct l as [|b l]; [|destruct Hch as [Hch _]]; simpl in Hch; unfold waits in Hch; rewrite Eg in Hch;
      by apply not_elem_of_nil in Hch.
Qed.

Lemma run_dfs_spec g s :
  (found_cycle (run_dfs g s) = true ∧ ∃ l, chain g s l s ∧ NoDup (s :: l) ∧ cycle (run_dfs g s) = s :: l)
  ∨ (found_cycle (run_dfs g s) = false ∧ cycle (run_dfs g s) = [] ∧ ¬ tc (waits g) s s).
Proof.
  unfold run_dfs. set (st := mkDfs ∅ [] s false []).
  assert (Hs : searching g st) by (split; [done|done|apply NoDup_nil_2|intros x Hx; by apply not_elem_of_nil in Hx]).
  destruct (visit_answers g (S (size g)) s st Hs) as [(Hf & l & (Hc & Hnd & _) & Hl)|[-> Hno]];
    [apply not_elem_of_nil|by apply list_elem_of_singleton|simpl; lia| |].
  - left. split; [done|]. by exists l.
  - right. split_and!; [done|done|]. intros Htc. apply tc_simple_chain in Htc as (l & Hc & Hnd).
    apply (Hno l). split_and!; [done|done|]. intros x _. apply not_elem_of_nil.
Qed.

(** C35: Deadlock detection is exact: the search from a transaction reports a
    deadlock if and only if that transaction waits, directly or through
    others, for itself; it then returns such a cycle, which starts at the
    transaction, has no repetition, and in which each member waits for the
    next and the last for the first; otherwise it returns none. *)
Theorem deadlock_detection_exact (g : WaitGraph) (s : Z) :
  (DetectDeadlock g s = true ↔ tc (waits g) s s) ∧
  (if DetectDeadlock g s
   then ∃ l, FindDeadlockCycle g s = s :: l ∧ NoDup (s :: l) ∧ chain g s l s
   else FindDeadlockCycle g s = []).
Proof.
  unfold DetectDeadlock, FindDeadlockCycle.
  destruct (run_dfs_spec g s) as [(Hf & l & Hc & Hnd & Hl)|(Hf & Hl & Hno)]; rewrite Hf.
  - split; [|by exists l]. split; [|done]. intros _. by eapply chain_tc.
  - split; [|done]. by split.
Qed.

(** ** The victim *)

Lemma fold_max_spec (l : list Z) (v : Z) :
  let m := foldl (λ victim xid, if victim <? xid then xid else victim) v l in
  (m = v ∨ m ∈ l) ∧ v ≤ m ∧ ∀ x, x ∈ l → x ≤ m.
Proof.
  revert v. induction l as [|y l IH]; intros v; cbn [foldl]; [set_solver by lia|].
  destruct (IH (if v <? y then y else v)) as (Hm & Hge & Hall). cbv zeta in *.
  set (m := foldl _ _ _) in *. destruct (v <? y) eqn:E; to_prop.
  - split_and!; [set_solver|lia|]. intros x Hx. apply elem_of_cons in Hx as [->|Hx]; [lia|by apply Hall].
  - split_and!; [set_solver|lia|]. intros x Hx. apply elem_of_cons in Hx as [->|Hx]; [lia|by apply Hall].
Qed.

Lemma victim_spec (cyc : list Z) : cyc ≠ [] → SelectVictim cyc ∈ cyc ∧ ∀ x, x ∈ cyc → x ≤ SelectVictim cyc.
Proof.
  destruct cyc as [|x cyc]; [done|]. intros _. unfold SelectVictim.
  destruct (fold_max_spec (x :: cyc) x) as (Hm & _ & Hall). split; [|done]. destruct Hm as [->|]; [set_solver|done].
Qed.

Lemma waits_remove g v a b : waits (RemoveWaitEdgesFor v g) a b ↔ waits g a b ∧ a ≠ v ∧ b ≠ v.
Proof.
  unfold waits, RemoveWaitEdgesFor. rewrite lookup_fmap. destruct (decide (a = v)) as [->|Hne].
  - rewrite lookup_delete_eq. simpl. set_solver.
  - rewrite lookup_delete_ne by done. destruct (g !! a) as [ns|]; simpl; [|set_solver].
    rewrite list_elem_of_filter. naive_solver.
Qed.

Lemma waits_add g w h a b : waits (AddWaitEdge w h g) a b ↔ waits g a b ∨ (a = w ∧ b = h).
Proof.
  unfold waits, AddWaitEdge. destruct (decide (a = w)) as [->|Hne].
  - rewrite lookup_insert_eq. simpl. case_bool_decide; [naive_solver|]. rewrite elem_of_app, list_elem_of_singleton. naive_solver.
  - rewrite lookup_insert_ne by done. naive_solver.
Qed.

Lemma chain_member g a l s x : chain g a l s → x ∈ a :: l → ∃ y, waits g x y.
Proof.
  revert a. induction l as [|b l IH]; intros a Hc Hx; simpl in Hc.
  - apply list_elem_of_singleton in Hx as ->. by exists s.
  - destruct Hc as [Hab Hc]. apply elem_of_cons in Hx as [->|Hx]; [by exists b|by apply (IH b)].
Qed.

(** Aborting the chosen victim breaks a deadlock: the victim is the
    member of the cycle with the highest id, and once its edges are removed
    the cycle is gone, the victim waits for nobody, and the waits between all
    other transactions are as before; recording a wait adds that edge only. *)
Theorem victim_breaks_cycle (g : WaitGraph) (s : Z) (Hdead : DetectDeadlock g s = true) :
  let cyc := FindDeadlockCycle g s in
  let v := SelectVictim cyc in
  let g' := RemoveWaitEdgesFor v g in
  (v ∈ cyc ∧ ∀ x, x ∈ cyc → x ≤ v) ∧
  (∃ l, cyc = s :: l ∧ chain g s l s ∧ ¬ chain g' s l s) ∧
  DetectDeadlock g' v = false ∧
  (∀ a b, a ≠ v → b ≠ v → waits g' a b ↔ waits g a b) ∧
  (∀ w h a b, waits (AddWaitEdge w h g) a b ↔ waits g a b ∨ (a = w ∧ b = h)).
Proof.
  intros cyc v g'. unfold DetectDeadlock in Hdead.
  destruct (run_dfs_spec g s) as [(_ & l & Hc & Hnd & Hl)|(Hf & _)]; [|congruence].
  assert (Hv : v ∈ cyc ∧ ∀ x, x ∈ cyc → x ≤ v) by (apply victim_spec; unfold cyc, FindDeadlockCycle; by rewrite Hl).
  assert (Hnone : ∀ y, ¬ waits g' v y) by (intros y Hy; apply waits_remove in Hy; naive_solver).
  split; [exact Hv|]. split_and!.

  - exists l. split_and!; [exact Hl|done|]. intros Hc'. destruct (chain_member g' s l s v Hc') as [y Hy].
    + rewrite <- Hl. apply Hv.
    + by apply Hnone in Hy.
  - unfold DetectDeadlock. destruct (run_dfs_spec g' v) as [(_ & l' & Hc' & _)|(-> & _)]; [|done].
    destruct (chain_member g' v l' v v Hc') as [y Hy]; [set_solver|]. by apply Hnone in Hy.
  - intros a b Ha Hb. unfold g'. rewrite waits_remove. naive_solver.
  - intros. apply waits_add.
Qed.

(** Two transactions that wait for each other. *)
Definition demo_graph : WaitGraph := AddWaitEdge 12 11 (AddWaitEdge 11 12 ∅).

Lemma victim_breaks_cycle_witness :
  FindDeadlockCycle demo_graph 11 = [11; 12] ∧ DetectDeadlock (RemoveWaitEdgesFor 12 demo_graph) 12 = false.
Proof.
  assert (Hdead : DetectDeadlock demo_graph 11 = true) by (vm_compute; reflexivity).
  split; [vm_compute; reflexivity|].
  exact (proj1 (proj2 (proj2 (victim_breaks_cycle demo_graph 11 Hdead)))).
Defined.

End Deadlock.
