(* ===== verification/WaitFor.v ===== *)
(** * The wait-for graph of backends

    Models src/storage/ipc/deadlock.cpp: every backend waits for at most one
    other, so the search for a deadlock follows one chain of waits.  The loop
    takes one step per distinct waiter, which bounds its fuel. *)

From stdpp Require Import base gmap sets list relations.
From S2P Require Import Prelude.

Module WaitFor.

(** [WaitGraph()]: the blocker of each waiter. *)
Abbreviation WaitGraph := (gmap Z Z).

Definition RegisterWaitFor (waiter blocker : Z) (g : WaitGraph) : WaitGraph := <[waiter := blocker]> g.
Definition UnregisterWaitFor (waiter : Z) (g : WaitGraph) : WaitGraph := delete waiter g.
Definition ClearWaitForGraph (g : WaitGraph) : WaitGraph := ∅.

Definition WaitForEdges (g : WaitGraph) : list (Z * Z) := map_entries g.

(** [on_path .. path.end()]: the path from the first occurrence of a node on. *)
Fixpoint path_from (n : Z) (path : list Z) : list Z :=
  match path with
  | [] => []
  | x :: path' => if x =? n then path else path_from n path'
  end.

(** The loop of [FindDeadlockCycle]: [Some cycle] when it returns true. *)
Fixpoint follow (g : WaitGraph) (fuel : nat) (visited : gset Z) (path : list Z) (current : Z) : option (list Z) :=
  match fuel with
  | O => None
  | S f =>
      if current =? -1 then None
      else if bool_decide (current ∈ path) then Some (path_from current path ++ [current])
      else if bool_decide (current ∈ visited) then None
      else
        match g !! current with
        | None => None
        | Some next => follow g f ({[current]} ∪ visited) (path ++ [current]) next
        end
  end.

Definition FindDeadlockCycle (start : Z) (g : WaitGraph) : option (list Z) := follow g (S (S (size g))) ∅ [] start.

(** The starts tried by [HasDeadlock], in order, with the set of checked nodes;
    an unsuccessful search leaves the cycle empty, so only its start is added. *)
Fixpoint any_cycle (g : WaitGraph) (starts : list Z) (checked : gset Z) : bool :=
  match starts with
  | [] => false
  | n :: starts' =>
      if bool_decide (n ∈ checked) then any_cycle g starts' checked
      else match FindDeadlockCycle n g with
           | Some _ => true
           | None => any_cycle g starts' ({[n]} ∪ checked)
           end
  end.

Definition HasDeadlock (g : WaitGraph) : bool := any_cycle g (WaitForEdges g).*1 ∅.

(** ** The meaning of the graph

    The node number -1 stands for "nobody". *)

Definition waits (g : WaitGraph) (a b : Z) : Prop := g !! a = Some b ∧ a ≠ -1 ∧ b ≠ -1.

Lemma waits_det g a b c : waits g a b → waits g a c → b = c.
Proof. intros [? _] [? _]. congruence. Qed.

(** [ends_up g l b]: the chain of waits through [l] arrives at [b]. *)
Fixpoint ends_up (g : WaitGraph) (l : list Z) (b : Z) : Prop :=
  match l with
  | [] => True
  | a :: l' => waits g a (match l' with [] => b | c :: _ => c end) ∧ ends_up g l' b
  end.

Lemma ends_up_snoc g l a b : ends_up g l a → waits g a b → ends_up g (l ++ [a]) b.
Proof.
  intros Hl Hab. induction l as [|x l IH]; [by split|]. simpl in Hl |- *. destruct Hl as [Hx Hl].
  split; [|by apply IH]. by destruct l.
Qed.

Lemma ends_up_tc g x l b : ends_up g (x :: l) b → tc (waits g) x b.
Proof.
  revert x. induction l as [|y l IH]; intros x; simpl; intros [Hx Hl]; [by apply tc_once|].
  eapply tc_l; [exact Hx|]. by apply IH.
Qed.

Lemma path_from_spec g n path b :
  n ∈ path → ends_up g path b → ∃ l, path_from n path = n :: l ∧ ends_up g (n :: l) b.
Proof.
  induction path as [|x path IH]; [by intros ?%not_elem_of_nil|]. intros Hin Hp. cbn [path_from].
  destruct (x =? n) eqn:E; to_prop.
  - subst. by exists path.
  - apply elem_of_cons in Hin as [->|Hin]; [done|]. apply IH; [done|]. by destruct Hp.
Qed.

(** The chain of waits from a node that leads to no cycle comes to an end. *)
Inductive stops (g : WaitGraph) : Z → Prop :=
| stops_end a : (∀ b, ¬ waits g a b) → stops g a
| stops_step a b : waits g a b → stops g b → stops g a.

Lemma stops_no_cycle g a : stops g a → ∀ n, rtc (waits g) a n → ¬ tc (waits g) n n.
Proof.
  assert (Hself : ∀ c, stops g c → ¬ tc (waits g) c c).
  { induction 1 as [c Hend|c d Hcd _ IH]; intros Htc.
    - inversion Htc; subst; by eapply Hend.
    - apply IH. inversion Htc as [? ? Hc|? e ? Hc Hr]; subst.
      + assert (d = c) as -> by (by eapply waits_det). by apply tc_once.
      + assert (d = e) as <- by (by eapply waits_det). eapply tc_r; [exact Hr|done]. }
  intros Hs n Hr. revert Hs. induction Hr as [c|c d e Hcd Hde IH]; [by apply Hself|].
  intros Hs. apply IH. inversion Hs as [? Hend|? d' Hcd' Hs']; subst; [by apply Hend in Hcd|].
  by assert (d = d') as -> by (by eapply waits_det).
Qed.

Record walking (g : WaitGraph) (visited : gset Z) (path : list Z) (current : Z) : Prop := {
  visited_path : visited = list_to_set path;
  path_nodup : NoDup path;
  path_keys : ∀ x, x ∈ path → x ∈ dom g ∧ x ≠ -1;
  path_chain : current ≠ -1 → ends_up g path current
}.

Lemma walk_bound g visited path current : walking g visited path current → (length path ≤ size g)%nat.
Proof.
  intros [_ Hnd Hk _]. rewrite <- (size_dom (D := gset Z) g), <- (size_list_to_set (C := gset Z) path) by done.
  apply subseteq_size. intros x Hx. apply elem_of_list_to_set in Hx. by apply Hk.
Qed.

(** A cycle the search may report for a start: closed, and reached from there. *)
Definition reported (g : WaitGraph) (start : Z) (cyc : list Z) : Prop :=
  ∃ n l, cyc = n :: l ++ [n] ∧ ends_up g (n :: l) n ∧ rtc (waits g) start n.

Lemma follow_spec g f visited path current :
  walking g visited path current → (S (size g) < f + length path)%nat →
  match follow g f visited path current with
  | Some cyc => reported g current cyc
  | None => stops g current
  end.
Proof.
  revert visited path current. induction f as [|f IH]; intros visited path current Hw Hf.
  { pose proof (walk_bound _ _ _ _ Hw). lia. }
  destruct (Hw) as [Hv Hnd Hk Hc]. cbn [follow]. destruct (current =? -1) eqn:E1; to_prop.
  { apply stops_end. intros b (_ & ? & _). done. }
  case_bool_decide as Hin.
  { destruct (path_from_spec g current path current Hin (Hc E1)) as (l & -> & Hl).
    exists current, l. split_and!; [done|done|apply rtc_refl]. }
  rewrite Hv, bool_decide_false by (by rewrite elem_of_list_to_set).
  destruct (g !! current) as [next|] eqn:Eg.
  2: { apply stops_end. intros b (Hb & _). congruence. }
  assert (Hstep : next ≠ -1 → waits g current next) by done.
  assert (Hw' : walking g ({[current]} ∪ list_to_set path) (path ++ [current]) next).
  { split; [set_solver| | |].
    - apply NoDup_app. split_and!; [done|set_solver|apply NoDup_singleton].
    - intros x Hx. apply elem_of_app in Hx as [Hx|Hx]; [by apply Hk|].
      apply list_elem_of_singleton in Hx as ->. split; [by apply elem_of_dom|done].
    - intros Hne. apply ends_up_snoc; [by apply Hc|by apply Hstep]. }
  specialize (IH _ _ _ Hw'). rewrite length_app in IH. simpl in IH. specialize (IH ltac:(lia)).
  destruct (decide (next = -1)) as [->|Hne].
  - assert (Hnone : follow g f ({[current]} ∪ list_to_set path) (path ++ [current]) (-1) = None) by (by destruct f).
    rewrite Hnone. apply stops_end. intros b (Hb & _ & Hb1). congruence.
  - destruct (follow _ _ _ _ next) as [cyc|]; [|by eapply stops_step; [apply Hstep|]].
    destruct IH as (n & l & -> & Hl & Hr). exists n, l. split_and!; [done|done|].
    eapply rtc_l; [by apply Hstep|done].
Qed.

Lemma find_cycle_spec g start :
  match FindDeadlockCycle start g with
  | Some cyc => reported g start cyc
  | None => stops g start
  end.
Proof.
  apply follow_spec; [|simpl; lia]. split; [done|apply NoDup_nil_2| |done].
  intros x Hx. by apply not_elem_of_nil in Hx.
Qed.

Lemma any_cycle_false g starts checked :
  any_cycle g starts checked = false → (∀ n, n ∈ checked → stops g n) → ∀ n, n ∈ starts → stops g n.
Proof.
  revert checked. induction starts as [|a starts IH]; intros checked Hany Hck n Hn; [by apply not_elem_of_nil in Hn|].
  cbn [any_cycle] in Hany. pose proof (find_cycle_spec g a) as Ha. case_bool_decide.
  - apply elem_of_cons in Hn as [->|Hn]; [by apply Hck|by eapply IH].
  - destruct (FindDeadlockCycle a g); [done|]. apply elem_of_cons in Hn as [->|Hn]; [done|].
    eapply IH; [exact Hany| |done]. intros m Hm. apply elem_of_union in Hm as [Hm|Hm]; [|by apply Hck].
    apply elem_of_singleton in Hm as ->. done.
Qed.

Lemma any_cycle_true g starts checked : any_cycle g starts checked = true → ∃ n cyc, reported g n cyc.
Proof.
  revert checked. induction starts as [|a starts IH]; intros checked; [done|]. cbn [any_cycle].
  pose proof (find_cycle_spec g a) as Ha. case_bool_decide; [by apply IH|].
  destruct (FindDeadlockCycle a g) as [cyc|]; [|by apply IH]. intros _. by exists a, cyc.
Qed.

Lemma edge_keys g a b : waits g a b → a ∈ (WaitForEdges g).*1.
Proof.
  intros (Hg & _). apply list_elem_of_fmap. exists (a, b). split; [done|]. by apply elem_of_map_entries.
Qed.

(** The check for deadlocks among backends is exact: [HasDeadlock] answers
    true if and only if some backend waits, through any number of others, for
    itself.  The search from one backend returns a closed chain of waits that
    this backend leads to, and when it returns none no such chain exists. *)
Theorem has_deadlock_iff_cycle (g : WaitGraph) :
  (HasDeadlock g = true ↔ ∃ n, tc (waits g) n n) ∧
  ∀ start, match FindDeadlockCycle start g with
           | Some cyc => reported g start cyc
           | None => ∀ n, rtc (waits g) start n → ¬ tc (waits g) n n
           end.
Proof.
  split; [split|].
  - intros Hany. apply any_cycle_true in Hany as (n & cyc & m & l & _ & Hl & _). exists m. by eapply ends_up_tc.
  - intros (n & Htc). destruct (HasDeadlock g) eqn:E; [done|]. exfalso.
    assert (Hs : stops g n).
    { eapply any_cycle_false; [exact E|set_solver|]. inversion Htc; subst; by eapply edge_keys. }
    apply (stops_no_cycle g n Hs n); [apply rtc_refl|done].
  - intros start. pose proof (find_cycle_spec g start) as Hs. destruct (FindDeadlockCycle start g); [done|].
    by apply stops_no_cycle.
Qed.

End WaitFor.
