(* ===== verification/RelFile.v ===== *)
(** * Relation files and the storage manager's interface

    The identifiers of include/storage/relfilenode.hpp and
    include/storage/block.hpp, the page tag of include/storage/buf_internals.hpp,
    and the interface the buffer manager uses of the storage manager: the
    operations as a class, and the laws a client relies on as a second class.
    [Smgr] implements both; [BufMgr] is proved against them. *)

From stdpp Require Import base gmap list strings.
From S2P Require Import Prelude.

Module RelFile.

(** [BlockNumber] is a [uint32_t]. *)
Definition kInvalidBlockNumber : Z := 0xFFFFFFFF.
Definition kBlckSz : Z := 8192.
Definition kRelSegSize : Z := 131072.

Inductive ForkNumber := kInvalid | kMain | kFsm | kVisibilityMap | kInit.

#[export] Instance ForkNumber_eq_dec : EqDecision ForkNumber.
Proof. solve_decision. Defined.

(** [static_cast<int>(fork_num)]. *)
Definition fork_int (f : ForkNumber) : Z :=
  match f with kInvalid => -1 | kMain => 0 | kFsm => 1 | kVisibilityMap => 2 | kInit => 3 end.
Definition kNumForks : Z := 4.
(** The forks a loop [for (i = 0; i < kNumForks; ++i)] casts its counter to. *)
Definition all_forks : list ForkNumber := [kMain; kFsm; kVisibilityMap; kInit].

Record RelFileNode := mkRelFileNode { spc_node : Z; db_node : Z; rel_node : Z }.
#[export] Instance RelFileNode_eq_dec : EqDecision RelFileNode.
Proof. solve_decision. Defined.

Record RelFileNodeBackend := mkRelFileNodeBackend { node : RelFileNode; backend : Z }.
#[export] Instance RelFileNodeBackend_eq_dec : EqDecision RelFileNodeBackend.
Proof. solve_decision. Defined.

Definition RelFileNodeIsValid (rnode : RelFileNode) : bool := negb (rel_node rnode =? 0).
Definition BlockNumberIsValid (block_num : Z) : bool := negb (block_num =? kInvalidBlockNumber).

Record BufferTag := mkBufferTag { rnode : RelFileNode; fork_num : ForkNumber; block_num : Z }.
#[export] Instance BufferTag_eq_dec : EqDecision BufferTag.
Proof. solve_decision. Defined.

(** [BufferTag{}]: the default member initialisers. *)
Definition empty_tag : BufferTag := mkBufferTag (mkRelFileNode 0 0 0) kInvalid kInvalidBlockNumber.

(** ** The interface

    A read fills the caller's page and may fail after having written part of
    it, so it takes the page and returns it with the outcome. *)

Class PageStore (S : Type) := {
  smgropen_ : RelFileNodeBackend → S → S;
  smgrread_ : RelFileNodeBackend → ForkNumber → Z → list Z → S → outcome unit * list Z * S;
  smgrwrite_ : RelFileNodeBackend → ForkNumber → Z → list Z → M S unit;
}.

Definition is_page (p : list Z) : Prop := length p = Z.to_nat kBlckSz.

(** What a client may rely on.  [ps_loc] is the place on disk a tag denotes:
    two tags may share one. *)
Class PageStoreLaws (S : Type) `{PageStore S} := {
  ps_place : Type;
  ps_place_dec :: EqDecision ps_place;
  ps_loc : BufferTag → ps_place;
  ps_page : S → ps_place → option (list Z);
  ps_ok : S → Prop;
  ps_open : S → RelFileNodeBackend → Prop;
  ps_valid : BufferTag → Prop;
  ps_page_length s l p : ps_ok s → ps_page s l = Some p → is_page p;
  ps_open_law rn s :
    ps_ok s → let s' := smgropen_ rn s in
    ps_ok s' ∧ ps_open s' rn ∧ (∀ rn', ps_open s rn' → ps_open s' rn') ∧
    (∀ l, ps_page s' l = ps_page s l);
  ps_read_law rn t buf s :
    ps_ok s → ps_open s rn → rnode t = node rn → ps_valid t → is_page buf →
    ∃ o buf' s', smgrread_ rn (fork_num t) (block_num t) buf s = (o, buf', s') ∧
      ps_ok s' ∧ (∀ rn', ps_open s rn' → ps_open s' rn') ∧ (∀ l, ps_page s' l = ps_page s l) ∧
      is_page buf' ∧
      match ps_page s (ps_loc t) with
      | Some p => o = Ret tt ∧ buf' = p
      | None => ∃ e, o = Ereport e
      end;
  ps_write_law rn t p s :
    ps_ok s → ps_open s rn → rnode t = node rn → ps_valid t → is_page p →
    is_Some (ps_page s (ps_loc t)) →
    ∃ s', smgrwrite_ rn (fork_num t) (block_num t) p s = (Ret tt, s') ∧
      ps_ok s' ∧ (∀ rn', ps_open s rn' → ps_open s' rn') ∧
      (∀ l, ps_page s' l = if decide (l = ps_loc t) then Some p else ps_page s l);
}.

End RelFile.
