(* ===== verification/Smgr.v ===== *)
(** * The storage manager

    src/storage/smgr/md.cpp and src/storage/smgr/smgr.cpp: relation forks as
    segment files of [kRelSegSize] blocks, the list of open relations with
    their cached file descriptors, and the path of a segment.

    The file system is a map from paths to inodes and from inodes to bytes: a
    descriptor keeps its inode when the path is unlinked.  Every operation
    seeks before it transfers, so a descriptor is its inode.  A relation
    handle ([SmgrRelation], a pointer into the list) is the relation's
    identifier, which is unique in the list.  [fsync] has no effect on the
    model.  Failures of the operating system other than a missing file, an
    existing file and a missing directory do not occur in it. *)

From Stdlib Require Import Ascii.
From stdpp Require Import base gmap list strings.
From S2P Require Import Prelude CString RelFile.

Module Smgr.
Import CString RelFile.

(** ** The file system *)

Record Disk := mkDisk {
  names : gmap string nat;          (* path to inode *)
  inodes : gmap nat (list Z);       (* inode to bytes *)
  next_inode : nat;
  dirs : gset string;               (* the directories that exist *)
}.

Definition file_bytes (d : Disk) (i : nat) : list Z := default [] (inodes d !! i).

Definition put_bytes (i : nat) (b : list Z) (d : Disk) : Disk :=
  mkDisk (names d) (<[i := b]> (inodes d)) (next_inode d) (dirs d).

Definition new_file (path : string) (d : Disk) : Disk :=
  mkDisk (<[path := next_inode d]> (names d)) (<[next_inode d := []]> (inodes d))
    (S (next_inode d)) (dirs d).

(** [unlink(path)]; false is the failure with [ENOENT]. *)
Definition unlink (path : string) (d : Disk) : bool * Disk :=
  match names d !! path with
  | Some _ => (true, mkDisk (delete path (names d)) (inodes d) (next_inode d) (dirs d))
  | None => (false, d)
  end.

(** [stat(path, &st)] and its [st_size]. *)
Definition stat_size (path : string) (d : Disk) : option Z :=
  i ← names d !! path; Some (Z.of_nat (length (file_bytes d i))).

Definition slash : ascii := "/"%char.

(** [file_path.substr(0, find_last_of('/'))], when there is a slash. *)
Fixpoint parent_chars (l : list ascii) : option (list ascii) :=
  match l with
  | [] => None
  | c :: l' => match parent_chars l' with
               | Some p => Some (c :: p)
               | None => if Ascii.eqb c slash then Some [] else None
               end
  end.
Definition parent (path : string) : option string := of_chars <$> parent_chars (chars path).

(** ** Segment files (md.cpp) *)

Record MdfdEntry := mkMdfd { fd : option nat;   (* None is -1 *) segno : Z }.
Definition no_fd : MdfdEntry := mkMdfd None 0.

Record SmgrRelationData := mkSmgrRelation {
  smgr_rnode : RelFileNodeBackend;
  md_fd : ForkNumber → list MdfdEntry;
}.

Record Smgr := mkSmgr {
  disk : Disk;
  relations : list SmgrRelationData;     (* the chain from [g_smgr_hash.head] *)
  g_storage_base_dir : string;
}.

Definition with_disk (f : Disk → Disk) (s : Smgr) : Smgr :=
  mkSmgr (f (disk s)) (relations s) (g_storage_base_dir s).
Definition with_relations (f : list SmgrRelationData → list SmgrRelationData) (s : Smgr) : Smgr :=
  mkSmgr (disk s) (f (relations s)) (g_storage_base_dir s).

Definition find_relation (rn : RelFileNodeBackend) (l : list SmgrRelationData) : option SmgrRelationData :=
  head (base.filter (λ r, smgr_rnode r = rn) l).

(** [reln->md_fd[fork]]; a relation that is not open has no handle. *)
Definition fds (rn : RelFileNodeBackend) (f : ForkNumber) (s : Smgr) : list MdfdEntry :=
  match find_relation rn (relations s) with Some r => md_fd r f | None => [] end.
Definition set_fds (rn : RelFileNodeBackend) (f : ForkNumber) (l : list MdfdEntry) : Smgr → Smgr :=
  with_relations (map (λ r,
    if decide (smgr_rnode r = rn)
    then mkSmgrRelation (smgr_rnode r) (λ g, if decide (g = f) then l else md_fd r g) else r)).

Definition to_string (z : Z) : string := of_chars (print_digits 10 10 z).

(** The suffix of a fork; [None] is the [default] case, an error. *)
Definition fork_suffix (f : ForkNumber) : option string :=
  match f with
  | kMain => Some EmptyString
  | kFsm => Some "_fsm"%string
  | kVisibilityMap => Some "_vm"%string
  | kInit => Some "_init"%string
  | kInvalid => None
  end.

Definition relpathbackend {S} (rn : RelFileNodeBackend) (f : ForkNumber) : M S string :=
  let path := ("base/" +:+ to_string (db_node (node rn)) +:+ "/" +:+ to_string (rel_node (node rn)))%string in
  match fork_suffix f with
  | Some suffix => mret (path +:+ suffix)
  | None => ereport "invalid fork number"
  end.

Definition BuildFullPath {S} (base_dir : string) (rn : RelFileNodeBackend) (f : ForkNumber) (segno : Z)
  : M S string :=
  path ← relpathbackend rn f;
  mret (base_dir +:+ "/" +:+ path +:+
        (if (0 <? segno)%Z then "." +:+ to_string segno else EmptyString))%string.

Definition mdFilePath (rn : RelFileNodeBackend) (f : ForkNumber) (segno : Z) : M Smgr string :=
  base_dir ← gets g_storage_base_dir; BuildFullPath base_dir rn f segno.

(** The directories [EnsureParentDir] creates: every prefix of [dir] that ends
    before a slash (not at position 0), and [dir]. *)
Fixpoint prefixes_at_slash (seen rest : list ascii) : list (list ascii) :=
  match rest with
  | [] => [seen]
  | c :: rest' =>
      if Ascii.eqb c slash && negb (bool_decide (seen = []))
      then seen :: prefixes_at_slash (seen ++ [c]) rest'
      else prefixes_at_slash (seen ++ [c]) rest'
  end.

Definition EnsureParentDir (file_path : string) (d : Disk) : Disk :=
  match parent_chars (chars file_path) with
  | None | Some [] => d
  | Some dir => mkDisk (names d) (inodes d) (next_inode d)
                  (list_to_set (of_chars <$> prefixes_at_slash [] dir) ∪ dirs d)
  end.

(** [open] creates a file only in an existing directory; a path without a
    slash is in the working directory. *)
Definition can_create (path : string) (d : Disk) : bool :=
  match parent path with Some p => bool_decide (p = EmptyString ∨ p ∈ dirs d) | None => true end.

Definition enoent : string := "No such file or directory".

Definition OpenFile (path : string) (create : bool) : M Smgr nat := λ s,
  match names (disk s) !! path with
  | Some i => (Ret i, s)
  | None =>
      if create && can_create path (disk s)
      then (Ret (next_inode (disk s)), with_disk (new_file path) s)
      else (Ereport ("could not open file " +:+ path +:+ ": " +:+ enoent)%string, s)
  end.

(** A short [read] has filled the front of the buffer when the error is raised. *)
Definition FileReadBlock (i : nat) (offset : Z) (buffer : list Z) (s : Smgr) : outcome unit * list Z * Smgr :=
  let got := take (Z.to_nat kBlckSz) (drop (Z.to_nat offset) (file_bytes (disk s) i)) in
  let buffer' := got ++ drop (length got) buffer in
  if Z.of_nat (length got) <? kBlckSz
  then (Ereport "could not read block: unexpected end of file", buffer', s)
  else (Ret tt, buffer', s).

(** [write] at an offset past the end leaves a gap that reads as zeros. *)
Definition pwrite (off : nat) (src b : list Z) : list Z :=
  take off (b ++ replicate (off - length b) 0) ++ src ++ drop (off + length src) b.

Definition FileWriteBlock (i : nat) (offset : Z) (buffer : list Z) : M Smgr unit :=
  modify (with_disk (λ d, put_bytes i (pwrite (Z.to_nat offset) buffer (file_bytes d i)) d)).

Definition mdEnsureSegments (rn : RelFileNodeBackend) (f : ForkNumber) (segno : Z) : M Smgr unit :=
  l ← gets (fds rn f);
  when (Z.of_nat (length l) <=? segno)
    (modify (set_fds rn f (l ++ replicate (Z.to_nat (segno + 1) - length l) no_fd))).

Definition mdGetFd (rn : RelFileNodeBackend) (f : ForkNumber) (segno : Z) (create : bool) : M Smgr nat :=
  mdEnsureSegments rn f segno;;
  l ← gets (fds rn f);
  match fd <$> l !! Z.to_nat segno with
  | Some (Some i) => mret i
  | _ =>
      path ← mdFilePath rn f segno;
      i ← OpenFile path create;
      modify (set_fds rn f (<[Z.to_nat segno := mkMdfd (Some i) segno]> l));;
      mret i
  end.

Definition mdOpenSegment := mdGetFd.

Definition mdcreate (rn : RelFileNodeBackend) (f : ForkNumber) (is_redo : bool) : M Smgr unit :=
  path ← mdFilePath rn f 0;
  modify (with_disk (EnsureParentDir path));;
  d ← gets disk;
  match names d !! path with
  | Some _ => ereport ("relation file already exists: " +:+ path)
  | None =>
      if can_create path d then
        modify (with_disk (new_file path));;
        mdEnsureSegments rn f 0;;
        l ← gets (fds rn f);
        modify (set_fds rn f (<[0%nat := mkMdfd None (from_option segno 0 (l !! 0%nat))]> l))
      else ereport ("could not create file " +:+ path +:+ ": " +:+ enoent)
  end.

Definition mdclose (rn : RelFileNodeBackend) (f : ForkNumber) : Smgr → Smgr := set_fds rn f [].

Definition seg_of (block_num : Z) : Z := i32 (block_num / kRelSegSize).
Definition offset_of (block_num : Z) : Z := block_num `mod` kRelSegSize * kBlckSz.

Definition mdread (rn : RelFileNodeBackend) (f : ForkNumber) (block_num : Z) (buffer : list Z) (s : Smgr)
  : outcome unit * list Z * Smgr :=
  match mdGetFd rn f (seg_of block_num) false s with
  | (Ret i, s') => FileReadBlock i (offset_of block_num) buffer s'
  | (Ereport e, s') => (Ereport e, buffer, s')
  end.

Definition mdwrite (rn : RelFileNodeBackend) (f : ForkNumber) (block_num : Z) (buffer : list Z)
  (skip_fsync : bool) : M Smgr unit :=
  i ← mdGetFd rn f (seg_of block_num) false;
  FileWriteBlock i (offset_of block_num) buffer.

Definition mdextend (rn : RelFileNodeBackend) (f : ForkNumber) (block_num : Z) (buffer : list Z)
  (skip_fsync : bool) : M Smgr unit :=
  i ← mdGetFd rn f (seg_of block_num) true;
  FileWriteBlock i (offset_of block_num) buffer.

(** The loop of [mdnblocks] over the known segments: an open one counts its
    file, a closed one the file of its path, and a missing file ends it. *)
Fixpoint count_segments (rn : RelFileNodeBackend) (f : ForkNumber) (l : list MdfdEntry) (segno total : Z)
  : M Smgr Z :=
  match l with
  | [] => mret total
  | mkMdfd (Some i) _ :: l' =>
      d ← gets disk;
      count_segments rn f l' (segno + 1)
        (u32 (total + u32 (Z.of_nat (length (file_bytes d i)) / kBlckSz)))
  | mkMdfd None _ :: l' =>
      path ← mdFilePath rn f segno;
      d ← gets disk;
      match stat_size path d with
      | None => mret total
      | Some size => count_segments rn f l' (segno + 1) (u32 (total + u32 (size / kBlckSz)))
      end
  end.

Definition mdnblocks (rn : RelFileNodeBackend) (f : ForkNumber) : M Smgr Z :=
  l ← gets (fds rn f);
  match l with
  | [] =>
      path ← mdFilePath rn f 0;
      d ← gets disk;
      mret (match stat_size path d with None => 0 | Some size => u32 (size / kBlckSz) end)
  | _ => count_segments rn f l 0 0
  end.

(** [ftruncate]: cut, or extend with zeros. *)
Definition ftruncate (size : nat) (b : list Z) : list Z := take size (b ++ replicate (size - length b) 0).

(** One turn of the loop that removes the segments past the last one kept. *)
Definition remove_segment (rn : RelFileNodeBackend) (f : ForkNumber) (n : Z) : M Smgr unit :=
  path ← mdFilePath rn f n;
  modify (λ s, let l := fds rn f s in
    set_fds rn f (alter (λ e, mkMdfd None (segno e)) (Z.to_nat n) l) s);;
  modify (with_disk (λ d, (unlink path d).2)).

Fixpoint remove_segments (rn : RelFileNodeBackend) (f : ForkNumber) (segnos : list Z) : M Smgr unit :=
  match segnos with
  | [] => mret tt
  | n :: rest => remove_segment rn f n;; remove_segments rn f rest
  end.

Definition mdtruncate (rn : RelFileNodeBackend) (f : ForkNumber) (nblocks : Z) : M Smgr unit :=
  let last_seg := seg_of nblocks in
  let blocks_in_last := nblocks `mod` kRelSegSize in
  when (0 <? blocks_in_last)
    (i ← mdGetFd rn f last_seg false;
     modify (with_disk (λ d,
       put_bytes i (ftruncate (Z.to_nat (blocks_in_last * kBlckSz)) (file_bytes d i)) d)));;
  l ← gets (fds rn f);
  remove_segments rn f
    (reverse (seqZ (last_seg + 1) (Z.of_nat (length l) - 1 - last_seg)));;
  when ((blocks_in_last =? 0) && (last_seg =? 0))
    (remove_segment rn f 0).

(** The loop of [mdunlink] from segment [segno], until [ENOENT]. *)
Fixpoint unlink_segments (fuel : nat) (rn : RelFileNodeBackend) (f : ForkNumber) (segno : Z) : M Smgr bool :=
  match fuel with
  | O => mret false
  | S fuel' =>
      path ← mdFilePath rn f segno;
      d ← gets disk;
      if (unlink path d).1
      then modify (with_disk (λ d, (unlink path d).2));; unlink_segments fuel' rn f (segno + 1)
      else mret true
  end.

(** [true] when the loop ended; the number of files bounds its turns. *)
Definition mdunlink (rn : RelFileNodeBackend) (f : ForkNumber) (is_redo : bool) : M Smgr bool :=
  modify (mdclose rn f);;
  d ← gets disk;
  ended ← unlink_segments (S (size (names d))) rn f 0;
  modify (set_fds rn f []);;
  mret ended.

Definition mdexists (rn : RelFileNodeBackend) (f : ForkNumber) : M Smgr bool :=
  path ← mdFilePath rn f 0;
  d ← gets disk;
  mret (bool_decide (is_Some (names d !! path))).

Definition mdrelease (rn : RelFileNodeBackend) (s : Smgr) : Smgr :=
  foldl (λ s f, mdclose rn f s) s all_forks.

(** ** The list of open relations (smgr.cpp) *)

Definition SetStorageBaseDir (path : string) (s : Smgr) : Smgr := mkSmgr (disk s) (relations s) path.
Definition GetStorageBaseDir (s : Smgr) : string := g_storage_base_dir s.

Definition smgropen (rn : RelFileNodeBackend) (s : Smgr) : Smgr :=
  match find_relation rn (relations s) with
  | Some _ => s
  | None => with_relations (cons (mkSmgrRelation rn (λ _, []))) s
  end.

(** The descriptors are closed and the relation leaves the chain. *)
Definition smgrclose (rn : RelFileNodeBackend) (s : Smgr) : Smgr :=
  with_relations (base.filter (λ r, smgr_rnode r ≠ rn)) (mdrelease rn s).

Definition smgrcloseall (s : Smgr) : Smgr :=
  foldl (λ s r, smgrclose (smgr_rnode r) s) s (relations s).

Definition smgrcreate := mdcreate.
Definition smgrread := mdread.
Definition smgrwrite := mdwrite.
Definition smgrextend := mdextend.
Definition smgrnblocks := mdnblocks.
Definition smgrtruncate := mdtruncate.
Definition smgrexists := mdexists.
Definition smgrrelease := mdrelease.

Definition smgrreleaseall (s : Smgr) : Smgr :=
  foldl (λ s r, mdrelease (smgr_rnode r) s) s (relations s).

Definition unlink_fork (rn : RelFileNodeBackend) (is_redo : bool) (f : ForkNumber) : M Smgr unit :=
  there ← mdexists rn f;
  if (there : bool) then mdunlink rn f is_redo;; mret tt else modify (mdclose rn f).

Definition smgrdounlinkall (rn : RelFileNodeBackend) (is_redo : bool) : M Smgr unit :=
  unlink_fork rn is_redo kMain;; unlink_fork rn is_redo kFsm;;
  unlink_fork rn is_redo kVisibilityMap;; unlink_fork rn is_redo kInit;;
  modify (smgrclose rn).

Definition smgrclosenode (rn : RelFileNodeBackend) (s : Smgr) : Smgr :=
  match find_relation rn (relations s) with Some _ => smgrclose rn s | None => s end.

#[export] Instance Smgr_PageStore : PageStore Smgr := {
  smgropen_ := smgropen;
  smgrread_ := smgrread;
  smgrwrite_ rn f b p := smgrwrite rn f b p false;
}.

(** ** Paths *)

Lemma to_string_split z1 z2 r1 r2 :
  is_u32 z1 → is_u32 z2 → not_digit_head 10 r1 → not_digit_head 10 r2 →
  chars (to_string z1) ++ r1 = chars (to_string z2) ++ r2 → z1 = z2 ∧ r1 = r2.
Proof.
  unfold is_u32, to_string, print_digits. rewrite !chars_of_chars. intros H1 H2 Hr1 Hr2 E.
  apply (f_equal (span_digits 10)) in E.
  assert (Hr : ∀ z, Forall (λ d, 0 ≤ d < 10) (digits 10 10 z [])) by (intros; apply digits_range; [lia|done]).
  rewrite !span_digits_chars in E by (done || lia). apply pair_equal_spec in E as [Ed ->]. split; [|done].
  apply (f_equal (undigits 10)) in Ed. rewrite !undigits_digits in Ed by lia. simpl in Ed.
  change (undigits 10 []) with 0 in Ed. lia.
Qed.

(** The path of a segment of a fork that exists. *)
Definition seg_suffix (n : Z) : string := (if (0 <? n)%Z then "." +:+ to_string n else EmptyString)%string.
Definition path_of (base_dir : string) (rn : RelFileNodeBackend) (f : ForkNumber) (n : Z) : string :=
  (base_dir +:+ "/" +:+ (("base/" +:+ to_string (db_node (node rn)) +:+ "/" +:+ to_string (rel_node (node rn)))
     +:+ default EmptyString (fork_suffix f)) +:+ seg_suffix n)%string.

Lemma mdFilePath_run rn f n s :
  f ≠ kInvalid → mdFilePath rn f n s = (Ret (path_of (g_storage_base_dir s) rn f n), s).
Proof. by destruct f. Qed.

Definition tail_chars (f : ForkNumber) (n : Z) : list ascii :=
  chars (default EmptyString (fork_suffix f)) ++ chars (seg_suffix n).

Lemma tail_chars_head f n : not_digit_head 10 (tail_chars f n).
Proof.
  unfold tail_chars, seg_suffix. destruct f; try done; simpl; by destruct (0 <? n).
Qed.

Lemma seg_suffix_inj m n :
  0 ≤ m < 2 ^ 32 → 0 ≤ n < 2 ^ 32 → seg_suffix m = seg_suffix n → m = n.
Proof.
  intros Hm Hn. unfold seg_suffix. destruct (0 <? m) eqn:E1, (0 <? n) eqn:E2; to_prop; try done; [|lia].
  intros E. injection E as E.
  apply (f_equal (λ l, chars l ++ [])) in E. by apply to_string_split in E as [-> _].
Qed.

Lemma tail_chars_inj f g m n :
  f ≠ kInvalid → g ≠ kInvalid → 0 ≤ m < 2 ^ 32 → 0 ≤ n < 2 ^ 32 →
  tail_chars f m = tail_chars g n → f = g ∧ m = n.
Proof.
  intros Hf Hg Hm Hn E.
  assert (f = g) as <-.
  { unfold tail_chars, seg_suffix in E.
    destruct f, g; try done; simpl in E; destruct (0 <? m), (0 <? n); discriminate E. }
  split; [done|]. apply app_inv_head in E.
  apply seg_suffix_inj; [done..|]. by rewrite <- (of_chars_chars (seg_suffix m)), E, of_chars_chars.
Qed.

Lemma path_chars base_dir rn f n :
  chars (path_of base_dir rn f n) =
  chars base_dir ++ chars "/base/" ++ chars (to_string (db_node (node rn))) ++ [slash] ++
  chars (to_string (rel_node (node rn))) ++ tail_chars f n.
Proof. unfold path_of, tail_chars. rewrite !chars_app, <- !app_assoc. done. Qed.

Lemma path_of_inj base_dir rn rn' f g m n :
  is_u32 (db_node (node rn)) → is_u32 (db_node (node rn')) →
  is_u32 (rel_node (node rn)) → is_u32 (rel_node (node rn')) →
  f ≠ kInvalid → g ≠ kInvalid → 0 ≤ m < 2 ^ 32 → 0 ≤ n < 2 ^ 32 →
  path_of base_dir rn f m = path_of base_dir rn' g n →
  db_node (node rn) = db_node (node rn') ∧ rel_node (node rn) = rel_node (node rn') ∧ f = g ∧ m = n.
Proof.
  intros Hd Hd' Hr Hr' Hf Hg Hm Hn E.
  apply (f_equal chars) in E. rewrite !path_chars in E.
  apply app_inv_head, app_inv_head in E.
  apply to_string_split in E as [? E]; [|done..]. injection E as E.
  apply to_string_split in E as [? E]; [|try done; apply tail_chars_head..].
  apply tail_chars_inj in E as [? ?]; done.
Qed.

(** ** Bytes of a file *)

Definition blk : nat := Z.to_nat kBlckSz.
Lemma blk_pos : (0 < blk)%nat.
Proof. apply Nat.ltb_lt. vm_compute. reflexivity. Qed.

(** The page at a byte offset, when the file reaches its end. *)
Definition page_at (off : nat) (b : list Z) : option (list Z) :=
  let p := take blk (drop off b) in if decide (length p = blk) then Some p else None.

Lemma page_at_Some off b p :
  page_at off b = Some p ↔ take blk (drop off b) = p ∧ length p = blk.
Proof. unfold page_at. case_decide; naive_solver. Qed.

Lemma page_at_bound off b : is_Some (page_at off b) ↔ (off + blk ≤ length b)%nat.
Proof.
  pose proof blk_pos. unfold page_at. rewrite length_take, length_drop.
  case_decide; split; intros Hx; try done; try lia.
Qed.

Lemma lookup_pwrite off src b i :
  (off ≤ length b)%nat →
  pwrite off src b !! i = if decide (off ≤ i < off + length src)%nat then src !! (i - off)%nat else b !! i.
Proof.
  intros Hb. unfold pwrite.
  replace (off - length b)%nat with 0%nat by lia. rewrite app_nil_r.
  case_decide as Hi.
  - rewrite lookup_app_r by (rewrite length_take; lia). rewrite length_take, Nat.min_l by lia.
    rewrite lookup_app_l by lia. done.
  - destruct (decide (i < off)%nat).
    + rewrite lookup_app_l by (rewrite length_take; lia). by rewrite lookup_take_lt by lia.
    + rewrite lookup_app_r by (rewrite length_take; lia). rewrite length_take, Nat.min_l by lia.
      rewrite lookup_app_r by lia. rewrite lookup_drop. f_equal. lia.
Qed.

Lemma length_pwrite off src b :
  length (pwrite off src b) = Nat.max (off + length src) (length b).
Proof.
  unfold pwrite. rewrite !length_app, length_take, length_app, length_replicate, length_drop. lia.
Qed.

(** Writing a page at a block boundary changes that page only; the file may
    grow by it. *)
Lemma page_at_pwrite k j p b :
  length p = blk → (k * blk ≤ length b)%nat →
  page_at (j * blk) (pwrite (k * blk) p b) = if decide (j = k) then Some p else page_at (j * blk) b.
Proof.
  intros Hp Hb. case_decide as Hjk; [subst j|].
  - apply page_at_Some. split; [|done]. apply list_eq. intros i.
    destruct (decide (i < blk)%nat).
    + rewrite lookup_take_lt, lookup_drop, lookup_pwrite by lia. rewrite decide_True by lia. f_equal. lia.
    + rewrite lookup_take_ge by lia. symmetry. apply lookup_ge_None. lia.
  - assert (Hslice : (j * blk + blk ≤ length b)%nat →
              take blk (drop (j * blk) (pwrite (k * blk) p b)) = take blk (drop (j * blk) b)).
    { intros Hj. apply list_eq. intros i. destruct (decide (i < blk)%nat).
      - rewrite !lookup_take_lt, !lookup_drop, lookup_pwrite by lia. rewrite decide_False by nia. done.
      - by rewrite !lookup_take_ge by lia. }
    destruct (page_at (j * blk) b) as [q|] eqn:E.
    + apply page_at_Some. rewrite Hslice by (apply page_at_bound; eauto).
      by apply page_at_Some.
    + apply eq_None_not_Some. intros Hs. apply page_at_bound in Hs. rewrite length_pwrite in Hs.
      assert (¬ (j * blk + blk ≤ length b)%nat) by (rewrite <- page_at_bound, E; apply is_Some_None).
      assert ((j * blk + blk ≤ k * blk + length p)%nat) by lia. nia.
Qed.

(** ** Descriptors *)

Lemma find_relation_map rn (g : SmgrRelationData → SmgrRelationData) l :
  (∀ r, smgr_rnode (g r) = smgr_rnode r) →
  find_relation rn (map g l) = g <$> find_relation rn l.
Proof.
  intros Hg. unfold find_relation. induction l as [|r l IH]; [done|].
  cbn [map]. rewrite !filter_cons, Hg. case_decide; [done|]. apply IH.
Qed.

Lemma find_relation_rnode rn l r : find_relation rn l = Some r → smgr_rnode r = rn.
Proof.
  unfold find_relation. intros Hh. destruct (base.filter _ l) as [|r' l'] eqn:E; [done|].
  injection Hh as ->. assert (Hin : r ∈ base.filter (λ r, smgr_rnode r = rn) l) by (rewrite E; by left).
  by apply list_elem_of_filter in Hin as [? _].
Qed.

Definition is_open (rn : RelFileNodeBackend) (s : Smgr) : Prop := is_Some (find_relation rn (relations s)).

Lemma fds_set_fds rn f l rn' g s :
  is_open rn s →
  fds rn' g (set_fds rn f l s) = if decide (rn' = rn ∧ g = f) then l else fds rn' g s.
Proof.
  intros Ho. unfold fds, set_fds, with_relations. cbn [relations].
  rewrite find_relation_map by (intros r; by case_decide).
  destruct (find_relation rn' (relations s)) as [r|] eqn:E; simpl.
  - pose proof (find_relation_rnode _ _ _ E) as <-.
    destruct (decide (smgr_rnode r = rn)); simpl; repeat case_decide; naive_solver.
  - case_decide as Hd; [|done]. destruct Hd as [-> ->]. destruct Ho as [r Ho]. congruence.
Qed.

Lemma is_open_set_fds rn f l rn' s : is_open rn' (set_fds rn f l s) ↔ is_open rn' s.
Proof.
  unfold is_open, set_fds, with_relations. cbn [relations].
  rewrite find_relation_map by (intros r; by case_decide). by rewrite fmap_is_Some.
Qed.

(** Every cached descriptor is the file its path names, and distinct paths
    name distinct files. *)
Record smgr_ok (s : Smgr) : Prop := {
  ok_fds rn f n e i :
    f ≠ kInvalid → fds rn f s !! n = Some e → fd e = Some i →
    names (disk s) !! path_of (g_storage_base_dir s) rn f (Z.of_nat n) = Some i;
  ok_named p i : names (disk s) !! p = Some i → (i < next_inode (disk s))%nat;
  ok_inj p q i : names (disk s) !! p = Some i → names (disk s) !! q = Some i → p = q;
}.

Lemma ok_set_fds rn f l s :
  smgr_ok s → is_open rn s →
  (∀ n e i, f ≠ kInvalid → l !! n = Some e → fd e = Some i →
     names (disk s) !! path_of (g_storage_base_dir s) rn f (Z.of_nat n) = Some i) →
  smgr_ok (set_fds rn f l s).
Proof.
  intros [H1 H2 H3] Ho Hl. split; [|exact H2|exact H3].
  intros rn' g n e i Hg. rewrite fds_set_fds by done. case_decide as Hd.
  - destruct Hd as [-> ->]. eauto.
  - eauto.
Qed.

(** Two states with the same files and open relations, whatever is cached. *)
Definition same_files (s s' : Smgr) : Prop :=
  disk s' = disk s ∧ g_storage_base_dir s' = g_storage_base_dir s ∧
  ∀ rn, is_open rn s' ↔ is_open rn s.

Lemma same_files_refl s : same_files s s.
Proof. done. Qed.

Lemma same_files_set_fds rn f l s : same_files s (set_fds rn f l s).
Proof. split_and!; [done..|]. intros rn'. apply is_open_set_fds. Qed.

Lemma same_files_trans s1 s2 s3 : same_files s1 s2 → same_files s2 s3 → same_files s1 s3.
Proof. intros (?&?&H1) (?&?&H2). split_and!; [congruence..|]. intros rn. by rewrite H2. Qed.

#[local] Hint Resolve same_files_refl same_files_set_fds : pgcpp.

Lemma mdEnsureSegments_run rn f n s :
  smgr_ok s → is_open rn s → 0 ≤ n →
  ∃ s', mdEnsureSegments rn f n s = (Ret tt, s') ∧ smgr_ok s' ∧ same_files s s' ∧
        (Z.to_nat n < length (fds rn f s'))%nat ∧ (length (fds rn f s) ≤ length (fds rn f s'))%nat.
Proof.
  intros Hok Ho Hn. unfold mdEnsureSegments. run_step.
  destruct (Z.of_nat (length (fds rn f s)) <=? n) eqn:E; to_prop.
  - eexists. split; [done|]. rewrite fds_set_fds, decide_True by done.
    split_and!; auto with pgcpp; [|rewrite length_app, length_replicate; lia..].
    apply ok_set_fds; [done..|]. intros m e i Hf Hm Hi.
    apply lookup_app_Some in Hm as [Hm|[_ Hm]]; [by eapply ok_fds|].
    apply lookup_replicate in Hm as [-> _]. done.
  - exists s. split_and!; auto with pgcpp; lia.
Qed.

(** Opening a segment that exists finds its file, cached or not. *)
Lemma mdGetFd_found rn f n create s i :
  smgr_ok s → is_open rn s → f ≠ kInvalid → 0 ≤ n →
  names (disk s) !! path_of (g_storage_base_dir s) rn f n = Some i →
  ∃ s', mdGetFd rn f n create s = (Ret i, s') ∧ smgr_ok s' ∧ same_files s s'.
Proof.
  intros Hok Ho Hf Hn Hi. unfold mdGetFd.
  destruct (mdEnsureSegments_run rn f n s Hok Ho Hn) as (s1 & Hrun & Hok1 & Hs1 & Hlen & _).
  rewrite (bind_ret_run _ _ _ _ _ Hrun). destruct Hs1 as (Hd & Hb & Hop).
  destruct (lookup_lt_is_Some_2 _ _ Hlen) as [e He].
  unfold mbind at 1, M_bind, gets. rewrite He. simpl.
  destruct (fd e) as [j|] eqn:Hj.
  - exists s1. split; [|done]. unfold mret, M_ret. do 2 f_equal.
    pose proof (ok_fds _ Hok1 rn f _ e j Hf He Hj) as Hnm.
    rewrite Z2Nat.id, Hd, Hb in Hnm by done. congruence.
  - rewrite (bind_ret_run _ _ _ _ _ (mdFilePath_run rn f n s1 Hf)).
    assert (Hopen : OpenFile (path_of (g_storage_base_dir s1) rn f n) create s1 = (Ret i, s1)).
    { unfold OpenFile. by rewrite Hd, Hb, Hi. }
    rewrite (bind_ret_run _ _ _ _ _ Hopen). eexists. split; [done|].
    assert (is_open rn s1) by by apply Hop.
    split; [|eapply same_files_trans; [|apply same_files_set_fds]; done].
    apply ok_set_fds; [done..|]. intros m e' i' _ Hm Hi'.
    destruct (decide (m = Z.to_nat n)) as [->|].
    + rewrite list_lookup_insert_eq in Hm by done. injection Hm as <-. injection Hi' as <-.
      rewrite Z2Nat.id by done. by rewrite Hd, Hb.
    + rewrite list_lookup_insert_ne in Hm by done. by eapply ok_fds.
Qed.

Lemma mdGetFd_missing rn f n s :
  smgr_ok s → is_open rn s → f ≠ kInvalid → 0 ≤ n →
  names (disk s) !! path_of (g_storage_base_dir s) rn f n = None →
  ∃ e s', mdGetFd rn f n false s = (Ereport e, s') ∧ smgr_ok s' ∧ same_files s s'.
Proof.
  intros Hok Ho Hf Hn Hi. unfold mdGetFd.
  destruct (mdEnsureSegments_run rn f n s Hok Ho Hn) as (s1 & Hrun & Hok1 & Hs1 & Hlen & _).
  rewrite (bind_ret_run _ _ _ _ _ Hrun). destruct Hs1 as (Hd & Hb & Hop).
  destruct (lookup_lt_is_Some_2 _ _ Hlen) as [e He].
  unfold mbind at 1, M_bind, gets. rewrite He. simpl.
  destruct (fd e) as [j|] eqn:Hj.
  - pose proof (ok_fds _ Hok1 rn f _ e j Hf He Hj) as Hnm.
    rewrite Z2Nat.id, Hd, Hb in Hnm by done. congruence.
  - rewrite (bind_ret_run _ _ _ _ _ (mdFilePath_run rn f n s1 Hf)).
    unfold mbind, M_bind, OpenFile. rewrite Hd, Hb, Hi. simpl. eexists _, _. split; done.
Qed.

(** ** The blocks of a fork *)

(** The page of block [b]: the page at its offset in the file of its segment. *)
Definition block_at (s : Smgr) (rn : RelFileNodeBackend) (f : ForkNumber) (b : Z) : option (list Z) :=
  i ← names (disk s) !! path_of (g_storage_base_dir s) rn f (seg_of b);
  page_at (Z.to_nat (offset_of b)) (file_bytes (disk s) i).

Lemma block_at_same_files s s' rn f b : same_files s s' → block_at s' rn f b = block_at s rn f b.
Proof. intros (Hd & Hb & _). unfold block_at. by rewrite Hd, Hb. Qed.

Lemma seg_of_range b : is_u32 b → 0 ≤ seg_of b < 2 ^ 15.
Proof.
  intros [? ?]. unfold seg_of, kRelSegSize.
  assert (0 ≤ b / 131072 < 2 ^ 15) by (split; [apply Z.div_pos; lia|apply Z.div_lt_upper_bound; lia]).
  rewrite i32_small; lia.
Qed.

Lemma offset_of_blocks b : 0 ≤ b → Z.to_nat (offset_of b) = (Z.to_nat (b `mod` kRelSegSize) * blk)%nat.
Proof.
  intros ?. unfold offset_of, blk. pose proof (Z.mod_pos_bound b kRelSegSize eq_refl).
  rewrite Z2Nat.inj_mul; [done|lia|done].
Qed.

Lemma block_split b c :
  is_u32 b → is_u32 c → seg_of b = seg_of c → b `mod` kRelSegSize = c `mod` kRelSegSize → b = c.
Proof.
  intros [? ?] [? ?] Hs Hm. unfold seg_of, kRelSegSize in *.
  assert (∀ x, 0 ≤ x < 2 ^ 32 → 0 ≤ x / 131072 < 2 ^ 15) as Hr
    by (intros x ?; split; [apply Z.div_pos; lia|apply Z.div_lt_upper_bound; lia]).
  pose proof (Hr b ltac:(lia)). pose proof (Hr c ltac:(lia)).
  rewrite !i32_small in Hs by lia.
  rewrite (Z.div_mod b 131072), (Z.div_mod c 131072) by lia. congruence.
Qed.

(** [mdread]: the page of the block, or an error that leaves the files alone. *)
Lemma mdread_run rn f b buf s :
  smgr_ok s → is_open rn s → f ≠ kInvalid → is_u32 b → length buf = blk →
  ∃ o buf' s', mdread rn f b buf s = (o, buf', s') ∧ smgr_ok s' ∧ same_files s s' ∧ length buf' = blk ∧
    match block_at s rn f b with
    | Some p => o = Ret tt ∧ buf' = p
    | None => ∃ e, o = Ereport e
    end.
Proof.
  intros Hok Ho Hf Hb Hbuf. pose proof (seg_of_range b Hb) as Hseg. unfold mdread.
  destruct (names (disk s) !! path_of (g_storage_base_dir s) rn f (seg_of b)) as [i|] eqn:Hi.
  - destruct (mdGetFd_found rn f (seg_of b) false s i Hok Ho Hf ltac:(lia) Hi) as (s1 & -> & Hok1 & Hs1).
    unfold FileReadBlock, block_at. rewrite Hi. simpl.
    destruct Hs1 as (Hd & Hs1). rewrite Hd.
    set (got := take (Z.to_nat kBlckSz) (drop (Z.to_nat (offset_of b)) (file_bytes (disk s) i))).
    assert (Hgot : (length got ≤ blk)%nat) by (subst got; rewrite length_take; unfold blk; lia).
    unfold page_at. fold blk in got. change (take blk (drop (Z.to_nat (offset_of b)) (file_bytes (disk s) i))) with got.
    assert (Hz : Z.of_nat blk = kBlckSz) by done.
    assert (Hl : length (got ++ drop (length got) buf) = blk) by (rewrite length_app, length_drop; lia).
    destruct (Z.of_nat (length got) <? kBlckSz) eqn:E; to_prop.
    + rewrite decide_False by lia. eexists _, _, _. split_and!; eauto. done.
    + rewrite decide_True by lia. eexists _, _, _. split_and!; eauto; [done|].
      rewrite drop_ge by lia. apply app_nil_r.
  - destruct (mdGetFd_missing rn f (seg_of b) s Hok Ho Hf ltac:(lia) Hi) as (e & s1 & -> & Hok1 & Hs1).
    unfold block_at. rewrite Hi. simpl. eexists _, _, _. split_and!; eauto.
Qed.

(** The place of a block on disk: the tablespace and the backend are not part
    of the path. *)
Definition place : Type := Z * Z * ForkNumber * Z.
Definition place_of (rn : RelFileNodeBackend) (f : ForkNumber) (b : Z) : place :=
  (db_node (node rn), rel_node (node rn), f, b).

Record valid_place (rn : RelFileNodeBackend) (f : ForkNumber) (b : Z) : Prop := {
  vp_db : is_u32 (db_node (node rn));
  vp_rel : is_u32 (rel_node (node rn));
  vp_fork : f ≠ kInvalid;
  vp_block : is_u32 b;
}.

Lemma path_of_place base_dir rn f n rn' :
  db_node (node rn) = db_node (node rn') → rel_node (node rn) = rel_node (node rn') →
  path_of base_dir rn f n = path_of base_dir rn' f n.
Proof. intros Hd Hr. unfold path_of. by rewrite Hd, Hr. Qed.

Lemma file_bytes_put i j b d :
  file_bytes (put_bytes i b d) j = if decide (j = i) then b else file_bytes d j.
Proof.
  unfold file_bytes, put_bytes. cbn [inodes]. case_decide as Hj; [subst j|].
  - by rewrite lookup_insert_eq.
  - by rewrite lookup_insert_ne.
Qed.

(** A page written over a block, or right behind the last one, changes that
    block of that fork only. *)
Lemma block_at_put s rn f b i p rn' g c :
  smgr_ok s → valid_place rn f b → valid_place rn' g c → length p = blk →
  names (disk s) !! path_of (g_storage_base_dir s) rn f (seg_of b) = Some i →
  (Z.to_nat (offset_of b) ≤ length (file_bytes (disk s) i))%nat →
  block_at (with_disk (λ d, put_bytes i (pwrite (Z.to_nat (offset_of b)) p (file_bytes d i)) d) s) rn' g c =
  if decide (place_of rn' g c = place_of rn f b) then Some p else block_at s rn' g c.
Proof.
  intros Hok [] [] Hp Hi Hlen. unfold block_at at 1, with_disk. cbn [disk g_storage_base_dir names put_bytes].
  rewrite (offset_of_blocks b) in Hlen |- * by apply vp_block0.
  rewrite (offset_of_blocks c) by apply vp_block1.
  case_decide as Hpl.
  - injection Hpl as Hd Hr -> ->. rewrite (path_of_place _ rn' _ _ rn) by done. rewrite Hi. simpl.
    rewrite file_bytes_put, decide_True by done. rewrite page_at_pwrite by done. by rewrite decide_True.
  - unfold block_at. rewrite (offset_of_blocks c) by apply vp_block1.
    destruct (names (disk s) !! path_of _ rn' g (seg_of c)) as [j|] eqn:Hj; [|done]. simpl.
    rewrite file_bytes_put. case_decide as Hji; [subst j|done].
    pose proof (ok_inj _ Hok _ _ _ Hi Hj) as Hpath.
    assert (0 ≤ seg_of b < 2 ^ 32) as Hb by (pose proof (seg_of_range _ vp_block0); lia).
    assert (0 ≤ seg_of c < 2 ^ 32) as Hc by (pose proof (seg_of_range _ vp_block1); lia).
    destruct (path_of_inj _ _ _ _ _ _ _ vp_db0 vp_db1 vp_rel0 vp_rel1 vp_fork0 vp_fork1 Hb Hc Hpath)
      as (Hd & Hr & -> & Hseg).
    rewrite page_at_pwrite by done. rewrite decide_False; [done|].
    intros Hk. apply Hpl. unfold place_of. rewrite Hd, Hr.
    assert (b = c) as ->; [|done]. apply block_split; [done..|].
    pose proof (Z.mod_pos_bound b kRelSegSize eq_refl). pose proof (Z.mod_pos_bound c kRelSegSize eq_refl). lia.
Qed.

Lemma ok_put i b s : smgr_ok s → smgr_ok (with_disk (put_bytes i b) s).
Proof. intros [H1 H2 H3]. by split. Qed.

Lemma mdwrite_run rn f b p s sf :
  smgr_ok s → is_open rn s → valid_place rn f b → length p = blk → is_Some (block_at s rn f b) →
  ∃ s', mdwrite rn f b p sf s = (Ret tt, s') ∧ smgr_ok s' ∧ (∀ rn', is_open rn' s' ↔ is_open rn' s) ∧
    ∀ rn' g c, valid_place rn' g c →
      block_at s' rn' g c = if decide (place_of rn' g c = place_of rn f b) then Some p else block_at s rn' g c.
Proof.
  intros Hok Ho Hv Hp [q Hq]. pose proof (seg_of_range b (vp_block _ _ _ Hv)) as Hseg.
  unfold block_at in Hq. apply bind_Some in Hq as (i & Hi & Hq).
  destruct (mdGetFd_found rn f (seg_of b) false s i Hok Ho (vp_fork _ _ _ Hv) ltac:(lia) Hi)
    as (s1 & Hrun & Hok1 & Hs1).
  unfold mdwrite. rewrite (bind_ret_run _ _ _ _ _ Hrun). eexists. split; [done|].
  pose proof Hs1 as (Hd & Hb & Hop).
  split_and!; [by apply (ok_put i _ s1)|done|]. intros rn' g c Hv'.
  rewrite (block_at_put s1 rn f b i p rn' g c); [|done..| |].
  - case_decide; [done|]. by apply block_at_same_files.
  - by rewrite Hd, Hb.
  - rewrite Hd. assert (is_Some (page_at (Z.to_nat (offset_of b)) (file_bytes (disk s) i))) as Hs by eauto.
    apply page_at_bound in Hs. lia.
Qed.

(** ** The interface of [RelFile] *)

Definition page_of_place (s : Smgr) (l : place) : option (list Z) :=
  let '(db, rel, f, b) := l in
  if decide (is_u32 db ∧ is_u32 rel ∧ f ≠ kInvalid ∧ is_u32 b)
  then block_at s (mkRelFileNodeBackend (mkRelFileNode 0 db rel) 0) f b else None.

Lemma page_of_place_of s rn f b : valid_place rn f b → page_of_place s (place_of rn f b) = block_at s rn f b.
Proof. intros []. simpl. by rewrite decide_True. Qed.

Lemma page_of_place_write s s' rn f b p :
  (∀ rn' g c, valid_place rn' g c →
      block_at s' rn' g c = if decide (place_of rn' g c = place_of rn f b) then Some p else block_at s rn' g c) →
  valid_place rn f b →
  ∀ l, page_of_place s' l = if decide (l = place_of rn f b) then Some p else page_of_place s l.
Proof.
  intros Hw [] [[[db rel] g] c]. unfold page_of_place. case_decide as Hv.
  - destruct Hv as (?&?&?&?). rewrite Hw by done. unfold place_of. cbn. done.
  - case_decide as Heq; [|done]. unfold place_of in Heq. simplify_eq. naive_solver.
Qed.

Lemma smgropen_run rn s :
  smgr_ok s → let s' := smgropen rn s in
  smgr_ok s' ∧ is_open rn s' ∧ (∀ rn', is_open rn' s → is_open rn' s') ∧
  (∀ rn' f b, block_at s' rn' f b = block_at s rn' f b).
Proof.
  intros Hok. unfold smgropen.
  destruct (find_relation rn (relations s)) as [r|] eqn:E; simpl.
  - split_and!; [done|unfold is_open; rewrite E; eauto|done|done].
  - assert (Hfind : ∀ rn', find_relation rn' (mkSmgrRelation rn (λ _, []) :: relations s) =
              if decide (rn = rn') then Some (mkSmgrRelation rn (λ _, [])) else find_relation rn' (relations s)).
    { intros rn'. unfold find_relation. rewrite filter_cons. simpl. by case_decide. }
    split_and!.
    + destruct Hok as [H1 H2 H3]. split; [|done..]. intros rn' f n e i Hf.
      unfold fds. simpl. rewrite Hfind. case_decide; [done|]. apply H1. done.
    + unfold is_open. simpl. rewrite Hfind, decide_True by done. eauto.
    + intros rn' Ho. unfold is_open. simpl. rewrite Hfind. case_decide; [eauto|done].
    + done.
Qed.

#[export] Program Instance Smgr_laws : PageStoreLaws Smgr := {
  ps_place := place;
  ps_loc t := place_of (mkRelFileNodeBackend (rnode t) 0) (fork_num t) (block_num t);
  ps_page := page_of_place;
  ps_ok := smgr_ok;
  ps_open s rn := is_open rn s;
  ps_valid t := valid_place (mkRelFileNodeBackend (rnode t) 0) (fork_num t) (block_num t);
}.
Next Obligation.
  intros s [[[db rel] f] b] p _. unfold page_of_place. case_decide; [|done].
  unfold block_at. intros (i & _ & Hp)%bind_Some. by apply page_at_Some in Hp as [_ ?].
Qed.
Next Obligation.
  intros rn s Hok. destruct (smgropen_run rn s Hok) as (?&?&?&Hp). split_and!; [done..|].
  intros [[[db rel] f] b]. unfold page_of_place. case_decide; [apply Hp|done].
Qed.
Next Obligation.
  intros rn t buf s Hok Ho Hn Hv Hbuf. cbn [smgrread_ Smgr_PageStore].
  destruct (mdread_run rn (fork_num t) (block_num t) buf s) as (o & buf' & s' & Hrun & Hok' & Hsf & Hl & Hres);
    [done..|apply Hv|apply Hv|done|].
  eexists o, buf', s'. split_and!; [exact Hrun|done| | |done|].
  - intros rn'. apply Hsf.
  - intros [[[db rel] g] c]. unfold page_of_place. case_decide; [|done]. by apply block_at_same_files.
  - rewrite page_of_place_of by done. unfold block_at in *. erewrite path_of_place; [exact Hres|..]; by rewrite Hn.
Qed.
Next Obligation.
  intros rn t p s Hok Ho Hn Hv Hp Hs. cbn [smgrwrite_ Smgr_PageStore].
  assert (Hv' : valid_place rn (fork_num t) (block_num t)).
  { destruct Hv as [H1 H2 H3 H4]. simpl in H1, H2. rewrite Hn in H1, H2. by split. }
  assert (Hpl : place_of (mkRelFileNodeBackend (rnode t) 0) (fork_num t) (block_num t)
                = place_of rn (fork_num t) (block_num t)) by (unfold place_of; simpl; by rewrite Hn).
  change (is_Some (page_of_place s (place_of (mkRelFileNodeBackend (rnode t) 0) (fork_num t) (block_num t)))) in Hs.
  rewrite Hpl, page_of_place_of in Hs by done.
  destruct (mdwrite_run rn (fork_num t) (block_num t) p s false Hok Ho Hv' Hp Hs) as (s' & Hrun & Hok' & Hop & Hw).
  eexists s'. split_and!; [exact Hrun|done|by intros; apply Hop|].
  pose proof (page_of_place_write s s' rn _ _ p Hw Hv') as Hl. by rewrite <- Hpl in Hl.
Qed.

(** ** Extending, counting and unlinking a fork *)

(** [b] is the block after the last one of its segment, or the first of a
    segment that can be created. *)
Definition at_end (s : Smgr) (rn : RelFileNodeBackend) (f : ForkNumber) (b : Z) : Prop :=
  let path := path_of (g_storage_base_dir s) rn f (seg_of b) in
  match names (disk s) !! path with
  | Some i => Z.of_nat (length (file_bytes (disk s) i)) = offset_of b
  | None => offset_of b = 0 ∧ can_create path (disk s) = true
  end.

Lemma ok_new_file path s :
  smgr_ok s → names (disk s) !! path = None → smgr_ok (with_disk (new_file path) s).
Proof.
  intros [H1 H2 H3] Hn. split; cbn [disk with_disk names new_file next_inode g_storage_base_dir].
  - intros rn f n e i Hf He Hi. pose proof (H1 _ _ _ _ _ Hf He Hi) as Hnm.
    rewrite lookup_insert_ne by (intros ->; congruence). done.
  - intros p i Hp. destruct (decide (p = path)) as [->|Hne].
    + rewrite lookup_insert_eq in Hp. injection Hp as <-. lia.
    + rewrite lookup_insert_ne in Hp by done. apply H2 in Hp. lia.
  - intros p q i Hp Hq.
    apply lookup_insert_Some in Hp as [[<- <-]|[? Hp]], Hq as [[<- Hq]|[? Hq]]; [done|..|eauto].
    + apply H2 in Hq. lia.
    + subst i. apply H2 in Hp. lia.
Qed.

Lemma block_at_new_file s path rn f b :
  smgr_ok s → names (disk s) !! path = None → block_at (with_disk (new_file path) s) rn f b = block_at s rn f b.
Proof.
  intros Hok Hn. unfold block_at. cbn [disk with_disk names new_file g_storage_base_dir].
  generalize (path_of (g_storage_base_dir s) rn f (seg_of b)) as q. intros q.
  generalize (Z.to_nat (offset_of b)) as off. intros off.
  destruct (decide (q = path)) as [->|Hne].
  - rewrite lookup_insert_eq, Hn. simpl. unfold file_bytes. cbn [inodes new_file]. rewrite lookup_insert_eq. simpl.
    unfold page_at. rewrite drop_nil, take_nil. done.
  - rewrite lookup_insert_ne by done. destruct (names (disk s) !! q) as [i|] eqn:Hi; [|reflexivity]. simpl.
    unfold file_bytes. cbn [inodes new_file]. rewrite lookup_insert_ne; [done|]. apply (ok_named _ Hok) in Hi. lia.
Qed.

(** Opening with [create] a segment that does not exist makes an empty file. *)
Lemma mdGetFd_create rn f n s :
  smgr_ok s → is_open rn s → f ≠ kInvalid → 0 ≤ n →
  let path := path_of (g_storage_base_dir s) rn f n in
  names (disk s) !! path = None → can_create path (disk s) = true →
  ∃ s', mdGetFd rn f n true s = (Ret (next_inode (disk s)), s') ∧ smgr_ok s' ∧
        same_files (with_disk (new_file path) s) s'.
Proof.
  intros Hok Ho Hf Hn path Hi Hc. unfold mdGetFd.
  destruct (mdEnsureSegments_run rn f n s Hok Ho Hn) as (s1 & Hrun & Hok1 & Hs1 & Hlen & _).
  rewrite (bind_ret_run _ _ _ _ _ Hrun). destruct Hs1 as (Hd & Hb & Hop).
  destruct (lookup_lt_is_Some_2 _ _ Hlen) as [e He].
  unfold mbind at 1, M_bind, gets. rewrite He. simpl.
  destruct (fd e) as [j|] eqn:Hj.
  { pose proof (ok_fds _ Hok1 rn f _ e j Hf He Hj) as Hnm.
    rewrite Z2Nat.id, Hd, Hb in Hnm by done. subst path. congruence. }
  rewrite (bind_ret_run _ _ _ _ _ (mdFilePath_run rn f n s1 Hf)).
  assert (Hopen : OpenFile (path_of (g_storage_base_dir s1) rn f n) true s1 =
                  (Ret (next_inode (disk s)), with_disk (new_file path) s1)).
  { unfold OpenFile. rewrite Hd, Hb. fold path. rewrite Hi, Hc. reflexivity. }
  rewrite (bind_ret_run _ _ _ _ _ Hopen). eexists. split; [done|].
  set (s2 := with_disk (new_file path) s1).
  assert (Hok2 : smgr_ok s2) by (apply ok_new_file; [done|by rewrite Hd]).
  assert (Hop2 : is_open rn s2) by by apply Hop.
  split.
  - apply ok_set_fds; [done..|]. intros m e' i' _ Hm Hi'.
    destruct (decide (m = Z.to_nat n)) as [->|].
    + rewrite list_lookup_insert_eq in Hm by done. injection Hm as <-. injection Hi' as <-.
      rewrite Z2Nat.id by done. subst s2 path. cbn. rewrite Hb, Hd, lookup_insert_eq. done.
    + rewrite list_lookup_insert_ne in Hm by done. by eapply (ok_fds s2).
  - eapply same_files_trans; [|apply same_files_set_fds]. split_and!; [|done|done].
    subst s2. cbn. by rewrite Hd.
Qed.

Lemma mdextend_run rn f b p s sf :
  smgr_ok s → is_open rn s → valid_place rn f b → length p = blk → at_end s rn f b →
  ∃ s', mdextend rn f b p sf s = (Ret tt, s') ∧ smgr_ok s' ∧ (∀ rn', is_open rn' s' ↔ is_open rn' s) ∧
    ∀ rn' g c, valid_place rn' g c →
      block_at s' rn' g c = if decide (place_of rn' g c = place_of rn f b) then Some p else block_at s rn' g c.
Proof.
  intros Hok Ho Hv Hp Hend. pose proof (seg_of_range b (vp_block _ _ _ Hv)) as Hseg.
  unfold at_end in Hend. cbv zeta in Hend.
  assert (∃ s0 s1 i, mdGetFd rn f (seg_of b) true s = (Ret i, s1) ∧ smgr_ok s1 ∧ same_files s0 s1 ∧
            (∀ rn', is_open rn' s0 ↔ is_open rn' s) ∧
            (∀ rn' g c, block_at s0 rn' g c = block_at s rn' g c) ∧
            names (disk s0) !! path_of (g_storage_base_dir s0) rn f (seg_of b) = Some i ∧
            (Z.to_nat (offset_of b) ≤ length (file_bytes (disk s0) i))%nat)
    as (s0 & s1 & i & Hrun & Hok1 & Hs1 & Hop0 & Hbl & Hi & Hoff).
  { destruct (names (disk s) !! path_of _ rn f (seg_of b)) as [i|] eqn:Hi.
    - destruct (mdGetFd_found rn f (seg_of b) true s i Hok Ho (vp_fork _ _ _ Hv) ltac:(lia) Hi)
        as (s1 & Hrun & Hok1 & Hs1). exists s, s1, i. split_and!; try done. rewrite <- Hend. lia.
    - destruct Hend as [Hoff Hc].
      destruct (mdGetFd_create rn f (seg_of b) s Hok Ho (vp_fork _ _ _ Hv) ltac:(lia) Hi Hc)
        as (s1 & Hrun & Hok1 & Hs1). eexists _, s1, _. split_and!; [done..|exact Hs1|done| | |].
      + intros. by apply block_at_new_file.
      + cbn. by rewrite lookup_insert_eq.
      + rewrite Hoff. simpl. lia. }
  unfold mdextend. rewrite (bind_ret_run _ _ _ _ _ Hrun). eexists. split; [done|].
  pose proof Hs1 as (Hd & Hb & Hop).
  split_and!; [by apply (ok_put i _ s1)|intros rn'; rewrite <- Hop0; apply Hop|]. intros rn' g c Hv'.
  rewrite (block_at_put s1 rn f b i p rn' g c); [|done..| |].
  - case_decide; [done|]. by rewrite <- Hbl, (block_at_same_files s0 s1).
  - by rewrite Hd, Hb.
  - by rewrite Hd.
Qed.

(** extending a relation fork.  When block [b] is the next one of its
    segment (or the first of a new segment), [mdextend] succeeds; a later
    [mdread] of the block returns the page that was written, with no error and
    the files unchanged; and every other block of every relation and fork, in
    this or another segment, reads as before. *)
Theorem extend_then_read rn f b p s :
  smgr_ok s → is_open rn s → valid_place rn f b → length p = blk → at_end s rn f b →
  ∃ s', mdextend rn f b p false s = (Ret tt, s') ∧ smgr_ok s' ∧
    (∀ buf, length buf = blk → ∃ s'', mdread rn f b buf s' = (Ret tt, p, s'') ∧ same_files s' s'') ∧
    (∀ rn' g c, valid_place rn' g c → place_of rn' g c ≠ place_of rn f b →
       block_at s' rn' g c = block_at s rn' g c).
Proof.
  intros Hok Ho Hv Hp Hend.
  destruct (mdextend_run rn f b p s false Hok Ho Hv Hp Hend) as (s' & Hrun & Hok' & Hop & Hbl).
  exists s'. split_and!; [done..| |].
  - intros buf Hbuf.
    destruct (mdread_run rn f b buf s') as (o & buf' & s'' & Hr & _ & Hsf & _ & Hres);
      [done|by apply Hop|apply Hv|apply Hv|done|].
    rewrite Hbl, decide_True in Hres by done. destruct Hres as [-> ->]. eauto.
  - intros rn' g c Hv' Hne. rewrite Hbl by done. by rewrite decide_False.
Qed.

(** ** Creating a fork *)

Lemma prefixes_last seen rest : seen ++ rest ∈ prefixes_at_slash seen rest.
Proof.
  revert seen. induction rest as [|c rest IH]; intros seen; simpl.
  - rewrite app_nil_r. by left.
  - specialize (IH (seen ++ [c])). rewrite <- app_assoc in IH. case_match; [by right|done].
Qed.

Lemma can_create_ensured path d : can_create path (EnsureParentDir path d) = true.
Proof.
  unfold can_create, parent, EnsureParentDir.
  destruct (parent_chars (chars path)) as [[|c dir]|] eqn:E; [done| |done].
  cbn [fmap option_fmap option_map]. apply bool_decide_eq_true. right. cbn [dirs].
  apply elem_of_union_l, elem_of_list_to_set, list_elem_of_fmap. eexists. split; [done|].
  apply (prefixes_last [] (c :: dir)).
Qed.

Lemma ensure_names path d :
  names (EnsureParentDir path d) = names d ∧ inodes (EnsureParentDir path d) = inodes d ∧
  next_inode (EnsureParentDir path d) = next_inode d.
Proof. unfold EnsureParentDir. by destruct (parent_chars _) as [[|c dir]|]. Qed.

Lemma ok_ensure path s : smgr_ok s → smgr_ok (with_disk (EnsureParentDir path) s).
Proof.
  intros [H1 H2 H3]. destruct (ensure_names path (disk s)) as (En & _ & Ex).
  split; cbn [disk with_disk g_storage_base_dir]; rewrite ?En, ?Ex; done.
Qed.

(** A new fork is an empty first segment. *)
Lemma mdcreate_run rn f s :
  smgr_ok s → is_open rn s → f ≠ kInvalid →
  names (disk s) !! path_of (g_storage_base_dir s) rn f 0 = None →
  ∃ s', mdcreate rn f false s = (Ret tt, s') ∧ smgr_ok s' ∧ (∀ rn', is_open rn' s' ↔ is_open rn' s) ∧
        g_storage_base_dir s' = g_storage_base_dir s ∧ at_end s' rn f 0.
Proof.
  intros Hok Ho Hf Hn. unfold mdcreate.
  rewrite (bind_ret_run _ _ _ _ _ (mdFilePath_run rn f 0 s Hf)).
  set (path := path_of (g_storage_base_dir s) rn f 0) in *.
  set (s1 := with_disk (EnsureParentDir path) s).
  destruct (ensure_names path (disk s)) as (En & Ei & Ex).
  assert (Hn1 : names (disk s1) !! path = None) by (subst s1; cbn; by rewrite En).
  assert (Hok2 : smgr_ok (with_disk (new_file path) s1)) by (apply ok_new_file; [by apply ok_ensure|done]).
  unfold mbind at 1, M_bind, modify. fold s1. unfold mbind at 1, M_bind, gets. rewrite Hn1.
  subst s1. cbn [disk with_disk] in *. rewrite can_create_ensured.
  set (s2 := with_disk (new_file path) _) in *.
  unfold mbind at 1, M_bind. fold s2.
  destruct (mdEnsureSegments_run rn f 0 s2 Hok2 Ho ltac:(lia)) as (s3 & Hrun & Hok3 & (Hd & Hb & Hop) & Hlen & _).
  rewrite (bind_ret_run _ _ _ _ _ Hrun). eexists. split; [reflexivity|].
  assert (Ho3 : is_open rn s3) by by apply Hop.
  split_and!.
  - apply ok_set_fds; [done..|]. intros m e i _ Hm Hi. destruct (decide (m = 0%nat)) as [->|].
    + rewrite list_lookup_insert_eq in Hm by done. injection Hm as <-. done.
    + rewrite list_lookup_insert_ne in Hm by done. by eapply ok_fds.
  - intros rn'. rewrite is_open_set_fds. apply Hop.
  - cbn. by rewrite Hb.
  - unfold at_end. cbn [disk g_storage_base_dir set_fds with_relations].
    rewrite Hb, Hd. change (seg_of 0) with 0. change (g_storage_base_dir s2) with (g_storage_base_dir s).
    fold path. subst s2. cbn [names new_file disk with_disk]. rewrite lookup_insert_eq.
    unfold file_bytes. cbn [inodes new_file]. by rewrite lookup_insert_eq.
Qed.

Definition empty_smgr : Smgr := mkSmgr (mkDisk ∅ ∅ 0 ∅) [] "/data".

Lemma ok_empty : smgr_ok empty_smgr.
Proof. split; done. Qed.

(** A relation with one empty fork. *)
Definition demo_rel : RelFileNodeBackend := mkRelFileNodeBackend (mkRelFileNode 0 5 16384) 0.
Definition demo_smgr : Smgr := exec (mdcreate demo_rel kMain false) (smgropen demo_rel empty_smgr).
Definition demo_page : list Z := replicate blk 7.

Lemma demo_place b : is_u32 b → valid_place demo_rel kMain b.
Proof. intros ?. by split. Qed.

Lemma demo_ok : smgr_ok demo_smgr ∧ is_open demo_rel demo_smgr ∧ at_end demo_smgr demo_rel kMain 0.
Proof.
  destruct (smgropen_run demo_rel empty_smgr ok_empty) as (H1 & H2 & _ & _).
  destruct (mdcreate_run demo_rel kMain _ H1 H2) as (s' & Hrun & Hok & Hop & _ & Hend); [done|reflexivity|].
  unfold demo_smgr, exec. rewrite Hrun.
  split_and!; [done| |done]. by apply Hop.
Qed.

Lemma extend_then_read_witness :
  ∃ s', mdextend demo_rel kMain 0 demo_page false demo_smgr = (Ret tt, s') ∧ smgr_ok s' ∧
    (∀ buf, length buf = blk → ∃ s'', mdread demo_rel kMain 0 buf s' = (Ret tt, demo_page, s'') ∧ same_files s' s'') ∧
    (∀ rn' g c, valid_place rn' g c → place_of rn' g c ≠ place_of demo_rel kMain 0 →
       block_at s' rn' g c = block_at demo_smgr rn' g c).
Proof.
  destruct demo_ok as (Hok & Ho & Hend).
  exact (extend_then_read demo_rel kMain 0 demo_page demo_smgr Hok Ho
    (demo_place 0 ltac:(split; lia)) (length_replicate blk 7) Hend).
Defined.

(** ** Removing a fork *)

Lemma unlink_lookup path d p :
  names (unlink path d).2 !! p = if decide (p = path) then None else names d !! p.
Proof.
  unfold unlink. destruct (names d !! path) as [i|] eqn:E; cbn [snd names].
  - case_decide as Hp; [subst p; by rewrite lookup_delete_eq|by rewrite lookup_delete_ne].
  - case_decide as Hp; [by subst p|done].
Qed.

Lemma unlink_segments_run fuel rn f n s :
  f ≠ kInvalid → (size (names (disk s)) < fuel)%nat → 0 ≤ n →
  let path := path_of (g_storage_base_dir s) rn f in
  ∃ s' k, unlink_segments fuel rn f n s = (Ret true, s') ∧ n ≤ k ∧
    relations s' = relations s ∧ g_storage_base_dir s' = g_storage_base_dir s ∧
    inodes (disk s') = inodes (disk s) ∧
    (∀ j, n ≤ j < k → is_Some (names (disk s) !! path j) ∧ names (disk s') !! path j = None) ∧
    names (disk s') !! path k = None ∧
    (∀ p, (∀ j, n ≤ j < k → p ≠ path j) → names (disk s') !! p = names (disk s) !! p).
Proof.
  intros Hf. revert n s. induction fuel as [|fuel IH]; intros n s Hsz Hn path; [lia|].
  cbn [unlink_segments]. rewrite (bind_ret_run _ _ _ _ _ (mdFilePath_run rn f n s Hf)).
  unfold mbind at 1, M_bind, gets. fold path.
  destruct (names (disk s) !! path n) as [i|] eqn:Hi.
  - assert ((unlink (path n) (disk s)).1 = true) as -> by (unfold unlink; by rewrite Hi).
    unfold mbind at 1, M_bind, modify. set (s1 := with_disk _ s).
    assert (Hlk : ∀ p, names (disk s1) !! p = if decide (p = path n) then None else names (disk s) !! p)
      by (intros p; apply unlink_lookup).
    assert (Hsz1 : (size (names (disk s1)) < fuel)%nat).
    { subst s1. cbn. unfold unlink. rewrite Hi. cbn. rewrite map_size_delete_Some by eauto.
      assert (size (names (disk s)) ≠ 0%nat) by (intros Hz%map_size_empty_iff; rewrite Hz in Hi; done). lia. }
    destruct (IH (n + 1) s1 Hsz1 ltac:(lia)) as (s' & k & Hrun & Hk & Hr & Hb & Hin & Hgone & Hlast & Hkeep).
    change (g_storage_base_dir s1) with (g_storage_base_dir s) in *. fold path in Hgone, Hlast, Hkeep.
    assert (Hsub : ∀ p, names (disk s') !! p = None ∨ names (disk s') !! p = names (disk s1) !! p).
    { intros p. destruct (names (disk s') !! p) as [x|] eqn:Hx; [|by left]. right. rewrite <- Hx.
      apply Hkeep. intros j Hj ->. destruct (Hgone j Hj). congruence. }
    exists s', k. split_and!; [exact Hrun|lia|done|done| | |done|].
    + rewrite Hin. subst s1. cbn. unfold unlink. by rewrite Hi.
    + intros j Hj. destruct (decide (j = n)) as [->|].
      * split; [by rewrite Hi|]. destruct (Hsub (path n)) as [->| ->]; [done|]. by rewrite Hlk, decide_True.
      * destruct (Hgone j ltac:(lia)) as [Hs1 Hg]. split; [|done].
        rewrite Hlk in Hs1. case_decide as Hd; [by destruct Hs1|done].
    + intros p Hp. rewrite Hkeep by (intros; apply Hp; lia). rewrite Hlk, decide_False; [done|]. apply Hp. lia.
  - assert ((unlink (path n) (disk s)).1 = false) as -> by (unfold unlink; by rewrite Hi).
    exists s, n. split_and!; try done; try lia.
Qed.

(** [mdunlink] ends.  Its loop has no bound in the code; it stops at the
    first segment [k] that does not exist.  Every segment before [k] existed
    and is gone, the fork no longer exists, no other file is touched, and the
    relation has no open descriptor of the fork. *)
Theorem mdunlink_ends rn f s :
  is_open rn s → f ≠ kInvalid →
  let path := path_of (g_storage_base_dir s) rn f in
  ∃ s' k, mdunlink rn f false s = (Ret true, s') ∧ 0 ≤ k ∧
    (∀ j, 0 ≤ j < k → is_Some (names (disk s) !! path j) ∧ names (disk s') !! path j = None) ∧
    names (disk s') !! path k = None ∧
    (∀ p, (∀ j, 0 ≤ j < k → p ≠ path j) → names (disk s') !! p = names (disk s) !! p) ∧
    mdexists rn f s' = (Ret false, s') ∧ fds rn f s' = [].
Proof.
  intros Ho Hf path. unfold mdunlink, mdclose. unfold mbind at 1, M_bind, modify.
  unfold mbind at 1, M_bind, gets. set (s1 := set_fds rn f [] s).
  destruct (unlink_segments_run (S (size (names (disk s1)))) rn f 0 s1 Hf ltac:(lia) ltac:(lia))
    as (s2 & k & Hrun & Hk & Hr & Hb & _ & Hgone & Hlast & Hkeep).
  rewrite (bind_ret_run _ _ _ _ _ Hrun). eexists _, k. split; [reflexivity|].
  cbn [disk set_fds with_relations]. subst s1. cbn [disk set_fds with_relations g_storage_base_dir] in *.
  fold path in Hgone, Hlast, Hkeep.
  assert (Ho2 : is_open rn s2).
  { unfold is_open. rewrite Hr. fold (is_open rn (set_fds rn f [] s)). by rewrite is_open_set_fds. }
  split_and!; [done..| |].
  - unfold mdexists. rewrite (bind_ret_run _ _ _ _ _ (mdFilePath_run rn f 0 _ Hf)).
    unfold mbind, M_bind, gets, mret, M_ret. cbn [disk set_fds with_relations g_storage_base_dir].
    rewrite Hb. fold path. do 2 f_equal. apply bool_decide_eq_false.
    rewrite eq_None_not_Some || rewrite <- eq_None_not_Some.
    destruct (decide (k = 0)) as [->|]; [done|]. apply Hgone. lia.
  - rewrite fds_set_fds by done. by rewrite decide_True.
Qed.

Lemma mdunlink_ends_witness :
  ∃ s' k, mdunlink demo_rel kMain false demo_smgr = (Ret true, s') ∧ 0 ≤ k ∧
    (∀ j, 0 ≤ j < k → is_Some (names (disk demo_smgr) !! path_of "/data" demo_rel kMain j) ∧
                      names (disk s') !! path_of "/data" demo_rel kMain j = None) ∧
    names (disk s') !! path_of "/data" demo_rel kMain k = None ∧
    (∀ p, (∀ j, 0 ≤ j < k → p ≠ path_of "/data" demo_rel kMain j) →
       names (disk s') !! p = names (disk demo_smgr) !! p) ∧
    mdexists demo_rel kMain s' = (Ret false, s') ∧ fds demo_rel kMain s' = [].
Proof.
  destruct demo_ok as (Hok & Ho & Hend).
  exact (mdunlink_ends demo_rel kMain demo_smgr Ho ltac:(discriminate)).
Defined.

(** ** Counting the blocks of a fork *)

(** A fork of one segment, with [n] blocks. *)
Definition single_segment (s : Smgr) (rn : RelFileNodeBackend) (f : ForkNumber) (n : Z) : Prop :=
  0 ≤ n < kRelSegSize ∧
  (∃ i, names (disk s) !! path_of (g_storage_base_dir s) rn f 0 = Some i ∧
        Z.of_nat (length (file_bytes (disk s) i)) = n * kBlckSz) ∧
  names (disk s) !! path_of (g_storage_base_dir s) rn f 1 = None.

Lemma stat_size_run rn f n s :
  single_segment s rn f n →
  stat_size (path_of (g_storage_base_dir s) rn f 0) (disk s) = Some (n * kBlckSz) ∧
  stat_size (path_of (g_storage_base_dir s) rn f 1) (disk s) = None.
Proof.
  intros (_ & (i & Hi & Hl) & H1). unfold stat_size. rewrite Hi, H1. simpl. by rewrite Hl.
Qed.

Lemma count_first rn f s e l n :
  smgr_ok s → f ≠ kInvalid → fds rn f s = e :: l → single_segment s rn f n →
  count_segments rn f (e :: l) 0 0 s = (Ret n, s).
Proof.
  intros Hok Hf Hl Hss. destruct (stat_size_run rn f n s Hss) as [Hst0 Hst1].
  destruct Hss as (Hn & (i & Hi & Hlen) & H1).
  assert (Hu : u32 (0 + u32 (n * kBlckSz / kBlckSz)) = n).
  { rewrite Z.div_mul by done. unfold kRelSegSize in Hn. rewrite (u32_small n), u32_small; unfold is_u32; lia. }
  assert (Hrest : count_segments rn f l 1 n s = (Ret n, s)).
  { destruct l as [|e1 l]; [done|]. destruct e1 as [[j|] sg].
    - exfalso. assert (Hj : fds rn f s !! 1%nat = Some (mkMdfd (Some j) sg)) by by rewrite Hl.
      pose proof (ok_fds _ Hok rn f _ _ j Hf Hj eq_refl) as Hnm. change (Z.of_nat 1) with 1 in Hnm. congruence.
    - cbn [count_segments]. rewrite (bind_ret_run _ _ _ _ _ (mdFilePath_run rn f 1 s Hf)).
      unfold mbind, M_bind, gets. by rewrite Hst1. }
  destruct e as [[j|] sg]; cbn [count_segments].
  - assert (Hj : fds rn f s !! 0%nat = Some (mkMdfd (Some j) sg)) by by rewrite Hl.
    pose proof (ok_fds _ Hok rn f _ _ j Hf Hj eq_refl) as Hnm. change (Z.of_nat 0) with 0 in Hnm.
    assert (j = i) as -> by congruence.
    unfold mbind, M_bind, gets. rewrite Hlen, Hu. exact Hrest.
  - rewrite (bind_ret_run _ _ _ _ _ (mdFilePath_run rn f 0 s Hf)).
    unfold mbind, M_bind, gets. rewrite Hst0, Hu. exact Hrest.
Qed.

Lemma seg_of_small b : 0 ≤ b < kRelSegSize → seg_of b = 0.
Proof. intros Hb. unfold seg_of. rewrite Z.div_small by exact Hb. done. Qed.

Lemma single_segment_blocks s rn f n b :
  single_segment s rn f n → 0 ≤ b < kRelSegSize → is_Some (block_at s rn f b) ↔ b < n.
Proof.
  intros (Hn & (i & Hi & Hlen) & _) Hb. unfold block_at.
  rewrite seg_of_small by done.
  rewrite Hi. simpl. rewrite page_at_bound, offset_of_blocks, Z.mod_small by lia.
  pose proof blk_pos. assert (Hz : Z.of_nat blk = kBlckSz) by done. unfold kBlckSz in *. nia.
Qed.

(** on a fork of one segment [mdnblocks] returns the number of blocks,
    whether the segment's descriptor is cached or not: exactly the blocks
    below it can be read, and the block of that number is the one [mdextend]
    appends next. *)
Theorem nblocks_is_next_block rn f n s :
  smgr_ok s → f ≠ kInvalid → single_segment s rn f n →
  mdnblocks rn f s = (Ret n, s) ∧
  (∀ b, 0 ≤ b < kRelSegSize → is_Some (block_at s rn f b) ↔ b < n) ∧
  at_end s rn f n.
Proof.
  intros Hok Hf Hss. split_and!; [|by intros; apply single_segment_blocks|].
  - unfold mdnblocks. unfold mbind at 1, M_bind, gets.
    destruct (fds rn f s) as [|e l] eqn:Hl; [|by apply count_first].
    rewrite (bind_ret_run _ _ _ _ _ (mdFilePath_run rn f 0 s Hf)).
    destruct (stat_size_run rn f n s Hss) as [Hst0 _]. destruct Hss as ([? Hn] & _).
    unfold mbind, M_bind, gets, mret, M_ret. rewrite Hst0, Z.div_mul by done.
    unfold kRelSegSize in Hn. rewrite u32_small; [done|unfold is_u32; lia].
  - destruct Hss as (Hn & (i & Hi & Hlen) & _). unfold at_end. cbv zeta.
    rewrite seg_of_small by done.
    rewrite Hi, Hlen. unfold offset_of. by rewrite Z.mod_small.
Qed.

Lemma nblocks_is_next_block_witness :
  mdnblocks demo_rel kMain demo_smgr = (Ret 0, demo_smgr) ∧
  (∀ b, 0 ≤ b < kRelSegSize → is_Some (block_at demo_smgr demo_rel kMain b) ↔ b < 0) ∧
  at_end demo_smgr demo_rel kMain 0.
Proof.
  destruct demo_ok as (Hok & Ho & Hend).
  apply (nblocks_is_next_block demo_rel kMain 0 demo_smgr Hok); [discriminate|].
  split_and!; [lia|done|exists 0%nat; split; vm_compute; reflexivity|vm_compute; reflexivity].
Defined.

(** Once the descriptors are released, only the first segment is counted,
    although the blocks of the others can still be read. *)
Theorem nblocks_forgets_segments rn f s p i :
  f ≠ kInvalid → fds rn f s = [] →
  names (disk s) !! path_of (g_storage_base_dir s) rn f 0 = Some i →
  Z.of_nat (length (file_bytes (disk s) i)) = kRelSegSize * kBlckSz →
  block_at s rn f kRelSegSize = Some p →
  mdnblocks rn f s = (Ret kRelSegSize, s).
Proof.
  intros Hf Hl Hi Hlen _. unfold mdnblocks. unfold mbind at 1, M_bind, gets. rewrite Hl.
  rewrite (bind_ret_run _ _ _ _ _ (mdFilePath_run rn f 0 s Hf)).
  unfold mbind, M_bind, gets, mret, M_ret, stat_size. rewrite Hi. simpl. by rewrite Hlen.
Qed.

(** a path belongs to one segment of one fork of one relation of a
    database; the tablespace and the backend do not enter it, so relations
    that differ only there share their files. *)
Theorem segment_paths base_dir rn rn' f g m n :
  is_u32 (db_node (node rn)) → is_u32 (db_node (node rn')) →
  is_u32 (rel_node (node rn)) → is_u32 (rel_node (node rn')) →
  f ≠ kInvalid → g ≠ kInvalid → 0 ≤ m < 2 ^ 31 → 0 ≤ n < 2 ^ 31 →
  (@BuildFullPath unit base_dir rn f m tt = BuildFullPath base_dir rn' g n tt ↔
   db_node (node rn) = db_node (node rn') ∧ rel_node (node rn) = rel_node (node rn') ∧ f = g ∧ m = n).
Proof.
  intros Hd Hd' Hr Hr' Hf Hg Hm Hn.
  assert (Hrun : ∀ rn f n, f ≠ kInvalid → @BuildFullPath unit base_dir rn f n tt = (Ret (path_of base_dir rn f n), tt))
    by (intros ? [] ? ?; done).
  rewrite !Hrun by done. split.
  - intros E. injection E as E. apply (path_of_inj base_dir rn rn' f g m n); try done; lia.
  - intros (Ed & Er & -> & ->). by rewrite (path_of_place base_dir rn g n rn').
Qed.

Lemma segment_paths_witness :
  @BuildFullPath unit "/data" demo_rel kMain 0 tt =
    BuildFullPath "/data" (mkRelFileNodeBackend (mkRelFileNode 1663 5 16384) 2) kMain 0 tt ↔
  db_node (node demo_rel) = 5 ∧ rel_node (node demo_rel) = 16384 ∧ kMain = kMain ∧ 0 = 0.
Proof.
  apply (segment_paths "/data" demo_rel (mkRelFileNodeBackend (mkRelFileNode 1663 5 16384) 2) kMain kMain 0 0);
    (discriminate || (split; lia) || (split; simpl; lia)).
Defined.

End Smgr.
