(* ===== verification/BufMgr.v ===== *)
(** * The buffer manager

    src/storage/buffer/bufmgr.cpp and src/storage/buffer/freelist.cpp: the
    pool of page buffers with its hash table (open addressing with linear
    probing), its free list and clock sweep, pins and dirty flags, and the
    calls that read, write back and drop pages.

    The pool lives in shared memory; a section under a mapping or free-list
    lock is one step of the model.  [std::hash] and the storage manager are
    parameters: the latter through the interface of [RelFile]. *)

From stdpp Require Import base gmap list strings.
From S2P Require Import Prelude RelFile.

Module BufMgr.
Import RelFile.

Definition kInvalidBuffer : Z := 0.
Definition kMaxUsageCount : Z := 5.
Definition kBMDirty : Z := 0x000001.
Definition kBMValid : Z := 0x000002.
Definition kBMTagged : Z := 0x000004.
Definition kNumBufferPartitions : Z := 16.

Record BufferDesc := mkDesc {
  tag : BufferTag;
  buf_id : Z;
  state : Z;
  refcount : Z;
  usage_count : Z;
  free_next : Z;
}.

Record BufferHashEntry := mkEntry { he_tag : BufferTag; he_buf_id : Z }.
Definition empty_entry : BufferHashEntry := mkEntry empty_tag (-1).

Definition IsEmpty (e : BufferHashEntry) : bool := block_num (he_tag e) =? kInvalidBlockNumber.

Definition IsDirty (d : BufferDesc) : bool := negb (Z.land (state d) kBMDirty =? 0).
Definition IsValid (d : BufferDesc) : bool := negb (Z.land (state d) kBMValid =? 0).
Definition IsTagged (d : BufferDesc) : bool := negb (Z.land (state d) kBMTagged =? 0).
Definition IsPinned (d : BufferDesc) : bool := 0 <? refcount d.

Definition with_state (f : Z → Z) (d : BufferDesc) : BufferDesc :=
  mkDesc (tag d) (buf_id d) (f (state d)) (refcount d) (usage_count d) (free_next d).
Definition with_tag (t : BufferTag) (d : BufferDesc) : BufferDesc :=
  mkDesc t (buf_id d) (state d) (refcount d) (usage_count d) (free_next d).
Definition with_refcount (f : Z → Z) (d : BufferDesc) : BufferDesc :=
  mkDesc (tag d) (buf_id d) (state d) (f (refcount d)) (usage_count d) (free_next d).
Definition with_usage (f : Z → Z) (d : BufferDesc) : BufferDesc :=
  mkDesc (tag d) (buf_id d) (state d) (refcount d) (f (usage_count d)) (free_next d).
Definition with_free_next (n : Z) (d : BufferDesc) : BufferDesc :=
  mkDesc (tag d) (buf_id d) (state d) (refcount d) (usage_count d) n.

Definition SetDirty : BufferDesc → BufferDesc := with_state (λ st, Z.lor st kBMDirty).
Definition ClearDirty : BufferDesc → BufferDesc := with_state (λ st, Z.land st (Z.lnot kBMDirty)).
Definition SetValid : BufferDesc → BufferDesc := with_state (λ st, Z.lor st kBMValid).
Definition ClearValid : BufferDesc → BufferDesc := with_state (λ st, Z.land st (Z.lnot kBMValid)).
Definition SetTagged : BufferDesc → BufferDesc := with_state (λ st, Z.lor st kBMTagged).
Definition ClearTagged : BufferDesc → BufferDesc := with_state (λ st, Z.land st (Z.lnot kBMTagged)).

(** [BufferPool] with the shared arrays it points to. *)
Record BufferPool := mkPool {
  n_buffers : Z;
  descriptors : list BufferDesc;
  blocks : list (list Z);                (* page [i] at [blocks_base + i * kBlckSz] *)
  clock_hand : Z;
  first_free : Z;
  hash_table : list BufferHashEntry;
  hash_table_size : Z;
}.

Definition with_descriptors (f : list BufferDesc → list BufferDesc) (p : BufferPool) : BufferPool :=
  mkPool (n_buffers p) (f (descriptors p)) (blocks p) (clock_hand p) (first_free p) (hash_table p) (hash_table_size p).
Definition with_blocks (f : list (list Z) → list (list Z)) (p : BufferPool) : BufferPool :=
  mkPool (n_buffers p) (descriptors p) (f (blocks p)) (clock_hand p) (first_free p) (hash_table p) (hash_table_size p).
Definition with_clock_hand (h : Z) (p : BufferPool) : BufferPool :=
  mkPool (n_buffers p) (descriptors p) (blocks p) h (first_free p) (hash_table p) (hash_table_size p).
Definition with_first_free (x : Z) (p : BufferPool) : BufferPool :=
  mkPool (n_buffers p) (descriptors p) (blocks p) (clock_hand p) x (hash_table p) (hash_table_size p).
Definition with_hash_table (f : list BufferHashEntry → list BufferHashEntry) (p : BufferPool) : BufferPool :=
  mkPool (n_buffers p) (descriptors p) (blocks p) (clock_hand p) (first_free p) (f (hash_table p)) (hash_table_size p).

Definition zero_page : list Z := replicate (Z.to_nat kBlckSz) 0.
Definition new_desc (i : Z) : BufferDesc := mkDesc empty_tag i 0 0 0 (-1).

(** [descriptors_[i]] and [page i]; the callers check the index. *)
Definition desc (p : BufferPool) (i : Z) : BufferDesc := default (new_desc i) (descriptors p !! Z.to_nat i).
Definition page (p : BufferPool) (i : Z) : list Z := default zero_page (blocks p !! Z.to_nat i).
Definition upd_desc (i : Z) (f : BufferDesc → BufferDesc) : BufferPool → BufferPool :=
  with_descriptors (alter f (Z.to_nat i)).
Definition set_page (i : Z) (b : list Z) : BufferPool → BufferPool := with_blocks (insert (Z.to_nat i) b).

(** [buf_id < 0 || buf_id >= n_buffers_]. *)
Definition out_of_range (p : BufferPool) (i : Z) : bool := (i <? 0) || (n_buffers p <=? i).

(** ** Free list and clock sweep (freelist.cpp) *)

(** One position of the sweep: [Some] is the victim. *)
Definition sweep_at (b : Z) (p : BufferPool) : option Z * BufferPool :=
  let d := desc p b in
  if refcount d =? 0 then
    if 0 <? usage_count d then (None, upd_desc b (with_usage Z.pred) p)
    else (Some b, with_clock_hand ((b + 1) `mod` n_buffers p) p)
  else (None, p).

Fixpoint sweep (start : Z) (ids : list Z) (p : BufferPool) : Z * BufferPool :=
  match ids with
  | [] => (-1, p)
  | i :: rest =>
      match sweep_at ((start + i) `mod` n_buffers p) p with
      | (Some b, p') => (b, p')
      | (None, p') => sweep start rest p'
      end
  end.

Definition FindVictimBuffer (p : BufferPool) : Z * BufferPool :=
  if 0 <=? first_free p then
    let victim := first_free p in
    (victim, upd_desc victim (with_free_next (-1)) (with_first_free (free_next (desc p victim)) p))
  else sweep (clock_hand p) (seqZ 0 (n_buffers p * 2)) p.

Definition free_one (p : BufferPool) (i : Z) : BufferPool :=
  with_first_free i (upd_desc i (with_free_next (first_free p)) p).
Definition InitFreeList (p : BufferPool) : BufferPool :=
  foldl free_one (with_first_free (-1) p) (reverse (seqZ 0 (n_buffers p))).

Inductive BufferAccessStrategy := kNormal | kBulkRead | kBulkWrite | kVacuum.

Record BufferAccessStrategyData := mkStrategy {
  strategy_type : BufferAccessStrategy; ring_size : Z; ring : list Z; current : Z }.

Definition kRingSizeBulkRead : Z := 32.
Definition kRingSizeBulkWrite : Z := 32.
Definition kRingSizeVacuum : Z := 32.

Definition GetAccessStrategy (btype : BufferAccessStrategy) : BufferAccessStrategyData :=
  let size := match btype with
              | kBulkRead => kRingSizeBulkRead | kBulkWrite => kRingSizeBulkWrite
              | kVacuum => kRingSizeVacuum | kNormal => 0 end in
  mkStrategy btype size (replicate (Z.to_nat size) kInvalidBuffer) 0.

(** ** Pins and flags *)

Definition PinBuffer (buffer : Z) (p : BufferPool) : BufferPool :=
  let i := buffer - 1 in
  if out_of_range p i then p
  else upd_desc i (λ d, with_usage (λ u, if u <? kMaxUsageCount then u + 1 else u) (with_refcount Z.succ d)) p.

Definition UnpinBuffer (buffer : Z) (p : BufferPool) : BufferPool :=
  let i := buffer - 1 in
  if out_of_range p i then p
  else upd_desc i (λ d, if 0 <? refcount d then with_refcount Z.pred d else d) p.

Definition MarkBufferDirty (buffer : Z) (p : BufferPool) : BufferPool :=
  let i := buffer - 1 in
  if out_of_range p i then p else upd_desc i SetDirty p.

Definition NumPinned (p : BufferPool) : Z :=
  Z.of_nat (length (base.filter (λ d, is_true (IsPinned d)) (descriptors p))).
Definition NumDirty (p : BufferPool) : Z :=
  Z.of_nat (length (base.filter (λ d, is_true (IsDirty d)) (descriptors p))).

(** ** The hash table *)

Section hashed.
Context (hash_u32 hash_int : Z → Z).   (* std::hash<uint32_t>, std::hash<int> *)

Definition BufferTagHash (t : BufferTag) : Z :=
  Z.lxor (Z.lxor (Z.lxor (Z.lxor (hash_u32 (spc_node (rnode t)))
    (u64 (Z.shiftl (hash_u32 (db_node (rnode t))) 1)))
    (u64 (Z.shiftl (hash_u32 (rel_node (rnode t))) 2)))
    (u64 (Z.shiftl (hash_int (fork_int (fork_num t))) 3)))
    (u64 (Z.shiftl (hash_u32 (block_num t)) 4)).

Definition BufMappingPartition (t : BufferTag) : Z := BufferTagHash t `mod` kNumBufferPartitions.
Definition HashTableSlot (size : Z) (t : BufferTag) : Z := BufferTagHash t `mod` size.

(** The slots a probe visits, in order. *)
Definition probes (size : Z) (t : BufferTag) : list nat :=
  (λ i, Z.to_nat ((HashTableSlot size t + i) `mod` size)) <$> seqZ 0 size.

Definition entry (h : list BufferHashEntry) (idx : nat) : BufferHashEntry := default empty_entry (h !! idx).

(** [None] when the loop runs off the end: the table is full. *)
Fixpoint probe_insert (idxs : list nat) (t : BufferTag) (b : Z) (h : list BufferHashEntry)
  : option (list BufferHashEntry) :=
  match idxs with
  | [] => None
  | idx :: rest =>
      if IsEmpty (entry h idx) then Some (<[idx := mkEntry t b]> h)
      else if decide (he_tag (entry h idx) = t)
      then Some (<[idx := mkEntry (he_tag (entry h idx)) b]> h)
      else probe_insert rest t b h
  end.

Fixpoint probe_delete (idxs : list nat) (t : BufferTag) (h : list BufferHashEntry) : list BufferHashEntry :=
  match idxs with
  | [] => h
  | idx :: rest =>
      if IsEmpty (entry h idx) then h
      else if decide (he_tag (entry h idx) = t) then <[idx := empty_entry]> h
      else probe_delete rest t h
  end.

Fixpoint probe_lookup (idxs : list nat) (t : BufferTag) (h : list BufferHashEntry) : Z :=
  match idxs with
  | [] => kInvalidBuffer
  | idx :: rest =>
      if IsEmpty (entry h idx) then kInvalidBuffer
      else if decide (he_tag (entry h idx) = t) then he_buf_id (entry h idx) + 1
      else probe_lookup rest t h
  end.

Definition HashTableDelete (t : BufferTag) (p : BufferPool) : BufferPool :=
  with_hash_table (probe_delete (probes (hash_table_size p) t) t) p.
Definition LookupBuffer (t : BufferTag) (p : BufferPool) : Z :=
  probe_lookup (probes (hash_table_size p) t) t (hash_table p).

(** ** Operations on the pool and the storage manager *)

Context {S : Type} `{PageStore S}.

Record St := mkSt { pool : BufferPool; store : S }.
Definition on_pool (f : BufferPool → BufferPool) (s : St) : St := mkSt (f (pool s)) (store s).

Definition HashTableInsert (t : BufferTag) (b : Z) : M St unit := λ s,
  match probe_insert (probes (hash_table_size (pool s)) t) t b (hash_table (pool s)) with
  | Some h => (Ret tt, on_pool (with_hash_table (λ _, h)) s)
  | None => (Ereport "buffer hash table full", s)
  end.

Definition InsertBuffer (t : BufferTag) (victim_id : Z) : M St Z :=
  modify (on_pool (λ p, if IsTagged (desc p victim_id) then HashTableDelete (tag (desc p victim_id)) p else p));;
  modify (on_pool (upd_desc victim_id (λ d,
    with_free_next (-1) (with_usage (λ _, 1) (with_refcount (λ _, 1) (ClearValid (SetTagged (with_tag t d))))))));;
  HashTableInsert t victim_id;;
  mret (victim_id + 1).

Definition FlushBuffer (b : Z) (release : bool) : M St unit := λ s,
  let p := pool s in
  if out_of_range p b then (Ret tt, s) else
  let d := desc p b in
  let unpin := upd_desc b (λ d, if release && (0 <? refcount d) then with_refcount Z.pred d else d) in
  if negb (IsValid d) || negb (IsDirty d) then (Ret tt, on_pool unpin s) else
  let rn := mkRelFileNodeBackend (rnode (tag d)) 0 in
  match smgrwrite_ rn (fork_num (tag d)) (block_num (tag d)) (page p b) (smgropen_ rn (store s)) with
  | (Ret _, st') => (Ret tt, mkSt (unpin (upd_desc b ClearDirty p)) st')
  | (Ereport e, st') => (Ereport e, mkSt p st')
  end.

(** The loops that flush every buffer their guard selects. *)
Fixpoint flush_where (sel : BufferDesc → bool) (ids : list Z) : M St unit :=
  match ids with
  | [] => mret tt
  | i :: rest =>
      d ← gets (λ s, desc (pool s) i);
      when (sel d && IsDirty d && IsValid d) (FlushBuffer i false);;
      flush_where sel rest
  end.

Definition all_ids (s : St) : list Z := seqZ 0 (n_buffers (pool s)).

Definition FlushAllDirtyBuffers : M St unit :=
  ids ← gets all_ids; flush_where (λ _, true) ids.
Definition pool_FlushRelationBuffers (rn : RelFileNode) : M St unit :=
  ids ← gets all_ids; flush_where (λ d, IsTagged d && bool_decide (rnode (tag d) = rn)) ids.

(** The background writer's loop: unpinned dirty buffers, at most [budget]. *)
Fixpoint flush_some (budget flushed : Z) (ids : list Z) : M St Z :=
  match ids with
  | [] => mret flushed
  | i :: rest =>
      if flushed <? budget then
        d ← gets (λ s, desc (pool s) i);
        if (0 <? refcount d) || negb (IsDirty d) || negb (IsValid d) then flush_some budget flushed rest
        else FlushBuffer i false;; flush_some budget (flushed + 1) rest
      else mret flushed
  end.
Definition FlushDirtyBuffers (max_buffers : Z) : M St Z :=
  if max_buffers <=? 0 then mret 0 else ids ← gets all_ids; flush_some max_buffers 0 ids.

Definition reset_desc (first : Z) (d : BufferDesc) : BufferDesc :=
  with_free_next first (with_usage (λ _, 0) (with_tag empty_tag (ClearDirty (ClearValid (ClearTagged d))))).

Definition InvalidateBuffer (b : Z) : M St unit :=
  p ← gets pool;
  if out_of_range p b then mret tt else
  when (IsDirty (desc p b) && IsValid (desc p b)) (FlushBuffer b false);;
  modify (on_pool (λ p, if IsTagged (desc p b) then HashTableDelete (tag (desc p b)) p else p));;
  modify (on_pool (λ p, with_first_free b (upd_desc b (reset_desc (first_free p)) p))).

Fixpoint invalidate_where (sel : BufferDesc → bool) (ids : list Z) : M St unit :=
  match ids with
  | [] => mret tt
  | i :: rest =>
      d ← gets (λ s, desc (pool s) i);
      when (IsTagged d && sel d) (InvalidateBuffer i);;
      invalidate_where sel rest
  end.

(** ** The public calls *)

Inductive ReadBufferMode := kReadNormal | kZero | kNoLock.

Definition fill_page (smgr_reln : RelFileNodeBackend) (t : BufferTag) (mode : ReadBufferMode) (buffer : Z)
  : M St unit := λ s,
  match mode with
  | kZero => (Ret tt, on_pool (set_page (buffer - 1) zero_page) s)
  | _ =>
      let '(o, b, st') := smgrread_ smgr_reln (fork_num t) (block_num t) (page (pool s) (buffer - 1)) (store s) in
      (o, mkSt (set_page (buffer - 1) b (pool s)) st')
  end.

Definition ReadBuffer (smgr_reln : RelFileNodeBackend) (f : ForkNumber) (b : Z) (mode : ReadBufferMode) : M St Z :=
  let t := mkBufferTag (node smgr_reln) f b in
  buffer ← gets (λ s, LookupBuffer t (pool s));
  if negb (buffer =? kInvalidBuffer) then modify (on_pool (PinBuffer buffer));; mret buffer else
  victim_id ← (λ s, let '(v, p) := FindVictimBuffer (pool s) in (Ret v, mkSt p (store s)));
  if victim_id <? 0 then ereport "no buffer available in buffer pool (all pinned)" else
  victim ← gets (λ s, desc (pool s) victim_id);
  when (IsTagged victim && IsDirty victim && IsValid victim) (FlushBuffer victim_id false);;
  buffer ← InsertBuffer t victim_id;
  fill_page smgr_reln t mode buffer;;
  modify (on_pool (upd_desc (buffer - 1) SetValid));;
  mret buffer.

Definition ReadBufferExtended (smgr_reln : RelFileNodeBackend) (f : ForkNumber) (b : Z)
  (mode : ReadBufferMode) (strategy : BufferAccessStrategy) : M St Z := ReadBuffer smgr_reln f b mode.

Definition ReadBufferWithoutRelcache (rn : RelFileNodeBackend) (f : ForkNumber) (b : Z)
  (mode : ReadBufferMode) (strategy : BufferAccessStrategy) : M St Z :=
  modify (λ s, mkSt (pool s) (smgropen_ rn (store s)));; ReadBuffer rn f b mode.

Definition ReleaseBuffer (buffer : Z) : M St unit := modify (on_pool (UnpinBuffer buffer)).
Definition MarkBufferDirty_api (buffer : Z) : M St unit := modify (on_pool (MarkBufferDirty buffer)).
Definition IncrBufferRefCount (buffer : Z) : M St unit := modify (on_pool (PinBuffer buffer)).

(** [GetBufferDesc] is null out of range; then the page is an error. *)
Definition BufferGetPage (buffer : Z) : M St (list Z) :=
  p ← gets pool;
  if out_of_range p (buffer - 1) then ereport "invalid buffer handle" else mret (page p (buffer - 1)).

Definition BufferGetBlockNumber (buffer : Z) (p : BufferPool) : Z :=
  if out_of_range p (buffer - 1) then kInvalidBlockNumber else block_num (tag (desc p (buffer - 1))).
Definition BufferIsPinned (buffer : Z) (p : BufferPool) : bool :=
  if out_of_range p (buffer - 1) then false else 0 <? refcount (desc p (buffer - 1)).
Definition BufferGetTag (buffer : Z) (p : BufferPool) : option BufferTag :=
  if out_of_range p (buffer - 1) then None else Some (tag (desc p (buffer - 1))).

Definition FlushBuffer_api (buffer : Z) : M St unit := FlushBuffer (buffer - 1) false.

Definition MarkBufferDirtyHint (buffer : Z) (release : bool) : M St unit :=
  p ← gets pool;
  if out_of_range p (buffer - 1) then mret tt else
  when (negb (IsDirty (desc p (buffer - 1)))) (modify (on_pool (MarkBufferDirty buffer)));;
  when release (modify (on_pool (UnpinBuffer buffer))).

Definition ReleaseAndReadBuffer (buffer : Z) (reln : RelFileNodeBackend) (f : ForkNumber) (b : Z)
  (mode : ReadBufferMode) : M St Z :=
  p ← gets pool;
  let d := desc p (buffer - 1) in
  if negb (out_of_range p (buffer - 1)) && IsTagged d &&
     bool_decide (tag d = mkBufferTag (node reln) f b)
  then mret buffer
  else ReleaseBuffer buffer;; ReadBuffer reln f b mode.

Definition DropRelationBuffers (rn : RelFileNode) : M St unit :=
  ids ← gets all_ids; invalidate_where (λ d, bool_decide (rnode (tag d) = rn)) ids.
Definition DropRelFileNodeBuffers (rn : RelFileNodeBackend) (f : ForkNumber) : M St unit :=
  ids ← gets all_ids;
  invalidate_where (λ d, bool_decide (rnode (tag d) = node rn) && bool_decide (fork_num (tag d) = f)
                         && negb (0 <? refcount d)) ids.
Definition DropDatabaseBuffers (dbid : Z) : M St unit :=
  ids ← gets all_ids;
  invalidate_where (λ d, (db_node (rnode (tag d)) =? dbid) && negb (0 <? refcount d)) ids.
Definition FlushRelationBuffers (smgr_reln : RelFileNodeBackend) : M St unit :=
  pool_FlushRelationBuffers (node smgr_reln).
Definition FlushDatabaseBuffers (dbid : Z) : M St unit :=
  ids ← gets all_ids; flush_where (λ d, IsTagged d && (db_node (rnode (tag d)) =? dbid)) ids.

End hashed.

(** ** Initialisation *)

Fixpoint double_until (fuel : nat) (size target : Z) : Z :=
  match fuel with
  | O => size
  | S fuel' => if size <? target then double_until fuel' (Z.shiftl size 1) target else size
  end.

(** The size fits an [int]: 31 doublings. *)
Definition BufferHashTableSize (n : Z) : Z := double_until 31 1 (n * 2).

Definition new_pool (n : Z) : BufferPool :=
  InitFreeList (mkPool n (new_desc <$> seqZ 0 n) (replicate (Z.to_nat n) zero_page) 0 (-1)
    (replicate (Z.to_nat (BufferHashTableSize n)) empty_entry) (BufferHashTableSize n)).

(** What a process sees of the pool across initialisations: whether it has a
    controller object, and the arrays in shared memory. *)
Record Shared {S : Type} := mkShared {
  g_buffer_pool : bool;
  shm : option BufferPool;
  sh_store : S;
}.
Arguments Shared : clear implicits.

(** The dirty pages of the controller's pool go to disk. *)
Definition flush_controller {S} `{PageStore S} : M (Shared S) unit := λ g,
  match shm g with
  | Some p =>
      if g_buffer_pool g then
        match FlushAllDirtyBuffers (mkSt p (sh_store g)) with
        | (o, s') => (o, mkShared S (g_buffer_pool g) (Some (pool s')) (store s'))
        end
      else (Ret tt, g)
  | None => (Ret tt, g)
  end.

(** Arrays that are found in shared memory are attached as they are. *)
Definition InitBufferPool {S} `{PageStore S} (n : Z) : M (Shared S) unit :=
  flush_controller;;
  modify (λ g, mkShared S true
    (Some (match shm g with
           | None => new_pool n
           | Some p => mkPool n (descriptors p) (blocks p) (clock_hand p) (first_free p) (hash_table p)
                         (BufferHashTableSize n)
           end)) (sh_store g)).

Definition ShutdownBufferPool {S} `{PageStore S} (IsShmemActive : bool) : M (Shared S) unit :=
  flush_controller;;
  modify (λ g, mkShared S false (if IsShmemActive then shm g else None) (sh_store g)).

(** ** Descriptors *)

Definition in_range (p : BufferPool) (i : Z) : Prop := 0 ≤ i < n_buffers p.

(** The arrays have the sizes the pool was made with. *)
Record pool_shape (p : BufferPool) : Prop := {
  ps_pos : 0 < n_buffers p;
  ps_desc : Z.of_nat (length (descriptors p)) = n_buffers p;
  ps_blocks : Z.of_nat (length (blocks p)) = n_buffers p;
  ps_hand : 0 ≤ clock_hand p < n_buffers p;
  ps_hash : Z.of_nat (length (hash_table p)) = hash_table_size p;
  ps_hash_pos : 0 < hash_table_size p;
}.

Lemma desc_upd p i f j :
  Z.of_nat (length (descriptors p)) = n_buffers p → in_range p i → in_range p j →
  desc (upd_desc i f p) j = if decide (j = i) then f (desc p i) else desc p j.
Proof.
  intros Hp Hi Hj. unfold in_range in *. unfold desc, upd_desc. cbn [descriptors with_descriptors].
  case_decide as Hd; [subst j|].
  - rewrite list_lookup_alter_eq. destruct (descriptors p !! Z.to_nat i) as [d|] eqn:E; [done|].
    apply lookup_ge_None in E. lia.
  - by rewrite list_lookup_alter_ne by lia.
Qed.

Lemma shape_upd p i f : pool_shape p → pool_shape (upd_desc i f p).
Proof. intros []. split; try done. cbn [descriptors upd_desc with_descriptors n_buffers]. by rewrite length_alter. Qed.

Lemma out_of_range_false p i : in_range p i → out_of_range p i = false.
Proof. intros [? ?]. unfold out_of_range. apply orb_false_iff. split; [apply Z.ltb_ge|apply Z.leb_gt]; lia. Qed.

Lemma out_of_range_true p i : out_of_range p i = true ↔ ¬ in_range p i.
Proof. unfold out_of_range, in_range. rewrite orb_true_iff, Z.ltb_lt, Z.leb_le. lia. Qed.

(** ** The clock sweep *)

(** The sweep over explicit positions. *)
Fixpoint sweep_list (bs : list Z) (p : BufferPool) : Z * BufferPool :=
  match bs with
  | [] => (-1, p)
  | b :: rest =>
      match sweep_at b p with
      | (Some v, p') => (v, p')
      | (None, p') => sweep_list rest p'
      end
  end.

Lemma sweep_at_n b p v p' : sweep_at b p = (v, p') → n_buffers p' = n_buffers p.
Proof. unfold sweep_at. repeat case_match; intros E; by injection E as <- <-. Qed.

Lemma sweep_as_list start ids p :
  sweep start ids p = sweep_list ((λ i, (start + i) `mod` n_buffers p) <$> ids) p.
Proof.
  revert p. induction ids as [|i ids IH]; intros p; [done|].
  cbn [sweep sweep_list fmap list_fmap map].
  destruct (sweep_at ((start + i) `mod` n_buffers p) p) as [[v|] p'] eqn:E; [done|].
  rewrite IH. by rewrite (sweep_at_n _ _ _ _ E).
Qed.

(** One turn of the clock from [start]: every buffer once. *)
Definition round (start n : Z) : list Z := (λ i, (start + i) `mod` n) <$> seqZ 0 n.

Lemma round_twice start n :
  0 < n → (λ i, (start + i) `mod` n) <$> seqZ 0 (n * 2) = round start n ++ round start n.
Proof.
  intros Hn. replace (n * 2) with (n + n) by lia. rewrite seqZ_app by lia. rewrite fmap_app. f_equal.
  unfold round. replace (0 + n) with (n + 0) by lia.
  rewrite <- (fmap_add_seqZ n 0 n), <- list_fmap_compose. apply list_fmap_ext. intros k i _. cbn.
  replace (start + (n + i)) with (start + i + 1 * n) by lia. by rewrite Z.mod_add by lia.
Qed.

Lemma elem_of_round start n b : 0 ≤ b < n → b ∈ round start n.
Proof.
  intros Hb. apply list_elem_of_fmap. exists ((b - start) `mod` n). split.
  - rewrite Zplus_mod_idemp_r. replace (start + (b - start)) with b by lia. by rewrite Z.mod_small.
  - apply elem_of_seqZ. pose proof (Z.mod_pos_bound (b - start) n). lia.
Qed.

Lemma round_range start n b : 0 < n → b ∈ round start n → 0 ≤ b < n.
Proof. intros Hn (i & -> & _)%list_elem_of_fmap. apply Z.mod_pos_bound. done. Qed.

Lemma NoDup_round start n : 0 < n → NoDup (round start n).
Proof.
  intros Hn. apply NoDup_fmap_2_strong; [|apply NoDup_seqZ].
  intros i j Hi%elem_of_seqZ Hj%elem_of_seqZ E.
  assert ((start + i - (start + j)) `mod` n = 0) as Hm
    by (rewrite Zminus_mod, E, Z.sub_diag; by apply Zmod_0_l).
  apply Z.mod_divide in Hm as [q Hq]; [|lia]. assert (q = 0) by nia. lia.
Qed.

(** An unpinned buffer the sweep takes: its usage count is spent. *)
Definition evictable (d : BufferDesc) : Prop := refcount d = 0 ∧ usage_count d ≤ 0.
(** What a passing hand does to a buffer. *)
Definition tick (d : BufferDesc) : BufferDesc :=
  if decide (refcount d = 0 ∧ 0 < usage_count d) then with_usage Z.pred d else d.

(** A descriptor that differs at most by a lower usage count, and not at all
    when it is pinned. *)
Definition spent (d d' : BufferDesc) : Prop :=
  d' = with_usage (λ _, usage_count d') d ∧ usage_count d' ≤ usage_count d ∧
  (0 ≤ usage_count d → 0 ≤ usage_count d') ∧ (refcount d ≠ 0 → d' = d).

Lemma spent_refl d : spent d d.
Proof. by destruct d. Qed.

Lemma spent_trans d1 d2 d3 : spent d1 d2 → spent d2 d3 → spent d1 d3.
Proof.
  intros (H1 & ? & ? & P1) (H2 & ? & ? & P2). split_and!; [rewrite H2 at 1; by rewrite H1|lia|auto|].
  intros Hr. specialize (P1 Hr). subst d2. auto.
Qed.

Lemma spent_tick d : spent d (tick d).
Proof.
  unfold tick. case_decide as Hd; [|apply spent_refl]. destruct Hd.
  split_and!; [done|cbn; lia|cbn; lia|done].
Qed.

Lemma spent_fields d d' :
  spent d d' → tag d' = tag d ∧ state d' = state d ∧ refcount d' = refcount d ∧ free_next d' = free_next d.
Proof. intros (-> & _). done. Qed.

#[local] Hint Resolve spent_refl spent_tick : pgcpp.

(** The parts of the pool a sweep leaves alone. *)
Definition same_contents (p p' : BufferPool) : Prop :=
  n_buffers p' = n_buffers p ∧ blocks p' = blocks p ∧ hash_table p' = hash_table p ∧
  hash_table_size p' = hash_table_size p ∧ first_free p' = first_free p.

Lemma sweep_list_spec bs p :
  pool_shape p → NoDup bs → Forall (in_range p) bs →
  let '(v, p') := sweep_list bs p in
  pool_shape p' ∧ same_contents p p' ∧
  ((v = -1 ∧ clock_hand p' = clock_hand p ∧ (∀ b, b ∈ bs → ¬ evictable (desc p b)) ∧
    (∀ b, in_range p b → desc p' b = if decide (b ∈ bs) then tick (desc p b) else desc p b)) ∨
   (v ∈ bs ∧ evictable (desc p v) ∧ desc p' v = desc p v ∧
    (∀ b, in_range p b → spent (desc p b) (desc p' b)))).
Proof.
  revert p. induction bs as [|b bs IH]; intros p Hs Hnd Hr; cbn [sweep_list].
  { split_and!; [done..|]. left. split_and!; [done..| |]; [by intros b Hb%not_elem_of_nil|].
    intros b Hb. by rewrite decide_False by apply not_elem_of_nil. }
  apply NoDup_cons in Hnd as [Hb Hnd]. apply Forall_cons in Hr as [Hrb Hr].
  assert (Hne : ∀ c, c ∈ bs → c ≠ b) by (intros c Hc ->; done).
  assert (Hrange : ∀ c, c ∈ bs → in_range p c) by (intros c Hc; by eapply Forall_forall in Hr).
  destruct (decide (evictable (desc p b))) as [Hev|Hev].
  - unfold sweep_at. rewrite (proj2 (Z.eqb_eq _ _) (proj1 Hev)).
    destruct (0 <? usage_count (desc p b)) eqn:E; to_prop; [destruct Hev; lia|].
    split_and!; [|done|].
    + destruct Hs. split; try done. cbn. apply Z.mod_pos_bound. done.
    + right. split_and!; [by left|done|done|]. intros c _. apply spent_refl.
  - assert (∃ p1, sweep_at b p = (None, p1) ∧ pool_shape p1 ∧ same_contents p p1 ∧ clock_hand p1 = clock_hand p ∧
        ∀ j, in_range p j → desc p1 j = if decide (j = b) then tick (desc p b) else desc p j)
      as (p1 & -> & Hs1 & Hc1 & Hh1 & Hd1).
    { unfold sweep_at, tick. destruct (refcount (desc p b) =? 0) eqn:E1; to_prop.
      - destruct (0 <? usage_count (desc p b)) eqn:E2; to_prop; [|by destruct Hev].
        eexists. split_and!; [done|by apply shape_upd|done..|]. intros j Hj.
        rewrite desc_upd by (done || apply Hs). by rewrite (decide_True _ _ (conj E1 E2)).
      - exists p. split_and!; [done..|]. intros j Hj. case_decide; [subst j|done].
        by rewrite decide_False by tauto. }
    assert (Hn1 : n_buffers p1 = n_buffers p) by apply Hc1.
    assert (Hr1 : ∀ j, in_range p1 j ↔ in_range p j) by (intros j; unfold in_range; by rewrite Hn1).
    assert (Hother : ∀ c, c ∈ bs → desc p1 c = desc p c) by (intros c Hc; rewrite Hd1, decide_False by auto; done).
    assert (Hfr : Forall (in_range p1) bs) by (apply Forall_forall; intros c Hc; apply Hr1; auto).
    pose proof (IH p1 Hs1 Hnd Hfr) as Hspec. destruct (sweep_list bs p1) as [v p'].
    destruct Hspec as (Hs' & Hc' & Hcase). split_and!; [done|unfold same_contents in *; naive_solver congruence|].
    destruct Hcase as [(Hv & Hh & Hno & Hdesc)|(Hv & Hev' & Hdv & Hdesc)].
    + left. split_and!; [done|congruence| |].
      * intros c [->|Hc]%elem_of_cons; [done|]. rewrite <- Hother by done. by apply Hno.
      * intros c Hc. rewrite Hdesc by (by apply Hr1). rewrite Hd1 by done.
        destruct (decide (c = b)) as [->|Hcb].
        -- rewrite decide_False by done. by rewrite decide_True by (by left).
        -- destruct (decide (c ∈ bs)); [rewrite decide_True by (by right)|
             rewrite decide_False by (rewrite elem_of_cons; naive_solver)]; done.
    + right. rewrite Hother in Hev', Hdv by done. split_and!; [by right|done|done|].
      intros c Hc. eapply spent_trans; [|apply Hdesc, Hr1; done].
      rewrite Hd1 by done. case_decide; [subst c|]; auto with pgcpp.
Qed.

Lemma round_in_range start p : pool_shape p → Forall (in_range p) (round start (n_buffers p)).
Proof. intros []. apply Forall_forall. intros b Hb. by apply round_range in Hb. Qed.

Lemma sweep_list_app bs1 bs2 p :
  Forall (λ b, 0 ≤ b) bs1 →
  sweep_list (bs1 ++ bs2) p =
  let '(v, p') := sweep_list bs1 p in if v =? -1 then sweep_list bs2 p' else (v, p').
Proof.
  intros Hb. revert p. induction Hb as [|b bs1 Hb _ IH]; intros p; [done|]. cbn [app sweep_list].
  destruct (sweep_at b p) as [[v|] p'] eqn:E; [|apply IH].
  assert (v = b) as -> by (unfold sweep_at in E; repeat case_match; by simplify_eq).
  destruct (b =? -1) eqn:Ev; to_prop; [lia|done].
Qed.

(** What two turns of the clock do, when the free list is empty. *)
Lemma clock_spec p :
  pool_shape p → first_free p < 0 → (∀ b, in_range p b → 0 ≤ usage_count (desc p b)) →
  let '(v, p') := FindVictimBuffer p in
  pool_shape p' ∧ same_contents p p' ∧
  (∀ b, in_range p b → spent (desc p b) (desc p' b)) ∧
  ((v = -1 ∧ ∀ b, in_range p b → refcount (desc p b) = 0 →
      2 ≤ usage_count (desc p b) ∧ usage_count (desc p' b) = usage_count (desc p b) - 2) ∨
   (in_range p v ∧ refcount (desc p v) = 0 ∧ usage_count (desc p v) ≤ 1)).
Proof.
  intros Hs Hff Hu. unfold FindVictimBuffer.
  destruct (0 <=? first_free p) eqn:E; to_prop; [lia|].
  rewrite sweep_as_list, round_twice by apply Hs.
  set (bs := round (clock_hand p) (n_buffers p)).
  assert (Hnd : NoDup bs) by (apply NoDup_round, Hs).
  assert (Hall : ∀ b, in_range p b → b ∈ bs) by (intros b Hb; by apply elem_of_round).
  pose proof (round_in_range (clock_hand p) p Hs) as Hr. fold bs in Hr.
  rewrite sweep_list_app by (eapply Forall_impl; [exact Hr|by intros b [? _]]).
  pose proof (sweep_list_spec bs p Hs Hnd Hr) as H1. destruct (sweep_list bs p) as [v1 p1].
  destruct H1 as (Hs1 & Hc1 & [(-> & Hh1 & Hno1 & Hd1)|(Hv1 & Hev1 & Hdv1 & Hd1)]).
  - change (-1 =? -1) with true. cbn iota. assert (Hn1 : n_buffers p1 = n_buffers p) by apply Hc1.
    assert (Hri : ∀ b, in_range p1 b ↔ in_range p b) by (intros b; unfold in_range; by rewrite Hn1).
    assert (Hr1 : Forall (in_range p1) bs) by (eapply Forall_impl; [exact Hr|intros b; apply Hri]).
    pose proof (sweep_list_spec bs p1 Hs1 Hnd Hr1) as H2. destruct (sweep_list bs p1) as [v2 p2].
    assert (Ht : ∀ b, in_range p b → desc p1 b = tick (desc p b))
      by (intros b Hb; rewrite Hd1, decide_True by auto; done).
    destruct H2 as (Hs2 & Hc2 & Hcase). split_and!; [done|unfold same_contents in *; naive_solver congruence| |].
    + intros b Hb. apply (spent_trans _ (desc p1 b)); [rewrite Ht by done; apply spent_tick|].
      destruct Hcase as [(_ & _ & _ & Hd2)|(_ & _ & _ & Hd2)]; [|by apply Hd2, Hri].
      rewrite Hd2, decide_True by (auto || by apply Hri). apply spent_tick.
    + destruct Hcase as [(-> & _ & Hno2 & Hd2)|(Hv2 & Hev2 & _ & _)].
      * left. split; [done|]. intros b Hb Hrc.
        specialize (Hno1 b (Hall b Hb)). specialize (Hno2 b (Hall b Hb)). unfold evictable in Hno1, Hno2.
        rewrite Hd2, decide_True by (auto || by apply Hri). rewrite Ht in Hno2 |- * by done.
        assert (Ht1 : tick (desc p b) = with_usage Z.pred (desc p b))
          by (unfold tick; rewrite decide_True; [done|split; [done|lia]]).
        rewrite Ht1 in Hno2 |- *. cbn in Hno2. unfold tick. cbn. rewrite decide_True by (split; [done|lia]).
        cbn. lia.
      * right. assert (Hv : in_range p v2) by (by eapply Forall_forall in Hr).
        rewrite Ht in Hev2 by done. destruct Hev2 as [Hrc Husage].
        destruct (spent_fields _ _ (spent_tick (desc p v2))) as (_ & _ & Hrc' & _).
        split_and!; [done|congruence|]. unfold tick in Husage. case_decide; cbn in Husage; lia.
  - assert (Hv : in_range p v1) by (by eapply Forall_forall in Hr).
    rewrite (proj2 (Z.eqb_neq v1 (-1))) by (destruct Hv; lia).
    split_and!; [done|done|done|]. right. destruct Hev1. split_and!; [done|done|lia].
Qed.


(** C37: progress of replacement.  Although one search gives up when all
    unpinned buffers were used recently, three searches in a row cannot all
    fail while some buffer is unpinned, because usage counts are capped at 5
    and each failing search lowers those of the unpinned buffers by 2. *)
Theorem find_victim_progress p b :
  pool_shape p → first_free p < 0 →
  (∀ b, in_range p b → 0 ≤ usage_count (desc p b) ≤ kMaxUsageCount) →
  in_range p b → refcount (desc p b) = 0 →
  let '(v1, p1) := FindVictimBuffer p in
  let '(v2, p2) := FindVictimBuffer p1 in
  let '(v3, _) := FindVictimBuffer p2 in
  in_range p v1 ∨ in_range p v2 ∨ in_range p v3.
Proof.
  intros Hs Hff Hu Hb Hrc.
  assert (Hstep : ∀ q, pool_shape q → first_free q < 0 → n_buffers q = n_buffers p →
    (∀ c, in_range p c → 0 ≤ usage_count (desc q c)) → refcount (desc q b) = 0 →
    let '(v, q') := FindVictimBuffer q in
    in_range p v ∨ (pool_shape q' ∧ first_free q' < 0 ∧ n_buffers q' = n_buffers p ∧
      (∀ c, in_range p c → 0 ≤ usage_count (desc q' c)) ∧ refcount (desc q' b) = 0 ∧
      2 ≤ usage_count (desc q b) ∧ usage_count (desc q' b) = usage_count (desc q b) - 2)).
  { intros q Hsq Hfq Hnq Huq Hrq. assert (Hri : ∀ c, in_range q c ↔ in_range p c)
      by (intros c; unfold in_range; by rewrite Hnq).
    pose proof (clock_spec q Hsq Hfq ltac:(intros c Hc; by apply Huq, Hri)) as Hc.
    destruct (FindVictimBuffer q) as [v q']. destruct Hc as (Hs' & (Hn & _ & _ & _ & Hf) & Hsp & Hcase).
    destruct Hcase as [[-> Hall]|(Hv & _)]; [right|left; by apply Hri].
    destruct (Hall b ltac:(by apply Hri) Hrq) as [H2 Hdec].
    split_and!; [done|congruence|congruence| | |done|done].
    - intros c Hc. destruct (decide (refcount (desc q c) = 0)) as [Hz|Hnz].
      + destruct (Hall c ltac:(by apply Hri) Hz). lia.
      + destruct (Hsp c ltac:(by apply Hri)) as (_ & _ & _ & Heq). rewrite Heq by done. auto.
    - destruct (spent_fields _ _ (Hsp b ltac:(by apply Hri))) as (_ & _ & -> & _). done. }
  pose proof (Hstep p Hs Hff eq_refl ltac:(intros c Hc; apply (Hu c Hc)) Hrc) as S1.
  destruct (FindVictimBuffer p) as [v1 p1]. destruct S1 as [?|(Hs1 & Hf1 & Hn1 & Hu1 & Hr1 & Hb1 & Hd1)];
    [destruct (FindVictimBuffer p1) as [v2 p2], (FindVictimBuffer p2); by left|].
  pose proof (Hstep p1 Hs1 Hf1 Hn1 Hu1 Hr1) as S2.
  destruct (FindVictimBuffer p1) as [v2 p2]. destruct S2 as [?|(Hs2 & Hf2 & Hn2 & Hu2 & Hr2 & Hb2 & Hd2)];
    [destruct (FindVictimBuffer p2); by right; left|].
  pose proof (Hstep p2 Hs2 Hf2 Hn2 Hu2 Hr2) as S3.
  destruct (FindVictimBuffer p2) as [v3 p3]. destruct S3 as [?|(_ & _ & _ & _ & _ & Hb3 & _)]; [by right; right|].
  pose proof (Hu b Hb). unfold kMaxUsageCount in *. lia.
Qed.

(** Two buffers, both unpinned and used recently. *)
Definition busy_pool : BufferPool :=
  mkPool 2 [mkDesc empty_tag 0 0 0 5 (-1); mkDesc empty_tag 1 0 0 2 (-1)] [zero_page; zero_page] 1 (-1)
    (replicate 4 empty_entry) 4.

Lemma busy_shape : pool_shape busy_pool.
Proof. split; cbn; lia. Qed.

Lemma busy_usage b : in_range busy_pool b → 0 ≤ usage_count (desc busy_pool b) ≤ kMaxUsageCount.
Proof.
  intros [Hb0 Hb1]. cbn in Hb1. assert (b = 0 ∨ b = 1) as [-> | ->] by lia; vm_compute; split; discriminate.
Qed.


Lemma find_victim_progress_witness :
  let '(v1, p1) := FindVictimBuffer busy_pool in
  let '(v2, p2) := FindVictimBuffer p1 in
  let '(v3, _) := FindVictimBuffer p2 in
  in_range busy_pool v1 ∨ in_range busy_pool v2 ∨ in_range busy_pool v3.
Proof.
  apply (find_victim_progress busy_pool 0 busy_shape); [reflexivity|exact busy_usage|split; reflexivity || discriminate|reflexivity].
Defined.

(** ** Flags *)

Lemma IsDirty_bit d : IsDirty d = Z.testbit (state d) 0.
Proof. apply (flag_bit _ 0). lia. Qed.
Lemma IsValid_bit d : IsValid d = Z.testbit (state d) 1.
Proof. apply (flag_bit _ 1). lia. Qed.
Lemma IsTagged_bit d : IsTagged d = Z.testbit (state d) 2.
Proof. apply (flag_bit _ 2). lia. Qed.

Definition flags (d : BufferDesc) : bool * bool * bool := (IsTagged d, IsValid d, IsDirty d).

Ltac solve_flags d :=
  unfold flags; rewrite !IsDirty_bit, !IsValid_bit, !IsTagged_bit; cbn [state with_state];
  rewrite ?Z.lor_spec, ?Z.land_spec, ?Z.lnot_spec by lia;
  change (Z.testbit _ 0) with (Z.testbit (state d) 0) || idtac; cbn;
  rewrite ?orb_false_r, ?orb_true_r, ?andb_true_r, ?andb_false_r; reflexivity.

Lemma flags_SetDirty d : flags (SetDirty d) = (IsTagged d, IsValid d, true).
Proof. unfold SetDirty. solve_flags d. Qed.
Lemma flags_ClearDirty d : flags (ClearDirty d) = (IsTagged d, IsValid d, false).
Proof. unfold ClearDirty. solve_flags d. Qed.
Lemma flags_SetValid d : flags (SetValid d) = (IsTagged d, true, IsDirty d).
Proof. unfold SetValid. solve_flags d. Qed.
Lemma flags_ClearValid d : flags (ClearValid d) = (IsTagged d, false, IsDirty d).
Proof. unfold ClearValid. solve_flags d. Qed.
Lemma flags_SetTagged d : flags (SetTagged d) = (true, IsValid d, IsDirty d).
Proof. unfold SetTagged. solve_flags d. Qed.
Lemma flags_ClearTagged d : flags (ClearTagged d) = (false, IsValid d, IsDirty d).
Proof. unfold ClearTagged. solve_flags d. Qed.

End BufMgr.
