(* ===== verification/BufSpec.v ===== *)
(** * What the buffer pool promises

    The pool of [BufMgr] over a storage manager that satisfies the laws of
    [RelFile] refines a map from page tags to pages: a read returns the page
    last written, whether it is in a buffer or on disk, through every
    sequence of reads, writes, evictions, flushes and drops, and a shutdown
    leaves every page on disk.

    The hash table deletes an entry without closing its probe chain, so this
    holds for tags with pairwise distinct home slots ([T_home]); the last
    section shows what happens otherwise. *)

From stdpp Require Import base gmap list strings.
From S2P Require Import Prelude RelFile BufMgr Smgr.

Module BufSpec.
Import RelFile BufMgr.

Section refinement.
Context (hash_u32 hash_int : Z → Z).
Context {S : Type} `{PageStoreLaws S}.
(** The tags in use, and the size of the hash table. *)
Context (T : BufferTag → Prop) (hsize : Z).
Hypothesis T_valid : ∀ t, T t → ps_valid t ∧ block_num t ≠ kInvalidBlockNumber.
Hypothesis T_loc : ∀ t u, T t → T u → ps_loc t = ps_loc u → t = u.
Hypothesis T_home : ∀ t u, T t → T u →
  HashTableSlot hash_u32 hash_int hsize t = HashTableSlot hash_u32 hash_int hsize u → t = u.

Implicit Types (s : @St S) (t u : BufferTag) (p : BufferPool) (i v : Z).

Let home t : nat := Z.to_nat (HashTableSlot hash_u32 hash_int hsize t).
Let lookup t p : Z := LookupBuffer hash_u32 hash_int t p.

(** Buffer [i] holds the page of tag [t]. *)
Definition holds p i t : Prop := in_range p i ∧ IsTagged (desc p i) = true ∧ tag (desc p i) = t.

(** The free list from [x] on: untagged buffers, each once. *)
Fixpoint free_chain p (x : Z) (l : list Z) : Prop :=
  match l with
  | [] => x < 0
  | i :: l' => x = i ∧ in_range p i ∧ IsTagged (desc p i) = false ∧ (i ∉ l') ∧ free_chain p (free_next (desc p i)) l'
  end.

Record Inv (s : @St S) : Prop := {
  inv_shape : pool_shape (pool s);
  inv_size : hash_table_size (pool s) = hsize;
  inv_store : ps_ok (store s);
  inv_pages i : in_range (pool s) i → is_page (page (pool s) i);
  inv_entry idx :
    let e := entry (hash_table (pool s)) idx in
    IsEmpty e = false → T (he_tag e) ∧ idx = home (he_tag e) ∧ holds (pool s) (he_buf_id e) (he_tag e);
  inv_tagged i t :
    holds (pool s) i t →
    T t ∧ entry (hash_table (pool s)) (home t) = mkEntry t i ∧ IsValid (desc (pool s) i) = true;
  inv_valid i : in_range (pool s) i → IsValid (desc (pool s) i) = true → IsTagged (desc (pool s) i) = true;
  inv_disk i t :
    holds (pool s) i t →
    if IsDirty (desc (pool s) i) then is_Some (ps_page (store s) (ps_loc t))
    else ps_page (store s) (ps_loc t) = Some (page (pool s) i);
  inv_usage i : in_range (pool s) i → 0 ≤ usage_count (desc (pool s) i);
  inv_refs i : in_range (pool s) i → 0 ≤ refcount (desc (pool s) i);
  inv_free : ∃ l, free_chain (pool s) (first_free (pool s)) l;
}.

(** The page a tag denotes: the buffer's, or the one on disk. *)
Definition logical s t : option (list Z) :=
  let b := lookup t (pool s) in
  if b =? kInvalidBuffer then ps_page (store s) (ps_loc t) else Some (page (pool s) (b - 1)).

(** ** The hash table under distinct home slots *)

Lemma slot_range t : 0 < hsize → 0 ≤ HashTableSlot hash_u32 hash_int hsize t < hsize.
Proof. intros ?. by apply Z.mod_pos_bound. Qed.

Lemma home_inj t u : 0 < hsize → T t → T u → home t = home u → t = u.
Proof.
  intros Hs Ht Hu E. apply T_home; [done..|].
  pose proof (slot_range t Hs). pose proof (slot_range u Hs). unfold home in E. lia.
Qed.

Lemma probes_head t : 0 < hsize → ∃ rest, probes hash_u32 hash_int hsize t = home t :: rest.
Proof.
  intros Hs. unfold probes. rewrite seqZ_cons by done. eexists. cbn [fmap list_fmap map]. f_equal.
  rewrite Z.add_0_r, Z.mod_small by (by apply slot_range). done.
Qed.

Lemma IsEmpty_tag t i : T t → IsEmpty (mkEntry t i) = false.
Proof. intros Ht. apply Z.eqb_neq. cbn. by apply T_valid. Qed.

Lemma lookup_cases s t :
  Inv s → T t →
  (∃ i, holds (pool s) i t ∧ lookup t (pool s) = i + 1) ∨
  (IsEmpty (entry (hash_table (pool s)) (home t)) = true ∧ lookup t (pool s) = kInvalidBuffer ∧
   ∀ i, ¬ holds (pool s) i t).
Proof.
  intros Hi Ht. pose proof (ps_hash_pos _ (inv_shape _ Hi)) as Hs. rewrite (inv_size _ Hi) in Hs.
  unfold lookup, LookupBuffer. rewrite (inv_size _ Hi).
  destruct (probes_head t Hs) as [rest ->]. cbn [probe_lookup].
  destruct (IsEmpty (entry (hash_table (pool s)) (home t))) eqn:E.
  - right. split_and!; [done..|]. intros i Hh. destruct (inv_tagged _ Hi i t Hh) as (_ & He & _).
    rewrite He, IsEmpty_tag in E by done. done.
  - left. destruct (inv_entry _ Hi (home t) E) as (HT & Hhome & Hh).
    assert (Heq : he_tag (entry (hash_table (pool s)) (home t)) = t) by (symmetry; by apply home_inj).
    rewrite decide_True by done. eexists. rewrite Heq in Hh. split; [exact Hh|done].
Qed.

Lemma holds_unique s i j t : Inv s → holds (pool s) i t → holds (pool s) j t → i = j.
Proof.
  intros Hi H1 H2. destruct (inv_tagged _ Hi i t H1) as (_ & E1 & _), (inv_tagged _ Hi j t H2) as (_ & E2 & _).
  congruence.
Qed.

Lemma logical_held s i t : Inv s → holds (pool s) i t → logical s t = Some (page (pool s) i).
Proof.
  intros Hi Hh. destruct (inv_tagged _ Hi i t Hh) as (HT & _).
  destruct (lookup_cases s t Hi HT) as [(j & Hj & Hl)|(_ & _ & Hno)]; [|by destruct (Hno i)].
  assert (j = i) as -> by by eapply holds_unique.
  unfold logical. rewrite Hl. destruct Hh as ([? ?] & _).
  rewrite (proj2 (Z.eqb_neq _ _)) by (unfold kInvalidBuffer; lia). do 2 f_equal. lia.
Qed.

Lemma logical_absent s t : Inv s → T t → (∀ i, ¬ holds (pool s) i t) → logical s t = ps_page (store s) (ps_loc t).
Proof.
  intros Hi HT Hno. destruct (lookup_cases s t Hi HT) as [(j & Hj & _)|(_ & Hl & _)]; [by destruct (Hno j)|].
  unfold logical. by rewrite Hl.
Qed.

(** Two states whose buffers hold the same tags agree on the logical pages,
    when the held pages and the disk agree. *)
Lemma logical_same s s' :
  Inv s → Inv s' →
  (∀ i t, holds (pool s') i t ↔ holds (pool s) i t) →
  (∀ i t, holds (pool s) i t → page (pool s') i = page (pool s) i) →
  (∀ t, T t → (∀ i, ¬ holds (pool s) i t) → ps_page (store s') (ps_loc t) = ps_page (store s) (ps_loc t)) →
  ∀ t, T t → logical s' t = logical s t.
Proof.
  intros Hi Hi' Hh Hp Hd t HT. destruct (lookup_cases s t Hi HT) as [(i & Hit & _)|(_ & _ & Hno)].
  - rewrite (logical_held s i t), (logical_held s' i t) by (done || by apply Hh). by rewrite (Hp i t).
  - rewrite (logical_absent s t), (logical_absent s' t); try done; [by apply Hd|by intros i; rewrite Hh].
Qed.

(** ** Updates of one descriptor *)

(** The pool after an update of descriptor [i] that keeps its tag, its tagged
    and valid flags and its place in the free list. *)
Definition keeps (f : BufferDesc → BufferDesc) : Prop := ∀ d,
  tag (f d) = tag d ∧ IsTagged (f d) = IsTagged d ∧ IsValid (f d) = IsValid d ∧ free_next (f d) = free_next d.

Lemma desc_keeps p i f j :
  pool_shape p → in_range p i → keeps f → in_range p j →
  let d := desc (upd_desc i f p) j in
  tag d = tag (desc p j) ∧ IsTagged d = IsTagged (desc p j) ∧ IsValid d = IsValid (desc p j) ∧
  free_next d = free_next (desc p j).
Proof.
  intros Hs Hi Hk Hj. cbv zeta. rewrite desc_upd by (done || apply Hs). case_decide; [subst j|done]. apply Hk.
Qed.

Lemma holds_upd p i f j t :
  pool_shape p → in_range p i → keeps f → holds (upd_desc i f p) j t ↔ holds p j t.
Proof.
  intros Hs Hi Hk. unfold holds. change (in_range (upd_desc i f p) j) with (in_range p j).
  split; intros (Hj & H1 & H2); destruct (desc_keeps p i f j Hs Hi Hk Hj) as (E1 & E2 & _ & _);
    (split_and!; [done|congruence|congruence]).
Qed.

Lemma chain_ext p p' x l :
  (∀ i, i ∈ l → in_range p i → in_range p' i ∧ IsTagged (desc p' i) = IsTagged (desc p i) ∧
        free_next (desc p' i) = free_next (desc p i)) →
  free_chain p x l → free_chain p' x l.
Proof.
  revert x. induction l as [|i l IH]; intros x He; [done|]. cbn [free_chain]. intros (-> & Hr & Ht & Hn & Hc).
  destruct (He i ltac:(by left) Hr) as (Hr' & Ht' & Hf'). split_and!; [done|done|congruence|done|].
  rewrite Hf'. apply IH; [|done]. intros j Hj. apply He. by right.
Qed.

Lemma inv_upd s i f :
  Inv s → in_range (pool s) i → keeps f → 0 ≤ usage_count (f (desc (pool s) i)) →
  0 ≤ refcount (f (desc (pool s) i)) →
  (∀ t, holds (pool s) i t → IsDirty (f (desc (pool s) i)) = false →
        ps_page (store s) (ps_loc t) = Some (page (pool s) i)) →
  Inv (on_pool (upd_desc i f) s) ∧ ∀ t, T t → logical (on_pool (upd_desc i f) s) t = logical s t.
Proof.
  intros Hi Hr Hk Hu Hrc Hd. pose proof (inv_shape _ Hi) as Hs.
  assert (Hdk := λ j, desc_keeps (pool s) i f j Hs Hr Hk).
  assert (Hh := λ j t, holds_upd (pool s) i f j t Hs Hr Hk).
  assert (Hinv : Inv (on_pool (upd_desc i f) s)).
  { split; cbn [pool on_pool store].
    - by apply shape_upd.
    - apply Hi.
    - apply Hi.
    - apply (inv_pages _ Hi).
    - intros idx He. destruct (inv_entry _ Hi idx He) as (? & ? & ?). split_and!; [done..|]. by apply Hh.
    - intros j t Hj. apply Hh in Hj. destruct (inv_tagged _ Hi j t Hj) as (? & ? & Hv). split_and!; [done..|].
      destruct (Hdk j (proj1 Hj)) as (_ & _ & -> & _). done.
    - intros j Hj. destruct (Hdk j Hj) as (_ & -> & -> & _). by apply Hi.
    - intros j t Hj. apply Hh in Hj. pose proof (inv_disk _ Hi j t Hj) as Hdisk.
      change (page (upd_desc i f (pool s)) j) with (page (pool s) j).
      rewrite desc_upd by (done || apply Hs || apply Hj). case_decide as Hji; [subst j|done].
      destruct (IsDirty (f (desc (pool s) i))) eqn:E; [|by apply Hd].
      destruct (IsDirty (desc (pool s) i)); [done|]. by rewrite Hdisk.
    - intros j Hj. rewrite desc_upd by (done || apply Hs). case_decide; [done|by apply Hi].
    - intros j Hj. rewrite desc_upd by (done || apply Hs). case_decide; [done|by apply Hi].
    - destruct (inv_free _ Hi) as [l Hl]. exists l. eapply chain_ext; [|exact Hl].
      intros j _ Hj. destruct (Hdk j Hj) as (_ & ? & _ & ?). done. }
  split; [done|]. apply logical_same; try done.
Qed.

Lemma flags_inv d b1 b2 b3 : flags d = (b1, b2, b3) → IsTagged d = b1 ∧ IsValid d = b2 ∧ IsDirty d = b3.
Proof. unfold flags. intros E. injection E. done. Qed.

(** ** Pins *)

Lemma pin_inv s b :
  Inv s → Inv (on_pool (PinBuffer b) s) ∧ ∀ t, T t → logical (on_pool (PinBuffer b) s) t = logical s t.
Proof.
  intros Hi. unfold PinBuffer, on_pool. destruct (out_of_range (pool s) (b - 1)) eqn:E; [by destruct s|].
  assert (Hr : in_range (pool s) (b - 1)) by (apply dec_stable; rewrite <- out_of_range_true, E; done).
  apply (inv_upd s); [done..|by intros d|cbn|cbn|].
  - pose proof (inv_usage _ Hi _ Hr). case_match; lia.
  - pose proof (inv_refs _ Hi _ Hr). lia.
  - intros t Hh Hd. pose proof (inv_disk _ Hi _ _ Hh) as Hx.
    change (IsDirty _) with (IsDirty (desc (pool s) (b - 1))) in Hd. by rewrite Hd in Hx.
Qed.

Lemma unpin_inv s b :
  Inv s → Inv (on_pool (UnpinBuffer b) s) ∧ ∀ t, T t → logical (on_pool (UnpinBuffer b) s) t = logical s t.
Proof.
  intros Hi. unfold UnpinBuffer, on_pool. destruct (out_of_range (pool s) (b - 1)) eqn:E; [by destruct s|].
  assert (Hr : in_range (pool s) (b - 1)) by (apply dec_stable; rewrite <- out_of_range_true, E; done).
  apply (inv_upd s); [done..|intros d; by case_match|by case_match; apply (inv_usage _ Hi _ Hr)| |].
  { pose proof (inv_refs _ Hi _ Hr). destruct (0 <? refcount (desc (pool s) (b - 1))) eqn:E'; to_prop; cbn; lia. }
  intros t Hh Hd. pose proof (inv_disk _ Hi _ _ Hh) as Hx.
  assert (IsDirty (desc (pool s) (b - 1)) = false) as Hd' by (destruct (0 <? refcount (desc (pool s) (b - 1))); exact Hd).
  by rewrite Hd' in Hx.
Qed.

(** ** Writing a page *)

(** The client's part of an update: the bytes, then [MarkBufferDirty]. *)
Definition write_page (b : Z) (pg : list Z) (s : @St S) : @St S :=
  on_pool (MarkBufferDirty b) (on_pool (set_page (b - 1) pg) s).

Lemma page_set p i pg j :
  pool_shape p → in_range p i → in_range p j →
  page (set_page i pg p) j = if decide (j = i) then pg else page p j.
Proof.
  intros Hs Hi Hj. pose proof (ps_blocks _ Hs). unfold in_range in *. unfold page, set_page. cbn [blocks with_blocks].
  case_decide as Hd; [subst j|].
  - rewrite list_lookup_insert_eq by lia. done.
  - by rewrite list_lookup_insert_ne by lia.
Qed.

Lemma shape_set_page p i pg : pool_shape p → pool_shape (set_page i pg p).
Proof. intros []. split; try done. cbn. by rewrite length_insert. Qed.

Lemma write_page_inv s i t pg :
  Inv s → holds (pool s) i t → is_page pg →
  Inv (write_page (i + 1) pg s) ∧
  ∀ u, T u → logical (write_page (i + 1) pg s) u = if decide (u = t) then Some pg else logical s u.
Proof.
  intros Hi Hh Hpg. pose proof (inv_shape _ Hi) as Hs. pose proof (proj1 Hh) as Hr.
  set (s1 := on_pool (upd_desc i SetDirty) s).
  assert (Hfl : ∀ d, IsTagged (SetDirty d) = IsTagged d ∧ IsValid (SetDirty d) = IsValid d ∧ IsDirty (SetDirty d) = true)
    by (intros d; apply flags_inv, flags_SetDirty).
  assert (Hk : keeps SetDirty) by (intros d; destruct (Hfl d) as (-> & -> & _); done).
  destruct (inv_upd s i SetDirty Hi Hr Hk) as [Hi1 Hl1]; [apply (inv_usage _ Hi _ Hr)|apply (inv_refs _ Hi _ Hr)|
    intros u _ Hd; destruct (Hfl (desc (pool s) i)) as (_ & _ & Hd'); congruence|]. fold s1 in Hi1, Hl1.
  assert (Hw : write_page (i + 1) pg s = on_pool (set_page i pg) s1).
  { unfold write_page, MarkBufferDirty, s1, on_pool. replace (i + 1 - 1) with i by lia.
    change (out_of_range (pool (mkSt (set_page i pg (pool s)) (store s))) i) with (out_of_range (pool s) i).
    cbn [pool store]. change (out_of_range (set_page i pg (pool s)) i) with (out_of_range (pool s) i).
    by rewrite out_of_range_false by done. }
  rewrite Hw. assert (Hh1 : holds (pool s1) i t) by (by apply holds_upd).
  assert (Hd1 : IsDirty (desc (pool s1) i) = true).
  { subst s1. cbn. rewrite desc_upd by (done || apply Hs). rewrite decide_True by done. apply Hfl. }
  assert (Hs1 : pool_shape (pool s1)) by apply Hi1.
  assert (Hinv : Inv (on_pool (set_page i pg) s1)).
  { split; try apply Hi1; cbn [pool on_pool store].
    - by apply shape_set_page.
    - intros j Hj. rewrite page_set by done. case_decide; [done|by apply (inv_pages _ Hi1)].
    - intros j u Hj. pose proof (inv_disk _ Hi1 j u Hj) as Hx.
      change (desc (set_page i pg (pool s1)) j) with (desc (pool s1) j).
      rewrite page_set by (done || apply Hj). case_decide as Hji; [subst j|done]. rewrite Hd1 in Hx |- *. done.
    - destruct (inv_free _ Hi1) as [l Hl]. exists l. by eapply chain_ext; [|exact Hl]. }
  split; [done|]. intros u HT. case_decide as Hut; [subst u|].
  - rewrite (logical_held _ i t Hinv Hh1). cbn. rewrite page_set, decide_True by done. done.
  - rewrite <- Hl1 by done. destruct (lookup_cases s1 u Hi1 HT) as [(j & Hj & _)|(_ & _ & Hno)].
    + rewrite (logical_held s1 j u), (logical_held _ j u Hinv) by done. cbn. rewrite page_set by (done || apply Hj).
      rewrite decide_False; [done|]. intros ->. destruct Hj as (_ & _ & E1), Hh1 as (_ & _ & E2). congruence.
    + rewrite (logical_absent s1 u), (logical_absent _ u Hinv) by done. done.
Qed.

(** ** Writing back *)

(** What flushing leaves alone: everything but dirty flags and the disk. *)
Record flushed (s s' : @St S) : Prop := {
  fl_n : n_buffers (pool s') = n_buffers (pool s);
  fl_blocks : blocks (pool s') = blocks (pool s);
  fl_hash : hash_table (pool s') = hash_table (pool s);
  fl_first : first_free (pool s') = first_free (pool s);
  fl_desc j : in_range (pool s) j →
    tag (desc (pool s') j) = tag (desc (pool s) j) ∧
    refcount (desc (pool s') j) = refcount (desc (pool s) j) ∧
    IsTagged (desc (pool s') j) = IsTagged (desc (pool s) j) ∧
    free_next (desc (pool s') j) = free_next (desc (pool s) j) ∧
    (IsDirty (desc (pool s) j) = false → IsDirty (desc (pool s') j) = false);
  fl_open rn : ps_open (store s) rn → ps_open (store s') rn;
}.

Lemma flushed_refl s : flushed s s.
Proof. by split. Qed.

Lemma flushed_trans s1 s2 s3 : flushed s1 s2 → flushed s2 s3 → flushed s1 s3.
Proof.
  intros [] []. split; try congruence; [|by auto]. intros j Hj.
  assert (Hj2 : in_range (pool s2) j) by (unfold in_range in *; congruence).
  destruct (fl_desc0 j Hj) as (?&?&?&?&?), (fl_desc1 j Hj2) as (?&?&?&?&?). split_and!; try congruence. auto.
Qed.

Lemma flushed_holds s s' j t : flushed s s' → holds (pool s') j t ↔ holds (pool s) j t.
Proof.
  intros Hf. unfold holds, in_range. rewrite (fl_n _ _ Hf).
  split; intros (Hj & H1 & H2); destruct (fl_desc _ _ Hf j Hj) as (?&_&?&_); (split; [done|split; congruence]).
Qed.

(** The disk gains the page of buffer [i]. *)
Lemma inv_store_write s i t st' :
  Inv s → holds (pool s) i t → ps_ok st' →
  (∀ l, ps_page st' l = if decide (l = ps_loc t) then Some (page (pool s) i) else ps_page (store s) l) →
  Inv (mkSt (pool s) st') ∧ ∀ u, T u → logical (mkSt (pool s) st') u = logical s u.
Proof.
  intros Hi Hh Hok Hst. destruct (inv_tagged _ Hi i t Hh) as (HTt & _).
  assert (Hinv : Inv (mkSt (pool s) st')).
  { split; try apply Hi; cbn [pool store]; [done|]. intros j u Hj. pose proof (inv_disk _ Hi j u Hj) as Hx.
    rewrite Hst. destruct (inv_tagged _ Hi j u Hj) as (HTu & _). case_decide as Hl; [|done].
    apply T_loc in Hl as ->; [|done..]. assert (j = i) as -> by (by eapply holds_unique).
    by case_match. }
  split; [done|]. apply logical_same; try done. intros u HTu Hno. cbn [store]. rewrite Hst, decide_False; [done|].
  intros Hl. apply T_loc in Hl as ->; [|done..]. by apply (Hno i).
Qed.

Lemma inv_store_open s rn :
  Inv s → let s' := mkSt (pool s) (smgropen_ rn (store s)) in
  Inv s' ∧ ps_open (store s') rn ∧ (∀ rn', ps_open (store s) rn' → ps_open (store s') rn') ∧
  ∀ u, T u → logical s' u = logical s u.
Proof.
  intros Hi s'. destruct (ps_open_law rn (store s) (inv_store _ Hi)) as (Hok & Ho & Hmono & Hpg).
  assert (Hinv : Inv s').
  { subst s'. split; try apply Hi; cbn [pool store]; [done|]. intros j u Hj. rewrite !Hpg. by apply Hi. }
  split_and!; [done..|]. by apply logical_same.
Qed.

Lemma flush_run s i :
  Inv s → in_range (pool s) i →
  ∃ s', FlushBuffer i false s = (Ret tt, s') ∧ Inv s' ∧ flushed s s' ∧
    (∀ t, holds (pool s) i t → IsDirty (desc (pool s') i) = false) ∧
    (∀ t, T t → logical s' t = logical s t).
Proof.
  intros Hi Hr. pose proof (inv_shape _ Hi) as Hs. unfold FlushBuffer. rewrite out_of_range_false by done.
  cbn [andb]. destruct (negb (IsValid (desc (pool s) i)) || negb (IsDirty (desc (pool s) i))) eqn:E.
  - exists (on_pool (upd_desc i id) s).
    destruct (inv_upd s i id Hi Hr) as [Hinv Hl]; [by intros d|by apply Hi|by apply Hi| |].
    { intros t Hh Hd. pose proof (inv_disk _ Hi i t Hh) as Hx. unfold id in Hd. by rewrite Hd in Hx. }
    split_and!; [done|done| | |done].
    + split; try done. intros j Hj. cbn [pool on_pool]. rewrite desc_upd by (done || apply Hs).
      case_decide; [by subst j|done].
    + intros t Hh. destruct (inv_tagged _ Hi i t Hh) as (_ & _ & Hv). rewrite Hv in E. cbn in E. to_prop.
      cbn [pool on_pool]. rewrite desc_upd, decide_True by (done || apply Hs). done.
  - to_prop. set (t := tag (desc (pool s) i)). set (rn := mkRelFileNodeBackend (rnode t) 0).
    assert (Hh : holds (pool s) i t) by (split_and!; [done|by apply Hi|done]).
    destruct (inv_tagged _ Hi i t Hh) as (HTt & _). destruct (T_valid t HTt) as [Hval _].
    destruct (inv_store_open s rn Hi) as (Hi1 & Ho1 & Hm1 & Hl1).
    set (s1 := mkSt (pool s) (smgropen_ rn (store s))) in *.
    destruct (ps_write_law rn t (page (pool s) i) (store s1)) as (st' & Hw & Hok & Hop & Hpg);
      [apply Hi1|done|done|done|by apply Hi|pose proof (inv_disk _ Hi1 i t Hh) as Hx; case_match; [done|by rewrite Hx]|].
    change (store s1) with (smgropen_ rn (store s)) in Hw. rewrite Hw.
    destruct (inv_store_write s1 i t st' Hi1 Hh Hok Hpg) as [Hi2 Hl2].
    set (s2 := mkSt (pool s1) st') in *.
    assert (Hfl : ∀ d, IsTagged (ClearDirty d) = IsTagged d ∧ IsValid (ClearDirty d) = IsValid d ∧ IsDirty (ClearDirty d) = false)
      by (intros d; apply flags_inv, flags_ClearDirty).
    destruct (inv_upd s2 i ClearDirty Hi2 Hr) as [Hi3 Hl3];
      [intros d; destruct (Hfl d) as (-> & -> & _); done|by apply (inv_usage _ Hi2)|by apply (inv_refs _ Hi2)| |].
    { intros u Hu _. cbn [store s2]. rewrite Hpg. destruct Hu as (_ & _ & <-). by rewrite decide_True. }
    assert (Hid : upd_desc i (λ d, d) (upd_desc i ClearDirty (pool s)) = upd_desc i ClearDirty (pool s)).
    { unfold upd_desc, with_descriptors. cbn. f_equal. apply list_alter_id. done. }
    exists (on_pool (upd_desc i ClearDirty) s2). split_and!; [by rewrite Hid|done| | |].
    + split; try done. { intros j Hj. cbn [pool on_pool s2 s1]. rewrite desc_upd by (done || apply Hs).
        case_decide; [subst j|done]. destruct (Hfl (desc (pool s) i)) as (-> & _ & ->). done. }
      intros rn' Hrn. cbn. apply Hop, Hm1. done.
    + intros _ _. cbn [pool on_pool s2 s1]. rewrite desc_upd, decide_True by (done || apply Hs). apply Hfl.
    + intros u HTu. rewrite Hl3, Hl2, Hl1 by done. done.
Qed.

(** The flush loops: no error, the same pages, and every selected buffer clean. *)
Lemma flush_where_run sel ids s :
  Inv s → Forall (in_range (pool s)) ids →
  ∃ s', flush_where sel ids s = (Ret tt, s') ∧ Inv s' ∧ flushed s s' ∧
    (∀ t, T t → logical s' t = logical s t) ∧
    ((∀ d, sel d = true) → ∀ i t, i ∈ ids → holds (pool s) i t → IsDirty (desc (pool s') i) = false).
Proof.
  revert s. induction ids as [|i ids IH]; intros s Hi Hr.
  { exists s. split_and!; [done|done|apply flushed_refl|done|]. by intros _ i t Hin%not_elem_of_nil. }
  apply Forall_cons in Hr as [Hr Hrs]. cbn [flush_where]. unfold mbind at 1, M_bind, gets.
  assert (∃ s1, when (sel (desc (pool s) i) && IsDirty (desc (pool s) i) && IsValid (desc (pool s) i))
                  (FlushBuffer i false) s = (Ret tt, s1) ∧ Inv s1 ∧ flushed s s1 ∧
            (∀ t, T t → logical s1 t = logical s t) ∧
            ((∀ d, sel d = true) → ∀ t, holds (pool s) i t → IsDirty (desc (pool s1) i) = false))
    as (s1 & Hrun & Hi1 & Hf1 & Hl1 & Hc1).
  { destruct (sel _ && _ && _) eqn:E; cbn [when].
    - destruct (flush_run s i Hi Hr) as (s1 & Hrun & ? & ? & ? & ?). exists s1. split_and!; eauto.
    - exists s. split_and!; [done|done|apply flushed_refl|done|]. intros Hsel t Hh.
      destruct (inv_tagged _ Hi i t Hh) as (_ & _ & Hv). rewrite Hsel, Hv, andb_true_r in E. done. }
  rewrite (bind_ret_run _ _ _ _ _ Hrun).
  assert (Hrs1 : Forall (in_range (pool s1)) ids)
    by (eapply Forall_impl; [exact Hrs|intros j; unfold in_range; by rewrite (fl_n _ _ Hf1)]).
  destruct (IH s1 Hi1 Hrs1) as (s2 & Hrun2 & Hi2 & Hf2 & Hl2 & Hc2).
  exists s2. split_and!; [done|done|by eapply flushed_trans| |].
  - intros t HT. by rewrite Hl2, Hl1.
  - intros Hsel j t [->|Hj]%elem_of_cons Hh.
    + apply (fl_desc _ _ Hf2); [unfold in_range; rewrite (fl_n _ _ Hf1); apply Hr|by eapply Hc1].
    + eapply Hc2; [done..|]. by apply (flushed_holds s s1).
Qed.

Lemma all_ids_range s : Forall (in_range (pool s)) (all_ids s).
Proof. apply Forall_forall. intros i Hi%elem_of_seqZ. unfold in_range. lia. Qed.

(** ** Replacement *)

(** Another pool with the same mapping, pages, tags and flags. *)
Lemma inv_redesc s p' :
  Inv s → pool_shape p' → n_buffers p' = n_buffers (pool s) → blocks p' = blocks (pool s) →
  hash_table p' = hash_table (pool s) → hash_table_size p' = hash_table_size (pool s) →
  (∀ j, in_range (pool s) j →
    tag (desc p' j) = tag (desc (pool s) j) ∧ state (desc p' j) = state (desc (pool s) j) ∧
    0 ≤ usage_count (desc p' j) ∧ refcount (desc p' j) = refcount (desc (pool s) j)) →
  (∃ l, free_chain p' (first_free p') l) →
  Inv (mkSt p' (store s)) ∧ ∀ t, T t → logical (mkSt p' (store s)) t = logical s t.
Proof.
  intros Hi Hs' Hn Hb Hh Hhs Hd Hc.
  assert (Hr : ∀ j, in_range p' j ↔ in_range (pool s) j) by (intros j; unfold in_range; by rewrite Hn).
  assert (Hpg : ∀ j, page p' j = page (pool s) j) by (intros j; unfold page; by rewrite Hb).
  assert (Hfl : ∀ j, in_range (pool s) j → IsTagged (desc p' j) = IsTagged (desc (pool s) j) ∧
            IsValid (desc p' j) = IsValid (desc (pool s) j) ∧ IsDirty (desc p' j) = IsDirty (desc (pool s) j)).
  { intros j Hj. destruct (Hd j Hj) as (_ & Hst & _). unfold IsTagged, IsValid, IsDirty. by rewrite Hst. }
  assert (Hho : ∀ j t, holds p' j t ↔ holds (pool s) j t).
  { intros j t. unfold holds. rewrite Hr. split; intros (Hj & H1 & H2);
      destruct (Hd j Hj) as (E1 & _), (Hfl j Hj) as (E2 & _); (split_and!; [done|congruence|congruence]). }
  assert (Hinv : Inv (mkSt p' (store s))).
  { split; cbn [pool store].
    - done.
    - rewrite Hhs. apply Hi.
    - apply Hi.
    - intros j Hj. rewrite Hpg. by apply Hi, Hr.
    - intros idx He. rewrite Hh in He |- *. destruct (inv_entry _ Hi idx He) as (? & ? & ?).
      split_and!; [done..|]. by apply Hho.
    - intros j t Hj. apply Hho in Hj. rewrite Hh. destruct (Hfl j (proj1 Hj)) as (_ & -> & _). by apply Hi.
    - intros j Hj. apply Hr in Hj. destruct (Hfl j Hj) as (-> & -> & _). by apply Hi.
    - intros j t Hj. apply Hho in Hj. rewrite Hpg. destruct (Hfl j (proj1 Hj)) as (_ & _ & ->). by apply Hi.
    - intros j Hj. by apply Hd, Hr.
    - intros j Hj. apply Hr in Hj. destruct (Hd j Hj) as (_ & _ & _ & ->). by apply Hi.
    - done. }
  split; [done|]. by apply logical_same.
Qed.

(** The victim search: a buffer that is in no free list and holds no pinned
    page, or none; tags, flags and pins stay. *)
Lemma victim_run s :
  Inv s → let '(v, p') := FindVictimBuffer (pool s) in
  let s' := mkSt p' (store s) in
  Inv s' ∧ (∀ t, T t → logical s' t = logical s t) ∧
  n_buffers p' = n_buffers (pool s) ∧ blocks p' = blocks (pool s) ∧
  (∀ j, in_range (pool s) j → tag (desc p' j) = tag (desc (pool s) j) ∧
        state (desc p' j) = state (desc (pool s) j) ∧ refcount (desc p' j) = refcount (desc (pool s) j)) ∧
  (v = -1 ∨ in_range (pool s) v ∧ (IsTagged (desc (pool s) v) = true → refcount (desc (pool s) v) = 0) ∧
            ∃ l, free_chain p' (first_free p') l ∧ v ∉ l).
Proof.
  intros Hi. pose proof (inv_shape _ Hi) as Hs. destruct (inv_free _ Hi) as [l Hl].
  destruct (decide (first_free (pool s) < 0)) as [Hff|Hff].
  - pose proof (clock_spec (pool s) Hs Hff (inv_usage _ Hi)) as Hc.
    destruct (FindVictimBuffer (pool s)) as [v p']. destruct Hc as (Hs' & (Hn & Hb & Hh & Hhs & Hf) & Hsp & Hcase).
    assert (Hch : free_chain p' (first_free p') []) by (cbn; by rewrite Hf).
    destruct (inv_redesc s p' Hi Hs' Hn Hb Hh Hhs) as [Hinv Hlog]; [|by exists []|].
    { intros j Hj. destruct (spent_fields _ _ (Hsp j Hj)) as (? & ? & ? & _). split_and!; [done..| |done].
      destruct (Hsp j Hj) as (_ & _ & Hpos & _). by apply Hpos, Hi. }
    split_and!; [done..| |].
    + intros j Hj. destruct (spent_fields _ _ (Hsp j Hj)) as (? & ? & ? & _). done.
    + destruct Hcase as [[-> _]|(Hv & Hrc & _)]; [by left|right]. split_and!; [done..|]. exists []. split; [done|].
      apply not_elem_of_nil.
  - destruct l as [|v l]; [done|]. cbn [free_chain] in Hl. destruct Hl as (Hv & Hr & Ht & Hnin & Hl).
    unfold FindVictimBuffer. rewrite (proj2 (Z.leb_le 0 (first_free (pool s)))) by lia. rewrite Hv. cbv zeta.
    set (p0 := with_first_free (free_next (desc (pool s) v)) (pool s)).
    set (p' := upd_desc v (with_free_next (-1)) p0).
    assert (Hs0 : pool_shape p0) by (by destruct Hs).
    assert (Hd : ∀ j, in_range (pool s) j →
              desc p' j = if decide (j = v) then with_free_next (-1) (desc (pool s) v) else desc (pool s) j)
      by (intros j Hj; subst p'; by rewrite desc_upd by (done || apply Hs0)).
    assert (Hch : free_chain p' (first_free p') l).
    { change (first_free p') with (free_next (desc (pool s) v)). eapply chain_ext; [|exact Hl].
      intros j Hj Hjr. rewrite Hd by done. rewrite decide_False by (intros ->; done). done. }
    assert (Hdj : ∀ j, in_range (pool s) j → tag (desc p' j) = tag (desc (pool s) j) ∧
        state (desc p' j) = state (desc (pool s) j) ∧ refcount (desc p' j) = refcount (desc (pool s) j) ∧
        usage_count (desc p' j) = usage_count (desc (pool s) j))
      by (intros j Hj; rewrite Hd by done; case_decide; [by subst j|done]).
    destruct (inv_redesc s p' Hi) as [Hinv Hlog]; try done; [by apply shape_upd| |by exists l|].
    { intros j Hj. destruct (Hdj j Hj) as (? & ? & ? & ->). split_and!; [done..|by apply Hi|done]. }
    split_and!; [done..| |].
    + intros j Hj. destruct (Hdj j Hj) as (? & ? & ? & _). done.
    + right. split_and!; [done| |by exists l]. rewrite Ht. done.
Qed.

(** ** Installing a page *)

(** The mapping after the victim's old entry is deleted and the new one made. *)
Definition remap t v p : list BufferHashEntry :=
  <[home t := mkEntry t v]>
    (if IsTagged (desc p v) then <[home (tag (desc p v)) := empty_entry]> (hash_table p) else hash_table p).

Definition claimed t (d : BufferDesc) : BufferDesc :=
  with_free_next (-1) (with_usage (λ _, 1) (with_refcount (λ _, 1) (ClearValid (SetTagged (with_tag t d))))).

Lemma entry_insert (h : list BufferHashEntry) k e j :
  (k < length h)%nat → entry (<[k := e]> h) j = if decide (j = k) then e else entry h j.
Proof.
  intros Hk. unfold entry. case_decide as Hj; [subst j; by rewrite list_lookup_insert_eq|].
  by rewrite list_lookup_insert_ne.
Qed.

Lemma home_lt s t : Inv s → (home t < length (hash_table (pool s)))%nat.
Proof.
  intros Hi. pose proof (ps_hash _ (inv_shape _ Hi)) as Hl. pose proof (ps_hash_pos _ (inv_shape _ Hi)) as Hpos.
  rewrite (inv_size _ Hi) in Hl, Hpos. pose proof (slot_range t Hpos). unfold home. lia.
Qed.

Lemma insert_buffer_run s t v :
  Inv s → T t → (∀ i, ¬ holds (pool s) i t) → in_range (pool s) v →
  InsertBuffer hash_u32 hash_int t v s =
  (Ret (v + 1), on_pool (λ p, with_hash_table (λ _, remap t v p) (upd_desc v (claimed t) p)) s).
Proof.
  intros Hi HT Hno Hv. pose proof (ps_hash_pos _ (inv_shape _ Hi)) as Hpos. rewrite (inv_size _ Hi) in Hpos.
  destruct (lookup_cases s t Hi HT) as [(i & Hh & _)|(He & _)]; [by destruct (Hno i)|].
  unfold InsertBuffer. unfold mbind, M_bind, modify, on_pool. cbn [pool store].
  set (p1 := if IsTagged (desc (pool s) v) then _ else pool s).
  set (h1 := if IsTagged (desc (pool s) v) then <[home (tag (desc (pool s) v)) := empty_entry]> (hash_table (pool s))
             else hash_table (pool s)).
  assert (Hp1 : p1 = with_hash_table (λ _, h1) (pool s)).
  { subst p1 h1. destruct (IsTagged (desc (pool s) v)) eqn:Et; [|by destruct (pool s)].
    assert (Hh : holds (pool s) v (tag (desc (pool s) v))) by (by split_and!).
    destruct (inv_tagged _ Hi v _ Hh) as (HTu & Hent & _).
    unfold HashTableDelete. rewrite (inv_size _ Hi). destruct (probes_head (tag (desc (pool s) v)) Hpos) as [rest ->].
    unfold with_hash_table. cbn [probe_delete]. rewrite Hent, IsEmpty_tag by done. cbn [he_tag].
    by rewrite decide_True. }
  assert (He1 : IsEmpty (entry h1 (home t)) = true).
  { subst h1. destruct (IsTagged (desc (pool s) v)) eqn:Et; [|done].
    rewrite entry_insert by (by apply home_lt). by case_decide. }
  unfold HashTableInsert. cbn [pool store]. rewrite Hp1.
  cbn [hash_table_size hash_table upd_desc with_descriptors with_hash_table]. rewrite (inv_size _ Hi).
  destruct (probes_head t Hpos) as [rest ->]. cbn [probe_insert]. rewrite He1. reflexivity.
Qed.

(** A page read into buffer [v] under a tag no buffer held: the pool holds
    it, the page the buffer held before is still the one on disk, and no
    other buffer is touched. *)
Definition installed t v pg p : BufferPool :=
  upd_desc v SetValid (set_page v pg (with_hash_table (λ _, remap t v p) (upd_desc v (claimed t) p))).

Lemma installed_shape s t v pg : Inv s → pool_shape (installed t v pg (pool s)).
Proof.
  intros Hi. destruct (inv_shape _ Hi). split; cbn; try done.
  - by rewrite !length_alter.
  - by rewrite length_insert.
  - unfold remap. rewrite length_insert. destruct (IsTagged _); [by rewrite length_insert|done].
Qed.

Lemma installed_desc s t v pg j :
  Inv s → in_range (pool s) v → in_range (pool s) j →
  desc (installed t v pg (pool s)) j =
  if decide (j = v) then SetValid (claimed t (desc (pool s) v)) else desc (pool s) j.
Proof.
  intros Hi Hv Hj. pose proof (inv_shape _ Hi) as Hs.
  set (q := set_page v pg (with_hash_table (λ _, remap t v (pool s)) (upd_desc v (claimed t) (pool s)))).
  change (installed t v pg (pool s)) with (upd_desc v SetValid q).
  assert (Hq : Z.of_nat (length (descriptors q)) = n_buffers q) by (cbn; rewrite length_alter; apply Hs).
  rewrite desc_upd by done.
  assert (Hdq : ∀ j, desc q j = desc (upd_desc v (claimed t) (pool s)) j) by done.
  rewrite !Hdq, !desc_upd by (done || apply Hs). rewrite (decide_True (P := v = v)) by done.
  by repeat case_decide.
Qed.

Lemma installed_page s t v pg j :
  Inv s → in_range (pool s) v → in_range (pool s) j →
  page (installed t v pg (pool s)) j = if decide (j = v) then pg else page (pool s) j.
Proof.
  intros Hi Hv Hj.
  set (q := with_hash_table (λ _, remap t v (pool s)) (upd_desc v (claimed t) (pool s))).
  assert (Hq : pool_shape q).
  { destruct (inv_shape _ Hi). split; cbn; try done; [by rewrite length_alter|].
    unfold remap. rewrite length_insert. destruct (IsTagged _); [by rewrite length_insert|done]. }
  change (page (installed t v pg (pool s)) j) with (page (set_page v pg q) j). by rewrite page_set.
Qed.

Lemma claimed_flags t d :
  IsTagged (SetValid (claimed t d)) = true ∧ IsValid (SetValid (claimed t d)) = true ∧
  IsDirty (SetValid (claimed t d)) = IsDirty d ∧ tag (SetValid (claimed t d)) = t ∧
  refcount (SetValid (claimed t d)) = 1.
Proof.
  destruct (flags_inv _ _ _ _ (flags_SetValid (claimed t d))) as (H1 & H2 & H3).
  destruct (flags_inv _ _ _ _ (flags_ClearValid (SetTagged (with_tag t d)))) as (H4 & _ & H6).
  destruct (flags_inv _ _ _ _ (flags_SetTagged (with_tag t d))) as (H7 & _ & H9).
  split_and!; try done.
  - rewrite H1. change (IsTagged (claimed t d)) with (IsTagged (ClearValid (SetTagged (with_tag t d)))). congruence.
  - rewrite H3. change (IsDirty (claimed t d)) with (IsDirty (ClearValid (SetTagged (with_tag t d)))).
    change (IsDirty d) with (IsDirty (with_tag t d)). congruence.
Qed.

Lemma installed_holds s t v pg j u :
  Inv s → in_range (pool s) v →
  holds (installed t v pg (pool s)) j u ↔ (j = v ∧ u = t) ∨ (j ≠ v ∧ holds (pool s) j u).
Proof.
  intros Hi Hv. destruct (claimed_flags t (desc (pool s) v)) as (F1 & _ & _ & F4 & _).
  unfold holds. change (in_range (installed t v pg (pool s)) j) with (in_range (pool s) j). split.
  - intros (Hj & H1 & H2). rewrite installed_desc in H1, H2 by done. case_decide as Hjv; [left|by right].
    split; [done|]. congruence.
  - intros [[-> ->]|(Hne & Hj & H1 & H2)]; rewrite installed_desc by done.
    + rewrite decide_True by done. by split_and!.
    + rewrite decide_False by done. by split_and!.
Qed.

Lemma installed_entry s t v pg idx :
  Inv s → T t → (∀ i, ¬ holds (pool s) i t) → in_range (pool s) v →
  let e := entry (hash_table (installed t v pg (pool s))) idx in
  IsEmpty e = false →
  (idx = home t ∧ e = mkEntry t v) ∨
  (idx ≠ home t ∧ e = entry (hash_table (pool s)) idx ∧ he_buf_id e ≠ v).
Proof.
  intros Hi HT Hno Hv. cbv zeta. change (hash_table (installed t v pg (pool s))) with (remap t v (pool s)).
  unfold remap. rewrite entry_insert by (destruct (IsTagged _); [rewrite length_insert|]; by apply home_lt).
  case_decide as Hidx; [by left|]. intros He. right. split; [done|].
  destruct (IsTagged (desc (pool s) v)) eqn:Et.
  - rewrite entry_insert in He |- * by (by apply home_lt). case_decide as Hu; [done|]. split; [done|].
    intros Hb. destruct (inv_entry _ Hi idx He) as (HTe & Hhome & Hh). rewrite Hb in Hh.
    destruct Hh as (_ & _ & Htag). by rewrite <- Htag in Hhome.
  - split; [done|]. intros Hb. destruct (inv_entry _ Hi idx He) as (_ & _ & (_ & Ht & _)). rewrite Hb in Ht. congruence.
Qed.

Lemma installed_mapped s t v pg j u :
  Inv s → T t → (∀ i, ¬ holds (pool s) i t) → in_range (pool s) v →
  holds (pool s) j u → j ≠ v →
  entry (hash_table (installed t v pg (pool s))) (home u) = mkEntry u j.
Proof.
  intros Hi HT Hno Hv Hj Hne. pose proof (ps_hash_pos _ (inv_shape _ Hi)) as Hpos. rewrite (inv_size _ Hi) in Hpos.
  destruct (inv_tagged _ Hi j u Hj) as (HTu & He & _).
  change (hash_table (installed t v pg (pool s))) with (remap t v (pool s)). unfold remap.
  rewrite entry_insert by (destruct (IsTagged _); [rewrite length_insert|]; by apply home_lt).
  rewrite decide_False; [|intros E; apply home_inj in E as ->; [by apply (Hno j)|done..]].
  destruct (IsTagged (desc (pool s) v)) eqn:Et; [|done].
  rewrite entry_insert by (by apply home_lt). rewrite decide_False; [done|]. intros E. apply Hne.
  assert (Hvh : holds (pool s) v (tag (desc (pool s) v))) by (by split_and!).
  destruct (inv_tagged _ Hi v _ Hvh) as (HTv & _). apply home_inj in E; [|done..].
  eapply holds_unique; [done..|]. by rewrite E.
Qed.

Lemma inv_installed s t v pg l :
  Inv s → T t → (∀ i, ¬ holds (pool s) i t) → in_range (pool s) v →
  (IsTagged (desc (pool s) v) = true → IsDirty (desc (pool s) v) = false) →
  free_chain (pool s) (first_free (pool s)) l → v ∉ l →
  ps_page (store s) (ps_loc t) = Some pg →
  let s' := on_pool (installed t v pg) s in
  Inv s' ∧ ∀ u, T u → logical s' u = logical s u.
Proof.
  intros Hi HT Hno Hv Hclean Hl Hvl Hpg s'.
  destruct (claimed_flags t (desc (pool s) v)) as (F1 & F2 & F3 & F4 & F5).
  assert (Hho := λ j u, installed_holds s t v pg j u Hi Hv).
  assert (Hd := λ j, installed_desc s t v pg j Hi Hv).
  assert (Hp := λ j, installed_page s t v pg j Hi Hv).
  assert (Hinv : Inv s').
  { subst s'. split; cbn [pool on_pool store].
    - by apply installed_shape.
    - apply Hi.
    - apply Hi.
    - intros j Hj. rewrite Hp by done. case_decide; [|by apply Hi]. by eapply ps_page_length; [apply Hi|].
    - intros idx He. destruct (installed_entry s t v pg idx Hi HT Hno Hv He) as [[-> ->]|(Hne & E & Hb)].
      + split_and!; [done..|]. apply Hho. by left.
      + rewrite E in He, Hb |- *. destruct (inv_entry _ Hi idx He) as (? & ? & ?). split_and!; [done..|].
        apply Hho. by right.
    - intros j u Hj. pose proof (proj1 Hj) as Hjr. apply Hho in Hj as [[-> ->]|[Hne Hj]].
      + split_and!; [done| |by rewrite Hd, decide_True].
        change (hash_table (installed t v pg (pool s))) with (remap t v (pool s)). unfold remap.
        rewrite entry_insert by (destruct (IsTagged _); [rewrite length_insert|]; by apply home_lt).
        by rewrite decide_True.
      + destruct (inv_tagged _ Hi j u Hj) as (HTu & _ & Hval).
        split_and!; [done|by apply installed_mapped|by rewrite Hd, decide_False].
    - intros j Hj. rewrite Hd by done. case_decide; [done|by apply Hi].
    - intros j u Hj. pose proof (proj1 Hj) as Hjr. rewrite Hd, Hp by done.
      apply Hho in Hj as [[-> ->]|[Hne Hj]].
      + rewrite !decide_True by done. case_match; [by rewrite Hpg|done].
      + rewrite !decide_False by done. by apply Hi.
    - intros j Hj. rewrite Hd by done. case_decide; [done|by apply Hi].
    - intros j Hj. rewrite Hd by done. case_decide; [done|by apply Hi].
    - exists l. eapply chain_ext; [|exact Hl]. intros j Hj Hjr. rewrite Hd by done.
      rewrite decide_False by (intros ->; done). done. }
  split; [done|]. intros u HTu.
  destruct (lookup_cases s' u Hinv HTu) as [(j & Hj & _)|(_ & _ & Hnone)].
  - rewrite (logical_held s' j u) by done. pose proof (proj1 Hj) as Hjr.
    subst s'. cbn [pool on_pool] in *. rewrite Hp by done. apply Hho in Hj as [[-> ->]|[Hne Hj]].
    + rewrite decide_True by done. by rewrite (logical_absent s t).
    + rewrite decide_False by done. by rewrite (logical_held s j u).
  - rewrite (logical_absent s' u) by done. change (store s') with (store s).
    destruct (lookup_cases s u Hi HTu) as [(j & Hj & _)|(_ & _ & Hno')]; [|by rewrite (logical_absent s u)].
    rewrite (logical_held s j u) by done.
    assert (j = v) as ->.
    { destruct (decide (j = v)); [done|]. exfalso. apply (Hnone j), Hho. by right. }
    pose proof (inv_disk _ Hi v u Hj) as Hx. by rewrite Hclean in Hx by apply Hj.
Qed.

(** ** Reading a page *)

(** The outcome of a read: buffer [b] holds the page of [t], pinned, and
    every pinned buffer still holds the page it held. *)
Record read_ok (s s' : @St S) (b : Z) (t : BufferTag) (pg : list Z) : Prop := {
  ro_inv : Inv s';
  ro_logical u : T u → logical s' u = logical s u;
  ro_holds : holds (pool s') (b - 1) t;
  ro_page : page (pool s') (b - 1) = pg;
  ro_pinned : 0 < refcount (desc (pool s') (b - 1));
  ro_n : n_buffers (pool s') = n_buffers (pool s);
  ro_pins j u : holds (pool s) j u → refcount (desc (pool s) j) ≠ 0 →
    holds (pool s') j u ∧ page (pool s') j = page (pool s) j;
  ro_open rn : ps_open (store s) rn → ps_open (store s') rn;
}.

Lemma read_hit s t rn mode i :
  Inv s → holds (pool s) i t → rn.(node) = rnode t →
  ∃ s', ReadBuffer hash_u32 hash_int rn (fork_num t) (block_num t) mode s = (Ret (i + 1), s') ∧
        read_ok s s' (i + 1) t (page (pool s) i).
Proof.
  intros Hi Hh Hn. destruct (inv_tagged _ Hi i t Hh) as (HT & _). pose proof (inv_shape _ Hi) as Hs.
  destruct (lookup_cases s t Hi HT) as [(j & Hj & Hl)|(_ & _ & Hno)]; [|by destruct (Hno i)].
  assert (j = i) as -> by (by eapply holds_unique).
  unfold ReadBuffer. rewrite Hn. replace (mkBufferTag (rnode t) (fork_num t) (block_num t)) with t by (by destruct t).
  unfold mbind at 1, M_bind, gets. change (LookupBuffer hash_u32 hash_int t (pool s)) with (lookup t (pool s)). rewrite Hl.
  pose proof (proj1 Hh) as Hr. rewrite (proj2 (Z.eqb_neq (i + 1) kInvalidBuffer)) by (destruct Hr; unfold kInvalidBuffer; lia).
  cbn [negb]. eexists. split; [reflexivity|]. destruct (pin_inv s (i + 1) Hi) as [Hi' Hl'].
  assert (Hpin : on_pool (PinBuffer (i + 1)) s = on_pool (upd_desc i (λ d,
     with_usage (λ n, if n <? kMaxUsageCount then n + 1 else n) (with_refcount Z.succ d))) s).
  { unfold on_pool, PinBuffer. replace (i + 1 - 1) with i by lia. by rewrite out_of_range_false. }
  set (s' := on_pool (PinBuffer (i + 1)) s) in *. replace i with (i + 1 - 1) in Hh at 1 by lia.
  assert (Hho : ∀ j u, holds (pool s') j u ↔ holds (pool s) j u).
  { intros j u. rewrite Hpin. by apply holds_upd. }
  split; try done.
  - by apply Hho.
  - rewrite Hpin. replace (i + 1 - 1) with i by lia. done.
  - rewrite Hpin. replace (i + 1 - 1) with i by lia. cbn. rewrite desc_upd, decide_True by (done || apply Hs). cbn.
    pose proof (inv_refs _ Hi i Hr). lia.
  - rewrite Hpin. done.
  - intros k u Hk _. split; [by apply Hho|]. by rewrite Hpin.
Qed.

(** The failure of a read changes no page. *)
Definition unchanged (s s' : @St S) : Prop :=
  Inv s' ∧ (∀ u, T u → logical s' u = logical s u) ∧ ∀ rn, ps_open (store s) rn → ps_open (store s') rn.

Definition no_buffer : string := "no buffer available in buffer pool (all pinned)".

Lemma inv_store_read s st' :
  Inv s → ps_ok st' → (∀ l, ps_page st' l = ps_page (store s) l) →
  Inv (mkSt (pool s) st') ∧ ∀ u, T u → logical (mkSt (pool s) st') u = logical s u.
Proof.
  intros Hi Hok Hpg.
  assert (Hinv : Inv (mkSt (pool s) st')).
  { split; try apply Hi; cbn [pool store]; [done|]. intros j u Hj. rewrite !Hpg. by apply Hi. }
  split; [done|]. by apply logical_same.
Qed.

(** The buffer [ReadBuffer] claims for a page that is in none: the victim,
    written back, under the new tag and pinned, before its page is read. *)
Definition claim t v p : BufferPool := with_hash_table (λ _, remap t v p) (upd_desc v (claimed t) p).

Record claimable (s s2 : @St S) (t : BufferTag) (v : Z) (l : list Z) : Prop := {
  cl_unchanged : unchanged s s2;
  cl_n : n_buffers (pool s2) = n_buffers (pool s);
  cl_blocks : blocks (pool s2) = blocks (pool s);
  cl_holds j u : holds (pool s2) j u ↔ holds (pool s) j u;
  cl_range : in_range (pool s2) v;
  cl_clean : IsTagged (desc (pool s2) v) = true → IsDirty (desc (pool s2) v) = false;
  cl_chain : free_chain (pool s2) (first_free (pool s2)) l;
  cl_out : v ∉ l;
  cl_unpinned : IsTagged (desc (pool s) v) = true → refcount (desc (pool s) v) = 0;
}.

Lemma read_claims s t rn mode :
  Inv s → T t → (∀ i, ¬ holds (pool s) i t) → node rn = rnode t →
  (∃ s1, ReadBuffer hash_u32 hash_int rn (fork_num t) (block_num t) mode s = (Ereport no_buffer, s1) ∧ unchanged s s1) ∨
  (∃ v s2 l, claimable s s2 t v l ∧
     ReadBuffer hash_u32 hash_int rn (fork_num t) (block_num t) mode s =
     (fill_page rn t mode (v + 1);; modify (on_pool (upd_desc v SetValid));; mret (v + 1)) (on_pool (claim t v) s2)).
Proof.
  intros Hi HT Hno Hn.
  destruct (lookup_cases s t Hi HT) as [(i & Hh & _)|(_ & Hl & _)]; [by destruct (Hno i)|].
  assert (Ht : mkBufferTag (rnode t) (fork_num t) (block_num t) = t) by (by destruct t).
  pose proof (victim_run s Hi) as Hvic. destruct (FindVictimBuffer (pool s)) as [v p1] eqn:Efind.
  destruct Hvic as (Hi1 & Hl1 & Hn1 & Hb1 & Hd1 & Hv). set (s1 := mkSt p1 (store s)) in *.
  assert (Hstart : ∀ k : Z → M (@St S) Z,
    (buffer ← gets (λ s, LookupBuffer hash_u32 hash_int t (pool s));
     if negb (buffer =? kInvalidBuffer) then modify (on_pool (PinBuffer buffer));; mret buffer else
     victim_id ← (λ s, let '(v, p) := FindVictimBuffer (pool s) in (Ret v, mkSt p (store s))); k victim_id) s = k v s1).
  { intros k. unfold mbind, M_bind, gets. change (LookupBuffer hash_u32 hash_int t (pool s)) with (lookup t (pool s)).
    rewrite Hl. cbn [negb Z.eqb kInvalidBuffer]. by rewrite Efind. }
  unfold ReadBuffer. rewrite Hn, Ht, Hstart.
  assert (Hr1 : ∀ j, in_range p1 j ↔ in_range (pool s) j) by (intros j; unfold in_range; by rewrite Hn1).
  assert (Hho1 : ∀ j u, holds p1 j u ↔ holds (pool s) j u).
  { intros j u. unfold holds, IsTagged. rewrite Hr1. split; intros (Hj & H1 & H2);
      destruct (Hd1 j Hj) as (E1 & E2 & _); (split_and!; [done|congruence|congruence]). }
  destruct Hv as [->|(Hvr & Hvpin & l & Hch & Hvl)]; [left; by exists s1|right].
  rewrite (proj2 (Z.ltb_ge v 0)) by (destruct Hvr; lia).
  assert (Hv1 : in_range p1 v) by by apply Hr1.
  (* the victim's page goes to disk *)
  assert (∃ s2, when (IsTagged (desc p1 v) && IsDirty (desc p1 v) && IsValid (desc p1 v)) (FlushBuffer v false) s1
                = (Ret tt, s2) ∧ Inv s2 ∧ flushed s1 s2 ∧ (∀ u, T u → logical s2 u = logical s1 u) ∧
            (IsTagged (desc (pool s2) v) = true → IsDirty (desc (pool s2) v) = false))
    as (s2 & Hrun2 & Hi2 & Hf2 & Hl2 & Hc2).
  { destruct (IsTagged (desc p1 v)) eqn:Et; [|exists s1; split_and!; try done; cbn; congruence].
    assert (Hh : holds (pool s1) v (tag (desc p1 v))) by (by split_and!).
    destruct (IsDirty (desc p1 v)) eqn:Ed; [|exists s1; split_and!; done].
    destruct (inv_tagged _ Hi1 v _ Hh) as (_ & _ & Hval). change (pool s1) with p1 in Hval. rewrite Hval. cbn.
    destruct (flush_run s1 v Hi1 Hv1) as (s2 & ? & ? & ? & Hc & ?). exists s2. split_and!; try done. by intros _; eapply Hc. }
  assert (Hho2 : ∀ j u, holds (pool s2) j u ↔ holds (pool s) j u)
    by (intros j u; rewrite (flushed_holds s1 s2) by done; apply Hho1).
  assert (Hv2 : in_range (pool s2) v) by (unfold in_range; rewrite (fl_n _ _ Hf2); apply Hv1).
  assert (Hno2 : ∀ i, ¬ holds (pool s2) i t) by (intros i; by rewrite Hho2).
  exists v, s2, l. split.
  - split; try done.
    + split_and!; [done|intros u HTu; by rewrite Hl2, Hl1|apply (fl_open _ _ Hf2)].
    + by rewrite (fl_n _ _ Hf2).
    + rewrite (fl_blocks _ _ Hf2). done.
    + rewrite (fl_first _ _ Hf2). eapply chain_ext; [|exact Hch]. intros j _ Hj.
      destruct (fl_desc _ _ Hf2 j Hj) as (_ & _ & ? & ? & _). split; [|done].
      unfold in_range. rewrite (fl_n _ _ Hf2). apply Hj.
  - unfold mbind at 1, M_bind, gets. cbn [pool s1]. rewrite (bind_ret_run _ _ _ _ _ Hrun2).
    rewrite (bind_ret_run _ _ _ _ _ (insert_buffer_run s2 t v Hi2 HT Hno2 Hv2)).
    replace (v + 1 - 1) with v by lia. done.
Qed.

Lemma read_miss s t rn mode pg :
  Inv s → T t → (∀ i, ¬ holds (pool s) i t) → node rn = rnode t → ps_open (store s) rn → mode ≠ kZero →
  ps_page (store s) (ps_loc t) = Some pg →
  match ReadBuffer hash_u32 hash_int rn (fork_num t) (block_num t) mode s with
  | (Ret b, s') => read_ok s s' b t pg
  | (Ereport e, s') => e = no_buffer ∧ unchanged s s'
  end.
Proof.
  intros Hi HT Hno Hn Ho Hmode Hpg.
  destruct (read_claims s t rn mode Hi HT Hno Hn) as [(s1 & -> & Hu)|(v & s2 & l & Hcl & ->)]; [done|].
  pose proof Hcl as [(Hi2 & Hl2 & Ho2) Hn2 Hb2 Hho2 Hv2 Hc2 Hch2 Hvl Hvpin].
  assert (Hno2 : ∀ i, ¬ holds (pool s2) i t) by (intros i; by rewrite Hho2).
  assert (Hpg2 : ps_page (store s2) (ps_loc t) = Some pg).
  { rewrite <- (logical_absent s2 t) by done. rewrite Hl2 by done. by rewrite (logical_absent s t). }
  destruct (T_valid t HT) as [Hval _].
  destruct (ps_read_law rn t (page (claim t v (pool s2)) v) (store s2)) as (o & buf & st' & Hrd & Hok & Hop & Hpgs & _ & Hres);
    [apply Hi2|by apply Ho2|done|done|apply (inv_pages _ Hi2 v Hv2)|].
  rewrite Hpg2 in Hres. destruct Hres as [-> ->].
  assert (Hfill : fill_page rn t mode (v + 1) (on_pool (claim t v) s2) =
                  (Ret tt, mkSt (set_page v pg (claim t v (pool s2))) st')).
  { unfold fill_page. replace (v + 1 - 1) with v by lia. cbn [pool store on_pool]. destruct mode; [|done|]; by rewrite Hrd. }
  rewrite (bind_ret_run _ _ _ _ _ Hfill). unfold mbind, M_bind, modify, mret, M_ret.
  destruct (inv_store_read s2 st' Hi2 Hok Hpgs) as [Hi4 Hl4]. set (s4 := mkSt (pool s2) st') in *.
  destruct (inv_installed s4 t v pg l Hi4 HT Hno2 Hv2 Hc2 Hch2 Hvl) as [Hi5 Hl5]; [by rewrite <- Hpg2, <- Hpgs|].
  change (read_ok s (on_pool (installed t v pg) s4) (v + 1) t pg).
  assert (Hho := λ j u, installed_holds s4 t v pg j u Hi4 Hv2).
  split.
  - done.
  - intros u HTu. by rewrite Hl5, Hl4, Hl2.
  - apply Hho. left. split; [lia|done].
  - cbn [pool on_pool]. replace (v + 1 - 1) with v by lia. rewrite installed_page by done. by rewrite decide_True.
  - cbn [pool on_pool]. replace (v + 1 - 1) with v by lia. rewrite installed_desc by done. rewrite decide_True by done.
    destruct (claimed_flags t (desc (pool s4) v)) as (_ & _ & _ & _ & ->). lia.
  - exact Hn2.
  - intros j u Hj Hrc. assert (j ≠ v) as Hjv by (intros ->; destruct Hj as (_ & Ht & _); auto).
    split; [apply Hho; right; split; [done|]; by apply Hho2|].
    assert (Hj2 : in_range (pool s2) j) by (apply Hho2 in Hj; apply Hj).
    cbn [pool on_pool]. rewrite installed_page by done.
    rewrite decide_False by done. unfold page. change (pool s4) with (pool s2). by rewrite Hb2.
  - intros rn' Hrn. cbn. apply Hop, Ho2. done.
Qed.

(** ** Dropping a buffer *)

Lemma chain_untagged p x l j : free_chain p x l → j ∈ l → IsTagged (desc p j) = false.
Proof.
  revert x. induction l as [|i l IH]; intros x; [by intros _ ?%not_elem_of_nil|].
  intros (_ & _ & Ht & _ & Hc) [->|Hj]%elem_of_cons; [done|]. by eapply IH.
Qed.

Lemma reset_flags first d :
  IsTagged (reset_desc first d) = false ∧ IsValid (reset_desc first d) = false.
Proof.
  destruct (flags_inv _ _ _ _ (flags_ClearDirty (ClearValid (ClearTagged d)))) as (H1 & H2 & _).
  destruct (flags_inv _ _ _ _ (flags_ClearValid (ClearTagged d))) as (H3 & H4 & _).
  destruct (flags_inv _ _ _ _ (flags_ClearTagged d)) as (H5 & _ & _).
  change (IsTagged (reset_desc first d)) with (IsTagged (ClearDirty (ClearValid (ClearTagged d)))).
  change (IsValid (reset_desc first d)) with (IsValid (ClearDirty (ClearValid (ClearTagged d)))).
  split; congruence.
Qed.

(** The pool without the buffer [i] of tag [t]. *)
Definition released t i p : BufferPool :=
  with_first_free i (upd_desc i (reset_desc (first_free p))
    (with_hash_table (insert (home t) empty_entry) p)).

Lemma released_desc s t i j :
  Inv s → in_range (pool s) i → in_range (pool s) j →
  desc (released t i (pool s)) j =
  if decide (j = i) then reset_desc (first_free (pool s)) (desc (pool s) i) else desc (pool s) j.
Proof.
  intros Hi Hr Hj. set (q := with_hash_table (insert (home t) empty_entry) (pool s)).
  change (desc (released t i (pool s)) j) with (desc (upd_desc i (reset_desc (first_free (pool s))) q) j).
  rewrite desc_upd by (done || apply (inv_shape _ Hi)). done.
Qed.

Lemma inv_released s i t :
  Inv s → holds (pool s) i t → IsDirty (desc (pool s) i) = false →
  let s' := on_pool (released t i) s in
  Inv s' ∧ (∀ u, T u → logical s' u = logical s u) ∧
  ∀ j u, holds (pool s') j u ↔ j ≠ i ∧ holds (pool s) j u.
Proof.
  intros Hi Hh Hclean s'. pose proof (inv_shape _ Hi) as Hs. pose proof (proj1 Hh) as Hr.
  pose proof (ps_hash_pos _ Hs) as Hpos. rewrite (inv_size _ Hi) in Hpos.
  destruct (inv_tagged _ Hi i t Hh) as (HT & Hent & _). destruct (inv_free _ Hi) as [l Hl].
  destruct (reset_flags (first_free (pool s)) (desc (pool s) i)) as [F1 F2].
  assert (Hd := λ j, released_desc s t i j Hi Hr).
  assert (Hpg : ∀ j, page (released t i (pool s)) j = page (pool s) j) by done.
  assert (Hho : ∀ j u, holds (released t i (pool s)) j u ↔ j ≠ i ∧ holds (pool s) j u).
  { intros j u. unfold holds. change (in_range (released t i (pool s)) j) with (in_range (pool s) j). split.
    - intros (Hj & H1 & H2). rewrite Hd in H1, H2 by done. case_decide; [congruence|done].
    - intros (Hne & Hj & H1 & H2). rewrite Hd, decide_False by done. done. }
  assert (Hen : ∀ idx, entry (hash_table (released t i (pool s))) idx =
                  if decide (idx = home t) then empty_entry else entry (hash_table (pool s)) idx)
    by (intros idx; apply entry_insert, home_lt, Hi).
  assert (Hinv : Inv s').
  { subst s'. split; cbn [pool on_pool store].
    - destruct Hs. split; cbn; try done; [by rewrite length_alter|by rewrite length_insert].
    - apply Hi.
    - apply Hi.
    - apply (inv_pages _ Hi).
    - intros idx He. rewrite Hen in He |- *. case_decide as Hidx; [done|].
      destruct (inv_entry _ Hi idx He) as (HTe & Hhome & Hhe). split_and!; [done..|]. apply Hho. split; [|done].
      intros Hb. rewrite Hb in Hhe. destruct Hhe as (_ & _ & E1), Hh as (_ & _ & E2). congruence.
    - intros j u Hj. pose proof (proj1 Hj) as Hjr. apply Hho in Hj as [Hne Hj].
      destruct (inv_tagged _ Hi j u Hj) as (HTu & He & Hv). split_and!; [done| |by rewrite Hd, decide_False].
      rewrite Hen, decide_False; [done|]. intros E. apply home_inj in E; [|done..]. subst u.
      apply Hne. by eapply holds_unique.
    - intros j Hj. rewrite Hd by done. case_decide; [congruence|by apply Hi].
    - intros j u Hj. pose proof (proj1 Hj) as Hjr. apply Hho in Hj as [Hne Hj].
      rewrite Hd, decide_False by done. by apply Hi.
    - intros j Hj. rewrite Hd by done. case_decide; [done|by apply Hi].
    - intros j Hj. rewrite Hd by done. case_decide; [by apply (inv_refs _ Hi i)|by apply Hi].
    - assert (Hil : i ∉ l) by (intros Hin; pose proof (chain_untagged _ _ _ _ Hl Hin); destruct Hh as (_ & ? & _); congruence).
      exists (i :: l). cbn [free_chain]. split_and!; [done|apply Hr|by rewrite Hd, decide_True|done|].
      rewrite Hd, decide_True by done. cbn. eapply chain_ext; [|exact Hl]. intros j Hj Hjr.
      rewrite Hd, decide_False by (done || intros ->; done). done. }
  split_and!; [done| |done]. intros u HTu.
  destruct (lookup_cases s' u Hinv HTu) as [(j & Hj & _)|(_ & _ & Hnone)].
  - rewrite (logical_held s' j u) by done. apply Hho in Hj as [Hne Hj]. by rewrite (logical_held s j u).
  - rewrite (logical_absent s' u) by done. change (store s') with (store s).
    destruct (lookup_cases s u Hi HTu) as [(j & Hj & _)|(_ & _ & Hno')]; [|by rewrite (logical_absent s u)].
    rewrite (logical_held s j u) by done.
    assert (j = i) as -> by (destruct (decide (j = i)); [done|]; exfalso; apply (Hnone j), Hho; done).
    pose proof (inv_disk _ Hi i u Hj) as Hx. by rewrite Hclean in Hx.
Qed.

Lemma invalidate_run s i t :
  Inv s → holds (pool s) i t →
  ∃ s', InvalidateBuffer hash_u32 hash_int i s = (Ret tt, s') ∧ unchanged s s' ∧
        n_buffers (pool s') = n_buffers (pool s) ∧
        (∀ j u, holds (pool s') j u ↔ j ≠ i ∧ holds (pool s) j u) ∧
        (∀ j, in_range (pool s) j → j ≠ i → refcount (desc (pool s') j) = refcount (desc (pool s) j)).
Proof.
  intros Hi Hh. pose proof (proj1 Hh) as Hr. unfold InvalidateBuffer. unfold mbind at 1, M_bind, gets.
  rewrite out_of_range_false by done.
  assert (∃ s1, when (IsDirty (desc (pool s) i) && IsValid (desc (pool s) i)) (FlushBuffer i false) s = (Ret tt, s1) ∧
            Inv s1 ∧ flushed s s1 ∧ (∀ u, T u → logical s1 u = logical s u) ∧ IsDirty (desc (pool s1) i) = false)
    as (s1 & Hrun & Hi1 & Hf1 & Hl1 & Hc1).
  { destruct (inv_tagged _ Hi i t Hh) as (_ & _ & Hv). rewrite Hv, andb_true_r.
    destruct (IsDirty (desc (pool s) i)) eqn:E; cbn [when].
    - destruct (flush_run s i Hi Hr) as (s1 & ? & ? & ? & ? & ?). exists s1. split_and!; eauto.
    - exists s. split_and!; try done. }
  rewrite (bind_ret_run _ _ _ _ _ Hrun).
  assert (Hh1 : holds (pool s1) i t) by (by apply (flushed_holds s s1)).
  pose proof (ps_hash_pos _ (inv_shape _ Hi1)) as Hpos. rewrite (inv_size _ Hi1) in Hpos.
  destruct (inv_tagged _ Hi1 i t Hh1) as (HT & Hent & _).
  assert (Hdel : HashTableDelete hash_u32 hash_int t (pool s1) = with_hash_table (insert (home t) empty_entry) (pool s1)).
  { unfold HashTableDelete. rewrite (inv_size _ Hi1). destruct (probes_head t Hpos) as [rest ->].
    unfold with_hash_table. cbn [probe_delete]. rewrite Hent, IsEmpty_tag by done. cbn [he_tag]. by rewrite decide_True. }
  destruct (inv_released s1 i t Hi1 Hh1 Hc1) as (Hi2 & Hl2 & Hho2).
  exists (on_pool (released t i) s1). split_and!.
  - unfold mbind, M_bind, modify, on_pool. cbn [pool store]. pose proof Hh1 as (_ & -> & ->). by rewrite Hdel.
  - split_and!; [done| |apply Hf1]. intros u HTu. by rewrite Hl2, Hl1.
  - apply (fl_n _ _ Hf1).
  - intros j u. rewrite Hho2. by rewrite (flushed_holds s s1).
  - intros j Hj Hne. cbn [pool on_pool].
    assert (Hj1 : in_range (pool s1) j) by (unfold in_range; rewrite (fl_n _ _ Hf1); apply Hj).
    rewrite released_desc by (done || apply Hh1). rewrite decide_False by done. apply (fl_desc _ _ Hf1). done.
Qed.

Lemma unchanged_refl s : Inv s → unchanged s s.
Proof. done. Qed.

Lemma unchanged_trans s1 s2 s3 : unchanged s1 s2 → unchanged s2 s3 → unchanged s1 s3.
Proof. intros (_ & L1 & O1) (I2 & L2 & O2). split_and!; [done| |auto]. intros u HTu. by rewrite L2, L1. Qed.

Lemma invalidate_where_run sel ids s :
  Inv s → Forall (in_range (pool s)) ids →
  ∃ s', invalidate_where hash_u32 hash_int sel ids s = (Ret tt, s') ∧ unchanged s s' ∧
        n_buffers (pool s') = n_buffers (pool s) ∧
        (∀ j u, holds (pool s') j u → holds (pool s) j u).
Proof.
  revert s. induction ids as [|i ids IH]; intros s Hi Hr.
  { exists s. split_and!; done. }
  apply Forall_cons in Hr as [Hr Hrs]. cbn [invalidate_where]. unfold mbind at 1, M_bind, gets.
  assert (∃ s1, when (IsTagged (desc (pool s) i) && sel (desc (pool s) i)) (InvalidateBuffer hash_u32 hash_int i) s
                = (Ret tt, s1) ∧ unchanged s s1 ∧ n_buffers (pool s1) = n_buffers (pool s) ∧
            (∀ j u, holds (pool s1) j u → holds (pool s) j u)) as (s1 & Hrun & Hu1 & Hn1 & Hh1).
  { destruct (IsTagged (desc (pool s) i) && sel (desc (pool s) i)) eqn:E; cbn [when].
    - to_prop. destruct (invalidate_run s i (tag (desc (pool s) i)) Hi) as (s1 & ? & ? & ? & Hh & _); [by split_and!|].
      exists s1. split_and!; try done. intros j u Hj. by apply Hh in Hj as [_ ?].
    - exists s. split_and!; done. }
  rewrite (bind_ret_run _ _ _ _ _ Hrun).
  destruct (IH s1) as (s2 & Hrun2 & Hu2 & Hn2 & Hh2); [apply Hu1| |].
  { eapply Forall_impl; [exact Hrs|]. intros j. unfold in_range. by rewrite Hn1. }
  exists s2. split_and!; [done|by eapply unchanged_trans|congruence|auto].
Qed.

(** ** The refinement

    The calls a backend makes.  A page is looked at, or overwritten, under a
    pin; the other calls do not change what a tag denotes. *)

Inductive op :=
| OpRead (rn : RelFileNodeBackend) (f : ForkNumber) (b : Z)
| OpWrite (rn : RelFileNodeBackend) (f : ForkNumber) (b : Z) (pg : list Z)
| OpPin (rn : RelFileNodeBackend) (f : ForkNumber) (b : Z)
| OpRelease (buffer : Z)
| OpFlush (buffer : Z)
| OpFlushRelation (rn : RelFileNodeBackend)
| OpFlushDatabase (dbid : Z)
| OpDropRelation (rn : RelFileNode)
| OpDropFork (rn : RelFileNodeBackend) (f : ForkNumber)
| OpDropDatabase (dbid : Z).

Definition pin_page (rn : RelFileNodeBackend) (f : ForkNumber) (b : Z) : M (@St S) (Z * list Z) :=
  buffer ← ReadBufferWithoutRelcache hash_u32 hash_int rn f b kReadNormal kNormal;
  pg ← BufferGetPage buffer;
  mret (buffer, pg).

Definition run_op (o : op) : M (@St S) (list Z) :=
  match o with
  | OpRead rn f b => bp ← pin_page rn f b; ReleaseBuffer bp.1;; mret bp.2
  | OpWrite rn f b pg => bp ← pin_page rn f b; modify (write_page bp.1 pg);; ReleaseBuffer bp.1;; mret bp.2
  | OpPin rn f b => bp ← pin_page rn f b; mret bp.2
  | OpRelease buffer => ReleaseBuffer buffer;; mret []
  | OpFlush buffer => FlushBuffer_api buffer;; mret []
  | OpFlushRelation rn => FlushRelationBuffers rn;; mret []
  | OpFlushDatabase dbid => FlushDatabaseBuffers dbid;; mret []
  | OpDropRelation rn => DropRelationBuffers hash_u32 hash_int rn;; mret []
  | OpDropFork rn f => DropRelFileNodeBuffers hash_u32 hash_int rn f;; mret []
  | OpDropDatabase dbid => DropDatabaseBuffers hash_u32 hash_int dbid;; mret []
  end.

(** The abstract machine: a page for every tag. *)
Definition pages : Type := BufferTag → option (list Z).

Definition op_tag (o : op) : option BufferTag :=
  match o with
  | OpRead rn f b | OpWrite rn f b _ | OpPin rn f b => Some (mkBufferTag (node rn) f b)
  | _ => None
  end.
Definition spec_result (o : op) (m : pages) : list Z :=
  match op_tag o with Some t => default [] (m t) | None => [] end.
Definition spec_effect (o : op) (m : pages) : pages :=
  match o with
  | OpWrite rn f b pg => λ u, if decide (u = mkBufferTag (node rn) f b) then Some pg else m u
  | _ => m
  end.

(** A call on a tag in use, writing a whole page. *)
Definition op_ok (o : op) : Prop :=
  match op_tag o with Some t => T t | None => True end ∧
  match o with OpWrite _ _ _ pg => is_page pg | _ => True end.

Definition represents (s : @St S) (m : pages) : Prop := Inv s ∧ ∀ t, T t → logical s t = m t.

Lemma pin_page_run s rn f b pg :
  Inv s → T (mkBufferTag (node rn) f b) → logical s (mkBufferTag (node rn) f b) = Some pg →
  match pin_page rn f b s with
  | (Ret (buffer, pg'), s') => pg' = pg ∧ ∃ s0, unchanged s s0 ∧ read_ok s0 s' buffer (mkBufferTag (node rn) f b) pg
  | (Ereport e, s') => e = no_buffer ∧ unchanged s s'
  end.
Proof.
  intros Hi HT Hl. set (t := mkBufferTag (node rn) f b) in *.
  unfold pin_page, ReadBufferWithoutRelcache. unfold mbind at 1, M_bind. unfold mbind at 1, M_bind, modify.
  destruct (inv_store_open s rn Hi) as (Hi0 & Ho & Hmono & Hl0).
  set (s0 := mkSt (pool s) (smgropen_ rn (store s))) in *.
  assert (Hu : unchanged s s0) by (by split_and!).
  assert (Hread : match ReadBuffer hash_u32 hash_int rn f b kReadNormal s0 with
                  | (Ret buffer, s') => read_ok s0 s' buffer t pg
                  | (Ereport e, s') => e = no_buffer ∧ unchanged s0 s'
                  end).
  { rewrite <- Hl0 in Hl by done. destruct (lookup_cases s0 t Hi0 HT) as [(i & Hh & _)|(_ & _ & Hno)].
    - destruct (read_hit s0 t rn kReadNormal i Hi0 Hh eq_refl) as (s' & Hrun & Hok). cbn in Hrun. rewrite Hrun.
      rewrite (logical_held s0 i t) in Hl by done. injection Hl as <-. done.
    - rewrite (logical_absent s0 t) in Hl by done.
      exact (read_miss s0 t rn kReadNormal pg Hi0 HT Hno eq_refl Ho ltac:(discriminate) Hl). }
  destruct (ReadBuffer hash_u32 hash_int rn f b kReadNormal s0) as [[buffer|e] s'].
  - unfold mbind, M_bind, BufferGetPage, gets, mret, M_ret. unfold mbind, M_bind.
    rewrite out_of_range_false by apply Hread. split; [apply Hread|]. by exists s0.
  - destruct Hread as [-> Hu']. split; [done|]. by eapply unchanged_trans.
Qed.

Lemma represents_unchanged s s' m : represents s m → unchanged s s' → represents s' m.
Proof. intros [_ Hl] (Hi & Hu & _). split; [done|]. intros t HT. by rewrite Hu, Hl. Qed.

Lemma flushed_unchanged s s' :
  Inv s' → (∀ t, T t → logical s' t = logical s t) → flushed s s' → unchanged s s'.
Proof. intros ? ? Hf. split_and!; [done..|apply Hf]. Qed.

(** One call follows the abstract machine. *)
Lemma run_op_sim o s m :
  represents s m → (∀ t, T t → is_Some (m t)) → op_ok o →
  match run_op o s with
  | (Ret r, s') => r = spec_result o m ∧ represents s' (spec_effect o m)
  | (Ereport e, s') => e = no_buffer ∧ represents s' m
  end.
Proof.
  intros Hrep Hall [HT Hw]. pose proof Hrep as [Hi Hl].
  assert (Hpin : ∀ rn f b, T (mkBufferTag (node rn) f b) →
    match pin_page rn f b s with
    | (Ret (buffer, pg), s') => pg = default [] (m (mkBufferTag (node rn) f b)) ∧ represents s' m ∧
        ∃ i, buffer = i + 1 ∧ holds (pool s') i (mkBufferTag (node rn) f b)
    | (Ereport e, s') => e = no_buffer ∧ represents s' m
    end).
  { intros rn f b Ht. destruct (Hall _ Ht) as [pg Hpg]. rewrite Hpg.
    pose proof (pin_page_run s rn f b pg Hi Ht ltac:(by rewrite Hl)) as Hp.
    destruct (pin_page rn f b s) as [[[buffer pg']|e] s'].
    - destruct Hp as (-> & s0 & Hu0 & Hok). split_and!; [done| |exists (buffer - 1); split; [lia|apply Hok]].
      apply (represents_unchanged s0); [by eapply represents_unchanged|]. split_and!; apply Hok.
    - destruct Hp as [-> Hu]. split; [done|]. by eapply represents_unchanged. }
  assert (Hunpin : ∀ s' b m', represents s' m' → represents (on_pool (UnpinBuffer b) s') m').
  { intros s' b m' [Hi' Hl']. destruct (unpin_inv s' b Hi') as [Hi2 Hl2]. split; [done|]. intros t Ht. by rewrite Hl2, Hl'. }
  assert (Hfl : ∀ sel, ∃ s', (ids ← gets all_ids; flush_where sel ids : M (@St S) unit) s = (Ret tt, s') ∧ represents s' m).
  { intros sel. unfold mbind, M_bind, gets.
    destruct (flush_where_run sel (all_ids s) s Hi (all_ids_range s)) as (s' & -> & Hi' & Hf & Hl' & _).
    exists s'. split; [done|]. eapply represents_unchanged; [done|]. by apply flushed_unchanged. }
  assert (Hdr : ∀ sel, ∃ s', (ids ← gets all_ids; invalidate_where hash_u32 hash_int sel ids : M (@St S) unit) s
                             = (Ret tt, s') ∧ represents s' m).
  { intros sel. unfold mbind, M_bind, gets.
    destruct (invalidate_where_run sel (all_ids s) s Hi (all_ids_range s)) as (s' & -> & Hu & _).
    exists s'. split; [done|]. by eapply represents_unchanged. }
  destruct o as [rn f b|rn f b pg|rn f b|buffer|buffer|rn|dbid|rn|rn f|dbid]; cbn [run_op]; unfold mbind at 1, M_bind.
  - specialize (Hpin rn f b HT). destruct (pin_page rn f b s) as [[[buffer pg']|e] s'];
      [destruct Hpin as (-> & Hr & _)|done]. split; [done|]. by apply Hunpin.
  - specialize (Hpin rn f b HT). destruct (pin_page rn f b s) as [[[buffer pg']|e] s'];
      [destruct Hpin as (-> & [Hi' Hl'] & i & -> & Hh)|done]. split; [done|].
    destruct (write_page_inv s' i _ pg Hi' Hh Hw) as [Hi2 Hl2]. apply Hunpin. split; [done|].
    intros u HTu. cbn [fst spec_effect]. rewrite Hl2 by done. case_decide; [done|by apply Hl'].
  - specialize (Hpin rn f b HT). destruct (pin_page rn f b s) as [[[buffer pg']|e] s'];
      [destruct Hpin as (-> & Hr & _); done|done].
  - split; [done|]. by apply Hunpin.
  - unfold FlushBuffer_api. destruct (decide (in_range (pool s) (buffer - 1))) as [Hr|Hr].
    + destruct (flush_run s (buffer - 1) Hi Hr) as (s' & -> & Hi' & Hf & _ & Hl'). split; [done|].
      eapply represents_unchanged; [done|]. by apply flushed_unchanged.
    + unfold FlushBuffer. apply out_of_range_true in Hr. rewrite Hr. done.
  - destruct (Hfl (λ d, IsTagged d && bool_decide (rnode (tag d) = node rn))) as (s' & Hrun & Hr).
    assert (FlushRelationBuffers rn s = (Ret tt, s')) as -> by exact Hrun. done.
  - destruct (Hfl (λ d, IsTagged d && (db_node (rnode (tag d)) =? dbid))) as (s' & Hrun & Hr).
    assert (FlushDatabaseBuffers dbid s = (Ret tt, s')) as -> by exact Hrun. done.
  - destruct (Hdr (λ d, bool_decide (rnode (tag d) = rn))) as (s' & Hrun & Hr).
    assert (DropRelationBuffers hash_u32 hash_int rn s = (Ret tt, s')) as -> by exact Hrun. done.
  - destruct (Hdr (λ d, bool_decide (rnode (tag d) = node rn) && bool_decide (fork_num (tag d) = f)
                        && negb (0 <? refcount d))) as (s' & Hrun & Hr).
    assert (DropRelFileNodeBuffers hash_u32 hash_int rn f s = (Ret tt, s')) as -> by exact Hrun. done.
  - destruct (Hdr (λ d, (db_node (rnode (tag d)) =? dbid) && negb (0 <? refcount d))) as (s' & Hrun & Hr).
    assert (DropDatabaseBuffers hash_u32 hash_int dbid s = (Ret tt, s')) as -> by exact Hrun. done.
Qed.

Fixpoint run (ops : list op) (s : @St S) : list (outcome (list Z)) * @St S :=
  match ops with
  | [] => ([], s)
  | o :: rest => let '(r, s1) := run_op o s in let '(rs, s2) := run rest s1 in (r :: rs, s2)
  end.

(** The outcomes follow the abstract machine from [m] to [m']: a call that
    found no free buffer has no effect. *)
Fixpoint follows (ops : list op) (outs : list (outcome (list Z))) (m m' : pages) : Prop :=
  match ops, outs with
  | [], [] => m' = m
  | o :: ops', Ret r :: outs' => r = spec_result o m ∧ follows ops' outs' (spec_effect o m) m'
  | o :: ops', Ereport e :: outs' => e = no_buffer ∧ follows ops' outs' m m'
  | _, _ => False
  end.

Lemma run_sim ops s m :
  represents s m → (∀ t, T t → is_Some (m t)) → Forall op_ok ops →
  let '(outs, s') := run ops s in
  ∃ m', follows ops outs m m' ∧ represents s' m' ∧ ∀ t, T t → is_Some (m' t).
Proof.
  revert s m. induction ops as [|o ops IH]; intros s m Hr Hall Hops; [by exists m|].
  apply Forall_cons in Hops as [Ho Hops]. cbn [run]. pose proof (run_op_sim o s m Hr Hall Ho) as Hsim.
  destruct (run_op o s) as [[r|e] s1].
  - destruct Hsim as [-> Hr1].
    assert (Hall1 : ∀ t, T t → is_Some (spec_effect o m t)).
    { intros t HT. destruct o; cbn; auto. case_decide; eauto. }
    specialize (IH s1 (spec_effect o m) Hr1 Hall1 Hops). destruct (run ops s1) as [rs s2].
    destruct IH as (m' & ? & ? & ?). by exists m'.
  - destruct Hsim as [-> Hr1]. specialize (IH s1 m Hr1 Hall Hops). destruct (run ops s1) as [rs s2].
    destruct IH as (m' & ? & ? & ?). by exists m'.
Qed.

Lemma flush_all_run s m :
  represents s m →
  ∃ s', FlushAllDirtyBuffers s = (Ret tt, s') ∧ represents s' m ∧
        ∀ t, T t → ps_page (store s') (ps_loc t) = m t.
Proof.
  intros [Hi Hl]. unfold FlushAllDirtyBuffers, mbind, M_bind, gets.
  destruct (flush_where_run (λ _, true) (all_ids s) s Hi (all_ids_range s)) as (s' & Hrun & Hi' & Hf & Hl' & Hc).
  exists s'. split; [done|]. assert (Hrep : represents s' m) by (split; [done|]; intros t HT; by rewrite Hl', Hl).
  split; [done|]. intros t HT. destruct Hrep as [_ Hrep]. rewrite <- Hrep by done.
  destruct (lookup_cases s' t Hi' HT) as [(i & Hh & _)|(_ & _ & Hno)].
  - rewrite (logical_held s' i t) by done. pose proof (inv_disk _ Hi' i t Hh) as Hx.
    apply (flushed_holds s s') in Hh; [|done]. rewrite (Hc ltac:(done) i t) in Hx; [done| |done].
    apply elem_of_seqZ. destruct Hh as ([? ?] & _). lia.
  - by rewrite (logical_absent s' t).
Qed.

(** C26: the buffer pool refines a map from tags to pages, for blocks whose tags have
    distinct home slots in the hash table ([T_home]; the table loses entries behind
    a deleted one of the same chain, see [cut_probe_chain_loses_update]).  Start from
    a pool that represents the pages [m]; then every sequence of reads, overwrites,
    pins, releases, flushes and drops (with whatever evictions the clock sweep
    makes) answers each read with the page the map holds, changes the map only
    by overwrites, and fails only with "no buffer available", without effect;
    and writing back all dirty buffers afterwards succeeds and leaves exactly
    the final map on disk. *)
Theorem pool_refines_pages ops s m :
  represents s m → (∀ t, T t → is_Some (m t)) → Forall op_ok ops →
  let '(outs, s') := run ops s in
  ∃ m', follows ops outs m m' ∧ represents s' m' ∧
  ∃ s'', FlushAllDirtyBuffers s' = (Ret tt, s'') ∧ ∀ t, T t → ps_page (store s'') (ps_loc t) = m' t.
Proof.
  intros Hr Hall Hops. pose proof (run_sim ops s m Hr Hall Hops) as Hsim.
  destruct (run ops s) as [outs s']. destruct Hsim as (m' & Hf & Hr' & _). exists m'. split_and!; [done..|].
  destruct (flush_all_run s' m' Hr') as (s'' & Hrun & _ & Hd). by exists s''.
Qed.

(** a pinned buffer is not replaced.  While a backend holds a pin on the
    buffer of a page, a read of any page by anyone leaves that buffer with its
    tag and its bytes. *)
Theorem pinned_buffer_stays s rn t i u :
  Inv s → T t → node rn = rnode t → ps_open (store s) rn → is_Some (logical s t) →
  holds (pool s) i u → 0 < refcount (desc (pool s) i) →
  let '(o, s') := ReadBuffer hash_u32 hash_int rn (fork_num t) (block_num t) kReadNormal s in
  match o with
  | Ret b => holds (pool s') (b - 1) t ∧ 0 < refcount (desc (pool s') (b - 1)) ∧
             holds (pool s') i u ∧ page (pool s') i = page (pool s) i
  | Ereport e => e = no_buffer
  end.
Proof.
  intros Hi HT Hn Ho [pg Hpg] Hh Hrc.
  destruct (lookup_cases s t Hi HT) as [(j & Hj & _)|(_ & _ & Hno)].
  - destruct (read_hit s t rn kReadNormal j Hi Hj Hn) as (s' & -> & Hok).
    destruct (ro_pins _ _ _ _ _ Hok i u Hh ltac:(lia)). by pose proof (ro_holds _ _ _ _ _ Hok); pose proof (ro_pinned _ _ _ _ _ Hok).
  - rewrite (logical_absent s t) in Hpg by done.
    pose proof (read_miss s t rn kReadNormal pg Hi HT Hno Hn Ho ltac:(discriminate) Hpg) as Hm.
    destruct (ReadBuffer hash_u32 hash_int rn (fork_num t) (block_num t) kReadNormal s) as [[b|e] s'].
    + destruct (ro_pins _ _ _ _ _ Hm i u Hh ltac:(lia)). by pose proof (ro_holds _ _ _ _ _ Hm); pose proof (ro_pinned _ _ _ _ _ Hm).
    + apply Hm.
Qed.

Lemma claim_desc s t v :
  Inv s → in_range (pool s) v → desc (claim t v (pool s)) v = claimed t (desc (pool s) v).
Proof.
  intros Hi Hv. change (desc (claim t v (pool s)) v) with (desc (upd_desc v (claimed t) (pool s)) v).
  rewrite desc_upd by (done || apply (inv_shape _ Hi)). by rewrite decide_True.
Qed.

Lemma claim_lookup s t v :
  Inv s → T t → lookup t (claim t v (pool s)) = v + 1.
Proof.
  intros Hi HT. pose proof (ps_hash_pos _ (inv_shape _ Hi)) as Hpos. rewrite (inv_size _ Hi) in Hpos.
  unfold lookup, LookupBuffer. change (hash_table_size (claim t v (pool s))) with (hash_table_size (pool s)).
  rewrite (inv_size _ Hi). destruct (probes_head t Hpos) as [rest ->]. cbn [probe_lookup].
  change (hash_table (claim t v (pool s))) with (remap t v (pool s)). unfold remap.
  rewrite entry_insert by (destruct (IsTagged _); [rewrite length_insert|]; by apply home_lt).
  rewrite decide_True by done. rewrite IsEmpty_tag by done. cbn [he_tag he_buf_id]. by rewrite decide_True.
Qed.

(** reading a page that is not on disk.  The read raises an error, but
    when a victim was found it leaves the victim mapped to the page and
    pinned: the next read of the same page finds it, pins it again and returns
    it without any error, although its contents were never read. *)
Theorem failed_read_stays_mapped s t rn :
  Inv s → T t → (∀ i, ¬ holds (pool s) i t) → node rn = rnode t → ps_open (store s) rn →
  ps_page (store s) (ps_loc t) = None →
  let read := ReadBuffer hash_u32 hash_int rn (fork_num t) (block_num t) kReadNormal in
  ∃ e s1, read s = (Ereport e, s1) ∧
    ((e = no_buffer ∧ unchanged s s1) ∨
     ∃ b s2, read s1 = (Ret b, s2) ∧ tag (desc (pool s2) (b - 1)) = t ∧
             IsValid (desc (pool s2) (b - 1)) = false ∧ refcount (desc (pool s2) (b - 1)) = 2).
Proof.
  intros Hi HT Hno Hn Ho Hpg read. subst read.
  destruct (read_claims s t rn kReadNormal Hi HT Hno Hn) as [(s1 & Hrun & Hu)|(v & s2 & l & Hcl & Hrun)];
    [exists no_buffer, s1; split; [done|]; by left|].
  pose proof Hcl as [(Hi2 & Hl2 & Ho2) Hn2 Hb2 Hho2 Hv2 _ _ _ _].
  assert (Hno2 : ∀ i, ¬ holds (pool s2) i t) by (intros i; by rewrite Hho2).
  assert (Hpg2 : ps_page (store s2) (ps_loc t) = None).
  { rewrite <- (logical_absent s2 t) by done. rewrite Hl2 by done. by rewrite (logical_absent s t). }
  destruct (T_valid t HT) as [Hval _].
  destruct (ps_read_law rn t (page (claim t v (pool s2)) v) (store s2)) as (o & buf & st' & Hrd & _ & _ & _ & _ & Hres);
    [apply Hi2|by apply Ho2|done|done|apply (inv_pages _ Hi2 v Hv2)|].
  rewrite Hpg2 in Hres. destruct Hres as [e ->]. set (p1 := set_page v buf (claim t v (pool s2))).
  assert (Hfill : fill_page rn t kReadNormal (v + 1) (on_pool (claim t v) s2) = (Ereport e, mkSt p1 st')).
  { unfold fill_page. replace (v + 1 - 1) with v by lia. cbn [pool store on_pool]. by rewrite Hrd. }
  exists e, (mkSt p1 st'). split; [by rewrite Hrun, (bind_err_run _ _ _ _ _ Hfill)|right].
  exists (v + 1), (mkSt (PinBuffer (v + 1) p1) st'). split.
  - unfold ReadBuffer. rewrite Hn. replace (mkBufferTag (rnode t) (fork_num t) (block_num t)) with t by (by destruct t).
    unfold mbind at 1, M_bind, gets. cbn [pool].
    change (LookupBuffer hash_u32 hash_int t p1) with (lookup t (claim t v (pool s2))). rewrite claim_lookup by done.
    by rewrite (proj2 (Z.eqb_neq (v + 1) kInvalidBuffer)) by (destruct Hv2; unfold kInvalidBuffer; lia).
  - cbn [pool]. unfold PinBuffer. replace (v + 1 - 1) with v by lia.
    assert (Hr1 : in_range p1 v) by exact Hv2. rewrite out_of_range_false by done.
    assert (Hlen : Z.of_nat (length (descriptors p1)) = n_buffers p1).
    { cbn. rewrite length_alter. apply (inv_shape _ Hi2). }
    rewrite desc_upd, decide_True by done.
    change (desc p1 v) with (desc (claim t v (pool s2)) v). rewrite claim_desc by done.
    split_and!; [done| |done].
    change (IsValid (ClearValid (SetTagged (with_tag t (desc (pool s2) v)))) = false).
    apply (flags_inv _ _ _ _ (flags_ClearValid _)).
Qed.

(** ** A new pool *)

Lemma free_one_shape p i : pool_shape p → pool_shape (free_one p i).
Proof. intros Hs. destruct (shape_upd p i (with_free_next (first_free p)) Hs). by split. Qed.

Lemma fold_free l l0 p :
  pool_shape p → Forall (in_range p) l → NoDup (l ++ l0) →
  (∀ i, in_range p i → IsTagged (desc p i) = false) → free_chain p (first_free p) l0 →
  let q := foldl free_one p (reverse l) in
  pool_shape q ∧ n_buffers q = n_buffers p ∧ blocks q = blocks p ∧ hash_table q = hash_table p ∧
  hash_table_size q = hash_table_size p ∧
  (∀ i, in_range p i → ∃ x, desc q i = with_free_next x (desc p i)) ∧
  free_chain q (first_free q) (l ++ l0).
Proof.
  intros Hs Hr Hnd Ht Hc. revert Hr Hnd. induction l as [|i l IH]; intros Hr Hnd; cbv zeta.
  { cbn. split_and!; try done. intros i _. exists (free_next (desc p i)). by destruct (desc p i). }
  apply Forall_cons in Hr as [Hri Hr]. cbn [app] in Hnd. apply NoDup_cons in Hnd as [Hni Hnd].
  rewrite reverse_cons, foldl_app. cbn [foldl].
  destruct (IH Hr Hnd) as (Hsq & Hn & Hb & Hh & Hhs & Hd & Hcq). set (q := foldl free_one p (reverse l)) in *.
  assert (Hrq : ∀ j, in_range q j ↔ in_range p j) by (intros j; unfold in_range; by rewrite Hn).
  assert (Hdq : ∀ j, in_range p j → desc (free_one q i) j =
            if decide (j = i) then with_free_next (first_free q) (desc q i) else desc q j).
  { intros j Hj. change (desc (free_one q i) j) with (desc (upd_desc i (with_free_next (first_free q)) q) j).
    rewrite desc_upd; [done|apply Hsq|by apply Hrq..]. }
  assert (Htq : ∀ j, in_range p j → IsTagged (desc q j) = false).
  { intros j Hj. destruct (Hd j Hj) as [x ->]. by apply Ht. }
  split_and!; try done; [by apply free_one_shape| |].
  - intros j Hj. rewrite Hdq by done. case_decide; [subst j|by apply Hd].
    destruct (Hd i Hj) as [x ->]. by exists (first_free q).
  - cbn [app free_chain]. split_and!; [done|by apply Hrq|rewrite Hdq, decide_True by done; by apply (Htq i)|done|].
    rewrite Hdq, decide_True by done. cbn [free_next with_free_next].
    eapply chain_ext; [|exact Hcq]. intros j Hj Hjr. apply Hrq in Hjr. rewrite Hdq by done.
    rewrite decide_False by (intros ->; done). split; [by apply Hrq|done].
Qed.

Lemma double_until_pos fuel size target : 0 < size → 0 < double_until fuel size target.
Proof.
  revert size. induction fuel as [|fuel IH]; intros size Hs; [done|]. cbn [double_until].
  case_match; [|done]. apply IH. rewrite Z.shiftl_mul_pow2 by lia. lia.
Qed.

Lemma new_pool_represents n st :
  0 < n → hsize = BufferHashTableSize n → ps_ok st →
  represents (mkSt (new_pool n) st) (λ t, ps_page st (ps_loc t)).
Proof.
  intros Hn Hhs Hok. unfold new_pool, InitFreeList.
  set (p0 := mkPool n (new_desc <$> seqZ 0 n) _ _ _ _ _). change (n_buffers p0) with n.
  set (p1 := with_first_free (-1) p0).
  assert (Hpos : 0 < BufferHashTableSize n) by by apply double_until_pos.
  assert (Hs1 : pool_shape p1).
  { split; cbn [n_buffers descriptors blocks clock_hand hash_table hash_table_size p1 p0 with_first_free]; try done.
    - rewrite length_fmap, length_seqZ. lia.
    - rewrite length_replicate. lia.
    - rewrite length_replicate. lia. }
  assert (Hd1 : ∀ i, in_range p1 i → desc p1 i = new_desc i).
  { intros i [Hi0 Hi1]. unfold desc. cbn. rewrite list_lookup_fmap.
    rewrite (lookup_seqZ_lt 0 n (Z.to_nat i)) by (cbn in Hi1; lia). cbn. f_equal. lia. }
  destruct (fold_free (seqZ 0 n) [] p1 Hs1) as (Hs & Hnq & Hb & Hh & Hsz & Hd & Hc).
  { apply Forall_forall. intros i Hi%elem_of_seqZ. unfold in_range. cbn. lia. }
  { rewrite app_nil_r. apply NoDup_seqZ. }
  { intros i Hi. by rewrite Hd1. }
  { cbn. lia. }
  set (q := foldl free_one p1 (reverse (seqZ 0 n))) in *.
  assert (Hrq : ∀ j, in_range q j ↔ in_range p1 j) by (intros j; unfold in_range; by rewrite Hnq).
  assert (Hdq : ∀ j, in_range q j → ∃ x, desc q j = with_free_next x (new_desc j)).
  { intros j Hj. apply Hrq in Hj. destruct (Hd j Hj) as [x ->]. exists x. by rewrite Hd1. }
  assert (Hno : ∀ j t, ¬ holds q j t).
  { intros j t (Hj & Ht & _). destruct (Hdq j Hj) as [x Hx]. by rewrite Hx in Ht. }
  assert (Hent : ∀ idx, entry (hash_table q) idx = empty_entry).
  { intros idx. rewrite Hh. unfold entry. cbn.
    destruct (replicate _ empty_entry !! idx) as [e|] eqn:E; [|done]. by apply lookup_replicate in E as [-> _]. }
  assert (Hinv : Inv (mkSt q st)).
  { split; cbn [pool store]; try done.
    - by rewrite Hsz.
    - intros i Hi. unfold page. rewrite Hb. cbn. apply Hrq in Hi as [Hi0 Hi1]. cbn in Hi1.
      rewrite lookup_replicate_2 by lia. apply length_replicate.
    - intros idx. by rewrite Hent.
    - intros i t Hh'. by destruct (Hno i t).
    - intros i Hi. destruct (Hdq i Hi) as [x ->]. done.
    - intros i t Hh'. by destruct (Hno i t).
    - intros i Hi. destruct (Hdq i Hi) as [x ->]. done.
    - intros i Hi. destruct (Hdq i Hi) as [x ->]. done.
    - eexists. exact Hc. }
  split; [done|]. intros t HT. by apply (logical_absent (mkSt q st) t).
Qed.

End refinement.

(** ** Examples

    The pool over the storage manager of [Smgr]. *)

#[local] Existing Instances Smgr.Smgr_PageStore Smgr.Smgr_laws.

(** A relation of two blocks: zeros, then sevens. *)
Definition sevens : list Z := Smgr.demo_page.
Definition demo_store : Smgr.Smgr :=
  exec (Smgr.mdextend Smgr.demo_rel kMain 1 sevens false)
    (exec (Smgr.mdextend Smgr.demo_rel kMain 0 zero_page false) Smgr.demo_smgr).
Definition demo_tag (b : Z) : BufferTag := mkBufferTag (node Smgr.demo_rel) kMain b.
Definition demo_tags (t : BufferTag) : Prop := t = demo_tag 0 ∨ t = demo_tag 1.

Lemma demo_store_ok :
  Smgr.smgr_ok demo_store ∧ Smgr.is_open Smgr.demo_rel demo_store ∧
  Smgr.block_at demo_store Smgr.demo_rel kMain 0 = Some zero_page ∧
  Smgr.block_at demo_store Smgr.demo_rel kMain 1 = Some sevens.
Proof.
  destruct Smgr.demo_ok as (Hok & Ho & Hend).
  assert (H0 : is_u32 0) by (split; lia). assert (H1 : is_u32 1) by (split; lia).
  destruct (Smgr.mdextend_run Smgr.demo_rel kMain 0 zero_page Smgr.demo_smgr false Hok Ho
    (Smgr.demo_place 0 H0) (length_replicate _ _) Hend) as (s1 & E1 & Hok1 & Ho1 & Hb1).
  assert (Hend1 : Smgr.at_end s1 Smgr.demo_rel kMain 1).
  { assert (s1 = exec (Smgr.mdextend Smgr.demo_rel kMain 0 zero_page false) Smgr.demo_smgr) as ->
      by (unfold exec; by rewrite E1). vm_compute. reflexivity. }
  destruct (Smgr.mdextend_run Smgr.demo_rel kMain 1 sevens s1 false Hok1 (proj2 (Ho1 _) Ho)
    (Smgr.demo_place 1 H1) (length_replicate _ _) Hend1) as (s2 & E2 & Hok2 & Ho2 & Hb2).
  assert (demo_store = s2) as -> by (unfold demo_store, exec; rewrite E1; cbn [snd]; by rewrite E2).
  split_and!; [done|by apply Ho2, Ho1| |].
  - rewrite Hb2 by (by apply Smgr.demo_place). rewrite decide_False by discriminate.
    rewrite Hb1 by (by apply Smgr.demo_place). by rewrite decide_True.
  - rewrite Hb2 by (by apply Smgr.demo_place). by rewrite decide_True.
Qed.

Lemma demo_T_valid t : demo_tags t → ps_valid (S := Smgr.Smgr) t ∧ block_num t ≠ kInvalidBlockNumber.
Proof. intros [-> | ->]; (split; [apply Smgr.demo_place; split; cbn; lia|discriminate]). Qed.

Lemma demo_T_loc t u :
  demo_tags t → demo_tags u → ps_loc (S := Smgr.Smgr) t = ps_loc (S := Smgr.Smgr) u → t = u.
Proof. intros [-> | ->] [-> | ->]; (done || discriminate). Qed.

(** With the identity as [std::hash], 16 buffers give the two blocks distinct slots. *)
Lemma demo_T_home t u :
  demo_tags t → demo_tags u → HashTableSlot id id 32 t = HashTableSlot id id 32 u → t = u.
Proof. intros [-> | ->] [-> | ->]; (done || (intros E; vm_compute in E; discriminate E)). Qed.

Definition demo_pages (t : BufferTag) : option (list Z) := ps_page (S := Smgr.Smgr) demo_store (ps_loc (S := Smgr.Smgr) t).

Lemma demo_pages_0 : demo_pages (demo_tag 0) = Some zero_page.
Proof. exact (proj1 (proj2 (proj2 demo_store_ok))). Qed.
Lemma demo_pages_1 : demo_pages (demo_tag 1) = Some sevens.
Proof. exact (proj2 (proj2 (proj2 demo_store_ok))). Qed.

Definition demo_st : @St Smgr.Smgr := mkSt (new_pool 16) demo_store.
Definition demo_ops : list op :=
  [OpWrite Smgr.demo_rel kMain 0 sevens; OpRead Smgr.demo_rel kMain 1; OpRead Smgr.demo_rel kMain 0].

Lemma demo_represents : represents id id demo_tags 32 demo_st demo_pages.
Proof.
  apply (new_pool_represents id id demo_tags 32 demo_T_valid demo_T_home 16 demo_store);
    [lia|reflexivity|exact (proj1 demo_store_ok)].
Qed.

Lemma demo_all t : demo_tags t → is_Some (demo_pages t).
Proof. intros [-> | ->]; [rewrite demo_pages_0|rewrite demo_pages_1]; eauto. Qed.

Lemma demo_pool_ops_ok : Forall (op_ok demo_tags) demo_ops.
Proof.
  apply Forall_cons; split; [split; [by left|apply length_replicate]|].
  apply Forall_cons; split; [split; [by right|done]|].
  apply Forall_cons; split; [split; [by left|done]|done].
Qed.

Lemma pool_refines_pages_witness :
  let '(outs, s') := run id id demo_ops demo_st in
  ∃ m', follows demo_ops outs demo_pages m' ∧ represents id id demo_tags 32 s' m' ∧
  ∃ s'', FlushAllDirtyBuffers s' = (Ret tt, s'') ∧
    ∀ t, demo_tags t → ps_page (S := Smgr.Smgr) (store s'') (ps_loc (S := Smgr.Smgr) t) = m' t.
Proof.
  exact (pool_refines_pages id id demo_tags 32 demo_T_valid demo_T_loc demo_T_home
    demo_ops demo_st demo_pages demo_represents demo_all demo_pool_ops_ok).
Defined.

(** Block 1 pinned in the first buffer. *)
Definition pinned_st : @St Smgr.Smgr := (run id id [OpPin Smgr.demo_rel kMain 1] demo_st).2.

Lemma pinned_represents :
  Inv id id demo_tags 32 pinned_st ∧ is_Some (logical id id pinned_st (demo_tag 0)).
Proof.
  pose proof (run_op_sim id id demo_tags 32 demo_T_valid demo_T_loc demo_T_home (OpPin Smgr.demo_rel kMain 1)
    demo_st demo_pages demo_represents demo_all ltac:(split; [by right|done])) as Hsim.
  unfold pinned_st. cbn [run]. destruct (run_op id id (OpPin Smgr.demo_rel kMain 1) demo_st) as [[r|e] s1]; cbn [snd];
    destruct Hsim as [_ [Hi Hl]]; (split; [exact Hi|]; rewrite Hl by (by left); apply demo_all; by left).
Qed.

Lemma pinned_buffer_stays_witness :
  let '(o, s') := ReadBuffer id id Smgr.demo_rel kMain 0 kReadNormal pinned_st in
  match o with
  | Ret b => holds (pool s') (b - 1) (demo_tag 0) ∧ 0 < refcount (desc (pool s') (b - 1)) ∧
             holds (pool s') 0 (demo_tag 1) ∧ page (pool s') 0 = page (pool pinned_st) 0
  | Ereport e => e = no_buffer
  end.
Proof.
  apply (pinned_buffer_stays id id demo_tags 32 demo_T_valid demo_T_loc demo_T_home pinned_st Smgr.demo_rel
           (demo_tag 0) 0 (demo_tag 1)).
  - exact (proj1 pinned_represents).
  - by left.
  - reflexivity.
  - vm_compute. eexists. reflexivity.
  - exact (proj2 pinned_represents).
  - split; [vm_compute; split; [discriminate|reflexivity]|split; vm_compute; reflexivity].
  - vm_compute. reflexivity.
Defined.

(** A pool over a relation without blocks. *)
Definition empty_rel_st : @St Smgr.Smgr := mkSt (new_pool 16) Smgr.demo_smgr.

Lemma empty_rel_inv :
  Inv id id demo_tags 32 empty_rel_st ∧ ps_page (S := Smgr.Smgr) Smgr.demo_smgr (ps_loc (S := Smgr.Smgr) (demo_tag 0)) = None.
Proof.
  split; [|vm_compute; reflexivity].
  apply (new_pool_represents id id demo_tags 32 demo_T_valid demo_T_home 16 Smgr.demo_smgr);
    [lia|reflexivity|exact (proj1 Smgr.demo_ok)].
Qed.

Lemma failed_read_stays_mapped_witness :
  let read := ReadBuffer id id Smgr.demo_rel kMain 0 kReadNormal in
  ∃ e s1, read empty_rel_st = (Ereport e, s1) ∧
    ((e = no_buffer ∧ unchanged id id demo_tags 32 empty_rel_st s1) ∨
     ∃ b s2, read s1 = (Ret b, s2) ∧ tag (desc (pool s2) (b - 1)) = demo_tag 0 ∧
             IsValid (desc (pool s2) (b - 1)) = false ∧ refcount (desc (pool s2) (b - 1)) = 2).
Proof.
  apply (failed_read_stays_mapped id id demo_tags 32 demo_T_valid demo_T_loc demo_T_home empty_rel_st (demo_tag 0)
    Smgr.demo_rel).
  - exact (proj1 empty_rel_inv).
  - by left.
  - intros i ([Hi0 Hi1] & Ht & _). cbn [pool empty_rel_st] in Hi1, Ht.
    assert (Hn : n_buffers (new_pool 16) = 16) by (vm_compute; reflexivity). rewrite Hn in Hi1.
    assert (Hall : forallb (λ i, negb (IsTagged (desc (new_pool 16) i))) (seqZ 0 16) = true) by (vm_compute; reflexivity).
    rewrite forallb_forall in Hall. specialize (Hall i).
    rewrite <- list_elem_of_In in Hall. rewrite elem_of_seqZ in Hall.
    apply negb_true_iff in Hall; [|lia]. congruence.
  - reflexivity.
  - exact (proj1 (proj2 Smgr.demo_ok)).
  - exact (proj2 empty_rel_inv).
Defined.

(** Two relations of different databases whose tags collide in the table of a
    pool with two buffers: [tag_a] and [tag_b] have home slot 0, [tag_c] has 2. *)
Definition rel_ab : RelFileNodeBackend := mkRelFileNodeBackend (mkRelFileNode 0 4 16384) 0.
Definition rel_c : RelFileNodeBackend := mkRelFileNodeBackend (mkRelFileNode 0 5 16384) 0.

Definition setup : M Smgr.Smgr unit :=
  modify (Smgr.smgropen rel_ab);; Smgr.mdcreate rel_ab kMain false;;
  Smgr.mdextend rel_ab kMain 0 zero_page false;; Smgr.mdextend rel_ab kMain 1 zero_page false;;
  modify (Smgr.smgropen rel_c);; Smgr.mdcreate rel_c kMain false;;
  Smgr.mdextend rel_c kMain 0 zero_page false.

Definition two_buffers : @St Smgr.Smgr := mkSt (new_pool 2) (exec setup Smgr.empty_smgr).

(** Evicting [tag_a] empties slot 0 of the hash table and cuts the probe chain
    of [tag_b], which is pinned and dirty in the pool: the next read of
    [tag_b] misses it and returns the old page from disk. *)
Theorem cut_probe_chain_loses_update :
  (run id id [OpRead rel_ab kMain 0; OpPin rel_ab kMain 1; OpWrite rel_ab kMain 1 sevens;
              OpRead rel_ab kMain 1; OpRead rel_c kMain 0; OpRead rel_ab kMain 1] two_buffers).1
  = [Ret zero_page; Ret zero_page; Ret zero_page; Ret sevens; Ret zero_page; Ret zero_page].
Proof. vm_compute. reflexivity. Qed.

(** One search reports that every buffer is pinned although none is. *)
Theorem unpinned_pool_reports_pinned :
  let p := pool (run id id [OpRead rel_ab kMain 0; OpRead rel_ab kMain 0; OpRead rel_ab kMain 1;
                            OpRead rel_ab kMain 1] two_buffers).2 in
  NumPinned p = 0 ∧ (FindVictimBuffer p).1 = -1.
Proof. vm_compute. done. Qed.

End BufSpec.
