(* ===== verification/HeapForm.v ===== *)
(** * Forming and deforming heap tuples

    The tuple layout of src/access/heap/heapam.cpp: alignment, the null
    bitmap, the data area, reading all attributes or one, replacing some, the
    system attributes; with the varlena headers of include/types/varlena.hpp
    and include/types/datum.hpp.

    A [Datum] is a 64-bit word or a pointer, represented by the bytes it points
    to.  A tuple is its header record and its memory by position; the positions
    of the header struct (0 to 22) are not read through the memory.
    [detoast_attr] (access/common/toast.cpp) is a parameter, and so are the
    bytes [palloc] returns, which it does not clear. *)

From stdpp Require Import base gmap list strings.
From S2P Require Import Prelude CString HeapTuple BufPage.

Module HeapForm.
Import HeapTuple.
Import BufPage (memcpy_in, read).

Inductive AttAlign := kChar | kShort | kInt | kDouble.
Inductive AttStorage := kPlain | kExternal | kExtended | kMain.

#[export] Instance AttStorage_eq_dec : EqDecision AttStorage.
Proof. solve_decision. Defined.

(** The fields of [FormData_pg_attribute] the layout and TOAST use. *)
Record Attr := mkAttr { attlen : Z; attbyval : bool; attalign : AttAlign; attstorage : AttStorage }.

(** [TupleDescData]: [natts] is the number of [attrs]. *)
Record TupleDescData := mkTupleDesc { attrs : list Attr }.
Definition natts (d : TupleDescData) : Z := Z.of_nat (length (attrs d)).

Inductive Datum := DVal (z : Z) | DRef (bytes : list Z).

#[global] Instance Datum_eq_dec : EqDecision Datum.
Proof. solve_decision. Defined.

(** ** Varlena headers *)

Definition kVarAttExternal : Z := 0x80000000.
Definition kVarAttCompressed : Z := 0x40000000.
Definition kVarAttSizeMask : Z := 0x3FFFFFFF.
Definition sizeof_varatt_external : Z := 16.

Definition VARATT_HEADER (text : list Z) : Z := of_le (take 4 text).
Definition VARATT_IS_EXTERNAL (text : list Z) : bool := has_flag (VARATT_HEADER text) kVarAttExternal.
Definition VARATT_IS_COMPRESSED (text : list Z) : bool :=
  negb (VARATT_IS_EXTERNAL text) && has_flag (VARATT_HEADER text) kVarAttCompressed.
Definition VARSIZE_ANY (text : list Z) : Z :=
  if VARATT_IS_EXTERNAL text then sizeof_varatt_external else Z.land (VARATT_HEADER text) kVarAttSizeMask.
Definition VARSIZE (text : list Z) : Z := VARSIZE_ANY text.

(** ** Alignment *)

Definition att_align (offset : Z) (align : AttAlign) : Z :=
  match align with
  | kChar => offset
  | kShort => Z.land (u32 (offset + 1)) (Z.lnot 1)
  | kInt => Z.land (u32 (offset + 3)) (Z.lnot 3)
  | kDouble => Z.land (u32 (offset + 7)) (Z.lnot 7)
  end.
Definition att_align_max (offset : Z) : Z := Z.land (u32 (offset + 7)) (Z.lnot 7).

(** ** Forming *)

(** The arrays [attrs], [values] and [isnull] in step; a null pointer for
    [isnull] means no nulls. *)
Abbreviation column := (Attr * Datum * bool)%type.
Definition columns (tupdesc : TupleDescData) (values : list Datum) (isnull : option (list bool)) : list column :=
  (λ '(i, a), (a, default (DVal 0) (values !! i), default false (l ← isnull; l !! i)))
    <$> imap pair (attrs tupdesc).

(** The bytes a datum contributes to the data area. *)
Definition datum_bytes (a : Attr) (v : Datum) : list Z :=
  match v with
  | DVal z => take (Z.to_nat (attlen a)) (to_le 8 z)
  | DRef b => if attlen a =? -1 then take (Z.to_nat (VARSIZE b)) b else take (Z.to_nat (attlen a)) b
  end.
Definition datum_size (a : Attr) (v : Datum) : Z :=
  if attlen a =? -1 then match v with DRef b => VARSIZE b | DVal _ => 0 end else attlen a.

Fixpoint data_size (cols : list column) (size : Z) : Z :=
  match cols with
  | [] => size
  | (a, v, null) :: rest =>
      if (null : bool) then data_size rest size
      else data_size rest (u32 (att_align size (attalign a) + datum_size a v))
  end.
Definition heap_compute_data_size (tupdesc : TupleDescData) (values : list Datum) (isnull : option (list bool)) : Z :=
  data_size (columns tupdesc values isnull) 0.

Definition any_null (cols : list column) : bool := existsb snd cols.

(** [null_bitmap[i / 8] |= 1 << (i % 8)] for the null columns from [i] on. *)
Fixpoint fill_bitmap (i : Z) (cols : list column) (m : Z → Z) : Z → Z :=
  match cols with
  | [] => m
  | (_, _, null) :: rest =>
      let at_ := kHeapTupleHeaderSize + i / 8 in
      fill_bitmap (i + 1) rest
        (if (null : bool) then λ k, if k =? at_ then u8 (Z.lor (m k) (Z.shiftl 1 (i `mod` 8))) else m k else m)
  end.

Definition kHeapHasVarWidth : Z := 0x0002.

(** The copy loop: the end of the data, the memory and the infomask. *)
Fixpoint fill_data (cols : list column) (offset : Z) (m : Z → Z) (infomask : Z) : Z * (Z → Z) * Z :=
  match cols with
  | [] => (offset, m, infomask)
  | (a, v, null) :: rest =>
      if (null : bool) then fill_data rest offset m infomask else
      let offset := att_align offset (attalign a) in
      fill_data rest (u32 (offset + datum_size a v)) (memcpy_in offset (datum_bytes a v) m)
        (if (attlen a =? -1) || negb (attbyval a) then u16 (Z.lor infomask kHeapHasVarWidth) else infomask)
  end.

Record HeapTupleData := mkTuple {
  t_len : Z;
  t_self : ItemPointerData;
  t_data : HeapTupleHeaderData;
  t_bytes : Z → Z;
}.

Definition no_tid : ItemPointerData := mkTid 0 0.

(** The header size with the null bitmap, rounded up. *)
Definition header_offset (hasnull : bool) (tupdesc : TupleDescData) : Z :=
  att_align_max (if hasnull then kHeapTupleHeaderSize + (natts tupdesc + 7) / 8 else kHeapTupleHeaderSize).

Definition zero_header : HeapTupleHeaderData := mkHeader 0 0 0 (mkTid 0 0) 0 0 0.

(** [memset(data, 0, hoff)] on fresh memory. *)
Definition cleared (hoff : Z) (junk : Z → Z) : Z → Z := λ k, if k <? hoff then 0 else junk k.

Definition heap_form_tuple (junk : Z → Z) (tupdesc : TupleDescData) (values : list Datum)
  (isnull : option (list bool)) : HeapTupleData :=
  let cols := columns tupdesc values isnull in
  let hasnull := any_null cols in
  let data_size := heap_compute_data_size tupdesc values isnull in
  let hoff := header_offset hasnull tupdesc in
  let header := HeapTupleHeaderSetNatts
                  (mkHeader 0 0 0 (mkTid 0 0) 0 0 (u8 hoff)) (natts tupdesc) in
  let mask := if hasnull then kHeapHasNull else 0 in
  let m := if hasnull then fill_bitmap 0 cols (cleared hoff junk) else cleared hoff junk in
  let '(_, m', mask') := fill_data cols hoff m mask in
  mkTuple (u32 (hoff + data_size)) no_tid (set_infomask mask' header) m'.

(** [heap_fill_tuple] writes the same layout into the caller's buffer. *)
Definition heap_fill_tuple (tupdesc : TupleDescData) (values : list Datum) (isnull : option (list bool))
  (data : Z → Z) : (Z → Z) * Z * Z :=
  let cols := columns tupdesc values isnull in
  let hasnull := any_null cols in
  let hoff := header_offset hasnull tupdesc in
  let m := if hasnull then fill_bitmap 0 cols (cleared hoff data) else cleared hoff data in
  let '(_, m', infomask) := fill_data cols hoff m (if hasnull then kHeapHasNull else 0) in
  (m', infomask, u8 hoff).

(** ** Reading *)

Section detoast.
Context (detoast_attr : list Z → list Z).

Definition null_bit (m : Z → Z) (i : Z) : bool :=
  has_flag (m (kHeapTupleHeaderSize + i / 8)) (Z.shiftl 1 (i `mod` 8)).

(** The varlena at a position: its header says how far it reaches. *)
Definition varlena_at (m : Z → Z) (offset : Z) : list Z := read m offset (VARSIZE (read m offset 4)).

Definition plain (raw : list Z) : list Z :=
  if VARATT_IS_EXTERNAL raw || VARATT_IS_COMPRESSED raw then detoast_attr raw else raw.

(** The datum of attribute [a] at its aligned position, and its size there. *)
Definition fetch (m : Z → Z) (a : Attr) (offset : Z) : Datum :=
  if attlen a =? -1 then DRef (plain (varlena_at m offset))
  else if attbyval a then DVal (of_le (read m offset (attlen a)))
  else DRef (read m offset (attlen a)).
Definition size_at (m : Z → Z) (a : Attr) (offset : Z) : Z :=
  if attlen a =? -1 then VARSIZE (read m offset 4) else attlen a.

Fixpoint deform_loop (hasnull : bool) (m : Z → Z) (i offset : Z) (l : list Attr) : list (Datum * bool) :=
  match l with
  | [] => []
  | a :: rest =>
      if hasnull && null_bit m i then (DVal 0, true) :: deform_loop hasnull m (i + 1) offset rest
      else let offset := att_align offset (attalign a) in
           (fetch m a offset, false) :: deform_loop hasnull m (i + 1) (u32 (offset + size_at m a offset)) rest
  end.

Definition heap_deform_tuple (tuple : HeapTupleData) (tupdesc : TupleDescData) : list (Datum * bool) :=
  deform_loop (has_flag (t_infomask (t_data tuple)) kHeapHasNull) (t_bytes tuple) 0 (t_hoff (t_data tuple))
    (attrs tupdesc).

(** The walk to attribute [n] (from [i] on).  The code does not check that the
    descriptor has [n] attributes; the model returns null behind its end. *)
Fixpoint getattr_loop (hasnull : bool) (m : Z → Z) (n i offset : Z) (l : list Attr) : Datum * bool :=
  match l with
  | [] => (DVal 0, true)
  | a :: rest =>
      if i =? n - 1 then
        if hasnull && null_bit m i then (DVal 0, true)
        else (fetch m a (att_align offset (attalign a)), false)
      else if hasnull && null_bit m i then getattr_loop hasnull m n (i + 1) offset rest
      else let offset := att_align offset (attalign a) in
           getattr_loop hasnull m n (i + 1) (u32 (offset + size_at m a offset)) rest
  end.

Definition heap_getattr (tuple : HeapTupleData) (attnum : Z) (tupdesc : TupleDescData) : Datum * bool :=
  if attnum <=? 0 then (DVal 0, true) else
  getattr_loop (has_flag (t_infomask (t_data tuple)) kHeapHasNull) (t_bytes tuple) attnum 0
    (t_hoff (t_data tuple)) (attrs tupdesc).

(** [if (do_replace == nullptr || do_replace[i])], [values] and [isnull] may be null. *)
Definition replace_at (values : option (list Datum)) (isnull : option (list bool)) (i : nat) : Datum * bool :=
  (match values with Some l => default (DVal 0) (l !! i) | None => DVal 0 end,
   match isnull with Some l => default false (l !! i) | None => false end).

Definition heap_modify_tuple (junk : Z → Z) (tuple : HeapTupleData) (tupdesc : TupleDescData)
  (values : option (list Datum)) (isnull do_replace : option (list bool)) : HeapTupleData :=
  let old := heap_deform_tuple tuple tupdesc in
  let new := imap (λ i o, if match do_replace with None => true | Some l => default false (l !! i) end
                          then replace_at values isnull i else o) old in
  heap_form_tuple junk tupdesc new.*1 (Some new.*2).

Definition heap_modify_tuple_by_cols (junk : Z → Z) (tuple : HeapTupleData) (tupdesc : TupleDescData)
  (ncols : Z) (values : option (list Datum)) (isnull : option (list bool)) : HeapTupleData :=
  let old := heap_deform_tuple tuple tupdesc in
  let new := imap (λ i o, if Z.of_nat i <? ncols then replace_at values isnull i else o) old in
  heap_form_tuple junk tupdesc new.*1 (Some new.*2).

End detoast.

(** ** Copies, nulls and system attributes *)

(** A copy has the same bytes up to [t_len]; what follows is fresh memory. *)
Definition heap_copytuple (junk : Z → Z) (tuple : HeapTupleData) : HeapTupleData :=
  mkTuple (t_len tuple) (t_self tuple) (t_data tuple) (λ k, if k <? t_len tuple then t_bytes tuple k else junk k).

Definition heap_attisnull (tuple : HeapTupleData) (attnum : Z) : bool :=
  if attnum <? 0 then false
  else if has_flag (t_infomask (t_data tuple)) kHeapHasNull then null_bit (t_bytes tuple) (attnum - 1)
  else false.

Definition minimal_tuple_from_heap_tuple := heap_copytuple.
Definition heap_tuple_from_minimal_tuple := heap_copytuple.

Inductive SysDatum := SysTid (tid : ItemPointerData) | SysWord (z : Z).

Definition kSelfItemPointerAttributeNumber : Z := -1.
Definition kMinTransactionIdAttributeNumber : Z := -2.
Definition kMaxTransactionIdAttributeNumber : Z := -3.
Definition kMinCommandIdAttributeNumber : Z := -4.
Definition kMaxCommandIdAttributeNumber : Z := -5.
Definition kTableOidAttributeNumber : Z := -6.

(** [std::to_string] of an [int]. *)
Definition int_to_string (z : Z) : string :=
  if z <? 0 then ("-" +:+ CString.of_chars (CString.print_digits 10 10 (- z)))%string
  else CString.of_chars (CString.print_digits 10 10 z).

Definition heap_tuple_buffer_getsysattr (tuple : HeapTupleData) (attnum : Z) : outcome SysDatum :=
  let header := t_data tuple in
  if attnum =? kSelfItemPointerAttributeNumber then Ret (SysTid (t_ctid header))
  else if attnum =? kMinTransactionIdAttributeNumber then Ret (SysWord (t_xmin header))
  else if attnum =? kMaxTransactionIdAttributeNumber then Ret (SysWord (t_xmax header))
  else if (attnum =? kMinCommandIdAttributeNumber) || (attnum =? kMaxCommandIdAttributeNumber)
  then Ret (SysWord (t_cid header))
  else if attnum =? kTableOidAttributeNumber then Ret (SysWord 0)
  else Ereport ("heap_tuple_buffer_getsysattr: unsupported system column " +:+ int_to_string attnum).

(** ** Alignment *)

(** Clearing the low [k] bits. *)
Lemma clear_low k x : 0 ≤ k → Z.land x (Z.lnot (2 ^ k - 1)) = 2 ^ k * (x / 2 ^ k).
Proof.
  intros Hk. replace (2 ^ k - 1) with (Z.ones k) by (rewrite Z.ones_equiv; lia).
  rewrite <- Z.ldiff_land, Z.ldiff_ones_r by done. rewrite Z.shiftl_mul_pow2, Z.shiftr_div_pow2 by done. lia.
Qed.

Definition align_bits (a : AttAlign) : Z := match a with kChar => 0 | kShort => 1 | kInt => 2 | kDouble => 3 end.

Lemma att_align_spec o a :
  0 ≤ o < 2 ^ 31 → att_align o a = 2 ^ align_bits a * ((o + (2 ^ align_bits a - 1)) / 2 ^ align_bits a).
Proof.
  intros Ho. destruct a; cbn [att_align align_bits].
  - change (2 ^ 0) with 1. rewrite Z.div_1_r. lia.
  - rewrite u32_small by (unfold is_u32; lia). apply (clear_low 1). lia.
  - rewrite u32_small by (unfold is_u32; lia). apply (clear_low 2). lia.
  - rewrite u32_small by (unfold is_u32; lia). apply (clear_low 3). lia.
Qed.

Lemma att_align_bounds o a : 0 ≤ o < 2 ^ 31 → o ≤ att_align o a ≤ o + 7.
Proof.
  intros Ho. rewrite att_align_spec by done.
  assert (Hp : 0 < 2 ^ align_bits a ≤ 8) by (by destruct a).
  pose proof (Z.div_mod (o + (2 ^ align_bits a - 1)) (2 ^ align_bits a) ltac:(lia)).
  pose proof (Z.mod_pos_bound (o + (2 ^ align_bits a - 1)) (2 ^ align_bits a) ltac:(lia)). lia.
Qed.

(** Alignment is the same from any base that is a multiple of 8. *)
Lemma att_align_base h o a :
  0 ≤ o → 0 ≤ h → 8 * h + o < 2 ^ 31 → att_align (8 * h + o) a = 8 * h + att_align o a.
Proof.
  intros Ho Hh Hs. rewrite !att_align_spec by lia.
  assert (∃ q, 8 * h = q * 2 ^ align_bits a) as [q Hq].
  { destruct a; cbn [align_bits]; [exists (8 * h)|exists (4 * h)|exists (2 * h)|exists h]; lia. }
  assert (Hp : 0 < 2 ^ align_bits a) by (by destruct a).
  replace (8 * h + o + (2 ^ align_bits a - 1)) with (o + (2 ^ align_bits a - 1) + q * 2 ^ align_bits a) by lia.
  rewrite Z.div_add by lia. lia.
Qed.

(** ** Well-formed columns *)

(** A datum that fits its attribute. *)
Definition wf_datum (a : Attr) (v : Datum) : Prop :=
  if attlen a =? -1 then ∃ b, v = DRef b ∧ 4 ≤ Z.of_nat (length b) ∧ VARSIZE b = Z.of_nat (length b)
  else if attbyval a then ∃ z, v = DVal z ∧ 1 ≤ attlen a ≤ 8 ∧ 0 ≤ z < 256 ^ attlen a
  else ∃ b, v = DRef b ∧ 1 ≤ attlen a ∧ Z.of_nat (length b) = attlen a.

Definition wf_column (c : column) : Prop := let '(a, v, null) := c in null = false → wf_datum a v.

(** Room for the data of the columns, whatever their alignment. *)
Definition weight (cols : list column) : Z :=
  foldr (λ '(a, v, null) acc, if (null : bool) then acc else 7 + datum_size a v + acc) 0 cols.

Lemma datum_bytes_length a v : wf_datum a v → Z.of_nat (length (datum_bytes a v)) = datum_size a v ∧ 1 ≤ datum_size a v.
Proof.
  unfold wf_datum, datum_bytes, datum_size. destruct (attlen a =? -1) eqn:E; to_prop.
  - intros (b & -> & Hb & Hs). rewrite length_take. lia.
  - destruct (attbyval a).
    + intros (z & -> & Hl & _). rewrite length_take, length_to_le. lia.
    + intros (b & -> & Hl & Hb). rewrite length_take. lia.
Qed.

Lemma weight_nonneg cols : Forall wf_column cols → 0 ≤ weight cols.
Proof.
  induction 1 as [|[[a v] []] cols Hc _ IH]; [done|exact IH|].
  destruct (datum_bytes_length a v (Hc eq_refl)). cbn [weight foldr]. fold (weight cols). lia.
Qed.

(** ** Reading what was written *)

Lemma read_agree m m' o n : (∀ k, o ≤ k < o + n → m k = m' k) → read m o n = read m' o n.
Proof.
  intros Hm. unfold read. apply list_fmap_ext. intros i k Hk. apply lookup_seqZ in Hk as [-> ?]. apply Hm. lia.
Qed.

Lemma read_take m o n k : 0 ≤ k ≤ n → take (Z.to_nat k) (read m o n) = read m o k.
Proof.
  intros Hk. unfold read. rewrite <- fmap_take. f_equal. apply list_eq. intros i.
  destruct (decide (i < Z.to_nat k)%nat).
  - by rewrite lookup_take_lt, !lookup_seqZ_lt by lia.
  - rewrite lookup_take_ge by lia. by rewrite lookup_seqZ_ge by lia.
Qed.

(** The datum a reader gets: out-of-line and compressed values are expanded. *)
Definition shown (detoast_attr : list Z → list Z) (a : Attr) (v : Datum) : Datum :=
  match v with DRef b => if attlen a =? -1 then DRef (plain detoast_attr b) else v | DVal _ => v end.

Lemma fetch_written det m a v o :
  wf_datum a v → (∀ k, o ≤ k < o + datum_size a v → m k = memcpy_in o (datum_bytes a v) (λ _, 0) k) →
  fetch det m a o = shown det a v ∧ size_at m a o = datum_size a v.
Proof.
  intros Hwf Hm. destruct (datum_bytes_length a v Hwf) as [Hlen Hpos].
  assert (Hread : read m o (datum_size a v) = datum_bytes a v).
  { rewrite (read_agree _ _ _ _ Hm), <- Hlen. apply BufPage.read_memcpy. }
  unfold wf_datum in Hwf. unfold fetch, size_at, shown, datum_bytes, datum_size in *.
  destruct (attlen a =? -1) eqn:E; to_prop.
  - destruct Hwf as (b & -> & Hb & Hs). rewrite take_ge in Hread by lia.
    assert (H4 : read m o 4 = take 4 b).
    { rewrite <- Hread. symmetry. apply (read_take m o _ 4). lia. }
    assert (Hv : VARSIZE (read m o 4) = VARSIZE b).
    { unfold VARSIZE, VARSIZE_ANY, VARATT_IS_EXTERNAL, VARATT_HEADER. rewrite H4, take_take. done. }
    split; [|done]. unfold varlena_at. by rewrite Hv, Hread.
  - destruct (attbyval a).
    + destruct Hwf as (z & -> & Hl & Hz). split; [|done]. rewrite Hread. f_equal.
      assert (Htk : ∀ n k z, (k ≤ n)%nat → take k (to_le n z) = to_le k z).
      { intros n. induction n as [|n IH]; intros [|k] z' Hk; cbn; try done; [lia|]. f_equal. apply IH. lia. }
      rewrite Htk, of_to_le by lia. rewrite Z2Nat.id by lia. by apply Z.mod_small.
    + destruct Hwf as (b & -> & _ & Hb). rewrite take_ge in Hread by lia. split; [|done]. by rewrite Hread.
Qed.

Lemma memcpy_in_outside o b m k : k < o ∨ o + Z.of_nat (length b) ≤ k → memcpy_in o b m k = m k.
Proof.
  intros Hk. unfold memcpy_in. destruct ((o <=? k) && (k <? o + Z.of_nat (length b))) eqn:E; [|done]. to_prop. lia.
Qed.

Lemma memcpy_in_inside o b m m' k :
  o ≤ k < o + Z.of_nat (length b) → memcpy_in o b m k = memcpy_in o b m' k.
Proof.
  intros Hk. unfold memcpy_in.
  by rewrite (proj2 (andb_true_iff _ _)) by (split; [apply Z.leb_le|apply Z.ltb_lt]; lia).
Qed.

Definition col_attr (c : column) : Attr := c.1.1.
Definition col_null (c : column) : bool := c.2.
Definition col_shown det (c : column) : Datum * bool :=
  if col_null c then (DVal 0, true) else (shown det (col_attr c) c.1.2, false).

(** The data loop writes between its start and its end only, and whoever sees
    those bytes and the null flags reads the columns back. *)
Lemma fill_data_spec cols o m mask :
  Forall wf_column cols → 0 ≤ o → o + weight cols < 2 ^ 31 →
  let '(o', m', _) := fill_data cols o m mask in
  o ≤ o' ≤ o + weight cols ∧ (∀ k, k < o ∨ o' ≤ k → m' k = m k) ∧
  ∀ det hasnull m2 i, (∀ k, o ≤ k < o' → m2 k = m' k) →
    (∀ j c, cols !! j = Some c → hasnull && null_bit m2 (i + Z.of_nat j) = col_null c) →
    deform_loop det hasnull m2 i o (col_attr <$> cols) = col_shown det <$> cols.
Proof.
  intros Hwf. revert o m mask. induction Hwf as [|[[a v] null] cols Hc Hwf IH]; intros o m mask Ho Hb.
  { cbn in *. split_and!; try lia; done. }
  pose proof (weight_nonneg cols Hwf) as Hw. cbn [fill_data]. destruct null.
  - cbn [weight foldr] in Hb. fold (weight cols) in Hb.
    specialize (IH o m mask Ho Hb). destruct (fill_data cols o m mask) as [[o' m'] mask'].
    destruct IH as (H1 & H2 & H3). split_and!; [lia|cbn; fold (weight cols); lia|done|].
    intros det hasnull m2 i Hm Hn. cbn [fmap list_fmap map col_attr fst deform_loop].
    pose proof (Hn 0%nat _ eq_refl) as Hn0. rewrite Z.add_0_r in Hn0. rewrite Hn0.
    cbn [col_null snd]. unfold col_shown at 1. cbn [col_null snd]. f_equal.
    apply H3; [done|]. intros j c Hj. rewrite <- (Hn (S j) c Hj). do 2 f_equal. lia.
  - cbn [weight foldr] in Hb. fold (weight cols) in Hb. specialize (Hc eq_refl).
    destruct (datum_bytes_length a v Hc) as [Hlen Hpos].
    assert (Ho31 : 0 ≤ o < 2 ^ 31) by lia.
    pose proof (att_align_bounds o (attalign a) Ho31) as Hal. set (p := att_align o (attalign a)) in *.
    rewrite (u32_small (p + datum_size a v)) by (unfold is_u32; lia).
    set (mask1 := if (attlen a =? -1) || negb (attbyval a) then u16 (Z.lor mask kHeapHasVarWidth) else mask).
    specialize (IH (p + datum_size a v) (memcpy_in p (datum_bytes a v) m) mask1 ltac:(lia) ltac:(lia)).
    destruct (fill_data cols (p + datum_size a v) (memcpy_in p (datum_bytes a v) m) mask1) as [[o' m'] mask'].
    destruct IH as (H1 & H2 & H3). split_and!; [lia|cbn; fold (weight cols); lia| |].
    { intros k Hk. rewrite H2 by lia. apply memcpy_in_outside. lia. }
    intros det hasnull m2 i Hm Hn. cbn [fmap list_fmap map col_attr fst deform_loop].
    pose proof (Hn 0%nat _ eq_refl) as Hn0. rewrite Z.add_0_r in Hn0. rewrite Hn0.
    cbn [col_null snd]. fold p. unfold col_shown at 1. cbn [col_null snd col_attr fst].
    destruct (fetch_written det m2 a v p Hc) as [Hf Hs].
    { intros k Hk. rewrite Hm by lia. rewrite H2 by lia. apply memcpy_in_inside. lia. }
    rewrite Hf, Hs, (u32_small (p + datum_size a v)) by (unfold is_u32; lia). f_equal.
    apply H3; [intros k Hk; apply Hm; lia|]. intros j c Hj. rewrite <- (Hn (S j) c Hj). do 2 f_equal. lia.
Qed.

(** The size computed before equals the space the loop uses. *)
Lemma fill_data_end cols h o m mask :
  Forall wf_column cols → 0 ≤ o → 0 ≤ h → 8 * h + o + weight cols < 2 ^ 31 →
  (fill_data cols (8 * h + o) m mask).1.1 = 8 * h + data_size cols o.
Proof.
  intros Hwf. revert o m mask. induction Hwf as [|[[a v] null] cols Hc Hwf IH]; intros o m mask Ho Hh Hb; [done|].
  pose proof (weight_nonneg cols Hwf) as Hw. cbn [fill_data data_size]. destruct null.
  - cbn [weight foldr] in Hb. fold (weight cols) in Hb. by apply IH.
  - cbn [weight foldr] in Hb. fold (weight cols) in Hb. destruct (datum_bytes_length a v (Hc eq_refl)) as [_ Hpos].
    pose proof (att_align_bounds o (attalign a) ltac:(lia)) as Hal.
    rewrite att_align_base by lia. rewrite !u32_small by (unfold is_u32; lia).
    rewrite <- Z.add_assoc. apply IH; lia.
Qed.

(** ** The null bitmap *)

Lemma has_shifted_bit x i : 0 ≤ i → has_flag x (Z.shiftl 1 i) = Z.testbit x i.
Proof. intros Hi. rewrite Z.shiftl_1_l. by apply has_flag_bit. Qed.

Lemma null_bit_testbit m i : null_bit m i = Z.testbit (m (kHeapTupleHeaderSize + i / 8)) (i `mod` 8).
Proof. apply has_shifted_bit. pose proof (Z.mod_pos_bound i 8). lia. Qed.

Lemma u8_lor_bit x i j :
  0 ≤ x < 256 → 0 ≤ i < 8 → 0 ≤ j → Z.testbit (u8 (Z.lor x (Z.shiftl 1 i))) j = Z.testbit x j || (j =? i).
Proof.
  intros Hx Hi Hj. unfold u8. destruct (decide (j < 8)).
  - rewrite Z.mod_pow2_bits_low by lia. rewrite Z.lor_spec, Z.shiftl_1_l, Z.pow2_bits_eqb by lia.
    by rewrite (Z.eqb_sym i j).
  - rewrite Z.mod_pow2_bits_high by lia. rewrite (proj2 (Z.eqb_neq j i)) by lia.
    rewrite orb_false_r. symmetry. destruct (decide (x = 0)) as [->|]; [apply Z.bits_0|].
    apply Z.bits_above_log2; [lia|]. apply Z.log2_lt_pow2; [lia|].
    apply (Z.lt_le_trans _ (2 ^ 8)); [lia|]. apply Z.pow_le_mono_r; lia.
Qed.

Lemma fill_bitmap_spec cols i m :
  0 ≤ i → (∀ k, 0 ≤ m k < 256 ∨ k < kHeapTupleHeaderSize ∨ kHeapTupleHeaderSize + (i + Z.of_nat (length cols) + 7) / 8 ≤ k) →
  let m' := fill_bitmap i cols m in
  (∀ j, 0 ≤ j < i + Z.of_nat (length cols) →
     null_bit m' j = null_bit m j || (if decide (i ≤ j) then default false (col_null <$> cols !! Z.to_nat (j - i)) else false)) ∧
  (∀ k, kHeapTupleHeaderSize + (i + Z.of_nat (length cols) + 7) / 8 ≤ k → m' k = m k).
Proof.
  revert i m. induction cols as [|[[a v] null] cols IH]; intros i m Hi Hm; cbv zeta.
  { cbn [fill_bitmap length] in *. split; [|done]. intros j Hj. rewrite decide_False by lia. by rewrite orb_false_r. }
  cbn [fill_bitmap]. set (at_ := kHeapTupleHeaderSize + i / 8).
  set (m1 := if null then λ k, if k =? at_ then u8 (Z.lor (m k) (Z.shiftl 1 (i `mod` 8))) else m k else m).
  assert (Hend : i + Z.of_nat (length ((a, v, null) :: cols)) = i + 1 + Z.of_nat (length cols)) by (cbn [length]; lia).
  rewrite Hend in *. assert (Hat : at_ < kHeapTupleHeaderSize + (i + 1 + Z.of_nat (length cols) + 7) / 8).
  { subst at_. assert (i / 8 < (i + 1 + Z.of_nat (length cols) + 7) / 8); [|lia].
    apply (Z.lt_le_trans _ ((i + 1 * 8) / 8)); [rewrite Z.div_add by lia; lia|]. apply Z.div_le_mono; lia. }
  assert (Hat0 : kHeapTupleHeaderSize ≤ at_) by (subst at_; pose proof (Z.div_pos i 8); lia).
  assert (Hx : 0 ≤ m at_ < 256) by (destruct (Hm at_); lia).
  destruct (IH (i + 1) m1 ltac:(lia)) as [IH1 IH2].
  { intros k. destruct (Hm k) as [Hk|Hk]; [|by right]. left. subst m1. destruct null; [|done].
    destruct (k =? at_); [apply u8_range|done]. }
  split.
  - intros j Hj. rewrite IH1 by done.
    assert (Hbit : null_bit m1 j = null_bit m j || (null && (j =? i))).
    { rewrite !null_bit_testbit. subst m1. destruct null; [|by rewrite orb_false_r].
      destruct (kHeapTupleHeaderSize + j / 8 =? at_) eqn:Ek; to_prop.
      - rewrite Ek, u8_lor_bit; [|done|apply Z.mod_pos_bound; lia|apply Z.mod_pos_bound; lia]. f_equal. cbn [andb].
        destruct (j =? i) eqn:Eji; to_prop; [subst j; by apply Z.eqb_eq|]. apply Z.eqb_neq. intros Hmod. apply Eji.
        rewrite (Z.div_mod j 8), (Z.div_mod i 8) by lia. subst at_. lia.
      - rewrite (proj2 (Z.eqb_neq j i)); [by rewrite orb_false_r|]. intros ->. done. }
    rewrite Hbit. destruct (decide (j = i)) as [->|Hne].
    + rewrite decide_False by lia. rewrite decide_True by lia. rewrite Z.sub_diag. cbn.
      rewrite Z.eqb_refl, andb_true_r. by rewrite orb_false_r.
    + rewrite (proj2 (Z.eqb_neq j i)) by done. rewrite andb_false_r, orb_false_r. f_equal.
      destruct (decide (i + 1 ≤ j)).
      * rewrite decide_True by lia. replace (Z.to_nat (j - i)) with (S (Z.to_nat (j - (i + 1)))) by lia. done.
      * by rewrite decide_False by lia.
  - intros k Hk. rewrite IH2 by done. subst m1. destruct null; [|done]. by rewrite (proj2 (Z.eqb_neq k at_)) by lia.
Qed.

(** ** The round trip *)

Lemma columns_attrs tupdesc values isnull : col_attr <$> columns tupdesc values isnull = attrs tupdesc.
Proof.
  unfold columns. rewrite <- list_fmap_compose. apply list_eq. intros i.
  rewrite list_lookup_fmap, list_lookup_imap. by destruct (attrs tupdesc !! i).
Qed.

Lemma length_columns tupdesc values isnull : length (columns tupdesc values isnull) = length (attrs tupdesc).
Proof. by rewrite <- (columns_attrs tupdesc values isnull), length_fmap. Qed.

Lemma header_offset_spec hasnull tupdesc :
  natts tupdesc ≤ 1600 →
  ∃ h, header_offset hasnull tupdesc = 8 * h ∧ 0 ≤ h < 32 ∧ kHeapTupleHeaderSize ≤ 8 * h ∧
       (hasnull = true → kHeapTupleHeaderSize + (natts tupdesc + 7) / 8 ≤ 8 * h).
Proof.
  intros Hn. unfold header_offset, kHeapTupleHeaderSize.
  set (x := if hasnull then 23 + (natts tupdesc + 7) / 8 else 23).
  assert (Hd : 0 ≤ (natts tupdesc + 7) / 8 ≤ 200).
  { unfold natts in *. assert ((Z.of_nat (length (attrs tupdesc)) + 7) / 8 < 201) by (apply Z.div_lt_upper_bound; lia).
    split; [apply Z.div_pos; lia|lia]. }
  assert (Hx : 23 ≤ x ≤ 223) by (subst x; destruct hasnull; lia).
  exists ((x + 7) / 8). unfold att_align_max. rewrite u32_small by (unfold is_u32; lia).
  pose proof (Z.div_mod (x + 7) 8 ltac:(lia)). pose proof (Z.mod_pos_bound (x + 7) 8 ltac:(lia)).
  split; [apply (clear_low 3); lia|]. split; [lia|]. split; [lia|]. intros Ht. subst x. rewrite Ht in *. lia.
Qed.

Lemma fill_data_mask cols o m mask :
  has_flag (fill_data cols o m mask).2 kHeapHasNull = has_flag mask kHeapHasNull.
Proof.
  revert o m mask. induction cols as [|[[a v] []] cols IH]; intros o m mask; [done|apply IH|].
  cbn [fill_data]. rewrite IH. case_match; [|done]. unfold has_flag, kHeapHasNull.
  change 1 with (2 ^ 0). rewrite !flag_bit by lia. unfold u16. rewrite Z.mod_pow2_bits_low by lia.
  rewrite Z.lor_spec. by rewrite orb_false_r.
Qed.

Lemma any_null_false cols j c : any_null cols = false → cols !! j = Some c → col_null c = false.
Proof.
  intros Ha Hj. apply not_true_iff_false. intros Ht. apply not_true_iff_false in Ha. apply Ha.
  apply existsb_exists. exists c. split; [|done]. apply list_elem_of_In. by eapply list_elem_of_lookup_2.
Qed.

(** The flags a reader finds are the nulls that were written. *)
Lemma formed_nulls cols hoff junk m' j c :
  (any_null cols = true → kHeapTupleHeaderSize + (Z.of_nat (length cols) + 7) / 8 ≤ hoff) →
  (∀ k, kHeapTupleHeaderSize ≤ k < hoff → m' k = (if any_null cols then fill_bitmap 0 cols (cleared hoff junk) else cleared hoff junk) k) →
  cols !! j = Some c → any_null cols && null_bit m' (0 + Z.of_nat j) = col_null c.
Proof.
  intros Hroom Hm Hj. destruct (any_null cols) eqn:Ea; [|by rewrite (any_null_false cols j c)].
  specialize (Hroom eq_refl). apply lookup_lt_Some in Hj as Hlt.
  assert (Hpos : kHeapTupleHeaderSize + Z.of_nat j / 8 < hoff).
  { assert (Z.of_nat j / 8 < (Z.of_nat (length cols) + 7) / 8); [|lia].
    apply (Z.lt_le_trans _ ((Z.of_nat j + 1 * 8) / 8)); [rewrite Z.div_add by lia; lia|]. apply Z.div_le_mono; lia. }
  destruct (fill_bitmap_spec cols 0 (cleared hoff junk) ltac:(lia)) as [Hbits _].
  { intros k. unfold cleared. destruct (k <? hoff) eqn:Ek; to_prop; [left; lia|right; right]. rewrite Z.add_0_l; lia. }
  specialize (Hbits (Z.of_nat j) ltac:(lia)). rewrite decide_True in Hbits by lia.
  rewrite Z.sub_0_r, Nat2Z.id, Hj in Hbits. cbn [fmap option_fmap option_map default from_option] in Hbits.
  cbn [andb]. rewrite Z.add_0_l, null_bit_testbit, Hm, <- null_bit_testbit, Hbits
    by (pose proof (Z.div_pos (Z.of_nat j) 8); lia).
  rewrite null_bit_testbit. unfold cleared. rewrite (proj2 (Z.ltb_lt _ _)) by done. rewrite Z.bits_0. done.
Qed.

(** Whoever sees the status bits, the header size and the bytes behind the
    header of a formed tuple reads its values. *)
Lemma form_deform det junk tupdesc values isnull :
  let cols := columns tupdesc values isnull in
  Forall wf_column cols → natts tupdesc ≤ 1600 → weight cols < 2 ^ 30 →
  let tuple := heap_form_tuple junk tupdesc values isnull in
  (∀ tid h2 m2, t_infomask h2 = t_infomask (t_data tuple) → t_hoff h2 = t_hoff (t_data tuple) →
     (∀ k, kHeapTupleHeaderSize ≤ k < t_len tuple → m2 k = t_bytes tuple k) →
     heap_deform_tuple det (mkTuple (t_len tuple) tid h2 m2) tupdesc = col_shown det <$> cols) ∧
  t_len tuple = t_hoff (t_data tuple) + heap_compute_data_size tupdesc values isnull ∧
  (∀ k, t_len tuple ≤ k → t_bytes tuple k = junk k) ∧ kHeapTupleHeaderSize ≤ t_len tuple.
Proof.
  intros cols Hwf Hn Hw tuple. pose proof (weight_nonneg cols Hwf) as Hw0.
  destruct (header_offset_spec (any_null cols) tupdesc Hn) as (h & Hh & Hh32 & Hh23 & Hroom).
  pose proof (length_columns tupdesc values isnull) as Hlen. fold cols in Hlen.
  subst tuple. unfold heap_form_tuple. fold cols. rewrite Hh.
  set (m := if any_null cols then fill_bitmap 0 cols (cleared (8 * h) junk) else cleared (8 * h) junk).
  set (mask := if any_null cols then kHeapHasNull else 0).
  pose proof (fill_data_spec cols (8 * h) m mask Hwf ltac:(lia) ltac:(lia)) as Hspec.
  pose proof (fill_data_end cols h 0 m mask Hwf ltac:(lia) ltac:(lia) ltac:(lia)) as Hend.
  pose proof (fill_data_mask cols (8 * h) m mask) as Hmask. rewrite Z.add_0_r in Hend.
  destruct (fill_data cols (8 * h) m mask) as [[o' m'] mask']. cbn [fst snd] in *.
  destruct Hspec as ([Ho' Ho2] & Hout & Hback).
  assert (Hu8 : u8 (8 * h) = 8 * h) by (apply Z.mod_small; lia).
  assert (Hsize : u32 (8 * h + heap_compute_data_size tupdesc values isnull) = o').
  { unfold heap_compute_data_size. fold cols. rewrite <- Hend. apply u32_small. unfold is_u32. lia. }
  cbn [t_len t_bytes t_data t_hoff set_infomask HeapTupleHeaderSetNatts set_infomask2].
  split_and!.
  - intros tid h2 m2 Hi2 Ho2' Hm2. rewrite Hsize in Hm2. unfold heap_deform_tuple. cbn [t_data t_bytes].
    cbn [t_infomask set_infomask] in Hi2. rewrite Hi2, Ho2'.
    rewrite Hmask, Hu8, <- (columns_attrs tupdesc values isnull). fold cols.
    assert (has_flag mask kHeapHasNull = any_null cols) as -> by (subst mask; by destruct (any_null cols)).
    apply Hback; [intros k Hk; apply Hm2; lia|]. intros j c Hj.
    eapply (formed_nulls cols (8 * h) junk); [|intros k Hk; rewrite Hm2 by lia; apply Hout; lia|done].
    unfold natts in Hroom. rewrite <- Hlen in Hroom. done.
  - rewrite Hsize, Hu8. by rewrite Hend.
  - intros k Hk. rewrite Hsize in Hk. rewrite Hout by lia. subst m.
    assert (Hc : cleared (8 * h) junk k = junk k) by (unfold cleared; by rewrite (proj2 (Z.ltb_ge k (8 * h))) by lia).
    destruct (any_null cols) eqn:Ea; [|done]. specialize (Hroom eq_refl).
    destruct (fill_bitmap_spec cols 0 (cleared (8 * h) junk) ltac:(lia)) as [_ Hb].
    { intros x. unfold cleared. destruct (x <? 8 * h) eqn:Ek; to_prop; [left; lia|right; right].
      unfold natts in Hroom. rewrite <- Hlen in Hroom. rewrite Z.add_0_l; lia. }
    rewrite Hb; [done|]. unfold natts in Hroom. rewrite <- Hlen in Hroom. rewrite Z.add_0_l; lia.
  - rewrite Hsize. lia.
Qed.

(** forming a tuple and deforming it gives the values back.  For every
    descriptor of at most 1600 attributes (by value, by reference or varlena,
    with any alignment), every choice of nulls and whatever the allocated
    memory held, [heap_deform_tuple] of [heap_form_tuple] returns each value,
    with out-of-line and compressed ones expanded, and null exactly for the
    nulls; the length is the header size plus the size computed in advance,
    and nothing is written past it. *)
Theorem form_deform_roundtrip det junk tupdesc values isnull :
  let cols := columns tupdesc values isnull in
  Forall wf_column cols → natts tupdesc ≤ 1600 → weight cols < 2 ^ 30 →
  let tuple := heap_form_tuple junk tupdesc values isnull in
  heap_deform_tuple det tuple tupdesc = col_shown det <$> cols ∧
  t_len tuple = t_hoff (t_data tuple) + heap_compute_data_size tupdesc values isnull ∧
  (∀ k, t_len tuple ≤ k → t_bytes tuple k = junk k).
Proof.
  intros cols Hwf Hn Hw tuple. destruct (form_deform det junk tupdesc values isnull Hwf Hn Hw) as (H1 & H2 & H3 & _).
  split_and!; [|done..]. by apply (H1 (t_self tuple) (t_data tuple) (t_bytes tuple)).
Qed.

Lemma getattr_loop_nth det hasnull m n i o l :
  0 ≤ i ≤ n - 1 →
  getattr_loop det hasnull m n i o l =
  default (DVal 0, true) (deform_loop det hasnull m i o l !! Z.to_nat (n - 1 - i)).
Proof.
  revert i o. induction l as [|a l IH]; intros i o Hi; [done|]. cbn [getattr_loop deform_loop].
  destruct (i =? n - 1) eqn:E; to_prop.
  - replace (n - 1 - i) with 0 by lia. by destruct (hasnull && null_bit m i).
  - replace (Z.to_nat (n - 1 - i)) with (S (Z.to_nat (n - 1 - (i + 1)))) by lia.
    destruct (hasnull && null_bit m i); cbn; by rewrite IH by lia.
Qed.

(** reading one attribute agrees with deforming the whole tuple, for
    every tuple (not only formed ones) and every attribute number of the
    descriptor; any other number is null. *)
Theorem getattr_agrees_with_deform det tuple tupdesc attnum :
  heap_getattr det tuple attnum tupdesc =
  if attnum <=? 0 then (DVal 0, true)
  else default (DVal 0, true) (heap_deform_tuple det tuple tupdesc !! Z.to_nat (attnum - 1)).
Proof.
  unfold heap_getattr. destruct (attnum <=? 0) eqn:E; to_prop; [done|].
  unfold heap_deform_tuple. rewrite getattr_loop_nth by lia. do 3 f_equal. lia.
Qed.

(** A copied tuple has the same values, whatever memory the copy was put in. *)
Theorem copytuple_keeps_values det junk junk' tupdesc values isnull :
  let cols := columns tupdesc values isnull in
  Forall wf_column cols → natts tupdesc ≤ 1600 → weight cols < 2 ^ 30 →
  let tuple := heap_form_tuple junk tupdesc values isnull in
  heap_deform_tuple det (heap_copytuple junk' tuple) tupdesc = heap_deform_tuple det tuple tupdesc.
Proof.
  intros cols Hwf Hn Hw tuple. destruct (form_deform det junk tupdesc values isnull Hwf Hn Hw) as (H1 & _).
  fold tuple in H1. unfold heap_copytuple. rewrite H1 by first [done|intros k [_ Hk]; by rewrite (proj2 (Z.ltb_lt k _))].
  symmetry. by apply (H1 (t_self tuple) (t_data tuple) (t_bytes tuple)).
Qed.

(** a system attribute is a header field for the six known numbers, and
    every other number is an error that names it. *)
Theorem getsysattr_cases tuple attnum :
  heap_tuple_buffer_getsysattr tuple attnum =
  match attnum with
  | -1 => Ret (SysTid (t_ctid (t_data tuple)))
  | -2 => Ret (SysWord (t_xmin (t_data tuple)))
  | -3 => Ret (SysWord (t_xmax (t_data tuple)))
  | -4 | -5 => Ret (SysWord (t_cid (t_data tuple)))
  | -6 => Ret (SysWord 0)
  | _ => Ereport ("heap_tuple_buffer_getsysattr: unsupported system column " +:+ int_to_string attnum)
  end.
Proof.
  destruct attnum as [|p|p]; [done|done|]. do 3 (destruct p as [p|p|]; try done).
Qed.

(** An [int4], a [text] and a nullable [int8]. *)
Definition demo_desc : TupleDescData :=
  mkTupleDesc [mkAttr 4 true kInt kPlain; mkAttr (-1) false kInt kExtended; mkAttr 8 true kDouble kPlain].
Definition demo_values : list Datum := [DVal 7; DRef [6; 0; 0; 0; 104; 105]; DVal 0].
Definition demo_nulls : option (list bool) := Some [false; false; true].

Lemma demo_wf : Forall wf_column (columns demo_desc demo_values demo_nulls).
Proof.
  repeat (apply Forall_cons; split); [intros _|intros _|done|done].
  - exists 7. split; [done|]. cbn [attlen]. lia.
  - exists [6; 0; 0; 0; 104; 105]. split_and!; [done|cbn; lia|vm_compute; reflexivity].
Qed.

Lemma form_deform_roundtrip_witness :
  let tuple := heap_form_tuple (λ _, 255) demo_desc demo_values demo_nulls in
  heap_deform_tuple id tuple demo_desc = col_shown id <$> columns demo_desc demo_values demo_nulls ∧
  t_len tuple = t_hoff (t_data tuple) + heap_compute_data_size demo_desc demo_values demo_nulls ∧
  (∀ k, t_len tuple ≤ k → t_bytes tuple k = 255).
Proof.
  apply (form_deform_roundtrip id (λ _, 255) demo_desc demo_values demo_nulls demo_wf); vm_compute;
    (reflexivity || discriminate).
Defined.

Example demo_deformed :
  heap_deform_tuple id (heap_form_tuple (λ _, 255) demo_desc demo_values demo_nulls) demo_desc =
  [(DVal 7, false); (DRef [6; 0; 0; 0; 104; 105], false); (DVal 0, true)].
Proof. vm_compute. reflexivity. Qed.

(** A tuple formed before a column was added: the reader goes by the
    descriptor, not by the number of attributes in the header, and reads the
    new column from the bytes behind the tuple instead of null. *)
Theorem added_column_reads_past_end :
  let old := mkTupleDesc [mkAttr 4 true kInt kPlain] in
  let new := mkTupleDesc [mkAttr 4 true kInt kPlain; mkAttr 4 true kInt kPlain] in
  let tuple := heap_form_tuple (λ _, 255) old [DVal 7] None in
  HeapTupleHeaderGetNatts (t_data tuple) = 1 ∧ t_len tuple = 28 ∧
  heap_deform_tuple id tuple new = [(DVal 7, false); (DVal 4294967295, false)].
Proof. vm_compute. done. Qed.

End HeapForm.
