(* ===== verification/MultiXact.v ===== *)
(** * Multixacts

    Models src/transaction/multixact.cpp: ids for sets of transactions that
    lock a row together.  Two SLRUs hold an array of start offsets indexed by
    id and an array of 8-byte member entries; the members of an id reach from
    its offset to the next id's.  A control file keeps the two counters over a
    restart.

    The two SLRUs live in different directories: each has its own files, and
    the control file is separate. *)

From stdpp Require Import base gmap list strings.
From S2P Require Import Prelude Transam Slru.
Import Transam Slru.

Module MultiXact.

Record MultiXactMember := mkMember { mx_xid : Z; mx_status : Z }.
#[global] Instance MultiXactMember_eq_dec : EqDecision MultiXactMember.
Proof. solve_decision. Defined.

Definition kFirstMultiXactId : Z := 1.
Definition kInvalidMultiXactId : Z := 0.
Definition kMultiXactOffsetsPerPage : Z := kSlruPageSize / 4.
Definition kMultiXactMemberStride : Z := 8.

Record multixact := mkMx {
  OffsetsCtl : option slru;        (* null before initialization *)
  MembersCtl : option slru;
  NextMultiXactIdVar : Z;
  NextMemberOffset : Z;
  control_file : option (list Z);  (* <offsets_dir>/multixact_control *)
}.

Definition with_offsets (o : option slru) (s : multixact) : multixact :=
  mkMx o (MembersCtl s) (NextMultiXactIdVar s) (NextMemberOffset s) (control_file s).
Definition with_members (o : option slru) (s : multixact) : multixact :=
  mkMx (OffsetsCtl s) o (NextMultiXactIdVar s) (NextMemberOffset s) (control_file s).
Definition with_counters (multi off : Z) (s : multixact) : multixact :=
  mkMx (OffsetsCtl s) (MembersCtl s) multi off (control_file s).

(** [ControlFilePath] is empty without a directory. *)
Definition has_control (s : multixact) : bool :=
  match OffsetsCtl s with Some c => negb (bool_decide (disk_dir (ctl c) = "")) | None => false end.

Definition WriteControlFile (s : multixact) : multixact :=
  if has_control s
  then mkMx (OffsetsCtl s) (MembersCtl s) (NextMultiXactIdVar s) (NextMemberOffset s)
         (Some (to_le 4 (NextMultiXactIdVar s) ++ to_le 4 (NextMemberOffset s)))
  else s.

Definition ReadControlFile (s : multixact) : multixact :=
  if has_control s then
    match control_file s with
    | Some bytes => if (8 <=? length bytes)%nat
                    then with_counters (of_le (take 4 bytes)) (of_le (take 4 (drop 4 bytes))) s else s
    | None => s
    end
  else s.

Definition offset_page (multi : Z) : Z := i32 (multi / kMultiXactOffsetsPerPage).
Definition offset_pos (multi : Z) : nat := Z.to_nat (i32 (multi `mod` kMultiXactOffsetsPerPage) * 4).

Definition ReadOffset (multi : Z) (s : multixact) : Z * multixact :=
  match OffsetsCtl s with
  | None => (0, s)
  | Some c => let '(bytes, c') := SimpleLruRead (offset_page multi) (offset_pos multi) 4 c in
              (of_le bytes, with_offsets (Some c') s)
  end.

Definition WriteOffset (multi off : Z) (s : multixact) : multixact :=
  match OffsetsCtl s with
  | None => s
  | Some c => with_offsets (Some (SimpleLruWrite (offset_page multi) (offset_pos multi) (to_le 4 off) c)) s
  end.

Definition member_page (off : Z) : Z := i32 (off / kSlruPageSize).
Definition member_pos (off : Z) : nat := Z.to_nat (i32 (off `mod` kSlruPageSize)).

Definition encode_member (m : MultiXactMember) : list Z := to_le 4 (mx_xid m) ++ [mx_status m; 0; 0; 0].
Definition decode_member (b : list Z) : MultiXactMember := mkMember (of_le (take 4 b)) (default 0 (b !! 4%nat)).

Definition WriteMember (off : Z) (m : MultiXactMember) (s : multixact) : multixact :=
  match MembersCtl s with
  | None => s
  | Some c => with_members (Some (SimpleLruWrite (member_page off) (member_pos off) (encode_member m) c)) s
  end.

Definition ReadMember (off : Z) (s : multixact) : MultiXactMember * multixact :=
  match MembersCtl s with
  | None => (mkMember 0 0, s)
  | Some c => let '(bytes, c') := SimpleLruRead (member_page off) (member_pos off) 8 c in
              (decode_member bytes, with_members (Some c') s)
  end.

(** The files of an SLRU that is freed stay on disk. *)
Definition freed_files (o : option slru) (fs : gmap string (list Z)) : gmap string (list Z) :=
  match o with Some c => SimpleLruFree c | None => fs end.

(** [fs_off] and [fs_mem] are the files found when nothing was open. *)
Definition InitializeMultiXact (offsets_dir members_dir : string) (fs_off fs_mem : gmap string (list Z))
  (s : multixact) : multixact :=
  ReadControlFile
    (mkMx (Some (mkSlru (SimpleLruInit "multixact_offsets" 16 offsets_dir) (freed_files (OffsetsCtl s) fs_off)))
          (Some (mkSlru (SimpleLruInit "multixact_members" 16 members_dir) (freed_files (MembersCtl s) fs_mem)))
          kFirstMultiXactId 0 (control_file s)).

Definition ResetMultiXact (s : multixact) : multixact :=
  mkMx (SimpleLruReset <$> OffsetsCtl s) (SimpleLruReset <$> MembersCtl s) kFirstMultiXactId 0 (control_file s).

Definition FlushMultiXact (s : multixact) : multixact :=
  WriteControlFile (mkMx (SimpleLruFlush <$> OffsetsCtl s) (SimpleLruFlush <$> MembersCtl s)
                      (NextMultiXactIdVar s) (NextMemberOffset s) (control_file s)).
Definition ShutdownMultiXact : multixact → multixact := FlushMultiXact.

Definition append_member (s : multixact) (m : MultiXactMember) : multixact :=
  let s' := WriteMember (NextMemberOffset s) m s in
  with_counters (NextMultiXactIdVar s') (u32 (NextMemberOffset s' + kMultiXactMemberStride)) s'.

Definition MultiXactIdCreate (members : list MultiXactMember) (s : multixact) : Z * multixact :=
  let multi := NextMultiXactIdVar s in
  let s1 := with_counters (u32 (multi + 1)) (NextMemberOffset s) s in
  (multi, foldl append_member (WriteOffset multi (NextMemberOffset s1) s1) members).

Definition MultiXactIdIsValid (multi : Z) (s : multixact) : bool :=
  negb (multi =? kInvalidMultiXactId) && (multi <? NextMultiXactIdVar s).

(** The loop [off + 8 <= end] on [uint32_t]; [None] when the fuel runs out. *)
Fixpoint read_members (fuel : nat) (off end_ : Z) (s : multixact) : option (list MultiXactMember * multixact) :=
  match fuel with
  | O => None
  | S fuel' =>
      if u32 (off + kMultiXactMemberStride) <=? end_ then
        let '(m, s1) := ReadMember off s in
        '(ms, s2) ← read_members fuel' (u32 (off + kMultiXactMemberStride)) end_ s1;
        Some (m :: ms, s2)
      else Some ([], s)
  end.

(** One turn per member, and one to stop. *)
Definition members_fuel (start end_ : Z) : nat := S (Z.to_nat ((end_ - start) / kMultiXactMemberStride)).

Definition MultiXactIdGetMembers (multi : Z) (s : multixact) : option (list MultiXactMember * multixact) :=
  if negb (MultiXactIdIsValid multi s) then Some ([], s) else
  let '(start, s1) := ReadOffset multi s in
  let '(end_, s2) := if u32 (multi + 1) =? NextMultiXactIdVar s1 then (NextMemberOffset s1, s1)
                     else ReadOffset (u32 (multi + 1)) s1 in
  read_members (members_fuel start end_) start end_ s2.

Definition MultiXactIdExpand (multi xid status : Z) (s : multixact) : option (Z * multixact) :=
  if negb (MultiXactIdIsValid multi s) then Some (multi, s) else
  '(members, s1) ← MultiXactIdGetMembers multi s;
  Some (if existsb (λ m, mx_xid m =? xid) members then (multi, s1)
        else MultiXactIdCreate (members ++ [mkMember xid status]) s1).

Definition GetNextMultiXactId (s : multixact) : Z := NextMultiXactIdVar s.

(** ** Arrays of fixed-width entries over pages *)

(** Entry [k] of width [w], [per] of them to a page. *)
Definition slot (w per : nat) (m : page_map) (k : Z) : list Z :=
  take w (drop (Z.to_nat (k `mod` Z.of_nat per) * w) (m (k / Z.of_nat per))).

Definition page_length (m : page_map) : Prop := ∀ p, is_int p → length (m p) = Z.to_nat kSlruPageSize.

Lemma slot_write (w per : nat) m k src j :
  (0 < per)%nat → (per * w = Z.to_nat kSlruPageSize)%nat → length src = w → page_length m → is_int (k / Z.of_nat per) →
  slot w per (spec_op (OpWrite (k / Z.of_nat per) (Z.to_nat (k `mod` Z.of_nat per) * w) src) m).2 j
  = if decide (j = k) then src else slot w per m j.
Proof.
  intros Hper Hw Hsrc Hlen Hi. unfold slot. cbn [spec_op snd].
  pose proof (Z.mod_pos_bound k (Z.of_nat per) ltac:(lia)). pose proof (Z.mod_pos_bound j (Z.of_nat per) ltac:(lia)).
  set (a := Z.to_nat (k `mod` Z.of_nat per)). set (b := Z.to_nat (j `mod` Z.of_nat per)).
  assert (a < per)%nat by lia. assert (b < per)%nat by lia.
  assert (a * w + w ≤ Z.to_nat kSlruPageSize)%nat by nia.
  destruct (j / Z.of_nat per =? k / Z.of_nat per) eqn:E; to_prop.
  - rewrite E. set (d := m (k / Z.of_nat per)). assert (Hd : length d = Z.to_nat kSlruPageSize) by (by apply Hlen).
    case_decide as Hjk.
    + subst j. change b with a. rewrite <- Hsrc at 1. apply slice_overlay. lia.
    + rewrite slice_overlay_other; [done|nia|].
      assert (a ≠ b) by (intros Hab; apply Hjk; rewrite (Z.div_mod j (Z.of_nat per)), (Z.div_mod k (Z.of_nat per)) by lia;
                         rewrite E; f_equal; lia).
      nia.
  - rewrite decide_False; [done|]. by intros ->.
Qed.

Lemma page_length_write m p off src :
  page_length m → (off + length src ≤ Z.to_nat kSlruPageSize)%nat → page_length (spec_op (OpWrite p off src) m).2.
Proof.
  intros Hm Hs q Hq. cbn. destruct (q =? p) eqn:E; to_prop; [|by apply Hm]. subst q.
  rewrite length_overlay; [by apply Hm|]. rewrite Hm by done. done.
Qed.

Lemma sim_page_length s m : slru_sim s m → page_length m.
Proof.
  intros [Hwf Hm] p Hp. rewrite <- Hm by done. unfold contents.
  destruct (_ !! p) eqn:E; [by eapply (wf_keys s Hwf)|apply length_disk_page].
Qed.

(** ** What the arrays hold *)

Definition wf_member (m : MultiXactMember) : Prop := is_u32 (mx_xid m) ∧ is_u8 (mx_status m).

Lemma length_encode m : length (encode_member m) = 8%nat.
Proof. done. Qed.

Lemma decode_encode m : wf_member m → decode_member (encode_member m) = m.
Proof.
  intros [Hx _]. unfold decode_member, encode_member. rewrite take_app_length' by (by rewrite length_to_le).
  rewrite of_to_le. rewrite lookup_app_r by (rewrite length_to_le; lia). rewrite length_to_le. cbn.
  rewrite Z.mod_small by exact Hx. by destruct m.
Qed.

Lemma offset_position multi :
  is_u32 multi → offset_page multi = multi / 2048 ∧ offset_pos multi = (Z.to_nat (multi `mod` 2048) * 4)%nat ∧
                 is_int (multi / 2048).
Proof.
  unfold is_u32. intros Hm. unfold offset_page, offset_pos. change kMultiXactOffsetsPerPage with 2048.
  pose proof (Z.mod_pos_bound multi 2048). pose proof (Z.div_mod multi 2048).
  rewrite !i32_small by lia. split_and!; [done|lia|unfold is_int; lia..].
Qed.

Lemma member_position j :
  0 ≤ j → 8 * j < 2 ^ 32 →
  member_page (8 * j) = j / 1024 ∧ member_pos (8 * j) = (Z.to_nat (j `mod` 1024) * 8)%nat ∧ is_int (j / 1024).
Proof.
  intros Hj Hb. unfold member_page, member_pos. change kSlruPageSize with (8 * 1024).
  rewrite Z.div_mul_cancel_l, Z.mul_mod_distr_l by lia.
  pose proof (Z.mod_pos_bound j 1024). pose proof (Z.div_mod j 1024).
  rewrite !i32_small by lia. split_and!; [done|lia|unfold is_int; lia..].
Qed.

(** The state holds the member lists [ms] of the ids 1, 2, ... in order. *)
Record mx_sim (s : multixact) (ms : list (list MultiXactMember)) (co cm : slru) (mo mm : page_map) : Prop := {
  sim_offsets : OffsetsCtl s = Some co;
  sim_members : MembersCtl s = Some cm;
  sim_co : slru_sim co mo;
  sim_cm : slru_sim cm mm;
  sim_next : NextMultiXactIdVar s = 1 + Z.of_nat (length ms);
  sim_end : NextMemberOffset s = 8 * Z.of_nat (length (concat ms));
  sim_off (k : nat) : (k < length ms)%nat →
    slot 4 2048 mo (1 + Z.of_nat k) = to_le 4 (8 * Z.of_nat (length (concat (take k ms))));
  sim_mem (j : nat) m : concat ms !! j = Some m → slot 8 1024 mm (Z.of_nat j) = encode_member m;
  sim_wf : Forall wf_member (concat ms);
}.

(** Room for the counters to move without wrapping. *)
Definition in_bounds (ms : list (list MultiXactMember)) : Prop :=
  1 + Z.of_nat (length ms) < 2 ^ 32 ∧ 8 * Z.of_nat (length (concat ms)) + 8 < 2 ^ 32.

Lemma read_offset_run s ms co cm mo mm k :
  mx_sim s ms co cm mo mm → in_bounds ms → (k < length ms)%nat →
  ∃ co' s', ReadOffset (1 + Z.of_nat k) s = (8 * Z.of_nat (length (concat (take k ms))), s') ∧
            mx_sim s' ms co' cm mo mm.
Proof.
  intros Hs [Hb1 Hb2] Hk. pose proof Hs as [E1 E2 S1 S2 N1 N2 O1 M1 W]. unfold ReadOffset. rewrite E1.
  destruct (offset_position (1 + Z.of_nat k)) as (Hp & Hpos & Hi); [unfold is_u32; lia|].
  pose proof (slru_read_sim co mo (offset_page (1 + Z.of_nat k)) (offset_pos (1 + Z.of_nat k)) 4 S1) as Hr.
  destruct (SimpleLruRead _ _ _ co) as [bytes co'].
  destruct Hr as [-> S1'].
  { split; [by rewrite Hp|]. rewrite Hpos. pose proof (Z.mod_pos_bound (1 + Z.of_nat k) 2048 ltac:(lia)).
    change (Z.to_nat kSlruPageSize) with (2048 * 4)%nat. lia. }
  exists co', (with_offsets (Some co') s). split; [|by split].
  f_equal. rewrite Hp, Hpos. specialize (O1 k Hk). unfold slot in O1. change (Z.of_nat 2048) with 2048 in O1. rewrite O1.
  rewrite of_to_le. apply Z.mod_small. change (256 ^ Z.of_nat 4) with (2 ^ 32).
  assert (length (concat (take k ms)) ≤ length (concat ms))%nat; [|lia].
  rewrite <- (take_drop k ms) at 2. rewrite concat_app, length_app. lia.
Qed.

Lemma read_member_run s ms co cm mo mm j m :
  mx_sim s ms co cm mo mm → in_bounds ms → concat ms !! j = Some m →
  ∃ cm' s', ReadMember (8 * Z.of_nat j) s = (m, s') ∧ mx_sim s' ms co cm' mo mm.
Proof.
  intros Hs [Hb1 Hb2] Hj. pose proof Hs as [E1 E2 S1 S2 N1 N2 O1 M1 W]. unfold ReadMember. rewrite E2.
  apply lookup_lt_Some in Hj as Hlt.
  destruct (member_position (Z.of_nat j)) as (Hp & Hpos & Hi); [lia|lia|].
  pose proof (slru_read_sim cm mm (member_page (8 * Z.of_nat j)) (member_pos (8 * Z.of_nat j)) 8 S2) as Hr.
  destruct (SimpleLruRead _ _ _ cm) as [bytes cm'].
  destruct Hr as [-> S2'].
  { split; [by rewrite Hp|]. rewrite Hpos. pose proof (Z.mod_pos_bound (Z.of_nat j) 1024 ltac:(lia)).
    change (Z.to_nat kSlruPageSize) with (1024 * 8)%nat. lia. }
  exists cm', (with_members (Some cm') s). split; [|by split].
  f_equal. rewrite Hp, Hpos. specialize (M1 j m Hj). unfold slot in M1. change (Z.of_nat 1024) with 1024 in M1. rewrite M1.
  apply decode_encode. by eapply Forall_lookup_1.
Qed.

(** The loop reads the members between two offsets. *)
Lemma read_members_run n fuel j s ms co cm mo mm :
  mx_sim s ms co cm mo mm → in_bounds ms → (j + n ≤ length (concat ms))%nat → (n < fuel)%nat →
  ∃ cm' s', read_members fuel (8 * Z.of_nat j) (8 * Z.of_nat (j + n)) s = Some (take n (drop j (concat ms)), s') ∧
            mx_sim s' ms co cm' mo mm.
Proof.
  intros Hs Hb. revert fuel j s cm Hs. induction n as [|n IH]; intros fuel j s cm Hs Hj Hf;
    (destruct fuel as [|fuel]; [lia|]); cbn [read_members].
  - destruct Hb as [_ Hb]. rewrite u32_small by (unfold is_u32, kMultiXactMemberStride; lia).
    unfold kMultiXactMemberStride. rewrite (proj2 (Z.leb_gt _ _)) by lia. exists cm, s. by rewrite take_0.
  - destruct (lookup_lt_is_Some_2 (concat ms) j ltac:(lia)) as [m Hm].
    destruct Hb as [Hb1 Hb2]. rewrite !(u32_small (8 * Z.of_nat j + kMultiXactMemberStride)) by (unfold is_u32, kMultiXactMemberStride; lia).
    unfold kMultiXactMemberStride. rewrite (proj2 (Z.leb_le _ _)) by lia.
    destruct (read_member_run s ms co cm mo mm j m Hs (conj Hb1 Hb2) Hm) as (cm1 & s1 & -> & Hs1).
    replace (8 * Z.of_nat j + 8) with (8 * Z.of_nat (S j)) by lia.
    replace (j + S n)%nat with (S j + n)%nat by lia.
    destruct (IH fuel (S j) s1 cm1 Hs1 ltac:(lia) ltac:(lia)) as (cm2 & s2 & -> & Hs2).
    exists cm2, s2. split; [|done]. cbn. by rewrite (drop_S _ _ _ Hm).
Qed.

Lemma concat_take_drop (ms : list (list MultiXactMember)) (k : nat) l :
  ms !! k = Some l →
  take (length l) (drop (length (concat (take k ms))) (concat ms)) = l ∧
  length (concat (take (S k) ms)) = (length (concat (take k ms)) + length l)%nat.
Proof.
  intros Hk. split.
  - rewrite <- (take_drop k ms) at 2. rewrite concat_app, drop_app_length, (drop_S _ _ _ Hk). cbn [concat].
    by rewrite take_app_length.
  - rewrite (take_S_r _ _ _ Hk), concat_app, length_app. cbn. rewrite app_nil_r. done.
Qed.

Lemma get_members_run s ms co cm mo mm k l :
  mx_sim s ms co cm mo mm → in_bounds ms → ms !! k = Some l →
  ∃ co' cm' s', MultiXactIdGetMembers (1 + Z.of_nat k) s = Some (l, s') ∧ mx_sim s' ms co' cm' mo mm.
Proof.
  intros Hs Hb Hk. apply lookup_lt_Some in Hk as Hlt. destruct (concat_take_drop ms k l Hk) as [Htake Hend].
  assert (Hle : (length (concat (take (S k) ms)) ≤ length (concat ms))%nat).
  { rewrite <- (take_drop (S k) ms) at 2. rewrite concat_app, length_app. lia. }
  unfold MultiXactIdGetMembers, MultiXactIdIsValid. pose proof (sim_next _ _ _ _ _ _ Hs) as Hnext. rewrite Hnext.
  rewrite (proj2 (Z.eqb_neq _ _)), (proj2 (Z.ltb_lt _ _)) by (unfold kInvalidMultiXactId; lia). cbn [negb andb].
  destruct (read_offset_run s ms co cm mo mm k Hs Hb Hlt) as (co1 & s1 & -> & Hs1).
  rewrite (sim_next _ _ _ _ _ _ Hs1), u32_small by (destruct Hb; unfold is_u32; lia).
  assert (∃ co2 s2, (if 1 + Z.of_nat k + 1 =? 1 + Z.of_nat (length ms) then (NextMemberOffset s1, s1)
                     else ReadOffset (1 + Z.of_nat k + 1) s1)
                    = (8 * Z.of_nat (length (concat (take (S k) ms))), s2) ∧ mx_sim s2 ms co2 cm mo mm)
    as (co2 & s2 & -> & Hs2).
  { destruct (_ =? _) eqn:E; to_prop.
    - exists co1, s1. split; [|done]. f_equal. rewrite (sim_end _ _ _ _ _ _ Hs1). rewrite take_ge by lia. done.
    - replace (1 + Z.of_nat k + 1) with (1 + Z.of_nat (S k)) by lia.
      apply (read_offset_run s1 ms co1 cm mo mm (S k)); [done..|lia]. }
  rewrite Hend. destruct (read_members_run (length l) (members_fuel (8 * Z.of_nat (length (concat (take k ms))))
      (8 * Z.of_nat (length (concat (take k ms)) + length l)))
      (length (concat (take k ms))) s2 ms co2 cm mo mm Hs2 Hb) as (cm3 & s3 & Hrun & Hs3); [lia| |].
  { unfold members_fuel, kMultiXactMemberStride.
    replace (8 * Z.of_nat (length (concat (take k ms)) + length l) - 8 * Z.of_nat (length (concat (take k ms))))
      with (Z.of_nat (length l) * 8) by lia. rewrite Z.div_mul by lia. lia. }
  rewrite Htake in Hrun. exists co2, cm3, s3. done.
Qed.

(** ** Creating an id *)

Lemma concat_snoc {A} (ms : list (list A)) l : concat (ms ++ [l]) = concat ms ++ l.
Proof. rewrite concat_app. cbn. by rewrite app_nil_r. Qed.

Lemma write_offset_run s ms co cm mo mm :
  mx_sim s ms co cm mo mm → in_bounds ms →
  let multi := 1 + Z.of_nat (length ms) in
  let s1 := WriteOffset multi (NextMemberOffset s) (with_counters (multi + 1) (NextMemberOffset s) s) in
  ∃ co' mo', mx_sim s1 (ms ++ [[]]) co' cm mo' mm.
Proof.
  intros Hs [Hb1 Hb2] multi s1. pose proof Hs as [E1 E2 S1 S2 N1 N2 O1 M1 W].
  destruct (offset_position multi) as (Hp & Hpos & Hi); [unfold is_u32, multi; lia|].
  set (co' := SimpleLruWrite (offset_page multi) (offset_pos multi) (to_le 4 (NextMemberOffset s)) co).
  set (mo' := (spec_op (OpWrite (offset_page multi) (offset_pos multi) (to_le 4 (NextMemberOffset s))) mo).2).
  assert (Hok : (offset_pos multi + 4 ≤ Z.to_nat kSlruPageSize)%nat).
  { rewrite Hpos. pose proof (Z.mod_pos_bound multi 2048 ltac:(lia)). change (Z.to_nat kSlruPageSize) with (2048 * 4)%nat. lia. }
  assert (Hslot : ∀ j, slot 4 2048 mo' j = if decide (j = multi) then to_le 4 (NextMemberOffset s) else slot 4 2048 mo j).
  { intros j. subst mo'. rewrite Hp, Hpos. apply (slot_write 4 2048 mo multi); try done; [lia|by apply (sim_page_length co)]. }
  exists co', mo'. split.
  - unfold s1, WriteOffset. cbn [OffsetsCtl with_counters]. by rewrite E1.
  - unfold s1, WriteOffset. cbn [OffsetsCtl with_counters]. by rewrite E1.
  - apply slru_write_sim; [done|]. split; [by rewrite Hp|]. by rewrite length_to_le.
  - done.
  - unfold s1, WriteOffset. cbn [OffsetsCtl with_counters]. rewrite E1. cbn. rewrite length_app. cbn. lia.
  - unfold s1, WriteOffset. cbn [OffsetsCtl with_counters]. rewrite E1. cbn. by rewrite concat_snoc, app_nil_r.
  - intros k Hk. rewrite length_app in Hk. cbn in Hk. rewrite Hslot. rewrite take_app_le by lia. case_decide as Hkm.
    + rewrite N2. rewrite take_ge by lia. done.
    + apply O1. subst multi. lia.
  - intros j m Hj. apply M1. by rewrite concat_snoc, app_nil_r in Hj.
  - by rewrite concat_snoc, app_nil_r.
Qed.

Lemma append_member_run s ms l m co cm mo mm :
  mx_sim s (ms ++ [l]) co cm mo mm → wf_member m → in_bounds (ms ++ [l ++ [m]]) →
  ∃ cm' mm', mx_sim (append_member s m) (ms ++ [l ++ [m]]) co cm' mo mm'.
Proof.
  intros Hs Hm [Hb1 Hb2]. pose proof Hs as [E1 E2 S1 S2 N1 N2 O1 M1 W].
  rewrite concat_snoc in *. rewrite app_assoc in Hb2. rewrite length_app in Hb2. cbn [length] in Hb2.
  set (n := length (concat ms ++ l)) in *. destruct (member_position (Z.of_nat n)) as (Hp & Hpos & Hi); [lia|lia|].
  set (off := 8 * Z.of_nat n) in *.
  set (cm' := SimpleLruWrite (member_page off) (member_pos off) (encode_member m) cm).
  set (mm' := (spec_op (OpWrite (member_page off) (member_pos off) (encode_member m)) mm).2).
  assert (Hslot : ∀ j, slot 8 1024 mm' j = if decide (j = Z.of_nat n) then encode_member m else slot 8 1024 mm j).
  { intros j. subst mm'. rewrite Hp, Hpos. apply (slot_write 8 1024 mm (Z.of_nat n)); try done; [lia|by apply (sim_page_length cm)]. }
  assert (Happ : append_member s m = mkMx (Some co) (Some cm') (NextMultiXactIdVar s) (off + 8) (control_file s)).
  { unfold append_member, WriteMember. rewrite E2, N2. unfold with_members, with_counters.
    cbn [OffsetsCtl MembersCtl NextMultiXactIdVar NextMemberOffset control_file]. rewrite E1, N2.
    rewrite u32_small by (unfold is_u32, kMultiXactMemberStride; lia). done. }
  exists cm', mm'. rewrite Happ. split; cbn [OffsetsCtl MembersCtl NextMultiXactIdVar NextMemberOffset]; try done.
  - apply slru_write_sim; [done|]. split; [by rewrite Hp|]. rewrite length_encode, Hpos.
    pose proof (Z.mod_pos_bound (Z.of_nat n) 1024 ltac:(lia)). change (Z.to_nat kSlruPageSize) with (1024 * 8)%nat. lia.
  - rewrite N1, !length_app. done.
  - rewrite concat_snoc, app_assoc, length_app. fold n. cbn. lia.
  - intros k Hk. rewrite length_app in Hk. cbn in Hk. specialize (O1 k ltac:(rewrite length_app; cbn; lia)).
    rewrite take_app_le in O1 |- * by lia. done.
  - intros j m' Hj. rewrite concat_snoc, app_assoc in Hj. rewrite Hslot.
    apply lookup_snoc_Some in Hj as [[Hlt Hj]|[-> ->]].
    + rewrite decide_False by (fold n in Hlt; lia). by apply M1.
    + by rewrite decide_True.
  - rewrite concat_snoc, app_assoc. apply Forall_app. split; [done|]. by constructor.
Qed.

Lemma append_members_run l' s ms l co cm mo mm :
  mx_sim s (ms ++ [l]) co cm mo mm → Forall wf_member l' → in_bounds (ms ++ [l ++ l']) →
  ∃ cm' mm', mx_sim (foldl append_member s l') (ms ++ [l ++ l']) co cm' mo mm'.
Proof.
  revert s l cm mm. induction l' as [|m l' IH]; intros s l cm mm Hs Hwf Hb.
  { rewrite app_nil_r. by exists cm, mm. }
  apply Forall_cons in Hwf as [Hm Hwf]. cbn [foldl].
  assert (Hb1 : in_bounds (ms ++ [l ++ [m]])).
  { destruct Hb as [B1 B2]. rewrite concat_snoc, !length_app in B2. rewrite length_app in B1. cbn [length] in B1, B2.
    split; [rewrite length_app; cbn [length]; lia|]. rewrite concat_snoc, !length_app. cbn [length]. lia. }
  destruct (append_member_run s ms l m co cm mo mm Hs Hm Hb1) as (cm1 & mm1 & Hs1).
  replace (l ++ m :: l') with ((l ++ [m]) ++ l') by (by rewrite <- app_assoc).
  eapply IH; [done..|]. by rewrite <- app_assoc.
Qed.

Lemma create_run l s ms co cm mo mm :
  mx_sim s ms co cm mo mm → Forall wf_member l → in_bounds (ms ++ [l]) →
  ∃ s' co' cm' mo' mm', MultiXactIdCreate l s = (1 + Z.of_nat (length ms), s') ∧ mx_sim s' (ms ++ [l]) co' cm' mo' mm'.
Proof.
  intros Hs Hwf Hb. unfold MultiXactIdCreate. rewrite (sim_next _ _ _ _ _ _ Hs).
  assert (Hb0 : in_bounds ms).
  { destruct Hb as [B1 B2]. rewrite concat_snoc, length_app in B2. rewrite length_app in B1. split; lia. }
  destruct Hb as [B1 B2]. rewrite length_app in B1. cbn [length] in B1.
  rewrite u32_small by (unfold is_u32; lia).
  destruct (write_offset_run s ms co cm mo mm Hs Hb0) as (co1 & mo1 & Hs1).
  destruct (append_members_run l _ ms [] co1 cm mo1 mm Hs1 Hwf) as (cm2 & mm2 & Hs2).
  { split; [rewrite length_app; cbn; lia|done]. }
  eexists _, co1, cm2, mo1, mm2. split; [reflexivity|exact Hs2].
Qed.

(** ** The theorems *)

(** The set of ids and members the state represents. *)
Definition mx_represents (s : multixact) (ms : list (list MultiXactMember)) : Prop :=
  ∃ co cm mo mm, mx_sim s ms co cm mo mm.

Definition members_of (ms : list (list MultiXactMember)) (multi : Z) : option (list MultiXactMember) :=
  if decide (1 ≤ multi) then ms !! Z.to_nat (multi - 1) else None.

Lemma get_members_spec s ms multi :
  mx_represents s ms → in_bounds ms → 0 ≤ multi →
  ∃ s', MultiXactIdGetMembers multi s = Some (default [] (members_of ms multi), s') ∧ mx_represents s' ms.
Proof.
  intros (co & cm & mo & mm & Hs) Hb Hm. unfold members_of. destruct (decide (1 ≤ multi)) as [H1|H1].
  - destruct (ms !! Z.to_nat (multi - 1)) as [l|] eqn:E.
    + destruct (get_members_run s ms co cm mo mm _ l Hs Hb E) as (co' & cm' & s' & Hrun & Hs').
      replace (1 + Z.of_nat (Z.to_nat (multi - 1))) with multi in Hrun by lia. exists s'. split; [done|].
      by exists co', cm', mo, mm.
    + exists s. split; [|by exists co, cm, mo, mm]. unfold MultiXactIdGetMembers, MultiXactIdIsValid.
      rewrite (sim_next _ _ _ _ _ _ Hs). apply lookup_ge_None in E. rewrite (proj2 (Z.ltb_ge _ _)) by lia.
      by rewrite andb_false_r.
  - exists s. split; [|by exists co, cm, mo, mm]. unfold MultiXactIdGetMembers, MultiXactIdIsValid.
    assert (multi = 0) as -> by lia. done.
Qed.

(** C33: multixact ids behave as an append-only table of member lists.
    [MultiXactIdGetMembers] returns (it ends) exactly the list an id was
    created with, or the empty list for an id that does not exist;
    [MultiXactIdCreate] gives a list the next id and keeps all others;
    [MultiXactIdExpand] returns the same id when the transaction is a member
    already, a new id with the transaction appended when it is not, and an
    invalid id unchanged. *)
Theorem multixact_table s ms multi l xid st :
  mx_represents s ms → 0 ≤ multi → Forall wf_member l → wf_member (mkMember xid st) →
  in_bounds (ms ++ [l]) → in_bounds (ms ++ [default [] (members_of ms multi) ++ [mkMember xid st]]) →
  (∃ s', MultiXactIdGetMembers multi s = Some (default [] (members_of ms multi), s') ∧ mx_represents s' ms) ∧
  (∃ s', MultiXactIdCreate l s = (1 + Z.of_nat (length ms), s') ∧ mx_represents s' (ms ++ [l])) ∧
  (∃ r s', MultiXactIdExpand multi xid st s = Some (r, s') ∧
     match members_of ms multi with
     | Some old =>
         if existsb (λ m, mx_xid m =? xid) old then r = multi ∧ mx_represents s' ms
         else r = 1 + Z.of_nat (length ms) ∧ mx_represents s' (ms ++ [old ++ [mkMember xid st]])
     | None => r = multi ∧ mx_represents s' ms
     end).
Proof.
  intros Hrep Hm Hl Hx Hb Hb2.
  assert (Hb0 : in_bounds ms).
  { destruct Hb as [B1 B2]. rewrite concat_snoc, length_app in B2. rewrite length_app in B1. split; lia. }
  split_and!; [by apply get_members_spec| |].
  - destruct Hrep as (co & cm & mo & mm & Hs). destruct (create_run l s ms co cm mo mm Hs Hl Hb) as (s' & co' & cm' & mo' & mm' & Hrun & Hs').
    exists s'. split; [done|]. by exists co', cm', mo', mm'.
  - pose proof Hrep as (co & cm & mo & mm & Hs). unfold MultiXactIdExpand.
    destruct (members_of ms multi) as [old|] eqn:Eo.
    + assert (Hvalid : MultiXactIdIsValid multi s = true).
      { unfold members_of in Eo. case_decide; [|done]. apply lookup_lt_Some in Eo.
        unfold MultiXactIdIsValid. rewrite (sim_next _ _ _ _ _ _ Hs).
        rewrite (proj2 (Z.eqb_neq _ _)), (proj2 (Z.ltb_lt _ _)) by (unfold kInvalidMultiXactId; lia). done. }
      rewrite Hvalid. cbn [negb].
      destruct (get_members_spec s ms multi Hrep Hb0 Hm) as (s1 & Hrun & Hrep1). rewrite Eo in Hrun. cbn in Hrun.
      rewrite Hrun. cbn [mbind option_bind]. destruct (existsb _ old) eqn:Ex.
      { by exists multi, s1. }
      pose proof Hrep1 as (co1 & cm1 & mo1 & mm1 & Hs1).
      assert (Hold : Forall wf_member old).
      { unfold members_of in Eo. case_decide; [|done]. pose proof (sim_wf _ _ _ _ _ _ Hs) as W.
        rewrite Forall_concat in W. by eapply Forall_lookup_1 in W. }
      destruct (create_run (old ++ [mkMember xid st]) s1 ms co1 cm1 mo1 mm1 Hs1) as (s' & co' & cm' & mo' & mm' & -> & Hs');
        [apply Forall_app; by split; [|constructor]|done|].
      exists (1 + Z.of_nat (length ms)), s'. split_and!; [done..|]. by exists co', cm', mo', mm'.
    + assert (Hinv : MultiXactIdIsValid multi s = false).
      { unfold MultiXactIdIsValid. rewrite (sim_next _ _ _ _ _ _ Hs). unfold members_of in Eo. case_decide as Hc.
        - apply lookup_ge_None in Eo. rewrite (proj2 (Z.ltb_ge _ _)) by lia. apply andb_false_r.
        - assert (multi = 0) as -> by lia. done. }
      rewrite Hinv. by exists multi, s.
Qed.

(** ** Restart *)

Lemma flush_dir c : disk_dir (ctl (SimpleLruFlush c)) = disk_dir (ctl c).
Proof. unfold SimpleLruFlush. by destruct (negb _). Qed.

Lemma flush_sim c m : slru_sim c m → slru_sim (SimpleLruFlush c) m.
Proof.
  intros [Hwf Hm]. destruct (flush_wf c Hwf) as (Hwf' & Hsame & _). split; [done|].
  intros p Hp. by rewrite Hsame, Hm.
Qed.

(** A new SLRU over the files of a freed one holds the same pages. *)
Lemma reopen_sim c m n cap :
  slru_sim c m → slru_sim (mkSlru (SimpleLruInit n cap (disk_dir (ctl c))) (SimpleLruFree c)) m.
Proof.
  intros [Hwf Hm]. destruct (slru_init_sim n cap (disk_dir (ctl c)) (SimpleLruFree c)) as [Hwf' Hm'].
  { apply (wf_dir c Hwf). }
  split; [done|]. intros p Hp. rewrite Hm' by done. destruct (flush_wf c Hwf) as (_ & Hsame & Hdisk).
  rewrite <- Hm, <- Hsame, Hdisk by done. by rewrite flush_dir.
Qed.

(** multixacts survive a restart.  After a shutdown, initializing from the
    same directories restores every id with its members and the position of
    the allocator, from the page files and the control file. *)
Theorem multixacts_survive_restart s ms fs fs' :
  mx_represents s ms → in_bounds ms →
  let dir o := match o with Some c => disk_dir (ctl c) | None => "" end in
  mx_represents (InitializeMultiXact (dir (OffsetsCtl s)) (dir (MembersCtl s)) fs fs' (ShutdownMultiXact s)) ms.
Proof.
  intros (co & cm & mo & mm & Hs) [B1 B2] dir. pose proof Hs as [E1 E2 S1 S2 N1 N2 O1 M1 W].
  assert (Hd1 : disk_dir (ctl co) ≠ "") by (by apply wf_dir, S1).
  assert (Hsd : ShutdownMultiXact s = mkMx (Some (SimpleLruFlush co)) (Some (SimpleLruFlush cm))
      (NextMultiXactIdVar s) (NextMemberOffset s) (Some (to_le 4 (NextMultiXactIdVar s) ++ to_le 4 (NextMemberOffset s)))).
  { unfold ShutdownMultiXact, FlushMultiXact, WriteControlFile, has_control. rewrite E1, E2. cbn [fmap option_fmap option_map OffsetsCtl MembersCtl].
    rewrite flush_dir, bool_decide_false by done. done. }
  rewrite Hsd, E1, E2. subst dir. unfold InitializeMultiXact. cbn [OffsetsCtl MembersCtl freed_files control_file].
  rewrite <- (flush_dir co), <- (flush_dir cm).
  set (co' := mkSlru (SimpleLruInit "multixact_offsets" 16 (disk_dir (ctl (SimpleLruFlush co)))) _).
  set (cm' := mkSlru (SimpleLruInit "multixact_members" 16 (disk_dir (ctl (SimpleLruFlush cm)))) _).
  assert (Hrc : ReadControlFile (mkMx (Some co') (Some cm') kFirstMultiXactId 0
      (Some (to_le 4 (NextMultiXactIdVar s) ++ to_le 4 (NextMemberOffset s)))) =
      mkMx (Some co') (Some cm') (NextMultiXactIdVar s) (NextMemberOffset s)
      (Some (to_le 4 (NextMultiXactIdVar s) ++ to_le 4 (NextMemberOffset s)))).
  { unfold ReadControlFile, has_control. cbn [OffsetsCtl co' ctl disk_dir SimpleLruInit control_file].
    rewrite flush_dir, bool_decide_false by done. cbn [negb].
    rewrite (proj2 (Nat.leb_le _ _)) by (rewrite length_app, !length_to_le; lia).
    unfold with_counters. cbn [OffsetsCtl MembersCtl control_file].
    rewrite take_app_length' by (by rewrite length_to_le). rewrite drop_app_length' by (by rewrite length_to_le).
    rewrite take_ge by (rewrite length_to_le; lia). rewrite !of_to_le. change (256 ^ Z.of_nat 4) with (2 ^ 32).
    rewrite !Z.mod_small by lia. done. }
  rewrite Hrc. exists co', cm', mo, mm. split; cbn [OffsetsCtl MembersCtl NextMultiXactIdVar NextMemberOffset]; try done.
  - apply reopen_sim, flush_sim, S1.
  - apply reopen_sim, flush_sim, S2.
Qed.

(** ** Examples *)

Definition fresh_mx : multixact :=
  InitializeMultiXact "pg_multixact/offsets" "pg_multixact/members" ∅ ∅ (mkMx None None 0 0 None).

Lemma fresh_represents : mx_represents fresh_mx [].
Proof.
  eexists _, _, _, _. split; try done.
  - by apply slru_init_sim.
  - by apply slru_init_sim.
  - intros k Hk. cbn in Hk. lia.
Qed.

Definition demo_members : list MultiXactMember := [mkMember 100 1; mkMember 101 2].

Lemma demo_members_wf : Forall wf_member demo_members.
Proof. repeat constructor; cbn; lia. Qed.

Lemma multixact_table_witness :
  (∃ s', MultiXactIdGetMembers 1 fresh_mx = Some ([], s') ∧ mx_represents s' []) ∧
  (∃ s', MultiXactIdCreate demo_members fresh_mx = (1, s') ∧ mx_represents s' [demo_members]) ∧
  (∃ r s', MultiXactIdExpand 1 102 1 fresh_mx = Some (r, s') ∧ r = 1 ∧ mx_represents s' []).
Proof.
  apply (multixact_table fresh_mx [] 1 demo_members 102 1 fresh_represents); [lia|exact demo_members_wf| | |];
    repeat split; cbn; lia.
Defined.

Lemma multixacts_survive_restart_witness :
  mx_represents (InitializeMultiXact "pg_multixact/offsets" "pg_multixact/members" ∅ ∅ (ShutdownMultiXact fresh_mx)) [].
Proof.
  apply (multixacts_survive_restart fresh_mx [] ∅ ∅ fresh_represents). split; cbn; lia.
Defined.

(** Create, expand, restart, read back. *)
Example demo_multixact :
  (let '(m1, s1) := MultiXactIdCreate demo_members fresh_mx in
   '(m2, s2) ← MultiXactIdExpand m1 102 1 s1;
   '(m3, s3) ← MultiXactIdExpand m2 101 1 s2;
   '(l, _) ← MultiXactIdGetMembers m2
     (InitializeMultiXact "pg_multixact/offsets" "pg_multixact/members" ∅ ∅ (ShutdownMultiXact s3));
   Some (m1, m2, m3, l)) =
  Some (1, 2, 2, [mkMember 100 1; mkMember 101 2; mkMember 102 1]).
Proof. vm_compute. reflexivity. Qed.

(** With 2^32 - 8 bytes of members the loop test wraps: at the end of the
    members it starts again from offset 0, and no amount of fuel suffices. *)
Theorem members_loop_never_ends fuel off s :
  0 ≤ off < 2 ^ 32 → off `mod` 8 = 0 → read_members fuel off (2 ^ 32 - 8) s = None.
Proof.
  revert off s. induction fuel as [|fuel IH]; intros off s Hoff Hmod; [done|]. cbn [read_members].
  unfold kMultiXactMemberStride. set (off' := u32 (off + 8)).
  assert (Hm : off' `mod` 8 = 0 ∧ 0 ≤ off' ≤ 2 ^ 32 - 8).
  { assert (Hr : 0 ≤ off' < 2 ^ 32) by apply u32_range.
    assert (Hm : off' `mod` 8 = 0).
    { unfold off', u32. change (2 ^ 32) with (8 * 2 ^ 29). rewrite Z.rem_mul_r by lia.
      replace (off + 8) with (off + 1 * 8) by lia. rewrite Z.mod_add, Hmod by lia.
      rewrite Z.add_0_l, Z.mul_comm. apply Z.mod_mul. lia. }
    split; [done|]. pose proof (Z.div_mod off' 8 ltac:(lia)). lia. }
  rewrite (proj2 (Z.leb_le _ _)) by lia. destruct (ReadMember off s) as [m s1].
  rewrite IH; [done|lia|apply Hm].
Qed.

End MultiXact.
