(* ===== verification/Heap.v ===== *)
(** * The heap access method

    src/access/heap/heapam.cpp on top of everything below it: inserting,
    deleting, updating and locking tuples, fetching by tuple identifier, and
    the sequential scan with its page-at-a-time visibility cache; with
    [RelationGetSmgr] and [RelationGetNumberOfBlocks] of src/access/rel.cpp.

    The state joins the transaction manager ([World]), the pages of the
    relations, the multixacts and the open scans.  The buffer pool appears as
    what it implements ([BufSpec.pool_refines_pages]): a map from blocks to
    pages, with pin counts and dirty marks; a buffer is named by the block it
    holds.  A tuple on a page is its header struct followed by the null bitmap
    and the data, as bytes; a header changed in place changes the page.

    [toast_insert_or_update] and [toast_delete_tuple] call back into the heap
    for another relation; they are parameters here. *)

From stdpp Require Import base gmap list strings.
From S2P Require Import Prelude Transam HeapTuple Proc CatalogTx World Snapshot Xact Visibility BufPage HeapForm Slru MultiXact Lock.

Module Heap.
Import Transam HeapTuple World Snapshot Xact Visibility BufPage HeapForm MultiXact.
Import Lock (RowLockStrength(..), strength_val).

(** ** Tuple headers as bytes

    The fields in the order of the struct; it has no padding before [t_bits]. *)

Definition encode_header (h : HeapTupleHeaderData) : list Z :=
  to_le 4 (t_xmin h) ++ to_le 4 (t_xmax h) ++ to_le 4 (t_cid h) ++
  to_le 4 (ip_blkid (t_ctid h)) ++ to_le 2 (ip_posid (t_ctid h)) ++
  to_le 2 (t_infomask2 h) ++ to_le 2 (t_infomask h) ++ to_le 1 (t_hoff h).

Definition field (off len : nat) (b : list Z) : Z := of_le (take len (drop off b)).

Definition decode_header (b : list Z) : HeapTupleHeaderData :=
  mkHeader (field 0 4 b) (field 4 4 b) (field 8 4 b) (mkTid (field 12 4 b) (field 16 2 b))
    (field 18 2 b) (field 20 2 b) (field 22 1 b).

(** The memory of a tuple: [t_len] bytes from the header on. *)
Definition tuple_image (tup : HeapTupleData) : list Z :=
  encode_header (t_data tup) ++ read (t_bytes tup) kHeapTupleHeaderSize (t_len tup - kHeapTupleHeaderSize).

(** [reinterpret_cast<HeapTupleHeaderData*>(PageGetItem(page, item_id))]. *)
Definition header_at (p : Page) (offset : Z) : HeapTupleHeaderData :=
  decode_header (read (bytes p) (li_off (PageGetItemId p offset)) kHeapTupleHeaderSize).

(** Writing through that pointer. *)
Definition set_header (offset : Z) (h : HeapTupleHeaderData) (p : Page) : Page :=
  with_bytes (memcpy_in (li_off (PageGetItemId p offset)) (encode_header h) (bytes p)) p.

(** The descriptor of the tuple in place. *)
Definition tuple_at (p : Page) (tid : ItemPointerData) : HeapTupleData :=
  let id := PageGetItemId p (ip_posid tid) in
  mkTuple (li_len id) tid (header_at p (ip_posid tid)) (λ k, bytes p (li_off id + k)).

(** ** State *)

(** A relation file and a block of it. *)
Abbreviation Buffer := (Z * Z)%type.

Record Bufs := mkBufs {
  main_fork : gmap Z (list Page);   (* by relfilenode *)
  pins : gmap Buffer Z;
  dirty : gset Buffer;
}.

Definition fork_of (s : Bufs) (node : Z) : list Page := default [] (main_fork s !! node).
Definition page_of (s : Bufs) (b : Buffer) : Page :=
  default (PageInit kBlckSz 0) (fork_of s b.1 !! Z.to_nat b.2).
Definition pin_count (s : Bufs) (b : Buffer) : Z := default 0 (pins s !! b).

Inductive RelKind :=
  kRelation | kIndex | kSequence | kToastValue | kView | kMaterializedView | kCompositeType | kForeignTable |
  kPartitionedTable.
#[export] Instance RelKind_eq_dec : EqDecision RelKind.
Proof. solve_decision. Defined.

(** The fields of an open relation the heap reads; [rd_rel] and [rd_att] may be null. *)
Record FormData_pg_class := mkPgClass { relfilenode : Z; relkind : RelKind }.
Record RelationData := mkRelation {
  rd_id : Z;
  rd_rel : option FormData_pg_class;
  rd_smgr : option Z;                   (* the relfilenode of the handle *)
  rd_att : option TupleDescData;
}.

Record HeapScanDescData := mkScan {
  rs_base : RelationData;
  rs_snapshot : nat;
  rs_nblocks : Z;
  rs_cblock : Z;
  rs_cbuf : option Buffer;
  rs_inited : bool;
  rs_vistuples : list Z;                (* the first [rs_ntuples] entries *)
  rs_vistuple_index : nat;
  rs_cached_snapshot : option nat;
}.

(** The scans of the backend.  [rs_cached_cnum] of the scan at position [i] of
    [ActiveScans] is entry [i] of [scan_cnums] in the world, where
    [CommandCounterIncrement] resets it. *)
Record Scans := mkScans {
  ActiveScans : list nat;
  scan_store : gmap nat HeapScanDescData;
  scan_next : nat;
}.

Record heap_st := mkHeap { h_world : world; h_bufs : Bufs; h_mx : multixact; h_scans : Scans }.

#[export] Instance lens_world : Lens heap_st world :=
  {| view := h_world; over w s := mkHeap w (h_bufs s) (h_mx s) (h_scans s) |}.
#[export] Instance lens_bufs : Lens heap_st Bufs :=
  {| view := h_bufs; over b s := mkHeap (h_world s) b (h_mx s) (h_scans s) |}.
#[export] Instance lens_mx : Lens heap_st multixact :=
  {| view := h_mx; over m s := mkHeap (h_world s) (h_bufs s) m (h_scans s) |}.
#[export] Instance lens_scans : Lens heap_st Scans :=
  {| view := h_scans; over c s := mkHeap (h_world s) (h_bufs s) (h_mx s) c |}.

(** ** Buffers *)

Definition ReadBuffer (node blk : Z) : M Bufs Buffer := λ s,
  if (0 <=? blk) && (blk <? Z.of_nat (length (fork_of s node)))
  then (Ret (node, blk), mkBufs (main_fork s) (<[(node, blk) := pin_count s (node, blk) + 1]> (pins s)) (dirty s))
  else (Ereport "could not read block: unexpected end of file", s).

Definition ReleaseBuffer (b : Buffer) : M Bufs unit :=
  modify (λ s, mkBufs (main_fork s) (<[b := if 0 <? pin_count s b then pin_count s b - 1 else 0]> (pins s)) (dirty s)).

Definition MarkBufferDirty (b : Buffer) : M Bufs unit :=
  modify (λ s, mkBufs (main_fork s) (pins s) ({[b]} ∪ dirty s)).

(** Writing to the page through [BufferGetPage]. *)
Definition put_page (b : Buffer) (p : Page) (s : Bufs) : Bufs :=
  mkBufs (<[b.1 := <[Z.to_nat b.2 := p]> (fork_of s b.1)]> (main_fork s)) (pins s) (dirty s).

(** [smgrextend] of the block behind the last. *)
Definition smgrextend (node : Z) (p : Page) : M Bufs unit :=
  modify (λ s, mkBufs (<[node := fork_of s node ++ [p]]> (main_fork s)) (pins s) (dirty s)).

Definition RelationGetSmgr (relation : RelationData) : M Bufs Z :=
  match rd_smgr relation, rd_rel relation with
  | Some node, _ => mret node
  | None, Some c =>
      if relfilenode c =? 0
      then ereport ("relation " +:+ int_to_string (rd_id relation) +:+ " has no relfilenode")
      else mret (relfilenode c)
  | None, None => ereport "null pg_class row"   (* undefined behaviour in the code *)
  end.

Definition RelationGetNumberOfBlocks (relation : RelationData) : M Bufs Z :=
  node ← RelationGetSmgr relation;
  gets (λ s, Z.of_nat (length (fork_of s node))).

Definition CreateAndReadNewPage (relation : RelationData) (block_num : Z) : M Bufs Buffer :=
  node ← RelationGetSmgr relation;
  smgrextend node (PageInit kBlckSz 0);;
  ReadBuffer node block_num.

(** ** Modifying tuples *)

(** Changing the header of the tuple at [offset] of the page in place. *)
Definition upd_header (b : Buffer) (offset : Z) (f : HeapTupleHeaderData → HeapTupleHeaderData) : M Bufs unit :=
  modify (λ s, let p := page_of s b in put_page b (set_header offset (f (header_at p offset)) p) s).

Definition with_data (h : HeapTupleHeaderData) (tup : HeapTupleData) : HeapTupleData :=
  mkTuple (t_len tup) (t_self tup) h (t_bytes tup).

(** The buffer a tuple of [tuple_len] bytes goes to: the last block when it
    has room, a new one otherwise. *)
Definition target_buffer (relation : RelationData) (tuple_len : Z) : M Bufs Buffer :=
  node ← RelationGetSmgr relation;
  nblocks ← RelationGetNumberOfBlocks relation;
  if nblocks =? 0 then CreateAndReadNewPage relation 0
  else
    buffer ← ReadBuffer node (nblocks - 1);
    page ← gets (λ s, page_of s buffer);
    if i32 (PageGetHeapFreeSpace page) <? i32 tuple_len then
      ReleaseBuffer buffer;;
      CreateAndReadNewPage relation nblocks
    else mret buffer.

(** [PageAddItem] on the page of the buffer. *)
Definition add_item (buffer : Buffer) (item : list Z) : M Bufs Z := λ s,
  let '(offset, p) := PageAddItem item kInvalidOffsetNumber (page_of s buffer) in
  (Ret offset, put_page buffer p s).

(** The result and the caller's tuple, whose header is modified. *)
Definition heap_insert_internal (relation : RelationData) (tup : HeapTupleData)
  : M heap_st (ItemPointerData * HeapTupleData) :=
  xid ← zoom GetCurrentTransactionId;
  cid ← gets (λ s, GetCurrentCommandId (h_world s));
  let header := HeapTupleHeaderSetXmax (HeapTupleHeaderSetCid (HeapTupleHeaderSetXmin (t_data tup) xid) cid)
                  kInvalidTransactionId in
  buffer ← zoom (target_buffer relation (t_len tup));
  offset ← zoom (add_item buffer (tuple_image (with_data header tup)));
  if offset =? kInvalidOffsetNumber then
    zoom (ReleaseBuffer buffer);;
    ereport ("heap_insert: failed to add item to page " +:+ int_to_string buffer.2)
  else
    let tid := mkTid buffer.2 offset in
    zoom (MarkBufferDirty buffer);;
    zoom (ReleaseBuffer buffer);;
    mret (tid, mkTuple (t_len tup) tid (HeapTupleHeaderSetTid header tid) (t_bytes tup)).

#[export] Instance RowLockStrength_eq_dec : EqDecision RowLockStrength.
Proof. solve_decision. Defined.

Definition kHeapKeysUpdated : Z := 0x2000.

(** [m |= flag] and [m &= ~flag] on a 16-bit field. *)
Definition set_flag (flag m : Z) : Z := u16 (Z.lor m flag).
Definition clear_flag (flag m : Z) : Z := u16 (Z.land m (Z.lnot flag)).
Definition on_infomask (f : Z → Z) (h : HeapTupleHeaderData) : HeapTupleHeaderData := set_infomask (f (t_infomask h)) h.

(** The header after an exclusive row lock. *)
Definition lock_exclusive (xid : Z) (strength : RowLockStrength) (h : HeapTupleHeaderData) : HeapTupleHeaderData :=
  let h := HeapTupleHeaderSetXmax h xid in
  let h := on_infomask (λ m, clear_flag kHeapXmaxInvalid (set_flag kHeapXmaxExclusiveLock (set_flag kHeapXmaxLocked m))) h in
  if decide (strength = kForUpdate) then set_infomask2 (set_flag kHeapKeysUpdated (t_infomask2 h)) h else h.

(** The header after a shared one, held by the members of [multi]. *)
Definition lock_shared (multi : Z) (strength : RowLockStrength) (h : HeapTupleHeaderData) : HeapTupleHeaderData :=
  let h := HeapTupleHeaderSetXmax h multi in
  let h := on_infomask (λ m, clear_flag kHeapXmaxInvalid (set_flag kHeapXmaxLocked m)) h in
  on_infomask (set_flag (if decide (strength = kForShare) then kHeapXmaxShrLock else kHeapXmaxKeyshrLock)) h.

(** The calls of multixact.cpp; a member loop that does not end is an error of the model. *)
Definition expand_multi (multi xid status : Z) : M multixact Z := λ m,
  match MultiXactIdExpand multi xid status m with
  | Some (multi', m') => (Ret multi', m')
  | None => (Ereport "endless member list", m)
  end.
Definition create_multi (members : list MultiXactMember) : M multixact Z := λ m,
  let '(multi, m') := MultiXactIdCreate members m in (Ret multi, m').

Definition heap_lock_tuple (relation : RelationData) (tid : ItemPointerData) (strength : RowLockStrength)
  : M heap_st unit :=
  node ← zoom (RelationGetSmgr relation);
  buffer ← zoom (ReadBuffer node (ip_blkid tid));
  header ← gets (λ s, header_at (page_of (h_bufs s) buffer) (ip_posid tid));
  xid ← zoom GetCurrentTransactionId;
  (if decide (strength = kForUpdate ∨ strength = kForNoKeyUpdate) then
     zoom (upd_header buffer (ip_posid tid) (lock_exclusive xid strength))
   else
     new_multi ← (if has_flag (t_infomask header) kHeapXmaxLocked && negb (t_xmax header =? kInvalidMultiXactId)
                  then zoom (expand_multi (t_xmax header) xid (strength_val strength))
                  else zoom (create_multi [mkMember xid (strength_val strength)]));
     zoom (upd_header buffer (ip_posid tid) (lock_shared new_multi strength)));;
  zoom (MarkBufferDirty buffer);;
  zoom (ReleaseBuffer buffer);;
  zoom CommandCounterIncrement.

(** [xmax] and [cid] of a deleted tuple. *)
Definition mark_deleted (xid cid : Z) (h : HeapTupleHeaderData) : HeapTupleHeaderData :=
  HeapTupleHeaderSetCid (HeapTupleHeaderSetXmax h xid) cid.

Section toast.
Context (junk : Z → Z) (detoast_attr : list Z → list Z).
Context (toast_insert_or_update : RelationData → list Datum → list bool → TupleDescData → M heap_st (list Datum)).
Context (toast_delete_tuple : RelationData → list Datum → list bool → TupleDescData → M heap_st unit).

(** The descriptor when the tuples of the relation are toasted. *)
Definition toast_desc (relation : RelationData) : option TupleDescData :=
  match rd_att relation, rd_rel relation with
  | Some tupdesc, Some c => if decide (relkind c = kToastValue) then None else Some tupdesc
  | _, _ => None
  end.

(** A toasted value is a new datum with a flag in its header, so comparing
    the contents tells the same as comparing the pointers. *)
Definition toast_new (relation : RelationData) (tup : HeapTupleData) : M heap_st HeapTupleData :=
  match toast_desc relation with
  | None => mret tup
  | Some tupdesc =>
      let old := heap_deform_tuple detoast_attr tup tupdesc in
      values ← toast_insert_or_update relation old.*1 old.*2 tupdesc;
      if decide (values = old.*1) then mret tup
      else let new_tup := heap_form_tuple junk tupdesc values (Some old.*2) in
           mret (mkTuple (t_len new_tup) (t_self tup) (t_data new_tup) (t_bytes new_tup))
  end.

Definition toast_old (relation : RelationData) (buffer : Buffer) (tid : ItemPointerData) : M heap_st unit :=
  match toast_desc relation with
  | None => mret tt
  | Some tupdesc =>
      temp_tuple ← gets (λ s, tuple_at (page_of (h_bufs s) buffer) tid);
      let old := heap_deform_tuple detoast_attr temp_tuple tupdesc in
      toast_delete_tuple relation old.*1 old.*2 tupdesc
  end.

Definition heap_insert (relation : RelationData) (tup : HeapTupleData) : M heap_st (ItemPointerData * HeapTupleData) :=
  tup' ← toast_new relation tup;
  r ← heap_insert_internal relation tup';
  zoom CommandCounterIncrement;;
  mret r.

Definition heap_delete (relation : RelationData) (tid : ItemPointerData) : M heap_st unit :=
  node ← zoom (RelationGetSmgr relation);
  buffer ← zoom (ReadBuffer node (ip_blkid tid));
  toast_old relation buffer tid;;
  xid ← zoom GetCurrentTransactionId;
  cid ← gets (λ s, GetCurrentCommandId (h_world s));
  zoom (upd_header buffer (ip_posid tid) (mark_deleted xid cid));;
  zoom (MarkBufferDirty buffer);;
  zoom (ReleaseBuffer buffer);;
  zoom CommandCounterIncrement.

Definition heap_update (relation : RelationData) (otid : ItemPointerData) (tup : HeapTupleData)
  : M heap_st (ItemPointerData * HeapTupleData) :=
  tup' ← toast_new relation tup;
  r ← heap_insert_internal relation tup';
  node ← zoom (RelationGetSmgr relation);
  buffer ← zoom (ReadBuffer node (ip_blkid otid));
  toast_old relation buffer otid;;
  xid ← zoom GetCurrentTransactionId;
  cid ← gets (λ s, GetCurrentCommandId (h_world s));
  zoom (upd_header buffer (ip_posid otid) (λ h, HeapTupleHeaderSetTid (mark_deleted xid cid h) r.1));;
  zoom (MarkBufferDirty buffer);;
  zoom (ReleaseBuffer buffer);;
  zoom CommandCounterIncrement;;
  mret r.

End toast.

(** A copy of the tuple, or nothing when its line pointer is empty. *)
Definition heap_fetch_by_tid (junk : Z → Z) (relation : RelationData) (tid : ItemPointerData)
  : M heap_st (option HeapTupleData) :=
  node ← zoom (RelationGetSmgr relation);
  buffer ← zoom (ReadBuffer node (ip_blkid tid));
  p ← gets (λ s, page_of (h_bufs s) buffer);
  zoom (ReleaseBuffer buffer);;
  mret (if li_len (PageGetItemId p (ip_posid tid)) =? 0 then None
        else Some (heap_copytuple junk (tuple_at p tid))).

(** ** Scans *)

Definition kHeapTuplesPerPage : nat := 256.

Definition no_relation : RelationData := mkRelation 0 None None None.
Definition no_scan : HeapScanDescData := mkScan no_relation 0 0 0 None false [] 0 None.

Definition scan_of (s : Scans) (scan : nat) : HeapScanDescData := default no_scan (scan_store s !! scan).
Definition upd_scan (scan : nat) (f : HeapScanDescData → HeapScanDescData) : M Scans unit :=
  modify (λ s, mkScans (ActiveScans s) (<[scan := f (scan_of s scan)]> (scan_store s)) (scan_next s)).

Definition on_cnums (f : list Z → list Z) : M heap_st unit :=
  zoom (modify (λ w : world,
    let c := w_caches w in
    over (mkCaches (num_commit c) (num_rollback c) (f (scan_cnums c)) (relcache c) (syscache c)) w)).

(** [scan->rs_cached_cnum = c]. *)
Definition set_cached_cnum (scan : nat) (c : Z) : M heap_st unit :=
  active ← gets (λ s, ActiveScans (h_scans s));
  on_cnums (λ l, match list_find (eq scan) active with Some (i, _) => <[i := c]> l | None => l end).

Definition with_cbuf (b : option Buffer) (d : HeapScanDescData) : HeapScanDescData :=
  mkScan (rs_base d) (rs_snapshot d) (rs_nblocks d) (rs_cblock d) b (rs_inited d) (rs_vistuples d)
    (rs_vistuple_index d) (rs_cached_snapshot d).

Definition with_cblock (blk : Z) (d : HeapScanDescData) : HeapScanDescData :=
  mkScan (rs_base d) (rs_snapshot d) (rs_nblocks d) blk (rs_cbuf d) (rs_inited d) (rs_vistuples d)
    (rs_vistuple_index d) (rs_cached_snapshot d).

Definition with_vistuples (vis : list Z) (d : HeapScanDescData) : HeapScanDescData :=
  mkScan (rs_base d) (rs_snapshot d) (rs_nblocks d) (rs_cblock d) (rs_cbuf d) (rs_inited d) vis 0
    (rs_cached_snapshot d).

Definition with_cached_snapshot (l : option nat) (d : HeapScanDescData) : HeapScanDescData :=
  mkScan (rs_base d) (rs_snapshot d) (rs_nblocks d) (rs_cblock d) (rs_cbuf d) (rs_inited d) (rs_vistuples d)
    (rs_vistuple_index d) l.

Definition heap_beginscan (relation : RelationData) (snapshot : option nat) : M heap_st nat :=
  snap ← (match snapshot with Some l => mret l | None => zoom GetTransactionSnapshot end);
  nblocks ← zoom (RelationGetNumberOfBlocks relation);
  scan ← gets (λ s, scan_next (h_scans s));
  zoom (modify (λ c, mkScans (ActiveScans c ++ [scan])
    (<[scan := mkScan relation snap nblocks 0 None false [] 0 None]> (scan_store c)) (S scan)));;
  on_cnums (λ l, l ++ [kInvalidCommandId]);;
  mret scan.

Definition release_cbuf (scan : nat) : M heap_st unit :=
  d ← gets (λ s, scan_of (h_scans s) scan);
  match rs_cbuf d with
  | Some b => zoom (ReleaseBuffer b);; zoom (upd_scan scan (with_cbuf None))
  | None => mret tt
  end.

(** The loop over the offsets of a page; [vis] are the visible ones so far.
    The visibility check may store hint bits in the tuple. *)
Fixpoint scan_offsets (buffer : Buffer) (snap : SnapshotData) (offs : list Z) (vis : list Z) : M heap_st (list Z) :=
  match offs with
  | [] => mret vis
  | offset :: rest =>
      p ← gets (λ s, page_of (h_bufs s) buffer);
      if negb (ItemIdIsNormal (PageGetItemId p offset)) then scan_offsets buffer snap rest vis
      else
        r ← zoom (HeapTupleSatisfiesMVCC (header_at p offset) snap);
        zoom (upd_header buffer offset (λ _, r.2));;
        scan_offsets buffer snap rest
          (if r.1 && (length vis <? kHeapTuplesPerPage)%nat then vis ++ [offset] else vis)
  end.

Definition heap_scan_page (scan : nat) (block_num : Z) : M heap_st unit :=
  d ← gets (λ s, scan_of (h_scans s) scan);
  node ← zoom (RelationGetSmgr (rs_base d));
  release_cbuf scan;;
  zoom (upd_scan scan (with_cblock block_num));;
  buffer ← zoom (ReadBuffer node block_num);
  zoom (upd_scan scan (λ d, with_vistuples [] (with_cbuf (Some buffer) d)));;
  max_offset ← gets (λ s, PageGetMaxOffsetNumber (page_of (h_bufs s) buffer));
  snap ← gets (λ s, default default_snapshot (snap_store (w_snap (h_world s)) !! rs_snapshot d));
  vis ← scan_offsets buffer snap (offsets max_offset) [];
  cid ← gets (λ s, GetCurrentCommandId (h_world s));
  active ← gets (λ s, GetActiveSnapshot (h_world s));
  set_cached_cnum scan cid;;
  zoom (upd_scan scan (λ d, with_cached_snapshot active (with_vistuples vis d))).

(** The loop that looks for the next page with a visible tuple; false at the
    end of the relation. *)
Fixpoint next_page (fuel : nat) (scan : nat) : M heap_st bool :=
  match fuel with
  | O => ereport "out of fuel"
  | S fuel' =>
      d ← gets (λ s, scan_of (h_scans s) scan);
      if (rs_vistuple_index d <? length (rs_vistuples d))%nat then mret true
      else
        let next_block := if rs_inited d then u32 (rs_cblock d + 1) else 0 in
        zoom (upd_scan scan (λ d, mkScan (rs_base d) (rs_snapshot d) (rs_nblocks d) (rs_cblock d) (rs_cbuf d) true
                                    (rs_vistuples d) (rs_vistuple_index d) (rs_cached_snapshot d)));;
        if rs_nblocks d <=? next_block then mret false
        else heap_scan_page scan next_block;; next_page fuel' scan
  end.

Definition heap_getnext (scan : nat) : M heap_st (option HeapTupleData) :=
  n ← gets (λ s, rs_nblocks (scan_of (h_scans s) scan));
  more ← next_page (S (S (Z.to_nat n))) scan;
  if negb more then mret None
  else
    d ← gets (λ s, scan_of (h_scans s) scan);
    zoom (upd_scan scan (λ d, mkScan (rs_base d) (rs_snapshot d) (rs_nblocks d) (rs_cblock d) (rs_cbuf d) (rs_inited d)
                                (rs_vistuples d) (S (rs_vistuple_index d)) (rs_cached_snapshot d)));;
    p ← gets (λ s, match rs_cbuf d with Some b => page_of (h_bufs s) b | None => PageInit kBlckSz 0 end);
    mret (Some (tuple_at p (mkTid (rs_cblock d) (default 0 (rs_vistuples d !! rs_vistuple_index d))))).

(** [*it = scans.back(); scans.pop_back()] for the entry [i] of a vector. *)
Definition swap_remove {A} (i : nat) (l : list A) : list A :=
  match list.last l with Some x => take (length l - 1) (<[i := x]> l) | None => l end.

Definition heap_endscan (scan : nat) : M heap_st unit :=
  active ← gets (λ s, ActiveScans (h_scans s));
  match list_find (eq scan) active with
  | Some (i, _) =>
      zoom (modify (λ c, mkScans (swap_remove i (ActiveScans c)) (scan_store c) (scan_next c)));;
      on_cnums (swap_remove i)
  | None => mret tt
  end;;
  release_cbuf scan;;
  zoom (modify (λ c, mkScans (ActiveScans c) (delete scan (scan_store c)) (scan_next c))).

Definition heap_rescan (scan : nat) : M heap_st unit :=
  release_cbuf scan;;
  d ← gets (λ s, scan_of (h_scans s) scan);
  nblocks ← zoom (RelationGetNumberOfBlocks (rs_base d));
  zoom (upd_scan scan (λ d, mkScan (rs_base d) (rs_snapshot d) nblocks 0 (rs_cbuf d) false [] 0 None));;
  set_cached_cnum scan kInvalidCommandId.

(** All tuples of a scan, one call of [heap_getnext] after the other. *)
Fixpoint scan_all (calls : nat) (scan : nat) : M heap_st (list HeapTupleData) :=
  match calls with
  | O => ereport "out of fuel"
  | S calls' =>
      t ← heap_getnext scan;
      match t with
      | None => mret []
      | Some tup => rest ← scan_all calls' scan; mret (tup :: rest)
      end
  end.

End Heap.
