(* ===== verification/HeapSpec.v ===== *)
(** * What the heap operations do to the rows of a relation

    The rows of a relation are its tuples in scan order: identifier, header
    and data bytes, read off the pages ([rows]).  The theorems describe each
    operation of [Heap] by its effect on the rows: an insertion appends one, a
    deletion, an update or a lock changes the header of one, and everything
    else stays.  [page_ok] is the invariant of heap pages. *)

From stdpp Require Import base gmap list strings.
From S2P Require Import Prelude Transam HeapTuple Proc CatalogTx World Snapshot Xact XactSpec Visibility BufPage HeapForm Slru MultiXact Lock Heap.

Module HeapSpec.
Import Lock (RowLockStrength(..), strength_val).
Import Transam HeapTuple World Snapshot Xact Visibility BufPage HeapForm MultiXact Heap.

(** ** Headers as bytes *)

Record wf_header (h : HeapTupleHeaderData) : Prop := {
  wh_xmin : is_u32 (t_xmin h);
  wh_xmax : is_u32 (t_xmax h);
  wh_cid : is_u32 (t_cid h);
  wh_blk : is_u32 (ip_blkid (t_ctid h));
  wh_pos : is_u16 (ip_posid (t_ctid h));
  wh_mask2 : is_u16 (t_infomask2 h);
  wh_mask : is_u16 (t_infomask h);
  wh_hoff : is_u8 (t_hoff h);
}.

Lemma length_encode_header h : length (encode_header h) = 23%nat.
Proof. done. Qed.

Lemma decode_encode_header h l : wf_header h → decode_header (encode_header h ++ l) = h.
Proof.
  intros [H1 H2 H3 H4 H5 H6 H7 H8].
  trans (mkHeader (of_le (to_le 4 (t_xmin h))) (of_le (to_le 4 (t_xmax h))) (of_le (to_le 4 (t_cid h)))
           (mkTid (of_le (to_le 4 (ip_blkid (t_ctid h)))) (of_le (to_le 2 (ip_posid (t_ctid h)))))
           (of_le (to_le 2 (t_infomask2 h))) (of_le (to_le 2 (t_infomask h))) (of_le (to_le 1 (t_hoff h)))); [done|].
  rewrite !of_to_le. rewrite !Z.mod_small by assumption. by destruct h as [???[]???].
Qed.

Lemma field_bound off len b : Forall is_u8 b → 0 ≤ field off len b < 256 ^ Z.of_nat len.
Proof.
  intros Hb. unfold field. pose proof (of_le_bound (take len (drop off b))) as H.
  assert (Hl : (length (take len (drop off b)) ≤ len)%nat) by (rewrite length_take; lia).
  destruct H as [H1 H2]; [by apply Forall_take, Forall_drop|]. split; [done|].
  eapply Z.lt_le_trans; [exact H2|]. apply Z.pow_le_mono_r; lia.
Qed.

Lemma wf_decode b : Forall is_u8 b → wf_header (decode_header b).
Proof. intros Hb. split; cbn; by apply field_bound. Qed.

Lemma encode_header_u8 h : Forall is_u8 (encode_header h).
Proof. unfold encode_header. repeat (apply Forall_app; split); apply to_le_u8. Qed.

(** ** Rows: the tuples of a relation in scan order *)

Record row := mkRow { row_tid : ItemPointerData; row_header : HeapTupleHeaderData; row_data : list Z }.

Definition row_of_item (tid : ItemPointerData) (item : list Z) : row :=
  mkRow tid (decode_header (take 23 item)) (drop 23 item).

Definition page_rows (blk : Z) (p : Page) : list row :=
  (λ o, row_of_item (mkTid blk o) (PageGetItem p (PageGetItemId p o)))
    <$> base.filter (λ o, ItemIdIsNormal (PageGetItemId p o) = true) (offsets (PageGetMaxOffsetNumber p)).

Fixpoint fork_rows (blk : Z) (l : list Page) : list row :=
  match l with [] => [] | p :: l' => page_rows blk p ++ fork_rows (blk + 1) l' end.

Definition rows (s : Bufs) (node : Z) : list row := fork_rows 0 (fork_of s node).

(** Every tuple has room for its header, and memory holds bytes. *)
Record page_ok (p : Page) : Prop := {
  po_wf : page_wf p;
  po_special : pd_special p = kBlckSz;
  po_len i : normal p i → kHeapTupleHeaderSize ≤ li_len (linp p i);
  po_bytes k : is_u8 (bytes p k);
}.
Definition bufs_ok (s : Bufs) : Prop := ∀ node, Forall page_ok (fork_of s node).

Lemma length_read m off len : length (read m off len) = Z.to_nat len.
Proof. unfold read. by rewrite length_fmap, length_seqZ. Qed.

Lemma read_u8 m off len : (∀ k, is_u8 (m k)) → Forall is_u8 (read m off len).
Proof. intros Hm. unfold read. apply Forall_fmap, Forall_forall. intros k _. apply Hm. Qed.

Lemma take_read m off n len : 0 ≤ n ≤ len → take (Z.to_nat n) (read m off len) = read m off n.
Proof.
  intros Hn. unfold read. rewrite <- fmap_take. f_equal. apply list_eq. intros i.
  destruct (decide (i < Z.to_nat n)%nat) as [Hi|Hi].
  - rewrite lookup_take_lt by done. rewrite !lookup_seqZ_lt by lia. done.
  - rewrite lookup_take_ge by lia. symmetry. apply lookup_seqZ_ge. lia.
Qed.

Lemma drop_read m off n len : 0 ≤ n ≤ len → drop (Z.to_nat n) (read m off len) = read m (off + n) (len - n).
Proof.
  intros Hn. unfold read. rewrite <- fmap_drop. f_equal. apply list_eq. intros i. rewrite lookup_drop.
  destruct (decide (Z.of_nat i < len - n)) as [Hi|Hi].
  - rewrite !lookup_seqZ_lt by lia. f_equal. lia.
  - rewrite !lookup_seqZ_ge by lia. done.
Qed.

(** The header pointer and the item agree. *)
Lemma header_at_item p i :
  page_ok p → normal p i → header_at p i = row_header (row_of_item (mkTid 0 i) (PageGetItem p (PageGetItemId p i))).
Proof.
  intros Hp Hi. unfold header_at, row_of_item, PageGetItem. cbn [row_header]. f_equal. symmetry.
  apply (take_read _ _ 23). pose proof (po_len p Hp i Hi). unfold kHeapTupleHeaderSize, PageGetItemId in *. lia.
Qed.

(** ** Pages *)

Lemma normals_ok p o :
  page_ok p → o ∈ base.filter (λ o, ItemIdIsNormal (PageGetItemId p o) = true) (offsets (PageGetMaxOffsetNumber p))
  ↔ normal p o.
Proof.
  intros Hp. rewrite list_elem_of_filter. unfold offsets, normal, PageGetItemId.
  rewrite (wf_max_offset p (po_wf p Hp)), elem_of_seqZ.
  split; intros [H1 H2]; (split; [lia|done]) || (split; [done|lia]).
Qed.

(** What adding an item does to the memory of the page. *)
Lemma add_item_memory item p off p' :
  PageAddItem item kInvalidOffsetNumber p = (off, p') →
  (∀ i, i ≠ off → linp p' i = linp p i) ∧ (∀ k, bytes p' k = bytes p k ∨ bytes p' k ∈ item ∨ bytes p' k = 0).
Proof.
  unfold PageAddItem. destruct (_ || _); intros Heq; injection Heq as <- <-; [split; [done|by left]|]. cbn.
  split.
  - intros i Hi. unfold set_linp. by rewrite (proj2 (Z.eqb_neq _ _) Hi).
  - intros k. destruct (0 <? _); [|by left]. unfold memcpy_in. destruct (_ && _); [|by left]. right.
    destruct (item !! _) eqn:E; cbn; [left; by eapply list_elem_of_lookup_2|by right].
Qed.

Lemma add_item_rows blk p item :
  page_ok p → Forall is_u8 item → kHeapTupleHeaderSize ≤ Z.of_nat (length item) →
  pd_lower p + kItemIdSize + MaxAlignUp (Z.of_nat (length item)) ≤ pd_upper p →
  ∃ p', PageAddItem item kInvalidOffsetNumber p = (nslots p + 1, p') ∧ page_ok p' ∧ normal p' (nslots p + 1) ∧
        page_rows blk p' = page_rows blk p ++ [row_of_item (mkTid blk (nslots p + 1)) item].
Proof.
  intros Hp Hu Hlen Hfit. pose proof (po_wf p Hp) as Hwf.
  pose proof (add_item_fits p item Hwf ltac:(unfold kHeapTupleHeaderSize in *; lia) Hfit) as Hadd.
  destruct (PageAddItem item kInvalidOffsetNumber p) as [off p'] eqn:E.
  destruct (add_item_memory _ _ _ _ E) as [Hlin Hby].
  destruct Hadd as (-> & Hwf' & Hns & Hnew & Hitem & _ & Hold). exists p'. split; [done|].
  pose proof (wf_slots p Hwf) as [_ Hn0].
  split; [split; [done| | |]|split; [done|]].
  - rewrite <- (po_special p Hp). unfold PageAddItem in E. destruct (_ || _); by injection E as _ <-.
  - intros i Hi. destruct (decide (i = nslots p + 1)) as [->|Hne].
    + assert (Hl := f_equal length Hitem). unfold PageGetItem in Hl. rewrite length_read in Hl.
      unfold PageGetItemId, kHeapTupleHeaderSize in *. lia.
    + assert (Hi' : normal p i).
      { destruct Hi as [H1 H2]. split; [lia|]. by rewrite <- (Hlin i). }
      rewrite Hlin by done. by apply (po_len p Hp).
  - intros k. destruct (Hby k) as [-> |[Hk| ->]]; [apply (po_bytes p Hp)| |unfold is_u8; lia].
    by eapply Forall_forall in Hk.
  - unfold page_rows. rewrite !wf_max_offset by done. rewrite Hns. unfold offsets.
    rewrite seqZ_app by lia. change (seqZ (1 + nslots p) 1) with [0 + (1 + nslots p)].
    replace (0 + (1 + nslots p)) with (nslots p + 1) by lia. rewrite filter_app, fmap_app. f_equal.
    + assert (Hf : ∀ o, o ∈ seqZ 1 (nslots p) → linp p' o = linp p o).
      { intros o Ho%elem_of_seqZ. apply Hlin. lia. }
      rewrite (filter_same _ (λ o, ItemIdIsNormal (PageGetItemId p o) = true)) by
        (intros o Ho; unfold PageGetItemId; by rewrite Hf).
      apply list_fmap_ext. intros i o Ho. apply list_elem_of_lookup_2, list_elem_of_filter in Ho as [Ho1 Ho2].
      apply elem_of_seqZ in Ho2. assert (Hn : normal p o) by (split; [lia|done]).
      by destruct (Hold o Hn) as (_ & _ & ->).
    + destruct Hnew as [_ Hnew]. rewrite filter_cons_True by done. cbn. by rewrite Hitem.
Qed.

(** A header written in place replaces the first 23 bytes of its item. *)
Lemma set_header_item p i h j :
  page_ok p → normal p i → normal p j →
  PageGetItem (set_header i h p) (linp p j) =
  if decide (j = i) then encode_header h ++ drop 23 (PageGetItem p (linp p i)) else PageGetItem p (linp p j).
Proof.
  intros Hp Hi Hj. pose proof (po_len p Hp i Hi) as Hl. unfold kHeapTupleHeaderSize in Hl. case_decide as Hij.
  - subst j. unfold PageGetItem at 1, set_header, PageGetItemId. cbn [bytes with_bytes].
    rewrite <- (take_drop 23 (read _ _ _)). f_equal.
    + rewrite (take_read _ _ 23) by lia. apply (read_memcpy _ (encode_header h)).
    + unfold PageGetItem. rewrite !(drop_read _ _ 23) by lia. apply read_ext. intros k Hk. apply memcpy_outside.
      rewrite length_encode_header. lia.
  - unfold PageGetItem, set_header, PageGetItemId. cbn [bytes with_bytes]. apply read_ext. intros k Hk.
    apply memcpy_outside. rewrite length_encode_header.
    pose proof (wf_apart p (po_wf p Hp) i j Hi Hj ltac:(done)) as Hap. unfold apart, item_end in Hap.
    pose proof (align_up_bounds (li_len (linp p i))). pose proof (align_up_bounds (li_len (linp p j))). lia.
Qed.

Definition set_row (tid : ItemPointerData) (h : HeapTupleHeaderData) (l : list row) : list row :=
  (λ r, if decide (row_tid r = tid) then mkRow tid h (row_data r) else r) <$> l.

Lemma memcpy_u8 dst item m : Forall is_u8 item → (∀ k, is_u8 (m k)) → ∀ k, is_u8 (memcpy_in dst item m k).
Proof.
  intros Hi Hm k. unfold memcpy_in. destruct (_ && _); [|apply Hm].
  destruct (item !! Z.to_nat (k - dst)) as [x|] eqn:E; cbn; [|by unfold is_u8].
  apply list_elem_of_lookup_2 in E. by eapply Forall_forall in E.
Qed.

Lemma set_header_ok p i h : page_ok p → page_ok (set_header i h p).
Proof.
  intros [[Hs Ho Hz Hi Ha] Hsp Hl Hb]. split; [split; done|done|done|].
  apply memcpy_u8; [apply encode_header_u8|apply Hb].
Qed.

Lemma set_header_rows blk p i h :
  page_ok p → normal p i → wf_header h → page_rows blk (set_header i h p) = set_row (mkTid blk i) h (page_rows blk p).
Proof.
  intros Hp Hi Hh. unfold page_rows, set_row. rewrite <- list_fmap_compose.
  change (PageGetMaxOffsetNumber (set_header i h p)) with (PageGetMaxOffsetNumber p).
  apply list_fmap_ext. intros n j Hj. apply list_elem_of_lookup_2 in Hj. cbn [compose].
  assert (Hn : normal p j) by (by apply (normals_ok p j Hp)).
  change (PageGetItemId (set_header i h p) j) with (linp p j). rewrite set_header_item by done.
  unfold PageGetItemId. unfold row_of_item at 2 3. cbn [row_tid row_data compose]. case_decide as Hij.
  - subst j. rewrite decide_True by done. unfold row_of_item.
    rewrite take_app_length', drop_app_length' by done. f_equal.
    rewrite <- (app_nil_r (encode_header h)). by apply decode_encode_header.
  - by rewrite decide_False by (by intros [= ?]).
Qed.

(** ** Forks *)

Lemma fork_rows_app blk l1 l2 :
  fork_rows blk (l1 ++ l2) = fork_rows blk l1 ++ fork_rows (blk + Z.of_nat (length l1)) l2.
Proof.
  revert blk. induction l1 as [|p l1 IH]; intros blk; cbn [fork_rows app length].
  - by replace (blk + Z.of_nat 0) with blk by lia.
  - rewrite IH, app_assoc. do 2 f_equal. lia.
Qed.

Lemma page_rows_block blk p r : r ∈ page_rows blk p → ip_blkid (row_tid r) = blk.
Proof. unfold page_rows. intros (o & -> & _)%list_elem_of_fmap. done. Qed.

Lemma fork_rows_block blk l r :
  r ∈ fork_rows blk l → blk ≤ ip_blkid (row_tid r) < blk + Z.of_nat (length l).
Proof.
  revert blk. induction l as [|p l IH]; intros blk; cbn [fork_rows length]; [by intros ?%not_elem_of_nil|].
  intros [->%page_rows_block|H%IH]%elem_of_app; lia.
Qed.

Lemma set_row_app tid h l1 l2 : set_row tid h (l1 ++ l2) = set_row tid h l1 ++ set_row tid h l2.
Proof. apply fmap_app. Qed.

Lemma set_row_other tid h l : (∀ r, r ∈ l → row_tid r ≠ tid) → set_row tid h l = l.
Proof.
  intros Hl. unfold set_row. rewrite <- (list_fmap_id l) at 2. apply list_fmap_ext. intros i r Hr.
  apply list_elem_of_lookup_2 in Hr. by rewrite decide_False by (by apply Hl).
Qed.

(** Replacing a page replaces its rows. *)
Lemma fork_rows_insert (l : list Page) n p q :
  l !! n = Some p →
  ∃ r1 r2, fork_rows 0 l = r1 ++ page_rows (Z.of_nat n) p ++ r2 ∧
           fork_rows 0 (<[n := q]> l) = r1 ++ page_rows (Z.of_nat n) q ++ r2 ∧
           ∀ r, r ∈ r1 ∨ r ∈ r2 → ip_blkid (row_tid r) ≠ Z.of_nat n.
Proof.
  intros Hn. pose proof (lookup_lt_Some _ _ _ Hn) as Hlt.
  exists (fork_rows 0 (take n l)), (fork_rows (Z.of_nat n + 1) (drop (S n) l)).
  assert (Hlen : length (take n l) = n) by (rewrite length_take; lia). split_and!.
  - rewrite <- (take_drop_middle l n p Hn) at 1. rewrite fork_rows_app, Hlen. done.
  - rewrite insert_take_drop by done. rewrite fork_rows_app, Hlen. done.
  - intros r [Hr|Hr]; apply fork_rows_block in Hr; rewrite ?Hlen in Hr; lia.
Qed.

(** ** Buffers *)

Lemma fork_put node n p s node' :
  fork_of (put_page (node, Z.of_nat n) p s) node' =
  if decide (node' = node) then <[n := p]> (fork_of s node) else fork_of s node'.
Proof.
  unfold fork_of at 1, put_page. cbn [main_fork fst snd]. rewrite Nat2Z.id.
  case_decide; [subst; by rewrite lookup_insert_eq|by rewrite lookup_insert_ne].
Qed.

Lemma page_of_lookup s node n p : fork_of s node !! n = Some p → page_of s (node, Z.of_nat n) = p.
Proof. intros H. unfold page_of. cbn [fst snd]. by rewrite Nat2Z.id, H. Qed.

Lemma bufs_ok_page s node n p : bufs_ok s → fork_of s node !! n = Some p → page_ok p.
Proof. intros H Hp. eapply Forall_lookup_1; [apply H|done]. Qed.

Lemma bufs_ok_put s node n p : bufs_ok s → page_ok p → bufs_ok (put_page (node, Z.of_nat n) p s).
Proof. intros Hs Hp node'. rewrite fork_put. case_decide; [|apply Hs]. apply Forall_insert; [apply Hs|done]. Qed.

Lemma rows_same_fork s s' node : fork_of s' node = fork_of s node → rows s' node = rows s node.
Proof. intros H. unfold rows. by rewrite H. Qed.

(** Where a row is stored. *)
Lemma row_location s node r :
  bufs_ok s → r ∈ rows s node →
  ∃ n p, fork_of s node !! n = Some p ∧ ip_blkid (row_tid r) = Z.of_nat n ∧ normal p (ip_posid (row_tid r)) ∧
         r = row_of_item (row_tid r) (PageGetItem p (linp p (ip_posid (row_tid r)))).
Proof.
  unfold rows. intros Hs. specialize (Hs node). generalize dependent (fork_of s node). intros l Hl Hr.
  assert (∃ n p, l !! n = Some p ∧ r ∈ page_rows (0 + Z.of_nat n) p) as (n & p & Hn & Hrow).
  { generalize dependent 0. induction l as [|q l IH]; intros b; cbn [fork_rows]; [by intros ?%not_elem_of_nil|].
    inversion Hl; subst. intros [H|H]%elem_of_app.
    - exists 0%nat, q. split; [done|]. by replace (b + Z.of_nat 0) with b by lia.
    - destruct (IH ltac:(done) (b + 1) H) as (n & p & Hn & Hr). exists (S n), p. split; [done|].
      by replace (b + Z.of_nat (S n)) with (b + 1 + Z.of_nat n) by lia. }
  exists n, p. split; [done|]. unfold page_rows in Hrow.
  apply list_elem_of_fmap in Hrow as (o & -> & Ho). cbn [row_tid row_of_item ip_blkid ip_posid].
  split; [lia|]. split; [|done]. apply (normals_ok p o); [by eapply Forall_lookup_1|done].
Qed.

(** Writing a header in place changes one row. *)
Lemma rows_set_header s node n p i h :
  bufs_ok s → fork_of s node !! n = Some p → normal p i → wf_header h →
  let s' := put_page (node, Z.of_nat n) (set_header i h p) s in
  bufs_ok s' ∧ rows s' node = set_row (mkTid (Z.of_nat n) i) h (rows s node) ∧
  (∀ node', node' ≠ node → fork_of s' node' = fork_of s node').
Proof.
  intros Hs Hp Hi Hh s'. assert (Hpo : page_ok p) by (by eapply bufs_ok_page). split_and!.
  - apply bufs_ok_put; [done|by apply set_header_ok].
  - unfold rows, s'. rewrite fork_put, decide_True by done.
    destruct (fork_rows_insert _ n p (set_header i h p) Hp) as (r1 & r2 & -> & -> & Hne).
    rewrite !set_row_app, set_header_rows by done.
    rewrite (set_row_other _ _ r1), (set_row_other _ _ r2); [done|..];
      intros r Hr E; apply (Hne r); [by right|by rewrite E|by left|by rewrite E].
  - intros node' Hn. unfold s'. by rewrite fork_put, decide_False.
Qed.

Lemma read_buffer_run s node n p :
  fork_of s node !! n = Some p →
  ∃ s', ReadBuffer node (Z.of_nat n) s = (Ret (node, Z.of_nat n), s') ∧ main_fork s' = main_fork s ∧
        dirty s' = dirty s ∧ pins s' = <[(node, Z.of_nat n) := pin_count s (node, Z.of_nat n) + 1]> (pins s).
Proof.
  intros Hp. apply lookup_lt_Some in Hp. unfold ReadBuffer.
  rewrite (proj2 (andb_true_iff _ _)) by (split; [apply Z.leb_le|apply Z.ltb_lt]; lia). by eexists.
Qed.

(** ** Inserting *)

Definition opened (relation : RelationData) (node : Z) : Prop := ∀ s, RelationGetSmgr relation s = (Ret node, s).

(** What happens to the pages of one relation while buffers are pinned. *)
Record touches (node : Z) (s s' : Bufs) : Prop := {
  to_ok : bufs_ok s';
  to_others node' : node' ≠ node → fork_of s' node' = fork_of s node';
  to_grow : (length (fork_of s' node) ≤ S (length (fork_of s node)))%nat;
}.
Definition pinned (b : Buffer) (s s' : Bufs) : Prop :=
  ∀ b', pin_count s' b' = pin_count s b' + (if decide (b' = b) then 1 else 0).
Definition pins_ok (s : Bufs) : Prop := ∀ b, 0 ≤ pin_count s b.

Lemma pin_count_insert s b x b' :
  default 0 (<[b := x]> (pins s) !! b') = if decide (b' = b) then x else pin_count s b'.
Proof. case_decide; [subst; by rewrite lookup_insert_eq|by rewrite lookup_insert_ne]. Qed.

Lemma release_run b s s1 :
  pins_ok s → pinned b s s1 →
  ∃ s2, ReleaseBuffer b s1 = (Ret tt, s2) ∧ main_fork s2 = main_fork s1 ∧ dirty s2 = dirty s1 ∧
        ∀ b', pin_count s2 b' = pin_count s b'.
Proof.
  intros H0 Hp. eexists. split; [done|]. cbn. split_and!; [done|done|]. intros b'.
  unfold pin_count at 1. cbn [pins]. rewrite pin_count_insert, !Hp. rewrite (decide_True (P := b = b)) by done.
  specialize (H0 b). rewrite (proj2 (Z.ltb_lt _ _)) by lia. case_decide; subst; lia.
Qed.

Lemma fork_of_main s s' node : main_fork s' = main_fork s → fork_of s' node = fork_of s node.
Proof. intros H. unfold fork_of. by rewrite H. Qed.

Lemma empty_page_ok : page_ok (PageInit kBlckSz 0).
Proof.
  split; [by apply init_wf|done|by intros i [_ ?]|]. intros k. unfold is_u8. cbn. lia.
Qed.

Lemma create_page_run relation node s :
  opened relation node → bufs_ok s →
  let n := length (fork_of s node) in
  ∃ s', CreateAndReadNewPage relation (Z.of_nat n) s = (Ret (node, Z.of_nat n), s') ∧ touches node s s' ∧
        fork_of s' node = fork_of s node ++ [PageInit kBlckSz 0] ∧ dirty s' = dirty s ∧
        pinned (node, Z.of_nat n) s s'.
Proof.
  intros Hr Hs n. unfold CreateAndReadNewPage. rewrite (bind_ret_run _ _ _ _ _ (Hr s)).
  set (s1 := mkBufs (<[node := fork_of s node ++ [PageInit kBlckSz 0]]> (main_fork s)) (pins s) (dirty s)).
  erewrite bind_ret_run by done. fold s1.
  assert (Hf : ∀ node', fork_of s1 node' = if decide (node' = node) then fork_of s node ++ [PageInit kBlckSz 0] else fork_of s node').
  { intros node'. unfold fork_of at 1. cbn [s1 main_fork]. case_decide;
      [subst; by rewrite lookup_insert_eq|by rewrite lookup_insert_ne]. }
  destruct (read_buffer_run s1 node n (PageInit kBlckSz 0)) as (s2 & Hrd & Hm & Hd & Hp).
  { rewrite Hf, decide_True by done. unfold n. by apply list_lookup_middle. }
  exists s2. split; [done|].
  assert (Hf2 : ∀ node', fork_of s2 node' = fork_of s1 node') by (intros; by apply fork_of_main).
  split_and!; [split| |done|].
  - intros node'. rewrite Hf2, Hf. case_decide; [|apply Hs]. apply Forall_app. split; [apply Hs|].
    constructor; [apply empty_page_ok|done].
  - intros node' Hn. by rewrite Hf2, Hf, decide_False.
  - rewrite Hf2, Hf, decide_True, length_app by done. cbn. lia.
  - by rewrite Hf2, Hf, decide_True.
  - intros b'. unfold pin_count at 1. rewrite Hp, pin_count_insert. case_decide; [subst|]; unfold pin_count; cbn; lia.
Qed.

(** Room on the page as the heap computes it. *)
Lemma free_space_fits p len :
  0 < len → len ≤ PageGetHeapFreeSpace p → pd_lower p + kItemIdSize + MaxAlignUp len ≤ pd_upper p.
Proof.
  unfold PageGetHeapFreeSpace. change (kItemIdSize - 1) with (2 ^ 2 - 1). rewrite clear_low by lia.
  rewrite align_up_spec. unfold kItemIdSize. change (2 ^ 2) with 4. intros H0 H1.
  pose proof (Z.div_mod (pd_upper p - pd_lower p - 4) 4). pose proof (Z.mod_pos_bound (pd_upper p - pd_lower p - 4) 4).
  pose proof (Z.div_mod (len + 3) 4). pose proof (Z.mod_pos_bound (len + 3) 4). lia.
Qed.

(** The largest tuple an empty page holds. *)
Definition kMaxTuple : Z := kBlckSz - kPageHeaderSize - kItemIdSize.

(** The block found for a tuple: the last one, pinned, with room, and no row
    changed so far. *)
Record target (node len : Z) (s : Bufs) (n : nat) (p : Page) (s' : Bufs) : Prop := {
  tg_touches : touches node s s';
  tg_page : fork_of s' node !! n = Some p;
  tg_last : S n = length (fork_of s' node);
  tg_room : pd_lower p + kItemIdSize + MaxAlignUp len ≤ pd_upper p;
  tg_rows : rows s' node = rows s node;
  tg_dirty : dirty s' = dirty s;
  tg_pinned : pinned (node, Z.of_nat n) s s';
}.

Lemma new_target_run relation node len s s1 :
  opened relation node → bufs_ok s → 0 < len ≤ kMaxTuple →
  (∀ node', fork_of s1 node' = fork_of s node') → dirty s1 = dirty s → (∀ b, pin_count s1 b = pin_count s b) →
  ∃ n p s', CreateAndReadNewPage relation (Z.of_nat (length (fork_of s node))) s1 = (Ret (node, Z.of_nat n), s') ∧
            target node len s n p s'.
Proof.
  intros Hr Hs Hlen Hf1 Hd1 Hp1. rewrite <- Hf1.
  assert (Hs1 : bufs_ok s1) by (intros node'; rewrite Hf1; apply Hs).
  destruct (create_page_run relation node s1 Hr Hs1) as (s2 & Hrun & [Hok Ho Hg] & Hf & Hd & Hp).
  exists (length (fork_of s1 node)), (PageInit kBlckSz 0), s2. split; [done|]. split.
  - split; [done| |by rewrite <- Hf1]. intros node' Hn. by rewrite Ho, Hf1.
  - rewrite Hf. by apply list_lookup_middle.
  - rewrite Hf, length_app. cbn. lia.
  - unfold kMaxTuple in *. rewrite align_up_spec. cbn. unfold kBlckSz, kPageHeaderSize, kItemIdSize, u16 in *.
    pose proof (Z.div_mod (len + 3) 4). pose proof (Z.mod_pos_bound (len + 3) 4).
    change ((8192 - 0) `mod` 2 ^ 16) with 8192. lia.
  - unfold rows. rewrite Hf, Hf1, fork_rows_app. cbn [fork_rows]. by rewrite !app_nil_r.
  - by rewrite Hd.
  - intros b'. by rewrite Hp, Hp1.
Qed.

Lemma free_space_small p : page_ok p → 0 ≤ PageGetHeapFreeSpace p < 2 ^ 31.
Proof.
  intros Hpo. destruct (wf_order p (po_wf p Hpo)) as [Hlo Hup]. pose proof (wf_size p (po_wf p Hpo)) as Hsz.
  destruct (wf_slots p (po_wf p Hpo)) as [Hlow Hns].
  unfold PageGetHeapFreeSpace. change (kItemIdSize - 1) with (2 ^ 2 - 1). rewrite clear_low by lia.
  pose proof (Z.div_mod (pd_upper p - pd_lower p - kItemIdSize) (2 ^ 2)).
  pose proof (Z.mod_pos_bound (pd_upper p - pd_lower p - kItemIdSize) (2 ^ 2)).
  unfold kPageHeaderSize, kItemIdSize in *. lia.
Qed.

Lemma read_pins s node n s1 :
  pins s1 = <[(node, Z.of_nat n) := pin_count s (node, Z.of_nat n) + 1]> (pins s) → pinned (node, Z.of_nat n) s s1.
Proof. intros Hpn b'. unfold pin_count at 1. rewrite Hpn, pin_count_insert. case_decide; [by subst|lia]. Qed.

Lemma target_buffer_run relation node len s :
  opened relation node → bufs_ok s → pins_ok s → 0 < len ≤ kMaxTuple →
  ∃ n p s', target_buffer relation len s = (Ret (node, Z.of_nat n), s') ∧ target node len s n p s'.
Proof.
  intros Hr Hs Hpi Hlen. unfold target_buffer, RelationGetNumberOfBlocks.
  rewrite (bind_ret_run _ _ _ _ _ (Hr s)). rewrite bind_assoc_run, (bind_ret_run _ _ _ _ _ (Hr s)).
  erewrite bind_ret_run by done.
  destruct (Z.of_nat (length (fork_of s node)) =? 0) eqn:E0; to_prop.
  { change 0 with (Z.of_nat 0). replace 0%nat with (length (fork_of s node)) by lia. by apply new_target_run. }
  destruct (lookup_lt_is_Some_2 (fork_of s node) (length (fork_of s node) - 1)) as [p Hp]; [lia|].
  replace (Z.of_nat (length (fork_of s node)) - 1) with (Z.of_nat (length (fork_of s node) - 1)) by lia.
  set (n := (length (fork_of s node) - 1)%nat) in *.
  destruct (read_buffer_run s node n p Hp) as (s1 & Hrd & Hm & Hd & Hpn).
  rewrite (bind_ret_run _ _ _ _ _ Hrd). erewrite bind_ret_run by done.
  assert (Hf1 : ∀ node, fork_of s1 node = fork_of s node) by (intros; by apply fork_of_main).
  rewrite (page_of_lookup s1 node n p) by (by rewrite Hf1). apply read_pins in Hpn.
  assert (Hpo : page_ok p) by exact (bufs_ok_page s node n p Hs Hp). pose proof (free_space_small p Hpo).
  unfold kMaxTuple, kBlckSz, kPageHeaderSize, kItemIdSize in Hlen.
  rewrite !i32_small by lia. destruct (PageGetHeapFreeSpace p <? len) eqn:E; to_prop.
  - destruct (release_run _ s s1 Hpi Hpn) as (s2 & Hrel & Hm2 & Hd2 & Hp2).
    rewrite (bind_ret_run _ _ _ _ _ Hrel). apply new_target_run; try done; [|by rewrite Hd2].
    intros node'. rewrite <- Hf1. by apply fork_of_main.
  - exists n, p, s1. split; [done|]. split; [split|..]; rewrite ?Hf1; try done.
    + intros node'. rewrite Hf1. apply Hs.
    + lia.
    + unfold n. lia.
    + apply free_space_fits; lia.
    + unfold rows. by rewrite Hf1.
Qed.

Record tuple_ok (tup : HeapTupleData) : Prop := {
  tk_header : wf_header (t_data tup);
  tk_len : kHeapTupleHeaderSize ≤ t_len tup ≤ kMaxTuple;
  tk_bytes k : is_u8 (t_bytes tup k);
}.

(** The bytes behind the header. *)
Definition payload (tup : HeapTupleData) : list Z :=
  read (t_bytes tup) kHeapTupleHeaderSize (t_len tup - kHeapTupleHeaderSize).

Definition inserted_header (xid cid : Z) (h : HeapTupleHeaderData) : HeapTupleHeaderData :=
  HeapTupleHeaderSetXmax (HeapTupleHeaderSetCid (HeapTupleHeaderSetXmin h xid) cid) kInvalidTransactionId.

Lemma inserted_header_wf xid cid h : is_u32 xid → is_u32 cid → wf_header h → wf_header (inserted_header xid cid h).
Proof. intros Hx Hc [H1 H2 H3 H4 H5 H6 H7 H8]. by split. Qed.

Lemma image_length h tup : tuple_ok tup → Z.of_nat (length (tuple_image (with_data h tup))) = t_len tup.
Proof.
  intros [_ Hl _]. unfold tuple_image. rewrite length_app, length_encode_header, length_read. cbn.
  unfold kHeapTupleHeaderSize in *. lia.
Qed.

Lemma image_row tid h tup :
  wf_header h → row_of_item tid (tuple_image (with_data h tup)) = mkRow tid h (payload tup).
Proof.
  intros Hh. unfold row_of_item, tuple_image. cbn [t_data t_bytes t_len with_data].
  rewrite take_app_length', drop_app_length' by done. f_equal.
  rewrite <- (app_nil_r (encode_header h)). by apply decode_encode_header.
Qed.

(** Adding the item to the target page. *)
Lemma add_target node len s n p s1 item :
  target node len s n p s1 → Z.of_nat (length item) = len → Forall is_u8 item → kHeapTupleHeaderSize ≤ len →
  let tid := mkTid (Z.of_nat n) (nslots p + 1) in
  ∃ s2, add_item (node, Z.of_nat n) item s1 = (Ret (nslots p + 1), s2) ∧ nslots p + 1 ≠ kInvalidOffsetNumber ∧
        touches node s s2 ∧ rows s2 node = rows s node ++ [row_of_item tid item] ∧
        (tid ∉ (row_tid <$> rows s node)) ∧ dirty s2 = dirty s ∧ pins s2 = pins s1.
Proof.
  intros [[Hok Hoth Hg] Hp Hlast Hroom Hrows Hd Hpin] Hlen Hu Hl tid.
  assert (Hpo : page_ok p) by exact (bufs_ok_page s1 node n p Hok Hp).
  destruct (add_item_rows (Z.of_nat n) p item Hpo Hu) as (p' & Hadd & Hpo' & Hnew & Hr); [lia|by rewrite Hlen|].
  destruct (wf_slots p (po_wf p Hpo)) as [_ Hns].
  exists (put_page (node, Z.of_nat n) p' s1). unfold add_item. rewrite (page_of_lookup s1 node n p Hp), Hadd.
  split; [done|]. split; [unfold kInvalidOffsetNumber; lia|]. split_and!; [split| | |done|done].
  - by apply bufs_ok_put.
  - intros node' Hn. rewrite fork_put, decide_False by done. by apply Hoth.
  - rewrite fork_put, decide_True, length_insert by done. done.
  - rewrite <- Hrows. unfold rows at 1. rewrite fork_put, decide_True by done.
    unfold rows. rewrite <- (take_drop_middle (fork_of s1 node) n p Hp) at 2.
    rewrite insert_take_drop by lia. rewrite (drop_ge _ (S n)) by lia.
    rewrite !fork_rows_app. cbn [fork_rows].
    replace (length (take n (fork_of s1 node))) with n by (rewrite length_take; lia).
    rewrite Z.add_0_l, Hr, !app_nil_r. by rewrite app_assoc.
  - rewrite <- Hrows. intros (r & Hr' & Hin)%list_elem_of_fmap.
    destruct (row_location s1 node r Hok Hin) as (n' & q & Hq & Hb & Hnq & _).
    rewrite <- Hr' in Hb, Hnq. cbn in Hb, Hnq. apply Nat2Z.inj in Hb as <-.
    rewrite Hp in Hq. injection Hq as <-. destruct Hnq as [? _]. lia.
Qed.

Lemma insert_internal_run relation node tup s xid w1 :
  opened relation node → bufs_ok (h_bufs s) → pins_ok (h_bufs s) → tuple_ok tup →
  GetCurrentTransactionId (h_world s) = (Ret xid, w1) → is_u32 xid → is_u32 (GetCurrentCommandId w1) →
  let header := inserted_header xid (GetCurrentCommandId w1) (t_data tup) in
  ∃ tid b, let s' := mkHeap w1 b (h_mx s) (h_scans s) in
    heap_insert_internal relation tup s =
      (Ret (tid, mkTuple (t_len tup) tid (HeapTupleHeaderSetTid header tid) (t_bytes tup)), s') ∧
    touches node (h_bufs s) b ∧ rows b node = rows (h_bufs s) node ++ [mkRow tid header (payload tup)] ∧
    (tid ∉ (row_tid <$> rows (h_bufs s) node)) ∧ (∀ x, pin_count b x = pin_count (h_bufs s) x) ∧
    dirty b = {[(node, ip_blkid tid)]} ∪ dirty (h_bufs s).
Proof.
  intros Hr Hs Hpi Ht Hx Hux Huc header. pose proof (inserted_header_wf _ _ _ Hux Huc (tk_header _ Ht)) as Hh.
  fold header in Hh. unfold heap_insert_internal. rewrite (bind_ret_run _ _ _ _ _ (zoom_run _ _ _ _ Hx)).
  erewrite bind_ret_run by done. cbn [h_world over lens_world].
  change (HeapTupleHeaderSetXmax _ kInvalidTransactionId) with header.
  destruct (target_buffer_run relation node (t_len tup) (h_bufs s) Hr Hs Hpi) as (n & p & b1 & Hrun & Htg).
  { pose proof (tk_len _ Ht). unfold kHeapTupleHeaderSize in *. lia. }
  erewrite bind_ret_run by (apply zoom_run; exact Hrun).
  assert (Hpin : pinned (node, Z.of_nat n) (h_bufs s) b1) by apply Htg.
  destruct (add_target _ _ _ _ _ _ (tuple_image (with_data header tup)) Htg) as
    (b2 & Hadd & Hne & [Hok Ho Hg] & Hrows & Hfresh & Hd & Hp2).
  { by apply image_length. }
  { unfold tuple_image. apply Forall_app. split; [apply encode_header_u8|]. apply read_u8, Ht. }
  { apply Ht. }
  erewrite bind_ret_run by (apply zoom_run; exact Hadd).
  rewrite (proj2 (Z.eqb_neq _ _) Hne). erewrite bind_ret_run by done.
  set (b3 := mkBufs (main_fork b2) (pins b2) ({[(node, Z.of_nat n)]} ∪ dirty b2)).
  destruct (release_run (node, Z.of_nat n) (h_bufs s) b3 Hpi) as (b4 & Hrel & Hm & Hd4 & Hp4).
  { intros x. rewrite <- Hpin. unfold pin_count. cbn [b3 pins]. by rewrite Hp2. }
  erewrite bind_ret_run by (apply zoom_run; exact Hrel).
  exists (mkTid (Z.of_nat n) (nslots p + 1)), b4. split; [done|].
  assert (Hf : ∀ x, fork_of b4 x = fork_of b2 x) by (intros; by apply fork_of_main).
  split_and!.
  - split; [intros x; rewrite Hf; apply Hok| |by rewrite Hf]. intros x Hxx. rewrite Hf. by apply Ho.
  - rewrite (rows_same_fork b2 b4) by apply Hf. by rewrite Hrows, image_row.
  - done.
  - done.
  - rewrite Hd4. cbn [dirty b3 ip_blkid]. by rewrite Hd.
Qed.

(** ** Changing a tuple in place *)

Lemma set_row_in tid h l r : r ∈ set_row tid h l → ∃ r0, r0 ∈ l ∧ row_tid r = row_tid r0 ∧ row_data r = row_data r0.
Proof.
  intros (r0 & -> & H)%list_elem_of_fmap. exists r0. split; [done|]. case_decide as E; [by rewrite E|done].
Qed.

Lemma row_header_wf s node r : bufs_ok s → r ∈ rows s node → wf_header (row_header r).
Proof.
  intros Hs Hr. destruct (row_location s node r Hs Hr) as (n & p & Hp & _ & _ & ->). cbn [row_header row_of_item].
  apply wf_decode, Forall_take. apply read_u8, (bufs_ok_page s node n p Hs Hp).
Qed.

(** The buffer of a row, as the operations on one tuple use it. *)
Lemma row_buffer_run s node r :
  bufs_ok s → r ∈ rows s node → let b := (node, ip_blkid (row_tid r)) in
  ∃ s', ReadBuffer node (ip_blkid (row_tid r)) s = (Ret b, s') ∧ main_fork s' = main_fork s ∧ dirty s' = dirty s ∧
        pinned b s s'.
Proof.
  intros Hs Hr. destruct (row_location s node r Hs Hr) as (n & p & Hp & -> & _).
  destruct (read_buffer_run s node n p Hp) as (s' & Hrun & Hm & Hd & Hpin). exists s'. split_and!; [done..|].
  by apply read_pins.
Qed.

Lemma header_at_row s node r :
  bufs_ok s → r ∈ rows s node →
  header_at (page_of s (node, ip_blkid (row_tid r))) (ip_posid (row_tid r)) = row_header r.
Proof.
  intros Hs Hr. destruct (row_location s node r Hs Hr) as (n & p & Hp & -> & Hn & Hrow).
  rewrite (page_of_lookup s node n p Hp), header_at_item by (done || exact (bufs_ok_page s node n p Hs Hp)).
  change (row_header (row_of_item (row_tid r) (PageGetItem p (linp p (ip_posid (row_tid r))))) = row_header r).
  by rewrite <- Hrow.
Qed.

Lemma upd_header_run s node r f :
  bufs_ok s → r ∈ rows s node → wf_header (f (row_header r)) →
  ∃ s', upd_header (node, ip_blkid (row_tid r)) (ip_posid (row_tid r)) f s = (Ret tt, s') ∧ touches node s s' ∧
        rows s' node = set_row (row_tid r) (f (row_header r)) (rows s node) ∧ dirty s' = dirty s ∧ pins s' = pins s.
Proof.
  intros Hs Hr Hf. eexists. split; [done|]. cbv zeta. rewrite (header_at_row s node r Hs Hr).
  destruct (row_location s node r Hs Hr) as (n & p & Hp & Hb & Hn & _). rewrite Hb, (page_of_lookup s node n p Hp).
  destruct (rows_set_header s node n p (ip_posid (row_tid r)) (f (row_header r)) Hs Hp Hn Hf) as (H1 & H2 & H3).
  split_and!; [split; [done..|]| |done|done].
  - rewrite fork_put, decide_True, length_insert by done. lia.
  - rewrite H2. f_equal. rewrite <- Hb. by destruct (row_tid r).
Qed.

Lemma pinned_pins b s s1 s2 : pinned b s s1 → pins s2 = pins s1 → pinned b s s2.
Proof. intros H Hp x. unfold pin_count at 1. rewrite Hp. apply H. Qed.

(** Reading the page, changing the header, marking the buffer dirty and
    releasing it: what delete and lock do to the pages. *)
Lemma edit_run s node r f s1 :
  bufs_ok s → pins_ok s → r ∈ rows s node → wf_header (f (row_header r)) →
  main_fork s1 = main_fork s → dirty s1 = dirty s → pinned (node, ip_blkid (row_tid r)) s s1 →
  let b := (node, ip_blkid (row_tid r)) in
  ∃ s2 s4, upd_header b (ip_posid (row_tid r)) f s1 = (Ret tt, s2) ∧
    ReleaseBuffer b (mkBufs (main_fork s2) (pins s2) ({[b]} ∪ dirty s2)) = (Ret tt, s4) ∧
    touches node s s4 ∧ rows s4 node = set_row (row_tid r) (f (row_header r)) (rows s node) ∧
    dirty s4 = {[b]} ∪ dirty s ∧ ∀ x, pin_count s4 x = pin_count s x.
Proof.
  intros Hs Hpi Hr Hf Hm Hd Hpin b.
  assert (Hff : ∀ x, fork_of s1 x = fork_of s x) by (intros; by apply fork_of_main).
  assert (Hrows : rows s1 node = rows s node) by (by apply rows_same_fork).
  destruct (upd_header_run s1 node r f) as (s2 & Hrun & [Hok Ho Hg] & Hr2 & Hd2 & Hp2);
    [intros x; rewrite Hff; apply Hs|by rewrite Hrows|done|].
  destruct (release_run b s (mkBufs (main_fork s2) (pins s2) ({[b]} ∪ dirty s2)) Hpi) as (s4 & Hrel & Hm4 & Hd4 & Hp4).
  { by eapply pinned_pins. }
  exists s2, s4. split_and!; [done|done| | | |done].
  - split; [intros x; rewrite (fork_of_main s2 s4) by done; apply Hok|
            |rewrite (fork_of_main s2 s4) by done; by rewrite <- (Hff node)].
    intros x Hx. rewrite (fork_of_main s2 s4) by done. by rewrite Ho, Hff.
  - rewrite (rows_same_fork s2 s4) by (by apply fork_of_main). by rewrite Hr2, Hrows.
  - rewrite Hd4. cbn [dirty]. by rewrite Hd2, Hd.
Qed.

(** ** The transaction manager's part *)

Definition after_command (w : world) : world := exec CommandCounterIncrement w.

Lemma command_run w : CommandCounterIncrement w = (Ret tt, after_command w).
Proof.
  unfold after_command, exec, CommandCounterIncrement. run_step. destruct (CurrentState w); [|done].
  destruct (GetActiveSnapshot _); done.
Qed.

Lemma command_step s :
  zoom CommandCounterIncrement s = (Ret tt, mkHeap (after_command (h_world s)) (h_bufs s) (h_mx s) (h_scans s)).
Proof. exact (zoom_run _ s _ _ (command_run (h_world s))). Qed.

(** Asking for the transaction id again gives the same id and changes nothing. *)
Lemma get_xid_again w x w1 :
  GetCurrentTransactionId w = (Ret x, w1) → TransactionIdIsValid x = true → GetCurrentTransactionId w1 = (Ret x, w1).
Proof.
  unfold GetCurrentTransactionId at 1. run_step. destruct (CurrentState w) as [t|] eqn:Et; [|by intros [= <- <-]].
  destruct (TransactionIdIsValid (transaction_id t)) eqn:Ev.
  - intros [= <- <-] _. unfold GetCurrentTransactionId. run_step. by rewrite Et, Ev.
  - destruct (negb _); [destruct (assign_top_xid w) as [[[]|e] w2] eqn:Ea; [|done]|set (w2 := w)];
      intros [= <- <-] Hv; unfold GetCurrentTransactionId, CurrentState, upd_stack, zoom, modify, gets, get; run_step;
      (assert (Hne : StateStack (w_xact w2) ≠ []) by
         (intros E; unfold GetTopLevelTransactionIdIfAny, TopState in Hv; by rewrite E in Hv));
      (destruct (StateStack (w_xact w2)) as [|t2 st]; [done|]); cbn; by rewrite Hv.
Qed.

Lemma mark_deleted_wf xid cid h : is_u32 xid → is_u32 cid → wf_header h → wf_header (mark_deleted xid cid h).
Proof. intros Hx Hc [H1 H2 H3 H4 H5 H6 H7 H8]. by split. Qed.

Lemma row_tid_bounds s node r :
  bufs_ok s → r ∈ rows s node →
  0 ≤ ip_blkid (row_tid r) < Z.of_nat (length (fork_of s node)) ∧ is_u16 (ip_posid (row_tid r)).
Proof.
  intros Hs Hr. destruct (row_location s node r Hs Hr) as (n & p & Hp & -> & [Hn _] & _).
  pose proof (lookup_lt_Some _ _ _ Hp). split; [lia|].
  pose proof (bufs_ok_page s node n p Hs Hp) as Hpo. destruct (wf_order p (po_wf p Hpo)).
  pose proof (wf_size p (po_wf p Hpo)). destruct (wf_slots p (po_wf p Hpo)).
  unfold kPageHeaderSize, kItemIdSize, is_u16 in *. lia.
Qed.

Section modification.
Context (junk : Z → Z) (detoast_attr : list Z → list Z).
Context (toast_insert : RelationData → list Datum → list bool → TupleDescData → M heap_st (list Datum)).
Context (toast_delete : RelationData → list Datum → list bool → TupleDescData → M heap_st unit).
Context (relation : RelationData) (node : Z) (Hrel : opened relation node).

(** The values of the tuples at hand are not toasted: the relation is a TOAST
    table or its values are small. *)
Definition plain_tuple (tup : HeapTupleData) : Prop :=
  ∀ s, toast_new junk detoast_attr toast_insert relation tup s = (Ret tup, s).
Definition plain_old (tid : ItemPointerData) : Prop :=
  ∀ b s, toast_old detoast_attr toast_delete relation b tid s = (Ret tt, s).

Lemma heap_delete_run s r xid w1 :
  bufs_ok (h_bufs s) → pins_ok (h_bufs s) → r ∈ rows (h_bufs s) node → plain_old (row_tid r) →
  GetCurrentTransactionId (h_world s) = (Ret xid, w1) → is_u32 xid → is_u32 (GetCurrentCommandId w1) →
  ∃ b, heap_delete detoast_attr toast_delete relation (row_tid r) s =
         (Ret tt, mkHeap (after_command w1) b (h_mx s) (h_scans s)) ∧
    touches node (h_bufs s) b ∧
    rows b node = set_row (row_tid r) (mark_deleted xid (GetCurrentCommandId w1) (row_header r)) (rows (h_bufs s) node) ∧
    dirty b = {[(node, ip_blkid (row_tid r))]} ∪ dirty (h_bufs s) ∧
    ∀ x, pin_count b x = pin_count (h_bufs s) x.
Proof.
  intros Hs Hpi Hr Hplain Hx Hux Huc. unfold heap_delete.
  rewrite (bind_ret_run _ _ _ _ _ (zoom_run _ s _ _ (Hrel (h_bufs s)))).
  destruct (row_buffer_run (h_bufs s) node r Hs Hr) as (b1 & Hrd & Hm & Hd & Hpin).
  erewrite bind_ret_run by (apply zoom_run; exact Hrd). rewrite (bind_ret_run _ _ _ _ _ (Hplain _ _)).
  erewrite bind_ret_run by (apply zoom_run; exact Hx). erewrite bind_ret_run by done. cbn [h_world over lens_world].
  destruct (edit_run (h_bufs s) node r (mark_deleted xid (GetCurrentCommandId w1)) b1) as
    (b2 & b4 & Hup & Hrl & Ht & Hrows & Hdd & Hpp); try done.
  { apply mark_deleted_wf; [done|done|]. by eapply row_header_wf. }
  erewrite bind_ret_run by (apply zoom_run; exact Hup). erewrite bind_ret_run by done.
  erewrite bind_ret_run by (apply zoom_run; exact Hrl). exists b4. split; [|done].
  by rewrite command_step.
Qed.

(** deleting a tuple.  [heap_delete] stamps exactly the named tuple with
    the current transaction and command; every other tuple of every relation
    keeps its header and bytes, the buffer is marked dirty and no pin is left
    behind; then the command counter advances. *)
Theorem heap_delete_marks_row s r xid w1 :
  bufs_ok (h_bufs s) → pins_ok (h_bufs s) → r ∈ rows (h_bufs s) node → plain_old (row_tid r) →
  GetCurrentTransactionId (h_world s) = (Ret xid, w1) → is_u32 xid → is_u32 (GetCurrentCommandId w1) →
  ∃ b, heap_delete detoast_attr toast_delete relation (row_tid r) s =
         (Ret tt, mkHeap (after_command w1) b (h_mx s) (h_scans s)) ∧
    bufs_ok b ∧ (∀ node', node' ≠ node → fork_of b node' = fork_of (h_bufs s) node') ∧
    rows b node = set_row (row_tid r) (mark_deleted xid (GetCurrentCommandId w1) (row_header r)) (rows (h_bufs s) node) ∧
    (node, ip_blkid (row_tid r)) ∈ dirty b ∧ ∀ x, pin_count b x = pin_count (h_bufs s) x.
Proof.
  intros Hs Hpi Hr Hplain Hx Hux Huc.
  destruct (heap_delete_run s r xid w1 Hs Hpi Hr Hplain Hx Hux Huc) as (b & Hrun & [Hok Ho Hg] & Hrows & Hd & Hp).
  exists b. split_and!; [done..| |done]. rewrite Hd. by apply elem_of_union_l, elem_of_singleton_2.
Qed.

(** C9: inserting a tuple.  [heap_insert] of a tuple that fits on a page
    succeeds: the relation has one more row, behind all others, with a tuple
    identifier no row had, the given data, and a header that names the current
    transaction and command as inserter and no deleter; all other rows of all
    relations stay as they are, and no buffer stays pinned. *)
Theorem heap_insert_appends_row s tup xid w1 :
  bufs_ok (h_bufs s) → pins_ok (h_bufs s) → tuple_ok tup → plain_tuple tup →
  GetCurrentTransactionId (h_world s) = (Ret xid, w1) → is_u32 xid → is_u32 (GetCurrentCommandId w1) →
  let header := inserted_header xid (GetCurrentCommandId w1) (t_data tup) in
  ∃ tid tup' b, heap_insert junk detoast_attr toast_insert relation tup s =
         (Ret (tid, tup'), mkHeap (after_command w1) b (h_mx s) (h_scans s)) ∧
    bufs_ok b ∧ (∀ node', node' ≠ node → fork_of b node' = fork_of (h_bufs s) node') ∧
    rows b node = rows (h_bufs s) node ++ [mkRow tid header (payload tup)] ∧
    (tid ∉ (row_tid <$> rows (h_bufs s) node)) ∧ t_self tup' = tid ∧
    ∀ x, pin_count b x = pin_count (h_bufs s) x.
Proof.
  intros Hs Hpi Ht Hplain Hx Hux Huc header. unfold heap_insert. rewrite (bind_ret_run _ _ _ _ _ (Hplain s)).
  destruct (insert_internal_run relation node tup s xid w1 Hrel Hs Hpi Ht Hx Hux Huc) as
    (tid & b & Hrun & [Hok Ho Hg] & Hrows & Hfresh & Hpin & _).
  rewrite (bind_ret_run _ _ _ _ _ Hrun). eexists tid, _, b.
  split; [by rewrite (bind_ret_run _ _ _ _ _ (command_step _))|by split_and!].
Qed.

(** C10: updating a tuple.  [heap_update] appends the new version, inserted by the
    current transaction and command and deleted by none, and writes into the header
    of the old one the current transaction as deleter, the command and the identifier
    of the new version, and nothing else; no other row changes.  The old tuple holds
    no pointer to toasted values and the new one needs none. *)
Theorem heap_update_chains_versions s r tup xid w1 :
  bufs_ok (h_bufs s) → pins_ok (h_bufs s) → r ∈ rows (h_bufs s) node → tuple_ok tup → plain_tuple tup →
  plain_old (row_tid r) → GetCurrentTransactionId (h_world s) = (Ret xid, w1) → is_u32 xid →
  TransactionIdIsValid xid = true → is_u32 (GetCurrentCommandId w1) →
  Z.of_nat (length (fork_of (h_bufs s) node)) < 2 ^ 32 - 1 →
  let cid := GetCurrentCommandId w1 in
  ∃ tid tup' b, heap_update junk detoast_attr toast_insert toast_delete relation (row_tid r) tup s =
         (Ret (tid, tup'), mkHeap (after_command w1) b (h_mx s) (h_scans s)) ∧
    bufs_ok b ∧ (∀ node', node' ≠ node → fork_of b node' = fork_of (h_bufs s) node') ∧
    rows b node =
      set_row (row_tid r) (let h := row_header r in mkHeader (t_xmin h) xid cid tid (t_infomask2 h) (t_infomask h) (t_hoff h)) (rows (h_bufs s) node)
      ++ [mkRow tid (let h := t_data tup in mkHeader xid 0 cid (t_ctid h) (t_infomask2 h) (t_infomask h) (t_hoff h)) (payload tup)] ∧
    ∀ x, pin_count b x = pin_count (h_bufs s) x.
Proof.
  intros Hs Hpi Hr Ht Hplain Hold Hx Hux Hv Huc Hsize cid. unfold heap_update. rewrite (bind_ret_run _ _ _ _ _ (Hplain s)).
  destruct (insert_internal_run relation node tup s xid w1 Hrel Hs Hpi Ht Hx Hux Huc) as
    (tid & b & Hrun & [Hok Ho Hg] & Hrows & Hfresh & Hpin & _).
  rewrite (bind_ret_run _ _ _ _ _ Hrun).
  rewrite (bind_ret_run _ _ _ _ _ (zoom_run _ (mkHeap w1 b (h_mx s) (h_scans s)) _ _ (Hrel b))).
  assert (Hrb : r ∈ rows b node) by (rewrite Hrows; set_solver).
  assert (Hpb : pins_ok b) by (intros x; rewrite Hpin; apply Hpi).
  destruct (row_buffer_run b node r Hok Hrb) as (b1 & Hrd & Hm & Hd & Hpn).
  erewrite bind_ret_run by (apply zoom_run; exact Hrd). rewrite (bind_ret_run _ _ _ _ _ (Hold _ _)).
  erewrite bind_ret_run by (apply zoom_run; exact (get_xid_again _ _ _ Hx Hv)). erewrite bind_ret_run by done.
  cbn [h_world over lens_world fst].
  assert (Htid : is_u32 (ip_blkid tid) ∧ is_u16 (ip_posid tid)).
  { destruct (row_tid_bounds b node (mkRow tid (inserted_header xid cid (t_data tup)) (payload tup)) Hok) as [H1 H2];
      [rewrite Hrows; set_solver|]. cbn in H1, H2. unfold is_u32. split; [lia|done]. }
  destruct (edit_run b node r (λ h, HeapTupleHeaderSetTid (mark_deleted xid cid h) tid) b1) as
    (b2 & b4 & Hup & Hrl & [Hok4 Ho4 _] & Hrows4 & Hdd & Hpp); try done.
  { destruct (mark_deleted_wf xid cid (row_header r) Hux Huc (row_header_wf b node r Hok Hrb)). destruct Htid. by split. }
  erewrite bind_ret_run by (apply zoom_run; exact Hup). erewrite bind_ret_run by done.
  erewrite bind_ret_run by (apply zoom_run; exact Hrl). rewrite (bind_ret_run _ _ _ _ _ (command_step _)).
  eexists tid, _, b4. split; [done|]. split_and!; [done| | |].
  - intros node' Hn. by rewrite Ho4, Ho.
  - rewrite Hrows4, Hrows, set_row_app. f_equal. apply set_row_other.
    intros r' ->%list_elem_of_singleton. cbn. intros ->. apply Hfresh. by apply list_elem_of_fmap_2.
  - intros x. by rewrite Hpp.
Qed.

End modification.

(** ** Fetching *)

Lemma fetch_row junk relation node s r :
  opened relation node → bufs_ok (h_bufs s) → pins_ok (h_bufs s) → r ∈ rows (h_bufs s) node →
  ∃ tup b, heap_fetch_by_tid junk relation (row_tid r) s =
         (Ret (Some tup), mkHeap (h_world s) b (h_mx s) (h_scans s)) ∧
    main_fork b = main_fork (h_bufs s) ∧ dirty b = dirty (h_bufs s) ∧
    (∀ x, pin_count b x = pin_count (h_bufs s) x) ∧
    t_self tup = row_tid r ∧ t_data tup = row_header r ∧ payload tup = row_data r ∧
    t_len tup = kHeapTupleHeaderSize + Z.of_nat (length (row_data r)).
Proof.
  intros Hr Hs Hpi Hrow. unfold heap_fetch_by_tid.
  rewrite (bind_ret_run _ _ _ _ _ (zoom_run _ s _ _ (Hr (h_bufs s)))).
  destruct (row_buffer_run (h_bufs s) node r Hs Hrow) as (b1 & Hrd & Hm & Hd & Hpin).
  erewrite bind_ret_run by (apply zoom_run; exact Hrd). erewrite bind_ret_run by done.
  destruct (release_run _ (h_bufs s) b1 Hpi Hpin) as (b2 & Hrel & Hm2 & Hd2 & Hp2).
  erewrite bind_ret_run by (apply zoom_run; exact Hrel).
  destruct (row_location (h_bufs s) node r Hs Hrow) as (n & p & Hp & Hb & Hn & Hr').
  pose proof (bufs_ok_page (h_bufs s) node n p Hs Hp) as Hpo. pose proof (po_len p Hpo _ Hn) as Hlen.
  pose proof (header_at_row (h_bufs s) node r Hs Hrow) as Hh.
  unfold kHeapTupleHeaderSize in Hlen.
  assert (Hpage : page_of b1 (node, ip_blkid (row_tid r)) = p).
  { rewrite Hb. apply page_of_lookup. by rewrite (fork_of_main (h_bufs s) b1). }
  assert (Hpage0 : page_of (h_bufs s) (node, ip_blkid (row_tid r)) = p) by (rewrite Hb; by apply page_of_lookup).
  rewrite Hpage0 in Hh. cbn [h_bufs over lens_bufs]. rewrite Hpage. unfold PageGetItemId at 1.
  rewrite (proj2 (Z.eqb_neq (li_len (linp p (ip_posid (row_tid r)))) 0)) by lia.
  assert (Hdata : row_data r = read (bytes p) (li_off (linp p (ip_posid (row_tid r))) + 23)
                                 (li_len (linp p (ip_posid (row_tid r))) - 23)).
  { rewrite Hr' at 1. apply (drop_read _ _ 23). lia. }
  eexists _, b2. split; [done|]. rewrite Hm2, Hd2. split_and!; [done..| |].
  - rewrite Hdata. unfold payload. cbn [t_bytes t_len heap_copytuple tuple_at]. apply read_shift.
    intros k Hk. unfold kHeapTupleHeaderSize, PageGetItemId in *. rewrite (proj2 (Z.ltb_lt _ _)) by lia. f_equal. lia.
  - rewrite Hdata, length_read. cbn [t_len heap_copytuple tuple_at]. unfold kHeapTupleHeaderSize, PageGetItemId. lia.
Qed.

(** ** Formed tuples can be stored *)

(** The bytes of the referenced values are bytes. *)
Definition byte_datum (v : Datum) : Prop := match v with DVal _ => True | DRef b => Forall is_u8 b end.

Lemma datum_bytes_u8 a v : byte_datum v → Forall is_u8 (datum_bytes a v).
Proof.
  destruct v as [z|b]; intros Hb; unfold datum_bytes; [apply Forall_take, to_le_u8|]. case_match; by apply Forall_take.
Qed.

Lemma fill_data_u8 cols o m mask :
  Forall (λ c : column, byte_datum c.1.2) cols → (∀ k, is_u8 (m k)) → is_u16 mask →
  (∀ k, is_u8 ((fill_data cols o m mask).1.2 k)) ∧ is_u16 (fill_data cols o m mask).2.
Proof.
  intros Hc. revert o m mask. induction Hc as [|[[a v] []] cols Hv Hc IH]; intros o m mask Hm Hk; cbn [fill_data]; [done|by apply IH|].
  apply IH; [apply memcpy_u8; [by apply datum_bytes_u8|done]|]. case_match; [apply u16_range|done].
Qed.

Lemma fill_bitmap_u8 cols i m : (∀ k, is_u8 (m k)) → ∀ k, is_u8 (fill_bitmap i cols m k).
Proof.
  revert i m. induction cols as [|[[a v] []] cols IH]; intros i m Hm; cbn [fill_bitmap]; [done| |by apply IH].
  apply IH. intros k. case_match; [apply u8_range|done].
Qed.

Lemma formed_tuple_ok junk tupdesc values isnull :
  let cols := columns tupdesc values isnull in
  let tup := heap_form_tuple junk tupdesc values isnull in
  (∀ k, is_u8 (junk k)) → Forall (λ c : column, byte_datum c.1.2) cols →
  kHeapTupleHeaderSize ≤ t_len tup ≤ kMaxTuple → tuple_ok tup.
Proof.
  intros cols tup Hj Hb Hlen. subst tup. unfold heap_form_tuple in *. fold cols in Hlen |- *.
  set (hoff := header_offset (any_null cols) tupdesc) in *.
  set (m := if any_null cols then fill_bitmap 0 cols (cleared hoff junk) else cleared hoff junk) in *.
  set (mask := if any_null cols then kHeapHasNull else 0) in *.
  assert (Hc : ∀ k, is_u8 (cleared hoff junk k)) by (intros k; unfold cleared; by destruct (k <? hoff)).
  destruct (fill_data_u8 cols hoff m mask Hb) as [H1 H2].
  { subst m. destruct (any_null cols); [by apply fill_bitmap_u8|done]. }
  { subst mask. by destruct (any_null cols). }
  destruct (fill_data cols hoff m mask) as [[o' m'] mask']. cbn [fst snd] in *.
  split; [|done|done]. cbn. split; cbn; try done; [apply u16_range|apply u8_range].
Qed.

(** The bytes of a tuple behind its header, by position. *)
Lemma payload_lookup t1 t2 :
  payload t1 = payload t2 → t_len t1 = t_len t2 →
  ∀ k, kHeapTupleHeaderSize ≤ k < t_len t2 → t_bytes t1 k = t_bytes t2 k.
Proof.
  intros Hp Hl k Hk. apply (f_equal (λ l, l !! Z.to_nat (k - kHeapTupleHeaderSize))) in Hp.
  unfold payload, read in Hp. rewrite !list_lookup_fmap, Hl, !lookup_seqZ_lt in Hp by lia. cbn in Hp.
  injection Hp as Hp. rewrite Z2Nat.id in Hp by lia.
  by replace (kHeapTupleHeaderSize + (k - kHeapTupleHeaderSize)) with k in Hp by lia.
Qed.

(** C17: what is stored comes back.  Form a tuple from values and nulls, insert
    it, fetch it by the identifier the insertion returned and deform the copy:
    the values and nulls are the original ones (with toasted ones expanded),
    for every descriptor of at most 1600 attributes and whatever the pages,
    the buffer and the allocated memory held. *)
Theorem stored_values_come_back junk junk' det toast_insert relation node tupdesc values isnull s xid w1 :
  let cols := columns tupdesc values isnull in
  let tup := heap_form_tuple junk tupdesc values isnull in
  opened relation node → bufs_ok (h_bufs s) → pins_ok (h_bufs s) →
  Forall wf_column cols → natts tupdesc ≤ 1600 → weight cols < 2 ^ 30 → t_len tup ≤ kMaxTuple →
  (∀ k, is_u8 (junk k)) → Forall (λ c : column, byte_datum c.1.2) cols →
  plain_tuple junk det toast_insert relation tup →
  GetCurrentTransactionId (h_world s) = (Ret xid, w1) → is_u32 xid → is_u32 (GetCurrentCommandId w1) →
  ∃ tid tup1 s1 tup2 s2,
    heap_insert junk det toast_insert relation tup s = (Ret (tid, tup1), s1) ∧
    heap_fetch_by_tid junk' relation tid s1 = (Ret (Some tup2), s2) ∧
    heap_deform_tuple det tup2 tupdesc = col_shown det <$> cols.
Proof.
  intros cols tup Hr Hs Hpi Hwf Hn Hw Hmax Hj Hb Hplain Hx Hux Huc.
  destruct (form_deform det junk tupdesc values isnull Hwf Hn Hw) as (Hdef & _ & _ & H23). fold tup in Hdef, H23.
  assert (Hok : tuple_ok tup) by (by apply formed_tuple_ok).
  destruct (insert_internal_run relation node tup s xid w1 Hr Hs Hpi Hok Hx Hux Huc) as
    (tid & b & Hrun & [Hbok _ _] & Hrows & _ & Hpin & _).
  set (hdr := inserted_header xid (GetCurrentCommandId w1) (t_data tup)) in *.
  set (s1 := mkHeap (after_command w1) b (h_mx s) (h_scans s)).
  destruct (fetch_row junk' relation node s1 (mkRow tid hdr (payload tup)) Hr) as
    (tup2 & b2 & Hfetch & _ & _ & _ & Hself & Hdata & Hpay & Hlen2); [done| | |].
  { intros x. cbn. rewrite Hpin. apply Hpi. }
  { cbn [h_bufs s1]. rewrite Hrows. set_solver. }
  cbn [row_tid row_header row_data] in *.
  eexists tid, _, s1, tup2, _. split; [|split; [exact Hfetch|]].
  - unfold heap_insert. rewrite (bind_ret_run _ _ _ _ _ (Hplain s)), (bind_ret_run _ _ _ _ _ Hrun).
    by rewrite (bind_ret_run _ _ _ _ _ (command_step _)).
  - assert (Hl : t_len tup2 = t_len tup).
    { rewrite Hlen2. unfold payload. rewrite length_read. lia. }
    pose proof (Hdef (t_self tup2) (t_data tup2) (t_bytes tup2)) as Hd2. rewrite <- Hl in Hd2.
    destruct tup2. apply Hd2; [by rewrite Hdata..|]. intros k Hk. apply (payload_lookup _ tup Hpay Hl).
    by rewrite <- Hl.
Qed.

(** ** Tuples that are too large *)

Lemma add_item_too_large p item :
  page_ok p → kMaxTuple < Z.of_nat (length item) →
  PageAddItem item kInvalidOffsetNumber p = (kInvalidOffsetNumber, p).
Proof.
  intros Hp Hl. unfold PageAddItem. rewrite Z.eqb_refl, (wf_max_offset p (po_wf p Hp)).
  destruct (wf_slots p (po_wf p Hp)) as [Hlow Hns]. destruct (wf_order p (po_wf p Hp)) as [Hlo Hup].
  pose proof (wf_size p (po_wf p Hp)). pose proof (po_special p Hp).
  pose proof (align_up_bounds (Z.of_nat (length item))).
  unfold kMaxTuple, u16, kBlckSz, kPageHeaderSize, kItemIdSize in *. rewrite (Z.mod_small (nslots p + 1)) by lia.
  rewrite (proj2 (orb_true_iff _ _)); [done|]. right. apply Z.ltb_lt. lia.
Qed.

Lemma no_room p len : page_ok p → kMaxTuple < len → PageGetHeapFreeSpace p < len.
Proof.
  intros Hp Hl. destruct (wf_order p (po_wf p Hp)) as [Hlo Hup]. destruct (wf_slots p (po_wf p Hp)) as [Hlow Hns].
  pose proof (po_special p Hp). unfold PageGetHeapFreeSpace. change (kItemIdSize - 1) with (2 ^ 2 - 1).
  rewrite clear_low by lia. pose proof (Z.div_mod (pd_upper p - pd_lower p - kItemIdSize) (2 ^ 2)).
  pose proof (Z.mod_pos_bound (pd_upper p - pd_lower p - kItemIdSize) (2 ^ 2)).
  unfold kMaxTuple, kBlckSz, kPageHeaderSize, kItemIdSize in *. lia.
Qed.

(** The search for a block always ends in a new one. *)
Lemma oversized_target relation node len s :
  opened relation node → bufs_ok s → pins_ok s → kMaxTuple < len < 2 ^ 31 →
  let n := length (fork_of s node) in
  ∃ s', target_buffer relation len s = (Ret (node, Z.of_nat n), s') ∧ touches node s s' ∧
        fork_of s' node = fork_of s node ++ [PageInit kBlckSz 0] ∧ dirty s' = dirty s ∧ pinned (node, Z.of_nat n) s s'.
Proof.
  intros Hr Hs Hpi Hlen n. unfold target_buffer, RelationGetNumberOfBlocks.
  rewrite (bind_ret_run _ _ _ _ _ (Hr s)). rewrite bind_assoc_run, (bind_ret_run _ _ _ _ _ (Hr s)).
  erewrite bind_ret_run by done. fold n.
  destruct (Z.of_nat n =? 0) eqn:E0; to_prop.
  { destruct (create_page_run relation node s Hr Hs) as (s' & Hrun & H). exists s'. split; [|done].
    by rewrite <- E0. }
  destruct (lookup_lt_is_Some_2 (fork_of s node) (n - 1)) as [p Hp]; [unfold n in *; lia|].
  replace (Z.of_nat n - 1) with (Z.of_nat (n - 1)) by lia.
  destruct (read_buffer_run s node (n - 1) p Hp) as (s1 & Hrd & Hm & Hd & Hpn). apply read_pins in Hpn.
  rewrite (bind_ret_run _ _ _ _ _ Hrd). erewrite bind_ret_run by done.
  assert (Hf1 : ∀ x, fork_of s1 x = fork_of s x) by (intros; by apply fork_of_main).
  rewrite (page_of_lookup s1 node (n - 1) p) by (by rewrite Hf1).
  assert (Hpo : page_ok p) by exact (bufs_ok_page s node (n - 1) p Hs Hp). pose proof (free_space_small p Hpo).
  pose proof (no_room p len Hpo (proj1 Hlen)) as Hno. unfold kMaxTuple, kBlckSz, kPageHeaderSize, kItemIdSize in Hlen.
  rewrite !i32_small, (proj2 (Z.ltb_lt _ _)) by lia.
  destruct (release_run _ s s1 Hpi Hpn) as (s2 & Hrel & Hm2 & Hd2 & Hp2).
  rewrite (bind_ret_run _ _ _ _ _ Hrel).
  assert (Hf2 : ∀ x, fork_of s2 x = fork_of s x) by (intros; rewrite <- Hf1; by apply fork_of_main).
  destruct (create_page_run relation node s2 Hr) as (s' & Hrun & [Hok Ho Hg] & Hfork & Hd' & Hp').
  { intros x. rewrite Hf2. apply Hs. }
  rewrite Hf2 in *. exists s'. split; [done|]. split_and!; [|done|by rewrite Hd', Hd2|].
  - split; [done| |done]. intros x Hx. by rewrite Ho, Hf2.
  - intros x. by rewrite Hp', Hp2.
Qed.

(** a tuple too large for a page.  The insertion raises an error that
    names the block, leaves no pin and changes no row, but the relation is one
    empty block longer each time. *)
Theorem oversized_insert_extends relation node tup s xid w1 :
  opened relation node → bufs_ok (h_bufs s) → pins_ok (h_bufs s) → kMaxTuple < t_len tup < 2 ^ 31 →
  GetCurrentTransactionId (h_world s) = (Ret xid, w1) →
  let n := length (fork_of (h_bufs s) node) in
  ∃ b, heap_insert_internal relation tup s =
         (Ereport ("heap_insert: failed to add item to page " +:+ int_to_string (Z.of_nat n)),
          mkHeap w1 b (h_mx s) (h_scans s)) ∧
       bufs_ok b ∧ rows b node = rows (h_bufs s) node ∧ length (fork_of b node) = S n ∧
       ∀ x, pin_count b x = pin_count (h_bufs s) x.
Proof.
  intros Hr Hs Hpi Hlen Hx n. unfold heap_insert_internal. rewrite (bind_ret_run _ _ _ _ _ (zoom_run _ _ _ _ Hx)).
  erewrite bind_ret_run by done. cbn [h_world over lens_world].
  destruct (oversized_target relation node (t_len tup) (h_bufs s) Hr Hs Hpi Hlen) as
    (b1 & Hrun & [Hok Ho Hg] & Hfork & Hd & Hpin). fold n in Hrun, Hpin.
  erewrite bind_ret_run by (apply zoom_run; exact Hrun).
  assert (Hp : fork_of b1 node !! n = Some (PageInit kBlckSz 0)) by (rewrite Hfork; by apply list_lookup_middle).
  erewrite bind_ret_run.
  2: { apply zoom_run. unfold add_item. cbn [view lens_bufs h_bufs over].
       rewrite (page_of_lookup b1 node n _ Hp), add_item_too_large; [done|apply empty_page_ok|].
       unfold tuple_image. rewrite length_app, length_encode_header, length_read. cbn [t_len with_data].
       unfold kMaxTuple, kBlckSz, kPageHeaderSize, kItemIdSize, kHeapTupleHeaderSize in *. lia. }
  rewrite Z.eqb_refl.
  set (b2 := put_page (node, Z.of_nat n) (PageInit kBlckSz 0) b1).
  assert (Hf2 : ∀ x, fork_of b2 x = fork_of b1 x).
  { intros x. unfold b2. rewrite fork_put. case_decide; [subst|done]. by apply list_insert_id. }
  destruct (release_run (node, Z.of_nat n) (h_bufs s) b2 Hpi) as (b3 & Hrel & Hm3 & Hd3 & Hp3); [done|].
  erewrite bind_ret_run by (apply zoom_run; exact Hrel). exists b3. split; [done|].
  assert (Hf3 : ∀ x, fork_of b3 x = fork_of b1 x) by (intros; rewrite <- Hf2; by apply fork_of_main).
  split_and!; [intros x; rewrite Hf3; apply Hok| | |done].
  - unfold rows. rewrite Hf3, Hfork, fork_rows_app. cbn [fork_rows]. by rewrite !app_nil_r.
  - rewrite Hf3, Hfork, length_app. cbn. lia.
Qed.

(** ** Row locks *)

(** The multixact of a shared lock: the existing one expanded, or a new one. *)
Definition lock_multi (h : HeapTupleHeaderData) (xid : Z) (strength : RowLockStrength) : M multixact Z :=
  if has_flag (t_infomask h) kHeapXmaxLocked && negb (t_xmax h =? kInvalidMultiXactId)
  then expand_multi (t_xmax h) xid (strength_val strength)
  else create_multi [mkMember xid (strength_val strength)].

Definition exclusive (strength : RowLockStrength) : Prop := strength = kForUpdate ∨ strength = kForNoKeyUpdate.

Definition locked_header (xid multi : Z) (strength : RowLockStrength) (h : HeapTupleHeaderData) : HeapTupleHeaderData :=
  if decide (exclusive strength) then lock_exclusive xid strength h else lock_shared multi strength h.

Lemma on_infomask_wf f h : is_u16 (f (t_infomask h)) → wf_header h → wf_header (on_infomask f h).
Proof. intros Hf []. by split. Qed.

Lemma locked_header_wf xid multi strength h :
  is_u32 xid → is_u32 multi → wf_header h → wf_header (locked_header xid multi strength h).
Proof.
  intros Hx Hm []. unfold locked_header, lock_exclusive, lock_shared, set_flag, clear_flag.
  repeat case_decide; split; cbn; try done; apply u16_range.
Qed.

(** The lock-only bit. *)
Lemma locked_header_bit xid multi strength h :
  has_flag (t_infomask (locked_header xid multi strength h)) kHeapXmaxLocked = true.
Proof.
  unfold locked_header, lock_exclusive, lock_shared, on_infomask, set_flag, clear_flag, u16, kHeapXmaxLocked,
    kHeapXmaxExclusiveLock, kHeapXmaxInvalid, kHeapXmaxShrLock, kHeapXmaxKeyshrLock.
  change 128 with (2 ^ 7). rewrite has_flag_bit by lia.
  repeat case_decide; cbn [t_infomask set_infomask set_infomask2 HeapTupleHeaderSetXmax];
    repeat first [rewrite Z.mod_pow2_bits_low by lia|rewrite Z.land_spec|rewrite Z.lor_spec|rewrite Z.lnot_spec by lia];
    change (Z.testbit (2 ^ 7) 7) with true; rewrite ?orb_true_r; reflexivity.
Qed.

(** locking a row.  [heap_lock_tuple] changes the header of the named row
    only: the lock-only bit is set, with the transaction itself as locker for
    the exclusive strengths and with a multixact (the existing one expanded,
    or a new one) for the shared ones.  A row that is merely locked is deleted
    for no snapshot, so it stays visible to whoever saw it inserted. *)
Theorem heap_lock_keeps_row relation node s r strength xid w1 multi mx' :
  opened relation node → bufs_ok (h_bufs s) → pins_ok (h_bufs s) → r ∈ rows (h_bufs s) node →
  GetCurrentTransactionId (h_world s) = (Ret xid, w1) → is_u32 xid → is_u32 multi →
  (if decide (exclusive strength) then mx' = h_mx s else lock_multi (row_header r) xid strength (h_mx s) = (Ret multi, mx')) →
  let h := locked_header xid multi strength (row_header r) in
  (∃ b, heap_lock_tuple relation (row_tid r) strength s = (Ret tt, mkHeap (after_command w1) b mx' (h_scans s)) ∧
    bufs_ok b ∧ (∀ node', node' ≠ node → fork_of b node' = fork_of (h_bufs s) node') ∧
    rows b node = set_row (row_tid r) h (rows (h_bufs s) node) ∧
    ∀ x, pin_count b x = pin_count (h_bufs s) x) ∧
  ∀ status current snap, deleted_for status current h snap = false.
Proof.
  intros Hr Hs Hpi Hrow Hx Hux Hum Hmulti h. split.
  2: { intros status current snap. unfold deleted_for, h. rewrite locked_header_bit. by rewrite andb_false_r. }
  unfold heap_lock_tuple. rewrite (bind_ret_run _ _ _ _ _ (zoom_run _ s _ _ (Hr (h_bufs s)))).
  destruct (row_buffer_run (h_bufs s) node r Hs Hrow) as (b1 & Hrd & Hm & Hd & Hpin).
  erewrite bind_ret_run by (apply zoom_run; exact Hrd). erewrite bind_ret_run by done.
  cbn [h_bufs over lens_bufs].
  assert (Hh : header_at (page_of b1 (node, ip_blkid (row_tid r))) (ip_posid (row_tid r)) = row_header r).
  { apply header_at_row; [intros x; rewrite (fork_of_main (h_bufs s) b1) by done; apply Hs|].
    by rewrite (rows_same_fork (h_bufs s) b1) by (by apply fork_of_main). }
  rewrite Hh. erewrite bind_ret_run by (apply zoom_run; exact Hx).
  destruct (edit_run (h_bufs s) node r (locked_header xid multi strength) b1) as
    (b2 & b4 & Hup & Hrl & [Hok Ho _] & Hrows & Hdd & Hpp); try done.
  { apply locked_header_wf; [done|done|]. by eapply row_header_wf. }
  exists b4. split; [|done].
  assert (Hfinish : ∀ m, (zoom (MarkBufferDirty (node, ip_blkid (row_tid r)));;
      zoom (ReleaseBuffer (node, ip_blkid (row_tid r)));; zoom CommandCounterIncrement)
      (mkHeap w1 b2 m (h_scans s)) = (Ret tt, mkHeap (after_command w1) b4 m (h_scans s))).
  { intros m. erewrite bind_ret_run by done. erewrite bind_ret_run by (apply zoom_run; exact Hrl). by rewrite command_step. }
  unfold locked_header in Hup. destruct (decide (exclusive strength)) as [Hex|Hex].
  - subst mx'. rewrite decide_True by done. erewrite bind_ret_run by (apply zoom_run; exact Hup). apply Hfinish.
  - rewrite decide_False by done. rewrite bind_assoc_run. unfold lock_multi in Hmulti.
    destruct (has_flag _ _ && _); (erewrite bind_ret_run by (apply zoom_run; exact Hmulti));
      (erewrite bind_ret_run by (apply zoom_run; exact Hup)); apply Hfinish.
Qed.

(** ** A relation with a row

    An open transaction, a relation without blocks and the tuple of
    [HeapForm.demo_values]; the values are too short for the TOAST table. *)

Definition demo_relation : RelationData := mkRelation 16385 (Some (mkPgClass 16385 kRelation)) None (Some demo_desc).
Definition demo_tuple : HeapTupleData := heap_form_tuple (λ _, 255) demo_desc demo_values demo_nulls.
Definition demo_heap : heap_st :=
  mkHeap XactSpec.written_world (mkBufs ∅ ∅ ∅) fresh_mx (mkScans [] ∅ 0).

Definition no_toast (relation : RelationData) (values : list Datum) (isnull : list bool) (tupdesc : TupleDescData)
  : M heap_st (list Datum) := mret values.
Definition no_chunks (relation : RelationData) (values : list Datum) (isnull : list bool) (tupdesc : TupleDescData)
  : M heap_st unit := mret tt.

Abbreviation demo_insert := (heap_insert (λ _, 255) id no_toast demo_relation demo_tuple).

(** The relation after an insertion. *)
Definition demo_heap1 : heap_st := exec demo_insert demo_heap.
Definition demo_header : HeapTupleHeaderData := inserted_header 3 0 (t_data demo_tuple).
Definition demo_row : row := mkRow (mkTid 0 1) demo_header (payload demo_tuple).

Lemma demo_opened : opened demo_relation 16385.
Proof. done. Qed.

Lemma demo_plain junk relation tup : plain_tuple junk id no_toast relation tup.
Proof. intros s. unfold toast_new. destruct (toast_desc relation); [|done]. erewrite bind_ret_run by done. by rewrite decide_True. Qed.

Lemma demo_old relation tid : plain_old id no_chunks relation tid.
Proof. intros b s. unfold toast_old. by destruct (toast_desc relation). Qed.

Lemma no_bufs_ok : bufs_ok (h_bufs demo_heap).
Proof. intros node. constructor. Qed.
Lemma no_pins_ok : pins_ok (h_bufs demo_heap).
Proof. intros b. done. Qed.

Lemma demo_tuple_ok : tuple_ok demo_tuple.
Proof.
  apply formed_tuple_ok; [done| |by vm_compute]. repeat constructor; done.
Qed.

Lemma demo_xid : ∃ w, GetCurrentTransactionId (h_world demo_heap) = (Ret 3, w) ∧ GetCurrentCommandId w = 0.
Proof. eexists. split; vm_compute; reflexivity. Qed.

Lemma demo_inserted :
  bufs_ok (h_bufs demo_heap1) ∧ pins_ok (h_bufs demo_heap1) ∧ rows (h_bufs demo_heap1) 16385 = [demo_row] ∧
  GetCurrentTransactionId (h_world demo_heap1) = (Ret 3, h_world demo_heap1) ∧ GetCurrentCommandId (h_world demo_heap1) = 1.
Proof.
  destruct demo_xid as (w & Hx & Hc).
  destruct (insert_internal_run demo_relation 16385 demo_tuple demo_heap 3 w demo_opened no_bufs_ok no_pins_ok demo_tuple_ok Hx)
    as (tid & b & Hrun & [Hok _ _] & _ & _ & Hpin & _); [done|by rewrite Hc|].
  assert (He : demo_heap1 = mkHeap (after_command w) b (h_mx demo_heap) (h_scans demo_heap)).
  { unfold demo_heap1, exec, heap_insert. rewrite (bind_ret_run _ _ _ _ _ (demo_plain _ _ _ _)), (bind_ret_run _ _ _ _ _ Hrun).
    by rewrite (bind_ret_run _ _ _ _ _ (command_step _)). }
  split_and!; [by rewrite He| |by vm_compute..].
  rewrite He. intros x. cbn [h_bufs]. rewrite Hpin. apply no_pins_ok.
Qed.

Lemma u32_3 : is_u32 3 ∧ is_u32 0 ∧ is_u32 1.
Proof. unfold is_u32. lia. Qed.

Lemma heap_insert_appends_row_witness :
  ∃ tid tup b w, heap_insert (λ _, 255) id no_toast demo_relation demo_tuple demo_heap =
      (Ret (tid, tup), mkHeap w b (h_mx demo_heap) (h_scans demo_heap)) ∧
    rows b 16385 = rows (h_bufs demo_heap) 16385 ++ [mkRow tid demo_header (payload demo_tuple)].
Proof.
  destruct demo_xid as (w & Hx & Hc).
  destruct (heap_insert_appends_row (λ _, 255) id no_toast demo_relation 16385 demo_opened demo_heap demo_tuple 3 w)
    as (tid & tup & b & Hrun & _ & _ & Hrows & _).
  - exact no_bufs_ok.
  - exact no_pins_ok.
  - exact demo_tuple_ok.
  - exact (demo_plain _ _ _).
  - exact Hx.
  - done.
  - by rewrite Hc.
  - rewrite Hc in Hrows. by exists tid, tup, b, (after_command w).
Defined.

Lemma heap_delete_marks_row_witness :
  ∃ b w, heap_delete id no_chunks demo_relation (mkTid 0 1) demo_heap1 =
      (Ret tt, mkHeap w b (h_mx demo_heap1) (h_scans demo_heap1)) ∧
    rows b 16385 = [mkRow (mkTid 0 1) (mark_deleted 3 1 demo_header) (payload demo_tuple)].
Proof.
  destruct demo_inserted as (Hs & Hp & Hrows & Hx & Hc).
  destruct (heap_delete_marks_row id no_chunks demo_relation 16385 demo_opened demo_heap1 demo_row 3 (h_world demo_heap1))
    as (b & Hrun & _ & _ & Hr & _).
  - exact Hs.
  - exact Hp.
  - rewrite Hrows. by apply list_elem_of_singleton.
  - exact (demo_old _ _).
  - exact Hx.
  - apply u32_3.
  - rewrite Hc. apply u32_3.
  - rewrite Hrows, Hc in Hr. exists b, (after_command (h_world demo_heap1)). split; [exact Hrun|exact Hr].
Defined.

Lemma heap_update_chains_versions_witness :
  ∃ tid tup b w, heap_update (λ _, 255) id no_toast no_chunks demo_relation (mkTid 0 1) demo_tuple demo_heap1 =
      (Ret (tid, tup), mkHeap w b (h_mx demo_heap1) (h_scans demo_heap1)) ∧
    rows b 16385 = [mkRow (mkTid 0 1) (let h := demo_header in mkHeader (t_xmin h) 3 1 tid (t_infomask2 h) (t_infomask h) (t_hoff h)) (payload demo_tuple);
                    mkRow tid (let h := t_data demo_tuple in mkHeader 3 0 1 (t_ctid h) (t_infomask2 h) (t_infomask h) (t_hoff h)) (payload demo_tuple)].
Proof.
  destruct demo_inserted as (Hs & Hp & Hrows & Hx & Hc).
  destruct (heap_update_chains_versions (λ _, 255) id no_toast no_chunks demo_relation 16385 demo_opened demo_heap1 demo_row
    demo_tuple 3 (h_world demo_heap1)) as (tid & tup & b & Hrun & _ & _ & Hr & _).
  - exact Hs.
  - exact Hp.
  - rewrite Hrows. by apply list_elem_of_singleton.
  - exact demo_tuple_ok.
  - exact (demo_plain _ _ _).
  - exact (demo_old _ _).
  - exact Hx.
  - apply u32_3.
  - reflexivity.
  - rewrite Hc. apply u32_3.
  - vm_compute. reflexivity.
  - rewrite Hrows, Hc in Hr. exists tid, tup, b, (after_command (h_world demo_heap1)). split; [exact Hrun|exact Hr].
Defined.

Lemma stored_values_come_back_witness :
  ∃ tid tup1 s1 tup2 s2,
    heap_insert (λ _, 255) id no_toast demo_relation demo_tuple demo_heap = (Ret (tid, tup1), s1) ∧
    heap_fetch_by_tid (λ _, 170) demo_relation tid s1 = (Ret (Some tup2), s2) ∧
    heap_deform_tuple id tup2 demo_desc = col_shown id <$> columns demo_desc demo_values demo_nulls.
Proof.
  destruct demo_xid as (w & Hx & Hc).
  apply (stored_values_come_back (λ _, 255) (λ _, 170) id no_toast demo_relation 16385 demo_desc demo_values demo_nulls
    demo_heap 3 w).
  - exact demo_opened.
  - exact no_bufs_ok.
  - exact no_pins_ok.
  - exact demo_wf.
  - by vm_compute.
  - by vm_compute.
  - by vm_compute.
  - done.
  - repeat constructor; done.
  - exact (demo_plain _ _ _).
  - exact Hx.
  - apply u32_3.
  - rewrite Hc. apply u32_3.
Defined.

Lemma oversized_insert_extends_witness :
  let tup := mkTuple 8165 (mkTid 0 0) (t_data demo_tuple) (t_bytes demo_tuple) in
  ∃ b w, heap_insert_internal demo_relation tup demo_heap1 =
    (Ereport "heap_insert: failed to add item to page 1", mkHeap w b (h_mx demo_heap1) (h_scans demo_heap1)) ∧
    length (fork_of b 16385) = 2%nat.
Proof.
  intros tup. destruct demo_inserted as (Hs & Hp & Hrows & Hx & Hc).
  destruct (oversized_insert_extends demo_relation 16385 tup demo_heap1 3 (h_world demo_heap1)) as (b & Hrun & _ & _ & Hl & _).
  - exact demo_opened.
  - exact Hs.
  - exact Hp.
  - unfold kMaxTuple, kBlckSz, kPageHeaderSize, kItemIdSize. cbn. lia.
  - exact Hx.
  - assert (Hn : length (fork_of (h_bufs demo_heap1) 16385) = 1%nat) by (vm_compute; reflexivity).
    rewrite Hn in Hrun, Hl. exists b, (h_world demo_heap1). split; [exact Hrun|exact Hl].
Defined.

Lemma heap_lock_keeps_row_witness :
  ∃ b w, heap_lock_tuple demo_relation (mkTid 0 1) kForUpdate demo_heap1 =
      (Ret tt, mkHeap w b (h_mx demo_heap1) (h_scans demo_heap1)) ∧
    rows b 16385 = [mkRow (mkTid 0 1) (lock_exclusive 3 kForUpdate demo_header) (payload demo_tuple)].
Proof.
  destruct demo_inserted as (Hs & Hp & Hrows & Hx & Hc).
  destruct (heap_lock_keeps_row demo_relation 16385 demo_heap1 demo_row kForUpdate 3 (h_world demo_heap1) 0 (h_mx demo_heap1))
    as [(b & Hrun & _ & _ & Hr & _) _].
  - exact demo_opened.
  - exact Hs.
  - exact Hp.
  - rewrite Hrows. by apply list_elem_of_singleton.
  - exact Hx.
  - apply u32_3.
  - apply u32_3.
  - reflexivity.
  - rewrite Hrows in Hr. exists b, (after_command (h_world demo_heap1)). split; [exact Hrun|exact Hr].
Defined.

(** ** A delete that is lost

    [heap_delete] writes the deleter into the header and leaves the infomask
    alone.  After SELECT ... FOR UPDATE by the same transaction the lock-only
    bit is still set, and after a deleter that was seen to abort the
    xmax-invalid hint is: either way the row counts as not deleted, for every
    snapshot, even after the deleter commits. *)
Theorem delete_of_locked_row_is_lost status current snap xid cid strength multi h :
  deleted_for status current (mark_deleted xid cid (locked_header xid multi strength h)) snap = false.
Proof.
  unfold deleted_for. change (t_infomask (mark_deleted ?x ?c ?h0)) with (t_infomask h0). rewrite locked_header_bit.
  by rewrite andb_false_r.
Qed.

End HeapSpec.
