(* ===== verification/HeapScan.v ===== *)
(** * The sequential scan

    A scan reads a relation block by block, collects the visible offsets of
    each page and returns them one call at a time.  The theorems relate the
    sequence of tuples [heap_getnext] returns to the rows of the relation that
    the snapshot sees. *)

From stdpp Require Import base gmap list strings.
From S2P Require Import Prelude Transam HeapTuple Proc CatalogTx World Snapshot Xact Visibility BufPage HeapForm Slru MultiXact Lock Heap HeapSpec.

Module HeapScan.
Import Transam HeapTuple World Snapshot Xact Visibility BufPage HeapForm MultiXact Heap HeapSpec.

(** ** The visibility check on the world

    It asks the commit log, so it changes nothing but the log's cache, and it
    returns the header up to hint bits. *)

(** A run that touches the transaction log at most and returns [P]. *)
Definition asks {A} (m : M world A) (P : A → Prop) : Prop :=
  ∀ w, ∃ tx, (m w).2 = over (tx : Transam.state) w ∧ ∀ a, (m w).1 = Ret a → P a.

Lemma asks_ret {A} (a : A) (P : A → Prop) : P a → asks (mret a) P.
Proof. intros Ha w. exists (w_tx w). split; [by destruct w|]. by intros ? [= <-]. Qed.

Lemma asks_gets {A} (f : world → A) : asks (gets f) (λ _, True).
Proof. intros w. exists (w_tx w). split; [by destruct w|done]. Qed.

Lemma asks_zoom {A} (m : M Transam.state A) : asks (zoom m) (λ _, True).
Proof. intros w. unfold zoom. destruct (m (view w)) as [r s]. by exists s. Qed.

Lemma asks_bind {A B} (m : M world A) (f : A → M world B) P Q :
  asks m P → (∀ a, P a → asks (f a) Q) → asks (m ≫= f) Q.
Proof.
  intros Hm Hf w. destruct (Hm w) as (tx & H1 & H2). unfold mbind, M_bind.
  destruct (m w) as [[a|e] w1]; cbn in *.
  - destruct (Hf a (H2 a eq_refl) w1) as (tx' & H3 & H4). exists tx'. split; [|done]. by rewrite H3, H1.
  - exists tx. by split.
Qed.

(** The same header up to the status bits. *)
Record hinted (h h' : HeapTupleHeaderData) : Prop := {
  hi_xmin : t_xmin h' = t_xmin h;
  hi_xmax : t_xmax h' = t_xmax h;
  hi_cid : t_cid h' = t_cid h;
  hi_ctid : t_ctid h' = t_ctid h;
  hi_mask2 : t_infomask2 h' = t_infomask2 h;
  hi_hoff : t_hoff h' = t_hoff h;
  hi_mask : is_u16 (t_infomask h) → is_u16 (t_infomask h');
}.

Lemma hinted_refl h : hinted h h.
Proof. by split. Qed.
Lemma hinted_trans h1 h2 h3 : hinted h1 h2 → hinted h2 h3 → hinted h1 h3.
Proof. intros [] []. split; [congruence..|auto]. Qed.
Lemma hinted_mask h on off : hinted h (set_infomask (set_clear on off (t_infomask h)) h).
Proof. split; try done. intros _. apply u16_range. Qed.
Lemma hinted_wf h h' : hinted h h' → wf_header h → wf_header h'.
Proof. intros [H1 H2 H3 H4 H5 H6 H7] []. split; rewrite ?H1, ?H2, ?H3, ?H4, ?H5, ?H6; auto. Qed.

#[local] Hint Resolve hinted_refl hinted_mask : core.

Lemma mvcc_asks tup snap : asks (HeapTupleSatisfiesMVCC tup snap) (λ r, hinted tup r.2).
Proof.
  unfold HeapTupleSatisfiesMVCC.
  apply (asks_bind _ _ (λ r, hinted tup r.2)).
  - unfold mvcc_xmin. case_match; try (apply asks_ret; done). case_match; [by apply asks_ret|].
    eapply asks_bind; [apply asks_gets|]. intros [] _; [repeat case_match; by apply asks_ret|].
    apply (asks_bind _ _ (λ _, True)).
    + unfold XidVisibleInSnapshot. repeat case_match; try (by apply asks_ret);
        (eapply asks_bind; [apply asks_zoom|intros [] _; by apply asks_ret]).
    + intros [v hc] _. destruct hc; [apply asks_ret, hinted_mask|]. destruct v; cbn [negb]; [by apply asks_ret|].
      eapply asks_bind; [apply asks_zoom|]. intros [] _; apply asks_ret; cbn; auto. apply hinted_mask.
  - intros [o tup1] Ht. cbn in Ht. destruct o as [[]|]; try (by apply asks_ret).
    unfold mvcc_xmax. repeat case_match; try (by apply asks_ret);
      (eapply asks_bind; [apply asks_gets || apply asks_zoom|]; intros [] _); repeat case_match;
      try (apply asks_ret; cbn; eauto using hinted_trans);
      (eapply asks_bind; [apply asks_zoom|intros [] _; apply asks_ret; cbn; eauto using hinted_trans, hinted_mask]).
Qed.

(** ** Pages up to hints *)

Record hinted_page (p q : Page) : Prop := {
  hp_ok : page_ok q;
  hp_linp i : linp q i = linp p i;
  hp_max : PageGetMaxOffsetNumber q = PageGetMaxOffsetNumber p;
  hp_normal i : normal q i ↔ normal p i;
  hp_header i : normal p i → hinted (header_at p i) (header_at q i);
  hp_data i : normal p i → drop 23 (PageGetItem q (linp p i)) = drop 23 (PageGetItem p (linp p i));
}.

Lemma hinted_page_refl p : page_ok p → hinted_page p p.
Proof. intros Hp. by split. Qed.

Lemma header_at_set p i h j :
  page_ok p → normal p i → normal p j → wf_header h →
  header_at (set_header i h p) j = if decide (j = i) then h else header_at p j.
Proof.
  intros Hp Hi Hj Hh.
  assert (Hn : normal (set_header i h p) j) by done.
  rewrite (header_at_item (set_header i h p) j (set_header_ok p i h Hp) Hn), (header_at_item p j Hp Hj).
  cbn [row_header row_of_item]. change (PageGetItemId (set_header i h p) j) with (linp p j).
  rewrite set_header_item by done. case_decide; [|done].
  rewrite take_app_length' by done. rewrite <- (app_nil_r (encode_header h)). by apply decode_encode_header.
Qed.

(** Storing hints in one more tuple. *)
Lemma hinted_page_step p q i h :
  page_ok p → hinted_page p q → normal p i → hinted (header_at q i) h → wf_header h →
  hinted_page p (set_header i h q).
Proof.
  intros Hp [Hok Hl Hm Hn Hh Hd] Hi Hhi Hwf. assert (Hiq : normal q i) by (by apply Hn).
  split; [by apply set_header_ok|done|done|done| |].
  - intros j Hj. rewrite header_at_set by (done || by apply Hn). case_decide; [subst|by apply Hh].
    eapply hinted_trans; [by apply Hh|done].
  - intros j Hj. rewrite <- (Hl j), set_header_item by (done || by apply Hn).
    case_decide as E; [subst j|by rewrite Hl; apply Hd]. rewrite drop_app_length' by done. rewrite Hl. by apply Hd.
Qed.

(** ** One page *)

Section scan.
Context (relation : RelationData) (node : Z) (Hrel : opened relation node).
Context (snap : SnapshotData) (w0 : world).

Abbreviation status := (xid_status w0).
Abbreviation current := (IsCurrent w0).

Definition row_visible (r : row) : bool := visible_for status current (row_header r) snap.

(** What the visibility theorem needs of a header. *)
Record fresh_header (h : HeapTupleHeaderData) : Prop := {
  fh_unhinted : unhinted h;
  fh_xmin : t_xmin h ≠ kInvalidTransactionId;
  fh_below : bracketed snap (t_xmin h);
  fh_above : bracketed snap (t_xmax h);
}.

Definition visible_at (p : Page) (o : Z) : bool :=
  ItemIdIsNormal (PageGetItemId p o) && visible_for status current (header_at p o) snap.

Lemma mvcc_run h w :
  oracle_ok w → same_answers w0 w → fresh_header h →
  ∃ h' tx, HeapTupleSatisfiesMVCC h snap w = (Ret (visible_for status current h snap, h'), over (tx : Transam.state) w) ∧
           hinted h h' ∧ oracle_ok (over tx w) ∧ same_answers w0 (over tx w).
Proof.
  intros Hok Hs [H1 H2 H3 H4]. destruct (mvcc_visible h snap w Hok H1 H2 H3 H4) as (h' & w' & Hr & Hok' & Hs').
  destruct (mvcc_asks h snap w) as (tx & Hw & Hh). rewrite Hr in Hw, Hh. cbn in Hw.
  exists h', tx. split_and!.
  - rewrite Hr. rewrite Hw. do 3 f_equal. destruct Hs as (Hst & Hcur & _). unfold visible_for, inserted_for, deleted_for, sees.
    by rewrite !Hst, !Hcur.
  - exact (Hh _ eq_refl).
  - by rewrite Hw in Hok'.
  - rewrite Hw in Hs'. by eapply same_answers_trans.
Qed.

(** Page [n] of the relation replaced by [q], nothing else. *)
Record repaged (n : nat) (q : Page) (b b' : Bufs) : Prop := {
  rp_fork x : fork_of b' x = if decide (x = node) then <[n := q]> (fork_of b node) else fork_of b x;
  rp_pins : pins b' = pins b;
  rp_dirty : dirty b' = dirty b;
}.

Lemma repaged_put n p q b : fork_of b node !! n = Some p → repaged n q b (put_page (node, Z.of_nat n) q b).
Proof. intros Hp. split; [|done|done]. intros x. apply fork_put. Qed.

Lemma repaged_trans n q1 q2 b1 b2 b3 : repaged n q1 b1 b2 → repaged n q2 b2 b3 → repaged n q2 b1 b3.
Proof.
  intros [F1 P1 D1] [F2 P2 D2]. split; [|congruence..]. intros x. rewrite F2, !F1, (decide_True (P := node = node)) by done.
  case_decide; [|done]. by rewrite list_insert_insert_eq.
Qed.

Lemma repaged_same n p b : fork_of b node !! n = Some p → repaged n p b b.
Proof. intros Hp. split; [|done|done]. intros x. case_decide; [subst|done]. by rewrite list_insert_id. Qed.

Lemma repaged_lookup n q p b b' : fork_of b node !! n = Some p → repaged n q b b' → fork_of b' node !! n = Some q.
Proof.
  intros Hp [F _ _]. rewrite F, decide_True by done. apply list_lookup_insert_eq. by eapply lookup_lt_Some.
Qed.

(** What the loop adds to the offsets found so far. *)
Definition cap (vis found : list Z) : list Z := vis ++ take (kHeapTuplesPerPage - length vis) found.

Lemma cap_step vis o (v : bool) found :
  cap (if v && (length vis <? kHeapTuplesPerPage)%nat then vis ++ [o] else vis) found =
  cap vis (if v then o :: found else found).
Proof.
  unfold cap. destruct v; cbn [andb]; [|done]. destruct (_ <? _)%nat eqn:E.
  - apply Nat.ltb_lt in E. rewrite length_app, <- app_assoc. f_equal.
    destruct (kHeapTuplesPerPage - length vis)%nat as [|k] eqn:Ek; [lia|]. cbn [length app take].
    by replace (kHeapTuplesPerPage - (length vis + 1))%nat with k by lia.
  - apply Nat.ltb_ge in E. replace (kHeapTuplesPerPage - length vis)%nat with 0%nat by lia. by rewrite !take_0.
Qed.

Lemma filter_true_cons {A} (f : A → bool) x (l : list A) :
  base.filter (λ y, f y = true) (x :: l) = if f x then x :: base.filter (λ y, f y = true) l else base.filter (λ y, f y = true) l.
Proof. rewrite filter_cons. destruct (f x) eqn:E; [by rewrite decide_True|by rewrite decide_False]. Qed.

Lemma scan_offsets_run p n offs :
  page_ok p → NoDup offs → (∀ o, o ∈ offs → 1 ≤ o ≤ nslots p) →
  (∀ o, o ∈ offs → normal p o → fresh_header (header_at p o)) →
  ∀ s q vis, bufs_ok (h_bufs s) → fork_of (h_bufs s) node !! n = Some q → hinted_page p q →
  (∀ o, o ∈ offs → normal p o → header_at q o = header_at p o) →
  oracle_ok (h_world s) → same_answers w0 (h_world s) →
  ∃ tx b' q', scan_offsets (node, Z.of_nat n) snap offs vis s =
      (Ret (cap vis (base.filter (λ o, visible_at p o = true) offs)),
       mkHeap (over (tx : Transam.state) (h_world s)) b' (h_mx s) (h_scans s)) ∧
    repaged n q' (h_bufs s) b' ∧ bufs_ok b' ∧ hinted_page p q' ∧
    oracle_ok (over tx (h_world s)) ∧ same_answers w0 (over tx (h_world s)).
Proof.
  intros Hp Hnd Hrange Hfresh. induction offs as [|o offs IH]; intros s q vis Hs Hq Hpq Hsame Hok Hans.
  { exists (w_tx (h_world s)), (h_bufs s), q. unfold cap. cbn. rewrite take_nil, app_nil_r.
    split_and!; [by destruct s as [[] ???]|by apply repaged_same|done|done|by destruct s as [[] ???]..]. }
  apply NoDup_cons in Hnd as [Hno Hnd]. cbn [scan_offsets]. erewrite bind_ret_run by done.
  rewrite (page_of_lookup (h_bufs s) node n q Hq).
  specialize (IH Hnd ltac:(intros; apply Hrange; by right) ltac:(intros; apply Hfresh; [by right|done])).
  unfold PageGetItemId. rewrite (hp_linp p q Hpq). rewrite filter_true_cons. unfold visible_at at 1, PageGetItemId.
  destruct (ItemIdIsNormal (linp p o)) eqn:En; cbn [negb andb].
  2: { apply (IH s q vis); try done. intros; apply Hsame; [by right|done]. }
  assert (Hno' : normal p o) by (split; [apply Hrange; by left|done]).
  rewrite (Hsame o) by (done || by left).
  destruct (mvcc_run (header_at p o) (h_world s) Hok Hans) as (h' & tx & Hr & Hh & Hok' & Hans').
  { apply Hfresh; [by left|done]. }
  erewrite bind_ret_run by (apply zoom_run; exact Hr). erewrite bind_ret_run by done. cbn [fst snd view lens_bufs h_bufs over].
  assert (Hwf : wf_header h').
  { eapply hinted_wf; [exact Hh|]. unfold header_at. apply wf_decode, read_u8, Hp. }
  set (q1 := set_header o h' q). cbn [h_world h_bufs h_mx h_scans over lens_world].
  rewrite (page_of_lookup (h_bufs s) node n q Hq).
  set (s1 := mkHeap (over tx (h_world s)) (put_page (node, Z.of_nat n) q1 (h_bufs s)) (h_mx s) (h_scans s)).
  assert (Hrp : repaged n q1 (h_bufs s) (h_bufs s1)) by (by eapply repaged_put).
  assert (Hhp : hinted_page p q1).
  { apply hinted_page_step; try done. rewrite (Hsame o); [done|by left|done]. }
  destruct (IH s1 q1 (if visible_for status current (header_at p o) snap && (length vis <? kHeapTuplesPerPage)%nat
                      then vis ++ [o] else vis)) as (tx2 & b2 & q2 & Hrun & Hrp2 & Hs2 & Hhp2 & Hok2 & Hans2); try done.
  { apply bufs_ok_put; [done|by apply Hhp]. }
  { by eapply repaged_lookup. }
  { intros o' Ho' Hn'. unfold q1. rewrite header_at_set; [|apply Hpq|by apply (hp_normal p q Hpq)..|done].
    rewrite decide_False by (by intros ->). apply Hsame; [by right|done]. }
  exists tx2, b2, q2. split_and!; [|by eapply repaged_trans|done..].
  change (over tx2 (h_world s1)) with (over tx2 (h_world s)) in *. etrans; [exact Hrun|].
  by rewrite cap_step.
Qed.

(** ** The state of a scan *)

Context (scan : nat).

(** The state while the scan runs; [d] is its descriptor. *)
Record scanning (s : heap_st) (d : HeapScanDescData) : Prop := {
  sc_desc : scan_of (h_scans s) scan = d;
  sc_base : rs_base d = relation;
  sc_snap : default default_snapshot (snap_store (w_snap (h_world s)) !! rs_snapshot d) = snap;
  sc_blocks : rs_nblocks d = Z.of_nat (length (fork_of (h_bufs s) node));
  sc_bufs : bufs_ok (h_bufs s);
  sc_oracle : oracle_ok (h_world s);
  sc_answers : same_answers w0 (h_world s);
}.

(** Descriptors that differ in the position only. *)
Definition moved (d d' : HeapScanDescData) : Prop :=
  rs_base d' = rs_base d ∧ rs_snapshot d' = rs_snapshot d ∧ rs_nblocks d' = rs_nblocks d.

Lemma scan_of_upd c f : scan_of (exec (upd_scan scan f) c) scan = f (scan_of c scan).
Proof. unfold scan_of, upd_scan, exec, modify. cbn. by rewrite lookup_insert_eq. Qed.

(** Changing the position changes nothing else. *)
Lemma scanning_upd s d f :
  scanning s d → moved d (f d) →
  scanning (mkHeap (h_world s) (h_bufs s) (h_mx s) (exec (upd_scan scan f) (h_scans s))) (f d).
Proof.
  intros [H1 H2 H3 H4 H5 H6 H7] (M1 & M2 & M3). split; cbn [h_world h_bufs h_scans]; try done; try congruence.
  by rewrite scan_of_upd, H1.
Qed.

Lemma release_cbuf_run s d :
  scanning s d →
  ∃ b c, release_cbuf scan s = (Ret tt, mkHeap (h_world s) b (h_mx s) c) ∧ main_fork b = main_fork (h_bufs s) ∧
         ∃ cb, scanning (mkHeap (h_world s) b (h_mx s) c) (with_cbuf cb d).
Proof.
  intros Hsc. pose proof (sc_desc s d Hsc) as Hd. unfold release_cbuf. erewrite bind_ret_run by done. rewrite Hd.
  destruct (rs_cbuf d) as [b|] eqn:Eb.
  - eexists (exec (ReleaseBuffer b) (h_bufs s)), _. split; [done|]. split; [done|]. exists None.
    pose proof (scanning_upd s d (with_cbuf None) Hsc ltac:(done)) as [H1 H2 H3 H4 H5 H6 H7].
    split; try done.
  - exists (h_bufs s), (h_scans s). split; [by destruct s|]. split; [done|]. exists None.
    assert (with_cbuf None d = d) as -> by (destruct d; cbn in *; by subst). by destruct s.
Qed.

(** A change of the caches is invisible to the log and the transaction stack. *)
Lemma scanning_caches s d c :
  scanning s d → scanning (mkHeap (over (c : Caches) (h_world s)) (h_bufs s) (h_mx s) (h_scans s)) d.
Proof. intros [H1 H2 H3 H4 H5 H6 H7]. by split. Qed.

Lemma set_cnum_run s c :
  ∃ cc : Caches, set_cached_cnum scan c s = (Ret tt, mkHeap (over cc (h_world s)) (h_bufs s) (h_mx s) (h_scans s)).
Proof. unfold set_cached_cnum. by eexists. Qed.

(** The offsets a page contributes. *)
Definition found (p : Page) : list Z :=
  take kHeapTuplesPerPage (base.filter (λ o, visible_at p o = true) (offsets (PageGetMaxOffsetNumber p))).

Definition fresh_page (p : Page) : Prop := ∀ o, normal p o → fresh_header (header_at p o).

Lemma scan_page_run s d n p :
  scanning s d → fork_of (h_bufs s) node !! n = Some p → fresh_page p →
  ∃ s' d' q, heap_scan_page scan (Z.of_nat n) s = (Ret tt, s') ∧ scanning s' d' ∧ moved d d' ∧
    rs_cblock d' = Z.of_nat n ∧ rs_cbuf d' = Some (node, Z.of_nat n) ∧ rs_inited d' = rs_inited d ∧
    rs_vistuples d' = found p ∧ rs_vistuple_index d' = 0%nat ∧ hinted_page p q ∧
    (∀ x, fork_of (h_bufs s') x = if decide (x = node) then <[n := q]> (fork_of (h_bufs s) node) else fork_of (h_bufs s) x).
Proof.
  intros Hsc Hp Hfresh. pose proof Hsc as [H1 H2 H3 H4 H5 H6 H7].
  assert (Hpo : page_ok p) by exact (bufs_ok_page (h_bufs s) node n p H5 Hp).
  unfold heap_scan_page. erewrite bind_ret_run by done. rewrite H1, H2.
  rewrite (bind_ret_run _ _ _ _ _ (zoom_run _ s _ _ (Hrel (h_bufs s)))).
  replace (over (h_bufs s) s) with s by (by destruct s).
  destruct (release_cbuf_run s d Hsc) as (b1 & c1 & Hrl & Hm1 & cb & Hsc1). rewrite (bind_ret_run _ _ _ _ _ Hrl).
  assert (Hf1 : ∀ x, fork_of b1 x = fork_of (h_bufs s) x) by (intros; by apply fork_of_main).
  apply (scanning_upd _ _ (with_cblock (Z.of_nat n))) in Hsc1; [|done]. erewrite bind_ret_run by done.
  destruct (read_buffer_run b1 node n p) as (b2 & Hrd & Hm2 & _ & _); [by rewrite Hf1|].
  erewrite bind_ret_run by (apply zoom_run; exact Hrd).
  assert (Hf2 : ∀ x, fork_of b2 x = fork_of (h_bufs s) x) by (intros; rewrite <- Hf1; by apply fork_of_main).
  assert (Hb2 : bufs_ok b2) by (intros x; rewrite Hf2; apply H5).
  set (c2 := exec (upd_scan scan (with_cblock (Z.of_nat n))) c1) in *.
  set (g := λ d, with_vistuples [] (with_cbuf (Some (node, Z.of_nat n)) d)).
  set (c3 := exec (upd_scan scan g) c2). set (d3 := g (with_cblock (Z.of_nat n) (with_cbuf cb d))).
  assert (Hsc2 : scanning (mkHeap (h_world s) b1 (h_mx s) c3) d3) by (by apply (scanning_upd _ _ g) in Hsc1).
  do 3 (erewrite bind_ret_run by done). cbn [h_bufs h_world over lens_bufs lens_scans].
  rewrite (page_of_lookup b2 node n p) by (by rewrite Hf2). rewrite H3.
  set (s2 := mkHeap (h_world s) b2 (h_mx s) c3).
  destruct (scan_offsets_run p n (offsets (PageGetMaxOffsetNumber p)) Hpo) with (s := s2) (q := p) (vis := @nil Z)
    as (tx & b3 & q & Hrun & [Hf3 _ _] & Hb3 & Hhp & Hok3 & Hans3); try done.
  { apply NoDup_seqZ. }
  { intros o Ho. unfold offsets in Ho. rewrite (wf_max_offset p (po_wf p Hpo)), elem_of_seqZ in Ho. lia. }
  { intros o _ Ho. by apply Hfresh. }
  { by rewrite Hf2. }
  erewrite bind_ret_run by exact Hrun. cbn [app length]. unfold cap. cbn [app length]. rewrite Nat.sub_0_r. fold (found p).
  erewrite bind_ret_run by done. erewrite bind_ret_run by done. cbn [h_world].
  set (s3 := mkHeap (over tx (h_world s)) b3 (h_mx s) c3).
  destruct (set_cnum_run s3 (GetCurrentCommandId (over tx (h_world s)))) as [cc Hcc].
  rewrite (bind_ret_run _ _ _ _ _ Hcc).
  assert (Hlen : length (fork_of b3 node) = length (fork_of (h_bufs s) node)).
  { rewrite Hf3, decide_True, length_insert by done. unfold s2. cbn. by rewrite Hf2. }
  assert (Hsc3 : scanning s3 d3).
  { destruct Hsc2 as [K1 K2 K3 K4 K5 K6 K7]. split; try done. cbn in *. congruence. }
  apply (scanning_caches _ _ cc) in Hsc3.
  set (f := λ d, with_cached_snapshot (GetActiveSnapshot (over tx (h_world s))) (with_vistuples (found p) d)).
  exists (mkHeap (over cc (over tx (h_world s))) b3 (h_mx s) (exec (upd_scan scan f) c3)), (f d3), q.
  split; [done|]. split; [apply (scanning_upd _ _ f Hsc3); done|]. split_and!; try done.
  intros x. cbn [h_bufs]. rewrite Hf3. unfold s2. cbn. by rewrite !Hf2.
Qed.

(** ** All pages *)

(** The relation as the scan found it. *)
Context (ps : list Page) (Hsmall : Z.of_nat (length ps) < 2 ^ 32) (Hfresh : Forall fresh_page ps) (Hps : Forall page_ok ps).

Definition row_on (blk : Z) (p : Page) (o : Z) : row := row_of_item (mkTid blk o) (PageGetItem p (linp p o)).

(** The rows a scan returns: per page, the first 256 visible ones. *)
Fixpoint scan_rows (blk : Z) (l : list Page) : list row :=
  match l with
  | [] => []
  | p :: l' => take kHeapTuplesPerPage (base.filter (λ r, row_visible r = true) (page_rows blk p)) ++ scan_rows (blk + 1) l'
  end.

Lemma filter_fmap_true {A B} (f : A → B) (g : B → bool) (l : list A) :
  base.filter (λ y, g y = true) (f <$> l) = f <$> base.filter (λ x, g (f x) = true) l.
Proof.
  induction l as [|x l IH]; [done|]. change (f <$> x :: l) with (f x :: (f <$> l)).
  rewrite filter_true_cons, (filter_true_cons (λ x, g (f x))), IH. by destruct (g (f x)).
Qed.

Lemma found_rows blk p :
  page_ok p → take kHeapTuplesPerPage (base.filter (λ r, row_visible r = true) (page_rows blk p)) = row_on blk p <$> found p.
Proof.
  intros Hp. unfold page_rows, found. rewrite filter_fmap_true, <- fmap_take. unfold row_on, PageGetItemId. do 2 f_equal.
  rewrite list_filter_filter. apply filter_same. intros o Ho. unfold visible_at, PageGetItemId.
  destruct (ItemIdIsNormal (linp p o)) eqn:En; cbn [andb]; [|by split; [intros [_ ?]|intros ?]].
  assert (Hn : normal p o).
  { split; [|done]. unfold offsets in Ho. rewrite (wf_max_offset p (po_wf p Hp)), elem_of_seqZ in Ho. lia. }
  unfold row_visible. rewrite (header_at_item p o Hp Hn). unfold row_of_item, PageGetItemId. cbn [row_header]. tauto.
Qed.

Lemma found_normal p o : page_ok p → o ∈ found p → normal p o.
Proof.
  intros Hp Ho. unfold found in Ho. apply elem_of_take in Ho as (i & Ho & _). apply list_elem_of_lookup_2 in Ho.
  apply list_elem_of_filter in Ho as [Hv Ho]. unfold offsets in Ho.
  rewrite (wf_max_offset p (po_wf p Hp)), elem_of_seqZ in Ho. unfold visible_at, PageGetItemId in Hv. to_prop. split; [lia|done].
Qed.

Definition next_block (d : HeapScanDescData) : Z := if rs_inited d then u32 (rs_cblock d + 1) else 0.

(** The pages from block [k] on are as the scan found them. *)
Definition untouched (k : nat) (s : heap_st) : Prop :=
  length (fork_of (h_bufs s) node) = length ps ∧ ∀ i, (k ≤ i)%nat → fork_of (h_bufs s) node !! i = ps !! i.

(** Standing on page [n] with the offsets [rest] still to return. *)
Record on_page (s : heap_st) (d : HeapScanDescData) (n : nat) (p : Page) (rest : list Z) : Prop := {
  op_scan : scanning s d;
  op_inited : rs_inited d = true;
  op_block : rs_cblock d = Z.of_nat n;
  op_buf : rs_cbuf d = Some (node, Z.of_nat n);
  op_page : ps !! n = Some p;
  op_hinted : ∃ q, hinted_page p q ∧ fork_of (h_bufs s) node !! n = Some q;
  op_rest : drop (rs_vistuple_index d) (rs_vistuples d) = rest;
  op_normal o : o ∈ rest → normal p o;
  op_next : untouched (S n) s;
}.

Lemma next_page_run l : ∀ k s d fuel,
  scanning s d → drop (rs_vistuple_index d) (rs_vistuples d) = [] → next_block d = Z.of_nat k → drop k ps = l →
  untouched k s → (length l < fuel)%nat →
  (∃ s', next_page fuel scan s = (Ret false, s') ∧ scan_rows (Z.of_nat k) l = []) ∨
  (∃ s' d' n p, next_page fuel scan s = (Ret true, s') ∧ on_page s' d' n p (found p) ∧ found p ≠ [] ∧
     scan_rows (Z.of_nat k) l = (row_on (Z.of_nat n) p <$> found p) ++ scan_rows (Z.of_nat (S n)) (drop (S n) ps)).
Proof.
  induction l as [|p l IH]; intros k s d [|fuel] Hsc Hex Hnb Hl Hun Hfu; [cbn in Hfu; lia| |cbn in Hfu; lia|];
    pose proof Hsc as [H1 _ _ H4 _ _ _]; cbn [next_page]; (erewrite bind_ret_run by done); rewrite H1;
    assert (Hlen := f_equal length Hex); rewrite length_drop in Hlen; cbn in Hlen;
    rewrite (proj2 (Nat.ltb_ge _ _)) by lia; (erewrite bind_ret_run by done);
    fold (next_block d); rewrite Hnb.
  - left. assert (length ps ≤ k)%nat by (apply (f_equal length) in Hl; rewrite length_drop in Hl; cbn in Hl; lia).
    destruct Hun as [Hul _]. rewrite (proj2 (Z.leb_le _ _)) by (rewrite H4, Hul; lia). by eexists.
  - assert (Hk : ps !! k = Some p) by (rewrite <- (Nat.add_0_r k), <- lookup_drop, Hl; done).
    assert (Hkl := lookup_lt_Some _ _ _ Hk). destruct Hun as [Hul Hun].
    rewrite (proj2 (Z.leb_gt _ _)) by (rewrite H4, Hul; lia).
    set (f := λ d : HeapScanDescData, mkScan (rs_base d) (rs_snapshot d) (rs_nblocks d) (rs_cblock d) (rs_cbuf d) true
                (rs_vistuples d) (rs_vistuple_index d) (rs_cached_snapshot d)).
    pose proof (scanning_upd s d f Hsc ltac:(done)) as Hsc1. set (s1 := mkHeap _ _ _ _) in Hsc1.
    destruct (scan_page_run s1 (f d) k p Hsc1) as (s2 & d2 & q & Hrun & Hsc2 & _ & Hcb & Hbuf & Hin & Hvis & Hidx & Hhp & Hfork).
    { cbn. by rewrite Hun. }
    { by eapply Forall_lookup_1. }
    assert (Hpo : page_ok p) by (by eapply Forall_lookup_1).
    erewrite bind_ret_run by exact Hrun.
    assert (Hun2 : untouched (S k) s2).
    { split; [rewrite Hfork, decide_True, length_insert by done; done|]. intros i Hi.
      rewrite Hfork, decide_True, list_lookup_insert_ne by (done || lia). apply Hun. lia. }
    assert (HlS : drop (S k) ps = l) by (rewrite <- Nat.add_1_r, <- drop_drop, Hl; done).
    cbn [scan_rows]. rewrite found_rows by done. replace (Z.of_nat k + 1) with (Z.of_nat (S k)) by lia.
    destruct (found p) as [|o rest] eqn:Ef.
    + cbn [fmap list_fmap app]. apply (IH (S k) s2 d2); try done; [by rewrite Hidx, Hvis| |cbn in Hfu; lia].
      unfold next_block. rewrite Hin. cbn [f rs_inited]. rewrite Hcb. unfold u32. rewrite Z.mod_small; lia.
    + right. destruct fuel as [|fuel]; [cbn in Hfu; lia|].
      exists s2, d2, k, p. rewrite HlS, Ef. split_and!; [|split; try done|done|done].
      * cbn [next_page]. erewrite bind_ret_run by done. rewrite (sc_desc _ _ Hsc2), Hvis, Hidx. done.
      * exists q. split; [done|]. rewrite Hfork, decide_True by done. apply list_lookup_insert_eq. cbn. by rewrite Hul.
      * by rewrite Hvis, Hidx.
      * intros o' Ho'. apply found_normal; [done|]. by rewrite Ef.
Qed.

(** What is left of a scan: the rows it will still return. *)
Inductive ready (s : heap_st) : list row → Prop :=
| ready_next d k :
    scanning s d → drop (rs_vistuple_index d) (rs_vistuples d) = [] → next_block d = Z.of_nat k → untouched k s →
    ready s (scan_rows (Z.of_nat k) (drop k ps))
| ready_page d n p o rest :
    on_page s d n p (o :: rest) →
    ready s ((row_on (Z.of_nat n) p <$> o :: rest) ++ scan_rows (Z.of_nat (S n)) (drop (S n) ps)).

(** The tuple returned for a row: its place, its data and its header up to hints. *)
Record returned_row (tup : HeapTupleData) (r : row) : Prop := {
  rr_self : t_self tup = row_tid r;
  rr_payload : payload tup = row_data r;
  rr_header : hinted (row_header r) (t_data tup);
}.

(** The end of [heap_getnext], when the page has a tuple left. *)
Lemma take_tuple_run s d n p o rest :
  on_page s d n p (o :: rest) →
  ∃ tup s', (d ← gets (λ s, scan_of (h_scans s) scan);
      zoom (upd_scan scan (λ d, mkScan (rs_base d) (rs_snapshot d) (rs_nblocks d) (rs_cblock d) (rs_cbuf d) (rs_inited d)
                                (rs_vistuples d) (S (rs_vistuple_index d)) (rs_cached_snapshot d)));;
      p ← gets (λ s, match rs_cbuf d with Some b => page_of (h_bufs s) b | None => PageInit kBlckSz 0 end);
      mret (Some (tuple_at p (mkTid (rs_cblock d) (default 0 (rs_vistuples d !! rs_vistuple_index d)))))) s =
    (Ret (Some tup), s') ∧ returned_row tup (row_on (Z.of_nat n) p o) ∧
    ready s' ((row_on (Z.of_nat n) p <$> rest) ++ scan_rows (Z.of_nat (S n)) (drop (S n) ps)).
Proof.
  intros [Hsc Hin Hcb Hbuf Hp (q & Hq & Hfq) Hrest Hnorm Hnext]. pose proof Hsc as [H1 _ _ _ H5 _ _].
  assert (Hpo : page_ok p) by (by eapply Forall_lookup_1).
  assert (Hno : normal p o) by (apply Hnorm; by left). pose proof (po_len p Hpo o Hno) as Hlen.
  unfold kHeapTupleHeaderSize in Hlen.
  set (f := λ d : HeapScanDescData, mkScan (rs_base d) (rs_snapshot d) (rs_nblocks d) (rs_cblock d) (rs_cbuf d) (rs_inited d)
              (rs_vistuples d) (S (rs_vistuple_index d)) (rs_cached_snapshot d)).
  pose proof (scanning_upd s d f Hsc ltac:(done)) as Hsc1. set (s1 := mkHeap _ _ _ _) in Hsc1.
  assert (Ho : rs_vistuples d !! rs_vistuple_index d = Some o).
  { rewrite <- (Nat.add_0_r (rs_vistuple_index d)), <- lookup_drop, Hrest. done. }
  exists (tuple_at q (mkTid (Z.of_nat n) o)), s1. split_and!.
  - erewrite bind_ret_run by done. rewrite H1. erewrite bind_ret_run by done. erewrite bind_ret_run by done.
    rewrite Hbuf, Ho, Hcb. cbn [h_bufs over lens_scans]. by rewrite (page_of_lookup _ _ _ _ Hfq).
  - split.
    + done.
    + unfold payload, tuple_at, row_on, PageGetItemId. cbn [t_bytes t_len ip_posid row_of_item row_data].
      rewrite <- (hp_data p q Hq o Hno), <- (hp_linp p q Hq o). unfold PageGetItem. rewrite (drop_read _ _ 23)
        by (rewrite (hp_linp p q Hq); lia). apply read_shift. intros k Hk. f_equal. unfold kHeapTupleHeaderSize. lia.
    + unfold row_on, tuple_at. cbn [t_data ip_posid row_of_item row_header].
      change (decode_header _) with (row_header (row_of_item (mkTid 0 o) (PageGetItem p (PageGetItemId p o)))).
      rewrite <- (header_at_item p o Hpo Hno). by apply (hp_header p q Hq).
  - assert (Hdrop : drop (S (rs_vistuple_index d)) (rs_vistuples d) = rest)
      by (rewrite <- Nat.add_1_r, <- drop_drop, Hrest; done).
    destruct rest as [|o' rest].
    + cbn [fmap list_fmap app]. apply (ready_next s1 (f d)); try done. unfold next_block. cbn [f rs_inited rs_cblock].
      rewrite Hin, Hcb. apply lookup_lt_Some in Hp. unfold u32. rewrite Z.mod_small; lia.
    + apply (ready_page s1 (f d)). split; try done; [by exists q|]. intros; apply Hnorm. by right.
Qed.

Lemma getnext_run s rws :
  ready s rws →
  match rws with
  | [] => ∃ s', heap_getnext scan s = (Ret None, s')
  | r :: rws' => ∃ tup s', heap_getnext scan s = (Ret (Some tup), s') ∧ returned_row tup r ∧ ready s' rws'
  end.
Proof.
  intros Hr. unfold heap_getnext. destruct Hr as [d k Hsc Hex Hnb Hun|d n p o rest Hon].
  - erewrite bind_ret_run by done. rewrite (sc_desc _ _ Hsc).
    destruct (next_page_run (drop k ps) k s d (S (S (Z.to_nat (rs_nblocks d)))) Hsc Hex Hnb eq_refl Hun) as
      [(s' & Hrun & ->)|(s' & d' & n & p & Hrun & Hon & Hne & ->)].
    { rewrite length_drop, (sc_blocks _ _ Hsc), (proj1 Hun). lia. }
    + rewrite (bind_ret_run _ _ _ _ _ Hrun). by exists s'.
    + rewrite (bind_ret_run _ _ _ _ _ Hrun). cbn [negb]. destruct (found p) as [|o rest] eqn:Ef; [done|].
      cbn [fmap list_fmap app]. destruct (take_tuple_run s' d' n p o rest Hon) as (tup & s2 & H & Hret & Hrd).
      by exists tup, s2.
  - cbn [fmap list_fmap app]. erewrite bind_ret_run by done.
    assert (Hnp : ∀ fuel, next_page (S fuel) scan s = (Ret true, s)).
    { intros fuel. cbn [next_page]. erewrite bind_ret_run by done. rewrite (sc_desc _ _ (op_scan _ _ _ _ _ Hon)).
      pose proof (f_equal length (op_rest _ _ _ _ _ Hon)) as Hlen. rewrite length_drop in Hlen. cbn in Hlen.
      by rewrite (proj2 (Nat.ltb_lt _ _)) by lia. }
    rewrite (bind_ret_run _ _ _ _ _ (Hnp _)). cbn [negb]. exact (take_tuple_run s d n p o rest Hon).
Qed.

Lemma scan_all_run rws : ∀ s,
  ready s rws → ∃ tups s', scan_all (S (length rws)) scan s = (Ret tups, s') ∧ Forall2 returned_row tups rws.
Proof.
  induction rws as [|r rws IH]; intros s Hr; pose proof (getnext_run s _ Hr) as Hg.
  - destruct Hg as [s' Hg]. exists [], s'. split; [|done]. cbn [scan_all length]. by rewrite (bind_ret_run _ _ _ _ _ Hg).
  - destruct Hg as (tup & s1 & Hg & Hret & Hrd). destruct (IH s1 Hrd) as (tups & s' & Hrun & Hall).
    exists (tup :: tups), s'. split; [|by constructor]. cbn [length]. cbn [scan_all]. rewrite (bind_ret_run _ _ _ _ _ Hg).
    cbn [scan_all length] in Hrun |- *. by rewrite (bind_ret_run _ _ _ _ _ Hrun).
Qed.

End scan.

(** ** A whole scan *)

Lemma row_on_rows s node n p o :
  bufs_ok s → fork_of s node !! n = Some p → normal p o → row_on (Z.of_nat n) p o ∈ rows s node.
Proof.
  intros Hs Hp Ho. pose proof (bufs_ok_page s node n p Hs Hp) as Hpo.
  destruct (fork_rows_insert (fork_of s node) n p p Hp) as (r1 & r2 & Hr & _). unfold rows. rewrite Hr.
  apply elem_of_app. right. apply elem_of_app. left. unfold page_rows. apply list_elem_of_fmap.
  exists o. split; [done|]. by apply normals_ok.
Qed.

Lemma scan_rows_all snap w0 blk l :
  Forall (λ p, ∀ b, (length (base.filter (λ r, row_visible snap w0 r = true) (page_rows b p)) ≤ kHeapTuplesPerPage)%nat) l →
  scan_rows snap w0 blk l = base.filter (λ r, row_visible snap w0 r = true) (fork_rows blk l).
Proof.
  intros Hl. revert blk. induction Hl as [|p l Hp _ IH]; intros blk; [done|]. cbn [scan_rows fork_rows].
  rewrite filter_app, IH. f_equal. apply take_ge. apply Hp.
Qed.

(** The descriptor of a new scan. *)
Lemma beginscan_run relation node s l :
  opened relation node →
  ∃ scan s1, heap_beginscan relation (Some l) s = (Ret scan, s1) ∧ h_bufs s1 = h_bufs s ∧
    scan_of (h_scans s1) scan = mkScan relation l (Z.of_nat (length (fork_of (h_bufs s) node))) 0 None false [] 0 None ∧
    ∃ c : Caches, h_world s1 = over c (h_world s).
Proof.
  intros Hr. unfold heap_beginscan. erewrite bind_ret_run by done. unfold RelationGetNumberOfBlocks.
  erewrite bind_ret_run by (apply zoom_run; rewrite (bind_ret_run _ _ _ _ _ (Hr _)); done).
  erewrite bind_ret_run by done. erewrite bind_ret_run by done. erewrite bind_ret_run by done.
  eexists _, _. split; [done|]. split_and!; [done| |by eexists].
  unfold scan_of. cbn. by rewrite lookup_insert_eq.
Qed.

(** C1: a sequential scan returns exactly the visible rows.  Start a scan with
    a snapshot on a relation whose tuples carry no hint bits and call
    [heap_getnext] until it answers null: it does so after finitely many
    calls, and the tuples returned are, in order and with their identifiers
    and data, the rows the reference definition of visibility admits, at most
    256 per page; when no page has more visible rows than that, they are all
    the visible rows of the relation. *)
Theorem scan_returns_visible_rows relation node s l snap :
  opened relation node → bufs_ok (h_bufs s) → cache_coherent (w_tx (h_world s)) →
  snap_store (w_snap (h_world s)) !! l = Some snap → Z.of_nat (length (fork_of (h_bufs s) node)) < 2 ^ 32 →
  (∀ r, r ∈ rows (h_bufs s) node → fresh_header snap (row_header r)) →
  let expected := scan_rows snap (h_world s) 0 (fork_of (h_bufs s) node) in
  (∃ scan s1 tups s2, heap_beginscan relation (Some l) s = (Ret scan, s1) ∧
     scan_all (S (length expected)) scan s1 = (Ret tups, s2) ∧ Forall2 returned_row tups expected) ∧
  (Forall (λ p, ∀ b, (length (base.filter (λ r, row_visible snap (h_world s) r = true) (page_rows b p))
                      ≤ kHeapTuplesPerPage)%nat) (fork_of (h_bufs s) node) →
   expected = base.filter (λ r, row_visible snap (h_world s) r = true) (rows (h_bufs s) node)).
Proof.
  intros Hr Hs Hc Hl Hlen Hfresh expected. split; [|by apply scan_rows_all].
  destruct (beginscan_run relation node s l Hr) as (scan & s1 & Hbegin & Hb & Hd & c & Hw).
  destruct (scan_all_run relation node Hr snap (h_world s) scan (fork_of (h_bufs s) node)) with
    (rws := expected) (s := s1) as (tups & s2 & Hrun & Hall).
  - done.
  - apply Forall_forall. intros p Hp o Ho. apply list_elem_of_lookup in Hp as [n Hp].
    pose proof (bufs_ok_page (h_bufs s) node n p Hs Hp) as Hpo. rewrite (header_at_item p o Hpo Ho).
    exact (Hfresh _ (row_on_rows (h_bufs s) node n p o Hs Hp Ho)).
  - apply Hs.
  - apply (ready_next _ _ _ _ _ _ s1 (scan_of (h_scans s1) scan) 0); rewrite ?Hd; [|done|done|split; by rewrite Hb].
    split; cbn [rs_base rs_snapshot rs_nblocks]; rewrite ?Hb, ?Hw; try done. cbn. by rewrite Hl.
  - by exists scan, s1, tups, s2.
Qed.

(** ** A scan by the inserting transaction *)

(** The relation of [HeapSpec.demo_row] with the snapshot of the transaction. *)
Definition demo_scan_heap : heap_st := exec (zoom GetTransactionSnapshot) demo_heap1.
Definition demo_snapshot : SnapshotData := mkSnapshot kMVCC 3 4 [3] 3 1 false.

Lemma zoom_world_bufs {A} (m : M world A) s : h_bufs (exec (zoom m) s) = h_bufs s.
Proof. unfold exec, zoom. by destruct (m (view s)). Qed.

Lemma demo_scan_bufs : h_bufs demo_scan_heap = h_bufs demo_heap1.
Proof. apply zoom_world_bufs. Qed.

Lemma demo_fresh : fresh_header demo_snapshot demo_header.
Proof.
  split.
  - intros n Hn. assert (n = 8 ∨ n = 9 ∨ n = 10 ∨ n = 11) as [-> |[-> |[-> | ->]]] by lia; vm_compute; reflexivity.
  - vm_compute. discriminate.
  - intros H. vm_compute in H. discriminate H.
  - intros H. by vm_compute in H |- *.
Qed.

Lemma scan_returns_visible_rows_witness :
  ∃ scan s1 tups s2, heap_beginscan demo_relation (Some 0%nat) demo_scan_heap = (Ret scan, s1) ∧
    scan_all 2 scan s1 = (Ret tups, s2) ∧ Forall2 returned_row tups [demo_row].
Proof.
  destruct demo_inserted as (Hs & _ & Hrows & _).
  assert (He : scan_rows demo_snapshot (h_world demo_scan_heap) 0 (fork_of (h_bufs demo_scan_heap) 16385) = [demo_row])
    by (vm_compute; reflexivity).
  destruct (scan_returns_visible_rows demo_relation 16385 demo_scan_heap 0 demo_snapshot) as [H _].
  - exact demo_opened.
  - rewrite demo_scan_bufs. exact Hs.
  - intros Hn. vm_compute in Hn. discriminate Hn.
  - vm_compute. reflexivity.
  - vm_compute. reflexivity.
  - rewrite demo_scan_bufs, Hrows. intros r ->%list_elem_of_singleton. exact demo_fresh.
  - rewrite He in H. exact H.
Defined.

(** ** A full page

    A row of one null column takes 24 bytes and a line pointer, so that a page
    holds 291 of them; the scan returns the first 256 visible ones. *)
Definition page_of_nulls (n : nat) : Page :=
  Nat.iter n (λ p, (PageAddItem (replicate 24 0) kInvalidOffsetNumber p).2) (PageInit kBlckSz 0).

Lemma full_page_loses_rows snap w p blk :
  24 ≤ PageGetHeapFreeSpace (page_of_nulls 290) ∧ PageGetMaxOffsetNumber (page_of_nulls 291) = 291 ∧
  ((kHeapTuplesPerPage < length (base.filter (λ r, row_visible snap w r = true) (page_rows blk p)))%nat →
   length (scan_rows snap w blk [p]) = kHeapTuplesPerPage).
Proof.
  split; [vm_compute; discriminate|]. split; [vm_compute; reflexivity|].
  intros H. cbn [scan_rows]. rewrite app_nil_r, length_take. lia.
Qed.

End HeapScan.
