(* ===== verification/Crc32c.v ===== *)
(** * The checksum of WAL records

    src/transaction/crc32c.cpp: the table of the Sarwate algorithm, the
    software update, the update by the SSE4.2 instructions, and the
    accumulator.  The compiler intrinsics are parameters with the behaviour
    the processor manual documents; [CrcEngine] is what the log relies on, and
    both updates implement it. *)

From Stdlib Require Import Btauto.
From stdpp Require Import base list numbers.
From S2P Require Import Prelude.

Module Crc32c.

Definition kCastagnoliPolyReflected : Z := 0x82F63B78.

(** One turn of the loop that fills the table. *)
Definition crc_bit (crc : Z) : Z :=
  if negb (Z.land crc 1 =? 0) then Z.lxor (Z.shiftr crc 1) kCastagnoliPolyReflected else Z.shiftr crc 1.

Definition kCrc32CTable : list Z := (λ i, Nat.iter 8 crc_bit i) <$> seqZ 0 256.

Definition crc_byte (crc b : Z) : Z :=
  Z.lxor (default 0 (kCrc32CTable !! Z.to_nat (Z.land (Z.lxor crc b) 0xFF))) (Z.shiftr crc 8).

Definition Crc32CUpdateSoftware (crc : Z) (data : list Z) : Z := foldl crc_byte crc data.

(** The hardware update: eight bytes at a time, then four, then single ones. *)
Section sse42.
Context (ia32_crc32qi ia32_crc32si ia32_crc32di : Z → Z → Z).

Fixpoint crc_words (crc : Z) (data : list Z) : Z * list Z :=
  match data with
  | b0 :: b1 :: b2 :: b3 :: b4 :: b5 :: b6 :: b7 :: rest =>
      crc_words (u32 (ia32_crc32di crc (of_le [b0; b1; b2; b3; b4; b5; b6; b7]))) rest
  | _ => (crc, data)
  end.

Definition crc_half (crc : Z) (data : list Z) : Z * list Z :=
  match data with
  | b0 :: b1 :: b2 :: b3 :: rest => (ia32_crc32si crc (of_le [b0; b1; b2; b3]), rest)
  | _ => (crc, data)
  end.

Definition Crc32CUpdateSse42 (crc : Z) (data : list Z) : Z :=
  let '(crc, data) := crc_words crc data in
  let '(crc, data) := crc_half crc data in
  foldl ia32_crc32qi crc data.

End sse42.

(** ** The accumulator

    The update a machine uses, chosen once at run time. *)

Class CrcEngine := {
  crc_update : Z → list Z → Z;
  crc_update_ok crc data :
    is_u32 crc → Forall is_u8 data → crc_update crc data = Crc32CUpdateSoftware crc data;
}.

Section accumulator.
Context `{CrcEngine}.

Definition Crc32C : Z := 0xFFFFFFFF.
Definition Crc32C_Reset (crc_ : Z) : Z := 0xFFFFFFFF.
Definition Crc32C_Update (crc_ : Z) (data : list Z) : Z := if decide (data = []) then crc_ else crc_update crc_ data.
Definition Crc32C_Finalize (crc_ : Z) : Z := Z.lxor crc_ 0xFFFFFFFF.
Definition Crc32CCompute (data : list Z) : Z := Crc32C_Finalize (Crc32C_Update Crc32C data).

End accumulator.

(** ** The update as a linear map

    The register is shifted bit by bit, so feeding bytes is xoring them in as
    one number and shifting. *)

Abbreviation shifts n := (Nat.iter n crc_bit).

Lemma crc_bit_spec x k :
  0 ≤ k → Z.testbit (crc_bit x) k = xorb (Z.testbit x (k + 1)) (Z.testbit x 0 && Z.testbit kCastagnoliPolyReflected k).
Proof.
  intros Hk. unfold crc_bit. rewrite (flag_bit x 0 ltac:(lia) : negb (Z.land x 1 =? 0) = _).
  destruct (Z.testbit x 0); rewrite ?Z.lxor_spec, Z.shiftr_spec by done; cbn; [done|]. by rewrite xorb_false_r.
Qed.

Lemma crc_bit_lxor x y : crc_bit (Z.lxor x y) = Z.lxor (crc_bit x) (crc_bit y).
Proof.
  apply Z.bits_inj'. intros k Hk. rewrite Z.lxor_spec, !crc_bit_spec, !Z.lxor_spec by done. btauto.
Qed.

Lemma crc_bit_shiftl y : crc_bit (Z.shiftl y 1) = y.
Proof.
  apply Z.bits_inj'. intros k Hk. rewrite crc_bit_spec, !Z.shiftl_spec by lia.
  replace (k + 1 - 1) with k by lia. rewrite (Z.testbit_neg_r y (0 - 1)) by lia. apply xorb_false_r.
Qed.

Lemma shifts_lxor n x y : shifts n (Z.lxor x y) = Z.lxor (shifts n x) (shifts n y).
Proof. induction n as [|n IH]; [done|]. cbn [Nat.iter nat_rect]. unfold Nat.iter in IH. by rewrite IH, crc_bit_lxor. Qed.

Lemma shifts_shiftl n y : shifts n (Z.shiftl y (Z.of_nat n)) = y.
Proof.
  revert y. induction n as [|n IH]; intros y; [apply Z.shiftl_0_r|]. rewrite Nat.iter_succ_r.
  replace (Z.of_nat (S n)) with (Z.of_nat n + 1) by lia. rewrite <- Z.shiftl_shiftl by lia. by rewrite crc_bit_shiftl.
Qed.

Lemma shifts_add n m x : shifts (n + m) x = shifts n (shifts m x).
Proof. apply Nat.iter_add. Qed.

Lemma low_byte_split x : x = Z.lxor (Z.land x 0xFF) (Z.shiftl (Z.shiftr x 8) 8).
Proof.
  apply Z.bits_inj'. intros k Hk. change 255 with (Z.ones 8).
  rewrite Z.lxor_spec, Z.land_spec, Z.testbit_ones_nonneg, Z.shiftl_spec by lia.
  destruct (Z.ltb_spec k 8) as [H8|H8].
  - rewrite (Z.testbit_neg_r _ (k - 8)) by lia. btauto.
  - rewrite Z.shiftr_spec by lia. replace (k - 8 + 8) with k by lia. btauto.
Qed.

Lemma byte_shiftr b : is_u8 b → Z.shiftr b 8 = 0.
Proof. intros Hb. rewrite Z.shiftr_div_pow2 by lia. apply Z.div_small, Hb. Qed.

Lemma table_entry i : 0 ≤ i < 256 → default 0 (kCrc32CTable !! Z.to_nat i) = shifts 8 i.
Proof.
  intros Hi. unfold kCrc32CTable. rewrite list_lookup_fmap, lookup_seqZ_lt by lia. cbn [fmap option_fmap option_map default].
  by replace (0 + Z.of_nat (Z.to_nat i)) with i by lia.
Qed.

Lemma crc_byte_shifts crc b : is_u8 b → crc_byte crc b = shifts 8 (Z.lxor crc b).
Proof.
  intros Hb. unfold crc_byte. rewrite table_entry.
  2: { change 255 with (Z.ones 8). rewrite Z.land_ones by lia. apply Z.mod_pos_bound. lia. }
  rewrite (low_byte_split (Z.lxor crc b)) at 2. rewrite shifts_lxor, (shifts_shiftl 8). f_equal.
  by rewrite Z.shiftr_lxor, (byte_shiftr b), Z.lxor_0_r by done.
Qed.

Lemma of_le_cons b l : is_u8 b → of_le (b :: l) = Z.lxor b (Z.shiftl (of_le l) 8).
Proof.
  intros Hb. change (of_le (b :: l)) with (b + 256 * of_le l). rewrite Z.add_nocarry_lxor.
  - f_equal. rewrite Z.shiftl_mul_pow2 by lia. lia.
  - apply Z.bits_inj_0. intros k. rewrite Z.land_spec. destruct (Z.ltb_spec k 0); [by rewrite Z.testbit_neg_r|].
    replace (256 * of_le l) with (Z.shiftl (of_le l) 8) by (rewrite Z.shiftl_mul_pow2 by lia; lia).
    destruct (Z.ltb_spec k 8).
    + rewrite Z.shiftl_spec, (Z.testbit_neg_r _ (k - 8)) by lia. apply andb_false_r.
    + rewrite (proj1 (Z.bounded_iff_bits_nonneg 8 b ltac:(lia) ltac:(apply Hb)) ltac:(apply Hb) k) by lia. done.
Qed.

(** Feeding bytes is one xor and as many shifts as there are bits. *)
Lemma update_shifts data crc :
  Forall is_u8 data → Crc32CUpdateSoftware crc data = shifts (8 * length data) (Z.lxor crc (of_le data)).
Proof.
  intros Hd. revert crc. induction Hd as [|b data Hb _ IH]; intros crc; [cbn; by rewrite Z.lxor_0_r|].
  change (Crc32CUpdateSoftware crc (b :: data)) with (Crc32CUpdateSoftware (crc_byte crc b) data).
  rewrite IH, crc_byte_shifts, of_le_cons by done.
  replace (8 * length (b :: data))%nat with (8 * length data + 8)%nat by (cbn [length]; lia).
  rewrite shifts_add. f_equal. by rewrite <- Z.lxor_assoc, (shifts_lxor 8 (Z.lxor crc b)), (shifts_shiftl 8).
Qed.

(** ** Bounds and injectivity *)

Lemma u32_bits x : 0 ≤ x → (is_u32 x ↔ ∀ k, 32 ≤ k → Z.testbit x k = false).
Proof. intros Hx. rewrite <- (Z.bounded_iff_bits_nonneg 32 x) by lia. unfold is_u32. lia. Qed.

Lemma poly_u32 : is_u32 kCastagnoliPolyReflected.
Proof. done. Qed.

Lemma lxor_u32 x y : is_u32 x → is_u32 y → is_u32 (Z.lxor x y).
Proof.
  intros Hx Hy. apply u32_bits; [apply Z.lxor_nonneg; unfold is_u32 in *; lia|]. intros k Hk. rewrite Z.lxor_spec.
  rewrite (proj1 (u32_bits x ltac:(apply Hx)) Hx k), (proj1 (u32_bits y ltac:(apply Hy)) Hy k) by done. done.
Qed.

Lemma crc_bit_u32 x : is_u32 x → is_u32 (crc_bit x).
Proof.
  intros Hx. assert (is_u32 (Z.shiftr x 1)).
  { rewrite Z.shiftr_div_pow2 by lia. change (2 ^ 1) with 2. unfold is_u32 in *. pose proof (Z.div_mod x 2).
    pose proof (Z.mod_pos_bound x 2). lia. }
  unfold crc_bit. case_match; [|done]. apply lxor_u32; [done|apply poly_u32].
Qed.

Lemma shifts_u32 n x : is_u32 x → is_u32 (shifts n x).
Proof. intros Hx. induction n; [done|]. by apply crc_bit_u32. Qed.

(** The top bit of the polynomial keeps the bit that is shifted out. *)
Lemma crc_bit_inj x y : is_u32 x → is_u32 y → crc_bit x = crc_bit y → x = y.
Proof.
  intros Hx Hy Heq.
  assert (Hb : ∀ k, 0 ≤ k → Z.testbit (crc_bit x) k = Z.testbit (crc_bit y) k) by (by rewrite Heq).
  assert (H0 : Z.testbit x 0 = Z.testbit y 0).
  { pose proof (Hb 31 ltac:(lia)) as H. rewrite !crc_bit_spec in H by lia.
    rewrite (proj1 (u32_bits x ltac:(apply Hx)) Hx), (proj1 (u32_bits y ltac:(apply Hy)) Hy) in H by lia.
    by destruct (Z.testbit x 0), (Z.testbit y 0). }
  apply Z.bits_inj'. intros k Hk. destruct (decide (k = 0)) as [->|]; [done|].
  pose proof (Hb (k - 1) ltac:(lia)) as H. rewrite !crc_bit_spec, H0 in H by lia.
  replace (k - 1 + 1) with k in H by lia.
  by destruct (Z.testbit x k), (Z.testbit y k), (Z.testbit y 0 && Z.testbit kCastagnoliPolyReflected (k - 1)).
Qed.

Lemma shifts_inj n x y : is_u32 x → is_u32 y → shifts n x = shifts n y → x = y.
Proof.
  intros Hx Hy. induction n as [|n IH]; [done|]. intros H.
  apply IH, crc_bit_inj; [by apply shifts_u32..|done].
Qed.

Lemma lxor_inj_r c x y : Z.lxor c x = Z.lxor c y → x = y.
Proof.
  intros H. apply (f_equal (Z.lxor c)) in H. by rewrite <- !Z.lxor_assoc, Z.lxor_nilpotent, !Z.lxor_0_l in H.
Qed.

Lemma update_app crc a b :
  Crc32CUpdateSoftware crc (a ++ b) = Crc32CUpdateSoftware (Crc32CUpdateSoftware crc a) b.
Proof. apply foldl_app. Qed.

Lemma crc_byte_u32 crc b : is_u32 crc → is_u8 b → is_u32 (crc_byte crc b).
Proof.
  intros Hc Hb. rewrite crc_byte_shifts by done. apply shifts_u32, lxor_u32; [done|].
  unfold is_u8, is_u32 in *. lia.
Qed.

Lemma update_u32 crc data : is_u32 crc → Forall is_u8 data → is_u32 (Crc32CUpdateSoftware crc data).
Proof.
  intros Hc Hd. revert crc Hc. induction Hd as [|b data Hb _ IH]; intros crc Hc; [done|].
  apply IH. by apply crc_byte_u32.
Qed.

(** Different registers stay different. *)
Lemma update_inj c1 c2 data :
  is_u32 c1 → is_u32 c2 → Forall is_u8 data → Crc32CUpdateSoftware c1 data = Crc32CUpdateSoftware c2 data → c1 = c2.
Proof.
  intros H1 H2 Hd. rewrite !update_shifts, !shifts_lxor by done. intros H.
  rewrite !(Z.lxor_comm _ (shifts _ (of_le data))) in H. apply lxor_inj_r, shifts_inj in H; done.
Qed.

(** At most four bytes fed into the same register. *)
Lemma update_window_inj crc w1 w2 :
  is_u32 crc → Forall is_u8 w1 → Forall is_u8 w2 → length w1 = length w2 → (length w1 ≤ 4)%nat →
  Crc32CUpdateSoftware crc w1 = Crc32CUpdateSoftware crc w2 → w1 = w2.
Proof.
  intros Hc H1 H2 Hl H4. rewrite !update_shifts, Hl by done. intros H.
  assert (Hu : ∀ w, Forall is_u8 w → (length w ≤ 4)%nat → is_u32 (of_le w)).
  { intros w Hw Hlw. pose proof (of_le_bound w Hw). unfold is_u32.
    assert (256 ^ Z.of_nat (length w) ≤ 256 ^ 4) by (apply Z.pow_le_mono_r; lia). lia. }
  apply shifts_inj in H; [|apply lxor_u32; [done|apply Hu; (done || lia)]..].
  apply lxor_inj_r in H. by apply of_le_inj.
Qed.

(** ** The engines *)

#[export] Program Instance software_engine : CrcEngine := {| crc_update := Crc32CUpdateSoftware |}.
Next Obligation. done. Qed.

Section sse42_engine.
Context (ia32_crc32qi ia32_crc32si ia32_crc32di : Z → Z → Z).

(** The documented behaviour of the instructions: the operand is xored into
    the register and shifted out bit by bit. *)
Context (Hqi : ∀ crc b, is_u32 crc → is_u8 b → ia32_crc32qi crc b = shifts 8 (Z.lxor crc b)).
Context (Hsi : ∀ crc w, is_u32 crc → is_u32 w → ia32_crc32si crc w = shifts 32 (Z.lxor crc w)).
Context (Hdi : ∀ crc q, is_u32 crc → 0 ≤ q < 2 ^ 64 → ia32_crc32di crc q = shifts 64 (Z.lxor crc q)).

Abbreviation sse42 := (Crc32CUpdateSse42 ia32_crc32qi ia32_crc32si ia32_crc32di).

Lemma fold_qi data crc : is_u32 crc → Forall is_u8 data → foldl ia32_crc32qi crc data = Crc32CUpdateSoftware crc data.
Proof.
  intros Hc Hd. revert crc Hc. induction Hd as [|b data Hb _ IH]; intros crc Hc; [done|]. cbn [foldl].
  change (Crc32CUpdateSoftware crc (b :: data)) with (Crc32CUpdateSoftware (crc_byte crc b) data).
  rewrite Hqi, <- crc_byte_shifts by done. apply IH. by apply crc_byte_u32.
Qed.

(** A chunk at the front: the instruction consumes it as the software does. *)
Lemma chunk_update crc chunk rest :
  is_u32 crc → Forall is_u8 chunk → Forall is_u8 rest →
  Crc32CUpdateSoftware crc (chunk ++ rest) =
    Crc32CUpdateSoftware (shifts (8 * length chunk) (Z.lxor crc (of_le chunk))) rest ∧
  is_u32 (shifts (8 * length chunk) (Z.lxor crc (of_le chunk))).
Proof. intros Hc Hw Hr. rewrite update_app, <- (update_shifts chunk) by done. split; [done|]. by apply update_u32. Qed.

Lemma half_step crc data :
  is_u32 crc → Forall is_u8 data →
  let '(crc', rest) := crc_half ia32_crc32si crc data in
  is_u32 crc' ∧ Forall is_u8 rest ∧ Crc32CUpdateSoftware crc data = Crc32CUpdateSoftware crc' rest.
Proof.
  intros Hc Hd. unfold crc_half. do 4 (destruct data as [|? data]; [done|]).
  apply (Forall_app _ [_; _; _; _] data) in Hd as [Hw Hd]. destruct (chunk_update crc _ data Hc Hw Hd) as [Hu H32].
  rewrite Hsi by (done || apply (of_le_bound _ Hw)). done.
Qed.

Lemma words_step crc data :
  is_u32 crc → Forall is_u8 data →
  let '(crc', rest) := crc_words ia32_crc32di crc data in
  is_u32 crc' ∧ Forall is_u8 rest ∧ Crc32CUpdateSoftware crc data = Crc32CUpdateSoftware crc' rest.
Proof.
  remember (length data) as n eqn:Hn. revert crc data Hn. induction (lt_wf n) as [n _ IH]. intros crc data -> Hc Hd.
  do 8 (destruct data as [|? data]; [done|]). cbn [crc_words].
  apply (Forall_app _ [_; _; _; _; _; _; _; _] data) in Hd as [Hw Hd].
  destruct (chunk_update crc _ data Hc Hw Hd) as [Hu H32]. cbn [app] in Hu. rewrite Hu.
  rewrite Hdi by (done || apply (of_le_bound _ Hw)). rewrite u32_small by done.
  apply (IH (length data)); [cbn [length]; lia|done..].
Qed.

(** the two implementations of the checksum agree.  With instructions
    that behave as documented, the SSE4.2 update (eight, four and one byte at
    a time) computes what the table-driven update computes, on every register
    and every sequence of bytes. *)
Theorem crc_implementations_agree crc data :
  is_u32 crc → Forall is_u8 data → sse42 crc data = Crc32CUpdateSoftware crc data.
Proof.
  intros Hc Hd. unfold Crc32CUpdateSse42. pose proof (words_step crc data Hc Hd) as Hw.
  destruct (crc_words ia32_crc32di crc data) as [c1 d1]. destruct Hw as (H1 & H2 & ->).
  pose proof (half_step c1 d1 H1 H2) as Hh. destruct (crc_half ia32_crc32si c1 d1) as [c2 d2]. destruct Hh as (H3 & H4 & ->).
  by apply fold_qi.
Qed.

End sse42_engine.

Lemma crc_implementations_agree_witness :
  let op n := λ crc w, shifts n (Z.lxor crc w) in
  Crc32CUpdateSse42 (op 8%nat) (op 32%nat) (op 64%nat) 7 (seqZ 40 13) = Crc32CUpdateSoftware 7 (seqZ 40 13).
Proof.
  intros op. apply (crc_implementations_agree (op 8%nat) (op 32%nat) (op 64%nat)).
  - intros crc b _ _. reflexivity.
  - intros crc b _ _. reflexivity.
  - intros crc b _ _. reflexivity.
  - unfold is_u32. lia.
  - repeat constructor; discriminate.
Defined.

(** ** The accumulator *)

Section accumulated.
Context `{CrcEngine}.

Lemma Crc32C_u32 : is_u32 Crc32C.
Proof. done. Qed.

Lemma update_is_software crc data : is_u32 crc → Forall is_u8 data → Crc32C_Update crc data = Crc32CUpdateSoftware crc data.
Proof. intros Hc Hd. unfold Crc32C_Update. case_decide; [by subst|by apply crc_update_ok]. Qed.

Lemma compute_is_software data :
  Forall is_u8 data → Crc32CCompute data = Z.lxor (Crc32CUpdateSoftware Crc32C data) 0xFFFFFFFF.
Proof. intros Hd. unfold Crc32CCompute. by rewrite update_is_software by (done || apply Crc32C_u32). Qed.

(** Feeding the pieces is feeding the whole. *)
Lemma accumulate_app crc a b :
  is_u32 crc → Forall is_u8 a → Forall is_u8 b →
  Crc32C_Update (Crc32C_Update crc a) b = Crc32C_Update crc (a ++ b).
Proof.
  intros Hc Ha Hb. rewrite !(update_is_software crc) by (done || by apply Forall_app).
  rewrite update_is_software by (done || by apply update_u32). symmetry. apply update_app.
Qed.

Lemma finalize_inj x y : Crc32C_Finalize x = Crc32C_Finalize y → x = y.
Proof. unfold Crc32C_Finalize. rewrite !(Z.lxor_comm _ 0xFFFFFFFF). apply lxor_inj_r. Qed.

Lemma compute_u32 data : Forall is_u8 data → is_u32 (Crc32CCompute data).
Proof. intros Hd. rewrite compute_is_software by done. apply lxor_u32; [by apply update_u32|done]. Qed.

Lemma burst_changes_crc a w1 w2 z :
  Forall is_u8 a → Forall is_u8 w1 → Forall is_u8 w2 → Forall is_u8 z → length w1 = length w2 → (length w1 ≤ 4)%nat →
  Crc32CCompute (a ++ w1 ++ z) = Crc32CCompute (a ++ w2 ++ z) → w1 = w2.
Proof.
  intros Ha H1 H2 Hz Hl H4 Heq. rewrite !compute_is_software in Heq by (by repeat (apply Forall_app; split)).
  apply finalize_inj in Heq. rewrite !update_app in Heq.
  assert (Hc : is_u32 (Crc32CUpdateSoftware Crc32C a)) by (by apply update_u32).
  apply update_inj in Heq; [|by apply update_u32..|done]. by apply update_window_inj in Heq.
Qed.

(** the checksum detects every burst of at most 32 bits.  Two sequences of
    bytes of the same length that differ, and only within four consecutive
    bytes, have different checksums, whichever implementation is used. *)
Theorem crc_detects_bursts a w1 w2 z :
  Forall is_u8 a → Forall is_u8 w1 → Forall is_u8 w2 → Forall is_u8 z → length w1 = length w2 → (length w1 ≤ 4)%nat →
  w1 ≠ w2 → Crc32CCompute (a ++ w1 ++ z) ≠ Crc32CCompute (a ++ w2 ++ z).
Proof. intros Ha H1 H2 Hz Hl H4 Hne Heq. by apply Hne, (burst_changes_crc a w1 w2 z). Qed.

End accumulated.

Lemma crc_detects_bursts_witness :
  Crc32CCompute ([1; 2] ++ [3; 4; 5; 6] ++ [7]) ≠ Crc32CCompute ([1; 2] ++ [3; 0; 5; 9] ++ [7]).
Proof. apply crc_detects_bursts; try (repeat constructor; discriminate). Defined.

(** The published check value, of the digits 1 to 9. *)
Example crc_check_value : Crc32CCompute (seqZ 49 9) = 0xE3069283.
Proof. vm_compute. reflexivity. Qed.

End Crc32c.
