(* ===== verification/Wal.v ===== *)
(** * The write-ahead log

    src/transaction/xlog.cpp (the buffer and its file), xloginsert.cpp
    (assembling records), xlogreader.cpp (reading and verifying them) and
    xlogrecovery.cpp (replaying them).

    The log is a sequence of bytes; a log sequence number is a position in
    it.  With a directory the bytes behind the reserved header are also
    appended to the file wal.log.  A file remembers how many of its bytes an
    fsync has made durable: a crash keeps those and any part of the rest. *)

From stdpp Require Import base gmap list strings.
From S2P Require Import Prelude Transam Proc CatalogTx World Crc32c.

Module Wal.
Import Transam World Crc32c.

(** ** Records *)

Definition kInvalidXLogRecPtr : Z := 0.
Definition kSizeofXlogRecord : Z := 24.
Definition kXlrBkpBlockImage : Z := 0x04.

Record XLogRecord := mkRecord {
  xl_tot_len : Z;
  xl_xid : Z;
  xl_prev : Z;
  xl_info : Z;
  xl_rmid : Z;
  xl_crc : Z;
}.

(** The bytes of the struct before [xl_crc], with its two bytes of padding. *)
Definition header_prefix (r : XLogRecord) : list Z :=
  to_le 4 (xl_tot_len r) ++ to_le 4 (xl_xid r) ++ to_le 8 (xl_prev r) ++ to_le 1 (xl_info r) ++ to_le 1 (xl_rmid r) ++ [0; 0].
Definition header_bytes (r : XLogRecord) : list Z := header_prefix r ++ to_le 4 (xl_crc r).

Definition bytes_at (off len : nat) (b : list Z) : Z := of_le (take len (drop off b)).
Definition header_of (b : list Z) : XLogRecord :=
  mkRecord (bytes_at 0 4 b) (bytes_at 4 4 b) (bytes_at 8 8 b) (bytes_at 16 1 b) (bytes_at 17 1 b) (bytes_at 20 4 b).

(** ** The buffer and its file *)

Record WalFile := mkFile { f_bytes : list Z; f_synced : nat }.

Record log := mkLog {
  WalBuffer : list Z;
  InsertPtr : Z;
  WritePtr : Z;
  WalDirectory : string;
  WalFileFd : option string;          (* the path of the open file *)
  disk : gmap string WalFile;
}.

Definition with_fd (fd : option string) (l : log) : log :=
  mkLog (WalBuffer l) (InsertPtr l) (WritePtr l) (WalDirectory l) fd (disk l).
Definition with_disk (d : gmap string WalFile) (l : log) : log :=
  mkLog (WalBuffer l) (InsertPtr l) (WritePtr l) (WalDirectory l) (WalFileFd l) d.

(** [open] with O_CREAT, which keeps an existing file, or with O_TRUNC. *)
Definition create_file (path : string) (d : gmap string WalFile) : gmap string WalFile :=
  match d !! path with Some _ => d | None => <[path := mkFile [] 0]> d end.
Definition truncate_file (path : string) (d : gmap string WalFile) : gmap string WalFile := <[path := mkFile [] 0]> d.

(** [write] on a descriptor opened with O_APPEND. *)
Definition WriteAllToFd (path : string) (data : list Z) (d : gmap string WalFile) : gmap string WalFile :=
  let f := default (mkFile [] 0) (d !! path) in <[path := mkFile (f_bytes f ++ data) (f_synced f)]> d.
Definition fsync (path : string) (d : gmap string WalFile) : gmap string WalFile :=
  let f := default (mkFile [] 0) (d !! path) in <[path := mkFile (f_bytes f) (length (f_bytes f))]> d.

Definition CloseWalFile (l : log) : log := with_fd None l.

Definition SetWalDirectory (dir : string) (l : log) : log :=
  mkLog (WalBuffer l) (InsertPtr l) (WritePtr l) dir (WalFileFd l) (disk l).

Definition wal_path (l : log) : string := WalDirectory l +:+ "/wal.log".

Definition empty_buffer : list Z := replicate (Z.to_nat kSizeofXlogRecord) 0.

Definition InitializeWal (l : log) : log :=
  if decide (WalDirectory l = "") then
    mkLog empty_buffer kSizeofXlogRecord kSizeofXlogRecord (WalDirectory l) None (disk l)
  else
    let path := wal_path l in
    let buffer := match disk l !! path with Some f => empty_buffer ++ f_bytes f | None => empty_buffer end in
    let ptr := match disk l !! path with Some _ => Z.of_nat (length buffer) | None => kSizeofXlogRecord end in
    mkLog buffer ptr ptr (WalDirectory l) (Some path) (create_file path (disk l)).

Definition ResetWal (l : log) : log :=
  if decide (WalDirectory l = "") then
    mkLog empty_buffer kSizeofXlogRecord kSizeofXlogRecord (WalDirectory l) None (disk l)
  else
    let path := wal_path l in
    mkLog empty_buffer kSizeofXlogRecord kSizeofXlogRecord (WalDirectory l) (Some path)
      (create_file path (truncate_file path (disk l))).

Definition ShutdownWal (l : log) : log := CloseWalFile l.

Definition XLogWriteRaw (data : list Z) (l : log) : Z * log :=
  let start_lsn := InsertPtr l in
  if decide (data = []) then (start_lsn, l)
  else
    (start_lsn,
     mkLog (WalBuffer l ++ data) (u64 (InsertPtr l + Z.of_nat (length data))) (WritePtr l) (WalDirectory l) (WalFileFd l)
       (match WalFileFd l with Some path => WriteAllToFd path data (disk l) | None => disk l end)).

(** The bytes read; fewer than [len] at the end of the log. *)
Definition XLogReadRaw (buffer : list Z) (lsn len : Z) : list Z :=
  if (Z.of_nat (length buffer) <=? lsn) || (len =? 0) then []
  else
    let available := Z.of_nat (length buffer) - lsn in
    let to_read := if len <? available then len else available in
    take (Z.to_nat to_read) (drop (Z.to_nat lsn) buffer).

Definition XLogFlush (upto : Z) (l : log) : log :=
  mkLog (WalBuffer l) (InsertPtr l) (InsertPtr l) (WalDirectory l) (WalFileFd l)
    (match WalFileFd l with Some path => fsync path (disk l) | None => disk l end).

(** ** Assembling records *)

Record RegisteredBlock := mkBlock { block_id : Z; page_data : list Z; is_fpw : bool }.

Record inserter := mkInserter {
  RegisteredData : list Z;
  RegisteredBlocks : list RegisteredBlock;
  CurrentFlags : Z;
  PrevRecordLsn : Z;
}.

Definition XLogBeginInsert (i : inserter) : inserter := mkInserter [] [] 0 (PrevRecordLsn i).

Definition XLogRegisterData (data : list Z) (i : inserter) : inserter :=
  if decide (data = []) then i
  else mkInserter (RegisteredData i ++ data) (RegisteredBlocks i) (CurrentFlags i) (PrevRecordLsn i).

(** The first block with the same id is replaced, or the block is added. *)
Fixpoint register_block (b : RegisteredBlock) (blocks : list RegisteredBlock) : list RegisteredBlock :=
  match blocks with
  | [] => [b]
  | b' :: rest => if block_id b' =? block_id b then b :: rest else b' :: register_block b rest
  end.

Definition XLogRegisterBuffer (id : Z) (page : list Z) (fpw : bool) (i : inserter) : inserter :=
  if decide (page = []) then i
  else mkInserter (RegisteredData i) (register_block (mkBlock id page fpw) (RegisteredBlocks i)) (CurrentFlags i)
         (PrevRecordLsn i).

Definition XLogSetRecordFlags (flags : Z) (i : inserter) : inserter :=
  mkInserter (RegisteredData i) (RegisteredBlocks i) (Z.lor (CurrentFlags i) flags) (PrevRecordLsn i).

Definition XLogResetInsert (i : inserter) : inserter := mkInserter [] [] 0 (PrevRecordLsn i).
Definition ResetXlogInsertState (i : inserter) : inserter := mkInserter [] [] 0 kInvalidXLogRecPtr.

Definition fpw_blocks (blocks : list RegisteredBlock) : list RegisteredBlock := base.filter (λ b, is_fpw b = true) blocks.

(** The backup blocks of a record: their number, then id, length and bytes of each. *)
Definition block_bytes (b : RegisteredBlock) : list Z :=
  u8 (block_id b) :: to_le 4 (u32 (Z.of_nat (length (page_data b)))) ++ page_data b.
Definition backup_bytes (blocks : list RegisteredBlock) : list Z :=
  match fpw_blocks blocks with
  | [] => []
  | fpw => u8 (Z.of_nat (length fpw)) :: concat (block_bytes <$> fpw)
  end.

(** Their size as the code adds it up. *)
Definition bkp_total (blocks : list RegisteredBlock) : Z :=
  match fpw_blocks blocks with
  | [] => 0
  | fpw => 1 + foldr (λ b n, 1 + 4 + Z.of_nat (length (page_data b)) + n) 0 fpw
  end.

Record wal := mkWal { w_log : log; w_ins : inserter }.

Section wal.
Context `{CrcEngine}.

Definition record_crc (r : XLogRecord) (payload : list (list Z)) : Z :=
  Crc32C_Finalize (foldl Crc32C_Update (Crc32C_Update Crc32C (header_prefix r)) payload).

Definition XLogInsert (w : world) (rmid info : Z) (s : wal) : Z * wal :=
  let rd := RegisteredData (w_ins s) in
  let blocks := RegisteredBlocks (w_ins s) in
  let has_fpw := bool_decide (fpw_blocks blocks ≠ []) in
  let xid := GetCurrentTransactionIdIfAny w in
  let rec := mkRecord (u32 (kSizeofXlogRecord + bkp_total blocks + Z.of_nat (length rd)))
               (if negb (xid =? kInvalidTransactionId) then xid else kBootstrapTransactionId)
               (PrevRecordLsn (w_ins s))
               (if has_fpw then u8 (Z.lor info kXlrBkpBlockImage) else info) rmid 0 in
  let bkp_bytes := backup_bytes blocks in
  let crc := record_crc rec [bkp_bytes; rd] in
  let rec := mkRecord (xl_tot_len rec) (xl_xid rec) (xl_prev rec) (xl_info rec) (xl_rmid rec) crc in
  let '(start_lsn, l) := XLogWriteRaw (header_bytes rec) (w_log s) in
  let l := if has_fpw then (XLogWriteRaw bkp_bytes l).2 else l in
  let l := (XLogWriteRaw rd l).2 in
  (start_lsn, mkWal l (mkInserter [] [] 0 start_lsn)).

(** ** Reading records *)

Definition BackupBlock : Type := Z * list Z.

Record XLogReaderState := mkReader {
  current_lsn : Z;
  next_lsn : Z;
  record : XLogRecord;
  main_data : list Z;
  backup_blocks : list BackupBlock;
  end_of_wal : bool;
  crc_mismatch : bool;
  bad_lsn : Z;
}.

Definition XLogReaderAlloc : XLogReaderState := mkReader 0 0 (mkRecord 0 0 0 0 0 0) [] [] false false 0.

Definition VerifyRecordCrc (header payload : list Z) : bool :=
  Crc32C_Finalize (Crc32C_Update (Crc32C_Update Crc32C (take 20 header)) payload) =? xl_crc (header_of header).

(** The blocks and the offset behind them. *)
Fixpoint parse_blocks (count : nat) (payload : list Z) (off : Z) : option (list BackupBlock * Z) :=
  match count with
  | O => Some ([], off)
  | S count' =>
      if Z.of_nat (length payload) <? off + 1 + 4 then None
      else
        let id := default 0 (payload !! Z.to_nat off) in
        let plen := bytes_at (Z.to_nat (off + 1)) 4 payload in
        let off := off + 1 + 4 in
        if Z.of_nat (length payload) <? off + plen then None
        else
          '(blocks, off') ← parse_blocks count' payload (off + plen);
          Some ((id, take (Z.to_nat plen) (drop (Z.to_nat off) payload)) :: blocks, off')
  end.

Definition ParseBackupBlocks (payload : list Z) : option (list BackupBlock * Z) :=
  match payload with
  | [] => None
  | count :: _ => parse_blocks (Z.to_nat count) payload 1
  end.

Definition corrupt (lsn : Z) (r : XLogReaderState) : XLogReaderState :=
  mkReader (current_lsn r) (next_lsn r) (record r) (main_data r) (backup_blocks r) (end_of_wal r) true lsn.

Definition ReadAndDecodeRecord (buffer : list Z) (lsn : Z) (r : XLogReaderState) : bool * XLogReaderState :=
  let header := XLogReadRaw buffer lsn kSizeofXlogRecord in
  let h := header_of header in
  if (Z.of_nat (length header) <? kSizeofXlogRecord) || (xl_tot_len h <? kSizeofXlogRecord) then (false, r)
  else
    let data_len := xl_tot_len h - kSizeofXlogRecord in
    let payload := XLogReadRaw buffer (u64 (lsn + kSizeofXlogRecord)) data_len in
    if Z.of_nat (length payload) <? data_len then (false, r)
    else if negb (VerifyRecordCrc header payload) then (false, corrupt lsn r)
    else
      let cleared := mkReader (current_lsn r) (next_lsn r) (record r) [] [] (end_of_wal r) (crc_mismatch r) (bad_lsn r) in
      match (if negb (Z.land (xl_info h) kXlrBkpBlockImage =? 0) && (0 <? data_len)
             then ParseBackupBlocks payload else Some ([], 0)) with
      | None => (false, corrupt lsn cleared)
      | Some (blocks, main_offset) =>
          (true, mkReader lsn (next_lsn r) h (drop (Z.to_nat main_offset) payload) blocks (end_of_wal r)
                   (crc_mismatch r) (bad_lsn r))
      end.

Definition at_end (r : XLogReaderState) : XLogReaderState :=
  mkReader (current_lsn r) (next_lsn r) (record r) (main_data r) (backup_blocks r) true (crc_mismatch r) (bad_lsn r).

(** [start_lsn] is an optional in-out argument. *)
Definition XLogReadRecord (buffer : list Z) (start_lsn : option Z) (r : XLogReaderState)
  : bool * option Z * XLogReaderState :=
  let r := mkReader (current_lsn r) (next_lsn r) (record r) (main_data r) (backup_blocks r) (end_of_wal r) false
             kInvalidXLogRecPtr in
  let lsn := match start_lsn with
             | Some l => if negb (l =? kInvalidXLogRecPtr) then l else next_lsn r
             | None => next_lsn r
             end in
  if decide (XLogReadRaw buffer lsn kSizeofXlogRecord = []) then (false, start_lsn, at_end r)
  else
    match ReadAndDecodeRecord buffer lsn r with
    | (false, r) => (false, start_lsn, at_end r)
    | (true, r) =>
        let next := u64 (lsn + xl_tot_len (record r)) in
        (true, (λ _, next) <$> start_lsn,
         mkReader (current_lsn r) next (record r) (main_data r) (backup_blocks r) (end_of_wal r) (crc_mismatch r) (bad_lsn r))
    end.

Definition XLogReadRecordAt (buffer : list Z) (lsn : Z) (r : XLogReaderState) : bool * XLogReaderState :=
  ReadAndDecodeRecord buffer lsn
    (mkReader (current_lsn r) (next_lsn r) (record r) (main_data r) (backup_blocks r) (end_of_wal r) false kInvalidXLogRecPtr).

(** ** Recovery *)

Section recovery.
Context {S : Type}.

(** A redo function changes the state of its resource manager. *)
Definition RedoFn : Type := XLogRecord → list Z → Z → S → S.

Definition RegisterRmgrRedo (rmid : Z) (fn : RedoFn) (table : gmap Z RedoFn) : gmap Z RedoFn := <[rmid := fn]> table.
Definition ClearRmgrRedo (table : gmap Z RedoFn) : gmap Z RedoFn := ∅.
Definition GetRmgrRedo (rmid : Z) (table : gmap Z RedoFn) : option RedoFn := table !! rmid.

Record RecoveryStats := mkStats {
  records_replayed : Z;
  records_skipped : Z;
  last_rmid : Z;
  last_lsn : Z;
}.

(** The treatment of one record. *)
Definition redo_record (table : gmap Z RedoFn) (r : XLogReaderState) (st : RecoveryStats * S) : RecoveryStats * S :=
  let '(stats, s) := st in
  match GetRmgrRedo (xl_rmid (record r)) table with
  | Some fn => (mkStats (records_replayed stats + 1) (records_skipped stats) (xl_rmid (record r)) (current_lsn r),
                fn (record r) (main_data r) (current_lsn r) s)
  | None => (mkStats (records_replayed stats) (records_skipped stats + 1) (last_rmid stats) (last_lsn stats), s)
  end.

(** The loop; [None] when the fuel runs out. *)
Fixpoint recovery_loop (fuel : nat) (table : gmap Z RedoFn) (buffer : list Z) (lsn : Z) (r : XLogReaderState)
  (st : RecoveryStats * S) : option (RecoveryStats * S) :=
  match fuel with
  | O => None
  | Datatypes.S fuel' =>
      match XLogReadRecord buffer (Some lsn) r with
      | (true, lsn', r') => recovery_loop fuel' table buffer (default lsn lsn') r' (redo_record table r' st)
      | (false, _, _) => Some st
      end
  end.

(** A record advances the position, so a turn per byte of the log is enough. *)
Definition PerformCrashRecoveryFrom (table : gmap Z RedoFn) (buffer : list Z) (start_lsn : Z) (s : S)
  : option (RecoveryStats * S) :=
  recovery_loop (Datatypes.S (length buffer)) table buffer start_lsn XLogReaderAlloc
    (mkStats 0 0 0 kInvalidXLogRecPtr, s).

Definition PerformCrashRecovery (table : gmap Z RedoFn) (buffer : list Z) (s : S)
  : option (RecoveryStats * S) := PerformCrashRecoveryFrom table buffer kSizeofXlogRecord s.

End recovery.
End wal.
Arguments RedoFn S : clear implicits.

End Wal.
