(* ===== verification/WalSpec.v ===== *)
(** * What the write-ahead log guarantees

    The log as a list of entries: reading finds the entries that were
    inserted, replaying applies them once and in order, and after a crash the
    complete entries of what reached the disk are replayed. *)

From stdpp Require Import base gmap list strings.
From S2P Require Import Prelude Transam Proc CatalogTx World Crc32c Wal.

Module WalSpec.
Import Transam World Crc32c Wal.

(** ** Reading bytes *)

Lemma read_raw buffer lsn len :
  0 ≤ lsn → 0 ≤ len → XLogReadRaw buffer lsn len = take (Z.to_nat len) (drop (Z.to_nat lsn) buffer).
Proof.
  intros Hl Hn. unfold XLogReadRaw. destruct (Z.of_nat (length buffer) <=? lsn) eqn:E1; to_prop; cbn [orb].
  { rewrite drop_ge by lia. by rewrite take_nil. }
  destruct (len =? 0) eqn:E2; to_prop; [by subst|]. destruct (len <? _) eqn:E3; to_prop; [done|].
  rewrite !take_ge; rewrite ?length_drop; (done || lia).
Qed.

Lemma bytes_at_app off len a b :
  (off + len ≤ length a)%nat → bytes_at off len (a ++ b) = bytes_at off len a.
Proof.
  intros H. unfold bytes_at. rewrite drop_app_le by lia. rewrite take_app_le; [done|]. rewrite length_drop. lia.
Qed.

Record wf_record (r : XLogRecord) : Prop := {
  wr_len : is_u32 (xl_tot_len r);
  wr_xid : is_u32 (xl_xid r);
  wr_prev : 0 ≤ xl_prev r < 2 ^ 64;
  wr_info : is_u8 (xl_info r);
  wr_rmid : is_u8 (xl_rmid r);
  wr_crc : is_u32 (xl_crc r);
}.

Lemma length_prefix r : length (header_prefix r) = 20%nat.
Proof. done. Qed.
Lemma length_header r : length (header_bytes r) = 24%nat.
Proof. done. Qed.

Lemma header_of_bytes r : wf_record r → header_of (header_bytes r) = r.
Proof.
  intros [H1 H2 H3 H4 H5 H6].
  trans (mkRecord (of_le (to_le 4 (xl_tot_len r))) (of_le (to_le 4 (xl_xid r))) (of_le (to_le 8 (xl_prev r)))
           (of_le (to_le 1 (xl_info r))) (of_le (to_le 1 (xl_rmid r))) (of_le (to_le 4 (xl_crc r)))); [done|].
  rewrite !of_to_le, !Z.mod_small by assumption. by destruct r.
Qed.

Lemma prefix_u8 r : Forall is_u8 (header_prefix r).
Proof. unfold header_prefix. repeat (apply Forall_app; split); try apply to_le_u8. by repeat constructor. Qed.

(** ** Termination of recovery *)

Section log.
Context `{CrcEngine}.

(** A record that is read ends inside the log. *)
Lemma read_advances buffer lsn r ok out r' :
  0 ≤ lsn → Z.of_nat (length buffer) < 2 ^ 64 → lsn ≠ kInvalidXLogRecPtr ∨ next_lsn r = 0 →
  XLogReadRecord buffer (Some lsn) r = (ok, out, r') → ok = true →
  ∃ next, out = Some next ∧ lsn + kSizeofXlogRecord ≤ next ≤ Z.of_nat (length buffer) ∧ next_lsn r' = next.
Proof.
  intros Hl Hb Hn. unfold XLogReadRecord.
  assert ((if negb (lsn =? kInvalidXLogRecPtr) then lsn else next_lsn r) = lsn) as Hls.
  { destruct (lsn =? kInvalidXLogRecPtr) eqn:E; to_prop; cbn; [|done]. destruct Hn as [?|Hn]; [done|]. by rewrite Hn, E. }
  cbn [next_lsn]. rewrite Hls. case_decide as Hp; [by intros [= <- <- <-]|].
  unfold ReadAndDecodeRecord. rewrite (read_raw buffer lsn) by (unfold kSizeofXlogRecord; lia).
  set (header := take _ (drop (Z.to_nat lsn) buffer)).
  assert (Hlen : Z.of_nat (length header) = Z.min 24 (Z.of_nat (length buffer) - Z.min lsn (Z.of_nat (length buffer)))).
  { unfold header. rewrite length_take, length_drop. change (Z.to_nat kSizeofXlogRecord) with 24%nat. lia. }
  destruct (Z.of_nat (length header) <? kSizeofXlogRecord) eqn:E1; to_prop; cbn [orb]; [by intros [= <- <- <-]|].
  destruct (xl_tot_len (header_of header) <? kSizeofXlogRecord) eqn:E2; to_prop; [by intros [= <- <- <-]|].
  unfold kSizeofXlogRecord in E1, E2. rewrite (u64_small (lsn + kSizeofXlogRecord)) by (unfold kSizeofXlogRecord; lia).
  rewrite read_raw by (unfold kSizeofXlogRecord; lia). set (payload := take _ (drop _ buffer)).
  destruct (Z.of_nat (length payload) <? _) eqn:E3; to_prop; [by intros [= <- <- <-]|].
  assert (Hend : lsn + xl_tot_len (header_of header) ≤ Z.of_nat (length buffer)).
  { unfold payload in E3. rewrite length_take, length_drop in E3. unfold kSizeofXlogRecord in E3. lia. }
  destruct (VerifyRecordCrc header payload); cbn [negb]; [|by intros [= <- <- <-]].
  match goal with |- context [match ?x with Some _ => _ | None => _ end] => destruct x as [[blocks off]|] end; [|by intros [= <- <- <-]].
  cbn [record next_lsn]. intros [= <- <- <-] _. eexists. split; [done|].
  change (bytes_at 0 4 header) with (xl_tot_len (header_of header)).
  rewrite u64_small by lia. unfold kSizeofXlogRecord. split; [lia|done].
Qed.

Lemma recovery_loop_enough {S} (table : gmap Z (RedoFn S)) buffer fuel : ∀ lsn r st,
  0 ≤ lsn → Z.of_nat (length buffer) < 2 ^ 64 → lsn ≠ kInvalidXLogRecPtr ∨ next_lsn r = 0 →
  (length buffer < fuel + Z.to_nat lsn)%nat → (0 < fuel)%nat → is_Some (recovery_loop fuel table buffer lsn r st).
Proof.
  induction fuel as [|fuel IH]; intros lsn r st Hl Hb Hn Hf H0; [lia|]. cbn [recovery_loop].
  destruct (XLogReadRecord buffer (Some lsn) r) as [[[] out] r'] eqn:E; [|done].
  destruct (read_advances buffer lsn r true out r' Hl Hb Hn E eq_refl) as (next & -> & Hnx & _).
  unfold kSizeofXlogRecord in Hnx. change (default lsn (Some next)) with next. apply IH; [lia|done|left; unfold kInvalidXLogRecPtr; lia| |lia]. lia.
Qed.

(** recovery ends.  Whatever bytes the log holds and wherever recovery
    starts, its loop finishes within one turn per byte of the log. *)
Theorem recovery_terminates {S} (table : gmap Z (RedoFn S)) buffer start_lsn s :
  0 ≤ start_lsn → Z.of_nat (length buffer) < 2 ^ 64 →
  ∃ stats s', PerformCrashRecoveryFrom table buffer start_lsn s = Some (stats, s').
Proof.
  intros Hl Hb. destruct (recovery_loop_enough table buffer (Datatypes.S (length buffer)) start_lsn XLogReaderAlloc
    (mkStats 0 0 0 kInvalidXLogRecPtr, s)) as [[stats s'] Hrun]; [done|done|by right|lia|lia|by exists stats, s'].
Qed.

(** ** Entries *)

(** What a caller of [XLogInsert] provides: the full-page images and the data. *)
Record entry := mkEntry {
  e_xid : Z;
  e_info : Z;
  e_rmid : Z;
  e_blocks : list RegisteredBlock;
  e_data : list Z;
}.

Definition payload (e : entry) : list Z := backup_bytes (e_blocks e) ++ e_data e.
Definition entry_len (e : entry) : Z := kSizeofXlogRecord + bkp_total (e_blocks e) + Z.of_nat (length (e_data e)).

Definition bare_record (prev : Z) (e : entry) : XLogRecord :=
  mkRecord (u32 (entry_len e)) (e_xid e) prev
    (if bool_decide (fpw_blocks (e_blocks e) ≠ []) then u8 (Z.lor (e_info e) kXlrBkpBlockImage) else e_info e) (e_rmid e) 0.
Definition entry_record (prev : Z) (e : entry) : XLogRecord :=
  let r := bare_record prev e in
  mkRecord (xl_tot_len r) (xl_xid r) (xl_prev r) (xl_info r) (xl_rmid r)
    (record_crc r [backup_bytes (e_blocks e); e_data e]).
Definition entry_bytes (prev : Z) (e : entry) : list Z := header_bytes (entry_record prev e) ++ payload e.

Record wf_block (b : RegisteredBlock) : Prop := {
  wb_id : is_u8 (block_id b);
  wb_fpw : is_fpw b = true;
  wb_page : Forall is_u8 (page_data b);
  wb_len : Z.of_nat (length (page_data b)) < 2 ^ 32;
}.

(** At most 255 images, no flag for images without one, and a length that fits its field. *)
Record wf_entry (e : entry) : Prop := {
  we_xid : is_u32 (e_xid e);
  we_info : is_u8 (e_info e);
  we_rmid : is_u8 (e_rmid e);
  we_blocks : Forall wf_block (e_blocks e);
  we_count : Z.of_nat (length (e_blocks e)) ≤ 255;
  we_data : Forall is_u8 (e_data e);
  we_flag : e_blocks e = [] → Z.land (e_info e) kXlrBkpBlockImage = 0;
  we_len : entry_len e < 2 ^ 32;
}.

Definition image (b : RegisteredBlock) : BackupBlock := (block_id b, page_data b).

Lemma fpw_all blocks : Forall wf_block blocks → fpw_blocks blocks = blocks.
Proof.
  induction 1 as [|b blocks Hb _ IH]; [done|]. unfold fpw_blocks. rewrite filter_cons_True by apply Hb. by f_equal.
Qed.

Lemma length_block b : length (block_bytes b) = (5 + length (page_data b))%nat.
Proof. done. Qed.

Lemma length_backup blocks : Z.of_nat (length (backup_bytes blocks)) = bkp_total blocks.
Proof.
  unfold backup_bytes, bkp_total. destruct (fpw_blocks blocks) as [|b l]; [done|].
  set (l' := b :: l). cbn [length]. rewrite Nat2Z.inj_succ. enough (Z.of_nat (length (concat (block_bytes <$> l'))) =
    foldr (λ b n, 1 + 4 + Z.of_nat (length (page_data b)) + n) 0 l') by lia.
  induction l' as [|c l' IH]; [done|]. cbn [fmap list_fmap concat foldr]. rewrite length_app, length_block. lia.
Qed.

Lemma entry_len_payload e : entry_len e = 24 + Z.of_nat (length (payload e)).
Proof. unfold entry_len, payload. rewrite length_app, Nat2Z.inj_add, length_backup. unfold kSizeofXlogRecord. lia. Qed.

Lemma length_entry prev e : Z.of_nat (length (entry_bytes prev e)) = entry_len e.
Proof. unfold entry_bytes. rewrite length_app, length_header, entry_len_payload. lia. Qed.

Lemma block_u8 b : wf_block b → Forall is_u8 (block_bytes b).
Proof.
  intros [H1 H2 H3 H4]. constructor; [apply u8_range|]. apply Forall_app. split; [apply to_le_u8|done].
Qed.

Lemma backup_u8 blocks : Forall wf_block blocks → Forall is_u8 (backup_bytes blocks).
Proof.
  intros Hb. unfold backup_bytes. rewrite fpw_all by done. destruct blocks as [|b l]; [done|].
  constructor; [apply u8_range|]. apply Forall_concat, Forall_fmap. eapply Forall_impl; [exact Hb|apply block_u8].
Qed.

Lemma payload_u8 e : wf_entry e → Forall is_u8 (payload e).
Proof. intros He. apply Forall_app. split; [apply backup_u8, He|apply He]. Qed.

(** The images are parsed one after the other. *)
Lemma parse_blocks_run blocks rest : ∀ buf off,
  Forall wf_block blocks → 0 ≤ off → drop (Z.to_nat off) buf = concat (block_bytes <$> blocks) ++ rest →
  parse_blocks (length blocks) buf off =
  Some (image <$> blocks, off + Z.of_nat (length (concat (block_bytes <$> blocks)))).
Proof.
  induction blocks as [|b blocks IH]; intros buf off Hwf Ho Hd; [cbn; by rewrite Z.add_0_r|].
  inversion Hwf as [|?? Hb Hbs]; subst. cbn [fmap list_fmap concat] in Hd. rewrite <- app_assoc in Hd.
  set (tail := concat (block_bytes <$> blocks) ++ rest) in *.
  assert (Hlen : Z.of_nat (length buf) = off + Z.of_nat (5 + length (page_data b) + length tail)).
  { apply (f_equal length) in Hd. rewrite length_drop, length_app, length_block in Hd. lia. }
  assert (Hplen : bytes_at (Z.to_nat (off + 1)) 4 buf = Z.of_nat (length (page_data b))).
  { unfold bytes_at. rewrite Z2Nat.inj_add, <- drop_drop, Hd by lia. change (Z.to_nat 1) with 1%nat.
    unfold block_bytes. cbn [app skipn]. rewrite drop_0, <- app_assoc, take_app_length' by done.
    rewrite of_to_le, u32_small; [|unfold is_u32; pose proof (wb_len b Hb); lia].
    apply Z.mod_small. pose proof (wb_len b Hb). change (256 ^ Z.of_nat 4) with (2 ^ 32). lia. }
  cbn [length parse_blocks]. rewrite (proj2 (Z.ltb_ge _ _)) by lia. rewrite Hplen, (proj2 (Z.ltb_ge _ _)) by lia.
  assert (Hdrop : drop (Z.to_nat (off + 1 + 4)) buf = page_data b ++ tail).
  { replace (Z.to_nat (off + 1 + 4)) with (Z.to_nat off + 5)%nat by lia. rewrite <- drop_drop, Hd. done. }
  rewrite (IH buf (off + 1 + 4 + Z.of_nat (length (page_data b)))); [|done|lia|].
  2: { replace (Z.to_nat _) with (Z.to_nat (off + 1 + 4) + length (page_data b))%nat by lia.
       rewrite <- drop_drop, Hdrop. by rewrite drop_app_length. }
  assert (Hid : buf !! Z.to_nat off = Some (u8 (block_id b))).
  { rewrite <- (Nat.add_0_r (Z.to_nat off)), <- lookup_drop, Hd. done. }
  rewrite Hid. cbn [mbind option_bind]. do 2 f_equal.
  - rewrite Hdrop, Nat2Z.id, take_app_length. unfold image. cbn. by rewrite u8_small by apply Hb.
  - cbn [fmap list_fmap concat]. rewrite length_app, length_block. lia.
Qed.

Lemma parse_payload e :
  wf_entry e → e_blocks e ≠ [] →
  ParseBackupBlocks (payload e) = Some (image <$> e_blocks e, Z.of_nat (length (backup_bytes (e_blocks e)))).
Proof.
  intros He Hne. unfold payload. assert (Hb : backup_bytes (e_blocks e) =
    u8 (Z.of_nat (length (e_blocks e))) :: concat (block_bytes <$> e_blocks e)).
  { unfold backup_bytes. rewrite fpw_all by apply He. by destruct (e_blocks e). }
  rewrite Hb. cbn [app ParseBackupBlocks]. rewrite u8_small by (unfold is_u8; pose proof (we_count e He); lia).
  rewrite Nat2Z.id, (parse_blocks_run (e_blocks e) (e_data e)); [|apply He|lia|done].
  do 2 f_equal. cbn [length]. lia.
Qed.

(** ** Reading an entry back *)

Lemma record_crc_payload r a b :
  Forall is_u8 a → Forall is_u8 b → record_crc r [a; b] = Crc32CCompute (header_prefix r ++ a ++ b).
Proof.
  intros Ha Hb. unfold record_crc, Crc32CCompute. cbn [foldl]. f_equal.
  pose proof (prefix_u8 r) as Hp.
  assert (is_u32 (Crc32C_Update Crc32C (header_prefix r))).
  { rewrite update_is_software by (done || apply Crc32C_u32). by apply update_u32. }
  rewrite !accumulate_app by (done || apply Crc32C_u32 || by apply Forall_app). done.
Qed.

Lemma entry_record_wf prev e : wf_entry e → 0 ≤ prev < 2 ^ 64 → wf_record (entry_record prev e).
Proof.
  intros He Hp. split; cbn; [apply u32_range|apply He|done| |apply He|].
  - case_bool_decide; [apply u8_range|apply He].
  - rewrite record_crc_payload by (apply backup_u8, He || apply He). apply compute_u32.
    apply Forall_app. split; [apply prefix_u8|exact (payload_u8 e He)].
Qed.

Lemma entry_tot_len prev e : wf_entry e → xl_tot_len (entry_record prev e) = entry_len e.
Proof.
  intros He. apply u32_small. unfold is_u32. pose proof (we_len e He). rewrite entry_len_payload in *. lia.
Qed.

Lemma take_header prev e : take 20 (header_bytes (entry_record prev e)) = header_prefix (bare_record prev e).
Proof. done. Qed.

Lemma entry_verifies prev e :
  wf_entry e → 0 ≤ prev < 2 ^ 64 → VerifyRecordCrc (header_bytes (entry_record prev e)) (payload e) = true.
Proof.
  intros He Hp. unfold VerifyRecordCrc. rewrite header_of_bytes by (by apply entry_record_wf). apply Z.eqb_eq.
  rewrite take_header. cbn [xl_crc entry_record]. rewrite record_crc_payload by (apply backup_u8, He || apply He).
  unfold Crc32CCompute. f_equal. apply accumulate_app; [apply Crc32C_u32|apply prefix_u8|by apply payload_u8].
Qed.

(** The blocks and the data of a payload that verifies. *)
Lemma split_payload prev e :
  wf_entry e →
  ∃ off, (if negb (Z.land (xl_info (entry_record prev e)) kXlrBkpBlockImage =? 0) && (0 <? entry_len e - kSizeofXlogRecord)
          then ParseBackupBlocks (payload e) else Some ([], 0)) = Some (image <$> e_blocks e, off) ∧
         drop (Z.to_nat off) (payload e) = e_data e.
Proof.
  intros He. cbn [xl_info entry_record bare_record]. rewrite fpw_all by apply He. case_bool_decide as Hne.
  - assert (Hbit : (Z.land (u8 (Z.lor (e_info e) kXlrBkpBlockImage)) kXlrBkpBlockImage =? 0) = false).
    { apply negb_true_iff. change kXlrBkpBlockImage with (2 ^ 2). rewrite flag_bit by lia. unfold u8.
      rewrite Z.mod_pow2_bits_low, Z.lor_spec by lia. apply orb_true_r. }
    rewrite Hbit. cbn [negb andb].
    assert (Hpos : 0 < entry_len e - kSizeofXlogRecord).
    { rewrite entry_len_payload. unfold payload, backup_bytes, kSizeofXlogRecord. rewrite fpw_all by apply He.
      destruct (e_blocks e); [done|]. cbn [app length]. lia. }
    rewrite (proj2 (Z.ltb_lt _ _) Hpos), parse_payload by done. eexists. split; [done|].
    rewrite Nat2Z.id. unfold payload. by rewrite drop_app_length.
  - assert (Hb : e_blocks e = []) by (by destruct (e_blocks e); [|discriminate Hne]).
    rewrite (we_flag e He Hb), Hb. cbn. exists 0. split; [done|]. unfold payload. rewrite Hb. done.
Qed.

Lemma read_entry buffer lsn prev e rest r :
  wf_entry e → 0 ≤ prev < 2 ^ 64 → 0 < lsn → Z.of_nat (length buffer) < 2 ^ 64 →
  drop (Z.to_nat lsn) buffer = entry_bytes prev e ++ rest →
  XLogReadRecord buffer (Some lsn) r =
    (true, Some (lsn + entry_len e),
     mkReader lsn (lsn + entry_len e) (entry_record prev e) (e_data e) (image <$> e_blocks e) (end_of_wal r) false
       kInvalidXLogRecPtr).
Proof.
  intros He Hp Hl Hb Hd. pose proof (entry_len_payload e) as Hel.
  assert (Hlen : Z.of_nat (length buffer) = lsn + entry_len e + Z.of_nat (length rest)).
  { apply (f_equal length) in Hd. rewrite length_drop, length_app in Hd. pose proof (length_entry prev e). lia. }
  unfold XLogReadRecord. cbn [next_lsn]. rewrite (proj2 (Z.eqb_neq lsn kInvalidXLogRecPtr)) by (unfold kInvalidXLogRecPtr; lia).
  cbn [negb]. unfold ReadAndDecodeRecord. rewrite (read_raw buffer lsn) by (unfold kSizeofXlogRecord; lia).
  rewrite Hd. unfold entry_bytes. rewrite <- app_assoc, take_app_length' by done.
  rewrite decide_False by done. rewrite header_of_bytes by (by apply entry_record_wf). rewrite entry_tot_len by done.
  rewrite length_header. rewrite (proj2 (Z.ltb_ge (entry_len e) _)) by (unfold kSizeofXlogRecord; lia).
  change (Z.of_nat 24 <? kSizeofXlogRecord) with false. cbn [orb].
  rewrite u64_small by (unfold kSizeofXlogRecord; lia). rewrite read_raw by (unfold kSizeofXlogRecord; lia).
  assert (Hpay : take (Z.to_nat (entry_len e - kSizeofXlogRecord)) (drop (Z.to_nat (lsn + kSizeofXlogRecord)) buffer) = payload e).
  { replace (Z.to_nat (lsn + kSizeofXlogRecord)) with (Z.to_nat lsn + 24)%nat by (unfold kSizeofXlogRecord; lia).
    rewrite <- drop_drop, Hd. unfold entry_bytes. rewrite <- app_assoc, drop_app_length' by done.
    rewrite take_app_length'; [done|]. unfold kSizeofXlogRecord. lia. }
  rewrite Hpay, (proj2 (Z.ltb_ge _ _)) by (unfold kSizeofXlogRecord; lia).
  rewrite entry_verifies by done. cbn [negb].
  destruct (split_payload prev e He) as (off & Hparse & Hdrop).
  match goal with |- context [match ?x with Some _ => _ | None => _ end] =>
    change x with (if negb (Z.land (xl_info (entry_record prev e)) kXlrBkpBlockImage =? 0) && (0 <? entry_len e - kSizeofXlogRecord)
          then ParseBackupBlocks (payload e) else Some ([], 0)) end.
  rewrite Hparse, Hdrop. cbv beta iota. cbn [record current_lsn next_lsn main_data backup_blocks end_of_wal crc_mismatch bad_lsn].
  rewrite entry_tot_len, u64_small by (done || lia). done.
Qed.

(** Part of an entry is not read. *)
Lemma read_torn buffer lsn prev e k r :
  wf_entry e → 0 ≤ prev < 2 ^ 64 → 0 < lsn → Z.of_nat (length buffer) < 2 ^ 64 → Z.of_nat k < entry_len e →
  drop (Z.to_nat lsn) buffer = take k (entry_bytes prev e) →
  ∃ out r', XLogReadRecord buffer (Some lsn) r = (false, out, r').
Proof.
  intros He Hp Hl Hb Hk Hd. pose proof (length_entry prev e) as Hel.
  assert (Hlen : (length (drop (Z.to_nat lsn) buffer) = k)%nat) by (rewrite Hd, length_take; lia).
  rewrite length_drop in Hlen.
  unfold XLogReadRecord. cbn [next_lsn]. rewrite (proj2 (Z.eqb_neq lsn kInvalidXLogRecPtr)) by (unfold kInvalidXLogRecPtr; lia).
  cbn [negb]. case_decide as Hnil; [by eexists _, _|]. unfold ReadAndDecodeRecord.
  rewrite (read_raw buffer lsn) in * by (unfold kSizeofXlogRecord; lia). rewrite Hd, take_take in *.
  change (Z.to_nat kSizeofXlogRecord) with 24%nat in *.
  destruct (decide (k < 24)%nat) as [H24|H24].
  { rewrite (proj2 (Z.ltb_lt _ kSizeofXlogRecord)); [by eexists _, _|]. rewrite length_take. unfold kSizeofXlogRecord. lia. }
  assert (Hh : take (24 `min` k) (entry_bytes prev e) = header_bytes (entry_record prev e)).
  { rewrite Nat.min_l by lia. unfold entry_bytes. by rewrite take_app_length'. }
  rewrite Hh, header_of_bytes by (by apply entry_record_wf). rewrite entry_tot_len by done.
  destruct (_ || _); [by eexists _, _|]. rewrite u64_small by (unfold kSizeofXlogRecord; lia).
  rewrite read_raw by (unfold kSizeofXlogRecord; lia).
  rewrite (proj2 (Z.ltb_lt _ _)); [by eexists _, _|].
  rewrite length_take, length_drop. unfold kSizeofXlogRecord. lia.
Qed.

(** C12: damage is detected.  Take a record in the log, change up to four
    consecutive bytes of its header or its payload, except in the length and
    checksum fields: reading it fails, and the reader reports the checksum
    mismatch and the position of the record. *)
Theorem damaged_record_rejected buffer lsn prev e p' pay' a w1 w2 z rest r :
  wf_entry e → 0 ≤ prev < 2 ^ 64 → 0 < lsn → Z.of_nat (length buffer) < 2 ^ 64 →
  header_prefix (entry_record prev e) ++ payload e = a ++ w1 ++ z → p' ++ pay' = a ++ w2 ++ z →
  length w1 = length w2 → (length w1 ≤ 4)%nat → w1 ≠ w2 → Forall is_u8 w2 →
  length p' = 20%nat → take 4 p' = take 4 (header_prefix (entry_record prev e)) →
  drop (Z.to_nat lsn) buffer = p' ++ to_le 4 (xl_crc (entry_record prev e)) ++ pay' ++ rest →
  ∃ r', XLogReadRecord buffer (Some lsn) r = (false, Some lsn, r') ∧
        crc_mismatch r' = true ∧ bad_lsn r' = lsn ∧ end_of_wal r' = true.
Proof.
  intros He Hp Hl Hb Horig Hdam Hw H4 Hne Hw2 Hp' Hlenf Hd.
  pose proof (length_entry prev e) as Hel. pose proof (entry_record_wf prev e He Hp) as Hr.
  assert (Hpay : length pay' = length (payload e)).
  { apply (f_equal length) in Horig, Hdam. rewrite !length_app in Horig, Hdam. rewrite length_prefix in Horig. lia. }
  assert (Hu : Forall is_u8 (header_prefix (entry_record prev e) ++ payload e)).
  { apply Forall_app. split; [apply prefix_u8|by apply payload_u8]. }
  rewrite Horig in Hu. apply Forall_app in Hu as [Hua [Huw Huz]%Forall_app].
  assert (Hu' : Forall is_u8 (p' ++ pay')) by (rewrite Hdam; repeat (apply Forall_app; split); done).
  apply Forall_app in Hu' as [Hup Hupay].
  set (crc := to_le 4 (xl_crc (entry_record prev e))) in *. set (header := p' ++ crc).
  assert (Hlh : length header = 24%nat) by (unfold header; rewrite length_app, Hp'; done).
  assert (Htot : xl_tot_len (header_of header) = entry_len e).
  { trans (xl_tot_len (header_of (header_bytes (entry_record prev e)))).
    2: { by rewrite header_of_bytes, entry_tot_len. }
    cbn [xl_tot_len header_of]. unfold header, header_bytes. rewrite !(bytes_at_app 0 4) by (rewrite ?Hp', ?length_prefix; lia).
    unfold bytes_at. by rewrite !drop_0, Hlenf. }
  assert (Hcrc : xl_crc (header_of header) = xl_crc (entry_record prev e)).
  { cbn [xl_crc header_of]. unfold bytes_at, header. rewrite drop_app_length' by done. rewrite take_ge by done.
    unfold crc. rewrite of_to_le. apply Z.mod_small, Hr. }
  assert (Hbad : VerifyRecordCrc header pay' = false).
  { apply Z.eqb_neq. rewrite Hcrc. unfold header. rewrite take_app_length' by done.
    rewrite accumulate_app by (done || apply Crc32C_u32). cbn [xl_crc entry_record].
    rewrite record_crc_payload by (apply backup_u8, He || apply He). fold (Crc32CCompute (p' ++ pay')). rewrite Hdam.
    change (header_prefix (bare_record prev e) ++ backup_bytes (e_blocks e) ++ e_data e)
      with (header_prefix (entry_record prev e) ++ payload e). rewrite Horig.
    intros Heq. by apply Hne, (burst_changes_crc a w1 w2 z). }
  rewrite app_assoc in Hd. fold header in Hd.
  assert (Hlen : Z.of_nat (length buffer) = lsn + entry_len e + Z.of_nat (length rest)).
  { apply (f_equal length) in Hd. rewrite length_drop, !length_app, Hlh, Hpay in Hd. rewrite entry_len_payload. lia. }
  unfold XLogReadRecord. cbn [next_lsn]. rewrite (proj2 (Z.eqb_neq lsn kInvalidXLogRecPtr)) by (unfold kInvalidXLogRecPtr; lia).
  cbn [negb]. unfold ReadAndDecodeRecord. rewrite (read_raw buffer lsn) by (unfold kSizeofXlogRecord; lia).
  rewrite Hd, take_app_length' by done.
  rewrite decide_False by (intros E; by rewrite E in Hlh). rewrite Htot, Hlh.
  rewrite entry_len_payload in *. rewrite (proj2 (Z.ltb_ge (24 + _) _)) by (unfold kSizeofXlogRecord; lia).
  change (Z.of_nat 24 <? kSizeofXlogRecord) with false. cbn [orb].
  rewrite u64_small by (unfold kSizeofXlogRecord; lia). rewrite read_raw by (unfold kSizeofXlogRecord; lia).
  replace (Z.to_nat (lsn + kSizeofXlogRecord)) with (Z.to_nat lsn + 24)%nat by (unfold kSizeofXlogRecord; lia).
  rewrite <- drop_drop, Hd, drop_app_length', take_app_length' by (done || (unfold kSizeofXlogRecord; lia)).
  rewrite (proj2 (Z.ltb_ge _ _)) by (unfold kSizeofXlogRecord; lia). rewrite Hbad. by eexists.
Qed.

(** ** The log as a list of entries *)

Fixpoint log_bytes (prev lsn : Z) (es : list entry) : list Z :=
  match es with [] => [] | e :: es => entry_bytes prev e ++ log_bytes lsn (lsn + entry_len e) es end.

(** What a redo function gets: position, header and data. *)
Fixpoint log_items (prev lsn : Z) (es : list entry) : list (Z * XLogRecord * list Z) :=
  match es with
  | [] => []
  | e :: es => (lsn, entry_record prev e, e_data e) :: log_items lsn (lsn + entry_len e) es
  end.

Fixpoint last_start (prev lsn : Z) (es : list entry) : Z :=
  match es with [] => prev | e :: es => last_start lsn (lsn + entry_len e) es end.

Definition apply_item {S} (table : gmap Z (RedoFn S)) (s : S) (it : Z * XLogRecord * list Z) : S :=
  match table !! xl_rmid it.1.2 with Some fn => fn it.1.2 it.2 it.1.1 s | None => s end.

Lemma log_bytes_snoc es e : ∀ prev lsn,
  log_bytes prev lsn (es ++ [e]) = log_bytes prev lsn es ++ entry_bytes (last_start prev lsn es) e.
Proof.
  induction es as [|e' es IH]; intros prev lsn; cbn [log_bytes app last_start]; [by rewrite app_nil_r|].
  by rewrite IH, app_assoc.
Qed.

(** The end of a log that is cut off: a proper part of an entry. *)
Definition torn (prev : Z) (tail : list Z) : Prop :=
  tail = [] ∨ ∃ e k, wf_entry e ∧ Z.of_nat k < entry_len e ∧ tail = take k (entry_bytes prev e).

Lemma read_torn_tail buffer lsn prev tail r :
  0 ≤ prev < 2 ^ 64 → 0 < lsn → Z.of_nat (length buffer) < 2 ^ 64 → torn prev tail →
  drop (Z.to_nat lsn) buffer = tail → ∃ out r', XLogReadRecord buffer (Some lsn) r = (false, out, r').
Proof.
  intros Hp Hl Hb Ht Hd. destruct Ht as [->|(e & k & He & Hk & ->)]; [|by eapply read_torn].
  unfold XLogReadRecord. cbn [next_lsn]. rewrite (proj2 (Z.eqb_neq lsn kInvalidXLogRecPtr)) by (unfold kInvalidXLogRecPtr; lia).
  cbn [negb]. rewrite read_raw, Hd, take_nil, decide_True by (done || (unfold kSizeofXlogRecord; lia)). by eexists _, _.
Qed.

(** Replaying the entries from [lsn] on. *)
Lemma recovery_entries {S} (table : gmap Z (RedoFn S)) buffer es : ∀ prev lsn tail r stats s fuel,
  Forall wf_entry es → 0 ≤ prev < 2 ^ 64 → 0 < lsn → Z.of_nat (length buffer) < 2 ^ 64 →
  drop (Z.to_nat lsn) buffer = log_bytes prev lsn es ++ tail → torn (last_start prev lsn es) tail →
  (length es < fuel)%nat →
  ∃ stats', recovery_loop fuel table buffer lsn r (stats, s) = Some (stats', foldl (apply_item table) s (log_items prev lsn es)) ∧
    records_replayed stats' + records_skipped stats' =
    records_replayed stats + records_skipped stats + Z.of_nat (length es).
Proof.
  induction es as [|e es IH]; intros prev lsn tail r stats s [|fuel] Hwf Hp Hl Hb Hd Ht Hf; cbn [length] in Hf; [lia| |lia|].
  - cbn [recovery_loop log_items foldl length]. destruct (read_torn_tail buffer lsn prev tail r Hp Hl Hb Ht Hd) as (out & r' & ->).
    eexists. split; [done|]. lia.
  - inversion Hwf as [|?? He Hes]; subst. cbn [log_bytes] in Hd. rewrite <- app_assoc in Hd.
    pose proof (length_entry prev e) as Hel. pose proof (entry_len_payload e).
    assert (Hlen := f_equal length Hd). rewrite length_drop, length_app in Hlen.
    cbn [recovery_loop]. rewrite (read_entry buffer lsn prev e _ r He Hp Hl Hb Hd).
    change (default lsn (Some (lsn + entry_len e))) with (lsn + entry_len e).
    set (r' := mkReader _ _ _ _ _ _ _ _).
    destruct (redo_record table r' (stats, s)) as [stats1 s1] eqn:Er.
    destruct (IH lsn (lsn + entry_len e) tail r' stats1 s1 fuel) as (stats' & Hrun & Hst); try done; try lia.
    { replace (Z.to_nat (lsn + entry_len e)) with (Z.to_nat lsn + length (entry_bytes prev e))%nat by lia.
      by rewrite <- drop_drop, Hd, drop_app_length. }
    exists stats'. cbn [log_items foldl length]. unfold redo_record, GetRmgrRedo, r' in Er. unfold apply_item at 2.
    cbn [record main_data current_lsn fst snd] in *.
    destruct (table !! xl_rmid (entry_record prev e)); injection Er as <- <-; cbn in Hst; (split; [done|lia]).
Qed.

(** ** Calls

    The interface of the log, and what each call means for the list of
    entries, the record being assembled and the number of flushed entries. *)

Inductive wal_call :=
| CallBegin
| CallData (data : list Z)
| CallBuffer (id : Z) (page : list Z) (fpw : bool)
| CallSetFlags (flags : Z)
| CallInsert (w : world) (rmid info : Z)
| CallResetInsert
| CallFlush (upto : Z).

Definition run_call (s : wal) (c : wal_call) : wal :=
  match c with
  | CallBegin => mkWal (w_log s) (XLogBeginInsert (w_ins s))
  | CallData data => mkWal (w_log s) (XLogRegisterData data (w_ins s))
  | CallBuffer id page fpw => mkWal (w_log s) (XLogRegisterBuffer id page fpw (w_ins s))
  | CallSetFlags flags => mkWal (w_log s) (XLogSetRecordFlags flags (w_ins s))
  | CallInsert w rmid info => (XLogInsert w rmid info s).2
  | CallResetInsert => mkWal (w_log s) (XLogResetInsert (w_ins s))
  | CallFlush upto => mkWal (XLogFlush upto (w_log s)) (w_ins s)
  end.

Record abstract_log := mkAbs {
  a_entries : list entry;
  a_flushed : nat;
  a_data : list Z;
  a_blocks : list RegisteredBlock;
}.

Definition new_entry (w : world) (rmid info : Z) (a : abstract_log) : entry :=
  let xid := GetCurrentTransactionIdIfAny w in
  mkEntry (if negb (xid =? kInvalidTransactionId) then xid else kBootstrapTransactionId) info rmid
    (fpw_blocks (a_blocks a)) (a_data a).

Definition spec_call (a : abstract_log) (c : wal_call) : abstract_log :=
  match c with
  | CallBegin | CallResetInsert => mkAbs (a_entries a) (a_flushed a) [] []
  | CallData data => mkAbs (a_entries a) (a_flushed a) (a_data a ++ data) (a_blocks a)
  | CallBuffer id page fpw =>
      if decide (page = []) then a
      else mkAbs (a_entries a) (a_flushed a) (a_data a) (register_block (mkBlock id page fpw) (a_blocks a))
  | CallSetFlags _ => a
  | CallInsert w rmid info => mkAbs (a_entries a ++ [new_entry w rmid info a]) (a_flushed a) [] []
  | CallFlush _ => mkAbs (a_entries a) (length (a_entries a)) (a_data a) (a_blocks a)
  end.

Definition start_lsn : Z := kSizeofXlogRecord.
Abbreviation entries_bytes es := (log_bytes kInvalidXLogRecPtr start_lsn es).

(** Inserted entries are well formed, and the log stays below 2^64 bytes. *)
Definition call_ok (a : abstract_log) (c : wal_call) : Prop :=
  match c with
  | CallInsert w rmid info =>
      wf_entry (new_entry w rmid info a) ∧
      start_lsn + Z.of_nat (length (entries_bytes (a_entries a ++ [new_entry w rmid info a]))) < 2 ^ 64
  | _ => True
  end.

Fixpoint calls_ok (a : abstract_log) (l : list wal_call) : Prop :=
  match l with [] => True | c :: l => call_ok a c ∧ calls_ok (spec_call a c) l end.

(** The log on disk and in memory holds the entries. *)
Record represents (path : string) (a : abstract_log) (s : wal) : Prop := {
  rp_buffer : WalBuffer (w_log s) = empty_buffer ++ entries_bytes (a_entries a);
  rp_ptr : InsertPtr (w_log s) = Z.of_nat (length (WalBuffer (w_log s)));
  rp_small : InsertPtr (w_log s) < 2 ^ 64;
  rp_dir : WalDirectory (w_log s) ≠ "" ∧ wal_path (w_log s) = path;
  rp_fd : WalFileFd (w_log s) = Some path;
  rp_file : disk (w_log s) !! path =
    Some (mkFile (entries_bytes (a_entries a)) (length (entries_bytes (take (a_flushed a) (a_entries a)))));
  rp_data : RegisteredData (w_ins s) = a_data a;
  rp_blocks : RegisteredBlocks (w_ins s) = a_blocks a;
  rp_prev : PrevRecordLsn (w_ins s) = last_start kInvalidXLogRecPtr start_lsn (a_entries a);
  rp_flushed : (a_flushed a ≤ length (a_entries a))%nat;
  rp_wf : Forall wf_entry (a_entries a);
}.

Lemma fpw_twice blocks : fpw_blocks (fpw_blocks blocks) = fpw_blocks blocks.
Proof. unfold fpw_blocks. rewrite list_filter_filter. apply filter_same. intros b _. tauto. Qed.

Lemma last_start_length es : ∀ prev lsn,
  last_start prev lsn es = prev ∨ last_start prev lsn es ≤ lsn + Z.of_nat (length (log_bytes prev lsn es)) ∧ lsn ≤ last_start prev lsn es.
Proof.
  induction es as [|e es IH]; intros prev lsn; [by left|]. right. cbn [last_start log_bytes]. rewrite length_app.
  pose proof (length_entry prev e). pose proof (entry_len_payload e).
  destruct (IH lsn (lsn + entry_len e)) as [->|[Ha Hb]]; lia.
Qed.

(** The bytes [XLogInsert] appends, in memory and on disk. *)
Lemma write_raw_run data l :
  InsertPtr l + Z.of_nat (length data) < 2 ^ 64 → 0 ≤ InsertPtr l →
  (XLogWriteRaw data l).1 = InsertPtr l ∧
  WalBuffer (XLogWriteRaw data l).2 = WalBuffer l ++ data ∧
  InsertPtr (XLogWriteRaw data l).2 = InsertPtr l + Z.of_nat (length data) ∧
  WalDirectory (XLogWriteRaw data l).2 = WalDirectory l ∧ WalFileFd (XLogWriteRaw data l).2 = WalFileFd l ∧
  ∀ path f, WalFileFd l = Some path → disk l !! path = Some f →
    disk (XLogWriteRaw data l).2 !! path = Some (mkFile (f_bytes f ++ data) (f_synced f)).
Proof.
  intros Hs H0. unfold XLogWriteRaw. case_decide as Hd.
  - subst data. cbn. rewrite app_nil_r. split_and!; try done; [lia|]. intros path f _ Hf. rewrite app_nil_r. by destruct f.
  - cbn. rewrite u64_small by lia. split_and!; try done. intros path f -> Hf. unfold WriteAllToFd. rewrite Hf.
    by rewrite lookup_insert_eq.
Qed.

Lemma insert_run path a s w rmid info :
  represents path a s → call_ok a (CallInsert w rmid info) →
  represents path (spec_call a (CallInsert w rmid info)) (run_call s (CallInsert w rmid info)).
Proof.
  intros [H1 H2 H3 H4 H5 H6 H7 H8 H9 H10 H11] [He Hsz]. set (e := new_entry w rmid info a) in *.
  set (prev := last_start kInvalidXLogRecPtr start_lsn (a_entries a)) in *.
  rewrite log_bytes_snoc, length_app, Nat2Z.inj_add, length_entry in Hsz. fold prev in Hsz.
  assert (Hsnoc : entries_bytes (a_entries a ++ [e]) = entries_bytes (a_entries a) ++ entry_bytes prev e) by apply log_bytes_snoc.
  assert (Hptr : InsertPtr (w_log s) = start_lsn + Z.of_nat (length (entries_bytes (a_entries a)))).
  { rewrite H2, H1, length_app. unfold start_lsn, kSizeofXlogRecord. change (length empty_buffer) with 24%nat. lia. }
  pose proof (entry_len_payload e) as Hlp. pose proof (length_entry prev e) as Hle.
  assert (Hpl : length (payload e) = (length (backup_bytes (a_blocks a)) + length (a_data a))%nat).
  { unfold payload, e, new_entry. cbn [e_blocks e_data]. rewrite length_app. unfold backup_bytes. by rewrite fpw_twice. }
  assert (Hrec : entry_record prev e =
    mkRecord (u32 (kSizeofXlogRecord + bkp_total (a_blocks a) + Z.of_nat (length (a_data a)))) (e_xid e) prev
      (if bool_decide (fpw_blocks (a_blocks a) ≠ []) then u8 (Z.lor info kXlrBkpBlockImage) else info) rmid
      (record_crc (bare_record prev e) [backup_bytes (a_blocks a); a_data a])).
  { unfold entry_record, bare_record, entry_len, e, new_entry, bkp_total, backup_bytes. cbn. by rewrite !fpw_twice. }
  unfold run_call, XLogInsert. rewrite H7, H8, H9. fold prev.
  match goal with |- context [XLogWriteRaw (header_bytes ?r)] => replace r with (entry_record prev e) end.
  2: { rewrite Hrec. cbn [xl_tot_len xl_xid xl_prev xl_info xl_rmid]. do 2 f_equal.
       unfold bare_record, entry_len, e, new_entry, bkp_total. cbn. by rewrite !fpw_twice. }
  destruct (write_raw_run (header_bytes (entry_record prev e)) (w_log s)) as (W1 & W2 & W3 & W4 & W5 & W6);
    [rewrite length_header; lia|lia|].
  destruct (XLogWriteRaw (header_bytes (entry_record prev e)) (w_log s)) as [st l1]. cbn [fst snd] in *. subst st.
  set (l2 := if bool_decide (fpw_blocks (a_blocks a) ≠ []) then (XLogWriteRaw (backup_bytes (a_blocks a)) l1).2 else l1).
  assert (Hl2 : l2 = (XLogWriteRaw (backup_bytes (a_blocks a)) l1).2).
  { unfold l2. case_bool_decide as Hb; [done|]. unfold backup_bytes. destruct (fpw_blocks (a_blocks a)); [done|discriminate Hb]. }
  rewrite length_header in W3.
  destruct (write_raw_run (backup_bytes (a_blocks a)) l1) as (_ & V2 & V3 & V4 & V5 & V6); [lia..|]. rewrite <- Hl2 in *.
  destruct (write_raw_run (a_data a) l2) as (_ & U2 & U3 & U4 & U5 & U6); [lia..|].
  assert (Hbytes : header_bytes (entry_record prev e) ++ backup_bytes (a_blocks a) ++ a_data a = entry_bytes prev e).
  { unfold entry_bytes, payload, e, new_entry, backup_bytes. cbn [e_blocks e_data]. by rewrite fpw_twice. }
  split; cbn [w_log w_ins RegisteredData RegisteredBlocks PrevRecordLsn spec_call a_entries a_flushed a_data a_blocks]; fold e.
  - rewrite U2, V2, W2, H1, Hsnoc, <- Hbytes. by rewrite <- !app_assoc.
  - rewrite U3, V3, W3, H2, U2, V2, W2, !length_app, length_header. lia.
  - rewrite U3, V3, W3. lia.
  - unfold wal_path. by rewrite U4, V4, W4.
  - by rewrite U5, V5, W5.
  - rewrite (U6 path _ ltac:(by rewrite V5, W5) (V6 path _ ltac:(by rewrite W5) (W6 path _ H5 H6))). cbn [f_bytes f_synced].
    rewrite Hsnoc, <- Hbytes, <- !app_assoc, take_app_le by done. done.
  - done.
  - done.
  - rewrite Hptr. clear. generalize kInvalidXLogRecPtr start_lsn. induction (a_entries a) as [|e' es IH]; intros p0 l0;
      cbn [app last_start log_bytes length]; [lia|]. rewrite <- IH, length_app. pose proof (length_entry p0 e'). lia.
  - rewrite length_app. lia.
  - apply Forall_app. split; [done|by constructor].
Qed.

Lemma call_represents path a s c :
  represents path a s → call_ok a c → represents path (spec_call a c) (run_call s c).
Proof.
  intros Hr Hc. destruct c; [..|by apply insert_run| |]; destruct Hr as [H1 H2 H3 H4 H5 H6 H7 H8 H9 H10 H11];
    cbn [run_call spec_call].
  - by split.
  - split; try done; unfold XLogRegisterData; cbn; case_decide; subst; cbn; rewrite ?app_nil_r; try done. by rewrite H7.
  - unfold XLogRegisterBuffer. case_decide; [by split|]. split; try done. cbn. by rewrite H8.
  - by split.
  - by split.
  - split; try done. cbn. rewrite H5. unfold fsync. rewrite H6, lookup_insert_eq. cbn. by rewrite take_ge.
Qed.

Lemma calls_represent path l : ∀ a s,
  represents path a s → calls_ok a l → represents path (foldl spec_call a l) (foldl run_call s l).
Proof.
  induction l as [|c l IH]; intros a s Hr Hc; [done|]. destruct Hc as [Hc Hl]. cbn [foldl].
  apply IH; [|done]. by apply call_represents.
Qed.

Definition empty_log : abstract_log := mkAbs [] 0 [] [].

(** A new log in a directory. *)
Definition new_wal (dir : string) (l : log) (i : inserter) : wal :=
  mkWal (ResetWal (SetWalDirectory dir l)) (ResetXlogInsertState i).

Lemma new_wal_represents dir l i : dir ≠ "" → represents (dir +:+ "/wal.log") empty_log (new_wal dir l i).
Proof.
  intros Hd. unfold new_wal, ResetWal. cbn [WalDirectory SetWalDirectory]. rewrite decide_False by done.
  split; try done. cbn. unfold create_file, truncate_file, wal_path. cbn. rewrite lookup_insert_eq. by rewrite lookup_insert_eq.
Qed.

(** Cutting the bytes of a log leaves its complete entries and part of the next. *)
Lemma take_log es : ∀ prev lsn n,
  Forall wf_entry es →
  ∃ m tail, (m ≤ length es)%nat ∧ take n (log_bytes prev lsn es) = log_bytes prev lsn (take m es) ++ tail ∧
    torn (last_start prev lsn (take m es)) tail ∧
    ∀ k, (k ≤ length es)%nat → (length (log_bytes prev lsn (take k es)) ≤ n)%nat → (k ≤ m)%nat.
Proof.
  induction es as [|e es IH]; intros prev lsn n Hwf.
  { exists 0%nat, []. split_and!; [done|cbn; by rewrite take_nil|by left|done]. }
  inversion Hwf as [|?? He Hes]; subst. pose proof (length_entry prev e) as Hel. cbn [log_bytes].
  destruct (decide (length (entry_bytes prev e) ≤ n)%nat) as [Hn|Hn].
  - destruct (IH lsn (lsn + entry_len e) (n - length (entry_bytes prev e))%nat Hes) as (m & tail & Hm & Ht & Htorn & Hmax).
    exists (S m), tail. split_and!; [cbn; lia| |done|].
    + rewrite take_app_ge by done. cbn [take log_bytes]. by rewrite Ht, app_assoc.
    + intros [|k] Hk Hkn; [lia|]. cbn [length] in Hk. cbn [take log_bytes] in Hkn. rewrite length_app in Hkn.
      enough (k ≤ m)%nat by lia. apply Hmax; lia.
  - exists 0%nat, (take n (entry_bytes prev e)). split_and!; [lia| | |].
    + by rewrite take_app_le by lia.
    + right. exists e, n. split_and!; [done|lia|done].
    + intros [|k] Hk Hkn; [lia|]. cbn [take log_bytes] in Hkn. rewrite length_app in Hkn. lia.
Qed.

(** A crash: the process is gone, and the file keeps its first [n] bytes. *)
Definition crash (n : nat) (l : log) : log :=
  mkLog [] kSizeofXlogRecord kSizeofXlogRecord (WalDirectory l) None
    (alter (λ f, mkFile (take n (f_bytes f)) (min n (length (f_bytes f)))) (wal_path l) (disk l)).

Lemma crash_recovers {S} (table : gmap Z (RedoFn S)) path a s n st :
  represents path a s → (length (entries_bytes (take (a_flushed a) (a_entries a))) ≤ n)%nat →
  ∃ m stats, (a_flushed a ≤ m ≤ length (a_entries a))%nat ∧
    PerformCrashRecovery table (WalBuffer (InitializeWal (crash n (w_log s)))) st =
      Some (stats, foldl (apply_item table) st (log_items kInvalidXLogRecPtr start_lsn (take m (a_entries a)))) ∧
    records_replayed stats + records_skipped stats = Z.of_nat m ∧
    ((length (entries_bytes (a_entries a)) ≤ n)%nat → m = length (a_entries a)).
Proof.
  intros [H1 H2 H3 [Hd Hpath] H5 H6 H7 H8 H9 H10 H11] Hn.
  assert (Hbuf : WalBuffer (InitializeWal (crash n (w_log s))) = empty_buffer ++ take n (entries_bytes (a_entries a))).
  { unfold InitializeWal, crash. cbn [WalDirectory]. rewrite decide_False by done. unfold wal_path in *. cbn [WalBuffer disk WalDirectory].
    rewrite Hpath, lookup_alter_eq, H6. done. }
  destruct (take_log (a_entries a) kInvalidXLogRecPtr start_lsn n H11) as (m & tail & Hm & Ht & Htorn & Hmax).
  destruct (recovery_entries table (empty_buffer ++ take n (entries_bytes (a_entries a))) (take m (a_entries a))
    kInvalidXLogRecPtr start_lsn tail XLogReaderAlloc (mkStats 0 0 0 kInvalidXLogRecPtr) st
    (Datatypes.S (length (empty_buffer ++ take n (entries_bytes (a_entries a)))))) as (stats & Hrun & Hst); try done.
  { by apply Forall_take. }
  { rewrite H2, H1 in H3. rewrite length_app, length_take in *. lia. }
  { rewrite length_app, Ht, length_app. enough (length (take m (a_entries a)) ≤ length (log_bytes kInvalidXLogRecPtr start_lsn (take m (a_entries a))))%nat by lia.
    clear. generalize kInvalidXLogRecPtr start_lsn. induction (take m (a_entries a)) as [|e es IH]; intros p l; [done|].
    cbn [length log_bytes]. rewrite length_app. specialize (IH l (l + entry_len e)). pose proof (length_entry p e).
    pose proof (entry_len_payload e). lia. }
  exists m, stats. rewrite Hbuf. split_and!.
  - apply Hmax; done.
  - done.
  - exact Hrun.
  - cbn in Hst. rewrite length_take in Hst. lia.
  - intros Hall. apply Nat.le_antisymm; [done|]. apply Hmax; [done|]. by rewrite take_ge.
Qed.

(** C11: crash recovery.  Run any sequence of calls of the log (no record with more
    than 255 page images, see [block_count_wraps]) on a new log in
    a directory, crash so that of the file at least the bytes flushed by
    [XLogFlush] survive, restart and recover: the redo functions are applied
    exactly once, in order and with the header, data and position that were
    inserted, to the first [m] records, where [m] is at least the number of
    flushed records, and all of them when no byte was lost.  A record of which
    only a part survived is not replayed. *)
Theorem recovery_replays_flushed {S} (table : gmap Z (RedoFn S)) dir l i calls n st :
  dir ≠ "" → calls_ok empty_log calls →
  let s := foldl run_call (new_wal dir l i) calls in
  let a := foldl spec_call empty_log calls in
  (∀ f, disk (w_log s) !! (dir +:+ "/wal.log") = Some f → (f_synced f ≤ n)%nat) →
  ∃ m stats, (a_flushed a ≤ m ≤ length (a_entries a))%nat ∧
    PerformCrashRecovery table (WalBuffer (InitializeWal (crash n (w_log s)))) st =
      Some (stats, foldl (apply_item table) st (log_items kInvalidXLogRecPtr start_lsn (take m (a_entries a)))) ∧
    records_replayed stats + records_skipped stats = Z.of_nat m ∧
    ((∀ f, disk (w_log s) !! (dir +:+ "/wal.log") = Some f → (length (f_bytes f) ≤ n)%nat) → m = length (a_entries a)).
Proof.
  intros Hd Hok s a Hn.
  assert (Hr : represents (dir +:+ "/wal.log") a s) by (by apply calls_represent, Hok; apply new_wal_represents).
  destruct (crash_recovers table _ a s n st Hr) as (m & stats & Hm & Hrun & Hst & Hall).
  { exact (Hn _ (rp_file _ _ _ Hr)). }
  exists m, stats. split_and!; try apply Hm; try done. intros Hf. apply Hall. exact (Hf _ (rp_file _ _ _ Hr)).
Qed.

(** The count byte of the images wraps: 256 of them are announced as none. *)
Lemma block_count_wraps blocks :
  length (fpw_blocks blocks) = 256%nat → list.head (backup_bytes blocks) = Some 0.
Proof. intros Hl. unfold backup_bytes. destruct (fpw_blocks blocks) as [|b l]; [done|]. cbn [list.head]. by rewrite Hl. Qed.

End log.

(** ** Examples *)

Lemma recovery_terminates_witness :
  ∃ stats s', PerformCrashRecoveryFrom (S := nat) ∅ (replicate 60 7) 0 0%nat = Some (stats, s').
Proof. apply recovery_terminates; [lia|vm_compute; reflexivity]. Defined.

(** Two records of the heap; the first one carries a page image. *)
Definition demo_calls : list wal_call :=
  [CallBegin; CallData [1; 2; 3]; CallBuffer 0 [9; 9] true; CallInsert initial_world 8 16; CallFlush 0;
   CallBegin; CallData [7]; CallInsert initial_world 8 0].
Definition no_log : log := mkLog [] 24 24 "" None ∅.
Definition no_inserter : inserter := mkInserter [] [] 0 0.

(** A resource manager that collects the data of its records. *)
Definition collect : gmap Z (RedoFn (list (list Z))) := {[ 8 := λ _ data _ s, s ++ [data] ]}.

Lemma demo_entry_wf blocks data info :
  Forall wf_block blocks → Z.of_nat (length blocks) ≤ 255 → Forall is_u8 data → is_u8 info →
  (blocks = [] → Z.land info 4 = 0) → entry_len (mkEntry 1 info 8 blocks data) < 2 ^ 32 →
  wf_entry (mkEntry 1 info 8 blocks data).
Proof. intros H1 H2 H3 H4 H5 H6. split; done. Qed.

Lemma demo_calls_ok : calls_ok empty_log demo_calls.
Proof.
  split; [done|]. split; [done|]. split; [done|]. split.
  { split; [|by vm_compute]. apply demo_entry_wf; try done; repeat constructor; done. }
  split; [done|]. split; [done|]. split; [done|]. split; [|done].
  split; [|by vm_compute]. apply demo_entry_wf; try done; repeat constructor; done.
Qed.

Lemma recovery_replays_flushed_witness :
  let s := foldl run_call (new_wal "pg_wal" no_log no_inserter) demo_calls in
  ∃ m stats, (1 ≤ m ≤ 2)%nat ∧
    PerformCrashRecovery collect (WalBuffer (InitializeWal (crash 40 (w_log s)))) [] =
      Some (stats, foldl (apply_item collect) [] (log_items 0 24 (take m (a_entries (foldl spec_call empty_log demo_calls))))).
Proof.
  intros s.
  destruct (recovery_replays_flushed collect "pg_wal" no_log no_inserter demo_calls 40 []) as (m & stats & Hm & Hrun & _).
  - discriminate.
  - exact demo_calls_ok.
  - intros f Hf. vm_compute in Hf. injection Hf as <-. vm_compute. repeat constructor.
  - exists m, stats. split; [exact Hm|exact Hrun].
Defined.

Lemma damaged_record_rejected_witness :
  let e := mkEntry 1 16 8 [] [1; 2; 3] in
  let buffer := empty_buffer ++ header_bytes (entry_record 0 e) ++ [1; 5; 3] in
  ∃ r', XLogReadRecord buffer (Some 24) XLogReaderAlloc = (false, Some 24, r') ∧ crc_mismatch r' = true.
Proof.
  intros e buffer.
  destruct (damaged_record_rejected buffer 24 0 e (header_prefix (entry_record 0 e)) [1; 5; 3]
    (header_prefix (entry_record 0 e) ++ [1]) [2] [5] [3] [] XLogReaderAlloc) as (r' & Hr & Hc & _).
  - apply demo_entry_wf; try done; repeat constructor; done.
  - lia.
  - lia.
  - vm_compute. reflexivity.
  - reflexivity.
  - reflexivity.
  - reflexivity.
  - repeat constructor.
  - discriminate.
  - repeat constructor; discriminate.
  - reflexivity.
  - reflexivity.
  - reflexivity.
  - exists r'. split; [exact Hr|exact Hc].
Defined.

(** A log that ends in part of a record is continued behind that part: the
    records written after the restart are never replayed. *)
Definition torn_restart : wal :=
  let s := foldl run_call (new_wal "pg_wal" no_log no_inserter) (take 4 demo_calls) in
  foldl run_call (mkWal (InitializeWal (crash 20 (w_log s))) (ResetXlogInsertState no_inserter))
    [CallBegin; CallData [7]; CallInsert initial_world 8 0; CallFlush 0].

Theorem torn_tail_hides_later_records :
  InsertPtr (w_log torn_restart) = WritePtr (w_log torn_restart) ∧
  PerformCrashRecovery collect (WalBuffer (w_log torn_restart)) [] = Some (mkStats 0 0 0 0, []).
Proof. vm_compute. done. Qed.

(** The first record after a restart does not point back to its predecessor. *)
Theorem restart_breaks_chain :
  let s := foldl run_call (new_wal "pg_wal" no_log no_inserter) (take 4 demo_calls) in
  let s' := foldl run_call (mkWal (InitializeWal (w_log s)) (ResetXlogInsertState no_inserter))
              [CallBegin; CallData [7]; CallInsert initial_world 8 0] in
  xl_prev (header_of (XLogReadRaw (WalBuffer (w_log s')) (InsertPtr (w_log s)) 24)) = kInvalidXLogRecPtr.
Proof. vm_compute. reflexivity. Qed.

End WalSpec.
