(* ===== verification/WalSegments.v ===== *)
(** * WAL segment files

    The second half of src/transaction/xlog.cpp: names and positions of
    segments and [WalSegmentWriter], which spreads a write over the segment
    files it touches.  A segment file is its size and its bytes; every system
    call succeeds. *)

From stdpp Require Import base gmap list strings.
From S2P Require Import Prelude CString BufPage.

Module WalSegments.
Import CString.
Import BufPage (memcpy_in, memcpy_outside).

Definition kWalSegmentSize : Z := 16 * 1024 * 1024.
Definition kXLogSegmentsPerXLogId : Z := 0x100000000 / kWalSegmentSize.

Definition XLogFileName (tli segno : Z) : string :=
  let logid := u32 (segno / kXLogSegmentsPerXLogId) in
  let seg := u32 (segno `mod` kXLogSegmentsPerXLogId) in
  of_chars (take 24 (print_padded 16 8 8 tli ++ print_padded 16 8 8 logid ++ print_padded 16 8 8 seg)).

Definition XLogSegNoOffsetToRecPtr (segno offset : Z) : Z := u64 (u64 (segno * kWalSegmentSize) + offset).
Definition RecPtrToXLogSegNo (lsn : Z) : Z := lsn / kWalSegmentSize.
Definition RecPtrToSegmentOffset (lsn : Z) : Z := u32 (lsn `mod` kWalSegmentSize).

(** ** Files *)

Record SegFile := mkSeg { sf_size : Z; sf_data : Z → Z }.
Abbreviation Dir := (gmap string SegFile).

Definition XLogFileInit (path : string) (d : Dir) : bool * Dir :=
  match d !! path with
  | Some _ => (true, d)
  | None => (true, <[path := mkSeg kWalSegmentSize (λ _, 0)]> d)
  end.

Definition InstallXLogFileSegment (dir : string) (tli segno : Z) (d : Dir) : bool * Dir :=
  let path := dir +:+ "/" +:+ XLogFileName tli segno in
  match d !! path with Some _ => (true, d) | None => XLogFileInit path d end.

Definition XLogFileCopy (dst src : string) (d : Dir) : bool * Dir :=
  match d !! src with
  | None => (false, d)
  | Some f => (true, <[dst := f]> d)
  end.

(** [lseek] and [write]: the file grows when the write ends behind its end. *)
Definition pwrite (path : string) (off : Z) (data : list Z) (d : Dir) : Dir :=
  match d !! path with
  | Some f => <[path := mkSeg (Z.max (sf_size f) (off + Z.of_nat (length data))) (memcpy_in off data (sf_data f))]> d
  | None => d
  end.

(** ** The writer *)

Record WalSegmentWriter := mkWriter {
  dir_ : string;
  tli_ : Z;
  segment_size_ : Z;
  fd_ : option string;                  (* the path of the open segment *)
  current_segno_ : Z;
}.

Definition EnsureSegmentOpen (segno : Z) (w : WalSegmentWriter) (d : Dir) : bool * WalSegmentWriter * Dir :=
  if bool_decide (is_Some (fd_ w)) && (current_segno_ w =? segno) then (true, w, d)
  else
    let w := mkWriter (dir_ w) (tli_ w) (segment_size_ w) None (current_segno_ w) in
    match InstallXLogFileSegment (dir_ w) (tli_ w) segno d with
    | (false, d) => (false, w, d)
    | (true, d) =>
        let path := dir_ w +:+ "/" +:+ XLogFileName (tli_ w) segno in
        match d !! path with
        | None => (false, w, d)
        | Some _ => (true, mkWriter (dir_ w) (tli_ w) (segment_size_ w) (Some path) segno, d)
        end
    end.

(** The loop over the segments; the number of bytes written is returned. *)
Fixpoint write_loop (fuel : nat) (lsn : Z) (data : list Z) (written : Z) (w : WalSegmentWriter) (d : Dir)
  : option (Z * WalSegmentWriter * Dir) :=
  match fuel with
  | O => None
  | S fuel' =>
      let len := Z.of_nat (length data) in
      if negb (written <? len) then Some (written, w, d)
      else
        let cur := u64 (lsn + written) in
        let segno := cur / segment_size_ w in
        let off := u32 (cur `mod` segment_size_ w) in
        let space_in_seg := segment_size_ w - off in
        let chunk := if space_in_seg <? len - written then space_in_seg else len - written in
        match EnsureSegmentOpen segno w d with
        | (false, w, d) => Some (written, w, d)
        | (true, w, d) =>
            let d := match fd_ w with
                     | Some path => pwrite path off (take (Z.to_nat chunk) (drop (Z.to_nat written) data)) d
                     | None => d
                     end in
            write_loop fuel' lsn data (written + chunk) w d
        end
  end.

(** A turn writes at least one byte. *)
Definition Write (lsn : Z) (data : list Z) (w : WalSegmentWriter) (d : Dir) : option (Z * WalSegmentWriter * Dir) :=
  if decide (data = []) then Some (0, w, d) else write_loop (S (length data)) lsn data 0 w d.

Definition Close (w : WalSegmentWriter) : WalSegmentWriter :=
  mkWriter (dir_ w) (tli_ w) (segment_size_ w) None (current_segno_ w).

(** ** Names *)

Lemma length_digits b fuel z acc : (length (digits b fuel z acc) ≤ fuel + length acc)%nat.
Proof.
  revert z acc. induction fuel as [|f IH]; intros z acc; [done|]. cbn [digits]. case_match; [cbn; lia|].
  specialize (IH (z / b) (z `mod` b :: acc)). cbn in *. lia.
Qed.

Lemma length_padded b width z : length (print_padded b width width z) = width.
Proof.
  unfold print_padded. rewrite length_map, length_app, length_replicate.
  pose proof (length_digits b width z []). cbn in *. lia.
Qed.

Lemma padded_inj z1 z2 :
  is_u32 z1 → is_u32 z2 → print_padded 16 8 8 z1 = print_padded 16 8 8 z2 → z1 = z2.
Proof.
  intros H1 H2 Heq. apply (f_equal (λ l, scan_integer 16 (l ++ []))) in Heq.
  rewrite !scan_print_padded in Heq by (done || lia). by injection Heq.
Qed.

Lemma file_name_inj tli s1 s2 :
  0 ≤ s1 < 2 ^ 40 → 0 ≤ s2 < 2 ^ 40 → XLogFileName tli s1 = XLogFileName tli s2 → s1 = s2.
Proof.
  intros H1 H2 Heq. unfold XLogFileName in Heq. apply (f_equal chars) in Heq. rewrite !chars_of_chars in Heq.
  change kXLogSegmentsPerXLogId with 256 in Heq.
  rewrite !take_ge in Heq by (rewrite !length_app, !length_padded; lia).
  apply app_inv_head, app_inj_1 in Heq as [Hlog Hseg]; [|by rewrite !length_padded].
  apply padded_inj in Hlog, Hseg; try apply u32_range.
  pose proof (Z.div_mod s1 256). pose proof (Z.div_mod s2 256). pose proof (Z.mod_pos_bound s1 256).
  pose proof (Z.mod_pos_bound s2 256). rewrite !u32_small in Hlog, Hseg by (unfold is_u32; lia). lia.
Qed.

(** ** The bytes of the log in the segments *)

Definition seg_path (w : WalSegmentWriter) (segno : Z) : string := dir_ w +:+ "/" +:+ XLogFileName (tli_ w) segno.

(** The byte at a position of the log; a missing segment reads as zeros. *)
Definition byte_at (w : WalSegmentWriter) (d : Dir) (p : Z) : Z :=
  match d !! seg_path w (p / segment_size_ w) with
  | Some f => sf_data f (p `mod` segment_size_ w)
  | None => 0
  end.

Record writer_ok (w : WalSegmentWriter) (d : Dir) : Prop := {
  wo_size : 0 < segment_size_ w < 2 ^ 32;
  wo_fd path : fd_ w = Some path → path = seg_path w (current_segno_ w) ∧ is_Some (d !! path);
}.

(** The same directory, timeline and segment size. *)
Definition same_place (w w' : WalSegmentWriter) : Prop :=
  dir_ w' = dir_ w ∧ tli_ w' = tli_ w ∧ segment_size_ w' = segment_size_ w.

Lemma byte_at_place w w' d p : same_place w w' → byte_at w' d p = byte_at w d p.
Proof. intros (H1 & H2 & H3). unfold byte_at, seg_path. by rewrite H1, H2, H3. Qed.

Lemma append_inj (a b c : string) : a +:+ b = a +:+ c → b = c.
Proof. induction a as [|x a IH]; intros H; [done|]. injection H as H. by apply IH. Qed.

Lemma seg_path_inj w s1 s2 : 0 ≤ s1 < 2 ^ 40 → 0 ≤ s2 < 2 ^ 40 → seg_path w s1 = seg_path w s2 → s1 = s2.
Proof. intros H1 H2 H. by do 2 apply append_inj in H; apply (file_name_inj (tli_ w)). Qed.

Lemma ensure_open_run segno w d :
  writer_ok w d →
  ∃ w' d', EnsureSegmentOpen segno w d = (true, w', d') ∧ same_place w w' ∧ writer_ok w' d' ∧
    fd_ w' = Some (seg_path w segno) ∧ is_Some (d' !! seg_path w segno) ∧ ∀ p, byte_at w d' p = byte_at w d p.
Proof.
  intros [Hs Hf]. unfold EnsureSegmentOpen.
  destruct (bool_decide (is_Some (fd_ w)) && (current_segno_ w =? segno)) eqn:E.
  { to_prop. destruct (fd_ w) as [path|] eqn:Efd; [|by destruct H]. destruct (Hf path eq_refl) as [-> Hp].
    subst segno. exists w, d. split_and!; try done. split; [done|]. intros path. rewrite Efd. apply Hf. }
  cbn [dir_ tli_ segment_size_]. unfold InstallXLogFileSegment, XLogFileInit. fold (seg_path w segno).
  set (d' := match d !! seg_path w segno with Some _ => d | None => <[seg_path w segno := mkSeg kWalSegmentSize (λ _, 0)]> d end).
  assert (Hd : is_Some (d' !! seg_path w segno)).
  { unfold d'. destruct (d !! seg_path w segno) eqn:Ed; [by rewrite Ed|by rewrite lookup_insert_eq]. }
  assert (Hinst : match d !! seg_path w segno with Some _ => (true, d)
    | None => match d !! seg_path w segno with Some _ => (true, d)
              | None => (true, <[seg_path w segno := mkSeg kWalSegmentSize (λ _, 0)]> d) end end = (true, d')).
  { unfold d'. by destruct (d !! seg_path w segno). }
  rewrite Hinst. destruct Hd as [f Hd]. rewrite Hd. eexists _, d'. split; [done|].
  split; [done|]. split.
  { split; [done|]. cbn. intros path [= <-]. split; [done|]. by rewrite Hd. }
  split; [done|]. split; [by eauto|]. intros p. unfold byte_at, d'.
  destruct (d !! seg_path w segno) eqn:Ed; [done|].
  destruct (decide (seg_path w (p / segment_size_ w) = seg_path w segno)) as [->|Hne];
    [by rewrite lookup_insert_eq, Ed|by rewrite lookup_insert_ne].
Qed.

Lemma pwrite_run w d segno off data :
  0 < segment_size_ w → 0 ≤ segno < 2 ^ 40 → 0 ≤ off → off + Z.of_nat (length data) ≤ segment_size_ w →
  is_Some (d !! seg_path w segno) →
  let cur := segno * segment_size_ w + off in
  ∀ p, 0 ≤ p → p / segment_size_ w < 2 ^ 40 →
  byte_at w (pwrite (seg_path w segno) off data d) p =
  if bool_decide (cur ≤ p < cur + Z.of_nat (length data)) then default 0 (data !! Z.to_nat (p - cur)) else byte_at w d p.
Proof.
  intros Hs Hseg Ho Hfit [f Hf] cur p Hp Hps. unfold pwrite. rewrite Hf. unfold byte_at.
  pose proof (Z.div_mod p (segment_size_ w)) as Hdm. pose proof (Z.mod_pos_bound p (segment_size_ w)) as Hmb.
  assert (Hpp : 0 ≤ p / segment_size_ w) by (apply Z.div_pos; lia).
  destruct (decide (p / segment_size_ w = segno)) as [He|He].
  - rewrite He, lookup_insert_eq, Hf. cbn [sf_data]. rewrite He in Hdm. case_bool_decide as Hin.
    + unfold memcpy_in. rewrite (proj2 (andb_true_iff _ _)) by (split; [apply Z.leb_le|apply Z.ltb_lt]; unfold cur in Hin; lia).
      f_equal. f_equal. f_equal. unfold cur. lia.
    + apply memcpy_outside. unfold cur in Hin. lia.
  - rewrite lookup_insert_ne by (intros E; apply He; symmetry; by apply (seg_path_inj w) in E).
    rewrite bool_decide_eq_false_2; [done|]. unfold cur. intros Hin. apply He. symmetry.
    apply (Z.div_unique _ _ _ (p - segno * segment_size_ w)); [left|]; lia.
Qed.

Lemma write_loop_run fuel lsn data : ∀ written w d,
  writer_ok w d → 0 ≤ lsn → lsn + Z.of_nat (length data) < 2 ^ 64 →
  (lsn + Z.of_nat (length data)) / segment_size_ w < 2 ^ 40 → 0 ≤ written ≤ Z.of_nat (length data) →
  Z.of_nat (length data) - written < Z.of_nat fuel →
  ∃ w' d', write_loop fuel lsn data written w d = Some (Z.of_nat (length data), w', d') ∧ same_place w w' ∧ writer_ok w' d' ∧
    ∀ p, 0 ≤ p → p / segment_size_ w < 2 ^ 40 →
      byte_at w d' p = if bool_decide (lsn + written ≤ p < lsn + Z.of_nat (length data))
                       then default 0 (data !! Z.to_nat (p - lsn)) else byte_at w d p.
Proof.
  induction fuel as [|fuel IH]; intros written w d Hok Hl H64 H40 Hw Hf; [lia|]. cbn [write_loop].
  destruct (written <? Z.of_nat (length data)) eqn:E; to_prop; cbn [negb].
  2: { assert (written = Z.of_nat (length data)) as -> by lia. exists w, d. split_and!; try done. intros p _ _.
       by rewrite bool_decide_eq_false_2 by lia. }
  pose proof (wo_size w d Hok) as Hs. rewrite u64_small by lia.
  pose proof (Z.div_mod (lsn + written) (segment_size_ w)) as Hdm.
  pose proof (Z.mod_pos_bound (lsn + written) (segment_size_ w)) as Hmb.
  rewrite u32_small by (unfold is_u32; lia).
  set (segno := (lsn + written) / segment_size_ w) in *. set (off := (lsn + written) `mod` segment_size_ w) in *.
  set (chunk := if segment_size_ w - off <? _ then _ else _).
  assert (Hchunk : 0 < chunk ≤ Z.of_nat (length data) - written ∧ off + chunk ≤ segment_size_ w).
  { unfold chunk. destruct (_ <? _) eqn:Ec; to_prop; lia. }
  assert (Hseg : 0 ≤ segno < 2 ^ 40).
  { split; [apply Z.div_pos; lia|]. eapply Z.le_lt_trans; [|exact H40]. apply Z.div_le_mono; lia. }
  destruct (ensure_open_run segno w d Hok) as (w1 & d1 & -> & Hsame & Hok1 & Hfd & Hfile & Hb1). rewrite Hfd.
  set (part := take (Z.to_nat chunk) (drop (Z.to_nat written) data)).
  assert (Hpart : Z.of_nat (length part) = chunk) by (unfold part; rewrite length_take, length_drop; lia).
  set (d2 := pwrite (seg_path w segno) off part d1).
  assert (Hok2 : writer_ok w1 d2).
  { destruct Hok1 as [Ha Hb]. split; [done|]. intros path Hp. rewrite Hfd in Hp. injection Hp as <-.
    split; [by apply Hb|]. unfold d2, pwrite. destruct Hfile as [f ->]. by rewrite lookup_insert_eq. }
  pose proof Hsame as (Hd & Ht & Hsz).
  destruct (IH (written + chunk) w1 d2 Hok2) as (w' & d' & Hrun & Hsame' & Hok' & Hb'); rewrite ?Hsz; try done; try lia.
  exists w', d'. split; [done|]. split.
  { destruct Hsame' as (? & ? & ?). unfold same_place. by rewrite <- Hd, <- Ht, <- Hsz. }
  split; [done|]. intros p Hp Hps. rewrite <- (byte_at_place w w1) by done. rewrite Hsz in Hb'. rewrite Hb' by done.
  rewrite (byte_at_place w w1) by done. unfold d2. rewrite pwrite_run by (done || lia). rewrite Hpart, Hb1.
  replace (segno * segment_size_ w + off) with (lsn + written) by lia.
  destruct (decide (lsn + (written + chunk) ≤ p < lsn + Z.of_nat (length data))) as [H1|H1].
  { rewrite !bool_decide_eq_true_2 by lia. done. }
  rewrite (bool_decide_eq_false_2 _ H1). case_bool_decide as H2.
  - rewrite bool_decide_eq_true_2 by lia. unfold part. rewrite lookup_take_lt, lookup_drop by lia. do 2 f_equal. lia.
  - by rewrite bool_decide_eq_false_2 by lia.
Qed.

(** a write that crosses segments.  [WalSegmentWriter::Write] writes all
    its bytes: read back through the names and offsets of the segments, the
    positions from [lsn] on hold the data and every other position of the log
    holds what it held, for every segment size and position. *)
Theorem segment_write_reads_back lsn data w d :
  writer_ok w d → 0 ≤ lsn → lsn + Z.of_nat (length data) < 2 ^ 64 →
  (lsn + Z.of_nat (length data)) / segment_size_ w < 2 ^ 40 →
  ∃ w' d', Write lsn data w d = Some (Z.of_nat (length data), w', d') ∧ writer_ok w' d' ∧
    ∀ p, 0 ≤ p → p / segment_size_ w < 2 ^ 40 →
      byte_at w d' p = if bool_decide (lsn ≤ p < lsn + Z.of_nat (length data))
                       then default 0 (data !! Z.to_nat (p - lsn)) else byte_at w d p.
Proof.
  intros Hok Hl H64 H40. unfold Write. case_decide as Hd.
  { subst data. exists w, d. split_and!; try done. intros p _ _. by rewrite bool_decide_eq_false_2 by (cbn; lia). }
  destruct (write_loop_run (S (length data)) lsn data 0 w d Hok Hl H64 H40) as (w' & d' & Hrun & _ & Hok' & Hb); [lia..|].
  exists w', d'. rewrite Z.add_0_r in Hb. done.
Qed.

(** Ten bytes over three segments of four. *)
Lemma segment_write_reads_back_witness :
  let w := mkWriter "pg_wal" 1 4 None 0 in
  ∃ w' d', Write 3 (seqZ 1 10) w ∅ = Some (10, w', d') ∧
    (∀ p, 0 ≤ p → p / 4 < 2 ^ 40 →
       byte_at w d' p = if bool_decide (3 ≤ p < 3 + 10) then default 0 (seqZ 1 10 !! Z.to_nat (p - 3)) else byte_at w ∅ p).
Proof.
  intros w. destruct (segment_write_reads_back 3 (seqZ 1 10) w ∅) as (w' & d' & Hrun & _ & Hb).
  - split; [cbn; lia|]. intros path Hp. discriminate Hp.
  - lia.
  - vm_compute. reflexivity.
  - vm_compute. reflexivity.
  - exists w', d'. split; [exact Hrun|exact Hb].
Defined.

(** Positions and segments of the default size. *)
Lemma segment_position_roundtrip lsn :
  0 ≤ lsn < 2 ^ 64 → XLogSegNoOffsetToRecPtr (RecPtrToXLogSegNo lsn) (RecPtrToSegmentOffset lsn) = lsn.
Proof.
  intros Hl. unfold XLogSegNoOffsetToRecPtr, RecPtrToXLogSegNo, RecPtrToSegmentOffset.
  change kWalSegmentSize with (2 ^ 24). pose proof (Z.div_mod lsn (2 ^ 24)). pose proof (Z.mod_pos_bound lsn (2 ^ 24)).
  rewrite u32_small by (unfold is_u32; lia). rewrite (u64_small (lsn / 2 ^ 24 * 2 ^ 24)) by lia. rewrite u64_small; lia.
Qed.

End WalSegments.
