(* ===== verification/Pglz.v ===== *)
(** * The compression of TOAST values

    [pglz_compress] and [pglz_decompress] of src/access/common/toast.cpp: an
    LZ77 scheme with groups of up to eight items behind a control byte.  Bytes
    are unsigned; positions are ints, and a source has fewer than 2^31 bytes. *)

From stdpp Require Import base gmap list.
From S2P Require Import Prelude.

Module Pglz.

Definition kHashSize : Z := 4096.
Definition kHashMask : Z := kHashSize - 1.
Definition kMinMatch : Z := 3.
Definition kMaxMatch : Z := 18.
Definition kMaxOffset : Z := 4096.

(** [data[pos]]. *)
Definition at_pos (data : list Z) (pos : Z) : Z := default 0 (data !! Z.to_nat pos).

Definition hash3 (data : list Z) (pos : Z) : Z :=
  Z.land (Z.lxor (Z.lxor (Z.shiftl (at_pos data pos) 8) (Z.shiftl (at_pos data (pos + 1)) 4)) (at_pos data (pos + 2))) kHashMask.

(** The loop of [find_match_len]; [room] is [max_len - len]. *)
Fixpoint match_loop (room : nat) (source : list Z) (prev_pos pos len : Z) : Z :=
  match room with
  | O => len
  | S room' => if at_pos source (prev_pos + len) =? at_pos source (pos + len)
               then match_loop room' source prev_pos pos (len + 1) else len
  end.
Definition find_match_len (source : list Z) (prev_pos pos slen : Z) : Z :=
  let max_len := Z.min kMaxMatch (slen - pos) in
  match_loop (Z.to_nat max_len) source prev_pos pos 0.

(** The last position with each hash; -1 when there is none. *)
Abbreviation HashTable := (gmap Z Z).
Definition last_pos (t : HashTable) (h : Z) : Z := default (-1) (t !! h).

(** The loop that enters the positions a match skips; [n] is [mlen - k]. *)
Fixpoint skip_loop (n : nat) (source : list Z) (slen pos k : Z) (t : HashTable) : HashTable :=
  match n with
  | O => t
  | S n' => if pos + k + kMinMatch <=? slen
            then skip_loop n' source slen pos (k + 1) (<[hash3 source (pos + k) := pos + k]> t)
            else t
  end.

(** One item: whether it is a match, its bytes, and the position and table behind it. *)
Definition emit_item (source : list Z) (slen pos : Z) (t : HashTable) : bool * list Z * Z * HashTable :=
  let literal t := (false, [at_pos source pos], pos + 1, t) in
  if pos + kMinMatch <=? slen then
    let h := hash3 source pos in
    let prev := last_pos t h in
    let t := <[h := pos]> t in
    if (0 <=? prev) && (pos - prev <=? kMaxOffset) then
      let mlen := find_match_len source prev pos slen in
      if kMinMatch <=? mlen then
        let offset := pos - prev - 1 in
        let length_nibble := mlen - kMinMatch in
        let b1 := u8 (Z.lor (Z.shiftl length_nibble 4) (Z.land (Z.shiftr offset 8) 0x0F)) in
        let b2 := u8 (Z.land offset 0xFF) in
        (true, [b1; b2], pos + mlen, skip_loop (Z.to_nat (mlen - 1)) source slen pos 1 t)
      else literal t
    else literal t
  else literal t.

(** A group: [n] is [8 - bit]. *)
Fixpoint fill_group (n : nat) (source : list Z) (slen pos : Z) (t : HashTable) (ctrl : Z) (items : list Z)
  : Z * list Z * Z * HashTable :=
  match n with
  | O => (ctrl, items, pos, t)
  | S n' =>
      if pos <? slen then
        let '(is_match, bytes, pos', t') := emit_item source slen pos t in
        let ctrl' := if is_match then u8 (Z.lor ctrl (Z.shiftl 1 (Z.of_nat n'))) else ctrl in
        fill_group n' source slen pos' t' ctrl' (items ++ bytes)
      else (ctrl, items, pos, t)
  end.

(** The groups from [pos] on; every group takes at least a byte of the source. *)
Fixpoint compress_loop (fuel : nat) (source : list Z) (slen pos : Z) (t : HashTable) (output : list Z) : option (list Z) :=
  match fuel with
  | O => None
  | S fuel' =>
      if pos <? slen then
        let '(ctrl, items, pos', t') := fill_group 8 source slen pos t 0 [] in
        compress_loop fuel' source slen pos' t' (output ++ ctrl :: items)
      else Some output
  end.

(** The compressed bytes; nothing when they are not fewer. *)
Definition pglz_compress (source : list Z) : option (list Z) :=
  let slen := Z.of_nat (length source) in
  output ← compress_loop (S (length source)) source slen 0 ∅ [];
  if slen <=? Z.of_nat (length output) then None else Some output.

(** [dest] is the part of the destination written so far. *)
Fixpoint copy_loop (length : nat) (offset : Z) (dest : list Z) : list Z :=
  match length with
  | O => dest
  | S n => copy_loop n offset (dest ++ [at_pos dest (Z.of_nat (List.length dest) - offset)])
  end.

(** The items of a group, from bit [n - 1] down: the rest of the source and the
    destination, or an error. *)
Fixpoint read_group (n : nat) (ctrl : Z) (src : list Z) (destlen : Z) (dest : list Z) : option (list Z * list Z) :=
  match n with
  | O => Some (src, dest)
  | S n' =>
      let dest_pos := Z.of_nat (length dest) in
      match src with
      | [] => Some (src, dest)
      | b :: src' =>
          if dest_pos <? destlen then
            if Z.testbit ctrl (Z.of_nat n') then
              match src' with
              | [] => None
              | b2 :: src'' =>
                  let length := Z.shiftr b 4 + kMinMatch in
                  let offset := Z.lor (Z.shiftl (Z.land b 0x0F) 8) b2 + 1 in
                  if dest_pos - offset <? 0 then None
                  else if destlen <? dest_pos + length then None
                  else read_group n' ctrl src'' destlen (copy_loop (Z.to_nat length) offset dest)
              end
            else read_group n' ctrl src' destlen (dest ++ [b])
          else Some (src, dest)
      end
  end.

Fixpoint decompress_loop (fuel : nat) (src : list Z) (destlen : Z) (dest : list Z) : option (list Z) :=
  match fuel with
  | O => None
  | S fuel' =>
      match src with
      | [] => Some dest
      | ctrl :: src' =>
          if Z.of_nat (length dest) <? destlen then
            '(src, dest) ← read_group 8 ctrl src' destlen dest;
            decompress_loop fuel' src destlen dest
          else Some dest
      end
  end.

(** The bytes written, as many as the code returns; nothing for -1. *)
Definition pglz_decompress (source : list Z) (destlen : Z) : option (list Z) :=
  decompress_loop (S (length source)) source destlen [].

(** ** Matches *)

Section source.
Context (source : list Z).
Abbreviation slen := (Z.of_nat (length source)).

Lemma at_pos_lookup pos : 0 ≤ pos < slen → source !! Z.to_nat pos = Some (at_pos source pos).
Proof.
  intros Hp. unfold at_pos. destruct (lookup_lt_is_Some_2 source (Z.to_nat pos)) as [x Hx]; [lia|]. by rewrite Hx.
Qed.

Lemma match_loop_spec room prev pos : ∀ len,
  len ≤ match_loop room source prev pos len ≤ len + Z.of_nat room ∧
  ∀ k, len ≤ k < match_loop room source prev pos len → at_pos source (prev + k) = at_pos source (pos + k).
Proof.
  induction room as [|room IH]; intros len; cbn [match_loop]; [split; lia|].
  destruct (_ =? _) eqn:E; to_prop; [|split; lia]. destruct (IH (len + 1)) as [H1 H2]. split; [lia|].
  intros k Hk. destruct (decide (k = len)) as [->|]; [done|]. apply H2. lia.
Qed.

Lemma find_match_spec prev pos :
  0 ≤ pos ≤ slen → let m := find_match_len source prev pos slen in
  0 ≤ m ≤ kMaxMatch ∧ pos + m ≤ slen ∧ ∀ k, 0 ≤ k < m → at_pos source (prev + k) = at_pos source (pos + k).
Proof.
  intros Hp m. destruct (match_loop_spec (Z.to_nat (Z.min kMaxMatch (slen - pos))) prev pos 0) as [H1 H2].
  fold (find_match_len source prev pos slen) in H1, H2. fold m in H1, H2. unfold kMaxMatch in *. split_and!; [lia|lia|lia|].
  exact H2.
Qed.

(** ** The hash table holds positions before the current one *)

Definition table_below (t : HashTable) (pos : Z) : Prop := ∀ h, last_pos t h < pos.

Lemma table_insert t pos h p : table_below t pos → p < pos → table_below (<[h := p]> t) pos.
Proof.
  intros Ht Hp h'. unfold last_pos. destruct (decide (h' = h)) as [->|]; [by rewrite lookup_insert_eq|].
  rewrite lookup_insert_ne by done. apply Ht.
Qed.

Lemma table_mono t p q : table_below t p → p ≤ q → table_below t q.
Proof. intros Ht Hpq h. specialize (Ht h). lia. Qed.

Lemma skip_below n sl pos k t q :
  table_below t q → pos + k + Z.of_nat n ≤ q → table_below (skip_loop n source sl pos k t) q.
Proof.
  revert k t. induction n as [|n IH]; intros k t Ht Hq; cbn [skip_loop]; [done|]. case_match; [|done].
  apply IH; [apply table_insert; [done|lia]|lia].
Qed.

(** ** Items *)

(** Copying a match of the source extends a prefix of the source. *)
Lemma copy_match n prev pos :
  0 ≤ prev < pos → pos + Z.of_nat n ≤ slen →
  (∀ k, 0 ≤ k < Z.of_nat n → at_pos source (prev + k) = at_pos source (pos + k)) →
  copy_loop n (pos - prev) (take (Z.to_nat pos) source) = take (Z.to_nat (pos + Z.of_nat n)) source.
Proof.
  revert prev pos. induction n as [|n IH]; intros prev pos Hp Hl Heq; cbn [copy_loop]; [by rewrite Z.add_0_r|].
  assert (Hlen : Z.of_nat (length (take (Z.to_nat pos) source)) = pos) by (rewrite length_take; lia).
  rewrite Hlen. replace (pos - (pos - prev)) with prev by lia.
  assert (Hat : at_pos (take (Z.to_nat pos) source) prev = at_pos source pos).
  { unfold at_pos at 1. rewrite lookup_take_lt by lia. specialize (Heq 0 ltac:(lia)). by rewrite !Z.add_0_r in Heq. }
  rewrite Hat. assert (Hsn : take (Z.to_nat pos) source ++ [at_pos source pos] = take (Z.to_nat (pos + 1)) source).
  { replace (Z.to_nat (pos + 1)) with (S (Z.to_nat pos)) by lia. symmetry. apply take_S_r, at_pos_lookup. lia. }
  rewrite Hsn. replace (pos - prev) with (pos + 1 - (prev + 1)) by lia. rewrite (IH (prev + 1) (pos + 1)); [f_equal; lia|lia|lia|].
  intros k Hk. replace (prev + 1 + k) with (prev + (k + 1)) by lia. replace (pos + 1 + k) with (pos + (k + 1)) by lia.
  apply Heq. lia.
Qed.

(** The two bytes of a match. *)
Lemma match_bytes nib off :
  0 ≤ nib < 16 → 0 ≤ off < 4096 →
  let b1 := u8 (Z.lor (Z.shiftl nib 4) (Z.land (Z.shiftr off 8) 0x0F)) in
  let b2 := u8 (Z.land off 0xFF) in
  Z.shiftr b1 4 = nib ∧ Z.lor (Z.shiftl (Z.land b1 0x0F) 8) b2 = off.
Proof.
  intros Hn Ho b1 b2. pose proof (Z.div_mod off 256). pose proof (Z.mod_pos_bound off 256).
  assert (Hb2 : b2 = off `mod` 256).
  { unfold b2, u8. change 255 with (Z.ones 8). rewrite Z.land_ones by lia. apply Z.mod_mod. lia. }
  assert (Hb1 : b1 = nib * 16 + off / 256).
  { unfold b1. rewrite (Z.shiftr_div_pow2 off) by lia. change 15 with (Z.ones 4). rewrite Z.land_ones by lia.
    change (2 ^ 8) with 256. rewrite (Z.mod_small (off / 256)) by lia. rewrite lor_low by lia.
    apply Z.mod_small. lia. }
  rewrite Hb1, Hb2. split.
  - rewrite Z.shiftr_div_pow2 by lia. symmetry. apply (Z.div_unique _ _ _ (off / 256)); lia.
  - change 15 with (Z.ones 4). rewrite Z.land_ones by lia.
    replace ((nib * 16 + off / 256) `mod` 2 ^ 4) with (off / 256) by (apply (Z.mod_unique _ _ nib); lia).
    rewrite lor_low by lia. lia.
Qed.

(** What an item means to the reader: it is its own bytes, or a pair that
    copies from what was written before. *)
Lemma read_item n ctrl pos t is_match bytes pos' t' rest :
  0 ≤ pos < slen → table_below t pos → emit_item source slen pos t = (is_match, bytes, pos', t') →
  Z.testbit ctrl (Z.of_nat n) = is_match →
  pos < pos' ≤ slen ∧ table_below t' pos' ∧ bytes ≠ [] ∧
  read_group (S n) ctrl (bytes ++ rest) slen (take (Z.to_nat pos) source) =
  read_group n ctrl rest slen (take (Z.to_nat pos') source).
Proof.
  intros Hp Ht He Hbit.
  assert (Hlen : Z.of_nat (length (take (Z.to_nat pos) source)) = pos) by (rewrite length_take; lia).
  assert (Hlit : ∀ t1, table_below t1 (pos + 1) → (false, [at_pos source pos], pos + 1, t1) = (is_match, bytes, pos', t') →
    pos < pos' ≤ slen ∧ table_below t' pos' ∧ bytes ≠ [] ∧
    read_group (S n) ctrl (bytes ++ rest) slen (take (Z.to_nat pos) source) =
    read_group n ctrl rest slen (take (Z.to_nat pos') source)).
  { intros t1 Ht1 [= <- <- <- <-]. split; [lia|]. split; [done|]. split; [done|]. cbn [read_group app].
    rewrite Hlen, (proj2 (Z.ltb_lt _ _)), Hbit by lia. f_equal.
    replace (Z.to_nat (pos + 1)) with (S (Z.to_nat pos)) by lia. symmetry. apply take_S_r, at_pos_lookup. lia. }
  assert (Hins : ∀ h, table_below (<[h := pos]> t) (pos + 1)).
  { intros h. apply table_insert; [|lia]. eapply table_mono; [done|lia]. }
  unfold emit_item in He. destruct (pos + kMinMatch <=? slen) eqn:E1; to_prop.
  2: { apply (Hlit t); [|done]. eapply table_mono; [done|lia]. }
  destruct (_ && _) eqn:E2; [|exact (Hlit _ (Hins _) He)].
  destruct (kMinMatch <=? find_match_len source (last_pos t (hash3 source pos)) pos slen) eqn:E3; [|exact (Hlit _ (Hins _) He)].
  clear Hlit. to_prop. set (prev := last_pos t (hash3 source pos)) in *.
  pose proof (Ht (hash3 source pos)) as Hprev. fold prev in Hprev.
  destruct (find_match_spec prev pos ltac:(lia)) as (Hm1 & Hm2 & Hm3).
  set (m := find_match_len source prev pos slen) in *. unfold kMinMatch, kMaxMatch, kMaxOffset in *.
  injection He as <- <- <- <-.
  destruct (match_bytes (m - 3) (pos - prev - 1)) as [Hb1 Hb2]; [lia..|].
  split; [lia|]. split; [|split; [done|]].
  { apply skip_below; [|lia]. apply table_insert; [|lia]. eapply table_mono; [done|lia]. }
  cbn [read_group app]. rewrite Hlen, (proj2 (Z.ltb_lt pos slen)), Hbit by lia.
  rewrite Hb1, Hb2. unfold kMinMatch. rewrite (proj2 (Z.ltb_ge _ 0)), (proj2 (Z.ltb_ge slen _)) by lia. f_equal.
  replace (m - 3 + 3) with m by lia. replace (pos - prev - 1 + 1) with (pos - prev) by lia.
  rewrite copy_match; [f_equal; lia|lia|lia|]. intros k Hk. apply Hm3. lia.
Qed.

(** ** Groups *)

Definition low_clear (n : nat) (ctrl : Z) : Prop := ∀ k, 0 ≤ k < Z.of_nat n → Z.testbit ctrl k = false.

Lemma group_bit ctrl n k :
  (n < 8)%nat → 0 ≤ k < 8 →
  Z.testbit (u8 (Z.lor ctrl (Z.shiftl 1 (Z.of_nat n)))) k = Z.testbit ctrl k || (k =? Z.of_nat n).
Proof.
  intros Hn Hk. unfold u8. rewrite Z.mod_pow2_bits_low, Z.lor_spec by lia. f_equal.
  rewrite Z.shiftl_1_l. rewrite Z.pow2_bits_eqb by lia. apply Z.eqb_sym.
Qed.

Lemma read_full n ctrl src dest : slen ≤ Z.of_nat (length dest) → read_group n ctrl src slen dest = Some (src, dest).
Proof. intros Hd. destruct n; [done|]. cbn. destruct src; [done|]. by rewrite (proj2 (Z.ltb_ge _ _)). Qed.

Lemma fill_group_read n : ∀ pos t ctrl items ctrl' items' pos' t',
  (n ≤ 8)%nat → 0 ≤ pos ≤ slen → table_below t pos → low_clear n ctrl →
  fill_group n source slen pos t ctrl items = (ctrl', items', pos', t') →
  ∃ new, items' = items ++ new ∧ pos ≤ pos' ≤ slen ∧ ((0 < n)%nat → pos < slen → pos < pos' ∧ new ≠ []) ∧ table_below t' pos' ∧
    (∀ k, Z.of_nat n ≤ k < 8 → Z.testbit ctrl' k = Z.testbit ctrl k) ∧
    ∀ rest, read_group n ctrl' (new ++ rest) slen (take (Z.to_nat pos) source) = Some (rest, take (Z.to_nat pos') source).
Proof.
  induction n as [|n IH]; intros pos t ctrl items ctrl' items' pos' t' Hn Hp Ht Hc Hf; cbn [fill_group] in Hf.
  { injection Hf as <- <- <- <-. exists []. rewrite app_nil_r. split_and!; try done; try lia. }
  destruct (pos <? slen) eqn:E; to_prop.
  2: { injection Hf as <- <- <- <-. exists []. rewrite app_nil_r. split_and!; try done; try lia. intros rest.
       apply read_full. rewrite length_take. lia. }
  destruct (emit_item source slen pos t) as [[[is_match bytes] p1] t1] eqn:Eit.
  set (c1 := if is_match then _ else ctrl) in Hf.
  assert (Hc1 : ∀ k, 0 ≤ k < 8 → Z.testbit c1 k = Z.testbit ctrl k || (is_match && (k =? Z.of_nat n))).
  { intros k Hk. unfold c1. destruct is_match; cbn [andb]; [apply group_bit; lia|by rewrite orb_false_r]. }
  destruct (read_item n c1 pos t is_match bytes p1 t1 [] ltac:(lia) Ht Eit) as (Hp1 & Ht1 & Hne & _).
  { rewrite Hc1 by lia. rewrite (Hc (Z.of_nat n)) by lia. cbn [orb]. rewrite Z.eqb_refl. apply andb_true_r. }
  destruct (IH p1 t1 c1 (items ++ bytes) ctrl' items' pos' t') as (new & Hi & Hp' & _ & Ht' & Hhi & Hrd); [lia|lia|done| |done|].
  { intros k Hk. rewrite Hc1, Hc by lia. cbn [orb]. rewrite (proj2 (Z.eqb_neq k (Z.of_nat n))) by lia. apply andb_false_r. }
  exists (bytes ++ new). split; [by rewrite Hi, app_assoc|]. split; [lia|]. split.
  { intros _ _. split; [lia|]. by destruct bytes. }
  split; [done|]. split.
  { intros k Hk. rewrite Hhi, Hc1 by lia. rewrite (proj2 (Z.eqb_neq k (Z.of_nat n))) by lia. by rewrite andb_false_r, orb_false_r. }
  intros rest. rewrite <- app_assoc.
  destruct (read_item n ctrl' pos t is_match bytes p1 t1 (new ++ rest) ltac:(lia) Ht Eit) as (_ & _ & _ & ->); [|apply Hrd].
  rewrite Hhi, Hc1 by lia. rewrite (Hc (Z.of_nat n)) by lia. cbn [orb]. rewrite Z.eqb_refl. apply andb_true_r.
Qed.

(** ** Roundtrip *)

Lemma compress_decompress fuel : ∀ pos t output c,
  0 ≤ pos ≤ slen → table_below t pos → compress_loop fuel source slen pos t output = Some c →
  ∃ new, c = output ++ new ∧
    ∀ fuel', (length new < fuel')%nat → decompress_loop fuel' new slen (take (Z.to_nat pos) source) = Some source.
Proof.
  induction fuel as [|fuel IH]; intros pos t output c Hp Ht Hc; [done|]. cbn [compress_loop] in Hc.
  destruct (pos <? slen) eqn:E; to_prop.
  2: { injection Hc as <-. exists []. rewrite app_nil_r. split; [done|]. intros [|f] Hf; [cbn in Hf; lia|].
       cbn. f_equal. apply take_ge. lia. }
  destruct (fill_group 8 source slen pos t 0 []) as [[[ctrl items] p1] t1] eqn:Eg.
  destruct (fill_group_read 8 pos t 0 [] ctrl items p1 t1) as (new & Hi & Hp1 & Hne & Ht1 & _ & Hrd); try done.
  { intros k _. apply Z.testbit_0_l. }
  cbn [app] in Hi. subst items. destruct (IH p1 t1 _ c ltac:(lia) Ht1 Hc) as (more & Hmore & Hdec).
  exists (ctrl :: new ++ more). split; [rewrite Hmore, <- app_assoc; done|].
  intros [|f] Hf; [lia|]. cbn [length] in Hf. rewrite length_app in Hf. cbn [decompress_loop].
  rewrite (proj2 (Z.ltb_lt _ _)) by (rewrite length_take; lia). rewrite Hrd. cbn [mbind option_bind].
  apply Hdec. lia.
Qed.

Lemma compress_loop_total fuel : ∀ pos t output,
  0 ≤ pos ≤ slen → table_below t pos → slen - pos < Z.of_nat fuel → is_Some (compress_loop fuel source slen pos t output).
Proof.
  induction fuel as [|fuel IH]; intros pos t output Hp Ht Hf; [lia|]. cbn [compress_loop].
  destruct (pos <? slen) eqn:E; to_prop; [|done].
  destruct (fill_group 8 source slen pos t 0 []) as [[[ctrl items] p1] t1] eqn:Eg.
  destruct (fill_group_read 8 pos t 0 [] ctrl items p1 t1) as (new & _ & Hp1 & Hne & Ht1 & _); try done.
  { intros k _. apply Z.testbit_0_l. }
  destruct Hne as [Hlt _]; [lia|lia|]. apply IH; [lia|done|lia].
Qed.

End source.

Lemma table_empty : table_below ∅ 0.
Proof. intros h. unfold last_pos. rewrite lookup_empty. cbn. lia. Qed.

Lemma compress_roundtrip source c :
  pglz_compress source = Some c → pglz_decompress c (Z.of_nat (length source)) = Some source.
Proof.
  unfold pglz_compress. intros H. apply bind_Some in H as (output & Hc & H). case_match; [done|]. injection H as <-.
  destruct (compress_decompress source _ 0 ∅ [] output ltac:(lia) table_empty Hc) as (new & -> & Hd).
  unfold pglz_decompress. apply (Hd (S (length new))). cbn. lia.
Qed.

Lemma compress_shorter source c : pglz_compress source = Some c → (length c < length source)%nat.
Proof. unfold pglz_compress. intros H. apply bind_Some in H as (output & _ & H). case_match eqn:E; [done|]. injection H as <-. to_prop. lia. Qed.

(** C16: compression is lossless.  Whatever bytes are compressed, the
    compressor ends; when it reports success its output is shorter than the
    source, and decompressing it into a buffer of the source's length restores
    the source. *)
Theorem pglz_roundtrip source :
  is_Some (compress_loop (S (length source)) source (Z.of_nat (length source)) 0 ∅ []) ∧
  ∀ c, pglz_compress source = Some c →
    (length c < length source)%nat ∧ pglz_decompress c (Z.of_nat (length source)) = Some source.
Proof.
  split; [apply compress_loop_total; [lia|apply table_empty|lia]|]. intros c Hc.
  split; [by apply compress_shorter|by apply compress_roundtrip].
Qed.

(** ** Any input *)

Lemma length_copy n off dest : length (copy_loop n off dest) = (length dest + n)%nat.
Proof. revert dest. induction n as [|n IH]; intros dest; cbn [copy_loop]; [lia|]. rewrite IH, length_app. cbn. lia. Qed.

Lemma read_group_bound n ctrl destlen : ∀ src dest src' dest',
  Forall is_u8 src → Z.of_nat (length dest) ≤ destlen → read_group n ctrl src destlen dest = Some (src', dest') →
  Z.of_nat (length dest') ≤ destlen ∧ (length src' ≤ length src)%nat ∧ Forall is_u8 src' ∧ dest `prefix_of` dest'.
Proof.
  induction n as [|n IH]; intros src dest src' dest' Hu Hd Hr; cbn [read_group] in Hr; [by injection Hr as <- <-|].
  destruct src as [|b src]; [by injection Hr as <- <-|]. inversion Hu as [|?? Hb Hu1]; subst.
  destruct (_ <? destlen) eqn:E; to_prop; [|by injection Hr as <- <-].
  destruct (Z.testbit ctrl (Z.of_nat n)).
  - destruct src as [|b2 src]; [done|]. inversion Hu1 as [|?? Hb2 Hu2]; subst.
    destruct (_ <? 0); [done|]. destruct (destlen <? _) eqn:E2; to_prop; [done|].
    assert (0 ≤ Z.shiftr b 4) by (apply Z.shiftr_nonneg; apply Hb). unfold kMinMatch in *.
    apply IH in Hr as (H1 & H2 & H3 & H4); [|done|rewrite length_copy; lia]. split_and!; [done|cbn; lia|done|].
    etrans; [|exact H4]. generalize (Z.to_nat (Z.shiftr b 4 + 3)). intros m. clear. revert dest.
    induction m as [|m IH]; intros dest; cbn [copy_loop]; [done|]. etrans; [|apply IH]. by eexists.
  - apply IH in Hr as (H1 & H2 & H3 & H4); [|done|rewrite length_app; cbn; lia].
    split_and!; [done|cbn; lia|done|]. etrans; [|exact H4]. by eexists.
Qed.

Lemma decompress_total destlen fuel : ∀ src dest,
  Forall is_u8 src → Z.of_nat (length dest) ≤ destlen → (length src < fuel)%nat →
  ∃ r, decompress_loop fuel src destlen dest = r ∧ (∀ dest', r = Some dest' → Z.of_nat (length dest') ≤ destlen) ∧
    (∀ more, decompress_loop (fuel + more) src destlen dest = r).
Proof.
  induction fuel as [|fuel IH]; intros src dest Hu Hd Hf; [lia|]. eexists. split; [done|].
  cbn [decompress_loop Nat.add]. destruct src as [|ctrl src]; [split; [by intros ? [= <-]|done]|].
  inversion Hu as [|?? _ Hu1]; subst. destruct (_ <? destlen); [|split; [by intros ? [= <-]|done]].
  destruct (read_group 8 ctrl src destlen dest) as [[src' dest']|] eqn:E; cbn [mbind option_bind]; [|done].
  destruct (read_group_bound 8 ctrl destlen _ _ _ _ Hu1 Hd E) as (H1 & H2 & H3 & _). cbn in Hf.
  destruct (IH src' dest' H3 H1 ltac:(lia)) as (r & Hr & Hb & Hm). rewrite Hr. split; [done|exact Hm].
Qed.

(** decompression is safe on any input.  Whatever bytes are decompressed,
    corrupt ones included, the loop ends and no more bytes are written than
    the destination holds; a match that points before the destination is an
    error. *)
Theorem pglz_decompress_bounded src destlen :
  Forall is_u8 src → 0 ≤ destlen →
  (∀ dest, pglz_decompress src destlen = Some dest → Z.of_nat (length dest) ≤ destlen) ∧
  (∀ more, decompress_loop (S (length src) + more) src destlen [] = pglz_decompress src destlen).
Proof.
  intros Hu Hd. destruct (decompress_total destlen (S (length src)) src [] Hu) as (r & Hr & Hb & Hm); [cbn; lia|lia|].
  unfold pglz_decompress. rewrite Hr. by split.
Qed.

Lemma pglz_decompress_bounded_witness :
  pglz_decompress [64; 1; 2; 3] 5 = None ∧ decompress_loop 9 [0; 1; 2; 3] 5 [] = pglz_decompress [0; 1; 2; 3] 5 ∧
  Z.of_nat (length [1; 2; 3]) ≤ 5.
Proof.
  split; [vm_compute; reflexivity|].
  destruct (pglz_decompress_bounded [0; 1; 2; 3] 5) as [Hlen Hfuel]; [repeat constructor; discriminate|lia|].
  split; [exact (Hfuel 4%nat)|]. apply Hlen. vm_compute. reflexivity.
Defined.

Example pglz_repetition : pglz_compress (concat (replicate 10 [97; 98; 99])) = Some [24; 97; 98; 99; 240; 2; 96; 2].
Proof. vm_compute. reflexivity. Qed.

End Pglz.
