(* ===== verification/Toast.v ===== *)
(** * Out-of-line storage

    The rest of src/access/common/toast.cpp: compressing large values inline,
    cutting them into chunks of a TOAST table, putting them together again,
    and deleting the chunks.

    A TOAST table is a heap relation of rows (chunk_id, chunk_seq,
    chunk_data).  [ToastStore] lists what the code asks of the catalog and the
    heap for it: allocating object ids, finding and creating the table,
    inserting, scanning and deleting rows.  [ToastStoreLaws] is what it relies
    on. *)

From stdpp Require Import base gmap list sorting strings.
From S2P Require Import Prelude HeapTuple HeapForm Heap Pglz.

Module Toast.
Import Heap HeapTuple HeapForm Pglz.

Definition kToastThreshold : Z := 2000.
Definition kToastMaxChunkSize : Z := 1996.
Definition kInvalidOid : Z := 0.

(** ** Varlena values *)

Definition SET_VARSIZE_4B (total_size : Z) : list Z := to_le 4 (Z.land total_size kVarAttSizeMask).
Definition SET_VARSIZE_COMPRESSED (total_size : Z) : list Z :=
  to_le 4 (Z.lor (Z.land total_size kVarAttSizeMask) kVarAttCompressed).
Definition VARDATA_4B (text : list Z) : list Z := drop 4 text.
Definition VARDATA_COMPRESSED (text : list Z) : list Z := drop 8 text.
Definition VARSIZE_COMPRESSED_DATA (text : list Z) : Z := u32 (VARSIZE_ANY text - 4 - 4).
Definition VARATT_RAW_SIZE (text : list Z) : Z := i32 (of_le (take 4 (drop 4 text))).

(** A value with a four-byte header. *)
Definition varlena (data : list Z) : list Z := SET_VARSIZE_4B (4 + Z.of_nat (length data)) ++ data.

Record varatt_external := mkExternal { va_rawsize : Z; va_valueid : Z; va_toastrelid : Z }.
Definition external_bytes (e : varatt_external) : list Z :=
  to_le 4 kVarAttExternal ++ to_le 4 (va_rawsize e) ++ to_le 4 (va_valueid e) ++ to_le 4 (va_toastrelid e).
Definition VARDATA_EXTERNAL (text : list Z) : varatt_external :=
  mkExternal (i32 (of_le (take 4 (drop 4 text)))) (of_le (take 4 (drop 8 text))) (of_le (take 4 (drop 12 text))).

(** ** The store *)

(** The columns chunk_id, chunk_seq and chunk_data of a row. *)
Abbreviation chunk_row := (Z * Z * list Z)%type.

Class ToastStore (S : Type) := {
  AllocateOid : M S Z;
  reltoastrelid : RelationData → S → Z;
  create_toast_table : RelationData → M S Z;
  insert_chunk : Z → chunk_row → M S unit;
  scan_chunks : Z → M S (list (ItemPointerData * chunk_row));
  delete_chunk : Z → ItemPointerData → M S unit;
  end_command : M S unit;
}.

Section toast.
Context {S : Type} `{ToastStore S}.

Definition toast_get_or_create_table (relation : RelationData) : M S Z :=
  match rd_rel relation with
  | None => mret kInvalidOid
  | Some c =>
      if decide (relkind c = kToastValue) then mret kInvalidOid
      else
        toast_relid ← gets (reltoastrelid relation);
        if negb (toast_relid =? kInvalidOid) then mret toast_relid
        else
          let has_varlena := match rd_att relation with
                             | Some desc => existsb (λ a, attlen a =? -1) (attrs desc)
                             | None => false
                             end in
          if negb has_varlena then mret kInvalidOid else create_toast_table relation
  end.

(** The loop over the chunks from [offset] on. *)
Fixpoint save_chunks (fuel : nat) (toast_relid chunk_id chunk_seq : Z) (rest : list Z) : M S unit :=
  match fuel with
  | O => ereport "out of fuel"
  | Datatypes.S fuel' =>
      match rest with
      | [] => mret tt
      | _ =>
          let chunk_len := Z.min kToastMaxChunkSize (Z.of_nat (length rest)) in
          insert_chunk toast_relid (chunk_id, chunk_seq, varlena (take (Z.to_nat chunk_len) rest));;
          save_chunks fuel' toast_relid chunk_id (chunk_seq + 1) (drop (Z.to_nat chunk_len) rest)
      end
  end.

Definition toast_save_datum (relation : RelationData) (data : list Z) (compress : bool) : M S (list Z) :=
  toast_relid ← toast_get_or_create_table relation;
  if toast_relid =? kInvalidOid then ereport "toast_save_datum: no TOAST table available"
  else
    chunk_id ← AllocateOid;
    let data_len := Z.of_nat (length data) in
    let compressed := if compress && (32 <? data_len) then pglz_compress data else None in
    let stored_data := default data compressed in
    save_chunks (Datatypes.S (length stored_data)) toast_relid chunk_id 0 stored_data;;
    end_command;;
    mret (external_bytes (mkExternal (if compressed is Some _ then data_len else - data_len) chunk_id toast_relid)).

(** The sequence number and the data of a row. *)
Definition chunk_data (row : chunk_row) : Z * list Z :=
  let text := row.2 in
  (i32 row.1.2, take (Z.to_nat (VARSIZE_ANY text - 4)) (drop 4 text)).

Definition toast_get_datum (text : list Z) : M S (list Z) :=
  let ext := VARDATA_EXTERNAL text in
  let is_compressed := 0 <? va_rawsize ext in
  let original_len := if is_compressed then va_rawsize ext else - va_rawsize ext in
  rows ← scan_chunks (va_toastrelid ext);
  let chunks := (λ r, chunk_data r.2) <$> base.filter (λ r : ItemPointerData * chunk_row, r.2.1.1 = va_valueid ext) rows in
  let stored_data := concat ((merge_sort key_le chunks).*2) in
  if is_compressed then
    match pglz_decompress stored_data original_len with
    | Some result_data =>
        if Z.of_nat (length result_data) =? original_len then mret (varlena result_data)
        else ereport "toast_get_datum: decompression failed"
    | None => ereport "toast_get_datum: decompression failed"
    end
  else mret (varlena stored_data).

Fixpoint delete_chunks (toast_relid value_id : Z) (rows : list (ItemPointerData * chunk_row)) : M S unit :=
  match rows with
  | [] => mret tt
  | (tid, row) :: rows' =>
      (if decide (row.1.1 = value_id) then delete_chunk toast_relid tid else mret tt);;
      delete_chunks toast_relid value_id rows'
  end.

(** The scan caches the rows of a page before they are deleted. *)
Definition toast_delete_datum (text : list Z) : M S unit :=
  if negb (VARATT_IS_EXTERNAL text) then mret tt
  else
    let ext := VARDATA_EXTERNAL text in
    rows ← scan_chunks (va_toastrelid ext);
    delete_chunks (va_toastrelid ext) (va_valueid ext) rows;;
    end_command.

(** A compressed value with its raw size. *)
Definition inline_compressed (data_len : Z) (compressed : list Z) : list Z :=
  SET_VARSIZE_COMPRESSED (8 + Z.of_nat (length compressed)) ++ to_le 4 data_len ++ compressed.

(** What becomes of one value. *)
Definition toast_value (relation : RelationData) (attr : Attr) (text : list Z) : M S (list Z) :=
  let storage := attstorage attr in
  if decide (attlen attr ≠ -1) then mret text
  else if decide (storage = kPlain) then mret text
  else
    let data_len := VARSIZE_ANY text - 4 in
    if data_len <=? kToastThreshold then mret text
    else
      let data := take (Z.to_nat data_len) (VARDATA_4B text) in
      let external :=
        if decide (storage = kExtended ∨ storage = kExternal)
        then toast_save_datum relation data (bool_decide (storage = kExtended)) else mret text in
      if decide (storage = kExtended ∨ storage = kMain) then
        match pglz_compress data with
        | Some compressed =>
            let comp_varlena_size := 4 + 4 + Z.of_nat (length compressed) in
            if comp_varlena_size <=? kToastThreshold then mret (inline_compressed data_len compressed)
            else toast_save_datum relation compressed false
        | None => external
        end
      else external.

Fixpoint toast_values (relation : RelationData) (cols : list column) : M S (list Datum) :=
  match cols with
  | [] => mret []
  | (attr, v, null) :: cols' =>
      v' ← (match v with
            | DRef text => if (null : bool) then mret v else text' ← toast_value relation attr text; mret (DRef text')
            | DVal _ => mret v
            end);
      rest ← toast_values relation cols';
      mret (v' :: rest)
  end.

Definition toast_insert_or_update (relation : RelationData) (values : list Datum) (isnull : list bool) (tupdesc : TupleDescData)
  : M S (list Datum) :=
  match rd_rel relation with
  | None => mret values
  | Some c => if decide (relkind c = kToastValue) then mret values
              else toast_values relation (columns tupdesc values (Some isnull))
  end.

Definition detoast_attr (text : list Z) : M S (list Z) :=
  if VARATT_IS_EXTERNAL text then toast_get_datum text
  else if VARATT_IS_COMPRESSED text then
    let raw_size := VARATT_RAW_SIZE text in
    let comp_data := take (Z.to_nat (VARSIZE_COMPRESSED_DATA text)) (VARDATA_COMPRESSED text) in
    match pglz_decompress comp_data raw_size with
    | Some dest => if Z.of_nat (length dest) =? raw_size then mret (varlena dest)
                   else ereport "detoast_attr: decompression failed"
    | None => ereport "detoast_attr: decompression failed"
    end
  else mret text.

Fixpoint delete_columns (cols : list column) : M S unit :=
  match cols with
  | [] => mret tt
  | (attr, v, null) :: cols' =>
      match v with
      | DRef text => if negb null && (attlen attr =? -1) && VARATT_IS_EXTERNAL text then toast_delete_datum text else mret tt
      | DVal _ => mret tt
      end;;
      delete_columns cols'
  end.

Definition toast_delete_tuple (relation : RelationData) (values : list Datum) (isnull : list bool) (tupdesc : TupleDescData)
  : M S unit :=
  match rd_rel relation with
  | None => mret tt
  | Some c => if decide (relkind c = kToastValue) then mret tt
              else delete_columns (columns tupdesc values (Some isnull))
  end.

End toast.

(** ** What the code relies on *)

(** [supply] is the number of object ids left. *)
Class ToastStoreLaws (S : Type) `{ToastStore S} := {
  ready : S → Prop;
  supply : S → Z;
  chunks : S → Z → list chunk_row;
  (** The object ids given out before. *)
  issued : S → Z → Prop;
  alloc_law s : ready s → 0 < supply s →
    ∃ oid s', AllocateOid s = (Ret oid, s') ∧ ready s' ∧ is_u32 oid ∧ (∀ t, chunks s' t = chunks s t) ∧
      (∀ t row, row ∈ chunks s t → row.1.1 ≠ oid) ∧
      ¬ issued s oid ∧ issued s' oid ∧ (∀ x, issued s x → issued s' x) ∧ supply s' = supply s - 1;
  create_law r s : ready s → 0 < supply s →
    ∃ oid s', create_toast_table r s = (Ret oid, s') ∧ ready s' ∧ is_u32 oid ∧ oid ≠ kInvalidOid ∧
      (∀ t, chunks s' t = chunks s t) ∧ (∀ x, issued s x → issued s' x) ∧ supply s' = supply s - 1;
  insert_law t row s : ready s →
    ∃ s', insert_chunk t row s = (Ret tt, s') ∧ ready s' ∧ chunks s' t = chunks s t ++ [row] ∧
      (∀ t', t' ≠ t → chunks s' t' = chunks s t') ∧
      (∀ x, issued s x → issued s' x) ∧ (issued s row.1.1 → supply s' = supply s);
  scan_law t s : ready s →
    ∃ rows s', scan_chunks t s = (Ret rows, s') ∧ ready s' ∧ rows.*2 ≡ₚ chunks s t ∧ (∀ t', chunks s' t' = chunks s t');
  command_law s : ready s → ∃ s', end_command s = (Ret tt, s') ∧ ready s' ∧ (∀ t, chunks s' t = chunks s t) ∧
      (∀ x, issued s x → issued s' x) ∧ supply s' = supply s;
  relid_law r s : ready s → is_u32 (reltoastrelid r s);
}.

(** ** Headers *)

Lemma take_le4 z l : take 4 (to_le 4 z ++ l) = to_le 4 z.
Proof. done. Qed.
Lemma drop_le4 z l : drop 4 (to_le 4 z ++ l) = l.
Proof. done. Qed.

Lemma of_le4 z : of_le (to_le 4 z) = u32 z.
Proof. by rewrite of_to_le. Qed.

Lemma header_flag z k : 0 ≤ k < 32 → has_flag (of_le (to_le 4 z)) (2 ^ k) = Z.testbit z k.
Proof. intros Hk. rewrite of_le4, has_flag_bit by lia. unfold u32. by rewrite Z.mod_pow2_bits_low by lia. Qed.

Lemma header_size z : Z.land (of_le (to_le 4 z)) kVarAttSizeMask = z `mod` 2 ^ 30.
Proof.
  change kVarAttSizeMask with (Z.ones 30). rewrite of_le4, Z.land_ones by lia. unfold u32.
  change (2 ^ 32) with (2 ^ 30 * 2 ^ 2). rewrite Z.rem_mul_r, (Z.mul_comm (2 ^ 30)), Z_mod_plus_full by lia. apply Z.mod_mod. lia.
Qed.

Lemma mask_bits n k : 30 ≤ k → Z.testbit (Z.land n kVarAttSizeMask) k = false.
Proof.
  intros Hk. change kVarAttSizeMask with (Z.ones 30). rewrite Z.land_spec, Z.ones_spec_high by lia. apply andb_false_r.
Qed.

Lemma mask_small n : 0 ≤ n < 2 ^ 30 → Z.land n kVarAttSizeMask = n.
Proof. intros Hn. change kVarAttSizeMask with (Z.ones 30). rewrite Z.land_ones by lia. by apply Z.mod_small. Qed.

Lemma varlena_plain data :
  Z.of_nat (length data) + 4 < 2 ^ 30 →
  VARATT_IS_EXTERNAL (varlena data) = false ∧ VARATT_IS_COMPRESSED (varlena data) = false ∧
  VARSIZE_ANY (varlena data) = 4 + Z.of_nat (length data) ∧ VARDATA_4B (varlena data) = data.
Proof.
  intros Hl. unfold varlena, SET_VARSIZE_4B. rewrite mask_small by lia.
  assert (He : VARATT_IS_EXTERNAL (to_le 4 (4 + Z.of_nat (length data)) ++ data) = false).
  { unfold VARATT_IS_EXTERNAL, VARATT_HEADER. rewrite take_le4. change kVarAttExternal with (2 ^ 31). rewrite header_flag by lia.
    apply (Z.bounded_iff_bits_nonneg 30); lia. }
  unfold VARATT_IS_COMPRESSED, VARSIZE_ANY. rewrite He. cbn [negb andb]. split_and!; [done| | |done].
  - unfold VARATT_HEADER. rewrite take_le4. change kVarAttCompressed with (2 ^ 30). rewrite header_flag by lia.
    apply (Z.bounded_iff_bits_nonneg 30); lia.
  - unfold VARATT_HEADER. rewrite take_le4, header_size. apply Z.mod_small. lia.
Qed.

Lemma chunk_data_varlena id seq data :
  Z.of_nat (length data) + 4 < 2 ^ 30 → - 2 ^ 31 ≤ seq < 2 ^ 31 → chunk_data (id, seq, varlena data) = (seq, data).
Proof.
  intros Hl Hs. destruct (varlena_plain data Hl) as (_ & _ & Hsz & Hd). unfold chunk_data. cbn [fst snd]. rewrite Hsz.
  unfold VARDATA_4B in Hd. rewrite Hd, i32_small by done. f_equal. apply take_ge. lia.
Qed.

Lemma inline_is_compressed n c :
  Z.of_nat (length c) + 8 < 2 ^ 30 → 0 ≤ n < 2 ^ 31 → let text := inline_compressed n c in
  VARATT_IS_EXTERNAL text = false ∧ VARATT_IS_COMPRESSED text = true ∧ VARSIZE_COMPRESSED_DATA text = Z.of_nat (length c) ∧
  VARATT_RAW_SIZE text = n ∧ VARDATA_COMPRESSED text = c.
Proof.
  intros Hl Hn text. set (h := Z.lor (Z.land (8 + Z.of_nat (length c)) kVarAttSizeMask) kVarAttCompressed).
  assert (Hh : VARATT_HEADER text = of_le (to_le 4 h)) by done.
  assert (He : VARATT_IS_EXTERNAL text = false).
  { unfold VARATT_IS_EXTERNAL. rewrite Hh. change kVarAttExternal with (2 ^ 31). rewrite header_flag by lia.
    unfold h. rewrite Z.lor_spec, mask_bits by lia. done. }
  split_and!; [done| | | |done].
  - unfold VARATT_IS_COMPRESSED. rewrite He, Hh. change kVarAttCompressed with (2 ^ 30). rewrite header_flag by lia.
    unfold h. rewrite Z.lor_spec. change (Z.testbit kVarAttCompressed 30) with true. by rewrite orb_true_r.
  - unfold VARSIZE_COMPRESSED_DATA, VARSIZE_ANY. rewrite He, Hh, header_size. unfold h. rewrite mask_small by lia.
    rewrite <- Z.land_ones by lia. rewrite Z.land_lor_distr_l. change (Z.land kVarAttCompressed (Z.ones 30)) with 0.
    rewrite Z.lor_0_r, Z.land_ones, Z.mod_small by lia. rewrite u32_small by (unfold is_u32; lia). lia.
  - change (VARATT_RAW_SIZE text) with (i32 (of_le (to_le 4 n))). rewrite of_le4, i32_u32. apply i32_small. lia.
Qed.

Lemma external_fields e :
  - 2 ^ 31 ≤ va_rawsize e < 2 ^ 31 → is_u32 (va_valueid e) → is_u32 (va_toastrelid e) →
  VARATT_IS_EXTERNAL (external_bytes e) = true ∧ VARDATA_EXTERNAL (external_bytes e) = e.
Proof.
  intros H1 H2 H3. split; [done|].
  trans (mkExternal (i32 (of_le (to_le 4 (va_rawsize e)))) (of_le (to_le 4 (va_valueid e))) (of_le (to_le 4 (va_toastrelid e)))); [done|].
  rewrite !of_le4, i32_u32, i32_small, !u32_small by done. by destruct e.
Qed.

(** ** Chunks *)

Fixpoint pieces (fuel : nat) (seq : Z) (rest : list Z) : list (Z * list Z) :=
  match fuel with
  | O => []
  | S fuel' =>
      match rest with
      | [] => []
      | _ => let n := Z.to_nat (Z.min kToastMaxChunkSize (Z.of_nat (length rest))) in
             (seq, take n rest) :: pieces fuel' (seq + 1) (drop n rest)
      end
  end.

Lemma chunk_step (rest : list Z) :
  rest ≠ [] → (0 < Z.to_nat (Z.min kToastMaxChunkSize (Z.of_nat (length rest))) ≤ length rest)%nat.
Proof. intros Hr. destruct rest; [done|]. unfold kToastMaxChunkSize. cbn [length]. lia. Qed.

Lemma pieces_concat fuel : ∀ seq rest, (length rest < fuel)%nat → concat (pieces fuel seq rest).*2 = rest.
Proof.
  induction fuel as [|fuel IH]; intros seq rest Hf; [lia|]. cbn [pieces]. destruct rest as [|b tl] eqn:Er; [done|].
  rewrite <- Er in *. pose proof (chunk_step rest ltac:(by rewrite Er)) as Hc. cbn [fmap list_fmap snd concat].
  rewrite IH by (rewrite length_drop; lia). apply take_drop.
Qed.

Lemma pieces_bounds fuel : ∀ seq rest p,
  p ∈ pieces fuel seq rest → seq ≤ p.1 < seq + Z.of_nat (length rest) ∧ (length p.2 ≤ 1996)%nat.
Proof.
  induction fuel as [|fuel IH]; intros seq rest p Hp; [by apply not_elem_of_nil in Hp|]. cbn [pieces] in Hp.
  destruct rest as [|b tl] eqn:Er; [by apply not_elem_of_nil in Hp|]. rewrite <- Er in *.
  pose proof (chunk_step rest ltac:(by rewrite Er)) as Hc. apply elem_of_cons in Hp as [->|Hp].
  - cbn. rewrite length_take. unfold kToastMaxChunkSize in *. lia.
  - apply IH in Hp as [Hp1 Hp2]. rewrite length_drop in Hp1. lia.
Qed.

Lemma pieces_sorted fuel : ∀ seq rest, StronglySorted (λ p q : Z * list Z, p.1 < q.1) (pieces fuel seq rest).
Proof.
  induction fuel as [|fuel IH]; intros seq rest; cbn [pieces]; [constructor|]. destruct rest; [constructor|].
  constructor; [apply IH|]. apply Forall_forall. intros p Hp. apply pieces_bounds in Hp as [Hp _]. cbn. lia.
Qed.

(** Sorting by distinct keys has one result. *)
Lemma sort_strict {A} (l1 l2 : list (Z * A)) :
  StronglySorted key_le l1 → StronglySorted (λ p q : Z * A, p.1 < q.1) l2 → l1 ≡ₚ l2 → l1 = l2.
Proof.
  intros H1 H2. revert l1 H1. induction H2 as [|x l2 H2 IH Hx]; intros l1 H1 Hp; [by apply Permutation_nil_r in Hp|].
  destruct l1 as [|y l1]; [by apply Permutation_nil_l in Hp|]. apply StronglySorted_inv in H1 as [H1 Hy].
  assert (y = x) as ->.
  { assert (Hyx : y ∈ x :: l2) by (rewrite <- Hp; by left). apply elem_of_cons in Hyx as [?|Hyl]; [done|].
    assert (Hxy : x ∈ y :: l1) by (rewrite Hp; by left). apply elem_of_cons in Hxy as [?|Hxl]; [done|].
    rewrite Forall_forall in Hx, Hy. specialize (Hx y Hyl). specialize (Hy x Hxl). unfold key_le in Hy. lia. }
  f_equal. apply IH; [done|]. by apply Permutation_cons_inv in Hp.
Qed.

Lemma merge_sort_pieces l fuel seq rest : l ≡ₚ pieces fuel seq rest → merge_sort key_le l = pieces fuel seq rest.
Proof.
  intros Hp. apply sort_strict; [|apply pieces_sorted|by rewrite merge_sort_Permutation].
  apply StronglySorted_merge_sort; [intros a b c; unfold key_le; lia|intros a b; unfold key_le; lia].
Qed.

(** ** Saving and fetching *)

Section roundtrip.
Context {S : Type} `{ToastStoreLaws S}.
Implicit Types (s : S).

Definition rows_of (id : Z) (l : list (Z * list Z)) : list chunk_row := (λ p, (id, p.1, varlena p.2)) <$> l.

Lemma save_chunks_run t id fuel : ∀ seq rest s,
  ready s → issued s id → (length rest < fuel)%nat →
  ∃ s', save_chunks fuel t id seq rest s = (Ret tt, s') ∧ ready s' ∧ supply s' = supply s ∧ (∀ x, issued s x → issued s' x) ∧
    chunks s' t = chunks s t ++ rows_of id (pieces fuel seq rest) ∧ ∀ t', t' ≠ t → chunks s' t' = chunks s t'.
Proof.
  induction fuel as [|fuel IH]; intros seq rest s Hr Hi Hf; [lia|]. cbn [save_chunks pieces].
  destruct rest as [|b tl] eqn:Er; [exists s; rewrite app_nil_r; done|]. rewrite <- Er in *.
  pose proof (chunk_step rest ltac:(by rewrite Er)) as Hc.
  set (n := Z.to_nat (Z.min kToastMaxChunkSize (Z.of_nat (length rest)))) in *.
  destruct (insert_law t (id, seq, varlena (take n rest)) s Hr) as (s1 & Hrun & Hr1 & Hc1 & Ho1 & Hi1 & Hs1).
  rewrite (bind_ret_run _ _ _ _ _ Hrun).
  destruct (IH (seq + 1) (drop n rest) s1 Hr1) as (s2 & Hs & Hr2 & Hs2 & Hi2 & Hc2 & Ho2); [by apply Hi1|rewrite length_drop; lia|].
  exists s2. split_and!; [done..|by rewrite Hs2, Hs1|auto| |].
  - rewrite Hc2, Hc1, <- app_assoc. done.
  - intros t' Ht'. by rewrite Ho2, Ho1.
Qed.

(** Chunks are only added, under ids that were not given out before. *)
Definition grows (s s' : S) : Prop :=
  (∀ x, issued s x → issued s' x) ∧ ∀ t, ∃ more, chunks s' t = chunks s t ++ more ∧ ∀ row, row ∈ more → ¬ issued s row.1.1.

Lemma store_grows_refl s : grows s s.
Proof. split; [done|]. intros t. exists []. split; [by rewrite app_nil_r|]. by intros row ?%not_elem_of_nil. Qed.
Lemma store_grows_trans s1 s2 s3 : grows s1 s2 → grows s2 s3 → grows s1 s3.
Proof.
  intros [I1 G1] [I2 G2]. split; [auto|]. intros t. destruct (G1 t) as (m1 & E1 & H1), (G2 t) as (m2 & E2 & H2). exists (m1 ++ m2). split; [by rewrite E2, E1, app_assoc|].
  intros row [?|?]%elem_of_app Hi; [by eapply H1|]. by eapply H2, I1.
Qed.

(** The chunks of a value are in the table, whatever else it holds. *)
Definition stored_chunks (e : varatt_external) (stored : list Z) (s : S) : Prop :=
  issued s (va_valueid e) ∧
  ∃ old, chunks s (va_toastrelid e) ≡ₚ old ++ rows_of (va_valueid e) (pieces (Datatypes.S (length stored)) 0 stored) ∧ ∀ row, row ∈ old → row.1.1 ≠ va_valueid e.

Lemma stored_grows e stored s s' : grows s s' → stored_chunks e stored s → stored_chunks e stored s'.
Proof.
  intros [I G] (Hi & old & Hp & Ho). split; [by apply I|]. destruct (G (va_toastrelid e)) as (more & E & Hm). exists (old ++ more). split.
  - rewrite E, Hp, <- !app_assoc. f_equiv. apply Permutation_app_comm.
  - intros row [?|?]%elem_of_app; [by apply Ho|]. intros Heq. eapply Hm; [done|]. by rewrite Heq.
Qed.

(** A relation that can have a TOAST table. *)
Definition toastable (r : RelationData) : Prop :=
  ∃ c d, rd_rel r = Some c ∧ relkind c ≠ kToastValue ∧ rd_att r = Some d ∧ existsb (λ a, attlen a =? -1) (attrs d) = true.

Lemma table_run r s :
  toastable r → ready s → 1 < supply s →
  ∃ t s', toast_get_or_create_table r s = (Ret t, s') ∧ ready s' ∧ is_u32 t ∧ t ≠ kInvalidOid ∧ supply s - 1 ≤ supply s' ∧ grows s s'.
Proof.
  intros (c & d & Hc & Hk & Hd & Hv) Hr Hs. unfold toast_get_or_create_table. rewrite Hc, decide_False by done.
  erewrite bind_ret_run by done. destruct (reltoastrelid r s =? kInvalidOid) eqn:E; to_prop; cbn [negb].
  - rewrite Hd, Hv. cbn [negb]. destruct (create_law r s Hr ltac:(lia)) as (t & s' & Hrun & Hr' & Hu & Hn & Hc' & Hi & Hsup).
    exists t, s'. split_and!; try done; [lia|]. split; [done|]. intros t'. exists []. rewrite Hc', app_nil_r. split; [done|]. by intros row ?%not_elem_of_nil.
  - exists (reltoastrelid r s), s. split_and!; try done; [by apply relid_law|lia|apply store_grows_refl].
Qed.

Lemma save_run r data compress s :
  toastable r → ready s → 1 < supply s → Z.of_nat (length data) < 2 ^ 29 →
  ∃ e s', toast_save_datum r data compress s = (Ret (external_bytes e), s') ∧ ready s' ∧
    let stored := default data (if compress && (32 <? Z.of_nat (length data)) then pglz_compress data else None) in
    va_rawsize e = (if compress && (32 <? Z.of_nat (length data)) then
                      if pglz_compress data is Some _ then Z.of_nat (length data) else - Z.of_nat (length data)
                    else - Z.of_nat (length data)) ∧
    is_u32 (va_valueid e) ∧ is_u32 (va_toastrelid e) ∧
    stored_chunks e stored s' ∧ grows s s' ∧ supply s - 2 ≤ supply s'.
Proof.
  intros Ht Hr Hs Hl. unfold toast_save_datum.
  destruct (table_run r s Ht Hr Hs) as (t & s1 & H1 & Hr1 & Hut & Hnt & Hs1 & G1). rewrite (bind_ret_run _ _ _ _ _ H1).
  rewrite (proj2 (Z.eqb_neq _ _) Hnt). destruct (alloc_law s1 Hr1 ltac:(lia)) as (id & s2 & H2 & Hr2 & Hid & Hc2 & Hfresh & Hnew & Hgiven & Hi2 & Hs2).
  rewrite (bind_ret_run _ _ _ _ _ H2).
  set (compressed := if compress && _ then pglz_compress data else None).
  set (stored := default data compressed).
  destruct (save_chunks_run t id (Datatypes.S (length stored)) 0 stored s2 Hr2) as (s3 & H3 & Hr3 & Hs3 & Hi3 & Hc3 & Ho3); [done|lia|].
  rewrite (bind_ret_run _ _ _ _ _ H3). destruct (command_law s3 Hr3) as (s4 & H4 & Hr4 & Hc4 & Hi4 & Hs4).
  rewrite (bind_ret_run _ _ _ _ _ H4). eexists (mkExternal _ id t), s4. split; [done|]. split; [done|].
  cbn [va_rawsize va_valueid va_toastrelid]. split; [unfold compressed; by destruct (compress && _)|]. split; [done|]. split; [done|].
  split; [split; [by apply Hi4, Hi3|]; exists (chunks s1 t); cbn [va_toastrelid va_valueid]; split; [by rewrite Hc4, Hc3, Hc2|apply Hfresh]|]. split; [|lia].
  apply (store_grows_trans s s1); [done|]. split; [auto|]. intros t'. destruct (decide (t' = t)) as [->|Hne].
  - eexists. split; [by rewrite Hc4, Hc3, Hc2|]. intros row Hrow. apply list_elem_of_fmap in Hrow as (p & -> & _). done.
  - exists []. split; [by rewrite Hc4, Ho3, Hc2, app_nil_r|]. by intros row ?%not_elem_of_nil.
Qed.

(** The chunks of a value, whatever else the table holds. *)
Lemma collect_chunks (rows : list (ItemPointerData * chunk_row)) old id l :
  rows.*2 ≡ₚ old ++ rows_of id l → (∀ row, row ∈ old → row.1.1 ≠ id) →
  (∀ p, p ∈ l → 0 ≤ p.1 < 2 ^ 29 ∧ (length p.2 ≤ 1996)%nat) →
  (λ r, chunk_data r.2) <$> base.filter (λ r : ItemPointerData * chunk_row, r.2.1.1 = id) rows ≡ₚ l.
Proof.
  intros Hp Hold Hb.
  assert (Hf : (λ r, chunk_data r.2) <$> base.filter (λ r : ItemPointerData * chunk_row, r.2.1.1 = id) rows =
               chunk_data <$> base.filter (λ row : chunk_row, row.1.1 = id) rows.*2).
  { clear. induction rows as [|[tid row] rows IH]; [done|]. cbn [fmap list_fmap snd]. rewrite !filter_cons. cbn [snd].
    case_decide; [|done]. cbn [fmap list_fmap snd]. f_equal. exact IH. }
  rewrite Hf, Hp, filter_app.
  assert (base.filter (λ row : chunk_row, row.1.1 = id) old = []) as ->.
  { clear -Hold. induction old as [|row old IH]; [done|]. rewrite filter_cons_False by (apply Hold; by left).
    apply IH. intros; apply Hold; by right. }
  cbn [app]. assert (base.filter (λ row : chunk_row, row.1.1 = id) (rows_of id l) = rows_of id l) as ->.
  { clear. induction l as [|p l IH]; [done|]. unfold rows_of. cbn [fmap list_fmap]. rewrite filter_cons_True by done. by f_equal. }
  unfold rows_of. rewrite <- list_fmap_compose. rewrite <- (list_fmap_id l) at 2.
  apply reflexive_eq. apply list_fmap_ext. intros i p Hi. apply list_elem_of_lookup_2 in Hi. apply Hb in Hi as [H1 H2].
  cbn [compose]. rewrite chunk_data_varlena by lia. by destruct p.
Qed.

Lemma get_run e s stored old :
  ready s → - 2 ^ 31 ≤ va_rawsize e < 2 ^ 31 → is_u32 (va_valueid e) → is_u32 (va_toastrelid e) →
  Z.of_nat (length stored) < 2 ^ 29 →
  chunks s (va_toastrelid e) ≡ₚ old ++ rows_of (va_valueid e) (pieces (Datatypes.S (length stored)) 0 stored) →
  (∀ row, row ∈ old → row.1.1 ≠ va_valueid e) →
  (if 0 <? va_rawsize e then ∃ data, pglz_decompress stored (va_rawsize e) = Some data ∧ Z.of_nat (length data) = va_rawsize e ∧
      ∃ s', toast_get_datum (external_bytes e) s = (Ret (varlena data), s') ∧ ready s'
   else ∃ s', toast_get_datum (external_bytes e) s = (Ret (varlena stored), s') ∧ ready s') ∨
  (0 < va_rawsize e ∧ ∀ data, pglz_decompress stored (va_rawsize e) = Some data → Z.of_nat (length data) ≠ va_rawsize e).
Proof.
  intros Hr He1 He2 He3 Hl Hc Hold. destruct (external_fields e He1 He2 He3) as [_ Hx].
  destruct (scan_law (va_toastrelid e) s Hr) as (rows & s' & Hscan & Hr' & Hp & _). rewrite Hc in Hp.
  assert (Hst : concat (merge_sort key_le ((λ r, chunk_data r.2) <$>
    base.filter (λ r : ItemPointerData * chunk_row, r.2.1.1 = va_valueid e) rows)).*2 = stored).
  { rewrite (merge_sort_pieces _ (Datatypes.S (length stored)) 0 stored); [apply pieces_concat; lia|].
    eapply collect_chunks; [exact Hp|done|]. intros p Hpp. apply pieces_bounds in Hpp. lia. }
  unfold toast_get_datum. rewrite Hx. destruct (0 <? va_rawsize e) eqn:E; to_prop.
  - destruct (pglz_decompress stored (va_rawsize e)) as [data|] eqn:Ed; [|right; split; [done|]; by intros data].
    destruct (decide (Z.of_nat (length data) = va_rawsize e)) as [Hd|Hd].
    + left. exists data. split; [done|]. split; [done|]. exists s'. split; [|done].
      rewrite (bind_ret_run _ _ _ _ _ Hscan), Hst, Ed. by rewrite (proj2 (Z.eqb_eq _ _) Hd).
    + right. split; [done|]. by intros data' [= <-].
  - left. exists s'. split; [|done]. rewrite (bind_ret_run _ _ _ _ _ Hscan), Hst. done.
Qed.

Lemma save_get r data compress s :
  toastable r → ready s → 1 < supply s → Z.of_nat (length data) < 2 ^ 29 →
  ∃ e s1, toast_save_datum r data compress s = (Ret (external_bytes e), s1) ∧ ready s1 ∧ grows s s1 ∧ supply s - 2 ≤ supply s1 ∧
    VARATT_IS_EXTERNAL (external_bytes e) = true ∧
    ∀ s', ready s' → grows s1 s' → ∃ s2, toast_get_datum (external_bytes e) s' = (Ret (varlena data), s2) ∧ ready s2.
Proof.
  intros Ht Hr Hs Hl. destruct (save_run r data compress s Ht Hr Hs Hl) as (e & s1 & Hsave & Hr1 & Hraw & Hid & Hrel & Hst1 & Hg & Hsup).
  exists e, s1. set (stored := default data _) in *.
  assert (He : - 2 ^ 31 ≤ va_rawsize e < 2 ^ 31) by (rewrite Hraw; repeat case_match; lia).
  assert (Hst : (length stored ≤ length data)%nat).
  { unfold stored. destruct (compress && _); [|done]. destruct (pglz_compress data) as [c|] eqn:Ec; [|done].
    apply compress_shorter in Ec. change (length c ≤ length data)%nat. lia. }
  destruct (external_fields e He Hid Hrel) as [Hx _]. split_and!; [done..|]. intros s' Hr' Hgrow.
  destruct (stored_grows _ _ _ _ Hgrow Hst1) as (_ & old & Hc & Hold).
  destruct (get_run e s' stored old Hr' He Hid Hrel ltac:(lia) Hc Hold) as [Hget|[Hpos Hbad]].
  - destruct (0 <? va_rawsize e) eqn:E; to_prop.
    + destruct Hget as (d & Hd & Hdl & s2 & Hget & Hr2). exists s2.
      assert (Hcomp : ∃ c, pglz_compress data = Some c ∧ stored = c ∧ va_rawsize e = Z.of_nat (length data)).
      { unfold stored. destruct (compress && _); [|lia]. destruct (pglz_compress data) as [c|]; [by exists c|lia]. }
      destruct Hcomp as (c & Hcc & Hsc & Hrc). apply compress_roundtrip in Hcc. rewrite Hsc, Hrc, Hcc in Hd. injection Hd as <-. done.
    + destruct Hget as (s2 & Hget & Hr2). exists s2.
      assert (Hsd : stored = data); [|by rewrite Hsd in Hget].
      unfold stored. destruct (compress && (32 <? Z.of_nat (length data))) eqn:Ecmp; [|done].
      destruct (pglz_compress data) as [c|]; [|done]. to_prop. lia.
  - exfalso. destruct (compress && (32 <? Z.of_nat (length data))) eqn:Ecmp; [|lia].
    destruct (pglz_compress data) as [c|] eqn:Ec; [|lia]. cbn in stored. apply compress_roundtrip in Ec.
    rewrite Hraw in Hbad. by apply (Hbad data).
Qed.

(** The value stays too large after compression, and only the compressed
    bytes are handed on. *)
Definition compressed_too_large (attr : Attr) (data : list Z) : Prop :=
  (attstorage attr = kExtended ∨ attstorage attr = kMain) ∧
  ∃ c, pglz_compress data = Some c ∧ kToastThreshold < 8 + Z.of_nat (length c).

Lemma toast_value_unfold r attr data s :
  attlen attr = -1 → Z.of_nat (length data) < 2 ^ 29 → attstorage attr ≠ kPlain → kToastThreshold < Z.of_nat (length data) →
  toast_value r attr (varlena data) s =
  (let external :=
     if decide (attstorage attr = kExtended ∨ attstorage attr = kExternal)
     then toast_save_datum r data (bool_decide (attstorage attr = kExtended)) else mret (varlena data) in
   if decide (attstorage attr = kExtended ∨ attstorage attr = kMain) then
     match pglz_compress data with
     | Some c => if 4 + 4 + Z.of_nat (length c) <=? kToastThreshold then mret (inline_compressed (Z.of_nat (length data)) c)
                 else toast_save_datum r c false
     | None => external
     end
   else external) s.
Proof.
  intros Ha Hl Hp Hbig. unfold toast_value. destruct (varlena_plain data ltac:(lia)) as (_ & _ & Hsz & Hd).
  rewrite decide_False by (by intros []). rewrite decide_False by done. rewrite Hsz, Hd.
  replace (4 + Z.of_nat (length data) - 4) with (Z.of_nat (length data)) by lia.
  rewrite (proj2 (Z.leb_gt _ _)) by lia. rewrite Nat2Z.id, take_ge by lia. done.
Qed.

Lemma detoast_plain data s : Z.of_nat (length data) < 2 ^ 29 → detoast_attr (varlena data) s = (Ret (varlena data), s).
Proof. intros Hl. unfold detoast_attr. destruct (varlena_plain data ltac:(lia)) as (-> & -> & _). done. Qed.

Lemma detoast_inline data c s :
  pglz_compress data = Some c → Z.of_nat (length data) < 2 ^ 29 →
  detoast_attr (inline_compressed (Z.of_nat (length data)) c) s = (Ret (varlena data), s).
Proof.
  intros Hc Hl. pose proof (compress_shorter _ _ Hc). unfold detoast_attr.
  destruct (inline_is_compressed (Z.of_nat (length data)) c) as (-> & -> & -> & -> & ->); [lia..|].
  rewrite Nat2Z.id, take_ge by lia. rewrite (compress_roundtrip _ _ Hc). by rewrite Z.eqb_refl.
Qed.

(** Fetching this gives the value, now and as long as chunks are only added. *)
Definition comes_back (text data : list Z) (s : S) : Prop :=
  ∀ s', ready s' → grows s s' → ∃ s2, detoast_attr text s' = (Ret (varlena data), s2) ∧ ready s2.

Lemma comes_back_grows text data s s' : grows s s' → comes_back text data s → comes_back text data s'.
Proof. intros Hg Hc s2 Hr2 Hg2. apply Hc; [done|]. by eapply store_grows_trans. Qed.

(** The value in the row, or what replaces it. *)
Definition fits_row (attr : Attr) (text : list Z) : Prop :=
  attstorage attr = kExtended ∨ attstorage attr = kExternal → Z.of_nat (length text) ≤ 4 + kToastThreshold.

Lemma toast_value_run r attr data s :
  toastable r → ready s → 1 < supply s → attlen attr = -1 → Z.of_nat (length data) < 2 ^ 29 →
  ¬ compressed_too_large attr data →
  ∃ text s1, toast_value r attr (varlena data) s = (Ret text, s1) ∧ ready s1 ∧ grows s s1 ∧ supply s - 2 ≤ supply s1 ∧ comes_back text data s1 ∧ fits_row attr text.
Proof.
  intros Ht Hr Hs Ha Hl Hok. destruct (varlena_plain data ltac:(lia)) as (He & Hc & Hsz & Hd).
  assert (Hsame : fits_row attr (varlena data) → ∃ text s1, (mret (varlena data) : M S (list Z)) s = (Ret text, s1) ∧ ready s1 ∧ grows s s1 ∧ supply s - 2 ≤ supply s1 ∧ comes_back text data s1 ∧ fits_row attr text).
  { intros Hfit. exists (varlena data), s. split_and!; [done|done|apply store_grows_refl|lia| |done]. intros s' Hr' _. exists s'. split; [by apply detoast_plain|done]. }
  assert (Hlen : Z.of_nat (length (varlena data)) = 4 + Z.of_nat (length data)) by (unfold varlena, SET_VARSIZE_4B; rewrite length_app, length_to_le; lia).
  destruct (decide (attstorage attr = kPlain)) as [Hp|Hp].
  { unfold toast_value. rewrite decide_False by (by intros []). rewrite decide_True by done. apply Hsame. intros [E|E]; congruence. }
  destruct (decide (kToastThreshold < Z.of_nat (length data))) as [Hbig|Hbig].
  2: { unfold toast_value. rewrite decide_False by (by intros []). rewrite decide_False by done. rewrite Hsz.
       rewrite (proj2 (Z.leb_le _ _)) by lia. apply Hsame. intros _. lia. }
  rewrite toast_value_unfold by done. cbv zeta.
  assert (Hext : ∃ text s1, (if decide (attstorage attr = kExtended ∨ attstorage attr = kExternal)
     then toast_save_datum r data (bool_decide (attstorage attr = kExtended)) else mret (varlena data)) s = (Ret text, s1) ∧
     ready s1 ∧ grows s s1 ∧ supply s - 2 ≤ supply s1 ∧ comes_back text data s1 ∧ fits_row attr text).
  { case_decide as Hext; [|by apply Hsame; intros ?%Hext].
    destruct (save_get r data (bool_decide (attstorage attr = kExtended)) s Ht Hr Hs Hl) as (e & s1 & Hsv & Hr1 & Hg & Hsup & Hx & Hgt).
    exists (external_bytes e), s1. split_and!; [done..| |by intros _]. intros s' Hr' Hg'. unfold detoast_attr. rewrite Hx. by apply Hgt. }
  destruct (decide (attstorage attr = kExtended ∨ attstorage attr = kMain)) as [Hcm|]; [|exact Hext].
  destruct (pglz_compress data) as [c|] eqn:Ec; [|exact Hext].
  destruct (_ <=? kToastThreshold) eqn:E; to_prop.
  - exists (inline_compressed (Z.of_nat (length data)) c), s. split_and!; [done|done|apply store_grows_refl|lia| |].
    + intros s' Hr' _. exists s'. split; [by apply detoast_inline|done].
    + intros _. unfold inline_compressed, SET_VARSIZE_COMPRESSED. rewrite !length_app, !length_to_le. lia.
  - exfalso. apply Hok. split; [done|]. exists c. split; [done|lia].
Qed.

(** ** Rows *)

(** A value of variable length is a value whose compressed form, if any, is small. *)
Definition column_ok (c : column) : Prop :=
  let '(attr, v, null) := c in
  null = false → attlen attr = -1 → ∃ data, v = DRef (varlena data) ∧ Z.of_nat (length data) < 2 ^ 29 ∧ ¬ compressed_too_large attr data.

Definition column_back (s : S) (c : column) (v' : Datum) : Prop :=
  let '(attr, v, null) := c in
  (null = false → attlen attr = -1 → ∃ data text, v = DRef (varlena data) ∧ v' = DRef text ∧ comes_back text data s ∧ fits_row attr text) ∧
  (null = true ∨ attlen attr ≠ -1 → v' = v).

Lemma column_back_grows s s' c v' : grows s s' → column_back s c v' → column_back s' c v'.
Proof.
  destruct c as [[attr v] null]. intros Hg [H1 H2]. split; [|done]. intros Hn Ha. destruct (H1 Hn Ha) as (data & text & ? & ? & Hc & ?). exists data, text. split_and!; [done|done| |done]. by eapply comes_back_grows.
Qed.

Lemma toast_values_run r cols : ∀ s,
  toastable r → ready s → 2 * Z.of_nat (length cols) < supply s → Forall column_ok cols →
  ∃ vs s1, toast_values r cols s = (Ret vs, s1) ∧ ready s1 ∧ grows s s1 ∧ Forall2 (column_back s1) cols vs.
Proof.
  induction cols as [|[[attr v] null] cols IH]; intros s Ht Hr Hs Hok; [exists [], s; split_and!; [done|done|apply store_grows_refl|constructor]|].
  apply Forall_cons in Hok as [Hc Hok]. cbn [length] in Hs. cbn [toast_values].
  assert (Hone : ∃ v' s1, (match v with DRef text => if null then mret v else text' ← toast_value r attr text; mret (DRef text') | DVal _ => mret v end) s = (Ret v', s1) ∧
    ready s1 ∧ grows s s1 ∧ supply s - 2 ≤ supply s1 ∧ column_back s1 (attr, v, null) v').
  { assert (Hkeep : null = true ∨ attlen attr ≠ -1 → ∃ v' s1, (mret v : M S Datum) s = (Ret v', s1) ∧ ready s1 ∧ grows s s1 ∧ supply s - 2 ≤ supply s1 ∧ column_back s1 (attr, v, null) v').
    { intros Hk. exists v, s. split_and!; [done|done|apply store_grows_refl|lia|]. split; [|done]. intros -> Ha. by destruct Hk. }
    destruct null; [destruct v; apply Hkeep; by left|]. destruct (decide (attlen attr = -1)) as [Ha|Ha].
    - destruct (Hc eq_refl Ha) as (data & -> & Hl & Hlarge). destruct (toast_value_run r attr data s Ht Hr ltac:(lia) Ha Hl Hlarge) as (text & s1 & Hrun & Hr1 & Hg & Hsup & Hback & Hfit).
      exists (DRef text), s1. rewrite (bind_ret_run _ _ _ _ _ Hrun). split_and!; [done..|]. split; [|intros [?|?]; done]. intros _ _. by exists data, text.
    - destruct v as [z|text]; [apply Hkeep; by right|]. unfold toast_value. rewrite decide_True by done. apply Hkeep. by right. }
  destruct Hone as (v' & s1 & Hv & Hr1 & Hg1 & Hs1 & Hback). rewrite (bind_ret_run _ _ _ _ _ Hv).
  destruct (IH s1 Ht Hr1 ltac:(lia) Hok) as (vs & s2 & Hvs & Hr2 & Hg2 & Hall). rewrite (bind_ret_run _ _ _ _ _ Hvs).
  exists (v' :: vs), s2. split_and!; [done|done|by eapply store_grows_trans|]. constructor; [by eapply column_back_grows|done].
Qed.

(** C15: a toasted row comes back.  For every store that keeps its promises and every
    row that has no column whose compressed value is still too large:
    [toast_insert_or_update] returns a value for every column; the nulls and the
    columns of fixed length are as they were; and from what it puts in the place of a
    value of variable length (the value itself, its compressed form, or a pointer to
    its chunks) [detoast_attr] gets the value again, after all columns are stored.
    What stands for a value of extended or external storage is never larger than the
    threshold. *)
Theorem toasted_row_comes_back r values isnull tupdesc s :
  toastable r → ready s → 2 * Z.of_nat (length (attrs tupdesc)) < supply s → length values = length (attrs tupdesc) → length isnull = length (attrs tupdesc) →
  (∀ i attr v, attrs tupdesc !! i = Some attr → values !! i = Some v → isnull !! i = Some false → attlen attr = -1 →
     ∃ data, v = DRef (varlena data) ∧ Z.of_nat (length data) < 2 ^ 29 ∧ ¬ compressed_too_large attr data) →
  ∃ values' s1, toast_insert_or_update r values isnull tupdesc s = (Ret values', s1) ∧ length values' = length values ∧
    ∀ i attr v null, attrs tupdesc !! i = Some attr → values !! i = Some v → isnull !! i = Some null → ∃ v', values' !! i = Some v' ∧
      if decide (null = false ∧ attlen attr = -1)
      then ∃ data text s2, v = DRef (varlena data) ∧ v' = DRef text ∧ detoast_attr text s1 = (Ret (varlena data), s2) ∧
             (attstorage attr = kExtended ∨ attstorage attr = kExternal → Z.of_nat (length text) ≤ 4 + kToastThreshold)
      else v' = v.
Proof.
  intros Ht Hr Hs Hv Hn Hok. pose proof Ht as (c & d & Hrel & Hkind & _). unfold toast_insert_or_update. rewrite Hrel, decide_False by done.
  assert (Hcol : ∀ i attr v null, attrs tupdesc !! i = Some attr → values !! i = Some v → isnull !! i = Some null → columns tupdesc values (Some isnull) !! i = Some (attr, v, null)).
  { intros i attr v null Ea Ev En. unfold columns. rewrite list_lookup_fmap, list_lookup_imap, Ea. cbn. by rewrite Ev, En. }
  assert (Hlen : length (columns tupdesc values (Some isnull)) = length (attrs tupdesc)) by (unfold columns; by rewrite length_fmap, length_imap).
  assert (Hall : Forall column_ok (columns tupdesc values (Some isnull))).
  { apply Forall_lookup. intros i x Hx. pose proof (lookup_lt_Some _ _ _ Hx) as Hlt. rewrite Hlen in Hlt. destruct (lookup_lt_is_Some_2 (attrs tupdesc) i Hlt) as [attr Ea].
    destruct (lookup_lt_is_Some_2 values i) as [v Ev]; [lia|]. destruct (lookup_lt_is_Some_2 isnull i) as [null En]; [lia|]. rewrite (Hcol i attr v null Ea Ev En) in Hx. injection Hx as <-.
    intros -> Ha. by eapply Hok. }
  destruct (toast_values_run r _ s Ht Hr ltac:(by rewrite Hlen) Hall) as (vs & s1 & Hrun & Hr1 & _ & Hback). exists vs, s1. split; [done|].
  pose proof (Forall2_length _ _ _ Hback) as Hlv. split; [lia|]. intros i attr v null Ea Ev En.
  destruct (Forall2_lookup_l _ _ _ _ _ Hback (Hcol i attr v null Ea Ev En)) as (v' & Ev' & [H1 H2]). exists v'. split; [done|]. case_decide as Hd.
  - destruct (H1 (proj1 Hd) (proj2 Hd)) as (data & text & -> & -> & Hc & Hf). destruct (Hc s1 Hr1 (store_grows_refl s1)) as (s2 & Hdet & _). by exists data, text, s2.
  - apply H2. destruct null; [by left|right]. intros Ha. by apply Hd.
Qed.

(** A value that is compressed and still too large is stored compressed, but
    its pointer says that it is not: reading it back returns the compressed
    bytes. *)
Theorem compressed_value_comes_back_compressed r attr data c s :
  toastable r → ready s → 1 < supply s → attlen attr = -1 → Z.of_nat (length data) < 2 ^ 29 →
  attstorage attr = kExtended → kToastThreshold < Z.of_nat (length data) → pglz_compress data = Some c →
  kToastThreshold < 8 + Z.of_nat (length c) →
  ∃ text s1 s2, toast_value r attr (varlena data) s = (Ret text, s1) ∧ detoast_attr text s1 = (Ret (varlena c), s2) ∧
    varlena c ≠ varlena data.
Proof.
  intros Ht Hr Hs Ha Hl Hst Hth Hc Hbig. pose proof (compress_shorter _ _ Hc) as Hsh.
  rewrite toast_value_unfold by (done || lia || by rewrite Hst). cbv zeta. rewrite Hst, decide_True by (by left). rewrite Hc.
  rewrite (proj2 (Z.leb_gt _ _)) by lia.
  destruct (save_get r c false s Ht Hr Hs ltac:(lia)) as (e & s1 & Hsv & Hr1 & _ & _ & Hx & Hgt).
  destruct (Hgt s1 Hr1 (store_grows_refl s1)) as (s2 & Hget & _). exists (external_bytes e), s1, s2. split; [done|]. split; [unfold detoast_attr; by rewrite Hx|].
  intros Heq. apply (f_equal length) in Heq. unfold varlena, SET_VARSIZE_4B in Heq. rewrite !length_app, !length_to_le in Heq. lia.
Qed.

(** ** Deleting chunks *)

(** No variable-length column holds a pointer. *)
Definition no_pointer (c : column) : Prop :=
  attlen c.1.1 = -1 → match c.1.2 with DRef text => VARATT_IS_EXTERNAL text = false | DVal _ => True end.

Lemma delete_columns_plain cols s : Forall no_pointer cols → delete_columns cols s = (Ret tt, s).
Proof.
  intros Hc. revert s. induction Hc as [|[[a v] null] cols Hv _ IH]; intros s; [done|]. cbn [delete_columns].
  destruct v as [z|text]; [by rewrite (bind_ret_run _ _ s tt s eq_refl)|]. unfold no_pointer in Hv. cbn in Hv.
  destruct (attlen a =? -1) eqn:E; to_prop; rewrite ?andb_false_r; [rewrite (Hv E), andb_false_r|];
    by rewrite (bind_ret_run _ _ s tt s eq_refl).
Qed.

Lemma deform_no_pointer det hasnull m (l : list Attr) : ∀ i off k a v b,
  (∀ raw, VARATT_IS_EXTERNAL (det raw) = false) →
  l !! k = Some a → deform_loop det hasnull m i off l !! k = Some (v, b) → no_pointer (a, v, b).
Proof.
  induction l as [|a0 l IH]; intros i off k a v b Hdet Hk Hv; [done|]. cbn [deform_loop] in Hv. destruct k as [|k].
  - injection Hk as ->. destruct (hasnull && null_bit m i); injection Hv as <- <-; intros Ha; [done|]. cbn in Ha |- *.
    unfold fetch. rewrite Ha. cbn. unfold plain. set (raw := varlena_at m _).
    destruct (VARATT_IS_EXTERNAL raw) eqn:E; cbn [orb]; [apply Hdet|]. by destruct (VARATT_IS_COMPRESSED raw).
  - destruct (hasnull && null_bit m i); cbn in Hv; by eapply IH.
Qed.

(** Deleting or updating a row leaves its chunks behind.  [heap_delete] and
    [heap_update] deform the old tuple before they call [toast_delete_tuple];
    deforming expands the external values, so that no pointer is left to
    follow. *)
Theorem chunks_outlive_their_row det r tup tupdesc s :
  (∀ raw, VARATT_IS_EXTERNAL (det raw) = false) →
  let old := heap_deform_tuple det tup tupdesc in
  toast_delete_tuple r old.*1 old.*2 tupdesc s = (Ret tt, s).
Proof.
  intros Hdet old. unfold toast_delete_tuple. destruct (rd_rel r); [|done]. case_decide; [done|].
  apply delete_columns_plain, Forall_forall. intros c Hc. unfold columns in Hc.
  apply list_elem_of_fmap in Hc as ([i a] & -> & Hi). apply list_elem_of_lookup in Hi as [k Hk].
  rewrite list_lookup_imap in Hk. apply fmap_Some in Hk as (a' & Ha & [= -> ->]).
  rewrite list_lookup_fmap. destruct (old !! k) as [[v b]|] eqn:Eo; cbn; [|done].
  pose proof (deform_no_pointer det _ _ _ _ _ k a' v b Hdet Ha Eo) as Hn. exact Hn.
Qed.

End roundtrip.

(** ** A store *)

(** Tables as lists of rows, which are never removed. *)
Record table_store := mkStore {
  st_next : Z;
  st_tables : gmap Z (list chunk_row);
  st_relids : gmap Z Z;
}.

Definition store_rows (s : table_store) (t : Z) : list chunk_row := default [] (st_tables s !! t).

#[export] Instance list_store : ToastStore table_store := {|
  AllocateOid s := (Ret (st_next s), mkStore (st_next s + 1) (st_tables s) (st_relids s));
  reltoastrelid r s := default 0 (st_relids s !! rd_id r);
  create_toast_table r s :=
    (Ret (st_next s), mkStore (st_next s + 1) (st_tables s) (<[rd_id r := st_next s]> (st_relids s)));
  insert_chunk t row s :=
    (Ret tt, mkStore (Z.max (st_next s) (row.1.1 + 1)) (<[t := store_rows s t ++ [row]]> (st_tables s)) (st_relids s));
  scan_chunks t s := (Ret ((λ row, (no_tid, row)) <$> store_rows s t), s);
  delete_chunk t tid s := (Ret tt, s);
  end_command s := (Ret tt, s);
|}.

Record store_ok (s : table_store) : Prop := {
  so_next : 0 < st_next s;
  so_ids t row : row ∈ store_rows s t → row.1.1 < st_next s;
  so_relids r : is_u32 (default 0 (st_relids s !! r));
}.

#[export] Program Instance list_store_laws : ToastStoreLaws table_store := {|
  ready := store_ok;
  supply s := 2 ^ 32 - st_next s;
  chunks := store_rows;
  issued s x := x < st_next s;
|}.
Next Obligation.
  intros s [H1 H2 H3] Hs. eexists _, _. split; [done|]. split_and!.
  - split; cbn; [lia| |done]. intros t row Hr. specialize (H2 t row Hr). lia.
  - unfold is_u32. lia.
  - done.
  - intros t row Hr. specialize (H2 t row Hr). lia.
  - lia.
  - cbn. lia.
  - cbn. lia.
  - cbn. lia.
Qed.
Next Obligation.
  intros r s [H1 H2 H3] Hs. eexists _, _. split; [done|]. split_and!; [|unfold is_u32; lia|unfold kInvalidOid; lia|done|cbn; lia|cbn; lia].
  split; cbn; [lia| |].
  - intros t row Hr. specialize (H2 t row Hr). lia.
  - intros r'. destruct (decide (r' = rd_id r)) as [->|]; [rewrite lookup_insert_eq; unfold is_u32; cbn; lia|].
    by rewrite lookup_insert_ne.
Qed.
Next Obligation.
  intros t row s [H1 H2 H3]. eexists. split; [done|].
  assert (Hrows : ∀ t', store_rows (mkStore (Z.max (st_next s) (row.1.1 + 1)) (<[t := store_rows s t ++ [row]]> (st_tables s)) (st_relids s)) t' =
    if decide (t' = t) then store_rows s t ++ [row] else store_rows s t').
  { intros t'. unfold store_rows at 1. cbn. case_decide; [subst; by rewrite lookup_insert_eq|by rewrite lookup_insert_ne]. }
  split_and!.
  - split; cbn [st_next st_relids]; [lia| |done]. intros t' row'. rewrite Hrows. case_decide; [|intros Hr; specialize (H2 _ _ Hr); lia].
    intros [Hr| ->%list_elem_of_singleton]%elem_of_app; [specialize (H2 _ _ Hr); lia|lia].
  - by rewrite Hrows, decide_True.
  - intros t' Hne. by rewrite Hrows, decide_False.
  - cbn. lia.
  - cbn. lia.
Qed.
Next Obligation.
  intros t s Hs. eexists _, s. split; [done|]. split_and!; [done| |done]. rewrite <- list_fmap_compose. cbn. by rewrite list_fmap_id.
Qed.
Next Obligation. intros s Hs. by exists s. Qed.
Next Obligation. intros r s [H1 H2 H3]. apply H3. Qed.

Definition demo_rel : RelationData := mkRelation 16385 (Some (mkPgClass 16385 kRelation)) None (Some demo_desc).
Definition demo_text (storage : AttStorage) : Attr := mkAttr (-1) false kInt storage.
Definition empty_store : table_store := mkStore 20000 ∅ ∅.

Lemma demo_toastable : toastable demo_rel.
Proof. by eexists _, _. Qed.
Lemma empty_store_ok : store_ok empty_store.
Proof. split; [done| |done]. intros t row Hr. apply not_elem_of_nil in Hr. done. Qed.

(** A row of an integer, a null, a text in chunks and a compressed text. *)
Definition wide_desc : TupleDescData := mkTupleDesc [mkAttr 4 true kInt kPlain; demo_text kExtended; demo_text kExternal; demo_text kMain].
Definition wide_row : list Datum := [DVal 5; DVal 0; DRef (varlena (replicate 4000 7)); DRef (varlena (replicate 4000 8))].

Lemma main_value_fits : match pglz_compress (replicate 4000 8) with Some c => 8 + Z.of_nat (length c) <=? kToastThreshold | None => true end = true.
Proof. by vm_compute. Qed.

Lemma toasted_row_comes_back_witness :
  ∃ values' s1, toast_insert_or_update demo_rel wide_row [false; true; false; false] wide_desc empty_store = (Ret values', s1) ∧ length values' = 4%nat ∧
    ∃ text s2, values' !! 2%nat = Some (DRef text) ∧ detoast_attr text s1 = (Ret (varlena (replicate 4000 7)), s2) ∧ Z.of_nat (length text) ≤ 4 + kToastThreshold.
Proof.
  destruct (toasted_row_comes_back demo_rel wide_row [false; true; false; false] wide_desc empty_store) as (vs & s1 & Hrun & Hlen & Hback).
  - exact demo_toastable.
  - exact empty_store_ok.
  - vm_compute. reflexivity.
  - reflexivity.
  - reflexivity.
  - intros [|[|[|[|i]]]] attr v [= <-] [= <-] [=] Ha; [discriminate Ha| |].
    + exists (replicate 4000 7). split; [reflexivity|]. split; [vm_compute; reflexivity|]. intros [[Hc|Hc] _]; discriminate Hc.
    + exists (replicate 4000 8). split; [reflexivity|]. split; [vm_compute; reflexivity|]. intros [_ (c & Hc & Hl)]. pose proof main_value_fits as Hf. rewrite Hc in Hf. apply Z.leb_le in Hf. lia.
  - exists vs, s1. split; [exact Hrun|]. split; [exact Hlen|].
    destruct (Hback 2%nat (demo_text kExternal) (DRef (varlena (replicate 4000 7))) false eq_refl eq_refl eq_refl) as (v' & Hv' & Hd). rewrite decide_True in Hd by (split; reflexivity).
    destruct Hd as (data & text & s2 & Hdata & -> & Hdet & Hfit). exists text, s2. split; [exact Hv'|]. split; [|apply Hfit; by right].
    rewrite Hdet. assert (E : ∀ a b, DRef a = DRef b → a = b) by (intros a b [= ->]; reflexivity). by rewrite (E _ _ Hdata).
Defined.

End Toast.
