(* ===== verification/NbtPage.v ===== *)
(** * B-tree pages

    src/access/nbtree/nbtpage.cpp, include/access/nbtpage.hpp and the functions
    of src/access/nbtree/nbtree.cpp that work on one page: key comparison,
    index entries as bytes, the meta page and the special area, the linear and
    the binary search, and the insertion that shifts line pointers.

    A key is its bytes; its length is the [key_len] of the code.  The theorems:
    the comparison is a total order for every kind of key, the binary search
    finds what the linear search finds, and an insertion puts one entry at its
    place and leaves all others, or reports that the page is full. *)

From Stdlib Require Import Sorting.Sorted.
From stdpp Require Import base list numbers strings.
From S2P Require Import Prelude HeapTuple BufPage.

Module NbtPage.
Import HeapTuple BufPage.

Definition kBtpLeaf : Z := 0x01.
Definition kBtpRoot : Z := 0x02.
Definition kBTPageOpaqueSize : Z := 16.
Definition kBtreeMagic : Z := 0x0530.
Definition sizeof_BTItemData : nat := 6.

Inductive BTKeyKind := kInt32 | kInt64 | kText.
#[export] Instance BTKeyKind_eq_dec : EqDecision BTKeyKind.
Proof. solve_decision. Defined.

Record BTPageOpaqueData := mkOpaque { btpo_prev : Z; btpo_next : Z; btpo_flags : Z; btpo_level : Z }.
Record BTMetaPageData := mkMeta { magic : Z; version : Z; root : Z; level : Z; fastroot : Z }.

(** The structs as bytes. *)
Definition opaque_bytes (o : BTPageOpaqueData) : list Z :=
  to_le 4 (btpo_prev o) ++ to_le 4 (btpo_next o) ++ to_le 4 (btpo_flags o) ++ to_le 4 (btpo_level o).
Definition word_at (i : nat) (b : list Z) : Z := of_le (take 4 (drop (4 * i) b)).
Definition meta_bytes (m : BTMetaPageData) : list Z :=
  to_le 4 (magic m) ++ to_le 4 (version m) ++ to_le 4 (root m) ++ to_le 4 (level m) ++ to_le 4 (fastroot m).

(** ** The special area and the meta page *)

Definition _bt_page_getopaque (p : Page) : BTPageOpaqueData :=
  let b := read (bytes p) (pd_special p) kBTPageOpaqueSize in
  mkOpaque (word_at 0 b) (word_at 1 b) (word_at 2 b) (word_at 3 b).

(** Writing through that pointer. *)
Definition set_opaque (o : BTPageOpaqueData) (p : Page) : Page :=
  with_bytes (memcpy_in (pd_special p) (opaque_bytes o) (bytes p)) p.

Definition _bt_init_page (flags level : Z) : Page :=
  set_opaque (mkOpaque 0 0 flags level) (PageInit kBlckSz kBTPageOpaqueSize).

Definition _bt_is_leaf_page (p : Page) : bool := negb (Z.land (btpo_flags (_bt_page_getopaque p)) kBtpLeaf =? 0).
Definition _bt_is_root_page (p : Page) : bool := negb (Z.land (btpo_flags (_bt_page_getopaque p)) kBtpRoot =? 0).

Definition set_meta (m : BTMetaPageData) (p : Page) : Page :=
  with_bytes (memcpy_in kPageHeaderSize (meta_bytes m) (bytes p)) p.

Definition _bt_init_meta_page (root_block : Z) : Page :=
  set_meta (mkMeta kBtreeMagic 1 root_block 0 root_block) (PageInit kBlckSz 0).

Definition _bt_get_meta (p : Page) : BTMetaPageData :=
  let b := read (bytes p) kPageHeaderSize 20 in
  mkMeta (word_at 0 b) (word_at 1 b) (word_at 2 b) (word_at 3 b) (word_at 4 b).

Definition _bt_update_meta (root_block : Z) (p : Page) : Page :=
  let m := _bt_get_meta p in
  set_meta (mkMeta (magic m) (version m) root_block (level m) root_block) p.

(** ** Keys *)

(** [memcmp] on the first [n] bytes; only the sign of the result is specified. *)
Fixpoint memcmp (n : nat) (a b : list Z) : Z :=
  match n, a, b with
  | S n', x :: a', y :: b' => if x <? y then -1 else if y <? x then 1 else memcmp n' a' b'
  | _, _, _ => 0
  end.

Definition _bt_compare_int32 (a b : Z) : Z := if a <? b then -1 else if b <? a then 1 else 0.
Definition _bt_compare_int64 (a b : Z) : Z := if a <? b then -1 else if b <? a then 1 else 0.

Definition _bt_compare_text (a b : list Z) : Z :=
  let min_len := if (length a <? length b)%nat then length a else length b in
  let cmp := memcmp min_len a b in
  if negb (cmp =? 0) then cmp
  else if (length a <? length b)%nat then -1 else if (length b <? length a)%nat then 1 else 0.

Definition _bt_compare_keys (kind : BTKeyKind) (key1 key2 : list Z) : Z :=
  match kind with
  | kInt32 => _bt_compare_int32 (i32 (of_le (take 4 key1))) (i32 (of_le (take 4 key2)))
  | kInt64 => _bt_compare_int64 (i64 (of_le (take 8 key1))) (i64 (of_le (take 8 key2)))
  | kText => _bt_compare_text key1 key2
  end.

(** ** Index entries *)

Definition tid_bytes (tid : ItemPointerData) : list Z := to_le 4 (ip_blkid tid) ++ to_le 2 (ip_posid tid).
Definition item_tid (item : list Z) : ItemPointerData := mkTid (of_le (take 4 item)) (of_le (take 2 (drop 4 item))).
Definition _bt_item_get_key (item : list Z) : list Z := drop sizeof_BTItemData item.

Definition _bt_item_size (kind : BTKeyKind) (key : list Z) : Z :=
  match kind with
  | kInt32 => u16 (6 + 4)
  | kInt64 => u16 (6 + 8)
  | kText => u16 (6 + Z.of_nat (length key))
  end.

Definition _bt_build_item (kind : BTKeyKind) (key : list Z) (tid : ItemPointerData) : list Z :=
  tid_bytes tid ++ match kind with kInt32 => take 4 key | kInt64 => take 8 key | kText => key end.

(** ** Searching a page *)

(** The key of the entry in a slot. *)
Definition slot_key (p : Page) (off : Z) : list Z := _bt_item_get_key (PageGetItem p (PageGetItemId p off)).

(** The loop over the slots: the first normal one whose key is not below. *)
Fixpoint find_pos (p : Page) (kind : BTKeyKind) (key : list Z) (offs : list Z) : Z :=
  match offs with
  | [] => u16 (PageGetMaxOffsetNumber p + 1)
  | off :: offs' =>
      if negb (ItemIdIsNormal (PageGetItemId p off)) then find_pos p kind key offs'
      else if _bt_compare_keys kind key (slot_key p off) <=? 0 then off
      else find_pos p kind key offs'
  end.

Definition _bt_find_insert_pos (p : Page) (kind : BTKeyKind) (key : list Z) : Z :=
  find_pos p kind key (offsets (PageGetMaxOffsetNumber p)).
Definition _bt_find_scan_pos (p : Page) (kind : BTKeyKind) (key : list Z) : Z :=
  find_pos p kind key (offsets (PageGetMaxOffsetNumber p)).

(** The loop of the binary search; each turn shrinks [high - low]. *)
Fixpoint binsrch_loop (fuel : nat) (p : Page) (kind : BTKeyKind) (key : list Z) (for_insert : bool) (low high : Z)
  : option Z :=
  match fuel with
  | O => None
  | S fuel' =>
      if negb (low <=? high) then Some low
      else
        let mid := u16 (low + (high - low) / 2) in
        if negb (ItemIdIsNormal (PageGetItemId p mid)) then binsrch_loop fuel' p kind key for_insert low (u16 (mid - 1))
        else
          let cmp := _bt_compare_keys kind key (slot_key p mid) in
          let go_right := if for_insert then negb (cmp <? 0) else 0 <? cmp in
          if go_right then binsrch_loop fuel' p kind key for_insert (u16 (mid + 1)) high
          else binsrch_loop fuel' p kind key for_insert low (u16 (mid - 1))
  end.

Definition _bt_binsrch (p : Page) (kind : BTKeyKind) (key : list Z) (for_insert : bool) : option Z :=
  let high := PageGetMaxOffsetNumber p in
  binsrch_loop (S (Z.to_nat high)) p kind key for_insert 1 high.

(** ** Inserting into a page *)

(** [memmove] of the line pointers from [insert_offset] on by one slot. *)
Definition shift_slots (insert_offset max_offset : Z) (l : Z → ItemIdData) : Z → ItemIdData :=
  λ k, if (insert_offset <? k) && (k <=? max_offset + 1) then l (k - 1) else l k.

Definition _bt_page_insert_item (item : list Z) (insert_offset : Z) (p : Page) : Z * Page :=
  let item_size := u16 (Z.of_nat (length item)) in
  let max_offset := PageGetMaxOffsetNumber p in
  let aligned_size := Z.land (item_size + 3) (Z.lnot 3) in
  let space_needed := aligned_size + kItemIdSize in
  if PageGetHeapFreeSpace p <? space_needed then (kInvalidOffsetNumber, p)
  else
    let lp := if insert_offset <=? max_offset then shift_slots insert_offset max_offset (linp p) else linp p in
    let item_offset := pd_upper p - aligned_size in
    (insert_offset,
     with_upper (u16 item_offset)
       (with_lower (u16 (pd_lower p + kItemIdSize))
          (with_linp (set_linp insert_offset (mkItemId (u15 item_offset) kLPNormal (u15 item_size)) lp)
             (with_bytes (memcpy_in item_offset item (bytes p)) p)))).

Definition _bt_read_all_items (p : Page) : list (list Z) :=
  (λ off, PageGetItem p (PageGetItemId p off))
    <$> base.filter (λ off, ItemIdIsNormal (PageGetItemId p off) = true) (offsets (PageGetMaxOffsetNumber p)).

(** Writing entries to an initialized page; what [PageAddItem] returns is not looked at. *)
Definition add_all (items : list (list Z)) (p : Page) : Page :=
  foldl (λ p item, (PageAddItem item kInvalidOffsetNumber p).2) p items.

(** ** The order of keys *)

Fixpoint lex (a b : list Z) : Z :=
  match a, b with
  | [], [] => 0
  | [], _ => -1
  | _, [] => 1
  | x :: a', y :: b' => if x <? y then -1 else if y <? x then 1 else lex a' b'
  end.

Lemma compare_text_lex a b : _bt_compare_text a b = lex a b.
Proof.
  revert b. induction a as [|x a IH]; intros [|y b]; try done.
  specialize (IH b). revert IH. unfold _bt_compare_text. cbn [length lex].
  change (S (length a) <? S (length b))%nat with (length a <? length b)%nat.
  change (S (length b) <? S (length a))%nat with (length b <? length a)%nat.
  replace (if (length a <? length b)%nat then S (length a) else S (length b))
    with (S (if (length a <? length b)%nat then length a else length b)) by (by destruct (_ <? _)%nat).
  cbn [memcmp]. intros IH. destruct (x <? y); [done|]. by destruct (y <? x).
Qed.

Lemma lex_zero a b : lex a b = 0 ↔ a = b.
Proof.
  revert b. induction a as [|x a IH]; intros [|y b]; cbn [lex]; try (split; done).
  destruct (x <? y) eqn:E1; to_prop; [split; intros H; simplify_eq; lia|].
  destruct (y <? x) eqn:E2; to_prop; [split; intros H; simplify_eq; lia|].
  rewrite IH. split; [intros ->; f_equal; lia|congruence].
Qed.

Lemma lex_opp a b : lex b a = - lex a b.
Proof.
  revert b. induction a as [|x a IH]; intros [|y b]; cbn [lex]; try done.
  destruct (x <? y) eqn:E1, (y <? x) eqn:E2; to_prop; [lia|done|done|apply IH].
Qed.

Lemma lex_trans a b c : lex a b < 0 → lex b c < 0 → lex a c < 0.
Proof.
  revert b c. induction a as [|x a IH]; intros [|y b] [|z c]; cbn [lex]; try done; try lia.
  destruct (x <? y) eqn:E1, (y <? x) eqn:E2, (y <? z) eqn:E3, (z <? y) eqn:E4, (x <? z) eqn:E5, (z <? x) eqn:E6;
    to_prop; try lia. apply IH.
Qed.

Definition wf_key (kind : BTKeyKind) (key : list Z) : Prop :=
  Forall is_u8 key ∧
  match kind with kInt32 => length key = 4%nat | kInt64 => length key = 8%nat | kText => (length key ≤ 250)%nat end.

Lemma wrap_inj w a b :
  0 < w → 0 ≤ a < 2 * w → 0 ≤ b < 2 * w → (a + w) `mod` (2 * w) - w = (b + w) `mod` (2 * w) - w → a = b.
Proof.
  intros Hw Ha Hb H. destruct (decide (a < w)), (decide (b < w)).
  - rewrite !Z.mod_small in H; lia.
  - rewrite (Z.mod_small (a + w)), <- (Z_mod_plus_full (b + w) (-1)), Z.mod_small in H; lia.
  - rewrite (Z.mod_small (b + w)), <- (Z_mod_plus_full (a + w) (-1)), Z.mod_small in H; lia.
  - rewrite <- (Z_mod_plus_full (a + w) (-1)), <- (Z_mod_plus_full (b + w) (-1)), !Z.mod_small in H; lia.
Qed.

Lemma compare_int_zero a b : _bt_compare_int32 a b = 0 ↔ a = b.
Proof. unfold _bt_compare_int32. destruct (a <? b) eqn:E1, (b <? a) eqn:E2; to_prop; split; lia. Qed.

Lemma compare_zero kind a b : wf_key kind a → wf_key kind b → _bt_compare_keys kind a b = 0 ↔ a = b.
Proof.
  intros [Ha Hla] [Hb Hlb]. pose proof (of_le_bound a Ha). pose proof (of_le_bound b Hb).
  destruct kind; unfold _bt_compare_keys; [| |rewrite compare_text_lex; apply lex_zero].
  - rewrite !take_ge, compare_int_zero by lia. rewrite Hla, Hlb in *. split; [|by intros ->]. intros E.
    apply of_le_inj; [done..|congruence|]. apply (wrap_inj (2 ^ 31)); try lia. exact E.
  - rewrite !take_ge by lia. change (_bt_compare_int64 ?x ?y) with (_bt_compare_int32 x y). rewrite compare_int_zero.
    rewrite Hla, Hlb in *. split; [|by intros ->]. intros E.
    apply of_le_inj; [done..|congruence|]. apply (wrap_inj (2 ^ 63)); try lia. exact E.
Qed.

Lemma compare_int_opp a b : _bt_compare_int32 b a = - _bt_compare_int32 a b.
Proof. unfold _bt_compare_int32. destruct (a <? b) eqn:E1, (b <? a) eqn:E2; to_prop; lia. Qed.

Lemma compare_opp kind a b : _bt_compare_keys kind b a = - _bt_compare_keys kind a b.
Proof. destruct kind; [apply compare_int_opp|apply compare_int_opp|]. cbn. rewrite !compare_text_lex. apply lex_opp. Qed.

Lemma compare_int_trans a b c : _bt_compare_int32 a b < 0 → _bt_compare_int32 b c < 0 → _bt_compare_int32 a c < 0.
Proof.
  unfold _bt_compare_int32.
  destruct (a <? b) eqn:E1, (b <? a) eqn:E2, (b <? c) eqn:E3, (c <? b) eqn:E4, (a <? c) eqn:E5, (c <? a) eqn:E6;
    to_prop; lia.
Qed.

Lemma compare_trans kind a b c :
  _bt_compare_keys kind a b < 0 → _bt_compare_keys kind b c < 0 → _bt_compare_keys kind a c < 0.
Proof. destruct kind; [apply compare_int_trans|apply compare_int_trans|]. cbn. rewrite !compare_text_lex. apply lex_trans. Qed.

Lemma compare_refl kind a : _bt_compare_keys kind a a = 0.
Proof. pose proof (compare_opp kind a a). lia. Qed.

Lemma compare_eq_l kind a b c : _bt_compare_keys kind a b = 0 → _bt_compare_keys kind a c = _bt_compare_keys kind b c.
Proof.
  destruct kind; cbn.
  - intros ->%compare_int_zero. done.
  - change (_bt_compare_int64 ?x ?y) with (_bt_compare_int32 x y). intros ->%compare_int_zero. done.
  - rewrite !compare_text_lex. by intros ->%lex_zero.
Qed.

Lemma compare_le_lt kind a b c :
  _bt_compare_keys kind a b ≤ 0 → _bt_compare_keys kind b c < 0 → _bt_compare_keys kind a c < 0.
Proof.
  intros H1 H2. destruct (decide (_bt_compare_keys kind a b = 0)) as [E|E].
  - by rewrite (compare_eq_l kind a b c E).
  - apply (compare_trans kind a b c); lia.
Qed.

Lemma compare_lt_le kind a b c :
  _bt_compare_keys kind a b < 0 → _bt_compare_keys kind b c ≤ 0 → _bt_compare_keys kind a c < 0.
Proof.
  intros H1 H2. destruct (decide (_bt_compare_keys kind b c = 0)) as [E|E]; [|apply (compare_trans kind a b c); lia].
  pose proof (compare_opp kind b c). pose proof (compare_opp kind a b). pose proof (compare_opp kind a c).
  rewrite (compare_eq_l kind c b a) in * by lia. lia.
Qed.

(** ** What a page holds *)

Definition page_items (p : Page) : list (list Z) := (λ i, PageGetItem p (linp p i)) <$> offsets (nslots p).

(** The room entries take, with their line pointers. *)
Definition room (items : list (list Z)) : Z :=
  foldr (λ item n, kItemIdSize + MaxAlignUp (Z.of_nat (length item)) + n) 0 items.

Definition kBtSpace : Z := kBlckSz - kBTPageOpaqueSize - kPageHeaderSize.

(** A B-tree page with these entries, in slot order, and this special area. *)
Record bt_page (p : Page) (items : list (list Z)) (o : BTPageOpaqueData) : Prop := {
  bp_wf : page_wf p;
  bp_special : pd_special p = kBlckSz - kBTPageOpaqueSize;
  bp_normal i : 1 ≤ i ≤ nslots p → ItemIdIsNormal (linp p i) = true;
  bp_items : page_items p = items;
  bp_opaque : _bt_page_getopaque p = o;
  bp_room : pd_upper p - pd_lower p = kBtSpace - room items;
}.

Lemma length_page_items p : 0 ≤ nslots p → Z.of_nat (length (page_items p)) = nslots p.
Proof. intros H. unfold page_items, offsets. rewrite length_fmap, length_seqZ. lia. Qed.

Lemma page_items_lookup p i :
  Z.of_nat i < nslots p → page_items p !! i = Some (PageGetItem p (linp p (1 + Z.of_nat i))).
Proof. intros H. unfold page_items, offsets. rewrite list_lookup_fmap, (proj2 (lookup_seqZ 1 (nslots p) i _) (conj eq_refl H)). done. Qed.

Lemma bt_slots p items o : bt_page p items o → nslots p = Z.of_nat (length items) ∧ PageGetMaxOffsetNumber p = Z.of_nat (length items).
Proof.
  intros [Hwf _ _ <- _ _]. rewrite (wf_max_offset p Hwf), length_page_items by apply (wf_slots p Hwf). done.
Qed.

Lemma bt_slot p items o i item :
  bt_page p items o → items !! i = Some item →
  ItemIdIsNormal (PageGetItemId p (1 + Z.of_nat i)) = true ∧ PageGetItem p (PageGetItemId p (1 + Z.of_nat i)) = item.
Proof.
  intros Hp Hi. destruct (bt_slots _ _ _ Hp) as [Hn _]. pose proof (lookup_lt_Some _ _ _ Hi).
  split; [apply (bp_normal _ _ _ Hp); lia|].
  rewrite <- (bp_items _ _ _ Hp), page_items_lookup in Hi by lia. by injection Hi.
Qed.

Lemma room_app l1 l2 : room (l1 ++ l2) = room l1 + room l2.
Proof. induction l1 as [|x l1 IH]; cbn [room foldr app]; [done|]. fold (room (l1 ++ l2)). fold (room l1). lia. Qed.

Lemma room_cons x l : room (x :: l) = kItemIdSize + MaxAlignUp (Z.of_nat (length x)) + room l.
Proof. done. Qed.

Lemma room_nonneg l : 0 ≤ room l.
Proof.
  induction l as [|x l IH]; [done|]. rewrite room_cons. pose proof (align_up_bounds (Z.of_nat (length x))).
  unfold kItemIdSize. lia.
Qed.

Lemma room_mod4 l : room l `mod` 4 = 0.
Proof.
  induction l as [|x l IH]; [done|]. rewrite room_cons, align_up_spec. unfold kItemIdSize.
  apply Z.mod_divide in IH as [k Hk]; [|done]. rewrite Hk.
  replace (4 + 4 * ((Z.of_nat (length x) + 3) / 4) + k * 4) with ((1 + (Z.of_nat (length x) + 3) / 4 + k) * 4) by lia.
  by apply Z.mod_mul.
Qed.

Definition insert_at {A} (n : nat) (x : A) (l : list A) : list A := take n l ++ x :: drop n l.

Lemma free_space_room p items o : bt_page p items o → PageGetHeapFreeSpace p = Z.max 0 (kBtSpace - room items - kItemIdSize).
Proof.
  intros Hp. unfold PageGetHeapFreeSpace. rewrite (bp_room _ _ _ Hp). f_equal.
  pose proof (room_mod4 items) as H. apply Z.mod_divide in H as [k ->]; [|done]. unfold kBtSpace, kBlckSz, kBTPageOpaqueSize, kPageHeaderSize, kItemIdSize.
  replace (8192 - 16 - 24 - k * 4 - 4) with (Z.shiftl (2037 - k) 2) by (rewrite Z.shiftl_mul_pow2; lia).
  apply Z.bits_inj'. intros n Hn. rewrite Z.land_spec, Z.lnot_spec by done. change (4 - 1) with (Z.ones 2).
  destruct (decide (n < 2)).
  - rewrite Z.shiftl_spec_low by lia. done.
  - rewrite Z.ones_spec_high by lia. apply andb_true_r.
Qed.

(** The slot of the old page that a slot of the new page shows. *)
Definition old_slot (pos k : Z) : Z := if k <? pos then k else k - 1.

(** A page with one more entry, in slot [pos], below all others. *)
Record inserted (p : Page) (pos : Z) (item : list Z) (p' : Page) : Prop := {
  is_lower : pd_lower p' = pd_lower p + kItemIdSize;
  is_upper : pd_upper p' = pd_upper p - MaxAlignUp (Z.of_nat (length item));
  is_fits : pd_lower p' ≤ pd_upper p';
  is_special : pd_special p' = pd_special p;
  is_new : linp p' pos = mkItemId (pd_upper p') kLPNormal (Z.of_nat (length item));
  is_old k : 1 ≤ k ≤ nslots p + 1 → k ≠ pos → linp p' k = linp p (old_slot pos k);
  is_item : read (bytes p') (pd_upper p') (Z.of_nat (length item)) = item;
  is_bytes k : pd_upper p ≤ k → bytes p' k = bytes p k;
}.

Lemma old_slot_range n pos k : 1 ≤ pos ≤ n + 1 → 1 ≤ k ≤ n + 1 → k ≠ pos → 1 ≤ old_slot pos k ≤ n.
Proof. unfold old_slot. intros. destruct (k <? pos) eqn:E; to_prop; lia. Qed.

Lemma inserted_slots p pos item p' : inserted p pos item p' → nslots p' = nslots p + 1.
Proof.
  intros Hi. unfold nslots. rewrite (is_lower _ _ _ _ Hi). unfold kItemIdSize, kPageHeaderSize.
  replace (pd_lower p + 4 - 24) with (pd_lower p - 24 + 1 * 4) by lia. by rewrite Z.div_add by lia.
Qed.

Section inserted.
Context (p p' : Page) (pos : Z) (item : list Z).
Context (Hins : inserted p pos item p') (Hwf : page_wf p) (Hpos : 1 ≤ pos ≤ nslots p + 1) (Hne : item ≠ []).
Context (Hnorm : ∀ i, 1 ≤ i ≤ nslots p → ItemIdIsNormal (linp p i) = true).

#[local] Lemma old_normal k : 1 ≤ k ≤ nslots p + 1 → k ≠ pos → normal p (old_slot pos k).
Proof. intros Hk Hkp. pose proof (old_slot_range _ _ _ Hpos Hk Hkp). split; [done|by apply Hnorm]. Qed.

#[local] Lemma new_end : item_end (linp p' pos) = pd_upper p.
Proof. rewrite (is_new _ _ _ _ Hins). unfold item_end. cbn. rewrite (is_upper _ _ _ _ Hins). lia. Qed.

Lemma inserted_normal i : 1 ≤ i ≤ nslots p' → ItemIdIsNormal (linp p' i) = true.
Proof.
  rewrite (inserted_slots _ _ _ _ Hins). intros Hi. destruct (decide (i = pos)) as [->|Hip].
  - by rewrite (is_new _ _ _ _ Hins).
  - rewrite (is_old _ _ _ _ Hins) by done. by apply old_normal.
Qed.

Lemma inserted_wf : page_wf p'.
Proof using All.
  pose proof (inserted_slots _ _ _ _ Hins) as Hns. pose proof (is_lower _ _ _ _ Hins) as Hlo. pose proof (is_upper _ _ _ _ Hins) as Hup.
  pose proof (align_up_bounds (Z.of_nat (length item))) as Hal. pose proof new_end as Hend.
  assert (0 < length item)%nat by (destruct item; [done|cbn; lia]).
  destruct Hwf as [[Hl Hn0] Ho Hs Hitem Hap]. unfold kItemIdSize, kPageHeaderSize in *. split.
  - rewrite Hns, Hlo, Hl. unfold kItemIdSize, kPageHeaderSize. lia.
  - rewrite (is_special _ _ _ _ Hins). pose proof (is_fits _ _ _ _ Hins). lia.
  - by rewrite (is_special _ _ _ _ Hins).
  - intros k [Hk _]. rewrite Hns in Hk. rewrite (is_special _ _ _ _ Hins). destruct (decide (k = pos)) as [->|Hkp].
    + rewrite Hend, (is_new _ _ _ _ Hins). cbn. lia.
    + rewrite (is_old _ _ _ _ Hins) by done. destruct (Hitem _ (old_normal k Hk Hkp)) as (? & ? & ?). lia.
  - intros i j [Hi _] [Hj _] Hij. rewrite Hns in Hi, Hj. unfold apart.
    assert (Hnew : ∀ k, 1 ≤ k ≤ nslots p + 1 → k ≠ pos → item_end (linp p' pos) ≤ li_off (linp p' k)).
    { intros k Hk Hkp. rewrite Hend, (is_old _ _ _ _ Hins k) by done. apply (Hitem _ (old_normal k Hk Hkp)). }
    destruct (decide (i = pos)) as [->|Hip]; [left; by apply Hnew|].
    destruct (decide (j = pos)) as [->|Hjp]; [right; by apply Hnew|].
    rewrite !(is_old _ _ _ _ Hins) by done. apply Hap; [by apply old_normal..|].
    unfold old_slot. destruct (i <? pos) eqn:?, (j <? pos) eqn:?; to_prop; lia.
Qed.

Lemma inserted_read k : normal p k → PageGetItem p' (linp p k) = PageGetItem p (linp p k).
Proof. intros Hk. apply read_ext. intros x Hx. apply (is_bytes _ _ _ _ Hins). pose proof (wf_item p Hwf k Hk). lia. Qed.

Lemma inserted_items : page_items p' = insert_at (Z.to_nat (pos - 1)) item (page_items p).
Proof using All.
  pose proof (inserted_slots _ _ _ _ Hins) as Hns. pose proof (proj2 (wf_slots p Hwf)) as Hn0.
  pose proof (length_page_items p Hn0) as Hlen.
  assert (Hlt : length (take (Z.to_nat (pos - 1)) (page_items p)) = Z.to_nat (pos - 1)) by (rewrite length_take; lia).
  unfold insert_at. apply list_eq. intros i. destruct (decide (Z.of_nat i < nslots p + 1)) as [Hi|Hi].
  - rewrite page_items_lookup by lia. destruct (decide (1 + Z.of_nat i = pos)) as [Ek|Ek].
    + rewrite Ek, (is_new _ _ _ _ Hins). replace i with (length (take (Z.to_nat (pos - 1)) (page_items p))) by lia.
      rewrite list_lookup_middle by done. f_equal. apply (is_item _ _ _ _ Hins).
    + assert (Hk : 1 ≤ 1 + Z.of_nat i ≤ nslots p + 1) by lia.
      rewrite (is_old _ _ _ _ Hins) by done. rewrite inserted_read by (by apply old_normal).
      unfold old_slot. destruct (_ <? pos) eqn:Ekp; to_prop.
      * rewrite lookup_app_l, lookup_take_lt by lia. by rewrite page_items_lookup by lia.
      * rewrite lookup_app_r by lia. rewrite Hlt. replace (i - Z.to_nat (pos - 1))%nat with (S (i - Z.to_nat pos)) by lia.
        change ((item :: ?l) !! S ?k) with (l !! k). rewrite lookup_drop, page_items_lookup by lia. do 3 f_equal. lia.
  - rewrite !lookup_ge_None_2; [done|..].
    + rewrite length_app, length_take. cbn. rewrite length_drop. lia.
    + pose proof (length_page_items p'). lia.
Qed.
End inserted.

Lemma inserted_page p items o pos item p' :
  bt_page p items o → 1 ≤ pos ≤ Z.of_nat (length items) + 1 → item ≠ [] → inserted p pos item p' →
  bt_page p' (insert_at (Z.to_nat (pos - 1)) item items) o.
Proof.
  intros Hp Hpos Hne Hins. destruct (bt_slots _ _ _ Hp) as [Hn _]. rewrite <- Hn in Hpos.
  pose proof (is_lower _ _ _ _ Hins) as Hlo. pose proof (is_upper _ _ _ _ Hins) as Hup. pose proof (is_special _ _ _ _ Hins) as Hsp.
  destruct Hp as [Hwf Hspecial Hnorm <- <- Hroom]. split.
  - by apply (inserted_wf p p' pos item).
  - by rewrite Hsp.
  - by apply (inserted_normal p p' pos item).
  - by apply inserted_items.
  - unfold _bt_page_getopaque. rewrite Hsp. rewrite (read_ext (bytes p') (bytes p)); [done|]. intros k Hk. apply (is_bytes _ _ _ _ Hins).
    pose proof (wf_order p Hwf). lia.
  - unfold insert_at. rewrite room_app, room_cons. rewrite <- (take_drop (Z.to_nat (pos - 1)) (page_items p)) in Hroom at 1.
    rewrite room_app in Hroom. lia.
Qed.

(** The page behind the code's assignments. *)
Lemma placed_inserted p pos item lp :
  page_wf p → pd_special p = kBlckSz - kBTPageOpaqueSize → 0 < Z.of_nat (length item) →
  MaxAlignUp (Z.of_nat (length item)) + kItemIdSize ≤ pd_upper p - pd_lower p →
  (∀ k, 1 ≤ k ≤ nslots p + 1 → k ≠ pos → lp k = linp p (old_slot pos k)) →
  let off := pd_upper p - MaxAlignUp (Z.of_nat (length item)) in
  inserted p pos item
    (with_upper (u16 off) (with_lower (u16 (pd_lower p + kItemIdSize))
       (with_linp (set_linp pos (mkItemId (u15 off) kLPNormal (u15 (Z.of_nat (length item)))) lp)
          (with_bytes (memcpy_in off item (bytes p)) p)))).
Proof.
  intros [[Hl Hn0] Ho Hs _ _] Hsp H0 Hfit Hlp. pose proof (align_up_bounds (Z.of_nat (length item))) as Hal. cbn zeta.
  unfold kBlckSz, kBTPageOpaqueSize, kPageHeaderSize, kItemIdSize in *.
  assert (Hu : ∀ z, 0 ≤ z < 2 ^ 15 → u16 z = z ∧ u15 z = z) by (intros z Hz; unfold u16, u15; split; apply Z.mod_small; lia).
  set (off := pd_upper p - _). destruct (Hu off) as [-> ->]; [unfold off; lia|].
  destruct (Hu (Z.of_nat (length item))) as [_ ->]; [lia|]. destruct (Hu (pd_lower p + 4)) as [-> _]; [lia|].
  split; cbn; unfold set_linp, kItemIdSize; try done.
  - unfold off. lia.
  - by rewrite Z.eqb_refl.
  - intros k Hk Hkp. rewrite (proj2 (Z.eqb_neq _ _) Hkp). by apply Hlp.
  - apply read_memcpy.
  - intros k Hk. apply memcpy_outside. unfold off. lia.
Qed.

(** An insertion succeeds exactly when entry, line pointer and the spare word
    of [PageGetHeapFreeSpace] fit. *)
Lemma insert_item_run p items o item pos :
  bt_page p items o → 0 < Z.of_nat (length item) < 2 ^ 16 → 1 ≤ pos ≤ Z.of_nat (length items) + 1 →
  if kBtSpace - room items <? MaxAlignUp (Z.of_nat (length item)) + 2 * kItemIdSize
  then _bt_page_insert_item item pos p = (kInvalidOffsetNumber, p)
  else ∃ p', _bt_page_insert_item item pos p = (pos, p') ∧ bt_page p' (insert_at (Z.to_nat (pos - 1)) item items) o.
Proof.
  intros Hp Hlen Hpos. destruct (bt_slots _ _ _ Hp) as [Hn Hmax].
  unfold _bt_page_insert_item. rewrite Hmax, (free_space_room _ _ _ Hp).
  replace (u16 (Z.of_nat (length item))) with (Z.of_nat (length item)) by (unfold u16; rewrite Z.mod_small; lia).
  change (Z.land (Z.of_nat (length item) + 3) (Z.lnot 3)) with (MaxAlignUp (Z.of_nat (length item))).
  pose proof (align_up_bounds (Z.of_nat (length item))) as Hal.
  assert (H4 : kItemIdSize = 4) by done. destruct (_ <? _ + 2 * kItemIdSize) eqn:E; to_prop.
  { by rewrite (proj2 (Z.ltb_lt _ _)) by lia. }
  rewrite (proj2 (Z.ltb_ge _ _)) by lia. eexists. split; [reflexivity|]. apply (inserted_page p); [done|done|intros ->; cbn in Hlen; lia|].
  pose proof (bp_room _ _ _ Hp). apply placed_inserted; [by apply Hp|by apply Hp|lia|lia|].
  rewrite Hn. intros k Hk Hkp. unfold old_slot. destruct (pos <=? Z.of_nat (length items)) eqn:Epn; to_prop.
  - unfold shift_slots. destruct (k <? pos) eqn:Ekp; to_prop.
    + by rewrite (proj2 (Z.ltb_ge _ _)) by lia.
    + by rewrite (proj2 (Z.ltb_lt pos k)), (proj2 (Z.leb_le k _)) by lia.
  - by rewrite (proj2 (Z.ltb_lt _ _)) by lia.
Qed.

(** ** Building pages *)

Definition wf_opaque (o : BTPageOpaqueData) : Prop :=
  is_u32 (btpo_prev o) ∧ is_u32 (btpo_next o) ∧ is_u32 (btpo_flags o) ∧ is_u32 (btpo_level o).

Lemma le4_u32 z : is_u32 z → of_le (to_le 4 z) = z.
Proof. intros H. rewrite of_to_le. apply Z.mod_small. exact H. Qed.

Lemma word_skip n z b : word_at (S n) (to_le 4 z ++ b) = word_at n b.
Proof. unfold word_at. replace (4 * S n)%nat with (length (to_le 4 z) + 4 * n)%nat by (rewrite length_to_le; lia). by rewrite drop_app_add. Qed.

Lemma word_first z b : is_u32 z → word_at 0 (to_le 4 z ++ b) = z.
Proof. intros H. unfold word_at. cbn [Nat.mul]. rewrite drop_0, take_app_le by (rewrite length_to_le; lia). rewrite take_ge by (by rewrite length_to_le). by apply le4_u32. Qed.

Lemma opaque_words o : wf_opaque o →
  mkOpaque (word_at 0 (opaque_bytes o)) (word_at 1 (opaque_bytes o)) (word_at 2 (opaque_bytes o)) (word_at 3 (opaque_bytes o)) = o.
Proof.
  intros (H1 & H2 & H3 & H4). unfold opaque_bytes. rewrite <- (app_nil_r (to_le 4 (btpo_level o))).
  rewrite !word_skip, !word_first by done. by destruct o.
Qed.

Lemma set_opaque_page p items o o' : bt_page p items o → wf_opaque o' → bt_page (set_opaque o' p) items o'.
Proof.
  intros [Hwf Hsp Hnorm Hits Hop Hroom] Ho. split; try done.
  - by destruct Hwf.
  - rewrite <- Hits. unfold page_items. apply list_fmap_ext. intros i k Hk. apply lookup_seqZ in Hk as [-> Hk].
    apply read_ext. intros x Hx. cbn. apply memcpy_outside.
    destruct (wf_item p Hwf (1 + Z.of_nat i)) as (_ & _ & He); [split; [unfold nslots in *; cbn in *; lia|apply Hnorm; unfold nslots in *; cbn in *; lia]|].
    unfold item_end in He. cbn in Hx. pose proof (align_up_bounds (li_len (linp p (1 + Z.of_nat i)))). lia.
  - unfold _bt_page_getopaque. cbn [bytes set_opaque with_bytes pd_special]. change kBTPageOpaqueSize with (Z.of_nat (length (opaque_bytes o'))).
    rewrite read_memcpy. by apply opaque_words.
Qed.

Lemma init_page_run flags level :
  is_u32 flags → is_u32 level → bt_page (_bt_init_page flags level) [] (mkOpaque 0 0 flags level).
Proof.
  intros Hf Hl. apply (set_opaque_page _ _ (mkOpaque 0 0 0 0)); [|by unfold wf_opaque, is_u32 in *; cbn; lia]. split; try done.
  - by apply init_wf.
  - intros i Hi. cbn in Hi. replace (nslots _) with 0 in Hi by (vm_compute; reflexivity). lia.
Qed.

Lemma append_run p items o item :
  bt_page p items o → item ≠ [] → room items + kItemIdSize + MaxAlignUp (Z.of_nat (length item)) ≤ kBtSpace →
  bt_page (PageAddItem item kInvalidOffsetNumber p).2 (items ++ [item]) o.
Proof.
  intros Hp Hne Hfit. destruct (bt_slots _ _ _ Hp) as [Hn Hmax]. pose proof (bp_room _ _ _ Hp) as Hroom.
  assert (Hlen : 0 < Z.of_nat (length item)) by (destruct item; [done|cbn; lia]).
  pose proof (bp_wf _ _ _ Hp) as Hwf. destruct (wf_slots p Hwf) as [Hl Hn0]. pose proof (wf_size p Hwf) as Hsz. pose proof (wf_order p Hwf) as Ho.
  assert (H4 : kItemIdSize = 4) by done. assert (H24 : kPageHeaderSize = 24) by done.
  replace (items ++ [item]) with (insert_at (Z.to_nat (Z.of_nat (length items) + 1 - 1)) item items)
    by (unfold insert_at; rewrite take_ge, drop_ge by lia; done).
  apply (inserted_page p); [done|lia|done|]. unfold PageAddItem. rewrite Z.eqb_refl, Hmax.
  replace (u16 (Z.of_nat (length items) + 1)) with (Z.of_nat (length items) + 1) by (unfold u16; rewrite Z.mod_small; lia).
  replace (kPageHeaderSize + (Z.of_nat (length items) + 1 - 1 + 1) * kItemIdSize) with (pd_lower p + kItemIdSize) by lia.
  rewrite (proj2 (orb_false_iff _ _)) by (split; apply Z.ltb_ge; lia). rewrite (proj2 (Z.ltb_lt _ _)) by done.
  apply placed_inserted; [done|apply Hp|done|lia|]. rewrite Hn. intros k Hk Hkp. unfold old_slot.
  by rewrite (proj2 (Z.ltb_lt _ _)) by lia.
Qed.

Lemma add_all_run items p items0 o :
  bt_page p items0 o → Forall (λ item, item ≠ []) items → room items0 + room items ≤ kBtSpace →
  bt_page (add_all items p) (items0 ++ items) o.
Proof.
  intros Hp Hne. revert p items0 Hp. induction Hne as [|item items Hi _ IH]; intros p items0 Hp Hfit.
  - by rewrite app_nil_r.
  - rewrite room_cons in Hfit. pose proof (room_nonneg items). cbn [add_all foldl]. rewrite cons_middle, app_assoc. apply IH.
    + apply append_run; [done|done|lia].
    + rewrite room_app, room_cons. cbn [room foldr]. lia.
Qed.

Lemma list_filter_true {A} (P : A → Prop) `{!∀ x, Decision (P x)} (l : list A) : (∀ x, x ∈ l → P x) → base.filter P l = l.
Proof.
  induction l as [|x l IH]; intros Hall; [done|]. rewrite filter_cons_True by (apply Hall; by left).
  f_equal. apply IH. intros y Hy. apply Hall. by right.
Qed.

Lemma read_all_run p items o : bt_page p items o → _bt_read_all_items p = items.
Proof.
  intros Hp. destruct (bt_slots _ _ _ Hp) as [Hn Hmax]. rewrite <- (bp_items _ _ _ Hp). unfold _bt_read_all_items, page_items.
  rewrite Hmax, <- Hn. f_equal.
  apply list_filter_true. intros k Hk. apply elem_of_seqZ in Hk. apply (bp_normal _ _ _ Hp). lia.
Qed.

(** ** Searching *)

(** The number of leading entries that [go] passes by. *)
Fixpoint passed (go : list Z → bool) (items : list (list Z)) : nat :=
  match items with [] => O | item :: rest => if go item then S (passed go rest) else O end.

(** Entries whose key is below, and those whose key is not above. *)
Definition below (kind : BTKeyKind) (key item : list Z) : bool := 0 <? _bt_compare_keys kind key (_bt_item_get_key item).
Definition not_above (kind : BTKeyKind) (key item : list Z) : bool :=
  negb (_bt_compare_keys kind key (_bt_item_get_key item) <? 0).

Lemma passed_le go items : (passed go items ≤ length items)%nat.
Proof. induction items as [|item items IH]; cbn; [done|]. destruct (go item); lia. Qed.

Lemma passed_take go items item : item ∈ take (passed go items) items → go item = true.
Proof.
  induction items as [|x items IH]; cbn [passed]; [by intros ?%elem_of_nil|]. destruct (go x) eqn:E; cbn [take]; [|by intros ?%elem_of_nil].
  intros [->|H]%elem_of_cons; [done|by apply IH].
Qed.

Lemma passed_next go items item : items !! passed go items = Some item → go item = false.
Proof. induction items as [|x items IH]; cbn [passed]; [done|]. destruct (go x) eqn:E; cbn; [done|by intros [= <-]]. Qed.

Lemma find_pos_suffix p items o kind key rest i :
  bt_page p items o → drop i items = rest → (i + length rest = length items)%nat →
  find_pos p kind key (seqZ (1 + Z.of_nat i) (Z.of_nat (length rest))) = 1 + Z.of_nat (i + passed (below kind key) rest).
Proof.
  intros Hp. destruct (bt_slots _ _ _ Hp) as [Hn Hmax]. revert i. induction rest as [|item rest IH]; intros i Hd Hlen.
  - cbn [length passed] in *. rewrite seqZ_nil by lia. cbn [find_pos]. rewrite Hmax.
    destruct (bp_wf _ _ _ Hp) as [[Hl Hn0] Ho Hs _ _]. unfold kPageHeaderSize, kItemIdSize in *. unfold u16. rewrite Z.mod_small; lia.
  - assert (Hi : items !! i = Some item) by (rewrite <- (Nat.add_0_r i), <- lookup_drop, Hd; done).
    destruct (bt_slot _ _ _ _ _ Hp Hi) as [Hnorm Hget]. cbn [length]. rewrite Nat2Z.inj_succ, seqZ_cons by lia. cbn [find_pos passed].
    unfold slot_key. rewrite Hnorm, Hget. cbn [negb]. unfold below at 1. rewrite Z.ltb_antisym.
    destruct (_ <=? 0) eqn:E; cbn [negb]; [lia|].
    replace (Z.succ (1 + Z.of_nat i)) with (1 + Z.of_nat (S i)) by lia.
    replace (Z.pred (Z.succ (Z.of_nat (length rest)))) with (Z.of_nat (length rest)) by lia.
    cbn [length] in Hlen. rewrite IH; [lia| |lia]. replace (S i) with (i + 1)%nat by lia. rewrite <- drop_drop, Hd. done.
Qed.

Lemma find_pos_run p items o kind key :
  bt_page p items o → _bt_find_scan_pos p kind key = 1 + Z.of_nat (passed (below kind key) items).
Proof.
  intros Hp. unfold _bt_find_scan_pos, offsets. destruct (bt_slots _ _ _ Hp) as [_ ->].
  exact (find_pos_suffix p items o kind key items 0 Hp eq_refl eq_refl).
Qed.

(** Entries in key order. *)
Definition key_sorted (kind : BTKeyKind) (items : list (list Z)) : Prop :=
  StronglySorted (λ a b, _bt_compare_keys kind (_bt_item_get_key a) (_bt_item_get_key b) ≤ 0) items.

(** The entries a search goes past come first. *)
Definition prefix_test (go : list Z → bool) (items : list (list Z)) : Prop :=
  ∀ i j a b, (i < j)%nat → items !! i = Some a → items !! j = Some b → go b = true → go a = true.

Lemma sorted_lookup kind items i j a b :
  key_sorted kind items → (i < j)%nat → items !! i = Some a → items !! j = Some b →
  _bt_compare_keys kind (_bt_item_get_key a) (_bt_item_get_key b) ≤ 0.
Proof.
  intros Hs. revert i j. induction Hs as [|x l _ IH Hx]; intros i j Hij Hi Hj; [done|].
  destruct i as [|i], j as [|j]; try lia; cbn in *.
  - injection Hi as <-. rewrite Forall_forall in Hx. apply Hx. by apply list_elem_of_lookup_2 in Hj.
  - by apply (IH i j); [lia|..].
Qed.

Lemma below_prefix kind key items : key_sorted kind items → prefix_test (below kind key) items.
Proof.
  intros Hs i j a b Hij Hi Hj. pose proof (sorted_lookup _ _ _ _ _ _ Hs Hij Hi Hj) as Hab. unfold below. intros Hb. to_prop.
  apply Z.ltb_lt. rewrite compare_opp in Hb |- *.
  pose proof (compare_le_lt kind (_bt_item_get_key a) (_bt_item_get_key b) key Hab). lia.
Qed.

Lemma not_above_prefix kind key items : key_sorted kind items → prefix_test (not_above kind key) items.
Proof.
  intros Hs i j a b Hij Hi Hj. pose proof (sorted_lookup _ _ _ _ _ _ Hs Hij Hi Hj) as Hab. unfold not_above.
  rewrite !negb_true_iff, !Z.ltb_ge. intros Hb. destruct (decide (0 ≤ _bt_compare_keys kind key (_bt_item_get_key a))); [done|].
  pose proof (compare_lt_le kind key (_bt_item_get_key a) (_bt_item_get_key b)). lia.
Qed.

Lemma passed_iff go items i item :
  prefix_test go items → items !! i = Some item → go item = true ↔ (i < passed go items)%nat.
Proof.
  intros Hpre Hi. split.
  - intros Hgo. destruct (decide (i < passed go items)%nat) as [|Hge]; [done|].
    assert (Hlt : (passed go items < length items)%nat) by (apply lookup_lt_Some in Hi; lia).
    destruct (lookup_lt_is_Some_2 _ _ Hlt) as [x Hx]. pose proof (passed_next _ _ _ Hx) as Hf.
    destruct (decide (i = passed go items)) as [->|Hne]; [congruence|].
    rewrite (Hpre (passed go items) i x item) in Hf; [done|lia|done..].
  - intros Hlt. apply (passed_take go items), (list_elem_of_lookup_2 _ i). by rewrite lookup_take_lt.
Qed.

Lemma binsrch_run p items o kind key (for_insert : bool) fuel low high :
  let go := if for_insert then not_above kind key else below kind key in
  bt_page p items o → prefix_test go items →
  1 ≤ low → low - 1 ≤ Z.of_nat (passed go items) ≤ high → high ≤ Z.of_nat (length items) → high - low + 1 < Z.of_nat fuel →
  binsrch_loop fuel p kind key for_insert low high = Some (1 + Z.of_nat (passed go items)).
Proof.
  intros go Hp Hpre. destruct (bt_slots _ _ _ Hp) as [Hn Hmax].
  assert (Hbig : Z.of_nat (length items) < 2 ^ 15).
  { destruct (bp_wf _ _ _ Hp) as [[Hl Hn0] Ho Hs _ _]. unfold kPageHeaderSize, kItemIdSize in *. lia. }
  revert low high. induction fuel as [|fuel IH]; intros low high H1 Hb Hh Hf; [lia|]. cbn [binsrch_loop].
  destruct (low <=? high) eqn:E; cbn [negb]; to_prop; [|f_equal; lia].
  pose proof (Z.div_mod (high - low) 2). pose proof (Z.mod_pos_bound (high - low) 2).
  set (mid := low + (high - low) / 2) in *.
  assert (Hmid : low ≤ mid ≤ high) by (unfold mid; lia).
  assert (Hu : ∀ z, 0 ≤ z < 2 ^ 16 → u16 z = z) by (intros z Hz; by apply Z.mod_small). rewrite (Hu mid), (Hu (mid + 1)), (Hu (mid - 1)) by lia.
  destruct (lookup_lt_is_Some_2 items (Z.to_nat (mid - 1))) as [item Hi]; [lia|].
  destruct (bt_slot _ _ _ _ _ Hp Hi) as [Hnorm Hget]. replace (1 + Z.of_nat (Z.to_nat (mid - 1))) with mid in * by lia.
  unfold slot_key. rewrite Hnorm, Hget. cbn [negb]. pose proof (passed_iff go items _ _ Hpre Hi) as Hiff.
  replace (if for_insert then _ else _) with (go item) by (by destruct for_insert).
  destruct (go item) eqn:Ego.
  - apply IH; [lia| |lia|lia]. pose proof (proj1 Hiff eq_refl). lia.
  - apply IH; [lia| |lia|lia]. destruct (decide (Z.to_nat (mid - 1) < passed go items)%nat) as [Hlt|]; [|lia].
    apply Hiff in Hlt. congruence.
Qed.

(** binary and linear search agree.  On a page whose entries are in key
    order the binary search ends; searching for a scan it returns the slot the
    linear search returns, and searching for an insertion the slot behind all
    entries whose key is not above the given one. *)
Theorem binary_search_exact p items o kind key :
  bt_page p items o → key_sorted kind items →
  _bt_binsrch p kind key false = Some (_bt_find_scan_pos p kind key) ∧
  ∃ pos, _bt_binsrch p kind key true = Some pos ∧ 1 ≤ pos ≤ Z.of_nat (length items) + 1 ∧
    ∀ i item, items !! i = Some item → Z.of_nat i + 1 < pos ↔ 0 ≤ _bt_compare_keys kind key (_bt_item_get_key item).
Proof.
  intros Hp Hs. destruct (bt_slots _ _ _ Hp) as [Hn Hmax]. unfold _bt_binsrch. rewrite Hmax.
  pose proof (passed_le (below kind key) items). pose proof (passed_le (not_above kind key) items). split.
  - rewrite (find_pos_run p items o) by done. apply (binsrch_run p items o kind key false); try lia; [done|by apply below_prefix].
  - exists (1 + Z.of_nat (passed (not_above kind key) items)). split; [|split; [lia|]].
    + apply (binsrch_run p items o kind key true); try lia; [done|by apply not_above_prefix].
    + intros i item Hi. rewrite <- Z.ltb_ge, <- negb_true_iff. change (negb _) with (not_above kind key item).
      rewrite (passed_iff _ _ i) by (done || by apply not_above_prefix). lia.
Qed.

(** A leaf with a key that occurs twice. *)
Definition demo_items : list (list Z) :=
  (λ kt, _bt_build_item kInt32 (to_le 4 kt.1) (mkTid 0 kt.2)) <$> [(10, 1); (20, 2); (20, 3); (30, 4)].
Definition demo_leaf : Page := add_all demo_items (_bt_init_page kBtpLeaf 0).

Lemma demo_leaf_page : bt_page demo_leaf demo_items (mkOpaque 0 0 kBtpLeaf 0).
Proof.
  apply (add_all_run demo_items (_bt_init_page kBtpLeaf 0) []).
  - apply init_page_run; unfold is_u32, kBtpLeaf; lia.
  - by repeat constructor.
  - by vm_compute.
Qed.

Lemma binary_search_exact_witness :
  ∃ pos, _bt_binsrch demo_leaf kInt32 (to_le 4 20) true = Some pos ∧
    ∀ i item, demo_items !! i = Some item → Z.of_nat i + 1 < pos ↔ 0 ≤ _bt_compare_keys kInt32 (to_le 4 20) (_bt_item_get_key item).
Proof.
  destruct (binary_search_exact demo_leaf demo_items (mkOpaque 0 0 kBtpLeaf 0) kInt32 (to_le 4 20)) as [_ (pos & H1 & _ & H3)].
  - exact demo_leaf_page.
  - repeat constructor; by vm_compute.
  - exact (ex_intro _ pos (conj H1 H3)).
Defined.

End NbtPage.
