(* ===== verification/Nbtree.v ===== *)
(** * The B-tree access method

    src/access/nbtree/nbtree.cpp: building an index, inserting entries (with
    the split of the first root and of leaves below an internal root), and
    scans.  The index has at most two levels: an internal root is never split.

    The index is a relation whose pages the buffer pool holds, as in [Heap].
    [smgrextend] appends the block; the code always passes the number of
    blocks as its position.  A scan descriptor is passed and returned.

    [item_buf] of [btinsert] has 256 bytes; longer text keys overflow it, and
    the model says nothing about them. *)

From stdpp Require Import base gmap list strings.
From S2P Require Import Prelude HeapTuple BufPage Heap NbtPage.

Module Nbtree.
Import HeapTuple BufPage NbtPage.
Import Heap.

(** Writing to the page of a buffer. *)
Definition set_page (b : Buffer) (p : Page) : M Bufs unit := modify (put_page b p).

Definition _bt_getbuf (index : RelationData) (blkno : Z) : M Bufs Buffer :=
  node ← RelationGetSmgr index;
  ReadBuffer node blkno.

Definition _bt_relandgetbuf (index : RelationData) (buf : Buffer) (blkno : Z) : M Bufs Buffer :=
  ReleaseBuffer buf;; _bt_getbuf index blkno.

Definition _bt_relbuf (buf : option Buffer) : M Bufs unit :=
  match buf with Some b => ReleaseBuffer b | None => mret tt end.

Definition _bt_create_page (index : RelationData) (block_num flags level : Z) : M Bufs Buffer :=
  node ← RelationGetSmgr index;
  smgrextend node (_bt_init_page flags level);;
  ReadBuffer node block_num.

Definition btbuild (index : RelationData) : M Bufs unit :=
  node ← RelationGetSmgr index;
  smgrextend node (_bt_init_meta_page 1);;
  smgrextend node (_bt_init_page (Z.lor kBtpLeaf kBtpRoot) 0).

(** ** Insertion *)

(** The root block, from the meta page. *)
Definition read_root (node : Z) : M Bufs Z :=
  meta_buf ← ReadBuffer node 0;
  meta ← gets (λ s, _bt_get_meta (page_of s meta_buf));
  ReleaseBuffer meta_buf;;
  mret (root meta).

(** The position of the new entry among the entries of a full page. *)
Fixpoint insert_idx (kind : BTKeyKind) (key : list Z) (entries : list (list Z)) : nat :=
  match entries with
  | [] => O
  | item :: rest => if _bt_compare_keys kind key (_bt_item_get_key item) <=? 0 then O else S (insert_idx kind key rest)
  end.

(** An entry of the internal root: the child, and the first key of it. *)
Definition internal_entry (child : Z) (key : list Z) : list Z := to_le 4 child ++ key.

(** The loop over the entries of the internal root. *)
Fixpoint descend (p : Page) (kind : BTKeyKind) (key : list Z) (offs : list Z) (child_block : Z) : Z :=
  match offs with
  | [] => child_block
  | off :: offs' =>
      let item_id := PageGetItemId p off in
      if negb (ItemIdIsNormal item_id) then descend p kind key offs' child_block
      else
        let data := PageGetItem p item_id in
        if (length data <? 4)%nat then descend p kind key offs' child_block
        else
          let entry_child := of_le (take 4 data) in
          if off =? 1 then descend p kind key offs' entry_child
          else if _bt_compare_keys kind key (drop 4 data) <? 0 then child_block
          else descend p kind key offs' entry_child
  end.

(** Where the separator goes in the internal root, from slot 2 on. *)
Fixpoint root_pos (p : Page) (kind : BTKeyKind) (key : list Z) (offs : list Z) : Z :=
  match offs with
  | [] => u16 (PageGetMaxOffsetNumber p + 1)
  | off :: offs' =>
      let item_id := PageGetItemId p off in
      if negb (ItemIdIsNormal item_id) then root_pos p kind key offs'
      else
        let data := PageGetItem p item_id in
        if (length data <? 4)%nat then root_pos p kind key offs'
        else if _bt_compare_keys kind key (drop 4 data) <=? 0 then off
        else root_pos p kind key offs'
  end.

(** The split of a root that is a leaf. *)
Definition split_root (index : RelationData) (node : Z) (kind : BTKeyKind) (key item : list Z) (root_block : Z) (root_buf : Buffer)
  : M Bufs bool :=
  root_page ← gets (λ s, page_of s root_buf);
  let entries := _bt_read_all_items root_page in
  let entries := insert_at (insert_idx kind key entries) item entries in
  let mid := (length entries / 2)%nat in
  nblocks ← RelationGetNumberOfBlocks index;
  let new_leaf_block := nblocks in
  let new_root_block := u32 (nblocks + 1) in
  new_leaf_buf ← _bt_create_page index new_leaf_block kBtpLeaf 0;
  new_leaf_page ← gets (λ s, page_of s new_leaf_buf);
  let root_page := add_all (take mid entries) (_bt_init_page kBtpLeaf 0) in
  let new_leaf_page := add_all (drop mid entries) new_leaf_page in
  let old_opaque := _bt_page_getopaque root_page in
  let new_opaque := _bt_page_getopaque new_leaf_page in
  set_page root_buf
    (set_opaque (mkOpaque (btpo_prev old_opaque) new_leaf_block (btpo_flags old_opaque) (btpo_level old_opaque)) root_page);;
  set_page new_leaf_buf
    (set_opaque (mkOpaque root_block (btpo_next new_opaque) (btpo_flags new_opaque) (btpo_level new_opaque)) new_leaf_page);;
  MarkBufferDirty root_buf;;
  MarkBufferDirty new_leaf_buf;;
  ReleaseBuffer new_leaf_buf;;
  new_root_buf ← _bt_create_page index new_root_block kBtpRoot 1;
  new_root_page ← gets (λ s, page_of s new_root_buf);
  let first_key := _bt_item_get_key (default [] (entries !! mid)) in
  set_page new_root_buf (add_all [to_le 4 root_block; internal_entry new_leaf_block first_key] new_root_page);;
  MarkBufferDirty new_root_buf;;
  ReleaseBuffer new_root_buf;;
  ReleaseBuffer root_buf;;
  meta_buf2 ← ReadBuffer node 0;
  meta_page2 ← gets (λ s, page_of s meta_buf2);
  set_page meta_buf2 (_bt_update_meta new_root_block meta_page2);;
  MarkBufferDirty meta_buf2;;
  ReleaseBuffer meta_buf2;;
  mret true.

(** The separator of a new leaf goes to the internal root; where there is no
    room the code warns and goes on. *)
Definition add_separator (kind : BTKeyKind) (first_key : list Z) (new_leaf_block : Z) (root_page : Page) : Page :=
  let root_insert_pos := root_pos root_page kind first_key (seqZ 2 (PageGetMaxOffsetNumber root_page - 1)) in
  (_bt_page_insert_item (internal_entry new_leaf_block first_key) root_insert_pos root_page).2.

(** The split of a leaf below an internal root. *)
Definition split_leaf (index : RelationData) (node : Z) (kind : BTKeyKind) (key item : list Z) (child_block : Z)
    (leaf_buf root_buf : Buffer) : M Bufs bool :=
  leaf_page ← gets (λ s, page_of s leaf_buf);
  let entries := _bt_read_all_items leaf_page in
  let entries := insert_at (insert_idx kind key entries) item entries in
  let mid := (length entries / 2)%nat in
  let old_next := btpo_next (_bt_page_getopaque leaf_page) in
  nblocks ← RelationGetNumberOfBlocks index;
  let new_leaf_block := nblocks in
  let leaf_page := add_all (take mid entries) (_bt_init_page kBtpLeaf 0) in
  set_page leaf_buf leaf_page;;
  new_leaf_buf ← _bt_create_page index new_leaf_block kBtpLeaf 0;
  new_leaf_page ← gets (λ s, page_of s new_leaf_buf);
  let new_leaf_page := add_all (drop mid entries) new_leaf_page in
  let old_opaque := _bt_page_getopaque leaf_page in
  let new_opaque := _bt_page_getopaque new_leaf_page in
  set_page leaf_buf
    (set_opaque (mkOpaque (btpo_prev old_opaque) new_leaf_block (btpo_flags old_opaque) (btpo_level old_opaque)) leaf_page);;
  set_page new_leaf_buf
    (set_opaque (mkOpaque child_block old_next (btpo_flags new_opaque) (btpo_level new_opaque)) new_leaf_page);;
  MarkBufferDirty leaf_buf;;
  MarkBufferDirty new_leaf_buf;;
  ReleaseBuffer new_leaf_buf;;
  ReleaseBuffer leaf_buf;;
  let first_key := _bt_item_get_key (default [] (entries !! mid)) in
  root_page ← gets (λ s, page_of s root_buf);
  set_page root_buf (add_separator kind first_key new_leaf_block root_page);;
  MarkBufferDirty root_buf;;
  ReleaseBuffer root_buf;;
  mret true.

Definition btinsert (index : RelationData) (kind : BTKeyKind) (key : list Z) (tid : ItemPointerData) : M Bufs bool :=
  node ← RelationGetSmgr index;
  root_block ← read_root node;
  root_buf ← ReadBuffer node root_block;
  root_page ← gets (λ s, page_of s root_buf);
  let item := _bt_build_item kind key tid in
  if _bt_is_leaf_page root_page then
    let insert_pos := _bt_find_insert_pos root_page kind key in
    let '(result, page) := _bt_page_insert_item item insert_pos root_page in
    if negb (result =? kInvalidOffsetNumber) then
      set_page root_buf page;;
      MarkBufferDirty root_buf;;
      ReleaseBuffer root_buf;;
      mret true
    else split_root index node kind key item root_block root_buf
  else
    let child_block := descend root_page kind key (offsets (PageGetMaxOffsetNumber root_page)) root_block in
    leaf_buf ← ReadBuffer node child_block;
    leaf_page ← gets (λ s, page_of s leaf_buf);
    let insert_pos := _bt_find_insert_pos leaf_page kind key in
    let '(result, page) := _bt_page_insert_item item insert_pos leaf_page in
    if negb (result =? kInvalidOffsetNumber) then
      set_page leaf_buf page;;
      MarkBufferDirty leaf_buf;;
      ReleaseBuffer leaf_buf;;
      ReleaseBuffer root_buf;;
      mret true
    else split_leaf index node kind key item child_block leaf_buf root_buf.

(** ** Scans *)

Inductive BTStrategy := kAll | kEqual | kLess | kLessEqual | kGreater | kGreaterEqual.
#[export] Instance BTStrategy_eq_dec : EqDecision BTStrategy.
Proof. solve_decision. Defined.

(** [key] is null where the scan has no key. *)
Record BTScanKeyData := mkScanKey { sk_kind : BTKeyKind; sk_key : option (list Z); strategy : BTStrategy }.

Record BTScanDescData := mkBTScan {
  index : RelationData;
  key_kind : BTKeyKind;
  scan_key : BTScanKeyData;
  curr_block : Z;
  curr_buf : option Buffer;
  curr_offset : Z;
  inited : bool;
  curr_tid : ItemPointerData;
}.

(** The pinned leaf and the slot of the first entry that is not below the key. *)
Definition _bt_search_leaf (index : RelationData) (kind : BTKeyKind) (key : list Z) : M Bufs (Buffer * Z) :=
  node ← RelationGetSmgr index;
  root_block ← read_root node;
  root_buf ← ReadBuffer node root_block;
  root_page ← gets (λ s, page_of s root_buf);
  if _bt_is_leaf_page root_page then mret (root_buf, _bt_find_scan_pos root_page kind key)
  else
    let leaf_block := descend root_page kind key (offsets (PageGetMaxOffsetNumber root_page)) root_block in
    ReleaseBuffer root_buf;;
    leaf_buf ← ReadBuffer node leaf_block;
    leaf_page ← gets (λ s, page_of s leaf_buf);
    mret (leaf_buf, _bt_find_scan_pos leaf_page kind key).

Definition btbeginscan (index : RelationData) (kind : BTKeyKind) (scan_key : option BTScanKeyData) : BTScanDescData :=
  mkBTScan index kind (default (mkScanKey kind None kAll) scan_key) 0 None 0 false (mkTid 0 0).

Definition _bt_entry_matches (kind : BTKeyKind) (entry_key : list Z) (scan_key : BTScanKeyData) : bool :=
  match sk_key scan_key with
  | None => true
  | Some key =>
      let cmp := _bt_compare_keys kind entry_key key in
      match strategy scan_key with
      | kAll => true
      | kEqual => cmp =? 0
      | kLess => cmp <? 0
      | kLessEqual => cmp <=? 0
      | kGreater => 0 <? cmp
      | kGreaterEqual => 0 <=? cmp
      end
  end.

(** Whether the scan ends at an entry that does not match. *)
Definition scan_stops (kind : BTKeyKind) (entry_key : list Z) (scan_key : BTScanKeyData) : bool :=
  match sk_key scan_key with
  | None => false
  | Some key =>
      let cmp := _bt_compare_keys kind entry_key key in
      match strategy scan_key with
      | kLess => 0 <=? cmp
      | kEqual | kLessEqual => 0 <? cmp
      | _ => false
      end
  end.

(** What the loop over the slots of a page ends with, and the next offset. *)
Inductive page_step := Match (tid : ItemPointerData) (next : Z) | Stop (next : Z) | Exhausted.

Fixpoint scan_slots (p : Page) (kind : BTKeyKind) (sk : BTScanKeyData) (offs : list Z) : page_step :=
  match offs with
  | [] => Exhausted
  | off :: offs' =>
      let item_id := PageGetItemId p off in
      if negb (ItemIdIsNormal item_id) then scan_slots p kind sk offs'
      else
        let item := PageGetItem p item_id in
        let entry_key := _bt_item_get_key item in
        if _bt_entry_matches kind entry_key sk then Match (item_tid item) (u16 (off + 1))
        else if scan_stops kind entry_key sk then Stop (u16 (off + 1))
        else scan_slots p kind sk offs'
  end.

Definition with_pos (block : Z) (buf : option Buffer) (offset : Z) (scan : BTScanDescData) : BTScanDescData :=
  mkBTScan (index scan) (key_kind scan) (scan_key scan) block buf offset (inited scan) (curr_tid scan).
Definition with_tid (tid : ItemPointerData) (scan : BTScanDescData) : BTScanDescData :=
  mkBTScan (index scan) (key_kind scan) (scan_key scan) (curr_block scan) (curr_buf scan) (curr_offset scan) (inited scan) tid.
Definition with_inited (b : bool) (scan : BTScanDescData) : BTScanDescData :=
  mkBTScan (index scan) (key_kind scan) (scan_key scan) (curr_block scan) (curr_buf scan) (curr_offset scan) b (curr_tid scan).

(** The first leaf of the index, or the leaf of the key. *)
Definition position_scan (node : Z) (scan : BTScanDescData) : M Bufs BTScanDescData :=
  let scan := with_inited true scan in
  let sk := scan_key scan in
  match sk_key sk, strategy sk with
  | Some key, (kEqual | kGreater | kGreaterEqual) =>
      '(buf, start_offset) ← _bt_search_leaf (index scan) (key_kind scan) key;
      mret (with_pos buf.2 (Some buf) start_offset scan)
  | _, _ =>
      root_block ← read_root node;
      buf ← ReadBuffer node root_block;
      page ← gets (λ s, page_of s buf);
      if negb (_bt_is_leaf_page page) && (1 <=? PageGetMaxOffsetNumber page) then
        let child := of_le (take 4 (PageGetItem page (PageGetItemId page 1))) in
        ReleaseBuffer buf;;
        buf ← ReadBuffer node child;
        mret (with_pos child (Some buf) 1 scan)
      else mret (with_pos root_block (Some buf) 1 scan)
  end.

(** The loop over the leaves; [fuel] bounds their number. *)
Fixpoint scan_leaves (fuel : nat) (node : Z) (scan : BTScanDescData) : M Bufs (bool * BTScanDescData) :=
  match fuel, curr_buf scan with
  | _, None => mret (false, scan)
  | O, _ => ereport "out of fuel"
  | S fuel', Some buf =>
      page ← gets (λ s, page_of s buf);
      let max_offset := PageGetMaxOffsetNumber page in
      match scan_slots page (key_kind scan) (scan_key scan) (seqZ (curr_offset scan) (max_offset - curr_offset scan + 1)) with
      | Match tid next => mret (true, with_tid tid (with_pos (curr_block scan) (Some buf) next scan))
      | Stop next => ReleaseBuffer buf;; mret (false, with_pos (curr_block scan) None next scan)
      | Exhausted =>
          let next_block := btpo_next (_bt_page_getopaque page) in
          ReleaseBuffer buf;;
          if next_block =? 0 then mret (false, with_pos (curr_block scan) None (u16 (max_offset + 1)) scan)
          else
            buf' ← ReadBuffer node next_block;
            scan_leaves fuel' node (with_pos next_block (Some buf') 1 scan)
      end
  end.

(** A chain of leaves has fewer leaves than the relation has blocks. *)
Definition btgettuple (scan : BTScanDescData) : M Bufs (bool * BTScanDescData) :=
  node ← RelationGetSmgr (index scan);
  scan ← (if inited scan then mret scan else position_scan node scan);
  nblocks ← gets (λ s, length (fork_of s node));
  scan_leaves nblocks node scan.

Definition btrescan (scan : BTScanDescData) (new_scan_key : option BTScanKeyData) : M Bufs BTScanDescData :=
  _bt_relbuf (curr_buf scan);;
  mret (mkBTScan (index scan) (key_kind scan) (default (scan_key scan) new_scan_key) (curr_block scan) None 0 false (curr_tid scan)).

Definition btendscan (scan : BTScanDescData) : M Bufs unit := _bt_relbuf (curr_buf scan).

(** [while (btgettuple(scan))]; [fuel] bounds the entries.  The result is
    the number of entries, with the vector and the descriptor behind it. *)
Fixpoint bitmap_loop (fuel : nat) (scan : BTScanDescData) (tids : list ItemPointerData) (count : Z)
  : M Bufs (Z * list ItemPointerData * BTScanDescData) :=
  match fuel with
  | O => ereport "out of fuel"
  | S fuel' =>
      '(found, scan) ← btgettuple scan;
      if (found : bool) then bitmap_loop fuel' scan (tids ++ [curr_tid scan]) (count + 1) else mret (count, tids, scan)
  end.

(** A page has fewer than 2048 line pointers. *)
Definition btgetbitmap (scan : BTScanDescData) (tids : list ItemPointerData) : M Bufs (Z * list ItemPointerData * BTScanDescData) :=
  node ← RelationGetSmgr (index scan);
  nblocks ← gets (λ s, length (fork_of s node));
  bitmap_loop (S (nblocks * 2048)) scan tids 0.

Definition btcanreturn (index : RelationData) : bool := true.

End Nbtree.
