(* ===== verification/NbtTree.v ===== *)
(** * Leaves and separators of a B-tree

    The tree as a list of leaves: the block of each, the separator the root
    keeps for it (none for the first), and its entries.  What keeps the leaves
    in order, and that inserting into the leaf responsible for a key, or
    splitting it, is inserting into the sorted list of all entries. *)

From Stdlib Require Import Sorting.Sorted.
From stdpp Require Import base list numbers strings.
From S2P Require Import Prelude HeapTuple BufPage NbtPage Nbtree.

Module NbtTree.
Import HeapTuple BufPage NbtPage Nbtree.

(** ** Entries *)

Definition wf_tid (tid : ItemPointerData) : Prop := is_u32 (ip_blkid tid) ∧ is_u16 (ip_posid tid).

Definition wf_item (kind : BTKeyKind) (item : list Z) : Prop :=
  ∃ key tid, wf_key kind key ∧ wf_tid tid ∧ item = _bt_build_item kind key tid.

Lemma build_item kind key tid : wf_key kind key → _bt_build_item kind key tid = tid_bytes tid ++ key.
Proof. intros [_ Hl]. unfold _bt_build_item. destruct kind; rewrite ?take_ge by lia; done. Qed.

Lemma length_tid_bytes tid : length (tid_bytes tid) = 6%nat.
Proof. unfold tid_bytes. by rewrite length_app, !length_to_le. Qed.

Lemma item_key kind key tid : wf_key kind key → _bt_item_get_key (_bt_build_item kind key tid) = key.
Proof. intros Hk. rewrite build_item by done. unfold _bt_item_get_key, sizeof_BTItemData. by rewrite drop_app_length' by (by rewrite length_tid_bytes). Qed.

Lemma item_tid_build kind key tid : wf_key kind key → wf_tid tid → item_tid (_bt_build_item kind key tid) = tid.
Proof.
  intros Hk [Hb Hp]. rewrite build_item by done. unfold item_tid, tid_bytes. rewrite <- app_assoc.
  rewrite (take_app_length' _ _ 4), (drop_app_length' _ _ 4), (take_app_length' _ _ 2) by (by rewrite length_to_le).
  rewrite le4_u32 by done. rewrite of_to_le, Z.mod_small by exact Hp. by destruct tid.
Qed.

Lemma wf_item_key kind item : wf_item kind item → wf_key kind (_bt_item_get_key item).
Proof. intros (key & tid & Hk & _ & ->). by rewrite (item_key kind). Qed.

Lemma wf_item_length kind item : wf_item kind item → length item = (6 + length (_bt_item_get_key item))%nat.
Proof. intros (key & tid & Hk & _ & ->). rewrite (item_key kind), build_item, length_app, length_tid_bytes by done. done. Qed.

(** The order of entries; [below] decides it. *)
Definition item_lt (kind : BTKeyKind) (a b : list Z) : Prop :=
  _bt_compare_keys kind (_bt_item_get_key a) (_bt_item_get_key b) < 0.

Lemma below_spec kind key item : below kind key item = true ↔ _bt_compare_keys kind (_bt_item_get_key item) key < 0.
Proof. unfold below. rewrite Z.ltb_lt, compare_opp. lia. Qed.

Lemma not_below_spec kind key item : below kind key item = false ↔ _bt_compare_keys kind key (_bt_item_get_key item) ≤ 0.
Proof. unfold below. rewrite Z.ltb_ge. done. Qed.

Lemma insert_idx_passed kind key l : insert_idx kind key l = passed (below kind key) l.
Proof.
  induction l as [|item l IH]; [done|]. cbn. unfold below. rewrite Z.ltb_antisym, IH. by destruct (_ <=? 0).
Qed.

(** ** Sorted lists *)

Definition sorted_items (kind : BTKeyKind) (l : list (list Z)) : Prop := StronglySorted (item_lt kind) l.

(** Inserting an entry in front of the first one that is not below. *)
Definition insert_entry (kind : BTKeyKind) (item : list Z) (l : list (list Z)) : list (list Z) :=
  insert_at (passed (below kind (_bt_item_get_key item)) l) item l.

Lemma sorted_app kind l1 l2 :
  sorted_items kind (l1 ++ l2) ↔
  sorted_items kind l1 ∧ sorted_items kind l2 ∧ ∀ a b, a ∈ l1 → b ∈ l2 → item_lt kind a b.
Proof.
  unfold sorted_items. induction l1 as [|x l1 IH]; cbn.
  - split; [intros H; split_and!; [constructor|done|by intros a b ?%elem_of_nil]|by intros (_ & ? & _)].
  - split.
    + intros H. apply StronglySorted_inv in H as [H Hx]. apply IH in H as (H1 & H2 & H3). rewrite Forall_app in Hx. destruct Hx as [Hx1 Hx2].
      split_and!; [by constructor|done|]. rewrite Forall_forall in Hx2. intros a b [->|Ha]%elem_of_cons Hb; [by apply Hx2|by apply H3].
    + intros (H1 & H2 & H3). apply StronglySorted_inv in H1 as [H1 Hx]. constructor.
      * apply IH. split_and!; [done|done|]. intros a b Ha. apply H3. by right.
      * apply Forall_app. split; [done|]. apply Forall_forall. intros b Hb. apply H3; [by left|done].
Qed.

Lemma elem_of_insert_at {A} n (x : A) l y : y ∈ insert_at n x l ↔ y = x ∨ y ∈ l.
Proof.
  unfold insert_at. rewrite elem_of_app, elem_of_cons. rewrite <- (take_drop n l) at 3. rewrite elem_of_app. tauto.
Qed.

Lemma length_insert_at {A} n (x : A) l : length (insert_at n x l) = S (length l).
Proof. unfold insert_at. rewrite length_app, length_take. cbn. rewrite length_drop. lia. Qed.

Lemma insert_sorted kind item l :
  sorted_items kind l → wf_item kind item → Forall (wf_item kind) l →
  (∀ x, x ∈ l → _bt_item_get_key x ≠ _bt_item_get_key item) →
  sorted_items kind (insert_entry kind item l).
Proof.
  intros Hs Hw Hl Hne. unfold insert_entry, insert_at. set (n := passed _ l).
  rewrite <- (take_drop n l) in Hs. apply sorted_app in Hs as (H1 & H2 & H3).
  assert (Hbelow : ∀ x, x ∈ take n l → item_lt kind x item) by (intros x Hx; by apply below_spec, (passed_take _ l)).
  assert (Habove : ∀ x, x ∈ drop n l → item_lt kind item x).
  { destruct (drop n l) as [|y r] eqn:Ed; [by intros x ?%elem_of_nil|].
    assert (Hy : l !! n = Some y) by (rewrite <- (Nat.add_0_r n), <- lookup_drop, Ed; done).
    assert (Hlt : item_lt kind item y).
    { pose proof (passed_next _ _ _ Hy) as Hn. apply not_below_spec in Hn. unfold item_lt.
      assert (Hel : y ∈ l) by (by apply list_elem_of_lookup_2 in Hy). rewrite Forall_forall in Hl.
      destruct (decide (_bt_compare_keys kind (_bt_item_get_key item) (_bt_item_get_key y) = 0)) as [E|]; [|lia].
      apply compare_zero in E; [|by apply wf_item_key..|]; [by destruct (Hne y Hel)|]. apply wf_item_key. by apply Hl. }
    apply StronglySorted_inv in H2 as [_ Hr]. rewrite Forall_forall in Hr.
    intros x [->|Hx]%elem_of_cons; [done|]. apply (compare_trans kind _ (_bt_item_get_key y)); [done|by apply Hr]. }
  apply sorted_app. split_and!; [done| |].
  - constructor; [done|]. by apply Forall_forall.
  - intros a b Ha [->|Hb]%elem_of_cons; [by apply Hbelow|by apply H3].
Qed.

Lemma passed_app_all go l1 l2 : (∀ x, x ∈ l1 → go x = true) → passed go (l1 ++ l2) = (length l1 + passed go l2)%nat.
Proof.
  induction l1 as [|x l1 IH]; intros H; [done|]. cbn. rewrite (H x) by (by left). f_equal. apply IH. intros y Hy. apply H. by right.
Qed.

Lemma passed_app_none go l1 l2 : (∀ x, x ∈ l2 → go x = false) → passed go (l1 ++ l2) = passed go l1.
Proof.
  intros H. induction l1 as [|x l1 IH]; cbn.
  - destruct l2 as [|y l2]; [done|]. cbn. by rewrite (H y) by (by left).
  - by rewrite IH.
Qed.

Lemma insert_at_middle {A} n (x : A) l1 l l2 :
  (n ≤ length l)%nat → insert_at (length l1 + n) x (l1 ++ l ++ l2) = l1 ++ insert_at n x l ++ l2.
Proof.
  intros Hn. unfold insert_at. rewrite take_app_add, drop_app_add, take_app_le, drop_app_le by done.
  by rewrite <- !app_assoc.
Qed.

(** ** Leaves *)

Record leaf := mkLeaf { l_block : Z; l_sep : option (list Z); l_items : list (list Z) }.

Definition entries (leaves : list leaf) : list (list Z) := concat (l_items <$> leaves).

(** What a leaf and its successor are to each other, along the list; [e]
    stands for the successor of the last one. *)
Definition first {A} (hd : leaf → A) (leaves : list leaf) (e : A) : A :=
  match leaves with [] => e | l :: _ => hd l end.
Fixpoint linked {A} (P : leaf → A → Prop) (hd : leaf → A) (leaves : list leaf) (e : A) : Prop :=
  match leaves with [] => True | l :: rest => P l (first hd rest e) ∧ linked P hd rest e end.

Lemma first_app {A} (hd : leaf → A) l1 l2 e : first hd (l1 ++ l2) e = first hd l1 (first hd l2 e).
Proof. by destruct l1. Qed.

Lemma linked_app {A} (P : leaf → A → Prop) hd l1 l2 e :
  linked P hd (l1 ++ l2) e ↔ linked P hd l1 (first hd l2 e) ∧ linked P hd l2 e.
Proof. induction l1 as [|l l1 IH]; cbn [app linked]; [tauto|]. rewrite IH, first_app. tauto. Qed.

Lemma linked_impl {A} (P Q : leaf → A → Prop) hd leaves e :
  (∀ l x, l ∈ leaves → P l x → Q l x) → linked P hd leaves e → linked Q hd leaves e.
Proof.
  induction leaves as [|l leaves IH]; [done|]. intros H [H1 H2]. split; [apply H; [by left|done]|]. apply IH; [|done].
  intros l' x Hl'. apply H. by right.
Qed.

(** A key between a lower bound, included, and an upper bound. *)
Definition in_range (kind : BTKeyKind) (lo hi : option (list Z)) (key : list Z) : Prop :=
  (∀ l, lo = Some l → _bt_compare_keys kind l key ≤ 0) ∧ (∀ h, hi = Some h → _bt_compare_keys kind key h < 0).

Record leaf_ok (kind : BTKeyKind) (l : leaf) (hi : option (list Z)) : Prop := {
  lo_sorted : sorted_items kind (l_items l);
  lo_items : Forall (λ item, wf_item kind item ∧ in_range kind (l_sep l) hi (_bt_item_get_key item)) (l_items l);
  lo_sep lo : l_sep l = Some lo → wf_key kind lo ∧ ∀ h, hi = Some h → _bt_compare_keys kind lo h < 0;
}.

Definition ordered (kind : BTKeyKind) (leaves : list leaf) (hi : option (list Z)) : Prop :=
  linked (leaf_ok kind) l_sep leaves hi ∧ Forall (λ l, is_Some (l_sep l)) (tail leaves).

Lemma ordered_cons kind l leaves hi :
  ordered kind (l :: leaves) hi →
  leaf_ok kind l (first l_sep leaves hi) ∧ ordered kind leaves hi ∧ Forall (λ l, is_Some (l_sep l)) leaves.
Proof. intros [[H1 H2] H3]. split_and!; [done|split; [done|]|done]. destruct leaves; [done|]. by inversion H3. Qed.

Lemma seps_below kind leaves hi h l lo :
  ordered kind leaves hi → hi = Some h → l ∈ leaves → l_sep l = Some lo → _bt_compare_keys kind lo h < 0.
Proof.
  intros Ho Hh. revert l lo. induction leaves as [|x leaves IH]; intros l lo; [by intros ?%elem_of_nil|].
  apply ordered_cons in Ho as (Hx & Ho & Hsome). specialize (IH Ho).
  intros [->|Hl]%elem_of_cons Hlo; [|by apply (IH l)].
  destruct leaves as [|y leaves]; cbn [first] in Hx; [by apply (lo_sep _ _ _ Hx)|].
  inversion Hsome as [|?? [s Hs] _]; subst. apply (compare_trans kind lo s h).
  - by apply (lo_sep _ _ _ Hx).
  - apply (IH y); [by left|done].
Qed.

Lemma entries_cons l leaves : entries (l :: leaves) = l_items l ++ entries leaves.
Proof. done. Qed.
Lemma entries_app l1 l2 : entries (l1 ++ l2) = entries l1 ++ entries l2.
Proof. unfold entries. by rewrite fmap_app, concat_app. Qed.

Lemma entries_range kind leaves hi item :
  ordered kind leaves hi → item ∈ entries leaves →
  wf_item kind item ∧ in_range kind (first l_sep leaves None) hi (_bt_item_get_key item).
Proof.
  induction leaves as [|l leaves IH]; [by intros _ ?%elem_of_nil|]. intros Ho. pose proof (ordered_cons _ _ _ _ Ho) as (Hl & Ho' & Hsome).
  rewrite entries_cons, elem_of_app. intros [Hi|Hi].
  - pose proof (lo_items _ _ _ Hl) as Hf. rewrite Forall_forall in Hf. destruct (Hf item Hi) as [Hw [Hlo Hhi]]. split; [done|]. split; [done|].
    intros h Hh. destruct leaves as [|y leaves]; cbn [first] in Hhi; [by apply Hhi|]. inversion Hsome as [|?? [s Hs] _]; subst.
    apply (compare_trans kind _ s h); [by apply Hhi|]. apply (seps_below kind (y :: leaves) (Some h) h y s); [done|done|by left|done].
  - destruct (IH Ho' Hi) as [Hw [Hlo Hhi]]. split; [done|]. split; [|done]. intros lo Hlo'. cbn [first] in Hlo'.
    destruct leaves as [|y leaves]; [by apply elem_of_nil in Hi|]. inversion Hsome as [|?? [s Hs] _]; subst. cbn [first] in *.
    assert (_bt_compare_keys kind lo (_bt_item_get_key item) < 0); [|lia].
    apply (compare_lt_le kind lo s); [by apply (lo_sep _ _ _ Hl)|by apply Hlo].
Qed.

Lemma entries_sorted kind leaves hi : ordered kind leaves hi → sorted_items kind (entries leaves).
Proof.
  induction leaves as [|l leaves IH]; intros Ho; [constructor|]. pose proof (ordered_cons _ _ _ _ Ho) as (Hl & Ho' & Hsome).
  rewrite entries_cons. apply sorted_app. split_and!; [apply Hl|by apply IH|]. intros a b Ha Hb.
  destruct leaves as [|y leaves]; [by apply elem_of_nil in Hb|]. inversion Hsome as [|?? [s Hs] _]; subst.
  destruct (entries_range _ _ _ _ Ho' Hb) as [_ [Hlo _]]. pose proof (lo_items _ _ _ Hl) as Hf. rewrite Forall_forall in Hf.
  destruct (Hf a Ha) as [_ [_ Hhi]]. apply (compare_lt_le kind _ s); [by apply Hhi|by apply Hlo].
Qed.

Lemma ordered_app kind l1 l2 hi :
  ordered kind (l1 ++ l2) hi → ordered kind l1 (first l_sep l2 hi) ∧ ordered kind l2 hi.
Proof.
  intros [H Hs]. apply linked_app in H as [H1 H2]. split; split; try done.
  - destruct l1 as [|x l1]; [done|]. cbn in *. by apply Forall_app in Hs as [? _].
  - destruct l1 as [|x l1]; [done|]. cbn in Hs. apply Forall_app in Hs as [_ Hs]. destruct l2; [done|]. by inversion Hs.
Qed.

(** ** Inserting into the leaf responsible for a key *)

Section insert.
Context (kind : BTKeyKind) (l1 l2 : list leaf) (l : leaf) (item : list Z).
Context (Ho : ordered kind (l1 ++ l :: l2) None) (Hw : wf_item kind item).
Context (Hr : in_range kind (l_sep l) (first l_sep l2 None) (_bt_item_get_key item)).
Context (Hne : ∀ x, x ∈ entries (l1 ++ l :: l2) → _bt_item_get_key x ≠ _bt_item_get_key item).

Lemma insert_entries :
  insert_entry kind item (entries (l1 ++ l :: l2)) = entries l1 ++ insert_entry kind item (l_items l) ++ entries l2.
Proof using Ho Hr.
  clear Hne Hw.
  destruct (ordered_app _ _ _ _ Ho) as [Ho1 Ho2]. apply ordered_cons in Ho2 as (Hl & Ho2 & Hsome).
  rewrite entries_app, entries_cons. unfold insert_entry. rewrite passed_app_all, passed_app_none, insert_at_middle; [done|apply passed_le|..].
  - intros x Hx. apply not_below_spec. destruct l2 as [|y l2']; [by apply elem_of_nil in Hx|]. inversion Hsome as [|?? [s Hs] _]; subst.
    destruct (entries_range _ _ _ _ Ho2 Hx) as [_ [Hlo _]]. cbn [first] in *.
    assert (_bt_compare_keys kind (_bt_item_get_key item) (_bt_item_get_key x) < 0); [|lia].
    apply (compare_lt_le kind _ s); [by apply Hr|by apply Hlo].
  - intros x Hx. apply below_spec. destruct (entries_range _ _ _ _ Ho1 Hx) as [_ [_ Hhi]]. cbn [first] in Hhi.
    destruct l1 as [|y l1']; [by apply elem_of_nil in Hx|]. destruct Ho as [_ Hall]. cbn in Hall. apply Forall_app in Hall as [_ Hall].
    inversion Hall as [|?? [s Hs] _]; subst. apply (compare_lt_le kind _ s); [by apply Hhi|by apply Hr].
Qed.

Lemma insert_leaf_ok : leaf_ok kind (mkLeaf (l_block l) (l_sep l) (insert_entry kind item (l_items l))) (first l_sep l2 None).
Proof using All.
  destruct (ordered_app _ _ _ _ Ho) as [_ Ho2]. apply ordered_cons in Ho2 as ([Hs Hi Hsep] & _ & _). split; cbn; [|..|done].
  - apply insert_sorted; [done|done|by eapply Forall_impl; [exact Hi|intros x []]|]. intros x Hx. apply Hne.
    rewrite entries_app, entries_cons, !elem_of_app. tauto.
  - apply Forall_forall. rewrite Forall_forall in Hi. intros x [->|Hx]%elem_of_insert_at; [done|by apply Hi].
Qed.

Lemma replace_leaves l' :
  linked (leaf_ok kind) l_sep l' (first l_sep l2 None) → first l_sep l' None = l_sep l → l' ≠ [] →
  Forall (λ l, is_Some (l_sep l)) (tail l') → ordered kind (l1 ++ l' ++ l2) None.
Proof using Ho.
  clear Hne Hw Hr. intros Hl' Hf Hnil Hsome. destruct (ordered_app _ _ _ _ Ho) as [[H1 Hs1] Ho2]. apply ordered_cons in Ho2 as (_ & [H2 _] & Hs2).
  destruct l' as [|x l']; [done|]. cbn [first] in Hf. split.
  - apply linked_app. split; [by rewrite first_app; cbn [first]; rewrite Hf|]. apply linked_app. done.
  - destruct Ho as [_ Hall]. destruct l1 as [|y l1']; cbn in *; [by apply Forall_app|]. apply Forall_app in Hall as [Ha Hb].
    inversion Hb; subst. apply Forall_app. split; [done|]. constructor; [by rewrite Hf|]. by apply Forall_app.
Qed.
End insert.

(** Splitting a leaf at an entry that is not the first. *)
Lemma split_leaf_ok kind b b' sep items hi mid item :
  leaf_ok kind (mkLeaf b sep items) hi → items !! mid = Some item → mid ≠ 0%nat →
  leaf_ok kind (mkLeaf b sep (take mid items)) (Some (_bt_item_get_key item)) ∧
  leaf_ok kind (mkLeaf b' (Some (_bt_item_get_key item)) (drop mid items)) hi.
Proof.
  intros [Hs Hi Hsep] Hm H0. cbn in *. set (s := _bt_item_get_key item).
  assert (Hel : item ∈ items) by (by apply list_elem_of_lookup_2 in Hm). rewrite Forall_forall in Hi. destruct (Hi item Hel) as [Hwi [Hlo Hhi]].
  rewrite <- (take_drop mid items) in Hs. apply sorted_app in Hs as (H1 & H2 & H3).
  assert (Hd : drop mid items = item :: drop (S mid) items) by (by apply drop_S).
  assert (Hin : item ∈ drop mid items) by (rewrite Hd; by left).
  split; split; cbn.
  - done.
  - apply Forall_forall. intros x Hx. assert (x ∈ items) by (rewrite <- (take_drop mid items); apply elem_of_app; by left).
    destruct (Hi x) as [Hw [Hl _]]; [done|]. split; [done|]. split; [done|]. intros h [= <-]. by apply H3.
  - intros lo Hl. destruct (Hsep lo Hl) as [Hw _]. split; [done|]. intros h [= <-].
    destruct items as [|x items]; [done|]. destruct mid as [|mid]; [done|].
    assert (Hx : x ∈ take (S mid) (x :: items)) by (by left).
    apply (compare_le_lt kind lo (_bt_item_get_key x)); [|by apply H3]. destruct (Hi x) as [_ [Hx' _]]; [by left|]. by apply Hx'.
  - done.
  - apply Forall_forall. intros x Hx. assert (x ∈ items) by (rewrite <- (take_drop mid items); apply elem_of_app; by right).
    destruct (Hi x) as [Hw [_ Hh]]; [done|]. split; [done|]. split; [|done]. intros lo [= <-].
    rewrite Hd in H2, Hx. apply StronglySorted_inv in H2 as [_ Hr]. rewrite Forall_forall in Hr.
    apply elem_of_cons in Hx as [->|Hx]; [by rewrite compare_refl|]. apply Z.lt_le_incl, (Hr x Hx).
  - intros lo [= <-]. split; [by apply wf_item_key|]. intros h Hh. by apply Hhi.
Qed.

(** ** Room

    The most an entry and a separator take on a page, the fewest entries in a
    half of a full leaf, and the number of leaves a root holds for sure. *)

Definition entry_room (kind : BTKeyKind) : Z := match kind with kInt32 => 16 | kInt64 => 20 | kText => 260 end.
Definition sep_room (kind : BTKeyKind) : Z := match kind with kInt32 => 12 | kInt64 => 16 | kText => 260 end.
Definition min_fill (kind : BTKeyKind) : nat := match kind with kInt32 => 255 | kInt64 => 204 | kText => 16 end.
Definition max_leaves (kind : BTKeyKind) : nat := match kind with kInt32 => 678 | kInt64 => 508 | kText => 31 end.

(** So many entries are inserted without filling the root. *)
Definition capacity (kind : BTKeyKind) : nat := (min_fill kind * max_leaves kind)%nat.

Lemma align_le a b : a ≤ b → MaxAlignUp a ≤ MaxAlignUp b.
Proof. intros H. rewrite !align_up_spec. assert ((a + 3) / 4 ≤ (b + 3) / 4) by (apply Z.div_le_mono; lia). lia. Qed.

Lemma item_room kind item :
  wf_item kind item → 12 ≤ kItemIdSize + MaxAlignUp (Z.of_nat (length item)) ≤ entry_room kind.
Proof.
  intros Hw. pose proof (wf_item_length _ _ Hw) as Hl. destruct (wf_item_key _ _ Hw) as [_ Hk]. rewrite Hl. unfold kItemIdSize.
  destruct kind; cbn [entry_room]; [rewrite Hk; vm_compute; split; discriminate..|].
  pose proof (align_le 6 (Z.of_nat (6 + length (_bt_item_get_key item)))). change (MaxAlignUp 6) with 8 in *.
  pose proof (align_le (Z.of_nat (6 + length (_bt_item_get_key item))) 256). change (MaxAlignUp 256) with 256 in *. lia.
Qed.

Lemma sep_room_bound kind b key :
  wf_key kind key → kItemIdSize + MaxAlignUp (Z.of_nat (length (internal_entry b key))) ≤ sep_room kind.
Proof.
  intros [_ Hk]. unfold internal_entry. rewrite length_app, length_to_le. unfold kItemIdSize.
  destruct kind; cbn [sep_room]; [rewrite Hk; vm_compute; discriminate..|].
  pose proof (align_le (Z.of_nat (4 + length key)) 256). change (MaxAlignUp 256) with 256 in *. lia.
Qed.

Lemma room_bounds kind items :
  Forall (wf_item kind) items → 12 * Z.of_nat (length items) ≤ room items ≤ entry_room kind * Z.of_nat (length items).
Proof.
  induction 1 as [|item items Hi _ IH]; [cbn; lia|]. rewrite room_cons. cbn [length]. pose proof (item_room _ _ Hi).
  rewrite Nat2Z.inj_succ, Z.mul_succ_r. lia.
Qed.

Lemma halves_fit kind items item n :
  Forall (wf_item kind) items → wf_item kind item → room items ≤ kBtSpace →
  kBtSpace - room items < MaxAlignUp (Z.of_nat (length item)) + 2 * kItemIdSize →
  let all := insert_at n item items in
  let mid := (length all / 2)%nat in
  (min_fill kind ≤ mid)%nat ∧ (min_fill kind ≤ length all - mid)%nat ∧
  room (take mid all) ≤ kBtSpace ∧ room (drop mid all) ≤ kBtSpace.
Proof.
  intros Hw Hi Hroom Hfull all mid. pose proof (item_room _ _ Hi) as Hr. pose proof (room_bounds _ _ Hw) as Hb.
  assert (Hall : Forall (wf_item kind) all).
  { apply Forall_forall. rewrite Forall_forall in Hw. intros x [->|Hx]%elem_of_insert_at; [done|by apply Hw]. }
  assert (Hlen : length all = S (length items)) by apply length_insert_at.
  assert (Hmid : (length all = 2 * mid + length all mod 2)%nat) by (apply Nat.div_mod; lia). pose proof (Nat.mod_upper_bound (length all) 2).
  assert (Hsum : room (take mid all) + room (drop mid all) = room items + (kItemIdSize + MaxAlignUp (Z.of_nat (length item)))).
  { rewrite <- room_app, take_drop. unfold all, insert_at. rewrite room_app, room_cons. rewrite <- (take_drop n items) at 3. rewrite room_app. lia. }
  assert (Ht : length (take mid all) = mid) by (rewrite length_take; lia).
  assert (Hd : length (drop mid all) = (length all - mid)%nat) by (by rewrite length_drop).
  pose proof (room_bounds kind (take mid all) (Forall_take _ _ _ Hall)) as HA. pose proof (room_bounds kind (drop mid all) (Forall_drop _ _ _ Hall)) as HB.
  rewrite Ht in HA. rewrite Hd in HB. unfold kBtSpace, kBlckSz, kBTPageOpaqueSize, kPageHeaderSize, kItemIdSize in *.
  destruct kind; cbn [entry_room min_fill] in *; split_and!; lia.
Qed.

End NbtTree.
