(* ===== verification/NbtSpec.v ===== *)
(** * What the B-tree promises

    An index built and filled by [btinsert] with distinct keys answers every
    scan with exactly the matching entries, in key order.  The proof follows a
    two-level tree: a list of leaves, each with the interval of keys it is
    responsible for, chained by their forward links and found through the
    separators of the root. *)

From Stdlib Require Import Sorting.Sorted.
From stdpp Require Import base gmap list strings.
From S2P Require Import Prelude HeapTuple BufPage Heap HeapSpec NbtPage Nbtree NbtTree.

Module NbtSpec.
Import HeapTuple BufPage NbtPage Heap Nbtree NbtTree.
Import HeapSpec (opened, pins_ok, pinned, pin_count_insert, fork_put, page_of_lookup, fork_of_main, read_buffer_run, read_pins, release_run).

(** ** Steps on the pages of the index *)

Section pages.
Context (node : Z) (s0 : Bufs) (Hpins0 : pins_ok s0).

(** How often each buffer is pinned by the blocks in [L]. *)
Definition held (L : list Z) (b : Buffer) : Z := Z.of_nat (length (base.filter (λ n, (node, n) = b) L)).

(** The pages of the index, everything else being as in [s0], with [L] pinned. *)
Record st (s : Bufs) (pages : list Page) (L : list Z) : Prop := {
  st_fork : fork_of s node = pages;
  st_others n : n ≠ node → fork_of s n = fork_of s0 n;
  st_pins b : pin_count s b = pin_count s0 b + held L b;
}.

Lemma held_nil b : held [] b = 0.
Proof. done. Qed.

Lemma held_cons n L b : held (n :: L) b = (if decide (b = (node, n)) then 1 else 0) + held L b.
Proof. unfold held. rewrite filter_cons. repeat case_decide; cbn [length]; try congruence; lia. Qed.

Lemma held_perm L L' b : L ≡ₚ L' → held L b = held L' b.
Proof. intros H. unfold held. by rewrite H. Qed.

Lemma read_st s pages L n p :
  st s pages L → pages !! n = Some p →
  ∃ s', ReadBuffer node (Z.of_nat n) s = (Ret (node, Z.of_nat n), s') ∧ st s' pages (Z.of_nat n :: L).
Proof.
  intros [Hf Ho Hp] Hn. rewrite <- Hf in Hn. destruct (read_buffer_run s node n p Hn) as (s' & Hrun & Hm & _ & Hpin).
  exists s'. split; [done|]. split.
  - by rewrite (fork_of_main s s').
  - intros n' Hn'. rewrite (fork_of_main s s') by done. by apply Ho.
  - intros b. rewrite held_cons. apply read_pins in Hpin. rewrite (Hpin b), Hp. lia.
Qed.

Lemma release_st s pages L n L' :
  st s pages L → L ≡ₚ n :: L' → ∃ s', ReleaseBuffer (node, n) s = (Ret tt, s') ∧ st s' pages L'.
Proof.
  intros [Hf Ho Hp] HL. eexists. split; [reflexivity|]. split; cbn.
  - done.
  - done.
  - intros b. unfold pin_count at 1. cbn [pins]. rewrite pin_count_insert, !Hp, !(held_perm _ _ _ HL), !held_cons.
    rewrite (decide_True (P := (node, n) = (node, n))) by done. pose proof (Hpins0 (node, n)). unfold held.
    rewrite (proj2 (Z.ltb_lt _ _)) by lia. case_decide; [subst b|]; lia.
Qed.

Lemma dirty_st s pages L b : st s pages L → ∃ s', MarkBufferDirty b s = (Ret tt, s') ∧ st s' pages L.
Proof. intros [Hf Ho Hp]. by eexists. Qed.

Lemma set_page_st s pages L n p q :
  st s pages L → pages !! n = Some p →
  ∃ s', set_page (node, Z.of_nat n) q s = (Ret tt, s') ∧ st s' (<[n := q]> pages) L.
Proof.
  intros [Hf Ho Hp] Hn. eexists. split; [reflexivity|]. split.
  - rewrite fork_put, decide_True by done. by rewrite Hf.
  - intros n' Hn'. rewrite fork_put, decide_False by done. by apply Ho.
  - done.
Qed.

Lemma extend_st s pages L p : st s pages L → ∃ s', smgrextend node p s = (Ret tt, s') ∧ st s' (pages ++ [p]) L.
Proof.
  intros [Hf Ho Hp]. eexists. split; [reflexivity|]. split.
  - unfold fork_of at 1. cbn [main_fork]. rewrite lookup_insert_eq. cbn. by rewrite Hf.
  - intros n' Hn'. unfold fork_of at 1. cbn [main_fork]. rewrite lookup_insert_ne by done. by apply Ho.
  - done.
Qed.

Lemma page_st s pages L n p : st s pages L → pages !! n = Some p → page_of s (node, Z.of_nat n) = p.
Proof. intros [Hf _ _] Hn. apply page_of_lookup. by rewrite Hf. Qed.

(** The same, by block number. *)
Lemma read_block s pages L b p :
  st s pages L → 0 ≤ b → pages !! Z.to_nat b = Some p →
  ∃ s', ReadBuffer node b s = (Ret (node, b), s') ∧ st s' pages (b :: L).
Proof. intros Hs Hb Hp. rewrite <- (Z2Nat.id b) by done. by apply (read_st s pages L (Z.to_nat b) p). Qed.

Lemma write_block s pages L b p q :
  st s pages L → 0 ≤ b → pages !! Z.to_nat b = Some p →
  ∃ s', set_page (node, b) q s = (Ret tt, s') ∧ st s' (<[Z.to_nat b := q]> pages) L.
Proof. intros Hs Hb Hp. pose proof (set_page_st s pages L (Z.to_nat b) p q Hs Hp) as H. by rewrite Z2Nat.id in H by done. Qed.

Lemma page_block s pages L b p : st s pages L → 0 ≤ b → pages !! Z.to_nat b = Some p → page_of s (node, b) = p.
Proof. intros Hs Hb Hp. rewrite <- (Z2Nat.id b) by done. by apply (page_st s pages L). Qed.

End pages.

(** ** The tree *)

Section tree.
Context (kind : BTKeyKind).

Definition is_leaf (o : BTPageOpaqueData) : Prop := Z.land (btpo_flags o) kBtpLeaf ≠ 0.

Definition leaf_page (pages : list Page) (l : leaf) (next : Z) : Prop :=
  0 < l_block l ∧ ∃ p o, pages !! Z.to_nat (l_block l) = Some p ∧ bt_page p (l_items l) o ∧ is_leaf o ∧ btpo_next o = next.

Definition sep_entry (l : leaf) : list Z := internal_entry (l_block l) (default [] (l_sep l)).
Definition root_items (leaves : list leaf) : list (list Z) := sep_entry <$> leaves.

Record tree (pages : list Page) (r : Z) (leaves : list leaf) : Prop := {
  t_meta : ∃ mp, pages !! 0%nat = Some mp ∧ root (_bt_get_meta mp) = r;
  t_chain : linked (leaf_page pages) l_block leaves 0;
  t_order : ordered kind leaves None;
  t_first : ∃ l rest, leaves = l :: rest ∧ l_sep l = None;
  t_blocks : NoDup (l_block <$> leaves);
  t_len : (S (length leaves) ≤ length pages ≤ length leaves + 2)%nat;
  t_root : (∃ l, leaves = [l] ∧ r = l_block l ∧ length pages = 2%nat) ∨
    (0 < r ∧ (r ∉ l_block <$> leaves) ∧ Forall (λ l, (min_fill kind ≤ length (l_items l))%nat) leaves ∧
     ∃ rp o, pages !! Z.to_nat r = Some rp ∧ bt_page rp (root_items leaves) o ∧ ¬ is_leaf o);
}.

Lemma leaf_flag p items o : bt_page p items o → _bt_is_leaf_page p = true ↔ is_leaf o.
Proof.
  intros Hp. unfold _bt_is_leaf_page, is_leaf. rewrite (bp_opaque _ _ _ Hp), negb_true_iff, Z.eqb_neq. done.
Qed.

Lemma leaf_page_frame pages pages' l x :
  pages' !! Z.to_nat (l_block l) = pages !! Z.to_nat (l_block l) → leaf_page pages l x → leaf_page pages' l x.
Proof. intros E [H0 (p & o & Hp & H)]. split; [done|]. exists p, o. by rewrite E. Qed.

Lemma chain_leaf pages leaves e l : linked (leaf_page pages) l_block leaves e → l ∈ leaves → ∃ x, leaf_page pages l x.
Proof.
  induction leaves as [|y leaves IH]; [by intros _ ?%elem_of_nil|]. intros [Hy Hr] [->|Hl]%elem_of_cons; [by eexists|by apply IH].
Qed.

(** ** Searching the root *)

Lemma sep_entry_child l : is_u32 (l_block l) → of_le (take 4 (sep_entry l)) = l_block l.
Proof. intros H. unfold sep_entry, internal_entry. rewrite take_app_length' by (by rewrite length_to_le). by apply le4_u32. Qed.
Lemma sep_entry_key l : drop 4 (sep_entry l) = default [] (l_sep l).
Proof. unfold sep_entry, internal_entry. by rewrite drop_app_length' by (by rewrite length_to_le). Qed.
Lemma sep_entry_length l : (4 ≤ length (sep_entry l))%nat.
Proof. unfold sep_entry, internal_entry. rewrite length_app, length_to_le. lia. Qed.

Section root.
Context (rp : Page) (leaves : list leaf) (o : BTPageOpaqueData).
Context (Hrp : bt_page rp (root_items leaves) o) (Hu : Forall (λ l, is_u32 (l_block l)) leaves).

Lemma root_slot i l : leaves !! i = Some l →
  ItemIdIsNormal (PageGetItemId rp (1 + Z.of_nat i)) = true ∧ PageGetItem rp (PageGetItemId rp (1 + Z.of_nat i)) = sep_entry l.
Proof using Hrp. intros Hi. apply (bt_slot _ _ _ i _ Hrp). unfold root_items. by rewrite list_lookup_fmap, Hi. Qed.

Lemma descend_rest key rest done_ l :
  leaves = done_ ++ l :: rest → Forall (λ l, is_Some (l_sep l)) rest →
  (∀ lo, l_sep l = Some lo → _bt_compare_keys kind lo key ≤ 0) →
  ∃ m l' l2, l :: rest = m ++ l' :: l2 ∧ in_range kind (l_sep l') (first l_sep l2 None) key ∧
    descend rp kind key (seqZ (2 + Z.of_nat (length done_)) (Z.of_nat (length rest))) (l_block l) = l_block l'.
Proof using All.
  revert done_ l. induction rest as [|x rest IH]; intros done_ l Hl Hsome Hlo.
  - exists [], l, []. split; [done|]. split; [split; [done|by intros h]|]. cbn [length]. by rewrite seqZ_nil by lia.
  - apply Forall_cons in Hsome as [[s Hs] Hsome].
    assert (Hx : leaves !! S (length done_) = Some x) by (rewrite Hl, lookup_app_r by lia; by replace (S (length done_) - length done_)%nat with 1%nat by lia).
    destruct (root_slot _ _ Hx) as [Hn Hget]. cbn [length]. rewrite Nat2Z.inj_succ, seqZ_cons by lia. cbn [descend].
    replace (2 + Z.of_nat (length done_)) with (1 + Z.of_nat (S (length done_))) by lia. rewrite Hn, Hget. cbn [negb].
    rewrite (proj2 (Nat.ltb_ge _ _) (sep_entry_length x)), (proj2 (Z.eqb_neq _ 1)) by lia. rewrite sep_entry_key, Hs. cbn [default from_option id].
    destruct (_ <? 0) eqn:E; to_prop.
    + exists [], l, (x :: rest). split; [done|]. split; [|done]. split; [done|]. cbn [first]. intros h Hh. rewrite Hs in Hh. by injection Hh as <-.
    + rewrite sep_entry_child by (rewrite Forall_forall in Hu; apply Hu; by apply list_elem_of_lookup_2 in Hx).
      destruct (IH (done_ ++ [l]) x) as (m & l' & l2 & Hm & Hr & Hd); [by rewrite Hl, <- app_assoc|done|..].
      { intros lo Hlo'. rewrite Hs in Hlo'. injection Hlo' as <-. rewrite compare_opp. lia. }
      exists (l :: m), l', l2. split; [by rewrite Hm|]. split; [done|]. rewrite <- Hd. f_equal. rewrite length_app. cbn [length]. f_equal; lia.
Qed.

Lemma descend_run key def :
  (∃ l rest, leaves = l :: rest ∧ l_sep l = None) → Forall (λ l, is_Some (l_sep l)) (tail leaves) →
  ∃ l1 l l2, leaves = l1 ++ l :: l2 ∧ in_range kind (l_sep l) (first l_sep l2 None) key ∧
    descend rp kind key (offsets (PageGetMaxOffsetNumber rp)) def = l_block l.
Proof using All.
  intros (l & rest & Hl & Hnone) Hsome. destruct (bt_slots _ _ _ Hrp) as [_ ->]. unfold root_items, offsets. rewrite length_fmap.
  destruct (root_slot 0 l) as [Hn Hget]; [by rewrite Hl|]. assert (Hlen : length leaves = S (length rest)) by (by rewrite Hl).
  rewrite Hlen, Nat2Z.inj_succ, seqZ_cons by lia. cbn [descend].
  change (1 + Z.of_nat 0) with 1 in *. rewrite Hn, Hget. cbn [negb]. rewrite (proj2 (Nat.ltb_ge _ _) (sep_entry_length l)), Z.eqb_refl.
  rewrite sep_entry_child by (rewrite Forall_forall in Hu; apply Hu; rewrite Hl; by left).
  destruct (descend_rest key rest [] l) as (m & l' & l2 & Hm & Hr & Hd); [done|by rewrite Hl in Hsome|by rewrite Hnone|].
  exists m, l', l2. split; [by rewrite Hl|]. split; [done|]. rewrite <- Hd. f_equal. cbn. f_equal; lia.
Qed.

Lemma root_pos_suffix key rest i :
  drop i leaves = rest → (i + length rest = length leaves)%nat →
  root_pos rp kind key (seqZ (1 + Z.of_nat i) (Z.of_nat (length rest))) =
    1 + Z.of_nat (i + passed (λ item, 0 <? _bt_compare_keys kind key (drop 4 item)) (sep_entry <$> rest)).
Proof using Hrp.
  clear Hu. destruct (bt_slots _ _ _ Hrp) as [Hn Hmax]. unfold root_items in Hmax, Hn. rewrite length_fmap in Hmax, Hn.
  revert i. induction rest as [|x rest IH]; intros i Hd Hlen.
  - cbn [length passed fmap list_fmap] in *. rewrite seqZ_nil by lia. cbn [root_pos]. rewrite Hmax.
    destruct (bp_wf _ _ _ Hrp) as [[Hl Hn0] Ho Hs _ _]. unfold kPageHeaderSize, kItemIdSize in *. unfold u16. rewrite Z.mod_small; lia.
  - assert (Hi : leaves !! i = Some x) by (rewrite <- (Nat.add_0_r i), <- lookup_drop, Hd; done).
    destruct (root_slot _ _ Hi) as [Hnorm Hget]. cbn [length]. rewrite Nat2Z.inj_succ, seqZ_cons by lia. cbn [root_pos fmap list_fmap passed].
    rewrite Hnorm, Hget. cbn [negb]. rewrite (proj2 (Nat.ltb_ge _ _) (sep_entry_length x)), Z.ltb_antisym.
    destruct (_ <=? 0) eqn:E; cbn [negb]; [lia|].
    replace (Z.succ (1 + Z.of_nat i)) with (1 + Z.of_nat (S i)) by lia.
    replace (Z.pred (Z.succ (Z.of_nat (length rest)))) with (Z.of_nat (length rest)) by lia.
    cbn [length] in Hlen. rewrite IH; [unfold fmap; lia| |lia]. replace (S i) with (i + 1)%nat by lia. rewrite <- drop_drop, Hd. done.
Qed.
End root.
Lemma passed_stop go l1 l2 :
  (∀ x, x ∈ l1 → go x = true) → (∀ x, head l2 = Some x → go x = false) → passed go (l1 ++ l2) = length l1.
Proof.
  intros H1 H2. rewrite passed_app_all by done. destruct l2 as [|x l2]; cbn; [lia|]. rewrite H2 by done. lia.
Qed.

Lemma root_room leaves :
  ordered kind leaves None → (∃ l rest, leaves = l :: rest ∧ l_sep l = None) →
  room (root_items leaves) ≤ 8 + (Z.of_nat (length leaves) - 1) * sep_room kind.
Proof.
  intros Ho (l & rest & -> & Hnone). apply ordered_cons in Ho as (_ & [Hrest _] & Hsome). unfold root_items. rewrite fmap_cons, room_cons.
  unfold sep_entry at 1. rewrite Hnone. change (kItemIdSize + MaxAlignUp (Z.of_nat (length (internal_entry (l_block l) (default [] None))))) with 8.
  assert (H : room (sep_entry <$> rest) ≤ Z.of_nat (length rest) * sep_room kind); [|cbn [length]; rewrite Nat2Z.inj_succ; lia].
  induction rest as [|x rest IH]; [done|]. apply Forall_cons in Hsome as [[s Hs] Hsome]. destruct Hrest as [Hx Hrest].
  rewrite fmap_cons, room_cons. specialize (IH Hrest Hsome). unfold sep_entry at 1. rewrite Hs. cbn [default from_option id].
  pose proof (sep_room_bound kind (l_block x) s (proj1 (lo_sep _ _ _ Hx s Hs))). cbn [length]. rewrite Nat2Z.inj_succ. lia.
Qed.

Lemma separator_pos rp o l1 l l2 key :
  bt_page rp (root_items (l1 ++ l :: l2)) o → ordered kind (l1 ++ l :: l2) None →
  (∀ lo, l_sep l = Some lo → _bt_compare_keys kind lo key < 0) →
  (∀ h, first l_sep l2 None = Some h → _bt_compare_keys kind key h < 0) →
  root_pos rp kind key (seqZ 2 (PageGetMaxOffsetNumber rp - 1)) = Z.of_nat (length l1) + 2.
Proof.
  intros Hrp Ho Hlo Hhi. destruct (bt_slots _ _ _ Hrp) as [_ ->]. unfold root_items. rewrite length_fmap.
  set (leaves := l1 ++ l :: l2) in *.
  assert (Hlen : (1 + length (drop 1 leaves) = length leaves)%nat) by (rewrite length_drop; unfold leaves; rewrite length_app; cbn; lia).
  replace (Z.of_nat (length leaves) - 1) with (Z.of_nat (length (drop 1 leaves))) by lia. change 2 with (1 + Z.of_nat 1) at 1.
  rewrite (root_pos_suffix rp leaves o Hrp key (drop 1 leaves) 1 eq_refl Hlen).
  set (go := λ item, 0 <? _bt_compare_keys kind key (drop 4 item)).
  assert (Hgo : ∀ x lo, l_sep x = Some lo → _bt_compare_keys kind lo key < 0 → go (sep_entry x) = true).
  { intros x lo Hx Hc. unfold go. rewrite sep_entry_key, Hx. cbn. apply Z.ltb_lt. rewrite compare_opp. lia. }
  assert (Hsplit : drop 1 leaves = drop 1 (l1 ++ [l]) ++ l2) by (unfold leaves; rewrite cons_middle, app_assoc; by destruct l1).
  rewrite Hsplit, fmap_app, passed_stop.
  - rewrite length_fmap, length_drop, length_app. cbn [length]. lia.
  - intros e [x [-> Hx]]%list_elem_of_fmap. destruct (ordered_app _ _ _ _ Ho) as [Ho1 Ho2]. destruct Ho as [_ Hall].
    unfold leaves in Hall. assert (Hsx : is_Some (l_sep x) ∧ (x ∈ l1 ∨ x = l)).
    { destruct l1 as [|y l1']; [by apply elem_of_nil in Hx|]. cbn in Hx, Hall. rewrite Forall_forall in Hall. apply elem_of_app in Hx as [Hx|Hx].
      - split; [apply Hall, elem_of_app; by left|left; by right].
      - apply list_elem_of_singleton in Hx as ->. split; [apply Hall, elem_of_app; right; by left|by right]. }
    destruct Hsx as [[lo Hsx] [Hin| ->]]; apply (Hgo x lo Hsx) || apply (Hgo l lo Hsx); [|by apply Hlo].
    destruct l1 as [|y l1']; [by apply elem_of_nil in Hin|]. cbn in Hall. apply Forall_app in Hall as [_ Hall].
    inversion Hall as [|?? [s Hs] _]; subst. apply (compare_trans kind lo s); [|by apply Hlo].
    apply (seps_below kind (y :: l1') (l_sep l) s x lo); done.
  - intros e He. destruct l2 as [|y l2']; [done|]. change (Some (sep_entry y) = Some e) in He. injection He as <-. unfold go. rewrite sep_entry_key.
    apply ordered_app in Ho as [_ Ho]. apply ordered_cons in Ho as (_ & _ & Hsome). apply Forall_cons in Hsome as [[s Hs] _].
    rewrite Hs. cbn. apply Z.ltb_ge. specialize (Hhi s Hs). lia.
Qed.

Lemma add_separator_run rp o l1 l l2 key nb items :
  bt_page rp (root_items (l1 ++ l :: l2)) o → ordered kind (l1 ++ l :: l2) None →
  (∃ x rest, l1 ++ l :: l2 = x :: rest ∧ l_sep x = None) → wf_key kind key →
  (∀ lo, l_sep l = Some lo → _bt_compare_keys kind lo key < 0) →
  (∀ h, first l_sep l2 None = Some h → _bt_compare_keys kind key h < 0) →
  (length (l1 ++ l :: l2) ≤ max_leaves kind)%nat →
  bt_page (add_separator kind key nb rp) (root_items (l1 ++ l :: mkLeaf nb (Some key) items :: l2)) o.
Proof.
  intros Hrp Ho Hfirst Hw Hlo Hhi Hmax. unfold add_separator. rewrite (separator_pos rp o l1 l l2) by done.
  pose proof (root_room _ Ho Hfirst) as Hroom. pose proof (sep_room_bound kind nb key Hw) as Hsep. destruct Hw as [_ Hw].
  assert (Hlen : 0 < Z.of_nat (length (internal_entry nb key)) < 2 ^ 16).
  { unfold internal_entry. rewrite length_app, length_to_le. destruct kind; lia. }
  assert (Hlr : length (root_items (l1 ++ l :: l2)) = (length l1 + S (length l2))%nat) by (unfold root_items; by rewrite length_fmap, length_app).
  pose proof (insert_item_run rp _ o (internal_entry nb key) (Z.of_nat (length l1) + 2) Hrp Hlen) as Hins.
  destruct (_ <? _) eqn:E; to_prop.
  { exfalso. unfold kBtSpace, kBlckSz, kBTPageOpaqueSize, kPageHeaderSize, kItemIdSize in *. destruct kind; cbn [sep_room max_leaves] in *; lia. }
  destruct Hins as (p' & -> & Hp'); [lia|]. cbn [snd]. replace (root_items (l1 ++ l :: _ :: l2)) with (insert_at (Z.to_nat (Z.of_nat (length l1) + 2 - 1)) (internal_entry nb key) (root_items (l1 ++ l :: l2))); [done|].
  replace (Z.to_nat (Z.of_nat (length l1) + 2 - 1)) with (length (root_items (l1 ++ [l])))%nat
    by (unfold root_items; rewrite length_fmap, length_app; cbn; lia).
  unfold root_items. rewrite (cons_middle l l1 l2), (cons_middle l l1 (_ :: l2)), !app_assoc, !(fmap_app _ (l1 ++ [l])). unfold insert_at.
  by rewrite take_app_length, drop_app_length.
Qed.

(** ** Changing pages under the tree *)

Lemma chain_frame pages pages' leaves e :
  (∀ l, l ∈ leaves → pages' !! Z.to_nat (l_block l) = pages !! Z.to_nat (l_block l)) →
  linked (leaf_page pages) l_block leaves e → linked (leaf_page pages') l_block leaves e.
Proof. intros H. apply linked_impl. intros l x Hl. apply leaf_page_frame. by apply H. Qed.

Lemma other_blocks l1 l l2 x :
  NoDup (l_block <$> l1 ++ l :: l2) → x ∈ l1 ∨ x ∈ l2 → l_block x ≠ l_block l.
Proof.
  rewrite fmap_app, fmap_cons. intros Hnd Hx E. apply NoDup_app in Hnd as (_ & H1 & H2). apply NoDup_cons in H2 as [H2 _].
  destruct Hx as [Hx|Hx].
  - apply (H1 (l_block x)); [by apply list_elem_of_fmap_2|rewrite E; by left].
  - apply H2. rewrite <- E. by apply list_elem_of_fmap_2.
Qed.

Lemma leaf_block_bound pages l x : leaf_page pages l x → 0 < l_block l < Z.of_nat (length pages).
Proof. intros [H0 (p & o & Hp & _)]. apply lookup_lt_Some in Hp. lia. Qed.

Lemma tree_blocks pages r leaves :
  tree pages r leaves → (length leaves ≤ max_leaves kind)%nat →
  Z.of_nat (length pages) < 2 ^ 16 ∧ (∀ l, l ∈ leaves → 0 < l_block l < Z.of_nat (length pages)) ∧ 0 < r < Z.of_nat (length pages).
Proof.
  intros Ht Hm. pose proof (t_len _ _ _ Ht) as Hlen.
  assert (Hl : ∀ l, l ∈ leaves → 0 < l_block l < Z.of_nat (length pages)).
  { intros l Hl. destruct (chain_leaf _ _ _ _ (t_chain _ _ _ Ht) Hl) as [x Hx]. by apply (leaf_block_bound _ _ x). }
  split; [destruct kind; cbn [max_leaves] in Hm; lia|]. split; [done|].
  destruct (t_root _ _ _ Ht) as [(l & -> & -> & _)|(Hr & _ & _ & rp & o & Hrp & _)]; [apply Hl; by left|].
  apply lookup_lt_Some in Hrp. lia.
Qed.

Lemma next_block_bound pages r leaves l1 l l2 :
  tree pages r leaves → leaves = l1 ++ l :: l2 → 0 ≤ first l_block l2 0 < Z.of_nat (length pages).
Proof.
  intros Ht ->. pose proof (t_len _ _ _ Ht). destruct l2 as [|y l2]; cbn [first]; [lia|].
  destruct (chain_leaf _ _ _ y (t_chain _ _ _ Ht)) as [x Hx]; [apply elem_of_app; right; right; by left|]. apply leaf_block_bound in Hx. lia.
Qed.

(** The page of one leaf of the tree. *)
Lemma tree_leaf pages r l1 l l2 :
  tree pages r (l1 ++ l :: l2) → leaf_page pages l (first l_block l2 0).
Proof. intros Ht. pose proof (t_chain _ _ _ Ht) as Hc. apply linked_app in Hc as [_ [H _]]. done. Qed.

(** Replacing the entries of one leaf. *)
Lemma tree_replace pages r l1 l l2 items p o :
  tree pages r (l1 ++ l :: l2) → (length (l1 ++ l :: l2) ≤ max_leaves kind)%nat →
  let l' := mkLeaf (l_block l) (l_sep l) items in
  bt_page p items o → is_leaf o → btpo_next o = first l_block l2 0 → leaf_ok kind l' (first l_sep l2 None) →
  (length (l_items l) ≤ length items)%nat →
  tree (<[Z.to_nat (l_block l) := p]> pages) r (l1 ++ l' :: l2).
Proof.
  intros Ht Hm l' Hp Hleaf Hnext Hok Hfill. destruct (tree_blocks _ _ _ Ht Hm) as (Hbig & Hbl & Hr0).
  pose proof (tree_leaf _ _ _ _ _ Ht) as [Hb0 (q & qo & Hq & _)].
  assert (Hfr : ∀ x, 0 < x → x ≠ l_block l → <[Z.to_nat (l_block l) := p]> pages !! Z.to_nat x = pages !! Z.to_nat x).
  { intros x Hx Hne. apply list_lookup_insert_ne. lia. }
  destruct Ht as [Hmeta Hchain Hord Hfirst Hnd Hlen Hroot].
  split.
  - destruct Hmeta as (mp & Hmp & Hmr). exists mp. split; [|done]. rewrite list_lookup_insert_ne by lia. done.
  - apply linked_app in Hchain as [Hc1 [_ Hc2]]. apply linked_app. split; [|split].
    + apply (chain_frame pages); [|done]. intros x Hx. apply Hfr; [apply Hbl, elem_of_app; by left|apply (other_blocks l1 l l2); [done|by left]].
    + split; [done|]. exists p, o. split; [|done]. by apply list_lookup_insert_eq, (lookup_lt_Some _ _ q).
    + apply (chain_frame pages); [|done]. intros x Hx. apply Hfr; [apply Hbl, elem_of_app; right; by right|apply (other_blocks l1 l l2); [done|by right]].
  - apply (replace_leaves kind l1 l2 l Hord [l']); [done|done|done|done].
  - destruct Hfirst as (x & rest & Hx & Hn). destruct l1 as [|y l1]; cbn in *; simplify_eq; by do 2 eexists.
  - by rewrite fmap_app, fmap_cons in *.
  - rewrite length_insert, length_app in *. done.
  - destruct Hroot as [(x & Hx & -> & H2)|(Hr & Hnr & Hf & rp & ro & Hrp & Hrb & Hnl)].
    + left. destruct l1 as [|y l1]; [|by destruct l1]. destruct l2; [|done]. cbn in *. simplify_eq. exists l'. by rewrite length_insert.
    + right. rewrite fmap_app, fmap_cons in *. split_and!; [done|done| |].
      * apply Forall_app in Hf as [Hf1 Hf2]. apply Forall_cons in Hf2 as [Hf2 Hf3]. apply Forall_app. split; [done|]. constructor; [cbn; lia|done].
      * exists rp, ro. split; [|split; [|done]].
        -- rewrite Hfr; [done|done|]. intros E. apply Hnr. rewrite E. apply elem_of_app. right. by left.
        -- unfold root_items in *. by rewrite fmap_app, fmap_cons in *.
Qed.

(** Two leaves in the place of one; the pages of all other leaves are as before. *)
Lemma split_chain pages pages' l1 l l2 lft rgt :
  linked (leaf_page pages) l_block (l1 ++ l :: l2) 0 → NoDup (l_block <$> l1 ++ l :: l2) →
  (∀ x, x ∈ l1 ∨ x ∈ l2 → pages' !! Z.to_nat (l_block x) = pages !! Z.to_nat (l_block x)) →
  l_block lft = l_block l → leaf_page pages' lft (l_block rgt) → leaf_page pages' rgt (first l_block l2 0) →
  linked (leaf_page pages') l_block (l1 ++ lft :: rgt :: l2) 0.
Proof.
  intros Hc Hnd Hfr Hb Hl Hr. apply linked_app in Hc as [Hc1 [_ Hc2]]. apply linked_app. cbn [first linked]. split_and!.
  - rewrite Hb. apply (chain_frame pages); [|done]. intros x Hx. apply Hfr. by left.
  - done.
  - done.
  - apply (chain_frame pages); [|done]. intros x Hx. apply Hfr. by right.
Qed.

Lemma split_blocks (l1 l2 : list leaf) l lft rgt nb :
  NoDup (l_block <$> l1 ++ l :: l2) → (∀ x, x ∈ l1 ++ l :: l2 → l_block x < nb) → l_block lft = l_block l → l_block rgt = nb →
  NoDup (l_block <$> l1 ++ lft :: rgt :: l2).
Proof.
  intros Hnd Hlt Hb Hn. assert (Hperm : l_block <$> l1 ++ lft :: rgt :: l2 ≡ₚ nb :: (l_block <$> l1 ++ l :: l2)).
  { rewrite !fmap_app, !fmap_cons, Hb, Hn. rewrite <- !Permutation_middle. constructor. }
  rewrite Hperm. apply NoDup_cons. split; [|done]. intros (x & Hx & Hin)%list_elem_of_fmap. specialize (Hlt x Hin). lia.
Qed.

Lemma tree_split pages r l1 l l2 pages' lft rgt rp ro :
  tree pages r (l1 ++ l :: l2) → (length (l1 ++ l :: l2) ≤ max_leaves kind)%nat → r ∉ (l_block <$> l1 ++ l :: l2) →
  Forall (λ l, (min_fill kind ≤ length (l_items l))%nat) (l1 ++ l :: l2) →
  l_block lft = l_block l → l_sep lft = l_sep l → l_block rgt = Z.of_nat (length pages) → is_Some (l_sep rgt) →
  (min_fill kind ≤ length (l_items lft))%nat → (min_fill kind ≤ length (l_items rgt))%nat →
  leaf_page pages' lft (l_block rgt) → leaf_page pages' rgt (first l_block l2 0) →
  leaf_ok kind lft (l_sep rgt) → leaf_ok kind rgt (first l_sep l2 None) →
  length pages' = S (length pages) →
  (∀ i, 0 ≤ i < Z.of_nat (length pages) → i ≠ l_block l → i ≠ r → pages' !! Z.to_nat i = pages !! Z.to_nat i) →
  pages' !! Z.to_nat r = Some rp → bt_page rp (root_items (l1 ++ lft :: rgt :: l2)) ro → ¬ is_leaf ro →
  tree pages' r (l1 ++ lft :: rgt :: l2).
Proof.
  intros Ht Hm Hnr Hfill Hb Hsep Hnb Hsome Hf1 Hf2 Hp1 Hp2 Hok1 Hok2 Hlen' Hfr Hrp Hrb Hnl.
  destruct (tree_blocks _ _ _ Ht Hm) as (Hbig & Hbl & Hr0). destruct Ht as [Hmeta Hchain Hord Hfirst Hnd Hlen Hroot].
  assert (Hne : ∀ x, x ∈ l1 ∨ x ∈ l2 → pages' !! Z.to_nat (l_block x) = pages !! Z.to_nat (l_block x)).
  { intros x Hx. assert (Hin : x ∈ l1 ++ l :: l2) by (apply elem_of_app; destruct Hx; [by left|right; by right]).
    pose proof (Hbl x Hin). apply Hfr; [lia|by apply (other_blocks l1 l l2)|]. intros <-. apply Hnr. by apply list_elem_of_fmap_2. }
  split.
  - destruct Hmeta as (mp & Hmp & Hmr). exists mp. split; [|done]. change 0%nat with (Z.to_nat 0). rewrite Hfr; [done|lia| |lia].
    assert (Hl : l ∈ l1 ++ l :: l2) by (apply elem_of_app; right; by left). specialize (Hbl l Hl). lia.
  - by apply (split_chain pages pages' l1 l l2).
  - apply (replace_leaves kind l1 l2 l Hord [lft; rgt]); [by split_and!|done|done|by constructor].
  - destruct Hfirst as (x & rest & Hx & Hn). destruct l1 as [|y l1]; cbn in *; simplify_eq; do 2 eexists; (split; [done|]); by rewrite ?Hsep.
  - apply (split_blocks l1 l2 l lft rgt (Z.of_nat (length pages))); [done| |done|done]. intros x Hx. by apply Hbl.
  - rewrite Hlen', !length_app in *. cbn [length] in *. lia.
  - right. split_and!; [lia| | |].
    + intros (x & Hx & Hin)%list_elem_of_fmap. apply elem_of_app in Hin. rewrite !elem_of_cons in Hin.
      destruct Hin as [Hin|[->|[->|Hin]]]; [|apply Hnr; rewrite Hx, Hb; apply list_elem_of_fmap_2, elem_of_app; right; by left|lia|];
        apply Hnr; rewrite Hx; apply list_elem_of_fmap_2, elem_of_app; [by left|right; by right].
    + apply Forall_app in Hfill as [Hfa Hfb]. apply Forall_cons in Hfb as [_ Hfb]. apply Forall_app. split; [done|].
      constructor; [done|]. by constructor.
    + by exists rp, ro.
Qed.

End tree.

(** ** Inserting *)

Ltac bstep H s' Hs :=
  let Hrun := fresh "Hrun" in destruct H as (s' & Hrun & Hs); [try done..|rewrite (bind_ret_run _ _ _ _ _ Hrun); clear Hrun].

Section run.
Context (kind : BTKeyKind) (index : RelationData) (node : Z) (s0 : Bufs).
Context (Hpins0 : pins_ok s0) (Hopen : opened index node).
Abbreviation st := (st node s0).

Lemma create_st s pages L flags level :
  st s pages L →
  ∃ s', _bt_create_page index (Z.of_nat (length pages)) flags level s = (Ret (node, Z.of_nat (length pages)), s') ∧
        st s' (pages ++ [_bt_init_page flags level]) (Z.of_nat (length pages) :: L).
Proof using Hopen.
  intros Hs. unfold _bt_create_page. rewrite (bind_ret_run _ _ _ _ _ (Hopen s)).
  bstep (extend_st node s0 s pages L (_bt_init_page flags level) Hs) s1 Hs1.
  apply (read_st node s0 s1 (pages ++ [_bt_init_page flags level]) L (length pages) (_bt_init_page flags level) Hs1).
  by apply list_lookup_middle.
Qed.

Lemma nblocks_st s pages L : st s pages L → RelationGetNumberOfBlocks index s = (Ret (Z.of_nat (length pages)), s).
Proof using Hopen.
  intros Hs. unfold RelationGetNumberOfBlocks. rewrite (bind_ret_run _ _ _ _ _ (Hopen s)). unfold gets. by rewrite (st_fork _ _ _ _ _ Hs).
Qed.

Lemma root_st s pages L r :
  st s pages L → (∃ mp, pages !! 0%nat = Some mp ∧ root (_bt_get_meta mp) = r) → ∃ s', read_root node s = (Ret r, s') ∧ st s' pages L.
Proof using Hpins0.
  intros Hs (mp & Hmp & Hr). unfold read_root. bstep (read_st node s0 s pages L 0 mp Hs Hmp) s1 Hs1.
  erewrite bind_ret_run by done. rewrite (page_st node s0 s1 pages (Z.of_nat 0 :: L) 0 mp Hs1 Hmp), Hr.
  bstep (release_st node s0 Hpins0 s1 pages (Z.of_nat 0 :: L) (Z.of_nat 0) L Hs1) s2 Hs2. by eexists.
Qed.

Lemma filled_leaf items :
  Forall (wf_item kind) items → room items ≤ kBtSpace →
  bt_page (add_all items (_bt_init_page kBtpLeaf 0)) items (mkOpaque 0 0 kBtpLeaf 0).
Proof.
  intros Hw Hroom. apply (add_all_run items _ []); [by apply init_page_run| |by cbn [room foldr]].
  eapply Forall_impl; [exact Hw|]. intros x Hx%wf_item_length ->. done.
Qed.

(** A leaf page with its links set. *)
Definition relink (prev next : Z) (p : Page) : Page :=
  set_opaque (mkOpaque prev next (btpo_flags (_bt_page_getopaque p)) (btpo_level (_bt_page_getopaque p))) p.

Lemma new_leaf pages l prev next :
  pages !! Z.to_nat (l_block l) = Some (relink prev next (add_all (l_items l) (_bt_init_page kBtpLeaf 0))) → 0 < l_block l →
  Forall (wf_item kind) (l_items l) → room (l_items l) ≤ kBtSpace → is_u32 prev → is_u32 next → leaf_page pages l next.
Proof.
  intros Hp H0 Hw Hroom Hpr Hn. split; [done|]. eexists _, (mkOpaque prev next kBtpLeaf 0). split; [exact Hp|]. split; [|done].
  pose proof (filled_leaf _ Hw Hroom) as Hb. unfold relink. rewrite (bp_opaque _ _ _ Hb). by apply (set_opaque_page _ _ (mkOpaque 0 0 kBtpLeaf 0)).
Qed.

(** What a split does to the leaves: the two halves of the entries and the new one. *)
Record halves (l : leaf) (item : list Z) (nb : Z) (hi : option (list Z)) (mid : nat) (lft rgt : leaf) (sep : list Z) : Prop := {
  hv_left : lft = mkLeaf (l_block l) (l_sep l) (take mid (insert_entry kind item (l_items l)));
  hv_right : rgt = mkLeaf nb (Some sep) (drop mid (insert_entry kind item (l_items l)));
  hv_sep : sep = _bt_item_get_key (default [] (insert_entry kind item (l_items l) !! mid));
  hv_lok : leaf_ok kind lft (Some sep);
  hv_rok : leaf_ok kind rgt hi;
  hv_lfill : (min_fill kind ≤ length (l_items lft))%nat;
  hv_rfill : (min_fill kind ≤ length (l_items rgt))%nat;
  hv_lroom : room (l_items lft) ≤ kBtSpace;
  hv_rroom : room (l_items rgt) ≤ kBtSpace;
  hv_lwf : Forall (wf_item kind) (l_items lft);
  hv_rwf : Forall (wf_item kind) (l_items rgt);
  hv_items : l_items lft ++ l_items rgt = insert_entry kind item (l_items l);
}.

Lemma split_halves l1 l l2 item nb :
  ordered kind (l1 ++ l :: l2) None → wf_item kind item →
  in_range kind (l_sep l) (first l_sep l2 None) (_bt_item_get_key item) →
  (∀ x, x ∈ entries (l1 ++ l :: l2) → _bt_item_get_key x ≠ _bt_item_get_key item) →
  room (l_items l) ≤ kBtSpace → kBtSpace - room (l_items l) < MaxAlignUp (Z.of_nat (length item)) + 2 * kItemIdSize →
  let mid := (length (insert_entry kind item (l_items l)) / 2)%nat in
  ∃ lft rgt sep, halves l item nb (first l_sep l2 None) mid lft rgt sep.
Proof.
  intros Ho Hw Hr Hne Hroom Hfull mid. pose proof (insert_leaf_ok kind l1 l2 l item Ho Hw Hr Hne) as Hok.
  assert (Hwl : Forall (wf_item kind) (l_items l)).
  { apply ordered_app in Ho as [_ Ho]. apply ordered_cons in Ho as (Hl & _). eapply Forall_impl; [apply Hl|]. by intros x []. }
  assert (Hall : Forall (wf_item kind) (insert_entry kind item (l_items l))).
  { apply Forall_forall. rewrite Forall_forall in Hwl. intros x [->|Hx]%elem_of_insert_at; [done|by apply Hwl]. }
  pose proof (halves_fit kind (l_items l) item (passed (below kind (_bt_item_get_key item)) (l_items l)) Hwl Hw Hroom Hfull) as H.
  fold (insert_entry kind item (l_items l)) in H. cbn zeta in H. fold mid in H. destruct H as (Hm1 & Hm2 & Hr1 & Hr2).
  assert (H16 : (16 ≤ min_fill kind)%nat) by (destruct kind; cbn; lia).
  destruct (lookup_lt_is_Some_2 (insert_entry kind item (l_items l)) mid) as [x Hx]; [lia|].
  destruct (split_leaf_ok kind _ nb _ _ _ mid x Hok Hx) as [Hl1 Hl2]; [lia|].
  set (all := insert_entry kind item (l_items l)) in *.
  exists (mkLeaf (l_block l) (l_sep l) (take mid all)), (mkLeaf nb (Some (_bt_item_get_key x)) (drop mid all)), (_bt_item_get_key x).
  split; try done; cbn [l_items].
  - fold all. by rewrite Hx.
  - rewrite length_take. lia.
  - rewrite length_drop. lia.
  - by apply Forall_take.
  - by apply Forall_drop.
  - by rewrite take_drop.
Qed.

(** The result of an insertion. *)
Definition grown (item : list Z) (leaves : list leaf) (s' : Bufs) : Prop :=
  ∃ pages' r' leaves', st s' pages' [] ∧ tree kind pages' r' leaves' ∧ entries leaves' = insert_entry kind item (entries leaves).

Lemma page_room p items o : bt_page p items o → room items ≤ kBtSpace.
Proof. intros Hp. pose proof (bp_room _ _ _ Hp). pose proof (wf_order p (bp_wf _ _ _ Hp)). lia. Qed.

(** The pages behind the split of a leaf. *)
Lemma split_pages (pages : list Page) (b r : Z) p0 p1 q p2 rp p :
  0 < b < Z.of_nat (length pages) → 0 < r < Z.of_nat (length pages) → b ≠ r → pages !! Z.to_nat b = Some p →
  let n := length pages in
  let pages' := <[Z.to_nat r := rp]> (<[n := p2]> (<[Z.to_nat b := p1]> (<[Z.to_nat b := p0]> pages ++ [q]))) in
  length pages' = S n ∧ pages' !! Z.to_nat b = Some p1 ∧ pages' !! n = Some p2 ∧ pages' !! Z.to_nat r = Some rp ∧
  ∀ i, 0 ≤ i < Z.of_nat n → i ≠ b → i ≠ r → pages' !! Z.to_nat i = pages !! Z.to_nat i.
Proof.
  intros Hb Hr Hbr Hp n pages'. assert (Hlen : length pages' = S n).
  { unfold pages'. rewrite !length_insert, length_app, length_insert. cbn. lia. }
  split; [done|]. unfold pages'. split_and!.
  - rewrite list_lookup_insert_ne, list_lookup_insert_ne by lia. apply list_lookup_insert_eq. rewrite length_app, length_insert. cbn. lia.
  - rewrite list_lookup_insert_ne by lia. apply list_lookup_insert_eq. rewrite length_insert, length_app, length_insert. cbn. lia.
  - apply list_lookup_insert_eq. rewrite !length_insert, length_app, length_insert. cbn. lia.
  - intros i Hi Hib Hir. rewrite !list_lookup_insert_ne by lia. rewrite lookup_app_l by (rewrite length_insert; lia).
    by rewrite list_lookup_insert_ne by lia.
Qed.

Lemma split_leaf_steps s pages b r key item p items o rp :
  st s pages [b; r] → 0 < b < Z.of_nat (length pages) → 0 < r < Z.of_nat (length pages) → b ≠ r →
  pages !! Z.to_nat b = Some p → bt_page p items o → pages !! Z.to_nat r = Some rp →
  let n := length pages in
  let all := insert_at (passed (below kind key) items) item items in
  let mid := (length all / 2)%nat in
  let p0 := add_all (take mid all) (_bt_init_page kBtpLeaf 0) in
  let p1 := relink (btpo_prev (_bt_page_getopaque p0)) (Z.of_nat n) p0 in
  let p2 := relink b (btpo_next o) (add_all (drop mid all) (_bt_init_page kBtpLeaf 0)) in
  let rp' := add_separator kind (_bt_item_get_key (default [] (all !! mid))) (Z.of_nat n) rp in
  ∃ s', split_leaf index node kind key item b (node, b) (node, r) s = (Ret true, s') ∧
    st s' (<[Z.to_nat r := rp']> (<[n := p2]> (<[Z.to_nat b := p1]> (<[Z.to_nat b := p0]> pages ++ [_bt_init_page kBtpLeaf 0])))) [].
Proof using Hpins0 Hopen.
  intros Hs Hb Hr Hbr Hp Hpb Hrp n all mid p0 p1 p2 rp'. unfold split_leaf. erewrite bind_ret_run by done.
  rewrite (page_block node s0 s pages _ b p Hs) by (done || lia). rewrite (read_all_run _ _ _ Hpb), insert_idx_passed, (bp_opaque _ _ _ Hpb).
  rewrite (bind_ret_run _ _ _ _ _ (nblocks_st s pages _ Hs)). fold n all mid p0.
  bstep (write_block node s0 s pages _ b p p0 Hs) s1 Hs1; [lia|]. set (pages1 := <[Z.to_nat b := p0]> pages) in *.
  assert (Hn1 : length pages1 = n) by apply length_insert.
  pose proof (create_st s1 pages1 _ kBtpLeaf 0 Hs1) as Hcr. rewrite Hn1 in Hcr. bstep Hcr s2 Hs2. set (pages2 := pages1 ++ _) in *.
  assert (Hn2 : length pages2 = S n) by (unfold pages2; rewrite length_app, Hn1; cbn; lia).
  erewrite bind_ret_run by done.
  rewrite (page_st node s0 s2 _ _ n (_bt_init_page kBtpLeaf 0) Hs2) by (unfold pages2; rewrite <- Hn1; by apply list_lookup_middle).
  destruct (lookup_lt_is_Some_2 pages2 (Z.to_nat b)) as [q1 Hq1]; [lia|]. bstep (write_block node s0 s2 _ _ b q1 p1 Hs2) s3 Hs3; [lia|].
  set (pages3 := <[Z.to_nat b := p1]> pages2) in *. assert (Hn3 : length pages3 = S n) by (unfold pages3; by rewrite length_insert).
  destruct (lookup_lt_is_Some_2 pages3 n) as [q2 Hq2]; [lia|]. bstep (set_page_st node s0 s3 _ _ n q2 p2 Hs3 Hq2) s4 Hs4.
  set (pages4 := <[n := p2]> pages3) in *.
  bstep (dirty_st node s0 s4 _ _ (node, b) Hs4) s5 Hs5. bstep (dirty_st node s0 s5 _ _ (node, Z.of_nat n) Hs5) s6 Hs6.
  bstep (release_st node s0 Hpins0 s6 _ _ (Z.of_nat n) [b; r] Hs6) s7 Hs7.
  bstep (release_st node s0 Hpins0 s7 _ _ b [r] Hs7) s8 Hs8.
  assert (Hr4 : pages4 !! Z.to_nat r = Some rp).
  { unfold pages4, pages3, pages2, pages1. rewrite !list_lookup_insert_ne by lia. rewrite lookup_app_l by (rewrite length_insert; lia).
    by rewrite list_lookup_insert_ne by lia. }
  erewrite bind_ret_run by done. rewrite (page_block node s0 s8 _ _ r rp Hs8) by (done || lia).
  bstep (write_block node s0 s8 _ _ r rp rp' Hs8) s9 Hs9; [lia|]. bstep (dirty_st node s0 s9 _ _ (node, r) Hs9) s10 Hs10.
  bstep (release_st node s0 Hpins0 s10 _ _ r [] Hs10) s11 Hs11. by exists s11.
Qed.

Lemma split_leaf_run s pages r l1 l l2 key item :
  let leaves := l1 ++ l :: l2 in
  st s pages [l_block l; r] → tree kind pages r leaves → (length leaves ≤ max_leaves kind)%nat → r ∉ (l_block <$> leaves) →
  wf_item kind item → _bt_item_get_key item = key → in_range kind (l_sep l) (first l_sep l2 None) key →
  (∀ x, x ∈ entries leaves → _bt_item_get_key x ≠ key) →
  kBtSpace - room (l_items l) < MaxAlignUp (Z.of_nat (length item)) + 2 * kItemIdSize →
  ∃ s', split_leaf index node kind key item (l_block l) (node, l_block l) (node, r) s = (Ret true, s') ∧ grown item leaves s'.
Proof using All.
  intros leaves Hs Ht Hm Hnr Hw <- Hr Hne Hfull. destruct (tree_blocks kind _ _ _ Ht Hm) as (Hbig & Hbl & Hr0).
  assert (Hlin : l ∈ leaves) by (apply elem_of_app; right; by left). pose proof (Hbl l Hlin) as Hb.
  assert (Hbr : l_block l ≠ r) by (intros E; apply Hnr; rewrite <- E; by apply list_elem_of_fmap_2).
  destruct (tree_leaf kind _ _ _ _ _ Ht) as [_ (p & o & Hp & Hpb & Hleaf & Hnext)].
  pose proof (next_block_bound kind _ _ _ l1 l l2 Ht eq_refl) as Hnb.
  destruct (t_root kind _ _ _ Ht) as [(x & Hx & -> & _)|(_ & _ & Hfill & rp & ro & Hrp & Hrb & Hnl)].
  { exfalso. apply Hnr. fold leaves. rewrite Hx. by left. }
  destruct (split_halves l1 l l2 item (Z.of_nat (length pages)) (t_order kind _ _ _ Ht) Hw Hr Hne (page_room _ _ _ Hpb) Hfull)
    as (lft & rgt & sep & [Elft Ergt Esep Hlok Hrok Hlf Hrf Hlr Hrr Hlw Hrw Hits]).
  destruct (split_leaf_steps s pages (l_block l) r (_bt_item_get_key item) item p (l_items l) o rp Hs Hb Hr0 Hbr Hp Hpb Hrp) as (s' & Hrun & Hs').
  exists s'. split; [done|]. clear Hrun. revert Hs'. fold (insert_entry kind item (l_items l)). rewrite <- Esep, Hnext.
  replace (take _ (insert_entry _ _ _)) with (l_items lft) by (by rewrite Elft).
  replace (drop _ (insert_entry _ _ _)) with (l_items rgt) by (by rewrite Ergt). intros Hs'.
  match type of Hs' with NbtSpec.st _ _ _ (<[_ := ?a]> (<[_ := ?b2]> (<[_ := ?c]> (<[_ := ?d]> _ ++ [?e])))) _ =>
    destruct (split_pages pages (l_block l) r d c e b2 a p Hb Hr0 Hbr Hp) as (Hlen & H1 & H2 & H3 & Hfr) end.
  eexists _, r, (l1 ++ lft :: rgt :: l2). split; [exact Hs'|]. split.
  - assert (Hu : ∀ z, 0 ≤ z ≤ Z.of_nat (length pages) → is_u32 z) by (unfold is_u32; lia).
    apply (tree_split kind pages r l1 l l2 _ lft rgt (add_separator kind sep (Z.of_nat (length pages)) rp) ro); try done; try (by rewrite ?Elft, ?Ergt).
    + apply (new_leaf _ lft 0); [|rewrite Elft; cbn; lia|done|done|done|apply Hu; rewrite Ergt; cbn; lia].
      rewrite Elft at 1. cbn [l_block]. rewrite H1, (bp_opaque _ _ _ (filled_leaf _ Hlw Hlr)). by rewrite Ergt.
    + apply (new_leaf _ rgt (l_block l)); [|rewrite Ergt; cbn; lia|done|done|apply Hu; lia|apply Hu; lia].
      rewrite Ergt at 1. cbn [l_block]. by rewrite Nat2Z.id.
    + by replace (l_sep rgt) with (Some sep) by (by rewrite Ergt).
    + pose proof (add_separator_run kind rp ro l1 l l2 sep (Z.of_nat (length pages)) (l_items rgt) Hrb (t_order kind _ _ _ Ht) (t_first kind _ _ _ Ht)) as Hsep.
      unfold root_items in *. rewrite !fmap_app, !fmap_cons in *. rewrite Elft, Ergt. apply Hsep; try done.
      * rewrite Ergt in Hrok. by apply (lo_sep _ _ _ Hrok).
      * intros lo Hlo. rewrite Elft in Hlok. by apply (lo_sep _ _ _ Hlok).
      * intros h Hh. rewrite Ergt in Hrok. by apply (lo_sep _ _ _ Hrok).
  - unfold leaves. rewrite (insert_entries kind l1 l2 l item (t_order kind _ _ _ Ht) Hr), entries_app, !entries_cons, <- Hits. by rewrite <- !app_assoc.
Qed.

(** The split of the first root. *)
Lemma split_root_steps s pages b key item p items o mp :
  st s pages [b] → 0 < b < Z.of_nat (length pages) → Z.of_nat (length pages) < 2 ^ 16 →
  pages !! Z.to_nat b = Some p → bt_page p items o → pages !! 0%nat = Some mp →
  let n := length pages in
  let all := insert_at (passed (below kind key) items) item items in
  let mid := (length all / 2)%nat in
  let p0 := add_all (take mid all) (_bt_init_page kBtpLeaf 0) in
  let p1 := relink (btpo_prev (_bt_page_getopaque p0)) (Z.of_nat n) p0 in
  let q0 := add_all (drop mid all) (_bt_init_page kBtpLeaf 0) in
  let p2 := relink b (btpo_next (_bt_page_getopaque q0)) q0 in
  let sep := _bt_item_get_key (default [] (all !! mid)) in
  let rp := add_all [to_le 4 b; internal_entry (Z.of_nat n) sep] (_bt_init_page kBtpRoot 1) in
  ∃ s', split_root index node kind key item b (node, b) s = (Ret true, s') ∧
    st s' (<[0%nat := _bt_update_meta (Z.of_nat (S n)) mp]>
      (<[S n := rp]> (<[n := p2]> (<[Z.to_nat b := p1]> (pages ++ [_bt_init_page kBtpLeaf 0])) ++ [_bt_init_page kBtpRoot 1]))) [].
Proof using Hpins0 Hopen.
  intros Hs Hb Hbig Hp Hpb Hmp n all mid p0 p1 q0 p2 sep rp. unfold split_root. erewrite bind_ret_run by done.
  rewrite (page_block node s0 s pages _ b p Hs) by (done || lia). rewrite (read_all_run _ _ _ Hpb), insert_idx_passed.
  rewrite (bind_ret_run _ _ _ _ _ (nblocks_st s pages _ Hs)). fold n all mid p0.
  replace (u32 (Z.of_nat n + 1)) with (Z.of_nat (S n)) by (rewrite u32_small; unfold is_u32; lia).
  bstep (create_st s pages _ kBtpLeaf 0 Hs) s1 Hs1. fold n in Hs1. set (pages1 := pages ++ _) in *.
  assert (Hn1 : length pages1 = S n) by (unfold pages1; rewrite length_app; cbn; lia).
  erewrite bind_ret_run by done. fold n.
  rewrite (page_st node s0 s1 _ _ n (_bt_init_page kBtpLeaf 0) Hs1) by (unfold pages1; by apply list_lookup_middle).
  destruct (lookup_lt_is_Some_2 pages1 (Z.to_nat b)) as [q1 Hq1]; [lia|]. bstep (write_block node s0 s1 _ _ b q1 p1 Hs1) s2 Hs2; [lia|].
  set (pages2 := <[Z.to_nat b := p1]> pages1) in *. assert (Hn2 : length pages2 = S n) by (unfold pages2; by rewrite length_insert).
  destruct (lookup_lt_is_Some_2 pages2 n) as [q2 Hq2]; [lia|]. bstep (set_page_st node s0 s2 _ _ n q2 p2 Hs2 Hq2) s3 Hs3.
  set (pages3 := <[n := p2]> pages2) in *. assert (Hn3 : length pages3 = S n) by (unfold pages3; by rewrite length_insert).
  bstep (dirty_st node s0 s3 _ _ (node, b) Hs3) s4 Hs4. bstep (dirty_st node s0 s4 _ _ (node, Z.of_nat n) Hs4) s5 Hs5.
  bstep (release_st node s0 Hpins0 s5 _ _ (Z.of_nat n) [b] Hs5) s6 Hs6.
  pose proof (create_st s6 pages3 _ kBtpRoot 1 Hs6) as Hcr. rewrite Hn3 in Hcr. bstep Hcr s7 Hs7. set (pages4 := pages3 ++ _) in *.
  assert (Hq4 : pages4 !! S n = Some (_bt_init_page kBtpRoot 1)) by (unfold pages4; rewrite <- Hn3; by apply list_lookup_middle).
  erewrite bind_ret_run by done. rewrite (page_st node s0 s7 _ _ (S n) _ Hs7 Hq4). fold sep rp.
  bstep (set_page_st node s0 s7 _ _ (S n) _ rp Hs7 Hq4) s8 Hs8. set (pages5 := <[S n := rp]> pages4) in *.
  bstep (dirty_st node s0 s8 _ _ (node, Z.of_nat (S n)) Hs8) s9 Hs9.
  bstep (release_st node s0 Hpins0 s9 _ _ (Z.of_nat (S n)) [b] Hs9) s10 Hs10. bstep (release_st node s0 Hpins0 s10 _ _ b [] Hs10) s11 Hs11.
  assert (Hm : pages5 !! 0%nat = Some mp).
  { unfold pages5, pages4. rewrite list_lookup_insert_ne, lookup_app_l by lia.
    unfold pages3, pages2, pages1. rewrite !list_lookup_insert_ne by lia. by rewrite lookup_app_l by lia. }
  bstep (read_st node s0 s11 _ _ 0 mp Hs11 Hm) s12 Hs12. erewrite bind_ret_run by done. rewrite (page_st node s0 s12 _ _ 0 mp Hs12 Hm).
  bstep (set_page_st node s0 s12 _ _ 0 mp (_bt_update_meta (Z.of_nat (S n)) mp) Hs12 Hm) s13 Hs13.
  bstep (dirty_st node s0 s13 _ _ (node, Z.of_nat 0) Hs13) s14 Hs14.
  bstep (release_st node s0 Hpins0 s14 _ _ (Z.of_nat 0) [] Hs14) s15 Hs15. by exists s15.
Qed.

Lemma update_meta_root r p : is_u32 r → root (_bt_get_meta (_bt_update_meta r p)) = r.
Proof.
  intros Hr. unfold _bt_update_meta. set (m := _bt_get_meta p). unfold _bt_get_meta, set_meta. cbn [bytes with_bytes root].
  set (m' := mkMeta _ _ r _ r). change 20 with (Z.of_nat (length (meta_bytes m'))). rewrite read_memcpy.
  unfold meta_bytes. rewrite !word_skip. by apply word_first.
Qed.

Lemma split_root_pages (pages : list Page) (b : Z) p1 q p2 q' rp mp p :
  0 < b < Z.of_nat (length pages) → pages !! Z.to_nat b = Some p →
  let n := length pages in
  let pages' := <[0%nat := mp]> (<[S n := rp]> (<[n := p2]> (<[Z.to_nat b := p1]> (pages ++ [q])) ++ [q'])) in
  length pages' = S (S n) ∧ pages' !! 0%nat = Some mp ∧ pages' !! Z.to_nat b = Some p1 ∧ pages' !! n = Some p2 ∧ pages' !! S n = Some rp.
Proof.
  intros Hb Hp n pages'. set (pages2 := <[n := p2]> (<[Z.to_nat b := p1]> (pages ++ [q]))) in *.
  assert (Hn2 : length pages2 = S n) by (unfold pages2; rewrite !length_insert, length_app; cbn; lia).
  assert (Hlen : length pages' = S (S n)) by (unfold pages'; rewrite !length_insert, length_app, Hn2; cbn; lia).
  split; [done|]. unfold pages'. split_and!.
  - apply list_lookup_insert_eq. rewrite length_insert, length_app. cbn. lia.
  - rewrite !list_lookup_insert_ne, lookup_app_l by lia. unfold pages2. rewrite list_lookup_insert_ne by lia.
    apply list_lookup_insert_eq. rewrite length_app. cbn. lia.
  - rewrite !list_lookup_insert_ne, lookup_app_l by lia. unfold pages2. apply list_lookup_insert_eq.
    rewrite length_insert, length_app. cbn. lia.
  - rewrite list_lookup_insert_ne by lia. apply list_lookup_insert_eq. rewrite length_app. cbn. lia.
Qed.

Lemma new_root_page b nb sep :
  wf_key kind sep →
  bt_page (add_all [to_le 4 b; internal_entry nb sep] (_bt_init_page kBtpRoot 1)) [to_le 4 b; internal_entry nb sep] (mkOpaque 0 0 kBtpRoot 1).
Proof.
  intros Hw. pose proof (sep_room_bound kind nb sep Hw) as Hr. apply (add_all_run _ _ []); [by apply init_page_run| |].
  - constructor; [done|]. constructor; [done|]. done.
  - rewrite !room_cons. rewrite length_to_le. change (MaxAlignUp (Z.of_nat 4)) with 4. cbn [room foldr].
    unfold kBtSpace, kBlckSz, kBTPageOpaqueSize, kPageHeaderSize, kItemIdSize in *. destruct kind; cbn [sep_room] in *; lia.
Qed.

Lemma split_root_run s pages l key item :
  st s pages [l_block l] → tree kind pages (l_block l) [l] → length pages = 2%nat →
  wf_item kind item → _bt_item_get_key item = key →
  (∀ x, x ∈ entries [l] → _bt_item_get_key x ≠ key) →
  kBtSpace - room (l_items l) < MaxAlignUp (Z.of_nat (length item)) + 2 * kItemIdSize →
  ∃ s', split_root index node kind key item (l_block l) (node, l_block l) s = (Ret true, s') ∧ grown item [l] s'.
Proof using All.
  intros Hs Ht H2 Hw <- Hne Hfull. assert (Hm : (length [l] ≤ max_leaves kind)%nat) by (destruct kind; cbn; lia).
  destruct (tree_blocks kind _ _ _ Ht Hm) as (Hbig & Hbl & Hb).
  destruct (tree_leaf kind _ _ [] l [] Ht) as [_ (p & o & Hp & Hpb & Hleaf & Hnext)]. destruct (t_meta kind _ _ _ Ht) as (mp & Hmp & _).
  destruct (t_first kind _ _ _ Ht) as (x & rest & [= <- <-] & Hsep0).
  assert (Hr : in_range kind (l_sep l) (first l_sep [] None) (_bt_item_get_key item)) by (rewrite Hsep0; done).
  destruct (split_halves [] l [] item (Z.of_nat (length pages)) (t_order kind _ _ _ Ht) Hw Hr Hne (page_room _ _ _ Hpb) Hfull)
    as (lft & rgt & sep & [Elft Ergt Esep Hlok Hrok Hlf Hrf Hlr Hrr Hlw Hrw Hits]).
  destruct (split_root_steps s pages (l_block l) (_bt_item_get_key item) item p (l_items l) o mp Hs Hb Hbig Hp Hpb Hmp) as (s' & Hrun & Hs').
  exists s'. split; [done|]. clear Hrun. revert Hs'. fold (insert_entry kind item (l_items l)). rewrite <- Esep.
  replace (take _ (insert_entry _ _ _)) with (l_items lft) by (by rewrite Elft).
  replace (drop _ (insert_entry _ _ _)) with (l_items rgt) by (by rewrite Ergt). intros Hs'.
  match type of Hs' with NbtSpec.st _ _ _ (<[_ := ?m]> (<[_ := ?a]> (<[_ := ?b2]> (<[_ := ?c]> (_ ++ [?e])) ++ [?f]))) _ =>
    destruct (split_root_pages pages (l_block l) c e b2 f a m p Hb Hp) as (Hlen & H0 & H1 & Hn & Hsn) end.
  match type of Hs' with NbtSpec.st _ _ _ ?P _ => set (pages' := P) in *; clearbody pages' end.
  exists pages', (Z.of_nat (S (length pages))), [lft; rgt]. split; [exact Hs'|]. clear Hs'.
  assert (Hu : ∀ z, 0 ≤ z ≤ Z.of_nat (length pages) + 1 → is_u32 z) by (unfold is_u32; lia).
  assert (Hsepw : wf_key kind sep) by (rewrite Ergt in Hrok; by apply (lo_sep _ _ _ Hrok)).
  split; [|change [l] with ([] ++ l :: []); rewrite (insert_entries kind [] [] l item (t_order kind _ _ _ Ht) Hr), !entries_cons, <- Hits; by rewrite <- !app_assoc].
  split.
  - eexists. split; [exact H0|]. apply update_meta_root, Hu. lia.
  - rewrite (bp_opaque _ _ _ (filled_leaf _ Hlw Hlr)) in H1. rewrite (bp_opaque _ _ _ (filled_leaf _ Hrw Hrr)) in Hn. split; [|split; [|done]].
    + apply (new_leaf _ lft 0); [|rewrite Elft; cbn; lia|done|done|done|apply Hu; rewrite Ergt; cbn; lia].
      rewrite Elft at 1. cbn [l_block first]. rewrite H1. by rewrite Ergt.
    + apply (new_leaf _ rgt (l_block l)); [|rewrite Ergt; cbn; lia|done|done|apply Hu; lia|done].
      rewrite Ergt at 1. cbn [l_block first]. by rewrite Nat2Z.id.
  - split; [|constructor; [by rewrite Ergt|done]]. split; [|by split]. cbn [first]. by replace (l_sep rgt) with (Some sep) by (by rewrite Ergt).
  - eexists _, _. split; [done|]. by rewrite Elft.
  - rewrite Elft, Ergt. cbn. apply NoDup_cons. split; [|apply NoDup_singleton]. intros Hx%list_elem_of_singleton. lia.
  - rewrite Hlen, H2. cbn. lia.
  - right. split_and!; [lia| |by do 2 (constructor; [done|])|].
    + rewrite Elft, Ergt. cbn. rewrite !elem_of_cons. intros [E|[E|E%elem_of_nil]]; lia.
    + eexists _, (mkOpaque 0 0 kBtpRoot 1). rewrite Nat2Z.id. split; [exact Hsn|]. split; [|exact (λ H, H eq_refl)].
      replace (root_items [lft; rgt]) with [to_le 4 (l_block l); internal_entry (Z.of_nat (length pages)) sep]; [by apply new_root_page|].
      rewrite Elft, Ergt. unfold root_items, sep_entry, internal_entry. cbn [fmap list_fmap l_block l_sep]. rewrite Hsep0. cbn [default]. by rewrite app_nil_r.
Qed.

Lemma few_leaves pages r leaves :
  tree kind pages r leaves → (length (entries leaves) < capacity kind)%nat → (length leaves ≤ max_leaves kind)%nat.
Proof.
  intros Ht Hc. destruct (t_root kind _ _ _ Ht) as [(l & -> & _)|(_ & _ & Hf & _)]; [destruct kind; cbn; lia|].
  assert (H : (length leaves * min_fill kind ≤ length (entries leaves))%nat).
  { clear Ht Hc. induction Hf as [|l leaves Hl _ IH]; [done|]. rewrite entries_cons, length_app. cbn [length]. lia. }
  unfold capacity in Hc. nia.
Qed.

(** The insertion into the leaf of the key: the page of the leaf with the new
    entry, or no room. *)
Lemma leaf_insert pages l next item :
  leaf_page pages l next → wf_item kind item →
  ∃ p o, pages !! Z.to_nat (l_block l) = Some p ∧ bt_page p (l_items l) o ∧ is_leaf o ∧ btpo_next o = next ∧
    let pos := _bt_find_insert_pos p kind (_bt_item_get_key item) in
    if kBtSpace - room (l_items l) <? MaxAlignUp (Z.of_nat (length item)) + 2 * kItemIdSize
    then _bt_page_insert_item item pos p = (kInvalidOffsetNumber, p)
    else ∃ p', _bt_page_insert_item item pos p = (pos, p') ∧ pos ≠ kInvalidOffsetNumber ∧ bt_page p' (insert_entry kind item (l_items l)) o.
Proof.
  intros [_ (p & o & Hp & Hb & Hl & Hn)] Hw. exists p, o. split_and!; [done..|]. intros pos.
  assert (Hpos : pos = 1 + Z.of_nat (passed (below kind (_bt_item_get_key item)) (l_items l))) by exact (find_pos_run p _ o kind _ Hb).
  pose proof (passed_le (below kind (_bt_item_get_key item)) (l_items l)) as Hle.
  assert (Hlen : 0 < Z.of_nat (length item) < 2 ^ 16).
  { pose proof (wf_item_length _ _ Hw). destruct (wf_item_key _ _ Hw) as [_ Hk]. destruct kind; lia. }
  pose proof (insert_item_run p _ o item pos Hb Hlen ltac:(lia)) as H. destruct (_ <? _); [done|].
  destruct H as (p' & Hrun & Hb'). exists p'. split; [done|]. split; [unfold kInvalidOffsetNumber; lia|].
  replace (Z.to_nat (pos - 1)) with (passed (below kind (_bt_item_get_key item)) (l_items l)) in Hb' by lia. done.
Qed.

(** A change of the entries of one leaf is an insertion. *)
Lemma grown_replace s pages r l1 l l2 item p o :
  st s (<[Z.to_nat (l_block l) := p]> pages) [] → tree kind pages r (l1 ++ l :: l2) → (length (l1 ++ l :: l2) ≤ max_leaves kind)%nat →
  wf_item kind item → in_range kind (l_sep l) (first l_sep l2 None) (_bt_item_get_key item) →
  (∀ x, x ∈ entries (l1 ++ l :: l2) → _bt_item_get_key x ≠ _bt_item_get_key item) →
  bt_page p (insert_entry kind item (l_items l)) o → is_leaf o → btpo_next o = first l_block l2 0 →
  grown item (l1 ++ l :: l2) s.
Proof.
  intros Hs Ht Hm Hw Hr Hne Hp Hl Hn. pose proof (t_order kind _ _ _ Ht) as Ho.
  exists (<[Z.to_nat (l_block l) := p]> pages), r, (l1 ++ mkLeaf (l_block l) (l_sep l) (insert_entry kind item (l_items l)) :: l2).
  split; [done|]. split.
  - apply (tree_replace kind _ _ _ _ _ _ p o); try done; [by apply insert_leaf_ok with l1|]. unfold insert_entry. rewrite length_insert_at. lia.
  - by rewrite (insert_entries kind l1 l2 l item Ho Hr), entries_app, entries_cons.
Qed.

Lemma btinsert_run s pages r leaves key tid :
  let item := _bt_build_item kind key tid in
  st s pages [] → tree kind pages r leaves → (length (entries leaves) < capacity kind)%nat →
  wf_key kind key → wf_tid tid → (∀ x, x ∈ entries leaves → _bt_item_get_key x ≠ key) →
  ∃ s', btinsert index kind key tid s = (Ret true, s') ∧ grown item leaves s'.
Proof using All.
  intros item Hs Ht Hcap Hk Htid Hne. pose proof (few_leaves _ _ _ Ht Hcap) as Hm. destruct (tree_blocks kind _ _ _ Ht Hm) as (Hbig & Hbl & Hr0).
  assert (Hw : wf_item kind item) by (by exists key, tid). assert (Hkey : _bt_item_get_key item = key) by (by apply (item_key kind)).
  rewrite <- Hkey in Hne. pose proof (t_order kind _ _ _ Ht) as Hord.
  unfold btinsert. rewrite (bind_ret_run _ _ _ _ _ (Hopen s)). bstep (root_st s pages [] r Hs (t_meta kind _ _ _ Ht)) s1 Hs1.
  assert (Hrp : is_Some (pages !! Z.to_nat r)) by (apply lookup_lt_is_Some; lia). destruct Hrp as [rp Hrp].
  bstep (read_block node s0 s1 pages [] r rp Hs1) s2 Hs2; [lia|]. erewrite bind_ret_run by done.
  rewrite (page_block node s0 s2 pages _ r rp Hs2) by (done || lia). fold item. rewrite <- Hkey.
  destruct (t_root kind _ _ _ Ht) as [(l & -> & -> & H2)|(_ & Hnr & Hfill & rp' & ro & Hrp' & Hrb & Hnl)].
  - assert (Hr : in_range kind (l_sep l) (first l_sep [] None) (_bt_item_get_key item)).
    { destruct (t_first kind _ _ _ Ht) as (x & rest & [= <- <-] & ->). done. }
    destruct (leaf_insert pages l 0 item (tree_leaf kind _ _ [] l [] Ht) Hw) as (p & o & Hp & Hpb & Hl & Hn & Hins).
    assert (rp = p) as -> by congruence. rewrite (proj2 (leaf_flag _ _ _ Hpb) Hl). destruct (_ <? _) eqn:Efull; to_prop.
    + rewrite Hins. cbn [Z.eqb negb]. by apply (split_root_run s2 pages l).
    + destruct Hins as (p' & -> & Hpos & Hb'). rewrite (proj2 (Z.eqb_neq _ _) Hpos). cbn [negb].
      bstep (write_block node s0 s2 pages _ (l_block l) p p' Hs2) s3 Hs3; [lia|]. bstep (dirty_st node s0 s3 _ _ (node, l_block l) Hs3) s4 Hs4.
      bstep (release_st node s0 Hpins0 s4 _ _ (l_block l) [] Hs4) s5 Hs5. exists s5. split; [done|].
      by apply (grown_replace s5 pages (l_block l) [] l [] item p' o).
  - assert (rp' = rp) as -> by congruence. destruct (_bt_is_leaf_page rp) eqn:E; [by apply (leaf_flag _ _ _ Hrb) in E|].
    destruct (descend_run kind rp leaves ro Hrb) with (key := _bt_item_get_key item) (def := r) as (l1 & l & l2 & -> & Hr & ->);
      [apply Forall_forall; intros x Hx; specialize (Hbl x Hx); unfold is_u32; lia|apply Ht|apply Hord|].
    assert (Hlin : l ∈ l1 ++ l :: l2) by (apply elem_of_app; right; by left). pose proof (Hbl l Hlin) as Hb.
    destruct (leaf_insert pages l _ item (tree_leaf kind _ _ _ _ _ Ht) Hw) as (p & o & Hp & Hpb & Hl & Hn & Hins).
    bstep (read_block node s0 s2 pages _ (l_block l) p Hs2) s3 Hs3; [lia|]. erewrite bind_ret_run by done.
    rewrite (page_block node s0 s3 pages _ (l_block l) p Hs3) by (done || lia). destruct (_ <? _) eqn:Efull; to_prop.
    + rewrite Hins. cbn [Z.eqb negb]. by apply (split_leaf_run s3 pages r l1 l l2).
    + destruct Hins as (p' & -> & Hpos & Hb'). rewrite (proj2 (Z.eqb_neq _ _) Hpos). cbn [negb].
      bstep (write_block node s0 s3 pages _ (l_block l) p p' Hs3) s4 Hs4; [lia|]. bstep (dirty_st node s0 s4 _ _ (node, l_block l) Hs4) s5 Hs5.
      bstep (release_st node s0 Hpins0 s5 _ _ (l_block l) [r] Hs5) s6 Hs6. bstep (release_st node s0 Hpins0 s6 _ _ r [] Hs6) s7 Hs7.
      exists s7. split; [done|]. by apply (grown_replace s7 pages r l1 l l2 item p' o).
Qed.

(** ** Scanning *)

Section scan.
Context (sk : BTScanKeyData) (pages : list Page) (r : Z) (leaves : list leaf).
Context (Ht : tree kind pages r leaves) (Hm : (length leaves ≤ max_leaves kind)%nat).

Definition matches (item : list Z) : bool := _bt_entry_matches kind (_bt_item_get_key item) sk.

(** The scan over the entries that lie ahead. *)
Inductive walked := Found (item : list Z) (rest : list (list Z)) | Ended | More.
Fixpoint walk (l : list (list Z)) : walked :=
  match l with
  | [] => More
  | item :: rest =>
      if matches item then Found item rest else if scan_stops kind (_bt_item_get_key item) sk then Ended else walk rest
  end.

Lemma walk_app a b : walk (a ++ b) = match walk a with Found item rest => Found item (rest ++ b) | Ended => Ended | More => walk b end.
Proof. induction a as [|x a IH]; cbn; [done|]. destruct (matches x); [done|]. destruct (scan_stops _ _ _); done. Qed.

Lemma scan_slots_suffix p items o rest i :
  bt_page p items o → drop i items = rest → (i + length rest = length items)%nat →
  match walk rest with
  | Found item rest' => ∃ j, (j ≤ length items)%nat ∧ rest' = drop j items ∧
      scan_slots p kind sk (seqZ (1 + Z.of_nat i) (Z.of_nat (length rest))) = Match (item_tid item) (1 + Z.of_nat j)
  | Ended => ∃ next, scan_slots p kind sk (seqZ (1 + Z.of_nat i) (Z.of_nat (length rest))) = Stop next
  | More => scan_slots p kind sk (seqZ (1 + Z.of_nat i) (Z.of_nat (length rest))) = Exhausted
  end.
Proof.
  intros Hp. assert (Hbig : Z.of_nat (length items) < 2 ^ 15).
  { destruct (bt_slots _ _ _ Hp) as [Hn _]. destruct (bp_wf _ _ _ Hp) as [[Hl Hn0] Ho Hs _ _]. unfold kPageHeaderSize, kItemIdSize in *. lia. }
  revert i. induction rest as [|item rest IH]; intros i Hd Hlen.
  - cbn [walk length]. by rewrite seqZ_nil by lia.
  - assert (Hi : items !! i = Some item) by (rewrite <- (Nat.add_0_r i), <- lookup_drop, Hd; done).
    assert (Hd' : drop (S i) items = rest) by (replace (S i) with (i + 1)%nat by lia; rewrite <- drop_drop, Hd; done).
    destruct (bt_slot _ _ _ _ _ Hp Hi) as [Hnorm Hget]. cbn [length] in *. rewrite Nat2Z.inj_succ, seqZ_cons by lia. cbn [scan_slots walk].
    rewrite Hnorm, Hget. cbn [negb]. unfold matches at 1. replace (u16 (1 + Z.of_nat i + 1)) with (1 + Z.of_nat (S i)) by (unfold u16; rewrite Z.mod_small; lia).
    destruct (_bt_entry_matches _ _ _); [exists (S i); split_and!; [lia|done|done]|]. destruct (scan_stops _ _ _); [by eexists|].
    replace (Z.succ (1 + Z.of_nat i)) with (1 + Z.of_nat (S i)) by lia.
    replace (Z.pred (Z.succ (Z.of_nat (length rest)))) with (Z.of_nat (length rest)) by lia. apply IH; [done|lia].
Qed.

(** The scan stands in front of these entries, with its leaf pinned. *)
Definition ours (scan : BTScanDescData) : Prop :=
  Nbtree.index scan = index ∧ key_kind scan = kind ∧ scan_key scan = sk ∧ inited scan = true.
Definition positioned (scan : BTScanDescData) (rest : list (list Z)) (s : Bufs) : Prop :=
  ours scan ∧ ∃ l1 l l2 i, leaves = l1 ++ l :: l2 ∧ curr_buf scan = Some (node, l_block l) ∧ curr_offset scan = 1 + Z.of_nat i ∧
    (i ≤ length (l_items l))%nat ∧ rest = drop i (l_items l) ++ entries l2 ∧ st s pages [l_block l].

(** What a call returns in front of these entries. *)
Definition advanced (rest : list (list Z)) (result : outcome (bool * BTScanDescData) * Bufs) : Prop :=
  match walk rest with
  | Found item rest' => ∃ scan s, result = (Ret (true, scan), s) ∧ curr_tid scan = item_tid item ∧ positioned scan rest' s
  | _ => ∃ scan s, result = (Ret (false, scan), s) ∧ ours scan ∧ curr_buf scan = None ∧ st s pages []
  end.

(** The loop on the entries of one leaf: a match, the end of the scan, or on to the next leaf. *)
Lemma scan_leaf_step fuel l1 l l2 i scan s :
  leaves = l1 ++ l :: l2 → ours scan → curr_buf scan = Some (node, l_block l) → curr_offset scan = 1 + Z.of_nat i →
  (i ≤ length (l_items l))%nat → st s pages [l_block l] →
  match walk (drop i (l_items l)) with
  | Found item rest => ∃ scan', scan_leaves (S fuel) node scan s = (Ret (true, scan'), s) ∧ curr_tid scan' = item_tid item ∧
      positioned scan' (rest ++ entries l2) s
  | Ended => ∃ scan' s', scan_leaves (S fuel) node scan s = (Ret (false, scan'), s') ∧ ours scan' ∧ curr_buf scan' = None ∧ st s' pages []
  | More => ∃ s1 scan1, st s1 pages [] ∧ ours scan1 ∧ curr_buf scan1 = None ∧
      scan_leaves (S fuel) node scan s =
        (if first l_block l2 0 =? 0 then mret (false, scan1)
         else buf ← ReadBuffer node (first l_block l2 0);
              scan_leaves fuel node (with_pos (first l_block l2 0) (Some buf) 1 scan)) s1
  end.
Proof using All.
  intros Hl Hours Hbuf Hoff Hi Hs. destruct (tree_blocks kind _ _ _ Ht Hm) as (Hbig & Hbl & Hr0).
  assert (Hlin : l ∈ leaves) by (rewrite Hl; apply elem_of_app; right; by left). pose proof (Hbl l Hlin) as Hb.
  pose proof Ht as Ht'. rewrite Hl in Ht'. destruct (tree_leaf kind _ _ _ _ _ Ht') as [_ (p & o & Hp & Hpb & _ & Hnext)].
  destruct (bt_slots _ _ _ Hpb) as [_ Hmax]. pose proof Hours as (Hi1 & Hi2 & Hi3 & Hi4). cbn [scan_leaves]. rewrite Hbuf.
  erewrite (bind_ret_run (gets _)) by done. rewrite (page_block node s0 s pages _ _ p Hs) by (done || lia).
  rewrite Hmax, Hoff, (bp_opaque _ _ _ Hpb), Hnext, Hi2, Hi3.
  assert (Hdl : (i + length (drop i (l_items l)) = length (l_items l))%nat) by (rewrite length_drop; lia).
  replace (Z.of_nat (length (l_items l)) - (1 + Z.of_nat i) + 1) with (Z.of_nat (length (drop i (l_items l)))) by lia.
  pose proof (scan_slots_suffix p _ o _ i Hpb eq_refl Hdl) as Hslots. destruct (walk (drop i (l_items l))) as [item rest| |].
  - destruct Hslots as (j & Hj & -> & ->). eexists. split; [reflexivity|]. split; [done|]. split; [done|].
    eexists l1, l, l2, j. by split_and!.
  - destruct Hslots as [next ->]. bstep (release_st node s0 Hpins0 s pages _ (l_block l) [] Hs) s1 Hs1. do 2 eexists. by split_and!.
  - rewrite Hslots. destruct (release_st node s0 Hpins0 s pages _ (l_block l) [] Hs) as (s1 & Hrun & Hs1); [done|].
    rewrite (bind_ret_run _ _ _ _ _ Hrun). eexists s1, _. split; [done|]. split; [|split; [|destruct (_ =? 0); reflexivity]]; done.
Qed.

Lemma scan_leaves_run l2 : ∀ fuel l1 l i scan s,
  leaves = l1 ++ l :: l2 → (length l2 < fuel)%nat → ours scan →
  curr_buf scan = Some (node, l_block l) → curr_offset scan = 1 + Z.of_nat i → (i ≤ length (l_items l))%nat →
  st s pages [l_block l] → advanced (drop i (l_items l) ++ entries l2) (scan_leaves fuel node scan s).
Proof using All.
  induction l2 as [|x l2 IH]; intros [|fuel] l1 l i scan s Hl Hf Hours Hbuf Hoff Hi Hs; try lia;
    pose proof (scan_leaf_step fuel l1 l _ i scan s Hl Hours Hbuf Hoff Hi Hs) as H; unfold advanced; rewrite walk_app;
    (destruct (walk (drop i (l_items l))) as [item rest| |]; [destruct H as (scan' & -> & H); by exists scan', s|done|]);
    destruct H as (s1 & scan1 & Hs1 & Ho1 & Hb1 & ->); cbn [first].
  - do 2 eexists. by split_and!.
  - destruct (tree_blocks kind _ _ _ Ht Hm) as (Hbig & Hbl & Hr0).
    assert (Hx : x ∈ leaves) by (rewrite Hl; apply elem_of_app; right; right; by left). pose proof (Hbl x Hx) as Hbx.
    rewrite (proj2 (Z.eqb_neq _ _)) by lia. destruct (lookup_lt_is_Some_2 pages (Z.to_nat (l_block x))) as [q Hq]; [lia|].
    bstep (read_block node s0 s1 pages _ (l_block x) q Hs1) s2 Hs2; [lia|]. rewrite entries_cons.
    apply (IH fuel (l1 ++ [l]) x 0%nat); [by rewrite Hl, <- app_assoc|cbn in Hf; lia|done|done|done|lia|done].
Qed.

(** ** What the scan skips *)

Lemma list_filter_none {A} (f : A → bool) (l : list A) : (∀ x, x ∈ l → f x ≠ true) → base.filter (λ x, f x = true) l = [].
Proof.
  induction l as [|x l IH]; intros H; [done|]. rewrite filter_cons_False by (apply H; by left). apply IH. intros y Hy. apply H. by right.
Qed.

Lemma walk_filter l :
  sorted_items kind l →
  match walk l with
  | Found item rest => sorted_items kind rest ∧ (length rest < length l)%nat ∧
      base.filter (λ x, matches x = true) l = item :: base.filter (λ x, matches x = true) rest
  | _ => base.filter (λ x, matches x = true) l = []
  end.
Proof.
  induction l as [|x l IH]; intros Hs; [done|]. apply StronglySorted_inv in Hs as [Hs Hx]. cbn [walk].
  destruct (matches x) eqn:E; [split_and!; [done|cbn; lia|by rewrite filter_cons_True]|].
  rewrite filter_cons_False by (by rewrite E). destruct (scan_stops kind (_bt_item_get_key x) sk) eqn:Est.
  - apply list_filter_none. intros y Hy. rewrite Forall_forall in Hx. specialize (Hx y Hy). unfold item_lt in Hx.
    unfold matches, _bt_entry_matches, scan_stops in *. destruct (sk_key sk) as [key|]; [|done].
    pose proof (compare_lt_le kind key (_bt_item_get_key x) (_bt_item_get_key y)) as H1.
    pose proof (compare_le_lt kind key (_bt_item_get_key x) (_bt_item_get_key y)) as H2.
    rewrite (compare_opp kind key (_bt_item_get_key y)). rewrite (compare_opp kind key (_bt_item_get_key x)) in Est.
    destruct (strategy sk); try done; to_prop; apply not_true_iff_false; [apply Z.eqb_neq|apply Z.ltb_ge|apply Z.leb_gt]; lia.
  - specialize (IH Hs). destruct (walk l) as [item rest| |]; [|done|done]. destruct IH as (H1 & H2 & H3). split_and!; [done|cbn; lia|done].
Qed.

(** ** Where a scan starts *)

Lemma u32_blocks : Forall (λ l, is_u32 (l_block l)) leaves.
Proof using Ht Hm.
  destruct (tree_blocks kind _ _ _ Ht Hm) as (Hbig & Hbl & _). apply Forall_forall. intros x Hx. specialize (Hbl x Hx). unfold is_u32. lia.
Qed.

Lemma search_leaf_run key s :
  st s pages [] →
  ∃ l1 l l2 s', leaves = l1 ++ l :: l2 ∧ in_range kind (l_sep l) (first l_sep l2 None) key ∧
    _bt_search_leaf index kind key s =
      (Ret ((node, l_block l), 1 + Z.of_nat (passed (below kind key) (l_items l))), s') ∧ st s' pages [l_block l].
Proof using All.
  intros Hs. destruct (tree_blocks kind _ _ _ Ht Hm) as (Hbig & Hbl & Hr0). unfold _bt_search_leaf.
  rewrite (bind_ret_run _ _ _ _ _ (Hopen s)). destruct (root_st s pages [] r Hs (t_meta kind _ _ _ Ht)) as (s1 & Hrun1 & Hs1).
  destruct (lookup_lt_is_Some_2 pages (Z.to_nat r)) as [rp Hrp]; [lia|].
  destruct (read_block node s0 s1 pages [] r rp Hs1) as (s2 & Hrun2 & Hs2); [lia|done|].
  rewrite (bind_ret_run _ _ _ _ _ Hrun1), (bind_ret_run _ _ _ _ _ Hrun2). erewrite bind_ret_run by done.
  rewrite (page_block node s0 s2 pages _ r rp Hs2) by (done || lia).
  destruct (t_root kind _ _ _ Ht) as [(l & El & Er & _)|(_ & Hnr & _ & rp' & ro & Hrp' & Hrb & Hnl)].
  - pose proof Ht as Ht'. rewrite El in Ht'. destruct (tree_leaf kind _ _ [] l [] Ht') as [_ (p & o & Hp & Hpb & Hl & _)].
    assert (rp = p) as -> by (rewrite Er in Hrp; congruence). rewrite (proj2 (leaf_flag _ _ _ Hpb) Hl), (find_pos_run p _ o) by done.
    exists [], l, [], s2. rewrite <- Er. split_and!; [done| |done|done].
    destruct (t_first kind _ _ _ Ht') as (x & rest & [= <- <-] & ->). done.
  - assert (rp' = rp) as -> by congruence. destruct (_bt_is_leaf_page rp) eqn:E; [by apply (leaf_flag _ _ _ Hrb) in E|].
    destruct (descend_run kind rp leaves ro Hrb u32_blocks key r (t_first kind _ _ _ Ht) (proj2 (t_order kind _ _ _ Ht)))
      as (l1 & l & l2 & Hl & Hr & ->).
    bstep (release_st node s0 Hpins0 s2 pages _ r [] Hs2) s3 Hs3. pose proof Ht as Ht'. rewrite Hl in Ht'.
    destruct (tree_leaf kind _ _ _ _ _ Ht') as [Hb (p & o & Hp & Hpb & _ & _)].
    bstep (read_block node s0 s3 pages [] (l_block l) p Hs3) s4 Hs4; [lia|]. erewrite bind_ret_run by done.
    rewrite (page_block node s0 s4 pages _ _ p Hs4) by (done || lia). rewrite (find_pos_run p _ o) by done. by exists l1, l, l2, s4.
Qed.

Lemma first_leaf_run scan s :
  st s pages [] →
  ∃ l rest s' block, leaves = l :: rest ∧ st s' pages [l_block l] ∧
    (root_block ← read_root node;
     buf ← ReadBuffer node root_block;
     page ← gets (λ s, page_of s buf);
     if negb (_bt_is_leaf_page page) && (1 <=? PageGetMaxOffsetNumber page) then
       ReleaseBuffer buf;;
       buf' ← ReadBuffer node (of_le (take 4 (PageGetItem page (PageGetItemId page 1))));
       mret (with_pos (of_le (take 4 (PageGetItem page (PageGetItemId page 1)))) (Some buf') 1 scan)
     else mret (with_pos root_block (Some buf) 1 scan)) s = (Ret (with_pos block (Some (node, l_block l)) 1 scan), s').
Proof using All.
  intros Hs. destruct (tree_blocks kind _ _ _ Ht Hm) as (Hbig & Hbl & Hr0).
  bstep (root_st s pages [] r Hs (t_meta kind _ _ _ Ht)) s1 Hs1. destruct (lookup_lt_is_Some_2 pages (Z.to_nat r)) as [rp Hrp]; [lia|].
  bstep (read_block node s0 s1 pages [] r rp Hs1) s2 Hs2; [lia|]. erewrite (bind_ret_run (gets _)) by done.
  rewrite (page_block node s0 s2 pages _ r rp Hs2) by (done || lia). destruct (t_first kind _ _ _ Ht) as (l & rest & El & Hnone).
  assert (Hlin : l ∈ leaves) by (rewrite El; by left). pose proof (Hbl l Hlin) as Hb. exists l, rest.
  destruct (t_root kind _ _ _ Ht) as [(x & Ex & Er & _)|(_ & Hnr & _ & rp' & ro & Hrp' & Hrb & Hnl)].
  - assert (x = l ∧ rest = []) as [-> ->] by (rewrite El in Ex; by injection Ex). pose proof Ht as Ht'. rewrite El in Ht'.
    destruct (tree_leaf kind _ _ [] l [] Ht') as [_ (p & o & Hp & Hpb & Hl & _)]. assert (rp = p) as -> by (rewrite Er in Hrp; congruence).
    rewrite (proj2 (leaf_flag _ _ _ Hpb) Hl). cbn [negb andb]. exists s2, r. rewrite <- Er. done.
  - assert (rp' = rp) as -> by congruence. destruct (_bt_is_leaf_page rp) eqn:E; [by apply (leaf_flag _ _ _ Hrb) in E|].
    destruct (bt_slots _ _ _ Hrb) as [_ ->]. destruct (root_slot rp leaves ro Hrb 0 l) as [_ Hget]; [by rewrite El|].
    change (1 + Z.of_nat 0) with 1 in Hget. rewrite Hget, sep_entry_child by (unfold is_u32; lia).
    rewrite (proj2 (Z.leb_le _ _)) by (unfold root_items; rewrite length_fmap, El; cbn [length]; lia). cbn [negb andb].
    bstep (release_st node s0 Hpins0 s2 pages _ r [] Hs2) s3 Hs3. destruct (lookup_lt_is_Some_2 pages (Z.to_nat (l_block l))) as [q Hq]; [lia|].
    bstep (read_block node s0 s3 pages [] (l_block l) q Hs3) s4 Hs4; [lia|]. by exists s4, (l_block l).
Qed.

(** Entries below the key do not match a scan that starts at the key. *)
Lemma below_unmatched key item :
  sk_key sk = Some key → strategy sk = kEqual ∨ strategy sk = kGreater ∨ strategy sk = kGreaterEqual →
  _bt_compare_keys kind (_bt_item_get_key item) key < 0 → matches item ≠ true.
Proof.
  intros Hk Hst Hc. unfold matches, _bt_entry_matches. rewrite Hk. apply not_true_iff_false.
  destruct Hst as [-> | [-> | ->]]; [apply Z.eqb_neq|apply Z.ltb_ge|apply Z.leb_gt]; lia.
Qed.

Lemma skipped_below key l1 l l2 :
  leaves = l1 ++ l :: l2 → in_range kind (l_sep l) (first l_sep l2 None) key →
  ∀ x, x ∈ entries l1 ++ take (passed (below kind key) (l_items l)) (l_items l) → _bt_compare_keys kind (_bt_item_get_key x) key < 0.
Proof using Ht Hm.
  intros Hl [Hlo _] x. pose proof (t_order kind _ _ _ Ht) as Ho. rewrite Hl in Ho. destruct (ordered_app _ _ _ _ Ho) as [Ho1 _].
  rewrite elem_of_app. intros [Hx|Hx]; [|by apply below_spec, (passed_take _ (l_items l))].
  destruct (entries_range _ _ _ _ Ho1 Hx) as [_ [_ Hhi]]. cbn [first] in Hhi. destruct l1 as [|y l1]; [by apply elem_of_nil in Hx|].
  destruct Ho as [_ Hall]. cbn in Hall. apply Forall_app in Hall as [_ Hall]. inversion Hall as [|?? [s Hs] _]; subst.
  apply (compare_lt_le kind _ s); [by apply Hhi|by apply Hlo].
Qed.

Lemma position_run scan s :
  Nbtree.index scan = index → key_kind scan = kind → scan_key scan = sk → st s pages [] →
  ∃ scan' rest s', position_scan node scan s = (Ret scan', s') ∧ positioned scan' rest s' ∧ sorted_items kind rest ∧
    (length rest ≤ length (entries leaves))%nat ∧
    base.filter (λ x, matches x = true) rest = base.filter (λ x, matches x = true) (entries leaves).
Proof using All.
  intros H1 H2 H3 Hs. pose proof (entries_sorted _ _ _ (t_order kind _ _ _ Ht)) as Hsort. unfold position_scan. cbn [scan_key with_inited].
  destruct (first_leaf_run (with_inited true scan) s Hs) as (l0 & rest0 & s1 & block & El & Hs1 & Hfirst).
  assert (Hbegin : ∃ scan' rest s', (Ret (with_pos block (Some (node, l_block l0)) 1 (with_inited true scan)), s1) = (Ret scan', s') ∧
    positioned scan' rest s' ∧ sorted_items kind rest ∧ (length rest ≤ length (entries leaves))%nat ∧
    base.filter (λ x, matches x = true) rest = base.filter (λ x, matches x = true) (entries leaves)).
  { eexists _, (entries leaves), s1. split; [reflexivity|]. split; [|done]. split; [done|]. exists [], l0, rest0, 0%nat. rewrite El at 2. split_and!; try done. lia. }
  rewrite H3. destruct (sk_key sk) as [key|] eqn:Ek; [|by rewrite Hfirst].
  destruct (decide (strategy sk = kEqual ∨ strategy sk = kGreater ∨ strategy sk = kGreaterEqual)) as [Hst|Hst].
  2: { destruct (strategy sk); try (exfalso; tauto); by rewrite Hfirst. }
  clear Hfirst Hbegin. destruct (search_leaf_run key s Hs) as (l1 & l & l2 & s2 & Hl & Hr & Hrun & Hs2).
  set (i := passed (below kind key) (l_items l)) in *.
  assert (Hgo : ∀ f : Buffer * Z → M Bufs BTScanDescData, (x ← _bt_search_leaf index kind key; f x) s = f ((node, l_block l), 1 + Z.of_nat i) s2)
    by (intros f; by rewrite (bind_ret_run _ _ _ _ _ Hrun)).
  eexists (with_pos (l_block l) (Some (node, l_block l)) (1 + Z.of_nat i) (with_inited true scan)), (drop i (l_items l) ++ entries l2), s2.
  assert (Hall : entries leaves = (entries l1 ++ take i (l_items l)) ++ drop i (l_items l) ++ entries l2).
  { rewrite Hl, entries_app, entries_cons, <- app_assoc. f_equal. by rewrite app_assoc, take_drop. }
  split; [destruct Hst as [-> | [-> | ->]]; cbn [Nbtree.index key_kind with_inited]; rewrite H1, H2, Hgo; done|]. split_and!.
  - split; [done|]. exists l1, l, l2, i. split_and!; try done. apply passed_le.
  - rewrite Hall in Hsort. by apply sorted_app in Hsort as (_ & ? & _).
  - rewrite Hall, (length_app (entries l1 ++ _)). lia.
  - rewrite Hall, (filter_app _ (entries l1 ++ take i (l_items l))). rewrite (list_filter_none matches (entries l1 ++ _)); [done|].
    intros x Hx. apply (below_unmatched key); [done|done|]. by apply (skipped_below key l1 l l2).
Qed.

Lemma gettuple_run scan rest s : positioned scan rest s → advanced rest (btgettuple scan s).
Proof using All.
  intros [Hours (l1 & l & l2 & i & Hl & Hbuf & Hoff & Hi & -> & Hs)]. pose proof Hours as (H1 & _ & _ & H4). unfold btgettuple. rewrite H1, H4.
  rewrite (bind_ret_run _ _ _ _ _ (Hopen s)). erewrite bind_ret_run by done. erewrite bind_ret_run by done. rewrite (st_fork _ _ _ _ _ Hs).
  apply (scan_leaves_run l2 _ l1); try done. pose proof (t_len kind _ _ _ Ht) as Hlen. rewrite Hl, length_app in Hlen. cbn in Hlen. lia.
Qed.

Lemma first_call scan s :
  Nbtree.index scan = index → key_kind scan = kind → scan_key scan = sk → inited scan = false → st s pages [] →
  ∃ rest, advanced rest (btgettuple scan s) ∧ sorted_items kind rest ∧ (length rest ≤ length (entries leaves))%nat ∧
    base.filter (λ x, matches x = true) rest = base.filter (λ x, matches x = true) (entries leaves).
Proof using All.
  intros H1 H2 H3 H4 Hs. destruct (position_run scan s H1 H2 H3 Hs) as (scan' & rest & s1 & Hrun & Hpos & Hrest).
  exists rest. split; [|done]. pose proof Hpos as [_ (l1 & l & l2 & i & Hl & Hbuf & Hoff & Hi & -> & Hs1)].
  unfold btgettuple. rewrite H1, H4, (bind_ret_run _ _ _ _ _ (Hopen s)), (bind_ret_run _ _ _ _ _ Hrun).
  erewrite bind_ret_run by done. rewrite (st_fork _ _ _ _ _ Hs1).
  apply (scan_leaves_run l2 _ l1); try done; [|by apply Hpos]. pose proof (t_len kind _ _ _ Ht) as Hlen. rewrite Hl, length_app in Hlen. cbn in Hlen. lia.
Qed.

(** The loop over all matches, behind a call that stood in front of [rest]. *)
Lemma bitmap_loop_run n : ∀ rest fuel scan s tids count,
  (length rest ≤ n)%nat → (n < fuel)%nat → sorted_items kind rest → advanced rest (btgettuple scan s) →
  ∃ scan' s', bitmap_loop fuel scan tids count s =
    (Ret (count + Z.of_nat (length (base.filter (λ x, matches x = true) rest)),
          tids ++ (item_tid <$> base.filter (λ x, matches x = true) rest), scan'), s') ∧ curr_buf scan' = None ∧ st s' pages [].
Proof using All.
  induction n as [|n IH]; intros rest fuel scan s tids count Hlen Hf Hsort Hadv; (destruct fuel as [|fuel]; [lia|]);
    pose proof (walk_filter rest Hsort) as Hw; unfold advanced in Hadv; cbn [bitmap_loop];
    (destruct (walk rest) as [item rest'| |];
     [|(destruct Hadv as (scan1 & s1 & Hrun & _ & Hb & Hs1); rewrite (bind_ret_run _ _ _ _ _ Hrun), Hw; cbn;
        rewrite app_nil_r, Z.add_0_r; by exists scan1, s1)..]).
  - destruct Hw as (_ & Hw & _). lia.
  - destruct Hw as (Hsort' & Hlt & ->). destruct Hadv as (scan1 & s1 & Hrun & Htid & Hpos). rewrite (bind_ret_run _ _ _ _ _ Hrun), Htid.
    destruct (IH rest' fuel scan1 s1 (tids ++ [item_tid item]) (count + 1)) as (scan2 & s2 & -> & Hb & Hs2); [lia|lia|done|by apply gettuple_run|].
    exists scan2, s2. split; [|done]. rewrite fmap_cons, <- app_assoc. cbn [length app]. do 4 f_equal. lia.
Qed.

(** Every leaf is a page of the index. *)
Lemma entries_bound : (length (entries leaves) ≤ length pages * 2048)%nat.
Proof using Ht Hm.
  pose proof (t_len kind _ _ _ Ht) as Hlen. pose proof (t_chain kind _ _ _ Ht) as Hc.
  assert (H : (length (entries leaves) ≤ length leaves * 2048)%nat); [|lia]. clear Hlen Ht Hm.
  revert Hc. generalize 0. induction leaves as [|l rest IH]; intros e Hc; [done|].
  destruct Hc as [[_ (p & o & _ & Hp & _)] Hc]. rewrite entries_cons, length_app. specialize (IH e Hc). cbn [length].
  destruct (bt_slots _ _ _ Hp) as [Hn _]. destruct (bp_wf _ _ _ Hp) as [[Hl Hn0] Ho Hs _ _]. pose proof (bp_special _ _ _ Hp).
  unfold kPageHeaderSize, kItemIdSize, kBlckSz, kBTPageOpaqueSize in *. lia.
Qed.

Lemma bitmap_run scan s :
  Nbtree.index scan = index → key_kind scan = kind → scan_key scan = sk → inited scan = false → st s pages [] →
  ∃ scan' s', btgetbitmap scan [] s =
    (Ret (Z.of_nat (length (base.filter (λ x, matches x = true) (entries leaves))),
          item_tid <$> base.filter (λ x, matches x = true) (entries leaves), scan'), s') ∧ curr_buf scan' = None ∧ st s' pages [].
Proof using All.
  intros H1 H2 H3 H4 Hs. destruct (first_call scan s H1 H2 H3 H4 Hs) as (rest & Hadv & Hsort & Hlen & <-). pose proof entries_bound.
  unfold btgetbitmap. rewrite H1, (bind_ret_run _ _ _ _ _ (Hopen s)). erewrite bind_ret_run by done. rewrite (st_fork _ _ _ _ _ Hs).
  apply (bitmap_loop_run (length pages * 2048) rest _ scan s [] 0); [lia|lia|done|done].
Qed.

End scan.
(** ** Building and filling *)

Lemma built_tree : tree kind [_bt_init_meta_page 1; _bt_init_page (Z.lor kBtpLeaf kBtpRoot) 0] 1 [mkLeaf 1 None []].
Proof.
  assert (Hu : is_u32 (Z.lor kBtpLeaf kBtpRoot) ∧ is_u32 0) by (vm_compute; done). split.
  - eexists. split; [reflexivity|]. by vm_compute.
  - split; [|done]. split; [done|]. eexists _, _. split; [reflexivity|]. split; [by apply init_page_run|]. done.
  - split; [|constructor]. split; [|done]. split; [constructor|constructor|done].
  - by exists (mkLeaf 1 None []), [].
  - cbn. apply NoDup_singleton.
  - cbn. lia.
  - left. by exists (mkLeaf 1 None []).
Qed.

Lemma build_run : fork_of s0 node = [] → ∃ s pages, btbuild index s0 = (Ret tt, s) ∧ st s pages [] ∧ tree kind pages 1 [mkLeaf 1 None []].
Proof using Hopen.
  intros H0. assert (Hs0 : st s0 [] []) by (split; [done|done|intros b; rewrite held_nil; lia]).
  unfold btbuild. rewrite (bind_ret_run _ _ _ _ _ (Hopen s0)). bstep (extend_st node s0 s0 [] [] (_bt_init_meta_page 1) Hs0) s1 Hs1.
  destruct (extend_st node s0 s1 _ [] (_bt_init_page (Z.lor kBtpLeaf kBtpRoot) 0) Hs1) as (s2 & Hrun & Hs2).
  exists s2, ([_bt_init_meta_page 1] ++ [_bt_init_page (Z.lor kBtpLeaf kBtpRoot) 0]). split_and!; [done|done|]. apply built_tree.
Qed.

(** Insertions in turn, as long as they succeed. *)
Fixpoint run_inserts (kvs : list (list Z * ItemPointerData)) : M Bufs bool :=
  match kvs with
  | [] => mret true
  | (key, tid) :: rest => ok ← btinsert index kind key tid; if (ok : bool) then run_inserts rest else mret false
  end.

Lemma insert_at_perm {A} n (x : A) l : insert_at n x l ≡ₚ x :: l.
Proof. unfold insert_at. by rewrite <- Permutation_middle, take_drop. Qed.

(** The entry as the caller knows it. *)
Definition entry (item : list Z) : list Z * ItemPointerData := (_bt_item_get_key item, item_tid item).

Lemma entry_build key tid : wf_key kind key → wf_tid tid → entry (_bt_build_item kind key tid) = (key, tid).
Proof. intros Hk Ht. unfold entry. by rewrite (item_key kind), item_tid_build. Qed.

Lemma inserts_run kvs : ∀ s pages r leaves,
  st s pages [] → tree kind pages r leaves → (length (entries leaves) + length kvs ≤ capacity kind)%nat →
  Forall (λ kv, wf_key kind kv.1 ∧ wf_tid kv.2) kvs → NoDup (kvs.*1 ++ (_bt_item_get_key <$> entries leaves)) →
  ∃ s' pages' r' leaves', run_inserts kvs s = (Ret true, s') ∧ st s' pages' [] ∧ tree kind pages' r' leaves' ∧
    entry <$> entries leaves' ≡ₚ kvs ++ (entry <$> entries leaves).
Proof using All.
  induction kvs as [|[key tid] kvs IH]; intros s pages r leaves Hs Ht Hcap Hwf Hnd; [by exists s, pages, r, leaves|].
  apply Forall_cons in Hwf as [[Hk Htid] Hwf]. cbn in Hk, Htid, Hcap, Hnd. apply NoDup_cons in Hnd as [Hnew Hnd]. cbn [run_inserts].
  destruct (btinsert_run s pages r leaves key tid) as (s1 & Hrun & pages1 & r1 & leaves1 & Hs1 & Ht1 & He1);
    [done|done|lia|done|done| |].
  { intros x Hx <-. apply Hnew, elem_of_app. right. by apply list_elem_of_fmap_2. }
  rewrite (bind_ret_run _ _ _ _ _ Hrun).
  assert (Hp : entries leaves1 ≡ₚ _bt_build_item kind key tid :: entries leaves) by (rewrite He1; apply insert_at_perm).
  destruct (IH s1 pages1 r1 leaves1 Hs1 Ht1) as (s2 & pages2 & r2 & leaves2 & Hrun2 & Hs2 & Ht2 & Hp2).
  - rewrite Hp. cbn. lia.
  - done.
  - rewrite Hp, fmap_cons, (item_key kind) by done. rewrite <- Permutation_middle. by apply NoDup_cons.
  - exists s2, pages2, r2, leaves2. split_and!; [done..|]. rewrite Hp2, Hp, fmap_cons, entry_build by done. by rewrite <- Permutation_middle.
Qed.

End run.

(** ** The index *)

Definition key_lt (kind : BTKeyKind) (a b : list Z * ItemPointerData) : Prop := _bt_compare_keys kind a.1 b.1 < 0.

Lemma entries_keys_sorted kind l : sorted_items kind l → StronglySorted (key_lt kind) (entry <$> l).
Proof.
  induction 1 as [|x l _ IH Hx]; [constructor|]. cbn. constructor; [done|]. apply Forall_fmap. done.
Qed.

Lemma filter_entries kind sk (l : list (list Z)) :
  entry <$> base.filter (λ x, matches kind sk x = true) l = base.filter (λ kv, _bt_entry_matches kind kv.1 sk = true) (entry <$> l).
Proof.
  induction l as [|x l IH]; [done|]. rewrite fmap_cons, !filter_cons. cbn [entry fst]. change (matches kind sk x) with (_bt_entry_matches kind (_bt_item_get_key x) sk). case_decide; [|exact IH].
  by rewrite fmap_cons, IH.
Qed.

(** C2: a B-tree built by [btbuild] and filled by any sequence of fewer than
    [capacity] insertions with distinct keys, through every split, answers
    every scan with the matching entries and nothing else, each once and in
    key order; the scan leaves no page pinned and no page of any relation
    changed, and building and filling touch no other relation. *)
Theorem index_answers_scans index node kind s0 kvs :
  opened index node → pins_ok s0 → fork_of s0 node = [] →
  Forall (λ kv, wf_key kind kv.1 ∧ wf_tid kv.2) kvs → NoDup kvs.*1 → (length kvs < capacity kind)%nat →
  ∃ s1 sorted,
    (btbuild index;; run_inserts kind index kvs) s0 = (Ret true, s1) ∧
    (∀ n, n ≠ node → fork_of s1 n = fork_of s0 n) ∧ (∀ b, pin_count s1 b = pin_count s0 b) ∧
    sorted ≡ₚ kvs ∧ StronglySorted (key_lt kind) sorted ∧
    ∀ sk, ∃ scan s2,
      let found := base.filter (λ kv, _bt_entry_matches kind kv.1 (scan_key (btbeginscan index kind sk)) = true) sorted in
      btgetbitmap (btbeginscan index kind sk) [] s1 = (Ret (Z.of_nat (length found), found.*2, scan), s2) ∧
      btendscan scan s2 = (Ret tt, s2) ∧ (∀ n, fork_of s2 n = fork_of s1 n) ∧ (∀ b, pin_count s2 b = pin_count s1 b).
Proof.
  intros Hopen Hpins H0 Hwf Hnd Hcap. destruct (build_run kind index node s0 Hopen H0) as (sb & pb & Hb & Hsb & Htb).
  destruct (inserts_run kind index node s0 Hpins Hopen kvs sb pb 1 _ Hsb Htb) as (s1 & pages & r & leaves & Hrun & Hs1 & Ht & Hp);
    [cbn; lia|done|cbn; by rewrite app_nil_r|]. cbn in Hp. rewrite app_nil_r in Hp.
  assert (Hlen : length (entries leaves) = length kvs) by (by rewrite <- Hp, length_fmap).
  assert (Hm : (length leaves ≤ max_leaves kind)%nat) by (apply (few_leaves kind pages r leaves Ht); lia).
  destruct Hs1 as [Hf Ho Hpin]. exists s1, (entry <$> entries leaves).
  split_and!; [by rewrite (bind_ret_run _ _ _ _ _ Hb)|done|intros b; rewrite Hpin, held_nil; lia|done|by eapply entries_keys_sorted, entries_sorted, Ht|].
  intros sk. destruct (bitmap_run kind index node s0 Hpins Hopen (default (mkScanKey kind None kAll) sk) pages r leaves Ht Hm
    (btbeginscan index kind sk) s1) as (scan & s2 & Hscan & Hnone & [Hf2 Ho2 Hpin2]); [done..|].
  exists scan, s2. cbn [scan_key btbeginscan]. rewrite <- filter_entries, length_fmap, <- list_fmap_compose. split_and!.
  - exact Hscan.
  - unfold btendscan. by rewrite Hnone.
  - intros n. destruct (decide (n = node)) as [-> |Hn]; [by rewrite Hf, Hf2|by rewrite Ho, Ho2].
  - intros b. rewrite Hpin, Hpin2. done.
Qed.

(** One hundred text keys of 241 bytes, in descending order: several leaves. *)
Definition demo_keys : list (list Z * ItemPointerData) :=
  (λ i, (replicate 240 97 ++ [99 - i], mkTid i 1)) <$> seqZ 0 100.

Lemma demo_keys_wf : Forall (λ kv, wf_key kText kv.1 ∧ wf_tid kv.2) demo_keys.
Proof.
  apply Forall_forall. intros kv (i & -> & Hi%elem_of_seqZ)%list_elem_of_fmap. cbn [fst snd]. split; [split|].
  - apply Forall_app. split; [by apply Forall_replicate|]. repeat constructor; lia.
  - rewrite length_app, length_replicate. cbn. lia.
  - split; cbn; unfold is_u32, is_u16; lia.
Qed.

Lemma demo_keys_distinct : NoDup demo_keys.*1.
Proof.
  unfold demo_keys. rewrite <- list_fmap_compose. apply NoDup_fmap_2; [|apply NoDup_seqZ].
  intros i j E. cbn [compose fst] in E. apply app_inv_head in E. injection E. lia.
Qed.

Lemma index_answers_scans_witness :
  ∃ s1 sorted,
    (btbuild HeapSpec.demo_relation;; run_inserts kText HeapSpec.demo_relation demo_keys) (mkBufs ∅ ∅ ∅) = (Ret true, s1) ∧
    sorted ≡ₚ demo_keys ∧ StronglySorted (key_lt kText) sorted.
Proof.
  destruct (index_answers_scans HeapSpec.demo_relation 16385 kText (mkBufs ∅ ∅ ∅) demo_keys)
    as (s1 & sorted & Hrun & _ & _ & Hp & Hs & _); [exact HeapSpec.demo_opened|by intros b|done|exact demo_keys_wf|exact demo_keys_distinct|apply Nat.ltb_lt; by vm_compute|].
  exact (ex_intro _ s1 (ex_intro _ sorted (conj Hrun (conj Hp Hs)))).
Defined.

(** ** Keys that occur more than once

    A split may leave equal keys on both sides of a separator.  The search for
    a key goes to the right of a separator equal to it, and the scan only goes
    on to the right. *)

Definition equal_keys : list (list Z * ItemPointerData) := (λ i, (replicate 250 97, mkTid 0 i)) <$> seqZ 1 32.

(** The line pointers an equality scan finds. *)
Definition equal_found : option (list Z) :=
  match (btbuild HeapSpec.demo_relation;; run_inserts kText HeapSpec.demo_relation equal_keys) (mkBufs ∅ ∅ ∅) with
  | (Ret true, s) =>
      match btgetbitmap (btbeginscan HeapSpec.demo_relation kText (Some (mkScanKey kText (Some (replicate 250 97)) kEqual))) [] s with
      | (Ret (_, tids, _), _) => Some (ip_posid <$> tids)
      | _ => None
      end
  | _ => None
  end.

(** Of thirty-two rows with the same key an equality scan returns sixteen:
    those the split left in the first leaf are not found. *)
Theorem equal_keys_missed : equal_found = Some (rev (seqZ 1 16)).
Proof. by vm_compute. Qed.

End NbtSpec.
