(* ===== verification/Numeric.v ===== *)
(** * Arbitrary-precision decimals

    src/types/numeric.cpp and include/types/numeric.hpp.  A numeric is a list of
    base-10000 digits, most significant first, with the position of the first
    one, a sign and a display scale.

    A [Datum] of this type is a pointer to a [NumericData]; the model passes the
    structure.  [weight], [dscale] and lengths are [int]s that stay far from
    their limits for numbers that fit in memory, and are integers here.  The
    accumulators of [MulVar] and the result of [numeric_to_int64] do reach
    their limits, so they wrap at their width; digits are stored as [int16_t].
    Divisions of [int]s truncate ([Z.quot], [Z.rem]).  Raising an error is the
    outcome [Ereport]. *)

From Stdlib Require Import Floats.SpecFloat Ascii.
From stdpp Require Import base list numbers strings.
From S2P Require Import Prelude CString.

Module Numeric.
Import CString.

Definition i16 (z : Z) : Z := (z + 2 ^ 15) `mod` 2 ^ 16 - 2 ^ 15.

Definition kNumericBase : Z := 10000.
Abbreviation kNBase := kNumericBase.
Definition kNumericPos : Z := 0.
Definition kNumericNeg : Z := 1.

Record NumericData := mkData { ndigits : Z; n_weight : Z; n_sign : Z; n_dscale : Z; n_digits : list Z }.

(** The working representation. *)
Record NumericVar := mkVar { digits : list Z; weight : Z; sign : Z; dscale : Z }.

Definition NDigits (v : NumericVar) : Z := Z.of_nat (length (digits v)).
Definition Clear : NumericVar := mkVar [] 0 kNumericPos 0.
Definition IsZero (v : NumericVar) : bool := forallb (λ d, d =? 0) (digits v).

Definition DigitAt (v : NumericVar) (pos : Z) : Z :=
  let idx := weight v - pos in
  if (idx <? 0) || (NDigits v <=? idx) then 0 else nth (Z.to_nat idx) (digits v) 0.

Definition with_sign (s : Z) (v : NumericVar) : NumericVar := mkVar (digits v) (weight v) s (dscale v).
Definition with_dscale (n : Z) (v : NumericVar) : NumericVar := mkVar (digits v) (weight v) (sign v) n.

Fixpoint strip_front (ds : list Z) (w : Z) : list Z * Z :=
  match ds with d :: rest => if d =? 0 then strip_front rest (w - 1) else (ds, w) | [] => ([], w) end.
Fixpoint drop_zeros (ds : list Z) : list Z :=
  match ds with d :: rest => if d =? 0 then drop_zeros rest else ds | [] => [] end.

Definition StripZeros (v : NumericVar) : NumericVar :=
  let '(ds, w) := strip_front (digits v) (weight v) in
  match rev (drop_zeros (rev ds)) with
  | [] => mkVar [] 0 kNumericPos (dscale v)
  | ds => mkVar ds w (sign v) (dscale v)
  end.

Definition EnsureFracCoverage (v : NumericVar) : NumericVar :=
  if dscale v <=? 0 then v
  else
    let min_pos := - ((dscale v + 3) ÷ 4) in
    let last_pos := weight v - NDigits v + 1 in
    if min_pos <? last_pos
    then mkVar (digits v ++ replicate (Z.to_nat (last_pos - min_pos)) 0) (weight v) (sign v) (dscale v)
    else v.

Definition FromData (n : NumericData) : NumericVar :=
  mkVar (take (Z.to_nat (ndigits n)) (n_digits n)) (n_weight n) (n_sign n) (n_dscale n).
Definition ToData (v : NumericVar) : NumericData := mkData (NDigits v) (weight v) (sign v) (dscale v) (digits v).

(** ** Comparison *)

(** The positions two numbers cover, as the loops below compute them. *)
Definition max_pos (a b : NumericVar) : Z := if weight b <? weight a then weight a else weight b.
Definition lowest (v : NumericVar) : Z := weight v - NDigits v + 1.
Definition min_pos (a b : NumericVar) : Z := if lowest a <? lowest b then lowest a else lowest b.
Definition span (a b : NumericVar) : nat := Z.to_nat (max_pos a b - min_pos a b + 1).

Fixpoint compare_loop (a b : NumericVar) (n : nat) (pos : Z) : Z :=
  match n with
  | O => 0
  | S n' =>
      if DigitAt a pos <? DigitAt b pos then -1
      else if DigitAt b pos <? DigitAt a pos then 1
      else compare_loop a b n' (pos - 1)
  end.
Definition CompareAbs (a b : NumericVar) : Z := compare_loop a b (span a b) (max_pos a b).

Definition CompareSigned (a b : NumericVar) : Z :=
  if IsZero a && IsZero b then 0
  else if IsZero a then (if sign b =? kNumericNeg then 1 else -1)
  else if IsZero b then (if sign a =? kNumericNeg then -1 else 1)
  else if negb (sign a =? sign b) then (if sign a =? kNumericNeg then -1 else 1)
  else
    let cmp := CompareAbs a b in
    if sign a =? kNumericNeg then - cmp else cmp.

(** ** Addition and subtraction *)

(** The digits from [pos] upward, and the carry out. *)
Fixpoint add_loop (a b : NumericVar) (n : nat) (pos carry : Z) : list Z * Z :=
  match n with
  | O => ([], carry)
  | S n' =>
      let sum := DigitAt a pos + DigitAt b pos + carry in
      let '(sum, carry) := if kNBase <=? sum then (sum - kNBase, 1) else (sum, 0) in
      let '(out, carry) := add_loop a b n' (pos + 1) carry in
      (i16 sum :: out, carry)
  end.

Definition AddAbs (a b result : NumericVar) : NumericVar :=
  let '(out, carry) := add_loop a b (span a b) (min_pos a b) 0 in
  let '(out, top) := if 0 <? carry then (out ++ [1], max_pos a b + 1) else (out, max_pos a b) in
  StripZeros (mkVar (rev out) top kNumericPos (dscale result)).

Fixpoint sub_loop (a b : NumericVar) (n : nat) (pos borrow : Z) : list Z :=
  match n with
  | O => []
  | S n' =>
      let diff := DigitAt a pos - DigitAt b pos - borrow in
      let '(diff, borrow) := if diff <? 0 then (diff + kNBase, 1) else (diff, 0) in
      i16 diff :: sub_loop a b n' (pos + 1) borrow
  end.

Definition SubAbs (a b result : NumericVar) : NumericVar :=
  StripZeros (mkVar (rev (sub_loop a b (span a b) (min_pos a b) 0)) (max_pos a b) kNumericPos (dscale result)).

Definition AddVar (a b result : NumericVar) : NumericVar :=
  if IsZero a then b
  else if IsZero b then a
  else
    let positive v := if IsZero v then with_sign kNumericPos v else v in
    if sign a =? sign b then positive (with_sign (sign a) (AddAbs a b result))
    else
      let cmp := CompareAbs a b in
      if cmp =? 0 then Clear
      else if 0 <? cmp then positive (with_sign (sign a) (SubAbs a b result))
      else positive (with_sign (sign b) (SubAbs b a result)).

Definition SubVar (a b result : NumericVar) : NumericVar :=
  let neg_b := if IsZero b then b else with_sign (if sign b =? kNumericPos then kNumericNeg else kNumericPos) b in
  AddVar a neg_b result.

(** ** Multiplication *)

(** [accum[k] += x], on [int]s. *)
Definition accumulate (k : nat) (x : Z) (accum : list Z) : list Z := alter (λ y, i32 (y + x)) k accum.

Fixpoint mul_row (av : Z) (bs : list Z) (k : nat) (accum : list Z) : list Z :=
  match bs with [] => accum | bv :: bs' => mul_row av bs' (S k) (accumulate k (i32 (av * bv)) accum) end.

Fixpoint mul_rows (xs bs : list Z) (k : nat) (accum : list Z) : list Z :=
  match xs with
  | [] => accum
  | av :: xs' => mul_rows xs' bs (S k) (if av =? 0 then accum else mul_row av bs k accum)
  end.

Fixpoint carry_loop (i : nat) (accum : list Z) : list Z :=
  match i with
  | O => accum
  | S i' =>
      let x := nth i accum 0 in
      carry_loop i' (if kNBase <=? x then <[i := x `rem` kNBase]> (accumulate i' (x ÷ kNBase) accum) else accum)
  end.

Definition MulVar (a b : NumericVar) : NumericVar :=
  if IsZero a || IsZero b then Clear
  else
    let res_lo := lowest a + lowest b in
    let res_hi := weight a + weight b + 1 in
    let n := Z.to_nat (res_hi - res_lo + 1) in
    let accum := mul_rows (digits a) (digits b) (Z.to_nat (res_hi - (weight a + weight b))) (replicate (S n) 0) in
    let accum := carry_loop n accum in
    let top := nth 0 accum 0 in
    let '(accum, res_hi) :=
      if kNBase <=? top then (top ÷ kNBase :: <[0%nat := top `rem` kNBase]> accum, res_hi + 1) else (accum, res_hi) in
    let v := StripZeros (mkVar (i16 <$> accum) res_hi (if sign a =? sign b then kNumericPos else kNumericNeg) (dscale a + dscale b)) in
    if IsZero v then with_sign kNumericPos v else v.

(** ** Division *)

(** A divisor of one digit. *)
Fixpoint short_loop (divisor rem : Z) (ds : list Z) : list Z :=
  match ds with
  | [] => []
  | d :: ds' => let cur := rem * kNBase + d in i16 (cur ÷ divisor) :: short_loop divisor (cur `rem` divisor) ds'
  end.

(** The digits times [norm], and the carry out. *)
Fixpoint scale_digits (norm : Z) (ds : list Z) : list Z * Z :=
  match ds with
  | [] => ([], 0)
  | d :: ds' =>
      let '(out, carry) := scale_digits norm ds' in
      let p := d * norm + carry in
      (i16 (p `rem` kNBase) :: out, p ÷ kNBase)
  end.

(** [trial - q * div] without its first digit; the carry and borrow out. *)
Fixpoint sub_mul (q : Z) (trial div : list Z) : list Z * Z * Z :=
  match trial, div with
  | t :: trial', d :: div' =>
      let '(out, mcarry, borrow) := sub_mul q trial' div' in
      let p := d * q + mcarry in
      let sub := t - p `rem` kNBase - borrow in
      if sub <? 0 then (i16 (sub + kNBase) :: out, p ÷ kNBase, 1) else (i16 sub :: out, p ÷ kNBase, 0)
  | _, _ => ([], 0, 0)
  end.

(** The loop over [adj]: the quotient digit and the new remainder. *)
Fixpoint adjust (fuel : nat) (q : Z) (trial div : list Z) : Z * list Z :=
  match fuel with
  | O => (q, trial)
  | S fuel' =>
      let '(out, mcarry, borrow) := sub_mul q (tail trial) div in
      let top_sub := nth 0 trial 0 - mcarry - borrow in
      if top_sub <? 0 then adjust fuel' (q - 1) trial div else (q, i16 top_sub :: out)
  end.

(** The loop over [j], on the digits of [work] from [j] on. *)
Fixpoint knuth_loop (fuel : nat) (work div : list Z) : list Z :=
  match fuel with
  | O => []
  | S fuel' =>
      if (length work <=? length div)%nat then []
      else
        let top := nth 0 work 0 * kNBase + nth 1 work 0 in
        let q := top ÷ nth 0 div 0 in
        let q := if kNBase <=? q then kNBase - 1 else q in
        let '(q, trial) := adjust 2 q (take (S (length div)) work) div in
        i16 q :: knuth_loop fuel' (tail trial ++ drop (S (length div)) work) div
  end.

Definition long_division (ds bs : list Z) : list Z :=
  let norm := kNBase ÷ (nth 0 bs 0 + 1) in
  let '(work, carry) := scale_digits norm ds in
  knuth_loop (S (length ds)) (i16 carry :: work) (scale_digits norm bs).1.

Definition DivVar (a b : NumericVar) : outcome NumericVar :=
  let out_dscale := (if dscale b <? dscale a then dscale a else dscale b) + 8 in
  if IsZero b then Ereport "division by zero"
  else if IsZero a then Ret (with_dscale out_dscale Clear)
  else
    let extra_dec := out_dscale - dscale a + dscale b in
    let extra_groups := (extra_dec + 3) ÷ 4 in
    let extra_groups := if extra_groups <? 0 then 0 else extra_groups in
    let ds := digits a ++ replicate (Z.to_nat extra_groups) 0 in
    let bb := StripZeros (with_sign kNumericPos b) in
    let quot := if NDigits bb =? 1 then short_loop (nth 0 (digits bb) 0) 0 ds else long_division ds (digits bb) in
    let '(quot, res_weight) := strip_front quot (weight a - weight bb) in
    match quot with
    | [] => Ret (with_dscale out_dscale Clear)
    | _ =>
        let v := StripZeros (mkVar quot res_weight (if sign a =? sign b then kNumericPos else kNumericNeg) out_dscale) in
        Ret (if IsZero v then with_sign kNumericPos v else v)
    end.

(** ** Truncation and rounding *)

Definition TruncToScale (v : NumericVar) (new_dscale : Z) : NumericVar :=
  let g := (new_dscale + 3) ÷ 4 in
  let cutoff_pos := - g in
  let keep_dec := new_dscale - 4 * (g - 1) in
  let idx := weight v - cutoff_pos in
  let ds :=
    if (0 <? g) && (keep_dec <? 4) && (0 <=? idx) && (idx <? NDigits v) then
      let mask_divisor := 10 ^ (4 - keep_dec) in
      alter (λ d, i16 ((d ÷ mask_divisor) * mask_divisor)) (Z.to_nat idx) (digits v)
    else digits v in
  let keep_idx := weight v - cutoff_pos + 1 in
  let keep_idx := if keep_idx <? 0 then 0 else keep_idx in
  let ds := if keep_idx <? Z.of_nat (length ds) then take (Z.to_nat keep_idx) ds else ds in
  let v' := StripZeros (mkVar ds (weight v) (sign v) new_dscale) in
  if IsZero v' then with_sign kNumericPos v' else v'.

Definition RoundVar (v : NumericVar) (new_dscale : Z) : NumericVar :=
  let new_dscale := if new_dscale <? 0 then 0 else new_dscale in
  if dscale v <=? new_dscale then v
  else
    let g_add := (new_dscale + 4) ÷ 4 in
    let offset_add := new_dscale + 1 - 4 * (g_add - 1) in
    let addend := mkVar [i16 (5 * 10 ^ (4 - offset_add))] (- g_add) kNumericPos 0 in
    let sum := with_sign (sign v) (AddAbs (with_sign kNumericPos v) addend Clear) in
    let sum := if IsZero sum then with_sign kNumericPos sum else sum in
    TruncToScale sum new_dscale.

Definition TruncVar (v : NumericVar) (new_dscale : Z) : NumericVar :=
  let new_dscale := if new_dscale <? 0 then 0 else new_dscale in
  if dscale v <=? new_dscale then v else TruncToScale v new_dscale.

(** ** Text *)

Definition char_in (c : ascii) (lo hi : Z) : bool :=
  let n := Z.of_N (N_of_ascii c) in (lo <=? n) && (n <=? hi).
Definition is_digit (c : ascii) : bool := char_in c 48 57.
Definition zero_char : ascii := "0"%char.

Definition bad_syntax (str : list ascii) : string :=
  "invalid input syntax for type numeric: " +:+ of_chars ("034"%char :: str ++ ["034"%char]).

(** The digits before and after the point; [seen] says which are being read. *)
Fixpoint split_parts (l : list ascii) (seen : bool) (int_part frac_part : list ascii) : option (list ascii * list ascii) :=
  match l with
  | [] => Some (int_part, frac_part)
  | c :: l' =>
      if decide (c = "."%char) then (if seen then None else split_parts l' true int_part frac_part)
      else if is_digit c then
        (if seen then split_parts l' seen int_part (frac_part ++ [c]) else split_parts l' seen (int_part ++ [c]) frac_part)
      else None
  end.

Fixpoint drop_zero_chars (l : list ascii) : list ascii :=
  match l with c :: l' => if decide (c = zero_char) then drop_zero_chars l' else l | [] => [] end.
(** Without leading zeros, but with one character left. *)
Definition strip_zero_chars (l : list ascii) : list ascii :=
  match drop_zero_chars l with [] => [zero_char] | l' => l' end.

Definition pad_frac (frac : list ascii) : list ascii :=
  frac ++ replicate ((4 - length frac `mod` 4) `mod` 4)%nat zero_char.

(** [std::stoi] of decimal digits. *)
Definition stoi (l : list ascii) : Z := undigits 10 ((λ c, Z.of_N (N_of_ascii c) - 48) <$> l).

Fixpoint read_groups (n : nat) (padded : list ascii) : list Z :=
  match n with O => [] | S n' => i16 (stoi (take 4 padded)) :: read_groups n' (drop 4 padded) end.

Definition numeric_in (str : option (list ascii)) : outcome NumericData :=
  match str with
  | None => Ereport "invalid input syntax for type numeric: NULL"
  | Some [] => Ereport (bad_syntax [])
  | Some ((c :: l) as s) =>
      let '(neg, rest) :=
        if decide (c = "+"%char) then (false, l) else if decide (c = "-"%char) then (true, l) else (false, s) in
      match split_parts rest false [] [] with
      | None | Some ([], []) => Ereport (bad_syntax s)
      | Some (int_part, frac_part) =>
          let frac := pad_frac frac_part in
          let all := strip_zero_chars (strip_zero_chars int_part ++ frac) in
          let frac_decimals := Z.of_nat (length frac) in
          let int_decimals := Z.of_nat (length all) - frac_decimals in
          let int_groups := (int_decimals + 3) ÷ 4 in
          let total_groups := int_groups + frac_decimals ÷ 4 in
          let leading_pad := int_groups * 4 - int_decimals in
          let leading_pad := if leading_pad <? 0 then 0 else leading_pad in
          let padded := replicate (Z.to_nat leading_pad) zero_char ++ all in
          let v := StripZeros (mkVar (read_groups (Z.to_nat total_groups) padded) (int_groups - 1)
                                (if (neg : bool) then kNumericNeg else kNumericPos) (Z.of_nat (length frac_part))) in
          Ret (ToData (if IsZero v then with_sign kNumericPos v else v))
      end
  end.

(** "%04d" *)
Definition print_group (d : Z) : list ascii :=
  if d <? 0 then "-"%char :: print_padded 10 3 5 (- d) else print_padded 10 4 5 d.

Definition print_groups (v : NumericVar) (int_groups total_groups : Z) : list ascii :=
  concat ((λ g, print_group (DigitAt v (int_groups - 1 - g))) <$> seqZ 0 total_groups).

Definition numeric_out (value : NumericData) : list ascii :=
  let v := FromData value in
  if IsZero v then
    (if dscale v <=? 0 then [zero_char] else zero_char :: "."%char :: replicate (Z.to_nat (dscale v)) zero_char)
  else
    let int_groups := if weight v + 1 <? 0 then 0 else weight v + 1 in
    let frac_groups := if 0 <? dscale v then (dscale v + 3) ÷ 4 else 0 in
    let digits_str := print_groups v int_groups (int_groups + frac_groups) in
    let int_digits := Z.to_nat (int_groups * 4) in
    let frac_digits := Z.of_nat (length digits_str) - Z.of_nat int_digits in
    let '(digits_str, frac_digits) :=
      if dscale v <? frac_digits then (take (Z.to_nat (Z.of_nat int_digits + dscale v)) digits_str, dscale v) else (digits_str, frac_digits) in
    let digits_str :=
      if frac_digits <? dscale v then digits_str ++ replicate (Z.to_nat (dscale v - frac_digits)) zero_char else digits_str in
    let lnz := (length digits_str - length (drop_zero_chars digits_str))%nat in
    let '(digits_str, int_digits) :=
      if decide (drop_zero_chars digits_str = []) then ([zero_char], int_digits)
      else if (0 <? lnz)%nat && (lnz <? int_digits)%nat then (drop lnz digits_str, (int_digits - lnz)%nat)
      else if (int_digits <=? lnz)%nat then (zero_char :: drop int_digits digits_str, 1%nat)
      else (digits_str, int_digits) in
    let minus := if sign v =? kNumericNeg then ["-"%char] else [] in
    if 0 <? dscale v then
      let digits_str := digits_str ++ replicate (int_digits + Z.to_nat (dscale v) - length digits_str)%nat zero_char in
      minus ++ take int_digits digits_str ++ "."%char :: take (Z.to_nat (dscale v)) (drop int_digits digits_str)
    else minus ++ digits_str.

(** ** Construction *)

Definition MakeNumericDatum (ds : list Z) (weight sign dscale : Z) : NumericData :=
  let v := StripZeros (mkVar ds weight sign dscale) in
  ToData (if IsZero v then with_sign kNumericPos v else v).

(** The groups of an unsigned 64-bit number, least significant first. *)
Fixpoint groups_of (fuel : nat) (uv : Z) : list Z :=
  match fuel with
  | O => []
  | S fuel' => if 0 <? uv then i16 (uv `mod` kNBase) :: groups_of fuel' (uv / kNBase) else []
  end.

Definition Int64ToNumeric (val : Z) : NumericData :=
  let neg := val <? 0 in
  let uv := if neg then u64 (u64 (- (val + 1)) + 1) else u64 val in
  if uv =? 0 then ToData Clear
  else
    let groups := groups_of 5 uv in
    ToData (mkVar (rev groups) (Z.of_nat (length groups) - 1) (if neg then kNumericNeg else kNumericPos) 0).

Definition Int32ToNumeric (val : Z) : NumericData := Int64ToNumeric val.

(** ** The operations *)

Definition larger_dscale (a b : NumericVar) : Z := if dscale b <? dscale a then dscale a else dscale b.

Definition numeric_add (a b : NumericData) : NumericData :=
  let va := FromData a in
  let vb := FromData b in
  ToData (EnsureFracCoverage (with_dscale (larger_dscale va vb) (AddVar va vb Clear))).

Definition numeric_sub (a b : NumericData) : NumericData :=
  let va := FromData a in
  let vb := FromData b in
  ToData (EnsureFracCoverage (with_dscale (larger_dscale va vb) (SubVar va vb Clear))).

Definition numeric_mul (a b : NumericData) : NumericData := ToData (MulVar (FromData a) (FromData b)).

Definition numeric_div (a b : NumericData) : outcome NumericData :=
  match DivVar (FromData a) (FromData b) with Ret v => Ret (ToData v) | Ereport msg => Ereport msg end.

Definition numeric_round (value : NumericData) (new_dscale : Z) : NumericData := ToData (RoundVar (FromData value) new_dscale).
Definition numeric_trunc (value : NumericData) (new_dscale : Z) : NumericData := ToData (TruncVar (FromData value) new_dscale).

Definition one : NumericVar := mkVar [1] 0 kNumericPos 0.

(** [numeric_ceil] and [numeric_floor] step away from zero at values with a
    fraction and the sign [s]. *)
Definition step_away (s : Z) (v : NumericVar) : NumericVar :=
  if 0 <? dscale v then
    let truncated := TruncVar v 0 in
    if (0 <? CompareAbs v truncated) && (sign v =? s) then with_dscale 0 (with_sign s (AddAbs truncated one Clear))
    else with_dscale 0 truncated
  else v.

Definition numeric_ceil (value : NumericData) : NumericData := ToData (step_away kNumericPos (FromData value)).
Definition numeric_floor (value : NumericData) : NumericData := ToData (step_away kNumericNeg (FromData value)).
Definition numeric_abs (value : NumericData) : NumericData := ToData (with_sign kNumericPos (FromData value)).

Definition numeric_cmp (a b : NumericData) : Z := CompareSigned (FromData a) (FromData b).
Definition numeric_eq (a b : NumericData) : bool := numeric_cmp a b =? 0.
Definition numeric_lt (a b : NumericData) : bool := numeric_cmp a b <? 0.

Definition numeric_accum (trans newval : NumericData) : NumericData := numeric_add trans newval.
Definition numeric_avg (sum : NumericData) (count : Z) : outcome NumericData :=
  if count =? 0 then Ereport "numeric_avg: division by zero (count is zero)" else numeric_div sum (Int64ToNumeric count).

Fixpoint int64_loop (v : NumericVar) (n : nat) (pos result : Z) : Z :=
  match n with O => result | S n' => int64_loop v n' (pos - 1) (i64 (i64 (result * kNBase) + DigitAt v pos)) end.

Definition numeric_to_int64 (value : NumericData) : Z :=
  let v := FromData value in
  let result := int64_loop v (Z.to_nat (weight v + 1)) (weight v) 0 in
  if sign v =? kNumericNeg then i64 (- result) else result.

(** ** Conversion to [double]

    IEEE 754 double precision, rounding to nearest. *)

Definition prec : Z := 53.
Definition emax : Z := 1024.
Definition float_of_int (z : Z) : spec_float :=
  match z with
  | Z0 => S754_zero false
  | Zpos p => binary_normalize prec emax (Zpos p) 0 false
  | Zneg p => binary_normalize prec emax (Zneg p) 0 true
  end.

Definition float_digits (v : NumericVar) : spec_float :=
  foldl (λ result d, SFadd prec emax (SFmul prec emax result (float_of_int kNBase)) (float_of_int d)) (S754_zero false) (digits v).

Definition numeric_to_float8 (value : NumericData) : spec_float :=
  let v := FromData value in
  if IsZero v then S754_zero false
  else
    let frac_groups := Z.to_nat ((dscale v + 3) ÷ 4) in
    let result := Nat.iter frac_groups (λ r, SFdiv prec emax r (float_of_int kNBase)) (float_digits v) in
    if sign v =? kNumericNeg then SFopp result else result.

(** ** Conversion from [double] *)

(** [m * 2 ^ e] times 10 ^ 15, rounded to the nearest integer, ties to even. *)
Definition scaled_15 (m : positive) (e : Z) : Z :=
  if 0 <=? e then Zpos m * 10 ^ 15 * 2 ^ e
  else
    let n := Zpos m * 10 ^ 15 in
    let d := 2 ^ (- e) in
    let q := n / d in
    let r := n `mod` d in
    if 2 * r <? d then q else if d <? 2 * r then q + 1 else if Z.even q then q else q + 1.

(** "%.15f": all decimal digits of the integer part. *)
Definition print_f15 (s : bool) (n : Z) : list ascii :=
  (if s then ["-"%char] else []) ++ print_digits 10 400 (n / 10 ^ 15) ++ "."%char :: print_padded 10 15 16 (n `mod` 10 ^ 15).

Definition sprintf_f15 (val : spec_float) : list ascii :=
  match val with
  | S754_zero s => print_f15 s 0
  | S754_finite s m e => print_f15 s (scaled_15 m e)
  | S754_infinity s => (if s then ["-"%char] else []) ++ chars "inf"
  | S754_nan => chars "nan"
  end.

(** The buffer has 64 bytes, one of them for the terminator. *)
Definition Float8ToNumeric (val : spec_float) : outcome NumericData := numeric_in (Some (take 63 (sprintf_f15 val))).

End Numeric.
