(* ===== verification/NumericSpec.v ===== *)
(** * What the numeric type computes

    The value of a numeric as a rational number, and the operations of
    [Numeric] against exact arithmetic on it. *)

From Stdlib Require Import QArith Qround Qpower Qabs.
From stdpp Require Import base list numbers strings.
From S2P Require Import Prelude CString Numeric.

Module NumericSpec.
Import CString Numeric.
#[local] Open Scope Z_scope.

(** ** Powers of ten *)

Definition pow10 (k : Z) : Q := Qpower (10 # 1) k.

Lemma ten_nonzero : ¬ (10 # 1 == 0)%Q.
Proof. done. Qed.

Lemma pow10_add a b : (pow10 (a + b) == pow10 a * pow10 b)%Q.
Proof. apply Qpower_plus, ten_nonzero. Qed.

Lemma pow10_int k : 0 ≤ k → (pow10 k == inject_Z (10 ^ k))%Q.
Proof. intros Hk. unfold pow10. by rewrite (Zpower_Qpower 10). Qed.

Lemma pow10_pos k : (0 < pow10 k)%Q.
Proof. apply Qpower_0_lt. done. Qed.

Lemma pow10_inv k : (pow10 k * pow10 (- k) == 1)%Q.
Proof. rewrite <- pow10_add. by replace (k + - k) with 0 by lia. Qed.

(** ** The value of a numeric *)

Definition sgn (v : NumericVar) : Z := if sign v =? kNumericNeg then -1 else 1.
Definition mantissa (v : NumericVar) : Z := undigits kNumericBase (digits v).
Definition magnitude (v : NumericVar) : Q := (inject_Z (mantissa v) * pow10 (4 * lowest v))%Q.
Definition var_value (v : NumericVar) : Q := (inject_Z (sgn v) * magnitude v)%Q.
Definition value (n : NumericData) : Q := var_value (FromData n).

Definition digit (d : Z) : Prop := 0 ≤ d < kNumericBase.
Definition wf_var (v : NumericVar) : Prop := Forall digit (digits v) ∧ (sign v = kNumericPos ∨ sign v = kNumericNeg).

Lemma i16_digit d : digit d → i16 d = d.
Proof. unfold digit, i16, kNumericBase. intros H. rewrite Z.mod_small; lia. Qed.

Lemma undigits_bound b l : 0 < b → Forall (λ d, 0 ≤ d < b) l → 0 ≤ undigits b l < b ^ Z.of_nat (length l).
Proof.
  intros Hb. induction 1 as [|d l Hd _ IH]; [done|]. rewrite undigits_cons. cbn [length]. rewrite Nat2Z.inj_succ, Z.pow_succ_r by lia. nia.
Qed.

Lemma undigits_snoc b l d : undigits b (l ++ [d]) = undigits b l * b + d.
Proof. by rewrite undigits_app. Qed.

Lemma undigits_app_shift b l1 l2 : undigits b (l1 ++ l2) = undigits b l1 * b ^ Z.of_nat (length l2) + undigits b l2.
Proof. by rewrite undigits_app, foldl_digits_shift. Qed.

Lemma undigits_append_zeros b l n : undigits b (l ++ replicate n 0) = undigits b l * b ^ Z.of_nat n.
Proof. rewrite undigits_app_shift, length_replicate. pose proof (undigits_zeros b n []) as H. rewrite app_nil_r in H. rewrite H. cbn. lia. Qed.

Lemma mantissa_nonneg v : wf_var v → 0 ≤ mantissa v.
Proof. intros [H _]. by apply (undigits_bound kNumericBase). Qed.

(** The digits from position [L] up, as a number. *)
Fixpoint psum (f : Z → Z) (L : Z) (n : nat) : Z :=
  match n with O => 0 | S n' => f L + kNumericBase * psum f (L + 1) n' end.

Lemma psum_ext f g L n : (∀ p, L ≤ p < L + Z.of_nat n → f p = g p) → psum f L n = psum g L n.
Proof.
  revert L. induction n as [|n IH]; intros L H; [done|]. cbn [psum]. rewrite (H L) by lia. rewrite (IH (L + 1)); [done|]. intros p Hp. apply H. lia.
Qed.

Lemma psum_app f L n m : psum f L (n + m) = psum f L n + kNumericBase ^ Z.of_nat n * psum f (L + Z.of_nat n) m.
Proof.
  revert L. induction n as [|n IH]; intros L; [cbn [Nat.add psum Z.of_nat]; rewrite Z.add_0_r; lia|]. cbn [Nat.add psum]. rewrite IH.
  rewrite Nat2Z.inj_succ, Z.pow_succ_r by lia. replace (L + 1 + Z.of_nat n) with (L + Z.succ (Z.of_nat n)) by lia. lia.
Qed.

Lemma psum_zero f L n : (∀ p, L ≤ p < L + Z.of_nat n → f p = 0) → psum f L n = 0.
Proof. intros H. rewrite (psum_ext f (λ _, 0)) by done. clear H. revert L. induction n as [|n IH]; intros L; [done|]. cbn [psum]. rewrite IH. lia. Qed.

Lemma digit_outside v p : p < lowest v ∨ weight v < p → DigitAt v p = 0.
Proof.
  unfold lowest, DigitAt. intros H. destruct ((weight v - p <? 0) || (NDigits v <=? weight v - p)) eqn:E; [done|].
  apply orb_false_iff in E as [E1 E2]. to_prop. lia.
Qed.

Lemma digit_at_range v p : wf_var v → digit (DigitAt v p).
Proof.
  intros [H _]. unfold DigitAt. destruct ((weight v - p <? 0) || (NDigits v <=? weight v - p)) eqn:E; [by unfold digit, kNumericBase|].
  apply orb_false_iff in E as [E1 E2]. to_prop. unfold NDigits in E2. rewrite Forall_forall in H. apply H, list_elem_of_In, nth_In. lia.
Qed.

Lemma psum_own v : psum (DigitAt v) (lowest v) (length (digits v)) = mantissa v.
Proof.
  unfold mantissa. destruct v as [ds w s sc]. cbn [digits]. revert w. induction ds as [|d ds IH] using rev_ind; intros w; [done|].
  rewrite length_app, Nat.add_comm. cbn [length Nat.add psum]. rewrite undigits_snoc, <- (IH w).
  assert (Hlo : lowest (mkVar (ds ++ [d]) w s sc) = w - Z.of_nat (length ds)).
  { unfold lowest, NDigits. cbn. rewrite length_app. cbn. lia. }
  rewrite Hlo. replace (lowest (mkVar ds w s sc)) with (w - Z.of_nat (length ds) + 1) by (unfold lowest, NDigits; cbn; lia).
  assert (Hd : DigitAt (mkVar (ds ++ [d]) w s sc) (w - Z.of_nat (length ds)) = d).
  { unfold DigitAt, NDigits. cbn. rewrite length_app. cbn [length].
    replace (w - (w - Z.of_nat (length ds))) with (Z.of_nat (length ds)) by lia.
    rewrite (proj2 (Z.ltb_ge _ 0)), (proj2 (Z.leb_gt _ _)) by lia. cbn [orb]. rewrite Nat2Z.id. apply nth_middle. }
  rewrite Hd. rewrite (psum_ext _ (DigitAt (mkVar ds w s sc))); [lia|]. intros p Hp. unfold DigitAt, NDigits. cbn. rewrite length_app. cbn [length].
  replace (Z.of_nat (length ds + 1) <=? w - p) with (Z.of_nat (length ds) <=? w - p) by (destruct (Z.leb_spec (Z.of_nat (length ds)) (w - p)), (Z.leb_spec (Z.of_nat (length ds + 1)) (w - p)); lia || done).
  destruct ((w - p <? 0) || _) eqn:E; [done|]. apply orb_false_iff in E as [E1 E2]. to_prop. rewrite app_nth1 by lia. done.
Qed.

(** The mantissa with respect to a lower position. *)
Definition at_scale (L : Z) (v : NumericVar) : Z := mantissa v * kNumericBase ^ (lowest v - L).

Lemma psum_digits v L n : L ≤ lowest v → weight v < L + Z.of_nat n → psum (DigitAt v) L n = at_scale L v.
Proof.
  intros HL Hn. assert (Hlo : lowest v + Z.of_nat (length (digits v)) = weight v + 1) by (unfold lowest, NDigits; lia).
  set (k := Z.to_nat (lowest v - L)). set (r := Z.to_nat (L + Z.of_nat n - weight v - 1)).
  replace n with (k + (length (digits v) + r))%nat by lia. rewrite !psum_app. replace (L + Z.of_nat k) with (lowest v) by lia.
  rewrite psum_own, (psum_zero _ L k), (psum_zero _ _ r).
  - unfold at_scale. replace (Z.of_nat k) with (lowest v - L) by lia. lia.
  - intros p Hp. apply digit_outside. lia.
  - intros p Hp. apply digit_outside. lia.
Qed.

Lemma base_pow10 k : 0 ≤ k → kNumericBase ^ k = 10 ^ (4 * k).
Proof. intros Hk. change kNumericBase with (10 ^ 4). by rewrite <- Z.pow_mul_r by lia. Qed.

Lemma magnitude_at L v : L ≤ lowest v → (magnitude v == inject_Z (at_scale L v) * pow10 (4 * L))%Q.
Proof.
  intros HL. unfold magnitude, at_scale. rewrite inject_Z_mult, base_pow10, <- pow10_int by lia.
  rewrite <- Qmult_assoc, <- pow10_add. by replace (4 * (lowest v - L) + 4 * L) with (4 * lowest v) by lia.
Qed.

(** ** Stripping zeros *)

(** No zero digits at either end, and one representation of zero. *)
Record stripped (v : NumericVar) : Prop := {
  st_empty : digits v = [] → weight v = 0 ∧ sign v = kNumericPos;
  st_head d : head (digits v) = Some d → d ≠ 0;
  st_last d : last (digits v) = Some d → d ≠ 0;
}.

Lemma strip_front_spec ds w :
  ∃ n, ds = replicate n 0 ++ (strip_front ds w).1 ∧ (strip_front ds w).2 = w - Z.of_nat n ∧ head (strip_front ds w).1 ≠ Some 0.
Proof.
  revert w. induction ds as [|d ds IH]; intros w; [exists 0%nat; cbn; split_and!; [done|lia|done]|]. cbn [strip_front].
  destruct (d =? 0) eqn:E; to_prop.
  - subst d. destruct (IH (w - 1)) as (n & H1 & H2 & H3). exists (S n). cbn [replicate app]. split_and!; [by rewrite <- H1|lia|done].
  - exists 0%nat. cbn. split_and!; [done|lia|congruence].
Qed.

Lemma drop_zeros_spec ds : ∃ n, ds = replicate n 0 ++ drop_zeros ds ∧ head (drop_zeros ds) ≠ Some 0.
Proof.
  induction ds as [|d ds IH]; [by exists 0%nat|]. cbn [drop_zeros]. destruct (d =? 0) eqn:E; to_prop.
  - subst d. destruct IH as (n & H1 & H3). exists (S n). cbn [replicate app]. split; [by rewrite <- H1|done].
  - exists 0%nat. split; [done|]. cbn. congruence.
Qed.

Lemma rev_replicate {A} n (x : A) : rev (replicate n x) = replicate n x.
Proof. induction n as [|n IH]; [done|]. cbn. rewrite IH. by rewrite <- replicate_S_end. Qed.

Lemma strip_shape v :
  ∃ n m, digits v = replicate n 0 ++ digits (StripZeros v) ++ replicate m 0 ∧ dscale (StripZeros v) = dscale v ∧ stripped (StripZeros v) ∧
    (digits (StripZeros v) ≠ [] → weight (StripZeros v) = weight v - Z.of_nat n ∧ sign (StripZeros v) = sign v) ∧
    (sign (StripZeros v) = sign v ∨ sign (StripZeros v) = kNumericPos).
Proof.
  destruct v as [ds w s sc]. unfold StripZeros. cbn [digits weight sign dscale]. destruct (strip_front_spec ds w) as (n & H1 & H2 & H3).
  destruct (strip_front ds w) as [ds1 w1]. cbn in *. destruct (drop_zeros_spec (rev ds1)) as (m & H4 & H5).
  assert (H6 : ds1 = rev (drop_zeros (rev ds1)) ++ replicate m 0).
  { rewrite <- (rev_involutive ds1) at 1. rewrite H4 at 1. by rewrite rev_app_distr, rev_replicate. }
  set (ds2 := rev (drop_zeros (rev ds1))) in *. exists n, m.
  assert (Hl : last ds2 ≠ Some 0).
  { unfold ds2. destruct (drop_zeros (rev ds1)) as [|x r]; [done|]. cbn [rev]. rewrite last_snoc. done. }
  clearbody ds2. destruct ds2 as [|d ds2]; cbn [digits weight sign dscale].
  - split_and!; [by rewrite H1, H6|done|split; cbn; [done|by intros d|by intros d]|done|by right].
  - split_and!; [by rewrite H1, H6|done| |done|by left]. split; cbn [digits weight sign]; [done| |].
    + intros x Hx ->. apply H3. rewrite H6. done.
    + intros x Hx ->. done.
Qed.

Lemma strip_magnitude v : (magnitude (StripZeros v) == magnitude v)%Q.
Proof.
  destruct (strip_shape v) as (n & m & Hd & _ & Hs & Hw & _). unfold magnitude, mantissa. rewrite Hd, undigits_zeros, undigits_append_zeros.
  destruct (digits (StripZeros v)) as [|x ds] eqn:E; [cbn; by rewrite !Qmult_0_l|]. destruct Hw as [Hw _]; [done|].
  assert (Hlo : lowest (StripZeros v) = lowest v + Z.of_nat m).
  { unfold lowest, NDigits. rewrite Hw, Hd, E, !length_app, !length_replicate. cbn [length]. lia. }
  rewrite Hlo, inject_Z_mult, base_pow10, <- pow10_int, <- Qmult_assoc, <- pow10_add by lia.
  by replace (4 * Z.of_nat m + 4 * lowest v) with (4 * (lowest v + Z.of_nat m)) by lia.
Qed.

Lemma strip_wf v : wf_var v → wf_var (StripZeros v).
Proof.
  intros [Hd Hs]. destruct (strip_shape v) as (n & m & Hds & _ & _ & _ & Hsg). split.
  - rewrite Hds, !Forall_app in Hd. by destruct Hd as (_ & ? & _).
  - destruct Hsg as [->| ->]; [done|by left].
Qed.

Lemma forallb_zero l : forallb (λ d, d =? 0) l = true ↔ l = replicate (length l) 0.
Proof.
  induction l as [|d l IH]; [done|]. cbn. rewrite andb_true_iff, Z.eqb_eq, IH. split; [by intros [-> <-]|]. intros H. injection H as -> H. done.
Qed.

Lemma zero_undigits l : Forall digit l → undigits kNumericBase l = 0 ↔ forallb (λ d, d =? 0) l = true.
Proof.
  induction 1 as [|d l Hd Hl IH]; [done|]. rewrite undigits_cons. cbn. rewrite andb_true_iff, Z.eqb_eq, <- IH.
  pose proof (undigits_bound kNumericBase l eq_refl Hl). unfold digit, kNumericBase in *. assert (0 < 10000 ^ Z.of_nat (length l)) by lia. nia.
Qed.

Lemma zero_mantissa v : wf_var v → IsZero v = true ↔ mantissa v = 0.
Proof. intros [H _]. unfold IsZero, mantissa. by rewrite zero_undigits. Qed.

Lemma magnitude_zero v : wf_var v → IsZero v = true ↔ (magnitude v == 0)%Q.
Proof.
  intros H. rewrite zero_mantissa by done. unfold magnitude. split; [intros ->; apply Qmult_0_l|].
  intros E. apply Qmult_integral in E as [E|E]; [by apply inject_Z_injective|]. pose proof (pow10_pos (4 * lowest v)) as Hp. rewrite E in Hp. done.
Qed.

Lemma stripped_zero v : stripped v → IsZero v = true → digits v = [].
Proof.
  intros [_ Hh _] H. unfold IsZero in H. destruct (digits v) as [|d l]; [done|]. cbn in H. apply andb_true_iff in H as [H _].
  to_prop. by destruct (Hh d).
Qed.

(** ** Sums and differences of magnitudes *)

Definition lval (l : list Z) : Z := foldr (λ d acc, d + kNumericBase * acc) 0 l.

Lemma undigits_rev l : undigits kNumericBase (rev l) = lval l.
Proof. induction l as [|d l IH]; [done|]. cbn [rev lval foldr]. rewrite undigits_snoc, IH. fold (lval l). lia. Qed.

Lemma lval_snoc l d : lval (l ++ [d]) = lval l + kNumericBase ^ Z.of_nat (length l) * d.
Proof.
  induction l as [|x l IH]; cbn [app lval foldr length]; [cbn; lia|]. fold (lval (l ++ [d])). fold (lval l). rewrite IH, Nat2Z.inj_succ, Z.pow_succ_r by lia. lia.
Qed.

Section pair.
Context (a b : NumericVar) (Ha : wf_var a) (Hb : wf_var b).

Lemma span_bounds : min_pos a b ≤ lowest a ∧ min_pos a b ≤ lowest b ∧
  weight a < min_pos a b + Z.of_nat (span a b) ∧ weight b < min_pos a b + Z.of_nat (span a b) ∧
  min_pos a b + Z.of_nat (span a b) = max_pos a b + 1.
Proof using Type.
  clear Ha Hb. assert (lowest a ≤ weight a + 1 ∧ lowest b ≤ weight b + 1) by (unfold lowest, NDigits; lia).
  unfold span, min_pos, max_pos. destruct (Z.ltb_spec (weight b) (weight a)), (Z.ltb_spec (lowest a) (lowest b)); lia.
Qed.

Lemma psum_both :
  psum (DigitAt a) (min_pos a b) (span a b) = at_scale (min_pos a b) a ∧ psum (DigitAt b) (min_pos a b) (span a b) = at_scale (min_pos a b) b.
Proof using Type. clear Ha Hb. pose proof span_bounds. split; apply psum_digits; lia. Qed.

Lemma add_loop_run n : ∀ pos carry, 0 ≤ carry ≤ 1 →
  let r := add_loop a b n pos carry in
  length r.1 = n ∧ Forall digit r.1 ∧ 0 ≤ r.2 ≤ 1 ∧
  lval r.1 + kNumericBase ^ Z.of_nat n * r.2 = psum (DigitAt a) pos n + psum (DigitAt b) pos n + carry.
Proof using Ha Hb.
  induction n as [|n IH]; intros pos carry Hc; [cbn; split_and!; [done|done|lia|lia|lia]|]. cbn [add_loop psum].
  pose proof (digit_at_range a pos Ha) as Da. pose proof (digit_at_range b pos Hb) as Db. unfold digit in Da, Db.
  set (sum := DigitAt a pos + DigitAt b pos + carry). destruct (kNumericBase <=? sum) eqn:E; to_prop.
  - specialize (IH (pos + 1) 1 ltac:(lia)). destruct (add_loop a b n (pos + 1) 1) as [out c]. cbn [fst snd] in *.
    destruct IH as (H1 & H2 & H3 & H4). assert (digit (sum - kNumericBase)) by (unfold digit; lia).
    rewrite i16_digit by done. cbn [length lval foldr]. fold (lval out). rewrite Nat2Z.inj_succ, Z.pow_succ_r by lia.
    split_and!; [by rewrite H1|by constructor|lia|lia|lia].
  - specialize (IH (pos + 1) 0 ltac:(lia)). destruct (add_loop a b n (pos + 1) 0) as [out c]. cbn [fst snd] in *.
    destruct IH as (H1 & H2 & H3 & H4). assert (digit sum) by (unfold digit; lia).
    rewrite i16_digit by done. cbn [length lval foldr]. fold (lval out). rewrite Nat2Z.inj_succ, Z.pow_succ_r by lia.
    split_and!; [by rewrite H1|by constructor|lia|lia|lia].
Qed.

(** What the routines on magnitudes return: a stripped positive number. *)
Record positive_result (r : NumericVar) (scale : Z) (m : Q) : Prop := {
  pr_wf : wf_var r;
  pr_stripped : stripped r;
  pr_sign : sign r = kNumericPos;
  pr_dscale : dscale r = scale;
  pr_magnitude : (magnitude r == m)%Q;
}.

Lemma strip_result ds w scale m :
  Forall digit ds → (magnitude (mkVar ds w kNumericPos scale) == m)%Q → positive_result (StripZeros (mkVar ds w kNumericPos scale)) scale m.
Proof using Type.
  clear Ha Hb. intros Hds Hm. set (v := mkVar ds w kNumericPos scale) in *. assert (Hw : wf_var v) by (split; [done|by left]).
  destruct (strip_shape v) as (n & k & _ & Hsc & Hst & _ & Hsg). split; [by apply strip_wf|done|by destruct Hsg as [-> | ->]|done|by rewrite strip_magnitude].
Qed.

Lemma magnitudes_at : (magnitude a == inject_Z (at_scale (min_pos a b) a) * pow10 (4 * min_pos a b) ∧
  magnitude b == inject_Z (at_scale (min_pos a b) b) * pow10 (4 * min_pos a b))%Q.
Proof using Type. clear Ha Hb. pose proof span_bounds. split; apply magnitude_at; lia. Qed.

Lemma add_abs_run result : positive_result (AddAbs a b result) (dscale result) (magnitude a + magnitude b).
Proof using Ha Hb.
  unfold AddAbs. pose proof (add_loop_run (span a b) (min_pos a b) 0 ltac:(lia)) as H. cbn zeta in H.
  destruct (add_loop a b (span a b) (min_pos a b) 0) as [out carry]. cbn [fst snd] in H. destruct H as (Hlen & Hd & Hc & Hsum).
  destruct psum_both as [Pa Pb]. rewrite Pa, Pb, Z.add_0_r in Hsum. destruct magnitudes_at as [Ma Mb]. pose proof span_bounds as (_ & _ & _ & _ & Hsp).
  set (r := if 0 <? carry then (out ++ [1], max_pos a b + 1) else (out, max_pos a b)).
  assert (Hr : Forall digit r.1 ∧ lval r.1 = at_scale (min_pos a b) a + at_scale (min_pos a b) b ∧ r.2 - Z.of_nat (length r.1) + 1 = min_pos a b).
  { unfold r. destruct (0 <? carry) eqn:E; to_prop; cbn [fst snd].
    - assert (carry = 1) as -> by lia. rewrite lval_snoc, length_app, Hlen. cbn [length]. split_and!; [|lia|lia]. apply Forall_app. split; [done|]. by repeat constructor.
    - assert (carry = 0) as -> by lia. split_and!; [done|lia|lia]. }
  clearbody r. destruct r as [out' top]. cbn [fst snd] in Hr. destruct Hr as (Hd' & Hv & Hlow).
  apply strip_result; [by apply Forall_rev|]. unfold magnitude at 1, mantissa, lowest, NDigits. cbn [digits weight].
  rewrite undigits_rev, length_rev, Hv, Hlow, Ma, Mb, inject_Z_plus. ring.
Qed.

Lemma sub_loop_run n : ∀ pos borrow, 0 ≤ borrow ≤ 1 →
  let out := sub_loop a b n pos borrow in
  length out = n ∧ Forall digit out ∧ ∃ c, 0 ≤ c ≤ 1 ∧
  lval out - kNumericBase ^ Z.of_nat n * c = psum (DigitAt a) pos n - psum (DigitAt b) pos n - borrow.
Proof using Ha Hb.
  induction n as [|n IH]; intros pos borrow Hc; [cbn; split_and!; [done|done|exists borrow; lia]|]. cbn [sub_loop psum].
  pose proof (digit_at_range a pos Ha) as Da. pose proof (digit_at_range b pos Hb) as Db. unfold digit in Da, Db.
  set (diff := DigitAt a pos - DigitAt b pos - borrow). destruct (diff <? 0) eqn:E; to_prop; cbn [length lval foldr].
  - destruct (IH (pos + 1) 1 ltac:(lia)) as (H1 & H2 & c & H3 & H4). assert (digit (diff + kNumericBase)) by (unfold digit; lia).
    rewrite i16_digit by done. split_and!; [by rewrite H1|by constructor|]. exists c. split; [done|].
    rewrite Nat2Z.inj_succ, Z.pow_succ_r by lia. unfold lval in H4. lia.
  - destruct (IH (pos + 1) 0 ltac:(lia)) as (H1 & H2 & c & H3 & H4). assert (digit diff) by (unfold digit; lia).
    rewrite i16_digit by done. split_and!; [by rewrite H1|by constructor|]. exists c. split; [done|].
    rewrite Nat2Z.inj_succ, Z.pow_succ_r by lia. unfold lval in H4. lia.
Qed.

Lemma lval_bound l : Forall digit l → 0 ≤ lval l < kNumericBase ^ Z.of_nat (length l).
Proof using Type.
  clear Ha Hb. induction 1 as [|d l Hd _ IH]; [done|]. cbn [lval foldr length]. fold (lval l). rewrite Nat2Z.inj_succ, Z.pow_succ_r by lia.
  unfold digit, kNumericBase in *. lia.
Qed.

Lemma sub_abs_run result :
  (magnitude b <= magnitude a)%Q → positive_result (SubAbs a b result) (dscale result) (magnitude a - magnitude b).
Proof using Ha Hb.
  intros Hle. unfold SubAbs. destruct (sub_loop_run (span a b) (min_pos a b) 0 ltac:(lia)) as (Hlen & Hd & c & Hc & Hsum).
  set (out := sub_loop a b (span a b) (min_pos a b) 0) in *. destruct psum_both as [Pa Pb]. rewrite Pa, Pb in Hsum.
  destruct magnitudes_at as [Ma Mb]. pose proof span_bounds as (_ & _ & _ & _ & Hsp).
  rewrite Ma, Mb in Hle. apply Qmult_lt_0_le_reg_r in Hle; [|apply pow10_pos]. rewrite <- Zle_Qle in Hle.
  pose proof (lval_bound out Hd) as Hb'. rewrite Hlen in Hb'. assert (c = 0) as -> by nia.
  apply strip_result; [by apply Forall_rev|]. unfold magnitude at 1, mantissa, lowest, NDigits. cbn [digits weight].
  rewrite undigits_rev, length_rev, Hlen. replace (lval out) with (at_scale (min_pos a b) a - at_scale (min_pos a b) b) by lia.
  replace (max_pos a b - Z.of_nat (span a b) + 1) with (min_pos a b) by lia.
  rewrite Ma, Mb. unfold Zminus. rewrite inject_Z_plus, inject_Z_opp. ring.
Qed.

(** Comparing from the top decides the order. *)
Lemma compare_loop_run n : ∀ pos,
  let L := pos - Z.of_nat n + 1 in
  compare_loop a b n pos = match psum (DigitAt a) L n ?= psum (DigitAt b) L n with Lt => -1 | Eq => 0 | Gt => 1 end.
Proof using Ha Hb.
  induction n as [|n IH]; intros pos L; [done|]. cbn [compare_loop]. replace (S n) with (n + 1)%nat by lia. rewrite !psum_app.
  assert (HL : L + Z.of_nat n = pos) by (unfold L; lia). rewrite HL. cbn [psum]. rewrite !Z.mul_0_r, !Z.add_0_r.
  specialize (IH (pos - 1)). cbn zeta in IH. replace (pos - 1 - Z.of_nat n + 1) with L in IH by (unfold L; lia).
  assert (Hbound : ∀ v, wf_var v → 0 ≤ psum (DigitAt v) L n < kNumericBase ^ Z.of_nat n).
  { intros v Hv. clear IH HL. generalize L. clear L. induction n as [|n IHn]; intros L; [done|]. cbn [psum]. rewrite Nat2Z.inj_succ, Z.pow_succ_r by lia.
    specialize (IHn (L + 1)). pose proof (digit_at_range v L Hv). unfold digit, kNumericBase in *. lia. }
  pose proof (Hbound a Ha) as Ba. pose proof (Hbound b Hb) as Bb.
  destruct (DigitAt a pos <? DigitAt b pos) eqn:E1; to_prop; [rewrite (proj2 (Z.compare_lt_iff _ _)); [done|nia]|].
  destruct (DigitAt b pos <? DigitAt a pos) eqn:E2; to_prop; [rewrite (proj2 (Z.compare_gt_iff _ _)); [done|nia]|].
  replace (DigitAt b pos) with (DigitAt a pos) by lia. rewrite IH. by rewrite !(Z.add_comm (psum _ L n)), Z.add_compare_mono_l.
Qed.

Lemma compare_abs_run : CompareAbs a b = match (magnitude a ?= magnitude b)%Q with Lt => -1 | Eq => 0 | Gt => 1 end.
Proof using Ha Hb.
  unfold CompareAbs. rewrite compare_loop_run. pose proof span_bounds as (_ & _ & _ & _ & Hsp).
  replace (max_pos a b - Z.of_nat (span a b) + 1) with (min_pos a b) by lia. destruct psum_both as [-> ->]. destruct magnitudes_at as [Ma Mb].
  rewrite Ma, Mb. pose proof (pow10_pos (4 * min_pos a b)) as Hp.
  destruct (Z.compare_spec (at_scale (min_pos a b) a) (at_scale (min_pos a b) b)) as [E|E|E].
  - rewrite (proj1 (Qeq_alt _ _)); [done|]. by rewrite E.
  - rewrite (proj1 (Qlt_alt _ _)); [done|]. apply Qmult_lt_compat_r; [done|]. by rewrite <- Zlt_Qlt.
  - rewrite (proj1 (Qgt_alt _ _)); [done|]. apply Qmult_lt_compat_r; [done|]. by rewrite <- Zlt_Qlt.
Qed.
End pair.

(** ** Signed numbers *)

Lemma sgn_cases v : wf_var v → (sign v = kNumericPos ∧ sgn v = 1) ∨ (sign v = kNumericNeg ∧ sgn v = -1).
Proof. intros [_ [H|H]]; [left|right]; unfold sgn; by rewrite H. Qed.

Lemma magnitude_nonneg v : wf_var v → (0 <= magnitude v)%Q.
Proof.
  intros Hv. unfold magnitude. apply Qmult_le_0_compat; [|apply Qlt_le_weak, pow10_pos]. change 0%Q with (inject_Z 0). rewrite <- Zle_Qle.
  by apply mantissa_nonneg.
Qed.

Lemma value_pos v : wf_var v → sign v = kNumericPos → (var_value v == magnitude v)%Q.
Proof. intros _ H. unfold var_value, sgn. rewrite H. apply Qmult_1_l. Qed.
Lemma value_neg v : wf_var v → sign v = kNumericNeg → (var_value v == - magnitude v)%Q.
Proof. intros _ H. unfold var_value, sgn. rewrite H, Z.eqb_refl. change (inject_Z (-1)) with (-1)%Q. ring. Qed.

Lemma value_zero v : wf_var v → IsZero v = true → (var_value v == 0)%Q.
Proof. intros H Hz. apply magnitude_zero in Hz; [|done]. unfold var_value. rewrite Hz. apply Qmult_0_r. Qed.

Lemma with_sign_wf s v : wf_var v → s = kNumericPos ∨ s = kNumericNeg → wf_var (with_sign s v).
Proof. intros [H _] Hs. by split. Qed.

(** Zero is made positive; the value does not change. *)
Lemma positive_zero v :
  wf_var v → let r := if IsZero v then with_sign kNumericPos v else v in wf_var r ∧ (var_value r == var_value v)%Q ∧ dscale r = dscale v.
Proof.
  intros Hv r. unfold r. destruct (IsZero v) eqn:E; [|done]. assert (Hw : wf_var (with_sign kNumericPos v)) by (apply with_sign_wf; [done|by left]).
  split_and!; [done| |done]. by rewrite !value_zero.
Qed.

Lemma signed_result r scale m s :
  positive_result r scale m → s = kNumericPos ∨ s = kNumericNeg →
  let v := with_sign s r in
  let v := if IsZero v then with_sign kNumericPos v else v in
  wf_var v ∧ dscale v = scale ∧ (var_value v == inject_Z (if s =? kNumericNeg then -1 else 1) * m)%Q.
Proof.
  intros [Hw Hst Hsg Hsc Hm] Hs v0 v. assert (Hw0 : wf_var v0) by (by apply with_sign_wf).
  destruct (positive_zero v0 Hw0) as (H1 & H2 & H3). fold v in H1, H2, H3. split_and!; [done|by rewrite H3|].
  rewrite H2. unfold var_value, sgn. cbn [sign v0 with_sign]. change (magnitude v0) with (magnitude r). by rewrite Hm.
Qed.

Lemma add_var_run a b result :
  wf_var a → wf_var b → wf_var (AddVar a b result) ∧ (var_value (AddVar a b result) == var_value a + var_value b)%Q.
Proof.
  intros Ha Hb. unfold AddVar. destruct (IsZero a) eqn:Ea; [split; [done|]; rewrite (value_zero a) by done; ring|].
  destruct (IsZero b) eqn:Eb; [split; [done|]; rewrite (value_zero b) by done; ring|].
  pose proof (proj2 Ha) as Sa. pose proof (proj2 Hb) as Sb. destruct (sign a =? sign b) eqn:Es; to_prop.
  - destruct (signed_result _ _ _ (sign a) (add_abs_run a b Ha Hb result) Sa) as (H1 & _ & H2). split; [done|]. rewrite H2.
    unfold var_value. change (if sign a =? kNumericNeg then -1 else 1) with (sgn a). replace (sgn b) with (sgn a) by (unfold sgn; by rewrite Es). ring.
  - rewrite compare_abs_run by done. assert (Hop : sgn b = - sgn a) by (destruct (sgn_cases a Ha) as [[? ->]|[? ->]], (sgn_cases b Hb) as [[? ->]|[? ->]]; lia || congruence).
    destruct (magnitude a ?= magnitude b)%Q eqn:Ec; cbn [Z.eqb Z.ltb Z.compare].
    + apply Qeq_alt in Ec. split; [split; [by constructor|by left]|]. unfold var_value. rewrite Hop, Ec, inject_Z_opp. change (magnitude Clear) with (0 * pow10 4)%Q. ring.
    + apply Qlt_alt in Ec. destruct (signed_result _ _ _ (sign b) (sub_abs_run b a Hb Ha result (Qlt_le_weak _ _ Ec)) Sb) as (H1 & _ & H2).
      split; [done|]. rewrite H2. unfold var_value. change (if sign b =? kNumericNeg then -1 else 1) with (sgn b). rewrite Hop, inject_Z_opp. ring.
    + apply Qgt_alt in Ec. destruct (signed_result _ _ _ (sign a) (sub_abs_run a b Ha Hb result (Qlt_le_weak _ _ Ec)) Sa) as (H1 & _ & H2).
      split; [done|]. rewrite H2. unfold var_value. change (if sign a =? kNumericNeg then -1 else 1) with (sgn a). rewrite Hop, inject_Z_opp. ring.
Qed.

Lemma sub_var_run a b result :
  wf_var a → wf_var b → wf_var (SubVar a b result) ∧ (var_value (SubVar a b result) == var_value a - var_value b)%Q.
Proof.
  intros Ha Hb. unfold SubVar. set (nb := if IsZero b then _ else _).
  assert (Hn : wf_var nb ∧ (var_value nb == - var_value b)%Q).
  { unfold nb. destruct (IsZero b) eqn:E; [split; [done|]; rewrite !value_zero by done; ring|].
    destruct (sgn_cases b Hb) as [[Hs Hg]|[Hs Hg]]; rewrite Hs; cbn [Z.eqb kNumericPos kNumericNeg];
      (split; [apply with_sign_wf; [done|by (left + right)]|]); unfold var_value; rewrite Hg; change (magnitude (with_sign _ b)) with (magnitude b); cbn; ring. }
  destruct Hn as [Hn Hv]. destruct (add_var_run a nb result Ha Hn) as [H1 H2]. split; [done|]. rewrite H2, Hv. ring.
Qed.

Lemma coverage_run v : wf_var v → wf_var (EnsureFracCoverage v) ∧ (var_value (EnsureFracCoverage v) == var_value v)%Q ∧
  dscale (EnsureFracCoverage v) = dscale v.
Proof.
  intros Hv. unfold EnsureFracCoverage. destruct (dscale v <=? 0); [done|]. destruct (_ <? _) eqn:E; [|done]. to_prop.
  set (k := Z.to_nat _). clearbody k. destruct Hv as [Hd Hs]. split_and!; [split; [|done]|..|done].
  - apply Forall_app. split; [done|]. by apply Forall_replicate.
  - unfold var_value, sgn. cbn [sign]. apply Qmult_comp; [done|]. unfold magnitude, mantissa. cbn [digits]. rewrite undigits_append_zeros.
    rewrite inject_Z_mult, base_pow10, <- pow10_int, <- Qmult_assoc, <- pow10_add by lia. unfold lowest, NDigits. cbn [digits weight].
    rewrite length_app, length_replicate. apply Qmult_comp; [done|]. by replace (_ + _) with (4 * (weight v - Z.of_nat (length (digits v)) + 1)) by lia.
Qed.

Lemma compare_signed_run a b :
  wf_var a → wf_var b → CompareSigned a b = match (var_value a ?= var_value b)%Q with Lt => -1 | Eq => 0 | Gt => 1 end.
Proof.
  intros Ha Hb. unfold CompareSigned. pose proof (magnitude_nonneg a Ha) as Na. pose proof (magnitude_nonneg b Hb) as Nb.
  assert (Pos : ∀ v, wf_var v → IsZero v = false → (0 < magnitude v)%Q).
  { intros v Hv E. destruct (Qle_lt_or_eq _ _ (magnitude_nonneg v Hv)) as [|E']; [done|].
    symmetry in E'. apply magnitude_zero in E'; [congruence|done]. }
  destruct (IsZero a) eqn:Ea, (IsZero b) eqn:Eb; cbn [andb].
  - rewrite (proj1 (Qeq_alt _ _)); [done|]. by rewrite !value_zero.
  - specialize (Pos b Hb Eb). rewrite (value_zero a) by done. destruct (sgn_cases b Hb) as [[Hs _]|[Hs _]]; rewrite Hs; cbn [Z.eqb kNumericPos kNumericNeg].
    + rewrite value_pos, (proj1 (Qlt_alt _ _)) by done. done.
    + rewrite value_neg, (proj1 (Qgt_alt _ _)); [done|by apply Qopp_lt_compat in Pos|done|done].
  - specialize (Pos a Ha Ea). rewrite (value_zero b) by done. destruct (sgn_cases a Ha) as [[Hs _]|[Hs _]]; rewrite Hs; cbn [Z.eqb kNumericPos kNumericNeg].
    + rewrite value_pos, (proj1 (Qgt_alt _ _)) by done. done.
    + rewrite value_neg, (proj1 (Qlt_alt _ _)); [done|by apply Qopp_lt_compat in Pos|done|done].
  - pose proof (Pos a Ha Ea) as Pa. pose proof (Pos b Hb Eb) as Pb. pose proof (Qopp_lt_compat _ _ Pa) as Oa. pose proof (Qopp_lt_compat _ _ Pb) as Ob.
    change (- (0))%Q with 0%Q in Oa, Ob.
    destruct (sgn_cases a Ha) as [[Hs _]|[Hs _]], (sgn_cases b Hb) as [[Hs' _]|[Hs' _]]; rewrite Hs, Hs'; cbn [Z.eqb kNumericPos kNumericNeg negb].
    + rewrite compare_abs_run, !value_pos by done. done.
    + rewrite (value_pos a), (value_neg b), (proj1 (Qgt_alt _ _)); [done|by apply (Qlt_trans _ 0)|done..].
    + rewrite (value_neg a), (value_pos b), (proj1 (Qlt_alt _ _)); [done|by apply (Qlt_trans _ 0)|done..].
    + rewrite compare_abs_run, !value_neg by done. destruct (magnitude a ?= magnitude b)%Q eqn:Ec.
      * apply Qeq_alt in Ec. rewrite (proj1 (Qeq_alt _ _)); [done|]. by rewrite Ec.
      * apply Qlt_alt, Qopp_lt_compat in Ec. by rewrite (proj1 (Qgt_alt _ _)).
      * apply Qgt_alt, Qopp_lt_compat in Ec. by rewrite (proj1 (Qlt_alt _ _)).
Qed.

Lemma strip_value v : wf_var v → (var_value (StripZeros v) == var_value v)%Q.
Proof.
  intros Hw. pose proof (strip_wf v Hw) as Hw'. destruct (strip_shape v) as (k & m & Hds & _ & _ & Hsg & _).
  destruct (digits (StripZeros v)) as [|d ds] eqn:E.
  - assert (Hz : IsZero (StripZeros v) = true) by (unfold IsZero; by rewrite E).
    rewrite value_zero by done. apply magnitude_zero in Hz; [|done]. rewrite strip_magnitude in Hz. unfold var_value. rewrite Hz. ring.
  - destruct Hsg as [_ Hsg]; [done|]. unfold var_value, sgn. by rewrite strip_magnitude, Hsg.
Qed.

(** The last steps of the operations: strip zeros, make zero positive. *)
Lemma finish_run v :
  wf_var v → let r := StripZeros v in let r := if IsZero r then with_sign kNumericPos r else r in
  wf_var r ∧ (var_value r == var_value v)%Q ∧ dscale r = dscale v ∧ stripped r.
Proof.
  intros Hw r0 r. pose proof (strip_wf v Hw) as Hw'. destruct (positive_zero r0 Hw') as (H1 & H2 & H3). fold r in H1, H2, H3.
  destruct (strip_shape v) as (k & m & _ & Hsc & Hst & _ & _). split_and!; [done|rewrite H2; by apply strip_value|by rewrite H3|].
  unfold r. destruct (IsZero r0) eqn:E; [|done]. pose proof (stripped_zero _ Hst E) as Hd. destruct Hst as [Hs1 Hs2 Hs3].
  split; cbn; [|done|done]. intros H. split; [apply (Hs1 H)|done].
Qed.

(** ** Multiplication *)

(** Writing to one place of a number in base 10000. *)
Lemma undigits_alter f k l x :
  l !! k = Some x →
  undigits kNumericBase (alter f k l) = undigits kNumericBase l + (f x - x) * kNumericBase ^ (Z.of_nat (length l) - 1 - Z.of_nat k).
Proof.
  revert k. induction l as [|y l IH]; intros k Hk; [done|]. destruct k as [|k]; cbn in Hk.
  - injection Hk as ->. change (alter f 0%nat (x :: l)) with (f x :: l). rewrite !undigits_cons. cbn [length].
    replace (Z.of_nat (S (length l)) - 1 - Z.of_nat 0) with (Z.of_nat (length l)) by lia. ring.
  - change (alter f (S k) (y :: l)) with (y :: alter f k l). rewrite !undigits_cons, IH, length_alter by done. cbn [length].
    replace (Z.of_nat (S (length l)) - 1 - Z.of_nat (S k)) with (Z.of_nat (length l) - 1 - Z.of_nat k) by lia. lia.
Qed.

(** The largest product of two digits, and as many of them as an [int] holds. *)
Definition max_product : Z := 9999 * 9999.
Definition max_rows : Z := 21.

(** The number of the first [rows] rows of [width] digits that reach place [k];
    row [r] starts at place [r + 1]. *)
Fixpoint rows_at (width rows k : nat) : nat :=
  match rows with
  | O => O
  | S r => (rows_at width r k + (if (S r <=? k) && (k <=? r + width) then 1 else 0))%nat
  end.

Lemma rows_at_bound width rows k : (rows_at width rows k ≤ rows)%nat ∧ (rows_at width rows k ≤ width)%nat.
Proof.
  assert (H : (rows_at width rows k ≤ rows)%nat ∧ (rows_at width rows k ≤ k)%nat ∧ (rows_at width rows k ≤ rows + width - k)%nat ∧
    (k ≤ rows → rows_at width rows k ≤ width)%nat ∧ (rows < k → rows_at width rows k ≤ width)%nat).
  { induction rows as [|r (H1 & H2 & H3 & H4 & H5)]; cbn [rows_at]; [lia|].
    destruct ((S r <=? k) && (k <=? r + width))%nat eqn:E.
    - apply andb_true_iff in E as [E1%Nat.leb_le E2%Nat.leb_le]. lia.
    - apply andb_false_iff in E as [E%Nat.leb_gt|E%Nat.leb_gt]; lia. }
  lia.
Qed.

(** Entries bounded by the number of products added to them. *)
Definition bounded (count : nat → nat) (accum : list Z) : Prop :=
  ∀ k x, accum !! k = Some x → 0 ≤ x ≤ Z.of_nat (count k) * max_product.

Lemma product_bound x y : digit x → digit y → 0 ≤ x * y ≤ max_product.
Proof. unfold digit, max_product, kNumericBase. nia. Qed.

Lemma mul_row_run av bs : ∀ k accum count,
  digit av → Forall digit bs → (k + length bs ≤ length accum)%nat → bounded count accum →
  (∀ j, (k ≤ j < k + length bs)%nat → Z.of_nat (count j) < max_rows) →
  let r := mul_row av bs k accum in
  length r = length accum ∧
  bounded (λ j, count j + (if (k <=? j) && (j <? k + length bs) then 1 else 0))%nat r ∧
  undigits kNumericBase r = undigits kNumericBase accum +
    av * undigits kNumericBase bs * kNumericBase ^ (Z.of_nat (length accum) - Z.of_nat k - Z.of_nat (length bs)).
Proof.
  induction bs as [|bv bs IH]; intros k accum count Hav Hbs Hlen Hb Hc r; unfold r; cbn [mul_row].
  { split_and!; [done| |cbn; lia]. intros j x Hj. specialize (Hb j x Hj). unfold max_product in *. lia. }
  apply Forall_cons in Hbs as [Hbv Hbs]. cbn [length] in Hlen.
  destruct (lookup_lt_is_Some_2 accum k) as [x Hx]; [lia|]. pose proof (Hb k x Hx) as Bx. pose proof (product_bound av bv Hav Hbv) as Bp.
  pose proof (Hc k ltac:(cbn; lia)) as Ck. unfold max_rows in Ck.
  assert (E : i32 (x + i32 (av * bv)) = x + av * bv) by (unfold max_product in *; rewrite (i32_small (av * bv)), i32_small by lia; done).
  set (count1 := λ j, (count j + (if decide (j = k) then 1 else 0))%nat).
  destruct (IH (S k) (accumulate k (i32 (av * bv)) accum) count1) as (H1 & H2 & H3); [done|done| | | |].
  - unfold accumulate. rewrite length_alter. lia.
  - intros j y Hj. unfold accumulate in Hj. unfold count1. destruct (decide (j = k)) as [->|Hne].
    + rewrite list_lookup_alter_eq, Hx in Hj. cbn in Hj. injection Hj as <-. rewrite E. lia.
    + rewrite list_lookup_alter_ne in Hj by done. specialize (Hb j y Hj). by rewrite Nat.add_0_r.
  - intros j Hj. unfold count1. rewrite decide_False by lia. rewrite Nat.add_0_r. apply Hc. cbn. lia.
  - unfold accumulate in *. rewrite length_alter in *. split_and!; [done| |].
    + intros j y Hj. specialize (H2 j y Hj). unfold count1 in H2. cbn beta in H2 |- *. cbn [length].
      replace (count j + _)%nat with (count j + (if decide (j = k) then 1 else 0) + (if (S k <=? j) && (j <? S k + length bs) then 1 else 0))%nat; [done|].
      destruct (decide (j = k)) as [Hjk|Hne], (Nat.leb_spec (S k) j), (Nat.leb_spec k j), (Nat.ltb_spec j (S k + length bs)), (Nat.ltb_spec j (k + S (length bs))); cbn; lia.
    + rewrite H3, (undigits_alter _ _ _ x) by done. rewrite E, undigits_cons. cbn [length].
      set (n := Z.of_nat (length accum)). assert (Hn : Z.of_nat k + 1 + Z.of_nat (length bs) ≤ n) by lia.
      replace (n - 1 - Z.of_nat k) with (Z.of_nat (length bs) + (n - Z.of_nat (S k) - Z.of_nat (length bs))) by lia.
      replace (n - Z.of_nat k - Z.of_nat (S (length bs))) with (n - Z.of_nat (S k) - Z.of_nat (length bs)) by lia.
      rewrite Z.pow_add_r by lia. ring.
Qed.

Lemma mul_rows_run bs xs : ∀ r accum,
  Forall digit xs → Forall digit bs → (1 + r + length xs + length bs ≤ length accum)%nat →
  (Z.of_nat (r + length xs) ≤ max_rows ∨ Z.of_nat (length bs) ≤ max_rows) →
  bounded (rows_at (length bs) r) accum →
  let res := mul_rows xs bs (S r) accum in
  length res = length accum ∧ bounded (rows_at (length bs) (r + length xs)) res ∧
  undigits kNumericBase res = undigits kNumericBase accum +
    undigits kNumericBase xs * undigits kNumericBase bs *
    kNumericBase ^ (Z.of_nat (length accum) - Z.of_nat r - Z.of_nat (length xs) - Z.of_nat (length bs)).
Proof.
  induction xs as [|av xs IH]; intros r accum Hxs Hbs Hlen Hrows Hb res; unfold res; cbn [mul_rows].
  { rewrite Nat.add_0_r. split_and!; [done|done|cbn; lia]. }
  apply Forall_cons in Hxs as [Hav Hxs]. cbn [length] in Hlen, Hrows.
  set (accum1 := if av =? 0 then accum else mul_row av bs (S r) accum).
  assert (H : length accum1 = length accum ∧ bounded (rows_at (length bs) (S r)) accum1 ∧
    undigits kNumericBase accum1 = undigits kNumericBase accum +
      av * undigits kNumericBase bs * kNumericBase ^ (Z.of_nat (length accum) - Z.of_nat (S r) - Z.of_nat (length bs))).
  { unfold accum1. destruct (av =? 0) eqn:E; to_prop.
    - subst av. split_and!; [done| |lia]. intros k x Hk. specialize (Hb k x Hk). cbn [rows_at]. unfold max_product in *. lia.
    - destruct (mul_row_run av bs (S r) accum (rows_at (length bs) r)) as (H1 & H2 & H3); [done|done|lia|done| |].
      + intros j Hj. destruct (rows_at_bound (length bs) r j) as [B1 B2]. destruct Hrows as [Hr|Hr]; [lia|].
        assert (rows_at (length bs) (S r) j ≤ length bs)%nat as B3 by apply rows_at_bound. cbn [rows_at] in B3.
        rewrite (proj2 (Nat.leb_le (S r) j)), (proj2 (Nat.leb_le j _)) in B3 by lia. cbn [andb] in B3. lia.
      + split_and!; [done| |done]. intros k x Hk. specialize (H2 k x Hk). cbn beta in H2. cbn [rows_at].
        destruct (Nat.leb_spec (S r) k), (Nat.ltb_spec k (S r + length bs)), (Nat.leb_spec k (r + length bs)); cbn [andb] in *; unfold max_product in *; lia. }
  destruct H as (L1 & B1 & U1). destruct (IH (S r) accum1) as (H1 & H2 & H3); [done|done|lia|by replace (S r + length xs)%nat with (r + S (length xs))%nat by lia|done|].
  split_and!; [by rewrite H1|by replace (r + length (av :: xs))%nat with (S r + length xs)%nat by (cbn; lia)|].
  rewrite H3, U1, L1, undigits_cons. cbn [length]. set (n := Z.of_nat (length accum)).
  replace (n - Z.of_nat (S r) - Z.of_nat (length bs)) with (Z.of_nat (length xs) + (n - Z.of_nat (S r) - Z.of_nat (length xs) - Z.of_nat (length bs))) by lia.
  replace (n - Z.of_nat r - Z.of_nat (S (length xs)) - Z.of_nat (length bs)) with (n - Z.of_nat (S r) - Z.of_nat (length xs) - Z.of_nat (length bs)) by lia.
  rewrite Z.pow_add_r by lia. ring.
Qed.

Lemma undigits_insert v k l x :
  l !! k = Some x →
  undigits kNumericBase (<[k := v]> l) = undigits kNumericBase l + (v - x) * kNumericBase ^ (Z.of_nat (length l) - 1 - Z.of_nat k).
Proof.
  intros Hk. rewrite <- (undigits_alter (λ _, v)) by done. f_equal. clear Hk. revert k. induction l as [|y l IH]; intros [|k]; cbn; [done..|].
  f_equal. apply IH.
Qed.

(** Entries before the carries are propagated, and what a carry adds. *)
Definition max_entry : Z := max_rows * max_product.
Definition max_carry : Z := 215000.

(** Above place [i] there are digits. *)
Record carrying (i : nat) (accum : list Z) : Prop := {
  ca_low k x : (k < i)%nat → accum !! k = Some x → 0 ≤ x ≤ max_entry;
  ca_here x : accum !! i = Some x → 0 ≤ x ≤ max_entry + max_carry;
  ca_high k x : (i < k)%nat → accum !! k = Some x → digit x;
}.

Lemma carry_step i accum :
  carrying (S i) accum → (S i < length accum)%nat →
  let x := nth (S i) accum 0 in
  let accum' := if kNumericBase <=? x then <[S i := x `rem` kNumericBase]> (accumulate i (x ÷ kNumericBase) accum) else accum in
  carrying i accum' ∧ length accum' = length accum ∧ undigits kNumericBase accum' = undigits kNumericBase accum.
Proof.
  intros [Hl Hh Hd] Hi x accum'. unfold max_entry, max_carry, max_rows, max_product in *.
  destruct (lookup_lt_is_Some_2 accum (S i)) as [x' Hx]; [done|]. assert (x = x') as <- by (by apply nth_lookup_Some).
  destruct (lookup_lt_is_Some_2 accum i) as [y Hy]; [lia|]. pose proof (Hl i y ltac:(lia) Hy) as By. pose proof (Hh x Hx) as Bx.
  unfold accum'. destruct (kNumericBase <=? x) eqn:E; to_prop.
  - rewrite Z.quot_div_nonneg, Z.rem_mod_nonneg by (unfold kNumericBase in *; lia).
    pose proof (Z.div_mod x kNumericBase ltac:(done)) as Hdm. pose proof (Z.mod_pos_bound x kNumericBase ltac:(done)) as Hm.
    set (q := x / kNumericBase) in *. set (r := x `mod` kNumericBase) in *. unfold kNumericBase in Hdm, Hm, E.
    assert (Hc : i32 (y + q) = y + q) by (apply i32_small; lia).
    assert (Hacc : accumulate i q accum !! S i = Some x) by (unfold accumulate; rewrite list_lookup_alter_ne by lia; done).
    split; [split|split].
    + intros k z Hk Hz. rewrite list_lookup_insert_ne in Hz by lia. unfold accumulate in Hz. rewrite list_lookup_alter_ne in Hz by lia.
      apply (Hl k); [lia|done].
    + intros z Hz. rewrite list_lookup_insert_ne in Hz by lia. unfold accumulate in Hz. rewrite list_lookup_alter_eq, Hy in Hz. cbn in Hz.
      injection Hz as <-. rewrite Hc. unfold max_entry, max_carry, max_rows, max_product. lia.
    + intros k z Hk Hz. destruct (decide (k = S i)) as [->|Hne].
      * rewrite list_lookup_insert_eq in Hz by (unfold accumulate; by rewrite length_alter). injection Hz as <-. unfold digit, kNumericBase. lia.
      * rewrite list_lookup_insert_ne in Hz by lia. unfold accumulate in Hz. rewrite list_lookup_alter_ne in Hz by lia. apply (Hd k); [lia|done].
    + unfold accumulate. by rewrite length_insert, length_alter.
    + rewrite (undigits_insert _ _ _ x Hacc). unfold accumulate. rewrite (undigits_alter _ _ _ y Hy), length_alter, Hc.
      set (e := Z.of_nat (length accum) - 1 - Z.of_nat (S i)). replace (Z.of_nat (length accum) - 1 - Z.of_nat i) with (1 + e) by lia.
      rewrite Z.pow_add_r, Z.pow_1_r by lia. unfold kNumericBase. replace (r - x) with (- 10000 * q) by lia. ring.
  - split_and!; [|done|done]. split.
    + intros k z Hk. apply Hl. lia.
    + intros z Hz. specialize (Hl i z ltac:(lia) Hz). unfold max_entry, max_carry, max_rows, max_product. lia.
    + intros k z Hk Hz. destruct (decide (k = S i)) as [->|]; [|apply (Hd k); [lia|done]]. assert (z = x) as -> by congruence. unfold digit. lia.
Qed.

Lemma carry_loop_run i : ∀ accum, carrying i accum → (i < length accum)%nat →
  carrying 0 (carry_loop i accum) ∧ length (carry_loop i accum) = length accum ∧
  undigits kNumericBase (carry_loop i accum) = undigits kNumericBase accum.
Proof.
  induction i as [|i IH]; intros accum Hc Hi; [done|]. cbn [carry_loop]. destruct (carry_step i accum Hc Hi) as (H1 & H2 & H3).
  destruct (IH _ H1 ltac:(rewrite H2; lia)) as (H4 & H5 & H6). split_and!; [done|by rewrite H5|by rewrite H6].
Qed.

Lemma undigits_zero_list n : undigits kNumericBase (replicate n 0) = 0.
Proof. rewrite <- (app_nil_r (replicate n 0)), undigits_zeros. done. Qed.

(** The product, before zeros are stripped. *)
Lemma product_digits xs bs n accum :
  Forall digit xs → Forall digit bs → Z.of_nat (length xs `min` length bs) ≤ max_rows → n = (length xs + length bs)%nat →
  accum = carry_loop n (mul_rows xs bs 1 (replicate (S n) 0)) →
  length accum = S n ∧ carrying 0 accum ∧ undigits kNumericBase accum = undigits kNumericBase xs * undigits kNumericBase bs * kNumericBase.
Proof.
  intros Hx Hb Hmin -> ->. set (n := (length xs + length bs)%nat).
  destruct (mul_rows_run bs xs 0 (replicate (S n) 0)) as (H1 & H2 & H3); [done|done|rewrite length_replicate; lia|cbn; lia| |].
  { intros k x Hk. apply lookup_replicate in Hk as [-> _]. cbn. lia. }
  rewrite length_replicate in *. cbn [Nat.add] in H2.
  destruct (carry_loop_run n (mul_rows xs bs 1 (replicate (S n) 0))) as (H4 & H5 & H6); [|rewrite H1; lia|].
  - assert (Hall : ∀ k x, mul_rows xs bs 1 (replicate (S n) 0) !! k = Some x → 0 ≤ x ≤ max_entry).
    { intros k x Hk. specialize (H2 k x Hk). destruct (rows_at_bound (length bs) (length xs) k). unfold max_entry, max_rows, max_product in *. lia. }
    split; [by intros k x _; apply Hall| |].
    + intros x Hx'. specialize (Hall _ _ Hx'). unfold max_carry. lia.
    + intros k x Hk Hl. apply lookup_lt_Some in Hl. rewrite H1 in Hl. lia.
  - split_and!; [by rewrite H5|done|]. rewrite H6, H3, undigits_zero_list.
    replace (Z.of_nat (S n) - Z.of_nat 0 - Z.of_nat (length xs) - Z.of_nat (length bs)) with 1 by lia. lia.
Qed.

Lemma undigits_nonneg l : Forall (λ d, 0 ≤ d) l → 0 ≤ undigits kNumericBase l.
Proof. induction 1 as [|d l Hd _ IH]; [done|]. rewrite undigits_cons. unfold kNumericBase in *. nia. Qed.

(** All entries are digits in the end, the first one included. *)
Lemma product_all_digits xs bs accum :
  Forall digit xs → Forall digit bs → length accum = S (length xs + length bs) → carrying 0 accum →
  undigits kNumericBase accum = undigits kNumericBase xs * undigits kNumericBase bs * kNumericBase → Forall digit accum.
Proof.
  intros Hx Hb Hlen [_ Hh Hd] Hu. destruct accum as [|t accum]; [done|]. cbn in Hlen. injection Hlen as Hlen.
  assert (Hr : Forall digit accum).
  { apply Forall_lookup. intros k x Hk. apply (Hd (S k)); [lia|done]. }
  constructor; [|done]. pose proof (Hh t eq_refl) as Ht. rewrite undigits_cons, Hlen in Hu.
  pose proof (undigits_bound kNumericBase xs eq_refl Hx) as Bx. pose proof (undigits_bound kNumericBase bs eq_refl Hb) as Bb.
  pose proof (undigits_bound kNumericBase accum eq_refl Hr) as Br. rewrite Nat2Z.inj_add, Z.pow_add_r in Hu by lia.
  set (P := kNumericBase ^ Z.of_nat (length xs)) in *. set (R := kNumericBase ^ Z.of_nat (length bs)) in *. split; [lia|].
  assert (undigits kNumericBase xs * undigits kNumericBase bs < P * R) by nia. unfold kNumericBase in *. nia.
Qed.

Lemma i16_digits l : Forall digit l → i16 <$> l = l.
Proof. induction 1 as [|d l Hd _ IH]; [done|]. cbn. by rewrite i16_digit, IH. Qed.

Lemma mul_var_run a b :
  wf_var a → wf_var b → Z.of_nat (length (digits a) `min` length (digits b)) ≤ max_rows →
  wf_var (MulVar a b) ∧ (var_value (MulVar a b) == var_value a * var_value b)%Q ∧
  dscale (MulVar a b) = (if IsZero a || IsZero b then 0 else dscale a + dscale b).
Proof.
  intros Ha Hb Hmin. unfold MulVar. destruct (IsZero a || IsZero b) eqn:Ez.
  { split_and!; [split; [by constructor|by left]| |done]. apply orb_true_iff in Ez as [Ez|Ez];
      [rewrite (value_zero a) by done|rewrite (value_zero b) by done]; change (var_value Clear) with (1 * (0 * pow10 4))%Q; ring. }
  set (n := Z.to_nat (weight a + weight b + 1 - (lowest a + lowest b) + 1)).
  assert (Hn : n = (length (digits a) + length (digits b))%nat) by (unfold n, lowest, NDigits; lia).
  replace (Z.to_nat (weight a + weight b + 1 - (weight a + weight b))) with 1%nat by lia.
  destruct (product_digits (digits a) (digits b) n _ (proj1 Ha) (proj1 Hb) Hmin Hn eq_refl) as (Hlen & Hc & Hu).
  set (accum := carry_loop n _) in *. assert (Hd : Forall digit accum) by (apply (product_all_digits (digits a) (digits b)); [apply Ha|apply Hb|by rewrite Hlen, Hn|done|done]).
  clearbody accum. assert (Ht : (kNumericBase <=? nth 0 accum 0) = false).
  { apply Z.leb_gt. destruct accum as [|t accum]; [done|]. apply Forall_cons in Hd as [[] _]. done. }
  rewrite Ht, (i16_digits accum Hd). set (s := if sign a =? sign b then _ else _).
  set (v := mkVar accum (weight a + weight b + 1) s (dscale a + dscale b)).
  assert (Hw : wf_var v) by (split; [done|]; unfold s; destruct (sign a =? sign b); cbn; [by left|by right]).
  destruct (finish_run v Hw) as (H1 & H2 & H3 & _). cbn zeta in H1, H2, H3. split_and!; [done| |by rewrite H3]. rewrite H2. clear H1 H2 H3.
  unfold var_value, magnitude, mantissa. change (digits v) with accum. rewrite Hu.
  assert (Hlo : lowest v = lowest a + lowest b - 1) by (unfold lowest, NDigits, v; cbn [digits weight]; rewrite Hlen, Hn; lia).
  rewrite Hlo, !inject_Z_mult. change (inject_Z kNumericBase) with (pow10 4).
  assert (Hp : (pow10 4 * pow10 (4 * (lowest a + lowest b - 1)) == pow10 (4 * lowest a) * pow10 (4 * lowest b))%Q).
  { rewrite <- !pow10_add. by replace (4 + 4 * (lowest a + lowest b - 1)) with (4 * lowest a + 4 * lowest b) by lia. }
  assert (Hsg : sgn v = sgn a * sgn b).
  { unfold sgn at 1. cbn [v sign]. unfold s. destruct (sgn_cases a Ha) as [[-> ->]|[-> ->]], (sgn_cases b Hb) as [[-> ->]|[-> ->]]; done. }
  rewrite Hsg, inject_Z_mult.
  transitivity (inject_Z (sgn a) * inject_Z (sgn b) * (inject_Z (undigits kNumericBase (digits a)) * inject_Z (undigits kNumericBase (digits b)) *
    (pow10 4 * pow10 (4 * (lowest a + lowest b - 1)))))%Q; [ring|]. rewrite Hp. ring.
Qed.

(** ** Truncation *)

Lemma qfloor_div m k : 0 ≤ k → Qfloor (inject_Z m * pow10 (- k)) = m / 10 ^ k.
Proof.
  intros Hk. rewrite Zdiv_Qdiv. apply Qfloor_comp. unfold Qdiv. apply Qmult_comp; [done|].
  unfold pow10. rewrite Qpower_opp. by rewrite (Zpower_Qpower 10).
Qed.

Lemma qfloor_int m k : 0 ≤ k → Qfloor (inject_Z m * pow10 k) = m * 10 ^ k.
Proof. intros Hk. rewrite <- (Qfloor_Z (m * 10 ^ k)). apply Qfloor_comp. by rewrite inject_Z_mult, pow10_int. Qed.

Lemma magnitude_scaled v D : (magnitude v * pow10 D == inject_Z (mantissa v) * pow10 (4 * lowest v + D))%Q.
Proof. unfold magnitude. rewrite <- Qmult_assoc, <- pow10_add. done. Qed.

(** The digits down to [10 ^ -D]: the last kept group loses its low part. *)
Definition cut (v : NumericVar) (D : Z) : list Z :=
  let g := (D + 3) / 4 in
  let k := Z.to_nat (weight v + g + 1) in
  let m := 10 ^ (4 * g - D) in
  if (k <=? length (digits v))%nat
  then match rev (take k (digits v)) with [] => [] | d :: rest => rev rest ++ [d / m * m] end
  else digits v.

Lemma groups_bound D : 0 ≤ D → 0 ≤ 4 * ((D + 3) / 4) - D ≤ 3.
Proof. intros H. pose proof (Z.div_mod (D + 3) 4). pose proof (Z.mod_pos_bound (D + 3) 4). lia. Qed.

Lemma masked_digit d e : digit d → 0 ≤ e → digit (d / 10 ^ e * 10 ^ e).
Proof.
  intros [H1 H2] He. pose proof (Z.mul_div_le d (10 ^ e) ltac:(lia)). assert (0 ≤ d / 10 ^ e) by (apply Z.div_pos; lia). unfold digit. nia.
Qed.

Lemma cut_digits v D : 0 ≤ D → Forall digit (digits v) → Forall digit (cut v D).
Proof.
  intros HD Hd. unfold cut. destruct (_ <=? _)%nat; [|done]. pose proof (Forall_take _ (Z.to_nat (weight v + (D + 3) / 4 + 1)) _ Hd) as Ht.
  apply Forall_rev in Ht. destruct (rev (take _ _)) as [|d rest]; [done|]. apply Forall_cons in Ht as [H1 H2].
  apply Forall_app. split; [by apply Forall_rev|]. pose proof (groups_bound D HD). constructor; [|done]. apply masked_digit; [done|lia].
Qed.

(** What the code computes, in one step. *)
Lemma trunc_digits v D :
  0 ≤ D → Forall digit (digits v) →
  TruncToScale v D =
    let r := StripZeros (mkVar (cut v D) (weight v) (sign v) D) in if IsZero r then with_sign kNumericPos r else r.
Proof.
  intros HD Hd. unfold TruncToScale. rewrite (Z.quot_div_nonneg (D + 3)) by lia. pose proof (groups_bound D HD) as Hg. set (g := (D + 3) / 4) in *.
  replace (weight v - - g) with (weight v + g) by lia. replace (4 - (D - 4 * (g - 1))) with (4 * g - D) by lia.
  match goal with |- context [mkVar ?ds _ _ D] => assert (Hds : ds = cut v D) end; [|by rewrite Hds].
  set (idx := weight v + g). unfold cut. fold g idx. unfold NDigits. set (n := length (digits v)).
  destruct (Z.leb_spec 0 idx) as [H0|H0]; [destruct (Z.ltb_spec idx (Z.of_nat n)) as [H1|H1]|].
  - rewrite !andb_true_r, (proj2 (Nat.leb_le _ _)) by lia. rewrite (proj2 (Z.ltb_ge (idx + 1) 0)) by lia.
    destruct (lookup_lt_is_Some_2 (digits v) (Z.to_nat idx)) as [d Hx]; [lia|].
    assert (Hdd : digit d) by (rewrite Forall_forall in Hd; apply Hd; by apply list_elem_of_lookup_2 in Hx).
    set (m := 10 ^ (4 * g - D)). set (f := λ d, i16 (d ÷ m * m)). assert (Hm : 0 < m) by (unfold m; lia).
    assert (Hf : f d = d / m * m).
    { unfold f. unfold digit in Hdd. rewrite Z.quot_div_nonneg by lia. apply i16_digit. unfold m. apply masked_digit; [done|lia]. }
    match goal with |- context [if (0 <? g) && ?c then ?x else ?y] => assert (Halt : (if (0 <? g) && c then x else y) = alter f (Z.to_nat idx) (digits v)) end.
    { destruct ((0 <? g) && _) eqn:E; [done|]. assert (Hm1 : 4 * g - D = 0) by (apply andb_false_iff in E as [E|E]; to_prop; lia).
      assert (Hid : f d = d) by (rewrite Hf; unfold m; rewrite Hm1; cbn; rewrite Z.div_1_r; lia).
      symmetry. apply list_eq. intros j. destruct (decide (j = Z.to_nat idx)) as [->|Hne]; [|by rewrite list_lookup_alter_ne].
      rewrite list_lookup_alter_eq, Hx. cbn. by rewrite Hid. }
    rewrite Halt, length_alter. fold n.
    assert (Htake : take (Z.to_nat (idx + 1)) (alter f (Z.to_nat idx) (digits v)) = take (Z.to_nat idx) (digits v) ++ [d / m * m]).
    { replace (Z.to_nat (idx + 1)) with (S (Z.to_nat idx)) by lia. rewrite <- Hf. rewrite (take_S_r _ _ (f d)) by (by rewrite list_lookup_alter_eq, Hx).
      by rewrite take_alter_ge by lia. }
    assert (Hcut : take (Z.to_nat (idx + 1)) (digits v) = take (Z.to_nat idx) (digits v) ++ [d]).
    { replace (Z.to_nat (idx + 1)) with (S (Z.to_nat idx)) by lia. by apply take_S_r. }
    rewrite Hcut, rev_app_distr. cbn [rev app]. rewrite rev_involutive, <- Htake.
    destruct (idx + 1 <? Z.of_nat n) eqn:E; to_prop; [done|]. symmetry. apply take_ge. rewrite length_alter. fold n. lia.
  - rewrite andb_false_r, (proj2 (Nat.leb_gt _ _)) by lia. rewrite (proj2 (Z.ltb_ge (idx + 1) 0)) by lia. fold n. by rewrite (proj2 (Z.ltb_ge (idx + 1) _)) by lia.
  - rewrite !andb_false_r. cbn [andb]. replace (Z.to_nat (idx + 1)) with 0%nat by lia. cbn [Nat.leb take rev]. fold n.
    replace (if idx + 1 <? 0 then 0 else idx + 1) with 0 by (destruct (Z.ltb_spec (idx + 1) 0); lia).
    destruct (Z.ltb_spec 0 (Z.of_nat n)); [done|]. by apply nil_length_inv; unfold n in *; lia.
Qed.

Lemma cut_magnitude v D s sc :
  0 ≤ D → Forall digit (digits v) →
  (magnitude (mkVar (cut v D) (weight v) s sc) == inject_Z (Qfloor (magnitude v * pow10 D)) * pow10 (- D))%Q.
Proof.
  intros HD Hd. rewrite (Qfloor_comp _ _ (magnitude_scaled v D)). pose proof (groups_bound D HD) as Hg. unfold cut. set (g := (D + 3) / 4) in *.
  set (k := Z.to_nat (weight v + g + 1)). set (n := length (digits v)).
  assert (Hlow : lowest v = weight v - Z.of_nat n + 1) by done.
  destruct (Nat.leb_spec k n) as [Hk|Hk].
  - assert (Hrest : digits v = take k (digits v) ++ drop k (digits v)) by (by rewrite take_drop).
    assert (Hkl : length (take k (digits v)) = k) by (rewrite length_take; lia).
    assert (Hrl : length (drop k (digits v)) = (n - k)%nat) by (by rewrite length_drop).
    pose proof (Forall_drop _ k _ Hd) as Hdr. pose proof (undigits_bound kNumericBase _ eq_refl Hdr) as Br. rewrite Hrl in Br.
    destruct (rev (take k (digits v))) as [|d rest] eqn:Erev.
    + assert (k = 0%nat) as Hk0 by (rewrite <- Hkl, <- length_rev, Erev; done).
      replace (4 * lowest v + D) with (- (- (4 * lowest v + D))) by lia. rewrite qfloor_div by lia.
      pose proof (undigits_bound kNumericBase _ eq_refl Hd) as Bd. rewrite Z.div_small; [cbn; by rewrite !Qmult_0_l|].
      split; [apply Bd|]. eapply Z.lt_le_trans; [apply Bd|]. rewrite base_pow10 by lia. apply Z.pow_le_mono_r; lia.
    + assert (Htk : take k (digits v) = rev rest ++ [d]) by (rewrite <- (rev_involutive (take k (digits v))), Erev; done).
      assert (Hk1 : (length rest + 1 = k)%nat) by (rewrite <- Hkl, Htk, length_app, length_rev; done).
      assert (Hgw : Z.of_nat k = weight v + g + 1) by lia.
      set (e := 4 * g - D) in *. set (m := 10 ^ e). assert (Hm : 0 < m) by (unfold m; lia).
      set (X := undigits kNumericBase (take k (digits v))). set (R := undigits kNumericBase (drop k (digits v))) in *.
      assert (HM : mantissa v = X * kNumericBase ^ Z.of_nat (n - k) + R) by (unfold mantissa; rewrite Hrest at 1; by rewrite undigits_app_shift, Hrl).
      assert (Hcut : undigits kNumericBase (rev rest ++ [d / m * m]) = X / m * m).
      { unfold X. rewrite Htk, !undigits_snoc. assert (Hb : kNumericBase = 10 ^ (4 - e) * m) by (unfold m; rewrite <- Z.pow_add_r by lia; by replace (4 - e + e) with 4 by lia).
        rewrite Hb, Z.mul_assoc, (Z.add_comm _ d), Z.div_add by lia. ring. }
      assert (Hfl : mantissa v / 10 ^ (- (4 * lowest v + D)) = X / m).
      { replace (- (4 * lowest v + D)) with (4 * Z.of_nat (n - k) + e) by (unfold e; lia).
        rewrite Z.pow_add_r, <- base_pow10 by lia. fold m. rewrite <- Z.div_div by lia. rewrite HM, Z.div_add_l, (Z.div_small R) by lia. by rewrite Z.add_0_r. }
      replace (4 * lowest v + D) with (- (- (4 * lowest v + D))) by lia. rewrite qfloor_div by lia. rewrite Hfl.
      unfold magnitude, mantissa, lowest, NDigits. cbn [digits weight]. rewrite Hcut, length_app, length_rev. cbn [length]. rewrite Hk1.
      rewrite inject_Z_mult. unfold m at 2. rewrite <- pow10_int, <- Qmult_assoc, <- pow10_add by lia.
      by replace (e + 4 * (weight v - Z.of_nat k + 1)) with (- D) by (unfold e; lia).
  - rewrite qfloor_int by lia. rewrite inject_Z_mult, <- pow10_int, <- Qmult_assoc, <- pow10_add by lia.
    by replace (4 * lowest v + D + - D) with (4 * lowest v) by lia.
Qed.

(** What truncation and rounding return: [N] units of [10 ^ -D], with the sign of [v]. *)
Record scaled_result (v r : NumericVar) (D N : Z) : Prop := {
  sr_wf : wf_var r;
  sr_stripped : stripped r;
  sr_dscale : dscale r = D;
  sr_value : (var_value r == inject_Z (sgn v * N) * pow10 (- D))%Q;
}.

Lemma trunc_to_scale_run v D :
  wf_var v → 0 ≤ D → scaled_result v (TruncToScale v D) D (Qfloor (magnitude v * pow10 D)).
Proof.
  intros [Hd Hs] HD. rewrite trunc_digits by done. set (c := mkVar (cut v D) (weight v) (sign v) D).
  assert (Hc : wf_var c) by (split; [by apply cut_digits|done]). destruct (finish_run c Hc) as (H1 & H2 & H3 & H4). split; [done|done|done|].
  rewrite H2. unfold var_value. unfold c at 2. rewrite (cut_magnitude v D) by done. change (sgn c) with (sgn v). rewrite inject_Z_mult. ring.
Qed.

(** ** Rounding *)

(** Toward zero, and to the nearest integer with halves away from zero. *)
Definition Qtrunc (q : Q) : Z := if Qle_bool 0 q then Qfloor q else - Qfloor (- q).
Definition Qround (q : Q) : Z := if Qle_bool 0 q then Qfloor (q + (1 # 2)) else - Qfloor (- q + (1 # 2)).

#[export] Instance Qtrunc_proper : Proper (Qeq ==> eq) Qtrunc.
Proof. intros x y H. unfold Qtrunc. rewrite (Qfloor_comp x y), (Qfloor_comp (- x) (- y)), H by (by rewrite H). done. Qed.
#[export] Instance Qround_proper : Proper (Qeq ==> eq) Qround.
Proof.
  intros x y H. unfold Qround. rewrite (Qfloor_comp (x + (1 # 2)) (y + (1 # 2))), (Qfloor_comp (- x + (1 # 2)) (- y + (1 # 2))), H by (by rewrite H). done.
Qed.

Lemma signed_trunc v p : wf_var v → (0 <= p)%Q → Qtrunc (var_value v * p) = sgn v * Qfloor (magnitude v * p).
Proof.
  intros Hv Hp. pose proof (Qmult_le_0_compat _ _ (magnitude_nonneg v Hv) Hp) as Hm. unfold Qtrunc. destruct (sgn_cases v Hv) as [[Hs Hg]|[Hs Hg]]; rewrite Hg.
  - rewrite (value_pos v Hv Hs), (proj2 (Qle_bool_iff _ _) Hm). rewrite (Qfloor_comp (var_value v * p) (magnitude v * p)) by (by rewrite value_pos). lia.
  - assert (Ev : (var_value v * p == - (magnitude v * p))%Q) by (rewrite (value_neg v Hv Hs); ring). rewrite Ev, (Qfloor_comp _ _ Ev).
    rewrite (Qfloor_comp (- (var_value v * p)) (magnitude v * p)) by (rewrite Ev; ring).
    destruct (Qle_bool 0 (- (magnitude v * p))) eqn:Eb; [|lia]. apply Qle_bool_iff in Eb.
    assert (E0 : (magnitude v * p == 0)%Q) by (apply Qle_antisym; [|done]; apply Qopp_le_compat in Eb; rewrite Qopp_involutive in Eb; exact Eb).
    rewrite (Qfloor_comp (- (magnitude v * p)) 0), (Qfloor_comp (magnitude v * p) 0); [done|done|by rewrite E0].
Qed.

Lemma signed_round v p : wf_var v → (0 <= p)%Q → Qround (var_value v * p) = sgn v * Qfloor (magnitude v * p + (1 # 2)).
Proof.
  intros Hv Hp. pose proof (Qmult_le_0_compat _ _ (magnitude_nonneg v Hv) Hp) as Hm. unfold Qround. destruct (sgn_cases v Hv) as [[Hs Hg]|[Hs Hg]]; rewrite Hg.
  - rewrite (value_pos v Hv Hs), (proj2 (Qle_bool_iff _ _) Hm).
    rewrite (Qfloor_comp (var_value v * p + (1 # 2)) (magnitude v * p + (1 # 2))) by (by rewrite value_pos). lia.
  - assert (Ev : (var_value v * p == - (magnitude v * p))%Q) by (rewrite (value_neg v Hv Hs); ring). rewrite Ev.
    rewrite (Qfloor_comp (var_value v * p + (1 # 2)) (- (magnitude v * p) + (1 # 2))) by (by rewrite Ev).
    rewrite (Qfloor_comp (- (var_value v * p) + (1 # 2)) (magnitude v * p + (1 # 2))) by (rewrite Ev; ring).
    destruct (Qle_bool 0 (- (magnitude v * p))) eqn:Eb; [|lia]. apply Qle_bool_iff in Eb.
    assert (E0 : (magnitude v * p == 0)%Q) by (apply Qle_antisym; [|done]; apply Qopp_le_compat in Eb; rewrite Qopp_involutive in Eb; exact Eb).
    rewrite (Qfloor_comp (- (magnitude v * p) + (1 # 2)) (1 # 2)), (Qfloor_comp (magnitude v * p + (1 # 2)) (1 # 2)); [done|by rewrite E0|by rewrite E0].
Qed.

Definition clip (D : Z) : Z := if D <? 0 then 0 else D.

Lemma trunc_var_run v D :
  wf_var v → clip D < dscale v →
  wf_var (TruncVar v D) ∧ dscale (TruncVar v D) = clip D ∧ (var_value (TruncVar v D) == inject_Z (Qtrunc (var_value v * pow10 (clip D))) * pow10 (- clip D))%Q.
Proof.
  intros Hv HD. unfold TruncVar. fold (clip D). rewrite (proj2 (Z.leb_gt _ _)) by done. assert (Hc : 0 ≤ clip D) by (unfold clip; destruct (Z.ltb_spec D 0); lia).
  destruct (trunc_to_scale_run v (clip D) Hv Hc) as [H1 _ H3 H4]. split_and!; [done|done|]. rewrite H4, signed_trunc; [done|done|apply Qlt_le_weak, pow10_pos].
Qed.

Lemma addend_magnitude D :
  0 ≤ D → let g := (D + 4) ÷ 4 in let d := 5 * 10 ^ (4 - (D + 1 - 4 * (g - 1))) in
  digit d ∧ (magnitude (mkVar [i16 d] (- g) kNumericPos 0) == inject_Z 5 * pow10 (- (D + 1)))%Q.
Proof.
  intros HD g d. assert (Hg : D + 1 ≤ 4 * g ≤ D + 4) by (unfold g; rewrite Z.quot_div_nonneg by lia; pose proof (Z.div_mod (D + 4) 4); pose proof (Z.mod_pos_bound (D + 4) 4); lia).
  assert (Hd : digit d).
  { unfold d, digit, kNumericBase. replace (4 - (D + 1 - 4 * (g - 1))) with (4 * g - D - 1) by lia.
    assert (H : 4 * g - D - 1 = 0 ∨ 4 * g - D - 1 = 1 ∨ 4 * g - D - 1 = 2 ∨ 4 * g - D - 1 = 3) by lia.
    destruct H as [-> | [-> | [-> | ->]]]; lia. }
  split; [done|]. unfold magnitude, mantissa, lowest, NDigits. cbn [digits weight length]. rewrite i16_digit by done. cbn [undigits foldl].
  replace (0 * kNumericBase + d) with d by lia. unfold d. rewrite inject_Z_mult, <- pow10_int, <- Qmult_assoc, <- pow10_add by lia.
  by replace (4 - (D + 1 - 4 * (g - 1)) + 4 * (- g - Z.of_nat 1 + 1)) with (- (D + 1)) by lia.
Qed.

Lemma half_unit D : (inject_Z 5 * pow10 (- (D + 1)) * pow10 D == 1 # 2)%Q.
Proof. rewrite <- Qmult_assoc, <- pow10_add. replace (- (D + 1) + D) with (-1) by lia. done. Qed.

Lemma round_var_run v D :
  wf_var v → clip D < dscale v →
  wf_var (RoundVar v D) ∧ dscale (RoundVar v D) = clip D ∧ (var_value (RoundVar v D) == inject_Z (Qround (var_value v * pow10 (clip D))) * pow10 (- clip D))%Q.
Proof.
  intros Hv HD. unfold RoundVar. fold (clip D). rewrite (proj2 (Z.leb_gt _ _)) by done. assert (Hc : 0 ≤ clip D) by (unfold clip; destruct (Z.ltb_spec D 0); lia).
  set (k := clip D) in *. destruct (addend_magnitude k Hc) as [Hd Ha]. set (addend := mkVar _ _ _ _) in *.
  assert (Hwa : wf_var addend) by (split; [repeat constructor; rewrite i16_digit by done; apply Hd|by left]).
  assert (Hwv : wf_var (with_sign kNumericPos v)) by (apply with_sign_wf; [done|by left]).
  destruct (add_abs_run _ addend Hwv Hwa Clear) as [H1 H2 H3 H4 H5]. set (sum := with_sign (sign v) _).
  assert (Hws : wf_var sum) by (apply with_sign_wf; [done|apply Hv]).
  assert (Hms : (magnitude sum == magnitude v + inject_Z 5 * pow10 (- (k + 1)))%Q) by (rewrite <- Ha; exact H5).
  assert (Hz : IsZero sum = false).
  { destruct (IsZero sum) eqn:E; [|done]. apply magnitude_zero in E; [|done]. rewrite Hms in E. pose proof (magnitude_nonneg v Hv) as Hn.
    pose proof (pow10_pos (- (k + 1))) as Hp. assert (Hpos : (0 < inject_Z 5 * pow10 (- (k + 1)))%Q) by (apply Qmult_lt_0_compat; done).
    pose proof (Qplus_lt_le_compat _ _ _ _ Hpos Hn) as X. rewrite (Qplus_comm (inject_Z 5 * _)), E in X. by apply Qlt_irrefl in X. }
  rewrite Hz. destruct (trunc_to_scale_run sum k Hws Hc) as [G1 _ G3 G4]. split_and!; [done|done|]. rewrite G4.
  rewrite signed_round by (done || apply Qlt_le_weak, pow10_pos). change (sgn sum) with (sgn v).
  rewrite (Qfloor_comp (magnitude sum * pow10 k) (magnitude v * pow10 k + (1 # 2))); [done|]. rewrite Hms, <- (half_unit k). ring.
Qed.

(** ** Ceiling and floor *)

Lemma magnitude_abs v : wf_var v → (magnitude v == Qabs (var_value v))%Q.
Proof.
  intros Hv. unfold var_value. rewrite Qabs_Qmult, (Qabs_pos (magnitude v)) by (by apply magnitude_nonneg).
  destruct (sgn_cases v Hv) as [[_ ->]|[_ ->]]; change (Qabs (inject_Z _)) with 1%Q; by rewrite Qmult_1_l.
Qed.

Lemma qlt_int a b q : (inject_Z a < q)%Q → (q <= inject_Z b)%Q → a < b.
Proof. intros H1 H2. rewrite Zlt_Qlt. by apply (Qlt_le_trans _ q). Qed.

Lemma qceiling_of_floor q : Qceiling q = if Qle_bool q (inject_Z (Qfloor q)) then Qfloor q else Qfloor q + 1.
Proof.
  pose proof (Qfloor_le q) as H1. pose proof (Qlt_floor q) as H2. pose proof (Qle_ceiling q) as H3. pose proof (Qceiling_lt q) as H4.
  destruct (Qle_bool _ _) eqn:E.
  - apply Qle_bool_iff in E. assert (Heq : (q == inject_Z (Qfloor q))%Q) by (by apply Qle_antisym). rewrite (Qceiling_comp _ _ Heq). apply Qceiling_Z.
  - assert (Hlt : (inject_Z (Qfloor q) < q)%Q) by (apply Qnot_le_lt; intros H; apply Qle_bool_iff in H; congruence).
    pose proof (qlt_int _ _ _ Hlt H3). assert (Qceiling q - 1 < Qfloor q + 1) by (rewrite Zlt_Qlt; by apply (Qlt_trans _ q)). lia.
Qed.

Lemma step_away_run s v :
  wf_var v → 0 < dscale v → s = kNumericPos ∨ s = kNumericNeg →
  wf_var (step_away s v) ∧ dscale (step_away s v) = 0 ∧
  (var_value (step_away s v) == inject_Z (sgn v * (if sign v =? s then Qceiling (magnitude v) else Qfloor (magnitude v))))%Q.
Proof.
  intros Hv Hd Hs. unfold step_away. rewrite (proj2 (Z.ltb_lt _ _)) by done. unfold TruncVar. cbn [Z.ltb Z.compare]. rewrite (proj2 (Z.leb_gt (dscale v) 0)) by done.
  destruct (trunc_to_scale_run v 0 Hv ltac:(lia)) as [T1 T2 T3 T4]. set (t := TruncToScale v 0) in *.
  assert (Hfl : Qfloor (magnitude v * pow10 0) = Qfloor (magnitude v)) by (apply Qfloor_comp, Qmult_1_r). rewrite Hfl in T4. set (N := Qfloor (magnitude v)) in *.
  assert (HN : 0 ≤ N) by (apply (Qfloor_resp_le 0), magnitude_nonneg, Hv).
  assert (Hval : (var_value t == inject_Z (sgn v * N))%Q) by (rewrite T4; apply Qmult_1_r).
  assert (Hmag : (magnitude t == inject_Z N)%Q).
  { rewrite (magnitude_abs t T1), Hval. change (Qabs (inject_Z (sgn v * N))) with (inject_Z (Z.abs (sgn v * N))).
    replace (Z.abs (sgn v * N)) with N; [done|]. destruct (sgn_cases v Hv) as [[_ ->]|[_ ->]]; lia. }
  rewrite compare_abs_run by done. assert (Hcmp : (magnitude v ?= magnitude t)%Q = (magnitude v ?= inject_Z N)%Q) by (by rewrite Hmag).
  rewrite Hcmp, qceiling_of_floor. fold N. pose proof (Qfloor_le (magnitude v)) as Hle. fold N in Hle.
  destruct (Qcompare_spec (magnitude v) (inject_Z N)) as [E|E|E].
  - rewrite (proj2 (Qle_bool_iff _ _)) by (rewrite E; apply Qle_refl). cbn [Z.ltb Z.compare andb]. split_and!; [done|done|].
    change (var_value (with_dscale 0 t)) with (var_value t). rewrite Hval. by destruct (sign v =? s).
  - exfalso. by apply (Qlt_not_le _ _ E).
  - assert (Eb : Qle_bool (magnitude v) (inject_Z N) = false) by (destruct (Qle_bool _ _) eqn:Eb; [|done]; apply Qle_bool_iff in Eb; by apply Qlt_not_le in E).
    rewrite Eb. cbn [Z.ltb Z.compare andb]. destruct (sign v =? s) eqn:Es; to_prop; [|split_and!; [done|done|exact Hval]].
    assert (W1 : wf_var one) by (split; [by repeat constructor|by left]). destruct (add_abs_run t one T1 W1 Clear) as [A1 A2 A3 A4 A5].
    split_and!; [by apply (with_sign_wf s) in A1|done|]. unfold var_value.
    change (sgn (with_dscale 0 (with_sign s (AddAbs t one Clear)))) with (if s =? kNumericNeg then -1 else 1).
    rewrite <- Es. fold (sgn v). rewrite inject_Z_mult. apply Qmult_comp; [done|].
    change (magnitude (with_dscale 0 (with_sign (sign v) (AddAbs t one Clear)))) with (magnitude (AddAbs t one Clear)).
    rewrite A5, Hmag, inject_Z_plus. done.
Qed.

(** ** Division by one digit *)

Lemma short_loop_run divisor ds : ∀ rem,
  0 ≤ rem < divisor → divisor < kNumericBase → Forall digit ds →
  let out := short_loop divisor rem ds in
  length out = length ds ∧ Forall digit out ∧
  undigits kNumericBase out = (rem * kNumericBase ^ Z.of_nat (length ds) + undigits kNumericBase ds) / divisor.
Proof.
  induction ds as [|d ds IH]; intros rem Hr Hd Hds; [cbn; split_and!; [done|done|rewrite Z.div_small; lia]|].
  apply Forall_cons in Hds as [Hdd Hds]. cbn [short_loop]. unfold digit in Hdd. set (cur := rem * kNumericBase + d).
  assert (Hc : 0 ≤ cur) by (unfold cur, kNumericBase; lia). rewrite Z.quot_div_nonneg, Z.rem_mod_nonneg by lia.
  pose proof (Z.div_mod cur divisor ltac:(lia)) as Hdm. pose proof (Z.mod_pos_bound cur divisor ltac:(lia)) as Hm.
  assert (Hq : digit (cur / divisor)).
  { split; [apply Z.div_pos; lia|]. apply Z.div_lt_upper_bound; [lia|]. unfold cur. nia. }
  destruct (IH (cur `mod` divisor) Hm Hd Hds) as (H1 & H2 & H3). rewrite i16_digit by done. cbn [length].
  split_and!; [by rewrite H1|by constructor|]. rewrite undigits_cons, H1, H3, undigits_cons, Nat2Z.inj_succ, Z.pow_succ_r by lia.
  set (P := kNumericBase ^ Z.of_nat (length ds)). set (U := undigits kNumericBase ds).
  replace (rem * (kNumericBase * P) + (d * P + U)) with (cur `div` divisor * P * divisor + (cur `mod` divisor * P + U)).
  - rewrite Z.div_add_l by lia. done.
  - transitivity (cur * P + U); [rewrite Hdm at 3; ring|unfold cur; ring].
Qed.

Definition extra_groups (a b : NumericVar) : Z :=
  let out_dscale := (if dscale b <? dscale a then dscale a else dscale b) + 8 in
  let e := (out_dscale - dscale a + dscale b + 3) ÷ 4 in if e <? 0 then 0 else e.

Lemma extra_nonneg a b : 0 ≤ extra_groups a b.
Proof. unfold extra_groups. cbn zeta. match goal with |- context [?x <? 0] => destruct (Z.ltb_spec x 0); lia end. Qed.

(** The lowest position of the quotient. *)
Definition quotient_pos (a b : NumericVar) : Z := lowest a - extra_groups a b - lowest (StripZeros b).

Lemma strip_sign s v : digits (StripZeros (with_sign s v)) = digits (StripZeros v) ∧ weight (StripZeros (with_sign s v)) = weight (StripZeros v).
Proof. unfold StripZeros. cbn [digits weight with_sign]. destruct (strip_front _ _) as [ds w]. by destruct (rev _). Qed.

Lemma single_digit v : wf_var v → NDigits (StripZeros v) = 1 → ∃ d, digits (StripZeros v) = [d] ∧ 0 < d < kNumericBase ∧ lowest (StripZeros v) = weight (StripZeros v).
Proof.
  intros Hv H1. destruct (strip_shape v) as (n & m & _ & _ & [_ Hh _] & _ & _). destruct (strip_wf v Hv) as [Hd _]. unfold NDigits in H1.
  destruct (digits (StripZeros v)) as [|d [|]] eqn:E; cbn in H1; [lia| |lia]. exists d. split; [done|]. apply Forall_cons in Hd as [[] _].
  specialize (Hh d eq_refl). split; [lia|]. unfold lowest, NDigits. rewrite E. cbn. lia.
Qed.

Lemma strip_front_value ds w s sc :
  (magnitude (mkVar (strip_front ds w).1 (strip_front ds w).2 s sc) == magnitude (mkVar ds w s sc))%Q ∧
  (Forall digit ds → Forall digit (strip_front ds w).1).
Proof.
  destruct (strip_front_spec ds w) as (n & H1 & H2 & _). split.
  - unfold magnitude, mantissa, lowest, NDigits. cbn [digits weight]. rewrite H2. rewrite H1 at 3 4. rewrite undigits_zeros, length_app, length_replicate.
    by replace (w - Z.of_nat (n + length (strip_front ds w).1) + 1) with (w - Z.of_nat n - Z.of_nat (length (strip_front ds w).1) + 1) by lia.
  - intros H. rewrite H1 in H. by apply Forall_app in H as [_ ?].
Qed.

Lemma qtrunc_signed σ m : σ = 1 ∨ σ = -1 → (0 <= m)%Q → Qtrunc (inject_Z σ * m) = σ * Qfloor m.
Proof.
  intros Hs Hm. unfold Qtrunc. destruct Hs as [-> | ->].
  - assert (E : (inject_Z 1 * m == m)%Q) by apply Qmult_1_l. rewrite E, (proj2 (Qle_bool_iff _ _) Hm), (Qfloor_comp _ _ E). lia.
  - assert (E : (inject_Z (-1) * m == - m)%Q) by (change (inject_Z (-1)) with (-1)%Q; ring). rewrite E, (Qfloor_comp _ _ E).
    rewrite (Qfloor_comp (- (inject_Z (-1) * m)) m) by (rewrite E; ring). destruct (Qle_bool 0 (- m)) eqn:Eb; [|lia]. apply Qle_bool_iff in Eb.
    assert (E0 : (m == 0)%Q) by (apply Qle_antisym; [|done]; apply Qopp_le_compat in Eb; rewrite Qopp_involutive in Eb; exact Eb).
    rewrite (Qfloor_comp (- m) 0), (Qfloor_comp m 0); [done|done|by rewrite E0].
Qed.

(** The quotient of the magnitudes, in units of its lowest position. *)
Lemma quotient_floor a b d :
  wf_var a → digits (StripZeros b) = [d] → 0 < d → lowest (StripZeros b) = weight (StripZeros b) →
  Qfloor (magnitude a / magnitude b * pow10 (- (4 * quotient_pos a b))) = mantissa a * kNumericBase ^ extra_groups a b / d.
Proof.
  intros Ha Hb Hd Hlo. pose proof (extra_nonneg a b) as He.
  rewrite Zdiv_Qdiv. apply Qfloor_comp. rewrite <- (strip_magnitude b). unfold magnitude, mantissa at 2. rewrite Hb. cbn [undigits foldl].
  replace (0 * kNumericBase + d) with d by lia. rewrite inject_Z_mult, base_pow10, <- pow10_int by lia. unfold quotient_pos.
  set (P := pow10 (4 * lowest (StripZeros b))). assert (HP : ¬ (P == 0)%Q) by (apply Qnot_eq_sym, Qlt_not_eq, pow10_pos).
  assert (Hdq : ¬ (inject_Z d == 0)%Q) by (intros E; apply (inject_Z_injective d 0) in E; lia).
  assert (E : (pow10 (- (4 * (lowest a - extra_groups a b - lowest (StripZeros b)))) * pow10 (4 * lowest a) == pow10 (4 * extra_groups a b) * P)%Q).
  { unfold P. rewrite <- !pow10_add.
    by replace (- (4 * (lowest a - extra_groups a b - lowest (StripZeros b))) + 4 * lowest a) with (4 * extra_groups a b + 4 * lowest (StripZeros b)) by lia. }
  transitivity (inject_Z (mantissa a) / (inject_Z d * P) * (pow10 (- (4 * (lowest a - extra_groups a b - lowest (StripZeros b)))) * pow10 (4 * lowest a)))%Q;
    [field; by split|]. rewrite E. field. by split.
Qed.

Lemma divisor_nonzero b : wf_var b → NDigits (StripZeros b) = 1 → IsZero b = false ∧ (0 < magnitude b)%Q.
Proof.
  intros Hb H1. destruct (single_digit b Hb H1) as (d & Hbd & Hd & _). assert (Hz : IsZero b = false).
  { destruct (IsZero b) eqn:E; [|done]. apply (magnitude_zero b Hb) in E. rewrite <- strip_magnitude in E. apply magnitude_zero in E; [|by apply strip_wf].
    unfold IsZero in E. rewrite Hbd in E. cbn in E. rewrite andb_true_r in E. to_prop. lia. }
  split; [done|]. destruct (Qle_lt_or_eq _ _ (magnitude_nonneg b Hb)) as [|E]; [done|]. symmetry in E. apply magnitude_zero in E; [congruence|done].
Qed.

Lemma short_quotient a b d s sc :
  wf_var a → digits (StripZeros b) = [d] → 0 < d < kNumericBase → lowest (StripZeros b) = weight (StripZeros b) →
  let q := short_loop d 0 (digits a ++ replicate (Z.to_nat (extra_groups a b)) 0) in
  let sf := strip_front q (weight a - weight (StripZeros b)) in
  Forall digit sf.1 ∧ (magnitude (mkVar sf.1 sf.2 s sc) ==
    inject_Z (Qfloor (magnitude a / magnitude b * pow10 (- (4 * quotient_pos a b)))) * pow10 (4 * quotient_pos a b))%Q.
Proof.
  intros Ha Hbd Hd Hlo q sf. pose proof (extra_nonneg a b) as He. set (ds := digits a ++ replicate (Z.to_nat (extra_groups a b)) 0) in *.
  assert (Hds : Forall digit ds) by (apply Forall_app; split; [apply Ha|by apply Forall_replicate]).
  destruct (short_loop_run d ds 0 ltac:(lia) ltac:(lia) Hds) as (L & D & U). fold q in L, D, U.
  assert (Hu : undigits kNumericBase q = mantissa a * kNumericBase ^ extra_groups a b / d).
  { rewrite U. unfold ds. rewrite undigits_append_zeros, Z2Nat.id by done. by rewrite Z.mul_0_l, Z.add_0_l. }
  rewrite <- (quotient_floor a b d Ha Hbd ltac:(lia) Hlo) in Hu.
  destruct (strip_front_value q (weight a - weight (StripZeros b)) s sc) as [Hmag Hfd]. split; [by apply Hfd|]. unfold sf. rewrite Hmag.
  unfold magnitude at 1, mantissa, lowest, NDigits. cbn [digits weight]. rewrite Hu, L. unfold ds. rewrite length_app, length_replicate. apply Qmult_comp; [done|].
  unfold quotient_pos at 1. rewrite Hlo. unfold lowest, NDigits.
  by replace (weight a - weight (StripZeros b) - Z.of_nat (length (digits a) + Z.to_nat (extra_groups a b)) + 1)
    with (weight a - Z.of_nat (length (digits a)) + 1 - extra_groups a b - weight (StripZeros b)) by lia.
Qed.

Lemma quotient_trunc a b p :
  wf_var a → wf_var b → (0 < magnitude b)%Q → (0 <= p)%Q →
  Qtrunc (var_value a / var_value b * p) = sgn a * sgn b * Qfloor (magnitude a / magnitude b * p).
Proof.
  intros Ha Hb Hmb Hp. rewrite <- qtrunc_signed.
  - apply Qtrunc_proper. unfold var_value. rewrite inject_Z_mult. assert (¬ (magnitude b == 0)%Q) by (by apply Qnot_eq_sym, Qlt_not_eq).
    destruct (sgn_cases a Ha) as [[_ ->]|[_ ->]], (sgn_cases b Hb) as [[_ ->]|[_ ->]]; cbn [inject_Z]; field; done.
  - destruct (sgn_cases a Ha) as [[_ ->]|[_ ->]], (sgn_cases b Hb) as [[_ ->]|[_ ->]]; lia.
  - apply Qmult_le_0_compat; [|done]. apply Qle_shift_div_l; [done|]. rewrite Qmult_0_l. by apply magnitude_nonneg.
Qed.

Lemma div_short_run a b :
  wf_var a → wf_var b → NDigits (StripZeros b) = 1 →
  ∃ r, DivVar a b = Ret r ∧ wf_var r ∧ dscale r = (if dscale b <? dscale a then dscale a else dscale b) + 8 ∧
    (var_value r == inject_Z (Qtrunc (var_value a / var_value b * pow10 (- (4 * quotient_pos a b)))) * pow10 (4 * quotient_pos a b))%Q.
Proof.
  intros Ha Hb H1. destruct (single_digit b Hb H1) as (d & Hbd & Hd & Hlo). destruct (divisor_nonzero b Hb H1) as [Hnz Hmb].
  unfold DivVar. set (osc := (if dscale b <? dscale a then _ else _) + 8). rewrite Hnz.
  assert (Hw0 : wf_var (with_dscale osc Clear)) by (split; [by constructor|by left]).
  rewrite quotient_trunc by (done || apply Qlt_le_weak, pow10_pos). set (σ := sgn a * sgn b). destruct (IsZero a) eqn:Eza.
  { eexists. split_and!; [reflexivity|done|done|]. apply magnitude_zero in Eza; [|done].
    rewrite (Qfloor_comp _ 0) by (rewrite Eza; unfold Qdiv; by rewrite !Qmult_0_l). change (Qfloor 0) with 0. rewrite Z.mul_0_r. by rewrite Qmult_0_l. }
  fold (extra_groups a b). destruct (strip_sign kNumericPos b) as [Sd Sw]. unfold NDigits at 1. rewrite Sd, Sw, Hbd. cbn [length Z.of_nat Pos.of_succ_nat Z.eqb Pos.eqb nth].
  set (s := if sign a =? sign b then kNumericPos else kNumericNeg).
  destruct (short_quotient a b d s osc Ha Hbd Hd Hlo) as [Hfd Hmq]. set (sf := strip_front _ _) in *.
  assert (Hwv : wf_var (mkVar sf.1 sf.2 s osc)) by (split; [done|]; unfold s; destruct (sign a =? sign b); cbn; [by left|by right]).
  assert (Hsv : sgn (mkVar sf.1 sf.2 s osc) = σ).
  { unfold sgn at 1, σ. cbn [sign]. unfold s. destruct (sgn_cases a Ha) as [[-> ->]|[-> ->]], (sgn_cases b Hb) as [[-> ->]|[-> ->]]; done. }
  clearbody sf. destruct sf as [[|x ql] w]; cbn [fst snd] in *.
  - exists (with_dscale osc Clear). split_and!; [done|done|done|]. change (magnitude (mkVar [] w s osc)) with (0 * pow10 (4 * (w - 0 + 1)))%Q in Hmq.
    rewrite inject_Z_mult, <- Qmult_assoc, <- Hmq, Qmult_0_l. by rewrite Qmult_0_r.
  - destruct (finish_run _ Hwv) as (F1 & F2 & F3 & _). eexists. split_and!; [reflexivity|done|done|].
    rewrite F2. unfold var_value. rewrite Hsv, Hmq, inject_Z_mult. ring.
Qed.

(** ** Conversions to and from 64-bit integers *)

Lemma groups_of_run fuel : ∀ uv, 0 ≤ uv < kNumericBase ^ Z.of_nat fuel → lval (groups_of fuel uv) = uv ∧ Forall digit (groups_of fuel uv).
Proof.
  induction fuel as [|fuel IH]; intros uv H; [cbn in *; split; [lia|constructor]|]. cbn [groups_of]. destruct (Z.ltb_spec 0 uv); [|by replace uv with 0 by lia].
  pose proof (Z.div_mod uv kNumericBase ltac:(done)) as Hdm. pose proof (Z.mod_pos_bound uv kNumericBase ltac:(done)) as Hm.
  destruct (IH (uv / kNumericBase)) as [H1 H2].
  { split; [apply Z.div_pos; [lia|done]|]. apply Z.div_lt_upper_bound; [done|]. rewrite <- Z.pow_succ_r, <- Nat2Z.inj_succ by lia. lia. }
  rewrite i16_digit by done. split; [|by constructor]. cbn [lval foldr]. fold (lval (groups_of fuel (uv / kNumericBase))). lia.
Qed.

Lemma int64_var_run val :
  - 2 ^ 63 ≤ val < 2 ^ 63 → ∃ v, Int64ToNumeric val = ToData v ∧ wf_var v ∧ dscale v = 0 ∧ (var_value v == inject_Z val)%Q.
Proof.
  intros Hval. unfold Int64ToNumeric. set (uv := if val <? 0 then _ else _). assert (Huv : uv = Z.abs val).
  { unfold uv. destruct (Z.ltb_spec val 0); [rewrite !u64_small by (rewrite ?u64_small; lia); lia|rewrite u64_small; lia]. }
  rewrite Huv. clear uv Huv. destruct (Z.abs val =? 0) eqn:E; to_prop.
  - exists Clear. split_and!; [done|split; [constructor|by left]|done|]. replace val with 0 by lia. done.
  - destruct (groups_of_run 5 (Z.abs val)) as [H1 H2]; [unfold kNumericBase; cbn; lia|]. eexists. split; [reflexivity|]. split_and!; [|done|].
    + split; [by apply Forall_rev|]. cbn. destruct (val <? 0); [by right|by left].
    + unfold var_value, magnitude, mantissa, lowest, NDigits, sgn. cbn [digits weight sign]. rewrite undigits_rev, H1, length_rev.
      replace (4 * (Z.of_nat (length (groups_of 5 (Z.abs val))) - 1 - Z.of_nat (length (groups_of 5 (Z.abs val))) + 1)) with 0 by lia.
      change (pow10 0) with 1%Q. rewrite Qmult_1_r, <- inject_Z_mult. destruct (Z.ltb_spec val 0); cbn [Z.eqb Pos.eqb kNumericNeg kNumericPos]; by f_equiv; lia.
Qed.

Lemma int64_loop_run v n : ∀ pos r,
  wf_var v → 0 ≤ r → r * kNumericBase ^ Z.of_nat n + psum (DigitAt v) (pos - Z.of_nat n + 1) n < 2 ^ 63 →
  int64_loop v n pos r = r * kNumericBase ^ Z.of_nat n + psum (DigitAt v) (pos - Z.of_nat n + 1) n.
Proof.
  intros pos r Hv. revert pos r. induction n as [|n IH]; intros pos r Hr Hb; [cbn in *; lia|]. cbn [int64_loop].
  replace (S n) with (n + 1)%nat in * by lia. rewrite psum_app in *. replace (pos - Z.of_nat (n + 1) + 1) with (pos - 1 - Z.of_nat n + 1) in * by lia.
  replace (pos - 1 - Z.of_nat n + 1 + Z.of_nat n) with pos in * by lia. cbn [psum] in *. rewrite Z.mul_0_r, Z.add_0_r in *.
  pose proof (digit_at_range v pos Hv) as Hd. unfold digit in Hd.
  assert (Hlow : 0 ≤ psum (DigitAt v) (pos - 1 - Z.of_nat n + 1) n).
  { generalize (pos - 1 - Z.of_nat n + 1). clear -Hv. induction n as [|n IHn]; intros L; [done|]. cbn [psum]. specialize (IHn (L + 1)).
    pose proof (digit_at_range v L Hv). unfold digit, kNumericBase in *. lia. }
  replace (Z.of_nat (n + 1)) with (Z.of_nat n + 1) in * by lia. rewrite Z.pow_add_r, Z.pow_1_r in * by lia.
  set (P := kNumericBase ^ Z.of_nat n) in *. assert (HP : 1 ≤ P) by (unfold P, kNumericBase; lia).
  assert (Hr' : r * kNumericBase + DigitAt v pos < 2 ^ 63) by nia.
  assert (Hi : ∀ z, 0 ≤ z < 2 ^ 63 → i64 z = z) by (intros z Hz; unfold i64; rewrite Z.mod_small; lia).
  rewrite (Hi (r * kNumericBase)), Hi by (unfold kNumericBase in *; lia). rewrite IH; [unfold P; ring|unfold kNumericBase in *; lia|fold P; nia].
Qed.

Lemma int_part_run v : wf_var v → psum (DigitAt v) 0 (Z.to_nat (weight v + 1)) = Qfloor (magnitude v).
Proof.
  intros Hv. assert (HF : Qfloor (magnitude v) = if 0 <=? lowest v then mantissa v * 10 ^ (4 * lowest v) else mantissa v / 10 ^ (- (4 * lowest v))).
  { unfold magnitude. destruct (Z.leb_spec 0 (lowest v)); [by rewrite qfloor_int by lia|]. rewrite <- qfloor_div by lia. by rewrite Z.opp_involutive. }
  rewrite HF. destruct (Z.leb_spec 0 (lowest v)) as [H|H].
  - assert (lowest v ≤ weight v + 1) by (unfold lowest, NDigits; lia). rewrite psum_digits by lia. unfold at_scale. by rewrite Z.sub_0_r, base_pow10 by lia.
  - replace (- (4 * lowest v)) with (4 * - lowest v) by lia. rewrite <- base_pow10 by lia. set (k := Z.to_nat (- lowest v)).
    assert (Hsum : mantissa v = psum (DigitAt v) (lowest v) (k + Z.to_nat (weight v + 1))).
    { rewrite psum_digits by lia. unfold at_scale. rewrite Z.sub_diag. lia. }
    rewrite Hsum, psum_app. replace (lowest v + Z.of_nat k) with 0 by lia. replace (- lowest v) with (Z.of_nat k) by lia.
    assert (Hb : ∀ n L, 0 ≤ psum (DigitAt v) L n < kNumericBase ^ Z.of_nat n).
    { intros n. induction n as [|n IHn]; intros L; [done|]. cbn [psum]. rewrite Nat2Z.inj_succ, Z.pow_succ_r by lia.
      specialize (IHn (L + 1)). pose proof (digit_at_range v L Hv). unfold digit, kNumericBase in *. lia. }
    rewrite Z.mul_comm, Z.div_add, Z.div_small by (apply Hb || (assert (0 < kNumericBase ^ Z.of_nat k) by (unfold kNumericBase; lia); lia)). lia.
Qed.

Lemma to_int64_run n :
  wf_var (FromData n) → (Qabs (value n) < inject_Z (2 ^ 63))%Q → numeric_to_int64 n = Qtrunc (value n).
Proof.
  intros Hv Hb. unfold value in *. unfold numeric_to_int64. set (v := FromData n) in *. rewrite <- magnitude_abs in Hb by done.
  assert (Hfl : 0 ≤ Qfloor (magnitude v) < 2 ^ 63).
  { split; [apply (Qfloor_resp_le 0), magnitude_nonneg, Hv|]. rewrite Zlt_Qlt. apply (Qle_lt_trans _ (magnitude v)); [apply Qfloor_le|done]. }
  assert (Hloop : int64_loop v (Z.to_nat (weight v + 1)) (weight v) 0 = Qfloor (magnitude v)).
  { destruct (Z.le_gt_cases 0 (weight v + 1)) as [H|H].
    - rewrite int64_loop_run; replace (weight v - Z.of_nat (Z.to_nat (weight v + 1)) + 1) with 0 by lia; rewrite ?int_part_run by done; done || lia.
    - rewrite <- int_part_run by done. by replace (Z.to_nat (weight v + 1)) with 0%nat by lia. }
  rewrite Hloop. assert (Ht : Qtrunc (var_value v) = sgn v * Qfloor (magnitude v)).
  { unfold var_value. apply qtrunc_signed; [destruct (sgn_cases v Hv) as [[_ ->]|[_ ->]]; lia|by apply magnitude_nonneg]. }
  rewrite Ht. destruct (sgn_cases v Hv) as [[-> ->]|[-> ->]]; cbn [Z.eqb Pos.eqb kNumericNeg kNumericPos]; [lia|]. unfold i64. rewrite Z.mod_small; lia.
Qed.

(** ** The type *)

(** A well-formed numeric: as many digits as it says, each in range, and a sign. *)
Definition wf_numeric (n : NumericData) : Prop :=
  ndigits n = Z.of_nat (length (n_digits n)) ∧ Forall digit (n_digits n) ∧ (n_sign n = kNumericPos ∨ n_sign n = kNumericNeg).

Lemma from_to v : FromData (ToData v) = v.
Proof. unfold FromData, ToData, NDigits. cbn. rewrite Nat2Z.id, firstn_all. by destruct v. Qed.

Lemma from_wf n : wf_numeric n → wf_var (FromData n).
Proof. intros (H1 & H2 & H3). split; [|done]. cbn. by apply Forall_take. Qed.

Lemma to_wf v : wf_var v → wf_numeric (ToData v).
Proof. intros [H1 H2]. by split_and!. Qed.

Lemma to_from n : wf_numeric n → ToData (FromData n) = n.
Proof.
  intros (H1 & _). destruct n as [k w s d ds]. cbn in *. unfold ToData, FromData, NDigits. cbn. subst k. rewrite Nat2Z.id, firstn_all. done.
Qed.

Lemma value_to v : value (ToData v) = var_value v.
Proof. unfold value. by rewrite from_to. Qed.

Lemma from_digits n : wf_numeric n → digits (FromData n) = n_digits n.
Proof. intros (H1 & _). cbn. rewrite H1, Nat2Z.id. apply firstn_all. Qed.

(** C18: sums, differences and comparisons of numerics are exact.  The result is
    well formed and has the larger display scale; the order is that of the
    values, whatever zero digits the arguments carry. *)
Theorem numeric_sums_exact a b :
  wf_numeric a → wf_numeric b →
  (wf_numeric (numeric_add a b) ∧ (value (numeric_add a b) == value a + value b)%Q ∧ n_dscale (numeric_add a b) = n_dscale a `max` n_dscale b) ∧
  (wf_numeric (numeric_sub a b) ∧ (value (numeric_sub a b) == value a - value b)%Q ∧ n_dscale (numeric_sub a b) = n_dscale a `max` n_dscale b) ∧
  numeric_cmp a b = match (value a ?= value b)%Q with Lt => -1 | Eq => 0 | Gt => 1 end.
Proof.
  intros Ha Hb. apply from_wf in Ha as Wa. apply from_wf in Hb as Wb.
  assert (Hsc : larger_dscale (FromData a) (FromData b) = n_dscale a `max` n_dscale b) by (unfold larger_dscale; cbn; destruct (Z.ltb_spec (n_dscale b) (n_dscale a)); lia).
  assert (Hcov : ∀ v q, wf_var v ∧ (var_value v == q)%Q →
    let r := ToData (EnsureFracCoverage (with_dscale (larger_dscale (FromData a) (FromData b)) v)) in
    wf_numeric r ∧ (value r == q)%Q ∧ n_dscale r = n_dscale a `max` n_dscale b).
  { intros v q [Hv Hq] r. destruct (coverage_run (with_dscale (larger_dscale (FromData a) (FromData b)) v)) as (C1 & C2 & C3); [exact Hv|].
    split_and!; [by apply to_wf|unfold r; rewrite value_to, C2; exact Hq|unfold r; cbn; by rewrite C3]. }
  split; [apply Hcov, add_var_run; done|]. split; [apply Hcov, sub_var_run; done|by apply compare_signed_run].
Qed.

(** C20: products are exact as long as one factor has at most 21 digit groups,
    which is as many as the [int] accumulators hold. *)
Theorem numeric_product_exact a b :
  wf_numeric a → wf_numeric b → Z.of_nat (length (n_digits a) `min` length (n_digits b)) ≤ max_rows →
  wf_numeric (numeric_mul a b) ∧ (value (numeric_mul a b) == value a * value b)%Q.
Proof.
  intros Ha Hb Hmin. unfold numeric_mul. rewrite value_to. destruct (mul_var_run (FromData a) (FromData b)) as (H1 & H2 & _);
    [by apply from_wf|by apply from_wf|by rewrite !from_digits|]. split; [by apply to_wf|done].
Qed.

Lemma beyond_scale n D : wf_numeric n → n_dscale n ≤ clip D → numeric_trunc n D = n ∧ numeric_round n D = n.
Proof.
  intros Hn HD. unfold numeric_trunc, numeric_round, TruncVar, RoundVar. fold (clip D).
  change (dscale (FromData n)) with (n_dscale n). rewrite (proj2 (Z.leb_le _ _) HD). by rewrite to_from.
Qed.

Lemma steps_plain n : wf_numeric n → n_dscale n ≤ 0 → numeric_ceil n = n ∧ numeric_floor n = n.
Proof.
  intros Hn HD. unfold numeric_ceil, numeric_floor, step_away. change (dscale (FromData n)) with (n_dscale n).
  rewrite (proj2 (Z.ltb_ge _ _) HD). by rewrite to_from.
Qed.

Lemma steps_shown n : wf_numeric n → 0 < n_dscale n →
  (value (numeric_ceil n) == inject_Z (Qceiling (value n)))%Q ∧ (value (numeric_floor n) == inject_Z (Qfloor (value n)))%Q.
Proof.
  intros Hn HD. apply from_wf in Hn as Wn. set (v := FromData n) in *. unfold numeric_ceil, numeric_floor. rewrite !value_to. fold v.
  destruct (step_away_run kNumericPos v Wn HD) as (_ & _ & C); [by left|]. destruct (step_away_run kNumericNeg v Wn HD) as (_ & _ & F); [by right|].
  rewrite C, F. clear C F. change (value n) with (var_value v). destruct (sgn_cases v Wn) as [[Hs Hg]|[Hs Hg]]; rewrite Hs, Hg; cbn [Z.eqb Pos.eqb kNumericPos kNumericNeg].
  - rewrite (Qceiling_comp _ _ (value_pos v Wn Hs)), (Qfloor_comp _ _ (value_pos v Wn Hs)). by rewrite !Z.mul_1_l.
  - rewrite (Qceiling_comp _ _ (value_neg v Wn Hs)), (Qfloor_comp _ _ (value_neg v Wn Hs)). unfold Qceiling.
    rewrite (Qfloor_comp (- - magnitude v) (magnitude v)) by ring. split; f_equiv; lia.
Qed.

(** C19: rounding is exact.  To fewer decimals than the display scale,
    [numeric_trunc] goes toward zero and [numeric_round] to the nearest, halves
    away from zero, and the result shows as many decimals as asked for.  To as many
    or more neither changes the value (that [numeric_round] adds no zeros then, as
    numeric.hpp asks it to, is [rounding_pads_no_zeros]).  If the number has no
    decimals that it does not show, [numeric_ceil] and [numeric_floor] are ceiling
    and floor of its value. *)
Theorem numeric_rounding_exact n D :
  wf_numeric n →
  (clip D < n_dscale n →
   (value (numeric_trunc n D) == inject_Z (Qtrunc (value n * pow10 (clip D))) * pow10 (- clip D))%Q ∧ n_dscale (numeric_trunc n D) = clip D ∧
   (value (numeric_round n D) == inject_Z (Qround (value n * pow10 (clip D))) * pow10 (- clip D))%Q ∧ n_dscale (numeric_round n D) = clip D) ∧
  (n_dscale n ≤ clip D → (value (numeric_trunc n D) == value n)%Q ∧ (value (numeric_round n D) == value n)%Q) ∧
  ((n_dscale n ≤ 0 → ∃ k, (value n == inject_Z k)%Q) →
   (value (numeric_ceil n) == inject_Z (Qceiling (value n)))%Q ∧ (value (numeric_floor n) == inject_Z (Qfloor (value n)))%Q).
Proof.
  intros Hn. apply from_wf in Hn as Wn. set (v := FromData n) in *. split_and!.
  - intros HD. destruct (trunc_var_run v D Wn HD) as (_ & T2 & T3), (round_var_run v D Wn HD) as (_ & R2 & R3).
    unfold numeric_trunc, numeric_round. rewrite !value_to. done.
  - intros HD. destruct (beyond_scale n D Hn HD) as [-> ->]. by split.
  - intros Hint. destruct (Z.lt_ge_cases 0 (n_dscale n)) as [HD|HD]; [by apply steps_shown|]. destruct (Hint HD) as (k & Hk).
    destruct (steps_plain n Hn HD) as [-> ->]. by rewrite (Qceiling_comp _ _ Hk), (Qfloor_comp _ _ Hk), Qceiling_Z, Qfloor_Z, Hk.
Qed.

(** Where the header asks for zeros, the number is left as it is. *)
Theorem rounding_pads_no_zeros n D : wf_numeric n → n_dscale n ≤ clip D → numeric_round n D = n.
Proof. intros Hn HD. by apply beyond_scale. Qed.

(** C22: division by zero is an error.  Dividing by a number with one digit
    group gives the exact quotient, truncated toward zero at the lowest digit
    position the code computes. *)
Theorem numeric_short_division a b :
  wf_numeric a → wf_numeric b →
  ((value b == 0)%Q → numeric_div a b = Ereport "division by zero") ∧
  (NDigits (StripZeros (FromData b)) = 1 →
   let u := 4 * quotient_pos (FromData a) (FromData b) in
   ∃ q, numeric_div a b = Ret q ∧ wf_numeric q ∧ n_dscale q = n_dscale a `max` n_dscale b + 8 ∧
     (value q == inject_Z (Qtrunc (value a / value b * pow10 (- u))) * pow10 u)%Q).
Proof.
  intros Ha Hb. apply from_wf in Ha as Wa. apply from_wf in Hb as Wb. split.
  - intros Hz. assert (IsZero (FromData b) = true) as E by (apply magnitude_zero; [done|]; rewrite magnitude_abs by done; fold (value b); by rewrite Hz).
    unfold numeric_div, DivVar. by rewrite E.
  - intros H1 u. destruct (div_short_run _ _ Wa Wb H1) as (r & Hr & Hw & Hsc & Hv). exists (ToData r). unfold numeric_div. rewrite Hr.
    split_and!; [done|by apply to_wf| |by rewrite value_to]. cbn [n_dscale ToData]. rewrite Hsc. cbn. destruct (Z.ltb_spec (n_dscale b) (n_dscale a)); lia.
Qed.

(** Converting a 64-bit integer gives its value, and converting back truncates
    toward zero; both without overflow within the range. *)
Theorem int64_conversions val n :
  - 2 ^ 63 ≤ val < 2 ^ 63 → wf_numeric n → (Qabs (value n) < inject_Z (2 ^ 63))%Q →
  (value (Int64ToNumeric val) == inject_Z val)%Q ∧ numeric_to_int64 n = Qtrunc (value n).
Proof.
  intros Hval Hn Hb. destruct (int64_var_run val Hval) as (v & -> & _ & _ & Hv). split; [by rewrite value_to|]. apply to_int64_run; [by apply from_wf|done].
Qed.

(** 12.3456, -70008 and 7. *)
Definition demo_a : NumericData := mkData 2 0 kNumericPos 4 [12; 3456].
Definition demo_b : NumericData := mkData 2 1 kNumericNeg 0 [7; 8].
Definition demo_c : NumericData := mkData 1 0 kNumericPos 0 [7].

Lemma demo_numerics_wf : wf_numeric demo_a ∧ wf_numeric demo_b ∧ wf_numeric demo_c.
Proof.
  split; [|split]; (split; [done|split; [repeat constructor; by vm_compute|]]); [by left|by right|by left].
Qed.

Lemma numeric_sums_exact_witness :
  (value (numeric_add demo_a demo_b) == value demo_a + value demo_b)%Q ∧ numeric_cmp demo_a demo_b = 1.
Proof.
  destruct (numeric_sums_exact demo_a demo_b (proj1 demo_numerics_wf) (proj1 (proj2 demo_numerics_wf))) as ((_ & H & _) & _ & Hc). split; [exact H|].
  rewrite Hc. vm_compute. reflexivity.
Defined.

Lemma numeric_product_exact_witness : (value (numeric_mul demo_a demo_b) == value demo_a * value demo_b)%Q.
Proof. apply (numeric_product_exact demo_a demo_b (proj1 demo_numerics_wf) (proj1 (proj2 demo_numerics_wf))). vm_compute. discriminate. Defined.

Lemma numeric_rounding_exact_witness :
  (value (numeric_round demo_a 2) == inject_Z (Qround (value demo_a * pow10 2)) * pow10 (-2))%Q ∧ (value (numeric_ceil demo_a) == 13)%Q.
Proof.
  destruct (numeric_rounding_exact demo_a 2 (proj1 demo_numerics_wf)) as (H1 & _ & H3). destruct H1 as (_ & _ & H & _); [reflexivity|].
  split; [exact H|]. destruct H3 as [H3 _]; [intros HD; exact (False_ind _ (HD eq_refl))|]. rewrite H3. vm_compute. reflexivity.
Defined.

Lemma numeric_short_division_witness :
  ∃ q, numeric_div demo_a demo_c = Ret q ∧ (value q == inject_Z (Qtrunc (value demo_a / value demo_c * pow10 12)) * pow10 (-12))%Q.
Proof.
  destruct (numeric_short_division demo_a demo_c (proj1 demo_numerics_wf) (proj2 (proj2 demo_numerics_wf))) as [_ H]. destruct H as (q & Hq & _ & _ & Hv); [reflexivity|].
  exists q. split; [exact Hq|exact Hv].
Defined.

(** ** Where the arithmetic falls short *)

Definition parsed (n : outcome NumericData) : NumericData := match n with Ret n => n | Ereport _ => ToData Clear end.
Definition number (str : string) : NumericData := parsed (numeric_in (Some (chars str))).
Definition shown_quotient (a b : string) : string := of_chars (numeric_out (parsed (numeric_div (number a) (number b)))).

(** Zero digit groups at the end are not stored, but the precision of a
    quotient is reckoned from the stored groups: 10^12 / 7 is off by 2857. *)
Theorem quotient_loses_groups : shown_quotient "1000000000000" "7" = "142857140000.00000000"%string ∧ shown_quotient "1.0" "3" = "0.333333330"%string.
Proof. by vm_compute. Qed.

(** An estimate of a quotient digit that is two too large is lowered twice, but
    then nothing is subtracted and the rest of the quotient is wrong: the
    quotient below is 1.99960009... *)
Theorem long_division_wrong : shown_quotient "99999999" "50009999" = "1.99960000"%string.
Proof. by vm_compute. Qed.

(** Twenty-two groups of nines overflow an accumulator: the bound of the
    product theorem is sharp. *)
Definition nines (n : nat) : NumericData := mkData (Z.of_nat n) (Z.of_nat n - 1) kNumericPos 0 (replicate n 9999).
Theorem product_overflows : wf_numeric (nines 22) ∧ Qeq_bool (value (numeric_mul (nines 22) (nines 22))) (value (nines 22) * value (nines 22)) = false.
Proof. split; [split_and!; [done| |by left]|by vm_compute]. cbn. repeat constructor; by vm_compute. Qed.

(** [numeric_to_float8] scales by the display scale and not by the stored
    groups: 10000 becomes 1. *)
Theorem float8_ignores_weight : numeric_to_float8 (number "10000") = float_of_int 1.
Proof. by vm_compute. Qed.

(** [Float8ToNumeric] prints into 64 bytes: 10^70 loses its last eight digits. *)
Theorem float8_is_cut_off :
  match Float8ToNumeric (Numeric.float_of_int (10 ^ 70)) with
  | Ret n => (value n < inject_Z (10 ^ 63))%Q
  | Ereport _ => False
  end.
Proof. by vm_compute. Qed.

End NumericSpec.
