(* ===== verification/NumericText.v ===== *)
(** * Numerics as text

    [numeric_in] reads the decimal number that its argument spells, and
    [numeric_out] spells a number so that reading it gives the same numeric. *)

From Stdlib Require Import QArith Qround Qpower Qabs Ascii.
From stdpp Require Import base list numbers strings.
From S2P Require Import Prelude CString Numeric NumericSpec.

Module NumericText.
Import CString Numeric NumericSpec.
#[local] Open Scope Z_scope.

(** ** One representation per number *)

Lemma undigits_inj l1 l2 :
  Forall digit l1 → Forall digit l2 → head l1 ≠ Some 0 → head l2 ≠ Some 0 → undigits kNumericBase l1 = undigits kNumericBase l2 → l1 = l2.
Proof.
  assert (Hpos : ∀ d l, Forall digit (d :: l) → d ≠ 0 → 0 < undigits kNumericBase (d :: l)).
  { intros d l Hl Hd. pose proof Hl as Hl'. apply Forall_cons in Hl as [H Hl]. rewrite undigits_cons. pose proof (undigits_bound kNumericBase l eq_refl Hl).
    unfold digit, kNumericBase in *. assert (0 < 10000 ^ Z.of_nat (length l)) by lia. nia. }
  revert l2. induction l1 as [|d1 l1 IH] using rev_ind; intros l2 H1 H2 Hh1 Hh2 E.
  - destruct l2 as [|d l2]; [done|]. pose proof (Hpos d l2 H2 ltac:(cbn in Hh2; congruence)). cbn in *. lia.
  - destruct l2 as [|d2 l2 _] using rev_ind.
    { destruct (l1 ++ [d1]) as [|d l] eqn:El; [done|]. pose proof (Hpos d l H1 ltac:(cbn in Hh1; congruence)). cbn in *. lia. }
    rewrite !undigits_snoc in E. apply Forall_app in H1 as [H1 D1]. apply Forall_app in H2 as [H2 D2].
    apply Forall_cons_1 in D1 as [D1 _], D2 as [D2 _]. unfold digit, kNumericBase in D1, D2, E.
    assert (undigits kNumericBase l1 = undigits kNumericBase l2 ∧ d1 = d2) as [Eu ->] by (unfold kNumericBase; lia).
    f_equal. apply IH; [done|done|..|done].
    + destruct l1; [done|exact Hh1].
    + destruct l2; [done|exact Hh2].
Qed.

Lemma last_digit v d : wf_var v → stripped v → last (digits v) = Some d → mantissa v `mod` kNumericBase ≠ 0.
Proof.
  intros [Hd _] [_ _ Hl] Hlast. pose proof (Hl d Hlast) as Hne. apply last_Some in Hlast as [l El]. unfold mantissa. rewrite El in Hd |- *. rewrite undigits_snoc.
  apply Forall_app in Hd as [_ Hd]. apply Forall_cons_1 in Hd as [Hd _]. rewrite Z.add_comm, Z.mod_add by done. by rewrite Z.mod_small.
Qed.

Lemma nonzero_last v : wf_var v → stripped v → IsZero v = false → ∃ d, last (digits v) = Some d.
Proof. intros _ _ Hz. unfold IsZero in Hz. destruct (last (digits v)) as [d|] eqn:E; [by exists d|]. apply last_None in E. by rewrite E in Hz. Qed.

Lemma same_magnitude u v :
  wf_var u → wf_var v → stripped u → stripped v → IsZero u = false → IsZero v = false → (magnitude u == magnitude v)%Q →
  digits u = digits v ∧ weight u = weight v.
Proof.
  assert (Hle : ∀ u v, wf_var u → wf_var v → stripped u → stripped v → IsZero u = false → (magnitude u == magnitude v)%Q → lowest u ≤ lowest v →
    lowest u = lowest v ∧ mantissa u = mantissa v).
  { intros x y Wx Wy Sx Sy Zx E Hlo. unfold magnitude at 1 in E. rewrite (magnitude_at (lowest x) y Hlo) in E.
    apply Qmult_inj_r in E; [|by apply Qnot_eq_sym, Qlt_not_eq, pow10_pos]. apply (inject_Z_injective (mantissa x)) in E. unfold at_scale in E.
    destruct (decide (lowest x = lowest y)) as [El|Hne]; [rewrite El, Z.sub_diag in E; lia|].
    destruct (nonzero_last x Wx Sx Zx) as [d Hd]. destruct (last_digit x d Wx Sx Hd). rewrite E.
    replace (lowest y - lowest x) with (Z.succ (lowest y - lowest x - 1)) by lia. rewrite Z.pow_succ_r, (Z.mul_comm kNumericBase), Z.mul_assoc by lia.
    apply Z.mod_mul. done. }
  intros Wu Wv Su Sv Zu Zv E. assert (H : lowest u = lowest v ∧ mantissa u = mantissa v).
  { destruct (Z.le_ge_cases (lowest u) (lowest v)); [by apply Hle|]. destruct (Hle v u) as [-> ->]; done. }
  destruct H as [Hlo Hm]. assert (Hd : digits u = digits v).
  { apply undigits_inj; [apply Wu|apply Wv|..|exact Hm]; intros Hh; [by apply (st_head u Su 0)|by apply (st_head v Sv 0)]. }
  split; [done|]. unfold lowest, NDigits in Hlo. rewrite Hd in Hlo. lia.
Qed.

(** A stripped numeric is determined by its value and its display scale. *)
Lemma stripped_unique u v :
  wf_var u → wf_var v → stripped u → stripped v → (var_value u == var_value v)%Q → dscale u = dscale v → u = v.
Proof.
  intros Wu Wv Su Sv E Hsc. assert (Em : (magnitude u == magnitude v)%Q) by (rewrite !magnitude_abs, E; done).
  destruct (IsZero u) eqn:Zu.
  - assert (Zv : IsZero v = true) by (apply magnitude_zero; [done|]; rewrite <- Em; by apply magnitude_zero).
    pose proof (stripped_zero u Su Zu) as Du. pose proof (stripped_zero v Sv Zv) as Dv. destruct (st_empty u Su Du), (st_empty v Sv Dv).
    destruct u, v; cbn in *; congruence.
  - assert (Zv : IsZero v = false).
    { destruct (IsZero v) eqn:Zv; [|done]. apply magnitude_zero in Zv; [|done]. rewrite <- Em in Zv. apply magnitude_zero in Zv; congruence. }
    destruct (same_magnitude u v) as [Hd Hw]; [done..|]. assert (Hs : sign u = sign v).
    { assert (P : ¬ (magnitude v == 0)%Q) by (intros X; apply magnitude_zero in X; [congruence|done]).
      unfold var_value in E. rewrite Em in E. apply Qmult_inj_r in E; [|done]. apply (inject_Z_injective (sgn u)) in E.
      destruct (sgn_cases u Wu) as [[-> Gu]|[-> Gu]], (sgn_cases v Wv) as [[-> Gv]|[-> Gv]]; lia || done. }
    destruct u, v; cbn in *; congruence.
Qed.

(** ** Decimal digits *)

Definition digit_chars (l : list ascii) : Prop := Forall (λ c, is_digit c = true) l.
Definition cval (c : ascii) : Z := Z.of_N (N_of_ascii c) - 48.

Lemma cval_range c : is_digit c = true → 0 ≤ cval c < 10.
Proof. unfold is_digit, char_in, cval. intros [H1 H2]%andb_true_iff. to_prop. lia. Qed.

Lemma zero_digits n : digit_chars (replicate n zero_char).
Proof. by apply Forall_replicate. Qed.

Lemma stoi_app a b : stoi (a ++ b) = stoi a * 10 ^ Z.of_nat (length b) + stoi b.
Proof. unfold stoi. by rewrite fmap_app, undigits_app_shift, length_fmap. Qed.

Lemma stoi_zeros n l : stoi (replicate n zero_char ++ l) = stoi l.
Proof. unfold stoi. rewrite fmap_app, fmap_replicate. apply (undigits_zeros 10). Qed.

Lemma stoi_only_zeros n : stoi (replicate n zero_char) = 0.
Proof. rewrite <- (app_nil_r (replicate n zero_char)), stoi_zeros. done. Qed.

Lemma stoi_bound l : digit_chars l → 0 ≤ stoi l < 10 ^ Z.of_nat (length l).
Proof.
  intros H. unfold stoi. rewrite <- (length_fmap (λ c, Z.of_N (N_of_ascii c) - 48) l). apply undigits_bound; [done|]. apply Forall_fmap.
  eapply Forall_impl; [exact H|]. apply cval_range.
Qed.

Lemma drop_zero_chars_spec l : ∃ n, l = replicate n zero_char ++ drop_zero_chars l ∧ head (drop_zero_chars l) ≠ Some zero_char.
Proof.
  induction l as [|c l (n & H1 & H2)]; [by exists 0%nat|]. cbn [drop_zero_chars]. case_decide as E.
  - subst c. exists (S n). cbn [replicate app]. by rewrite <- H1.
  - exists 0%nat. cbn. split; [done|congruence].
Qed.

Lemma strip_chars_spec l : digit_chars l →
  digit_chars (strip_zero_chars l) ∧ stoi (strip_zero_chars l) = stoi l ∧ (0 < length (strip_zero_chars l))%nat.
Proof.
  intros Hl. unfold strip_zero_chars. destruct (drop_zero_chars_spec l) as (n & E & _). destruct (drop_zero_chars l) as [|c r].
  - rewrite E, app_nil_r, stoi_only_zeros. split_and!; [by repeat constructor|done|cbn; lia].
  - rewrite E in Hl. apply Forall_app in Hl as [_ Hl]. split_and!; [done|by rewrite E, stoi_zeros|cbn; lia].
Qed.

Lemma read_groups_run n : ∀ padded, digit_chars padded → length padded = (4 * n)%nat →
  length (read_groups n padded) = n ∧ Forall digit (read_groups n padded) ∧ undigits kNumericBase (read_groups n padded) = stoi padded.
Proof.
  induction n as [|n IH]; intros padded Hd Hl; [by destruct padded|]. cbn [read_groups].
  assert (Hg : digit (stoi (take 4 padded))).
  { pose proof (stoi_bound (take 4 padded) (Forall_take _ _ _ Hd)) as H. rewrite length_take_le in H by lia. exact H. }
  destruct (IH (drop 4 padded)) as (H1 & H2 & H3); [by apply Forall_drop|rewrite length_drop; lia|]. rewrite i16_digit by done. cbn [length].
  split_and!; [by rewrite H1|by constructor|]. rewrite undigits_cons, H1, H3. rewrite <- (take_drop 4 padded) at 3. rewrite stoi_app, length_drop, Hl.
  rewrite base_pow10 by lia. by replace (Z.of_nat (4 * S n - 4)) with (4 * Z.of_nat n) by lia.
Qed.

Lemma split_frac l : ∀ ip fp, digit_chars l → split_parts l true ip fp = Some (ip, fp ++ l).
Proof.
  induction l as [|c l IH]; intros ip fp Hl; [by rewrite app_nil_r|]. apply Forall_cons in Hl as [Hc Hl]. cbn [split_parts].
  rewrite decide_False by (by intros ->). rewrite Hc, IH by done. by rewrite <- app_assoc.
Qed.

Lemma split_int l rest : ∀ ip, digit_chars l → split_parts (l ++ rest) false ip [] = split_parts rest false (ip ++ l) [].
Proof.
  induction l as [|c l IH]; intros ip Hl; [by rewrite app_nil_r|]. apply Forall_cons in Hl as [Hc Hl]. cbn [app split_parts].
  rewrite decide_False by (by intros ->). rewrite Hc, IH by done. by rewrite <- app_assoc.
Qed.

(** ** Reading *)

Lemma pad_frac_spec F : digit_chars F → ∃ k, digit_chars (pad_frac F) ∧ stoi (pad_frac F) = stoi F * 10 ^ k ∧
  Z.of_nat (length (pad_frac F)) = Z.of_nat (length F) + k ∧ 0 ≤ k ∧ (4 | Z.of_nat (length (pad_frac F))) ∧
  (∀ I, stoi (I ++ pad_frac F) = stoi (I ++ F) * 10 ^ k).
Proof.
  intros HF. unfold pad_frac. set (k := ((4 - length F `mod` 4) `mod` 4)%nat). exists (Z.of_nat k).
  assert (Hall : ∀ I, stoi (I ++ F ++ replicate k zero_char) = stoi (I ++ F) * 10 ^ Z.of_nat k).
  { intros I. rewrite app_assoc, stoi_app, stoi_only_zeros, length_replicate. lia. }
  split_and!; [apply Forall_app; split; [done|apply zero_digits]|exact (Hall [])|rewrite length_app, length_replicate; lia|lia| |exact Hall].
  rewrite length_app, length_replicate. pose proof (Nat.div_mod (length F) 4 ltac:(done)) as Hdm. pose proof (Nat.mod_upper_bound (length F) 4 ltac:(done)).
  exists (Z.of_nat ((length F + k) / 4)). assert (Hk : ((length F + k) = 4 * ((length F + k) / 4))%nat); [|lia]. unfold k.
  set (q := (length F / 4)%nat) in *. destruct (length F `mod` 4)%nat as [|[|[|[|r]]]]; cbn [Nat.sub Nat.modulo Nat.divmod fst snd]; rewrite Hdm; [..|lia].
  - replace (4 * q + 0 + 0)%nat with (q * 4)%nat by lia. rewrite Nat.div_mul; lia.
  - replace (4 * q + 1 + 3)%nat with ((q + 1) * 4)%nat by lia. rewrite Nat.div_mul; lia.
  - replace (4 * q + 2 + 2)%nat with ((q + 1) * 4)%nat by lia. rewrite Nat.div_mul; lia.
  - replace (4 * q + 3 + 1)%nat with ((q + 1) * 4)%nat by lia. rewrite Nat.div_mul; lia.
Qed.

(** The groups [numeric_in] reads from the digits [I] and [F]. *)
Section groups.
Context (I F : list ascii) (HI : digit_chars I) (HF : digit_chars F).
Let frac := pad_frac F.
Let all := strip_zero_chars (strip_zero_chars I ++ frac).
Let int_decimals := Z.of_nat (length all) - Z.of_nat (length frac).
Let int_groups := (int_decimals + 3) ÷ 4.
Let total_groups := int_groups + Z.of_nat (length frac) ÷ 4.
Let leading_pad := if int_groups * 4 - int_decimals <? 0 then 0 else int_groups * 4 - int_decimals.
Let padded := replicate (Z.to_nat leading_pad) zero_char ++ all.

Lemma group_count : length padded = (4 * Z.to_nat total_groups)%nat ∧ 0 ≤ total_groups ∧ 4 * (int_groups - total_groups) = - Z.of_nat (length frac).
Proof using HF HI.
  destruct (pad_frac_spec F HF) as (k & Hd & _ & _ & _ & [f Hf] & _). fold frac in Hf, Hd.
  destruct (strip_chars_spec I HI) as (HI' & _ & _). destruct (strip_chars_spec (strip_zero_chars I ++ frac)) as (_ & _ & Hall); [by apply Forall_app|].
  fold all in Hall. unfold padded, leading_pad, total_groups. rewrite length_app, length_replicate. rewrite Hf, Z.quot_mul by done.
  assert (Hig : 0 ≤ int_groups * 4 - int_decimals).
  { unfold int_groups. pose proof (Z.quot_rem (int_decimals + 3) 4 ltac:(done)) as Hq. pose proof (Z.rem_bound_abs (int_decimals + 3) 4 ltac:(done)). lia. }
  rewrite (proj2 (Z.ltb_ge _ 0)) by done. assert (int_groups * 4 - int_decimals + Z.of_nat (length all) = 4 * (int_groups + f)) by (unfold int_decimals; lia). lia.
Qed.

Lemma groups_value neg :
  let v := mkVar (read_groups (Z.to_nat total_groups) padded) (int_groups - 1) (if (neg : bool) then kNumericNeg else kNumericPos) (Z.of_nat (length F)) in
  wf_var v ∧ (magnitude v == inject_Z (stoi (I ++ F)) * pow10 (- Z.of_nat (length F)))%Q.
Proof using HF HI.
  intros v. destruct group_count as (Hlen & H0 & Hpos). destruct (pad_frac_spec F HF) as (k & Hfd & _ & Hfl & Hk & _ & Hst). fold frac in Hfl, Hst, Hfd.
  destruct (strip_chars_spec I HI) as (HI' & HsI & _). destruct (strip_chars_spec (strip_zero_chars I ++ frac)) as (Hal & Hsa & _); [by apply Forall_app|].
  fold all in Hal, Hsa. destruct (read_groups_run (Z.to_nat total_groups) padded) as (R1 & R2 & R3); [apply Forall_app; split; [apply zero_digits|done]|done|].
  split; [split; [done|]; destruct neg; cbn; [by right|by left]|]. unfold magnitude, mantissa, v. cbn [digits]. rewrite R3.
  assert (Hp : stoi padded = stoi (I ++ F) * 10 ^ k) by (unfold padded; by rewrite stoi_zeros, Hsa, stoi_app, HsI, <- stoi_app, Hst). rewrite Hp. unfold lowest, NDigits. cbn [digits weight]. rewrite R1.
  replace (4 * (int_groups - 1 - Z.of_nat (Z.to_nat total_groups) + 1)) with (- Z.of_nat (length frac)) by lia.
  rewrite inject_Z_mult, <- pow10_int, <- Qmult_assoc, <- pow10_add by lia. by replace (k + - Z.of_nat (length frac)) with (- Z.of_nat (length F)) by lia.
Qed.
End groups.

(** Reading a sign, digits and, behind a point, more digits. *)
Definition spelled (neg : bool) (I F : list ascii) (dot : bool) : list ascii :=
  (if neg then ["-"%char] else []) ++ I ++ (if dot then "."%char :: F else []).

Lemma numeric_in_run neg I F dot :
  digit_chars I → digit_chars F → I ++ F ≠ [] → (dot = false → F = []) →
  ∃ r, numeric_in (Some (spelled neg I F dot)) = Ret (ToData r) ∧ wf_var r ∧ stripped r ∧ dscale r = Z.of_nat (length F) ∧
    (var_value r == inject_Z ((if neg then -1 else 1) * stoi (I ++ F)) * pow10 (- Z.of_nat (length F)))%Q.
Proof.
  intros HI HF Hne Hdot. destruct (groups_value I F HI HF neg) as [Hw Hm]. destruct (finish_run _ Hw) as (F1 & F2 & F3 & F4). cbn zeta in F1, F2, F3, F4.
  eexists. split; [|split; [exact F1|split; [exact F4|split; [exact F3|]]]].
  - assert (Hsplit : split_parts (I ++ (if dot then "."%char :: F else [])) false [] [] = Some (I, F)).
    { rewrite split_int by done. destruct dot; cbn [split_parts app]; [|by rewrite Hdot]. rewrite decide_True by done. by rewrite split_frac. }
    assert (Hhead : ∀ c l, I ++ (if dot then "."%char :: F else []) = c :: l → c ≠ "+"%char ∧ c ≠ "-"%char).
    { intros c l E. destruct I as [|x I']; cbn in E.
      - destruct dot; [injection E as <- _; done|done].
      - injection E as <- _. apply Forall_cons in HI as [Hc _]. split; intros ->; done. }
    unfold numeric_in, spelled. destruct neg.
    + cbn [app]. rewrite decide_False, decide_True by done. rewrite Hsplit. destruct I, F; done.
    + cbn [app]. destruct (I ++ (if dot then "."%char :: F else [])) as [|c l] eqn:E.
      { apply app_nil in E as [-> E]. destruct dot; [done|]. by rewrite Hdot in Hne. }
      destruct (Hhead c l eq_refl). rewrite !decide_False by done. rewrite Hsplit. destruct I, F; done.
  - rewrite F2. unfold var_value, sgn. cbn [sign]. rewrite Hm, inject_Z_mult. destruct neg; cbn [Z.eqb Pos.eqb kNumericNeg kNumericPos]; ring.
Qed.

(** ** Writing *)

Lemma digits_length b fuel z acc k :
  2 ≤ b → 0 ≤ z < b ^ Z.of_nat k → (1 ≤ k)%nat → (length (Prelude.digits b fuel z acc) ≤ k + length acc)%nat.
Proof.
  intros Hb. revert z acc k. induction fuel as [|fuel IH]; intros z acc k Hz Hk; cbn [Prelude.digits]; [lia|].
  destruct (z / b =? 0) eqn:E; to_prop; [cbn; lia|]. pose proof (Z.div_mod z b ltac:(lia)) as Hdm. pose proof (Z.mod_pos_bound z b ltac:(lia)).
  assert (0 ≤ z / b) by (apply Z.div_pos; lia). destruct k as [|[|k]]; [lia|cbn in Hz; rewrite Z.div_small in E; lia|].
  assert (Hlt : z / b < b ^ Z.of_nat (S k)) by (apply Z.div_lt_upper_bound; [lia|]; rewrite <- Z.pow_succ_r, <- Nat2Z.inj_succ by lia; lia).
  specialize (IH (z / b) (z `mod` b :: acc) (S k)). cbn [length] in IH. lia.
Qed.

Lemma cval_digit_char d : 0 ≤ d < 10 → cval (digit_char d) = d ∧ is_digit (digit_char d) = true.
Proof.
  intros H. assert (Hall : ∀ n, (n < 10)%nat → cval (digit_char (Z.of_nat n)) = Z.of_nat n ∧ is_digit (digit_char (Z.of_nat n)) = true).
  { intros n Hn. do 10 (destruct n as [|n]; [done|]). lia. }
  specialize (Hall (Z.to_nat d) ltac:(lia)). by rewrite Z2Nat.id in Hall by lia.
Qed.

Lemma stoi_digits ds : Forall (λ d, 0 ≤ d < 10) ds → stoi (map digit_char ds) = undigits 10 ds ∧ digit_chars (map digit_char ds).
Proof.
  intros H. assert (E : (λ c, Z.of_N (N_of_ascii c) - 48) <$> map digit_char ds = ds).
  { induction H as [|d ds Hd _ IH]; [done|]. cbn. f_equal; [by apply cval_digit_char|exact IH]. }
  split; [unfold stoi; by rewrite E|]. apply Forall_fmap. eapply Forall_impl; [exact H|]. intros d Hd. by apply cval_digit_char.
Qed.

Lemma print_group_run d : digit d → length (print_group d) = 4%nat ∧ digit_chars (print_group d) ∧ stoi (print_group d) = d.
Proof.
  intros [H1 H2]. unfold print_group. rewrite (proj2 (Z.ltb_ge d 0)) by done. unfold print_padded. set (ds := Prelude.digits 10 5 d []).
  assert (Hl : (length ds ≤ 4)%nat) by (pose proof (digits_length 10 5 d [] 4); cbn [length] in *; unfold ds, kNumericBase in *; lia).
  assert (Hd : Forall (λ x, 0 ≤ x < 10) (replicate (4 - length ds) 0 ++ ds)).
  { apply Forall_app. split; [by apply Forall_replicate|]. apply digits_range; [lia|constructor]. }
  destruct (stoi_digits _ Hd) as [Hs Hc]. split_and!; [|done|].
  - rewrite length_map, length_app, length_replicate. lia.
  - rewrite Hs. apply undigits_printed; [lia|unfold kNumericBase in *; cbn; lia|lia].
Qed.

Lemma print_groups_run v ig n : wf_var v →
  length (print_groups v ig (Z.of_nat n)) = (4 * n)%nat ∧ digit_chars (print_groups v ig (Z.of_nat n)) ∧
  stoi (print_groups v ig (Z.of_nat n)) = psum (DigitAt v) (ig - Z.of_nat n) n.
Proof.
  intros Hv. unfold print_groups. induction n as [|n (H1 & H2 & H3)]; [split_and!; [done|constructor|done]|].
  replace (Z.of_nat (S n)) with (Z.of_nat n + 1) by lia. rewrite seqZ_app by lia. rewrite Z.add_0_l, fmap_app, concat_app.
  assert (E1 : seqZ (Z.of_nat n) 1 = [Z.of_nat n]) by (rewrite seqZ_cons, seqZ_nil by lia; done). rewrite E1. cbn [fmap list_fmap concat]. rewrite app_nil_r.
  destruct (print_group_run (DigitAt v (ig - 1 - Z.of_nat n))) as (G1 & G2 & G3); [by apply digit_at_range|].
  rewrite stoi_app, length_app, H1, H3, G1, G3. cbn [psum]. split_and!; [lia|by apply Forall_app|].
  replace (ig - (Z.of_nat n + 1)) with (ig - 1 - Z.of_nat n) by lia. replace (ig - 1 - Z.of_nat n + 1) with (ig - Z.of_nat n) by lia.
  unfold kNumericBase. change (10 ^ Z.of_nat 4) with 10000. lia.
Qed.

(** A decimal number with as many digits behind the point as its display scale. *)
Definition fits (v : NumericVar) : Prop := 0 ≤ dscale v ∧ ∃ N : Z, (magnitude v == inject_Z N * pow10 (- dscale v))%Q.

Lemma fits_lowest v N :
  wf_var v → stripped v → IsZero v = false → 0 ≤ dscale v → (magnitude v == inject_Z N * pow10 (- dscale v))%Q →
  let fg := (dscale v + 3) / 4 in - fg ≤ lowest v ∧ at_scale (- fg) v = N * 10 ^ (4 * fg - dscale v) ∧ 0 < N.
Proof.
  intros Hv Hs Hz Hd E fg. pose proof (groups_bound (dscale v) Hd) as Hg. fold fg in Hg. set (u := 4 * lowest v + dscale v).
  assert (HN : (inject_Z N == inject_Z (mantissa v) * pow10 u)%Q).
  { unfold u. rewrite pow10_add, Qmult_assoc. fold (magnitude v). rewrite E, <- Qmult_assoc, <- pow10_add. replace (- dscale v + dscale v) with 0 by lia. by rewrite Qmult_1_r. }
  assert (Hlo : - fg ≤ lowest v).
  { destruct (Z.le_gt_cases (- fg) (lowest v)) as [|Hlt]; [done|]. exfalso. destruct (nonzero_last v Hv Hs Hz) as [d Hl]. apply (last_digit v d Hv Hs Hl).
    assert (Hu : 4 ≤ - u) by (unfold u; lia). assert (HM : mantissa v = N * 10 ^ (- u)).
    { apply inject_Z_injective. rewrite inject_Z_mult, <- pow10_int by lia. rewrite HN, <- Qmult_assoc, pow10_inv. by rewrite Qmult_1_r. }
    rewrite HM. replace (- u) with (- u - 4 + 4) by lia. rewrite Z.pow_add_r, Z.mul_assoc by lia. apply Z.mod_mul. done. }
  assert (Hat : at_scale (- fg) v = N * 10 ^ (4 * fg - dscale v)).
  { apply inject_Z_injective. rewrite inject_Z_mult, <- pow10_int by lia. rewrite (magnitude_at (- fg) v Hlo) in E.
    apply (Qmult_inj_r _ _ (pow10 (4 * - fg))); [by apply Qnot_eq_sym, Qlt_not_eq, pow10_pos|]. rewrite E, <- Qmult_assoc, <- pow10_add.
    by replace (4 * fg - dscale v + 4 * - fg) with (- dscale v) by lia. }
  split_and!; [done|done|]. assert (0 < at_scale (- fg) v).
  { unfold at_scale. assert (mantissa v ≠ 0) by (intros X; apply zero_mantissa in X; [congruence|done]). pose proof (mantissa_nonneg v Hv).
    assert (0 < kNumericBase ^ (lowest v - - fg)) by (apply Z.pow_pos_nonneg; [done|lia]). nia. }
  assert (0 < 10 ^ (4 * fg - dscale v)) by (apply Z.pow_pos_nonneg; lia). nia.
Qed.

(** Leading zeros of the integer part are dropped, but one digit stays. *)
Lemma trim_run S int_digits d :
  digit_chars S → length S = (int_digits + d)%nat → stoi S ≠ 0 →
  let lnz := (length S - length (drop_zero_chars S))%nat in
  ∃ I F,
    (if decide (drop_zero_chars S = []) then ([zero_char], int_digits)
     else if (0 <? lnz)%nat && (lnz <? int_digits)%nat then (drop lnz S, (int_digits - lnz)%nat)
     else if (int_digits <=? lnz)%nat then (zero_char :: drop int_digits S, 1%nat)
     else (S, int_digits)) = (I ++ F, length I) ∧
    digit_chars I ∧ digit_chars F ∧ I ≠ [] ∧ length F = d ∧ stoi (I ++ F) = stoi S.
Proof.
  intros HS Hlen Hne lnz. destruct (drop_zero_chars_spec S) as (k & Hk & _). assert (Hlnz : lnz = k).
  { unfold lnz. rewrite Hk at 1. rewrite length_app, length_replicate. lia. }
  rewrite decide_False by (intros E; rewrite E, app_nil_r in Hk; rewrite Hk in Hne; by rewrite stoi_only_zeros in Hne).
  rewrite Hlnz. clear lnz Hlnz.
  assert (Hdrop : ∀ j, (j ≤ k)%nat → stoi (drop j S) = stoi S).
  { intros j Hj. rewrite Hk at 1. replace k with (j + (k - j))%nat by lia. rewrite replicate_add, <- app_assoc.
    rewrite drop_app_length' by (by rewrite length_replicate). rewrite Hk at 2. by rewrite !stoi_zeros. }
  pose proof (Forall_take _ int_digits _ HS) as Ht. pose proof (Forall_drop _ int_digits _ HS) as Hd.
  destruct ((0 <? k)%nat && (k <? int_digits)%nat) eqn:E1.
  - apply andb_true_iff in E1 as [E1%Nat.ltb_lt E2%Nat.ltb_lt]. exists (drop k (take int_digits S)), (drop int_digits S).
    assert (Hsp : drop k S = drop k (take int_digits S) ++ drop int_digits S).
    { rewrite <- (take_drop int_digits S) at 1. apply drop_app_le. rewrite length_take. lia. }
    rewrite <- Hsp. split_and!; [f_equal; rewrite length_drop, length_take; lia|by apply Forall_drop|done| |rewrite length_drop; lia|by apply Hdrop].
    intros X. apply (f_equal length) in X. rewrite length_drop, length_take in X. cbn in X. lia.
  - destruct (Nat.leb_spec int_digits k) as [E2|E2].
    + exists [zero_char], (drop int_digits S). split_and!; [done|by repeat constructor|done|done|rewrite length_drop; lia|].
      change ([zero_char] ++ drop int_digits S) with (replicate 1 zero_char ++ drop int_digits S). rewrite stoi_zeros. by apply Hdrop.
    + exists (take int_digits S), (drop int_digits S). rewrite take_drop. split_and!; [f_equal; rewrite length_take; lia|done|done| |rewrite length_drop; lia|done].
      intros X. apply (f_equal length) in X. rewrite length_take in X. cbn in X. lia.
Qed.

(** The digits of [N], with [d] of them behind the point. *)
Lemma out_digits v N :
  wf_var v → stripped v → IsZero v = false → 0 ≤ dscale v → (magnitude v == inject_Z N * pow10 (- dscale v))%Q →
  let ig := if weight v + 1 <? 0 then 0 else weight v + 1 in
  let fg := if 0 <? dscale v then (dscale v + 3) ÷ 4 else 0 in
  let s := take (Z.to_nat (ig * 4 + dscale v)) (print_groups v ig (ig + fg)) in
  0 ≤ ig ∧ dscale v ≤ 4 * fg ∧ length (print_groups v ig (ig + fg)) = Z.to_nat (4 * (ig + fg)) ∧
  digit_chars s ∧ length s = (Z.to_nat (ig * 4) + Z.to_nat (dscale v))%nat ∧ stoi s = N ∧ 0 < N.
Proof.
  intros Hv Hs Hz Hd E ig fg s. destruct (fits_lowest v N Hv Hs Hz Hd E) as (Hlo & Hat & HN). pose proof (groups_bound (dscale v) Hd) as Hg.
  assert (Hfg : fg = (dscale v + 3) / 4).
  { unfold fg. destruct (Z.ltb_spec 0 (dscale v)); [apply Z.quot_div_nonneg; lia|]. replace (dscale v) with 0 by lia. done. }
  rewrite <- Hfg in *. assert (Hig : 0 ≤ ig ∧ weight v < ig) by (unfold ig; destruct (Z.ltb_spec (weight v + 1) 0); lia).
  assert (H0 : 0 ≤ fg) by lia. set (n := Z.to_nat (ig + fg)).
  destruct (print_groups_run v ig n Hv) as (P1 & P2 & P3). replace (Z.of_nat n) with (ig + fg) in * by lia.
  replace (ig - (ig + fg)) with (- fg) in P3 by lia. rewrite psum_digits, Hat in P3 by lia.
  set (S := print_groups v ig (ig + fg)) in *. set (k := Z.to_nat (ig * 4 + dscale v)) in *.
  assert (Hls : length s = (Z.to_nat (ig * 4) + Z.to_nat (dscale v))%nat) by (unfold s; rewrite length_take; lia).
  split_and!; [lia|lia|lia|by apply Forall_take|done| |done].
  pose proof (stoi_app (take k S) (drop k S)) as Hst. rewrite take_drop, P3, length_drop, P1 in Hst. fold s in Hst.
  pose proof (stoi_bound (drop k S) (Forall_drop _ _ _ P2)) as Hb. rewrite length_drop, P1 in Hb.
  replace (Z.of_nat (4 * n - k)) with (4 * fg - dscale v) in * by lia. assert (0 < 10 ^ (4 * fg - dscale v)) by (apply Z.pow_pos_nonneg; lia). nia.
Qed.

Lemma numeric_out_run n N :
  let v := FromData n in
  wf_var v → stripped v → 0 ≤ dscale v → (magnitude v == inject_Z N * pow10 (- dscale v))%Q →
  ∃ I F, numeric_out n = spelled (sign v =? kNumericNeg) I F (0 <? dscale v) ∧ digit_chars I ∧ digit_chars F ∧ I ≠ [] ∧
    Z.of_nat (length F) = dscale v ∧ stoi (I ++ F) = N.
Proof.
  intros v Hv Hs Hd E. unfold numeric_out. fold v. destruct (IsZero v) eqn:Hz.
  - assert (N = 0) as ->.
    { apply magnitude_zero in Hz; [|done]. rewrite E in Hz. apply Qmult_integral in Hz as [Hz|Hz]; [by apply (inject_Z_injective N 0)|].
      pose proof (pow10_pos (- dscale v)) as Hp. rewrite Hz in Hp. done. }
    destruct (st_empty v Hs (stripped_zero v Hs Hz)) as [_ ->]. exists [zero_char], (replicate (Z.to_nat (dscale v)) zero_char).
    assert (Hst : stoi ([zero_char] ++ replicate (Z.to_nat (dscale v)) zero_char) = 0) by (change ([zero_char] ++ replicate ?m zero_char) with (replicate (S m) zero_char); apply stoi_only_zeros).
    split_and!; [|by repeat constructor|apply zero_digits|done|rewrite length_replicate; lia|done].
    unfold spelled. destruct (Z.leb_spec (dscale v) 0); [rewrite (proj2 (Z.ltb_ge 0 _)) by lia|rewrite (proj2 (Z.ltb_lt 0 _)) by lia]; done.
  - destruct (out_digits v N Hv Hs Hz Hd E) as (Hig & Hfg & HlS & HsD & Hls & Hst & HN). set (ig := if weight v + 1 <? 0 then 0 else weight v + 1) in *.
    set (fg := if 0 <? dscale v then _ else 0) in *. set (S := print_groups v ig (ig + fg)) in *. set (s := take _ S) in *.
    rewrite HlS. set (frac_digits := Z.of_nat (Z.to_nat (4 * (ig + fg))) - Z.of_nat (Z.to_nat (ig * 4))). assert (Hfd : frac_digits = 4 * fg) by lia.
    rewrite Hfd. clear frac_digits Hfd.
    assert (Hcut : (if dscale v <? 4 * fg then (take (Z.to_nat (Z.of_nat (Z.to_nat (ig * 4)) + dscale v)) S, dscale v) else (S, 4 * fg)) = (s, dscale v)).
    { rewrite Z2Nat.id by lia. destruct (Z.ltb_spec (dscale v) (4 * fg)); [done|]. assert (dscale v = 4 * fg) as -> by lia.
      f_equal. symmetry. unfold s. apply take_ge. lia. }
    rewrite Hcut, Z.ltb_irrefl. destruct (trim_run s (Z.to_nat (ig * 4)) (Z.to_nat (dscale v)) HsD Hls ltac:(lia)) as (I & F & Htrim & HI & HF & Hne & HlF & HsIF).
    rewrite Htrim. exists I, F. split_and!; [|done|done|done|lia|by rewrite HsIF].
    unfold spelled. destruct (Z.ltb_spec 0 (dscale v)) as [Hpos|Hpos].
    + rewrite length_app, HlF. replace (length I + Z.to_nat (dscale v) - (length I + Z.to_nat (dscale v)))%nat with 0%nat by lia.
      cbn [replicate]. rewrite app_nil_r, take_app_length, drop_app_length, take_ge by lia. done.
    + destruct F; [done|cbn [length] in HlF; lia].
Qed.

(** ** Round trip *)

(** C21: a numeric survives its text form.  Writing a stripped numeric whose
    digits end at its display scale and reading the text gives the same digits,
    weight, sign and scale; and reading any decimal text gives a well-formed
    numeric of exactly that value and scale. *)
Theorem numeric_text_roundtrip n N :
  wf_numeric n → stripped (FromData n) → 0 ≤ n_dscale n → (value n == inject_Z N * pow10 (- n_dscale n))%Q →
  numeric_in (Some (numeric_out n)) = Ret n ∧
  ∀ neg I F dot, digit_chars I → digit_chars F → I ++ F ≠ [] → (dot = false → F = []) →
    ∃ r, numeric_in (Some (spelled neg I F dot)) = Ret r ∧ wf_numeric r ∧ n_dscale r = Z.of_nat (length F) ∧
      (value r == inject_Z ((if neg then -1 else 1) * stoi (I ++ F)) * pow10 (- Z.of_nat (length F)))%Q.
Proof.
  intros Hn Hs Hd E. split.
  - apply from_wf in Hn as Wn. set (v := FromData n) in *. assert (Em : (magnitude v == inject_Z (Z.abs N) * pow10 (- dscale v))%Q).
    { rewrite magnitude_abs by done. change (var_value v) with (value n). rewrite E, Qabs_Qmult, (Qabs_pos (pow10 _)) by (apply Qlt_le_weak, pow10_pos). done. }
    destruct (numeric_out_run n (Z.abs N) Wn Hs Hd Em) as (I & F & -> & HI & HF & Hne & HlF & Hst).
    destruct (numeric_in_run (sign v =? kNumericNeg) I F (0 <? dscale v)) as (r & Hr & Wr & Sr & Dr & Vr); [done|done|by destruct I| |].
    { intros Hz. apply Z.ltb_ge in Hz. destruct F; [done|cbn [length] in HlF; fold v in HlF; lia]. }
    fold v. rewrite Hr. f_equal. rewrite <- (to_from n Hn). f_equal. apply stripped_unique; [done..| |by rewrite Dr].
    rewrite Vr, Hst, HlF. unfold var_value. fold v. rewrite Em, inject_Z_mult, Qmult_assoc. done.
  - intros neg I F dot HI HF Hne Hdot. destruct (numeric_in_run neg I F dot HI HF Hne Hdot) as (r & Hr & Wr & _ & Dr & Vr).
    exists (ToData r). split_and!; [done|by apply to_wf|done|by rewrite value_to].
Qed.

(** -1234567.0089 with five decimals. *)
Definition demo_short : NumericData := mkData 3 1 kNumericNeg 5 [123; 4567; 89].

Lemma demo_short_ok : wf_numeric demo_short ∧ stripped (FromData demo_short).
Proof.
  split; [split_and!; [done|repeat constructor; by vm_compute|by right]|split; cbn; [done|intros d [= <-]; done|intros d [= <-]; done]].
Qed.

Lemma numeric_text_roundtrip_witness : numeric_in (Some (numeric_out demo_short)) = Ret demo_short.
Proof.
  destruct demo_short_ok as [Hw Hs]. destruct (numeric_text_roundtrip demo_short (-123456700890) Hw Hs) as [H _].
  - discriminate.
  - vm_compute. reflexivity.
  - exact H.
Defined.

End NumericText.
