(* ===== verification/NumericType.v ===== *)
(** * The numeric type is sound

    Every operation of the numeric type returns a well-formed numeric, also
    long division, whose quotient digits stay in range whether or not they are
    the right ones. *)

From Stdlib Require Import QArith Ascii.
From stdpp Require Import base list numbers strings.
From S2P Require Import Prelude CString Numeric NumericSpec NumericText.

Module NumericType.
Import CString Numeric NumericSpec NumericText.
#[local] Open Scope Z_scope.

(** ** Long division *)

Lemma scale_digits_range norm ds :
  1 ≤ norm → Forall digit ds →
  Forall digit (scale_digits norm ds).1 ∧ length (scale_digits norm ds).1 = length ds ∧ 0 ≤ (scale_digits norm ds).2 < norm.
Proof.
  intros Hn. induction 1 as [|d ds Hd _ IH]; [cbn; split_and!; [constructor|done|lia|lia]|]. cbn [scale_digits].
  destruct (scale_digits norm ds) as [out carry]. cbn [fst snd] in *. destruct IH as (H1 & H2 & H3). unfold digit in Hd. unfold kNumericBase in *.
  rewrite Z.quot_div_nonneg, Z.rem_mod_nonneg by nia. pose proof (Z.mod_pos_bound (d * norm + carry) 10000 ltac:(done)) as Hm.
  rewrite i16_digit by (unfold digit, kNumericBase; lia). cbn [fst snd length]. split_and!; [constructor; [exact Hm|done]|by rewrite H2|..].
  - apply Z.div_pos; nia.
  - apply Z.div_lt_upper_bound; nia.
Qed.

Lemma sub_mul_range q trial div :
  0 ≤ q → Forall digit trial → Forall digit div → length trial = length div →
  let '(out, mcarry, borrow) := sub_mul q trial div in
  Forall digit out ∧ length out = length div ∧ 0 ≤ mcarry ∧ 0 ≤ borrow ≤ 1.
Proof.
  intros Hq Ht. revert div. induction Ht as [|t trial Ht _ IH]; intros [|d div] Hd Hlen; try done.
  apply Forall_cons in Hd as [Hdd Hd]. cbn [sub_mul]. specialize (IH div Hd ltac:(by injection Hlen)). destruct (sub_mul q trial div) as [[out mcarry] borrow].
  destruct IH as (H1 & H2 & H3 & H4). unfold digit, kNumericBase in *. assert (Hp : 0 ≤ d * q + mcarry) by nia.
  rewrite Z.quot_div_nonneg, Z.rem_mod_nonneg by lia. pose proof (Z.mod_pos_bound (d * q + mcarry) 10000 ltac:(done)) as Hm.
  assert (Hc : 0 ≤ (d * q + mcarry) / 10000) by (apply Z.div_pos; lia).
  destruct (t - (d * q + mcarry) `mod` 10000 - borrow <? 0) eqn:E; to_prop; cbn [length];
    (rewrite i16_digit by (unfold digit, kNumericBase; lia)); split_and!; try lia; (constructor; [unfold digit, kNumericBase; lia|done]).
Qed.

(** Subtracting nothing leaves nothing owed. *)
Lemma sub_mul_zero trial div : Forall digit trial → length trial = length div → (sub_mul 0 trial div).1.2 = 0 ∧ (sub_mul 0 trial div).2 = 0.
Proof.
  intros Ht. revert div. induction Ht as [|t trial Ht _ IH]; intros [|d div] Hlen; try done. cbn [sub_mul].
  specialize (IH div ltac:(by injection Hlen)). destruct (sub_mul 0 trial div) as [[out mcarry] borrow]. cbn in IH. destruct IH as [-> ->].
  rewrite Z.mul_0_r. rewrite Z.add_0_l, Z.rem_0_l, Z.quot_0_l by done. unfold digit in Ht. rewrite (proj2 (Z.ltb_ge _ 0)) by lia. done.
Qed.

Lemma adjust_range fuel : ∀ q trial div,
  digit q → Forall digit trial → Forall digit div → length trial = S (length div) →
  let '(q', trial') := adjust fuel q trial div in digit q' ∧ Forall digit trial' ∧ length trial' = S (length div).
Proof.
  induction fuel as [|fuel IH]; intros q trial div Hq Ht Hd Hlen; [done|]. cbn [adjust]. destruct trial as [|t trial]; [done|].
  apply Forall_cons in Ht as [Ht Ht']. injection Hlen as Hlen. cbn [tail nth]. destruct Hq as [Hq1 Hq2].
  pose proof (sub_mul_range q trial div Hq1 Ht' Hd Hlen) as Hr. pose proof (sub_mul_zero trial div Ht' Hlen) as Hz.
  destruct (decide (q = 0)) as [-> |Hne].
  - destruct (sub_mul 0 trial div) as [[out mcarry] borrow]. cbn in Hz. destruct Hz as [-> ->]. destruct Hr as (R1 & R2 & _).
    unfold digit in Ht. rewrite (proj2 (Z.ltb_ge _ 0)) by lia. split; [by split|]. split; [|by cbn; rewrite R2].
    constructor; [|done]. rewrite !Z.sub_0_r, i16_digit; done.
  - destruct (sub_mul q trial div) as [[out mcarry] borrow]. destruct Hr as (R1 & R2 & R3 & R4). destruct (t - mcarry - borrow <? 0) eqn:E; to_prop.
    + apply IH; [unfold digit; lia|by constructor|done|by cbn; rewrite Hlen].
    + unfold digit in Ht. assert (digit (t - mcarry - borrow)) by (unfold digit; lia). rewrite i16_digit by done.
      split_and!; [by split|by constructor|by cbn; rewrite R2].
Qed.

Lemma knuth_loop_range fuel : ∀ work div, Forall digit work → Forall digit div → Forall digit (knuth_loop fuel work div).
Proof.
  induction fuel as [|fuel IH]; intros work div Hw Hd; [constructor|]. cbn [knuth_loop]. destruct (Nat.leb_spec (length work) (length div)) as [|Hlen]; [constructor|].
  set (top := nth 0 work 0 * kNumericBase + nth 1 work 0). set (q0 := top ÷ nth 0 div 0).
  assert (Hnth : ∀ l i, Forall digit l → 0 ≤ nth i l 0).
  { intros l i Hl. destruct (nth_in_or_default i l 0) as [Hin|Hdef]; [|lia]. rewrite Forall_forall in Hl. apply (Hl (nth i l 0)). by apply list_elem_of_In. }
  assert (Hq0 : 0 ≤ q0).
  { unfold q0. pose proof (Hnth div 0%nat Hd). pose proof (Hnth work 0%nat Hw). pose proof (Hnth work 1%nat Hw).
    assert (0 ≤ top) by (unfold top, kNumericBase; lia). destruct (decide (nth 0 div 0 = 0)) as [-> |]; [by clearbody top; destruct top|]. apply Z.quot_pos; lia. }
  assert (Hq : digit (if kNumericBase <=? q0 then kNumericBase - 1 else q0)) by (destruct (Z.leb_spec kNumericBase q0); unfold digit, kNumericBase in *; lia).
  pose proof (adjust_range 2 _ (take (S (length div)) work) div Hq (Forall_take _ _ _ Hw) Hd ltac:(rewrite length_take; lia)) as Ha.
  destruct (adjust 2 _ _ div) as [q trial]. destruct Ha as (A1 & A2 & A3). rewrite i16_digit by done. constructor; [done|]. apply IH; [|done].
  apply Forall_app. split; [|by apply Forall_drop]. destruct trial; [constructor|]. by apply Forall_cons in A2 as [_ ?].
Qed.

Lemma long_division_range ds bs : Forall digit ds → Forall digit bs → Forall digit (long_division ds bs).
Proof.
  intros Hds Hbs. unfold long_division. set (norm := kNumericBase ÷ (nth 0 bs 0 + 1)).
  assert (Hn : 1 ≤ norm ≤ kNumericBase).
  { assert (Hb : 0 ≤ nth 0 bs 0 < kNumericBase) by (destruct Hbs as [|b bs Hb _]; [done|exact Hb]). unfold norm. rewrite Z.quot_div_nonneg by (unfold kNumericBase in *; lia).
    split; [apply Z.div_le_lower_bound; lia|]. apply Z.div_le_upper_bound; [lia|]. unfold kNumericBase in *. nia. }
  destruct (scale_digits_range norm ds ltac:(lia) Hds) as (S1 & _ & S2). destruct (scale_digits_range norm bs ltac:(lia) Hbs) as (B1 & _ & _).
  destruct (scale_digits norm ds) as [work carry]. cbn [fst snd] in *. apply knuth_loop_range; [|done]. constructor; [|done].
  rewrite i16_digit; unfold digit; lia.
Qed.

Lemma short_loop_range divisor ds : ∀ rem,
  0 < divisor < kNumericBase → 0 ≤ rem < divisor → Forall digit ds → Forall digit (short_loop divisor rem ds).
Proof. intros rem Hd Hr Hds. by destruct (short_loop_run divisor ds rem Hr ltac:(lia) Hds) as (_ & ? & _). Qed.

Lemma div_var_wf a b r : wf_var a → wf_var b → DivVar a b = Ret r → wf_var r.
Proof.
  intros Ha Hb. unfold DivVar. destruct (IsZero b); [done|]. destruct (IsZero a); [intros [= <-]; split; [constructor|by left]|].
  fold (extra_groups a b). set (ds := digits a ++ replicate (Z.to_nat (extra_groups a b)) 0).
  assert (Hds : Forall digit ds) by (apply Forall_app; split; [apply Ha|by apply Forall_replicate]).
  assert (Hbb : wf_var (StripZeros (with_sign kNumericPos b))) by (apply strip_wf, with_sign_wf; [done|by left]).
  set (bb := StripZeros (with_sign kNumericPos b)) in *. set (quot := if NDigits bb =? 1 then _ else _).
  assert (Hq : Forall digit quot).
  { unfold quot. destruct (NDigits bb =? 1) eqn:E; to_prop; [|apply long_division_range; [done|apply Hbb]].
    destruct (strip_sign kNumericPos b) as [Es _]. destruct (single_digit b Hb) as (d & Hd & Hd0 & _); [unfold NDigits in *; by rewrite <- Es|].
    unfold bb. rewrite Es, Hd. apply short_loop_range; [cbn; lia|cbn; lia|done]. }
  destruct (strip_front_value quot (weight a - weight bb) kNumericPos 0) as [_ Hf]. specialize (Hf Hq).
  destruct (strip_front quot _) as [[|x q] w]; [intros [= <-]; split; [constructor|by left]|].
  set (s := if sign a =? sign b then kNumericPos else kNumericNeg). intros [= <-]. apply finish_run. split; [done|].
  unfold s. destruct (sign a =? sign b); cbn; [by left|by right].
Qed.

(** ** The operations *)

Lemma trunc_var_wf v D : wf_var v → wf_var (TruncVar v D).
Proof.
  intros Hv. destruct (Z.le_gt_cases (dscale v) (clip D)) as [H|H]; [|by apply trunc_var_run].
  unfold TruncVar. fold (clip D). by rewrite (proj2 (Z.leb_le _ _) H).
Qed.

Lemma round_var_wf v D : wf_var v → wf_var (RoundVar v D).
Proof.
  intros Hv. destruct (Z.le_gt_cases (dscale v) (clip D)) as [H|H]; [|by apply round_var_run].
  unfold RoundVar. fold (clip D). by rewrite (proj2 (Z.leb_le _ _) H).
Qed.

Lemma step_away_wf s v : wf_var v → s = kNumericPos ∨ s = kNumericNeg → wf_var (step_away s v).
Proof.
  intros Hv Hs. destruct (Z.lt_ge_cases 0 (dscale v)) as [H|H]; [by apply step_away_run|]. unfold step_away. by rewrite (proj2 (Z.ltb_ge _ _) H).
Qed.

Lemma made_wf ds w s sc : Forall digit ds → s = kNumericPos ∨ s = kNumericNeg → wf_numeric (MakeNumericDatum ds w s sc).
Proof. intros Hd Hs. unfold MakeNumericDatum. apply to_wf, finish_run. by split. Qed.

(** Whatever text [numeric_in] accepts is a sign, digits and a point. *)
Lemma split_digits l : ∀ seen ip fp I F,
  digit_chars ip → digit_chars fp → split_parts l seen ip fp = Some (I, F) → digit_chars I ∧ digit_chars F.
Proof.
  induction l as [|c l IH]; intros seen ip fp I F Hi Hf; cbn [split_parts]; [by intros [= <- <-]|]. case_decide.
  - destruct seen; [done|]. by apply IH.
  - destruct (is_digit c) eqn:E; [|done]. destruct seen; apply IH; try done; apply Forall_app; split; [done|by repeat constructor|done|by repeat constructor].
Qed.

Lemma numeric_in_wf str r : numeric_in str = Ret r → wf_numeric r.
Proof.
  unfold numeric_in. destruct str as [[|c l]|]; [done| |done].
  destruct (if decide (c = "+"%char) then _ else _) as [neg rest]. destruct (split_parts rest false [] []) as [[I F]|] eqn:E; [|done].
  destruct (split_digits rest false [] [] I F ltac:(constructor) ltac:(constructor) E) as [HI HF]. destruct (groups_value I F HI HF neg) as [Hw _].
  destruct (finish_run _ Hw) as (H & _). intros Hr. destruct I, F; try done; injection Hr as <-; by apply to_wf.
Qed.

(** What the operations that cannot fail return. *)
Definition total_results (a b : NumericData) (D val : Z) : list NumericData :=
  [numeric_add a b; numeric_sub a b; numeric_round a D; numeric_trunc a D; numeric_ceil a; numeric_floor a; numeric_abs a;
   Int64ToNumeric val; MakeNumericDatum (n_digits a) (n_weight a) (n_sign a) (n_dscale a)].

(** C23: the numeric type is closed under its operations, but for products of
    long numbers.  From well-formed arguments sums, differences, roundings, ceilings,
    floors, absolute values, quotients and averages are well-formed numerics, with as
    many digits as they say, each from 0 to 9999, and one of the two signs, and so are
    converted 64-bit integers and texts that are accepted; a product is one if a
    factor has at most 21 digit groups ([long_product_is_ill_formed] has longer
    factors). *)
Theorem numeric_type_sound a b D str val :
  wf_numeric a → wf_numeric b → - 2 ^ 63 ≤ val < 2 ^ 63 →
  Forall wf_numeric (total_results a b D val) ∧
  (Z.of_nat (length (n_digits a) `min` length (n_digits b)) ≤ max_rows → wf_numeric (numeric_mul a b)) ∧
  (∀ r, numeric_div a b = Ret r ∨ numeric_avg a val = Ret r ∨ numeric_in str = Ret r → wf_numeric r).
Proof.
  intros Ha Hb Hval. apply from_wf in Ha as Wa. apply from_wf in Hb as Wb. assert (Hi : wf_numeric (Int64ToNumeric val)).
  { destruct (int64_var_run val Hval) as (v & -> & Hv & _). by apply to_wf. }
  assert (Hdiv : ∀ c r, wf_numeric c → numeric_div a c = Ret r → wf_numeric r).
  { intros c r Hc. unfold numeric_div. destruct (DivVar (FromData a) (FromData c)) as [v|] eqn:E; [|done]. intros [= <-].
    apply to_wf, (div_var_wf _ _ _ Wa (from_wf c Hc) E). }
  split_and!.
  - repeat (apply Forall_cons; split); [..|done|destruct Ha as (_ & ? & ?); by apply made_wf|constructor]; apply to_wf.
    + by apply coverage_run, add_var_run.
    + by apply coverage_run, sub_var_run.
    + by apply round_var_wf.
    + by apply trunc_var_wf.
    + apply step_away_wf; [done|by left].
    + apply step_away_wf; [done|by right].
    + apply with_sign_wf; [done|by left].
  - intros Hm. apply to_wf. apply (mul_var_run _ _ Wa Wb). by rewrite !from_digits.
  - intros r [Hr|[Hr|Hr]]; [by apply (Hdiv b)| |by apply numeric_in_wf in Hr].
    unfold numeric_avg in Hr. destruct (val =? 0); [done|]. by apply (Hdiv (Int64ToNumeric val)).
Qed.

(** The column sums of a product of 22 groups leave the range of an int, and a digit
    of the result is negative. *)
Theorem long_product_is_ill_formed : ¬ wf_numeric (numeric_mul (nines 22) (nines 22)).
Proof.
  intros (_ & Hd & _). assert (Hin : existsb (λ d, d <? 0) (n_digits (numeric_mul (nines 22) (nines 22))) = true) by (vm_compute; reflexivity).
  apply existsb_exists in Hin as (d & Hd1 & Hd2). rewrite Forall_forall in Hd. apply list_elem_of_In in Hd1. specialize (Hd d Hd1). to_prop. unfold digit in Hd. lia.
Qed.

Lemma numeric_type_sound_witness : wf_numeric (numeric_add demo_a demo_b) ∧ ∃ r, numeric_div demo_a demo_b = Ret r ∧ wf_numeric r.
Proof.
  destruct (numeric_type_sound demo_a demo_b 1 None 5 (proj1 demo_numerics_wf) (proj1 (proj2 demo_numerics_wf))) as (H1 & _ & H3); [by split|].
  split; [exact (Forall_inv H1)|]. eexists. split; [reflexivity|]. apply H3. left. reflexivity.
Defined.

End NumericType.
