(* ===== verification/Predicate.v ===== *)
(** * Predicate locks

    src/storage/ipc/predicate.cpp and include/storage/ipc/predicate.hpp: the
    list of locks on what serializable transactions have read, at the grain of
    a tuple, a page or a relation.  [PredicateLockTargetHash] is used by no
    code and is left out. *)

From stdpp Require Import base list.
From S2P Require Import Prelude RelFile.

Module Predicate.
Import RelFile.

(** Relation-level locks have [kInvalidBlockNumber], page-level locks offset 0. *)
Record PredicateLockTargetTag := mkTag { tag_rnode : RelFileNode; tag_block_num : Z; tag_offset_num : Z }.
#[export] Instance PredicateLockTargetTag_eq_dec : EqDecision PredicateLockTargetTag.
Proof. solve_decision. Defined.

Record PredicateLock := mkLock { tag : PredicateLockTargetTag; lock_xid : Z; shared : bool }.

Abbreviation Locks := (list PredicateLock).

Definition MatchesTag (lock : PredicateLockTargetTag) (rnode : RelFileNode) (block_num offset_num : Z) : bool :=
  if bool_decide (tag_rnode lock ≠ rnode) then false
  else if tag_block_num lock =? kInvalidBlockNumber then true
  else if (tag_block_num lock =? block_num) && (tag_offset_num lock =? 0) then true
  else (tag_block_num lock =? block_num) && (tag_offset_num lock =? offset_num).

Definition Acquire (rnode : RelFileNode) (block_num offset_num xid : Z) (locks : Locks) : Locks :=
  let lock := mkLock (mkTag rnode block_num offset_num) xid true in
  if existsb (λ existing, (lock_xid existing =? xid) && bool_decide (tag existing = tag lock)) locks then locks
  else locks ++ [lock].

Definition PredicateLockTuple (rnode : RelFileNode) (block_num offset_num xid : Z) : Locks → Locks :=
  Acquire rnode block_num offset_num xid.
Definition PredicateLockPage (rnode : RelFileNode) (block_num xid : Z) : Locks → Locks := Acquire rnode block_num 0 xid.
Definition PredicateLockRelation (rnode : RelFileNode) (xid : Z) : Locks → Locks :=
  Acquire rnode kInvalidBlockNumber 0 xid.

(** The number of locks removed, and the others. *)
Fixpoint PredicateLockRelease (xid : Z) (locks : Locks) : Z * Locks :=
  match locks with
  | [] => (0, [])
  | it :: locks' =>
      let '(removed, rest) := PredicateLockRelease xid locks' in
      if lock_xid it =? xid then (removed + 1, rest) else (removed, it :: rest)
  end.

Definition PredicateLockReleaseAll (locks : Locks) : Locks := [].

Definition PredicateLockConflicts (rnode : RelFileNode) (block_num offset_num : Z) (locks : Locks) : bool :=
  existsb (λ lock, MatchesTag (tag lock) rnode block_num offset_num) locks.

Definition GetPredicateLocks (locks : Locks) : list PredicateLock := locks.
Definition NumPredicateLocks (locks : Locks) : Z := i32 (Z.of_nat (length locks)).

(** ** What the locks of a transaction cover *)

Definition covers (t : PredicateLockTargetTag) (rnode : RelFileNode) (block_num offset_num : Z) : Prop :=
  tag_rnode t = rnode ∧
  (tag_block_num t = kInvalidBlockNumber ∨ tag_block_num t = block_num ∧ (tag_offset_num t = 0 ∨ tag_offset_num t = offset_num)).

Lemma matches_covers t rnode b o : MatchesTag t rnode b o = true ↔ covers t rnode b o.
Proof.
  unfold MatchesTag, covers. case_bool_decide as Hn; [split; [done|tauto]|].
  destruct (Z.eqb_spec (tag_block_num t) kInvalidBlockNumber), (Z.eqb_spec (tag_block_num t) b), (Z.eqb_spec (tag_offset_num t) 0),
    (Z.eqb_spec (tag_offset_num t) o); cbn; intuition congruence.
Qed.

Lemma acquire_elem rnode b o xid locks l :
  l ∈ Acquire rnode b o xid locks →
  l ∈ locks ∨ l = mkLock (mkTag rnode b o) xid true.
Proof. unfold Acquire. split_if; [by left|]. rewrite elem_of_app, list_elem_of_singleton. tauto. Qed.

(** Whatever was locked stays locked, and the target is locked now. *)
Lemma acquire_holds rnode b o xid locks :
  (∀ l, l ∈ locks → l ∈ Acquire rnode b o xid locks) ∧
  ∃ l, l ∈ Acquire rnode b o xid locks ∧ tag l = mkTag rnode b o ∧ lock_xid l = xid.
Proof.
  unfold Acquire. destruct (existsb _ locks) eqn:E.
  - split; [done|]. apply existsb_exists in E as (l & Hl & Hx). to_prop. exists l. split; [by apply list_elem_of_In|done].
  - split; [intros l Hl; apply elem_of_app; by left|]. eexists. split; [apply elem_of_app; right; by left|done].
Qed.

Lemma release_elem xid locks l : l ∈ (PredicateLockRelease xid locks).2 ↔ l ∈ locks ∧ lock_xid l ≠ xid.
Proof.
  induction locks as [|it locks IH]; [split; [by intros ?%not_elem_of_nil|by intros [?%not_elem_of_nil _]]|].
  cbn [PredicateLockRelease]. destruct (PredicateLockRelease xid locks) as [removed rest]. cbn in IH.
  destruct (lock_xid it =? xid) eqn:E; to_prop; cbn [snd]; rewrite ?elem_of_cons, IH; split;
    [tauto|intros [[->|?] ?]; tauto|intros [->|[? ?]]; tauto|tauto].
Qed.

Lemma release_count xid locks :
  (PredicateLockRelease xid locks).1 = Z.of_nat (length locks) - Z.of_nat (length (PredicateLockRelease xid locks).2).
Proof.
  induction locks as [|it locks IH]; [done|]. cbn [PredicateLockRelease]. destruct (PredicateLockRelease xid locks) as [removed rest].
  cbn in IH. destruct (lock_xid it =? xid); cbn [fst snd length]; lia.
Qed.

End Predicate.
