(* ===== verification/Ssi.v ===== *)
(** * Serializable snapshot isolation

    src/transaction/ssi.cpp and include/transaction/ssi.hpp: the read-write
    conflicts between serializable transactions, found by matching the writes
    of one against the predicate locks of the others, and the search for
    dangerous structures, whose members are refused.

    [FindXact] returns a pointer into [Xacts()]; a write through it is an update
    of the first record with that transaction id.  Loops that return from the
    middle of nested [for]s are [first_some]. *)

From Stdlib Require Import Ascii.
From stdpp Require Import base list strings.
From S2P Require Import Prelude CString RelFile Predicate.

Module Ssi.
Import CString RelFile Predicate.

Record RWConflict := mkConflict { reader : Z; writer : Z }.

Record SERIALIZABLEXact := mkXact {
  xid : Z;
  finished : bool;
  committed : bool;
  read_only : bool;
  dangerous : bool;
  out_conflicts : list RWConflict;
  in_conflicts : list RWConflict }.

Record SsiState := mkSsi { Xacts : list SERIALIZABLEXact; Locks : list PredicateLock }.

Definition on_xacts (f : list SERIALIZABLEXact → list SERIALIZABLEXact) (s : SsiState) : SsiState := mkSsi (f (Xacts s)) (Locks s).
Definition on_locks (f : list PredicateLock → list PredicateLock) (s : SsiState) : SsiState := mkSsi (Xacts s) (f (Locks s)).

Definition push_out (c : RWConflict) (sx : SERIALIZABLEXact) : SERIALIZABLEXact :=
  mkXact (xid sx) (finished sx) (committed sx) (read_only sx) (dangerous sx) (out_conflicts sx ++ [c]) (in_conflicts sx).
Definition push_in (c : RWConflict) (sx : SERIALIZABLEXact) : SERIALIZABLEXact :=
  mkXact (xid sx) (finished sx) (committed sx) (read_only sx) (dangerous sx) (out_conflicts sx) (in_conflicts sx ++ [c]).
Definition set_dangerous (sx : SERIALIZABLEXact) : SERIALIZABLEXact :=
  mkXact (xid sx) (finished sx) (committed sx) (read_only sx) true (out_conflicts sx) (in_conflicts sx).
Definition set_finished (c : bool) (sx : SERIALIZABLEXact) : SERIALIZABLEXact :=
  mkXact (xid sx) true c (read_only sx) (dangerous sx) (out_conflicts sx) (in_conflicts sx).

Definition FindXact (x : Z) (xs : list SERIALIZABLEXact) : option SERIALIZABLEXact := List.find (λ sx, xid sx =? x) xs.

(** A write through the pointer [FindXact] returned. *)
Fixpoint upd_xact (x : Z) (f : SERIALIZABLEXact → SERIALIZABLEXact) (xs : list SERIALIZABLEXact) : list SERIALIZABLEXact :=
  match xs with
  | [] => []
  | sx :: xs' => if xid sx =? x then f sx :: xs' else sx :: upd_xact x f xs'
  end.

Fixpoint first_some {A B : Type} (f : A → option B) (l : list A) : option B :=
  match l with
  | [] => None
  | a :: l' => match f a with Some b => Some b | None => first_some f l' end
  end.

Definition AddRWConflict (rd wr : Z) (xs : list SERIALIZABLEXact) : list SERIALIZABLEXact :=
  if rd =? wr then xs
  else
    match FindXact rd xs, FindXact wr xs with
    | Some r, Some w =>
        if existsb (λ c, writer c =? wr) (out_conflicts r) then xs
        else upd_xact wr (push_in (mkConflict rd wr)) (upd_xact rd (push_out (mkConflict rd wr)) xs)
    | _, _ => xs
    end.

Definition MarkDangerous (t1 t2 t3 : Z) (xs : list SERIALIZABLEXact) : list SERIALIZABLEXact :=
  upd_xact t3 set_dangerous (upd_xact t2 set_dangerous (upd_xact t1 set_dangerous xs)).

(** ** The search for a dangerous structure T1 → T2 → T3 *)

(** [x] is T2. *)
Definition middle_of (x : Z) (sx : SERIALIZABLEXact) (xs : list SERIALIZABLEXact) : option (Z * Z * Z) :=
  first_some (λ inc,
    t1 ← FindXact (reader inc) xs;
    first_some (λ out,
      t3 ← FindXact (writer out) xs;
      if negb (finished t1) then None else Some (xid t1, x, xid t3)) (out_conflicts sx)) (in_conflicts sx).

(** [x] is T3. *)
Definition right_of (x : Z) (sx : SERIALIZABLEXact) (xs : list SERIALIZABLEXact) : option (Z * Z * Z) :=
  first_some (λ inc,
    t2 ← FindXact (reader inc) xs;
    if negb (finished t2) then None
    else
      first_some (λ t2in,
        t1 ← FindXact (reader t2in) xs;
        if negb (finished t1) then None else Some (xid t1, xid t2, x)) (in_conflicts t2)) (in_conflicts sx).

(** [x] is T1. *)
Definition left_of (x : Z) (sx : SERIALIZABLEXact) (xs : list SERIALIZABLEXact) : option (Z * Z * Z) :=
  first_some (λ out,
    t2 ← FindXact (writer out) xs;
    if negb (finished t2) then None
    else
      first_some (λ t2out,
        t3 ← FindXact (writer t2out) xs;
        Some (x, xid t2, xid t3)) (out_conflicts t2)) (out_conflicts sx).

Definition dangerous_structure (x : Z) (xs : list SERIALIZABLEXact) : option (Z * Z * Z) :=
  sx ← FindXact x xs;
  match middle_of x sx xs with
  | Some t => Some t
  | None =>
      match right_of x sx xs with
      | Some t => Some t
      | None => if negb (finished sx) then None else left_of x sx xs
      end
  end.

Definition CheckForDangerousStructure (x : Z) : M SsiState bool :=
  s ← get;
  match dangerous_structure x (Xacts s) with
  | Some (t1, t2, t3) => modify (on_xacts (MarkDangerous t1 t2 t3));; mret true
  | None => mret false
  end.

Definition serialization_failure (x : Z) : string :=
  "could not serialize access due to read/write dependencies among transactions (transaction XID "
    +:+ of_chars (print_padded 10 1 10 x) +:+ ")".

Definition OnConflict_CheckForSerializationFailure (x : Z) : M SsiState unit :=
  s ← get;
  match FindXact x (Xacts s) with
  | Some sx => if dangerous sx then ereport (serialization_failure x) else mret tt
  | None => mret tt
  end.

(** ** The life of a transaction *)

Definition RegisterSerializableTransaction (x : Z) (ro : bool) : SsiState → SsiState :=
  on_xacts (λ xs, match FindXact x xs with Some _ => xs | None => xs ++ [mkXact x false false ro false [] []] end).

Definition ReleaseSerializableTransaction (x : Z) (commit : bool) : M SsiState unit :=
  s ← get;
  match FindXact x (Xacts s) with
  | None => mret tt
  | Some sx =>
      when (commit && negb (finished sx))
        (CheckForDangerousStructure x;; OnConflict_CheckForSerializationFailure x);;
      modify (on_xacts (upd_xact x (set_finished commit)));;
      when (negb commit) (modify (on_locks (λ l, (PredicateLockRelease x l).2)))
  end.

(** The test of [CheckForSerializableConflict] whether a lock covers the target. *)
Definition lock_covered (t : PredicateLockTargetTag) (rnode : RelFileNode) (block_num offset_num : Z) : bool :=
  bool_decide (tag_rnode t = rnode) &&
  ((tag_block_num t =? kInvalidBlockNumber) ||
   ((tag_block_num t =? block_num) && (tag_offset_num t =? 0)) ||
   ((tag_block_num t =? block_num) && (tag_offset_num t =? offset_num))).

(** One lock of the loop of [CheckForSerializableConflict]. *)
Definition conflict_with (wr : Z) (rnode : RelFileNode) (block_num offset_num : Z) (lock : PredicateLock) : M SsiState unit :=
  if lock_xid lock =? wr then mret tt
  else
    s ← get;
    match FindXact (lock_xid lock) (Xacts s) with
    | None => mret tt
    | Some rd =>
        if finished rd && negb (committed rd) then mret tt
        else if negb (lock_covered (tag lock) rnode block_num offset_num) then mret tt
        else
          modify (on_xacts (AddRWConflict (lock_xid lock) wr));;
          CheckForDangerousStructure wr;;
          OnConflict_CheckForSerializationFailure wr
    end.

Fixpoint conflict_loop (wr : Z) (rnode : RelFileNode) (block_num offset_num : Z) (locks : list PredicateLock) : M SsiState unit :=
  match locks with
  | [] => mret tt
  | lock :: locks' => conflict_with wr rnode block_num offset_num lock;; conflict_loop wr rnode block_num offset_num locks'
  end.

Definition CheckForSerializableConflict (wr : Z) (rnode : RelFileNode) (block_num offset_num : Z) : M SsiState unit :=
  s ← get;
  match FindXact wr (Xacts s) with
  | None => mret tt
  | Some w =>
      if finished w || read_only w then mret tt
      else conflict_loop wr rnode block_num offset_num (GetPredicateLocks (Locks s))
  end.

Definition GetSerializableXact (x : Z) (s : SsiState) : option SERIALIZABLEXact := FindXact x (Xacts s).
Definition NumSerializableXacts (s : SsiState) : Z := i32 (Z.of_nat (length (Xacts s))).
Definition ResetSSIState (s : SsiState) : SsiState := mkSsi [] (PredicateLockReleaseAll (Locks s)).

End Ssi.
