(* ===== verification/SsiSpec.v ===== *)
(** * What serializable transactions are promised

    Over every sequence of calls, failing ones included: the read-write
    conflicts among committed transactions form no cycle, and a write records
    exactly the conflicts with the readers whose locks cover it.  What the
    search misses is shown on an example. *)

From stdpp Require Import base list strings relations.
From S2P Require Import Prelude CString RelFile Predicate Ssi.

Module SsiSpec.
Import RelFile Predicate Ssi.

(** ** The conflict graph *)

Definition has (s : SsiState) (x : Z) (P : SERIALIZABLEXact → Prop) : Prop := ∃ sx, FindXact x (Xacts s) = Some sx ∧ P sx.
Definition registered (s : SsiState) (x : Z) : Prop := has s x (λ _, True).
Definition is_finished (s : SsiState) (x : Z) : Prop := has s x (λ sx, finished sx = true).
Definition is_committed (s : SsiState) (x : Z) : Prop := has s x (λ sx, finished sx = true ∧ committed sx = true).
Definition edge (s : SsiState) (a b : Z) : Prop := has s a (λ sx, mkConflict a b ∈ out_conflicts sx).
Definition edge_in (s : SsiState) (a b : Z) : Prop := has s b (λ sx, mkConflict a b ∈ in_conflicts sx).

(** Both lists of a conflict say the same, and both ends are registered. *)
Definition graph_ok (s : SsiState) : Prop :=
  (∀ x sx c, FindXact x (Xacts s) = Some sx → c ∈ out_conflicts sx → reader c = x ∧ writer c ≠ x) ∧
  (∀ x sx c, FindXact x (Xacts s) = Some sx → c ∈ in_conflicts sx → writer c = x ∧ reader c ≠ x) ∧
  (∀ a b, edge s a b ↔ edge_in s a b).

Lemma first_some_none {A B : Type} (f : A → option B) l : first_some f l = None ↔ ∀ a, a ∈ l → f a = None.
Proof.
  induction l as [|a l IH]; cbn; [split; [by intros _ a ?%not_elem_of_nil|done]|].
  destruct (f a) eqn:E; [split; [done|intros H; specialize (H a); rewrite E in H; discriminate H; by left]|].
  rewrite IH. split; [intros H b [->|Hb]%elem_of_cons; auto|intros H b Hb; apply H; by right].
Qed.

Lemma first_some_some {A B : Type} (f : A → option B) l b : first_some f l = Some b → ∃ a, a ∈ l ∧ f a = Some b.
Proof.
  induction l as [|a l IH]; cbn; [done|]. destruct (f a) eqn:E; [intros [= ->]; exists a; split; [by left|done]|].
  intros (a' & ? & ?)%IH. exists a'. split; [by right|done].
Qed.

Lemma find_xid x xs sx : FindXact x xs = Some sx → xid sx = x.
Proof. intros [_ H]%List.find_some. by to_prop. Qed.

Lemma find_upd x y f xs :
  (∀ sx, xid (f sx) = xid sx) → FindXact y (upd_xact x f xs) = if decide (y = x) then f <$> FindXact x xs else FindXact y xs.
Proof.
  intros Hf. unfold FindXact. induction xs as [|sx xs IH]; cbn; [by case_decide|].
  destruct (xid sx =? x) eqn:Ex; to_prop; cbn; rewrite ?Hf.
  - case_decide; subst; [by rewrite Z.eqb_refl|]. rewrite (proj2 (Z.eqb_neq (xid sx) y)) by congruence. done.
  - destruct (xid sx =? y) eqn:Ey; to_prop; [|exact IH]. by rewrite decide_False by congruence.
Qed.

(** ** Flags change nothing else *)

(** Two states that differ only in who is marked dangerous. *)
Definition same_but_flags (s s' : SsiState) : Prop :=
  Locks s' = Locks s ∧ ∀ x, set_dangerous <$> FindXact x (Xacts s') = set_dangerous <$> FindXact x (Xacts s).

Lemma flags_refl s : same_but_flags s s.
Proof. done. Qed.

Lemma flags_trans s1 s2 s3 : same_but_flags s1 s2 → same_but_flags s2 s3 → same_but_flags s1 s3.
Proof. intros [H1 H2] [H3 H4]. split; [congruence|]. intros x. by rewrite H4. Qed.

Lemma flags_sym s s' : same_but_flags s s' → same_but_flags s' s.
Proof. intros [H1 H2]. split; [done|]. intros x. by rewrite H2. Qed.

Lemma flags_find s s' x sx : same_but_flags s s' → FindXact x (Xacts s) = Some sx →
  ∃ sx', FindXact x (Xacts s') = Some sx' ∧ finished sx' = finished sx ∧ committed sx' = committed sx ∧ read_only sx' = read_only sx ∧
    out_conflicts sx' = out_conflicts sx ∧ in_conflicts sx' = in_conflicts sx.
Proof.
  intros [_ H] Hx. specialize (H x). rewrite Hx in H. destruct (FindXact x (Xacts s')) as [sx'|]; [|done].
  injection H as H1 H2 H3 H4 H5 H6. exists sx'. by rewrite H2, H3, H4, H5, H6.
Qed.

Lemma flags_mark t1 t2 t3 s : same_but_flags s (on_xacts (MarkDangerous t1 t2 t3) s).
Proof.
  split; [done|]. intros x. unfold on_xacts, MarkDangerous. cbn [Xacts].
  rewrite !find_upd by done. repeat case_decide; subst; destruct (FindXact _ _); done.
Qed.

(** A property of a transaction that does not look at the flag. *)
Definition flagless (P : SERIALIZABLEXact → Prop) : Prop := ∀ sx, P sx ↔ P (set_dangerous sx).

Lemma flags_has s s' x P : flagless P → same_but_flags s s' → has s x P ↔ has s' x P.
Proof.
  intros HP. assert (Himp : ∀ s s', same_but_flags s s' → has s x P → has s' x P).
  { intros s1 s2 [_ H] (sx & Hx & Hp). specialize (H x). rewrite Hx in H. destruct (FindXact x (Xacts s2)) as [sx'|] eqn:E; [|done].
    injection H as H. exists sx'. split; [done|]. apply HP. apply HP in Hp.
    assert (set_dangerous sx' = set_dangerous sx) as -> by (unfold set_dangerous in *; congruence). done. }
  intros Hs. split; apply Himp; [done|by apply flags_sym].
Qed.

Lemma flags_graph s s' : same_but_flags s s' → graph_ok s → graph_ok s'.
Proof.
  intros Hs (H1 & H2 & H3). split_and!.
  - intros x sx c Hx Hc. destruct (flags_find s' s x sx (flags_sym _ _ Hs) Hx) as (sx' & Hx' & _ & _ & _ & Ho & _).
    apply (H1 x sx' c Hx'). by rewrite Ho.
  - intros x sx c Hx Hc. destruct (flags_find s' s x sx (flags_sym _ _ Hs) Hx) as (sx' & Hx' & _ & _ & _ & _ & Hi).
    apply (H2 x sx' c Hx'). by rewrite Hi.
  - intros a b. unfold edge, edge_in. rewrite <- !(flags_has s s') by (done || by intros sx). apply H3.
Qed.

(** ** The search *)

(** A structure that must be found when [x] is T2, or T3. *)
Lemma middle_found s a b c :
  graph_ok s → edge s a b → edge s b c → is_finished s a → registered s c → dangerous_structure b (Xacts s) ≠ None.
Proof.
  intros (_ & _ & H3) Hab (sb & Hb & Hbc) (sa & Ha & Hf) (sc & Hc & _) Hnone. apply H3 in Hab as (sb' & Hb' & Hab). assert (sb' = sb) as -> by congruence.
  unfold dangerous_structure in Hnone. rewrite Hb in Hnone. cbn in Hnone. destruct (middle_of b sb (Xacts s)) eqn:E; [done|]. unfold middle_of in E.
  rewrite first_some_none in E. specialize (E _ Hab). cbn in E. rewrite Ha in E. cbn in E. rewrite first_some_none in E. specialize (E _ Hbc).
  cbn in E. by rewrite Hc, Hf in E.
Qed.

Lemma right_found s a b c :
  graph_ok s → edge s a b → edge s b c → is_finished s a → is_finished s b → dangerous_structure c (Xacts s) ≠ None.
Proof.
  intros (_ & _ & H3) Hab Hbc (sa & Ha & Hfa) (sb & Hb & Hfb) Hnone. apply H3 in Hab as (sb' & Hb' & Hab). assert (sb' = sb) as -> by congruence.
  apply H3 in Hbc as (sc & Hc & Hbc). unfold dangerous_structure in Hnone. rewrite Hc in Hnone. cbn in Hnone.
  destruct (middle_of c sc (Xacts s)); [done|]. destruct (right_of c sc (Xacts s)) eqn:E; [done|]. unfold right_of in E.
  rewrite first_some_none in E. specialize (E _ Hbc). cbn in E. rewrite Hb in E. cbn in E. rewrite Hfb in E. cbn in E.
  rewrite first_some_none in E. specialize (E _ Hab). cbn in E. rewrite Ha in E. cbn in E.
  by rewrite Hfa in E.
Qed.

Lemma structure_contains x xs t1 t2 t3 : dangerous_structure x xs = Some (t1, t2, t3) → x = t1 ∨ x = t2 ∨ x = t3.
Proof.
  unfold dangerous_structure. destruct (FindXact x xs) as [sx|]; [|done]. cbn. destruct (middle_of x sx xs) as [t|] eqn:E.
  - intros [= ->]. unfold middle_of in E. apply first_some_some in E as (i & _ & E). destruct (FindXact (reader i) xs) as [r1|]; [|done]. cbn in E.
    apply first_some_some in E as (o & _ & E). destruct (FindXact (writer o) xs) as [r3|]; [|done]. cbn in E. destruct (negb (finished r1)); [done|].
    injection E as _ <- _. tauto.
  - destruct (right_of x sx xs) as [t|] eqn:F.
    + intros [= ->]. unfold right_of in F. apply first_some_some in F as (i & _ & F). destruct (FindXact (reader i) xs) as [r2|]; [|done]. cbn in F.
      destruct (negb (finished r2)); [done|]. apply first_some_some in F as (j & _ & F). destruct (FindXact (reader j) xs) as [r1|]; [|done]. cbn in F.
      destruct (negb (finished r1)); [done|]. injection F as _ _ <-. tauto.
    + destruct (negb (finished sx)); [done|]. intros G. unfold left_of in G. apply first_some_some in G as (i & _ & G).
      destruct (FindXact (writer i) xs) as [r2|]; [|done]. cbn in G. destruct (negb (finished r2)); [done|].
      apply first_some_some in G as (j & _ & G). destruct (FindXact (writer j) xs) as [r3|]; [|done]. cbn in G. injection G as <- _ _. tauto.
Qed.

(** Searching changes flags only, and says whether there is a structure. *)
Lemma check_run x s :
  ∃ s', CheckForDangerousStructure x s = (Ret (bool_decide (is_Some (dangerous_structure x (Xacts s)))), s') ∧ same_but_flags s s' ∧
    match dangerous_structure x (Xacts s) with None => s' = s | Some _ => has s' x (λ sx, dangerous sx = true) end.
Proof.
  unfold CheckForDangerousStructure. run_step. destruct (dangerous_structure x (Xacts s)) as [[[t1 t2] t3]|] eqn:E.
  - eexists. split; [reflexivity|]. split; [apply flags_mark|]. assert (∃ sx, FindXact x (Xacts s) = Some sx) as (sx & Hx).
    { unfold dangerous_structure in E. destruct (FindXact x (Xacts s)); [by eexists|done]. }
    exists (set_dangerous sx). split; [|done]. unfold on_xacts, MarkDangerous. cbn [Xacts]. rewrite !find_upd by done.
    apply structure_contains in E as [-> | [-> | ->]]; repeat case_decide; subst; rewrite Hx; done.
  - by eexists.
Qed.

(** The check a write and a commit make: it passes exactly when [x] is not
    marked and not part of a structure the search looks for. *)
Lemma refuse_run x s :
  ∃ o s', (CheckForDangerousStructure x;; OnConflict_CheckForSerializationFailure x) s = (o, s') ∧ same_but_flags s s' ∧
    (o = Ret tt → s' = s ∧ dangerous_structure x (Xacts s) = None ∧ ¬ has s x (λ sx, dangerous sx = true)) ∧
    (∀ e, o = Ereport e → e = serialization_failure x ∧ (is_Some (dangerous_structure x (Xacts s)) ∨ has s x (λ sx, dangerous sx = true))).
Proof.
  destruct (check_run x s) as (s' & Hc & Hf & Hd). rewrite (bind_ret_run _ _ _ _ _ Hc). unfold OnConflict_CheckForSerializationFailure. run_step.
  destruct (dangerous_structure x (Xacts s)) as [t|] eqn:E.
  - destruct Hd as (sx & -> & ->). eexists _, _. split; [reflexivity|]. split_and!; [done|done|]. intros e [= <-]. by eauto.
  - subst s'. destruct (FindXact x (Xacts s)) as [sx|] eqn:Ex; [destruct (dangerous sx) eqn:Ed|].
    + eexists _, _. split; [reflexivity|]. split_and!; [done|done|]. intros e [= <-]. split; [done|]. right. by exists sx.
    + eexists _, _. split; [reflexivity|]. split_and!; [done| |done]. intros _. split_and!; [done|done|]. intros (sx' & ? & ?). congruence.
    + eexists _, _. split; [reflexivity|]. split_and!; [done| |done]. intros _. split_and!; [done|done|]. intros (sx' & ? & ?). congruence.
Qed.

(** ** Writes add edges to the writer *)

(** [s'] has the transactions of [s] with their fates, and for edges into [wr]
    those of [s] and possibly more. *)
Definition grows (wr : Z) (s s' : SsiState) : Prop :=
  Locks s' = Locks s ∧
  (∀ x, registered s x ↔ registered s' x) ∧ (∀ x, is_finished s x ↔ is_finished s' x) ∧ (∀ x, is_committed s x ↔ is_committed s' x) ∧
  (∀ a b, edge s a b → edge s' a b) ∧ (∀ a b, edge s' a b → edge s a b ∨ b = wr) ∧ (graph_ok s → graph_ok s').

Lemma flags_grows wr s s' : same_but_flags s s' → grows wr s s'.
Proof.
  intros Hs. unfold grows, registered, is_finished, is_committed, edge. split_and!; [apply Hs|..]; try (intros x; by apply flags_has).
  - intros a b. by rewrite (flags_has s s').
  - intros a b H. left. by rewrite (flags_has s s').
  - by apply flags_graph.
Qed.

Lemma grows_refl wr s : grows wr s s.
Proof. apply flags_grows, flags_refl. Qed.

Lemma grows_trans wr s1 s2 s3 : grows wr s1 s2 → grows wr s2 s3 → grows wr s1 s3.
Proof.
  intros (A1 & A2 & A3 & A4 & A5 & A6 & A7) (B1 & B2 & B3 & B4 & B5 & B6 & B7). split_and!; [congruence|..];
    try (intros x; etrans; [apply A2 || apply A3 || apply A4|apply B2 || apply B3 || apply B4]); auto.
  intros a b [H|H]%B6; [by apply A6|by right].
Qed.

(** The transactions after a conflict has been added to both lists. *)
Lemma add_conflict_find rd wr xs r w x :
  rd ≠ wr → FindXact rd xs = Some r → FindXact wr xs = Some w →
  FindXact x (upd_xact wr (push_in (mkConflict rd wr)) (upd_xact rd (push_out (mkConflict rd wr)) xs)) =
    if decide (x = wr) then Some (push_in (mkConflict rd wr) w)
    else if decide (x = rd) then Some (push_out (mkConflict rd wr) r)
    else FindXact x xs.
Proof.
  intros Hne Hr Hw. rewrite !find_upd by done. repeat case_decide; subst; try done; by rewrite ?Hr, ?Hw.
Qed.

Lemma new_conflict_run rd wr s r w :
  graph_ok s → rd ≠ wr → FindXact rd (Xacts s) = Some r → FindXact wr (Xacts s) = Some w →
  let s' := mkSsi (upd_xact wr (push_in (mkConflict rd wr)) (upd_xact rd (push_out (mkConflict rd wr)) (Xacts s))) (Locks s) in
  grows wr s s' ∧ (∀ a b, edge s' a b ↔ edge s a b ∨ (a = rd ∧ b = wr ∧ rd ≠ wr ∧ registered s rd ∧ registered s wr)).
Proof.
  intros Hg Hne Hr Hw s'. assert (Hf : ∀ x, FindXact x (Xacts s') = if decide (x = wr) then Some (push_in (mkConflict rd wr) w)
    else if decide (x = rd) then Some (push_out (mkConflict rd wr) r) else FindXact x (Xacts s)) by (intros x; by apply add_conflict_find).
  assert (Hhas : ∀ x (P : SERIALIZABLEXact → Prop), (∀ c sx, P (push_in c sx) = P sx) → (∀ c sx, P (push_out c sx) = P sx) → has s x P ↔ has s' x P).
  { intros x P Hi Ho. unfold has. rewrite Hf. repeat case_decide; subst; [rewrite Hw|rewrite Hr|done];
      (split; intros (? & [= <-] & Hp); eexists; (split; [done|])); by rewrite ?Hi, ?Ho in *. }
  assert (Ho : ∀ a b, edge s' a b ↔ edge s a b ∨ (a = rd ∧ b = wr)).
  { intros a b. unfold edge, has. rewrite Hf. repeat case_decide; subst; [rewrite Hw| |].
    - split; [intros (? & [= <-] & Hp); left; by eexists|]. intros [(? & [= <-] & Hp)|[-> ->]]; [by eexists|done].
    - rewrite Hr. split.
      + intros (? & [= <-] & Hp). cbn in Hp. apply elem_of_app in Hp as [Hp|Hp%list_elem_of_singleton]; [left; by eexists|right; by injection Hp as ->].
      + intros Hp. eexists. split; [done|]. cbn. apply elem_of_app. destruct Hp as [(? & [= <-] & Hp)|[_ ->]]; [by left|right; by left].
    - split; [by left|]. intros [?|[-> ->]]; done. }
  assert (Hi : ∀ a b, edge_in s' a b ↔ edge_in s a b ∨ (a = rd ∧ b = wr)).
  { intros a b. unfold edge_in, has. rewrite Hf. repeat case_decide; subst; [rewrite Hw|rewrite Hr|].
    - split.
      + intros (? & [= <-] & Hp). cbn in Hp. apply elem_of_app in Hp as [Hp|Hp%list_elem_of_singleton]; [left; by eexists|right; by injection Hp as ->].
      + intros Hp. eexists. split; [done|]. cbn. apply elem_of_app. destruct Hp as [(? & [= <-] & Hp)|[-> _]]; [by left|right; by left].
    - split; [intros (? & [= <-] & Hp); left; by eexists|]. intros [(? & [= <-] & Hp)|[-> ->]]; [by eexists|done].
    - split; [by left|]. intros [?|[-> ->]]; done. }
  split.
  - split_and!; [done|try (intros x; by apply Hhas)..|intros a b ?; apply Ho; by left|intros a b [?|[_ ->]]%Ho; tauto|].
    intros (H1 & H2 & H3). split_and!; [| |intros a b; by rewrite Ho, Hi, H3].
    + intros x sx c. rewrite Hf. repeat case_decide; subst.
      * intros [= <-]. apply (H1 wr w c Hw).
      * intros [= <-]. cbn. intros [Hc|Hc%list_elem_of_singleton]%elem_of_app; [by apply (H1 rd r c Hr)|by subst].
      * apply H1.
    + intros x sx c. rewrite Hf. repeat case_decide; subst.
      * intros [= <-]. cbn. intros [Hc|Hc%list_elem_of_singleton]%elem_of_app; [by apply (H2 wr w c Hw)|by subst].
      * intros [= <-]. apply (H2 rd r c Hr).
      * apply H2.
  - intros a b. rewrite Ho. split; [|tauto]. intros [?|[-> ->]]; [by left|right]. split_and!; [done..|by exists r|by exists w].
Qed.

Lemma add_conflict_run rd wr s :
  graph_ok s → let s' := on_xacts (AddRWConflict rd wr) s in
  grows wr s s' ∧ (∀ a b, edge s' a b ↔ edge s a b ∨ (a = rd ∧ b = wr ∧ rd ≠ wr ∧ registered s rd ∧ registered s wr)).
Proof.
  intros Hg. unfold AddRWConflict, on_xacts. cbn zeta beta. destruct (Z.eqb_spec rd wr) as [->|Hne].
  { split; [destruct s; apply grows_refl|]. intros a b. split; [by left|intros [?|(_ & _ & ? & _)]; done]. }
  destruct (FindXact rd (Xacts s)) as [r|] eqn:Hr, (FindXact wr (Xacts s)) as [w|] eqn:Hw;
    try (split; [destruct s; apply grows_refl|]; intros a b; split; [by left|]; intros [?|(_ & _ & _ & (? & ? & _) & (? & ? & _))]; [done|congruence]).
  destruct (existsb _ (out_conflicts r)) eqn:E.
  - split; [destruct s; apply grows_refl|]. intros a b. split; [by left|]. intros [?|(-> & -> & _)]; [done|].
    apply existsb_exists in E as (c & Hc%list_elem_of_In & Ec). to_prop. exists r. split; [done|].
    destruct Hg as (H1 & _ & _). destruct (H1 rd r c Hr Hc) as [H _]. destruct c as [cr cw]. cbn in *. by subst.
  - by apply new_conflict_run with r w.
Qed.

Lemma lock_covered_covers t rnode b o : lock_covered t rnode b o = true ↔ covers t rnode b o.
Proof.
  unfold lock_covered, covers. case_bool_decide as Hn; [|cbn; intuition congruence].
  destruct (Z.eqb_spec (tag_block_num t) kInvalidBlockNumber), (Z.eqb_spec (tag_block_num t) b), (Z.eqb_spec (tag_offset_num t) 0),
    (Z.eqb_spec (tag_offset_num t) o); cbn; intuition congruence.
Qed.

(** [a] has read what the write of [wr] changes, through [lock]. *)
Definition read_under (s : SsiState) (wr : Z) (rnode : RelFileNode) (b o : Z) (lock : PredicateLock) (a : Z) : Prop :=
  lock_xid lock = a ∧ a ≠ wr ∧ registered s a ∧ ¬ (is_finished s a ∧ ¬ is_committed s a) ∧ covers (tag lock) rnode b o.

Lemma aborted_flags s a r : FindXact a (Xacts s) = Some r → finished r && negb (committed r) = true ↔ is_finished s a ∧ ¬ is_committed s a.
Proof.
  intros Hr. unfold is_finished, is_committed, has. rewrite Hr. destruct (finished r) eqn:Ef, (committed r) eqn:Ec; cbn; split; try done.
  - intros [_ H]. destruct H. by exists r.
  - intros _. split; [by exists r|]. intros (? & [= <-] & ? & ?). congruence.
  - intros [(? & [= <-] & ?) _]. congruence.
  - intros [(? & [= <-] & ?) _]. congruence.
Qed.

(** One lock: it adds the conflict if it covers the target, and then passes
    exactly if the writer may go on. *)
Lemma conflict_with_run wr rnode b o lock s :
  graph_ok s → registered s wr →
  ∃ out s', conflict_with wr rnode b o lock s = (out, s') ∧ grows wr s s' ∧
    (out = Ret tt → ∀ x y, edge s' x y ↔ edge s x y ∨ (y = wr ∧ read_under s wr rnode b o lock x)) ∧
    (∀ e, out = Ereport e → e = serialization_failure wr ∧ ∃ a, read_under s wr rnode b o lock a).
Proof.
  intros Hg Hwr. assert (Hno : ∀ P : Prop, ¬ P → ∀ x y, edge s x y ↔ edge s x y ∨ (y = wr ∧ P)) by tauto.
  assert (Hskip : (∀ x, ¬ read_under s wr rnode b o lock x) → ∃ out s', (mret tt : M SsiState unit) s = (out, s') ∧ grows wr s s' ∧
    (out = Ret tt → ∀ x y, edge s' x y ↔ edge s x y ∨ (y = wr ∧ read_under s wr rnode b o lock x)) ∧
    (∀ e, out = Ereport e → e = serialization_failure wr ∧ ∃ a, read_under s wr rnode b o lock a)).
  { intros Hn. eexists _, _. split; [reflexivity|]. split_and!; [apply grows_refl|intros _ x y; apply Hno, Hn|done]. }
  unfold conflict_with. destruct (Z.eqb_spec (lock_xid lock) wr) as [E|Hne]; [apply Hskip; intros x (? & ? & _); congruence|].
  rewrite (bind_ret_run get _ s s s) by done. destruct (FindXact (lock_xid lock) (Xacts s)) as [rd|] eqn:Hrd;
    [|apply Hskip; intros x (<- & _ & (? & ? & _) & _); congruence].
  destruct (finished rd && negb (committed rd)) eqn:Ea; [apply Hskip; intros x (<- & _ & _ & Hn & _); apply Hn, (aborted_flags s _ rd); done|].
  destruct (negb (lock_covered (tag lock) rnode b o)) eqn:El; [apply Hskip; intros x (_ & _ & _ & _ & Hc); apply lock_covered_covers in Hc; by rewrite Hc in El|].
  apply negb_false_iff in El. destruct (add_conflict_run (lock_xid lock) wr s Hg) as [A1 A2]. set (s1 := on_xacts _ s) in *.
  destruct (refuse_run wr s1) as (out & s2 & Hrun & Hf & Hok & Herr). exists out, s2. split_and!.
  - rewrite (bind_ret_run (modify _) _ s tt s1) by done. exact Hrun.
  - eapply grows_trans; [exact A1|by apply flags_grows].
  - intros Ho. apply Hok in Ho as [-> _]. intros x y. rewrite A2. split.
    + intros [?|(-> & -> & _ & Hx & _)]; [by left|right]. split; [done|]. split_and!; [done|done|done| |by apply lock_covered_covers].
      rewrite <- (aborted_flags s _ rd) by done. by rewrite Ea.
    + intros [?|(-> & <- & ? & ? & _)]; [by left|right]. done.
  - intros e Ho. split; [by apply Herr|]. exists (lock_xid lock). split_and!; [done|done|by exists rd| |by apply lock_covered_covers].
    rewrite <- (aborted_flags s _ rd) by done. by rewrite Ea.
Qed.

Lemma read_under_grows s s' wr rnode b o lock a : grows wr s s' → read_under s wr rnode b o lock a ↔ read_under s' wr rnode b o lock a.
Proof. intros (_ & H1 & H2 & H3 & _). unfold read_under. by rewrite (H1 a), (H2 a), (H3 a). Qed.

Lemma conflict_loop_run wr rnode b o locks : ∀ s,
  graph_ok s → registered s wr →
  ∃ out s', conflict_loop wr rnode b o locks s = (out, s') ∧ grows wr s s' ∧
    (out = Ret tt → ∀ x y, edge s' x y ↔ edge s x y ∨ (y = wr ∧ ∃ lock, lock ∈ locks ∧ read_under s wr rnode b o lock x)) ∧
    (∀ e, out = Ereport e → e = serialization_failure wr ∧ ∃ lock a, lock ∈ locks ∧ read_under s wr rnode b o lock a).
Proof.
  induction locks as [|lock locks IH]; intros s Hg Hw.
  - eexists _, _. split; [reflexivity|]. split_and!; [apply grows_refl| |done]. intros _ x y. split; [by left|]. by intros [?|(_ & ? & ?%not_elem_of_nil & _)].
  - cbn [conflict_loop]. destruct (conflict_with_run wr rnode b o lock s Hg Hw) as (out & s1 & Hrun & G1 & E1 & R1). destruct out as [[]|e].
    + assert (Hg1 : graph_ok s1) by by apply G1. assert (Hw1 : registered s1 wr) by by apply G1.
      destruct (IH s1 Hg1 Hw1) as (out & s2 & Hrun2 & G2 & E2 & R2). exists out, s2. rewrite (bind_ret_run _ _ _ _ _ Hrun).
      split_and!; [done|by eapply grows_trans| |]; cycle 1.
      { intros e He. destruct (R2 e He) as (-> & l & a & Hl & Hr). split; [done|]. exists l, a. split; [by right|by apply (read_under_grows s s1)]. }
      intros Ho x y. rewrite (E2 Ho), (E1 eq_refl). split.
      * intros [[?|[-> ?]]|(-> & l & Hl & Hr)]; [by left|right; split; [done|]; exists lock; split; [by left|done]|right].
        split; [done|]. exists l. split; [by right|by apply (read_under_grows s s1)].
      * intros [?|(-> & l & [-> |Hl]%elem_of_cons & Hr)]; [tauto|tauto|]. right. split; [done|]. exists l. split; [done|by apply (read_under_grows s s1)].
    + exists (Ereport e), s1. rewrite (bind_err_run _ _ _ _ _ Hrun). split_and!; [done|done|done|]. intros e' [= <-].
      destruct (R1 e eq_refl) as (-> & a & Hr). split; [done|]. exists lock, a. split; [by left|done].
Qed.

(** The writer is serializable, still runs, and may write. *)
Definition may_write (s : SsiState) (wr : Z) : Prop := has s wr (λ sx, finished sx = false ∧ read_only sx = false).

Lemma write_run wr rnode b o s :
  graph_ok s → ∃ out s', CheckForSerializableConflict wr rnode b o s = (out, s') ∧
    (¬ may_write s wr ∧ s' = s ∨ may_write s wr ∧ grows wr s s') ∧
    (out = Ret tt → ∀ x y, edge s' x y ↔ edge s x y ∨ (y = wr ∧ may_write s wr ∧ ∃ lock, lock ∈ Locks s ∧ read_under s wr rnode b o lock x)) ∧
    (∀ e, out = Ereport e → e = serialization_failure wr ∧ may_write s wr ∧ ∃ lock a, lock ∈ Locks s ∧ read_under s wr rnode b o lock a).
Proof.
  intros Hg. unfold CheckForSerializableConflict. rewrite (bind_ret_run get _ s s s) by done.
  assert (Hskip : ¬ may_write s wr → ∃ out s', (mret tt : M SsiState unit) s = (out, s') ∧ (¬ may_write s wr ∧ s' = s ∨ may_write s wr ∧ grows wr s s') ∧
    (out = Ret tt → ∀ x y, edge s' x y ↔ edge s x y ∨ (y = wr ∧ may_write s wr ∧ ∃ lock, lock ∈ Locks s ∧ read_under s wr rnode b o lock x)) ∧
    (∀ e, out = Ereport e → e = serialization_failure wr ∧ may_write s wr ∧ ∃ lock a, lock ∈ Locks s ∧ read_under s wr rnode b o lock a)).
  { intros Hn. eexists _, _. split; [reflexivity|]. split_and!; [by left|tauto|done]. }
  destruct (FindXact wr (Xacts s)) as [w|] eqn:Hw; [|apply Hskip; intros (? & ? & _); congruence].
  destruct (finished w || read_only w) eqn:E; [apply Hskip; intros (w' & ? & F & G); assert (w' = w) as -> by congruence; by rewrite F, G in E|]. to_prop.
  assert (Hm : may_write s wr) by by exists w. destruct (conflict_loop_run wr rnode b o (Locks s) s Hg) as (out & s' & Hrun & Hgr & Hok & Herr); [by exists w|].
  exists out, s'. split_and!; [done|by right| |].
  - intros Ho x y. rewrite (Hok Ho). tauto.
  - intros e He. destruct (Herr e He) as (-> & Hr). done.
Qed.

(** ** All sequences of calls *)

Inductive ssi_call :=
| Register (x : Z) (ro : bool)
| LockTuple (rnode : RelFileNode) (b o x : Z)
| LockPage (rnode : RelFileNode) (b x : Z)
| LockRelation (rnode : RelFileNode) (x : Z)
| Unlock (x : Z)
| Write (x : Z) (rnode : RelFileNode) (b o : Z)
| Finish (x : Z) (commit : bool)
| Recheck (x : Z)
| Refuse (x : Z).

Definition run_call (c : ssi_call) (s : SsiState) : SsiState :=
  match c with
  | Register x ro => RegisterSerializableTransaction x ro s
  | LockTuple rnode b o x => on_locks (PredicateLockTuple rnode b o x) s
  | LockPage rnode b x => on_locks (PredicateLockPage rnode b x) s
  | LockRelation rnode x => on_locks (PredicateLockRelation rnode x) s
  | Unlock x => on_locks (λ l, (PredicateLockRelease x l).2) s
  | Write x rnode b o => exec (CheckForSerializableConflict x rnode b o) s
  | Finish x commit => exec (ReleaseSerializableTransaction x commit) s
  | Recheck x => exec (CheckForDangerousStructure x) s
  | Refuse x => exec (OnConflict_CheckForSerializationFailure x) s
  end.

Definition done_in (s : SsiState) (x : Z) : bool := match FindXact x (Xacts s) with Some sx => finished sx | None => false end.

(** A transaction finishes once. *)
Definition call_ok (s : SsiState) (c : ssi_call) : bool := match c with Finish x _ => negb (done_in s x) | _ => true end.

(** [order] is the order in which transactions finished. *)
Definition order_after (c : ssi_call) (s : SsiState) (order : list Z) : list Z :=
  match c with Finish x _ => if done_in (run_call c s) x then order ++ [x] else order | _ => order end.

Inductive reachable : SsiState → list Z → Prop :=
| reach_init : reachable (mkSsi [] []) []
| reach_call s order c : reachable s order → call_ok s c = true → reachable (run_call c s) (order_after c s order).

Lemma done_finished s x : done_in s x = true ↔ is_finished s x.
Proof.
  unfold done_in, is_finished, has. destruct (FindXact x (Xacts s)) as [sx|]; split; [by eexists|by intros (? & [= <-] & ?)|done|by intros (? & ? & _)].
Qed.

(** ** The order of finished transactions *)

Definition before (order : list Z) (a b : Z) : Prop := ∃ i j, (i < j)%nat ∧ order !! i = Some a ∧ order !! j = Some b.

Lemma before_irrefl order a : NoDup order → ¬ before order a a.
Proof. intros Hn (i & j & Hij & Hi & Hj). pose proof (NoDup_lookup _ _ _ _ Hn Hi Hj). lia. Qed.

Lemma before_trans order a b c : NoDup order → before order a b → before order b c → before order a c.
Proof.
  intros Hn (i & j & Hij & Hi & Hj) (k & l & Hkl & Hk & Hl). pose proof (NoDup_lookup _ _ _ _ Hn Hj Hk). subst k. exists i, l. split; [lia|done].
Qed.

Lemma before_total order a b : a ∈ order → b ∈ order → a ≠ b → before order a b ∨ before order b a.
Proof.
  intros [i Hi]%list_elem_of_lookup [j Hj]%list_elem_of_lookup Hne. destruct (Nat.lt_total i j) as [?|[-> |?]]; [left; by exists i, j|congruence|right; by exists j, i].
Qed.

Lemma before_snoc order x a b : before (order ++ [x]) a b → before order a b ∨ (a ∈ order ∧ b = x).
Proof.
  intros (i & j & Hij & Hi & Hj). assert (Hlen : (j < length (order ++ [x]))%nat) by (by apply lookup_lt_Some in Hj). rewrite length_app in Hlen. cbn in Hlen.
  rewrite lookup_app_l in Hi by lia. destruct (decide (j < length order)%nat).
  - rewrite lookup_app_l in Hj by done. left. by exists i, j.
  - right. split; [by apply list_elem_of_lookup_2 in Hi|]. assert (j = length order) as -> by lia. rewrite lookup_app_r, Nat.sub_diag in Hj by done. by injection Hj as ->.
Qed.

(** ** The invariant *)

(** In a chain of conflicts [a] → [b] → [c] whose last two members committed,
    [a] did not finish before [b], and [c] not as the last. *)
Definition chains_ok (s : SsiState) (order : list Z) : Prop :=
  ∀ a b c, edge s a b → edge s b c → is_committed s b → is_committed s c →
  ¬ (before order a b ∨ (before order a c ∧ before order b c)).

Definition ssi_inv (s : SsiState) (order : list Z) : Prop :=
  graph_ok s ∧ NoDup order ∧ (∀ x, x ∈ order ↔ is_finished s x) ∧ chains_ok s order.

Lemma committed_finished s x : is_committed s x → is_finished s x.
Proof. intros (sx & ? & ? & _). by exists sx. Qed.

(** Growing at an unfinished transaction keeps the invariant. *)
Lemma grows_inv wr s s' order : ssi_inv s order → ¬ is_finished s wr → grows wr s s' → ssi_inv s' order.
Proof.
  intros (I1 & I2 & I3 & I4) Hwr (_ & _ & G2 & G3 & _ & G5 & G6). split_and!; [by apply G6|done|intros x; by rewrite I3|].
  intros a b c Hab Hbc Hb%G3 Hc%G3. assert (∀ x, is_committed s x → x ≠ wr) as Hne by (intros x Hx ->; by apply Hwr, committed_finished).
  apply G5 in Hab as [Hab| ->]; [|by destruct (Hne wr)]. apply G5 in Hbc as [Hbc| ->]; [|by destruct (Hne wr)]. by apply (I4 a b c).
Qed.

Lemma same_flags_inv s s' order : ssi_inv s order → same_but_flags s s' → ssi_inv s' order.
Proof.
  intros (I1 & I2 & I3 & I4) Hf. destruct (flags_grows 0 s s' Hf) as (_ & _ & G2 & G3 & _ & _ & G6).
  split_and!; [by apply G6|done|intros x; by rewrite I3|]. intros a b c Hab Hbc Hb%G3 Hc%G3.
  unfold edge in Hab, Hbc. rewrite <- (flags_has s s') in Hab, Hbc by (done || by intros sx). by apply (I4 a b c).
Qed.

Lemma locks_inv f s order : ssi_inv s order → ssi_inv (on_locks f s) order.
Proof. done. Qed.

Lemma register_inv x ro s order : ssi_inv s order → ssi_inv (RegisterSerializableTransaction x ro s) order.
Proof.
  intros (I1 & I2 & I3 & I4). unfold RegisterSerializableTransaction, on_xacts. destruct (FindXact x (Xacts s)) as [sx|] eqn:Hx; [by destruct s|].
  set (new := mkXact x false false ro false [] []). set (s' := mkSsi _ _).
  assert (Hf : ∀ y, FindXact y (Xacts s') = if decide (y = x) then Some new else FindXact y (Xacts s)).
  { intros y. unfold s', FindXact in *. cbn [Xacts]. clear -Hx. induction (Xacts s) as [|sx xs IH]; cbn in *.
    - case_decide; subst; [by rewrite Z.eqb_refl|]. by rewrite (proj2 (Z.eqb_neq x y)) by congruence.
    - destruct (Z.eqb_spec (xid sx) x); [done|]. rewrite IH by done. destruct (Z.eqb_spec (xid sx) y); [|done]. by rewrite decide_False by congruence. }
  assert (Hhas : ∀ y (P : SERIALIZABLEXact → Prop), ¬ P new → has s y P ↔ has s' y P).
  { intros y P Hn. unfold has. rewrite Hf. case_decide; [subst|done]. rewrite Hx. split; intros (? & ? & ?); [done|congruence]. }
  assert (He : ∀ a b, edge s a b ↔ edge s' a b) by (intros a b; apply Hhas, not_elem_of_nil).
  assert (Hi : ∀ a b, edge_in s a b ↔ edge_in s' a b) by (intros a b; apply Hhas, not_elem_of_nil).
  split_and!.
  - destruct I1 as (H1 & H2 & H3). split_and!; [| |intros a b; by rewrite <- He, <- Hi]; intros y sy c; rewrite Hf; case_decide; subst;
      try (intros [= <-] ?%not_elem_of_nil; done); [apply H1|apply H2].
  - done.
  - intros y. rewrite I3. apply Hhas. done.
  - intros a b c Hab%He Hbc%He Hb%Hhas Hc%Hhas; [by apply (I4 a b c)|by intros [? _]..].
Qed.

(** Marking [x] as finished. *)
Lemma finished_inv x commit s order :
  ssi_inv s order → registered s x → ¬ is_finished s x → (commit = true → dangerous_structure x (Xacts s) = None) →
  ssi_inv (on_xacts (upd_xact x (set_finished commit)) s) (order ++ [x]).
Proof.
  intros (I1 & I2 & I3 & I4) (sx & Hx & _) Hn Hd. set (s' := on_xacts _ s).
  assert (Hf : ∀ y, FindXact y (Xacts s') = if decide (y = x) then Some (set_finished commit sx) else FindXact y (Xacts s)).
  { intros y. unfold s', on_xacts. cbn [Xacts]. rewrite find_upd by done. by rewrite Hx. }
  assert (Hhas : ∀ y (P : SERIALIZABLEXact → Prop), P (set_finished commit sx) ↔ P sx → has s y P ↔ has s' y P).
  { intros y P Hp. unfold has. rewrite Hf. case_decide; [subst; rewrite Hx|done]. split; intros (? & [= <-] & ?); eexists; (split; [done|by apply Hp]). }
  assert (He : ∀ a b, edge s a b ↔ edge s' a b) by (intros a b; by apply Hhas).
  assert (Hi : ∀ a b, edge_in s a b ↔ edge_in s' a b) by (intros a b; by apply Hhas).
  assert (Hc : ∀ y, is_committed s' y → is_committed s y ∨ (y = x ∧ commit = true)).
  { intros y. unfold is_committed, has. rewrite Hf. case_decide; [subst|by left]. intros (? & [= <-] & _ & ?). by right. }
  assert (Hx' : x ∉ order) by (by rewrite I3).
  split_and!.
  - destruct I1 as (H1 & H2 & H3). split_and!; [| |intros a b; by rewrite <- He, <- Hi]; intros y sy c; rewrite Hf; case_decide; subst;
      try (intros [= <-]; apply (H1 x sx c Hx) || apply (H2 x sx c Hx)); [apply H1|apply H2].
  - apply NoDup_app. split_and!; [done|intros y Hy ->%list_elem_of_singleton; done|apply NoDup_singleton].
  - intros y. rewrite elem_of_app, list_elem_of_singleton, I3. unfold is_finished at 2, has. rewrite Hf. case_decide; subst.
    + split; [intros _; by eexists|by right].
    + split; [intros [?|?]; done|by left].
  - intros a b c Hab%He Hbc%He Hb Hcc Hbef. assert (Hreg : ∀ a b, edge s a b → registered s a) by (intros ? ? (s0 & ? & _); by exists s0).
    assert (Hreg2 : registered s c) by (apply I1 in Hbc as (s0 & ? & _); by exists s0).
    assert (b ≠ c) as Hbc' by (destruct Hbc as (sb & Hsb & Hm); destruct I1 as (H1 & _); destruct (H1 b sb _ Hsb Hm); cbn in *; congruence).
    assert (Hold : ∀ y z, before order y z → y ∈ order ∧ z ∈ order) by (intros y z (i & j & _ & ? & ?); split; by eapply list_elem_of_lookup_2).
    assert (Hbs : b ∈ order → is_committed s b) by (intros ?; apply Hc in Hb as [?|[-> _]]; done).
    assert (Hright : c = x → a ∈ order → b ∈ order → False).
    { intros -> Ha%I3 Hbo%I3. apply (right_found s a b x); try done. apply Hd. by apply Hc in Hcc as [Hcc%committed_finished|[_ ?]]. }
    assert (Hcs : c ≠ x → is_committed s c) by (intros ?; by apply Hc in Hcc as [?|[? _]]).
    destruct Hbef as [Hbef|[Hac Hbc2]].
    + apply before_snoc in Hbef as [Hbef|[Ha ->]].
      * destruct (Hold _ _ Hbef) as [Ha Hbo]. destruct (decide (c = x)); [by apply Hright|]. by apply (I4 a b c); auto.
      * apply (middle_found s a x c); try done; [by apply I3|]. apply Hd. by apply Hc in Hb as [Hb%committed_finished|[_ ?]].
    + apply before_snoc in Hac as [Hac|[Ha ->]], Hbc2 as [Hbc2|[Hbo E]].
      * destruct (Hold _ _ Hac) as [Ha Hco], (Hold _ _ Hbc2) as [Hbo _]. assert (c ≠ x) by (by intros ->). by apply (I4 a b c); auto.
      * destruct (Hold _ _ Hac) as [Ha Hco]. by subst c.
      * destruct (Hold _ _ Hbc2) as [_ Hxo]. done.
      * by apply Hright.
Qed.

Lemma finish_xact_run x commit s order :
  ssi_inv s order → done_in s x = false → ssi_inv (run_call (Finish x commit) s) (order_after (Finish x commit) s order).
Proof.
  intros I Hn. assert (¬ is_finished s x) as Hn' by (rewrite <- done_finished, Hn; done).
  assert (Hend : ∀ s1, same_but_flags s s1 → ssi_inv s1 order ∧ ¬ is_finished s1 x).
  { intros s1 H1. split; [by eapply same_flags_inv|]. unfold is_finished. by rewrite <- (flags_has s s1) by (done || by intros sx). }
  unfold order_after. cbn [run_call]. unfold exec, ReleaseSerializableTransaction. rewrite (bind_ret_run get _ s s s) by done. 
  destruct (FindXact x (Xacts s)) as [sx|] eqn:Hx; [|cbn; unfold done_in; by rewrite Hx]. unfold done_in in Hn. rewrite Hx in Hn. rewrite Hn.
  assert (Hlast : (commit = true → dangerous_structure x (Xacts s) = None) → ∀ s', s' = on_xacts (upd_xact x (set_finished commit)) s ∨
      (∃ f, s' = on_locks f (on_xacts (upd_xact x (set_finished commit)) s)) → ssi_inv s' (if done_in s' x then order ++ [x] else order)).
  { intros Hd s' Hs'. assert (done_in s' x = true) as ->.
    { unfold done_in. destruct Hs' as [-> |[f ->]]; unfold on_locks, on_xacts; cbn [Xacts]; rewrite find_upd, decide_True, Hx by done; done. }
    destruct Hs' as [-> |[f ->]]; [|apply locks_inv]; apply finished_inv; try done; by exists sx. }
  destruct commit; cbn [andb negb when].
  - destruct (refuse_run x s) as (out & s1 & Hrun & Hf & Hok & _). destruct out as [[]|e].
    + destruct (Hok eq_refl) as (-> & Hd & _). rewrite (bind_ret_run _ _ _ _ _ Hrun). cbn. apply Hlast; [done|by left].
    + rewrite (bind_err_run _ _ _ _ _ Hrun). cbn. destruct (Hend s1 Hf) as [H1 H2]. destruct (done_in s1 x) eqn:E; [|done]. by apply done_finished in E.
  - run_step. apply Hlast; [done|right]. by eexists.
Qed.

Lemma reachable_inv s order : reachable s order → ssi_inv s order.
Proof.
  induction 1 as [|s order c _ IH Hok].
  - split_and!; [|apply NoDup_nil_2|intros x; split; [by intros ?%not_elem_of_nil|by intros (? & ? & _)]|by intros a b c (? & ? & _)].
    split_and!; [done|done|]. intros a b. split; by intros (? & ? & _).
  - destruct c as [x ro|rnode b o x|rnode b x|rnode x|x|x rnode b o|x commit|x|x]; cbn [order_after].
    + by apply register_inv.
    + by apply locks_inv.
    + by apply locks_inv.
    + by apply locks_inv.
    + by apply locks_inv.
    + destruct (write_run x rnode b o s) as (out & s' & Hrun & Hs' & _); [apply IH|]. cbn. unfold exec. rewrite Hrun. cbn.
      destruct Hs' as [[_ ->]|[(sx & Hx & Hn & _) Hg]]; [done|]. eapply grows_inv; [done| |done]. intros (? & ? & ?). congruence.
    + apply finish_xact_run; [done|]. cbn in Hok. by apply negb_true_iff in Hok.
    + destruct (check_run x s) as (s' & Hrun & Hf & _). cbn. unfold exec. rewrite Hrun. by eapply same_flags_inv.
    + cbn. unfold exec, OnConflict_CheckForSerializationFailure. rewrite (bind_ret_run get _ s s s) by done.
      destruct (FindXact x (Xacts s)) as [sx|]; [destruct (dangerous sx)|]; done.
Qed.

(** ** Theorems *)

Definition committed_edge (s : SsiState) (a b : Z) : Prop := edge s a b ∧ is_committed s a ∧ is_committed s b.

Lemma committed_chain s order a b c :
  ssi_inv s order → committed_edge s a b → committed_edge s b c → before order b a ∧ ¬ (before order a c ∧ before order b c).
Proof.
  intros (I1 & I2 & I3 & I4) (Hab & Ha & Hb) (Hbc & _ & Hc). pose proof (I4 a b c Hab Hbc Hb Hc) as Hn. split; [|tauto].
  assert (a ≠ b) by (destruct Hab as (sa & Hsa & Hm); destruct I1 as (H1 & _); destruct (H1 a sa _ Hsa Hm); cbn in *; congruence).
  destruct (before_total order a b) as [?|?]; try done; try (by apply I3, committed_finished). tauto.
Qed.

Lemma committed_path s order x y z : ssi_inv s order → tc (committed_edge s) x y → committed_edge s y z → before order y x.
Proof.
  intros I H. revert z. induction H as [x y Hxy|x x' y Hxx Hxy IH]; intros z Hz.
  - by apply (committed_chain s order x y z).
  - assert (∃ w, committed_edge s x' w) as [w Hw] by (inversion Hxy; eauto). apply (before_trans order y x' x); [apply I|by eapply IH|].
    by apply (committed_chain s order x x' w).
Qed.

(** C13: serializable transactions that committed never conflict in a cycle.
    Whatever calls were made, in any order and with any failures between them, as
    long as no transaction is released again after it was released as committed or
    aborted, the read-write conflicts among the committed transactions form no cycle
    (write skew, in particular, is refused); and of three in a chain the reader at
    its start committed last.  A second release is not refused and breaks this
    ([second_release_commits_cycle]). *)
Theorem committed_conflicts_acyclic s order :
  reachable s order →
  (∀ x, ¬ tc (committed_edge s) x x) ∧
  (∀ a b c, committed_edge s a b → committed_edge s b c → before order b a ∧ before order c a).
Proof.
  intros I%reachable_inv. assert (Hcyc : ∀ x, ¬ tc (committed_edge s) x x).
  { intros x Hx. assert (∃ w, committed_edge s x w) as [w Hw] by (inversion Hx; eauto). by apply (before_irrefl order x), (committed_path s order x x w); [apply I|..]. }
  split; [done|]. intros a b c Hab Hbc. destruct (committed_chain s order a b c I Hab Hbc) as [Hba Hlast]. split; [done|].
  assert (a ≠ c) as Hne by (intros ->; apply (Hcyc c); by eapply tc_l, tc_once).
  destruct I as (_ & I2 & I3 & _). destruct (before_total order a c) as [Hac|?]; [apply I3, committed_finished, Hab|apply I3, committed_finished, Hbc|done| |done].
  destruct Hlast. split; [done|]. by apply (before_trans order b a c).
Qed.

(** A run of calls from the start, each of them allowed. *)
Fixpoint run_calls (cs : list ssi_call) (s : SsiState) (order : list Z) : option (SsiState * list Z) :=
  match cs with
  | [] => Some (s, order)
  | c :: cs' => if call_ok s c then run_calls cs' (run_call c s) (order_after c s order) else None
  end.

Lemma run_calls_reachable cs s order r : reachable s order → run_calls cs s order = Some r → reachable r.1 r.2.
Proof.
  revert s order. induction cs as [|c cs IH]; intros s order Hs; cbn; [by intros [= <-]|]. destruct (call_ok s c) eqn:E; [|done]. by apply IH, reach_call.
Qed.

(** Two transactions that read both of two rows and write one each: the second
    one to commit is refused. *)
Definition demo_rnode : RelFileNode := mkRelFileNode 0 5 16384.
Definition write_skew : list ssi_call :=
  [Register 1 false; Register 2 false; LockTuple demo_rnode 0 1 1; LockTuple demo_rnode 0 2 1; LockTuple demo_rnode 0 1 2; LockTuple demo_rnode 0 2 2;
   Write 1 demo_rnode 0 1; Write 2 demo_rnode 0 2; Finish 1 true; Finish 2 true; Finish 2 false].

Lemma committed_conflicts_acyclic_witness : ∃ s order, reachable s order ∧ order = [1; 2] ∧ edge s 1 2 ∧ edge s 2 1 ∧ (∀ x, ¬ tc (committed_edge s) x x).
Proof.
  destruct (run_calls write_skew (mkSsi [] []) []) as [[s order]|] eqn:E; [|discriminate E]. pose proof (run_calls_reachable _ _ _ _ reach_init E) as Hr. cbn in Hr.
  exists s, order. split; [done|]. assert (E' := E). vm_compute in E'. injection E' as <- <-. split_and!.
  - reflexivity.
  - eexists. split; [reflexivity|]. by left.
  - eexists. split; [reflexivity|]. by left.
  - apply (committed_conflicts_acyclic _ _ Hr).
Defined.

(** Releasing a transaction again, as committed after it was aborted, makes it a
    committed one without any check: both transactions of a write skew commit. *)
Theorem second_release_commits_cycle :
  let s := foldl (λ s c, run_call c s) (mkSsi [] []) (write_skew ++ [Finish 2 true]) in
  committed_edge s 1 2 ∧ committed_edge s 2 1.
Proof.
  set (s := foldl _ _ _). vm_compute in s. split; (split; [eexists; split; [reflexivity|by left]|]); (split; eexists; (split; [reflexivity|done])).
Qed.

(** C14: a write records exactly the conflicts it causes.  If the check of a
    write passes, the new edges lead from the transactions whose predicate
    locks cover the written tuple to the writer, except from the writer itself
    and from aborted ones; a transaction that does not run or only reads
    causes none.  If it fails, it names the writer, and some lock covers the
    tuple.  Locks and the fate of transactions stay as they were. *)
Theorem write_records_conflicts s order wr rnode b o :
  reachable s order →
  ∃ out s', CheckForSerializableConflict wr rnode b o s = (out, s') ∧
    Locks s' = Locks s ∧ (∀ x, is_finished s' x ↔ is_finished s x) ∧ (∀ x, is_committed s' x ↔ is_committed s x) ∧
    (out = Ret tt → ∀ x y, edge s' x y ↔ edge s x y ∨ (y = wr ∧ may_write s wr ∧ ∃ lock, lock ∈ Locks s ∧ read_under s wr rnode b o lock x)) ∧
    (∀ e, out = Ereport e → e = serialization_failure wr ∧ may_write s wr ∧ PredicateLockConflicts rnode b o (Locks s) = true).
Proof.
  intros (Hg & _)%reachable_inv. destruct (write_run wr rnode b o s Hg) as (out & s' & Hrun & Hs' & Hok & Herr). exists out, s'. split; [done|].
  assert (Hs : Locks s' = Locks s ∧ (∀ x, is_finished s' x ↔ is_finished s x) ∧ (∀ x, is_committed s' x ↔ is_committed s x)).
  { destruct Hs' as [[_ ->]|[_ (? & _ & Hf & Hc & _)]]; [done|]. split_and!; [done|intros x; by rewrite Hf|intros x; by rewrite Hc]. }
  split_and!; [apply Hs..| |].
  - done.
  - intros e He. destruct (Herr e He) as (-> & Hm & lock & a & Hl & Hr). split_and!; [done|done|]. apply existsb_exists. exists lock.
    split; [by apply list_elem_of_In|]. apply matches_covers, Hr.
Qed.

Lemma write_records_conflicts_witness :
  ∃ s order, reachable s order ∧ ∃ out s', CheckForSerializableConflict 2 demo_rnode 0 2 s = (out, s') ∧ edge s' 1 2 ∧ ¬ edge s 1 2.
Proof.
  destruct (run_calls (take 7 write_skew) (mkSsi [] []) []) as [[s order]|] eqn:E; [|discriminate E]. pose proof (run_calls_reachable _ _ _ _ reach_init E) as Hr. cbn in Hr.
  exists s, order. split; [done|]. destruct (write_records_conflicts s order 2 demo_rnode 0 2 Hr) as (out & s' & Hrun & _ & _ & _ & Hok & _).
  exists out, s'. split; [done|]. vm_compute in E. injection E as <- <-. split.
  - assert (out = Ret tt) as -> by (vm_compute in Hrun; by injection Hrun as <- _). apply (Hok eq_refl). right. split; [done|]. split; [eexists; split; [reflexivity|done]|].
    exists (mkLock (mkTag demo_rnode 0 2) 1 true). split; [right; by left|]. split_and!; [done|done|eexists; by split| |by split; [|right; split; [|right]]].
    intros [(sx & Hx & Hf) _]. vm_compute in Hx. injection Hx as <-. discriminate Hf.
  - intros (sx & Hx & He). vm_compute in Hx. injection Hx as <-. by apply not_elem_of_nil in He.
Defined.

(** ** What the search misses

    The release of T1 searches before it marks T1 as finished, but the case of
    T1 requires that it is: a pivot T2 between a reader T1 that commits last
    and a writer T3 that commits first is never found.  With T1 reading what
    T3 wrote, this is an anomaly of three transactions. *)
Definition pivot : list ssi_call :=
  [Register 1 true; Register 2 false; Register 3 false; LockTuple demo_rnode 0 2 2; Write 3 demo_rnode 0 2; Finish 3 true;
   LockTuple demo_rnode 0 1 1; LockTuple demo_rnode 0 2 1; Write 2 demo_rnode 0 1; Finish 2 true; Finish 1 true].

Theorem pivot_commits :
  ∃ s, run_calls pivot (mkSsi [] []) [] = Some (s, [3; 2; 1]) ∧ committed_edge s 1 2 ∧ committed_edge s 2 3.
Proof. eexists. split; [vm_compute; reflexivity|]. split; split_and!; (eexists; split; [reflexivity|]); (done || by left). Qed.

(** Conflicts are looked for when something is written, never when it is read:
    two transactions that write first and read the other's row afterwards are
    not found to conflict at all. *)
Definition late_reads : list ssi_call :=
  [Register 1 false; Register 2 false; Write 1 demo_rnode 0 1; Write 2 demo_rnode 0 2; LockTuple demo_rnode 0 2 1; LockTuple demo_rnode 0 1 2;
   Finish 1 true; Finish 2 true].

Theorem late_reads_unnoticed :
  ∃ s, run_calls late_reads (mkSsi [] []) [] = Some (s, [1; 2]) ∧ is_committed s 1 ∧ is_committed s 2 ∧ (∀ a b, ¬ edge s a b).
Proof.
  eexists. split; [vm_compute; reflexivity|]. split_and!; [by eexists|by eexists|]. intros a b (sx & Hx & He). unfold FindXact in Hx. cbn [Xacts List.find xid] in Hx.
  destruct (1 =? a); [injection Hx as <-|destruct (2 =? a); [injection Hx as <-|done]]; by apply not_elem_of_nil in He.
Qed.

End SsiSpec.
