(* ===== verification/TupleTape.v ===== *)
(** * Tuples on temporary files

    What src/utils/sort/tuplesort.cpp and tuplestore.cpp share: a slot of
    src/executor/tupletable.cpp with its values, the copy of a slot, and the
    bytes of a tuple on a temporary file.  Both files have their own copy of
    the same code; their error messages differ in the first word, [who].

    A [FILE] is its bytes and its position.  Creating, writing and seeking are
    assumed to succeed; reading past the end is the code's end-of-file case. *)

From stdpp Require Import base list strings.
From S2P Require Import Prelude HeapTuple HeapForm.

Module TupleTape.
Import HeapTuple HeapForm.

(** ** Slots *)

Record TupleTableSlot := mkSlot { tts_tupleDescriptor : TupleDescData; tts_values : list Datum; tts_isnull : list bool }.

Definition Natts (slot : TupleTableSlot) : nat := length (attrs (tts_tupleDescriptor slot)).

(** [TupleDescData::Attr], from 0. *)
Definition Attr_at (d : TupleDescData) (i : nat) : option Attr := attrs d !! i.

Definition Make (tupdesc : TupleDescData) : TupleTableSlot :=
  let n := length (attrs tupdesc) in mkSlot tupdesc (replicate n (DVal 0)) (replicate n true).

Definition StoreVirtual (values : list Datum) (isnull : list bool) (slot : TupleTableSlot) : TupleTableSlot :=
  let n := Natts slot in
  mkSlot (tts_tupleDescriptor slot) ((λ i, default (DVal 0) (values !! i)) <$> seq 0 n) ((λ i, default true (isnull !! i)) <$> seq 0 n).

(** Values by position: whether it is null, its word, the bytes it points to. *)
Definition null_at (slot : TupleTableSlot) (i : nat) : bool := default true (tts_isnull slot !! i).
Definition value_at (slot : TupleTableSlot) (i : nat) : Datum := default (DVal 0) (tts_values slot !! i).
Definition word_of (v : Datum) : Z := match v with DVal z => z | DRef _ => 0 end.
Definition DatumGetTextP (v : Datum) : list Z := match v with DRef b => b | DVal _ => [] end.

(** [VARDATA] and its length. *)
Definition VARDATA (text : list Z) : list Z := drop 4 text.
Definition VARSIZE_DATA (text : list Z) : Z := i32 (VARSIZE text - 4).

Definition by_value (a : option Attr) : bool := match a with Some a => attbyval a | None => false end.

(** The copy [PutTuple] makes: pointers lead to fresh copies. *)
Definition copy_value (a : option Attr) (null : bool) (v : Datum) : Datum :=
  if null then v
  else
    match a with
    | Some a => if attbyval a then v else DRef (take (Z.to_nat (VARSIZE (DatumGetTextP v))) (DatumGetTextP v))
    | None => v
    end.
Definition copy_slot (slot : TupleTableSlot) : TupleTableSlot :=
  let copy := StoreVirtual (tts_values slot) (tts_isnull slot) (Make (tts_tupleDescriptor slot)) in
  mkSlot (tts_tupleDescriptor copy)
    ((λ i, copy_value (Attr_at (tts_tupleDescriptor copy) i) (null_at copy i) (value_at copy i)) <$> seq 0 (Natts copy))
    (tts_isnull copy).

(** ** The memory estimate *)

(** Four pointers and five flags. *)
Definition sizeof_TupleTableSlot : Z := 40.

Fixpoint byref_size (slot : TupleTableSlot) (i n : nat) (size : Z) : Z :=
  match n with
  | O => size
  | S n' =>
      byref_size slot (S i) n'
        (if null_at slot i || by_value (Attr_at (tts_tupleDescriptor slot) i) then size
         else u64 (size + VARSIZE (DatumGetTextP (value_at slot i))))
  end.
Definition EstimateSlotSize (slot : TupleTableSlot) : Z :=
  let natts := Z.of_nat (Natts slot) in
  byref_size slot 0 (Natts slot) (u64 (sizeof_TupleTableSlot + 8 * natts + natts)).

(** ** Files *)

Record FILE := mkFile { file_bytes : list Z; file_pos : nat }.

Definition new_file : FILE := mkFile [] 0.
Definition fwrite (data : list Z) (f : FILE) : FILE :=
  mkFile (take (file_pos f) (file_bytes f) ++ data ++ drop (file_pos f + length data) (file_bytes f)) (file_pos f + length data).
Definition fread (n : nat) (f : FILE) : list Z * FILE :=
  let got := take n (drop (file_pos f) (file_bytes f)) in (got, mkFile (file_bytes f) (file_pos f + length got)).
Definition rewind (f : FILE) : FILE := mkFile (file_bytes f) 0.

(** [None] at the end of the file. *)
Definition ReadPod (n : nat) : M FILE (option (list Z)) :=
  λ f, let '(got, f') := fread n f in (Ret (if (length got =? n)%nat then Some got else None), f').

(** [ReadPod], or the error that the file ends here. *)
Definition must_read (n : nat) (msg : string) : M FILE (list Z) :=
  r ← ReadPod n;
  match r with Some b => mret b | None => ereport msg end.

(** [fread] of bytes, or the error that there are fewer. *)
Definition must_fread (n : nat) (msg : string) : M FILE (list Z) :=
  λ f, let '(got, f') := fread n f in (if (length got =? n)%nat then Ret got else Ereport msg, f').

(** ** Writing a tuple *)

Definition pod_size (len : Z) : nat := if len =? 1 then 1 else if len =? 2 then 2 else if len =? 4 then 4 else 8.

Definition text_bytes (text : list Z) : list Z := to_le 4 (VARSIZE text) ++ take (Z.to_nat (VARSIZE text - 4)) (VARDATA text).

Definition cell_bytes (a : option Attr) (null : bool) (v : Datum) : list Z :=
  if null then [1]
  else
    0 :: match a with
         | Some a =>
             if attbyval a then to_le 2 (attlen a) ++ to_le (pod_size (attlen a)) (word_of v) else text_bytes (DatumGetTextP v)
         | None => text_bytes (DatumGetTextP v)
         end.

(** [d] is the descriptor the writer takes the attributes from. *)
Definition tuple_bytes (d : TupleDescData) (slot : TupleTableSlot) : list Z :=
  to_le 4 (Z.of_nat (Natts slot)) ++
  concat ((λ i, cell_bytes (Attr_at d i) (null_at slot i) (value_at slot i)) <$> seq 0 (Natts slot)).

(** ** Reading a tuple *)

Section read.
Variable who : string.

Definition read_cell (a : option Attr) : M FILE (Datum * bool) :=
  b ← must_read 1 (who +:+ ": unexpected EOF reading tuple");
  if negb (of_le b =? 0) then mret (DVal 0, true)
  else if by_value a then
    len ← must_read 2 (who +:+ ": unexpected EOF reading length");
    data ← must_fread (Z.to_nat (of_le len)) (who +:+ ": unexpected EOF reading byval datum");
    mret (DVal (of_le data), false)
  else
    len ← must_read 4 (who +:+ ": unexpected EOF reading varlena length");
    data ← must_fread (Z.to_nat (of_le len - 4)) (who +:+ ": unexpected EOF reading byref datum");
    mret (DRef (len ++ data), false).

Fixpoint read_cells (d : TupleDescData) (i n : nat) : M FILE (list (Datum * bool)) :=
  match n with
  | O => mret []
  | S n' => c ← read_cell (Attr_at d i); cs ← read_cells d (S i) n'; mret (c :: cs)
  end.

(** Into the arrays of [slot], from the front. *)
Definition read_tuple (d : TupleDescData) (slot : TupleTableSlot) : M FILE (option TupleTableSlot) :=
  r ← ReadPod 4;
  match r with
  | None => mret None
  | Some b =>
      let natts := Z.to_nat (i32 (of_le b)) in
      cs ← read_cells d 0 natts;
      mret (Some (mkSlot (tts_tupleDescriptor slot) (cs.*1 ++ drop natts (tts_values slot)) (cs.*2 ++ drop natts (tts_isnull slot))))
  end.
End read.

(** ** Reading returns what was written *)

(** A text without the flags of a compressed or external value. *)
Definition plain_text (b : list Z) : Prop := Forall is_u8 b ∧ of_le (take 4 b) = Z.of_nat (length b) ∧ (4 ≤ length b)%nat ∧ Z.of_nat (length b) < 2 ^ 30.

(** A value as the type's functions make it. *)
Definition wf_cell (a : Attr) (v : Datum) : Prop :=
  if attbyval a
  then (attlen a = 1 ∨ attlen a = 2 ∨ attlen a = 4 ∨ attlen a = 8) ∧ ∃ z, v = DVal z ∧ 0 ≤ z < 256 ^ attlen a
  else ∃ b, v = DRef b ∧ plain_text b.

Definition wf_slot (d : TupleDescData) (s : TupleTableSlot) : Prop :=
  tts_tupleDescriptor s = d ∧ length (tts_values s) = length (attrs d) ∧ length (tts_isnull s) = length (attrs d) ∧
  ∀ i a, attrs d !! i = Some a → null_at s i = false → wf_cell a (value_at s i).

(** Null columns have no value. *)
Definition clean (s : TupleTableSlot) : TupleTableSlot :=
  mkSlot (tts_tupleDescriptor s) ((λ i, if null_at s i then DVal 0 else value_at s i) <$> seq 0 (Natts s)) (tts_isnull s).

(** What is still to be read. *)
Definition unread (f : FILE) (l : list Z) : Prop := drop (file_pos f) (file_bytes f) = l.

Lemma fread_run n f a l : unread f (a ++ l) → length a = n → ∃ f', fread n f = (a, f') ∧ unread f' l ∧ file_bytes f' = file_bytes f.
Proof.
  intros Hf Hn. unfold fread. rewrite Hf, take_app_length' by done. eexists. split; [reflexivity|]. split; [|done].
  unfold unread. cbn. by rewrite <- drop_drop, Hf, drop_app_length.
Qed.

Lemma read_pod_run n f a l : unread f (a ++ l) → length a = n → ∃ f', ReadPod n f = (Ret (Some a), f') ∧ unread f' l ∧ file_bytes f' = file_bytes f.
Proof.
  intros Hf Hn. destruct (fread_run n f a l Hf Hn) as (f' & Hr & Hu & Hb). exists f'. unfold ReadPod. rewrite Hr. by rewrite (proj2 (Nat.eqb_eq _ _)).
Qed.

Lemma must_read_run n msg f a l : unread f (a ++ l) → length a = n → ∃ f', must_read n msg f = (Ret a, f') ∧ unread f' l ∧ file_bytes f' = file_bytes f.
Proof.
  intros Hf Hn. destruct (read_pod_run n f a l Hf Hn) as (f' & Hr & H). exists f'. unfold must_read. by rewrite (bind_ret_run _ _ _ _ _ Hr).
Qed.

Lemma must_fread_run n msg f a l : unread f (a ++ l) → length a = n → ∃ f', must_fread n msg f = (Ret a, f') ∧ unread f' l ∧ file_bytes f' = file_bytes f.
Proof.
  intros Hf Hn. destruct (fread_run n f a l Hf Hn) as (f' & Hr & H). exists f'. unfold must_fread. rewrite Hr. by rewrite (proj2 (Nat.eqb_eq _ _)).
Qed.

Lemma plain_size b : plain_text b → VARSIZE b = Z.of_nat (length b).
Proof.
  intros (H1 & H2 & H3 & H4). unfold VARSIZE, VARSIZE_ANY, VARATT_IS_EXTERNAL, VARATT_HEADER. rewrite H2. unfold has_flag, kVarAttExternal, kVarAttSizeMask.
  change 0x80000000 with (2 ^ 31). rewrite flag_bit by done. rewrite Z.bits_above_log2; [|lia|].
  - change 0x3FFFFFFF with (Z.ones 30). rewrite Z.land_ones by lia. apply Z.mod_small. lia.
  - destruct (decide (Z.of_nat (length b) = 0)) as [-> |]; [done|]. apply Z.log2_lt_pow2; lia.
Qed.

Lemma le4_length b : plain_text b → to_le 4 (Z.of_nat (length b)) = take 4 b.
Proof.
  intros (H1 & H2 & H3 & H4). apply of_le_inj; [apply to_le_u8|by apply Forall_take|rewrite length_to_le, length_take; lia|].
  rewrite of_to_le, H2. apply Z.mod_small. cbn. lia.
Qed.

Section read_back.
Variable who : string.

Lemma read_cell_run a null v f l :
  unread f (cell_bytes (Some a) null v ++ l) → (null = false → wf_cell a v) →
  ∃ f', read_cell who (Some a) f = (Ret (if null then DVal 0 else v, null), f') ∧ unread f' l ∧ file_bytes f' = file_bytes f.
Proof.
  intros Hf Hw. unfold read_cell, cell_bytes in *. destruct null.
  { destruct (must_read_run 1 (who +:+ ": unexpected EOF reading tuple") f [1] l) as (f1 & R1 & U1 & B1); [done..|].
    exists f1. by rewrite (bind_ret_run _ _ _ _ _ R1). }
  specialize (Hw eq_refl). unfold wf_cell in Hw. cbn [app] in Hf. 
  destruct (must_read_run 1 (who +:+ ": unexpected EOF reading tuple") f [0] _ Hf eq_refl) as (f1 & R1 & U1 & B1).
  rewrite (bind_ret_run _ _ _ _ _ R1). change (of_le [0]) with 0. cbn [Z.eqb negb by_value]. destruct (attbyval a).
  - destruct Hw as (Hlen & z & -> & Hz). cbn [word_of] in U1. rewrite <- app_assoc in U1.
    destruct (must_read_run 2 (who +:+ ": unexpected EOF reading length") f1 _ _ U1) as (f2 & R2 & U2 & B2); [apply length_to_le|].
    rewrite (bind_ret_run _ _ _ _ _ R2). rewrite of_to_le, Z.mod_small by (destruct Hlen as [-> | [-> | [-> | ->]]]; done).
    assert (Hp : pod_size (attlen a) = Z.to_nat (attlen a)) by (destruct Hlen as [-> | [-> | [-> | ->]]]; done). rewrite Hp in U2.
    destruct (must_fread_run (Z.to_nat (attlen a)) (who +:+ ": unexpected EOF reading byval datum") f2 _ _ U2) as (f3 & R3 & U3 & B3); [apply length_to_le|].
    rewrite (bind_ret_run _ _ _ _ _ R3). exists f3. rewrite of_to_le, Z2Nat.id by lia. rewrite Z.mod_small by done. split_and!; [done|done|congruence].
  - destruct Hw as (b & -> & Hb). cbn [DatumGetTextP] in U1. unfold text_bytes in U1. rewrite plain_size in U1 by done. rewrite <- app_assoc in U1.
    destruct (must_read_run 4 (who +:+ ": unexpected EOF reading varlena length") f1 _ _ U1) as (f2 & R2 & U2 & B2); [apply length_to_le|].
    rewrite (bind_ret_run _ _ _ _ _ R2). pose proof Hb as (_ & Hh & H4 & H30). rewrite of_to_le, Z.mod_small by (cbn; lia).
    destruct (must_fread_run (Z.to_nat (Z.of_nat (length b) - 4)) (who +:+ ": unexpected EOF reading byref datum") f2 _ _ U2) as (f3 & R3 & U3 & B3);
      [unfold VARDATA; rewrite length_take, length_drop; lia|].
    rewrite (bind_ret_run _ _ _ _ _ R3). exists f3. split; [|split; [done|congruence]].
    unfold VARDATA. rewrite (take_ge (drop 4 b)) by (rewrite length_drop; lia). by rewrite le4_length, take_drop.
Qed.

Lemma read_cells_run d s n : ∀ i f l,
  (i + n = length (attrs d))%nat → wf_slot d s →
  unread f (concat ((λ i, cell_bytes (Attr_at d i) (null_at s i) (value_at s i)) <$> seq i n) ++ l) →
  ∃ f', read_cells who d i n f = (Ret ((λ i, (if null_at s i then DVal 0 else value_at s i, null_at s i)) <$> seq i n), f') ∧
    unread f' l ∧ file_bytes f' = file_bytes f.
Proof.
  induction n as [|n IH]; intros i f l Hi Hw Hf; [by exists f|]. cbn [seq fmap list_fmap concat] in Hf. rewrite <- app_assoc in Hf.
  destruct (lookup_lt_is_Some_2 (attrs d) i) as [a Ha]; [lia|]. cbn [read_cells]. unfold Attr_at in *. rewrite Ha in *.
  destruct (read_cell_run a (null_at s i) (value_at s i) f _ Hf) as (f1 & R1 & U1 & B1); [intros Hn; by apply Hw|].
  rewrite (bind_ret_run _ _ _ _ _ R1). destruct (IH (S i) f1 l ltac:(lia) Hw U1) as (f2 & R2 & U2 & B2).
  rewrite (bind_ret_run _ _ _ _ _ R2). exists f2. split_and!; [done|done|congruence].
Qed.

Lemma seq_lookup_all {A : Type} (l : list A) (x : A) : (λ i, default x (l !! i)) <$> seq 0 (length l) = l.
Proof.
  apply list_eq. intros i. rewrite list_lookup_fmap. destruct (decide (i < length l)%nat).
  - rewrite lookup_seq_lt by done. cbn. by destruct (lookup_lt_is_Some_2 l i) as [y ->].
  - rewrite (lookup_ge_None_2 l), (lookup_ge_None_2 (seq _ _)) by (rewrite ?length_seq; lia). done.
Qed.

(** A tuple that was written is read back, without values for null columns. *)
Lemma read_tuple_run d s slot f l :
  wf_slot d s → tts_tupleDescriptor slot = d → length (tts_values slot) = length (attrs d) → length (tts_isnull slot) = length (attrs d) →
  Z.of_nat (length (attrs d)) < 2 ^ 31 → unread f (tuple_bytes d s ++ l) →
  ∃ f', read_tuple who d slot f = (Ret (Some (clean s)), f') ∧ unread f' l ∧ file_bytes f' = file_bytes f.
Proof.
  intros Hw Hd Hv Hi Hn Hf. pose proof Hw as (E1 & E2 & E3 & _). unfold tuple_bytes, Natts in Hf. rewrite E1, <- app_assoc in Hf. unfold read_tuple.
  destruct (read_pod_run 4 f _ _ Hf) as (f1 & R1 & U1 & B1); [apply length_to_le|]. rewrite (bind_ret_run _ _ _ _ _ R1).
  rewrite of_to_le, Z.mod_small by (cbn; lia). rewrite i32_small by lia. rewrite Nat2Z.id.
  destruct (read_cells_run d s (length (attrs d)) 0 f1 l ltac:(lia) Hw U1) as (f2 & R2 & U2 & B2). rewrite (bind_ret_run _ _ _ _ _ R2).
  exists f2. split; [|split; [done|congruence]]. unfold clean, Natts. rewrite E1, Hd, !drop_ge, !app_nil_r by lia.
  assert (tts_isnull s = null_at s <$> seq 0 (length (attrs d))) as -> by (unfold null_at; rewrite <- E3; symmetry; apply seq_lookup_all).
  by rewrite <- !list_fmap_compose.
Qed.

(** At the end of the file there is no tuple. *)
Lemma read_tuple_end d slot f : unread f [] → read_tuple who d slot f = (Ret None, f).
Proof.
  intros Hf. unfold read_tuple. rewrite (bind_ret_run _ _ f None f); [done|]. unfold unread in Hf. unfold ReadPod, fread. rewrite Hf.
  destruct f. cbn. by rewrite Nat.add_0_r.
Qed.
End read_back.

(** Writing at the end of the file. *)
Lemma fwrite_end data f : file_pos f = length (file_bytes f) →
  file_bytes (fwrite data f) = file_bytes f ++ data ∧ file_pos (fwrite data f) = length (file_bytes (fwrite data f)).
Proof. intros Hp. unfold fwrite. cbn. rewrite Hp, take_ge, drop_ge, app_nil_r, length_app by lia. done. Qed.

(** Plain slots are copied as they are. *)
Lemma copy_ok d s : wf_slot d s → copy_slot s = s.
Proof.
  intros (E1 & E2 & E3 & Hc). destruct s as [d' values isnull]. cbn in E1, E2, E3. subst d'. unfold copy_slot, StoreVirtual, Make, Natts. cbn [tts_tupleDescriptor tts_values tts_isnull].
  assert (Hv : (λ i, default (DVal 0) (values !! i)) <$> seq 0 (length (attrs d)) = values) by (rewrite <- E2; apply seq_lookup_all).
  assert (Hi : (λ i, default true (isnull !! i)) <$> seq 0 (length (attrs d)) = isnull) by (rewrite <- E3; apply seq_lookup_all).
  rewrite Hv, Hi. f_equal. etrans; [|exact Hv]. apply list_fmap_ext. intros j i Hj%lookup_seq. destruct Hj as [-> Hj].
  unfold null_at, value_at, Attr_at in *. cbn [tts_isnull tts_values] in *. cbn [Nat.add] in *. unfold copy_value.
  destruct (lookup_lt_is_Some_2 (attrs d) j Hj) as [a Ha]. rewrite Ha. destruct (default true (isnull !! j)) eqn:En; [done|].
  specialize (Hc j a Ha En). unfold wf_cell in Hc. destruct (attbyval a); [done|]. destruct Hc as (b & -> & Hb). cbn [DatumGetTextP].
  rewrite plain_size by done. by rewrite Nat2Z.id, firstn_all.
Qed.

End TupleTape.
