(* ===== verification/Tuplesort.v ===== *)
(** * The external merge sort

    src/utils/sort/tuplesort.cpp and include/utils/sort/tuplesort.hpp: tuples
    are collected, sorted in memory or, past [work_mem], written as sorted runs
    to tapes and merged.

    [std::sort] is the interface [StdSort]: any function that sorts under a
    strict weak order.  The files of the tapes have no other user, and their
    creation and writing succeed.  A returned slot is the value of the slot the code
    returns a pointer to, at the time of the return. *)

From Stdlib Require Import Floats.SpecFloat.
From stdpp Require Import base list strings.
From S2P Require Import Prelude HeapForm NbtPage TupleTape.

Module Tuplesort.
Import HeapForm TupleTape.

(** ** Comparing values *)

Definition kBoolOid : Z := 16.
Definition kInt8Oid : Z := 20.
Definition kInt4Oid : Z := 23.
Definition kTextOid : Z := 25.
Definition kFloat8Oid : Z := 708.
Definition kDateOid : Z := 1082.
Definition kTimestampOid : Z := 1114.

Definition DatumGetInt32 (v : Datum) : Z := i32 (word_of v).
Definition DatumGetInt64 (v : Datum) : Z := i64 (word_of v).
Definition DatumGetBool (v : Datum) : bool := negb (word_of v =? 0).

(** The bits of a datum as an IEEE 754 double. *)
Definition DatumGetFloat8 (v : Datum) : spec_float :=
  let x := word_of v in
  let s := Z.testbit x 63 in
  let e := (x / 2 ^ 52) `mod` 2 ^ 11 in
  let m := x `mod` 2 ^ 52 in
  if e =? 2047 then (if m =? 0 then S754_infinity s else S754_nan)
  else
    let '(m, e) := if e =? 0 then (m, -1074) else (m + 2 ^ 52, e - 1075) in
    match m with Zpos p => S754_finite s p e | _ => S754_zero s end.

Definition compare_int (va vb : Z) : Z := if va <? vb then -1 else if vb <? va then 1 else 0.

Definition compare_text (pa pb : list Z) : Z :=
  let la := VARSIZE_DATA pa in
  let lb := VARSIZE_DATA pb in
  let min_len := if la <? lb then la else lb in
  let cmp := NbtPage.memcmp (Z.to_nat min_len) (VARDATA pa) (VARDATA pb) in
  if negb (cmp =? 0) then (if cmp <? 0 then -1 else 1) else compare_int la lb.

Definition CompareValues (a b : Datum) (typid : Z) : Z :=
  if (typid =? kInt4Oid) || (typid =? kDateOid) then compare_int (DatumGetInt32 a) (DatumGetInt32 b)
  else if (typid =? kInt8Oid) || (typid =? kTimestampOid) then compare_int (DatumGetInt64 a) (DatumGetInt64 b)
  else if typid =? kFloat8Oid then
    let va := DatumGetFloat8 a in
    let vb := DatumGetFloat8 b in
    if SFltb va vb then -1 else if SFltb vb va then 1 else 0
  else if typid =? kBoolOid then
    let va := DatumGetBool a in
    let vb := DatumGetBool b in
    if eqb va vb then 0 else if va then 1 else -1
  else if typid =? kTextOid then compare_text (DatumGetTextP a) (DatumGetTextP b)
  else 0.

Record SortKey := mkKey { attnum : Z; typid : Z; reverse : bool; nulls_first : bool }.

Definition key_null (slot : TupleTableSlot) (attno : Z) : bool :=
  if (1 <=? attno) && (attno <=? Z.of_nat (Natts slot)) then null_at slot (Z.to_nat (attno - 1)) else true.

Fixpoint Compare (keys : list SortKey) (a b : TupleTableSlot) : Z :=
  match keys with
  | [] => 0
  | key :: keys' =>
      let attno := attnum key in
      if key_null a attno && key_null b attno then Compare keys' a b
      else if key_null a attno then (if nulls_first key then -1 else 1)
      else if key_null b attno then (if nulls_first key then 1 else -1)
      else
        let cmp := CompareValues (value_at a (Z.to_nat (attno - 1))) (value_at b (Z.to_nat (attno - 1))) (typid key) in
        if cmp =? 0 then Compare keys' a b else if reverse key then - cmp else cmp
  end.

(** The process id. *)
Class Process := getpid : Z.

(** [std::sort] with a comparison. *)
Class StdSort := std_sort : (TupleTableSlot → TupleTableSlot → bool) → list TupleTableSlot → list TupleTableSlot.

(** ** Tapes *)

Record LogicalTape := mkTape { path_ : string; tape_file : FILE; tape_tupdesc : TupleDescData; writing_ : bool; num_tuples_ : Z }.

(** [fopen] with mode w+b: an empty file.  A tape has its file to itself; the
    paths of a sort's tapes are distinct ([own_paths_distinct]). *)
Definition new_tape (path : string) (tupdesc : TupleDescData) : LogicalTape := mkTape path new_file tupdesc true 0.
Definition WriteTuple (slot : TupleTableSlot) (t : LogicalTape) : LogicalTape :=
  mkTape (path_ t) (fwrite (tuple_bytes (tape_tupdesc t) slot) (tape_file t)) (tape_tupdesc t) (writing_ t) (i32 (num_tuples_ t + 1)).
Definition Rewind (t : LogicalTape) : LogicalTape := mkTape (path_ t) (rewind (tape_file t)) (tape_tupdesc t) false (num_tuples_ t).
Definition ReadTuple : M LogicalTape (option TupleTableSlot) :=
  λ t, let '(o, f) := read_tuple "tuplesort" (tape_tupdesc t) (Make (tape_tupdesc t)) (tape_file t) in
       (o, mkTape (path_ t) f (tape_tupdesc t) (writing_ t) (num_tuples_ t)).

(** ** The sort *)

Record TupleSort := mkSort {
  tupdesc_ : TupleDescData;
  keys_ : list SortKey;
  work_mem_ : Z;
  temp_dir_ : string;
  mem_tuples_ : list TupleTableSlot;
  mem_used_ : Z;
  tapes_ : list LogicalTape;
  mem_output_index_ : nat;
  merge_heap_ : list (Z * TupleTableSlot);
  output_slot_ : TupleTableSlot;
  tape_counter_ : Z;
  is_sorted : bool }.

Definition new_sort (tupdesc : TupleDescData) (keys : list SortKey) (work_mem : Z) (temp_dir : string) : TupleSort :=
  mkSort tupdesc keys work_mem temp_dir [] 0 [] 0 [] (Make tupdesc) 0 false.

Definition with_mem (mem : list TupleTableSlot) (used : Z) (st : TupleSort) : TupleSort :=
  mkSort (tupdesc_ st) (keys_ st) (work_mem_ st) (temp_dir_ st) mem used (tapes_ st) (mem_output_index_ st) (merge_heap_ st) (output_slot_ st) (tape_counter_ st) (is_sorted st).
Definition with_tapes (tapes : list LogicalTape) (st : TupleSort) : TupleSort :=
  mkSort (tupdesc_ st) (keys_ st) (work_mem_ st) (temp_dir_ st) (mem_tuples_ st) (mem_used_ st) tapes (mem_output_index_ st) (merge_heap_ st) (output_slot_ st) (tape_counter_ st) (is_sorted st).
Definition with_heap (heap : list (Z * TupleTableSlot)) (st : TupleSort) : TupleSort :=
  mkSort (tupdesc_ st) (keys_ st) (work_mem_ st) (temp_dir_ st) (mem_tuples_ st) (mem_used_ st) (tapes_ st) (mem_output_index_ st) heap (output_slot_ st) (tape_counter_ st) (is_sorted st).
Definition with_output (i : nat) (slot : TupleTableSlot) (st : TupleSort) : TupleSort :=
  mkSort (tupdesc_ st) (keys_ st) (work_mem_ st) (temp_dir_ st) (mem_tuples_ st) (mem_used_ st) (tapes_ st) i (merge_heap_ st) slot (tape_counter_ st) (is_sorted st).
Definition with_counter (n : Z) (st : TupleSort) : TupleSort :=
  mkSort (tupdesc_ st) (keys_ st) (work_mem_ st) (temp_dir_ st) (mem_tuples_ st) (mem_used_ st) (tapes_ st) (mem_output_index_ st) (merge_heap_ st) (output_slot_ st) n (is_sorted st).
Definition set_sorted (st : TupleSort) : TupleSort :=
  mkSort (tupdesc_ st) (keys_ st) (work_mem_ st) (temp_dir_ st) (mem_tuples_ st) (mem_used_ st) (tapes_ st) (mem_output_index_ st) (merge_heap_ st) (output_slot_ st) (tape_counter_ st) true.

Definition MemUsed (st : TupleSort) : Z := mem_used_ st.
Definition NumRuns (st : TupleSort) : Z := i32 (Z.of_nat (length (tapes_ st))).

Section operations.
Context `{Process, StdSort}.

Definition MakeTempPath (st : TupleSort) : string * TupleSort :=
  (temp_dir_ st +:+ "/pgcpp_tuplesort_" +:+ int_to_string getpid +:+ "_" +:+ int_to_string (tape_counter_ st) +:+ ".tmp",
   with_counter (i32 (tape_counter_ st + 1)) st).

Definition SortInMemory (st : TupleSort) : TupleSort :=
  with_mem (std_sort (λ a b, Compare (keys_ st) a b <? 0) (mem_tuples_ st)) (mem_used_ st) st.

(** The buffer, sorted, becomes a tape. *)
Definition spill (st : TupleSort) : TupleSort :=
  let st := SortInMemory st in
  let '(path, st) := MakeTempPath st in
  let tape := foldl (λ t slot, WriteTuple slot t) (new_tape path (tupdesc_ st)) (mem_tuples_ st) in
  with_mem [] 0 (with_tapes (tapes_ st ++ [tape]) st).

Definition DumpRun (st : TupleSort) : TupleSort := match mem_tuples_ st with [] => st | _ => spill st end.

Definition PutTuple (slot : TupleTableSlot) (st : TupleSort) : TupleSort :=
  let copy := copy_slot slot in
  let st := with_mem (mem_tuples_ st ++ [copy]) (u64 (mem_used_ st + EstimateSlotSize copy)) st in
  if work_mem_ st <? mem_used_ st then DumpRun st else st.

(** [tapes_[i]->ReadTuple()]. *)
Definition read_tape (i : nat) : M TupleSort (option TupleTableSlot) :=
  λ st, match tapes_ st !! i with
        | Some t => let '(o, t') := ReadTuple t in (o, with_tapes (<[i := t']> (tapes_ st)) st)
        | None => (Ret None, st)
        end.

Fixpoint read_heads (i n : nat) : M TupleSort unit :=
  match n with
  | O => mret tt
  | S n' =>
      slot ← read_tape i;
      match slot with
      | Some slot => modify (λ st, with_heap (merge_heap_ st ++ [(Z.of_nat i + 1, slot)]) st)
      | None => mret tt
      end;;
      read_heads (S i) n'
  end.

Definition BeginMerge : M TupleSort unit :=
  modify (λ st, with_heap [] (with_tapes (Rewind <$> tapes_ st) st));;
  st ← get;
  read_heads 0 (length (tapes_ st)).

Definition PerformSort : M TupleSort unit :=
  st ← get;
  when (is_sorted st) (ereport "tuplesort: PerformSort called twice");;
  match tapes_ st with
  | [] => modify SortInMemory
  | _ => modify DumpRun;; BeginMerge
  end;;
  modify set_sorted.

(** The linear scan for the first least head: its index. *)
Fixpoint find_min (keys : list SortKey) (heap : list (Z * TupleTableSlot)) (i min_idx : nat) (best : TupleTableSlot) : nat :=
  match heap with
  | [] => min_idx
  | (_, slot) :: heap' =>
      if Compare keys slot best <? 0 then find_min keys heap' (S i) i slot else find_min keys heap' (S i) min_idx best
  end.

(** The values of [src] in the slot [out]. *)
Definition copy_into (out src : TupleTableSlot) : TupleTableSlot :=
  let ncopy := if (Natts out <? Natts src)%nat then Natts out else Natts src in
  mkSlot (tts_tupleDescriptor out) (take ncopy (tts_values src) ++ drop ncopy (tts_values out)) (take ncopy (tts_isnull src) ++ drop ncopy (tts_isnull out)).

(** The last element takes the place of the one at [i]. *)
Definition fill_hole {A : Type} (i : nat) (l : list A) : list A :=
  match last l with Some x => take (length l - 1) (<[i := x]> l) | None => l end.

(** Output of the head at [min_idx], and the next tuple of its tape in its place. *)
Definition take_head (min_idx : nat) : M TupleSort (option TupleTableSlot) :=
  st ← get;
  match merge_heap_ st !! min_idx with
  | None => mret None
  | Some (source_id, min_slot) =>
      modify (λ st, with_output (mem_output_index_ st) (copy_into (output_slot_ st) min_slot) st);;
      next ← read_tape (Z.to_nat (source_id - 1));
      modify (λ st, with_heap (match next with None => fill_hole min_idx (merge_heap_ st) | Some s => <[min_idx := (source_id, s)]> (merge_heap_ st) end) st);;
      st ← get;
      mret (Some (output_slot_ st))
  end.

Definition GetTupleFromMerge : M TupleSort (option TupleTableSlot) :=
  st ← get;
  match merge_heap_ st with
  | [] => mret None
  | (_, first) :: rest => take_head (find_min (keys_ st) rest 1 0 first)
  end.

Definition GetTuple : M TupleSort (option TupleTableSlot) :=
  st ← get;
  when (negb (is_sorted st)) (ereport "tuplesort: GetTuple called before PerformSort");;
  match tapes_ st with
  | [] =>
      match mem_tuples_ st !! mem_output_index_ st with
      | None => mret None
      | Some slot => modify (λ st, with_output (S (mem_output_index_ st)) (output_slot_ st) st);; mret (Some slot)
      end
  | _ => GetTupleFromMerge
  end.

End operations.
End Tuplesort.
