(* ===== verification/TupleOrder.v ===== *)
(** * The order a sort uses

    [Compare] of src/utils/sort/tuplesort.cpp is a total preorder on slots whose
    key columns hold values of their type, other than NaN; and it does not look
    at what is written for null columns.  Doubles compare like the integer that
    their bits are, sign and magnitude. *)

From Stdlib Require Import Floats.SpecFloat.
From stdpp Require Import base list strings.
From S2P Require Import Prelude HeapForm NbtPage TupleTape Tuplesort.

Module TupleOrder.
Import HeapForm TupleTape Tuplesort.

(** ** Comparison functions *)

(** [f] is a total preorder on [P]. *)
Definition cmp_ok {A : Type} (P : A → Prop) (f : A → A → Z) : Prop :=
  (∀ a b, P a → P b → f b a = - f a b) ∧ (∀ a b c, P a → P b → P c → f a b ≤ 0 → f b c ≤ 0 → f a c ≤ 0).

(** First by [f], then by [g]. *)
Definition then_by {A : Type} (f g : A → A → Z) (a b : A) : Z := if f a b =? 0 then g a b else f a b.

Lemma then_by_ok {A : Type} (P : A → Prop) (f g : A → A → Z) : cmp_ok P f → cmp_ok P g → cmp_ok P (then_by f g).
Proof.
  intros [F1 F2] [G1 G2]. unfold then_by. split.
  - intros a b Ha Hb. rewrite (F1 a b Ha Hb). destruct (Z.eqb_spec (f a b) 0), (Z.eqb_spec (- f a b) 0); try lia. by apply G1.
  - intros a b c Ha Hb Hc. pose proof (F1 a b Ha Hb). pose proof (F1 b c Hb Hc). pose proof (F1 a c Ha Hc).
    pose proof (F2 a b c Ha Hb Hc). pose proof (F2 c a b Hc Ha Hb). pose proof (F2 b c a Hb Hc Ha). pose proof (G2 a b c Ha Hb Hc).
    destruct (Z.eqb_spec (f a b) 0), (Z.eqb_spec (f b c) 0), (Z.eqb_spec (f a c) 0); lia.
Qed.

(** By an integer. *)
Lemma compare_int_ok {A : Type} (P : A → Prop) (r : A → Z) : cmp_ok P (λ a b, compare_int (r a) (r b)).
Proof.
  unfold compare_int. split.
  - intros a b _ _. destruct (Z.ltb_spec (r a) (r b)), (Z.ltb_spec (r b) (r a)); lia.
  - intros a b c _ _ _. destruct (Z.ltb_spec (r a) (r b)), (Z.ltb_spec (r b) (r a)), (Z.ltb_spec (r b) (r c)), (Z.ltb_spec (r c) (r b)),
      (Z.ltb_spec (r a) (r c)), (Z.ltb_spec (r c) (r a)); lia.
Qed.

Lemma cmp_ok_ext {A : Type} (P : A → Prop) (f g : A → A → Z) : (∀ a b, P a → P b → f a b = g a b) → cmp_ok P g → cmp_ok P f.
Proof.
  intros E [G1 G2]. split.
  - intros a b Ha Hb. rewrite !E by done. by apply G1.
  - intros a b c Ha Hb Hc. rewrite !E by done. by apply G2.
Qed.

Lemma cmp_ok_impl {A : Type} (P Q : A → Prop) (f : A → A → Z) : (∀ a, P a → Q a) → cmp_ok Q f → cmp_ok P f.
Proof. intros HPQ [F1 F2]. split; [intros a b ? ?; apply F1; auto|intros a b c ? ? ?; apply F2; auto]. Qed.

(** ** Doubles *)

(** The magnitude of a double as an integer, and the double of a magnitude. *)
Definition magnitude (x : Z) : Z := x `mod` 2 ^ 63.
Definition float_key (v : Datum) : Z := if Z.testbit (word_of v) 63 then - magnitude (word_of v) else magnitude (word_of v).
Definition infinite_magnitude : Z := 2047 * 2 ^ 52.

Definition float_of_magnitude (s : bool) (g : Z) : spec_float :=
  if g =? 0 then S754_zero s
  else if g =? infinite_magnitude then S754_infinity s
  else if infinite_magnitude <? g then S754_nan
  else if g <? 2 ^ 52 then S754_finite s (Z.to_pos g) (-1074)
  else S754_finite s (Z.to_pos (g `mod` 2 ^ 52 + 2 ^ 52)) (g / 2 ^ 52 - 1075).

Lemma float8_magnitude v : DatumGetFloat8 v = float_of_magnitude (Z.testbit (word_of v) 63) (magnitude (word_of v)).
Proof.
  unfold DatumGetFloat8, float_of_magnitude, magnitude, infinite_magnitude. set (x := word_of v). set (s := Z.testbit x 63).
  assert (Hx : x `mod` 2 ^ 63 = ((x / 2 ^ 52) `mod` 2 ^ 11) * 2 ^ 52 + x `mod` 2 ^ 52).
  { change (2 ^ 63) with (2 ^ 52 * 2 ^ 11). rewrite Z.rem_mul_r by lia. lia. }
  rewrite Hx. pose proof (Z.mod_pos_bound (x / 2 ^ 52) (2 ^ 11) ltac:(lia)) as He. pose proof (Z.mod_pos_bound x (2 ^ 52) ltac:(lia)) as Hm.
  set (e := (x / 2 ^ 52) `mod` 2 ^ 11) in *. set (m := x `mod` 2 ^ 52) in *. clearbody e m s. clear Hx x.
  destruct (Z.eqb_spec e 2047) as [->|]; [destruct (Z.eqb_spec m 0) as [->|]|].
  - by rewrite (proj2 (Z.eqb_neq _ _)), Z.add_0_r, Z.eqb_refl by lia.
  - by rewrite !(proj2 (Z.eqb_neq _ _)), (proj2 (Z.ltb_lt _ _)) by lia.
  - rewrite (proj2 (Z.eqb_neq (e * 2 ^ 52 + m) (2047 * 2 ^ 52))), (proj2 (Z.ltb_ge _ _)) by lia.
    destruct (Z.eqb_spec e 0) as [->|].
    + rewrite Z.mul_0_l, Z.add_0_l. destruct m as [|p|p]; [done| |lia]. cbn [Z.eqb]. by rewrite (proj2 (Z.ltb_lt _ _)) by lia.
    + rewrite (proj2 (Z.eqb_neq _ 0)), (proj2 (Z.ltb_ge _ (2 ^ 52))) by lia.
      rewrite (Z.add_comm (e * _)), Z_mod_plus_full, Z.div_add, (Z.mod_small m), (Z.div_small m) by lia. rewrite Z.add_0_l.
      destruct (m + 2 ^ 52) as [|p|p] eqn:E; [lia| |lia]. done.
Qed.

(** Greater magnitudes are greater doubles. *)
Lemma compare_magnitudes s g1 g2 :
  0 < g1 < infinite_magnitude → 0 < g2 < infinite_magnitude →
  SFcompare (float_of_magnitude s g1) (float_of_magnitude s g2) = Some (if s then g2 ?= g1 else g1 ?= g2).
Proof.
  intros H1 H2. unfold float_of_magnitude, infinite_magnitude in *. rewrite !(proj2 (Z.eqb_neq _ _)), !(proj2 (Z.ltb_ge (2047 * 2 ^ 52) _)) by lia.
  set (dec := λ g, if g <? 2 ^ 52 then S754_finite s (Z.to_pos g) (-1074) else S754_finite s (Z.to_pos (g `mod` 2 ^ 52 + 2 ^ 52)) (g / 2 ^ 52 - 1075)).
  change (SFcompare (dec g1) (dec g2) = Some (if s then g2 ?= g1 else g1 ?= g2)).
  assert (Hdec : ∀ g, 0 < g → ∃ m e, dec g = S754_finite s m e ∧
    ((e = -1074 ∧ g = Zpos m ∧ g < 2 ^ 53) ∨ (-1074 < e ∧ g = (e + 1074) * 2 ^ 52 + Zpos m ∧ 2 ^ 52 ≤ Zpos m < 2 ^ 53))).
  { intros g Hg. unfold dec. destruct (Z.ltb_spec g (2 ^ 52)).
    - eexists _, _. split; [reflexivity|]. left. rewrite Z2Pos.id by lia. lia.
    - pose proof (Z.mod_pos_bound g (2 ^ 52) ltac:(lia)). pose proof (Z.div_mod g (2 ^ 52) ltac:(lia)). assert (1 ≤ g / 2 ^ 52) by (apply Z.div_le_lower_bound; lia).
      eexists _, _. split; [reflexivity|]. rewrite Z2Pos.id by lia. destruct (decide (g / 2 ^ 52 = 1)); [left|right]; lia. }
  destruct (Hdec g1) as (m1 & e1 & -> & D1); [lia|]. destruct (Hdec g2) as (m2 & e2 & -> & D2); [lia|]. clear Hdec dec. cbn [SFcompare].
  change (Pos.compare_cont Eq m1 m2) with (Pos.compare m1 m2). change (m1 ?= m2)%positive with (Zpos m1 ?= Zpos m2).
  destruct s; f_equal; destruct (Z.compare_spec e1 e2); try (symmetry; rewrite ?Z.compare_lt_iff, ?Z.compare_gt_iff; lia).
  - rewrite <- Zcompare_antisym. destruct (Z.compare_spec (Zpos m2) (Zpos m1)); symmetry; rewrite ?Z.compare_eq_iff, ?Z.compare_lt_iff, ?Z.compare_gt_iff; lia.
  - destruct (Z.compare_spec (Zpos m1) (Zpos m2)); symmetry; rewrite ?Z.compare_eq_iff, ?Z.compare_lt_iff, ?Z.compare_gt_iff; lia.
Qed.

Definition not_nan (v : Datum) : Prop := DatumGetFloat8 v ≠ S754_nan.

Lemma not_nan_magnitude v : not_nan v → 0 ≤ magnitude (word_of v) ≤ infinite_magnitude.
Proof.
  unfold not_nan. rewrite float8_magnitude. unfold float_of_magnitude, magnitude, infinite_magnitude. intros H.
  pose proof (Z.mod_pos_bound (word_of v) (2 ^ 63) ltac:(lia)). split; [lia|]. destruct (Z.eqb_spec (word_of v `mod` 2 ^ 63) 0); [lia|].
  destruct (Z.eqb_spec (word_of v `mod` 2 ^ 63) (2047 * 2 ^ 52)); [lia|]. destruct (Z.ltb_spec (2047 * 2 ^ 52) (word_of v `mod` 2 ^ 63)); [done|lia].
Qed.

(** Doubles without NaN compare like their keys. *)
Lemma float_compare_key a b : not_nan a → not_nan b → SFcompare (DatumGetFloat8 a) (DatumGetFloat8 b) = Some (float_key a ?= float_key b).
Proof.
  intros Ha%not_nan_magnitude Hb%not_nan_magnitude. rewrite !float8_magnitude. unfold float_key.
  generalize dependent (magnitude (word_of a)). generalize dependent (magnitude (word_of b)). intros g2 H2 g1 H1.
  generalize (Z.testbit (word_of a) 63) as s1, (Z.testbit (word_of b) 63) as s2. intros s1 s2.
  destruct (decide (g1 = 0 ∨ g1 = infinite_magnitude ∨ g2 = 0 ∨ g2 = infinite_magnitude)) as [Hs|Hs].
  - assert (Hkind : ∀ s g, 0 ≤ g ≤ infinite_magnitude →
      (g = 0 ∧ float_of_magnitude s g = S754_zero s) ∨ (g = infinite_magnitude ∧ float_of_magnitude s g = S754_infinity s) ∨
      (0 < g < infinite_magnitude ∧ ∃ m e, float_of_magnitude s g = S754_finite s m e)).
    { intros s g Hg. unfold float_of_magnitude. destruct (Z.eqb_spec g 0); [by left|]. destruct (Z.eqb_spec g infinite_magnitude); [by right; left|].
      right; right. split; [lia|]. rewrite (proj2 (Z.ltb_ge _ _)) by lia. destruct (g <? 2 ^ 52); by eexists _, _. }
    assert (0 < infinite_magnitude) by done.
    destruct (Hkind s1 g1 H1) as [[E1 ->]|[[E1 ->]|(E1 & m1 & e1 & ->)]], (Hkind s2 g2 H2) as [[E2 ->]|[[E2 ->]|(E2 & m2 & e2 & ->)]]; try lia;
      cbn [SFcompare]; f_equal; destruct s1, s2; symmetry; rewrite ?Z.compare_eq_iff, ?Z.compare_lt_iff, ?Z.compare_gt_iff; lia.
  - destruct (Bool.bool_dec s1 s2) as [-> |Hne].
    + rewrite compare_magnitudes by lia. f_equal. destruct s2; [|done].
      destruct (Z.compare_spec g2 g1); symmetry; rewrite ?Z.compare_eq_iff, ?Z.compare_lt_iff, ?Z.compare_gt_iff; lia.
    + unfold float_of_magnitude. rewrite !(proj2 (Z.eqb_neq _ _)), !(proj2 (Z.ltb_ge infinite_magnitude _)) by lia.
      destruct (g1 <? 2 ^ 52), (g2 <? 2 ^ 52); cbn [SFcompare]; f_equal; destruct s1, s2; try done; symmetry; rewrite ?Z.compare_lt_iff, ?Z.compare_gt_iff; lia.
Qed.

(** ** Values of a type *)

Definition value_ok (typid : Z) (v : Datum) : Prop :=
  (typid = kFloat8Oid → not_nan v) ∧ (typid = kTextOid → plain_text (DatumGetTextP v)).

Lemma vardata_length b : plain_text b → VARSIZE_DATA b = Z.of_nat (length (VARDATA b)).
Proof. intros Hb. pose proof Hb as (_ & _ & H4 & H30). unfold VARSIZE_DATA, VARDATA. rewrite plain_size, i32_small, length_drop by (done || lia). lia. Qed.

Lemma memcmp_range n a b : NbtPage.memcmp n a b = -1 ∨ NbtPage.memcmp n a b = 0 ∨ NbtPage.memcmp n a b = 1.
Proof.
  revert a b. induction n as [|n IH]; intros [|x a] [|y b]; cbn; try tauto. destruct (x <? y); [tauto|]. destruct (y <? x); [tauto|apply IH].
Qed.

Lemma compare_text_lexical a b : plain_text a → plain_text b → compare_text a b = NbtPage.lex (VARDATA a) (VARDATA b).
Proof.
  intros Ha Hb. rewrite <- NbtPage.compare_text_lex. unfold compare_text, NbtPage._bt_compare_text. rewrite !vardata_length by done.
  set (la := length (VARDATA a)). set (lb := length (VARDATA b)).
  assert (Hlt : ∀ x y : nat, (Z.of_nat x <? Z.of_nat y) = (x <? y)%nat) by (intros x y; destruct (Nat.ltb_spec x y); [by apply Z.ltb_lt; lia|by apply Z.ltb_ge; lia]).
  assert (Hmin : Z.to_nat (if Z.of_nat la <? Z.of_nat lb then Z.of_nat la else Z.of_nat lb) = if (la <? lb)%nat then la else lb)
    by (rewrite Hlt; destruct (la <? lb)%nat; by rewrite Nat2Z.id).
  rewrite Hmin. destruct (memcmp_range (if (la <? lb)%nat then la else lb) (VARDATA a) (VARDATA b)) as [-> | [-> | ->]]; [done| |done].
  unfold compare_int. by rewrite !Hlt.
Qed.

Lemma lex_ok : cmp_ok (λ _, True) NbtPage.lex.
Proof.
  split; [intros a b _ _; apply NbtPage.lex_opp|]. intros a b c _ _ _ Hab Hbc.
  destruct (decide (NbtPage.lex a b = 0)) as [->%NbtPage.lex_zero|]; [done|]. destruct (decide (NbtPage.lex b c = 0)) as [<-%NbtPage.lex_zero|]; [done|].
  assert (NbtPage.lex a c < 0); [|lia]. apply (NbtPage.lex_trans a b c); lia.
Qed.

Lemma compare_values_ok typid : cmp_ok (value_ok typid) (λ a b, CompareValues a b typid).
Proof.
  unfold CompareValues. destruct ((typid =? kInt4Oid) || (typid =? kDateOid)); [apply (compare_int_ok _ DatumGetInt32)|].
  destruct ((typid =? kInt8Oid) || (typid =? kTimestampOid)); [apply (compare_int_ok _ DatumGetInt64)|].
  destruct (Z.eqb_spec typid kFloat8Oid) as [->|].
  { eapply cmp_ok_ext; [|apply (compare_int_ok _ float_key)]. intros a b [Ha _] [Hb _]. unfold SFltb, compare_int.
    rewrite !float_compare_key by auto. unfold Z.ltb. done. }
  destruct (Z.eqb_spec typid kBoolOid) as [->|].
  { eapply cmp_ok_ext; [|apply (compare_int_ok _ (λ v, if DatumGetBool v then 1 else 0))]. intros a b _ _. cbv beta. by destruct (DatumGetBool a), (DatumGetBool b). }
  destruct (Z.eqb_spec typid kTextOid) as [->|]; [|by split].
  destruct lex_ok as [L1 L2]. split.
  - intros a b [_ Ha] [_ Hb]. rewrite !compare_text_lexical by auto. by apply L1.
  - intros a b c [_ Ha] [_ Hb] [_ Hc]. rewrite !compare_text_lexical by auto. by apply L2.
Qed.

(** ** Slots *)

Definition key_value (s : TupleTableSlot) (key : SortKey) : Datum := value_at s (Z.to_nat (attnum key - 1)).
Definition keys_ok (keys : list SortKey) (s : TupleTableSlot) : Prop :=
  Forall (λ key, key_null s (attnum key) = false → value_ok (typid key) (key_value s key)) keys.

(** The part of [Compare] that one key decides. *)
Definition compare_key (key : SortKey) (a b : TupleTableSlot) : Z :=
  if key_null a (attnum key) && key_null b (attnum key) then 0
  else if key_null a (attnum key) then (if nulls_first key then -1 else 1)
  else if key_null b (attnum key) then (if nulls_first key then 1 else -1)
  else let cmp := CompareValues (key_value a key) (key_value b key) (typid key) in if reverse key then - cmp else cmp.

Lemma compare_cons key keys a b : Compare (key :: keys) a b = then_by (compare_key key) (Compare keys) a b.
Proof.
  cbn [Compare]. unfold then_by, compare_key, key_value. destruct (key_null a (attnum key)), (key_null b (attnum key)); cbn [andb]; try by destruct (nulls_first key).
  set (cmp := CompareValues _ _ _). destruct (reverse key); destruct (Z.eqb_spec cmp 0), (Z.eqb_spec (- cmp) 0); lia || done.
Qed.

Lemma compare_key_ok key : cmp_ok (λ s, key_null s (attnum key) = false → value_ok (typid key) (key_value s key)) (compare_key key).
Proof.
  destruct (compare_values_ok (typid key)) as [V1 V2]. unfold compare_key. split.
  - intros a b Ha Hb. destruct (key_null a (attnum key)), (key_null b (attnum key)); cbn [andb]; try by destruct (nulls_first key).
    rewrite (V1 (key_value a key) (key_value b key)) by auto. destruct (reverse key); lia.
  - intros a b c Ha Hb Hc. destruct (key_null a (attnum key)), (key_null b (attnum key)), (key_null c (attnum key)); cbn [andb]; try (destruct (nulls_first key); lia).
    specialize (Ha eq_refl). specialize (Hb eq_refl). specialize (Hc eq_refl).
    pose proof (V1 _ _ Ha Hb). pose proof (V1 _ _ Hb Hc). pose proof (V1 _ _ Ha Hc). pose proof (V2 _ _ _ Ha Hb Hc). pose proof (V2 _ _ _ Hc Hb Ha).
    destruct (reverse key); lia.
Qed.

Lemma compare_ok keys : cmp_ok (keys_ok keys) (Compare keys).
Proof.
  induction keys as [|key keys IH]; [by split|]. eapply cmp_ok_ext; [intros a b _ _; apply compare_cons|].
  apply then_by_ok; [eapply cmp_ok_impl; [|apply compare_key_ok]|eapply cmp_ok_impl; [|exact IH]]; intros s Hs; by inversion Hs.
Qed.

(** ** Null columns *)

Lemma null_clean s i : null_at (clean s) i = null_at s i.
Proof. done. Qed.

Lemma key_null_clean s attno : key_null (clean s) attno = key_null s attno.
Proof. done. Qed.

Lemma value_clean s i : (i < Natts s)%nat → value_at (clean s) i = if null_at s i then DVal 0 else value_at s i.
Proof. intros Hi. unfold value_at at 1, clean. cbn [tts_values]. by rewrite list_lookup_fmap, lookup_seq_lt. Qed.

Lemma key_value_clean s key : key_null s (attnum key) = false → key_value (clean s) key = key_value s key.
Proof.
  unfold key_null, key_value. intros H. destruct ((1 <=? attnum key) && (attnum key <=? Z.of_nat (Natts s))) eqn:E; [|done]. to_prop.
  rewrite value_clean by lia. by rewrite H.
Qed.

Lemma compare_clean keys a b : Compare keys (clean a) (clean b) = Compare keys a b.
Proof.
  induction keys as [|key keys IH]; [done|]. rewrite !compare_cons. unfold then_by. rewrite IH.
  assert (compare_key key (clean a) (clean b) = compare_key key a b) as ->; [|done].
  unfold compare_key. rewrite !key_null_clean. destruct (key_null a (attnum key)) eqn:Ea, (key_null b (attnum key)) eqn:Eb; try done.
  by rewrite !key_value_clean.
Qed.

Lemma keys_ok_clean keys s : keys_ok keys s → keys_ok keys (clean s).
Proof.
  unfold keys_ok. rewrite !Forall_forall. intros H key Hk Hn. rewrite key_null_clean in Hn. rewrite key_value_clean by done. by apply H.
Qed.

Lemma clean_twice s : clean (clean s) = clean s.
Proof.
  enough (H : tts_values (clean (clean s)) = tts_values (clean s)) by (unfold clean at 1 3; unfold clean at 1 in H; cbn [tts_values] in H; by rewrite H).
  apply list_eq. intros i. unfold clean at 1. cbn [tts_values]. change (Natts (clean s)) with (Natts s). rewrite list_lookup_fmap.
  destruct (decide (i < Natts s)%nat).
  - rewrite lookup_seq_lt by done. cbn. rewrite null_clean, value_clean by done. rewrite list_lookup_fmap, lookup_seq_lt by done. cbn. by destruct (null_at s i).
  - rewrite lookup_ge_None_2 by (rewrite length_seq; lia). unfold clean. cbn [tts_values]. by rewrite list_lookup_fmap, lookup_ge_None_2 by (rewrite length_seq; lia).
Qed.

End TupleOrder.
