(* ===== verification/RowOrder.v ===== *)
(** * The order of SQL values and rows

    What ORDER BY means, apart from the code: the value a datum has as a value of
    its type, the order of values, and the order of rows by keys with their
    direction and the place of their nulls.  [Compare] of tuplesort.cpp decides it
    for the types it lists; the theorems about sorting and DISTINCT are stated with
    it, and those about hash joins with the equality of values. *)

From stdpp Require Import base list strings.
From S2P Require Import Prelude HeapForm NbtPage TupleTape Tuplesort TupleOrder.

Module RowOrder.
Import HeapForm TupleTape Tuplesort TupleOrder.

(** ** Values *)

(** Numbers, dates, times and truth values are integers on a scale of their type. *)
Inductive sql_value := SInt (z : Z) | SText (bytes : list Z).
#[global] Instance sql_value_eq_dec : EqDecision sql_value.
Proof. solve_decision. Defined.

(** The number of [n] bits in two's complement. *)
Definition signed (n w : Z) : Z := let m := w `mod` 2 ^ n in if m <? 2 ^ (n - 1) then m else m - 2 ^ n.

(** A double in units of 2^-1074, of which every finite one is a multiple; infinity
    is above all of them.  NaN is not a number. *)
Definition double_units (w : Z) : option Z :=
  let sign := if Z.testbit w 63 then -1 else 1 in
  let e := (w / 2 ^ 52) `mod` 2 ^ 11 in
  let m := w `mod` 2 ^ 52 in
  if e =? 0 then Some (sign * m)
  else if e <? 2047 then Some (sign * ((2 ^ 52 + m) * 2 ^ (e - 1)))
  else if m =? 0 then Some (sign * 2 ^ 2098) else None.

#[global] Instance plain_text_dec b : Decision (plain_text b).
Proof. unfold plain_text, is_u8. apply _. Defined.

(** The value of a datum of the types that have an order. *)
Definition read (ty : Z) (v : Datum) : option sql_value :=
  match v with
  | DRef b => if decide (ty = kTextOid ∧ plain_text b) then Some (SText (drop 4 b)) else None
  | DVal w =>
      if decide (ty = kInt4Oid ∨ ty = kDateOid) then Some (SInt (signed 32 w))
      else if decide (ty = kInt8Oid ∨ ty = kTimestampOid) then Some (SInt (signed 64 w))
      else if decide (ty = kBoolOid) then Some (SInt (if decide (w = 0) then 0 else 1))
      else if decide (ty = kFloat8Oid) then SInt <$> double_units w
      else None
  end.

(** Texts in the order of their bytes. *)
Inductive text_lt : list Z → list Z → Prop :=
  | text_lt_nil c s : text_lt [] (c :: s)
  | text_lt_head c d s t : c < d → text_lt (c :: s) (d :: t)
  | text_lt_tail c s t : text_lt s t → text_lt (c :: s) (c :: t).

Inductive value_lt : sql_value → sql_value → Prop :=
  | int_lt x y : x < y → value_lt (SInt x) (SInt y)
  | texts_lt s t : text_lt s t → value_lt (SText s) (SText t).

(** ** Rows *)

(** The value in a column; none for null. *)
Definition cell (ty attno : Z) (s : TupleTableSlot) : option sql_value :=
  if decide (1 ≤ attno) then
    match tts_isnull s !! Z.to_nat (attno - 1) with
    | Some false => tts_values s !! Z.to_nat (attno - 1) ≫= read ty
    | _ => None
    end
  else None.

(** Nulls come first or last, and the others up or down. *)
Inductive cell_lt (key : SortKey) : option sql_value → option sql_value → Prop :=
  | null_first y : nulls_first key = true → cell_lt key None (Some y)
  | null_last x : nulls_first key = false → cell_lt key (Some x) None
  | ascending x y : reverse key = false → value_lt x y → cell_lt key (Some x) (Some y)
  | descending x y : reverse key = true → value_lt y x → cell_lt key (Some x) (Some y).

Definition key_cell (key : SortKey) (s : TupleTableSlot) : option sql_value := cell (typid key) (attnum key) s.

(** Before in the order of the keys, the first that differs decides; the same in all
    of them. *)
Fixpoint row_lt (keys : list SortKey) (a b : TupleTableSlot) : Prop :=
  match keys with
  | [] => False
  | key :: keys' => cell_lt key (key_cell key a) (key_cell key b) ∨ (key_cell key a = key_cell key b ∧ row_lt keys' a b)
  end.
Definition row_same (keys : list SortKey) (a b : TupleTableSlot) : Prop := Forall (λ key, key_cell key a = key_cell key b) keys.
Definition row_le (keys : list SortKey) (a b : TupleTableSlot) : Prop := row_lt keys a b ∨ row_same keys a b.

(** Every key column has a value of its type or is null. *)
Definition readable (keys : list SortKey) (s : TupleTableSlot) : Prop :=
  Forall (λ key, key_null s (attnum key) = true ∨ is_Some (key_cell key s)) keys.

(** ** The values the code compares *)

Lemma signed_32 w : signed 32 w = i32 w.
Proof.
  unfold signed, i32. rewrite <- Zplus_mod_idemp_l. pose proof (Z.mod_pos_bound w (2 ^ 32) ltac:(lia)) as Hw. set (m := w `mod` 2 ^ 32) in *. clearbody m.
  destruct (Z.ltb_spec m (2 ^ (32 - 1))); [rewrite Z.mod_small; lia|].
  replace (m + 2 ^ 31) with ((m - 2 ^ 31) + 1 * 2 ^ 32) by lia. rewrite Z_mod_plus_full, Z.mod_small; lia.
Qed.
Lemma signed_64 w : signed 64 w = i64 w.
Proof.
  unfold signed, i64. rewrite <- Zplus_mod_idemp_l. pose proof (Z.mod_pos_bound w (2 ^ 64) ltac:(lia)) as Hw. set (m := w `mod` 2 ^ 64) in *. clearbody m.
  destruct (Z.ltb_spec m (2 ^ (64 - 1))); [rewrite Z.mod_small; lia|].
  replace (m + 2 ^ 63) with ((m - 2 ^ 63) + 1 * 2 ^ 64) by lia. rewrite Z_mod_plus_full, Z.mod_small; lia.
Qed.

(** The units of a magnitude, a function that grows. *)
Definition units (g : Z) : Z := if g / 2 ^ 52 =? 0 then g `mod` 2 ^ 52 else (2 ^ 52 + g `mod` 2 ^ 52) * 2 ^ (g / 2 ^ 52 - 1).

Lemma units_grow g h : 0 ≤ g < h → units g < units h.
Proof.
  intros Hg. unfold units. pose proof (Z.div_mod g (2 ^ 52) ltac:(lia)) as Eg. pose proof (Z.div_mod h (2 ^ 52) ltac:(lia)) as Eh.
  pose proof (Z.mod_pos_bound g (2 ^ 52) ltac:(lia)) as Bg. pose proof (Z.mod_pos_bound h (2 ^ 52) ltac:(lia)) as Bh.
  pose proof (Z.div_pos g (2 ^ 52) ltac:(lia) ltac:(lia)). pose proof (Z.div_le_mono g h (2 ^ 52) ltac:(lia) ltac:(lia)).
  set (e := g / 2 ^ 52) in *. set (f := h / 2 ^ 52) in *. set (m := g `mod` 2 ^ 52) in *. set (n := h `mod` 2 ^ 52) in *. clearbody e f m n.
  destruct (Z.eqb_spec e 0) as [->|He], (Z.eqb_spec f 0) as [->|Hf]; [lia| |lia|].
  - pose proof (Z.pow_pos_nonneg 2 (f - 1) ltac:(lia) ltac:(lia)). nia.
  - pose proof (Z.pow_pos_nonneg 2 (e - 1) ltac:(lia) ltac:(lia)). destruct (decide (e = f)) as [->|Hne]; [nia|].
    assert (Hp : 2 ^ (f - 1) = 2 ^ (e - 1) * 2 ^ (f - e)) by (rewrite <- Z.pow_add_r by lia; f_equal; lia).
    assert (2 ≤ 2 ^ (f - e)) by (change 2 with (2 ^ 1) at 1; apply Z.pow_le_mono_r; lia). rewrite Hp. nia.
Qed.

Lemma double_units_key v x : double_units (word_of v) = Some x → not_nan v ∧ x = if Z.testbit (word_of v) 63 then - units (magnitude (word_of v)) else units (magnitude (word_of v)).
Proof.
  unfold double_units, not_nan. rewrite float8_magnitude. set (w := word_of v). assert (Hw : magnitude w = ((w / 2 ^ 52) `mod` 2 ^ 11) * 2 ^ 52 + w `mod` 2 ^ 52).
  { unfold magnitude. change (2 ^ 63) with (2 ^ 52 * 2 ^ 11). rewrite Z.rem_mul_r by lia. lia. }
  pose proof (Z.mod_pos_bound (w / 2 ^ 52) (2 ^ 11) ltac:(lia)) as He. pose proof (Z.mod_pos_bound w (2 ^ 52) ltac:(lia)) as Hm. rewrite Hw. unfold units.
  rewrite (Z.add_comm (_ * _)), Z_mod_plus_full, Z.div_add, (Z.mod_small (w `mod` 2 ^ 52)), (Z.div_small (w `mod` 2 ^ 52)), Z.add_0_l by lia.
  generalize (Z.testbit w 63) as s. intros s. set (e := (w / 2 ^ 52) `mod` 2 ^ 11) in *. set (m := w `mod` 2 ^ 52) in *. clearbody e m. clear Hw. intros Hx.
  assert (Hle : m + e * 2 ^ 52 ≤ infinite_magnitude ∧ x = if s then - (if e =? 0 then m else (2 ^ 52 + m) * 2 ^ (e - 1)) else (if e =? 0 then m else (2 ^ 52 + m) * 2 ^ (e - 1))).
  { unfold infinite_magnitude. revert Hx. destruct (Z.eqb_spec e 0) as [->|]; [intros [= <-]; split; [lia|destruct s; lia]|]. destruct (Z.ltb_spec e 2047); [intros [= <-]; split; [lia|destruct s; lia]|].
    destruct (Z.eqb_spec m 0) as [->|]; [|done]. intros [= <-]. assert (e = 2047) as -> by lia. split; [lia|]. by destruct s. }
  destruct Hle as [Hle Ex]. split; [|exact Ex]. unfold float_of_magnitude. intros Hn.
  destruct (Z.eqb_spec (m + e * 2 ^ 52) 0); [congruence|]. destruct (m + e * 2 ^ 52 =? infinite_magnitude); [congruence|]. destruct (Z.ltb_spec infinite_magnitude (m + e * 2 ^ 52)); [lia|].
  destruct (m + e * 2 ^ 52 <? 2 ^ 52); congruence.
Qed.

Lemma float_key_units v w x y : double_units (word_of v) = Some x → double_units (word_of w) = Some y →
  compare_int (float_key v) (float_key w) = compare_int x y.
Proof.
  intros (_ & ->)%double_units_key (_ & ->)%double_units_key. unfold float_key, compare_int.
  assert (Hpos : ∀ u, 0 ≤ magnitude u) by (intros u; unfold magnitude; pose proof (Z.mod_pos_bound u (2 ^ 63) ltac:(lia)); lia).
  pose proof (Hpos (word_of v)) as Pv. pose proof (Hpos (word_of w)) as Pw. generalize dependent (magnitude (word_of v)). generalize dependent (magnitude (word_of w)). intros h Hh g Hg. clear Hpos.
  assert (Hord : (g < h ∧ units g < units h) ∨ (g = h) ∨ (h < g ∧ units h < units g)).
  { destruct (Z.lt_trichotomy g h) as [?|[->|?]]; [left; split; [done|by apply units_grow]|by right; left|right; right; split; [done|by apply units_grow]]. }
  assert (units 0 = 0) as U0 by done. assert (Ug : 0 < g → 0 < units g) by (intros; rewrite <- U0; by apply units_grow). assert (Uh : 0 < h → 0 < units h) by (intros; rewrite <- U0; by apply units_grow).
  assert (Ug0 : g = 0 → units g = 0) by (by intros ->). assert (Uh0 : h = 0 → units h = 0) by (by intros ->).
  assert (Eg : g = h → units g = units h) by (by intros ->).
  destruct (Z.testbit (word_of v) 63), (Z.testbit (word_of w) 63); repeat match goal with |- context [Z.ltb ?a ?b] => destruct (Z.ltb_spec a b) end; try done; exfalso; destruct (decide (g = 0)), (decide (h = 0)); lia.
Qed.

(** ** What a comparison says *)

(** [c] is the sign of the comparison of [a] and [b] under a strict order. *)
Definition decides {A : Type} (lt : A → A → Prop) (c : Z) (a b : A) : Prop := (c < 0 ↔ lt a b) ∧ (0 < c ↔ lt b a) ∧ (c = 0 ↔ a = b).

Lemma compare_int_decides x y : decides value_lt (compare_int x y) (SInt x) (SInt y).
Proof.
  assert (Hlt : ∀ a b, value_lt (SInt a) (SInt b) ↔ a < b) by (intros a b; split; [by inversion 1|by constructor]). unfold decides. rewrite !Hlt. unfold compare_int.
  destruct (Z.ltb_spec x y), (Z.ltb_spec y x); split_and!; split; try lia; try (intros [=]; lia); intros; f_equal; lia.
Qed.

Lemma lex_text_lt s t : NbtPage.lex s t < 0 ↔ text_lt s t.
Proof.
  revert t. induction s as [|c s IH]; intros [|d t]; cbn [NbtPage.lex]; [split; [lia|by inversion 1]|split; [by constructor|lia]|split; [lia|by inversion 1]|].
  destruct (Z.ltb_spec c d); [split; [by constructor|lia]|]. destruct (Z.ltb_spec d c).
  - split; [lia|]. inversion 1; lia.
  - assert (c = d) as -> by lia. rewrite IH. split; [by constructor|]. inversion 1; [lia|done].
Qed.

Lemma lex_decides s t : decides value_lt (NbtPage.lex s t) (SText s) (SText t).
Proof.
  assert (Hlt : ∀ a b, value_lt (SText a) (SText b) ↔ NbtPage.lex a b < 0) by (intros a b; rewrite lex_text_lt; split; [by inversion 1|by constructor]).
  unfold decides. rewrite !Hlt, (NbtPage.lex_opp s t), NbtPage.lex_zero. split_and!; [done|lia|]. split; [by intros ->|by intros [=]].
Qed.

Lemma compare_values_decides ty v w x y : read ty v = Some x → read ty w = Some y → decides value_lt (CompareValues v w ty) x y.
Proof.
  unfold read, CompareValues. destruct v as [v|v], w as [w|w]; intros Hx Hy.
  - destruct (decide (ty = kInt4Oid ∨ ty = kDateOid)) as [[-> | ->]|].
    1, 2: injection Hx as <-; injection Hy as <-; rewrite !signed_32; apply compare_int_decides.
    destruct (decide (ty = kInt8Oid ∨ ty = kTimestampOid)) as [[-> | ->]|].
    1, 2: injection Hx as <-; injection Hy as <-; rewrite !signed_64; apply compare_int_decides.
    destruct (decide (ty = kBoolOid)) as [->|].
    { injection Hx as <-. injection Hy as <-. cbn [Z.eqb Pos.eqb orb kBoolOid kInt4Oid kDateOid kInt8Oid kTimestampOid kFloat8Oid]. unfold DatumGetBool. cbn [word_of].
      destruct (Z.eqb_spec v 0), (Z.eqb_spec w 0), (decide (v = 0)), (decide (w = 0)); try done;
        [exact (compare_int_decides 0 0)|exact (compare_int_decides 0 1)|exact (compare_int_decides 1 0)|exact (compare_int_decides 1 1)]. }
    destruct (decide (ty = kFloat8Oid)) as [->|]; [|done]. apply fmap_Some in Hx as (a & Ha & ->). apply fmap_Some in Hy as (b & Hb & ->). cbn [Z.eqb Pos.eqb orb kInt4Oid kDateOid kInt8Oid kTimestampOid kFloat8Oid].
    change v with (word_of (DVal v)) in Ha. change w with (word_of (DVal w)) in Hb. destruct (double_units_key _ _ Ha) as [Na _], (double_units_key _ _ Hb) as [Nb _].
    assert (E : (if SpecFloat.SFltb (DatumGetFloat8 (DVal v)) (DatumGetFloat8 (DVal w)) then -1 else if SpecFloat.SFltb (DatumGetFloat8 (DVal w)) (DatumGetFloat8 (DVal v)) then 1 else 0) = compare_int (float_key (DVal v)) (float_key (DVal w))).
    { unfold SpecFloat.SFltb, compare_int. rewrite !float_compare_key by done. unfold Z.ltb. done. }
    rewrite E, (float_key_units _ _ a b) by done. apply compare_int_decides.
  - repeat case_decide; try done; naive_solver.
  - repeat case_decide; try done; naive_solver.
  - destruct (decide (ty = kTextOid ∧ plain_text v)) as [[-> Hv]|]; [|done]. destruct (decide (kTextOid = kTextOid ∧ plain_text w)) as [[_ Hw]|]; [|done].
    injection Hx as <-. injection Hy as <-. change (decides value_lt (compare_text v w) (SText (VARDATA v)) (SText (VARDATA w))). rewrite compare_text_lexical by done. apply lex_decides.
Qed.

(** ** The comparison of rows *)

(** The null flags cover the columns. *)
Definition flags_fit (s : TupleTableSlot) : Prop := length (tts_isnull s) = Natts s.

Lemma key_cell_null key s : flags_fit s → key_null s (attnum key) = true → key_cell key s = None.
Proof.
  unfold flags_fit, key_null, key_cell, cell, null_at. intros Hf. destruct (decide (1 ≤ attnum key)); [|done]. rewrite (proj2 (Z.leb_le _ _)) by done.
  destruct (Z.leb_spec (attnum key) (Z.of_nat (Natts s))); cbn [andb]; [|by rewrite lookup_ge_None_2 by lia]. by destruct (tts_isnull s !! _) as [[]|].
Qed.

Lemma key_cell_value key s x : key_null s (attnum key) = false → key_cell key s = Some x → read (typid key) (key_value s key) = Some x.
Proof.
  unfold key_null, key_cell, cell, null_at, key_value, value_at. destruct (decide (1 ≤ attnum key)); [|done]. intros Hn.
  destruct (tts_isnull s !! _) as [[]|]; [done| |done]. by destruct (tts_values s !! _).
Qed.

(** A key column as [readable] leaves it. *)
Lemma key_cell_cases key s : flags_fit s → key_null s (attnum key) = true ∨ is_Some (key_cell key s) →
  (key_null s (attnum key) = true ∧ key_cell key s = None) ∨ (key_null s (attnum key) = false ∧ ∃ x, key_cell key s = Some x ∧ read (typid key) (key_value s key) = Some x).
Proof.
  intros Hf Hr. destruct (key_null s (attnum key)) eqn:E; [left; split; [done|by apply key_cell_null]|right]. destruct Hr as [?|[x Hx]]; [done|]. split; [done|]. exists x. split; [done|by apply key_cell_value].
Qed.

Lemma compare_key_decides key a b : flags_fit a → flags_fit b → key_null a (attnum key) = true ∨ is_Some (key_cell key a) → key_null b (attnum key) = true ∨ is_Some (key_cell key b) →
  decides (cell_lt key) (compare_key key a b) (key_cell key a) (key_cell key b).
Proof.
  intros Fa Fb Ha Hb. unfold compare_key. destruct (key_cell_cases key a Fa Ha) as [(-> & ->)|(-> & x & -> & Hx)], (key_cell_cases key b Fb Hb) as [(-> & ->)|(-> & y & -> & Hy)]; cbn [andb].
  - unfold decides. split_and!; (split; [try lia|try by inversion 1]); done.
  - unfold decides. destruct (nulls_first key) eqn:E; split_and!; (split; [try lia; try done; by constructor|try lia; inversion 1; congruence || lia]).
  - unfold decides. destruct (nulls_first key) eqn:E; split_and!; (split; [try lia; try done; by constructor|try lia; inversion 1; congruence || lia]).
  - destruct (compare_values_decides _ _ _ _ _ Hx Hy) as (L & G & Q).
    assert (Hup : reverse key = false → ∀ u v, cell_lt key (Some u) (Some v) ↔ value_lt u v) by (intros E u v; split; [inversion 1; congruence || done|by constructor]).
    assert (Hdown : reverse key = true → ∀ u v, cell_lt key (Some u) (Some v) ↔ value_lt v u) by (intros E u v; split; [inversion 1; congruence || done|by apply descending]).
    unfold decides. destruct (reverse key); [rewrite !(Hdown eq_refl), <- L, <- G|rewrite !(Hup eq_refl), <- L, <- G]; (split_and!; [lia|lia|]).
    + rewrite (inj_iff Some), <- Q. lia.
    + by rewrite (inj_iff Some), <- Q.
Qed.

Lemma compare_decides keys a b : flags_fit a → flags_fit b → readable keys a → readable keys b →
  (Compare keys a b < 0 ↔ row_lt keys a b) ∧ (0 < Compare keys a b ↔ row_lt keys b a) ∧ (Compare keys a b = 0 ↔ row_same keys a b).
Proof.
  intros Fa Fb. induction keys as [|key keys IH]; intros Ha Hb; [split_and!; split; by try constructor|]. apply Forall_cons in Ha as [Ka Ha], Hb as [Kb Hb]. specialize (IH Ha Hb).
  destruct (compare_key_decides key a b Fa Fb Ka Kb) as (L & G & Q), IH as (L' & G' & Q'). rewrite compare_cons. unfold then_by, row_same. rewrite Forall_cons. cbn [row_lt].
  fold (row_same keys a b). rewrite <- Q, <- Q', <- L, <- L', <- G, <- G'. assert (Hsym : key_cell key b = key_cell key a ↔ compare_key key a b = 0) by (rewrite Q; done). rewrite Hsym.
  destruct (Z.eqb_spec (compare_key key a b) 0); lia.
Qed.

Lemma compare_le keys a b : flags_fit a → flags_fit b → readable keys a → readable keys b → Compare keys a b ≤ 0 ↔ row_le keys a b.
Proof. intros Fa Fb Ha Hb. destruct (compare_decides keys a b Fa Fb Ha Hb) as (L & _ & Q). unfold row_le. rewrite <- L, <- Q. lia. Qed.

(** The comparison needs values of the types only. *)
Lemma readable_keys_ok keys s : flags_fit s → readable keys s → keys_ok keys s.
Proof.
  intros Hf Hr. eapply Forall_impl; [exact Hr|]. intros key Hk Hn. destruct (key_cell_cases key s Hf Hk) as [[? _]|(_ & x & _ & Hx)]; [congruence|]. clear Hk Hn.
  destruct (key_value s key) as [w|b]; unfold read in Hx.
  - split; intros E; rewrite E in Hx; repeat (rewrite decide_False in Hx by (intros [?|?] || intros ?; done)); [|done].
    rewrite decide_True in Hx by done. apply fmap_Some in Hx as (u & Hu & _). change w with (word_of (DVal w)) in Hu. apply (double_units_key _ _ Hu).
  - case_decide as Hd; [|done]. destruct Hd as [E Hb]. rewrite E. by split.
Qed.

(** ** Null columns *)

Lemma key_cell_clean key s : flags_fit s → length (tts_values s) = Natts s → key_cell key (clean s) = key_cell key s.
Proof.
  intros Hf Hv. unfold key_cell, cell. destruct (decide (1 ≤ attnum key)); [|done]. cbn [clean tts_isnull tts_values]. destruct (tts_isnull s !! _) as [[]|] eqn:E; [done| |done].
  pose proof (lookup_lt_Some _ _ _ E) as Hlt. rewrite Hf in Hlt. rewrite list_lookup_fmap, lookup_seq_lt by done. cbn. unfold null_at, value_at. rewrite E. cbn.
  destruct (lookup_lt_is_Some_2 (tts_values s) (Z.to_nat (attnum key - 1))) as [v ->]; [lia|]. done.
Qed.

Lemma readable_clean keys s : flags_fit s → length (tts_values s) = Natts s → readable keys (clean s) ↔ readable keys s.
Proof.
  intros Hf Hv. unfold readable. rewrite !Forall_forall. by setoid_rewrite (key_cell_clean _ s Hf Hv).
Qed.

Lemma row_same_sym keys a b : row_same keys a b → row_same keys b a.
Proof. unfold row_same. intros H. eapply Forall_impl; [exact H|]. by intros key ->. Qed.
End RowOrder.
