(* ===== verification/TuplesortSpec.v ===== *)
(** * The external merge sort sorts

    Whatever [work_mem] is, and so however many runs are written to tapes and
    merged, the tuples come back sorted and complete.  Stated against any
    [std::sort] that keeps its contract. *)

From Stdlib Require Import Floats.SpecFloat.
From stdpp Require Import base list strings sorting.
From S2P Require Import Prelude CString HeapForm TupleTape Tuplesort TupleOrder RowOrder.

Module TuplesortSpec.
Import HeapForm TupleTape Tuplesort TupleOrder.

(** ** The contract of [std::sort] *)

(** [lt] is a strict weak order on the elements of [l]. *)
Definition strict_weak (lt : TupleTableSlot → TupleTableSlot → bool) (l : list TupleTableSlot) : Prop :=
  (∀ x, x ∈ l → lt x x = false) ∧
  (∀ x y z, x ∈ l → y ∈ l → z ∈ l → lt x y = true → lt y z = true → lt x z = true) ∧
  (∀ x y z, x ∈ l → y ∈ l → z ∈ l → lt x y = false → lt y x = false → lt y z = false → lt z y = false → lt x z = false ∧ lt z x = false).

Class StdSortLaws `{StdSort} := {
  sort_permutes lt l : strict_weak lt l → std_sort lt l ≡ₚ l;
  sort_orders lt l : strict_weak lt l → StronglySorted (λ x y, lt y x = false) (std_sort lt l);
}.

(** Insertion sort keeps it. *)
Fixpoint insert_slot (lt : TupleTableSlot → TupleTableSlot → bool) (x : TupleTableSlot) (l : list TupleTableSlot) : list TupleTableSlot :=
  match l with [] => [x] | y :: l' => if lt y x then y :: insert_slot lt x l' else x :: l end.
Definition insertion_sort (lt : TupleTableSlot → TupleTableSlot → bool) (l : list TupleTableSlot) : list TupleTableSlot := foldr (insert_slot lt) [] l.

Lemma insert_slot_perm lt x l : insert_slot lt x l ≡ₚ x :: l.
Proof. induction l as [|y l IH]; cbn; [done|]. destruct (lt y x); [rewrite IH; constructor|done]. Qed.

Lemma insertion_sort_perm lt l : insertion_sort lt l ≡ₚ l.
Proof. induction l as [|x l IH]; cbn; [done|]. by rewrite insert_slot_perm, IH. Qed.

(** Not being less is transitive under a strict weak order. *)
Lemma strict_weak_trans lt l x y z : strict_weak lt l → x ∈ l → y ∈ l → z ∈ l → lt y x = false → lt z y = false → lt z x = false.
Proof.
  intros (_ & H2 & H3) Hx Hy Hz Hyx Hzy. destruct (lt z x) eqn:E; [|done]. destruct (lt x y) eqn:Exy; [by rewrite (H2 z x y) in Hzy|].
  destruct (lt y z) eqn:Eyz; [by rewrite (H2 y z x) in Hyx|]. destruct (H3 x y z) as [_ H]; congruence.
Qed.

Lemma insert_slot_sorted lt l' x l :
  strict_weak lt l' → x ∈ l' → (∀ y, y ∈ l → y ∈ l') → StronglySorted (λ x y, lt y x = false) l →
  StronglySorted (λ x y, lt y x = false) (insert_slot lt x l).
Proof.
  intros Hw Hx Hl Hs. induction Hs as [|y l Hs IH Hy]; cbn; [repeat constructor|]. assert (Hyl : y ∈ l') by (apply Hl; by left).
  assert (Hll : ∀ z, z ∈ l → z ∈ l') by (intros z Hz; apply Hl; by right). destruct (lt y x) eqn:E.
  - constructor; [by apply IH|]. rewrite insert_slot_perm. constructor; [|done]. destruct (lt x y) eqn:E2; [|done]. destruct Hw as (W1 & W2 & _).
    pose proof (W2 x y x Hx Hyl Hx E2 E) as H. by rewrite (W1 x Hx) in H.
  - constructor; [by constructor|]. constructor; [done|]. rewrite Forall_forall in *. intros z Hz. apply (strict_weak_trans lt l' x y z); auto.
Qed.

#[export] Instance insertion_std_sort : StdSort := insertion_sort.
#[export] Instance insertion_sort_laws : StdSortLaws.
Proof.
  split; [intros lt l _; apply insertion_sort_perm|]. intros lt l Hw. unfold std_sort, insertion_std_sort.
  enough (H : ∀ k, (∀ y, y ∈ k → y ∈ l) → StronglySorted (λ x y, lt y x = false) (insertion_sort lt k)) by (apply H; done).
  induction k as [|x k IH]; intros Hk; cbn; [constructor|]. apply insert_slot_sorted with l; [done|apply Hk; by left| |apply IH; intros y Hy; apply Hk; by right].
  intros y Hy. apply Hk. right. by rewrite <- (insertion_sort_perm lt k).
Qed.

(** ** Collecting *)

Section sort.
Context (d : TupleDescData) (keys : list SortKey).
Hypothesis small : Z.of_nat (length (attrs d)) < 2 ^ 31.

(** A tuple the sort can handle: of the descriptor, with comparable keys. *)
Definition ok (s : TupleTableSlot) : Prop := wf_slot d s ∧ keys_ok keys s.

Definition le (a b : TupleTableSlot) : Prop := Compare keys a b ≤ 0.

Lemma le_trans a b c : ok a → ok b → ok c → le a b → le b c → le a c.
Proof. intros [_ Ha] [_ Hb] [_ Hc]. by apply (compare_ok keys). Qed.

Lemma not_lt_le a b : ok a → ok b → (Compare keys b a <? 0) = false → le a b.
Proof. intros [_ Ha] [_ Hb] H. to_prop. destruct (compare_ok keys) as [C1 _]. unfold le. rewrite (C1 b a) by done. lia. Qed.

Lemma compare_same a : keys_ok keys a → Compare keys a a = 0.
Proof. intros Ha. destruct (compare_ok keys) as [C1 _]. specialize (C1 a a Ha Ha). lia. Qed.

Lemma less_strict_weak l : Forall ok l → strict_weak (λ a b, Compare keys a b <? 0) l.
Proof.
  rewrite Forall_forall. intros Hl. destruct (compare_ok keys) as [C1 C2]. assert (Hk : ∀ x, x ∈ l → keys_ok keys x) by (intros x Hx; by apply Hl).
  split_and!.
  - intros x Hx. rewrite compare_same by auto. done.
  - intros x y z Hx Hy Hz H1 H2. to_prop. apply Z.ltb_lt. pose proof (C1 x y (Hk x Hx) (Hk y Hy)). pose proof (C1 y z (Hk y Hy) (Hk z Hz)). pose proof (C1 x z (Hk x Hx) (Hk z Hz)).
    pose proof (C2 x y z (Hk x Hx) (Hk y Hy) (Hk z Hz)). pose proof (C2 z x y (Hk z Hz) (Hk x Hx) (Hk y Hy)). lia.
  - intros x y z Hx Hy Hz H1 H2 H3 H4. to_prop. rewrite !Z.ltb_ge. pose proof (C1 x y (Hk x Hx) (Hk y Hy)). pose proof (C1 y z (Hk y Hy) (Hk z Hz)). pose proof (C1 x z (Hk x Hx) (Hk z Hz)).
    pose proof (C2 x y z (Hk x Hx) (Hk y Hy) (Hk z Hz)). pose proof (C2 z y x (Hk z Hz) (Hk y Hy) (Hk x Hx)). lia.
Qed.

Lemma clean_ok s : ok s → ok (clean s).
Proof.
  intros [(E1 & E2 & E3 & Hc) Hk]. split; [|by apply keys_ok_clean]. split_and!; [done|by unfold clean, Natts; cbn; rewrite length_fmap, length_seq, E1|done|].
  intros i a Ha Hn. rewrite null_clean in Hn. rewrite value_clean by (unfold Natts; rewrite E1; by eapply lookup_lt_Some). rewrite Hn. by apply Hc.
Qed.

Definition bytes_of (l : list TupleTableSlot) : list Z := concat (tuple_bytes d <$> l).
Definition written (t : LogicalTape) (l : list TupleTableSlot) : Prop :=
  tape_tupdesc t = d ∧ file_bytes (tape_file t) = bytes_of l ∧ file_pos (tape_file t) = length (file_bytes (tape_file t)).
Definition run_ok (l : list TupleTableSlot) : Prop := Forall ok l ∧ StronglySorted le l.

Definition collected (st : TupleSort) (ins : list TupleTableSlot) : Prop :=
  (tupdesc_ st = d ∧ keys_ st = keys ∧ output_slot_ st = Make d ∧ mem_output_index_ st = 0%nat ∧ is_sorted st = false) ∧ Forall ok (mem_tuples_ st) ∧
  ∃ runs, Forall2 written (tapes_ st) runs ∧ Forall run_ok runs ∧ concat runs ++ mem_tuples_ st ≡ₚ ins.

Lemma write_all l : ∀ t l0, written t l0 → written (foldl (λ t slot, WriteTuple slot t) t l) (l0 ++ l).
Proof.
  induction l as [|s l IH]; intros t l0 Ht; [by rewrite app_nil_r|]. cbn [foldl]. rewrite (cons_middle s l0 l), (app_assoc l0 [s] l). apply IH.
  destruct Ht as (H1 & H2 & H3). destruct (fwrite_end (tuple_bytes d s) (tape_file t) H3) as [W1 W2].
  split_and!; [done| |]; cbn [WriteTuple tape_file]; rewrite H1; [|done].
  rewrite W1, H2. unfold bytes_of. rewrite fmap_app, concat_app. cbn. by rewrite app_nil_r.
Qed.

Section with_std_sort.
Context `{Process, Hlaws : StdSortLaws} (dir : string).

(** Sorting by "not greater" is sorting by [le]. *)
Lemma sorted_le l : Forall ok l → StronglySorted (λ x y, (Compare keys y x <? 0) = false) l → StronglySorted le l.
Proof.
  intros Ho Hs. induction Hs as [|x k Hs IH Hx]; [constructor|]. apply Forall_cons in Ho as [Hxo Hk]. constructor; [by apply IH|].
  rewrite Forall_forall in *. intros y Hy. apply not_lt_le; auto.
Qed.

Lemma sort_memory l : Forall ok l → run_ok (std_sort (λ a b, Compare keys a b <? 0) l) ∧ std_sort (λ a b, Compare keys a b <? 0) l ≡ₚ l.
Proof.
  intros Hl. pose proof (less_strict_weak l Hl) as Hw. pose proof (sort_permutes _ l Hw) as Hp. pose proof (sort_orders _ l Hw) as Hs.
  assert (Ho : Forall ok (std_sort (λ a b, Compare keys a b <? 0) l)) by by rewrite Hp. split; [split; [done|by apply sorted_le]|done].
Qed.

Lemma spill_collected st ins : collected st ins → collected (spill st) ins ∧ mem_tuples_ (spill st) = [] ∧ tapes_ (spill st) ≠ [].
Proof.
  intros ((H1 & H2 & H3 & H4 & H5) & Hm & runs & Hw & Hr & Hp). destruct (sort_memory (mem_tuples_ st) Hm) as [Hok Hperm]. unfold spill, SortInMemory. rewrite H2.
  set (l := std_sort _ _) in *. cbn. split; [|split; [done|by destruct (tapes_ st)]]. split; [done|]. split; [constructor|]. exists (runs ++ [l]). split_and!.
  - apply Forall2_app; [done|]. constructor; [|constructor]. rewrite H1. apply (write_all l (new_tape _ d) []). done.
  - apply Forall_app. split; [done|by constructor].
  - cbn. rewrite concat_app. cbn. rewrite !app_nil_r. by rewrite Hperm.
Qed.

Lemma put_collected s st ins : ok s → collected st ins → collected (PutTuple s st) (ins ++ [s]).
Proof.
  intros Hs (H1 & Hm & runs & Hw & Hr & Hp). unfold PutTuple. rewrite (copy_ok d) by apply Hs. set (st1 := with_mem _ _ st).
  assert (Hc1 : collected st1 (ins ++ [s])).
  { split; [done|]. split; [apply Forall_app; split; [done|by apply Forall_singleton]|]. exists runs. split_and!; [done|done|]. cbn. by rewrite app_assoc, Hp. }
  destruct (work_mem_ st1 <? mem_used_ st1); [|done]. unfold DumpRun. destruct (mem_tuples_ st1) eqn:E; [done|]. by apply spill_collected.
Qed.

Lemma puts_collected l : ∀ st ins, Forall ok l → collected st ins → collected (foldl (λ st s, PutTuple s st) st l) (ins ++ l).
Proof.
  induction l as [|s l IH]; intros st ins Hl Hc; [by rewrite app_nil_r|]. apply Forall_cons in Hl as [Hs Hl]. cbn [foldl].
  rewrite (cons_middle s ins l), (app_assoc ins [s] l). by apply IH, put_collected.
Qed.

(** ** Merging *)

(** The part of a tape that is still to be read. *)
Definition to_read (t : LogicalTape) (r : list TupleTableSlot) : Prop := tape_tupdesc t = d ∧ unread (tape_file t) (bytes_of r).

(** An entry of the merge heap: the head of its run, before the rest on its tape. *)
Definition head_of (rests : list (list TupleTableSlot)) (e : Z * TupleTableSlot) : Prop :=
  ∃ i r, e.1 = Z.of_nat i + 1 ∧ rests !! i = Some r ∧ ok e.2 ∧ Forall ok r ∧ StronglySorted le (e.2 :: (clean <$> r)).

Definition heap_ok (heap : list (Z * TupleTableSlot)) (rests : list (list TupleTableSlot)) : Prop :=
  NoDup heap.*1 ∧ Forall (head_of rests) heap ∧ (∀ i r, rests !! i = Some r → r ≠ [] → Z.of_nat i + 1 ∈ heap.*1).

(** A slot that holds a whole tuple of the descriptor. *)
Definition full (s : TupleTableSlot) : Prop :=
  tts_tupleDescriptor s = d ∧ length (tts_values s) = length (attrs d) ∧ length (tts_isnull s) = length (attrs d).

Definition merging (st : TupleSort) (rests : list (list TupleTableSlot)) : Prop :=
  keys_ st = keys ∧ full (output_slot_ st) ∧ Forall2 to_read (tapes_ st) rests ∧ heap_ok (merge_heap_ st) rests.

Definition remaining (heap : list (Z * TupleTableSlot)) (rests : list (list TupleTableSlot)) : list TupleTableSlot :=
  heap.*2 ++ (clean <$> concat rests).

Lemma copy_into_full out s : full out → full s → copy_into out s = s.
Proof.
  intros (A1 & A2 & A3) (B1 & B2 & B3). unfold copy_into, Natts. rewrite A1, B1, Nat.ltb_irrefl, !take_ge, !drop_ge, !app_nil_r by lia. destruct s. cbn in *. by subst.
Qed.

Lemma concat_tail (rests : list (list TupleTableSlot)) i y r :
  rests !! i = Some (y :: r) → concat rests ≡ₚ y :: concat (<[i := r]> rests).
Proof.
  intros Hi. rewrite <- (take_drop_middle rests i _ Hi) at 1. rewrite insert_take_drop by (by eapply lookup_lt_Some). rewrite !concat_app. cbn.
  by rewrite <- Permutation_middle.
Qed.

Lemma fill_hole_perm {A : Type} (l : list A) j x : l !! j = Some x → l ≡ₚ x :: fill_hole j l.
Proof.
  intros Hj. unfold fill_hole. destruct (last l) as [z|] eqn:El; [|by apply last_None in El as ->]. apply last_Some in El as [k ->].
  rewrite length_app. cbn [length]. replace (length k + 1 - 1)%nat with (length k) by lia. destruct (decide (j < length k)%nat).
  - rewrite lookup_app_l in Hj by done. rewrite insert_app_l, take_app_le, take_ge by (rewrite ?length_insert; lia).
    rewrite insert_take_drop by done. rewrite <- (take_drop_middle k j x Hj) at 1. rewrite <- app_assoc. cbn. rewrite <- !Permutation_middle, app_nil_r. constructor.
    by rewrite Permutation_app_comm.
  - assert (j = length k) as -> by (apply lookup_lt_Some in Hj; rewrite length_app in Hj; cbn in Hj; lia).
    rewrite lookup_app_r, Nat.sub_diag in Hj by lia. injection Hj as ->. rewrite insert_app_r_alt, take_app_length by lia. by rewrite <- Permutation_cons_append.
Qed.

(** The scan finds the least head. *)
Lemma find_min_run h : ∀ pre min_idx e,
  Forall ok (pre ++ h).*2 → pre !! min_idx = Some e → (∀ x, x ∈ pre → le e.2 x.2) →
  ∃ m, (pre ++ h) !! find_min keys h (length pre) min_idx e.2 = Some m ∧ ∀ x, x ∈ pre ++ h → le m.2 x.2.
Proof.
  induction h as [|[id s] h IH]; intros pre min_idx e Hok Hmin Hle; cbn [find_min].
  { rewrite app_nil_r. by exists e. }
  rewrite cons_middle, app_assoc in *. assert (Hlen : S (length pre) = length (pre ++ [(id, s)])) by (rewrite length_app; cbn; lia). rewrite Hlen.
  assert (Hin : ∀ x, x ∈ (pre ++ [(id, s)]) ++ h → ok x.2).
  { intros x Hx. rewrite Forall_forall in Hok. apply Hok, list_elem_of_fmap. by exists x. }
  assert (He : ok e.2) by (apply Hin, elem_of_app; left; apply elem_of_app; left; by eapply list_elem_of_lookup_2).
  assert (Hs : ok s) by (apply (Hin (id, s)), elem_of_app; left; apply elem_of_app; right; by left).
  destruct (Compare keys s e.2 <? 0) eqn:E.
  - apply (IH (pre ++ [(id, s)]) (length pre) (id, s)); [done|by rewrite lookup_app_r, Nat.sub_diag by lia|].
    intros x [Hx| ->%list_elem_of_singleton]%elem_of_app.
    + apply (le_trans s e.2 x.2); try done; [apply Hin, elem_of_app; left; apply elem_of_app; by left|to_prop; unfold le; lia|by apply Hle].
    + unfold le. rewrite compare_same; [done|apply Hs].
  - apply (IH (pre ++ [(id, s)]) min_idx e); [done|by apply lookup_app_l_Some|].
    intros x [Hx| ->%list_elem_of_singleton]%elem_of_app; [by apply Hle|]. by apply not_lt_le.
Qed.

(** Reading the next tuple of a tape. *)
Lemma read_tape_run st rests i r :
  Forall2 to_read (tapes_ st) rests → rests !! i = Some r → Forall ok r →
  ∃ tapes', read_tape i st = (Ret (clean <$> head r), with_tapes tapes' st) ∧ Forall2 to_read tapes' (<[i := tail r]> rests) ∧ length tapes' = length (tapes_ st).
Proof.
  intros Ht Hi Hr. destruct (Forall2_lookup_r _ _ _ _ _ Ht Hi) as (t & Hti & Hd & Hu). unfold read_tape. rewrite Hti. unfold ReadTuple. rewrite Hd.
  destruct r as [|y r].
  - rewrite read_tuple_end by done. eexists. split; [reflexivity|]. rewrite (list_insert_id rests) by done. rewrite length_insert. split; [|done].
    rewrite <- (list_insert_id rests i []) by done. apply Forall2_insert; [done|]. by split.
  - apply Forall_cons in Hr as [[Hy _] Hr]. unfold bytes_of in Hu. cbn [fmap list_fmap concat] in Hu.
    destruct (read_tuple_run "tuplesort" d y (Make d) (tape_file t) (bytes_of r) Hy) as (f & Hf & Hu2 & _); [done|cbn; by rewrite length_replicate|cbn; by rewrite length_replicate|done|exact Hu|].
    rewrite Hf. eexists. split; [reflexivity|]. rewrite length_insert. split; [|done]. apply Forall2_insert; [done|]. by split.
Qed.

(** The heap and the tapes after the head at [j] has been replaced. *)
Definition next_heap (heap : list (Z * TupleTableSlot)) (j : nat) (id : Z) (r : list TupleTableSlot) : list (Z * TupleTableSlot) :=
  match clean <$> head r with None => fill_hole j heap | Some s => <[j := (id, s)]> heap end.

Lemma next_heap_perm heap j id s r :
  heap !! j = Some (id, s) →
  ∃ others, heap ≡ₚ (id, s) :: others ∧ next_heap heap j id r ≡ₚ (pair id <$> option_list (clean <$> head r)) ++ others.
Proof.
  intros Hj. unfold next_heap. destruct r as [|y r]; cbn.
  - exists (fill_hole j heap). split; [by apply fill_hole_perm|done].
  - exists (delete j heap). split; [by apply delete_Permutation|]. rewrite (delete_Permutation (<[j := (id, clean y)]> heap) j (id, clean y)).
    + constructor. assert (delete j (<[j:=(id, clean y)]> heap) = delete j heap) as ->; [|done]. apply lookup_lt_Some in Hj.
      rewrite insert_take_drop by done. rewrite !delete_take_drop, take_app_length', drop_app_ge by (rewrite length_take; lia). rewrite length_take, Nat.min_l by lia.
      replace (S j - j)%nat with 1%nat by lia. done.
    + rewrite list_lookup_insert_eq; [done|]. by eapply lookup_lt_Some.
Qed.

(** Every remaining tuple is at least the head of its tape. *)
Lemma least_remaining heap rests s :
  heap_ok heap rests → ok s → (∀ x, x ∈ heap → le s x.2) → ∀ z, z ∈ remaining heap rests → le s z.
Proof.
  intros (_ & Hheads & Hall) Hs Hleast z [(x & -> & Hx)%list_elem_of_fmap|(y & -> & Hy)%list_elem_of_fmap]%elem_of_app; [by apply Hleast|].
  apply list_elem_of_In, in_concat in Hy as (r & Hr%list_elem_of_In & Hy%list_elem_of_In). apply list_elem_of_lookup in Hr as [i Hi].
  assert (r ≠ []) as Hne by (intros ->; by apply not_elem_of_nil in Hy). pose proof (Hall i r Hi Hne) as (e & He & Hein)%list_elem_of_fmap.
  rewrite Forall_forall in Hheads. destruct (Hheads e Hein) as (i' & r' & Hi' & Hr' & Hok & Hokr & Hsort). assert (i' = i) as -> by lia. rewrite Hi in Hr'. injection Hr' as <-.
  apply (le_trans s e.2 (clean y)); [done|done|apply clean_ok; rewrite Forall_forall in Hokr; by apply Hokr|by apply Hleast|].
  apply StronglySorted_inv in Hsort as [_ Hle]. rewrite Forall_forall in Hle. apply Hle, list_elem_of_fmap. by exists y.
Qed.

Lemma next_heap_run heap rests j id s i r :
  heap_ok heap rests → heap !! j = Some (id, s) → id = Z.of_nat i + 1 → rests !! i = Some r → Forall ok r → StronglySorted le (s :: (clean <$> r)) →
  heap_ok (next_heap heap j id r) (<[i := tail r]> rests) ∧
  remaining heap rests ≡ₚ s :: remaining (next_heap heap j id r) (<[i := tail r]> rests).
Proof.
  intros (Hnd & Hheads & Hall) Hj Hid Hi Hr Hsort. destruct (next_heap_perm heap j id s r Hj) as (others & P1 & P2).
  assert (Hnd' : NoDup (id :: others.*1)) by (apply (NoDup_Permutation_proper heap.*1); [by rewrite P1|done]).
  apply NoDup_cons in Hnd' as [Hnid Hnd']. rewrite P1 in Hheads. apply Forall_cons in Hheads as [_ Hheads].
  assert (Hil : (i < length rests)%nat) by by eapply lookup_lt_Some.
  assert (Hoth : Forall (head_of (<[i := tail r]> rests)) others).
  { rewrite Forall_forall in *. intros e He. destruct (Hheads e He) as (i' & r' & H1 & H2 & H3). exists i', r'. split; [done|]. split; [|done].
    rewrite list_lookup_insert_ne; [done|]. intros <-. apply Hnid. apply list_elem_of_fmap. exists e. split; [congruence|done]. }
  split; [split_and!|].
  - rewrite P2, fmap_app. destruct r as [|y r]; cbn; [done|by constructor].
  - rewrite P2. apply Forall_app. split; [|done]. destruct r as [|y r]; cbn; [constructor|]. constructor; [|constructor]. apply Forall_cons in Hr as [Hy Hr].
    exists i, r. split_and!; [done|by rewrite list_lookup_insert_eq|by apply clean_ok|done|]. by apply StronglySorted_inv in Hsort as [? _].
  - intros i' r'. rewrite P2, fmap_app, elem_of_app. destruct (decide (i = i')) as [<-|Hne].
    + rewrite list_lookup_insert_eq by done. intros [= <-] Ht. left. rewrite <- Hid. destruct r as [|y [|y' r]]; cbn in *; [done|done|by left].
    + rewrite list_lookup_insert_ne by done. intros H1 H2. right. pose proof (Hall i' r' H1 H2) as H3. rewrite P1 in H3. cbn in H3.
      apply elem_of_cons in H3 as [H3|H3]; [lia|done].
  - unfold remaining. rewrite P2, P1, fmap_app. cbn. constructor. destruct r as [|y r]; cbn.
    + by rewrite list_insert_id.
    + rewrite (concat_tail rests i y r) by done. cbn. by rewrite <- Permutation_middle.
Qed.

(** One [GetTuple] takes a least remaining tuple. *)
Lemma merge_step st rests :
  merging st rests → merge_heap_ st ≠ [] →
  ∃ s st' rests', GetTupleFromMerge st = (Ret (Some s), st') ∧ merging st' rests' ∧ ok s ∧
    remaining (merge_heap_ st) rests ≡ₚ s :: remaining (merge_heap_ st') rests' ∧ Forall (le s) (remaining (merge_heap_ st') rests') ∧
    length (tapes_ st') = length (tapes_ st) ∧ is_sorted st' = is_sorted st.
Proof.
  intros (Hk & Hout & Ht & Hnd & Hheads & Hall) Hne. destruct (merge_heap_ st) as [|[id0 first] rest] eqn:Eh; [done|]. clear Hne.
  assert (Hokh : Forall ok (merge_heap_ st).*2).
  { rewrite Eh. apply Forall_fmap. eapply Forall_impl; [exact Hheads|]. by intros e (i & r & _ & _ & ? & _). }
  rewrite Eh in Hokh. destruct (find_min_run rest [(id0, first)] 0 (id0, first)) as ([id s] & Hj & Hleast); [done|done| |].
  { intros x ->%list_elem_of_singleton. unfold le. rewrite compare_same; [done|]. cbn in Hokh. apply Forall_cons in Hokh as [Hf _]. apply Hf. }
  cbn [length app snd] in Hj, Hleast. set (j := find_min keys rest 1 0 first) in *. rewrite <- Eh in Hj, Hleast, Hokh, Hnd, Hheads, Hall |- *.
  pose proof (list_elem_of_lookup_2 _ _ _ Hj) as Hin. pose proof Hheads as Hheads'. rewrite Forall_forall in Hheads'. destruct (Hheads' _ Hin) as (i & r & Hid & Hi & Hs & Hr & Hsorted).
  cbn [fst snd] in *. assert (GetTupleFromMerge st = take_head j st) as -> by (unfold GetTupleFromMerge; rewrite (bind_ret_run get _ st st st) by done; by rewrite Eh, Hk).
  unfold take_head. rewrite (bind_ret_run get _ st st st) by done. rewrite Hj.
  set (st1 := with_output (mem_output_index_ st) (copy_into (output_slot_ st) s) st). rewrite (bind_ret_run (modify _) _ st tt st1) by done.
  replace (Z.to_nat (id - 1)) with i by lia. destruct (read_tape_run st1 rests i r Ht Hi Hr) as (tapes' & Hread & Ht' & Hlen). rewrite (bind_ret_run _ _ _ _ _ Hread).
  assert (Hfull : full s) by (destruct Hs as [(? & ? & ? & _) _]; done). assert (Hcopy : copy_into (output_slot_ st) s = s) by by apply copy_into_full.
  destruct (next_heap_run (merge_heap_ st) rests j id s i r) as [Hok' Hperm]; [by split_and!|done..|].
  pose proof (least_remaining (merge_heap_ st) rests s ltac:(by split_and!) Hs Hleast) as Hle. set (st2 := with_heap (next_heap (merge_heap_ st) j id r) (with_tapes tapes' st1)).
  exists s, st2, (<[i := tail r]> rests). split; [run_step; unfold st2, st1, next_heap; cbn; by rewrite Hcopy|]. split_and!; try done.
  - split_and!; [done|unfold st2; cbn; by rewrite Hcopy|done|done].
  - rewrite Forall_forall. intros z Hz. apply Hle. rewrite Hperm. by right.
Qed.

(** ** From the runs to the merge *)

(** The heads of the first [i] tapes are in the heap. *)
Definition beginning (i : nat) (st : TupleSort) (rests : list (list TupleTableSlot)) : Prop :=
  keys_ st = keys ∧ full (output_slot_ st) ∧ Forall2 to_read (tapes_ st) rests ∧
  NoDup (merge_heap_ st).*1 ∧ Forall (λ e, e.1 ≤ Z.of_nat i) (merge_heap_ st) ∧ Forall (head_of rests) (merge_heap_ st) ∧
  (∀ k r, rests !! k = Some r → if decide (k < i)%nat then r ≠ [] → Z.of_nat k + 1 ∈ (merge_heap_ st).*1 else run_ok r).

Lemma sorted_clean l : StronglySorted le l → StronglySorted le (clean <$> l).
Proof.
  induction 1 as [|x l _ IH Hx]; [constructor|]. constructor; [done|]. rewrite Forall_forall in *. intros z (y & -> & Hy)%list_elem_of_fmap.
  unfold le. rewrite compare_clean. by apply Hx.
Qed.

Lemma begin_step i st rests r :
  beginning i st rests → rests !! i = Some r →
  ∃ st' rests', (slot ← read_tape i;
      match slot with Some slot => modify (λ st, with_heap (merge_heap_ st ++ [(Z.of_nat i + 1, slot)]) st) | None => mret tt end) st = (Ret tt, st') ∧
    beginning (S i) st' rests' ∧ remaining (merge_heap_ st') rests' ≡ₚ remaining (merge_heap_ st) rests ∧
    length (tapes_ st') = length (tapes_ st) ∧ length rests' = length rests ∧ is_sorted st' = is_sorted st.
Proof.
  intros (Hk & Hout & Ht & Hnd & Hmax & Hheads & Hall) Hi. pose proof (Hall i r Hi) as Hrun. rewrite decide_False in Hrun by lia. destruct Hrun as [Hr Hsort].
  destruct (read_tape_run st rests i r Ht Hi Hr) as (tapes' & Hread & Ht' & Hlen). rewrite (bind_ret_run _ _ _ _ _ Hread).
  assert (Hil : (i < length rests)%nat) by by eapply lookup_lt_Some. destruct r as [|y r]; cbn [head fmap option_fmap option_map tail] in *.
  - exists (with_tapes tapes' st), rests. rewrite list_insert_id in Ht' by done. split; [done|]. split_and!; try done.
    split_and!; try done; [eapply Forall_impl; [exact Hmax|]; intros e He; cbn in *; lia|].
    intros k r' Hk'. specialize (Hall k r' Hk'). destruct (decide (k < S i)%nat), (decide (k < i)%nat); try lia; try done. intros Hne. assert (k = i) as -> by lia. congruence.
  - apply sorted_clean in Hsort. cbn in Hsort. exists (with_heap (merge_heap_ st ++ [(Z.of_nat i + 1, clean y)]) (with_tapes tapes' st)), (<[i := r]> rests).
    apply Forall_cons in Hr as [Hy Hr]. assert (Hother : ∀ e, e ∈ merge_heap_ st → e.1 ≤ Z.of_nat i) by (rewrite Forall_forall in Hmax; done).
    split; [done|]. split_and!; [| |done|by rewrite length_insert|done]; cbn [merge_heap_ with_heap with_tapes].
    + split_and!; [done|done|done| | | |]; cbn [merge_heap_ with_heap with_tapes].
      * rewrite fmap_app. apply NoDup_app. split_and!; [done| |apply NoDup_singleton]. intros x (e & E & He)%list_elem_of_fmap Hx%list_elem_of_singleton.
        apply Hother in He. cbn in Hx. lia.
      * apply Forall_app. split; [eapply Forall_impl; [exact Hmax|]; intros e He; cbn in *; lia|]. apply Forall_singleton. cbn. lia.
      * apply Forall_app. split.
        -- rewrite Forall_forall in *. intros e He. destruct (Hheads e He) as (i' & r' & H1 & H2 & H3). exists i', r'. split; [done|]. split; [|done].
           apply Hother in He. by rewrite list_lookup_insert_ne by lia.
        -- apply Forall_singleton. exists i, r. split_and!; [done|by rewrite list_lookup_insert_eq|by apply clean_ok|done|done].
      * intros k r' Hk'. destruct (decide (k = i)) as [-> |Hne].
        -- rewrite decide_True by lia. intros _. rewrite fmap_app, elem_of_app. right. by left.
        -- rewrite list_lookup_insert_ne in Hk' by done. specialize (Hall k r' Hk'). destruct (decide (k < S i)%nat), (decide (k < i)%nat); try lia; [|done].
           intros Hne'. rewrite fmap_app, elem_of_app. left. by apply Hall.
    + unfold remaining. rewrite fmap_app, (concat_tail rests i y r) by done. cbn. by rewrite <- app_assoc.
Qed.

Lemma read_heads_run n : ∀ i st rests,
  beginning i st rests → (i + n = length rests)%nat →
  ∃ st' rests', read_heads i n st = (Ret tt, st') ∧ merging st' rests' ∧ remaining (merge_heap_ st') rests' ≡ₚ remaining (merge_heap_ st) rests ∧
    length (tapes_ st') = length (tapes_ st) ∧ is_sorted st' = is_sorted st.
Proof.
  induction n as [|n IH]; intros i st rests Hb Hn.
  - exists st, rests. split; [done|]. split; [|done]. destruct Hb as (B1 & B2 & B3 & B4 & _ & B6 & B7). split_and!; try done. split_and!; [done|done|].
    intros k r Hk Hne. specialize (B7 k r Hk). rewrite decide_True in B7 by (apply lookup_lt_Some in Hk; lia). by apply B7.
  - destruct (lookup_lt_is_Some_2 rests i) as [r Hr]; [lia|]. destruct (begin_step i st rests r Hb Hr) as (st1 & rests1 & R1 & B1 & P1 & L1 & L2 & S1).
    destruct (IH (S i) st1 rests1 B1) as (st2 & rests2 & R2 & M2 & P2 & L3 & S2); [lia|]. exists st2, rests2. split_and!; [|done|by rewrite P2|congruence|congruence].
    cbn [read_heads]. rewrite <- R2. etrans; [symmetry; apply (bind_assoc_run (read_tape i))|]. exact (bind_ret_run _ _ _ _ _ R1).
Qed.

(** ** Sorting and reading everything *)

Fixpoint drain (n : nat) : M TupleSort (list TupleTableSlot) :=
  match n with
  | O => mret []
  | S n' => r ← GetTuple; match r with None => mret [] | Some s => l ← drain n'; mret (s :: l) end
  end.

Definition sort_tuples (ins : list TupleTableSlot) : M TupleSort (list TupleTableSlot) :=
  modify (λ st, foldl (λ st s, PutTuple s st) st ins);; PerformSort;; drain (S (length ins)).

Lemma perform_memory st ins :
  collected st ins → tapes_ st = [] →
  ∃ st', PerformSort st = (Ret tt, st') ∧ is_sorted st' = true ∧ tapes_ st' = [] ∧ mem_output_index_ st' = 0%nat ∧ run_ok (mem_tuples_ st') ∧ mem_tuples_ st' ≡ₚ ins.
Proof.
  intros ((H1 & H2 & H3 & H4 & H5) & Hm & runs & Hw & Hr & Hp) Ht. unfold PerformSort. run_step. rewrite H5, Ht. eexists. split; [reflexivity|].
  unfold SortInMemory. rewrite H2. cbn. destruct (sort_memory (mem_tuples_ st) Hm) as [Hok Hperm]. split_and!; try done.
  rewrite Hperm. rewrite Ht in Hw. by apply Forall2_nil_inv_l in Hw as ->.
Qed.

Lemma dump_collected st ins : collected st ins → tapes_ st ≠ [] → collected (DumpRun st) ins ∧ mem_tuples_ (DumpRun st) = [] ∧ tapes_ (DumpRun st) ≠ [].
Proof. intros Hc Ht. unfold DumpRun. destruct (mem_tuples_ st) eqn:E; [done|by apply spill_collected]. Qed.

Lemma make_full : full (Make d).
Proof. split_and!; cbn; by rewrite ?length_replicate. Qed.

Lemma perform_merge st ins :
  collected st ins → tapes_ st ≠ [] →
  ∃ st' rests, PerformSort st = (Ret tt, st') ∧ is_sorted st' = true ∧ tapes_ st' ≠ [] ∧ merging st' rests ∧ remaining (merge_heap_ st') rests ≡ₚ clean <$> ins.
Proof.
  intros Hc Ht. destruct (dump_collected st ins Hc Ht) as (((H1 & H2 & H3 & H4 & H5) & _ & runs & Hw & Hr & Hp) & Hm & Ht1). rewrite Hm, app_nil_r in Hp.
  assert (Hs : is_sorted st = false) by apply Hc. set (st1 := DumpRun st) in *. set (st2 := with_heap [] (with_tapes (Rewind <$> tapes_ st1) st1)).
  assert (Hb : beginning 0 st2 runs).
  { split_and!; [done|cbn; rewrite H3; apply make_full| |apply NoDup_nil_2|constructor|constructor|].
    - cbn. apply Forall2_fmap_l. eapply Forall2_impl; [exact Hw|]. intros t r (W1 & W2 & W3). split; [done|]. unfold unread, Rewind. cbn. by rewrite W2.
    - intros k r Hk. rewrite Forall_forall in Hr. apply Hr. by eapply list_elem_of_lookup_2. }
  assert (Hlen : length (tapes_ st2) = length runs) by (cbn; rewrite length_fmap; by eapply Forall2_length).
  destruct (read_heads_run (length runs) 0 st2 runs Hb) as (st3 & rests & Hrun & Hmerge & Hrem & Hl & Hs3); [done|].
  exists (set_sorted st3), rests. split_and!; [|done|intros E; cbn in E, Hl; rewrite E, length_fmap in Hl; by destruct (tapes_ st1)|done|by rewrite Hrem; unfold remaining; cbn; rewrite Hp].
  unfold PerformSort. rewrite (bind_ret_run get _ st st st) by done. rewrite Hs. rewrite (bind_ret_run _ _ st tt st) by done.
  destruct (tapes_ st) as [|t ts] eqn:E; [done|]. rewrite (bind_ret_run (modify DumpRun ≫= λ _, BeginMerge) _ st tt st3); [done|].
  rewrite (bind_ret_run (modify DumpRun) _ st tt st1) by done. unfold BeginMerge. rewrite (bind_ret_run (modify _) _ st1 tt st2) by done.
  rewrite (bind_ret_run get _ st2 st2 st2) by done. by rewrite Hlen.
Qed.

Lemma get_memory st :
  is_sorted st = true → tapes_ st = [] →
  GetTuple st = match mem_tuples_ st !! mem_output_index_ st with
                | None => (Ret None, st)
                | Some s => (Ret (Some s), with_output (S (mem_output_index_ st)) (output_slot_ st) st)
                end.
Proof. intros Hs Ht. unfold GetTuple. run_step. rewrite Hs, Ht. cbn. by destruct (_ !! _). Qed.

Lemma get_merge st : is_sorted st = true → tapes_ st ≠ [] → GetTuple st = GetTupleFromMerge st.
Proof.
  intros Hs Ht. unfold GetTuple. rewrite (bind_ret_run get _ st st st) by done. rewrite Hs. cbn [negb when]. rewrite (bind_ret_run (mret tt) _ st tt st) by done. by destruct (tapes_ st).
Qed.

Lemma drain_memory n : ∀ st,
  is_sorted st = true → tapes_ st = [] → (length (mem_tuples_ st) - mem_output_index_ st < n)%nat →
  ∃ st', drain n st = (Ret (drop (mem_output_index_ st) (mem_tuples_ st)), st') ∧ GetTuple st' = (Ret None, st').
Proof.
  induction n as [|n IH]; intros st Hs Ht Hn; [lia|]. cbn [drain]. pose proof (get_memory st Hs Ht) as Hg.
  destruct (mem_tuples_ st !! mem_output_index_ st) as [s|] eqn:E.
  - rewrite (bind_ret_run _ _ _ _ _ Hg). destruct (IH (with_output (S (mem_output_index_ st)) (output_slot_ st) st)) as (st' & Hd & Hend); [done|done|cbn; apply lookup_lt_Some in E; lia|].
    rewrite (bind_ret_run _ _ _ _ _ Hd). exists st'. split; [|done]. by rewrite (drop_S _ _ _ E).
  - rewrite (bind_ret_run _ _ _ _ _ Hg). exists st. split; [|done]. by rewrite drop_ge by (by apply lookup_ge_None).
Qed.

Lemma drain_merge n : ∀ st rests,
  is_sorted st = true → tapes_ st ≠ [] → merging st rests → (length (remaining (merge_heap_ st) rests) < n)%nat →
  ∃ out st', drain n st = (Ret out, st') ∧ out ≡ₚ remaining (merge_heap_ st) rests ∧ StronglySorted le out ∧ GetTuple st' = (Ret None, st') ∧ Forall ok out.
Proof.
  induction n as [|n IH]; intros st rests Hs Ht Hm Hn; [lia|]. cbn [drain]. destruct (merge_heap_ st) as [|e heap] eqn:Eh.
  - assert (Hg : GetTuple st = (Ret None, st)) by (rewrite get_merge by done; unfold GetTupleFromMerge; rewrite (bind_ret_run get _ st st st) by done; by rewrite Eh).
    rewrite (bind_ret_run _ _ _ _ _ Hg). exists [], st. split; [done|]. split; [|split; [constructor|done]]. destruct Hm as (_ & _ & _ & _ & _ & Hall).
    assert (concat rests = []) as E; [|unfold remaining; by rewrite E]. clear -Hall Eh. rewrite Eh in Hall. destruct (concat rests) as [|y l] eqn:E; [done|].
    assert (Hy : y ∈ concat rests) by (rewrite E; by left). apply list_elem_of_In, in_concat in Hy as (r & Hr%list_elem_of_In & Hy%list_elem_of_In).
    apply list_elem_of_lookup in Hr as [i Hi]. assert (r ≠ []) by (intros ->; by apply not_elem_of_nil in Hy). by destruct (not_elem_of_nil _ (Hall i r Hi ltac:(done))).
  - destruct (merge_step st rests Hm) as (s & st1 & rests1 & Hg & Hm1 & Hok & Hp & Hle & Hlen & Hs1); [by rewrite Eh|]. rewrite <- Eh in *.
    rewrite <- (get_merge st) in Hg by done. rewrite (bind_ret_run _ _ _ _ _ Hg). rewrite Hp in Hn. cbn [length] in Hn.
    destruct (IH st1 rests1) as (out & st2 & Hd & Hperm & Hsort & Hend & Hout); [congruence|intros E; rewrite E in Hlen; by destruct (tapes_ st)|done|lia|].
    rewrite (bind_ret_run _ _ _ _ _ Hd). exists (s :: out), st2. split; [done|]. split_and!; [by rewrite Hp, Hperm| |done|by constructor]. constructor; [done|]. by rewrite Hperm.
Qed.

Lemma new_collected wm : collected (new_sort d keys wm dir) [].
Proof. split; [done|]. split; [constructor|]. by exists []. Qed.

(** The sort and the reading of its result. *)
Lemma sort_steps wm ins :
  Forall ok ins →
  ∃ st1 out st2, PerformSort (foldl (λ st s, PutTuple s st) (new_sort d keys wm dir) ins) = (Ret tt, st1) ∧ drain (S (length ins)) st1 = (Ret out, st2) ∧
    StronglySorted le out ∧ clean <$> out ≡ₚ clean <$> ins ∧ GetTuple st2 = (Ret None, st2) ∧ Forall ok out.
Proof.
  intros Hin. pose proof (puts_collected ins (new_sort d keys wm dir) [] Hin (new_collected wm)) as Hc. cbn [app] in Hc.
  set (st0 := foldl _ _ ins) in *. destruct (tapes_ st0) eqn:Et.
  - destruct (perform_memory st0 ins Hc Et) as (st1 & Hp & Hs1 & Ht1 & Hi1 & [Hok Hrun] & Hperm).
    destruct (drain_memory (S (length ins)) st1 Hs1 Ht1) as (st2 & Hd & Hend); [rewrite Hperm; lia|]. rewrite Hi1 in Hd. exists st1, (mem_tuples_ st1), st2.
    split_and!; [done|done|done|by rewrite Hperm|done|done].
  - assert (tapes_ st0 ≠ []) as Hne by by rewrite Et. destruct (perform_merge st0 ins Hc Hne) as (st1 & rests & Hp & Hs1 & Ht1 & Hm & Hrem).
    destruct (drain_merge (S (length ins)) st1 rests Hs1 Ht1 Hm) as (out & st2 & Hd & Hperm & Hsort & Hend & Hok); [rewrite Hrem, length_fmap; lia|].
    exists st1, out, st2. split_and!; [done|done|done| |done|done]. rewrite Hperm, Hrem, <- list_fmap_compose. erewrite list_fmap_ext; [done|]. intros i s _. apply clean_twice.
Qed.

Lemma sort_run wm ins :
  Forall ok ins →
  ∃ out st, sort_tuples ins (new_sort d keys wm dir) = (Ret out, st) ∧ StronglySorted le out ∧ clean <$> out ≡ₚ clean <$> ins ∧
    GetTuple st = (Ret None, st) ∧ Forall ok out.
Proof.
  intros Hin. destruct (sort_steps wm ins Hin) as (st1 & out & st2 & Hp & Hd & Hs & Hperm & Hend & Hok). exists out, st2. split_and!; [|done..]. unfold sort_tuples.
  rewrite (bind_ret_run (modify _) _ (new_sort d keys wm dir) tt (foldl (λ st s, PutTuple s st) (new_sort d keys wm dir) ins)) by done. by rewrite (bind_ret_run _ _ _ _ _ Hp).
Qed.
End with_std_sort.
End sort.

(** A tuple of the descriptor whose key columns have values of their types. *)
Lemma readable_ok d keys s : wf_slot d s → RowOrder.readable keys s → ok d keys s.
Proof. intros Hw Hr. split; [done|]. apply RowOrder.readable_keys_ok; [|done]. destruct Hw as (E & _ & F & _). unfold RowOrder.flags_fit, Natts. by rewrite E. Qed.
Lemma wf_flags d s : wf_slot d s → RowOrder.flags_fit s ∧ length (tts_values s) = Natts s.
Proof. intros (E & V & F & _). unfold RowOrder.flags_fit, Natts. by rewrite E. Qed.

(** What the sort returns has such columns as well. *)
Lemma readable_perm d keys l l' :
  Forall (wf_slot d) l → Forall (wf_slot d) l' → Forall (RowOrder.readable keys) l → clean <$> l' ≡ₚ clean <$> l → Forall (RowOrder.readable keys) l'.
Proof.
  intros Hw Hw' Hr Hp. rewrite !Forall_forall in *. intros x Hx. assert (Hc : clean x ∈ clean <$> l) by (rewrite <- Hp; by apply list_elem_of_fmap_2).
  apply list_elem_of_fmap_1 in Hc as (y & E & Hy). destruct (wf_flags d x (Hw' x Hx)) as [X1 X2], (wf_flags d y (Hw y Hy)) as [Y1 Y2].
  rewrite <- RowOrder.readable_clean, E, RowOrder.readable_clean by done. by apply Hr.
Qed.

Lemma sorted_rows_le d keys l : Forall (wf_slot d) l → Forall (RowOrder.readable keys) l → StronglySorted (le keys) l → StronglySorted (RowOrder.row_le keys) l.
Proof.
  intros Hw Hr Hs. induction Hs as [|x l _ IH Hx]; [constructor|]. apply Forall_cons in Hw as [Wx Hw], Hr as [Rx Hr]. constructor; [by apply IH|].
  rewrite Forall_forall in *. intros y Hy. destruct (wf_flags d x Wx) as [X _], (wf_flags d y (Hw y Hy)) as [Y _]. apply RowOrder.compare_le; auto. by apply Hx.
Qed.

(** C4: the sort returns its tuples sorted and complete.  For every limit on
    memory, and so for every number of runs on tapes, putting tuples of the
    descriptor, sorting, and getting them back until there are none returns
    them all (without values for their null columns) in the order of the keys that
    [RowOrder] defines, by the values of the columns, their direction and the place
    of nulls; then there are no more.  The key columns are of a type with an order
    there: integers of four or eight bytes, dates, timestamps, doubles other than
    NaN, truth values and texts. *)
Theorem external_sort_sorts `{Process, StdSortLaws} d keys work_mem temp_dir ins :
  Z.of_nat (length (attrs d)) < 2 ^ 31 → Forall (wf_slot d) ins → Forall (RowOrder.readable keys) ins →
  ∃ out st, sort_tuples ins (new_sort d keys work_mem temp_dir) = (Ret out, st) ∧ StronglySorted (RowOrder.row_le keys) out ∧
    clean <$> out ≡ₚ clean <$> ins ∧ GetTuple st = (Ret None, st).
Proof.
  intros Hd Hw Hr. assert (Hok : Forall (ok d keys) ins) by (rewrite Forall_forall in *; intros x Hx; apply readable_ok; auto).
  destruct (sort_run d keys Hd temp_dir work_mem ins Hok) as (out & st & Hrun & Hs & Hp & Hend & Hout). exists out, st. split_and!; [done| |done..].
  assert (Forall (wf_slot d) out) by (eapply Forall_impl; [exact Hout|]; by intros s [? _]). eapply sorted_rows_le; [done| |done]. by eapply (readable_perm d keys ins).
Qed.

#[export] Instance demo_process : Process := 42.

(** Two columns, an integer and a text; descending by the first. *)
Definition demo_desc : TupleDescData := mkTupleDesc [mkAttr 4 true HeapForm.kInt kPlain; mkAttr (-1) false HeapForm.kInt kExtended].
Definition demo_keys : list SortKey := [mkKey 1 kInt4Oid true false; mkKey 2 kTextOid false true].
Definition demo_slot (z : Z) (text : list Z) : TupleTableSlot :=
  mkSlot demo_desc [DVal z; DRef (to_le 4 (4 + Z.of_nat (length text)) ++ text)] [false; false].
Definition demo_null (z : Z) : TupleTableSlot := mkSlot demo_desc [DVal z; DVal 0] [false; true].
Definition demo_ins : list TupleTableSlot := [demo_slot 3 [97; 98]; demo_slot 7 [98]; demo_null 3; demo_slot 3 [97]; demo_slot 9 []].

Lemma demo_slots_ok : Forall (ok demo_desc demo_keys) demo_ins.
Proof.
  assert (Hslot : ∀ z t, 0 ≤ z < 2 ^ 32 → Forall is_u8 t → (length t ≤ 8)%nat → ok demo_desc demo_keys (demo_slot z t)).
  { intros z t Hz Ht Hl. assert (Hp : plain_text (to_le 4 (4 + Z.of_nat (length t)) ++ t)).
    { split_and!; [apply Forall_app; split; [apply to_le_u8|done]| | |]; rewrite ?length_app, ?length_to_le; [|lia|lia].
      rewrite take_app_length' by (by rewrite length_to_le). rewrite of_to_le, Z.mod_small by (cbn; lia). lia. }
    split; [split_and!; [done|done|done|]|].
    - intros [|[|i]] a [= <-] _; [split; [by right; right; left|by exists z]|by eexists].
    - constructor; [by intros _; split|]. constructor; [|constructor]. intros _. by split. }
  assert (Hnull : ok demo_desc demo_keys (demo_null 3)).
  { split; [split_and!; [done|done|done|]|repeat constructor; done]. intros [|[|i]] a [= <-] Hn; [split; [by right; right; left|by exists 3]|done]. }
  repeat (apply Forall_cons; split); try apply Forall_nil_2; try apply Hnull; apply Hslot; first [done|repeat constructor; done|cbn; lia].
Qed.

Lemma demo_ins_wf : Forall (wf_slot demo_desc) demo_ins.
Proof. eapply Forall_impl; [apply demo_slots_ok|]. by intros s [? _]. Qed.
Lemma demo_readable : Forall (RowOrder.readable demo_keys) demo_ins.
Proof. repeat (apply Forall_cons; split); try apply Forall_nil_2; repeat (apply Forall_cons; split); try apply Forall_nil_2; first [left; by vm_compute|right; vm_compute; by eexists]. Qed.

Lemma external_sort_sorts_witness :
  ∃ out st, sort_tuples demo_ins (new_sort demo_desc demo_keys 100 "/tmp") = (Ret out, st) ∧ StronglySorted (RowOrder.row_le demo_keys) out ∧ clean <$> out ≡ₚ clean <$> demo_ins ∧ NumRuns st = 3.
Proof.
  destruct (external_sort_sorts demo_desc demo_keys 100 "/tmp" demo_ins) as (out & st & Hrun & Hsort & Hperm & _); [done|apply demo_ins_wf|apply demo_readable|].
  exists out, st. split_and!; [done|done|done|]. vm_compute in Hrun. injection Hrun as _ <-. vm_compute. reflexivity.
Defined.

(** ** Errors, and types the comparison does not know *)

(** The sort is performed once, and before anything is read. *)
Theorem sort_call_order `{Process, StdSort} d keys work_mem temp_dir ins :
  let st := foldl (λ st s, PutTuple s st) (new_sort d keys work_mem temp_dir) ins in
  (GetTuple st).1 = Ereport "tuplesort: GetTuple called before PerformSort" ∧
  (∀ st', PerformSort st = (Ret tt, st') → (PerformSort st').1 = Ereport "tuplesort: PerformSort called twice").
Proof.
  intros st. assert (Hs : is_sorted st = false).
  { unfold st. generalize (eq_refl : is_sorted (new_sort d keys work_mem temp_dir) = false). generalize (new_sort d keys work_mem temp_dir). induction ins as [|s ins IH]; intros st0 Hst0; [done|].
    apply IH. unfold PutTuple, DumpRun. cbn. by destruct (_ <? _), (mem_tuples_ st0). }
  split.
  - unfold GetTuple. run_step. by rewrite Hs.
  - intros st' Hp. unfold PerformSort in Hp. rewrite (bind_ret_run get _ st st st) in Hp by done. rewrite Hs in Hp. cbn [when] in Hp. rewrite (bind_ret_run (mret tt) _ st tt st) in Hp by done.
    apply bind_inv_ret in Hp as ([] & st1 & _ & Hp). injection Hp as <-. done.
Qed.

(** ** Temporary files *)

Section paths.
Context `{Process, StdSort}.

Definition path_of (dir : string) (n : Z) : string :=
  dir +:+ "/pgcpp_tuplesort_" +:+ int_to_string getpid +:+ "_" +:+ int_to_string n +:+ ".tmp".

(** The tapes of a sort are numbered from 0. *)
Definition numbered (st : TupleSort) : Prop :=
  path_ <$> tapes_ st = (λ i, path_of (temp_dir_ st) (i32 (Z.of_nat i))) <$> seq 0 (length (tapes_ st)) ∧
  tape_counter_ st = i32 (Z.of_nat (length (tapes_ st))).

Lemma i32_add_l a b : i32 (i32 a + b) = i32 (a + b).
Proof.
  unfold i32. f_equal. replace ((a + 2 ^ 31) `mod` 2 ^ 32 - 2 ^ 31 + b + 2 ^ 31) with ((a + 2 ^ 31) `mod` 2 ^ 32 + b) by lia.
  rewrite Zplus_mod_idemp_l. f_equal. lia.
Qed.

Lemma write_all_path l : ∀ t, path_ (foldl (λ t slot, WriteTuple slot t) t l) = path_ t.
Proof. induction l as [|s l IH]; intros t; [done|]. cbn [foldl]. by rewrite IH. Qed.

Lemma spill_numbered st : numbered st → numbered (spill st) ∧ temp_dir_ (spill st) = temp_dir_ st.
Proof.
  intros [Hp Hc]. split; [|done]. split.
  - cbn. rewrite fmap_app, Hp, length_app, Nat.add_1_r, seq_S, fmap_app. f_equal. cbn. rewrite write_all_path. cbn. by rewrite Hc.
  - cbn. rewrite Hc, i32_add_l, length_app. f_equal. cbn. lia.
Qed.

Lemma dump_numbered st : numbered st → numbered (DumpRun st) ∧ temp_dir_ (DumpRun st) = temp_dir_ st.
Proof. intros Hn. unfold DumpRun. destruct (mem_tuples_ st); [done|by apply spill_numbered]. Qed.

Lemma puts_numbered ins : ∀ st,
  numbered st → let st' := foldl (λ st s, PutTuple s st) st ins in numbered st' ∧ temp_dir_ st' = temp_dir_ st.
Proof.
  induction ins as [|s ins IH]; intros st Hn; [done|]. cbn [foldl]. assert (numbered (PutTuple s st) ∧ temp_dir_ (PutTuple s st) = temp_dir_ st) as [Hn' <-].
  { unfold PutTuple. cbn zeta. set (st1 := with_mem _ _ st). assert (H1 : numbered st1) by done. destruct (_ <? _); [|done]. by destruct (dump_numbered st1 H1). }
  by apply IH.
Qed.

Lemma temp_path_inj dir i j : 0 ≤ i < 2 ^ 31 → 0 ≤ j < 2 ^ 31 → path_of dir i = path_of dir j → i = j.
Proof.
  intros Hi Hj Hp. unfold path_of in Hp. do 4 apply CString.append_inj_l in Hp. unfold int_to_string in Hp.
  rewrite !(proj2 (Z.ltb_ge _ _)) in Hp by lia. apply (f_equal CString.chars) in Hp. rewrite !CString.chars_app, !CString.chars_of_chars in Hp.
  assert (Hs : ∀ z, 0 ≤ z < 2 ^ 31 → CString.scan_integer 10 (CString.print_digits 10 10 z ++ CString.chars ".tmp") = Some (false, z, CString.chars ".tmp")).
  { intros z Hz. apply (CString.scan_print_padded 10 0 10 z); try done; try lia. }
  pose proof (Hs i Hi) as Ei. rewrite Hp, (Hs j Hj) in Ei. by injection Ei.
Qed.

(** The tapes of one sort are different files. *)
Theorem own_paths_distinct d keys work_mem dir ins :
  let st := DumpRun (foldl (λ st s, PutTuple s st) (new_sort d keys work_mem dir) ins) in
  Z.of_nat (length (tapes_ st)) < 2 ^ 31 → NoDup (path_ <$> tapes_ st).
Proof.
  intros st Hlen. destruct (dump_numbered (foldl (λ st s, PutTuple s st) (new_sort d keys work_mem dir) ins)) as [[Hp _] _]; [by apply puts_numbered|].
  fold st in Hp. rewrite Hp. apply NoDup_fmap_2_strong; [|apply NoDup_seq]. intros i j Hi%elem_of_seq Hj%elem_of_seq E.
  rewrite !i32_small in E by lia. apply temp_path_inj in E; lia.
Qed.

(** Two sorts of one process are not told apart: the first tape of each is the
    same file, which the later sort truncates when it spills. *)
Theorem sorts_share_files d1 keys1 mem1 ins1 d2 keys2 mem2 ins2 dir t1 t2 :
  head (tapes_ (foldl (λ st s, PutTuple s st) (new_sort d1 keys1 mem1 dir) ins1)) = Some t1 →
  head (tapes_ (foldl (λ st s, PutTuple s st) (new_sort d2 keys2 mem2 dir) ins2)) = Some t2 → path_ t1 = path_ t2.
Proof.
  assert (Hf : ∀ d keys mem ins t, head (tapes_ (foldl (λ st s, PutTuple s st) (new_sort d keys mem dir) ins)) = Some t → path_ t = path_of dir 0).
  { intros d keys mem ins t Ht. destruct (puts_numbered ins (new_sort d keys mem dir)) as [[Hp _] Hd]; [done|]. cbn zeta in *. set (st := foldl _ _ ins) in *.
    destruct (tapes_ st) as [|t' ts]; [done|]. injection Ht as ->. rewrite Hd in Hp. by injection Hp. }
  intros H1 H2. by rewrite (Hf _ _ _ _ _ H1), (Hf _ _ _ _ _ H2).
Qed.

End paths.

(** Values of a type [CompareValues] does not list all compare as equal: rows
    sorted by a [smallint], a [varchar] or a [numeric] stay as they come. *)
Theorem unlisted_types_are_equal ty a b :
  ty ∉ [kInt4Oid; kDateOid; kInt8Oid; kTimestampOid; kFloat8Oid; kBoolOid; kTextOid] →
  key_null a 1 = false → key_null b 1 = false → Compare [mkKey 1 ty false false] a b = 0.
Proof.
  intros Ht Ha Hb. cbn [Compare attnum typid]. rewrite Ha, Hb. cbn [andb]. unfold CompareValues. rewrite !not_elem_of_cons in Ht.
  rewrite !(proj2 (Z.eqb_neq ty _)) by tauto. done.
Qed.

(** With two NaNs the comparison is no strict weak order: NaN equals every
    number, so that numbers next to it need not be sorted. *)
Definition nan_datum : Datum := DVal 0x7FF8000000000000.
Definition one_datum : Datum := DVal 0x3FF0000000000000.
Definition two_datum : Datum := DVal 0x4000000000000000.
Theorem nan_breaks_order :
  CompareValues two_datum nan_datum kFloat8Oid = 0 ∧ CompareValues nan_datum one_datum kFloat8Oid = 0 ∧ CompareValues two_datum one_datum kFloat8Oid = 1.
Proof. by vm_compute. Qed.

End TuplesortSpec.
