(* ===== verification/Tuplestore.v ===== *)
(** * The tuple store

    src/utils/sort/tuplestore.cpp and include/utils/sort/tuplestore.hpp: tuples
    are kept in memory until [work_mem] is exceeded, from then on in a
    temporary file, and come back in the order they were put.

    A store knows its address, which its file name contains; files are those of
    [TupleTape]. *)

From stdpp Require Import base list strings.
From S2P Require Import Prelude CString HeapForm TupleTape Tuplesort.

Module Tuplestore.
Import HeapForm TupleTape.

Record Tuplestore := mkStore {
  address_ : Z;
  tupdesc_ : TupleDescData;
  work_mem_ : Z;
  temp_dir_ : string;
  mem_tuples_ : list TupleTableSlot;
  mem_used_ : Z;
  read_index_ : nat;
  spilled_ : bool;
  file_ : FILE;
  writing_ : bool;
  num_tuples_ : Z;
  path_ : string;
  read_slot_ : TupleTableSlot }.

Definition new_store (this : Z) (tupdesc : TupleDescData) (work_mem : Z) (temp_dir : string) : Tuplestore :=
  mkStore this tupdesc work_mem temp_dir [] 0 0 false new_file true 0 EmptyString (Make tupdesc).

Definition with_mem (mem : list TupleTableSlot) (used : Z) (st : Tuplestore) : Tuplestore :=
  mkStore (address_ st) (tupdesc_ st) (work_mem_ st) (temp_dir_ st) mem used (read_index_ st) (spilled_ st) (file_ st) (writing_ st) (num_tuples_ st) (path_ st) (read_slot_ st).
Definition with_index (i : nat) (st : Tuplestore) : Tuplestore :=
  mkStore (address_ st) (tupdesc_ st) (work_mem_ st) (temp_dir_ st) (mem_tuples_ st) (mem_used_ st) i (spilled_ st) (file_ st) (writing_ st) (num_tuples_ st) (path_ st) (read_slot_ st).
Definition with_spilled (path : string) (spilled : bool) (st : Tuplestore) : Tuplestore :=
  mkStore (address_ st) (tupdesc_ st) (work_mem_ st) (temp_dir_ st) (mem_tuples_ st) (mem_used_ st) (read_index_ st) spilled (file_ st) (writing_ st) (num_tuples_ st) path (read_slot_ st).
Definition with_file (f : FILE) (writing : bool) (st : Tuplestore) : Tuplestore :=
  mkStore (address_ st) (tupdesc_ st) (work_mem_ st) (temp_dir_ st) (mem_tuples_ st) (mem_used_ st) (read_index_ st) (spilled_ st) f writing (num_tuples_ st) (path_ st) (read_slot_ st).
Definition with_num (n : Z) (st : Tuplestore) : Tuplestore :=
  mkStore (address_ st) (tupdesc_ st) (work_mem_ st) (temp_dir_ st) (mem_tuples_ st) (mem_used_ st) (read_index_ st) (spilled_ st) (file_ st) (writing_ st) n (path_ st) (read_slot_ st).
Definition with_slot (slot : TupleTableSlot) (st : Tuplestore) : Tuplestore :=
  mkStore (address_ st) (tupdesc_ st) (work_mem_ st) (temp_dir_ st) (mem_tuples_ st) (mem_used_ st) (read_index_ st) (spilled_ st) (file_ st) (writing_ st) (num_tuples_ st) (path_ st) slot.

Definition MemUsed (st : Tuplestore) : Z := mem_used_ st.
Definition IsOnDisk (st : Tuplestore) : bool := spilled_ st.
Definition NumTuples (st : Tuplestore) : Z := num_tuples_ st.

(** The file takes the attributes from the slot's own descriptor. *)
Definition WriteTupleToFile (slot : TupleTableSlot) (st : Tuplestore) : Tuplestore :=
  with_file (fwrite (tuple_bytes (tts_tupleDescriptor slot) slot) (file_ st)) (writing_ st) st.

Section operations.
Context `{Tuplesort.Process}.

(** The address is printed in decimal: up to twenty digits. *)
Definition MakeTempPath (st : Tuplestore) : string :=
  temp_dir_ st +:+ "/pgcpp_tuplestore_" +:+ int_to_string Tuplesort.getpid +:+ "_" +:+ int_to_string (num_tuples_ st) +:+ "_" +:+
  CString.of_chars (CString.print_digits 10 20 (address_ st)) +:+ ".tmp".

Definition SpillToDisk (st : Tuplestore) : Tuplestore :=
  let st := with_file new_file (writing_ st) (with_spilled (MakeTempPath st) (spilled_ st) st) in
  let st := foldl (λ st slot, WriteTupleToFile slot st) st (mem_tuples_ st) in
  with_spilled (path_ st) true (with_mem [] 0 st).

Definition PutTuple (slot : TupleTableSlot) (st : Tuplestore) : Tuplestore :=
  let copy := copy_slot slot in
  let st :=
    if spilled_ st then WriteTupleToFile copy st
    else
      let st := with_mem (mem_tuples_ st ++ [copy]) (u64 (mem_used_ st + EstimateSlotSize copy)) st in
      if work_mem_ st <? mem_used_ st then SpillToDisk st else st in
  with_num (i32 (num_tuples_ st + 1)) st.

End operations.

(** Into the reused slot, whose new contents are returned. *)
Definition ReadTupleFromFile : M Tuplestore (option TupleTableSlot) :=
  λ st,
    let '(o, f) := read_tuple "tuplestore" (tupdesc_ st) (read_slot_ st) (file_ st) in
    let st := with_file f (writing_ st) st in
    match o with
    | Ret (Some slot) => (Ret (Some slot), with_slot slot st)
    | _ => (o, st)
    end.

Definition Rewind (st : Tuplestore) : Tuplestore :=
  with_index 0 (if spilled_ st then with_file (rewind (file_ st)) false st else st).

Definition GetTuple : M Tuplestore (option TupleTableSlot) :=
  st ← get;
  if negb (spilled_ st) then
    match mem_tuples_ st !! read_index_ st with
    | None => mret None
    | Some slot => modify (with_index (S (read_index_ st)));; mret (Some slot)
    end
  else
    when (writing_ st) (modify Rewind);;
    ReadTupleFromFile.

End Tuplestore.
