(* ===== verification/TuplestoreSpec.v ===== *)
(** * The tuple store returns its tuples in order

    Reading all tuples after putting them gives them back, in memory or from
    the file, as often as the store is rewound. *)

From stdpp Require Import base list strings.
From S2P Require Import Prelude HeapForm TupleTape Tuplesort Tuplestore.

Module TuplestoreSpec.
Import HeapForm TupleTape Tuplestore.

Section store.
Context `{Tuplesort.Process} (d : TupleDescData).
Hypothesis small : Z.of_nat (length (attrs d)) < 2 ^ 31.

(** A tuple as scans return it: without values for null columns. *)
Definition storable (s : TupleTableSlot) : Prop := wf_slot d s ∧ clean s = s.

Definition bytes_of (l : list TupleTableSlot) : list Z := concat (tuple_bytes d <$> l).

Definition slot_fits (slot : TupleTableSlot) : Prop :=
  tts_tupleDescriptor slot = d ∧ length (tts_values slot) = length (attrs d) ∧ length (tts_isnull slot) = length (attrs d).

(** A store that holds [l] and to which only [PutTuple] was applied. *)
Definition holds (l : list TupleTableSlot) (st : Tuplestore) : Prop :=
  tupdesc_ st = d ∧ read_index_ st = 0%nat ∧ writing_ st = true ∧ slot_fits (read_slot_ st) ∧ Forall storable l ∧
  (if spilled_ st then mem_tuples_ st = [] ∧ file_bytes (file_ st) = bytes_of l ∧ file_pos (file_ st) = length (file_bytes (file_ st))
   else mem_tuples_ st = l).

(** A store that is being read: it holds [l], of which [rest] is to come. *)
Definition reading (l rest : list TupleTableSlot) (st : Tuplestore) : Prop :=
  tupdesc_ st = d ∧ slot_fits (read_slot_ st) ∧ Forall storable l ∧
  ∃ n, rest = drop n l ∧
  (if spilled_ st then writing_ st = false ∧ file_bytes (file_ st) = bytes_of l ∧ unread (file_ st) (bytes_of rest)
   else mem_tuples_ st = l ∧ read_index_ st = n).

Lemma make_fits : slot_fits (Make d).
Proof. unfold slot_fits, Make. cbn. by rewrite !length_replicate. Qed.

Lemma new_holds this work_mem dir : holds [] (new_store this d work_mem dir).
Proof. repeat split; [apply make_fits..|constructor]. Qed.

Lemma bytes_app l1 l2 : bytes_of (l1 ++ l2) = bytes_of l1 ++ bytes_of l2.
Proof. unfold bytes_of. by rewrite fmap_app, concat_app. Qed.

Lemma write_holds l s st : holds l st → storable s → spilled_ st = true → holds (l ++ [s]) (WriteTupleToFile s st).
Proof.
  intros (H1 & H2 & H3 & H4 & H5 & Hd) Hs E. rewrite E in Hd. destruct Hd as (D0 & D1 & D2). pose proof Hs as [(E1 & _) _].
  destruct (fwrite_end (tuple_bytes d s) (file_ st) D2) as [W1 W2]. unfold holds. cbn [WriteTupleToFile with_file tupdesc_ read_index_ writing_ read_slot_ spilled_ mem_tuples_ file_]. rewrite E, E1.
  split_and!; [done|done|done|done|apply Forall_app; split; [done|by constructor]|done| |done]. rewrite W1, D1, bytes_app. unfold bytes_of at 3. cbn. by rewrite app_nil_r.
Qed.

Lemma spill_all k : ∀ l st, holds l st → spilled_ st = true → Forall storable k → holds (l ++ k) (foldl (λ st slot, WriteTupleToFile slot st) st k).
Proof.
  induction k as [|s k IH]; intros l st Hh Hs Hk; [by rewrite app_nil_r|]. apply Forall_cons in Hk as [Hs1 Hk]. cbn [foldl].
  rewrite (cons_middle s l k), (app_assoc l [s] k). apply IH; [by apply write_holds|done|done].
Qed.

(** The same for a store whose flag is not yet set, as in [SpillToDisk]. *)
Lemma foldl_spilled k : ∀ st p b, with_spilled p b (foldl (λ st slot, WriteTupleToFile slot st) st k) =
  foldl (λ st slot, WriteTupleToFile slot st) (with_spilled p b st) k.
Proof. induction k as [|s k IH]; intros st p b; [done|]. cbn [foldl]. by rewrite IH. Qed.
Lemma foldl_mem k : ∀ st m u, with_mem m u (foldl (λ st slot, WriteTupleToFile slot st) st k) =
  foldl (λ st slot, WriteTupleToFile slot st) (with_mem m u st) k.
Proof. induction k as [|s k IH]; intros st m u; [done|]. cbn [foldl]. by rewrite IH. Qed.

Lemma spill_holds l st : holds l st → spilled_ st = false → holds l (SpillToDisk st).
Proof.
  intros (H1 & H2 & H3 & H4 & H5 & Hd) E. rewrite E in Hd. unfold SpillToDisk.
  cbn zeta. rewrite foldl_mem, foldl_spilled. change (mem_tuples_ (with_file _ _ _)) with (mem_tuples_ st). rewrite Hd. rewrite <- (app_nil_l l) at 1. apply spill_all; [|done|done]. by repeat split; cbn; try apply H4; try constructor.
Qed.

Lemma put_holds l s st : holds l st → storable s → holds (l ++ [s]) (PutTuple s st).
Proof.
  intros Hh Hs. unfold PutTuple. rewrite (copy_ok d) by apply Hs. cbn zeta.
  enough (Hn : ∀ n st', holds (l ++ [s]) st' → holds (l ++ [s]) (with_num n st')).
  { destruct (spilled_ st) eqn:E; [by apply Hn, write_holds|]. set (st1 := with_mem _ _ st).
    assert (H1 : holds (l ++ [s]) st1).
    { destruct Hh as (H1 & H2 & H3 & H4 & H5 & Hd). rewrite E in Hd. unfold holds, st1. cbn. rewrite E.
      split; [done|]. split; [done|]. split; [done|]. split; [done|]. split; [apply Forall_app; split; [done|by constructor]|by rewrite Hd]. }
    destruct (_ <? _); [|by apply Hn]. by apply Hn, spill_holds. }
  intros n st' Hst'. exact Hst'.
Qed.

(** *** Reading *)

Lemma bytes_unread l : Forall storable l → ∀ f, unread f (bytes_of l) → match l with
  | [] => ∀ slot, read_tuple "tuplestore" d slot f = (Ret None, f)
  | s :: l' => ∀ slot, slot_fits slot → ∃ f', read_tuple "tuplestore" d slot f = (Ret (Some s), f') ∧ unread f' (bytes_of l') ∧ file_bytes f' = file_bytes f
  end.
Proof.
  intros Hl f Hf. destruct l as [|s l]; [intros slot; by apply read_tuple_end|]. intros slot (F1 & F2 & F3). apply Forall_cons in Hl as [[Hw Hc] _].
  destruct (read_tuple_run "tuplestore" d s slot f (bytes_of l)) as (f' & Hr & Hu & Hb); try done. rewrite Hc in Hr. by exists f'.
Qed.

(** One call: the next tuple, or the end. *)
Lemma get_reading l rest st : reading l rest st →
  match rest with
  | [] => ∃ st', GetTuple st = (Ret None, st') ∧ reading l [] st'
  | s :: rest' => ∃ st', GetTuple st = (Ret (Some s), st') ∧ reading l rest' st'
  end.
Proof.
  intros (H1 & H2 & H3 & n & Hr & Hd). unfold GetTuple. rewrite (bind_ret_run get _ st st st) by done. destruct (spilled_ st) eqn:E; cbn [negb].
  - destruct Hd as (D1 & D2 & D3). rewrite D1. cbn [when]. rewrite (bind_ret_run (mret tt) _ st tt st) by done. unfold ReadTupleFromFile. rewrite H1.
    assert (Hrest : Forall storable rest) by (rewrite Hr; by apply Forall_drop). pose proof (bytes_unread rest Hrest _ D3) as Hb. destruct rest as [|s rest].
    + rewrite (Hb (read_slot_ st)). eexists. split; [done|]. split_and!; [done|apply H2..|done|]. exists n. split; [done|]. cbn. by rewrite E.
    + destruct (Hb (read_slot_ st) H2) as (f' & Hrt & Hu & Hbytes). rewrite Hrt. eexists. split; [done|].
      apply Forall_cons in Hrest as [[(W1 & W2 & W3 & _) _] _]. split; [done|]. split; [done|]. split; [done|]. exists (S n).
      split; [|cbn; rewrite E; split_and!; [done|by rewrite Hbytes|done]]. rewrite <- Nat.add_1_r, <- drop_drop, <- Hr. done.
  - destruct Hd as [D1 D2]. rewrite D1, D2. destruct rest as [|s rest].
    + rewrite lookup_ge_None_2. 2: { apply (f_equal length) in Hr. rewrite length_drop in Hr. cbn in Hr. lia. }
      exists st. split; [done|]. split_and!; [done|apply H2..|done|]. exists n. split; [done|]. by rewrite E.
    + assert (Hl : l !! n = Some s) by (rewrite <- (Nat.add_0_r n), <- lookup_drop, <- Hr; done). rewrite Hl. eexists. split; [done|].
      split; [done|]. split; [done|]. split; [done|]. exists (S n). split; [|cbn; by rewrite E]. rewrite <- Nat.add_1_r, <- drop_drop, <- Hr. done.
Qed.

(** Rewinding, or the first call after writing, starts from the front. *)
Lemma rewind_reading l rest st : reading l rest st → reading l l (Rewind st).
Proof.
  intros (H1 & H2 & H3 & n & Hr & Hd). unfold Rewind. destruct (spilled_ st) eqn:E; (split; [done|]; split; [done|]; split; [done|]; exists 0%nat; split; [done|]); cbn; rewrite E; [|by destruct Hd].
  by destruct Hd as (D1 & D2 & D3).
Qed.

Lemma rewind_holds l st : holds l st → reading l l (Rewind st).
Proof.
  intros (H1 & H2 & H3 & H4 & H5 & Hd). unfold Rewind.
  destruct (spilled_ st) eqn:E; (split; [done|]; split; [done|]; split; [done|]; exists 0%nat; split; [done|]); cbn; rewrite E; [|done].
  destruct Hd as (D1 & D2 & D3). split_and!; done.
Qed.

Lemma first_get l st : holds l st → GetTuple st = GetTuple (if spilled_ st then Rewind st else st).
Proof.
  intros (H1 & H2 & H3 & H4 & H5 & Hd). destruct (spilled_ st) eqn:E; [|done]. unfold GetTuple.
  rewrite (bind_ret_run get _ st st st), (bind_ret_run get _ (Rewind st) (Rewind st) (Rewind st)) by done.
  assert (spilled_ (Rewind st) = true ∧ writing_ (Rewind st) = false) as [-> ->] by (unfold Rewind; by rewrite E). rewrite E, H3. done.
Qed.

Fixpoint drain (n : nat) : M Tuplestore (list TupleTableSlot) :=
  match n with
  | O => mret []
  | S n' => o ← GetTuple; match o with None => mret [] | Some s => l ← drain n'; mret (s :: l) end
  end.

Lemma drain_reading n : ∀ l rest st, reading l rest st → (length rest < n)%nat →
  ∃ st', drain n st = (Ret rest, st') ∧ reading l [] st'.
Proof.
  induction n as [|n IH]; intros l rest st Hr Hn; [lia|]. cbn [drain]. pose proof (get_reading l rest st Hr) as Hg. destruct rest as [|s rest].
  - destruct Hg as (st' & Hg & Hr'). rewrite (bind_ret_run _ _ _ _ _ Hg). by exists st'.
  - destruct Hg as (st1 & Hg & Hr1). rewrite (bind_ret_run _ _ _ _ _ Hg). destruct (IH l rest st1 Hr1) as (st2 & Hd & Hr2); [cbn in Hn; lia|].
    rewrite (bind_ret_run _ _ _ _ _ Hd). by exists st2.
Qed.

Lemma puts_holds ins : ∀ l st, holds l st → Forall storable ins → holds (l ++ ins) (foldl (λ st s, PutTuple s st) st ins).
Proof.
  induction ins as [|s ins IH]; intros l st Hh Hi; [by rewrite app_nil_r|]. apply Forall_cons in Hi as [Hs Hi]. cbn [foldl].
  rewrite (cons_middle s l ins), (app_assoc l [s] ins). apply IH; [|done]. by apply put_holds.
Qed.
End store.

(** whatever the limit on memory, a store returns the tuples that were put,
    in their order, and again after each [Rewind]. *)
Theorem tuplestore_returns_tuples `{Tuplesort.Process} d this work_mem dir ins :
  Z.of_nat (length (attrs d)) < 2 ^ 31 → Forall (storable d) ins →
  let st := foldl (λ st s, PutTuple s st) (new_store this d work_mem dir) ins in
  ∃ st1 st2, drain (S (length ins)) st = (Ret ins, st1) ∧ GetTuple st1 = (Ret None, st2) ∧
    ∃ st3, drain (S (length ins)) (Rewind st2) = (Ret ins, st3).
Proof.
  intros Hd Hi st. assert (Hh : holds d ins st) by (apply (puts_holds d ins []); [apply new_holds|done]).
  assert (Hfirst : ∃ st1, drain (S (length ins)) st = (Ret ins, st1) ∧ reading d ins [] st1).
  { destruct (spilled_ st) eqn:E.
    - destruct (drain_reading d Hd (S (length ins)) ins ins (Rewind st)) as (st1 & Hdr & Hr1); [by apply rewind_holds|lia|]. exists st1. split; [|done].
      rewrite <- Hdr. cbn [drain]. unfold mbind, M_bind. by rewrite (first_get d ins st Hh), E.
    - apply (drain_reading d Hd); [|lia]. destruct Hh as (H1 & H2 & H3 & H4 & H5 & H6). rewrite E in H6. split; [done|]. split; [done|]. split; [done|]. exists 0%nat. by rewrite E. }
  destruct Hfirst as (st1 & Hdr & Hr1). destruct (get_reading d Hd ins [] st1 Hr1) as (st2 & Hg & Hr2).
  destruct (drain_reading d Hd (S (length ins)) ins ins (Rewind st2)) as (st3 & Hdr3 & _); [by eapply rewind_reading|lia|]. by exists st1, st2; split_and!; [..|exists st3].
Qed.
(** Tuples of one integer. *)
Definition demo_desc : TupleDescData := mkTupleDesc [mkAttr 4 true HeapForm.kInt kPlain].
Definition demo_slot (z : Z) : TupleTableSlot := mkSlot demo_desc [DVal z] [false].
#[export] Instance demo_process : Tuplesort.Process := 42.

Lemma demo_storable z : 0 ≤ z < 2 ^ 32 → storable demo_desc (demo_slot z).
Proof. intros Hz. split; [|done]. split_and!; [done|done|done|]. intros [|i] a [= <-] _. split; [by right; right; left|by exists z]. Qed.

Lemma tuplestore_returns_tuples_witness :
  let st := foldl (λ st s, PutTuple s st) (new_store 4096 demo_desc 100 "/tmp") [demo_slot 3; demo_slot 1; demo_slot 2] in
  IsOnDisk st = true ∧ ∃ st1, drain 4 st = (Ret [demo_slot 3; demo_slot 1; demo_slot 2], st1).
Proof.
  intros st. split; [by vm_compute|].
  destruct (tuplestore_returns_tuples demo_desc 4096 100 "/tmp" [demo_slot 3; demo_slot 1; demo_slot 2]) as (st1 & _ & H & _); [done| |by exists st1].
  repeat (apply Forall_cons; split); try apply Forall_nil_2; by apply demo_storable.
Defined.

(** A tuple that is put after reading has begun, and that makes the store
    spill, starts the reading again: the first tuple is returned twice.  With
    more memory the second [GetTuple] returns the new tuple. *)
Definition put_after_get (work_mem : Z) : outcome (option TupleTableSlot) :=
  (GetTuple (PutTuple (demo_slot 2) (GetTuple (PutTuple (demo_slot 1) (new_store 4096 demo_desc work_mem "/tmp"))).2)).1.
Theorem put_after_get_repeats : put_after_get 1000 = Ret (Some (demo_slot 2)) ∧ put_after_get 60 = Ret (Some (demo_slot 1)).
Proof. by vm_compute. Qed.

End TuplestoreSpec.
