(* ===== verification/HashJoin.v ===== *)
(** * The hybrid hash join

    src/executor/node_hash.cpp and node_hashjoin.cpp with their headers: the
    hash table is built from the inner child; past [work_mem] the tuples are
    spread over batches by their hash, all but the first kept in tuple stores;
    then each batch is probed with the outer tuples that hash to it.

    [exec_step] is one turn of the loop of [HashJoinState::ExecProcNode].

    Expressions are an interface, [Expressions]: their evaluation in an
    expression context.  [std::unordered_multimap] is [StdMultimap]: its
    contents in iteration order, which an insertion may change at will;
    iterators are positions.  The children are the lists of the tuples they
    still return; a slot is its contents.  [ResetExprContext] frees memory and
    has no effect on the model; the JIT is off. *)

From stdpp Require Import base list strings.
From S2P Require Import Prelude HeapForm TupleTape Tuplesort Tuplestore.

Module HashJoin.
Import HeapForm TupleTape.

(** ** Expressions *)

Record ExprContext := mkContext { ecxt_outertuple : TupleTableSlot; ecxt_innertuple : TupleTableSlot; ecxt_scantuple : TupleTableSlot }.

Class Expressions := {
  Node : Type;
  ExecEvalExpr : Node → ExprContext → Datum * bool;
  (** The type of a [Var]; none for another expression. *)
  VarType : Node → option Z;
}.

(** Two kinds of expressions in full: columns, and constants. *)
Inductive VarNo := kInnerVar | kOuterVar | kScanVar.
Inductive SimpleNode := Var (varno : VarNo) (varattno : Z) (vartype : Z) | Const (constvalue : Datum) (constisnull : bool).

Definition GetSlotAttr (slot : TupleTableSlot) (attno : Z) : Datum * bool :=
  if (attno <=? 0) || (Z.of_nat (Natts slot) <? attno) then (DVal 0, true)
  else (value_at slot (Z.to_nat (attno - 1)), null_at slot (Z.to_nat (attno - 1))).

Definition EvalSimple (expr : SimpleNode) (econtext : ExprContext) : Datum * bool :=
  match expr with
  | Var kInnerVar attno _ => GetSlotAttr (ecxt_innertuple econtext) attno
  | Var kOuterVar attno _ => GetSlotAttr (ecxt_outertuple econtext) attno
  | Var kScanVar attno _ => GetSlotAttr (ecxt_scantuple econtext) attno
  | Const v null => (v, null)
  end.

#[export] Instance simple_expressions : Expressions := {|
  Node := SimpleNode;
  ExecEvalExpr := EvalSimple;
  VarType e := match e with Var _ _ t => Some t | Const _ _ => None end;
|}.

(** The hash clauses are the operands of the clauses that are operators. *)
Inductive JoinType := kInner | kLeft | kFull | kRight | kSemi | kAnti | kUniqueOuter | kUniqueInner.
#[export] Instance JoinType_eq_dec : EqDecision JoinType.
Proof. solve_decision. Defined.
Record HashJoin `{Expressions} := mkPlan { jointype : JoinType; hashclauses : list (Node * Node); qual : option Node; targetlist : list Node }.

(** ** Hash values *)

Definition fnv_byte (h b : Z) : Z := u64 (Z.lxor h b * 1099511628211).
Definition fnv (data : list Z) : Z := foldl fnv_byte 14695981039346656037 data.

(** Other types hash as their word; that of a value by reference is an address,
    which the model does not have. *)
Definition HashDatum (val : Datum) (typid : Z) : Z :=
  if typid =? Tuplesort.kInt4Oid then u64 (Tuplesort.DatumGetInt32 val)
  else if typid =? Tuplesort.kInt8Oid then u64 (Tuplesort.DatumGetInt64 val)
  else if typid =? Tuplesort.kFloat8Oid then u64 (word_of val)
  else if typid =? Tuplesort.kTextOid then
    fnv (take (Z.to_nat (VARSIZE_DATA (DatumGetTextP val))) (VARDATA (DatumGetTextP val)))
  else u64 (word_of val).

Definition combine (hash h : Z) : Z := Z.lxor hash (u64 (u64 (u64 (h + 0x9e3779b9) + u64 (Z.shiftl hash 6)) + Z.shiftr hash 2)).

Section expressions.
Context `{Expressions}.

Definition GetExprType (expr : Node) : Z := default Tuplesort.kInt4Oid (VarType expr).

(** The hash in [BuildHashTable]: null keys are left out. *)
Definition build_hash (keys : list Node) (ec : ExprContext) : Z :=
  foldl (λ hash key, let '(val, isnull) := ExecEvalExpr key ec in if (isnull : bool) then hash else combine hash (HashDatum val (GetExprType key))) 0 keys.

(** [HashInnerKeys] and [HashOuterKeys]: none if a key is null. *)
Fixpoint hash_keys (keys : list Node) (ec : ExprContext) (hash : Z) : option Z :=
  match keys with
  | [] => Some hash
  | key :: keys' =>
      let '(val, isnull) := ExecEvalExpr key ec in
      if (isnull : bool) then None else hash_keys keys' ec (combine hash (HashDatum val (GetExprType key)))
  end.

Definition ExecQual (q : option Node) (ec : ExprContext) : bool :=
  match q with
  | None => true
  | Some q => let '(result, isNull) := ExecEvalExpr q ec in if (isNull : bool) then false else Tuplesort.DatumGetBool result
  end.

Definition ExecProject (tl : list Node) (ec : ExprContext) (result_slot : TupleTableSlot) : TupleTableSlot :=
  let es := take (Natts result_slot) tl in
  let vs := (λ e, ExecEvalExpr e ec) <$> es in
  mkSlot (tts_tupleDescriptor result_slot) (vs.*1 ++ drop (length es) (tts_values result_slot)) (vs.*2 ++ drop (length es) (tts_isnull result_slot)).
End expressions.

(** ** The hash table and its batches *)

Record HashEntry := mkEntry { slot : TupleTableSlot; hashkey : Datum; keynull : bool; matched : bool }.

Class StdMultimap := emplace : Z * HashEntry → list (Z * HashEntry) → list (Z * HashEntry).

(** [equal_range]: the positions of the entries with the key. *)
Definition equal_range (hash : Z) (buckets : list (Z * HashEntry)) : list nat :=
  filter (λ i, (fst <$> buckets !! i) = Some hash) (seq 0 (length buckets)).

Definition sizeof_HashEntry : Z := 24.

Record HashState := mkHash {
  hashtable : list (Z * HashEntry);
  work_mem : Z;
  num_batches : Z;
  inner_batches : list Tuplestore.Tuplestore;
  outer_batches : list Tuplestore.Tuplestore;
  mem_used : Z;
  temp_dir : string;
  tupdesc : TupleDescData;
  outer_tupdesc : TupleDescData }.

Definition with_table (t : list (Z * HashEntry)) (hs : HashState) : HashState :=
  mkHash t (work_mem hs) (num_batches hs) (inner_batches hs) (outer_batches hs) (mem_used hs) (temp_dir hs) (tupdesc hs) (outer_tupdesc hs).
Definition with_batches (n : Z) (hs : HashState) : HashState :=
  mkHash (hashtable hs) (work_mem hs) n (inner_batches hs) (outer_batches hs) (mem_used hs) (temp_dir hs) (tupdesc hs) (outer_tupdesc hs).
Definition with_inner (b : list Tuplestore.Tuplestore) (hs : HashState) : HashState :=
  mkHash (hashtable hs) (work_mem hs) (num_batches hs) b (outer_batches hs) (mem_used hs) (temp_dir hs) (tupdesc hs) (outer_tupdesc hs).
Definition with_outer (b : list Tuplestore.Tuplestore) (hs : HashState) : HashState :=
  mkHash (hashtable hs) (work_mem hs) (num_batches hs) (inner_batches hs) b (mem_used hs) (temp_dir hs) (tupdesc hs) (outer_tupdesc hs).
Definition with_used (n : Z) (hs : HashState) : HashState :=
  mkHash (hashtable hs) (work_mem hs) (num_batches hs) (inner_batches hs) (outer_batches hs) n (temp_dir hs) (tupdesc hs) (outer_tupdesc hs).

(** The batch of a hash among [n] batches, a power of two. *)
Definition batch_of (n hash : Z) : Z := i32 (Z.land hash (u64 (n - 1))).
Definition BatchOfHash (hash : Z) (hs : HashState) : Z := if num_batches hs <=? 1 then 0 else batch_of (num_batches hs) hash.

Definition ClearHashTable (hs : HashState) : HashState := with_used 0 (with_table [] hs).
Definition ResetBatches (hs : HashState) : HashState := with_used 0 (with_batches 1 (with_outer [] (with_inner [] (ClearHashTable hs)))).

(** The address of the store of an inner (or outer) batch. *)
Class Heap := store_address : bool → nat → Z.

Section table.
Context `{StdMultimap, Heap, Tuplesort.Process}.

Definition Insert (hash : Z) (s : TupleTableSlot) (keyval : Datum) (keynull : bool) (hs : HashState) : HashState :=
  with_table (emplace (hash, mkEntry s keyval keynull false) (hashtable hs)) hs.

(** [resize], and a store for every batch that has none. *)
Definition grow (outer : bool) (d : TupleDescData) (hs : HashState) (n : nat) (b : list Tuplestore.Tuplestore) : list Tuplestore.Tuplestore :=
  take n b ++ ((λ i, Tuplestore.new_store (store_address outer i) d (work_mem hs) (temp_dir hs)) <$> seq (length b) (n - length b)).

Definition put_batch (i : nat) (s : TupleTableSlot) (b : list Tuplestore.Tuplestore) : list Tuplestore.Tuplestore := alter (Tuplestore.PutTuple s) i b.

(** The entries that stay, and the batches with those that do not. *)
Fixpoint redistribute (n : Z) (l keep : list (Z * HashEntry)) (b : list Tuplestore.Tuplestore) : list (Z * HashEntry) * list Tuplestore.Tuplestore :=
  match l with
  | [] => (keep, b)
  | (hash, entry) :: l' =>
      let batch := batch_of n hash in
      if batch =? 0 then redistribute n l' (keep ++ [(hash, entry)]) b
      else redistribute n l' keep (put_batch (Z.to_nat (batch - 1)) (slot entry) b)
  end.

Definition ExpandBatches (new_num_batches : Z) (hs : HashState) : HashState :=
  let n := Z.to_nat (new_num_batches - 1) in
  let hs := with_inner (grow false (tupdesc hs) hs n (inner_batches hs)) hs in
  let hs := with_outer (grow true (outer_tupdesc hs) hs n (outer_batches hs)) hs in
  let '(keep, inner) := redistribute new_num_batches (hashtable hs) [] (inner_batches hs) in
  let hs := with_batches new_num_batches (with_table (foldl (λ t e, emplace e t) [] keep) (with_inner inner hs)) in
  with_used (u64 (Z.of_nat (length (hashtable hs)) * (sizeof_HashEntry + sizeof_TupleTableSlot + 8 * (8 + 1)))) hs.
End table.

(** The next power of two, at most 1024. *)
Fixpoint double_batches (fuel : nat) (new_batches ratio : Z) : Z :=
  match fuel with
  | O => new_batches
  | S fuel' => if (new_batches <? i32 ratio) && (new_batches <? 1024) then double_batches fuel' (new_batches * 2) ratio else new_batches
  end.
Definition choose_batches (hs : HashState) : Z :=
  let ratio := mem_used hs / work_mem hs in
  double_batches 10 2 (if ratio <? 1 then 1 else ratio).

(** ** The join *)

(** [kNextBatch] is declared in the source and never entered. *)
Inductive Phase := kBuildHashTable | kProbeHashTable | kScanUnmatched | kNextBatch | kDone.

Record HashJoinState := mkJoin {
  hj_HashState : HashState;
  hj_phase : Phase;
  hj_OuterTupleSlot : TupleTableSlot;
  hj_NeedNewOuter : bool;
  hj_MatchedOuter : bool;
  hj_curBucket : list nat;  (** the positions from [hj_curBucket] to [hj_curBucketEnd] *)
  hj_hasBucket : bool;
  hj_scanIter : nat;
  hj_scanStarted : bool;
  hj_cur_batch : Z;
  innertuple : TupleTableSlot;  (** [ps_ExprContext->ecxt_innertuple] *)
  ps_ResultTupleSlot : TupleTableSlot;
  left_child : list TupleTableSlot;  (** what the outer child still returns *)
  right_child : list TupleTableSlot }.  (** what the child of the Hash node still returns *)

Definition with_hash (hs : HashState) (st : HashJoinState) : HashJoinState :=
  mkJoin hs (hj_phase st) (hj_OuterTupleSlot st) (hj_NeedNewOuter st) (hj_MatchedOuter st) (hj_curBucket st) (hj_hasBucket st) (hj_scanIter st)
    (hj_scanStarted st) (hj_cur_batch st) (innertuple st) (ps_ResultTupleSlot st) (left_child st) (right_child st).
Definition with_phase (p : Phase) (st : HashJoinState) : HashJoinState :=
  mkJoin (hj_HashState st) p (hj_OuterTupleSlot st) (hj_NeedNewOuter st) (hj_MatchedOuter st) (hj_curBucket st) (hj_hasBucket st) (hj_scanIter st)
    (hj_scanStarted st) (hj_cur_batch st) (innertuple st) (ps_ResultTupleSlot st) (left_child st) (right_child st).
Definition with_outer_slot (s : TupleTableSlot) (st : HashJoinState) : HashJoinState :=
  mkJoin (hj_HashState st) (hj_phase st) s (hj_NeedNewOuter st) (hj_MatchedOuter st) (hj_curBucket st) (hj_hasBucket st) (hj_scanIter st)
    (hj_scanStarted st) (hj_cur_batch st) (innertuple st) (ps_ResultTupleSlot st) (left_child st) (right_child st).
Definition need_new (b : bool) (st : HashJoinState) : HashJoinState :=
  mkJoin (hj_HashState st) (hj_phase st) (hj_OuterTupleSlot st) b (hj_MatchedOuter st) (hj_curBucket st) (hj_hasBucket st) (hj_scanIter st)
    (hj_scanStarted st) (hj_cur_batch st) (innertuple st) (ps_ResultTupleSlot st) (left_child st) (right_child st).
Definition set_matched (b : bool) (st : HashJoinState) : HashJoinState :=
  mkJoin (hj_HashState st) (hj_phase st) (hj_OuterTupleSlot st) (hj_NeedNewOuter st) b (hj_curBucket st) (hj_hasBucket st) (hj_scanIter st)
    (hj_scanStarted st) (hj_cur_batch st) (innertuple st) (ps_ResultTupleSlot st) (left_child st) (right_child st).
Definition with_bucket (l : list nat) (has : bool) (st : HashJoinState) : HashJoinState :=
  mkJoin (hj_HashState st) (hj_phase st) (hj_OuterTupleSlot st) (hj_NeedNewOuter st) (hj_MatchedOuter st) l has (hj_scanIter st)
    (hj_scanStarted st) (hj_cur_batch st) (innertuple st) (ps_ResultTupleSlot st) (left_child st) (right_child st).
Definition with_scan (i : nat) (started : bool) (st : HashJoinState) : HashJoinState :=
  mkJoin (hj_HashState st) (hj_phase st) (hj_OuterTupleSlot st) (hj_NeedNewOuter st) (hj_MatchedOuter st) (hj_curBucket st) (hj_hasBucket st) i
    started (hj_cur_batch st) (innertuple st) (ps_ResultTupleSlot st) (left_child st) (right_child st).
Definition with_cur_batch (b : Z) (st : HashJoinState) : HashJoinState :=
  mkJoin (hj_HashState st) (hj_phase st) (hj_OuterTupleSlot st) (hj_NeedNewOuter st) (hj_MatchedOuter st) (hj_curBucket st) (hj_hasBucket st) (hj_scanIter st)
    (hj_scanStarted st) b (innertuple st) (ps_ResultTupleSlot st) (left_child st) (right_child st).
Definition with_innertuple (s : TupleTableSlot) (st : HashJoinState) : HashJoinState :=
  mkJoin (hj_HashState st) (hj_phase st) (hj_OuterTupleSlot st) (hj_NeedNewOuter st) (hj_MatchedOuter st) (hj_curBucket st) (hj_hasBucket st) (hj_scanIter st)
    (hj_scanStarted st) (hj_cur_batch st) s (ps_ResultTupleSlot st) (left_child st) (right_child st).
Definition with_result (s : TupleTableSlot) (st : HashJoinState) : HashJoinState :=
  mkJoin (hj_HashState st) (hj_phase st) (hj_OuterTupleSlot st) (hj_NeedNewOuter st) (hj_MatchedOuter st) (hj_curBucket st) (hj_hasBucket st) (hj_scanIter st)
    (hj_scanStarted st) (hj_cur_batch st) (innertuple st) s (left_child st) (right_child st).
Definition with_children (l r : list TupleTableSlot) (st : HashJoinState) : HashJoinState :=
  mkJoin (hj_HashState st) (hj_phase st) (hj_OuterTupleSlot st) (hj_NeedNewOuter st) (hj_MatchedOuter st) (hj_curBucket st) (hj_hasBucket st) (hj_scanIter st)
    (hj_scanStarted st) (hj_cur_batch st) (innertuple st) (ps_ResultTupleSlot st) l r.

(** What one turn of the loop does: go on, or return. *)
Inductive turn := Continue | Return (slot : option TupleTableSlot).

Section join.
Context `{Expressions, StdMultimap, Heap, Tuplesort.Process} (plan : HashJoin).

Definition hj_outer_hashkeys : list Node := (hashclauses plan).*1.
Definition hj_inner_hashkeys : list Node := (hashclauses plan).*2.

(** [HashJoinState::ExecInit] and [HashState::ExecInit], with the descriptors
    of the results of the outer child, the Hash node and its child. *)
Definition ExecInit (outer_desc hash_desc inner_desc result_desc : TupleDescData) (mem : Z) (dir : string) (outers inners : list TupleTableSlot) : HashJoinState :=
  mkJoin (mkHash [] mem 1 [] [] 0 dir hash_desc outer_desc) kBuildHashTable (Make outer_desc) true false [] false 0 false 0 (Make inner_desc) (Make result_desc) outers inners.

(** The expression context with the given scan tuple. *)
Definition context (scan : TupleTableSlot) (st : HashJoinState) : ExprContext := mkContext (hj_OuterTupleSlot st) (innertuple st) scan.

(** One inner tuple of [BuildHashTable]. *)
Definition build_one (st : HashJoinState) (inner : TupleTableSlot) : HashJoinState :=
  let hs := hj_HashState st in
  let hash := build_hash hj_inner_hashkeys (context inner st) in
  let ht_slot := StoreVirtual (tts_values inner) (tts_isnull inner) (Make (tts_tupleDescriptor inner)) in
  let batch := BatchOfHash hash hs in
  with_hash
    (if batch =? 0 then
       let hs := Insert hash ht_slot (DVal 0) false hs in
       let hs := with_used (u64 (mem_used hs + (sizeof_HashEntry + sizeof_TupleTableSlot + Z.of_nat (Natts inner) * (8 + 1)))) hs in
       if (num_batches hs =? 1) && (work_mem hs <? mem_used hs) then ExpandBatches (choose_batches hs) hs else hs
     else with_inner (put_batch (Z.to_nat (batch - 1)) ht_slot (inner_batches hs)) hs)
    st.

Definition BuildHashTable (st : HashJoinState) : HashJoinState :=
  with_children (left_child st) [] (foldl build_one st (right_child st)).

Definition HashOuterKeys (st : HashJoinState) : option Z := hash_keys hj_outer_hashkeys (context (hj_OuterTupleSlot st) st) 0.
Definition HashInnerKeys (s : TupleTableSlot) (st : HashJoinState) : option Z := hash_keys hj_inner_hashkeys (context s st) 0.

(** [ExecProject] into the result slot, which is returned. *)
Definition project : M HashJoinState turn :=
  modify (λ st, with_result (ExecProject (targetlist plan) (context (hj_OuterTupleSlot st) st) (ps_ResultTupleSlot st)) st);;
  gets (λ st, Return (Some (ps_ResultTupleSlot st))).

Definition null_slot (s : TupleTableSlot) : TupleTableSlot :=
  mkSlot (tts_tupleDescriptor s) (replicate (Natts s) (DVal 0) ++ drop (Natts s) (tts_values s)) (replicate (Natts s) true ++ drop (Natts s) (tts_isnull s)).

Definition EmitNullInnerRow : M HashJoinState turn := modify (λ st, with_innertuple (null_slot (innertuple st)) st);; project.
Definition EmitNullOuterRow (inner : TupleTableSlot) : M HashJoinState turn :=
  modify (λ st, with_innertuple (StoreVirtual (tts_values inner) (tts_isnull inner) (innertuple st)) st);;
  modify (λ st, with_outer_slot (null_slot (hj_OuterTupleSlot st)) st);;
  project.

(** From position [i] on: the first entry without a match, and where to go on. *)
Fixpoint next_unmatched (l : list (Z * HashEntry)) (i : nat) : option TupleTableSlot * nat :=
  match l with
  | [] => (None, i)
  | (_, e) :: l' => if matched e then next_unmatched l' (S i) else (Some (slot e), S i)
  end.

(** [None] once the scan is complete. *)
Definition ScanUnmatched : M HashJoinState (option turn) :=
  modify (λ st, if hj_scanStarted st then st else with_scan 0 true st);;
  st ← get;
  let i := hj_scanIter st in
  let '(found, i') := next_unmatched (drop i (hashtable (hj_HashState st))) i in
  modify (with_scan i' true);;
  match found with Some inner => t ← EmitNullOuterRow inner; mret (Some t) | None => mret None end.

(** [inner_batches[i]->GetTuple()] and [outer_batches[i]->GetTuple()]. *)
Definition get_inner (i : nat) : M HashJoinState (option TupleTableSlot) :=
  λ st, let hs := hj_HashState st in
        match inner_batches hs !! i with
        | Some t => let '(o, t') := Tuplestore.GetTuple t in (o, with_hash (with_inner (<[i := t']> (inner_batches hs)) hs) st)
        | None => (Ret None, st)
        end.
Definition get_outer (i : nat) : M HashJoinState (option TupleTableSlot) :=
  λ st, let hs := hj_HashState st in
        match outer_batches hs !! i with
        | Some t => let '(o, t') := Tuplestore.GetTuple t in (o, with_hash (with_outer (<[i := t']> (outer_batches hs)) hs) st)
        | None => (Ret None, st)
        end.

(** One tuple of the loop of [LoadNextBatch]. *)
Definition load_one (inner : TupleTableSlot) (st : HashJoinState) : HashJoinState :=
  match HashInnerKeys inner st with
  | None => st
  | Some hash =>
      with_hash (Insert hash (StoreVirtual (tts_values inner) (tts_isnull inner) (Make (tts_tupleDescriptor inner))) (DVal 0) false (hj_HashState st)) st
  end.

Fixpoint load_batch (fuel : nat) (i : nat) : M HashJoinState unit :=
  match fuel with
  | O => ereport "out of fuel"
  | S fuel' => o ← get_inner i; match o with None => mret tt | Some inner => modify (load_one inner);; load_batch fuel' i end
  end.

Definition LoadNextBatch (fuel : nat) : M HashJoinState bool :=
  modify (λ st, with_cur_batch (i32 (hj_cur_batch st + 1)) st);;
  st ← get;
  if num_batches (hj_HashState st) <=? hj_cur_batch st then mret false
  else
    let i := Z.to_nat (hj_cur_batch st - 1) in
    modify (λ st, with_hash (ClearHashTable (hj_HashState st)) st);;
    modify (λ st, with_hash (with_inner (alter Tuplestore.Rewind i (inner_batches (hj_HashState st))) (hj_HashState st)) st);;
    load_batch fuel i;;
    modify (λ st, with_hash (with_outer (alter Tuplestore.Rewind i (outer_batches (hj_HashState st))) (hj_HashState st)) st);;
    modify (λ st, with_scan (hj_scanIter st) false (with_bucket (hj_curBucket st) false (need_new true st)));;
    mret true.

(** Probing goes on with the next batch, or the join is done. *)
Definition next_batch (fuel : nat) : M HashJoinState turn :=
  more ← LoadNextBatch fuel;
  modify (with_phase (if (more : bool) then kProbeHashTable else kDone));;
  mret Continue.

Definition mark (i : nat) (t : list (Z * HashEntry)) : list (Z * HashEntry) :=
  alter (λ '(h, e), (h, mkEntry (slot e) (hashkey e) (keynull e) true)) i t.

(** Phase A: the next entry of the bucket. *)
Definition bucket_step (i : nat) (rest : list nat) : M HashJoinState turn :=
  st ← get;
  match hashtable (hj_HashState st) !! i with
  | None => mret Continue
  | Some (_, e) =>
      modify (λ st, with_hash (with_table (mark i (hashtable (hj_HashState st))) (hj_HashState st)) st);;
      modify (λ st, with_innertuple (StoreVirtual (tts_values (slot e)) (tts_isnull (slot e)) (innertuple st)) st);;
      modify (with_bucket rest true);;
      st ← get;
      let passes := ExecQual (qual plan) (context (hj_OuterTupleSlot st) st) in
      match jointype plan with
      | kSemi => if passes then modify (λ st, need_new true (with_bucket rest false (set_matched true st)));; project else mret Continue
      | kAnti => if passes then modify (λ st, need_new true (with_bucket rest false (set_matched true st)));; mret Continue else mret Continue
      | _ => if passes then modify (set_matched true);; project else mret Continue
      end
  end.

(** The next outer tuple of the current batch. *)
Definition fetch_outer : M HashJoinState (option TupleTableSlot) :=
  st ← get;
  if hj_cur_batch st =? 0 then
    match left_child st with
    | [] => mret None
    | o :: outers => modify (λ st, with_children outers (right_child st) st);; mret (Some o)
    end
  else get_outer (Z.to_nat (hj_cur_batch st - 1)).

(** An outer tuple in the outer slot: its bucket, its batch, or no match. *)
Definition probe_outer : M HashJoinState turn :=
  st ← get;
  match HashOuterKeys st with
  | None =>
      modify (need_new true);;
      match jointype plan with kLeft | kFull | kAnti => EmitNullInnerRow | _ => mret Continue end
  | Some hash =>
      let batch := BatchOfHash hash (hj_HashState st) in
      if negb (batch =? hj_cur_batch st) then
        modify (λ st, need_new true (if 0 <? batch then
          with_hash (with_outer (put_batch (Z.to_nat (batch - 1)) (hj_OuterTupleSlot st) (outer_batches (hj_HashState st))) (hj_HashState st)) st
          else st));;
        mret Continue
      else modify (λ st, with_bucket (equal_range hash (hashtable (hj_HashState st))) true st);; mret Continue
  end.

(** Phase B. *)
Definition next_outer (fuel : nat) : M HashJoinState turn :=
  modify (need_new true);;
  outer ← fetch_outer;
  match outer with
  | None =>
      match jointype plan with
      | kRight | kFull => modify (λ st, with_scan (hj_scanIter st) false (with_phase kScanUnmatched st));; mret Continue
      | _ => next_batch fuel
      end
  | Some outer =>
      modify (λ st, with_outer_slot (StoreVirtual (tts_values outer) (tts_isnull outer) (hj_OuterTupleSlot st)) st);;
      modify (λ st, set_matched false (need_new false st));;
      probe_outer
  end.

(** After the bucket: whether the outer tuple is emitted without an inner one. *)
Definition unmatched_outer (st : HashJoinState) : bool :=
  hj_hasBucket st && negb (hj_NeedNewOuter st) &&
  match jointype plan with kAnti | kLeft | kFull => negb (hj_MatchedOuter st) | _ => false end.

Definition probe_step (fuel : nat) : M HashJoinState turn :=
  st ← get;
  match hj_hasBucket st, hj_curBucket st with
  | true, i :: rest => bucket_step i rest
  | _, _ =>
      modify (λ st, if hj_hasBucket st then need_new true (with_bucket (hj_curBucket st) false st) else st);;
      if unmatched_outer st then EmitNullInnerRow else next_outer fuel
  end.

Definition exec_step (fuel : nat) : M HashJoinState turn :=
  st ← get;
  match hj_phase st with
  | kBuildHashTable =>
      modify BuildHashTable;;
      modify (λ st, with_cur_batch 0 (need_new true (with_phase kProbeHashTable st)));;
      mret Continue
  | kProbeHashTable => probe_step fuel
  | kScanUnmatched =>
      o ← ScanUnmatched;
      match o with Some t => mret t | None => next_batch fuel end
  | _ => mret (Return None)
  end.

Fixpoint ExecProcNode_loop (load_fuel fuel : nat) : M HashJoinState (option TupleTableSlot) :=
  match fuel with
  | O => ereport "out of fuel"
  | S fuel' => t ← exec_step load_fuel; match t with Continue => ExecProcNode_loop load_fuel fuel' | Return s => mret s end
  end.
Definition ExecProcNode (fuel : nat) : M HashJoinState (option TupleTableSlot) := ExecProcNode_loop fuel fuel.

(** With that of the Hash node. *)
Definition ExecEnd (st : HashJoinState) : HashJoinState :=
  need_new true (with_bucket (hj_curBucket st) false (with_phase kDone (with_hash (ResetBatches (hj_HashState st)) st))).

(** The children start again and return [outers] and [inners]. *)
Definition ExecReScan (outers inners : list TupleTableSlot) (st : HashJoinState) : HashJoinState :=
  let st := with_hash (ResetBatches (hj_HashState st)) st in
  let st := with_scan (hj_scanIter st) false (with_cur_batch 0 (with_bucket (hj_curBucket st) false (need_new true (with_phase kBuildHashTable st)))) in
  let st := with_children outers (right_child st) st in
  with_children (left_child st) inners (with_hash (ResetBatches (hj_HashState st)) st).

End join.
End HashJoin.
