(* ===== verification/HashJoinSpec.v ===== *)
(** * What a hash join computes, and how it builds its batches

    The rows of a join as a function of its inputs, and the state after
    [BuildHashTable]: every inner tuple is in the table or in the store of the
    batch its hash belongs to. *)

From stdpp Require Import base list strings.
From S2P Require Import Prelude HeapForm TupleTape Tuplesort Tuplestore TuplestoreSpec HashJoin.

Module HashJoinSpec.
Import HeapForm TupleTape Tuplestore TuplestoreSpec HashJoin.

(** ** Slots *)

Lemma store_virtual_same d slot s : slot_fits d slot → slot_fits d s → StoreVirtual (tts_values s) (tts_isnull s) slot = s.
Proof.
  intros (E1 & _ & _) (F1 & F2 & F3). unfold StoreVirtual, Natts. cbn zeta. rewrite E1.
  rewrite <- F2 at 1. rewrite seq_lookup_all. rewrite <- F3, seq_lookup_all. destruct s; cbn in *; congruence.
Qed.

Lemma null_slot_make d slot : slot_fits d slot → null_slot slot = Make d.
Proof. intros (E1 & E2 & E3). unfold null_slot, Make, Natts. by rewrite E1, !drop_ge, !app_nil_r by (by rewrite ?E2, ?E3). Qed.

Lemma wf_fits d s : wf_slot d s → slot_fits d s.
Proof. by intros (E1 & E2 & E3 & _). Qed.

(** ** Permutations by batch *)

(** A list is, up to order, the concatenation of its parts by a class. *)
Lemma partition_by {A} (f : A → nat) n (l : list A) :
  (∀ x, x ∈ l → (f x < n)%nat) → concat ((λ k, filter (λ x, f x = k) l) <$> seq 0 n) ≡ₚ l.
Proof.
  induction l as [|x l IH]; intros Hl.
  - assert (∀ m, concat ((λ k, filter (λ x : A, f x = k) []) <$> m) = []) as ->; [|done]. induction m as [|k m IHm]; [done|]. by cbn.
  - specialize (IH (λ y Hy, Hl y (proj2 (elem_of_cons l y x) (or_intror Hy)))). assert (Hx : (f x < n)%nat) by (apply Hl; by left). clear Hl.
    etrans; [|apply perm_skip, IH]. clear IH. replace n with (f x + S (n - f x - 1))%nat by lia. rewrite seq_app, !fmap_app, !concat_app. cbn [seq fmap list_fmap concat].
    assert (Hs : ∀ a m, (f x < a ∨ a + m ≤ f x)%nat → (λ k, filter (λ y, f y = k) (x :: l)) <$> seq a m = (λ k, filter (λ y, f y = k) l) <$> seq a m).
    { intros a m Hm. apply list_fmap_ext. intros j k Hk%lookup_seq. rewrite filter_cons, decide_False by lia. done. }
    rewrite !Hs by lia. rewrite (filter_cons _ x), decide_True by lia. cbn [app]. rewrite !Nat.add_0_l. by rewrite <- Permutation_middle.
Qed.

Lemma bind_perm {A B} (f g : A → list B) l1 l2 : (∀ x, x ∈ l1 → f x ≡ₚ g x) → l1 ≡ₚ l2 → (l1 ≫= f) ≡ₚ (l2 ≫= g).
Proof.
  intros Hfg Hp. rewrite <- Hp. clear Hp l2. induction l1 as [|x l IH]; [done|]. cbn. rewrite (Hfg x) by by left. f_equiv. apply IH. intros y Hy. apply Hfg. by right.
Qed.

(** ** The rows of a join *)

Section join.
Context `{Expressions} (plan : HashJoin) (d_o d_i d_r : TupleDescData).

(** An outer and an inner tuple as the contexts have them. *)
Definition outer_hash (o : TupleTableSlot) : option Z := hash_keys (hj_outer_hashkeys plan) (mkContext o (Make d_i) o) 0.
Definition inner_context (i : TupleTableSlot) : ExprContext := mkContext (Make d_o) (Make d_i) i.
Definition inner_hash (i : TupleTableSlot) : Z := build_hash (hj_inner_hashkeys plan) (inner_context i).
Definition null_key (i : TupleTableSlot) : bool := match hash_keys (hj_inner_hashkeys plan) (inner_context i) 0 with None => true | Some _ => false end.

Definition same_hash (o i : TupleTableSlot) : bool := bool_decide (outer_hash o = Some (inner_hash i)).
Definition passes (o i : TupleTableSlot) : bool := ExecQual (qual plan) (mkContext o i o).
Definition pairs (o i : TupleTableSlot) : bool := same_hash o i && passes o i.

Definition row (o i : TupleTableSlot) : TupleTableSlot := ExecProject (targetlist plan) (mkContext o i o) (Make d_r).
Definition outer_row (o : TupleTableSlot) : TupleTableSlot := row o (Make d_i).
Definition inner_row (i : TupleTableSlot) : TupleTableSlot := row (Make d_o) i.

(** The rows for an outer tuple and its partners. *)
Definition rows_with (o : TupleTableSlot) (partners : list TupleTableSlot) : list TupleTableSlot :=
  match jointype plan, partners with
  | (kLeft | kFull | kAnti), [] => [outer_row o]
  | kAnti, _ => []
  | kSemi, i :: _ => [row o i]
  | _, _ => row o <$> partners
  end.

Definition keeps_inner : bool := match jointype plan with kRight | kFull => true | _ => false end.

(** Inner tuples without a partner are emitted by right and full joins. *)
Definition join_rows (match_ : TupleTableSlot → TupleTableSlot → bool) (outers inners : list TupleTableSlot) : list TupleTableSlot :=
  (outers ≫= λ o, rows_with o (filter (λ i, pairs o i = true) inners)) ++
  (if keeps_inner then inner_row <$> filter (λ i, existsb (λ o, match_ o i) outers = false) inners else []).

(** ** What the plan has to satisfy *)

Record plan_ok : Prop := {
  (** The outer keys are over the outer tuple, the inner keys over the scan tuple. *)
  outer_keys_local : ∀ key o i i', key ∈ hj_outer_hashkeys plan → ExecEvalExpr key (mkContext o i o) = ExecEvalExpr key (mkContext o i' o);
  inner_keys_local : ∀ key o o' i i' s, key ∈ hj_inner_hashkeys plan → ExecEvalExpr key (mkContext o i s) = ExecEvalExpr key (mkContext o' i' s);
  (** The result has the columns of the target list. *)
  result_columns : length (attrs d_r) = length (targetlist plan);
  (** The target list of a semi-join does not mention the inner tuple. *)
  semi_rows : jointype plan = kSemi → ∀ o i i', row o i = row o i';
}.
Context (Hplan : plan_ok).

Lemma hash_keys_ext keys ec ec' h : (∀ key, key ∈ keys → ExecEvalExpr key ec = ExecEvalExpr key ec') → hash_keys keys ec h = hash_keys keys ec' h.
Proof.
  revert h. induction keys as [|key keys IH]; intros h He; [done|]. cbn. rewrite (He key) by by left. destruct (ExecEvalExpr key ec') as [v []]; [done|].
  apply IH. intros k Hk. apply He. by right.
Qed.

Lemma build_hash_ext keys ec ec' : (∀ key, key ∈ keys → ExecEvalExpr key ec = ExecEvalExpr key ec') → build_hash keys ec = build_hash keys ec'.
Proof.
  unfold build_hash. generalize 0 as h. induction keys as [|key keys IH]; intros h He; [done|]. cbn. rewrite (He key) by by left. apply IH. intros k Hk. apply He. by right.
Qed.

(** Without null keys both ways of hashing agree. *)
Lemma hash_keys_build keys ec h h' : hash_keys keys ec h = Some h' →
  foldl (λ hash key, let '(val, isnull) := ExecEvalExpr key ec in if (isnull : bool) then hash else combine hash (HashDatum val (GetExprType key))) h keys = h'.
Proof.
  revert h. induction keys as [|key keys IH]; intros h Hk; [by injection Hk|]. cbn in *. destruct (ExecEvalExpr key ec) as [v []]; [done|]. by apply IH.
Qed.

Lemma outer_hash_eq st : HashOuterKeys plan st = outer_hash (hj_OuterTupleSlot st).
Proof. apply hash_keys_ext. intros key Hk. by apply (outer_keys_local Hplan). Qed.

Lemma inner_hash_eq st s : build_hash (hj_inner_hashkeys plan) (context s st) = inner_hash s.
Proof. apply build_hash_ext. intros key Hk. by apply (inner_keys_local Hplan). Qed.

Lemma inner_keys_eq st s : HashInnerKeys plan s st = if null_key s then None else Some (inner_hash s).
Proof.
  assert (HashInnerKeys plan s st = hash_keys (hj_inner_hashkeys plan) (inner_context s) 0) as ->.
  { apply hash_keys_ext. intros key Hk. by apply (inner_keys_local Hplan). }
  unfold null_key. destruct (hash_keys _ _ _) as [h|] eqn:E; [|done]. f_equal. symmetry. by apply hash_keys_build.
Qed.

Lemma project_row ec slot : slot_fits d_r slot → ExecProject (targetlist plan) ec slot = ExecProject (targetlist plan) ec (Make d_r).
Proof.
  intros (E1 & E2 & E3). destruct (make_fits d_r) as (F1 & F2 & F3). unfold ExecProject, Natts. rewrite E1, F1.
  rewrite (take_ge (targetlist plan)) by (rewrite (result_columns Hplan); lia). rewrite !drop_ge by (rewrite ?E2, ?E3, ?F2, ?F3, (result_columns Hplan); lia). done.
Qed.

Lemma project_fits ec slot : slot_fits d_r slot → slot_fits d_r (ExecProject (targetlist plan) ec slot).
Proof.
  intros Hs. rewrite project_row by done. destruct (make_fits d_r) as (F1 & F2 & F3). unfold ExecProject, slot_fits, Natts. rewrite F1.
  rewrite (take_ge (targetlist plan)) by (rewrite (result_columns Hplan); lia). rewrite !drop_ge by (rewrite ?F2, ?F3, (result_columns Hplan); lia).
  cbn. by rewrite !app_nil_r, !length_fmap, (result_columns Hplan).
Qed.

Lemma rows_with_perm o l1 l2 : l1 ≡ₚ l2 → rows_with o l1 ≡ₚ rows_with o l2.
Proof.
  intros Hp. unfold rows_with. pose proof (Permutation_length Hp) as Hlen. destruct l1 as [|i1 l1], l2 as [|i2 l2]; [done..|].
  destruct (jointype plan) eqn:E; try done; try (by rewrite Hp). by rewrite (semi_rows Hplan E o i1 i2).
Qed.
End join.
End HashJoinSpec.
