(* ===== verification/HashJoinBuild.v ===== *)
(** * Building the batches of a hash join

    After [BuildHashTable] every inner tuple is in the hash table, when its
    hash belongs to the first batch, or in the store of its batch. *)

From stdpp Require Import base list strings.
From S2P Require Import Prelude HeapForm TupleTape Tuplesort Tuplestore TuplestoreSpec HashJoin HashJoinSpec.

Module HashJoinBuild.
Import HeapForm TupleTape Tuplestore TuplestoreSpec HashJoin HashJoinSpec.

(** ** Batch numbers *)

Definition batch (n hash : Z) : Z := if n <=? 1 then 0 else batch_of n hash.

Lemma batch_of_range n h : 2 ≤ n ≤ 1024 → 0 ≤ batch_of n h < n.
Proof.
  intros Hn. unfold batch_of. rewrite u64_small by lia. assert (0 ≤ Z.land h (n - 1)) by (apply Z.land_nonneg; lia).
  assert (Z.land h (n - 1) ≤ n - 1).
  { rewrite Z.land_comm. apply Z.ldiff_le; [lia|]. apply Z.bits_inj_0. intros j. rewrite Z.ldiff_spec, Z.land_spec.
    destruct (Z.testbit (n - 1) j), (Z.testbit h j); done. }
  rewrite i32_small by lia. lia.
Qed.

Lemma batch_range n h : 1 ≤ n ≤ 1024 → 0 ≤ batch n h < n.
Proof. intros Hn. unfold batch. case_match; to_prop; [lia|]. apply batch_of_range. lia. Qed.

(** The number of batches is a power of two. *)
Lemma double_batches_power fuel : ∀ k ratio, 1 ≤ k ≤ 10 → ∃ k', double_batches fuel (2 ^ k) ratio = 2 ^ k' ∧ 1 ≤ k' ≤ 10.
Proof.
  induction fuel as [|fuel IH]; intros k ratio Hk; [by exists k|]. cbn [double_batches]. destruct (_ && _) eqn:E; [|by exists k]. to_prop.
  replace (2 ^ k * 2) with (2 ^ (k + 1)) by (rewrite Z.pow_add_r by lia; lia). apply IH. split; [lia|].
  destruct (decide (k = 10)) as [-> |]; [done|lia].
Qed.

Lemma choose_batches_range hs : 2 ≤ choose_batches hs ≤ 1024.
Proof.
  unfold choose_batches. cbn zeta. destruct (double_batches_power 10 1 (if mem_used hs / work_mem hs <? 1 then 1 else mem_used hs / work_mem hs)) as (k & Hk & Hr); [lia|].
  change (2 ^ 1) with 2 in Hk. rewrite Hk. pose proof (Z.pow_le_mono_r 2 1 k). pose proof (Z.pow_le_mono_r 2 k 10). lia.
Qed.

(** The loop has ended: ten turns are enough. *)
Lemma double_batches_done fuel : ∀ k ratio, 1 ≤ k ≤ 10 → 11 - k ≤ Z.of_nat fuel → i32 ratio ≤ double_batches fuel (2 ^ k) ratio ∨ double_batches fuel (2 ^ k) ratio = 1024.
Proof.
  induction fuel as [|fuel IH]; intros k ratio Hk Hf; [lia|]. cbn [double_batches]. destruct (_ && _) eqn:E.
  - to_prop. replace (2 ^ k * 2) with (2 ^ (k + 1)) by (rewrite Z.pow_add_r by lia; lia). assert (k ≠ 10) by (intros ->; done). apply IH; lia.
  - to_prop. destruct E as [E|E]; to_prop; [by left|]. right. destruct (decide (k = 10)) as [-> |]; [done|]. pose proof (Z.pow_le_mono_r 2 k 9). lia.
Qed.

(** ** The multimap *)

(** An insertion adds the entry; the order of iteration may change. *)
Class MultimapLaws `{StdMultimap} := emplace_perm x l : emplace x l ≡ₚ x :: l.

(** An implementation: new entries come last. *)
#[export] Instance append_multimap : StdMultimap := λ x l, l ++ [x].
#[export] Instance append_multimap_laws : MultimapLaws.
Proof. intros x l. unfold emplace, append_multimap. by rewrite Permutation_app_comm. Qed.

Lemma foldl_emplace `{MultimapLaws} l : ∀ t, foldl (λ t e, emplace e t) t l ≡ₚ l ++ t.
Proof. induction l as [|x l IH]; intros t; [done|]. cbn. by rewrite IH, emplace_perm, Permutation_middle. Qed.

Definition slots (t : list (Z * HashEntry)) : list TupleTableSlot := (λ he, slot he.2) <$> t.

(** ** Stores per batch *)

Section stores.
Context `{Tuplesort.Process} (d : TupleDescData).

(** The store of each batch holds the tuples [c] assigns to it. *)
Definition stores (b : list Tuplestore) (c : nat → list TupleTableSlot) (n : nat) : Prop :=
  length b = n ∧ ∀ k s, b !! k = Some s → ∃ l, holds d l s ∧ l ≡ₚ c k.

Lemma stores_ext b c c' n : (∀ k, (k < n)%nat → c k ≡ₚ c' k) → stores b c n → stores b c' n.
Proof. intros Hc [Hl Hs]. split; [done|]. intros k s Hk. destruct (Hs k s Hk) as (l & Hh & Hp). exists l. split; [done|]. rewrite Hp. apply Hc. apply lookup_lt_Some in Hk. lia. Qed.

Lemma put_batch_stores b c n k s : stores b c n → storable d s → stores (put_batch k s b) (λ j, if decide (j = k) then c j ++ [s] else c j) n.
Proof.
  intros [Hl Hs] Hst. split; [unfold put_batch; by rewrite length_alter|]. intros j t Hj. unfold put_batch in Hj. destruct (decide (j = k)) as [-> |].
  - rewrite list_lookup_alter_eq in Hj. destruct (b !! k) as [t0|] eqn:Et; [|done]. injection Hj as <-. destruct (Hs k t0 Et) as (l & Hh & Hp).
    exists (l ++ [s]). split; [by apply put_holds|by rewrite Hp].
  - rewrite list_lookup_alter_ne in Hj by done. by apply Hs.
Qed.

Lemma new_stores `{Heap} outer hs n : stores (grow outer d hs n []) (λ _, []) n.
Proof.
  unfold grow. rewrite take_nil. cbn. split; [by rewrite length_fmap, length_seq, Nat.sub_0_r|].
  intros k s Hk. rewrite list_lookup_fmap in Hk. destruct (_ !! k); [|done]. injection Hk as <-. exists []. split; [apply new_holds|done].
Qed.
End stores.
(** ** The state after building *)

Section build.
Context `{HE : Expressions} `{HM : StdMultimap} `{HL : !MultimapLaws} `{HH : Heap} `{HP : Tuplesort.Process} (plan : HashJoin) (d_o d_i d_r : TupleDescData).
Context (Hplan : plan_ok plan d_r).
Abbreviation inner_hash := (inner_hash plan d_o d_i).

(** An entry is filed under the hash of its tuple. *)
Definition entry_ok (he : Z * HashEntry) : Prop := he.1 = inner_hash (slot he.2) ∧ storable d_i (slot he.2).
Definition fresh (he : Z * HashEntry) : Prop := matched he.2 = false.
Definition in_batch (n : Z) (k : Z) (i : TupleTableSlot) : Prop := batch n (inner_hash i) = k.
#[export] Instance in_batch_dec n k i : Decision (in_batch n k i).
Proof. unfold in_batch. apply _. Defined.

Definition table_of (t : list (Z * HashEntry)) (l : list TupleTableSlot) : Prop := Forall entry_ok t ∧ Forall fresh t ∧ slots t ≡ₚ l.

Definition built (hs : HashState) (ins : list TupleTableSlot) : Prop :=
  let n := num_batches hs in
  (tupdesc hs = d_i ∧ outer_tupdesc hs = d_o ∧ 1 ≤ n ≤ 1024) ∧
  table_of (hashtable hs) (filter (in_batch n 0) ins) ∧
  stores d_i (inner_batches hs) (λ k, filter (in_batch n (Z.of_nat (S k))) ins) (Z.to_nat (n - 1)) ∧
  stores d_o (outer_batches hs) (λ _, []) (Z.to_nat (n - 1)).

Lemma table_perm t t' l : t ≡ₚ t' → table_of t l → table_of t' l.
Proof. intros Hp (H1 & H2 & H3). split_and!; [by rewrite <- Hp|by rewrite <- Hp|]. unfold slots in *. by rewrite <- Hp. Qed.

Lemma insert_table t l i : table_of t l → storable d_i i → table_of (emplace (inner_hash i, mkEntry i (DVal 0) false false) t) (l ++ [i]).
Proof.
  intros (H1 & H2 & H3) Hi. apply table_perm with ((inner_hash i, mkEntry i (DVal 0) false false) :: t); [by rewrite emplace_perm|].
  split_and!; [by constructor|by constructor|]. cbn. rewrite <- Permutation_cons_append. by apply perm_skip.
Qed.

Lemma redistribute_spec n m l : 2 ≤ n ≤ 1024 → Forall entry_ok l → ∀ keep b c, stores d_i b c m →
  ∃ b', redistribute n l keep b = (keep ++ filter (λ he, in_batch n 0 (slot he.2)) l, b') ∧
    stores d_i b' (λ k, c k ++ filter (in_batch n (Z.of_nat (S k))) (slots l)) m.
Proof.
  intros Hn Hl. assert (Hbat : ∀ h, batch n h = batch_of n h) by (intros h; unfold batch; by rewrite (proj2 (Z.leb_gt _ _)) by lia).
  induction Hl as [|[h e] l [Hh He] Hl IH]; intros keep b c Hb; cbn [redistribute].
  - exists b. cbn. rewrite app_nil_r. split; [done|]. by eapply stores_ext; [|done]; intros k _; cbn; rewrite app_nil_r.
  - cbn [fst snd] in *. subst h. pose proof (batch_of_range n (inner_hash (slot e)) Hn) as Hr. rewrite filter_cons. cbn [snd].
    assert (Hib : ∀ k, in_batch n k (slot e) ↔ batch_of n (inner_hash (slot e)) = k) by (intros k; unfold in_batch; by rewrite Hbat).
    destruct (batch_of n (inner_hash (slot e)) =? 0) eqn:E; to_prop.
    + destruct (IH (keep ++ [(inner_hash (slot e), e)]) b c Hb) as (b' & -> & Hb'). exists b'. rewrite decide_True by (by apply Hib). rewrite <- app_assoc. split; [done|].
      eapply stores_ext; [|done]. intros k _. change (slots ((inner_hash (slot e), e) :: l)) with (slot e :: slots l). rewrite filter_cons. rewrite decide_False; [done|]. rewrite Hib. lia.
    + rewrite decide_False by (by rewrite Hib). set (k0 := Z.to_nat (batch_of n (inner_hash (slot e)) - 1)).
      destruct (IH keep _ _ (put_batch_stores d_i b c m k0 (slot e) Hb He)) as (b' & -> & Hb'). exists b'. split; [done|].
      eapply stores_ext; [|done]. intros k _. change (slots ((inner_hash (slot e), e) :: l)) with (slot e :: slots l). rewrite filter_cons. destruct (decide (k = k0)) as [-> | Hk].
      * rewrite decide_True by (rewrite Hib; lia). rewrite <- app_assoc. cbn. done.
      * rewrite decide_False by (rewrite Hib; lia). done.
Qed.

Lemma slots_filter (P : TupleTableSlot → Prop) `{!∀ x, Decision (P x)} l : slots (filter (λ he, P (slot he.2)) l) = filter P (slots l).
Proof. induction l as [|he l IH]; [done|]. change (slots (he :: l)) with (slot he.2 :: slots l). rewrite !filter_cons. destruct (decide (P (slot he.2))); [|done]. cbn. by f_equal. Qed.

Lemma keep_forall {A} (Q P : A → Prop) `{!∀ x, Decision (P x)} l : Forall Q l → Forall Q (filter P l).
Proof. rewrite !Forall_forall. intros Hq x [_ Hx]%list_elem_of_filter. by apply Hq. Qed.

Lemma one_batch (l : list TupleTableSlot) : filter (in_batch 1 0) l = l.
Proof. induction l as [|i l IH]; [done|]. rewrite filter_cons, decide_True by done. by f_equal. Qed.

Lemma expand_built hs ins n : built hs ins → num_batches hs = 1 → 2 ≤ n ≤ 1024 → built (ExpandBatches n hs) ins.
Proof.
  intros ((D1 & D2 & _) & (T1 & T2 & T3) & [Li _] & [Lo _]) Hone Hn. rewrite Hone in *. rewrite one_batch in T3.
  destruct (inner_batches hs) as [|] eqn:Ei; [|done]. destruct (outer_batches hs) as [|] eqn:Eo; [|done]. clear Li Lo. unfold ExpandBatches. rewrite Ei. cbn [tupdesc with_inner outer_tupdesc outer_batches]. rewrite Eo.
  cbn [with_outer hashtable inner_batches]. set (m := Z.to_nat (n - 1)). rewrite D1, D2.
  change (hashtable (with_inner _ hs)) with (hashtable hs). change (inner_batches (with_inner ?b hs)) with b.
  destruct (redistribute_spec n m (hashtable hs) Hn T1 [] _ _ (new_stores d_i false hs m)) as (b' & -> & Hb'). cbn [app].
  set (keep := filter _ _) in *. pose proof (foldl_emplace keep []) as Hk. rewrite app_nil_r in Hk. cbn zeta. split; [|split; [|split]].
  - split; [exact D1|]. split; [exact D2|]. cbn. lia.
  - cbn [hashtable with_used with_batches with_table num_batches]. apply table_perm with keep; [done|]. split_and!; [by apply keep_forall|by apply keep_forall|].
    unfold keep. rewrite (slots_filter (in_batch n 0)). by rewrite T3.
  - cbn [inner_batches with_used with_batches with_table with_inner num_batches]. eapply stores_ext; [|done]. intros k _. cbn [app]. by rewrite T3.
  - cbn. apply (new_stores d_o true).
Qed.

Lemma store_copy d s : storable d s → StoreVirtual (tts_values s) (tts_isnull s) (Make (tts_tupleDescriptor s)) = s.
Proof. intros [Hw _]. pose proof Hw as (E & _). rewrite E. apply store_virtual_same with d; [apply make_fits|by apply wf_fits]. Qed.

Lemma filter_snoc (P : TupleTableSlot → Prop) `{!∀ x, Decision (P x)} l i : filter P (l ++ [i]) = if decide (P i) then filter P l ++ [i] else filter P l.
Proof. rewrite filter_app, filter_cons, filter_nil. destruct (decide (P i)); [done|]. by rewrite app_nil_r. Qed.

(** One more inner tuple. *)
Lemma build_one_built st ins i : built (hj_HashState st) ins → storable d_i i →
  ∃ hs, build_one plan st i = with_hash hs st ∧ built hs (ins ++ [i]).
Proof.
  intros Hb Hi. unfold build_one. rewrite (inner_hash_eq plan d_o d_i d_r Hplan). rewrite (store_copy d_i i Hi). eexists. split; [done|]. unfold BatchOfHash.
  set (hs := hj_HashState st) in *. fold (batch (num_batches hs) (inner_hash i)). pose proof Hb as ((D1 & D2 & Hn) & (T1 & T2 & T3) & Hin & Hout).
  assert (Hr := batch_range (num_batches hs) (inner_hash i) Hn).
  destruct (batch (num_batches hs) (inner_hash i) =? 0) eqn:E; to_prop.
  - set (hs1 := with_used _ (Insert _ _ _ _ hs)).
    assert (H1 : built hs1 (ins ++ [i])).
    { split; [done|]. split; [|split].
      - cbn. rewrite filter_snoc, decide_True by done. apply insert_table; [by split_and!|done].
      - eapply stores_ext; [|exact Hin]. intros k _. cbn [num_batches hs1 with_used Insert with_table]. rewrite filter_snoc, decide_False; [done|]. unfold in_batch. lia.
      - done. }
    destruct (_ && _) eqn:E2; [|done]. to_prop. apply expand_built; [done..|apply choose_batches_range].
  - split; [done|]. split; [|split; [|done]].
    + cbn. rewrite filter_snoc, decide_False by done. by split_and!.
    + cbn [inner_batches with_inner num_batches]. eapply stores_ext; [|by apply put_batch_stores]. intros k _. rewrite filter_snoc. cbn [num_batches with_inner].
      destruct (decide (k = _)) as [-> |Hk]; [rewrite decide_True by (unfold in_batch; lia)|rewrite decide_False by (unfold in_batch; lia)]; done.
Qed.

Lemma foldl_built l : ∀ st ins, built (hj_HashState st) ins → Forall (storable d_i) l →
  ∃ hs, foldl (build_one plan) st l = with_hash hs st ∧ built hs (ins ++ l).
Proof.
  induction l as [|i l IH]; intros st ins Hb Hl; [exists (hj_HashState st); rewrite app_nil_r; by destruct st|]. apply Forall_cons in Hl as [Hi Hl]. cbn [foldl].
  destruct (build_one_built st ins i Hb Hi) as (hs & -> & Hb1). destruct (IH (with_hash hs st) (ins ++ [i]) Hb1 Hl) as (hs' & -> & Hb2).
  exists hs'. by rewrite <- app_assoc in Hb2.
Qed.

(** A state in which nothing was built. *)
Lemma empty_built hs : hashtable hs = [] → num_batches hs = 1 → inner_batches hs = [] → outer_batches hs = [] → tupdesc hs = d_i → outer_tupdesc hs = d_o → built hs [].
Proof. intros H1 H2 H3 H4 H5 H6. unfold built. rewrite H1, H2, H3, H4. cbn. split; [by split_and!|]. split; [by repeat constructor|]. split; (split; [done|]); intros k s Hk; done. Qed.

Lemma build_built st : built (hj_HashState st) [] → Forall (storable d_i) (right_child st) →
  ∃ hs, BuildHashTable plan st = with_children (left_child st) [] (with_hash hs st) ∧ built hs (right_child st).
Proof. intros Hb Hl. unfold BuildHashTable. destruct (foldl_built (right_child st) st [] Hb Hl) as (hs & -> & Hb'). by exists hs. Qed.
End build.
End HashJoinBuild.
