(* ===== verification/HashJoinRun.v ===== *)
(** * The hash join computes the join

    The turns of the loop of [ExecProcNode], from the outer tuple to the
    bucket, the unmatched inner tuples and the next batch, and the rows they
    return. *)

From stdpp Require Import base list strings.
From S2P Require Import Prelude HeapForm TupleTape Tuplesort Tuplestore TuplestoreSpec HashJoin HashJoinSpec HashJoinBuild.

Module HashJoinRun.
Import HeapForm TupleTape Tuplestore TuplestoreSpec HashJoin HashJoinSpec HashJoinBuild.

(** ** The bucket of a hash *)

(** The entries with hash [h], marked as matched. *)
Definition mark_hash (h : Z) (t : list (Z * HashEntry)) : list (Z * HashEntry) :=
  (λ he, if he.1 =? h then (he.1, mkEntry (slot he.2) (hashkey he.2) (keynull he.2) true) else he) <$> t.

Definition slots_at (t : list (Z * HashEntry)) (ps : list nat) : list TupleTableSlot :=
  omap (λ p, (λ he, slot he.2) <$> t !! p) ps.

Definition range_from (h : Z) (off : nat) (t : list (Z * HashEntry)) : list nat :=
  filter (λ i, (fst <$> t !! (i - off)%nat) = Some h) (seq off (length t)).

Lemma equal_range_from h t : equal_range h t = range_from h 0 t.
Proof. unfold equal_range, range_from. apply filter_same. intros i _. by rewrite Nat.sub_0_r. Qed.

Lemma range_from_cons h off he t : range_from h off (he :: t) = if decide (he.1 = h) then off :: range_from h (S off) t else range_from h (S off) t.
Proof.
  unfold range_from. cbn [length seq]. rewrite filter_cons. rewrite Nat.sub_diag. cbn [lookup list_lookup fmap option_fmap option_map].
  assert (Heq : filter (λ i, (fst <$> (he :: t) !! (i - off)%nat) = Some h) (seq (S off) (length t)) = filter (λ i, (fst <$> t !! (i - S off)%nat) = Some h) (seq (S off) (length t))).
  { apply filter_same. intros i Hi%elem_of_seq. by replace (i - off)%nat with (S (i - S off)) by lia. }
  rewrite Heq. destruct (decide (he.1 = h)) as [-> |]; [by rewrite decide_True|rewrite decide_False; [done|congruence]].
Qed.

Lemma slots_range h t : ∀ t0, slots_at (t0 ++ t) (range_from h (length t0) t) = slots (filter (λ he, he.1 = h) t).
Proof.
  induction t as [|he t IH]; intros t0; [done|]. rewrite range_from_cons, filter_cons. specialize (IH (t0 ++ [he])). rewrite length_app, Nat.add_1_r, <- app_assoc in IH. cbn [app] in IH.
  destruct (decide (he.1 = h)); [|done]. cbn [slots_at omap list_omap]. rewrite lookup_app_r, Nat.sub_diag by lia. cbn. by f_equal.
Qed.

Lemma mark_at t0 he t : mark (length t0) (t0 ++ he :: t) = t0 ++ (he.1, mkEntry (slot he.2) (hashkey he.2) (keynull he.2) true) :: t.
Proof. unfold mark. rewrite alter_app_r_alt, Nat.sub_diag by lia. cbn. by destruct he. Qed.

Lemma mark_range h t : ∀ t0, foldl (λ t p, mark p t) (t0 ++ t) (range_from h (length t0) t) = t0 ++ mark_hash h t.
Proof.
  induction t as [|he t IH]; intros t0; [done|]. rewrite range_from_cons. cbn [mark_hash fmap list_fmap]. destruct (decide (he.1 = h)) as [E|E].
  - rewrite (proj2 (Z.eqb_eq _ _) E). cbn [foldl]. rewrite mark_at. set (he' := (_, _)). specialize (IH (t0 ++ [he'])). rewrite length_app, Nat.add_1_r, <- !app_assoc in IH. done.
  - rewrite (proj2 (Z.eqb_neq _ _) E). specialize (IH (t0 ++ [he])). rewrite length_app, Nat.add_1_r, <- !app_assoc in IH. done.
Qed.

Lemma slots_at_range h t : slots_at t (equal_range h t) = slots (filter (λ he, he.1 = h) t).
Proof. rewrite equal_range_from. apply (slots_range h t []). Qed.
Lemma mark_equal_range h t : foldl (λ t p, mark p t) t (equal_range h t) = mark_hash h t.
Proof. rewrite equal_range_from. apply (mark_range h t []). Qed.

Lemma equal_range_lookup h t p : p ∈ equal_range h t → is_Some (t !! p).
Proof. intros [_ Hp%elem_of_seq]%list_elem_of_filter. apply lookup_lt_is_Some. lia. Qed.

(** Marking changes neither tuples nor hashes. *)
Lemma slots_mark p t : slots (mark p t) = slots t.
Proof.
  unfold mark, slots. apply list_eq. intros i. rewrite !list_lookup_fmap. destruct (decide (i = p)) as [-> |]; [rewrite list_lookup_alter_eq|by rewrite list_lookup_alter_ne].
  by destruct (t !! p) as [[h e]|].
Qed.
Lemma slots_at_mark p t ps : slots_at (mark p t) ps = slots_at t ps.
Proof.
  unfold slots_at. induction ps as [|q ps IH]; [done|]. cbn [omap list_omap]. rewrite IH. unfold mark.
  destruct (decide (q = p)) as [-> |]; [rewrite list_lookup_alter_eq|by rewrite list_lookup_alter_ne]. by destruct (t !! p) as [[h e]|].
Qed.
Lemma mark_is_some p q t : is_Some (t !! q) → is_Some (mark p t !! q).
Proof. unfold mark. rewrite !lookup_lt_is_Some. by rewrite length_alter. Qed.

(** ** Turns that lead to rows *)

Section run.
Context `{HE : Expressions} `{HM : StdMultimap} `{HL : !MultimapLaws} `{HH : Heap} `{HP : Tuplesort.Process} (plan : HashJoin) (d_o d_i d_r : TupleDescData).
Context (Hplan : plan_ok plan d_r) (small_o : Z.of_nat (length (attrs d_o)) < 2 ^ 31) (small_i : Z.of_nat (length (attrs d_i)) < 2 ^ 31).
Context (fuel : nat).

(** Calls from this state on return the rows [out] and then no more, with any
    fuel from [fuel] on for loading a batch. *)
Inductive runs : HashJoinState → list TupleTableSlot → Prop :=
  | runs_end st st' : (∀ f, (fuel ≤ f)%nat → exec_step plan f st = (Ret (Return None), st')) → runs st []
  | runs_row st st' s out : (∀ f, (fuel ≤ f)%nat → exec_step plan f st = (Ret (Return (Some s)), st')) → runs st' out → runs st (s :: out)
  | runs_go st st' out : (∀ f, (fuel ≤ f)%nat → exec_step plan f st = (Ret Continue, st')) → runs st' out → runs st out.

Definition yields (st : HashJoinState) (rows : list TupleTableSlot) (st' : HashJoinState) : Prop := ∀ out, runs st' out → runs st (rows ++ out).

Lemma yields_trans st1 r1 st2 r2 st3 : yields st1 r1 st2 → yields st2 r2 st3 → yields st1 (r1 ++ r2) st3.
Proof. intros H1 H2 out Ho. rewrite <- app_assoc. auto. Qed.
Lemma yields_go st st' : (∀ f, exec_step plan f st = (Ret Continue, st')) → yields st [] st'.
Proof. intros He out Ho. apply runs_go with st'; [by intros f _|done]. Qed.
Lemma yields_row st s st' : (∀ f, exec_step plan f st = (Ret (Return (Some s)), st')) → yields st [s] st'.
Proof. intros He out Ho. apply runs_row with st'; [by intros f _|done]. Qed.
Lemma yields_same st st' : (∀ f, exec_step plan f st = exec_step plan f st') → yields st [] st'.
Proof.
  intros He out Ho. cbn. inversion Ho; subst; [eapply runs_end|eapply runs_row|eapply runs_go]; try done; intros f Hf; rewrite He; auto.
Qed.

(** *** Emitting a row *)

Lemma project_run st : slot_fits d_r (ps_ResultTupleSlot st) →
  project plan st = (Ret (Return (Some (row plan d_r (hj_OuterTupleSlot st) (innertuple st)))), with_result (row plan d_r (hj_OuterTupleSlot st) (innertuple st)) st).
Proof.
  intros Hr. unfold project. set (r := row _ _ _ _). assert (E : ExecProject (targetlist plan) (context (hj_OuterTupleSlot st) st) (ps_ResultTupleSlot st) = r) by (apply (project_row plan d_r Hplan); done).
  rewrite (bind_ret_run (modify _) _ st tt (with_result r st)) by (unfold modify; by rewrite E). done.
Qed.

Lemma row_fits o i : slot_fits d_r (row plan d_r o i).
Proof. apply (project_fits plan d_r Hplan), make_fits. Qed.

Lemma emit_null_inner st : slot_fits d_r (ps_ResultTupleSlot st) → slot_fits d_i (innertuple st) →
  EmitNullInnerRow plan st = (Ret (Return (Some (outer_row plan d_i d_r (hj_OuterTupleSlot st)))),
    with_result (outer_row plan d_i d_r (hj_OuterTupleSlot st)) (with_innertuple (Make d_i) st)).
Proof.
  intros Hr Hi. unfold EmitNullInnerRow. rewrite (bind_ret_run (modify _) _ st tt (with_innertuple (Make d_i) st)) by (unfold modify; by rewrite (null_slot_make d_i)).
  by rewrite project_run.
Qed.

Lemma emit_null_outer st i : slot_fits d_r (ps_ResultTupleSlot st) → slot_fits d_i (innertuple st) → slot_fits d_o (hj_OuterTupleSlot st) → slot_fits d_i i →
  EmitNullOuterRow plan i st = (Ret (Return (Some (inner_row plan d_o d_r i))),
    with_result (inner_row plan d_o d_r i) (with_outer_slot (Make d_o) (with_innertuple i st))).
Proof.
  intros Hr Hi Ho Hs. unfold EmitNullOuterRow. rewrite (bind_ret_run (modify _) _ st tt (with_innertuple i st)) by (unfold modify; by rewrite (store_virtual_same d_i)).
  rewrite (bind_ret_run (modify _) _ (with_innertuple i st) tt (with_outer_slot (Make d_o) (with_innertuple i st))) by (unfold modify; by rewrite (null_slot_make d_o)).
  by rewrite project_run.
Qed.

(** *** States *)

(** Batch [b] of [n] is being probed: the table, and what the inner and outer
    stores of later batches hold. *)
Record probing (n : Z) (b : nat) (t : list (Z * HashEntry)) (si so : nat → list TupleTableSlot) (st : HashJoinState) : Prop := {
  p_outer : slot_fits d_o (hj_OuterTupleSlot st);
  p_inner : slot_fits d_i (innertuple st);
  p_result : slot_fits d_r (ps_ResultTupleSlot st);
  p_table : hashtable (hj_HashState st) = t;
  p_entries : Forall (entry_ok plan d_o d_i) t;
  p_n : num_batches (hj_HashState st) = n;
  p_range : 1 ≤ n ≤ 1024;
  p_batch : hj_cur_batch st = Z.of_nat b;
  p_last : Z.of_nat b < n;
  p_si : ∀ k, (b ≤ k)%nat → Z.of_nat (S k) < n → ∃ s, inner_batches (hj_HashState st) !! k = Some s ∧ holds d_i (si k) s;
  p_so : ∀ k, (b ≤ k)%nat → Z.of_nat (S k) < n → ∃ s, outer_batches (hj_HashState st) !! k = Some s ∧ holds d_o (so k) s;
}.

(** The outer tuples still to come in batch [b]. *)
Definition current (b : nat) (os : list TupleTableSlot) (st : HashJoinState) : Prop :=
  match b with
  | O => left_child st = os
  | S k => ∃ s l, outer_batches (hj_HashState st) !! k = Some s ∧ reading d_o l os s
  end.

(** Before an outer tuple is fetched. *)
Definition at_fetch n b os t si so (st : HashJoinState) : Prop :=
  probing n b t si so st ∧ hj_phase st = kProbeHashTable ∧ hj_hasBucket st = false ∧ current b os st.

(** In the bucket of [o], of which the positions [ps] are left; [m] tells
    whether it was matched. *)
Definition in_bucket n b o m ps os t si so (st : HashJoinState) : Prop :=
  probing n b t si so st ∧ hj_phase st = kProbeHashTable ∧ hj_hasBucket st = true ∧ hj_curBucket st = ps ∧ hj_NeedNewOuter st = false ∧
  hj_MatchedOuter st = m ∧ hj_OuterTupleSlot st = o ∧ current b os st.

(** *** A bucket *)

(** The rows of the partners still to come, [m] telling whether there were some. *)
Definition rest_rows (m : bool) (o : TupleTableSlot) (partners : list TupleTableSlot) : list TupleTableSlot :=
  if m then row plan d_r o <$> partners else rows_with plan d_i d_r o partners.

Definition whole_bucket : Prop := jointype plan ≠ kSemi ∧ jointype plan ≠ kAnti.

Lemma rest_rows_cons m o i fs : whole_bucket → rest_rows m o (i :: fs) = row plan d_r o i :: rest_rows true o fs.
Proof. intros [H1 H2]. unfold rest_rows, rows_with. destruct m; [done|]. by destruct (jointype plan). Qed.

(** The state in which an entry is looked at. *)
Definition looking (p : nat) (ps : list nat) (i : TupleTableSlot) (st : HashJoinState) : HashJoinState :=
  with_bucket ps true (with_innertuple i (with_hash (with_table (mark p (hashtable (hj_HashState st))) (hj_HashState st)) st)).

Lemma bucket_step_run p ps h e st : hashtable (hj_HashState st) !! p = Some (h, e) → slot_fits d_i (slot e) → slot_fits d_i (innertuple st) →
  bucket_step plan p ps st =
    (if passes plan (hj_OuterTupleSlot st) (slot e) then
       match jointype plan with
       | kSemi => modify (λ st, need_new true (with_bucket ps false (set_matched true st)));; project plan
       | kAnti => modify (λ st, need_new true (with_bucket ps false (set_matched true st)));; mret Continue
       | _ => modify (set_matched true);; project plan
       end
     else mret Continue) (looking p ps (slot e) st).
Proof.
  intros Hp He Hi. unfold bucket_step. rewrite (bind_ret_run get _ st st st) by done. rewrite Hp. rewrite (bind_ret_run (modify _) _ st tt (with_hash (with_table (mark p (hashtable (hj_HashState st))) (hj_HashState st)) st)) by done.
  set (st1 := with_hash _ st). rewrite (bind_ret_run (modify _) _ st1 tt (with_innertuple (slot e) st1)) by (unfold modify; by rewrite (store_virtual_same d_i)).
  rewrite (bind_ret_run (modify _) _ (with_innertuple (slot e) st1) tt (looking p ps (slot e) st)) by done. set (st2 := looking _ _ _ _).
  rewrite (bind_ret_run get _ st2 st2 st2) by done. change (ExecQual (qual plan) (context (hj_OuterTupleSlot st2) st2)) with (passes plan (hj_OuterTupleSlot st) (slot e)).
  by destruct (jointype plan), (passes _ _ _).
Qed.

Lemma entry_at t p h e : Forall (entry_ok plan d_o d_i) t → t !! p = Some (h, e) → h = inner_hash plan d_o d_i (slot e) ∧ storable d_i (slot e).
Proof. intros Ht Hp. rewrite Forall_lookup in Ht. by apply (Ht p (h, e)). Qed.

Lemma mark_entries p t : Forall (entry_ok plan d_o d_i) t → Forall (entry_ok plan d_o d_i) (mark p t).
Proof.
  rewrite !Forall_lookup. intros Ht i [h e] Hi. unfold mark in Hi. destruct (decide (i = p)) as [-> |]; [|rewrite list_lookup_alter_ne in Hi by done; by apply (Ht i)].
  rewrite list_lookup_alter_eq in Hi. destruct (t !! p) as [[h' e']|] eqn:E; [|done]. injection Hi as <- <-. by apply (Ht p (h', e')).
Qed.

Lemma storable_fits d s : storable d s → slot_fits d s.
Proof. intros [Hw _]. by apply wf_fits. Qed.

(** Changes of the join state that leave the hash state alone. *)
Lemma probing_table n b t t' si so st : probing n b t si so st → Forall (entry_ok plan d_o d_i) t' →
  probing n b t' si so (with_hash (with_table t' (hj_HashState st)) st).
Proof. intros [] Ht'. by split. Qed.

Lemma looking_in n b o m p ps os t si so st i : in_bucket n b o m (p :: ps) os t si so st → slot_fits d_i i → in_bucket n b o m ps os (mark p t) si so (looking p ps i st).
Proof.
  intros (Hp & H1 & H2 & H3 & H4 & H5 & H6 & H7) Hi. destruct Hp. split; [|by split_and!]. unfold looking. rewrite p_table0. split; try done. by apply mark_entries.
Qed.

(** The turn that leaves an exhausted bucket. *)
Lemma bucket_end n b o m os t si so st : in_bucket n b o m [] os t si so st → (m = true → whole_bucket) →
  ∃ st', yields st (rest_rows m o []) st' ∧ at_fetch n b os t si so st'.
Proof.
  intros (Hp & H1 & H2 & H3 & H4 & H5 & H6 & H7) Hm. set (st0 := need_new true (with_bucket [] false st)).
  assert (Hst : ∀ f, exec_step plan f st = (if unmatched_outer plan st then EmitNullInnerRow plan else next_outer plan f) st0).
  { intros f. unfold exec_step. rewrite (bind_ret_run get _ st st st) by done. rewrite H1. unfold probe_step. rewrite (bind_ret_run get _ st st st) by done. rewrite H2, H3.
    rewrite (bind_ret_run (modify _) _ st tt st0) by (unfold modify; by rewrite H2, H3). by destruct (unmatched_outer _ _). }
  assert (Hp0 : probing n b t si so st0) by (destruct Hp; by split). unfold unmatched_outer in Hst. rewrite H2, H4, H5 in Hst. cbn [andb negb] in Hst.
  destruct (match jointype plan with kAnti | kLeft | kFull => negb m | _ => false end) eqn:E.
  - exists (with_result (outer_row plan d_i d_r o) (with_innertuple (Make d_i) st0)). split.
    + assert (rest_rows m o [] = [outer_row plan d_i d_r o]) as ->.
      { unfold rest_rows, rows_with. destruct m; [by destruct (jointype plan)|]. by destruct (jointype plan). }
      apply yields_row. intros f. rewrite Hst. pose proof (emit_null_inner st0 (p_result _ _ _ _ _ _ Hp0) (p_inner _ _ _ _ _ _ Hp0)) as He.
      change (hj_OuterTupleSlot st0) with (hj_OuterTupleSlot st) in He. by rewrite H6 in He.
    + destruct Hp0. split; [|by split_and!]. split; try done; [apply make_fits|apply row_fits].
  - exists st0. split; [|by split_and!]. assert (rest_rows m o [] = []) as -> by (unfold rest_rows, rows_with; destruct m; [done|]; by destruct (jointype plan)).
    apply yields_same. intros f. rewrite Hst. unfold exec_step. rewrite (bind_ret_run get _ st0 st0 st0) by done. change (hj_phase st0) with (hj_phase st). rewrite H1.
    unfold probe_step. rewrite (bind_ret_run get _ st0 st0 st0) by done. cbn [hj_hasBucket st0 need_new with_bucket hj_curBucket].
    by rewrite (bind_ret_run (modify _) _ st0 tt st0).
Qed.

Lemma in_bucket_turn n b o m p ps os t si so st f : in_bucket n b o m (p :: ps) os t si so st → exec_step plan f st = bucket_step plan p ps st.
Proof.
  intros (_ & H1 & H2 & H3 & _). unfold exec_step. rewrite (bind_ret_run get _ st st st) by done. rewrite H1. unfold probe_step. rewrite (bind_ret_run get _ st st st) by done. by rewrite H2, H3.
Qed.

(** A match that ends the bucket, of a semi- or anti-join. *)
Lemma leave_bucket n b o m ps os t si so st r : in_bucket n b o m ps os t si so st → slot_fits d_r r →
  at_fetch n b os t si so (with_result r (need_new true (with_bucket ps false (set_matched true st)))).
Proof. intros (Hp & H1 & H2 & H3 & H4 & H5 & H6 & H7) Hr. destruct Hp. split; [|by split_and!]. by split. Qed.

Lemma emit_match n b o m ps os t si so st r : in_bucket n b o m ps os t si so st → slot_fits d_r r →
  in_bucket n b o true ps os t si so (with_result r (set_matched true st)).
Proof. intros (Hp & H1 & H2 & H3 & H4 & H5 & H6 & H7) Hr. destruct Hp. split; [|by split_and!]. by split. Qed.

Lemma with_result_same st : with_result (ps_ResultTupleSlot st) st = st.
Proof. by destruct st. Qed.

Lemma bucket_run n b o os si so ps : ∀ m t st,
  in_bucket n b o m ps os t si so st → (∀ p, p ∈ ps → is_Some (t !! p)) → (m = true → whole_bucket) →
  ∃ t' st', yields st (rest_rows m o (filter (λ i, passes plan o i = true) (slots_at t ps))) st' ∧ at_fetch n b os t' si so st' ∧
    slots t' = slots t ∧ (keeps_inner plan = true → t' = foldl (λ t p, mark p t) t ps).
Proof.
  induction ps as [|p ps IH]; intros m t st Hb Hps Hm.
  { destruct (bucket_end n b o m os t si so st Hb Hm) as (st' & Hy & Hf). by exists t, st'. }
  destruct (Hps p) as [[h e] Hpe]; [by left|]. pose proof Hb as ([Po Pi Pr Pt Pe Pn Prg Pb Pl Ps1 Ps2] & _ & _ & _ & _ & _ & Ho & _).
  destruct (entry_at t p h e Pe Hpe) as [_ Hst]. apply storable_fits in Hst.
  assert (Hl := looking_in n b o m p ps os t si so st (slot e) Hb Hst). set (stl := looking p ps (slot e) st) in *.
  assert (Hturn : ∀ f, exec_step plan f st = (if passes plan o (slot e) then
       match jointype plan with
       | kSemi => modify (λ st, need_new true (with_bucket ps false (set_matched true st)));; project plan
       | kAnti => modify (λ st, need_new true (with_bucket ps false (set_matched true st)));; mret Continue
       | _ => modify (set_matched true);; project plan
       end else mret Continue) stl).
  { intros f. rewrite (in_bucket_turn _ _ _ _ _ _ _ _ _ _ _ f Hb). rewrite (bucket_step_run p ps h e st) by (done || by rewrite Pt). by rewrite Ho. }
  assert (Hps' : ∀ q, q ∈ ps → is_Some (mark p t !! q)) by (intros q Hq; apply mark_is_some, Hps; by right).
  assert (Hsl : slots_at t (p :: ps) = slot e :: slots_at (mark p t) ps) by (rewrite slots_at_mark; unfold slots_at; cbn [omap list_omap]; by rewrite Hpe).
  rewrite Hsl, filter_cons. destruct (passes plan o (slot e)) eqn:Epass.
  2: { rewrite decide_False by done. destruct (IH m (mark p t) stl Hl Hps' Hm) as (t' & st' & Hy & Hf & Hs & Hk). exists t', st'.
       split_and!; [|done|by rewrite Hs, slots_mark|done]. change (rest_rows m o ?l) with ([] ++ rest_rows m o l). eapply yields_trans; [|done]. by apply yields_go. }
  rewrite decide_True by done. set (r := row plan d_r o (slot e)).
  assert (Hproj : ∀ st2, ps_ResultTupleSlot st2 = ps_ResultTupleSlot st → hj_OuterTupleSlot st2 = o → innertuple st2 = slot e → project plan st2 = (Ret (Return (Some r)), with_result r st2)).
  { intros st2 E1 E2 E3. rewrite project_run by (by rewrite E1). by rewrite E2, E3. }
  destruct (decide (jointype plan = kSemi ∨ jointype plan = kAnti)) as [Hj|Hj].
  - assert (m = false) as -> by (destruct m; [destruct (Hm eq_refl); tauto|done]). unfold rest_rows, rows_with, keeps_inner. destruct Hj as [Hj|Hj]; rewrite Hj in *.
    + exists (mark p t). eexists. split; [|split; [by apply (leave_bucket _ _ _ _ _ _ _ _ _ stl r Hl), row_fits|split; [apply slots_mark|done]]].
      apply yields_row. intros f. rewrite Hturn. rewrite (bind_ret_run (modify _) _ stl tt (need_new true (with_bucket ps false (set_matched true stl)))) by done. by apply Hproj.
    + exists (mark p t). eexists. split; [|split; [apply (leave_bucket _ _ _ _ _ _ _ _ _ stl (ps_ResultTupleSlot stl) Hl); by destruct Hl as [[] _]|split; [apply slots_mark|done]]].
      apply yields_go. intros f. rewrite Hturn. by rewrite (bind_ret_run (modify _) _ stl tt (need_new true (with_bucket ps false (set_matched true stl)))).
  - assert (Hw : whole_bucket) by (split; tauto). rewrite rest_rows_cons by done.
    destruct (IH true (mark p t) (with_result r (set_matched true stl))) as (t' & st' & Hy & Hf & Hs & Hk); [by eapply emit_match, row_fits|done|done|].
    exists t', st'. split_and!; [|done|by rewrite Hs, slots_mark|done]. change (row plan d_r o (slot e) :: ?l) with ([r] ++ l). eapply yields_trans; [|done]. apply yields_row.
    intros f. rewrite Hturn. destruct (jointype plan); try tauto; (rewrite (bind_ret_run (modify _) _ stl tt (set_matched true stl)) by done; by apply Hproj).
Qed.

(** *** An outer tuple *)

Definition outer_batch (n : Z) (o : TupleTableSlot) : option Z := batch n <$> outer_hash plan d_i o.
Definition mine (n : Z) (b : nat) (o : TupleTableSlot) : Prop := outer_batch n o = None ∨ outer_batch n o = Some (Z.of_nat b).
#[export] Instance mine_dec n b o : Decision (mine n b o).
Proof. unfold mine. apply _. Defined.
Definition mark_outer (n : Z) (b : nat) (t : list (Z * HashEntry)) (o : TupleTableSlot) : list (Z * HashEntry) :=
  match outer_hash plan d_i o with Some h => if batch n h =? Z.of_nat b then mark_hash h t else t | None => t end.
Definition spilled (n : Z) (k : nat) (os : list TupleTableSlot) : list TupleTableSlot := filter (λ o, outer_batch n o = Some (Z.of_nat (S k))) os.

Lemma probing_so n b t si so so' st : (∀ k, so' k = so k) → probing n b t si so st → probing n b t si so' st.
Proof. intros He []. split; try done. intros k Hk1 Hk2. rewrite He. auto. Qed.

Lemma fetch_turn n b os t si so st : at_fetch n b os t si so st → ∀ f, exec_step plan f st = next_outer plan f st.
Proof.
  intros (Hp & H1 & H2 & _) f. unfold exec_step. rewrite (bind_ret_run get _ st st st) by done. rewrite H1. unfold probe_step. rewrite (bind_ret_run get _ st st st) by done. rewrite H2.
  rewrite (bind_ret_run (modify _) _ st tt st) by (unfold modify; by rewrite H2). unfold unmatched_outer. by rewrite H2.
Qed.

(** An outer tuple in the outer slot. *)
Definition at_probe n b o os t si so (st : HashJoinState) : Prop :=
  probing n b t si so st ∧ hj_phase st = kProbeHashTable ∧ hj_hasBucket st = false ∧ hj_NeedNewOuter st = false ∧ hj_MatchedOuter st = false ∧
  hj_OuterTupleSlot st = o ∧ current b os st.

Lemma fetch_outer_run n b os t si so st : at_fetch n b os t si so st →
  ∃ st', fetch_outer st = (Ret (head os), st') ∧ at_fetch n b (tail os) t si so st' ∧ hj_scanIter st' = hj_scanIter st ∧ hj_NeedNewOuter st' = hj_NeedNewOuter st.
Proof.
  intros (Hp & H1 & H2 & Hc). unfold fetch_outer. rewrite (bind_ret_run get _ st st st) by done. pose proof Hp as [Po Pi Pr Pt Pe Pn Prg Pb Pl Ps1 Ps2]. rewrite Pb. destruct b as [|k]; cbn [current] in Hc.
  - cbn [Z.of_nat Z.eqb]. rewrite Hc. destruct os as [|o os].
    + exists st. by split_and!.
    + eexists. split; [done|]. split_and!; [|done|done]. split_and!; [by split|done|done|done].
  - rewrite (proj2 (Z.eqb_neq _ 0)) by lia. replace (Z.to_nat (Z.of_nat (S k) - 1)) with k by lia. destruct Hc as (s & l & Hs & Hr). unfold get_outer. rewrite Hs.
    pose proof (get_reading d_o small_o l os s Hr) as Hg.
    assert (Hnew : ∀ s' os', reading d_o l os' s' → at_fetch n (S k) os' t si so (with_hash (with_outer (<[k := s']> (outer_batches (hj_HashState st))) (hj_HashState st)) st)).
    { intros s' os' Hr'. split_and!; [|done|done|].
      - split; try done. intros j Hj1 Hj2. destruct (Ps2 j Hj1 Hj2) as (s2 & Hs2 & Hh2). exists s2. split; [|done]. cbn. by rewrite list_lookup_insert_ne by lia.
      - exists s', l. split; [|done]. cbn. apply list_lookup_insert_eq. by eapply lookup_lt_Some. }
    destruct os as [|o os]; destruct Hg as (s' & -> & Hr'); (eexists; split; [done|split_and!; [by apply Hnew|done|done]]).
Qed.

Lemma fetch_run n b o os t si so st : at_fetch n b (o :: os) t si so st → storable d_o o →
  ∃ st', (∀ f, exec_step plan f st = probe_outer plan st') ∧ at_probe n b o os t si so st'.
Proof.
  intros Hf Ho. assert (Hf0 : at_fetch n b (o :: os) t si so (need_new true st)).
  { destruct Hf as ([] & H1 & H2 & H3). split_and!; [by split|done|done|by destruct b]. }
  destruct (fetch_outer_run _ _ _ _ _ _ _ Hf0) as (st1 & Hfo & ([Po Pi Pr Pt Pe Pn Prg Pb Pl Ps1 Ps2] & H1 & H2 & H3) & _). cbn [head tail] in *.
  exists (set_matched false (need_new false (with_outer_slot o st1))). split.
  - intros f. rewrite (fetch_turn _ _ _ _ _ _ _ Hf). unfold next_outer. rewrite (bind_ret_run (modify _) _ st tt (need_new true st)) by done. rewrite (bind_ret_run _ _ _ _ _ Hfo).
    rewrite (bind_ret_run (modify _) _ st1 tt (with_outer_slot o st1)) by (unfold modify; by rewrite (store_virtual_same d_o) by (done || by apply storable_fits)). done.
  - split_and!; try done. + by split; try done; apply storable_fits.
Qed.

Lemma filter_pairs o h t : outer_hash plan d_i o = Some h → Forall (entry_ok plan d_o d_i) t →
  filter (λ i, passes plan o i = true) (slots_at t (equal_range h t)) = filter (λ i, pairs plan d_o d_i o i = true) (slots t).
Proof.
  intros Hh Ht. rewrite slots_at_range. induction Ht as [|[h' e] t [Hh' He] Ht IH]; [done|]. cbn [fst snd] in *. change (slots ((h', e) :: t)) with (slot e :: slots t). rewrite !filter_cons. cbn [fst].
  assert (Hp : pairs plan d_o d_i o (slot e) = if decide (h' = h) then passes plan o (slot e) else false).
  { unfold pairs, same_hash. rewrite Hh, <- Hh'. destruct (decide (h' = h)) as [-> |]; [by rewrite bool_decide_eq_true_2|by rewrite bool_decide_eq_false_2 by congruence]. }
  rewrite Hp. destruct (decide (h' = h)) as [-> |Hne].
  - change (slots ((h, e) :: ?l)) with (slot e :: slots l). rewrite filter_cons. destruct (decide (passes plan o (slot e) = true)); by rewrite IH.
  - rewrite decide_False by done. done.
Qed.

Lemma no_pairs o l : outer_hash plan d_i o = None → filter (λ i, pairs plan d_o d_i o i = true) l = [].
Proof. intros Hh. induction l as [|i l IH]; [done|]. rewrite filter_cons. rewrite decide_False; [done|]. unfold pairs, same_hash. rewrite Hh. by rewrite bool_decide_eq_false_2. Qed.

Definition own_rows (n : Z) (b : nat) (inners : list TupleTableSlot) (o : TupleTableSlot) : list TupleTableSlot :=
  if decide (mine n b o) then rows_with plan d_i d_r o (filter (λ i, pairs plan d_o d_i o i = true) inners) else [].

Lemma mark_hash_entries h t : Forall (entry_ok plan d_o d_i) t → Forall (entry_ok plan d_o d_i) (mark_hash h t).
Proof. intros Ht. unfold mark_hash. apply Forall_fmap. eapply Forall_impl; [done|]. intros [h' e] He. cbn. by destruct (h' =? h). Qed.
Lemma slots_mark_hash h t : slots (mark_hash h t) = slots t.
Proof. unfold slots, mark_hash. rewrite <- list_fmap_compose. apply list_fmap_ext. intros i [h' e] _. cbn. by destruct (h' =? h). Qed.

Lemma put_outer_probing n b t si so st k s : probing n b t si so st → storable d_o s →
  probing n b t si (λ j, so j ++ (if decide (j = k) then [s] else []))
    (with_hash (with_outer (put_batch k s (outer_batches (hj_HashState st))) (hj_HashState st)) st).
Proof.
  intros [] Hs. split; try done. intros j Hj1 Hj2. destruct (p_so0 j Hj1 Hj2) as (s0 & Hs0 & Hh0). cbn. unfold put_batch. destruct (decide (j = k)) as [-> |].
  - rewrite list_lookup_alter_eq, Hs0. eexists. split; [done|]. by apply put_holds.
  - rewrite list_lookup_alter_ne by done. exists s0. by rewrite app_nil_r.
Qed.

Lemma back_to_fetch n b o os t si so st : at_probe n b o os t si so st → at_fetch n b os t si so (need_new true st).
Proof. intros ([] & H1 & H2 & H3 & H4 & H5 & H6). split_and!; [by split|done|done|by destruct b]. Qed.

(** The tuples of later batches go to their stores. *)
Lemma so_other n b o so : outer_batch n o = None ∨ outer_batch n o = Some (Z.of_nat b) → ∀ k, (b ≤ k)%nat → so k = so k ++ spilled n k [o].
Proof. intros Ho k Hk. unfold spilled. rewrite filter_cons, decide_False by (destruct Ho as [-> | ->]; [done|intros [=]; lia]). by rewrite app_nil_r. Qed.

Lemma probing_so_from n b t si so so' st : (∀ k, (b ≤ k)%nat → so' k = so k) → probing n b t si so st → probing n b t si so' st.
Proof. intros He []. split; try done. intros k Hk1 Hk2. rewrite He by done. auto. Qed.
Lemma at_fetch_so n b os t si so so' st : (∀ k, (b ≤ k)%nat → so' k = so k) → at_fetch n b os t si so st → at_fetch n b os t si so' st.
Proof. intros He (Hp & H). split; [by eapply probing_so_from|done]. Qed.

Lemma outer_run n b o os t si so st : at_fetch n b (o :: os) t si so st → storable d_o o → (b ≠ 0%nat → outer_batch n o = Some (Z.of_nat b)) →
  ∃ t' st', yields st (own_rows n b (slots t) o) st' ∧ at_fetch n b os t' si (λ k, so k ++ spilled n k [o]) st' ∧ slots t' = slots t ∧
    (keeps_inner plan = true → t' = mark_outer n b t o).
Proof.
  intros Hf Hso Hb. destruct (fetch_run n b o os t si so st Hf Hso) as (st1 & Hturn & Hpr).
  pose proof Hpr as (Hp & H1 & H2 & H3 & H4 & H5 & H6). pose proof Hp as [Po Pi Pr Pt Pe Pn Prg Pb Pl Ps1 Ps2].
  unfold probe_outer in Hturn. unfold mark_outer. assert (Hk : HashOuterKeys plan st1 = outer_hash plan d_i o) by (rewrite (outer_hash_eq plan d_i d_r Hplan); by rewrite H5).
  destruct (outer_hash plan d_i o) as [h|] eqn:Eh.
  2: { assert (Hob : outer_batch n o = None) by (unfold outer_batch; by rewrite Eh). exists t.
    assert (Hrows : own_rows n b (slots t) o = rows_with plan d_i d_r o []) by (unfold own_rows; rewrite decide_True by (by left); by rewrite no_pairs). rewrite Hrows.
    assert (Hback : at_fetch n b os t si (λ k, so k ++ spilled n k [o]) (need_new true st1)).
    { eapply at_fetch_so; [|by eapply back_to_fetch]. intros k Hk0. symmetry. apply (so_other n b); [by left|done]. }
    assert (Ht : ∀ f, exec_step plan f st = (match jointype plan with kLeft | kFull | kAnti => EmitNullInnerRow plan | _ => mret Continue end) (need_new true st1)).
    { intros f. rewrite Hturn. rewrite (bind_ret_run get _ st1 st1 st1) by done. rewrite Hk. rewrite (bind_ret_run (modify _) _ st1 tt (need_new true st1)) by done. by destruct (jointype plan). }
    pose proof (emit_null_inner (need_new true st1) Pr Pi) as Hemit. change (hj_OuterTupleSlot (need_new true st1)) with (hj_OuterTupleSlot st1) in Hemit. rewrite H5 in Hemit.
    unfold rows_with. destruct (jointype plan); try (exists (need_new true st1); split_and!; [by apply yields_go|apply Hback..|done|done]);
      (eexists; split; [apply yields_row; intros f; rewrite Ht; apply Hemit|split; [|done]];
       destruct Hback as ([] & B1 & B2 & B3); split_and!; [split; try done; [apply make_fits|apply row_fits]|done|done|by destruct b]). }
  assert (Hob : outer_batch n o = Some (batch n h)) by (unfold outer_batch; by rewrite Eh).
  assert (Ht : ∀ f, exec_step plan f st = (if negb (batch n h =? Z.of_nat b) then
        (modify (λ st, need_new true (if 0 <? batch n h then
          with_hash (with_outer (put_batch (Z.to_nat (batch n h - 1)) (hj_OuterTupleSlot st) (outer_batches (hj_HashState st))) (hj_HashState st)) st else st));; mret Continue)
      else (modify (λ st, with_bucket (equal_range h (hashtable (hj_HashState st))) true st);; mret Continue)) st1).
  { intros f. rewrite Hturn. rewrite (bind_ret_run get _ st1 st1 st1) by done. rewrite Hk. rewrite Pb. unfold BatchOfHash. rewrite Pn. fold (batch n h). by destruct (negb _). }
  destruct (batch n h =? Z.of_nat b) eqn:Eb; to_prop; cbn [negb] in Ht.
  - assert (Hm : mine n b o) by (right; by rewrite Hob, Eb).
    assert (Hbk : in_bucket n b o false (equal_range h t) os t si so (with_bucket (equal_range h t) true st1)).
    { split; [by split|]. split_and!; [done|done|done|done|done|done|by destruct b]. }
    destruct (bucket_run n b o os si so (equal_range h t) false t _ Hbk) as (t' & st' & Hy & Hf' & Hs & Hmk); [apply equal_range_lookup|done|].
    exists t', st'. split_and!; [|eapply at_fetch_so; [|done]; intros k Hk0; symmetry; by apply (so_other n b)|done|by rewrite <- mark_equal_range].
    rewrite (filter_pairs o h t Eh Pe) in Hy. unfold own_rows. rewrite decide_True by done. change (rest_rows false o ?l) with (rows_with plan d_i d_r o l) in Hy.
    change (rows_with plan d_i d_r o ?l) with ([] ++ rows_with plan d_i d_r o l). eapply yields_trans; [|done]. apply yields_go. intros f. rewrite Ht.
    rewrite (bind_ret_run (modify _) _ st1 tt (with_bucket (equal_range h t) true st1)) by (unfold modify; by rewrite Pt). done.
  - assert (Hnm : ¬ mine n b o) by (intros [Hm|Hm]; congruence). assert (b = 0%nat) as -> by (destruct (decide (b = 0%nat)); [done|]; specialize (Hb n0); congruence).
    pose proof (batch_range n h Prg) as Hr. assert (Hpos : (0 <? batch n h) = true) by (apply Z.ltb_lt; lia).
    exists t. exists (need_new true (with_hash (with_outer (put_batch (Z.to_nat (batch n h - 1)) o (outer_batches (hj_HashState st1))) (hj_HashState st1)) st1)).
    unfold own_rows. rewrite decide_False by done. split_and!; [| |done|done].
    + apply yields_go. intros f. rewrite Ht. by rewrite (bind_ret_run (modify _) _ st1 tt (need_new true (with_hash (with_outer (put_batch (Z.to_nat (batch n h - 1)) o (outer_batches (hj_HashState st1))) (hj_HashState st1)) st1))) by (unfold modify; by rewrite Hpos, H5).
    + pose proof (put_outer_probing n 0 t si so st1 (Z.to_nat (batch n h - 1)) o Hp Hso) as Hpp.
      apply (at_fetch_so _ _ _ _ _ (λ j, so j ++ (if decide (j = Z.to_nat (batch n h - 1)) then [o] else []))).
      * intros k _. f_equal. unfold spilled. rewrite filter_cons, filter_nil. destruct (decide (k = _)) as [-> |Hne].
        { rewrite decide_True; [done|]. rewrite Hob. f_equal. lia. } { rewrite decide_False; [done|]. rewrite Hob. intros [=]. lia. }
      * destruct Hpp. split_and!; [by split|done|done|done].
Qed.

Lemma outers_run n b os si : ∀ t so st, at_fetch n b os t si so st → Forall (storable d_o) os → (b ≠ 0%nat → Forall (λ o, outer_batch n o = Some (Z.of_nat b)) os) →
  ∃ t' st', yields st (os ≫= own_rows n b (slots t)) st' ∧ at_fetch n b [] t' si (λ k, so k ++ spilled n k os) st' ∧ slots t' = slots t ∧
    (keeps_inner plan = true → t' = foldl (mark_outer n b) t os).
Proof.
  induction os as [|o os IH]; intros t so st Hf Hs Hb.
  - exists t, st. split_and!; [by intros out Ho| |done|done]. eapply at_fetch_so; [|done]. intros k _. cbn. by rewrite app_nil_r.
  - apply Forall_cons in Hs as [Hso Hs]. destruct (outer_run n b o os t si so st Hf Hso) as (t1 & st1 & Hy1 & Hf1 & Hs1 & Hm1); [intros Hb0; specialize (Hb Hb0); by apply Forall_cons in Hb as [? _]|].
    destruct (IH t1 _ st1 Hf1 Hs) as (t2 & st2 & Hy2 & Hf2 & Hs2 & Hm2); [intros Hb0; specialize (Hb Hb0); by apply Forall_cons in Hb as [_ ?]|].
    exists t2, st2. split_and!; [|eapply at_fetch_so; [|done]|by rewrite Hs2|].
    + cbn. eapply yields_trans; [done|]. by rewrite Hs1 in Hy2.
    + intros k _. cbn beta. rewrite <- app_assoc. f_equal. apply (filter_app _ [o] os).
    + intros Hk. rewrite Hm2, Hm1 by done. done.
Qed.

(** *** The end of a batch *)

Definition unmatched (t : list (Z * HashEntry)) : list TupleTableSlot := slots (filter (λ he, matched he.2 = false) t).

Lemma next_unmatched_spec l : ∀ i, match next_unmatched l i with
  | (None, _) => unmatched l = []
  | (Some s, i') => ∃ k, i' = (i + S k)%nat ∧ (k < length l)%nat ∧ s ∈ slots l ∧ unmatched l = s :: unmatched (drop (S k) l)
  end.
Proof.
  induction l as [|[h e] l IH]; intros i; [done|]. cbn [next_unmatched]. unfold unmatched. rewrite filter_cons. cbn [snd]. destruct (matched e) eqn:E.
  - rewrite decide_False by done. specialize (IH (S i)). destruct (next_unmatched l (S i)) as [[s|] i']; [|done]. destruct IH as (k & -> & Hk & Hs & Hu).
    exists (S k). split_and!; [lia|cbn; lia|by right|done].
  - rewrite decide_True by done. exists 0%nat. split_and!; [lia|cbn; lia|by left|]. by rewrite skipn_0 || done.
Qed.

(** Position [i] of the scan for unmatched inner tuples. *)
Definition at_scan n b t si so (i : nat) (st : HashJoinState) : Prop :=
  probing n b t si so st ∧ hj_phase st = kScanUnmatched ∧ (if hj_scanStarted st then hj_scanIter st = i else i = 0%nat).

(** The state in which the next batch is asked for. *)
Definition batch_over n b t si so rows (st : HashJoinState) : Prop :=
  ∃ st0 st1, yields st rows st0 ∧ (∀ f, exec_step plan f st0 = next_batch plan f st1) ∧ probing n b t si so st1.

Lemma scan_run n b t si so m : ∀ i st, (length t - i < m)%nat → at_scan n b t si so i st → batch_over n b t si so (inner_row plan d_o d_r <$> unmatched (drop i t)) st.
Proof.
  induction m as [|m IH]; intros i st Hm (Hp & H1 & H2); [lia|]. pose proof Hp as [Po Pi Pr Pt Pe Pn Prg Pb Pl Ps1 Ps2].
  set (sta := if hj_scanStarted st then st else with_scan 0 true st). assert (Hi : hj_scanIter sta = i) by (unfold sta; by destruct (hj_scanStarted st)).
  assert (Hpa : probing n b t si so sta) by (unfold sta; destruct (hj_scanStarted st); [done|by split]).
  pose proof (next_unmatched_spec (drop i t) i) as Hn. destruct (next_unmatched (drop i t) i) as [found i'] eqn:En.
  assert (Hscan : ScanUnmatched plan st = (match found with Some inner => t ← EmitNullOuterRow plan inner; mret (Some t) | None => mret None end) (with_scan i' true sta)).
  { unfold ScanUnmatched. rewrite (bind_ret_run (modify _) _ st tt sta) by done. rewrite (bind_ret_run get _ sta sta sta) by done.
    assert (Ht : hashtable (hj_HashState sta) = t) by by destruct Hpa. rewrite Hi, Ht, En. by rewrite (bind_ret_run (modify _) _ sta tt (with_scan i' true sta)). }
  destruct found as [s|].
  - destruct Hn as (k & -> & Hk & Hs & ->). rewrite length_drop in Hk. assert (Hfit : slot_fits d_i s).
    { unfold slots in Hs. apply list_elem_of_fmap in Hs as ([h e] & -> & Hin). rewrite Forall_forall in Pe. apply storable_fits, (Pe (h, e)).
      apply list_elem_of_lookup in Hin as [j Hj]. rewrite lookup_drop in Hj. by eapply list_elem_of_lookup_2. }
    set (stb := with_scan (i + S k) true sta). assert (Hpb : probing n b t si so stb) by (destruct Hpa; by split). destruct Hpb as [Qo Qi Qr Qt Qe Qn Qrg Qb Ql Qs1 Qs2].
    set (stc := with_result (inner_row plan d_o d_r s) (with_outer_slot (Make d_o) (with_innertuple s stb))).
    destruct (IH (i + S k)%nat stc) as (st0 & st1 & Hy & He & Hp1); [lia| |].
    { split_and!; [|by unfold stc, stb, sta; destruct (hj_scanStarted st)|done]. split; try done; [apply make_fits|apply row_fits]. }
    exists st0, st1. split_and!; [|done|done]. cbn [fmap list_fmap]. rewrite drop_drop. change (?x :: ?l) with ([x] ++ l). eapply yields_trans; [|done]. apply yields_row. intros f.
    unfold exec_step. rewrite (bind_ret_run get _ st st st) by done. rewrite H1. unfold mbind at 1, M_bind at 1. rewrite Hscan. fold stb.
    rewrite (bind_ret_run _ _ _ _ _ (emit_null_outer stb s Qr Qi Qo Hfit)). done.
  - exists st, (with_scan i' true sta). rewrite Hn. split_and!; [by intros out Ho| |destruct Hpa; by split]. intros f.
    unfold exec_step. rewrite (bind_ret_run get _ st st st) by done. rewrite H1. unfold mbind at 1, M_bind at 1. by rewrite Hscan.
Qed.

Lemma batch_end n b t si so st : at_fetch n b [] t si so st →
  batch_over n b t si so (if keeps_inner plan then inner_row plan d_o d_r <$> unmatched t else []) st.
Proof.
  intros Hf. assert (Hf0 : at_fetch n b [] t si so (need_new true st)).
  { destruct Hf as ([] & H1 & H2 & H3). split_and!; [by split|done|done|by destruct b]. }
  destruct (fetch_outer_run _ _ _ _ _ _ _ Hf0) as (st1 & Hfo & (Hp & H1 & H2 & H3) & _).
  assert (Ht : ∀ f, exec_step plan f st = (match jointype plan with kRight | kFull => modify (λ st, with_scan (hj_scanIter st) false (with_phase kScanUnmatched st));; mret Continue | _ => next_batch plan f end) st1).
  { intros f. rewrite (fetch_turn _ _ _ _ _ _ _ Hf). unfold next_outer. rewrite (bind_ret_run (modify _) _ st tt (need_new true st)) by done. by rewrite (bind_ret_run _ _ _ _ _ Hfo). }
  destruct (keeps_inner plan) eqn:Ek.
  - set (sts := with_scan (hj_scanIter st1) false (with_phase kScanUnmatched st1)).
    destruct (scan_run n b t si so (S (length t)) 0 sts) as (st0 & st2 & Hy & He & Hp2); [lia|destruct Hp; by split_and!|].
    exists st0, st2. split_and!; [|done|done]. change (inner_row plan d_o d_r <$> unmatched t) with ([] ++ (inner_row plan d_o d_r <$> unmatched t)). eapply yields_trans; [|done].
    apply yields_go. intros f. rewrite Ht. unfold keeps_inner in Ek. destruct (jointype plan); try done; by rewrite (bind_ret_run (modify _) _ st1 tt sts).
  - exists st, st1. split_and!; [by intros out Ho| |done]. intros f. rewrite Ht. unfold keeps_inner in Ek. by destruct (jointype plan).
Qed.

(** *** The next batch *)

Definition keyed (inners : list TupleTableSlot) : list TupleTableSlot := filter (λ i, null_key plan d_o d_i i = false) inners.

Lemma load_one_run st i l : table_of plan d_o d_i (hashtable (hj_HashState st)) l → storable d_i i →
  ∃ t, load_one plan i st = with_hash (with_table t (hj_HashState st)) st ∧ table_of plan d_o d_i t (l ++ keyed [i]).
Proof.
  intros Ht Hi. unfold load_one. rewrite (inner_keys_eq plan d_o d_i d_r Hplan). unfold keyed. rewrite filter_cons, filter_nil. destruct (null_key plan d_o d_i i) eqn:E.
  - exists (hashtable (hj_HashState st)). rewrite decide_False, app_nil_r by done. split; [|done]. destruct st as [[]]; done.
  - rewrite decide_True by done. rewrite (store_copy d_i) by done. eexists. split; [done|]. by apply insert_table.
Qed.

(** Only the table and the store of the batch change. *)
Definition loaded (k : nat) (st st' : HashJoinState) : Prop :=
  ∃ t s, st' = with_hash (with_table t (with_inner (<[k := s]> (inner_batches (hj_HashState st))) (hj_HashState st))) st.

Lemma get_inner_run k s l rest st : inner_batches (hj_HashState st) !! k = Some s → reading d_i l rest s →
  ∃ s', get_inner k st = (Ret (head rest), with_hash (with_inner (<[k := s']> (inner_batches (hj_HashState st))) (hj_HashState st)) st) ∧ reading d_i l (tail rest) s'.
Proof.
  intros Hs Hr. unfold get_inner. rewrite Hs. pose proof (get_reading d_i small_i l rest s Hr) as Hg. destruct rest as [|i rest]; destruct Hg as (s' & -> & Hr'); by exists s'.
Qed.

Lemma load_run k l rest : ∀ st s acc, inner_batches (hj_HashState st) !! k = Some s → reading d_i l rest s → Forall (storable d_i) rest →
  table_of plan d_o d_i (hashtable (hj_HashState st)) acc →
  ∃ st', (∀ f, (length rest < f)%nat → load_batch plan f k st = (Ret tt, st')) ∧ loaded k st st' ∧ table_of plan d_o d_i (hashtable (hj_HashState st')) (acc ++ keyed rest).
Proof.
  induction rest as [|i rest IH]; intros st s acc Hs Hr Hst Ht; destruct (get_inner_run k s l _ st Hs Hr) as (s' & Hg & Hr'); cbn [head tail] in *.
  - eexists. split; [|split].
    + intros [|f] Hf; [cbn in Hf; lia|]. cbn [load_batch]. by rewrite (bind_ret_run _ _ _ _ _ Hg).
    + exists (hashtable (hj_HashState st)), s'. done.
    + cbn. by rewrite app_nil_r.
  - apply Forall_cons in Hst as [Hi Hst]. set (st1 := with_hash _ st) in Hg. destruct (load_one_run st1 i acc Ht Hi) as (t1 & Hl1 & Ht1).
    set (st2 := with_hash (with_table t1 (hj_HashState st1)) st1) in *.
    assert (Hs2 : inner_batches (hj_HashState st2) !! k = Some s') by (cbn; apply list_lookup_insert_eq; by eapply lookup_lt_Some).
    destruct (IH st2 s' (acc ++ keyed [i]) Hs2 Hr' Hst Ht1) as (st' & Hf & (t & s2 & ->) & Htab). exists (with_hash (with_table t (with_inner (<[k := s2]> (inner_batches (hj_HashState st2))) (hj_HashState st2))) st2). split; [|split].
    + intros [|f] Hlen; [cbn in Hlen; lia|]. cbn [load_batch]. rewrite (bind_ret_run _ _ _ _ _ Hg). rewrite (bind_ret_run (modify _) _ st1 tt st2) by (unfold modify; by rewrite Hl1).
      apply Hf. cbn in Hlen. lia.
    + exists t, s2. cbn. by rewrite list_insert_insert_eq.
    + replace (acc ++ keyed (i :: rest)) with ((acc ++ keyed [i]) ++ keyed rest); [done|]. rewrite <- app_assoc. f_equal. symmetry. apply (filter_app _ [i] rest).
Qed.

Lemma done_batch n b t si so st : probing n b t si so st → n ≤ Z.of_nat (S b) →
  ∃ st', (∀ f, next_batch plan f st = (Ret Continue, st')) ∧ hj_phase st' = kDone.
Proof.
  intros [] Hn. exists (with_phase kDone (with_cur_batch (i32 (hj_cur_batch st + 1)) st)). split; [|done]. intros f. unfold next_batch, LoadNextBatch. rewrite bind_assoc_run.
  rewrite (bind_ret_run (modify _) _ st tt (with_cur_batch (i32 (hj_cur_batch st + 1)) st)) by done. set (st1 := with_cur_batch _ st). rewrite bind_assoc_run.
  rewrite (bind_ret_run get _ st1 st1 st1) by done. assert (Hle : (num_batches (hj_HashState st1) <=? hj_cur_batch st1) = true).
  { apply Z.leb_le. cbn. rewrite p_n0, p_batch0, i32_small by lia. lia. }
  by rewrite Hle.
Qed.

Lemma next_batch_run n b t si so st : probing n b t si so st → Z.of_nat (S b) < n → (length (si b) < fuel)%nat →
  ∃ t' st', (∀ f, (fuel ≤ f)%nat → next_batch plan f st = (Ret Continue, st')) ∧ at_fetch n (S b) (so b) t' si so st' ∧ table_of plan d_o d_i t' (keyed (si b)).
Proof.
  intros [] Hn Hlen. destruct (p_si0 b ltac:(lia) Hn) as (s & Hs & Hh). destruct (p_so0 b ltac:(lia) Hn) as (s_o & Hso & Hho).
  set (st1 := with_cur_batch (i32 (hj_cur_batch st + 1)) st). assert (Hcb : hj_cur_batch st1 = Z.of_nat (S b)) by (cbn; rewrite p_batch0, i32_small by lia; lia).
  set (st2 := with_hash (ClearHashTable (hj_HashState st1)) st1). set (st3 := with_hash (with_inner (alter Tuplestore.Rewind b (inner_batches (hj_HashState st2))) (hj_HashState st2)) st2).
  assert (Hs3 : inner_batches (hj_HashState st3) !! b = Some (Tuplestore.Rewind s)) by (cbn; by rewrite list_lookup_alter_eq, Hs).
  assert (Hstor : Forall (storable d_i) (si b)) by apply Hh.
  destruct (load_run b (si b) (si b) st3 (Tuplestore.Rewind s) [] Hs3 (rewind_holds d_i _ s Hh) Hstor) as (st4 & Hload & (t4 & s4 & E4) & Ht4); [by repeat constructor|].
  set (st5 := with_hash (with_outer (alter Tuplestore.Rewind b (outer_batches (hj_HashState st4))) (hj_HashState st4)) st4).
  set (st6 := with_scan (hj_scanIter st5) false (with_bucket (hj_curBucket st5) false (need_new true st5))).
  exists t4, (with_phase kProbeHashTable st6). assert (Htab : hashtable (hj_HashState st4) = t4) by by rewrite E4. rewrite Htab in Ht4. split; [|split; [|done]].
  - intros f Hf. unfold next_batch, LoadNextBatch. rewrite bind_assoc_run. rewrite (bind_ret_run (modify _) _ st tt st1) by done. rewrite bind_assoc_run. rewrite (bind_ret_run get _ st1 st1 st1) by done.
    assert (Hle : (num_batches (hj_HashState st1) <=? hj_cur_batch st1) = false) by (apply Z.leb_gt; rewrite Hcb; cbn; by rewrite p_n0). rewrite Hle, Hcb.
    replace (Z.to_nat (Z.of_nat (S b) - 1)) with b by lia. rewrite bind_assoc_run. rewrite (bind_ret_run (modify _) _ st1 tt st2) by done. rewrite bind_assoc_run. rewrite (bind_ret_run (modify _) _ st2 tt st3) by done.
    rewrite bind_assoc_run. rewrite (bind_ret_run _ _ st3 tt st4) by (apply Hload; lia). rewrite bind_assoc_run. rewrite (bind_ret_run (modify _) _ st4 tt st5) by done.
    rewrite bind_assoc_run. rewrite (bind_ret_run (modify _) _ st5 tt st6) by done. done.
  - subst st4. split_and!; [|done|done|].
    + split; try done; try lia.
      * by destruct Ht4.
      * intros k Hk1 Hk2. destruct (p_si0 k ltac:(lia) Hk2) as (s' & Hs' & Hh'). exists s'. split; [|done]. cbn. by rewrite list_lookup_insert_ne, list_lookup_alter_ne by lia.
      * intros k Hk1 Hk2. destruct (p_so0 k ltac:(lia) Hk2) as (s' & Hs' & Hh'). exists s'. split; [|done]. cbn. by rewrite list_lookup_alter_ne by lia.
    + exists (Tuplestore.Rewind s_o), (so b). split; [|by apply rewind_holds]. cbn. by rewrite list_lookup_alter_eq, Hso.
Qed.

(** *** The rows of a batch *)

(** An entry after outer tuple [o] has been through its bucket. *)
Definition touch (o : TupleTableSlot) (he : Z * HashEntry) : Z * HashEntry :=
  if same_hash plan d_o d_i o (slot he.2) then (he.1, mkEntry (slot he.2) (hashkey he.2) (keynull he.2) true) else he.

Lemma mark_outer_touch n b o t : Forall (entry_ok plan d_o d_i) t → Forall (λ he, batch n he.1 = Z.of_nat b) t → mark_outer n b t o = touch o <$> t.
Proof.
  intros He Hb. unfold mark_outer. destruct (outer_hash plan d_i o) as [h|] eqn:E.
  - assert (Htouch : ∀ he, he ∈ t → touch o he = if he.1 =? h then (he.1, mkEntry (slot he.2) (hashkey he.2) (keynull he.2) true) else he).
    { intros he Hin. rewrite Forall_forall in He. unfold touch, same_hash. rewrite E. rewrite <- (proj1 (He he Hin)). destruct (he.1 =? h) eqn:Eh; to_prop.
      - by rewrite bool_decide_eq_true_2 by congruence.
      - by rewrite bool_decide_eq_false_2 by congruence. }
    destruct (batch n h =? Z.of_nat b) eqn:Ebt; to_prop.
    + unfold mark_hash. apply list_fmap_ext. intros i he Hi. symmetry. apply Htouch. by eapply list_elem_of_lookup_2.
    + rewrite <- (list_fmap_id t) at 1. apply list_fmap_ext. intros i he Hi. apply list_elem_of_lookup_2 in Hi. rewrite (Htouch he Hi), (proj2 (Z.eqb_neq _ _)); [done|].
      intros <-. rewrite Forall_forall in Hb. by apply Ebt, Hb.
  - rewrite <- (list_fmap_id t) at 1. apply list_fmap_ext. intros i he Hi. unfold touch, same_hash. by rewrite E, bool_decide_eq_false_2.
Qed.

Lemma touch_same o he : (touch o he).1 = he.1 ∧ slot (touch o he).2 = slot he.2.
Proof. unfold touch. by destruct (same_hash _ _ _ _ _). Qed.

Lemma mark_outers_touch n b os : ∀ t, Forall (entry_ok plan d_o d_i) t → Forall (λ he, batch n he.1 = Z.of_nat b) t →
  foldl (mark_outer n b) t os = (λ he, foldl (λ he o, touch o he) he os) <$> t.
Proof.
  induction os as [|o os IH]; intros t He Hb; cbn [foldl]; [symmetry; apply list_fmap_id|]. rewrite mark_outer_touch by done. rewrite IH.
  - by rewrite <- list_fmap_compose.
  - apply Forall_fmap. eapply Forall_impl; [exact He|]. intros he [H1 H2]. destruct (touch_same o he) as [E1 E2]. unfold entry_ok, compose. by rewrite E1, E2.
  - apply Forall_fmap. eapply Forall_impl; [exact Hb|]. intros he H1. unfold compose. by rewrite (proj1 (touch_same o he)).
Qed.

Lemma touched os : ∀ he, slot (foldl (λ he o, touch o he) he os).2 = slot he.2 ∧
  matched (foldl (λ he o, touch o he) he os).2 = matched he.2 || existsb (λ o, same_hash plan d_o d_i o (slot he.2)) os.
Proof.
  induction os as [|o os IH]; intros he; cbn [foldl existsb]; [by rewrite orb_false_r|]. destruct (IH (touch o he)) as [-> ->]. rewrite (proj2 (touch_same o he)). split; [done|].
  unfold touch. destruct (same_hash _ _ _ _ _); cbn; [by rewrite orb_true_r|done].
Qed.

(** Inner tuples whose hash no outer tuple has. *)
Definition unpaired (os inners : list TupleTableSlot) : list TupleTableSlot := filter (λ i, existsb (λ o, same_hash plan d_o d_i o i) os = false) inners.

Lemma unmatched_marked n b os t : Forall (entry_ok plan d_o d_i) t → Forall (λ he, batch n he.1 = Z.of_nat b) t → Forall fresh t →
  unmatched (foldl (mark_outer n b) t os) = unpaired os (slots t).
Proof.
  intros He Hb Hf. rewrite (mark_outers_touch n b) by done. clear He Hb. unfold unmatched, unpaired. induction Hf as [|he t Hfr Hf IH]; [done|].
  change (slots (he :: t)) with (slot he.2 :: slots t). cbn [fmap list_fmap]. rewrite !filter_cons. destruct (touched os he) as [E1 E2]. rewrite Hfr in E2. cbn [orb] in E2.
  destruct (existsb _ os) eqn:Ex in *.
  - rewrite !decide_False by congruence. done.
  - rewrite !decide_True by done. cbn [slots fmap list_fmap]. rewrite E1. f_equal. exact IH.
Qed.

Definition batch_rows (n : Z) (b : nat) (os inners : list TupleTableSlot) : list TupleTableSlot :=
  (os ≫= own_rows n b inners) ++ (if keeps_inner plan then inner_row plan d_o d_r <$> unpaired os inners else []).

Lemma batch_rows_perm n b os l1 l2 : l1 ≡ₚ l2 → batch_rows n b os l1 ≡ₚ batch_rows n b os l2.
Proof.
  intros Hp. unfold batch_rows. apply Permutation_app.
  - apply bind_perm; [|done]. intros o _. unfold own_rows. destruct (decide _); [|done]. apply (rows_with_perm plan d_i d_r Hplan). by rewrite Hp.
  - destruct (keeps_inner plan); [|done]. unfold unpaired. by rewrite Hp.
Qed.

(** A whole batch: its rows, up to order. *)
Lemma batch_run n b os t si so st inners : at_fetch n b os t si so st → table_of plan d_o d_i t inners → Forall (λ i, batch n (inner_hash plan d_o d_i i) = Z.of_nat b) inners →
  Forall (storable d_o) os → (b ≠ 0%nat → Forall (λ o, outer_batch n o = Some (Z.of_nat b)) os) →
  ∃ t' rows, batch_over n b t' si (λ k, so k ++ spilled n k os) rows st ∧ rows ≡ₚ batch_rows n b os inners.
Proof.
  intros Hf (T1 & T2 & T3) Hin Hos Hb. destruct (outers_run n b os si t so st Hf Hos Hb) as (t' & st' & Hy & Hf' & Hs & Hm).
  destruct (batch_end _ _ _ _ _ _ Hf') as (st0 & st1 & Hy2 & He & Hp). eexists t', _. split.
  - exists st0, st1. split; [eapply yields_trans; [exact Hy|exact Hy2]|done].
  - rewrite <- (batch_rows_perm n b os (slots t) inners) by done. unfold batch_rows. apply Permutation_app; [done|]. destruct (keeps_inner plan) eqn:Ek; [|done].
    rewrite Hm by done. rewrite (unmatched_marked n b); try done. apply Forall_forall. intros he Hhe. rewrite Forall_forall in T1. rewrite (proj1 (T1 he Hhe)).
    rewrite Forall_forall in Hin. apply Hin. rewrite <- T3. unfold slots. apply list_elem_of_fmap. by exists he.
Qed.

(** The batches from [b] on, once their outer tuples are in the stores. *)
Definition later_rows (n : Z) (si so : nat → list TupleTableSlot) (b : nat) (m : nat) : list TupleTableSlot :=
  concat ((λ k, batch_rows n (S k) (so k) (keyed (si k))) <$> seq b m).

Lemma later_run n si so m : ∀ b t rows st, Z.of_nat b + Z.of_nat m + 1 = n → batch_over n b t si so rows st →
  (∀ k, (b ≤ k)%nat → (length (si k) < fuel)%nat ∧ Forall (λ i, batch n (inner_hash plan d_o d_i i) = Z.of_nat (S k)) (si k) ∧
     Forall (storable d_o) (so k) ∧ Forall (λ o, outer_batch n o = Some (Z.of_nat (S k))) (so k)) →
  ∃ out, runs st (rows ++ out) ∧ out ≡ₚ later_rows n si so b m.
Proof.
  induction m as [|m IH]; intros b t rows st Hm (st0 & st1 & Hy & He & Hp) Hk.
  - destruct (done_batch n b t si so st1 Hp) as (st2 & Hd & Hph); [lia|]. exists []. split; [|done]. apply Hy. eapply runs_go; [intros f _; rewrite He; apply Hd|].
    apply (runs_end st2 st2). intros f _. unfold exec_step. rewrite (bind_ret_run get _ st2 st2 st2) by done. by rewrite Hph.
  - destruct (Hk b) as (K1 & K2 & K3 & K4); [done|]. destruct (next_batch_run n b t si so st1 Hp) as (t2 & st2 & Hn & Hf & Ht2); [lia|done|].
    assert (Hkey : Forall (λ i, batch n (inner_hash plan d_o d_i i) = Z.of_nat (S b)) (keyed (si b))) by by apply keep_forall.
    destruct (batch_run n (S b) (so b) t2 si so st2 _ Hf Ht2 Hkey K3) as (t3 & rows2 & Hover & Hrows); [done|].
    assert (Hover' : batch_over n (S b) t3 si so rows2 st2).
    { destruct Hover as (s0 & s1 & O1 & O2 & O3). exists s0, s1. split_and!; [done|done|]. eapply probing_so_from; [|done]. intros k Hkb. cbn beta.
      assert (spilled n k (so b) = []) as ->; [|by rewrite app_nil_r]. unfold spilled. clear -K4 Hkb. induction K4 as [|o l Ho Hl IHl]; [done|]. rewrite filter_cons, decide_False; [done|].
      rewrite Ho. intros [=]. lia. }
    destruct (IH (S b) t3 rows2 st2) as (out & Hr & Hout); [lia|done|intros k Hkb; apply Hk; lia|].
    exists (rows2 ++ out). split.
    + apply Hy. eapply runs_go; [|done]. intros f Hfl. rewrite He. by apply Hn.
    + unfold later_rows. cbn [seq fmap list_fmap concat]. by rewrite Hrows, Hout.
Qed.

End run.
End HashJoinRun.
