(* ===== verification/HashJoinTotal.v ===== *)
(** * Every batch together

    Calling [ExecProcNode] until it returns nothing ends, and returns the rows
    of the join, whatever the memory and so the number of batches. *)

From stdpp Require Import base list strings.
From S2P Require Import Prelude HeapForm TupleTape Tuplesort TupleOrder RowOrder Tuplestore TuplestoreSpec HashJoin HashJoinSpec HashJoinBuild HashJoinRun.

Module HashJoinTotal.
Import HeapForm TupleTape Tuplestore TuplestoreSpec HashJoin HashJoinSpec HashJoinBuild HashJoinRun.

Section total.
Context `{HE : Expressions} `{HM : StdMultimap} `{HL : !MultimapLaws} `{HH : Heap} `{HP : Tuplesort.Process} (plan : HashJoin) (d_o d_i d_r : TupleDescData).

(** All calls until there is no row, each with [fuel]. *)
Fixpoint collect (fuel n : nat) : M HashJoinState (list TupleTableSlot) :=
  match n with
  | O => ereport "out of fuel"
  | S n' => o ← ExecProcNode plan fuel; match o with None => mret [] | Some s => l ← collect fuel n'; mret (s :: l) end
  end.

Lemma runs_collect fuel st out : runs plan fuel st out →
  ∃ m, ∀ f g n, (fuel ≤ f)%nat → (m ≤ f)%nat → (m ≤ g)%nat → (m ≤ n)%nat →
    ∃ st', (o ← ExecProcNode_loop plan f g; match o with None => mret [] | Some s => l ← collect f n; mret (s :: l) end) st = (Ret out, st').
Proof.
  induction 1 as [st st' He|st st' s out He Hr (m & IH)|st st' out He Hr (m & IH)].
  - exists 1%nat. intros f [|g] n Hf H1 H2 H3; [lia|]. exists st'. cbn [ExecProcNode_loop]. rewrite bind_assoc_run. by rewrite (bind_ret_run _ _ _ _ _ (He f Hf)).
  - exists (S m). intros f [|g] [|n] Hf H1 H2 H3; [lia|lia|lia|]. destruct (IH f f n Hf) as (st2 & Hst2); [lia..|]. exists st2.
    cbn [ExecProcNode_loop]. rewrite bind_assoc_run. rewrite (bind_ret_run _ _ _ _ _ (He f Hf)). cbn [collect]. unfold ExecProcNode.
    rewrite (bind_ret_run (mret (Some s)) _ st' (Some s) st') by done. by rewrite (bind_ret_run _ _ _ _ _ Hst2).
  - exists (S m). intros f [|g] n Hf H1 H2 H3; [lia|]. destruct (IH f g n Hf) as (st2 & Hst2); [lia..|]. exists st2.
    cbn [ExecProcNode_loop]. rewrite bind_assoc_run. by rewrite (bind_ret_run _ _ _ _ _ (He f Hf)).
Qed.

Context (Hplan : plan_ok plan d_r) (small_o : Z.of_nat (length (attrs d_o)) < 2 ^ 31) (small_i : Z.of_nat (length (attrs d_i)) < 2 ^ 31).

(** A join that is about to build: after [ExecInit], or [ExecReScan]. *)
Definition ready (outers inners : list TupleTableSlot) (st : HashJoinState) : Prop :=
  built plan d_o d_i (hj_HashState st) [] ∧ hj_phase st = kBuildHashTable ∧ hj_hasBucket st = false ∧ slot_fits d_o (hj_OuterTupleSlot st) ∧
  slot_fits d_i (innertuple st) ∧ slot_fits d_r (ps_ResultTupleSlot st) ∧ left_child st = outers ∧ right_child st = inners.

Lemma init_ready mem dir outers inners : ready outers inners (ExecInit d_o d_i d_i d_r mem dir outers inners).
Proof. split; [by apply empty_built|]. split_and!; try done; apply make_fits. Qed.

(** Which list each store holds. *)
Lemma stores_choose d b c n : stores d b c n → ∃ f, ∀ k s, b !! k = Some s → holds d (f k) s ∧ f k ≡ₚ c k.
Proof.
  intros [_ Hs]. revert c Hs. induction b as [|s b IH]; intros c Hs; [by exists (λ _, [])|].
  destruct (IH (λ k, c (S k))) as (f & Hf); [by intros k; apply (Hs (S k))|]. destruct (Hs 0%nat s eq_refl) as (l & Hl & Hp).
  exists (λ k, match k with O => l | S k' => f k' end). intros [|k] s' Hk; [by injection Hk as <-|]. by apply Hf.
Qed.

Lemma built_fetch st hs outers inners : ready outers inners st → built plan d_o d_i hs inners →
  let st1 := with_cur_batch 0 (need_new true (with_phase kProbeHashTable (with_children (left_child st) [] (with_hash hs st)))) in
  ∃ si, at_fetch plan d_o d_i d_r (num_batches hs) 0 outers (hashtable hs) si (λ _, []) st1 ∧
    ∀ k, Z.of_nat (S k) < num_batches hs → si k ≡ₚ filter (in_batch plan d_o d_i (num_batches hs) (Z.of_nat (S k))) inners.
Proof.
  intros (_ & R1 & R2 & R3 & R4 & R5 & R6 & R7) ((D1 & D2 & Hn) & (T1 & T2 & T3) & Hin & Hout) st1.
  destruct (stores_choose _ _ _ _ Hin) as (si & Hsi). exists si. pose proof Hin as [Li _]. pose proof Hout as [Lo Hso].
  split.
  - split_and!; [|done|done|done]. split; try done; try lia.
    + intros k _ Hk. destruct (lookup_lt_is_Some_2 (inner_batches hs) k) as [s Hs]; [lia|]. exists s. split; [done|]. by apply Hsi.
    + intros k _ Hk. destruct (lookup_lt_is_Some_2 (outer_batches hs) k) as [s Hs]; [lia|]. exists s. split; [done|].
      destruct (Hso k s Hs) as (l & Hl & Hp). apply Permutation_nil_r in Hp as ->. done.
  - intros k Hk. destruct (lookup_lt_is_Some_2 (inner_batches hs) k) as [s Hs]; [lia|]. by apply (Hsi k s).
Qed.

(** All rows, batch by batch. *)
Definition all_batches (n : Z) (outers inners : list TupleTableSlot) : list TupleTableSlot :=
  batch_rows plan d_o d_i d_r n 0 outers (filter (in_batch plan d_o d_i n 0) inners) ++
  concat ((λ k, batch_rows plan d_o d_i d_r n (S k) (spilled plan d_i n k outers) (keyed plan d_o d_i (filter (in_batch plan d_o d_i n (Z.of_nat (S k))) inners))) <$> seq 0 (Z.to_nat (n - 1))).

Lemma concat_perm {A} (f g : nat → list A) ks : (∀ k, k ∈ ks → f k ≡ₚ g k) → concat (f <$> ks) ≡ₚ concat (g <$> ks).
Proof. induction ks as [|k ks IH]; intros H; [done|]. cbn. rewrite (H k) by by left. f_equiv. apply IH. intros j Hj. apply H. by right. Qed.

Lemma run_ready st outers inners : ready outers inners st → Forall (storable d_o) outers → Forall (storable d_i) inners →
  ∃ n out, 1 ≤ n ≤ 1024 ∧ runs plan (S (length inners)) st out ∧ out ≡ₚ all_batches n outers inners.
Proof.
  intros Hr Ho Hi. pose proof Hr as (B & R1 & R2 & R3 & R4 & R5 & R6 & R7). destruct (build_built plan d_o d_i d_r Hplan st B) as (hs & Hb & Hbuilt); [by rewrite R7|]. rewrite R7 in Hbuilt.
  destruct (built_fetch st hs outers inners Hr Hbuilt) as (si & Hf & Hsi). set (st1 := with_cur_batch 0 _) in *. set (n := num_batches hs) in *.
  pose proof Hbuilt as ((_ & _ & Hn) & Ht & _). fold n in Hn, Ht.
  destruct (batch_run plan d_o d_i d_r Hplan small_o (S (length inners)) n 0 outers (hashtable hs) si (λ _, []) st1 _ Hf Ht) as (t' & rows & Hover & Hrows); [|done|done|].
  { apply Forall_forall. by intros i [Hb0 _]%list_elem_of_filter. }
  set (m := Z.to_nat (n - 1)).
  destruct (later_run plan d_o d_i d_r Hplan small_o small_i (S (length inners)) n (λ k, if decide (k < m)%nat then si k else []) (λ k, [] ++ spilled plan d_i n k outers) m 0 t' rows st1) as (out & Hruns & Hout).
  { lia. }
  { destruct Hover as (s0 & s1 & O1 & O2 & O3). exists s0, s1. split_and!; [done|done|]. destruct O3. split; try done. intros k Hk1 Hk2. rewrite decide_True by lia. by apply p_si0. }
  { intros k _. split; [|split; [|split]].
    - destruct (decide _); [|cbn; lia]. rewrite (Hsi k) by lia. pose proof (length_filter (in_batch plan d_o d_i n (Z.of_nat (S k))) inners). lia.
    - destruct (decide _); [|done]. rewrite (Hsi k) by lia. apply Forall_forall. by intros i [Hb0 _]%list_elem_of_filter.
    - by apply keep_forall.
    - apply Forall_forall. by intros o [Hb0 _]%list_elem_of_filter. }
  exists n, (rows ++ out). split; [done|]. split.
  - eapply runs_go; [|exact Hruns]. intros f _. unfold exec_step. rewrite (bind_ret_run get _ st st st) by done. rewrite R1.
    rewrite (bind_ret_run (modify _) _ st tt (with_children (left_child st) [] (with_hash hs st))) by (unfold modify; by rewrite Hb).
    by rewrite (bind_ret_run (modify _) _ (with_children (left_child st) [] (with_hash hs st)) tt st1).
  - unfold all_batches. rewrite Hrows, Hout. f_equiv. unfold later_rows. apply concat_perm. intros k Hk%elem_of_seq. apply (batch_rows_perm plan d_o d_i d_r Hplan).
    rewrite decide_True by lia. unfold keyed. by rewrite (Hsi k) by lia.
Qed.

(** ** The batches are the join *)

Lemma filter_inside {A} (P Q : A → Prop) `{!∀ x, Decision (P x), !∀ x, Decision (Q x)} (l : list A) : (∀ x, x ∈ l → P x → Q x) → filter P (filter Q l) = filter P l.
Proof.
  induction l as [|x l IH]; intros Himp; [done|]. assert (IH' : filter P (filter Q l) = filter P l) by (apply IH; intros y Hy; apply Himp; by right).
  rewrite !filter_cons. destruct (decide (Q x)) as [Hq|Hq].
  - rewrite filter_cons. by rewrite IH'.
  - rewrite (decide_False (P := P x)); [done|]. intros Hp. apply Hq, Himp; [by left|done].
Qed.

Lemma filter_ext {A} (P Q : A → Prop) `{!∀ x, Decision (P x), !∀ x, Decision (Q x)} (l : list A) : (∀ x, x ∈ l → P x ↔ Q x) → filter P l = filter Q l.
Proof. apply filter_same. Qed.

Lemma concat_app_perm {A} (f g : nat → list A) ks : concat ((λ k, f k ++ g k) <$> ks) ≡ₚ concat (f <$> ks) ++ concat (g <$> ks).
Proof. induction ks as [|k ks IH]; [done|]. cbn. rewrite IH. rewrite <- !app_assoc. f_equiv. rewrite !app_assoc. f_equiv. apply Permutation_app_comm. Qed.

Lemma concat_bind {A B} (f : A → list B) (parts : nat → list A) ks : concat ((λ k, parts k ≫= f) <$> ks) = concat (parts <$> ks) ≫= f.
Proof. induction ks as [|k ks IH]; [done|]. cbn. by rewrite IH, bind_app. Qed.

Lemma concat_select {A B} (f : A → B) (P : A → Prop) `{!∀ x, Decision (P x)} (parts : nat → list A) ks :
  concat ((λ k, f <$> filter P (parts k)) <$> ks) = f <$> filter P (concat (parts <$> ks)).
Proof. induction ks as [|k ks IH]; [done|]. cbn [fmap list_fmap concat]. by rewrite filter_app, fmap_app, IH. Qed.

Section combine.
Context (n : Z) (Hn : 1 ≤ n ≤ 1024) (outers inners : list TupleTableSlot).
Hypothesis null_keys : ∀ o i, o ∈ outers → i ∈ inners → null_key plan d_o d_i i = true → pairs plan d_o d_i o i = false.
Hypothesis kept : keeps_inner plan = true → (∀ i, i ∈ inners → null_key plan d_o d_i i = false) ∧
  ∀ o i, o ∈ outers → i ∈ inners → same_hash plan d_o d_i o i = true → passes plan o i = true.

Definition owner (o : TupleTableSlot) : nat := match outer_batch plan d_i n o with None => 0%nat | Some z => Z.to_nat z end.
Definition home (i : TupleTableSlot) : nat := Z.to_nat (batch n (inner_hash plan d_o d_i i)).

Lemma owner_range o : (owner o < Z.to_nat n)%nat.
Proof. unfold owner, outer_batch. destruct (outer_hash plan d_i o) as [h|]; cbn; [pose proof (batch_range n h Hn)|]; lia. Qed.
Lemma home_range i : (home i < Z.to_nat n)%nat.
Proof. unfold home. pose proof (batch_range n (inner_hash plan d_o d_i i) Hn). lia. Qed.

Lemma same_hash_home o i : same_hash plan d_o d_i o i = true → owner o = home i.
Proof. unfold same_hash, owner, outer_batch. intros H. apply bool_decide_eq_true in H. by rewrite H. Qed.

Definition all_rows (o : TupleTableSlot) : list TupleTableSlot := rows_with plan d_i d_r o (filter (λ i, pairs plan d_o d_i o i = true) inners).
Definition lonely (i : TupleTableSlot) : Prop := existsb (λ o, same_hash plan d_o d_i o i) outers = false.

Lemma in_batch_home b i : in_batch plan d_o d_i n (Z.of_nat b) i ↔ home i = b.
Proof. unfold in_batch, home. pose proof (batch_range n (inner_hash plan d_o d_i i) Hn). lia. Qed.

(** The inner tuples batch [b] is probed with have all partners of its outer tuples. *)
Lemma partners_in_batch b o : o ∈ outers → owner o = b →
  filter (λ i, pairs plan d_o d_i o i = true) (filter (in_batch plan d_o d_i n (Z.of_nat b)) inners) = filter (λ i, pairs plan d_o d_i o i = true) inners ∧
  filter (λ i, pairs plan d_o d_i o i = true) (keyed plan d_o d_i (filter (in_batch plan d_o d_i n (Z.of_nat b)) inners)) = filter (λ i, pairs plan d_o d_i o i = true) inners.
Proof.
  intros Ho Hb. assert (H1 : filter (λ i, pairs plan d_o d_i o i = true) (filter (in_batch plan d_o d_i n (Z.of_nat b)) inners) = filter (λ i, pairs plan d_o d_i o i = true) inners).
  { apply filter_inside. intros i Hi Hp. apply in_batch_home. unfold pairs in Hp. apply andb_true_iff in Hp as [Hp _]. rewrite <- Hb. symmetry. by apply same_hash_home. }
  split; [done|]. etrans; [|exact H1]. apply filter_inside. intros i [_ Hi]%list_elem_of_filter Hp. destruct (null_key plan d_o d_i i) eqn:E; [|done]. by rewrite null_keys in Hp.
Qed.

Lemma own_rows_mine b o : o ∈ outers → owner o = b → ∀ l, filter (λ i, pairs plan d_o d_i o i = true) l = filter (λ i, pairs plan d_o d_i o i = true) inners → own_rows plan d_o d_i d_r n b l o = all_rows o.
Proof.
  intros Ho Hb l Hl. unfold own_rows, all_rows. rewrite decide_True; [by rewrite Hl|]. unfold mine. revert Hb. unfold owner, outer_batch. destruct (outer_hash plan d_i o) as [h|]; cbn; [|by left].
  pose proof (batch_range n h Hn). intros <-. right. f_equal. lia.
Qed.

Lemma bind_filter {A B} (P : A → Prop) `{!∀ x, Decision (P x)} (f g : A → list B) (l : list A) : (∀ x, x ∈ l → P x → f x = g x) → (∀ x, x ∈ l → ¬ P x → f x = []) → (l ≫= f) = (filter P l ≫= g).
Proof.
  induction l as [|x l IH]; intros H1 H2; [done|]. rewrite filter_cons. cbn. rewrite IH; [|intros y Hy; apply H1; by right|intros y Hy; apply H2; by right].
  destruct (decide (P x)) as [Hp|Hp]; [cbn; rewrite (H1 x); [done|by left|done]|rewrite (H2 x); [done|by left|done]].
Qed.

Lemma lonely_kept (b : nat) l os : keeps_inner plan = true → (∀ i, i ∈ l → i ∈ inners ∧ home i = b) → (∀ o, o ∈ outers → owner o = b → o ∈ os) → (∀ o, o ∈ os → o ∈ outers) →
  unpaired plan d_o d_i os l = filter lonely l.
Proof.
  intros Hk Hl Hos Hos'. apply filter_ext. intros i Hi. destruct (Hl i Hi) as [Hin Hh]. unfold lonely. rewrite <- !not_true_iff_false, !existsb_exists.
  split; intros Hne (o & Ho & Hs); apply Hne; exists o; (split; [|done]); apply list_elem_of_In; apply list_elem_of_In in Ho; [|by apply Hos'].
  apply Hos; [done|]. by rewrite (same_hash_home o i Hs).
Qed.

Definition part_rows (b : nat) : list TupleTableSlot :=
  (filter (λ o, owner o = b) outers ≫= all_rows) ++ (if keeps_inner plan then inner_row plan d_o d_r <$> filter lonely (filter (λ i, home i = b) inners) else []).

Lemma first_part : batch_rows plan d_o d_i d_r n 0 outers (filter (in_batch plan d_o d_i n 0) inners) = part_rows 0.
Proof.
  unfold batch_rows, part_rows. f_equal.
  - apply bind_filter.
    + intros o Ho Hown. apply own_rows_mine; [done..|]. by apply (partners_in_batch 0).
    + intros o Ho Hown. unfold own_rows. rewrite decide_False; [done|]. unfold mine. revert Hown. unfold owner. destruct (outer_batch plan d_i n o) as [z|] eqn:E; [|done].
      intros Hz [|[=]]; [done|lia].
  - destruct (keeps_inner plan) eqn:Ek; [|done]. f_equal. rewrite (lonely_kept 0 _ outers); try done.
    + f_equal. apply filter_ext. intros i _. apply (in_batch_home 0).
    + intros i [Hb Hi]%list_elem_of_filter. split; [done|]. by apply (in_batch_home 0).
Qed.

Lemma spilled_owner k : spilled plan d_i n k outers = filter (λ o, owner o = S k) outers.
Proof.
  unfold spilled. apply filter_ext. intros o _. unfold owner, outer_batch. destruct (outer_hash plan d_i o) as [h|]; cbn; [|split; [done|lia]].
  pose proof (batch_range n h Hn). split; [intros [=]; lia|]. intros E. f_equal. lia.
Qed.

Lemma keyed_all (l : list TupleTableSlot) : (∀ i, i ∈ l → null_key plan d_o d_i i = false) → keyed plan d_o d_i l = l.
Proof.
  unfold keyed. induction l as [|i l IH]; intros Hl; [done|]. rewrite filter_cons, decide_True by (apply Hl; by left). f_equal. apply IH. intros j Hj. apply Hl. by right.
Qed.

Lemma later_part k : batch_rows plan d_o d_i d_r n (S k) (spilled plan d_i n k outers) (keyed plan d_o d_i (filter (in_batch plan d_o d_i n (Z.of_nat (S k))) inners)) = part_rows (S k).
Proof.
  unfold batch_rows, part_rows. rewrite spilled_owner. f_equal.
  - rewrite <- (filter_inside (λ o, owner o = S k) (λ o, owner o = S k)) at 2 by done. apply bind_filter; [|by intros o [Ho _]%list_elem_of_filter].
    intros o [_ Ho]%list_elem_of_filter Hown. apply own_rows_mine; [done..|]. by apply (partners_in_batch (S k)).
  - destruct (keeps_inner plan) eqn:Ek; [|done]. f_equal. destruct (kept eq_refl) as [Hnull _].
    assert (Hkey : keyed plan d_o d_i (filter (in_batch plan d_o d_i n (Z.of_nat (S k))) inners) = filter (λ i, home i = S k) inners).
    { rewrite keyed_all by (intros i [_ Hi]%list_elem_of_filter; by apply Hnull). apply filter_ext. intros i _. apply (in_batch_home (S k)). }
    rewrite Hkey. apply (lonely_kept (S k)); try done.
    + intros i [Hb Hi]%list_elem_of_filter. done.
    + intros o Ho Hown. apply list_elem_of_filter. done.
    + by intros o [_ Ho]%list_elem_of_filter.
Qed.

Lemma all_batches_join : all_batches n outers inners ≡ₚ join_rows plan d_o d_i d_r (pairs plan d_o d_i) outers inners.
Proof.
  unfold all_batches. rewrite first_part. assert (Hl : ∀ ks, concat ((λ k, batch_rows plan d_o d_i d_r n (S k) (spilled plan d_i n k outers) (keyed plan d_o d_i (filter (in_batch plan d_o d_i n (Z.of_nat (S k))) inners))) <$> ks) = concat (part_rows <$> (S <$> ks))).
  { induction ks as [|k ks IH]; [done|]. cbn [fmap list_fmap concat]. by rewrite later_part, IH. }
  rewrite Hl, fmap_S_seq. change (part_rows 0 ++ concat (part_rows <$> ?ks)) with (concat (part_rows <$> 0%nat :: ks)). replace (0%nat :: seq 1 (Z.to_nat (n - 1))) with (seq 0 (Z.to_nat n)) by (replace (Z.to_nat n) with (S (Z.to_nat (n - 1))) by lia; done).
  etrans; [apply (concat_app_perm (λ b, filter (λ o, owner o = b) outers ≫= all_rows))|]. unfold join_rows. apply Permutation_app.
  - rewrite concat_bind. apply bind_perm; [done|]. apply partition_by. intros o _. apply owner_range.
  - destruct (keeps_inner plan) eqn:Ek; [|by induction (seq 0 (Z.to_nat n))]. rewrite concat_select. rewrite (partition_by home) by (intros i _; apply home_range).
    destruct (kept eq_refl) as [_ Hpass]. rewrite (filter_ext lonely (λ i, existsb (λ o, pairs plan d_o d_i o i) outers = false)); [done|]. intros i Hi. unfold lonely.
    rewrite <- !not_true_iff_false, !existsb_exists. split; intros Hne (o & Ho & Hs); apply Hne; exists o; (split; [done|]).
    + unfold pairs in Hs. by apply andb_true_iff in Hs as [? _].
    + unfold pairs. rewrite Hs. cbn. apply Hpass; [by apply list_elem_of_In|done|done].
Qed.
End combine.
End total.

(** ** The join *)

(** ** Keys by value

    What an equality of keys means: each has a value, and it is the same. *)
Section keys.
Context `{Expressions} (plan : HashJoin) (d_o d_i d_r : TupleDescData).

Definition key_cell (key : Node) (v : Datum * bool) : option RowOrder.sql_value := if v.2 then None else RowOrder.read (GetExprType key) v.1.
Definition outer_cell (o : TupleTableSlot) (key : Node) : option RowOrder.sql_value := key_cell key (ExecEvalExpr key (mkContext o (Make d_i) o)).
Definition inner_cell (i : TupleTableSlot) (key : Node) : option RowOrder.sql_value := key_cell key (ExecEvalExpr key (inner_context d_o d_i i)).
Definition cells_equal (x y : option RowOrder.sql_value) : bool := match x, y with Some x, Some y => bool_decide (x = y) | _, _ => false end.
Definition keys_equal (o i : TupleTableSlot) : bool := forallb (λ clause, cells_equal (outer_cell o clause.1) (inner_cell i clause.2)) (hashclauses plan).
Definition joins (o i : TupleTableSlot) : bool := keys_equal o i && passes plan o i.

(** The rows of the join on equal keys and the qualification. *)
Definition reference_join (outers inners : list TupleTableSlot) : list TupleTableSlot :=
  (outers ≫= λ o, rows_with plan d_i d_r o (filter (λ i, joins o i = true) inners)) ++
  (if keeps_inner plan then inner_row plan d_o d_r <$> filter (λ i, existsb (λ o, joins o i) outers = false) inners else []).

(** The types whose hash depends on the value only. *)
Definition hash_type (ty : Z) : Prop := ty = Tuplesort.kInt4Oid ∨ ty = Tuplesort.kInt8Oid ∨ ty = Tuplesort.kTextOid.
Definition hash_of (x : RowOrder.sql_value) : Z := match x with RowOrder.SInt z => u64 z | RowOrder.SText s => fnv s end.

Lemma hash_value ty v x : hash_type ty → RowOrder.read ty v = Some x → HashDatum v ty = hash_of x.
Proof.
  unfold HashDatum. destruct v as [w|b]; cbn [RowOrder.read].
  - intros [-> |[-> | ->]]; cbn [Z.eqb Pos.eqb Tuplesort.kInt4Oid Tuplesort.kInt8Oid Tuplesort.kTextOid]; repeat (rewrite decide_True by (by left) || rewrite decide_False by (intros [?|?] || intros ?; done)); [..|done].
    + intros [= <-]. by rewrite RowOrder.signed_32.
    + intros [= <-]. by rewrite RowOrder.signed_64.
  - intros Hty. case_decide as Hd; [|done]. destruct Hd as [-> Hb]. intros [= <-]. cbn [Z.eqb Pos.eqb Tuplesort.kInt4Oid Tuplesort.kInt8Oid Tuplesort.kTextOid Tuplesort.kFloat8Oid DatumGetTextP].
    rewrite TupleOrder.vardata_length by done. rewrite Nat2Z.id, take_ge by done. done.
Qed.

Hypothesis types : Forall (λ clause, hash_type (GetExprType clause.1) ∧ hash_type (GetExprType clause.2)) (hashclauses plan).

(** Equal keys have equal hashes. *)
Lemma keys_equal_same_hash o i : keys_equal o i = true → same_hash plan d_o d_i o i = true.
Proof.
  unfold keys_equal, same_hash, outer_hash, inner_hash, hj_outer_hashkeys, hj_inner_hashkeys, build_hash. intros Hk. apply bool_decide_eq_true_2. revert types Hk. generalize 0 as h.
  induction (hashclauses plan) as [|[ko ki] l IH]; intros h Ht Hk; [done|]. apply Forall_cons in Ht as [[To Ti] Ht]. cbn in Hk. apply andb_true_iff in Hk as [Hc Hk]. cbn [fst snd fmap list_fmap hash_keys foldl] in *.
  revert Hc. unfold outer_cell, inner_cell, key_cell. destruct (ExecEvalExpr ko _) as [v []] eqn:Eo; [done|]. destruct (ExecEvalExpr ki _) as [w []] eqn:Ei; cbn [snd fst]; [by destruct (RowOrder.read _ _)|].
  destruct (RowOrder.read (GetExprType ko) v) as [x|] eqn:Rx; [|done]. destruct (RowOrder.read (GetExprType ki) w) as [y|] eqn:Ry; [|done]. intros ->%bool_decide_eq_true_1.
  rewrite (hash_value _ _ _ To Rx), (hash_value _ _ _ Ti Ry). by apply IH.
Qed.

Lemma keys_not_null i : (∀ key, key ∈ hj_inner_hashkeys plan → (ExecEvalExpr key (inner_context d_o d_i i)).2 = false) → null_key plan d_o d_i i = false.
Proof.
  unfold null_key. generalize 0 as h. induction (hj_inner_hashkeys plan) as [|key keys IH]; intros h Hn; [done|]. cbn [hash_keys]. pose proof (Hn key ltac:(by left)) as E.
  destruct (ExecEvalExpr key _) as [v null]. cbn in E. subst null. apply IH. intros k Hk. apply Hn. by right.
Qed.

Lemma null_key_unequal o i : null_key plan d_o d_i i = true → keys_equal o i = false.
Proof.
  clear types. unfold null_key, keys_equal, hj_inner_hashkeys. generalize 0 as h. induction (hashclauses plan) as [|[ko ki] l IH]; intros h Hn; [done|]. cbn [fst snd fmap list_fmap hash_keys forallb] in *.
  revert Hn. unfold inner_cell at 1, key_cell at 1. destruct (ExecEvalExpr ki _) as [w []]; cbn [snd fst]; intros Hn; [by destruct (outer_cell o ko)|]. rewrite (IH _ Hn). apply andb_false_r.
Qed.

Lemma reference_rows outers inners : (∀ o i, o ∈ outers → i ∈ inners → pairs plan d_o d_i o i = joins o i) →
  join_rows plan d_o d_i d_r (pairs plan d_o d_i) outers inners = reference_join outers inners.
Proof.
  intros E. unfold join_rows, reference_join. f_equal.
  - assert (Hb : ∀ os, (∀ o, o ∈ os → o ∈ outers) → (os ≫= λ o, rows_with plan d_i d_r o (filter (λ i, pairs plan d_o d_i o i = true) inners)) = os ≫= λ o, rows_with plan d_i d_r o (filter (λ i, joins o i = true) inners)); [|by apply Hb].
    induction os as [|o os IH]; intros Hin; [done|]. rewrite !bind_cons, IH by (intros x Hx; apply Hin; by right). f_equal. f_equal. apply filter_ext. intros i Hi. rewrite E; [done|apply Hin; by left|done].
  - destruct (keeps_inner plan); [|done]. f_equal. apply filter_ext. intros i Hi.
    assert (existsb (λ o, pairs plan d_o d_i o i) outers = existsb (λ o, joins o i) outers) as ->; [|done].
    assert (Hb : ∀ os, (∀ o, o ∈ os → o ∈ outers) → existsb (λ o, pairs plan d_o d_i o i) os = existsb (λ o, joins o i) os); [|by apply Hb].
    induction os as [|o os IH]; intros Hin; [done|]. cbn [existsb]. rewrite IH by (intros x Hx; apply Hin; by right). by rewrite E by (done || (apply Hin; by left)).
Qed.
End keys.

(** C3: a hash join returns exactly the rows of the join, and ends.  For every limit
    on memory, and so for every number of batches, inputs without values in null
    columns and a plan whose keys are over their own side, the calls of
    [ExecProcNode] return, up to order, the rows of the pairs whose keys have the
    same values and that pass the qualification, and the unmatched rows the join type
    asks for.  The keys are integers of four or eight bytes or texts, and no two
    different keys of the inputs have the same hash, since the node compares hashes
    only ([colliding_keys_are_joined]).  For right and full joins, moreover, no inner
    key is null ([spilled_null_key_row_lost]) and every pair with equal keys passes
    the qualification ([unqualified_partner_hides_row]). *)
Theorem hash_join_computes_join `{Expressions} `{StdMultimap} `{!MultimapLaws} `{Heap} `{Tuplesort.Process} plan d_o d_i d_r mem dir outers inners :
  plan_ok plan d_r → Z.of_nat (length (attrs d_o)) < 2 ^ 31 → Z.of_nat (length (attrs d_i)) < 2 ^ 31 → 0 < mem →
  Forall (storable d_o) outers → Forall (storable d_i) inners →
  Forall (λ clause, hash_type (GetExprType clause.1) ∧ hash_type (GetExprType clause.2)) (hashclauses plan) →
  (∀ o i, o ∈ outers → i ∈ inners → same_hash plan d_o d_i o i = true → keys_equal plan d_o d_i o i = true) →
  (keeps_inner plan = true →
     (∀ i key, i ∈ inners → key ∈ hj_inner_hashkeys plan → (ExecEvalExpr key (inner_context d_o d_i i)).2 = false) ∧
     ∀ o i, o ∈ outers → i ∈ inners → keys_equal plan d_o d_i o i = true → passes plan o i = true) →
  ∃ out m, out ≡ₚ reference_join plan d_o d_i d_r outers inners ∧
    ∀ fuel, (m ≤ fuel)%nat → ∃ st, collect plan fuel fuel (ExecInit d_o d_i d_i d_r mem dir outers inners) = (Ret out, st).
Proof.
  intros Hplan So Si _ Ho Hi Hty Hcol Hkept.
  assert (Hsame : ∀ o i, o ∈ outers → i ∈ inners → same_hash plan d_o d_i o i = keys_equal plan d_o d_i o i).
  { intros o i Hoo Hii. destruct (keys_equal plan d_o d_i o i) eqn:E; [by apply keys_equal_same_hash|]. apply not_true_is_false. intros Hs. rewrite (Hcol o i) in E; done. }
  destruct (run_ready plan d_o d_i d_r Hplan So Si (ExecInit d_o d_i d_i d_r mem dir outers inners) outers inners) as (n & out & Hn & Hr & Hout); [by apply init_ready|done|done|].
  destruct (runs_collect plan (S (length inners)) _ out Hr) as (m & Hm). exists out, (S (S (length inners) + m)). split.
  - rewrite <- reference_rows by (intros o i Hoo Hii; unfold pairs, joins; by rewrite Hsame). rewrite Hout. apply all_batches_join; [done..| |].
    + intros o i Hoo Hii Hnull. unfold pairs. rewrite Hsame by done. by rewrite null_key_unequal.
    + intros Hk. destruct (Hkept Hk) as [Hnn Hq]. split; [intros i Hii; apply keys_not_null; auto|]. intros o i Hoo Hii Hs. apply Hq; [done|done|]. by apply Hcol.
  - intros [|fuel] Hf; [lia|]. destruct (Hm (S fuel) (S fuel) fuel) as (st & Hst); [lia..|]. exists st. exact Hst.
Qed.

(** Rescanning starts the join over, whatever state it is in. *)
Theorem rescan_computes_join `{Expressions} `{StdMultimap} `{!MultimapLaws} `{Heap} `{Tuplesort.Process} plan d_o d_i d_r st outers inners :
  plan_ok plan d_r → Z.of_nat (length (attrs d_o)) < 2 ^ 31 → Z.of_nat (length (attrs d_i)) < 2 ^ 31 →
  tupdesc (hj_HashState st) = d_i → outer_tupdesc (hj_HashState st) = d_o → slot_fits d_o (hj_OuterTupleSlot st) → slot_fits d_i (innertuple st) → slot_fits d_r (ps_ResultTupleSlot st) →
  Forall (storable d_o) outers → Forall (storable d_i) inners →
  (∀ o i, o ∈ outers → i ∈ inners → null_key plan d_o d_i i = true → pairs plan d_o d_i o i = false) →
  (keeps_inner plan = true → (∀ i, i ∈ inners → null_key plan d_o d_i i = false) ∧
     ∀ o i, o ∈ outers → i ∈ inners → same_hash plan d_o d_i o i = true → passes plan o i = true) →
  ∃ out m, out ≡ₚ join_rows plan d_o d_i d_r (pairs plan d_o d_i) outers inners ∧
    ∀ fuel, (m ≤ fuel)%nat → ∃ st', collect plan fuel fuel (ExecReScan outers inners st) = (Ret out, st').
Proof.
  intros Hplan So Si D1 D2 F1 F2 F3 Ho Hi Hnull Hkept.
  destruct (run_ready plan d_o d_i d_r Hplan So Si (ExecReScan outers inners st) outers inners) as (n & out & Hn & Hr & Hout); [|done|done|].
  { split; [by apply empty_built|]. by split_and!. }
  destruct (runs_collect plan (S (length inners)) _ out Hr) as (m & Hm). exists out, (S (S (length inners) + m)). split.
  - rewrite Hout. by apply all_batches_join.
  - intros [|fuel] Hf; [lia|]. destruct (Hm (S fuel) (S fuel) fuel) as (st' & Hst); [lia..|]. exists st'. exact Hst.
Qed.

(** ** Joins on integer columns *)

Lemma combine_first x : combine 0 (u64 x) = u64 (x + 0x9e3779b9).
Proof.
  unfold combine, u64. rewrite Z.lxor_0_l, Z.shiftl_0_l, Z.shiftr_0_l, Zmod_0_l, !Z.add_0_r. rewrite Zplus_mod_idemp_l. by rewrite !Z.mod_mod.
Qed.

(** The hash of one integer key determines it, and is not that of no key. *)
Lemma int_hash_inj v w : combine 0 (HashDatum v Tuplesort.kInt4Oid) = combine 0 (HashDatum w Tuplesort.kInt4Oid) → Tuplesort.DatumGetInt32 v = Tuplesort.DatumGetInt32 w.
Proof.
  unfold HashDatum. cbn [Z.eqb Tuplesort.kInt4Oid Pos.eqb]. rewrite !combine_first. unfold Tuplesort.DatumGetInt32. pose proof (i32_range (word_of v)). pose proof (i32_range (word_of w)).
  rewrite !u64_small by lia. lia.
Qed.
Lemma int_hash_positive v : combine 0 (HashDatum v Tuplesort.kInt4Oid) ≠ 0.
Proof.
  unfold HashDatum. cbn [Z.eqb Tuplesort.kInt4Oid Pos.eqb]. rewrite combine_first. unfold Tuplesort.DatumGetInt32. pose proof (i32_range (word_of v)). rewrite u64_small by lia. lia.
Qed.

(** An equality of an integer column of each side, as the planner makes it:
    without a qualification. *)
Definition int_equijoin (jt : JoinType) (a b : Z) (tl : list Node) : HashJoin := mkPlan _ jt [(Var kScanVar a Tuplesort.kInt4Oid, Var kScanVar b Tuplesort.kInt4Oid)] None tl.

(** The column values are equal, and none is null. *)
Definition equal_columns (a b : Z) (o i : TupleTableSlot) : bool :=
  let '(v, vnull) := GetSlotAttr o a in
  let '(w, wnull) := GetSlotAttr i b in
  negb vnull && negb wnull && (Tuplesort.DatumGetInt32 v =? Tuplesort.DatumGetInt32 w).

Lemma int_same_hash jt a b tl d_o d_i o i : same_hash (int_equijoin jt a b tl) d_o d_i o i = equal_columns a b o i.
Proof.
  unfold same_hash, outer_hash, inner_hash, equal_columns. cbn. unfold build_hash. cbn. destruct (GetSlotAttr o a) as [v []], (GetSlotAttr i b) as [w []]; cbn [negb andb].
  - by apply bool_decide_eq_false_2.
  - by apply bool_decide_eq_false_2.
  - apply bool_decide_eq_false_2. intros Hz. by apply (int_hash_positive v); injection Hz.
  - destruct (_ =? _) eqn:E; to_prop.
    + apply bool_decide_eq_true_2. unfold HashDatum, GetExprType. cbn. by rewrite E.
    + apply bool_decide_eq_false_2. intros [=]. by apply E, int_hash_inj.
Qed.

(** C5: joining two integer columns by hashing is joining them by equality: the
    inner, left, semi- and anti-join return, up to order and for every limit
    on memory, the rows of the pairs with equal non-null columns and of the
    outer tuples without such a partner; null keys match nothing. *)
Theorem int_hash_join_exact `{StdMultimap} `{!MultimapLaws} `{Heap} `{Tuplesort.Process} jt a b tl d_o d_i d_r mem dir outers inners :
  let plan := int_equijoin jt a b tl in
  plan_ok plan d_r → Z.of_nat (length (attrs d_o)) < 2 ^ 31 → Z.of_nat (length (attrs d_i)) < 2 ^ 31 → 0 < mem →
  Forall (storable d_o) outers → Forall (storable d_i) inners → keeps_inner plan = false →
  ∃ out m, out ≡ₚ (outers ≫= λ o, rows_with plan d_i d_r o (filter (λ i, equal_columns a b o i = true) inners)) ∧
    ∀ fuel, (m ≤ fuel)%nat → ∃ st, collect plan fuel fuel (ExecInit d_o d_i d_i d_r mem dir outers inners) = (Ret out, st).
Proof.
  intros plan Hplan So Si _ Ho Hi Hk.
  assert (Hpairs : ∀ o i, pairs plan d_o d_i o i = equal_columns a b o i) by (intros o i; unfold pairs, plan; by rewrite int_same_hash, andb_true_r).
  destruct (run_ready plan d_o d_i d_r Hplan So Si (ExecInit d_o d_i d_i d_r mem dir outers inners) outers inners) as (n & out & Hn & Hr & Hout); [by apply init_ready|done|done|].
  destruct (runs_collect plan (S (length inners)) _ out Hr) as (m & Hm). exists out, (S (S (length inners) + m)). split.
  - rewrite Hout. etrans; [apply all_batches_join; [done..| |by rewrite Hk]|].
    + intros o i _ _ Hnull. rewrite Hpairs. unfold equal_columns. revert Hnull. unfold null_key. cbn. destruct (GetSlotAttr o a) as [v []], (GetSlotAttr i b) as [w []]; done.
    + unfold join_rows. rewrite Hk, app_nil_r. apply bind_perm; [|done]. intros o _. apply (rows_with_perm plan d_i d_r Hplan). rewrite (filter_ext (λ i, pairs plan d_o d_i o i = true) (λ i, equal_columns a b o i = true)); [done|].
      intros i _. by rewrite Hpairs.
  - intros [|fuel] Hf; [lia|]. destruct (Hm (S fuel) (S fuel) fuel) as (st & Hst); [lia..|]. exists st. exact Hst.
Qed.

(** ** Examples *)

#[export] Instance demo_heap : Heap := λ _ k, 4096 + Z.of_nat k.
Definition two_ints : TupleDescData := mkTupleDesc [mkAttr 4 true HeapForm.kInt kPlain; mkAttr 4 true HeapForm.kInt kPlain].
Definition ints (k v : Z) : TupleTableSlot := mkSlot two_ints [DVal k; DVal v] [false; false].
Definition key_only (k : Z) : TupleTableSlot := mkSlot two_ints [DVal k; DVal 0] [false; true].
Definition values : list Node := [Var kOuterVar 2 Tuplesort.kInt4Oid; Var kInnerVar 2 Tuplesort.kInt4Oid].

Lemma ints_storable k v : 0 ≤ k < 2 ^ 32 → 0 ≤ v < 2 ^ 32 → storable two_ints (ints k v).
Proof.
  intros Hk Hv. split; [|done]. split_and!; [done|done|done|]. intros [|[|j]] a [= <-] _; (split; [by right; right; left|]); [by exists k|by exists v].
Qed.

Lemma equijoin_ok jt : jt ≠ kSemi → plan_ok (int_equijoin jt 1 1 values) two_ints.
Proof.
  intros Hjt. split; [| |done|done].
  - intros key o i i' Hk. cbn in Hk. apply list_elem_of_singleton in Hk as ->. done.
  - intros key o o' i i' s Hk. cbn in Hk. apply list_elem_of_singleton in Hk as ->. done.
Qed.

Definition demo_outers : list TupleTableSlot := [ints 1 10; ints 2 20; ints 5 50].
Definition demo_inners : list TupleTableSlot := [ints 1 100; ints 2 200; ints 1 101; ints 4 400].
Lemma demo_outers_storable : Forall (storable two_ints) demo_outers.
Proof. repeat (apply Forall_cons; split); try apply Forall_nil_2; by apply ints_storable. Qed.
Lemma demo_inners_storable : Forall (storable two_ints) demo_inners.
Proof. repeat (apply Forall_cons; split); try apply Forall_nil_2; by apply ints_storable. Qed.

Definition demo_join (jt : JoinType) (mem : Z) : HashJoinState := ExecInit two_ints two_ints two_ints two_ints mem "/tmp" demo_outers demo_inners.

(** A left join in two batches. *)
Lemma int_hash_join_exact_witness :
  let plan := int_equijoin kLeft 1 1 values in
  num_batches (hj_HashState (BuildHashTable plan (demo_join kLeft 200))) = 2 ∧
  ∃ out m, out ≡ₚ [ints 10 100; ints 10 101; ints 20 200; key_only 50] ∧ ∀ fuel, (m ≤ fuel)%nat → ∃ st, collect plan fuel fuel (demo_join kLeft 200) = (Ret out, st).
Proof.
  intros plan. split; [by vm_compute|].
  destruct (int_hash_join_exact kLeft 1 1 values two_ints two_ints two_ints 200 "/tmp" demo_outers demo_inners) as (out & m & Hout & Hrun);
    [by apply equijoin_ok|done|done|done|apply demo_outers_storable|apply demo_inners_storable|done|].
  exists out, m. split; [|done]. rewrite Hout. by vm_compute.
Defined.

(** A full join in two batches, with an unmatched row on each side. *)
Lemma hash_join_computes_join_witness :
  let plan := int_equijoin kFull 1 1 values in
  ∃ out m, out ≡ₚ [ints 10 100; ints 10 101; ints 20 200; key_only 50; mkSlot two_ints [DVal 0; DVal 400] [true; false]] ∧
    ∀ fuel, (m ≤ fuel)%nat → ∃ st, collect plan fuel fuel (demo_join kFull 200) = (Ret out, st).
Proof.
  intros plan. assert (Hcol : Forall (λ o, Forall (λ i, same_hash plan two_ints two_ints o i = true → keys_equal plan two_ints two_ints o i = true) demo_inners) demo_outers).
  { repeat (apply Forall_cons; split); try apply Forall_nil_2; vm_compute; done. }
  assert (Hnull : Forall (λ i, Forall (λ key, (ExecEvalExpr key (inner_context two_ints two_ints i)).2 = false) (hj_inner_hashkeys plan)) demo_inners).
  { repeat (apply Forall_cons; split); try apply Forall_nil_2; by vm_compute. }
  rewrite Forall_forall in Hcol, Hnull. setoid_rewrite Forall_forall in Hcol. setoid_rewrite Forall_forall in Hnull.
  destruct (hash_join_computes_join plan two_ints two_ints two_ints 200 "/tmp" demo_outers demo_inners) as (out & m & Hout & Hrun);
    [by apply equijoin_ok|done|done|done|apply demo_outers_storable|apply demo_inners_storable|repeat constructor|intros o i Hoo; by apply Hcol|intros _; split; [intros i key Hii; by apply Hnull|done]|].
  exists out, m. split; [|done]. rewrite Hout. by vm_compute.
Defined.

(** ** Where it is not the join *)

Definition rows_of (plan : HashJoin) (mem : Z) (d : TupleDescData) (outers inners : list TupleTableSlot) : option (list TupleTableSlot) :=
  returned (collect plan 30 30 (ExecInit d d d two_ints mem "/tmp" outers inners)).1.

(** An entry is marked as matched before the qualification is evaluated: a
    right join loses an inner row whose only partner does not qualify. *)
Theorem unqualified_partner_hides_row :
  let plan := mkPlan _ kRight [(Var kScanVar 1 Tuplesort.kInt4Oid, Var kScanVar 1 Tuplesort.kInt4Oid)] (Some (Const (DVal 0) false)) values in
  rows_of plan 1000 two_ints [ints 1 10] [ints 1 100] = Some [] ∧
  join_rows plan two_ints two_ints two_ints (pairs plan two_ints two_ints) [ints 1 10] [ints 1 100] = [mkSlot two_ints [DVal 0; DVal 100] [true; false]].
Proof. by vm_compute. Qed.

(** An inner row with a null key that was spilled is dropped when its batch is
    loaded: a right join over two keys returns it or not depending on memory. *)
Theorem spilled_null_key_row_lost :
  let plan := mkPlan _ kRight [(Var kScanVar 1 Tuplesort.kInt4Oid, Var kScanVar 1 Tuplesort.kInt4Oid); (Var kScanVar 2 Tuplesort.kInt4Oid, Var kScanVar 2 Tuplesort.kInt4Oid)] None values in
  length <$> rows_of plan 1000 two_ints [] [key_only 2; key_only 4] = Some 2%nat ∧ length <$> rows_of plan 100 two_ints [] [key_only 2; key_only 4] = Some 0%nat.
Proof. by vm_compute. Qed.

(** The planner's hash joins have no qualification, and equal hashes are taken
    for equal keys: two rows with different pairs of keys are joined. *)
Definition two_longs : TupleDescData := mkTupleDesc [mkAttr 8 true HeapForm.kInt kPlain; mkAttr 8 true HeapForm.kInt kPlain].
Definition longs (k v : Z) : TupleTableSlot := mkSlot two_longs [DVal k; DVal v] [false; false].
Theorem colliding_keys_are_joined :
  let plan := mkPlan _ kInner [(Var kScanVar 1 Tuplesort.kInt8Oid, Var kScanVar 1 Tuplesort.kInt8Oid); (Var kScanVar 2 Tuplesort.kInt8Oid, Var kScanVar 2 Tuplesort.kInt8Oid)] None values in
  length <$> rows_of plan 1000 two_longs [longs 1 1] [longs 2 18446744073709551554] = Some 1%nat.
Proof. by vm_compute. Qed.

(** Zero and minus zero, which are equal, have different hashes. *)
Theorem zeros_are_not_joined : HashDatum (DVal 0) Tuplesort.kFloat8Oid ≠ HashDatum (DVal (2 ^ 63)) Tuplesort.kFloat8Oid ∧ Tuplesort.CompareValues (DVal 0) (DVal (2 ^ 63)) Tuplesort.kFloat8Oid = 0.
Proof. by vm_compute. Qed.
End HashJoinTotal.
