(* ===== verification/Multibyte.v ===== *)
(** * Character encodings

    src/utils/mb/encoding.cpp, wchar.cpp and mbutils.cpp with their headers: the
    encodings and their names, the length of a character, UTF-8 and wide
    characters, conversion between encodings, and validation.

    A string is the list of its bytes; a position in it is the rest of the
    string from there on.  [g_database_encoding] and [g_client_encoding] are the
    two fields of [Encodings]. *)

From Stdlib Require Import Ascii Lia.
From stdpp Require Import base list strings.
From S2P Require Import Prelude.

Module Multibyte.
#[local] Ltac Zify.zify_post_hook ::= Z.to_euclidean_division_equations.

(** ** Encodings *)

Inductive PgEncoding :=
  | kSqlAscii | kEucJp | kEucCn | kEucKr | kEucTw | kEucJis2004 | kUtf8 | kMuleInternal
  | kLatin1 | kLatin2 | kLatin3 | kLatin4 | kLatin5 | kLatin6 | kLatin7 | kLatin8 | kLatin9 | kLatin10
  | kWin1256 | kWin1258 | kWin866 | kWin874 | kKoi8r | kWin1251 | kWin1252
  | kIso8859_5 | kIso8859_6 | kIso8859_7 | kIso8859_8
  | kWin1250 | kWin1253 | kWin1254 | kWin1255 | kWin1257 | kKoi8u
  | kSjis | kBig5 | kGbk | kUhc | kGb18030 | kJohab | kShiftJis2004.

#[export] Instance PgEncoding_eq_dec : EqDecision PgEncoding.
Proof. solve_decision. Defined.

Record EncodingInfo := mkInfo { encoding : PgEncoding; enc_name : string; alias : string; max_mblen : Z; is_server_encoding : bool }.

Definition kEncodingTable : list EncodingInfo := [
  mkInfo kSqlAscii "SQL_ASCII" "ASCII" 1 true;
  mkInfo kEucJp "EUC_JP" "EUC_JP" 3 true;
  mkInfo kEucCn "EUC_CN" "EUC_CN" 2 true;
  mkInfo kEucKr "EUC_KR" "EUC_KR" 2 true;
  mkInfo kEucTw "EUC_TW" "EUC_TW" 4 true;
  mkInfo kEucJis2004 "EUC_JIS_2004" "EUC_JIS_2004" 3 true;
  mkInfo kUtf8 "UTF8" "UTF-8" 4 true;
  mkInfo kMuleInternal "MULE_INTERNAL" "MULE_INTERNAL" 4 true;
  mkInfo kLatin1 "LATIN1" "ISO-8859-1" 1 true;
  mkInfo kLatin2 "LATIN2" "ISO-8859-2" 1 true;
  mkInfo kLatin3 "LATIN3" "ISO-8859-3" 1 true;
  mkInfo kLatin4 "LATIN4" "ISO-8859-4" 1 true;
  mkInfo kLatin5 "LATIN5" "ISO-8859-9" 1 true;
  mkInfo kLatin6 "LATIN6" "ISO-8859-10" 1 true;
  mkInfo kLatin7 "LATIN7" "ISO-8859-13" 1 true;
  mkInfo kLatin8 "LATIN8" "ISO-8859-14" 1 true;
  mkInfo kLatin9 "LATIN9" "ISO-8859-15" 1 true;
  mkInfo kLatin10 "LATIN10" "ISO-8859-16" 1 true;
  mkInfo kWin1256 "WIN1256" "CP1256" 1 true;
  mkInfo kWin1258 "WIN1258" "CP1258" 1 true;
  mkInfo kWin866 "WIN866" "CP866" 1 true;
  mkInfo kWin874 "WIN874" "CP874" 1 true;
  mkInfo kKoi8r "KOI8R" "KOI8-R" 1 true;
  mkInfo kWin1251 "WIN1251" "CP1251" 1 true;
  mkInfo kWin1252 "WIN1252" "CP1252" 1 true;
  mkInfo kIso8859_5 "ISO_8859_5" "ISO-8859-5" 1 true;
  mkInfo kIso8859_6 "ISO_8859_6" "ISO-8859-6" 1 true;
  mkInfo kIso8859_7 "ISO_8859_7" "ISO-8859-7" 1 true;
  mkInfo kIso8859_8 "ISO_8859_8" "ISO-8859-8" 1 true;
  mkInfo kWin1250 "WIN1250" "CP1250" 1 true;
  mkInfo kWin1253 "WIN1253" "CP1253" 1 true;
  mkInfo kWin1254 "WIN1254" "CP1254" 1 true;
  mkInfo kWin1255 "WIN1255" "CP1255" 1 true;
  mkInfo kWin1257 "WIN1257" "CP1257" 1 true;
  mkInfo kKoi8u "KOI8U" "KOI8-U" 1 true;
  mkInfo kSjis "SJIS" "SHIFT-JIS" 2 false;
  mkInfo kBig5 "BIG5" "BIG5" 2 true;
  mkInfo kGbk "GBK" "GBK" 2 true;
  mkInfo kUhc "UHC" "UHC" 2 true;
  mkInfo kGb18030 "GB18030" "GB18030" 4 true;
  mkInfo kJohab "JOHAB" "JOHAB" 3 false;
  mkInfo kShiftJis2004 "SHIFT_JIS_2004" "SHIFT-JIS-2004" 2 false].

(** [std::tolower] in the C locale. *)
Definition tolower (c : Z) : Z := if (65 <=? c) && (c <=? 90) then c + 32 else c.
Definition toupper (c : Z) : Z := if (97 <=? c) && (c <=? 122) then c - 32 else c.

Definition bytes_of (s : string) : list Z := (λ c, Z.of_nat (nat_of_ascii c)) <$> String.list_ascii_of_string s.

Definition IEquals (a b : list Z) : bool := bool_decide (tolower <$> a = tolower <$> b).

Definition GetEncodingInfo (enc : PgEncoding) : option EncodingInfo := snd <$> list_find (λ info, encoding info = enc) kEncodingTable.
Definition GetEncodingByName (name : list Z) : PgEncoding :=
  match list_find (λ info, IEquals name (bytes_of (enc_name info)) || IEquals name (bytes_of (alias info)) = true) kEncodingTable with
  | Some (_, info) => encoding info
  | None => kSqlAscii
  end.
Definition PgEncodingToChar (enc : PgEncoding) : string := match GetEncodingInfo enc with Some info => enc_name info | None => "SQL_ASCII" end.
Definition PgCharToEncoding (name : list Z) : PgEncoding := GetEncodingByName name.
Definition IsValidServerEncoding (enc : PgEncoding) : bool := match GetEncodingInfo enc with Some info => is_server_encoding info | None => false end.

(** ** Lengths *)

Definition PgMblenUtf8 (c : Z) : Z :=
  if c <? 0x80 then 1 else if c <? 0xC0 then 1 else if c <? 0xE0 then 2 else if c <? 0xF0 then 3 else if c <? 0xF8 then 4 else 1.

(** [c] is the first byte; past the end of a string it is a zero byte. *)
Definition PgMblen (enc : PgEncoding) (c : Z) : Z :=
  if c =? 0 then 0
  else
    match enc with
    | kUtf8 => PgMblenUtf8 c
    | kGbk | kBig5 | kUhc | kSjis => if 0x80 <=? c then 2 else 1
    | kGb18030 => if 0x81 <=? c then 2 else 1
    | kEucJp | kEucJis2004 => if c =? 0x8F then 3 else if 0xA1 <=? c then 2 else 1
    | kEucCn | kEucKr | kEucTw => if 0xA1 <=? c then 2 else 1
    | _ => 1
    end.

Definition PgDsplen (enc : PgEncoding) (c : Z) : Z := if c =? 0 then 0 else 1.

(** Every character takes a byte at least, so the string's length is fuel enough. *)
Fixpoint mbstrlen_loop (enc : PgEncoding) (fuel : nat) (s : list Z) (count : Z) : Z :=
  match fuel, s with
  | S fuel', c :: _ =>
      let len := PgMblen enc c in
      let len := if len <=? 0 then 1 else len in
      mbstrlen_loop enc fuel' (drop (Z.to_nat len) s) (count + 1)
  | _, _ => count
  end.
Definition PgMbstrlenWithLen (enc : PgEncoding) (s : list Z) : Z := mbstrlen_loop enc (length s) s 0.
(** Up to the terminating zero byte. *)
Definition strlen (s : list Z) : nat := match list_find (λ c, c = 0) s with Some (n, _) => n | None => length s end.
Definition PgMbstrlen (enc : PgEncoding) (s : list Z) : Z := PgMbstrlenWithLen enc (take (strlen s) s).

(** ** Codepoints *)

(** The next byte's low six bits, at [shift]; nothing at the end of the string. *)
Definition take_bits (shift : Z) (cp : Z) (s : list Z) : Z * list Z :=
  match s with [] => (cp, []) | c :: s' => (Z.lor cp (Z.shiftl (Z.land c 0x3F) shift), s') end.

Definition Utf8ToCodepoint (s : list Z) : Z * list Z :=
  match s with
  | [] => (0, [])
  | c :: s1 =>
      if c <? 0x80 then (c, s1)
      else if c <? 0xE0 then take_bits 0 (Z.shiftl (Z.land c 0x1F) 6) s1
      else if c <? 0xF0 then
        let '(cp, s2) := take_bits 6 (Z.shiftl (Z.land c 0x0F) 12) s1 in take_bits 0 cp s2
      else if c <? 0xF8 then
        let '(cp, s2) := take_bits 12 (Z.shiftl (Z.land c 0x07) 18) s1 in
        let '(cp, s3) := take_bits 6 cp s2 in take_bits 0 cp s3
      else (0xFFFD, s1)
  end.

Definition CodepointToUtf8 (cp : Z) : list Z :=
  if cp <? 0x80 then [cp]
  else if cp <? 0x800 then [Z.lor 0xC0 (Z.shiftr cp 6); Z.lor 0x80 (Z.land cp 0x3F)]
  else if cp <? 0x10000 then [Z.lor 0xE0 (Z.shiftr cp 12); Z.lor 0x80 (Z.land (Z.shiftr cp 6) 0x3F); Z.lor 0x80 (Z.land cp 0x3F)]
  else if cp <? 0x110000 then
    [Z.lor 0xF0 (Z.shiftr cp 18); Z.lor 0x80 (Z.land (Z.shiftr cp 12) 0x3F); Z.lor 0x80 (Z.land (Z.shiftr cp 6) 0x3F); Z.lor 0x80 (Z.land cp 0x3F)]
  else [0xEF; 0xBF; 0xBD].

(** The codepoints of a UTF-8 string; each takes a byte at least. *)
Fixpoint codepoints (fuel : nat) (s : list Z) : list Z :=
  match fuel, s with
  | S fuel', _ :: _ => let '(cp, s') := Utf8ToCodepoint s in cp :: codepoints fuel' s'
  | _, _ => []
  end.
Definition PgMb2wchar (enc : PgEncoding) (mbstr : list Z) : list Z :=
  match enc with kUtf8 => codepoints (length mbstr) mbstr | _ => mbstr end.

Definition question_mark : Z := 63.
Definition PgWchar2Mb (enc : PgEncoding) (wchars : list Z) : list Z :=
  match enc with
  | kUtf8 => wchars ≫= CodepointToUtf8
  | _ => (λ cp, if cp <? 256 then cp else question_mark) <$> wchars
  end.

(** ** Conversion *)

Definition SingleByteToUtf8 (src : list Z) : list Z := src ≫= CodepointToUtf8.
Definition Utf8ToSingleByte (src : list Z) : list Z := (λ cp, if cp <? 256 then cp else question_mark) <$> codepoints (length src) src.

Fixpoint GbkToUtf8 (src : list Z) : list Z :=
  match src with
  | [] => []
  | c :: src1 =>
      if c <? 0x80 then c :: GbkToUtf8 src1
      else
        match src1 with
        | c2 :: src2 => CodepointToUtf8 (u32 (0x4E00 + ((c - 0x81) * 0xBF) + (c2 - 0x40))) ++ GbkToUtf8 src2
        | [] => [question_mark]
        end
  end.

Definition gbk_char (cp : Z) : list Z :=
  if cp <? 0x80 then [cp]
  else if (0x4E00 <=? cp) && (cp <? 0x4E00 + 0x7F * 0xBF) then
    let offset := cp - 0x4E00 in [u8 (0x81 + offset / 0xBF); u8 (0x40 + offset `mod` 0xBF)]
  else [question_mark].
Definition Utf8ToGbk (src : list Z) : list Z := codepoints (length src) src ≫= gbk_char.

Definition IsSingleByte (enc : PgEncoding) : bool := match GetEncodingInfo enc with Some info => max_mblen info =? 1 | None => false end.
Definition IsGbkFamily (enc : PgEncoding) : bool := match enc with kGbk | kBig5 => true | _ => false end.

Definition PgConvert (src_enc dest_enc : PgEncoding) (src : list Z) : list Z :=
  if decide (src_enc = dest_enc) then src
  else if bool_decide (src_enc = kSqlAscii) || bool_decide (dest_enc = kSqlAscii) then src
  else if bool_decide (src_enc = kUtf8) && IsSingleByte dest_enc then Utf8ToSingleByte src
  else if IsSingleByte src_enc && bool_decide (dest_enc = kUtf8) then SingleByteToUtf8 src
  else if IsGbkFamily src_enc && bool_decide (dest_enc = kUtf8) then GbkToUtf8 src
  else if bool_decide (src_enc = kUtf8) && IsGbkFamily dest_enc then Utf8ToGbk src
  else if IsSingleByte src_enc && IsSingleByte dest_enc then Utf8ToSingleByte (SingleByteToUtf8 src)
  else if IsSingleByte src_enc && IsGbkFamily dest_enc then Utf8ToGbk (SingleByteToUtf8 src)
  else if IsGbkFamily src_enc && IsSingleByte dest_enc then Utf8ToSingleByte (GbkToUtf8 src)
  else if IsGbkFamily src_enc && IsGbkFamily dest_enc && negb (bool_decide (src_enc = dest_enc)) then Utf8ToGbk (GbkToUtf8 src)
  else src.

Record Encodings := mkEncodings { database_encoding : PgEncoding; client_encoding : PgEncoding }.
Definition default_encodings : Encodings := mkEncodings kUtf8 kUtf8.
Definition SetDatabaseEncoding (enc : PgEncoding) (g : Encodings) : Encodings := mkEncodings enc enc.
Definition SetClientEncoding (enc : PgEncoding) (g : Encodings) : Encodings := mkEncodings (database_encoding g) enc.
Definition GetDatabaseEncodingName (g : Encodings) : string := PgEncodingToChar (database_encoding g).
Definition PgConvertTo (dest_enc : PgEncoding) (src : list Z) (g : Encodings) : list Z := PgConvert (database_encoding g) dest_enc src.
Definition PgConvertFrom (src_enc : PgEncoding) (src : list Z) (g : Encodings) : list Z := PgConvert src_enc (database_encoding g) src.

(** ** Validation *)

Definition continuation (c : Z) : bool := negb ((c <? 0x80) || (0xC0 <=? c)).

Fixpoint verify_utf8 (fuel : nat) (s : list Z) : bool :=
  match fuel, s with
  | S fuel', c :: s' =>
      let len := PgMblenUtf8 c in
      if len =? 1 then
        if (0x80 <=? c) && (c <? 0xC0) then false else verify_utf8 fuel' s'
      else if Z.of_nat (length s) <? len then false
      else if forallb continuation (take (Z.to_nat (len - 1)) s') then verify_utf8 fuel' (drop (Z.to_nat len) s)
      else false
  | _, _ => true
  end.

(** For other encodings; without result if the loop does not end within the fuel. *)
Fixpoint verify_other (enc : PgEncoding) (fuel : nat) (s : list Z) : option bool :=
  match fuel with
  | O => None
  | S fuel' =>
      match s with
      | [] => Some true
      | c :: _ =>
          let len := PgMblen enc c in
          if Z.of_nat (length s) <? len then Some false else verify_other enc fuel' (drop (Z.to_nat len) s)
      end
  end.

Definition PgVerifyMbstr (enc : PgEncoding) (str : list Z) (fuel : nat) : option bool :=
  match enc with
  | kSqlAscii => Some true
  | kUtf8 => Some (verify_utf8 (length str) str)
  | _ => verify_other enc fuel str
  end.

(** ** UTF-8 *)

Definition codepoint (cp : Z) : Prop := 0 ≤ cp < 0x110000.

(** The bytes in arithmetic. *)
Lemma utf8_1 cp : 0 ≤ cp < 0x80 → CodepointToUtf8 cp = [cp].
Proof. intros ?. unfold CodepointToUtf8. by rewrite (proj2 (Z.ltb_lt cp 0x80)) by lia. Qed.

Lemma low_six x : Z.lor 0x80 (Z.land x 0x3F) = 0x80 + x `mod` 64.
Proof. change 0x3F with (Z.ones 6). rewrite Z.land_ones by lia. change 0x80 with (Z.shiftl 2 6). rewrite lor_low; [done|lia|]. apply Z.mod_pos_bound. lia. Qed.

Lemma utf8_2 cp : 0x80 ≤ cp < 0x800 → CodepointToUtf8 cp = [0xC0 + cp / 64; 0x80 + cp `mod` 64].
Proof.
  intros ?. unfold CodepointToUtf8. rewrite (proj2 (Z.ltb_ge cp 0x80)), (proj2 (Z.ltb_lt cp 0x800)), low_six by lia. rewrite Z.shiftr_div_pow2 by lia.
  change 0xC0 with (Z.shiftl 6 5). rewrite lor_low; [done|lia|]. change (2 ^ 6) with 64. change (2 ^ 5) with 32. lia.
Qed.

Lemma utf8_3 cp : 0x800 ≤ cp < 0x10000 → CodepointToUtf8 cp = [0xE0 + cp / 4096; 0x80 + (cp / 64) `mod` 64; 0x80 + cp `mod` 64].
Proof.
  intros ?. unfold CodepointToUtf8. rewrite (proj2 (Z.ltb_ge cp 0x80)), (proj2 (Z.ltb_ge cp 0x800)), (proj2 (Z.ltb_lt cp 0x10000)), !low_six by lia. rewrite !Z.shiftr_div_pow2 by lia.
  change 0xE0 with (Z.shiftl 14 4). rewrite lor_low; [done|lia|]. change (2 ^ 12) with 4096. change (2 ^ 4) with 16. lia.
Qed.

Lemma utf8_4 cp : 0x10000 ≤ cp < 0x110000 → CodepointToUtf8 cp = [0xF0 + cp / 262144; 0x80 + (cp / 4096) `mod` 64; 0x80 + (cp / 64) `mod` 64; 0x80 + cp `mod` 64].
Proof.
  intros ?. unfold CodepointToUtf8. rewrite (proj2 (Z.ltb_ge cp 0x80)), (proj2 (Z.ltb_ge cp 0x800)), (proj2 (Z.ltb_ge cp 0x10000)), (proj2 (Z.ltb_lt cp 0x110000)), !low_six by lia.
  rewrite !Z.shiftr_div_pow2 by lia. change 0xF0 with (Z.shiftl 30 3). rewrite lor_low; [done|lia|]. change (2 ^ 18) with 262144. change (2 ^ 3) with 8. lia.
Qed.

Lemma take_bits_eq shift k b s : 0 ≤ shift → 0 ≤ b < 64 → take_bits shift (Z.shiftl k (shift + 6)) ((0x80 + b) :: s) = (k * 2 ^ (shift + 6) + b * 2 ^ shift, s).
Proof.
  intros Hs Hb. unfold take_bits. change 0x3F with (Z.ones 6). rewrite Z.land_ones by lia. change (2 ^ 6) with 64.
  replace ((0x80 + b) `mod` 64) with b by lia. rewrite lor_low; [|lia|]; rewrite Z.shiftl_mul_pow2 by lia; [done|]. rewrite Z.pow_add_r by lia. change (2 ^ 6) with 64. nia.
Qed.

(** A codepoint comes back, whatever follows. *)
Lemma codepoint_roundtrip cp s : codepoint cp → Utf8ToCodepoint (CodepointToUtf8 cp ++ s) = (cp, s).
Proof.
  intros Hcp. unfold codepoint in Hcp. assert (cp < 0x80 ∨ 0x80 ≤ cp < 0x800 ∨ 0x800 ≤ cp < 0x10000 ∨ 0x10000 ≤ cp) as [?|[?|[?|?]]] by lia.
  - rewrite utf8_1 by lia. cbn [app Utf8ToCodepoint]. by rewrite (proj2 (Z.ltb_lt cp 0x80)) by lia.
  - rewrite utf8_2 by lia. cbn [app Utf8ToCodepoint]. rewrite (proj2 (Z.ltb_ge (0xC0 + cp / 64) 0x80)), (proj2 (Z.ltb_lt (0xC0 + cp / 64) 0xE0)) by lia.
    change 0x1F with (Z.ones 5). rewrite Z.land_ones by lia. rewrite (take_bits_eq 0) by lia. f_equal. change (2 ^ 5) with 32. change (2 ^ (0 + 6)) with 64. lia.
  - rewrite utf8_3 by lia. cbn [app Utf8ToCodepoint]. rewrite (proj2 (Z.ltb_ge (0xE0 + cp / 4096) 0x80)), (proj2 (Z.ltb_ge (0xE0 + cp / 4096) 0xE0)), (proj2 (Z.ltb_lt (0xE0 + cp / 4096) 0xF0)) by lia.
    change 0x0F with (Z.ones 4). rewrite Z.land_ones by lia. rewrite (take_bits_eq 6) by lia.
    replace (((0xE0 + cp / 4096) `mod` 2 ^ 4) * 2 ^ (6 + 6) + ((cp / 64) `mod` 64) * 2 ^ 6) with (Z.shiftl (cp / 64) (0 + 6)).
    2: { rewrite Z.shiftl_mul_pow2 by lia. change (2 ^ (0 + 6)) with 64. change (2 ^ (6 + 6)) with 4096. change (2 ^ 4) with 16. change (2 ^ 6) with 64. lia. }
    rewrite (take_bits_eq 0) by lia. f_equal. change (2 ^ (0 + 6)) with 64. lia.
  - rewrite utf8_4 by lia. cbn [app Utf8ToCodepoint].
    rewrite (proj2 (Z.ltb_ge (0xF0 + cp / 262144) 0x80)), (proj2 (Z.ltb_ge (0xF0 + cp / 262144) 0xE0)), (proj2 (Z.ltb_ge (0xF0 + cp / 262144) 0xF0)), (proj2 (Z.ltb_lt (0xF0 + cp / 262144) 0xF8)) by lia.
    change 0x07 with (Z.ones 3). rewrite Z.land_ones by lia. rewrite (take_bits_eq 12) by lia.
    replace (((0xF0 + cp / 262144) `mod` 2 ^ 3) * 2 ^ (12 + 6) + ((cp / 4096) `mod` 64) * 2 ^ 12) with (Z.shiftl (cp / 4096) (6 + 6)).
    2: { rewrite Z.shiftl_mul_pow2 by lia. change (2 ^ (6 + 6)) with 4096. change (2 ^ (12 + 6)) with 262144. change (2 ^ 3) with 8. change (2 ^ 12) with 4096. lia. }
    rewrite (take_bits_eq 6) by lia.
    replace ((cp / 4096) * 2 ^ (6 + 6) + ((cp / 64) `mod` 64) * 2 ^ 6) with (Z.shiftl (cp / 64) (0 + 6)).
    2: { rewrite Z.shiftl_mul_pow2 by lia. change (2 ^ (0 + 6)) with 64. change (2 ^ (6 + 6)) with 4096. change (2 ^ 6) with 64. lia. }
    rewrite (take_bits_eq 0) by lia. f_equal. change (2 ^ (0 + 6)) with 64. lia.
Qed.

(** What the functions over strings need of one character: a first byte that
    tells the length, and continuation bytes. *)
Lemma utf8_shape cp : codepoint cp → ∃ c cs, CodepointToUtf8 cp = c :: cs ∧ PgMblenUtf8 c = Z.of_nat (length (c :: cs)) ∧
  (length (c :: cs) = 1%nat → c = cp ∧ c < 0x80) ∧ forallb continuation cs = true ∧ 0 ≤ c ∧ (c = 0 → cs = []).
Proof.
  intros Hcp. unfold codepoint in Hcp. assert (Hc : ∀ x, 0 ≤ x < 64 → continuation (0x80 + x) = true).
  { intros x Hx. unfold continuation. by rewrite (proj2 (Z.ltb_ge (0x80 + x) 0x80)), (proj2 (Z.leb_gt 0xC0 (0x80 + x))) by lia. }
  assert (Hl : ∀ c n, (n = 1 → c < 0xC0) → (n = 2 → 0xC0 ≤ c < 0xE0) → (n = 3 → 0xE0 ≤ c < 0xF0) → (n = 4 → 0xF0 ≤ c < 0xF8) → 1 ≤ n ≤ 4 → PgMblenUtf8 c = n).
  { intros c n ????. unfold PgMblenUtf8. repeat match goal with |- context [?a <? ?b] => destruct (Z.ltb_spec a b) end; lia. }
  assert (cp < 0x80 ∨ 0x80 ≤ cp < 0x800 ∨ 0x800 ≤ cp < 0x10000 ∨ 0x10000 ≤ cp) as [?|[?|[?|?]]] by lia;
    [rewrite utf8_1 by lia|rewrite utf8_2 by lia|rewrite utf8_3 by lia|rewrite utf8_4 by lia];
    (eexists _, _; split; [done|]); cbn [length forallb]; rewrite ?Hc by lia;
    (split; [apply Hl; lia|]); (split; [intros; lia|]); (split; [done|]); (split; [lia|]); intros; first [done|lia].
Qed.

(** An ASCII character is its own byte; the others have no ASCII byte, and their
    first byte continues no other character. *)
Lemma char_bytes c : codepoint c → ∃ b bs, CodepointToUtf8 c = b :: bs ∧ continuation b = false ∧
  Forall (λ x, 0x80 ≤ x) bs ∧ (c < 0x80 ∧ b = c ∧ bs = [] ∨ 0x80 ≤ c ∧ 0x80 ≤ b).
Proof.
  intros Hc. unfold codepoint in Hc. assert (Hf : ∀ x, 0 ≤ x < 0x80 ∨ 0xC0 ≤ x → continuation x = false).
  { intros x Hx. unfold continuation. apply negb_false_iff, orb_true_iff. rewrite Z.ltb_lt, Z.leb_le. lia. }
  assert (c < 0x80 ∨ 0x80 ≤ c < 0x800 ∨ 0x800 ≤ c < 0x10000 ∨ 0x10000 ≤ c) as [?|[?|[?|?]]] by lia;
    [rewrite utf8_1 by lia|rewrite utf8_2 by lia|rewrite utf8_3 by lia|rewrite utf8_4 by lia];
    (eexists _, _; split; [done|]); (split; [apply Hf; lia|]); rewrite ?Forall_cons; (split; [split_and?; first [apply Forall_nil_2|lia]|]); [left|right..]; split_and?; (lia || done).
Qed.

Lemma utf8_ind (P : list Z → list Z → Prop) : P [] [] → (∀ cp cps s, codepoint cp → P cps s → P (cp :: cps) (CodepointToUtf8 cp ++ s)) →
  ∀ cps, Forall codepoint cps → P cps (cps ≫= CodepointToUtf8).
Proof. intros Hn Hc. induction 1 as [|cp cps Hcp _ IH]; [done|]. cbn. by apply Hc. Qed.

Lemma codepoints_roundtrip cps : Forall codepoint cps → ∀ n, (length (cps ≫= CodepointToUtf8) ≤ n)%nat → codepoints n (cps ≫= CodepointToUtf8) = cps.
Proof.
  apply (utf8_ind (λ cps s, ∀ n, (length s ≤ n)%nat → codepoints n s = cps)); [by intros [|n]|].
  intros cp cps' s Hcp IH n Hn. pose proof (codepoint_roundtrip cp s Hcp) as Hr. destruct (utf8_shape cp Hcp) as (c & cs & E & _). rewrite E in *. rewrite length_app in Hn. cbn [length] in Hn.
  destruct n as [|n]; [lia|]. cbn [app codepoints] in *. rewrite Hr. f_equal. apply IH. lia.
Qed.

Lemma mbstrlen_utf8 cps : Forall codepoint cps → ∀ n count, (length (cps ≫= CodepointToUtf8) ≤ n)%nat → mbstrlen_loop kUtf8 n (cps ≫= CodepointToUtf8) count = count + Z.of_nat (length cps).
Proof.
  apply (utf8_ind (λ cps s, ∀ n count, (length s ≤ n)%nat → mbstrlen_loop kUtf8 n s count = count + Z.of_nat (length cps))); [intros [|n] count _; cbn; lia|].
  intros cp cps' s Hcp IH n count Hn. destruct (utf8_shape cp Hcp) as (c & cs & E & Hlen & _ & _ & Hpos & Hz). rewrite E in *. rewrite length_app in Hn. cbn [length] in Hn.
  destruct n as [|n]; [lia|]. cbn [app mbstrlen_loop]. assert (Hd : (if PgMblen kUtf8 c <=? 0 then 1 else PgMblen kUtf8 c) = Z.of_nat (length (c :: cs))).
  { unfold PgMblen. destruct (Z.eqb_spec c 0) as [->|]; [by rewrite Hz|]. rewrite Hlen. cbn [length]. by rewrite (proj2 (Z.leb_gt _ 0)) by lia. }
  rewrite Hd, Nat2Z.id. change (c :: cs ++ s) with ((c :: cs) ++ s). rewrite drop_app_length, IH by lia. cbn [length]. lia.
Qed.

Lemma verify_utf8_accepts cps : Forall codepoint cps → ∀ n, (length (cps ≫= CodepointToUtf8) ≤ n)%nat → verify_utf8 n (cps ≫= CodepointToUtf8) = true.
Proof.
  apply (utf8_ind (λ cps s, ∀ n, (length s ≤ n)%nat → verify_utf8 n s = true)); [by intros [|n]|].
  intros cp cps' s Hcp IH n Hn. destruct (utf8_shape cp Hcp) as (c & cs & E & Hlen & Hone & Hcont & _). rewrite E in *. rewrite length_app in Hn. cbn [length] in Hn.
  destruct n as [|n]; [lia|]. cbn [app verify_utf8]. rewrite Hlen. cbn [length] in *. destruct (Z.eqb_spec (Z.of_nat (S (length cs))) 1) as [E1|].
  - destruct cs; [|cbn in E1; lia]. destruct (Hone eq_refl) as [_ ?]. rewrite (proj2 (Z.leb_gt 0x80 c)) by lia. apply IH. cbn in *. lia.
  - rewrite (proj2 (Z.ltb_ge _ _)) by (rewrite length_app; lia). replace (Z.to_nat (Z.of_nat (S (length cs)) - 1)) with (length cs) by lia.
    rewrite take_app_length, Hcont, Nat2Z.id. change (c :: cs ++ s) with ((c :: cs) ++ s). change (S (length cs)) with (length (c :: cs)). rewrite drop_app_length. apply IH. lia.
Qed.

(** ** Conversions *)

Lemma codepoints_of_utf8 s : Forall codepoint s → codepoints (length (s ≫= CodepointToUtf8)) (s ≫= CodepointToUtf8) = s.
Proof. intros Hs. by apply codepoints_roundtrip. Qed.

Lemma single_byte_roundtrip s : Forall is_u8 s → Utf8ToSingleByte (SingleByteToUtf8 s) = s.
Proof.
  intros Hs. unfold Utf8ToSingleByte, SingleByteToUtf8. rewrite codepoints_of_utf8 by (eapply Forall_impl; [done|]; intros x Hx; unfold is_u8, codepoint in *; lia).
  induction Hs as [|x s Hx _ IH]; [done|]. cbn. rewrite IH. unfold is_u8 in Hx. by rewrite (proj2 (Z.ltb_lt x 256)) by lia.
Qed.

(** The codepoints [GbkToUtf8] takes a text of ASCII and two-byte characters to. *)
Inductive gbk_text : list Z → list Z → Prop :=
  | gbk_nil : gbk_text [] []
  | gbk_ascii c s cps : 0 ≤ c < 0x80 → gbk_text s cps → gbk_text (c :: s) (c :: cps)
  | gbk_pair c1 c2 s cps : 0x81 ≤ c1 ≤ 0xFF → 0x40 ≤ c2 ≤ 0xFE → gbk_text s cps → gbk_text (c1 :: c2 :: s) (0x4E00 + (c1 - 0x81) * 0xBF + (c2 - 0x40) :: cps).

Lemma gbk_to_utf8 s cps : gbk_text s cps → Forall codepoint cps ∧ GbkToUtf8 s = (cps ≫= CodepointToUtf8) ∧ (cps ≫= gbk_char) = s.
Proof.
  induction 1 as [|c s cps Hc _ (IH1 & IH2 & IH3)|c1 c2 s cps H1 H2 _ (IH1 & IH2 & IH3)]; [done| |].
  - split; [constructor; [unfold codepoint; lia|done]|]. cbn [GbkToUtf8 mbind list_bind]. rewrite (proj2 (Z.ltb_lt c 0x80)), IH2, utf8_1 by lia. split; [done|].
    unfold gbk_char at 1. by rewrite (proj2 (Z.ltb_lt c 0x80)), IH3 by lia.
  - set (cp := 0x4E00 + (c1 - 0x81) * 0xBF + (c2 - 0x40)). assert (Hcp : 0x4E00 ≤ cp < 0x4E00 + 0x7F * 0xBF) by (unfold cp; lia).
    split; [constructor; [unfold codepoint; lia|done]|]. cbn [GbkToUtf8 mbind list_bind]. rewrite (proj2 (Z.ltb_ge c1 0x80)), IH2 by lia. split; [f_equal; f_equal; apply u32_small; unfold is_u32; lia|].
    unfold gbk_char at 1. rewrite (proj2 (Z.ltb_ge cp 0x80)), (proj2 (Z.leb_le 0x4E00 cp)), (proj2 (Z.ltb_lt cp _)), IH3 by lia. cbn [andb app].
    assert (0x81 + (cp - 0x4E00) / 0xBF = c1) as -> by (unfold cp; lia). assert (0x40 + (cp - 0x4E00) `mod` 0xBF = c2) as -> by (unfold cp; lia). by rewrite !u8_small by (unfold is_u8; lia).
Qed.

(** The texts of an encoding that UTF-8 can represent. *)
Definition encoded (enc : PgEncoding) (s : list Z) : Prop :=
  match enc with kSqlAscii => True | kGbk | kBig5 => ∃ cps, gbk_text s cps | _ => Forall is_u8 s end.

(** C40: strings of codepoints survive UTF-8.  Encoding codepoints below 0x110000
    and decoding them gives them back, the length of the text is their number,
    and the text is valid. *)
Theorem utf8_strings cps fuel : Forall codepoint cps →
  let s := PgWchar2Mb kUtf8 cps in
  PgMb2wchar kUtf8 s = cps ∧ PgMbstrlenWithLen kUtf8 s = Z.of_nat (length cps) ∧ PgVerifyMbstr kUtf8 s fuel = Some true.
Proof.
  intros Hcps s. split; [by apply codepoints_roundtrip|]. split; [by apply mbstrlen_utf8|]. cbn. f_equal. by apply verify_utf8_accepts.
Qed.

Lemma utf8_strings_witness : let s := PgWchar2Mb kUtf8 [0x48; 0xE9; 0x4E2D; 0x1F600] in
  s = [0x48; 0xC3; 0xA9; 0xE4; 0xB8; 0xAD; 0xF0; 0x9F; 0x98; 0x80] ∧ PgMb2wchar kUtf8 s = [0x48; 0xE9; 0x4E2D; 0x1F600] ∧ PgMbstrlenWithLen kUtf8 s = 4.
Proof.
  split; [by vm_compute|]. destruct (utf8_strings [0x48; 0xE9; 0x4E2D; 0x1F600] 0) as (E1 & E2 & _); [repeat constructor; done|]. by split.
Defined.

(** a text converted to UTF-8 and back is the same text, for every
    single-byte encoding and, for ASCII and two-byte characters, GBK and BIG5. *)
Theorem conversion_roundtrip enc s : IsSingleByte enc = true ∨ IsGbkFamily enc = true → encoded enc s →
  PgConvert kUtf8 enc (PgConvert enc kUtf8 s) = s.
Proof.
  intros Henc Hs. assert (Hcase : enc = kSqlAscii ∨ PgConvert enc kUtf8 s = SingleByteToUtf8 s ∧ PgConvert kUtf8 enc = Utf8ToSingleByte ∧ Forall is_u8 s ∨
    PgConvert enc kUtf8 s = GbkToUtf8 s ∧ PgConvert kUtf8 enc = Utf8ToGbk ∧ ∃ cps, gbk_text s cps).
  { destruct enc; try (by left); try (by right; left); try (by right; right); by destruct Henc. }
  destruct Hcase as [->|[(-> & -> & Hb)|(-> & -> & cps & Hg)]]; [done|by apply single_byte_roundtrip|].
  destruct (gbk_to_utf8 s cps Hg) as (Hc & -> & Hback). unfold Utf8ToGbk. by rewrite codepoints_of_utf8.
Qed.

Lemma conversion_roundtrip_witness : PgConvert kLatin1 kUtf8 [0x63; 0xE9] = [0x63; 0xC3; 0xA9] ∧ PgConvert kUtf8 kGbk (PgConvert kGbk kUtf8 [0x41; 0xD6; 0xD0]) = [0x41; 0xD6; 0xD0].
Proof.
  split; [by vm_compute|]. apply (conversion_roundtrip kGbk [0x41; 0xD6; 0xD0]); [by right|]. eexists. repeat constructor; lia.
Defined.

(** Bytes that no UTF-8 text contains, and encoded surrogates, pass validation. *)
Theorem invalid_utf8_accepted : PgVerifyMbstr kUtf8 [0xFF] 0 = Some true ∧ PgVerifyMbstr kUtf8 [0xED; 0xA0; 0x80] 0 = Some true ∧ PgVerifyMbstr kUtf8 [0xC0; 0x80] 0 = Some true.
Proof. by vm_compute. Qed.

(** A zero byte has length 0, so the validation of another encoding never gets past it. *)
Theorem validation_hangs_on_zero enc s fuel : enc ≠ kUtf8 → enc ≠ kSqlAscii → PgVerifyMbstr enc (0 :: s) fuel = None.
Proof.
  intros H1 H2. assert (Hl : verify_other enc fuel (0 :: s) = None); [|by destruct enc].
  induction fuel as [|fuel IH]; [done|]. cbn [verify_other]. change (PgMblen enc 0) with 0. rewrite (proj2 (Z.ltb_ge _ 0)) by lia. exact IH.
Qed.

(** Latin 2 to 10 are converted as if they were Latin 1: the Latin 9 euro sign
    becomes the currency sign. *)
Example latin9_euro : PgConvert kLatin9 kUtf8 [0xA4] = CodepointToUtf8 0xA4.
Proof. by vm_compute. Qed.

End Multibyte.
