(* ===== verification/TextFuncs.v ===== *)
(** * Text functions

    src/types/string_funcs.cpp, with the text helpers of builtins.cpp: LIKE,
    parts of strings, padding, searching and replacing.  A [std::string] is the
    list of its bytes; [npos] is [None], and an index into a string that the code
    moves forward is the rest of the string from there on.

    [std::regex] is the interface [StdRegex]: whether a pattern is valid, the
    replacement of the first match, and the groups of the first match.  An argument of -2^31 to [left], [right] or [split_part] overflows when it is
    negated, which is undefined; the definitions wrap. *)

From stdpp Require Import base list strings.
From S2P Require Import Prelude HeapForm TupleTape Tuplesort Multibyte.

Module TextFuncs.
Import HeapForm TupleTape Multibyte.

(** ** Text datums *)

Definition MakeTextDatum (str : list Z) : Datum := DRef (to_le 4 (4 + Z.of_nat (length str)) ++ str).
Definition TextDatumToString (datum : Datum) : list Z :=
  let text := DatumGetTextP datum in
  let data_len := VARSIZE_DATA text in
  if data_len <=? 0 then [] else take (Z.to_nat data_len) (VARDATA text).

Definition Int32GetDatum (z : Z) : Datum := DVal (u32 z).
Definition Int64GetDatum (z : Z) : Datum := DVal (u64 z).
Definition BoolGetDatum (b : bool) : Datum := DVal (if b then 1 else 0).
Definition DatumGetInt32 : Datum → Z := Tuplesort.DatumGetInt32.

(** ** LIKE *)

Definition percent : Z := 37.
Definition underscore : Z := 95.
Definition backslash : Z := 92.

Fixpoint skip_percents (p : list Z) : list Z :=
  match p with c :: p' => if c =? percent then skip_percents p' else p | [] => [] end.

(** The escape character stands for the character after it. *)
Definition unescape (pc : Z) (p' : list Z) : Z * list Z :=
  match p' with e :: p'' => if pc =? backslash then (e, p'') else (pc, p') | [] => (pc, p') end.

(** [star] are the positions [t_star] and [p_star]. *)
Fixpoint like_loop (fuel : nat) (t p : list Z) (star : option (list Z * list Z)) : option bool :=
  match fuel with
  | O => None
  | S fuel' =>
      match t with
      | [] => Some (match skip_percents p with [] => true | _ => false end)
      | c :: t' =>
          let mismatch := match star with Some (ts, ps) => like_loop fuel' (tail ts) ps (Some (tail ts, ps)) | None => Some false end in
          match p with
          | [] => mismatch
          | pc :: p' =>
              if pc =? percent then
                match skip_percents p' with [] => Some true | p1 => like_loop fuel' t p1 (Some (t, p1)) end
              else if pc =? underscore then like_loop fuel' t' p' star
              else
                let '(pc, p1) := unescape pc p' in
                if c =? pc then like_loop fuel' t' p1 star else mismatch
          end
      end
  end.

(** A bound on the turns: each [%] restarts at most once at every position. *)
Definition like_weight (n : nat) (t : nat) (star : option (nat * nat)) (plen : nat) : nat :=
  match star with
  | Some (ts, ps) => ps * ((n + 1) * (n + 2)) + ts * (n + 2) + t
  | None => S plen * ((n + 1) * (n + 2)) + n * (n + 2) + t
  end.
Definition like_fuel (text pattern : list Z) : nat := S (like_weight (length text) (length text) None (length pattern)).
Definition MatchLike (text pattern : list Z) : bool := default false (like_loop (like_fuel text pattern) text pattern None).

Definition like (text_datum pattern_datum : Datum) : Datum := BoolGetDatum (MatchLike (TextDatumToString text_datum) (TextDatumToString pattern_datum)).
Definition not_like (text_datum pattern_datum : Datum) : Datum := BoolGetDatum (negb (MatchLike (TextDatumToString text_datum) (TextDatumToString pattern_datum))).

(** ** Searching *)

Definition is_prefix (needle s : list Z) : bool := bool_decide (take (length needle) s = needle).

(** [s.find(needle)]. *)
Fixpoint find (needle s : list Z) : option nat :=
  if is_prefix needle s then Some 0%nat else match s with [] => None | _ :: s' => S <$> find needle s' end.

(** [s.rfind(needle, pos)]: the last occurrence that begins at [pos] or before. *)
Definition rfind (needle s : list Z) (pos : Z) : option nat :=
  last (filter (λ i, Z.of_nat i ≤ pos ∧ is_prefix needle (drop i s) = true) (seq 0 (S (length s)))).

(** [s.substr(pos, n)] for a position in the string: at most the rest of it. *)
Definition substr (s : list Z) (pos : nat) (n : Z) : list Z := take (Z.to_nat (n `min` Z.of_nat (length s))) (drop pos s).

(** ** Regular expressions *)

Class StdRegex := {
  (** What [std::regex_error] says about a pattern that is not valid. *)
  regex_error : list Z → option string;
  regex_replace_first : list Z → list Z → list Z → list Z;
  (** The match and its groups. *)
  regex_search : list Z → list Z → option (list Z * list (list Z));
}.

Definition dollar : Z := 36.
Fixpoint ConvertReplacement (pg_replacement : list Z) : list Z :=
  match pg_replacement with
  | [] => []
  | c :: rest =>
      match rest with
      | next :: rest' =>
          if c =? backslash then
            if (48 <=? next) && (next <=? 57) then dollar :: next :: ConvertReplacement rest'
            else if next =? backslash then backslash :: ConvertReplacement rest'
            else next :: ConvertReplacement rest'
          else c :: ConvertReplacement rest
      | [] => [c]
      end
  end.

Definition regexp_replace `{StdRegex} (source_datum pattern_datum replacement_datum : Datum) : outcome Datum :=
  let pattern := TextDatumToString pattern_datum in
  match regex_error pattern with
  | Some what => Ereport ("regexp_replace: invalid regular expression: " +:+ what)
  | None => Ret (MakeTextDatum (regex_replace_first pattern (TextDatumToString source_datum) (ConvertReplacement (TextDatumToString replacement_datum))))
  end.

(** The first group, or the match if there are no groups. *)
Definition substring `{StdRegex} (text_datum pattern_datum : Datum) : outcome Datum :=
  let pattern := TextDatumToString pattern_datum in
  match regex_error pattern with
  | Some what => Ereport ("substring: invalid regular expression: " +:+ what)
  | None =>
      match regex_search pattern (TextDatumToString text_datum) with
      | Some (_, group :: _) => Ret (MakeTextDatum group)
      | Some (whole, []) => Ret (MakeTextDatum whole)
      | None => Ret (MakeTextDatum [])
      end
  end.

(** ** Length and parts *)

Definition text_length (database_encoding : PgEncoding) (value : Datum) : Datum :=
  let text := DatumGetTextP value in
  Int32GetDatum (PgMbstrlenWithLen database_encoding (take (Z.to_nat (VARSIZE_DATA text)) (VARDATA text))).

Definition text_concat (a b : Datum) : Datum :=
  let ta := DatumGetTextP a in
  let tb := DatumGetTextP b in
  let la := VARSIZE_DATA ta in
  let lb := VARSIZE_DATA tb in
  DRef (to_le 4 (u64 (4 + u64 la + u64 lb)) ++ take (Z.to_nat la) (VARDATA ta) ++ take (Z.to_nat lb) (VARDATA tb)).
Definition textcat (a b : Datum) : Datum := text_concat a b.

Definition text_substr (str_datum start_datum len_datum : Datum) : Datum :=
  let s := TextDatumToString str_datum in
  let start := DatumGetInt32 start_datum in
  let len := DatumGetInt32 len_datum in
  let start := if start <? 1 then 1 else start in
  let len := if len <? 0 then 0 else len in
  let begin := start - 1 in
  if Z.of_nat (length s) <=? begin then MakeTextDatum []
  else
    let n := if Z.of_nat (length s) - begin <? len then Z.of_nat (length s) - begin else len in
    MakeTextDatum (substr s (Z.to_nat begin) n).

Definition text_substr_2 (str_datum start_datum : Datum) : Datum :=
  let s := TextDatumToString str_datum in
  let start := DatumGetInt32 start_datum in
  let start := if start <? 1 then 1 else start in
  let begin := start - 1 in
  if Z.of_nat (length s) <=? begin then MakeTextDatum [] else MakeTextDatum (drop (Z.to_nat begin) s).

Definition text_left (str_datum n_datum : Datum) : Datum :=
  let s := TextDatumToString str_datum in
  let n := DatumGetInt32 n_datum in
  let size := Z.of_nat (length s) in
  if n <? 0 then
    let k := u64 (i32 (- n)) in
    if size <=? k then MakeTextDatum [] else MakeTextDatum (substr s 0 (size - k))
  else MakeTextDatum (substr s 0 (if size <? n then size else n)).

Definition text_right (str_datum n_datum : Datum) : Datum :=
  let s := TextDatumToString str_datum in
  let n := DatumGetInt32 n_datum in
  let size := Z.of_nat (length s) in
  if n <? 0 then
    let k := u64 (i32 (- n)) in
    if size <=? k then MakeTextDatum [] else MakeTextDatum (drop (Z.to_nat k) s)
  else if size <=? n then MakeTextDatum s
  else MakeTextDatum (drop (Z.to_nat (size - n)) s).

Definition text_upper (str_datum : Datum) : Datum := MakeTextDatum (toupper <$> TextDatumToString str_datum).
Definition text_lower (str_datum : Datum) : Datum := MakeTextDatum (tolower <$> TextDatumToString str_datum).

(** ** Trimming *)

Definition IsAsciiSpace (c : Z) : bool := (c =? 32) || (c =? 9) || (c =? 10) || (c =? 13) || (c =? 12) || (c =? 11).

(** [begin] and [end] move inwards; the string is what is between them. *)
Fixpoint trim_begin (s : list Z) : list Z := match s with c :: s' => if IsAsciiSpace c then trim_begin s' else s | [] => [] end.
Definition trim_end (s : list Z) : list Z := reverse (trim_begin (reverse s)).

Definition text_btrim (str_datum : Datum) : Datum := MakeTextDatum (trim_end (trim_begin (TextDatumToString str_datum))).
Definition text_ltrim (str_datum : Datum) : Datum := MakeTextDatum (trim_begin (TextDatumToString str_datum)).
Definition text_rtrim (str_datum : Datum) : Datum := MakeTextDatum (trim_end (TextDatumToString str_datum)).
Definition text_trim (str_datum : Datum) : Datum := text_btrim str_datum.

(** ** Repeating, reversing, replacing *)

Definition text_repeat (str_datum n_datum : Datum) : Datum :=
  let s := TextDatumToString str_datum in
  let n := DatumGetInt32 n_datum in
  if (n <=? 0) || bool_decide (s = []) then MakeTextDatum [] else MakeTextDatum (concat (replicate (Z.to_nat n) s)).

Definition text_reverse (str_datum : Datum) : Datum := MakeTextDatum (reverse (TextDatumToString str_datum)).

(** Every turn consumes [from], which is not empty. *)
Fixpoint replace_loop (fuel : nat) (from to source : list Z) : list Z :=
  match fuel, source with
  | S fuel', _ :: _ =>
      match find from source with
      | None => source
      | Some found => take found source ++ to ++ replace_loop fuel' from to (drop (found + length from) source)
      end
  | _, _ => []
  end.
Definition text_replace (source_datum from_datum to_datum : Datum) : Datum :=
  let source := TextDatumToString source_datum in
  let from := TextDatumToString from_datum in
  let to := TextDatumToString to_datum in
  if bool_decide (from = []) then MakeTextDatum source else MakeTextDatum (replace_loop (length source) from to source).

Definition text_position (string_datum substring_datum : Datum) : Datum :=
  let haystack := TextDatumToString string_datum in
  let needle := TextDatumToString substring_datum in
  if bool_decide (needle = []) then Int32GetDatum 1
  else match find needle haystack with None => Int32GetDatum 0 | Some pos => Int32GetDatum (Z.of_nat pos + 1) end.

(** ** Padding *)

Definition padding (fill : list Z) (pad_len : nat) : list Z :=
  if bool_decide (fill = []) then [] else (λ i, default 0 (fill !! (i `mod` length fill)%nat)) <$> seq 0 pad_len.

Definition pad_text (left : bool) (string_datum length_datum fill_datum : Datum) : Datum :=
  let s := TextDatumToString string_datum in
  let target := DatumGetInt32 length_datum in
  let fill := TextDatumToString fill_datum in
  if target <=? 0 then MakeTextDatum []
  else if target <=? Z.of_nat (length s) then MakeTextDatum (substr s 0 target)
  else
    let pad := padding fill (Z.to_nat target - length s) in
    MakeTextDatum (if left then pad ++ s else s ++ pad).
Definition text_lpad (string_datum length_datum fill_datum : Datum) : Datum := pad_text true string_datum length_datum fill_datum.
Definition text_rpad (string_datum length_datum fill_datum : Datum) : Datum := pad_text false string_datum length_datum fill_datum.
(** Without a fill text: a space. *)
Definition text_lpad_2 (string_datum length_datum : Datum) : Datum := text_lpad string_datum length_datum (MakeTextDatum [32]).
Definition text_rpad_2 (string_datum length_datum : Datum) : Datum := text_rpad string_datum length_datum (MakeTextDatum [32]).

(** ** Splitting *)

Fixpoint split_forward (fuel : nat) (sep s : list Z) : list (list Z) :=
  match fuel with
  | O => []
  | S fuel' => match find sep s with None => [s] | Some pos => take pos s :: split_forward fuel' sep (drop (pos + length sep) s) end
  end.

(** The parts up to [end], the last one first. *)
Fixpoint split_backward (fuel : nat) (sep s : list Z) (end_ : nat) : list (list Z) :=
  match fuel with
  | O => []
  | S fuel' =>
      match rfind sep s (u64 (Z.of_nat end_ - 1)) with
      | None => [take end_ s]
      | Some pos =>
          if (end_ <? pos)%nat then [take end_ s]
          else
            let from := (pos + length sep)%nat in
            substr s from (u64 (Z.of_nat end_ - Z.of_nat from)) :: (if (pos =? 0)%nat then [] else split_backward fuel' sep s pos)
      end
  end.

Definition text_split_part (string_datum sep_datum field_datum : Datum) : outcome Datum :=
  let s := TextDatumToString string_datum in
  let sep := TextDatumToString sep_datum in
  let field := DatumGetInt32 field_datum in
  if bool_decide (sep = []) then Ereport "split_part: separator cannot be empty"
  else if field =? 0 then Ereport "split_part: field position must not be zero"
  else if 0 <? field then
    let parts := split_forward (S (length s)) sep s in
    if i32 (Z.of_nat (length parts)) <? field then Ret (MakeTextDatum [])
    else Ret (MakeTextDatum (default [] (parts !! Z.to_nat (field - 1))))
  else
    let parts := split_backward (S (length s)) sep s (length s) in
    let idx := i32 (- field) in
    if i32 (Z.of_nat (length parts)) <? idx then Ret (MakeTextDatum [])
    else Ret (MakeTextDatum (default [] (parts !! Z.to_nat (idx - 1)))).

End TextFuncs.
