(* ===== verification/TextSpec.v ===== *)
(** * What the text functions compute

    LIKE decides its specification [like_matches] although it goes back to the
    last percent sign only; searching, replacing, padding and splitting. *)

From stdpp Require Import base list strings.
From S2P Require Import Prelude HeapTuple HeapForm TupleTape Tuplesort Multibyte TextFuncs.

Module TextSpec.
Import HeapTuple HeapForm TupleTape Multibyte TextFuncs.

(** ** LIKE *)

(** A text and a pattern that match. *)
Inductive like_matches : list Z → list Z → Prop :=
  | like_end : like_matches [] []
  | like_skip t p : like_matches t p → like_matches t (percent :: p)
  | like_take c t p : like_matches t (percent :: p) → like_matches (c :: t) (percent :: p)
  | like_any c t p : like_matches t p → like_matches (c :: t) (underscore :: p)
  | like_escaped c t p : like_matches t p → like_matches (c :: t) (backslash :: c :: p)
  | like_char c t p : c ≠ percent → c ≠ underscore → (c = backslash → p = []) → like_matches t p → like_matches (c :: t) (c :: p).

(** One unit of a pattern that is not a percent sign: what it demands of a character. *)
Definition unit_of (p : list Z) : option ((Z → Prop) * list Z) :=
  match p with
  | [] => None
  | pc :: p' =>
      if pc =? percent then None
      else if pc =? underscore then Some (λ _, True, p')
      else let '(pc, p1) := unescape pc p' in Some (λ c, c = pc, p1)
  end.

Lemma matches_nil t : like_matches t [] ↔ t = [].
Proof. split; [by inversion 1|intros ->; constructor]. Qed.

Lemma matches_percent t p : like_matches t (percent :: p) ↔ ∃ n, like_matches (drop n t) p.
Proof.
  split.
  - remember (percent :: p) as q eqn:Eq. induction 1 as [|t q Hm IH|c t q Hm IH|c t q Hm IH|c t q Hm IH|c t q Hp Hu Hb Hm IH]; [done| | |done|done|].
    + injection Eq as ->. by exists 0%nat.
    + destruct (IH Eq) as (n & Hn). by exists (S n).
    + by injection Eq as ??.
  - intros (n & Hn). revert t Hn. induction n as [|n IH]; intros t Hn; [rewrite drop_0 in Hn; by constructor|].
    destruct t as [|c t]; [apply like_skip; by rewrite drop_nil in Hn|]. apply like_take, IH. done.
Qed.

Lemma matches_unit p ok p' t : unit_of p = Some (ok, p') → like_matches t p ↔ ∃ c t', t = c :: t' ∧ ok c ∧ like_matches t' p'.
Proof.
  destruct p as [|pc q]; [done|]. cbn [unit_of]. destruct (Z.eqb_spec pc percent) as [|Hp]; [done|]. destruct (Z.eqb_spec pc underscore) as [->|Hu].
  - intros [= <- <-]. split; [inversion 1; subst; try done; eauto|]. intros (c & t' & -> & _ & Hm). by constructor.
  - destruct (unescape pc q) as [e p1] eqn:Ee. intros [= <- <-]. unfold unescape in Ee. destruct q as [|e' q'].
    + injection Ee as <- <-. split; [inversion 1; subst; try done; eauto|]. intros (c & t' & -> & -> & Hm). by constructor.
    + destruct (Z.eqb_spec pc backslash) as [->|Hb]; injection Ee as <- <-.
      * split; [inversion 1 as [| | | | |? ? ? ? ? Hx]; subst; try done; [eauto|by specialize (Hx eq_refl)]|]. intros (c & t' & -> & -> & Hm). by constructor.
      * split; [inversion 1; subst; try done; eauto|]. intros (c & t' & -> & -> & Hm). by constructor.
Qed.

Lemma matches_skip t p : like_matches t (percent :: p) ↔ like_matches t (percent :: skip_percents p).
Proof.
  induction p as [|c p IH]; [done|]. cbn [skip_percents]. destruct (Z.eqb_spec c percent) as [->|]; [|done]. rewrite <- IH. rewrite !matches_percent. split; intros (n & Hn).
  - rewrite matches_percent in Hn. destruct Hn as (m & Hm). rewrite drop_drop in Hm. eauto.
  - exists n. rewrite matches_percent. exists 0%nat. by rewrite drop_0.
Qed.

Lemma matches_empty_text p : like_matches [] p ↔ skip_percents p = [].
Proof.
  induction p as [|c p IH]; [by rewrite matches_nil|]. cbn [skip_percents]. destruct (Z.eqb_spec c percent) as [->|Hc].
  - rewrite matches_percent, <- IH. split; [intros (n & Hn); by rewrite drop_nil in Hn|by exists 0%nat].
  - split; [|done]. by inversion 1.
Qed.

(** ** The loop *)

(** [n] units lead from [ps] to [p]. *)
Definition consumed (n : nat) (ps p : list Z) : Prop := ∀ t, like_matches t ps → (n ≤ length t)%nat ∧ like_matches (drop n t) p.

(** The text at hand is the text at the last percent sign without the characters
    consumed since. *)
Definition loop_inv (t p : list Z) (star : option (list Z * list Z)) : Prop :=
  match star with None => True | Some (ts, ps) => ∃ n, t = drop n ts ∧ (n ≤ length ts)%nat ∧ consumed n ps p end.

(** What is still to be found: a match here, or one that begins later. *)
Definition loop_answer (t p : list Z) (star : option (list Z * list Z)) : Prop :=
  like_matches t p ∨ match star with None => False | Some (ts, ps) => ∃ k, (1 ≤ k ≤ length ts)%nat ∧ like_matches (drop k ts) ps end.

Lemma answer_mismatch t p ts ps : ts ≠ [] → ¬ like_matches t p →
  loop_answer t p (Some (ts, ps)) ↔ loop_answer (tail ts) ps (Some (tail ts, ps)).
Proof.
  destruct ts as [|c ts]; [done|]. intros _ Hn. cbn [tail]. unfold loop_answer. split.
  - intros [?|(k & Hk & Hm)]; [done|]. destruct k as [|[|k]]; [lia| |]; cbn [drop] in Hm; [by left; rewrite drop_0 in Hm|]. right. exists (S k). cbn in Hk. split; [lia|done].
  - intros [Hm|(k & Hk & Hm)]; right; [exists 1%nat|exists (S k)]; cbn [length drop]; rewrite ?drop_0; split; (lia || done).
Qed.

(** At a percent sign the alternatives of the one before are given up: a match
    of theirs is a match here. *)
Lemma answer_percent t p' star : loop_inv t (percent :: p') star →
  loop_answer t (percent :: p') star ↔ loop_answer t (skip_percents p') (Some (t, skip_percents p')).
Proof.
  intros Hi. assert (Hstar : like_matches t (percent :: p') ↔ loop_answer t (skip_percents p') (Some (t, skip_percents p'))).
  { rewrite matches_skip, matches_percent. unfold loop_answer. split.
    - intros ([|n] & Hn); [rewrite drop_0 in Hn; by left|]. destruct (decide (S n ≤ length t)%nat); [right; exists (S n); split; [lia|done]|].
      rewrite drop_ge in Hn by lia. destruct t as [|c t]; [by left|]. right. exists (length (c :: t)). split; [cbn; lia|by rewrite drop_all].
    - intros [Hm|(k & _ & Hm)]; [exists 0%nat; by rewrite drop_0|by exists k]. }
  rewrite <- Hstar. split; [|by left]. intros [Hm|Halt]; [done|]. destruct star as [[ts ps]|]; [|done].
  destruct Halt as (k & Hk & Hm). destruct Hi as (n & -> & Hn & Hcons). destruct (Hcons _ Hm) as (_ & Hm'). rewrite drop_drop in Hm'.
  rewrite matches_percent in *. destruct Hm' as (j & Hj). exists (k + j)%nat. rewrite !drop_drop in *. by replace (n + (k + j))%nat with (k + n + j)%nat by lia.
Qed.

Lemma answer_unit c t' p ok p1 star : loop_inv (c :: t') p star → unit_of p = Some (ok, p1) → ok c →
  loop_inv t' p1 star ∧ (loop_answer (c :: t') p star ↔ loop_answer t' p1 star).
Proof.
  intros Hi Hu Hok. split.
  - destruct star as [[ts ps]|]; [|done]. destruct Hi as (n & Et & Hn & Hc). exists (S n). split_and!.
    + replace (S n) with (n + 1)%nat by lia. by rewrite <- drop_drop, <- Et.
    + apply (f_equal length) in Et. rewrite length_drop in Et. cbn in Et. lia.
    + intros t Hm. destruct (Hc t Hm) as (Hl & Hm'). apply (matches_unit _ _ _ _ Hu) in Hm' as (d & t1 & E & _ & Hm1). split.
      * apply (f_equal length) in E. rewrite length_drop in E. cbn in E. lia.
      * replace (S n) with (n + 1)%nat by lia. by rewrite <- drop_drop, E.
  - unfold loop_answer. rewrite (matches_unit _ _ _ _ Hu). split; (intros [Hm|?]; [left|by right]).
    + by destruct Hm as (? & ? & [= <- <-] & _ & Hm).
    + eauto.
Qed.

Lemma inv_restart ts ps : loop_inv ts ps (Some (ts, ps)).
Proof. exists 0%nat. split_and!; [done|lia|]. intros t Hm. split; [lia|by rewrite drop_0]. Qed.

Lemma length_skip p : (length (skip_percents p) ≤ length p)%nat.
Proof. induction p as [|c p IH]; [done|]. cbn. destruct (c =? percent); cbn; lia. Qed.

Lemma length_unit p ok p1 : unit_of p = Some (ok, p1) → (length p1 < length p)%nat.
Proof.
  destruct p as [|pc q]; [done|]. cbn. destruct (pc =? percent); [done|]. destruct (pc =? underscore); [intros [= <- <-]; lia|].
  unfold unescape. destruct q as [|e q]; [intros [= <- <-]; cbn; lia|]. destruct (pc =? backslash); intros [= <- <-]; cbn; lia.
Qed.

(** The bounds under which the weight decreases. *)
Definition bounded (N P : nat) (t p : list Z) (star : option (list Z * list Z)) : Prop :=
  match star with
  | None => (length t ≤ N)%nat ∧ (length p ≤ P)%nat
  | Some (ts, ps) => (length t ≤ length ts ≤ N)%nat ∧ (length p ≤ length ps)%nat
  end.
Definition weight (N P : nat) (t : list Z) (star : option (list Z * list Z)) : nat :=
  like_weight N (length t) ((λ '(ts, ps), (length ts, length ps)) <$> star) P.

Lemma weight_mismatch N P t p ts ps : ts ≠ [] → bounded N P t p (Some (ts, ps)) → t ≠ [] →
  bounded N P (tail ts) ps (Some (tail ts, ps)) ∧ (weight N P (tail ts) (Some (tail ts, ps)) < weight N P t (Some (ts, ps)))%nat.
Proof. destruct ts as [|d ts]; [done|]. destruct t as [|c t]; [done|]. intros _ (H1 & H2) _. unfold weight, bounded, like_weight. cbn [tail fmap option_fmap option_map length] in *. split; nia. Qed.

Lemma weight_percent N P t p' star : bounded N P t (percent :: p') star →
  bounded N P t (skip_percents p') (Some (t, skip_percents p')) ∧ (weight N P t (Some (t, skip_percents p')) < weight N P t star)%nat.
Proof.
  intros Hb. pose proof (length_skip p') as Hs. assert (Ht : (length t ≤ N)%nat) by (destruct star as [[ts ps]|]; cbn in Hb; lia).
  split; [cbn; lia|]. unfold weight, like_weight. destruct star as [[ts ps]|]; cbn [fmap option_fmap option_map]; cbn in Hb.
  - assert (S (length (skip_percents p')) ≤ length ps)%nat by lia. nia.
  - assert (S (length (skip_percents p')) ≤ P)%nat by lia. nia.
Qed.

Lemma weight_unit N P c t' p p1 star : (length p1 < length p)%nat → bounded N P (c :: t') p star → bounded N P t' p1 star ∧ (weight N P t' star < weight N P (c :: t') star)%nat.
Proof. intros Hl Hb. unfold weight, like_weight. destruct star as [[ts ps]|]; cbn in *; lia. Qed.

Lemma loop_correct N P fuel : ∀ t p star, loop_inv t p star → bounded N P t p star → (weight N P t star < fuel)%nat →
  ∃ b, like_loop fuel t p star = Some b ∧ (b = true ↔ loop_answer t p star).
Proof.
  induction fuel as [|fuel IH]; intros t p star Hi Hb Hw; [lia|]. cbn [like_loop]. destruct t as [|c t'].
  { eexists. split; [done|]. unfold loop_answer. rewrite matches_empty_text. assert (Hno : (match star with None => False | Some (ts, ps) => ∃ k, (1 ≤ k ≤ length ts)%nat ∧ like_matches (drop k ts) ps end) → skip_percents p = []).
    { destruct star as [[ts ps]|]; [|done]. intros (k & Hk & Hm). destruct Hi as (n & E & Hn & Hc). apply Hc in Hm as (Hl & Hm). rewrite length_drop in Hl. apply (f_equal length) in E. rewrite length_drop in E. cbn in E. lia. }
    destruct (skip_percents p); split; try done; [by left|]. intros [?|Ha]; [done|]. by apply Hno in Ha. }
  assert (Hmis : ¬ like_matches (c :: t') p → ∃ b, match star with Some (ts, ps) => like_loop fuel (tail ts) ps (Some (tail ts, ps)) | None => Some false end = Some b ∧ (b = true ↔ loop_answer (c :: t') p star)).
  { intros Hn. destruct star as [[ts ps]|]; [|exists false; split; [done|]; split; [done|by intros [?|?]]].
    assert (Hts : ts ≠ []) by (destruct Hi as (n & E & _); intros ->; by rewrite drop_nil in E).
    destruct (weight_mismatch N P (c :: t') p ts ps Hts Hb) as (Hb' & Hw'); [done|]. destruct (IH (tail ts) ps (Some (tail ts, ps))) as (b & Hr & Ha); [apply inv_restart|done|lia|].
    exists b. split; [done|]. by rewrite Ha, (answer_mismatch (c :: t')). }
  destruct p as [|pc p']; [apply Hmis; by inversion 1|]. destruct (Z.eqb_spec pc percent) as [->|Hp].
  - pose proof (answer_percent _ _ _ Hi) as Ha. destruct (weight_percent _ _ _ _ _ Hb) as (Hb' & Hw'). destruct (skip_percents p') as [|pc' p1] eqn:Es.
    + exists true. split; [done|]. split; [|done]. intros _. left. rewrite matches_skip, Es, matches_percent. exists (length (c :: t')). rewrite drop_all. constructor.
    + destruct (IH (c :: t') (pc' :: p1) (Some (c :: t', pc' :: p1))) as (b & Hr & Hb2); [apply inv_restart|done|lia|]. exists b. split; [done|]. by rewrite Hb2, Ha.
  - assert (Hgo : ∀ ok p1, unit_of (pc :: p') = Some (ok, p1) → ok c → ∃ b, like_loop fuel t' p1 star = Some b ∧ (b = true ↔ loop_answer (c :: t') (pc :: p') star)).
    { intros ok p1 Hu Hok. destruct (answer_unit _ _ _ _ _ _ Hi Hu Hok) as (Hi' & Ha). destruct (weight_unit N P c t' (pc :: p') p1 star) as (Hb' & Hw'); [by eapply length_unit|done|].
      destruct (IH t' p1 star) as (b & Hr & Hb2); [done|done|lia|]. exists b. split; [done|]. by rewrite Hb2, Ha. }
    destruct (Z.eqb_spec pc underscore) as [->|Hu]; [by apply (Hgo (λ _, True))|]. destruct (unescape pc p') as [e p1] eqn:Ee.
    assert (Hu1 : unit_of (pc :: p') = Some (λ c, c = e, p1)). { cbn [unit_of]. rewrite (proj2 (Z.eqb_neq _ _) Hp), (proj2 (Z.eqb_neq _ _) Hu), Ee. done. }
    destruct (Z.eqb_spec c e) as [->|Hce]; [by eapply Hgo|]. apply Hmis. rewrite (matches_unit _ _ _ _ Hu1). intros (? & ? & [= <- <-] & ? & _). done.
Qed.

(** On bytes, the answer is the specification's: the loop ends, and although a
    percent sign makes it forget the alternatives of the percent signs before, it
    misses no match. *)
Lemma match_like_bytes text pattern :
  like_loop (like_fuel text pattern) text pattern None = Some (MatchLike text pattern) ∧ (MatchLike text pattern = true ↔ like_matches text pattern).
Proof.
  destruct (loop_correct (length text) (length pattern) (like_fuel text pattern) text pattern None) as (b & Hr & Hb); [done|done|unfold like_fuel, weight; cbn; lia|].
  unfold MatchLike. rewrite Hr. cbn [default]. split; [done|]. rewrite Hb. unfold loop_answer. by intuition.
Qed.

(** [_] takes one byte, so it does not match a character of two. *)
Example underscore_is_a_byte : MatchLike [0xC3; 0xA9] [underscore] = false ∧ PgMbstrlenWithLen kUtf8 [0xC3; 0xA9] = 1.
Proof. by vm_compute. Qed.

(** ** LIKE on characters *)

Abbreviation utf8 cps := (cps ≫= CodepointToUtf8).

(** The pattern has an underscore that no backslash makes literal. *)
Fixpoint takes_any (p : list Z) : bool :=
  match p with
  | [] => false
  | c :: p' => if c =? backslash then match p' with [] => false | _ :: p'' => takes_any p'' end else (c =? underscore) || takes_any p'
  end.

(** What keeps [_] from meeting part of a character. *)
Definition any_is_char (t p : list Z) : Prop := takes_any p = true → Forall (λ c, c < 0x80) t.

Definition special (b : Z) : bool := (b =? percent) || (b =? underscore) || (b =? backslash).

Lemma special_high x : 0x80 ≤ x → special x = false.
Proof. intros ?. unfold special. by rewrite !(proj2 (Z.eqb_neq _ _)) by (unfold percent, underscore, backslash; lia). Qed.

Lemma special_char c b bs : codepoint c → CodepointToUtf8 c = b :: bs → special c = false → Forall (λ x, special x = false) (b :: bs).
Proof.
  intros Hc E Hs. destruct (char_bytes c Hc) as (b' & bs' & E' & _ & Hbs & Hb). rewrite E in E'. injection E' as <- <-.
  constructor; [destruct Hb as [(_ & -> & _)|(_ & ?)]; [done|by apply special_high]|]. eapply Forall_impl; [exact Hbs|]. exact special_high.
Qed.

(** Bytes without meaning of their own match themselves. *)
Lemma matches_literal bs q s : Forall (λ x, special x = false) bs → like_matches s (bs ++ q) ↔ ∃ s', s = bs ++ s' ∧ like_matches s' q.
Proof.
  intros Hbs. revert s. induction Hbs as [|b bs Hb _ IH]; intros s; [cbn; split; [eauto|by intros (? & -> & ?)]|]. unfold special in Hb.
  apply orb_false_iff in Hb as [[Hp Hu]%orb_false_iff He]. apply Z.eqb_neq in Hp, Hu, He. split.
  - cbn [app]. inversion 1; subst; try done. match goal with Hm : like_matches _ (bs ++ q) |- _ => apply IH in Hm as (s' & -> & ?) end. eauto.
  - intros (s' & -> & Hm). cbn [app]. constructor; [done..|]. apply IH. eauto.
Qed.

Lemma matches_char c q s : codepoint c → special c = false → like_matches s (CodepointToUtf8 c ++ q) ↔ ∃ s', s = CodepointToUtf8 c ++ s' ∧ like_matches s' q.
Proof. intros Hc Hs. destruct (char_bytes c Hc) as (b & bs & E & _). rewrite E. apply matches_literal. by eapply special_char. Qed.

(** A backslash before a character makes all of it literal. *)
Lemma matches_escaped c q s : codepoint c → like_matches s (backslash :: CodepointToUtf8 c ++ q) ↔ ∃ s', s = CodepointToUtf8 c ++ s' ∧ like_matches s' q.
Proof.
  intros Hc. destruct (char_bytes c Hc) as (b & bs & E & _ & Hbs & _). rewrite E. cbn [app].
  assert (Hl : Forall (λ x, special x = false) bs) by (eapply Forall_impl; [exact Hbs|exact special_high]). split.
  - inversion 1 as [| | | |? ? ? Hm|? ? ? ? ? Hx]; subst; try done; [|by specialize (Hx eq_refl)]. apply matches_literal in Hm as (s' & -> & ?); eauto.
  - intros (s' & -> & Hm). constructor. apply matches_literal; eauto.
Qed.

(** A character at the front of a text is the text's first character. *)
Lemma utf8_head c t s : codepoint c → Forall codepoint t → utf8 t = CodepointToUtf8 c ++ s → ∃ t', t = c :: t' ∧ s = utf8 t'.
Proof.
  intros Hc Ht E. destruct Ht as [|c' t' Hc' Ht]; [by destruct (char_bytes c Hc) as (b & bs & Eb & _); rewrite Eb in E|].
  cbn [mbind list_bind] in E. pose proof (codepoint_roundtrip c' (utf8 t') Hc') as H1. pose proof (codepoint_roundtrip c s Hc) as H2.
  rewrite E, H2 in H1. injection H1 as -> ->. eauto.
Qed.

(** Where a suffix of a text begins: at a character or inside one. *)
Lemma utf8_suffix t : Forall codepoint t → ∀ x y, utf8 t = x ++ y →
  (∃ t2, y = utf8 t2 ∧ t2 `suffix_of` t) ∨ ∃ b y', y = b :: y' ∧ continuation b = true ∧ ¬ Forall (λ c, c < 0x80) t.
Proof.
  induction 1 as [|c t Hc Ht IH]; intros x y E; [destruct x; [|done]; left; by exists []|].
  destruct x as [|b0 x]; [left; exists (c :: t); split; [done|reflexivity]|].
  destruct (utf8_shape c Hc) as (b & bs & Eb & _ & Hone & Hcont & _). cbn [mbind list_bind] in E. rewrite Eb in E. injection E as _ E.
  apply app_eq_inv in E as [(k & E1 & E2)|(k & E1 & E2)].
  - destruct k as [|d k]; [left; exists t; split; [by rewrite E2|by apply suffix_cons_r]|]. right. exists d, (k ++ utf8 t). split; [done|].
    rewrite E1, forallb_app in Hcont. cbn [forallb] in Hcont. apply andb_true_iff in Hcont as [_ [Hd _]%andb_true_iff]. split; [done|].
    intros [Hc' _]%Forall_cons. rewrite utf8_1 in Eb by (unfold codepoint in Hc; lia). injection Eb as _ <-. by destruct x.
  - destruct (IH k y E2) as [(t2 & -> & Hs)|(d & y' & -> & Hd & Hn)]; [left; exists t2; split; [done|by apply suffix_cons_r]|].
    right. exists d, y'. split_and!; [done..|]. by intros [_ ?]%Forall_cons.
Qed.

Lemma any_tail t p c q : any_is_char (c :: t) (q :: p) → q ≠ backslash → any_is_char t p.
Proof. intros Ha Hq Hp. cbn [takes_any] in Ha. unfold any_is_char in Ha. cbn in Ha. rewrite (proj2 (Z.eqb_neq _ _) Hq), Hp, orb_true_r in Ha. by apply Forall_cons in Ha as [_ ?]. Qed.

Lemma any_suffix t2 t p : t2 `suffix_of` t → any_is_char t p → any_is_char t2 p.
Proof. intros [t1 ->] Ha Hp. by apply Ha, Forall_app in Hp as [_ ?]. Qed.

(** The items a pattern begins with. *)
Lemma pattern_cases (p : list Z) : p = [] ∨ (∃ p', p = percent :: p') ∨ (∃ p', p = underscore :: p') ∨ p = [backslash] ∨
  (∃ c p', p = backslash :: c :: p') ∨ ∃ c p', p = c :: p' ∧ special c = false.
Proof.
  destruct p as [|c p]; [by left|]. right. destruct (Z.eqb_spec c percent) as [->|Hp]; [by left; eauto|]. right.
  destruct (Z.eqb_spec c underscore) as [->|Hu]; [by left; eauto|]. right. destruct (Z.eqb_spec c backslash) as [->|Hb].
  - destruct p; [by left|]. right; left; eauto.
  - right; right. exists c, p. unfold special. by rewrite !(proj2 (Z.eqb_neq _ _)) by done.
Qed.

(** Only a percent sign or an underscore matches inside a character. *)
Lemma matches_middle b y p : continuation b = true → Forall codepoint p → like_matches (b :: y) (utf8 p) → (∃ p', p = percent :: p') ∨ takes_any p = true.
Proof.
  intros Hb Hp Hm. destruct (pattern_cases p) as [->|[?|[(p' & ->)|[->|[(c & p' & ->)|(c & p' & -> & Hc)]]]]].
  - by inversion Hm.
  - by left.
  - by right.
  - inversion Hm; subst; done.
  - apply Forall_cons in Hp as [_ [Hc _]%Forall_cons]. change (utf8 (backslash :: c :: p')) with (backslash :: CodepointToUtf8 c ++ utf8 p') in Hm. apply (matches_escaped c (utf8 p') _ Hc) in Hm as (s' & E & _).
    destruct (char_bytes c Hc) as (d & ds & Ed & Hd & _). rewrite Ed in E. injection E as -> _. congruence.
  - apply Forall_cons in Hp as [Hcp _]. change (utf8 (c :: p')) with (CodepointToUtf8 c ++ utf8 p') in Hm. apply (matches_char c (utf8 p') _ Hcp Hc) in Hm as (s' & E & _).
    destruct (char_bytes c Hcp) as (d & ds & Ed & Hd & _). rewrite Ed in E. injection E as -> _. congruence.
Qed.

Lemma chars_to_bytes t p : like_matches t p → Forall codepoint t → Forall codepoint p → any_is_char t p → like_matches (utf8 t) (utf8 p).
Proof.
  induction 1 as [|t p Hm IH|c t p Hm IH|c t p Hm IH|c t p Hm IH|c t p Hp Hu Hb Hm IH]; intros Ht Hpat Ha.
  - constructor.
  - apply Forall_cons in Hpat as [_ ?]. apply like_skip. by apply IH.
  - apply Forall_cons in Ht as [_ ?]. change (utf8 (percent :: p)) with (percent :: utf8 p). rewrite matches_percent.
    assert (Hm' : like_matches (utf8 t) (percent :: utf8 p)) by (apply IH; [done..|]; intros Hp; by specialize (Ha Hp) as [_ ?]%Forall_cons).
    apply matches_percent in Hm' as (n & Hn). exists (length (CodepointToUtf8 c) + n)%nat. cbn [mbind list_bind].
    by rewrite <- drop_drop, drop_app_length.
  - pose proof (Ha eq_refl) as Hasc. apply Forall_cons in Hasc as [Hc Hasc]. apply Forall_cons in Ht as [Hcc ?]. apply Forall_cons in Hpat as [_ ?].
    cbn [mbind list_bind]. rewrite utf8_1 by (unfold codepoint in Hcc; lia). apply (like_any c). apply IH; [done..|]. by intros _.
  - apply Forall_cons in Ht as [Hc ?]. apply Forall_cons in Hpat as [_ [_ ?]%Forall_cons]. change (like_matches (CodepointToUtf8 c ++ utf8 t) (backslash :: CodepointToUtf8 c ++ utf8 p)). apply (matches_escaped c (utf8 p) _ Hc).
    eexists. split; [done|]. apply IH; [done..|]. intros Hp. by specialize (Ha Hp) as [_ ?]%Forall_cons.
  - apply Forall_cons in Ht as [Hc ?]. apply Forall_cons in Hpat as [_ ?]. destruct (decide (c = backslash)) as [->|Hbs].
    + rewrite (Hb eq_refl) in Hm |- *. apply matches_nil in Hm as ->. apply like_char; [done..|constructor].
    + change (like_matches (CodepointToUtf8 c ++ utf8 t) (CodepointToUtf8 c ++ utf8 p)). apply matches_char; [done|unfold special; by rewrite !(proj2 (Z.eqb_neq _ _)) by done|]. eexists. split; [done|]. apply IH; [done..|by eapply any_tail].
Qed.

(** A match on bytes is a match on characters, of the text and of some suffix of it. *)
Definition reads_chars (p : list Z) : Prop := ∀ t, Forall codepoint t → any_is_char t p → like_matches (utf8 t) (utf8 p) → like_matches t p.
Definition finds_chars (p : list Z) : Prop := ∀ t x y, Forall codepoint t → any_is_char t p → utf8 t = x ++ y → like_matches y (utf8 p) →
  ∃ t2, t2 `suffix_of` t ∧ like_matches t2 p.

Lemma percent_takes t p : any_is_char t (percent :: p) → any_is_char t p.
Proof. intros Ha Hp. by apply Ha. Qed.

Lemma finds_step p : Forall codepoint p → reads_chars p → (∀ p', p = percent :: p' → finds_chars p') → finds_chars p.
Proof.
  intros Hp Hr Hf t x y Ht Ha E Hm. destruct (utf8_suffix t Ht x y E) as [(t2 & -> & Hs)|(b & y' & -> & Hb & Hn)].
  - exists t2. split; [done|]. apply Hr; [|by eapply any_suffix|done]. destruct Hs as [t1 ->]. by apply Forall_app in Ht as [_ ?].
  - destruct (matches_middle _ _ _ Hb Hp Hm) as [(p' & ->)|Hany]; [|by specialize (Ha Hany)].
    change (utf8 (percent :: p')) with (percent :: utf8 p') in Hm. apply matches_percent in Hm as (n & Hm).
    destruct (Hf p' eq_refl t (x ++ take n (b :: y')) (drop n (b :: y')) Ht) as (t2 & Hs & Hm2); [by apply percent_takes|by rewrite <- app_assoc, take_drop|done|].
    exists t2. split; [done|]. by apply like_skip.
Qed.

(** One literal character of the pattern. *)
Lemma reads_literal c p' t s : codepoint c → Forall codepoint t → reads_chars p' → (∀ t', t = c :: t' → any_is_char t' p') →
  utf8 t = CodepointToUtf8 c ++ s → like_matches s (utf8 p') → ∃ t', t = c :: t' ∧ like_matches t' p'.
Proof.
  intros Hc Ht Hr Ha E Hm. destruct (utf8_head c t s Hc Ht E) as (t' & -> & ->). exists t'. split; [done|].
  apply Forall_cons in Ht as [_ ?]. apply Hr; [done|by apply Ha|done].
Qed.

Lemma reads_step p : Forall codepoint p → (∀ p', (length p' < length p)%nat → Forall codepoint p' → reads_chars p' ∧ finds_chars p') → reads_chars p.
Proof.
  intros Hp IH t Ht Ha Hm. destruct (pattern_cases p) as [->|[(p' & ->)|[(p' & ->)|[->|[(c & p' & ->)|(c & p' & -> & Hc)]]]]].
  - inversion Hm as [E| | | | |]. destruct Ht as [|c t Hc]; [constructor|]. destruct (char_bytes c Hc) as (b & bs & Eb & _). cbn in E. by rewrite Eb in E.
  - apply Forall_cons in Hp as [_ Hp]. destruct (IH p') as (_ & Hf); [cbn; lia|done|].
    change (utf8 (percent :: p')) with (percent :: utf8 p') in Hm. apply matches_percent in Hm as (n & Hm).
    destruct (Hf t (take n (utf8 t)) (drop n (utf8 t)) Ht) as (t2 & [t1 ->] & Hm2); [by apply percent_takes|by rewrite take_drop|done|].
    apply matches_percent. exists (length t1). by rewrite drop_app_length.
  - apply Forall_cons in Hp as [_ Hp]. destruct (IH p') as (Hr & _); [cbn; lia|done|]. pose proof (Ha eq_refl) as Hasc.
    change (utf8 (underscore :: p')) with (underscore :: utf8 p') in Hm. destruct t as [|c t]; [by inversion Hm|].
    apply Forall_cons in Hasc as [Hc Hasc]. apply Forall_cons in Ht as [Hcc Ht]. cbn [mbind list_bind] in Hm. rewrite utf8_1 in Hm by (unfold codepoint in Hcc; lia).
    apply like_any. apply Hr; [done|by intros _|]. inversion Hm; subst; done.
  - change (utf8 [backslash]) with [backslash] in Hm. inversion Hm as [| | | | |? s ? _ _ _ Hs E]; subst. apply matches_nil in Hs as ->.
    destruct (utf8_head backslash t [] ) as (t' & -> & E'); [done|done|by rewrite <- E|]. destruct t' as [|c t']; [apply like_char; [done..|constructor]|].
    apply Forall_cons in Ht as [_ [Hc _]%Forall_cons]. destruct (char_bytes c Hc) as (b & bs & Eb & _). cbn in E'. by rewrite Eb in E'.
  - apply Forall_cons in Hp as [_ [Hc Hp]%Forall_cons]. destruct (IH p') as (Hr & _); [cbn; lia|done|].
    change (utf8 (backslash :: c :: p')) with (backslash :: CodepointToUtf8 c ++ utf8 p') in Hm. apply (matches_escaped c (utf8 p') _ Hc) in Hm as (s & E & Hs). destruct (reads_literal c p' t s) as (t' & -> & Hm); [done..| |done|done|by constructor].
    intros t' -> Hp'. by specialize (Ha Hp') as [_ ?]%Forall_cons.
  - apply Forall_cons in Hp as [Hcp Hp]. destruct (IH p') as (Hr & _); [cbn; lia|done|]. change (utf8 (c :: p')) with (CodepointToUtf8 c ++ utf8 p') in Hm. apply (matches_char c (utf8 p') _ Hcp Hc) in Hm as (s & E & Hs).
    unfold special in Hc. apply orb_false_iff in Hc as [[Hc1 Hc2]%orb_false_iff Hc3]. apply Z.eqb_neq in Hc1, Hc2, Hc3.
    destruct (reads_literal c p' t s) as (t' & -> & Hm); [done..| |done|done|by constructor]. intros t' ->. by eapply any_tail.
Qed.

Lemma bytes_to_chars n : ∀ p, (length p ≤ n)%nat → Forall codepoint p → reads_chars p ∧ finds_chars p.
Proof.
  induction n as [|n IH]; intros p Hn Hp.
  - assert (Hr : reads_chars p) by (apply reads_step; [done|]; intros; lia). split; [done|]. apply finds_step; [done..|]. intros p' ->. cbn in Hn. lia.
  - assert (Hr : reads_chars p) by (apply reads_step; [done|]; intros p' Hl Hp'; apply IH; [lia|done]). split; [done|]. apply finds_step; [done..|].
    intros p' ->. apply Forall_cons in Hp as [_ Hp]. apply IH; [cbn in Hn; lia|done].
Qed.

(** C38: LIKE matches exactly the texts its pattern describes.  On the UTF-8 form
    of a text and a pattern of characters the loop ends, and its answer is that of
    the specification read on characters: [%] is any string, [_] any character, a
    backslash makes the next character literal, and no match begins or ends
    inside a character.  The code takes one byte for [_] where the comment says
    one character ([underscore_is_a_byte]), so a pattern with such an underscore
    is considered on ASCII texts only. *)
Theorem match_like_exact t p : Forall codepoint t → Forall codepoint p → (takes_any p = true → Forall (λ c, c < 0x80) t) →
  let text := PgWchar2Mb kUtf8 t in let pattern := PgWchar2Mb kUtf8 p in
  like_loop (like_fuel text pattern) text pattern None = Some (MatchLike text pattern) ∧ (MatchLike text pattern = true ↔ like_matches t p).
Proof.
  intros Ht Hp Ha text pattern. destruct (match_like_bytes text pattern) as (Hend & Hb). split; [done|]. rewrite Hb. split.
  - by apply (bytes_to_chars (length p)).
  - intros Hm. by apply chars_to_bytes.
Qed.

(** The text "aébé" against patterns with two percent signs. *)
Lemma match_like_exact_witness : like_matches [97; 0xE9; 98; 0xE9] [97; percent; 98; percent] ∧ ¬ like_matches [97; 0xE9; 98; 0xE9] [97; percent; 99; percent] ∧ like_matches [97; 98] [underscore; 98].
Proof.
  split_and!.
  - apply (match_like_exact [97; 0xE9; 98; 0xE9] [97; percent; 98; percent]); [by repeat constructor|by repeat constructor|done|by vm_compute].
  - intros Hm. apply (match_like_exact [97; 0xE9; 98; 0xE9] [97; percent; 99; percent]) in Hm; [by vm_compute in Hm|by repeat constructor|by repeat constructor|done].
  - apply (match_like_exact [97; 98] [underscore; 98]); [by repeat constructor..|by vm_compute].
Defined.

(** ** Text datums *)

(** What a datum has room for. *)
Definition text_size_ok (s : list Z) : Prop := 4 + Z.of_nat (length s) < 2 ^ 30.

Lemma text_roundtrip s : text_size_ok s → TextDatumToString (MakeTextDatum s) = s.
Proof.
  intros Hs. unfold text_size_ok in Hs. set (n := 4 + Z.of_nat (length s)) in *. unfold TextDatumToString, MakeTextDatum. cbn [DatumGetTextP]. fold n.
  assert (Hh : VARATT_HEADER (to_le 4 n ++ s) = n).
  { unfold VARATT_HEADER. rewrite take_app_le, take_ge by (by rewrite length_to_le). rewrite of_to_le. apply Z.mod_small. change (256 ^ Z.of_nat 4) with (2 ^ 32). lia. }
  assert (Hz : VARSIZE_DATA (to_le 4 n ++ s) = Z.of_nat (length s)).
  { unfold VARSIZE_DATA, VARSIZE, VARSIZE_ANY, VARATT_IS_EXTERNAL, has_flag. rewrite Hh.
    change kVarAttExternal with (2 ^ 31). change kVarAttSizeMask with (Z.ones 30). rewrite Z.land_ones by lia.
    rewrite flag_bit by lia. assert (Z.testbit n 31 = false) as ->. { apply Z.testbit_false; [lia|]. by rewrite (Z.div_small n) by lia. }
    rewrite Z.mod_small by lia. rewrite i32_small; lia. }
  rewrite Hz. unfold VARDATA. rewrite drop_app_ge, length_to_le by (by rewrite length_to_le). cbn [Nat.sub]. rewrite drop_0.
  destruct (Z.leb_spec (Z.of_nat (length s)) 0); [by destruct s; [|cbn in *; lia]|]. by rewrite Nat2Z.id, take_ge.
Qed.

(** ** Searching *)

Definition occurs (needle s : list Z) (n : nat) : Prop := (n ≤ length s)%nat ∧ is_prefix needle (drop n s) = true.

Lemma is_prefix_spec needle s : is_prefix needle s = true ↔ ∃ r, s = needle ++ r.
Proof.
  unfold is_prefix. rewrite bool_decide_eq_true. split; [|intros (r & ->); by rewrite take_app_length].
  intros E. exists (drop (length needle) s). rewrite <- E at 1. by rewrite take_drop.
Qed.

Lemma find_some needle s n : find needle s = Some n ↔ occurs needle s n ∧ ∀ m, (m < n)%nat → ¬ occurs needle s m.
Proof.
  unfold occurs. revert n. induction s as [|c s IH]; intros n; cbn [find].
  - destruct (is_prefix needle []) eqn:E.
    + split; [intros [= <-]; split; [done|lia]|]. intros ((H & _) & _). cbn in H. by replace n with 0%nat by lia.
    + split; [done|]. intros ((_ & H) & _). rewrite drop_nil in H. congruence.
  - destruct (is_prefix needle (c :: s)) eqn:E.
    + split; [intros [= <-]; split; [by split; [lia|]|lia]|]. intros (_ & H). destruct n; [done|]. destruct (H 0%nat); [lia|]. by split; [lia|].
    + destruct n as [|n]; [split; [by destruct (find needle s)|intros ((_ & H) & _); cbn in H; congruence]|].
      trans (find needle s = Some n); [destruct (find needle s); split; try done; (intros [= ->] || intros [= <-]); done|]. rewrite IH. cbn [drop length]. split.
      * intros ((H1 & H2) & H3). split; [split; [lia|done]|]. intros [|m] Hm; [cbn; intros (_ & ?); congruence|]. intros (H4 & H5). apply (H3 m); [lia|]. cbn in H4, H5. by split; [lia|].
      * intros ((H1 & H2) & H3). split; [split; [lia|done]|]. intros m Hm (H4 & H5). apply (H3 (S m)); [lia|]. by split; [lia|].
Qed.

Lemma find_absent needle s : find needle s = None ↔ ∀ n, ¬ occurs needle s n.
Proof.
  split.
  - intros Hn n. revert s Hn. unfold occurs. induction n as [|n IH]; intros s Hn (Hl & Hp).
    + rewrite drop_0 in Hp. destruct s; cbn [find] in Hn; by rewrite Hp in Hn.
    + destruct s as [|c s]; [cbn in Hl; lia|]. cbn [find] in Hn. destruct (is_prefix needle (c :: s)); [done|]. apply (IH s); [by destruct (find needle s)|]. cbn in *. split; [lia|done].
  - intros Hn. destruct (find needle s) as [n|] eqn:E; [|done]. apply find_some in E as (Ho & _). by destruct (Hn n).
Qed.

(** ** Splitting and replacing *)

Definition join (sep : list Z) (parts : list (list Z)) : list Z := match parts with [] => [] | p :: ps => p ++ (ps ≫= λ q, sep ++ q) end.

Lemma join_cons sep p q ps : join sep (p :: q :: ps) = p ++ sep ++ join sep (q :: ps).
Proof. cbn. by rewrite <- !app_assoc. Qed.

Lemma find_parts sep s n : find sep s = Some n → s = take n s ++ sep ++ drop (n + length sep) s.
Proof.
  intros ((Hl & Hp) & _)%find_some. apply is_prefix_spec in Hp as (r & Hr). rewrite <- (take_drop n s) at 1. f_equal. rewrite Hr. f_equal. by rewrite <- drop_drop, Hr, drop_app_length.
Qed.

(** The parts put together again are the text, and none contains the separator. *)
Lemma split_forward_spec sep fuel : sep ≠ [] → ∀ s, (length s < fuel)%nat →
  join sep (split_forward fuel sep s) = s ∧ Forall (λ p, find sep p = None) (split_forward fuel sep s) ∧ split_forward fuel sep s ≠ [].
Proof.
  intros Hsep. induction fuel as [|fuel IH]; intros s Hl; [lia|]. cbn [split_forward]. destruct (find sep s) as [n|] eqn:E.
  2: { cbn. rewrite app_nil_r. by split_and!; [|constructor|]. }
  pose proof (find_parts _ _ _ E) as Hs. apply (f_equal length) in Hs as Hlen. rewrite !length_app in Hlen. assert (Hn : length sep ≠ 0%nat) by (by destruct sep).
  destruct (IH (drop (n + length sep) s)) as (Hj & Hf & Hne); [lia|]. split_and!; [|constructor; [|done]|done].
  - destruct (split_forward fuel sep (drop (n + length sep) s)) as [|q ps]; [done|]. by rewrite join_cons, Hj.
  - apply find_some in E as ((Hln & Hp) & Hmin). apply find_absent. intros m (Hm & Hpm). rewrite length_take in Hm. apply is_prefix_spec in Hpm as (r & Hr).
    assert (length (drop m (take n s)) = length (sep ++ r)) as Hlr by (by rewrite Hr). rewrite length_drop, length_take, length_app in Hlr. apply (Hmin m); [lia|]. split; [lia|].
    apply is_prefix_spec. exists (r ++ drop n s). rewrite app_assoc, <- Hr. rewrite <- (take_drop n s) at 1. rewrite drop_app_le by (rewrite length_take; lia). done.
Qed.

Lemma replace_join from to fuel : from ≠ [] → ∀ s, (length s ≤ fuel)%nat → replace_loop fuel from to s = join to (split_forward (S fuel) from s).
Proof.
  intros Hf. induction fuel as [|fuel IH]; intros s Hl.
  - destruct s; [|cbn in Hl; lia]. cbn. destruct (is_prefix from []) eqn:E; [|done]. apply is_prefix_spec in E as (r & Hr). destruct from; [done|]. by cbn in Hr.
  - destruct s as [|c s].
    + cbn. destruct (is_prefix from []) eqn:E; [|done]. apply is_prefix_spec in E as (r & Hr). destruct from; [done|]. by cbn in Hr.
    + change (replace_loop (S fuel) from to (c :: s)) with (match find from (c :: s) with None => c :: s | Some found => take found (c :: s) ++ to ++ replace_loop fuel from to (drop (found + length from) (c :: s)) end).
      change (split_forward (S (S fuel)) from (c :: s)) with (match find from (c :: s) with None => [c :: s] | Some pos => take pos (c :: s) :: split_forward (S fuel) from (drop (pos + length from) (c :: s)) end).
      destruct (find from (c :: s)) as [n|]; [|cbn; by rewrite app_nil_r]. assert (Hn : length from ≠ 0%nat) by (by destruct from).
      assert (Hd : (length (drop (n + length from) (c :: s)) ≤ fuel)%nat) by (rewrite length_drop; lia). rewrite (IH _ Hd).
      destruct (split_forward_spec from (S fuel) Hf (drop (n + length from) (c :: s))) as (_ & _ & Hne); [lia|]. destruct (split_forward (S fuel) from (drop (n + length from) (c :: s))) as [|q ps]; [done|]. by rewrite join_cons.
Qed.

Lemma split_forward_length sep fuel s : (length (split_forward fuel sep s) ≤ fuel)%nat.
Proof. revert s. induction fuel as [|fuel IH]; intros s; cbn; [done|]. destruct (find sep s); cbn; [|lia]. specialize (IH (drop (n + length sep) s)). lia. Qed.

(** [replace] and [split_part] cut a text at the same places.  The parts
    put together with the separator are the text, none contains the separator,
    [split_part] returns the part asked for, or nothing past the last, and
    [replace] puts the parts together with the new text. *)
Theorem split_and_replace_exact s sep to field : text_size_ok s → text_size_ok sep → text_size_ok to → sep ≠ [] → 0 < field < 2 ^ 31 →
  let parts := split_forward (S (length s)) sep s in
  join sep parts = s ∧ Forall (λ p, find sep p = None) parts ∧
  text_replace (MakeTextDatum s) (MakeTextDatum sep) (MakeTextDatum to) = MakeTextDatum (join to parts) ∧
  text_split_part (MakeTextDatum s) (MakeTextDatum sep) (Int32GetDatum field) = Ret (MakeTextDatum (default [] (parts !! Z.to_nat (field - 1)))).
Proof.
  intros Hs Hsep Hto Hne Hf parts. destruct (split_forward_spec sep (S (length s)) Hne s) as (Hj & Hp & _); [lia|]. split; [done|]. split; [done|].
  unfold text_replace, text_split_part. rewrite !text_roundtrip by done. rewrite bool_decide_false by done. rewrite replace_join by (done || lia). split; [done|].
  assert (DatumGetInt32 (Int32GetDatum field) = field) as ->. { unfold DatumGetInt32, Tuplesort.DatumGetInt32, Int32GetDatum. cbn [word_of]. rewrite i32_u32. apply i32_small. lia. }
  rewrite (proj2 (Z.eqb_neq field 0)), (proj2 (Z.ltb_lt 0 field)) by lia. fold parts. pose proof (split_forward_length sep (S (length s)) s) as Hl. fold parts in Hl. unfold text_size_ok in Hs.
  rewrite (i32_small (Z.of_nat (length parts))) by lia. destruct (Z.ltb_spec (Z.of_nat (length parts)) field); [|done]. by rewrite lookup_ge_None_2 by lia.
Qed.

Lemma split_and_replace_exact_witness :
  let s := bytes_of "to be or not to be" in
  text_replace (MakeTextDatum s) (MakeTextDatum (bytes_of "be")) (MakeTextDatum (bytes_of "do")) = MakeTextDatum (bytes_of "to do or not to do") ∧
  text_split_part (MakeTextDatum s) (MakeTextDatum (bytes_of "be")) (Int32GetDatum 2) = Ret (MakeTextDatum (bytes_of " or not to ")).
Proof.
  intros s. destruct (split_and_replace_exact s (bytes_of "be") (bytes_of "do") 2) as (_ & _ & -> & ->); [done..|]. by vm_compute.
Defined.

(** [position] finds the first occurrence, counted from 1, and 0 means that there is none. *)
Theorem position_exact s needle : text_size_ok s → text_size_ok needle → needle ≠ [] →
  let pos := DatumGetInt32 (text_position (MakeTextDatum s) (MakeTextDatum needle)) in
  (pos = 0 ∧ ∀ n, ¬ occurs needle s n) ∨ (0 < pos ∧ occurs needle s (Z.to_nat (pos - 1)) ∧ ∀ m, Z.of_nat m < pos - 1 → ¬ occurs needle s m).
Proof.
  intros Hs Hn Hne. unfold text_position. rewrite !text_roundtrip by done. rewrite bool_decide_false by done. unfold text_size_ok in Hs.
  assert (Hi : ∀ z, 0 ≤ z < 2 ^ 31 → DatumGetInt32 (Int32GetDatum z) = z). { intros z Hz. unfold DatumGetInt32, Tuplesort.DatumGetInt32, Int32GetDatum. cbn [word_of]. rewrite i32_u32. apply i32_small. lia. }
  destruct (find needle s) as [n|] eqn:E; [|left; rewrite Hi by lia; split; [done|by apply find_absent]].
  apply find_some in E as (Ho & Hmin). pose proof Ho as (Hl & _). right. rewrite Hi by lia. replace (Z.to_nat (Z.of_nat n + 1 - 1)) with n by lia. split; [lia|]. split; [done|]. intros m Hm. apply Hmin. lia.
Qed.

(** Padding and cutting give exactly the length asked for. *)
Lemma length_pad left s fill target : text_size_ok s → text_size_ok fill → fill ≠ [] → 0 < target < 2 ^ 31 →
  ∃ r, pad_text left (MakeTextDatum s) (Int32GetDatum target) (MakeTextDatum fill) = MakeTextDatum r ∧ Z.of_nat (length r) = target.
Proof.
  intros Hs Hf Hne Ht. unfold pad_text. rewrite !text_roundtrip by done.
  assert (DatumGetInt32 (Int32GetDatum target) = target) as ->. { unfold DatumGetInt32, Tuplesort.DatumGetInt32, Int32GetDatum. cbn [word_of]. rewrite i32_u32. apply i32_small. lia. }
  rewrite (proj2 (Z.leb_gt target 0)) by lia. destruct (Z.leb_spec target (Z.of_nat (length s))).
  - eexists. split; [done|]. unfold substr. rewrite drop_0, length_take. lia.
  - eexists. split; [done|]. unfold padding. rewrite bool_decide_false by done. destruct left; rewrite length_app, length_fmap, length_seq; lia.
Qed.

(** Counting fields from the end goes wrong when separators overlap: the part
    before the last separator ends inside another occurrence. *)
Theorem overlapping_separators_break_split_part :
  text_split_part (MakeTextDatum (bytes_of "aaab")) (MakeTextDatum (bytes_of "aa")) (Int32GetDatum (-2)) = Ret (MakeTextDatum (bytes_of "ab")).
Proof. by vm_compute. Qed.

(** [left] counts bytes where [length] counts characters. *)
Theorem left_cuts_characters :
  text_left (MakeTextDatum [0xC3; 0xA9]) (Int32GetDatum 1) = MakeTextDatum [0xC3] ∧ text_length kUtf8 (MakeTextDatum [0xC3; 0xA9]) = Int32GetDatum 1.
Proof. by vm_compute. Qed.

End TextSpec.
