(* ===== verification/Datetime.v ===== *)
(** * Dates and timestamps

    src/types/datetime.cpp: the Julian calendar arithmetic, the parts of a
    timestamp, their text, [date_trunc] and [extract].

    The calendar computes with exact integers.  The code's [int]s hold every
    intermediate value for the days of a 64-bit timestamp; from years past five
    million, which only texts can name, its arithmetic overflows, which is undefined.
    [sscanf] is the list of the values it converts, and [double]s are the
    standard library's specification floats.  Texts are lists of characters, field
    names lists of bytes. *)

From Stdlib Require Import Ascii Floats.SpecFloat.
From stdpp Require Import base list strings.
From S2P Require Import Prelude CString HeapForm TupleTape Tuplesort Multibyte TextFuncs Numeric.

Module Datetime.
Import CString HeapForm TupleTape Multibyte TextFuncs.

Definition kTimestampEpochJdate : Z := 2451545.
Definition kSecsPerDay : Z := 86400.
Definition kMicrosecsPerSec : Z := 1000000.

(** ** The calendar *)

Definition DateToJulian (year month day : Z) : Z :=
  let a := (14 - month) ÷ 12 in
  let y := year + 4800 - a in
  let m := month + 12 * a - 3 in
  day + (153 * m + 2) ÷ 5 + 365 * y + y ÷ 4 - y ÷ 100 + y ÷ 400 - 32045.

Definition JulianToDate (jdn : Z) : Z * Z * Z :=
  let a := jdn + 32044 in
  let b := (4 * a + 3) ÷ 146097 in
  let c := a - (146097 * b) ÷ 4 in
  let d := (4 * c + 3) ÷ 1461 in
  let e := c - (1461 * d) ÷ 4 in
  let m := (5 * e + 2) ÷ 153 in
  (100 * b + d - 4800 + m ÷ 10, m + 3 - 12 * (m ÷ 10), e - (153 * m + 2) ÷ 5 + 1).

Definition DateToDays (year month day : Z) : Z := DateToJulian year month day - kTimestampEpochJdate.
Definition DaysToDateParts (days : Z) : Z * Z * Z := JulianToDate (days + kTimestampEpochJdate).

Definition IsLeapYear (year : Z) : bool := (Z.rem year 4 =? 0) && negb (Z.rem year 100 =? 0) || (Z.rem year 400 =? 0).
Definition kDaysInMonth : list Z := [31; 28; 31; 30; 31; 30; 31; 31; 30; 31; 30; 31].
Definition DaysInMonth (year month : Z) : Z :=
  if (month =? 2) && IsLeapYear year then 29 else default 0 (kDaysInMonth !! Z.to_nat (month - 1)).

(** ** The parts of a timestamp *)

Record TimestampParts := mkParts { year : Z; month : Z; day : Z; hour : Z; minute : Z; second : Z; microsec : Z }.

Definition TimestampToParts (ts : Z) : TimestampParts :=
  let days := ts ÷ (kSecsPerDay * kMicrosecsPerSec) in
  let micros_in_day := Z.rem ts (kSecsPerDay * kMicrosecsPerSec) in
  let '(days, micros_in_day) :=
    if micros_in_day <? 0 then (days - 1, micros_in_day + kSecsPerDay * kMicrosecsPerSec) else (days, micros_in_day) in
  let '(y, m, d) := DaysToDateParts (i32 days) in
  let secs := micros_in_day ÷ kMicrosecsPerSec in
  mkParts y m d (secs ÷ 3600) (Z.rem secs 3600 ÷ 60) (Z.rem (Z.rem secs 3600) 60) (Z.rem micros_in_day kMicrosecsPerSec).

Definition PartsToTimestamp (p : TimestampParts) : Z :=
  let days := DateToDays (year p) (month p) (day p) in
  let secs := hour p * 3600 + minute p * 60 + second p in
  days * kSecsPerDay * kMicrosecsPerSec + secs * kMicrosecsPerSec + microsec p.

(** ** Text *)

Inductive directive := Int | Char | Literal (c : ascii).

(** The integers and characters [sscanf] converts, in order; a character counts
    as a conversion and its value is not kept. *)
Fixpoint sscanf (format : list directive) (s : list ascii) : list Z :=
  match format with
  | [] => []
  | Int :: format' => match scan_integer 10 s with Some (neg, v, rest) => i32 (if neg then - v else v) :: sscanf format' rest | None => [] end
  | Char :: format' => match s with _ :: rest => 0 :: sscanf format' rest | [] => [] end
  | Literal c :: format' => match s with c' :: rest => if Ascii.eqb c c' then sscanf format' rest else [] | [] => [] end
  end.

Definition date_format : list directive := [Int; Literal "-"; Int; Literal "-"; Int].
Definition timestamp_format : list directive :=
  date_format ++ [Char; Int; Literal ":"; Int; Literal ":"; Int; Literal "."; Int].

Definition quoted (s : list ascii) : string := of_chars (ascii_of_N 34 :: s ++ [ascii_of_N 34]).
(** A variable that [sscanf] did not reach keeps its zero. *)
Definition nth_value (values : list Z) (i : nat) : Z := default 0 (values !! i).

Definition timestamp_in (str : option (list ascii)) : outcome Datum :=
  match str with
  | None => Ereport "invalid input syntax for type timestamp: NULL"
  | Some str =>
      let v := sscanf timestamp_format str in
      let n := length v in
      let v := if (n <? 3)%nat then sscanf date_format str else v in
      if (n <? 3)%nat && negb (length v =? 3)%nat then Ereport ("invalid input syntax for type timestamp: " +:+ quoted str)
      else
        let y := nth_value v 0 in let m := nth_value v 1 in let d := nth_value v 2 in
        let h := nth_value v 4 in let mi := nth_value v 5 in let s := nth_value v 6 in
        if (m <? 1) || (12 <? m) then Ereport "timestamp field value out of range: month"
        else if (d <? 1) || (DaysInMonth y m <? d) then Ereport "timestamp field value out of range: day"
        else if (h <? 0) || (23 <? h) || (mi <? 0) || (59 <? mi) || (s <? 0) || (59 <? s) then Ereport "timestamp field value out of range: time"
        else Ret (Int64GetDatum (PartsToTimestamp (mkParts y m d h mi s (nth_value v 7))))
  end.

(** "%0<width>d". *)
Definition print_int (width : nat) (z : Z) : list ascii :=
  if z <? 0 then "-"%char :: print_padded 10 (width - 1) 10 (- z) else print_padded 10 width 10 z.
Definition print_date (y m d : Z) : list ascii := print_int 4 y ++ "-"%char :: print_int 2 m ++ "-"%char :: print_int 2 d.

Definition timestamp_out (value : Datum) : list ascii :=
  let p := TimestampToParts (Tuplesort.DatumGetInt64 value) in
  print_date (year p) (month p) (day p) ++ " "%char :: print_int 2 (hour p) ++ ":"%char :: print_int 2 (minute p) ++ ":"%char :: print_int 2 (second p) ++
  (if 0 <? microsec p then "."%char :: print_int 6 (microsec p) else []).

Definition date_in (str : option (list ascii)) : outcome Datum :=
  match str with
  | None => Ereport "invalid input syntax for type date: NULL"
  | Some str =>
      let v := sscanf date_format str in
      if negb (length v =? 3)%nat then Ereport ("invalid input syntax for type date: " +:+ quoted str)
      else
        let y := nth_value v 0 in let m := nth_value v 1 in let d := nth_value v 2 in
        if (m <? 1) || (12 <? m) then Ereport "date field value out of range: month"
        else if (d <? 1) || (DaysInMonth y m <? d) then Ereport "date field value out of range: day"
        else Ret (Int32GetDatum (DateToDays y m d))
  end.

Definition date_out (value : Datum) : list ascii :=
  let '(y, m, d) := DaysToDateParts (DatumGetInt32 value) in print_date y m d.

(** ** Comparisons *)

Definition timestamp_cmp (a b : Datum) : Z := Tuplesort.compare_int (Tuplesort.DatumGetInt64 a) (Tuplesort.DatumGetInt64 b).
Definition date_cmp (a b : Datum) : Z := Tuplesort.compare_int (DatumGetInt32 a) (DatumGetInt32 b).
Definition timestamp_eq (a b : Datum) : Datum := BoolGetDatum (timestamp_cmp a b =? 0).
Definition timestamp_ne (a b : Datum) : Datum := BoolGetDatum (negb (timestamp_cmp a b =? 0)).
Definition timestamp_lt (a b : Datum) : Datum := BoolGetDatum (timestamp_cmp a b <? 0).
Definition timestamp_le (a b : Datum) : Datum := BoolGetDatum (timestamp_cmp a b <=? 0).
Definition timestamp_gt (a b : Datum) : Datum := BoolGetDatum (0 <? timestamp_cmp a b).
Definition timestamp_ge (a b : Datum) : Datum := BoolGetDatum (0 <=? timestamp_cmp a b).
Definition date_eq (a b : Datum) : Datum := BoolGetDatum (date_cmp a b =? 0).
Definition date_ne (a b : Datum) : Datum := BoolGetDatum (negb (date_cmp a b =? 0)).
Definition date_lt (a b : Datum) : Datum := BoolGetDatum (date_cmp a b <? 0).
Definition date_le (a b : Datum) : Datum := BoolGetDatum (date_cmp a b <=? 0).
Definition date_gt (a b : Datum) : Datum := BoolGetDatum (0 <? date_cmp a b).
Definition date_ge (a b : Datum) : Datum := BoolGetDatum (0 <=? date_cmp a b).

(** ** [date_trunc] *)

Definition IStringEq (a : list Z) (b : string) : bool := bool_decide (tolower <$> a = tolower <$> bytes_of b).

Definition at_time (p : TimestampParts) (h mi s us : Z) : TimestampParts := mkParts (year p) (month p) (day p) h mi s us.
Definition at_date (y m d : Z) : TimestampParts := mkParts y m d 0 0 0 0.

(** [snprintf] into 256 bytes. *)
Definition unknown_field (who : string) (field : list Z) : string :=
  of_chars (take 255 (chars (who +:+ ": unknown field " +:+ quoted ((λ c, ascii_of_N (Z.to_N c)) <$> field)))).

Definition trunc_week (p : TimestampParts) : TimestampParts :=
  let days := DateToDays (year p) (month p) (day p) in
  let dow := Z.rem (days + 6) 7 in
  if negb (dow =? 1) then
    let delta := if dow =? 0 then -6 else 1 - dow in
    let '(y, m, d) := DaysToDateParts (days + delta) in at_date y m d
  else at_date (year p) (month p) (day p).

Definition trunc_parts (f : list Z) (p : TimestampParts) : option TimestampParts :=
  if IStringEq f "microseconds" then Some p
  else if IStringEq f "milliseconds" then Some (at_time p (hour p) (minute p) (second p) (microsec p ÷ 1000 * 1000))
  else if IStringEq f "second" then Some (at_time p (hour p) (minute p) (second p) 0)
  else if IStringEq f "minute" then Some (at_time p (hour p) (minute p) 0 0)
  else if IStringEq f "hour" then Some (at_time p (hour p) 0 0 0)
  else if IStringEq f "day" then Some (at_time p 0 0 0 0)
  else if IStringEq f "week" then Some (trunc_week p)
  else if IStringEq f "month" then Some (at_date (year p) (month p) 1)
  else if IStringEq f "quarter" then Some (at_date (year p) ((month p - 1) ÷ 3 * 3 + 1) 1)
  else if IStringEq f "year" then Some (at_date (year p) 1 1)
  else if IStringEq f "decade" then Some (at_date (year p ÷ 10 * 10) 1 1)
  else if IStringEq f "century" then Some (at_date ((year p - 1) ÷ 100 * 100 + 1) 1 1)
  else if IStringEq f "millennium" then Some (at_date ((year p - 1) ÷ 1000 * 1000 + 1) 1 1)
  else None.

Definition date_trunc (field : option (list Z)) (timestamp : Datum) : outcome Datum :=
  match field with
  | None => Ereport "date_trunc: field is null"
  | Some field =>
      match trunc_parts field (TimestampToParts (Tuplesort.DatumGetInt64 timestamp)) with
      | Some p => Ret (Int64GetDatum (PartsToTimestamp p))
      | None => Ereport (unknown_field "date_trunc" field)
      end
  end.

(** ** [extract] *)

(** The bits of a [double], not a NaN. *)
Definition float_bits (f : spec_float) : Z :=
  let signed s z := if (s : bool) then z + 2 ^ 63 else z in
  match f with
  | S754_zero s => signed s 0
  | S754_infinity s => signed s (2047 * 2 ^ 52)
  | S754_nan => 2047 * 2 ^ 52 + 2 ^ 51
  | S754_finite s m e => signed s (if Zpos m <? 2 ^ 52 then Zpos m else (e + 1075) * 2 ^ 52 + (Zpos m - 2 ^ 52))
  end.
Definition Float8GetDatum (f : spec_float) : Datum := DVal (float_bits f).

Definition fadd : spec_float → spec_float → spec_float := SFadd Numeric.prec Numeric.emax.
Definition fmul : spec_float → spec_float → spec_float := SFmul Numeric.prec Numeric.emax.
Definition fdiv : spec_float → spec_float → spec_float := SFdiv Numeric.prec Numeric.emax.
Definition float (z : Z) : spec_float := Numeric.float_of_int z.

(** The days since 2000-01-01, and those of the first day of the year. *)
Definition parts_days (p : TimestampParts) : Z := DateToDays (year p) (month p) (day p).
Definition day_of_year (p : TimestampParts) : Z := parts_days p - DateToDays (year p) 1 1 + 1.

Definition extract_field (f : list Z) (ts : Z) (p : TimestampParts) : option spec_float :=
  if IStringEq f "microsecond" then Some (fadd (fmul (float (second p)) (float 1000000)) (float (microsec p)))
  else if IStringEq f "millisecond" then Some (fadd (fmul (float (second p)) (float 1000)) (fdiv (float (microsec p)) (float 1000)))
  else if IStringEq f "second" then Some (fadd (float (second p)) (fdiv (float (microsec p)) (float 1000000)))
  else if IStringEq f "minute" then Some (float (minute p))
  else if IStringEq f "hour" then Some (float (hour p))
  else if IStringEq f "day" then Some (float (day p))
  else if IStringEq f "dow" then Some (float (Z.rem (parts_days p + 6) 7))
  else if IStringEq f "doy" then Some (float (day_of_year p))
  else if IStringEq f "week" then Some (float ((day_of_year p - 1) ÷ 7 + 1))
  else if IStringEq f "month" then Some (float (month p))
  else if IStringEq f "quarter" then Some (float ((month p - 1) ÷ 3 + 1))
  else if IStringEq f "year" then Some (float (year p))
  else if IStringEq f "decade" then Some (float (year p ÷ 10))
  else if IStringEq f "century" then Some (float ((year p - 1) ÷ 100 + 1))
  else if IStringEq f "millennium" then Some (float ((year p - 1) ÷ 1000 + 1))
  else if IStringEq f "epoch" then Some (fadd (fdiv (float ts) (float kMicrosecsPerSec)) (fmul (float 10957) (float kSecsPerDay)))
  else None.

Definition extract (field : option (list Z)) (timestamp : Datum) : outcome Datum :=
  match field with
  | None => Ereport "extract: field is null"
  | Some field =>
      let ts := Tuplesort.DatumGetInt64 timestamp in
      match extract_field field ts (TimestampToParts ts) with
      | Some r => Ret (Float8GetDatum r)
      | None => Ereport (unknown_field "extract" field)
      end
  end.

End Datetime.
