(* ===== verification/DatetimeSpec.v ===== *)
(** * The calendar is a bijection, and timestamps survive their text

    Dates and day numbers, timestamps and their parts, and the text forms go
    forth and back. *)

From Stdlib Require Import Ascii Lia Floats.SpecFloat.
From stdpp Require Import base list strings.
From S2P Require Import Prelude CString HeapForm TupleTape Tuplesort Multibyte TextFuncs Numeric Datetime.

Module DatetimeSpec.
Import CString HeapForm TupleTape Multibyte TextFuncs Datetime.
#[local] Ltac Zify.zify_post_hook ::= Z.to_euclidean_division_equations.

(** ** The calendar *)

(** A date of the proleptic Gregorian calendar from 1 March 4801 BC on. *)
Definition valid_date (y m d : Z) : Prop := 1 ≤ m ≤ 12 ∧ 1 ≤ d ≤ DaysInMonth y m ∧ (-4800 < y ∨ y = -4800 ∧ 3 ≤ m).

(** The calendar with years from March on: [m] from 0 is March, [doy] counts from 0. *)
Definition march_days (y doy : Z) : Z := 365 * y + y / 4 - y / 100 + y / 400 + doy.
Definition march_leap (y : Z) : bool := ((y + 1) `mod` 4 =? 0) && negb ((y + 1) `mod` 100 =? 0) || ((y + 1) `mod` 400 =? 0).

(** The steps of [JulianToDate] find the century, the year in it and the day. *)
Lemma march_century y doy : 0 ≤ y → 0 ≤ doy ≤ 365 → (doy = 365 → march_leap y = true) →
  (4 * march_days y doy + 3) / 146097 = y / 100.
Proof.
  intros Hy Hd Hl. unfold march_days. set (c := y / 100). set (r := y mod 100). assert (Ey : y = 100 * c + r ∧ 0 ≤ r < 100) by (unfold c, r; lia). clearbody c r. destruct Ey as (-> & Hr).
  replace ((100 * c + r) / 4) with (25 * c + r / 4) by lia. replace ((100 * c + r) / 400) with (c / 4) by lia. replace ((100 * c + r) / 100) with c by lia.
  assert (Hlast : r = 99 → doy = 365 → c mod 4 = 3). { intros -> ->. specialize (Hl eq_refl). unfold march_leap in Hl. apply orb_true_iff in Hl as [Hl|Hl]; [apply andb_true_iff in Hl as [_ Hl]|]; to_prop; lia. }
  symmetry. apply (Z.div_unique_pos _ _ _ (4 * (365 * r + r / 4 + doy) + 3 - c mod 4)); [|lia].
  assert (365 * r + r / 4 + doy ≤ 36523 ∨ c mod 4 = 3 ∧ 365 * r + r / 4 + doy = 36524) as [?|[? ?]]; lia.
Qed.

Lemma march_year y doy : 0 ≤ y → 0 ≤ doy ≤ 365 → (doy = 365 → march_leap y = true) →
  let c := march_days y doy - (146097 * (y / 100)) / 4 in (4 * c + 3) / 1461 = y mod 100 ∧ c - (1461 * (y mod 100)) / 4 = doy.
Proof.
  intros Hy Hd Hl. cbv zeta. unfold march_days. set (c := y / 100). set (r := y mod 100). assert (Ey : y = 100 * c + r ∧ 0 ≤ r < 100) by (unfold c, r; lia). clearbody c r. destruct Ey as (-> & Hr).
  replace ((100 * c + r) / 4) with (25 * c + r / 4) by lia. replace ((100 * c + r) / 400) with (c / 4) by lia. replace ((100 * c + r) / 100) with c by lia.
  replace ((146097 * c) / 4) with (36524 * c + c / 4) by lia. replace ((1461 * r) / 4) with (365 * r + r / 4) by lia. split; [|lia].
  assert (Hlast : doy = 365 → r mod 4 = 3). { intros ->. specialize (Hl eq_refl). unfold march_leap in Hl. apply orb_true_iff in Hl as [Hl|Hl]; [apply andb_true_iff in Hl as [Hl _]|]; to_prop; lia. }
  symmetry. apply (Z.div_unique_pos _ _ _ (4 * doy + 3 - r mod 4)); [|lia]. assert (doy ≤ 364 ∨ r mod 4 = 3) as [?|?]; lia.
Qed.

(** Month [k] from March and day [d], as a day of the year. *)
Definition march_doy (k d : Z) : Z := (153 * k + 2) / 5 + d - 1.

Lemma march_month k d : 0 ≤ k ≤ 11 → 1 ≤ d ≤ (153 * (k + 1) + 2) / 5 - (153 * k + 2) / 5 → (5 * march_doy k d + 2) / 153 = k.
Proof. intros Hk Hd. unfold march_doy. assert (k = 0 ∨ k = 1 ∨ k = 2 ∨ k = 3 ∨ k = 4 ∨ k = 5 ∨ k = 6 ∨ k = 7 ∨ k = 8 ∨ k = 9 ∨ k = 10 ∨ k = 11) as Hc by lia. repeat destruct Hc as [->|Hc]; [lia..|]. subst k. lia. Qed.

(** The month and year of the calendar for those from March. *)
Definition civil (y k : Z) : Z * Z := (y - 4800 + k / 10, k + 3 - 12 * (k / 10)).

Lemma julian_to_date y k d : 0 ≤ y → 0 ≤ k ≤ 11 → 1 ≤ d ≤ (153 * (k + 1) + 2) / 5 - (153 * k + 2) / 5 → march_doy k d ≤ 365 → (march_doy k d = 365 → march_leap y = true) →
  JulianToDate (march_days y (march_doy k d) - 32044) = (civil y k, d).
Proof.
  intros Hy Hk Hd Hdoy Hl. assert (Hdoy' : 0 ≤ march_doy k d ≤ 365) by (unfold march_doy in *; lia). assert (Hpos : 0 ≤ march_days y (march_doy k d)) by (unfold march_days; lia).
  unfold JulianToDate. replace (march_days y (march_doy k d) - 32044 + 32044) with (march_days y (march_doy k d)) by lia.
  rewrite (Z.quot_div_nonneg (4 * march_days y (march_doy k d) + 3) 146097) by lia. rewrite march_century by done.
  pose proof (march_year y _ Hy Hdoy' Hl) as (E1 & E2). cbv zeta in E1, E2.
  rewrite (Z.quot_div_nonneg (146097 * (y / 100)) 4) by lia. set (c := march_days y (march_doy k d) - 146097 * (y / 100) / 4) in *.
  assert (0 ≤ c) by lia. rewrite (Z.quot_div_nonneg (4 * c + 3) 1461), E1 by lia. rewrite (Z.quot_div_nonneg (1461 * (y mod 100)) 4), E2 by lia.
  rewrite (Z.quot_div_nonneg (5 * march_doy k d + 2) 153) by (unfold march_doy; lia). rewrite march_month by done. rewrite (Z.quot_div_nonneg k 10), (Z.quot_div_nonneg (153 * k + 2) 5) by lia.
  unfold civil, march_doy. f_equal; [f_equal; lia|lia].
Qed.

Record march_date (y k d : Z) : Prop := {
  march_y : 0 ≤ y;
  march_k : 0 ≤ k ≤ 11;
  march_d : 1 ≤ d ≤ (153 * (k + 1) + 2) / 5 - (153 * k + 2) / 5;
  march_last : march_doy k d ≤ 365 ∧ (march_doy k d = 365 → march_leap y = true);
}.
Definition march_number (y k d : Z) : Z := march_days y (march_doy k d).

Lemma leap_march y : march_leap (y + 4799) = IsLeapYear y.
Proof.
  unfold march_leap, IsLeapYear. replace (y + 4799 + 1) with (y + 4800) by lia.
  assert (∀ n, n = 4 ∨ n = 100 ∨ n = 400 → ((y + 4800) mod n =? 0) = (Z.rem y n =? 0)) as E; [|by rewrite !E by lia].
  intros n Hn. destruct (Z.eqb_spec ((y + 4800) mod n) 0), (Z.eqb_spec (Z.rem y n) 0); try done; destruct Hn as [->|[->| ->]]; lia.
Qed.

Lemma month_cases m : 1 ≤ m ≤ 12 → m = 1 ∨ m = 2 ∨ m = 3 ∨ m = 4 ∨ m = 5 ∨ m = 6 ∨ m = 7 ∨ m = 8 ∨ m = 9 ∨ m = 10 ∨ m = 11 ∨ m = 12.
Proof. lia. Qed.

(** A date in the calendar from March. *)
Definition from_march (y m : Z) : Z * Z := if m <=? 2 then (y + 4799, m + 9) else (y + 4800, m - 3).

Lemma valid_march y m d : valid_date y m d → march_date (from_march y m).1 (from_march y m).2 d ∧
  civil (from_march y m).1 (from_march y m).2 = (y, m) ∧ DateToJulian y m d = march_number (from_march y m).1 (from_march y m).2 d - 32044.
Proof.
  intros (Hm & Hd & Hy). unfold from_march, DateToJulian, march_number, march_days, civil, march_doy. unfold DaysInMonth in Hd.
  destruct (decide (m = 2)) as [->|Hne].
  - cbn [Z.leb Z.compare Pos.compare Pos.compare_cont fst snd]. change (2 =? 2) with true in Hd. cbn [andb] in Hd. rewrite <- leap_march in Hd. change ((14 - 2) ÷ 12) with 1.
    rewrite !Z.quot_div_nonneg by lia. split; [|split; [f_equal; lia|lia]]. split; [lia|lia| |]; unfold march_doy; destruct (march_leap (y + 4799)); try change (default 0 (kDaysInMonth !! Z.to_nat (2 - 1))) with 28 in Hd; split; first [lia|done|intros; exfalso; lia].
  - rewrite (proj2 (Z.eqb_neq m 2)) in Hd by done. cbn [andb] in Hd.
    destruct (month_cases m Hm) as [->|[->|[->|[->|[->|[->|[->|[->|[->|[->|[->| ->]]]]]]]]]]]; try done; cbn [Z.leb Z.compare Pos.compare Pos.compare_cont fst snd]; vm_compute (kDaysInMonth !! _) in Hd; unfold default, from_option, id in Hd;
      rewrite !Z.quot_div_nonneg by lia; (split; [split; unfold march_doy; first [lia|split; [lia|intros; exfalso; lia]]|split; [f_equal; lia|lia]]).
Qed.

Lemma days_of_date y m d : valid_date y m d → DaysToDateParts (DateToDays y m d) = (y, m, d).
Proof.
  intros Hv. destruct (valid_march y m d Hv) as (Hm & Hc & Hj). unfold DaysToDateParts, DateToDays. replace (DateToJulian y m d - kTimestampEpochJdate + kTimestampEpochJdate) with (DateToJulian y m d) by lia.
  rewrite Hj. destruct Hm as [H1 H2 H3 [H4 H5]]. unfold march_number. by rewrite julian_to_date, Hc.
Qed.

Lemma leap_next y : march_leap y = true → (y + 1) / 4 = y / 4 + 1 ∧ (y + 1) / 100 - (y + 1) / 400 = y / 100 - y / 400.
Proof. unfold march_leap. intros H. apply orb_true_iff in H as [H|H]; [apply andb_true_iff in H as [H1 H]|]; to_prop; lia. Qed.
Lemma common_next y : march_leap y = false → (y + 1) / 4 - (y + 1) / 100 + (y + 1) / 400 = y / 4 - y / 100 + y / 400.
Proof. unfold march_leap. intros H. apply orb_false_iff in H as [H H400]. apply andb_false_iff in H as [H|H]; to_prop; lia. Qed.

(** Every day number is that of a date. *)
Lemma march_exists N : 0 ≤ N → ∃ y k d, march_date y k d ∧ march_number y k d = N.
Proof.
  revert N. apply natlike_ind; [exists 0, 0, 1; split; [by split|done]|]. intros N HN (y & k & d & [Hy Hk Hd [Hl1 Hl2]] & E). unfold march_number, march_days in *.
  destruct (decide (d = (153 * (k + 1) + 2) / 5 - (153 * k + 2) / 5)) as [Ed|Hne].
  - destruct (decide (k = 11)) as [->|Hk11]; [unfold march_doy in *; exfalso; lia|].
    exists y, (k + 1), 1. split; [|unfold march_doy in *; lia]. split; [done|lia| |split; [|intros Hl]]; unfold march_doy in *; try lia.
  - assert (Hsame : march_doy k d + 1 ≤ 365 → (march_doy k d + 1 = 365 → march_leap y = true) → ∃ y k d, march_date y k d ∧ 365 * y + y / 4 - y / 100 + y / 400 + march_doy k d = Z.succ N).
    { intros H1 H2. exists y, k, (d + 1). assert (march_doy k (d + 1) = march_doy k d + 1) as Es by (unfold march_doy; lia). split; [|lia]. split; [done|done|lia|]. rewrite Es. by split. }
    destruct (decide (march_doy k d = 364 ∨ march_doy k d = 365)) as [Hend|]; [|apply Hsame; lia].
    assert (k = 11) as -> by (unfold march_doy in *; lia). destruct (march_leap y) eqn:El.
    + destruct (decide (march_doy 11 d = 364)); [apply Hsame; [lia|done]|]. exists (y + 1), 0, 1. split; [by split; (lia || done)|]. destruct (leap_next y El). unfold march_doy in *. lia.
    + destruct Hend as [Hend|Hend]; [|by specialize (Hl2 Hend)]. exists (y + 1), 0, 1. split; [by split; (lia || done)|]. pose proof (common_next y El). unfold march_doy in *. lia.
Qed.

Lemma civil_valid y k d : march_date y k d → valid_date (civil y k).1 (civil y k).2 d ∧ from_march (civil y k).1 (civil y k).2 = (y, k).
Proof.
  intros [Hy Hk Hd [Hl1 Hl2]]. unfold civil, from_march. cbn [fst snd].
  assert (k = 0 ∨ k = 1 ∨ k = 2 ∨ k = 3 ∨ k = 4 ∨ k = 5 ∨ k = 6 ∨ k = 7 ∨ k = 8 ∨ k = 9 ∨ k = 10 ∨ k = 11) as Hc by lia.
  destruct (decide (k = 11)) as [->|Hk11].
  - change (11 / 10) with 1. change (11 + 3 - 12 * 1) with 2. cbn [Z.leb Z.compare Pos.compare Pos.compare_cont]. split; [|f_equal; lia].
    split; [lia|]. split; [|lia]. unfold DaysInMonth. change (2 =? 2) with true. cbn [andb]. rewrite <- leap_march. replace (y - 4800 + 1 + 4799) with y by lia. unfold march_doy in *.
    destruct (march_leap y) eqn:El; [lia|]. vm_compute (default 0 _). assert ((153 * 11 + 2) / 5 + d - 1 ≠ 365) by (intros Hx; by specialize (Hl2 Hx)). lia.
  - destruct Hc as [->|[->|[->|[->|[->|[->|[->|[->|[->|[->|[->|Hc]]]]]]]]]]]; [..|done]; (split; [split; [lia|split; [|lia]]; unfold DaysInMonth; vm_compute (_ =? 2); cbn [andb]; vm_compute (default 0 _); lia|vm_compute (_ <=? 2); cbn; f_equal; lia]).
Qed.

Lemma date_of_days days : - 2483589 ≤ days → ∃ y m d, DaysToDateParts days = (y, m, d) ∧ valid_date y m d ∧ DateToDays y m d = days.
Proof.
  intros Hd. destruct (march_exists (days + kTimestampEpochJdate + 32044)) as (y & k & d & Hm & E); [unfold kTimestampEpochJdate; lia|].
  destruct (civil_valid y k d Hm) as (Hv & Hf). exists (civil y k).1, (civil y k).2, d. assert (Hdays : DateToDays (civil y k).1 (civil y k).2 d = days).
  { unfold DateToDays. destruct (valid_march _ _ _ Hv) as (_ & _ & ->). rewrite Hf. cbn [fst snd]. lia. }
  split; [|done]. rewrite <- Hdays. by rewrite days_of_date.
Qed.

(** Years grow with the days. *)
Lemma year_bound y m d : valid_date y m d → -4800 ≤ y ≤ (DateToDays y m d + kTimestampEpochJdate + 32044) / 365 + 1.
Proof.
  intros Hv. split; [destruct Hv; lia|]. destruct (valid_march y m d Hv) as ([Hy Hk Hd _] & Hc & Hj). unfold DateToDays. rewrite Hj. unfold march_number, march_days, civil, march_doy in *.
  injection Hc as Hc1 Hc2. set (y' := (from_march y m).1) in *. set (k := (from_march y m).2) in *. lia.
Qed.

(** ** Timestamps *)

Definition day_micros : Z := 86400000000.
Definition in_calendar (ts : Z) : Prop := - 2483589 * day_micros ≤ ts < 2 ^ 63.

Record valid_parts (p : TimestampParts) : Prop := {
  parts_date : valid_date (year p) (month p) (day p);
  parts_hour : 0 ≤ hour p < 24;
  parts_minute : 0 ≤ minute p < 60;
  parts_second : 0 ≤ second p < 60;
  parts_micros : 0 ≤ microsec p < 1000000;
}.

(** The day and the microseconds in it. *)
Lemma to_parts ts : in_calendar ts →
  TimestampToParts ts = let '(y, m, d) := DaysToDateParts (ts / day_micros) in let us := ts mod day_micros in
    mkParts y m d (us / 3600000000) (us / 60000000 mod 60) (us / 1000000 mod 60) (us mod 1000000).
Proof.
  intros Hts. unfold in_calendar, day_micros in *. unfold TimestampToParts. change (kSecsPerDay * kMicrosecsPerSec) with 86400000000. unfold kMicrosecsPerSec.
  assert ((if Z.rem ts 86400000000 <? 0 then (ts ÷ 86400000000 - 1, Z.rem ts 86400000000 + 86400000000) else (ts ÷ 86400000000, Z.rem ts 86400000000)) = (ts / 86400000000, ts mod 86400000000)) as ->.
  { destruct (Z.ltb_spec (Z.rem ts 86400000000) 0); f_equal; lia. }
  rewrite i32_small by lia. destruct (DaysToDateParts (ts / 86400000000)) as [[y m] d]. set (us := ts mod 86400000000). assert (0 ≤ us < 86400000000) by (unfold us; lia). clearbody us. f_equal; lia.
Qed.

Lemma parts_of_timestamp ts : in_calendar ts → valid_parts (TimestampToParts ts) ∧ PartsToTimestamp (TimestampToParts ts) = ts.
Proof.
  intros Hts. rewrite to_parts by done. unfold in_calendar, day_micros in *. destruct (date_of_days (ts / 86400000000)) as (y & m & d & -> & Hv & Hd); [lia|]. split.
  - split; cbn; [done|lia..].
  - unfold PartsToTimestamp, kSecsPerDay, kMicrosecsPerSec. cbn. rewrite Hd. lia.
Qed.

Lemma timestamp_of_parts p : valid_parts p → in_calendar (PartsToTimestamp p) → TimestampToParts (PartsToTimestamp p) = p.
Proof.
  intros [Hv H1 H2 H3 H4] Hts. rewrite to_parts by done. destruct p as [y m d h mi s us]. unfold PartsToTimestamp, kSecsPerDay, kMicrosecsPerSec, day_micros, in_calendar in *. cbn [year month day hour minute second microsec] in *.
  assert ((DateToDays y m d * 86400 * 1000000 + (h * 3600 + mi * 60 + s) * 1000000 + us) / 86400000000 = DateToDays y m d) as -> by lia.
  rewrite days_of_date by done. assert (Hm : (DateToDays y m d * 86400 * 1000000 + (h * 3600 + mi * 60 + s) * 1000000 + us) mod 86400000000 = (h * 3600 + mi * 60 + s) * 1000000 + us) by lia. rewrite Hm. f_equal; lia.
Qed.

(** ** Text *)

Lemma days_in_month_bound y m : DaysInMonth y m ≤ 31.
Proof.
  unfold DaysInMonth. destruct ((m =? 2) && IsLeapYear y); [done|]. destruct (kDaysInMonth !! Z.to_nat (m - 1)) as [x|] eqn:E; [|done].
  apply list_elem_of_lookup_2 in E. unfold kDaysInMonth in E. repeat (apply elem_of_cons in E as [->|E]; [done|]). by apply not_elem_of_nil in E.
Qed.

Lemma scan_print_int width z rest : (0 < width)%nat → - 10 ^ 9 < z < 10 ^ 9 → not_digit_head 10 rest → scan_integer 10 (print_int width z ++ rest) = Some (z <? 0, Z.abs z, rest).
Proof.
  intros Hw Hz Hr. unfold print_int. destruct (Z.ltb_spec z 0).
  - unfold print_padded, scan_integer. set (ds := replicate (width - 1 - length (digits 10 10 (- z) [])) 0 ++ digits 10 10 (- z) []).
    assert (Hds : Forall (λ d, 0 ≤ d < 10) ds) by (apply Forall_app; split; [apply Forall_replicate; lia|apply digits_range; [lia|constructor]]).
    assert (Hu : undigits 10 ds = - z) by (apply undigits_printed; lia). assert (Hne : ds ≠ []) by (intros [_ Hn]%app_nil; revert Hn; apply digits_nonempty; lia).
    clearbody ds. assert (take_sign (skip_space (("-"%char :: map digit_char ds) ++ rest)) = (true, map digit_char ds ++ rest)) as -> by done. destruct ds as [|d ds]; [done|].
    rewrite skip_0x_chars, span_digits_chars by first [done|lia|discriminate|intros; lia].
    rewrite Hu. f_equal. f_equal. f_equal. lia.
  - rewrite scan_print_padded by first [done|lia|discriminate|intros; lia]. by rewrite Z.abs_eq by lia.
Qed.

Lemma sscanf_int format width z rest : (0 < width)%nat → - 10 ^ 9 < z < 10 ^ 9 → not_digit_head 10 rest → sscanf (Int :: format) (print_int width z ++ rest) = z :: sscanf format rest.
Proof. intros Hw Hz Hr. cbn [sscanf]. rewrite scan_print_int by done. f_equal. destruct (Z.ltb_spec z 0); rewrite i32_small; lia. Qed.

Lemma sscanf_literal format c rest : sscanf (Literal c :: format) (c :: rest) = sscanf format rest.
Proof. cbn [sscanf]. by rewrite Ascii.eqb_refl. Qed.
Lemma sscanf_char format c rest : sscanf (Char :: format) (c :: rest) = 0 :: sscanf format rest.
Proof. done. Qed.

Lemma sscanf_date format y m d rest : - 10 ^ 9 < y < 10 ^ 9 → 0 ≤ m < 100 → 0 ≤ d < 100 → not_digit_head 10 rest →
  sscanf (date_format ++ format) (print_date y m d ++ rest) = y :: m :: d :: sscanf format rest.
Proof.
  intros Hy Hm Hd Hr. unfold print_date. rewrite <- !app_assoc, <- !app_comm_cons, <- !app_assoc. cbn [app date_format].
  rewrite sscanf_int, sscanf_literal by (done || lia). by rewrite sscanf_int, sscanf_literal, sscanf_int by (done || lia).
Qed.

Definition time_format : list directive := [Char; Int; Literal ":"; Int; Literal ":"; Int; Literal "."; Int].

Lemma sscanf_time h mi s us : 0 ≤ h < 24 → 0 ≤ mi < 60 → 0 ≤ s < 60 → 0 ≤ us < 1000000 →
  sscanf time_format (" "%char :: print_int 2 h ++ ":"%char :: print_int 2 mi ++ ":"%char :: print_int 2 s ++ (if 0 <? us then "."%char :: print_int 6 us else [])) =
  0 :: h :: mi :: s :: (if 0 <? us then [us] else []).
Proof.
  intros Hh Hm Hs Hus. unfold time_format. rewrite sscanf_char, sscanf_int, sscanf_literal, sscanf_int, sscanf_literal by (done || lia). destruct (0 <? us).
  - rewrite sscanf_int, sscanf_literal by (done || lia). rewrite <- (app_nil_r (print_int 6 us)). by rewrite sscanf_int by (done || lia).
  - by rewrite sscanf_int by (done || lia).
Qed.

(** C39: timestamps, their parts and their text are the same thing.  For every
    64-bit timestamp from 4801 BC on, the parts are a valid date and time that make
    up the timestamp again, and reading its text gives the timestamp back. *)
Theorem timestamp_roundtrip ts : in_calendar ts →
  valid_parts (TimestampToParts ts) ∧ PartsToTimestamp (TimestampToParts ts) = ts ∧
  timestamp_in (Some (timestamp_out (Int64GetDatum ts))) = Ret (Int64GetDatum ts).
Proof.
  intros Hts. destruct (parts_of_timestamp ts Hts) as (Hv & Hp). split; [done|]. split; [done|].
  assert (E : Tuplesort.DatumGetInt64 (Int64GetDatum ts) = ts).
  { unfold Tuplesort.DatumGetInt64, Int64GetDatum. cbn [word_of]. unfold in_calendar, day_micros, i64, u64 in *. rewrite Zplus_mod_idemp_l, Z.mod_small; lia. }
  unfold timestamp_out. rewrite E. set (p := TimestampToParts ts) in *. pose proof Hv as [Hd H1 H2 H3 H4]. pose proof (year_bound _ _ _ Hd) as Hy. pose proof Hd as (Hm & Hday & _).
  assert (Hyb : - 10 ^ 9 < year p < 10 ^ 9).
  { assert (DateToDays (year p) (month p) (day p) < 2 ^ 28); [|unfold kTimestampEpochJdate in *; lia]. unfold PartsToTimestamp, kSecsPerDay, kMicrosecsPerSec, in_calendar in *. lia. }
  assert (Hd31 : DaysInMonth (year p) (month p) ≤ 31) by apply days_in_month_bound.
  set (rest := " "%char :: print_int 2 (hour p) ++ ":"%char :: print_int 2 (minute p) ++ ":"%char :: print_int 2 (second p) ++ (if 0 <? microsec p then "."%char :: print_int 6 (microsec p) else [])).
  assert (Hs : sscanf timestamp_format (print_date (year p) (month p) (day p) ++ rest) = year p :: month p :: day p :: 0 :: hour p :: minute p :: second p :: (if 0 <? microsec p then [microsec p] else [])).
  { change timestamp_format with (date_format ++ time_format). rewrite sscanf_date by (done || lia). unfold rest. by rewrite sscanf_time by lia. }
  unfold timestamp_in. fold rest. rewrite Hs. set (v := year p :: month p :: day p :: 0 :: hour p :: minute p :: second p :: (if 0 <? microsec p then [microsec p] else [])).
  change (length v <? 3)%nat with false. cbn [andb].
  assert (Hus : nth_value v 7 = microsec p). { unfold v. destruct (Z.ltb_spec 0 (microsec p)); cbn; lia. }
  rewrite Hus. change (nth_value v 0) with (year p). change (nth_value v 1) with (month p). change (nth_value v 2) with (day p). change (nth_value v 4) with (hour p). change (nth_value v 5) with (minute p). change (nth_value v 6) with (second p).
  repeat match goal with |- context [?a <? ?b] => rewrite (proj2 (Z.ltb_ge a b)) by lia end. cbn [orb]. destruct p as [y m d h mi s us]. cbn [year month day hour minute second microsec] in *. by rewrite Hp.
Qed.

Lemma timestamp_roundtrip_witness : let ts := -86399500000 in
  timestamp_out (Int64GetDatum ts) = chars "1999-12-31 00:00:00.500000" ∧ timestamp_in (Some (chars "1999-12-31 00:00:00.500000")) = Ret (Int64GetDatum ts).
Proof.
  intros ts. assert (E : timestamp_out (Int64GetDatum ts) = chars "1999-12-31 00:00:00.500000") by by vm_compute. split; [done|]. rewrite <- E.
  apply (timestamp_roundtrip ts). unfold in_calendar, day_micros, ts. lia.
Defined.

(** day numbers and dates correspond one to one.  A date of the proleptic
    Gregorian calendar from March 4801 BC on is that of its day number, every day
    number from there on is that of exactly one valid date. *)
Theorem calendar_bijection : (∀ y m d, valid_date y m d → DaysToDateParts (DateToDays y m d) = (y, m, d)) ∧
  (∀ days, - 2483589 ≤ days → ∃ y m d, DaysToDateParts days = (y, m, d) ∧ valid_date y m d ∧ DateToDays y m d = days).
Proof. split; [apply days_of_date|apply date_of_days]. Qed.

(** ** Truncation *)

(** The units whose truncation rounds down. *)
Definition unit_micros (f : list Z) : option Z :=
  if IStringEq f "second" then Some 1000000 else if IStringEq f "minute" then Some 60000000 else if IStringEq f "hour" then Some 3600000000 else if IStringEq f "day" then Some day_micros else None.

Lemma is_field f a : IStringEq f a = true → ∀ b, IStringEq f b = bool_decide (tolower <$> bytes_of a = tolower <$> bytes_of b).
Proof. unfold IStringEq. intros E%bool_decide_eq_true b. by rewrite E. Qed.

Lemma trunc_time f u p : unit_micros f = Some u → trunc_parts f p =
  Some (at_time p (if u =? day_micros then 0 else hour p) (if 60000000 <? u then 0 else minute p) (if 1000000 <? u then 0 else second p) 0).
Proof.
  unfold unit_micros. destruct (IStringEq f "second") eqn:E1; [|destruct (IStringEq f "minute") eqn:E2; [|destruct (IStringEq f "hour") eqn:E3; [|destruct (IStringEq f "day") eqn:E4; [|done]]]]; intros [= <-];
    match goal with H : IStringEq f ?a = true |- _ => unfold trunc_parts; rewrite !(is_field f a H) end; done.
Qed.

Lemma int64_datum ts : - 2 ^ 63 ≤ ts < 2 ^ 63 → Tuplesort.DatumGetInt64 (Int64GetDatum ts) = ts.
Proof. intros Hts. unfold Tuplesort.DatumGetInt64, Int64GetDatum. cbn [word_of]. unfold i64, u64. rewrite Zplus_mod_idemp_l, Z.mod_small; lia. Qed.

(** [date_trunc] to seconds, minutes, hours and days rounds down to the
    unit, also before 2000. *)
Theorem date_trunc_floor f u ts : unit_micros f = Some u → in_calendar ts → date_trunc (Some f) (Int64GetDatum ts) = Ret (Int64GetDatum (ts - ts mod u)).
Proof.
  intros Hu Hts. unfold date_trunc. rewrite int64_datum by (unfold in_calendar, day_micros in *; lia). rewrite (trunc_time f u) by done. f_equal. f_equal.
  rewrite to_parts by done. unfold in_calendar in Hts. destruct (date_of_days (ts / day_micros)) as (y & m & d & -> & _ & Hd); [unfold day_micros in *; lia|].
  unfold PartsToTimestamp, at_time, kSecsPerDay, kMicrosecsPerSec. cbn [year month day hour minute second microsec]. rewrite Hd. unfold unit_micros, day_micros in *.
  repeat case_match; simplify_eq/=; lia.
Qed.

Lemma date_trunc_floor_witness : date_trunc (Some (bytes_of "Hour")) (Int64GetDatum (-5400000000)) = Ret (Int64GetDatum (-7200000000)).
Proof. apply (date_trunc_floor (bytes_of "Hour") 3600000000 (-5400000000)); [by vm_compute|]. unfold in_calendar, day_micros. lia. Defined.

(** Saturday 25 December 1999 is day -1 of its week, and its week begins on the
    Monday after it: the remainder of a negative number is negative. *)
Theorem weekdays_before_2000 : let ts := -7 * day_micros in
  extract (Some (bytes_of "dow")) (Int64GetDatum ts) = Ret (Float8GetDatum (float (-1))) ∧ date_trunc (Some (bytes_of "week")) (Int64GetDatum ts) = Ret (Int64GetDatum (ts + 2 * day_micros)).
Proof. by vm_compute. Qed.

(** The digits behind the point are read as a number of microseconds. *)
Theorem half_second_is_five_micros : timestamp_in (Some (chars "2000-01-01 00:00:00.5")) = Ret (Int64GetDatum 5).
Proof. by vm_compute. Qed.

End DatetimeSpec.
