(* ===== verification/Expr.v ===== *)
(** * Evaluating expressions

    src/executor/exec_expr.cpp: [ExecEvalExpr] over the nodes of primnodes.hpp,
    with the functions it calls by name (math_funcs.cpp and part of builtins.cpp
    here; texts, dates and timestamps in [TextFuncs] and [Datetime]).

    A null pointer is the node [NullPtr], and the class of the nodes the
    evaluator does not know is [Unsupported].  What an evaluation reads besides
    the slots is the [Env]: the rows of the catalog, the bound parameters, the
    slot of the aggregates, the encoding, and the clock, which stands still
    during an evaluation.

    Integers wrap where C++ overflows, which is undefined there; -2^31 divided by
    -1 is undefined too.  A call with fewer arguments than its function reads is
    undefined; here a missing argument is null.  Floats are the standard
    library's specification floats; a NaN result has one bit pattern.  The C
    library's transcendental functions are the interface [Libm], and the addresses
    of values by reference, which NULLIF as a function compares, are [Addresses]. *)

From Stdlib Require Import Floats.SpecFloat.
From stdpp Require Import base list strings.
From S2P Require Import Prelude HeapForm NbtPage TupleTape Tuplesort Multibyte TextFuncs Numeric Datetime HashJoin.

#[local] Set Warnings "-register-all".

Module Expr.
Import HeapForm TupleTape TextFuncs Datetime.
Export HashJoin (ExprContext, mkContext, ecxt_outertuple, ecxt_innertuple, ecxt_scantuple).

#[export] Instance outcome_ret : MRet outcome := λ A a, Ret a.
#[export] Instance outcome_bind : MBind outcome := λ A B f m, match m with Ret a => f a | Ereport e => Ereport e end.

(** ** Nodes *)

Inductive BoolExprType := kAnd | kOr | kNot.
Inductive NullTestType := kIsNull | kIsNotNull.
Inductive MinMaxOp := kIsGreatest | kIsLeast.
Inductive SQLValueFunctionOp :=
  | kCurrentDate | kCurrentTime | kCurrentTimeN | kCurrentTimestamp | kCurrentTimestampN | kLocalTime | kLocalTimeN
  | kLocalTimestamp | kLocalTimestampN | kCurrentRole | kCurrentUser | kSessionUser | kUser | kCurrentCatalog | kCurrentSchema.

Inductive Node :=
  | NullPtr
  | Var (varno varattno vartype : Z)
  | Const (constvalue : Datum) (constisnull : bool)
  | Param (paramid : Z)
  | OpExpr (opno : Z) (args : list Node)
  | ScalarArrayOpExpr (opno : Z) (use_or : bool) (args : list Node)
  | AArrayExpr (elements : list Node)
  | FuncExpr (funcid : Z) (args : list Node)
  | Aggref (aggno : Z)
  | BoolExpr (boolop : BoolExprType) (args : list Node)
  | NullTest (arg : Node) (nulltesttype : NullTestType)
  | CaseExpr (arg : Node) (args : list (Node * Node)) (defresult : Node)
  | RelabelType (arg : Node)
  | TargetEntry (expr : Node)
  | CoalesceExpr (args : list Node)
  | MinMaxExpr (minmaxtype : MinMaxOp) (args : list Node)
  | NullIfExpr (opno : Z) (args : list Node)
  | SQLValueFunction (op : SQLValueFunctionOp)
  | Unsupported.

Definition kInnerVar : Z := -1.
Definition kOuterVar : Z := -2.

(** ** The environment *)

Record FormData_pg_operator := mkOperator { opr_oid : Z; oprname : string; oprleft : Z }.
Record FormData_pg_proc := mkProc { proc_oid : Z; proname : string; proargtypes : list Z }.

Record Env := mkEnv {
  pg_operator_rows : list FormData_pg_operator;
  pg_proc_rows : list FormData_pg_proc;
  g_param_values : list Datum;
  g_param_isnull : list bool;
  ecxt_aggregates : option TupleTableSlot;
  database_encoding : Multibyte.PgEncoding;
  time_now : Z }.

Definition SetExecParams (values : list Datum) (isnull : list bool) (env : Env) : Env :=
  mkEnv (pg_operator_rows env) (pg_proc_rows env) values isnull (ecxt_aggregates env) (database_encoding env) (time_now env).
Definition ClearExecParams (env : Env) : Env := SetExecParams [] [] env.

Definition GetOperatorByOid (env : Env) (oid : Z) : option FormData_pg_operator := snd <$> list_find (λ row, opr_oid row = oid) (pg_operator_rows env).
Definition GetProcByOid (env : Env) (oid : Z) : option FormData_pg_proc := snd <$> list_find (λ row, proc_oid row = oid) (pg_proc_rows env).

Class Libm := { std_pow : spec_float → spec_float → spec_float; std_log : spec_float → spec_float; std_log10 : spec_float → spec_float; std_exp : spec_float → spec_float }.
Class Addresses := same_address : list Z → list Z → bool.

(** ** Values *)

Abbreviation result := (Datum * bool)%type.
Definition null_result : result := (DVal 0, true).
Definition value (d : Datum) : result := (d, false).

Definition GetSlotAttr : TupleTableSlot → Z → result := HashJoin.GetSlotAttr.
Definition DatumGetInt64 : Datum → Z := Tuplesort.DatumGetInt64.
Definition DatumGetFloat8 : Datum → spec_float := Tuplesort.DatumGetFloat8.
Definition DatumGetBool : Datum → bool := Tuplesort.DatumGetBool.

(** [CompareText] of two values. *)
Definition CompareText (a b : Datum) : Z :=
  let pa := DatumGetTextP a in
  let pb := DatumGetTextP b in
  let len_a := VARSIZE_DATA pa in
  let len_b := VARSIZE_DATA pb in
  let min_len := if len_a <? len_b then len_a else len_b in
  let cmp := NbtPage.memcmp (Z.to_nat min_len) (VARDATA pa) (VARDATA pb) in
  if negb (cmp =? 0) then cmp else i32 (len_a - len_b).

(** The six comparisons by their name, from [=] and [<]; of a float, [<=] is not
    the negation of [>]. *)
Definition by_name (opname : string) (eq lt gt : bool) : bool :=
  if String.eqb opname "=" then eq
  else if String.eqb opname "<>" then negb eq
  else if String.eqb opname "<" then lt
  else if String.eqb opname "<=" then lt || eq
  else if String.eqb opname ">" then gt
  else if String.eqb opname ">=" then gt || eq
  else false.

Definition compare_integers (opname : string) (l r : Z) : bool := by_name opname (l =? r) (l <? r) (r <? l).

(** The operands are not null. *)
Definition ApplyComparison (opname : string) (lefttype : Z) (left right : Datum) : Datum :=
  BoolGetDatum
    (if (lefttype =? Tuplesort.kInt4Oid) || (lefttype =? Tuplesort.kDateOid) then compare_integers opname (DatumGetInt32 left) (DatumGetInt32 right)
     else if (lefttype =? Tuplesort.kInt8Oid) || (lefttype =? Tuplesort.kTimestampOid) then compare_integers opname (DatumGetInt64 left) (DatumGetInt64 right)
     else if lefttype =? Tuplesort.kFloat8Oid then
       let l := DatumGetFloat8 left in
       let r := DatumGetFloat8 right in
       by_name opname (SFeqb l r) (SFltb l r) (SFltb r l)
     else if lefttype =? Tuplesort.kTextOid then compare_integers opname (CompareText left right) 0
     else if lefttype =? Tuplesort.kBoolOid then
       let eq := eqb (DatumGetBool left) (DatumGetBool right) in
       if String.eqb opname "=" then eq else if String.eqb opname "<>" then negb eq else false
     else false).

Definition integer_arithmetic (opname : string) (l r : Z) : option Z :=
  if String.eqb opname "+" then Some (l + r)
  else if String.eqb opname "-" then Some (l - r)
  else if String.eqb opname "*" then Some (l * r)
  else if String.eqb opname "/" then Some (if negb (r =? 0) then l ÷ r else 0)
  else None.

Definition float_zero (f : spec_float) : bool := match f with S754_zero _ => true | _ => false end.

Definition ApplyArithmetic (opname : string) (type : Z) (left right : Datum) : Datum :=
  if type =? Tuplesort.kInt4Oid then
    match integer_arithmetic opname (DatumGetInt32 left) (DatumGetInt32 right) with Some z => Int32GetDatum (i32 z) | None => DVal 0 end
  else if type =? Tuplesort.kInt8Oid then
    match integer_arithmetic opname (DatumGetInt64 left) (DatumGetInt64 right) with Some z => Int64GetDatum (i64 z) | None => DVal 0 end
  else if type =? Tuplesort.kFloat8Oid then
    let l := DatumGetFloat8 left in
    let r := DatumGetFloat8 right in
    if String.eqb opname "+" then Float8GetDatum (fadd l r)
    else if String.eqb opname "-" then Float8GetDatum (SFsub Numeric.prec Numeric.emax l r)
    else if String.eqb opname "*" then Float8GetDatum (fmul l r)
    else if String.eqb opname "/" then Float8GetDatum (if negb (float_zero r) then fdiv l r else S754_zero false)
    else DVal 0
  else DVal 0.

Definition is_comparison (opname : string) : bool :=
  String.eqb opname "=" || String.eqb opname "<>" || String.eqb opname "<" || String.eqb opname "<=" || String.eqb opname ">" || String.eqb opname ">=".
Definition is_arithmetic (opname : string) : bool :=
  String.eqb opname "+" || String.eqb opname "-" || String.eqb opname "*" || String.eqb opname "/".

(** ** Mathematical functions *)

Definition int4_abs (a : Datum) : Datum := let v := DatumGetInt32 a in Int32GetDatum (i32 (if v <? 0 then - v else v)).
Definition int8_abs (a : Datum) : Datum := let v := DatumGetInt64 a in Int64GetDatum (i64 (if v <? 0 then - v else v)).
Definition int4_mod (a b : Datum) : outcome Datum :=
  let divisor := DatumGetInt32 b in
  if divisor =? 0 then Ereport "division by zero" else Ret (Int32GetDatum (Z.rem (DatumGetInt32 a) divisor)).
Definition int8_mod (a b : Datum) : outcome Datum :=
  let divisor := DatumGetInt64 b in
  if divisor =? 0 then Ereport "division by zero" else Ret (Int64GetDatum (Z.rem (DatumGetInt64 a) divisor)).
Definition int4_sign (a : Datum) : Datum :=
  let v := DatumGetInt32 a in if 0 <? v then Int32GetDatum 1 else if v <? 0 then Int32GetDatum (-1) else Int32GetDatum 0.

(** A float rounded to an integer; [bump] says whether a remainder [r] of [d]
    goes away from zero.  A zero keeps its sign. *)
Definition round_float (bump : bool → Z → Z → bool) (f : spec_float) : spec_float :=
  match f with
  | S754_finite s m e =>
      if 0 <=? e then f
      else
        let d := 2 ^ (- e) in
        let q := Zpos m / d + (if bump s (Zpos m `mod` d) d then 1 else 0) in
        if q =? 0 then S754_zero s else binary_normalize Numeric.prec Numeric.emax (if s then - q else q) 0 s
  | _ => f
  end.
Definition std_ceil : spec_float → spec_float := round_float (λ s r _, negb s && (0 <? r)).
Definition std_floor : spec_float → spec_float := round_float (λ s r _, s && (0 <? r)).
Definition std_trunc : spec_float → spec_float := round_float (λ _ _ _, false).
(** Halves go away from zero. *)
Definition std_round : spec_float → spec_float := round_float (λ _ r d, d <=? 2 * r).
Definition std_sqrt : spec_float → spec_float := SFsqrt Numeric.prec Numeric.emax.

Definition float8_fun (f : spec_float → spec_float) (a : Datum) : Datum := Float8GetDatum (f (DatumGetFloat8 a)).
Definition float8_abs : Datum → Datum := float8_fun SFabs.
Definition float8_ceil : Datum → Datum := float8_fun std_ceil.
Definition float8_floor : Datum → Datum := float8_fun std_floor.
Definition float8_round : Datum → Datum := float8_fun std_round.
Definition float8_trunc : Datum → Datum := float8_fun std_trunc.

Definition logarithm (log : spec_float → spec_float) (a : Datum) : outcome Datum :=
  let v := DatumGetFloat8 a in
  if SFltb v (S754_zero false) then Ereport "cannot take logarithm of a negative number"
  else if float_zero v then Ereport "cannot take logarithm of zero"
  else Ret (Float8GetDatum (log v)).
Definition float8_ln `{Libm} : Datum → outcome Datum := logarithm std_log.
Definition float8_log10 `{Libm} : Datum → outcome Datum := logarithm std_log10.
Definition float8_exp `{Libm} : Datum → Datum := float8_fun std_exp.

Definition float8_trunc_n (a n : Datum) : Datum :=
  let v := DatumGetFloat8 a in
  let digits := DatumGetInt32 n in
  let scale := Nat.iter (Z.to_nat (Z.abs digits)) (λ s, fmul s (float 10)) (float 1) in
  if 0 <=? digits then Float8GetDatum (fdiv (std_trunc (fmul v scale)) scale)
  else Float8GetDatum (fmul (std_trunc (fdiv v scale)) scale).

(** ** Functions by name *)

Definition kUnixToPgEpochSecs : Z := 946684800.
Definition current_date (now : Z) : Datum := Int32GetDatum (i32 ((now - kUnixToPgEpochSecs) ÷ 86400)).
Definition current_timestamp (now : Z) : Datum := Int64GetDatum (i64 ((now - kUnixToPgEpochSecs) * 1000000)).

(** The first argument that is not null. *)
Fixpoint first_value (args : list result) : result :=
  match args with [] => null_result | (v, null) :: args' => if (null : bool) then first_value args' else (v, false) end.

(** The greatest (or least) of the arguments that are not null, the first of equals. *)
Definition better (want_max : bool) (type : Z) (v best : Datum) : bool := DatumGetBool (ApplyComparison (if want_max then ">" else "<") type v best).
Fixpoint best_value (want_max : bool) (type : Z) (args : list result) (best : option Datum) : result :=
  match args with
  | [] => match best with Some b => (b, false) | None => null_result end
  | (v, null) :: args' =>
      if (null : bool) then best_value want_max type args' best
      else
        best_value want_max type args'
          (match best with None => Some v | Some b => if better want_max type v b then Some v else Some b end)
  end.

Section functions.
Context `{Libm} `{Addresses} `{StdRegex}.

(** [==] of datums. *)
Definition same_datum (a b : Datum) : bool :=
  match a, b with DVal x, DVal y => x =? y | DRef x, DRef y => same_address x y | _, _ => false end.

Definition nullif_call (args : list result) : result :=
  match args with
  | [(a, a_null); (b, b_null)] =>
      if a_null then null_result else if b_null then value a else if same_datum a b then null_result else value a
  | _ => null_result
  end.

(** The field name in the text, up to a zero byte. *)
Definition field_name (d : Datum) : list Z := let s := TextDatumToString d in take (Multibyte.strlen s) s.

Definition CallFunction (env : Env) (fname : string) (argtypes : list Z) (args : list result) : outcome result :=
  let arg i := default (DVal 0) (fst <$> args !! i) in
  let arg_null i := default true (snd <$> args !! i) in
  (* The third argument is there and not null. *)
  let has_arg i := (S i <=? length args)%nat && negb (arg_null i) in
  let argtype := default 0 (head argtypes) in
  (* A function that is null if one of its first [n] arguments is. *)
  let strict n (o : outcome Datum) : outcome result := if existsb arg_null (seq 0 n) then Ret null_result else d ← o; Ret (value d) in
  let named name := String.eqb fname name in
  if named "extract" then strict 2%nat (extract (Some (field_name (arg 0%nat))) (arg 1%nat))
  else if named "date_trunc" then strict 2%nat (date_trunc (Some (field_name (arg 0%nat))) (arg 1%nat))
  else if named "length" then strict 1%nat (Ret (text_length (database_encoding env) (arg 0%nat)))
  else if named "regexp_replace" then strict 3%nat (regexp_replace (arg 0%nat) (arg 1%nat) (arg 2%nat))
  else if named "substring" then strict 2%nat (substring (arg 0%nat) (arg 1%nat))
  else if named "abs" then
    if arg_null 0%nat then Ret null_result
    else if argtype =? Tuplesort.kInt4Oid then Ret (value (int4_abs (arg 0%nat)))
    else if argtype =? Tuplesort.kInt8Oid then Ret (value (int8_abs (arg 0%nat)))
    else if argtype =? Tuplesort.kFloat8Oid then Ret (value (float8_abs (arg 0%nat)))
    else Ret null_result
  else if named "ceil" then strict 1%nat (Ret (float8_ceil (arg 0%nat)))
  else if named "floor" then strict 1%nat (Ret (float8_floor (arg 0%nat)))
  else if named "round" then strict 1%nat (Ret (float8_round (arg 0%nat)))
  else if named "sqrt" then strict 1%nat (Ret (float8_fun std_sqrt (arg 0%nat)))
  else if named "power" then strict 2%nat (Ret (Float8GetDatum (std_pow (DatumGetFloat8 (arg 0%nat)) (DatumGetFloat8 (arg 1%nat)))))
  else if named "log" then strict 1%nat (float8_ln (arg 0%nat))
  else if named "log10" then strict 1%nat (float8_log10 (arg 0%nat))
  else if named "exp" then strict 1%nat (Ret (float8_exp (arg 0%nat)))
  else if named "mod" then strict 2%nat (if argtype =? Tuplesort.kInt8Oid then int8_mod (arg 0%nat) (arg 1%nat) else int4_mod (arg 0%nat) (arg 1%nat))
  else if named "sign" then strict 1%nat (Ret (int4_sign (arg 0%nat)))
  else if named "trunc" then strict 1%nat (Ret (if has_arg 1%nat then float8_trunc_n (arg 0%nat) (arg 1%nat) else float8_trunc (arg 0%nat)))
  else if named "substr" then
    strict 1%nat (Ret (if has_arg 2%nat then text_substr (arg 0%nat) (arg 1%nat) (arg 2%nat) else text_substr_2 (arg 0%nat) (arg 1%nat)))
  else if named "trim" || named "btrim" then strict 1%nat (Ret (text_btrim (arg 0%nat)))
  else if named "ltrim" then strict 1%nat (Ret (text_ltrim (arg 0%nat)))
  else if named "rtrim" then strict 1%nat (Ret (text_rtrim (arg 0%nat)))
  else if named "replace" then strict 3%nat (Ret (text_replace (arg 0%nat) (arg 1%nat) (arg 2%nat)))
  else if named "position" then strict 2%nat (Ret (text_position (arg 0%nat) (arg 1%nat)))
  else if named "lpad" then
    strict 2%nat (Ret (if has_arg 2%nat then text_lpad (arg 0%nat) (arg 1%nat) (arg 2%nat) else text_lpad_2 (arg 0%nat) (arg 1%nat)))
  else if named "rpad" then
    strict 2%nat (Ret (if has_arg 2%nat then text_rpad (arg 0%nat) (arg 1%nat) (arg 2%nat) else text_rpad_2 (arg 0%nat) (arg 1%nat)))
  else if named "split_part" then strict 3%nat (text_split_part (arg 0%nat) (arg 1%nat) (arg 2%nat))
  else if named "coalesce" then Ret (first_value args)
  else if named "nullif" then Ret (nullif_call args)
  else if named "greatest" || named "least" then Ret (best_value (named "greatest") argtype args None)
  else if named "current_date" then Ret (value (current_date (time_now env)))
  else if named "current_timestamp" || named "now" then Ret (value (current_timestamp (time_now env)))
  else Ret null_result.
End functions.

(** ** Operators *)

Definition CallOperator (row : option FormData_pg_operator) (l r : result) : result :=
  match row with
  | None => null_result
  | Some row =>
      let opname := oprname row in
      if is_comparison opname then
        if snd l || snd r then null_result else value (ApplyComparison opname (oprleft row) (fst l) (fst r))
      else if is_arithmetic opname then
        if snd l || snd r then null_result else value (ApplyArithmetic opname (oprleft row) (fst l) (fst r))
      else if String.eqb opname "~~" || String.eqb opname "!~~" then
        if snd l || snd r then null_result
        else if String.eqb opname "~~" then value (like (fst l) (fst r)) else value (not_like (fst l) (fst r))
      else null_result
  end.

(** ** The evaluator *)

Section folds.
Context (eval : Node → outcome result).

Fixpoint eval_args (args : list Node) : outcome (list result) :=
  match args with [] => Ret (@nil result) | a :: args' => v ← eval a; vs ← eval_args args'; Ret (v :: vs) end.

Definition is_null (v : result) : bool := snd v.
Definition is_true (v : result) : bool := negb (snd v) && DatumGetBool (fst v).
Definition is_false (v : result) : bool := negb (snd v) && negb (DatumGetBool (fst v)).

Fixpoint eval_and (args : list Node) : outcome result :=
  match args with [] => Ret (value (BoolGetDatum true)) | a :: args' => v ← eval a; if is_false v then Ret (value (BoolGetDatum false)) else eval_and args' end.
Fixpoint eval_or (args : list Node) : outcome result :=
  match args with [] => Ret (value (BoolGetDatum false)) | a :: args' => v ← eval a; if is_true v then Ret (value (BoolGetDatum true)) else eval_or args' end.

(** The elements of an array against a scalar that is not null. *)
Fixpoint eval_array (opname : string) (lefttype : Z) (scalar : Datum) (use_or : bool) (elements : list Node) (any_null : bool) : outcome result :=
  match elements with
  | [] => Ret (if any_null then null_result else value (BoolGetDatum (negb use_or)))
  | e :: elements' =>
      v ← eval e;
      if is_null v then eval_array opname lefttype scalar use_or elements' true
      else
        let matched := DatumGetBool (ApplyComparison opname lefttype scalar (fst v)) in
        if use_or then
          if matched then Ret (value (BoolGetDatum true)) else eval_array opname lefttype scalar use_or elements' any_null
        else
          if negb matched then Ret (value (BoolGetDatum false)) else eval_array opname lefttype scalar use_or elements' any_null
  end.

Fixpoint eval_when (whens : list (Node * Node)) (otherwise : outcome result) : outcome result :=
  match whens with
  | [] => otherwise
  | (cond, res) :: whens' => v ← eval cond; if is_true v then eval res else eval_when whens' otherwise
  end.

Fixpoint eval_coalesce (args : list Node) : outcome result :=
  match args with [] => Ret null_result | a :: args' => v ← eval a; if is_null v then eval_coalesce args' else Ret v end.
End folds.

Section evaluator.
Context `{Libm} `{Addresses} `{StdRegex} (env : Env) (econtext : ExprContext).

Fixpoint ExecEvalExpr (expr : Node) : outcome result :=
  match expr with
  | NullPtr => Ret null_result
  | Var varno varattno _ =>
      Ret (GetSlotAttr (if varno =? kInnerVar then ecxt_innertuple econtext else if varno =? kOuterVar then ecxt_outertuple econtext else ecxt_scantuple econtext) varattno)
  | Const v null => Ret (v, null)
  | Param paramid =>
      let idx := paramid - 1 in
      if (idx <? 0) || (Z.of_nat (length (g_param_values env)) <=? idx) then Ret null_result
      else Ret (default (DVal 0) (g_param_values env !! Z.to_nat idx), default true (g_param_isnull env !! Z.to_nat idx))
  | OpExpr opno args =>
      match args with
      | [a; b] => l ← ExecEvalExpr a; r ← ExecEvalExpr b; Ret (CallOperator (GetOperatorByOid env opno) l r)
      | _ => Ret null_result
      end
  | ScalarArrayOpExpr opno use_or args =>
      match args with
      | [a; b] =>
          match GetOperatorByOid env opno with
          | None => Ret null_result
          | Some row =>
              scalar ← ExecEvalExpr a;
              if is_null scalar then Ret null_result
              else
                match b with
                | AArrayExpr elements => eval_array ExecEvalExpr (oprname row) (oprleft row) (fst scalar) use_or elements false
                | _ => Ret null_result
                end
          end
      | _ => Ret null_result
      end
  | FuncExpr funcid args =>
      match GetProcByOid env funcid with
      | None => Ret null_result
      | Some proc => vs ← eval_args ExecEvalExpr args; CallFunction env (proname proc) (proargtypes proc) vs
      end
  | Aggref aggno =>
      match ecxt_aggregates env with
      | Some slot => if aggno <? 0 then Ret null_result else Ret (GetSlotAttr slot (aggno + 1))
      | None => Ret null_result
      end
  | BoolExpr kAnd args => eval_and ExecEvalExpr args
  | BoolExpr kOr args => eval_or ExecEvalExpr args
  | BoolExpr kNot args =>
      match args with
      | [] => Ret null_result
      | a :: _ => v ← ExecEvalExpr a; Ret (if is_null v then null_result else value (BoolGetDatum (negb (DatumGetBool (fst v)))))
      end
  | NullTest arg kIsNull => v ← ExecEvalExpr arg; Ret (value (BoolGetDatum (is_null v)))
  | NullTest arg kIsNotNull => v ← ExecEvalExpr arg; Ret (value (BoolGetDatum (negb (is_null v))))
  | CaseExpr NullPtr whens defresult => eval_when ExecEvalExpr whens (ExecEvalExpr defresult)
  | CaseExpr _ _ _ => Ereport "simple CASE form (CASE arg WHEN v THEN r) is not supported"
  | RelabelType arg => ExecEvalExpr arg
  | TargetEntry e => ExecEvalExpr e
  | CoalesceExpr args => eval_coalesce ExecEvalExpr args
  | MinMaxExpr op args =>
      vs ← eval_args ExecEvalExpr args;
      Ret (best_value (match op with kIsGreatest => true | kIsLeast => false end) Tuplesort.kInt4Oid vs None)
  | NullIfExpr opno args =>
      match args with
      | [a; b] =>
          x ← ExecEvalExpr a; y ← ExecEvalExpr b;
          if is_null x then Ret null_result
          else if is_null y then Ret x
          else
            match GetOperatorByOid env opno with
            | None => Ret x
            | Some row => if DatumGetBool (ApplyComparison "=" (oprleft row) (fst x) (fst y)) then Ret null_result else Ret x
            end
      | _ => Ret null_result
      end
  | SQLValueFunction op =>
      match op with
      | kCurrentDate | kLocalTimestamp => Ret (value (current_date (time_now env)))
      | kCurrentTimestamp | kLocalTime => Ret (value (current_timestamp (time_now env)))
      | _ => Ret null_result
      end
  | AArrayExpr _ | Unsupported => Ereport "unsupported expression type in ExecEvalExpr"
  end.

(** Without the JIT. *)
Definition ExecQual (qual : Node) : outcome bool :=
  match qual with
  | NullPtr => Ret true
  | _ => v ← ExecEvalExpr qual; Ret (is_true v)
  end.

(** The entries of the target list, as far as the result has columns. *)
Definition ExecProject (targetlist : list Node) (result_slot : TupleTableSlot) : outcome TupleTableSlot :=
  let es := take (Natts result_slot) targetlist in
  vs ← eval_args ExecEvalExpr es;
  Ret (mkSlot (tts_tupleDescriptor result_slot) (vs.*1 ++ drop (length es) (tts_values result_slot)) (vs.*2 ++ drop (length es) (tts_isnull result_slot))).
End evaluator.

End Expr.
