(* ===== verification/ExprSpec.v ===== *)
(** * What the evaluator computes

    What an evaluation depends on, its truth values against SQL's three-valued
    logic, and comparisons and sums the evaluator does not know. *)

From stdpp Require Import base list strings.
From S2P Require Import Prelude HeapForm TupleTape Tuplesort Multibyte TextFuncs Datetime HashJoin Expr.

Module ExprSpec.
Import HeapForm TupleTape TextFuncs Expr.

(** ** Induction over nodes *)

Section induction.
Context (P : Node → Prop).
Hypothesis H_null : P NullPtr.
Hypothesis H_var : ∀ n a t, P (Var n a t).
Hypothesis H_const : ∀ v b, P (Const v b).
Hypothesis H_param : ∀ n, P (Param n).
Hypothesis H_op : ∀ o args, Forall P args → P (OpExpr o args).
Hypothesis H_saop : ∀ o b args, Forall P args → P (ScalarArrayOpExpr o b args).
Hypothesis H_array : ∀ es, Forall P es → P (AArrayExpr es).
Hypothesis H_func : ∀ f args, Forall P args → P (FuncExpr f args).
Hypothesis H_agg : ∀ n, P (Aggref n).
Hypothesis H_bool : ∀ o args, Forall P args → P (BoolExpr o args).
Hypothesis H_test : ∀ a t, P a → P (NullTest a t).
Hypothesis H_case : ∀ a whens d, P a → Forall (λ w, P w.1 ∧ P w.2) whens → P d → P (CaseExpr a whens d).
Hypothesis H_relabel : ∀ a, P a → P (RelabelType a).
Hypothesis H_target : ∀ a, P a → P (TargetEntry a).
Hypothesis H_coalesce : ∀ args, Forall P args → P (CoalesceExpr args).
Hypothesis H_minmax : ∀ o args, Forall P args → P (MinMaxExpr o args).
Hypothesis H_nullif : ∀ o args, Forall P args → P (NullIfExpr o args).
Hypothesis H_sql : ∀ o, P (SQLValueFunction o).
Hypothesis H_unsupported : P Unsupported.

Fixpoint node_induction (e : Node) : P e :=
  let all := fix all (l : list Node) : Forall P l := match l with [] => Forall_nil_2 P | x :: l' => Forall_cons_2 P x l' (node_induction x) (all l') end in
  let pairs := fix pairs (l : list (Node * Node)) : Forall (λ w, P w.1 ∧ P w.2) l :=
    match l with [] => Forall_nil_2 _ | w :: l' => Forall_cons_2 _ w l' (conj (node_induction w.1) (node_induction w.2)) (pairs l') end in
  match e with
  | NullPtr => H_null
  | Var n a t => H_var n a t
  | Const v b => H_const v b
  | Param n => H_param n
  | OpExpr o args => H_op o args (all args)
  | ScalarArrayOpExpr o b args => H_saop o b args (all args)
  | AArrayExpr es => H_array es (all es)
  | FuncExpr f args => H_func f args (all args)
  | Aggref n => H_agg n
  | BoolExpr o args => H_bool o args (all args)
  | NullTest a t => H_test a t (node_induction a)
  | CaseExpr a whens d => H_case a whens d (node_induction a) (pairs whens) (node_induction d)
  | RelabelType a => H_relabel a (node_induction a)
  | TargetEntry a => H_target a (node_induction a)
  | CoalesceExpr args => H_coalesce args (all args)
  | MinMaxExpr o args => H_minmax o args (all args)
  | NullIfExpr o args => H_nullif o args (all args)
  | SQLValueFunction o => H_sql o
  | Unsupported => H_unsupported
  end.
End induction.

(** ** What an evaluation depends on *)

(** Every column the expression mentions is of a range-table index in [ok]. *)
Fixpoint mentions (ok : Z → bool) (e : Node) : bool :=
  match e with
  | Var varno _ _ => ok varno
  | OpExpr _ args | ScalarArrayOpExpr _ _ args | AArrayExpr args | FuncExpr _ args | BoolExpr _ args
  | CoalesceExpr args | MinMaxExpr _ args | NullIfExpr _ args => forallb (mentions ok) args
  | NullTest a _ | RelabelType a | TargetEntry a => mentions ok a
  | CaseExpr a whens d => mentions ok a && forallb (λ w, mentions ok w.1 && mentions ok w.2) whens && mentions ok d
  | _ => true
  end.

Definition slot_for (varno : Z) (ec : ExprContext) : TupleTableSlot :=
  if varno =? kInnerVar then ecxt_innertuple ec else if varno =? kOuterVar then ecxt_outertuple ec else ecxt_scantuple ec.

Section local.
Context `{Libm} `{Addresses} `{StdRegex} (env : Env) (ok : Z → bool) (ec1 ec2 : ExprContext).
Hypothesis same_slots : ∀ n, ok n = true → slot_for n ec1 = slot_for n ec2.
Abbreviation eval1 := (ExecEvalExpr env ec1).
Abbreviation eval2 := (ExecEvalExpr env ec2).

Lemma eval_args_ext args : Forall (λ e, eval1 e = eval2 e) args → eval_args eval1 args = eval_args eval2 args.
Proof. induction 1 as [|e args He _ IH]; [done|]. cbn. by rewrite He, IH. Qed.
Lemma eval_and_ext args : Forall (λ e, eval1 e = eval2 e) args → eval_and eval1 args = eval_and eval2 args.
Proof. induction 1 as [|e args He _ IH]; [done|]. cbn. by rewrite He, IH. Qed.
Lemma eval_or_ext args : Forall (λ e, eval1 e = eval2 e) args → eval_or eval1 args = eval_or eval2 args.
Proof. induction 1 as [|e args He _ IH]; [done|]. cbn. by rewrite He, IH. Qed.
Lemma eval_coalesce_ext args : Forall (λ e, eval1 e = eval2 e) args → eval_coalesce eval1 args = eval_coalesce eval2 args.
Proof. induction 1 as [|e args He _ IH]; [done|]. cbn. by rewrite He, IH. Qed.
Lemma eval_array_ext name type v use_or es : Forall (λ e, eval1 e = eval2 e) es → ∀ b, eval_array eval1 name type v use_or es b = eval_array eval2 name type v use_or es b.
Proof.
  induction 1 as [|e es He _ IH]; intros b; [done|]. cbn [eval_array]. rewrite He. destruct (eval2 e) as [r|]; [|done]. cbn. destruct (is_null r); [done|]. by rewrite !IH.
Qed.
Lemma eval_when_ext whens o1 o2 : o1 = o2 → Forall (λ w, eval1 w.1 = eval2 w.1 ∧ eval1 w.2 = eval2 w.2) whens → eval_when eval1 whens o1 = eval_when eval2 whens o2.
Proof. intros ->. induction 1 as [|[c r] whens [Hc Hr] _ IH]; [done|]. cbn in *. by rewrite Hc, Hr, IH. Qed.

(** Of an array the elements have the same values. *)
Definition same_eval (e : Node) : Prop := eval1 e = eval2 e ∧ match e with AArrayExpr es => Forall (λ x, eval1 x = eval2 x) es | _ => True end.

Lemma forallb_eval args : Forall (λ e, mentions ok e = true → same_eval e) args → forallb (mentions ok) args = true → Forall same_eval args.
Proof. intros Hall Hf. induction Hall as [|e args He _ IH]; [done|]. cbn in Hf. apply andb_true_iff in Hf as [H1' H2']. constructor; auto. Qed.
Lemma same_evals args : Forall same_eval args → Forall (λ e, eval1 e = eval2 e) args.
Proof. intros Ha. eapply Forall_impl; [exact Ha|]. by intros e []. Qed.

Lemma whens_eval whens : Forall (λ w, (mentions ok w.1 = true → same_eval w.1) ∧ (mentions ok w.2 = true → same_eval w.2)) whens →
  forallb (λ w, mentions ok w.1 && mentions ok w.2) whens = true → Forall (λ w, eval1 w.1 = eval2 w.1 ∧ eval1 w.2 = eval2 w.2) whens.
Proof.
  intros Hall Hf. induction Hall as [|w whens [H1' H2'] _ IH]; [done|]. cbn in Hf. apply andb_true_iff in Hf as [[Ha Hb]%andb_true_iff Hf]. constructor; [|by apply IH].
  split; [by apply H1'|by apply H2'].
Qed.

Lemma eval_local_strong e : mentions ok e = true → same_eval e.
Proof.
  induction e using node_induction; cbn [mentions]; intros Hm; try (by split); try (pose proof (forallb_eval _ ltac:(eassumption) Hm) as He; pose proof (same_evals _ He) as Hs); (split; [|done || (by apply same_evals)]).
  - cbn. f_equal. f_equal. by apply same_slots.
  - destruct args as [|a [|b [|c args]]]; [done|done| |done]. apply Forall_cons in Hs as [Ha Hs]. apply Forall_cons in Hs as [Hb _]. cbn. by rewrite Ha, Hb.
  - destruct args as [|a [|b' [|c args]]]; [done|done| |done]. apply Forall_cons in He as [[Ha _] He]. apply Forall_cons in He as [[_ Hb] _].
    cbn [ExecEvalExpr]. destruct (GetOperatorByOid env o) as [row|]; [|done]. rewrite Ha. destruct (eval2 a) as [r|]; [|done]. cbn [mbind outcome_bind]. destruct (is_null r); [done|].
    destruct b'; try done. by apply eval_array_ext.
  - done.
  - cbn [ExecEvalExpr]. destruct (GetProcByOid env f); [|done]. by rewrite (eval_args_ext args).
  - destruct o; cbn [ExecEvalExpr]; [by apply eval_and_ext|by apply eval_or_ext|]. destruct args as [|a args]; [done|]. apply Forall_cons in Hs as [-> _]. done.
  - cbn [ExecEvalExpr]. destruct (IHe Hm) as [E _]. destruct t; by rewrite E.
  - apply andb_true_iff in Hm as [[Ha Hw]%andb_true_iff Hd]. destruct e1; try done. cbn [ExecEvalExpr]. apply eval_when_ext; [by apply IHe2|by apply whens_eval].
  - cbn. by apply IHe.
  - cbn. by apply IHe.
  - cbn [ExecEvalExpr]. by apply eval_coalesce_ext.
  - cbn [ExecEvalExpr]. by rewrite (eval_args_ext args).
  - destruct args as [|a [|b [|c args]]]; [done|done| |done]. apply Forall_cons in Hs as [Ha Hs]. apply Forall_cons in Hs as [Hb _]. cbn. by rewrite Ha, Hb.
Qed.

(** An expression's value depends only on the slots it mentions. *)
Lemma eval_local e : mentions ok e = true → eval1 e = eval2 e.
Proof. intros Hm. by apply eval_local_strong. Qed.
End local.
(** ** Three-valued logic *)

(** SQL's truth values, with the conjunction, disjunction and negation of Kleene. *)
Inductive truth := TTrue | TFalse | TUnknown.
#[export] Instance truth_eq_dec : EqDecision truth.
Proof. solve_decision. Defined.

Definition tand (a b : truth) : truth :=
  match a, b with TFalse, _ | _, TFalse => TFalse | TTrue, TTrue => TTrue | _, _ => TUnknown end.
Definition tor (a b : truth) : truth :=
  match a, b with TTrue, _ | _, TTrue => TTrue | TFalse, TFalse => TFalse | _, _ => TUnknown end.
Definition tnot (a : truth) : truth := match a with TTrue => TFalse | TFalse => TTrue | TUnknown => TUnknown end.

Definition truth_of (v : result) : truth := if snd v then TUnknown else if DatumGetBool (fst v) then TTrue else TFalse.

(** [b] says at least what [a] says. *)
Definition refines (a b : truth) : Prop := a = TUnknown ∨ b = a.

Section logic.
Context `{Libm} `{Addresses} `{StdRegex} (env : Env) (ec : ExprContext).
Abbreviation eval := (ExecEvalExpr env ec).

Definition returns (e : Node) : bool := match eval e with Ret _ => true | Ereport _ => false end.

(** The truth value of an expression that is no connective. *)
Definition atom (e : Node) : truth := match eval e with Ret v => truth_of v | Ereport _ => TUnknown end.

(** The expression's value in SQL: the connectives are Kleene's, [x IN (a, b)] is
    [x = a OR x = b] and [x NOT IN (a, b)] is [x <> a AND x <> b]. *)
Fixpoint sql (e : Node) : truth :=
  match e with
  | BoolExpr kAnd args => foldr tand TTrue (map sql args)
  | BoolExpr kOr args => foldr tor TFalse (map sql args)
  | BoolExpr kNot (a :: _) => tnot (sql a)
  | ScalarArrayOpExpr opno use_or [a; AArrayExpr es] =>
      if use_or then foldr tor TFalse (map (λ x, atom (OpExpr opno [a; x])) es) else foldr tand TTrue (map (λ x, atom (OpExpr opno [a; x])) es)
  | _ => atom e
  end.

Definition compares (opno : Z) : bool := match GetOperatorByOid env opno with Some row => is_comparison (oprname row) | None => false end.

(** Connectives over comparisons with lists and over expressions that raise no error. *)
Fixpoint logical (e : Node) : bool :=
  match e with
  | BoolExpr kAnd args | BoolExpr kOr args => forallb logical args
  | BoolExpr kNot args => match args with a :: _ => logical a | [] => false end
  | ScalarArrayOpExpr opno _ [a; AArrayExpr es] => compares opno && returns a && negb (bool_decide (es = [])) && forallb returns es
  | _ => returns e
  end.

(** An AND or an OR, possibly negated. *)
Fixpoint connective (e : Node) : bool :=
  match e with
  | BoolExpr kNot args => match args with a :: _ => connective a | [] => false end
  | BoolExpr _ _ => true
  | _ => false
  end.

Lemma returns_ret e : returns e = true → ∃ v, eval e = Ret v ∧ atom e = truth_of v.
Proof. unfold returns, atom. destruct (eval e) as [v|]; [|done]. by exists v. Qed.

Lemma truth_true v : is_true v = true ↔ truth_of v = TTrue.
Proof. unfold is_true, truth_of. destruct (snd v), (DatumGetBool (fst v)); done. Qed.
Lemma truth_false v : is_false v = true ↔ truth_of v = TFalse.
Proof. unfold is_false, truth_of. destruct (snd v), (DatumGetBool (fst v)); done. Qed.
Lemma truth_unknown v : is_null v = true ↔ truth_of v = TUnknown.
Proof. unfold is_null, truth_of. destruct (snd v), (DatumGetBool (fst v)); done. Qed.
Lemma truth_bool b : truth_of (value (BoolGetDatum b)) = if b then TTrue else TFalse.
Proof. by destruct b. Qed.
Lemma truth_null : truth_of null_result = TUnknown.
Proof. done. Qed.

(** An evaluation that returns at least [t]. *)
Definition evaluates_to (o : outcome result) (t : truth) : Prop := ∃ v, o = Ret v ∧ refines t (truth_of v).

Lemma eval_and_refines args : Forall (λ e, evaluates_to (eval e) (sql e)) args → evaluates_to (eval_and eval args) (foldr tand TTrue (map sql args)).
Proof.
  induction 1 as [|e args (v & Ev & Hv) _ (w & Ew & Hw)]; [by exists (value (BoolGetDatum true)); split; [|right]|].
  unfold evaluates_to. cbn [eval_and map foldr]. rewrite Ev. cbn [mbind outcome_bind]. destruct (is_false v) eqn:Ef.
  - exists (value (BoolGetDatum false)). split; [done|]. apply truth_false in Ef. rewrite truth_bool. destruct Hv as [->|Hv]; [|rewrite <- Hv, Ef; by right].
    unfold refines. destruct (foldr _ _ _); auto.
  - exists w. split; [done|]. destruct Hv as [->|Hv].
    + unfold refines in *. destruct (foldr _ _ _); naive_solver.
    + rewrite <- Hv. destruct (truth_of v) eqn:Et; [by unfold refines, tand in *; destruct (foldr _ _ _)|by apply truth_false in Et; congruence|].
      unfold refines in *. destruct (foldr _ _ _); naive_solver.
Qed.

Lemma eval_or_refines args : Forall (λ e, evaluates_to (eval e) (sql e)) args → evaluates_to (eval_or eval args) (foldr tor TFalse (map sql args)).
Proof.
  induction 1 as [|e args (v & Ev & Hv) _ (w & Ew & Hw)]; [by exists (value (BoolGetDatum false)); split; [|right]|].
  unfold evaluates_to. cbn [eval_or map foldr]. rewrite Ev. cbn [mbind outcome_bind]. destruct (is_true v) eqn:Ef.
  - exists (value (BoolGetDatum true)). split; [done|]. apply truth_true in Ef. rewrite truth_bool. destruct Hv as [->|Hv]; [|rewrite <- Hv, Ef; by right].
    unfold refines. destruct (foldr _ _ _); auto.
  - exists w. split; [done|]. destruct Hv as [->|Hv].
    + unfold refines in *. destruct (foldr _ _ _); naive_solver.
    + rewrite <- Hv. destruct (truth_of v) eqn:Et; [by apply truth_true in Et; congruence|by unfold refines, tor in *; destruct (foldr _ _ _)|].
      unfold refines in *. destruct (foldr _ _ _); naive_solver.
Qed.
(** What a comparison with a scalar that is not null says of a list. *)
Lemma atom_compare opno row a s x v : GetOperatorByOid env opno = Some row → is_comparison (oprname row) = true → eval a = Ret s → eval x = Ret v →
  atom (OpExpr opno [a; x]) =
    if is_null s || is_null v then TUnknown else if DatumGetBool (ApplyComparison (oprname row) (oprleft row) (fst s) (fst v)) then TTrue else TFalse.
Proof. intros Hrow Hc Ha Hx. unfold atom. cbn. rewrite Ha, Hx. cbn. rewrite Hrow. cbn. rewrite Hc. unfold is_null. by destruct (snd s || snd v). Qed.

Lemma eval_array_exact opno row a s es : GetOperatorByOid env opno = Some row → is_comparison (oprname row) = true → eval a = Ret s → is_null s = false →
  forallb returns es = true → ∀ use_or any_null, ∃ v, eval_array eval (oprname row) (oprleft row) (fst s) use_or es any_null = Ret v ∧
    truth_of v = let found := map (λ x, atom (OpExpr opno [a; x])) es in
      if use_or then tor (if any_null then TUnknown else TFalse) (foldr tor TFalse found) else tand (if any_null then TUnknown else TTrue) (foldr tand TTrue found).
Proof.
  intros Hrow Hc Ha Hs. induction es as [|x es IH]; intros Hes use_or any_null; cbn [forallb] in Hes.
  - eexists. split; [done|]. by destruct any_null, use_or.
  - apply andb_true_iff in Hes as [(v & Ev & _)%returns_ret Hes]. cbn [eval_array map foldr]. rewrite Ev. cbn [mbind outcome_bind].
    rewrite (atom_compare opno row a s x v) by done. rewrite Hs. cbn [orb]. destruct (is_null v).
    + destruct (IH Hes use_or true) as (w & Ew & Hw). exists w. split; [done|]. rewrite Hw. by destruct use_or, any_null; cbn; destruct (foldr _ _ _).
    + destruct (IH Hes use_or any_null) as (w & Ew & Hw). destruct use_or, (DatumGetBool (ApplyComparison _ _ _ _)); cbn [negb].
      * eexists. split; [done|]. by destruct any_null.
      * exists w. split; [done|]. rewrite Hw. cbn. by destruct (foldr _ _ _), any_null.
      * exists w. split; [done|]. rewrite Hw. cbn. by destruct (foldr _ _ _), any_null.
      * eexists. split; [done|]. by destruct any_null.
Qed.

(** Against a null scalar every comparison is unknown. *)
Lemma null_scalar opno row a s es : GetOperatorByOid env opno = Some row → is_comparison (oprname row) = true → eval a = Ret s → is_null s = true →
  forallb returns es = true → es ≠ [] → foldr tor TFalse (map (λ x, atom (OpExpr opno [a; x])) es) = TUnknown ∧ foldr tand TTrue (map (λ x, atom (OpExpr opno [a; x])) es) = TUnknown.
Proof.
  intros Hrow Hc Ha Hs. induction es as [|x es IH]; [done|]. cbn [forallb]. intros [(v & Ev & _)%returns_ret Hes]%andb_true_iff _. cbn [map foldr].
  rewrite (atom_compare opno row a s x v) by done. rewrite Hs. cbn [orb]. destruct es as [|y es]; [done|]. by destruct (IH Hes ltac:(done)) as [-> ->].
Qed.

(** A comparison with a list is exact. *)
Lemma array_exact opno use_or a es : logical (ScalarArrayOpExpr opno use_or [a; AArrayExpr es]) = true →
  ∃ v, eval (ScalarArrayOpExpr opno use_or [a; AArrayExpr es]) = Ret v ∧ truth_of v = sql (ScalarArrayOpExpr opno use_or [a; AArrayExpr es]).
Proof.
  cbn [logical sql]. unfold compares. intros [[[Hc (s & Ea & _)%returns_ret]%andb_true_iff Hne]%andb_true_iff Hes]%andb_true_iff. cbn [ExecEvalExpr].
  destruct (GetOperatorByOid env opno) as [row|] eqn:Er; [|done]. rewrite Ea. cbn [mbind outcome_bind]. destruct (is_null s) eqn:Es.
  - exists null_result. split; [done|]. apply negb_true_iff, bool_decide_eq_false in Hne. destruct (null_scalar opno row a s es) as [-> ->]; [done..|]. by destruct use_or.
  - destruct (eval_array_exact opno row a s es Er Hc Ea Es Hes use_or false) as (v & Ev & Hv). exists v. split; [done|]. rewrite Hv. by destruct use_or; cbn; destruct (foldr _ _ _).
Qed.

Lemma evaluates_atom e : returns e = true → evaluates_to (eval e) (atom e).
Proof. intros (v & Ev & ->)%returns_ret. exists v. split; [done|by right]. Qed.
Lemma logical_all args : Forall (λ e, logical e = true → evaluates_to (eval e) (sql e)) args → forallb logical args = true → Forall (λ e, evaluates_to (eval e) (sql e)) args.
Proof. induction 1; cbn; [done|]. intros [? ?]%andb_true_iff. auto. Qed.

Lemma logical_evaluates e : logical e = true → evaluates_to (eval e) (sql e).
Proof.
  induction e using node_induction; try (intros Hl; by apply evaluates_atom).
  - destruct args as [|a [|b' [|]]]; try (intros Hl; by apply evaluates_atom); destruct b'; try (intros Hl; by apply evaluates_atom).
    intros Hl. destruct (array_exact o b a elements Hl) as (v & Ev & Hv). exists v. split; [done|by right].
  - destruct o; cbn [logical]; intros Hl; [by apply eval_and_refines, logical_all|by apply eval_or_refines, logical_all|].
    destruct args as [|a args]; [done|]. apply Forall_cons in H2 as [IH _]. destruct (IH Hl) as (v & Ev & Hv). cbn [ExecEvalExpr sql]. rewrite Ev. cbn [mbind outcome_bind].
    eexists. split; [done|]. destruct (is_null v) eqn:En; [apply truth_unknown in En; rewrite En in Hv; destruct Hv as [->| <-]; by left|].
    rewrite truth_bool. destruct Hv as [->|Hv]; [by left|]. right. rewrite <- Hv. unfold truth_of, is_null in *. rewrite En. by destruct (DatumGetBool (fst v)).
Qed.

Lemma eval_and_known args v : eval_and eval args = Ret v → truth_of v ≠ TUnknown.
Proof.
  induction args as [|a args IH]; cbn [eval_and]; [by intros [= <-]|]. destruct (eval a) as [w|]; [|done]. cbn [mbind outcome_bind].
  destruct (is_false w); [by intros [= <-]|done].
Qed.
Lemma eval_or_known args v : eval_or eval args = Ret v → truth_of v ≠ TUnknown.
Proof.
  induction args as [|a args IH]; cbn [eval_or]; [by intros [= <-]|]. destruct (eval a) as [w|]; [|done]. cbn [mbind outcome_bind].
  destruct (is_true w); [by intros [= <-]|done].
Qed.

(** What NOT does to an argument's truth value. *)
Lemma eval_not a args v : eval (BoolExpr kNot (a :: args)) = Ret v → ∃ w, eval a = Ret w ∧ truth_of v = tnot (truth_of w).
Proof.
  cbn [ExecEvalExpr]. destruct (eval a) as [w|]; [|done]. cbn [mbind outcome_bind]. intros [= <-]. exists w. split; [done|].
  unfold is_null. destruct (snd w) eqn:En; [by unfold truth_of; rewrite En|]. rewrite truth_bool. unfold truth_of. rewrite En. by destruct (DatumGetBool (fst w)).
Qed.

(** A connective is never null ... *)
Lemma connective_known e : ∀ v, connective e = true → eval e = Ret v → truth_of v ≠ TUnknown.
Proof.
  induction e using node_induction; intros u Hc; try done. destruct o; [apply eval_and_known|apply eval_or_known|].
  destruct args as [|a args]; [done|]. apply Forall_cons in H2 as [IH _]. intros (w & Ew & ->)%eval_not. specialize (IH w Hc Ew). by destruct (truth_of w).
Qed.

(** ... and everything else has SQL's value. *)
Lemma plain_exact e : ∀ v, logical e = true → connective e = false → eval e = Ret v → truth_of v = sql e.
Proof.
  assert (Hatom : ∀ x v, eval x = Ret v → truth_of v = atom x) by (intros x v Ex; unfold atom; by rewrite Ex).
  induction e using node_induction; intros u Hl Hc Ev; try (by apply Hatom).
  - destruct args as [|a [|b' [|]]]; try (by apply Hatom); destruct b'; try (by apply Hatom). destruct (array_exact o b a elements Hl) as (w & Ew & Hw). congruence.
  - destruct o; [done|done|]. destruct args as [|a args]; [done|]. apply Forall_cons in H2 as [IH _]. apply eval_not in Ev as (w & Ew & ->). cbn [sql]. by rewrite (IH w).
Qed.
End logic.

Lemma null_pointer (e : Node) : e = NullPtr ∨ e ≠ NullPtr.
Proof. destruct e; [by left|by right..]. Qed.

(** C8: An expression of connectives over comparisons, lists and other expressions
    that raise no error has a value, which agrees with SQL's three-valued logic
    whenever that knows it: nested AND, OR and NOT, IN and NOT IN with nulls in
    the list.  It is SQL's value exactly unless the expression is an AND or an
    OR, possibly negated, that is unknown: this the evaluator makes true or false.
    So a WHERE clause keeps every row that satisfies it and drops every row of
    which it is false. *)
Theorem where_follows_sql `{Libm} `{Addresses} `{StdRegex} env ec e :
  logical env ec e = true →
  ∃ v b, ExecEvalExpr env ec e = Ret v ∧ ExecQual env ec e = Ret b ∧
    refines (sql env ec e) (truth_of v) ∧
    (truth_of v = sql env ec e ↔ ¬ (connective e = true ∧ sql env ec e = TUnknown)) ∧
    (sql env ec e = TTrue → b = true) ∧ (sql env ec e = TFalse → b = false).
Proof.
  intros Hl. destruct (logical_evaluates env ec e Hl) as (v & Ev & Hv).
  assert (Hx : truth_of v = sql env ec e ↔ ¬ (connective e = true ∧ sql env ec e = TUnknown)).
  { split; [intros Heq (Hc & Hu); by apply (connective_known env ec e v Hc Ev); rewrite Heq|]. intros Hn.
    destruct (connective e) eqn:Hc; [|by apply (plain_exact env ec)]. destruct Hv; [by destruct Hn|done]. }
  destruct (null_pointer e) as [->|Hne].
  - exists v, true. by split_and!.
  - exists v, (is_true v). split_and!; try done.
    + unfold ExecQual. destruct e; by rewrite ?Ev.
    + intros Ht. apply truth_true. by destruct Hv as [|Hv]; [congruence|rewrite Hv].
    + intros Ht. destruct (is_true v) eqn:Et; [|done]. apply truth_true in Et. by destruct Hv as [|Hv]; congruence.
Qed.
(** ** Examples *)

(** The operators of the integers as the catalog starts with them, and a table of
    two integers with the row [(5, NULL)]. *)
Definition int_operators : Env :=
  mkEnv [mkOperator 96 "=" Tuplesort.kInt4Oid; mkOperator 80 "<>" Tuplesort.kInt4Oid; mkOperator 97 "<" Tuplesort.kInt4Oid] [] [] [] None Multibyte.kUtf8 0.
Definition int_column := mkAttr 4 true HeapForm.kInt kPlain.
Definition five_null : TupleTableSlot := mkSlot (mkTupleDesc [int_column; int_column]) [DVal 5; DVal 0] [false; true].
Definition at_five_null : ExprContext := mkContext five_null five_null five_null.
Definition a : Node := Var 1 1 Tuplesort.kInt4Oid.
Definition b : Node := Var 1 2 Tuplesort.kInt4Oid.
Definition int (z : Z) : Node := Const (DVal z) false.
Definition null : Node := Const (DVal 0) true.

#[export] Instance plain_libm : Libm := {| std_pow := λ x _, x; std_log := id; std_log10 := id; std_exp := id |}.
#[export] Instance plain_addresses : Addresses := λ x y, bool_decide (x = y).
#[export] Instance plain_regex : StdRegex := {| regex_error := λ _, None; regex_replace_first := λ s _ _, s; regex_search := λ _ _, None |}.

(** [a NOT IN (1, NULL) OR NOT (a = 3 AND b = 2)]. *)
Definition demo_where : Node :=
  BoolExpr kOr [ScalarArrayOpExpr 80 false [a; AArrayExpr [int 1; null]]; BoolExpr kNot [BoolExpr kAnd [OpExpr 96 [a; int 3]; OpExpr 96 [b; int 2]]]].

Lemma where_follows_sql_witness :
  sql int_operators at_five_null demo_where = TTrue ∧ sql int_operators at_five_null (ScalarArrayOpExpr 80 false [a; AArrayExpr [int 1; null]]) = TUnknown ∧
  ∃ v, ExecEvalExpr int_operators at_five_null demo_where = Ret v ∧ truth_of v = TTrue ∧ ExecQual int_operators at_five_null demo_where = Ret true.
Proof.
  split; [by vm_compute|]. split; [by vm_compute|].
  destruct (where_follows_sql int_operators at_five_null demo_where) as (v & b' & Ev & Eb & Hv & _ & Ht & _); [by vm_compute|].
  assert (Hs : sql int_operators at_five_null demo_where = TTrue) by (by vm_compute).
  exists v. rewrite Hs in Hv. split; [done|]. split; [by destruct Hv|]. rewrite Eb. by rewrite (Ht Hs).
Defined.

(** [a = 5 AND b = 2] is unknown for the row [(5, NULL)], which the WHERE clause keeps. *)
Theorem unknown_conjunction_keeps_row :
  let qual := BoolExpr kAnd [OpExpr 96 [a; int 5]; OpExpr 96 [b; int 2]] in
  sql int_operators at_five_null qual = TUnknown ∧ ExecQual int_operators at_five_null qual = Ret true.
Proof. by vm_compute. Qed.

(** [NOT (a = 3 OR b = 2)] too. *)
Theorem negated_unknown_disjunction_keeps_row :
  let qual := BoolExpr kNot [BoolExpr kOr [OpExpr 96 [a; int 3]; OpExpr 96 [b; int 2]]] in
  sql int_operators at_five_null qual = TUnknown ∧ ExecQual int_operators at_five_null qual = Ret true.
Proof. by vm_compute. Qed.

(** The catalog has the operators of smallint (21) and real (700) and an order of
    booleans, which the evaluator does not know: no two values are equal, none
    are different, and every sum is zero. *)
Theorem unlisted_types_compare_false opname left right :
  ApplyComparison opname 21 left right = BoolGetDatum false ∧ ApplyComparison opname 700 left right = BoolGetDatum false ∧
  ApplyComparison "<" Tuplesort.kBoolOid left right = BoolGetDatum false ∧ ApplyArithmetic opname 21 left right = DVal 0 ∧ ApplyArithmetic opname 700 left right = DVal 0.
Proof. done. Qed.

(** An integer division by zero is 0. *)
Theorem division_by_zero_is_zero l : DatumGetInt32 (ApplyArithmetic "/" Tuplesort.kInt4Oid l (DVal 0)) = 0.
Proof. done. Qed.

End ExprSpec.
