(* ===== verification/PlanNode.v ===== *)
(** * Plan nodes

    The interface between the nodes of a plan, [PlanState] of
    src/include/executor/node_exec.hpp: a node returns a tuple per call until
    there is none, and can be started again.

    [produces s l s'] says which tuples a node returns; [Yields] that a node
    returns the same ones, of one descriptor, whenever it is started again.  A node
    whose loop takes fuel is described by its turns; from some fuel on its calls
    return what the turns lead to. *)

From stdpp Require Import base list strings.
From S2P Require Import Prelude HeapForm TupleTape TuplestoreSpec HashJoin.

Module PlanNode.
Import HeapForm TupleTape TuplestoreSpec.
Export HashJoin (turn, Continue, Return).

Class PlanNode (St : Type) := {
  ExecProcNode : nat → M St (option TupleTableSlot);
  ExecReScan : St → St;
}.

(** ** Steps that keep an invariant *)

Section settles.
Context {St : Type} (I : St → Prop).

(** When the step returns from a state in [I], it ends in one and returns a value
    in [Q], and with more fuel it does the same. *)
Definition settles {A : Type} (m : nat → M St A) (Q : A → Prop) : Prop :=
  ∀ f s a s', I s → m f s = (Ret a, s') → I s' ∧ Q a ∧ ∀ f', (f ≤ f')%nat → m f' s = (Ret a, s').

Lemma settles_ret {A} (a : A) (Q : A → Prop) : Q a → settles (λ _, mret a) Q.
Proof. by intros HQ f s b s' Hs [= <- <-]. Qed.
Lemma settles_err {A} e (Q : A → Prop) : settles (λ _, ereport e) Q.
Proof. by intros f s b s' Hs. Qed.
Lemma settles_bind {A B} (m : nat → M St A) (k : A → nat → M St B) Q R : settles m Q → (∀ a, Q a → settles (k a) R) → settles (λ f, m f ≫= λ a, k a f) R.
Proof.
  intros Hm Hk f s b s' Hs Hb. apply bind_inv_ret in Hb as (a & s1 & Ha & Hb). destruct (Hm f s a s1 Hs Ha) as (Hs1 & HQ & Hm'). destruct (Hk a HQ f s1 b s' Hs1 Hb) as (Hs' & HR & Hk').
  split; [done|]. split; [done|]. intros f' Hf. rewrite (bind_ret_run _ _ _ _ _ (Hm' f' Hf)). by apply Hk'.
Qed.
Lemma settles_modify g (Q : unit → Prop) : Q tt → (∀ s, I s → I (g s)) → settles (λ _, modify g) Q.
Proof. intros HQ Hg f s b s' Hs [= <- <-]. split; [by apply Hg|done]. Qed.
Lemma settles_get : settles (λ _, get) I.
Proof. by intros f s b s' Hs [= <- <-]. Qed.
Lemma settles_gets {A} (g : St → A) (Q : A → Prop) : (∀ s, I s → Q (g s)) → settles (λ _, gets g) Q.
Proof. intros HQ f s b s' Hs [= <- <-]. split; [done|]. split; [by apply HQ|done]. Qed.
Lemma settles_weaken {A} (m : nat → M St A) (Q R : A → Prop) : settles m Q → (∀ a, Q a → R a) → settles m R.
Proof. intros Hm HQ f s a s' Hs Ha. destruct (Hm f s a s' Hs Ha) as (H1 & H2 & H3). auto. Qed.

End settles.

(** A step of a part of the state. *)
Lemma settles_lift {St S A : Type} (I : St → Prop) (J : S → Prop) (part : St → S) (put : S → St → St) (m : nat → M S A) Q :
  (∀ st, I st → J (part st)) → (∀ s st, I st → J s → I (put s st)) → settles J m Q → settles I (λ f st, let '(o, s) := m f (part st) in (o, put s st)) Q.
Proof.
  intros Hp Hput Hm f st a st' Hst Ha. destruct (m f (part st)) as [o s] eqn:E. injection Ha as -> <-. destruct (Hm f (part st) a s (Hp _ Hst) E) as (Hs & HQ & Hf).
  split; [by apply Hput|]. split; [done|]. intros f' Hf'. by rewrite Hf.
Qed.

Section node.
Context {St : Type} `{PlanNode St}.

Definition option_fits (d : TupleDescData) (o : option TupleTableSlot) : Prop := match o with Some t => slot_fits d t | None => True end.

(** With enough fuel a call returns [o]. *)
Definition returns (s : St) (o : option TupleTableSlot) (s' : St) : Prop := ∃ n, ∀ fuel, (n ≤ fuel)%nat → ExecProcNode fuel s = (Ret o, s').

Inductive produces : St → list TupleTableSlot → St → Prop :=
  | produces_end s s' : returns s None s' → produces s [] s'
  | produces_row s t s1 l s' : returns s (Some t) s1 → produces s1 l s' → produces s (t :: l) s'.

(** From any state in [I], in which the node stays, starting again produces [l]. *)
Record Yields (d : TupleDescData) (I : St → Prop) (l : list TupleTableSlot) : Prop := {
  yields_step : settles I ExecProcNode (option_fits d);
  yields_again : ∀ s, I s → I (ExecReScan s) ∧ ∃ s', produces (ExecReScan s) l s';
}.

Lemma returns_fits d I l s o s' : Yields d I l → I s → returns s o s' → option_fits d o ∧ I s'.
Proof. intros [Hs _] Hi (n & Hn). destruct (Hs n s o s' Hi (Hn n (le_n n))) as (Hi' & Ho & _). done. Qed.

Lemma produces_fits d I l0 s l s' : Yields d I l0 → I s → produces s l s' → Forall (slot_fits d) l ∧ I s'.
Proof.
  intros Hy Hi Hp. induction Hp as [s s' Hr|s t s1 l s' Hr Hp IH].
  - split; [constructor|]. by destruct (returns_fits d I l0 s None s' Hy Hi Hr).
  - destruct (returns_fits d I l0 s (Some t) s1 Hy Hi Hr) as [Ht Hi1]. destruct (IH Hi1) as [Hl Hi']. split; [by constructor|done].
Qed.

(** A first call like that of another state. *)
Lemma produces_like s1 s2 l s' : (∃ n, ∀ f, (n ≤ f)%nat → ExecProcNode f s1 = ExecProcNode f s2) → produces s2 l s' → produces s1 l s'.
Proof.
  intros (n & Hn) Hp. assert (Hr : ∀ o s3, returns s2 o s3 → returns s1 o s3).
  { intros o s3 (k & Hk). exists (n + k)%nat. intros f Hf. rewrite Hn by lia. apply Hk. lia. }
  inversion Hp; subst; [by apply produces_end, Hr|]. by eapply produces_row; [apply Hr|].
Qed.

(** All calls until there is no tuple. *)
Fixpoint collect (fuel n : nat) : M St (list TupleTableSlot) :=
  match n with
  | O => ereport "out of fuel"
  | S n' => o ← ExecProcNode fuel; match o with None => mret [] | Some t => l ← collect fuel n'; mret (t :: l) end
  end.

Lemma produces_collect s l s' : produces s l s' → ∃ n, ∀ f m, (n ≤ f)%nat → (n ≤ m)%nat → collect f m s = (Ret l, s').
Proof.
  induction 1 as [s s' (n & Hn)|s t s1 l s' (n & Hn) Hp (k & Hk)].
  - exists (1 + n)%nat. intros f [|m] Hf Hm; [lia|]. cbn [collect]. by rewrite (bind_ret_run _ _ _ _ _ (Hn f ltac:(lia))).
  - exists (1 + (n + k))%nat. intros f [|m] Hf Hm; [lia|]. cbn [collect]. rewrite (bind_ret_run _ _ _ _ _ (Hn f ltac:(lia))).
    by rewrite (bind_ret_run _ _ _ _ _ (Hk f m ltac:(lia) ltac:(lia))).
Qed.
End node.

(** ** Loops *)

Section loop.
Context {St : Type} (step : nat → M St turn).

Fixpoint loop (fuel n : nat) : M St (option TupleTableSlot) :=
  match n with
  | O => ereport "out of fuel"
  | S n' => t ← step fuel; match t with Continue => loop fuel n' | Return o => mret o end
  end.

(** With enough fuel a turn leads to this. *)
Definition turns (s : St) (t : turn) (s' : St) : Prop := ∃ n, ∀ fuel, (n ≤ fuel)%nat → step fuel s = (Ret t, s').

Inductive runs : St → list TupleTableSlot → St → Prop :=
  | runs_end s s' : turns s (Return None) s' → runs s [] s'
  | runs_row s t s1 l s' : turns s (Return (Some t)) s1 → runs s1 l s' → runs s (t :: l) s'
  | runs_go s s1 l s' : turns s Continue s1 → runs s1 l s' → runs s l s'.

(** A prefix of a run. *)
Inductive leads : St → list TupleTableSlot → St → Prop :=
  | leads_here s : leads s [] s
  | leads_row s t s1 l s' : turns s (Return (Some t)) s1 → leads s1 l s' → leads s (t :: l) s'
  | leads_go s s1 l s' : turns s Continue s1 → leads s1 l s' → leads s l s'.

Lemma leads_trans s l s1 l' s2 : leads s l s1 → leads s1 l' s2 → leads s (l ++ l') s2.
Proof. induction 1; intros Hl; [done|by eapply leads_row; eauto|by eapply leads_go; eauto]. Qed.

Lemma leads_runs s l s1 l' s2 : leads s l s1 → runs s1 l' s2 → runs s (l ++ l') s2.
Proof. induction 1; intros Hl; [done|by eapply runs_row; eauto|by eapply runs_go; eauto]. Qed.

Definition ends (s : St) (o : option TupleTableSlot) (s' : St) : Prop := ∃ n, ∀ f m, (n ≤ f)%nat → (n ≤ m)%nat → loop f m s = (Ret o, s').

Lemma ends_now s o s' : turns s (Return o) s' → ends s o s'.
Proof. intros (n & Hn). exists (1 + n)%nat. intros f [|m] Hf Hm; [lia|]. cbn [loop]. by rewrite (bind_ret_run _ _ _ _ _ (Hn f ltac:(lia))). Qed.
Lemma ends_later s s1 o s' : turns s Continue s1 → ends s1 o s' → ends s o s'.
Proof.
  intros (n & Hn) (k & Hk). exists (1 + (n + k))%nat. intros f [|m] Hf Hm; [lia|]. cbn [loop]. rewrite (bind_ret_run _ _ _ _ _ (Hn f ltac:(lia))). apply Hk; lia.
Qed.

Lemma runs_ends s l s' : runs s l s' → match l with [] => ends s None s' | t :: l' => ∃ s1, ends s (Some t) s1 ∧ runs s1 l' s' end.
Proof.
  induction 1 as [s s' Ht|s t s1 l s' Ht Hr IH|s s1 l s' Ht Hr IH]; [by apply ends_now|exists s1; split; [by apply ends_now|done]|].
  destruct l as [|t l]; [by eapply ends_later|]. destruct IH as (s2 & He & Hr2). exists s2. split; [by eapply ends_later|done].
Qed.

(** A node whose call is the loop produces what its turns lead to. *)
Lemma runs_produces `{PlanNode St} s l s' : (∀ f s, ExecProcNode f s = loop f f s) → runs s l s' → produces s l s'.
Proof.
  intros Hloop. revert s. induction l as [|t l IH]; intros s Hr; apply runs_ends in Hr.
  - constructor. destruct Hr as (n & Hn). exists n. intros f Hf. rewrite Hloop. by apply Hn.
  - destruct Hr as (s1 & (n & Hn) & Hr). eapply produces_row; [|by apply IH]. exists n. intros f Hf. rewrite Hloop. by apply Hn.
Qed.

(** A first turn like that of another state. *)
Lemma runs_like s1 s2 l s' : (∃ n, ∀ f, (n ≤ f)%nat → step f s1 = step f s2) → runs s2 l s' → runs s1 l s'.
Proof.
  intros (n & Hn) Hr. assert (Ht : ∀ t s3, turns s2 t s3 → turns s1 t s3).
  { intros t s3 (k & Hk). exists (n + k)%nat. intros f Hf. rewrite Hn by lia. apply Hk. lia. }
  inversion Hr; subst; [eapply runs_end|eapply runs_row|eapply runs_go]; eauto.
Qed.

(** What every turn preserves, every call preserves. *)
Definition turn_gives (Q : option TupleTableSlot → Prop) (t : turn) : Prop := match t with Continue => True | Return o => Q o end.
Lemma loop_settles (I : St → Prop) Q : settles I step (turn_gives Q) → settles I (λ f, loop f f) Q.
Proof.
  intros Hs. assert (Hn : ∀ n f s o s', I s → loop f n s = (Ret o, s') → I s' ∧ Q o ∧ ∀ f' n', (f ≤ f')%nat → (n ≤ n')%nat → loop f' n' s = (Ret o, s')).
  { induction n as [|n IH]; intros f s o s' Hi Hl; [done|]. cbn [loop] in Hl. apply bind_inv_ret in Hl as (t & s1 & Ht & Hl). destruct (Hs f s t s1 Hi Ht) as (Hi1 & HQ & Hf). destruct t as [|o1].
    - destruct (IH f s1 o s' Hi1 Hl) as (Hi' & HQ' & Hl'). split; [done|]. split; [done|]. intros f' [|n'] Hf' Hn'; [lia|]. cbn [loop]. rewrite (bind_ret_run _ _ _ _ _ (Hf f' Hf')). apply Hl'; lia.
    - injection Hl as <- <-. split; [done|]. split; [done|]. intros f' [|n'] Hf' Hn'; [lia|]. cbn [loop]. by rewrite (bind_ret_run _ _ _ _ _ (Hf f' Hf')). }
  intros f s o s' Hi Hl. destruct (Hn f f s o s' Hi Hl) as (Hi' & HQ & Hl'). split; [done|]. split; [done|]. intros f' Hf. by apply Hl'.
Qed.
End loop.

(** ** Loops over all tuples of a child *)

Section for_each.
Context {St : Type} (next : nat → M St (option TupleTableSlot)) (put : TupleTableSlot → M St unit).

Fixpoint for_each (fuel n : nat) : M St unit :=
  match n with
  | O => ereport "out of fuel"
  | S n' => slot ← next fuel; match slot with None => mret tt | Some slot => put slot;; for_each fuel n' end
  end.

Lemma for_each_settles (I : St → Prop) Q : settles I next Q → (∀ t, Q (Some t) → settles I (λ _, put t) (λ _, True)) → settles I (λ f, for_each f f) (λ _, True).
Proof.
  intros Hnext Hput. assert (Hn : ∀ n f s a s', I s → for_each f n s = (Ret a, s') → I s' ∧ ∀ f' n', (f ≤ f')%nat → (n ≤ n')%nat → for_each f' n' s = (Ret a, s')).
  { induction n as [|n IH]; intros f s a s' Hi Hf; [done|]. cbn [for_each] in Hf. apply bind_inv_ret in Hf as (o & s1 & Ho & Hf). destruct (Hnext f s o s1 Hi Ho) as (Hi1 & HQ & Hs). destruct o as [t|].
    - apply bind_inv_ret in Hf as (u & s2 & Hu & Hf). destruct (Hput t HQ f s1 u s2 Hi1 Hu) as (Hi2 & _ & Hs2). destruct (IH f s2 a s' Hi2 Hf) as (Hi' & Hs3). split; [done|].
      intros f' [|n'] Hf' Hn'; [lia|]. cbn [for_each]. rewrite (bind_ret_run _ _ _ _ _ (Hs f' Hf')), (bind_ret_run _ _ _ _ _ (Hs2 f' Hf')). apply Hs3; lia.
    - injection Hf as <- <-. split; [done|]. intros f' [|n'] Hf' Hn'; [lia|]. cbn [for_each]. by rewrite (bind_ret_run _ _ _ _ _ (Hs f' Hf')). }
  intros f s a s' Hi Hf. destruct (Hn f f s a s' Hi Hf) as (Hi' & Hf'). split; [done|]. split; [done|]. intros f' Hle. by apply Hf'.
Qed.
End for_each.

(** ** A list as a node *)

(** A node that returns the tuples of a list. *)
Record ListNode := mkList { all_tuples : list TupleTableSlot; rest_tuples : list TupleTableSlot }.
Definition list_node (l : list TupleTableSlot) : ListNode := mkList l l.
#[export] Instance ListNode_node : PlanNode ListNode := {|
  ExecProcNode _ s := match rest_tuples s with [] => (Ret None, s) | t :: l => (Ret (Some t), mkList (all_tuples s) l) end;
  ExecReScan s := mkList (all_tuples s) (all_tuples s);
|}.

Lemma list_produces all l : produces (mkList all l) l (mkList all []).
Proof. induction l as [|t l IH]; [constructor; by exists 0%nat|]. eapply produces_row; [by exists 0%nat|done]. Qed.

Lemma list_yields d l : Forall (slot_fits d) l → Yields d (λ s, all_tuples s = l ∧ Forall (slot_fits d) (rest_tuples s)) l.
Proof.
  intros Hl. split.
  - intros f [all [|t r]] o s' [E Hr] Ho; cbn in *; injection Ho as <- <-; [done|]. apply Forall_cons in Hr as [Ht Hr]. done.
  - intros [all rest] [<- _]. split; [done|]. eexists. apply list_produces.
Qed.

End PlanNode.
