(* ===== verification/NestLoop.v ===== *)
(** * The nested-loop join

    src/executor/node_nestloop.cpp: for every outer tuple the inner child is
    started again and its tuples are tested against the join qualification.
    The children are any plan nodes.  The scan tuple of the expression context
    is a null pointer, which reads like a slot without columns. *)

From stdpp Require Import base list strings.
From S2P Require Import Prelude HeapForm TupleTape TuplestoreSpec HashJoin HashJoinSpec PlanNode.

Module NestLoop.
Import HeapForm TupleTape TuplestoreSpec HashJoin HashJoinSpec PlanNode.

(** What the joins share: the expression context without a scan tuple, and the
    part of a plan the rows depend on. *)
Definition no_slot : TupleTableSlot := mkSlot (mkTupleDesc []) [] [].
Definition join_context (outer inner : TupleTableSlot) : ExprContext := mkContext outer inner no_slot.

Record JoinPlan `{Expressions} := mkJoinPlan { plan_jointype : JoinType; plan_qual : option Node; plan_targetlist : list Node }.

Record NestLoopState (S1 S2 : Type) := mkNestLoop {
  leftps : S1;
  rightps : S2;
  nl_OuterTupleSlot : TupleTableSlot;
  nl_InnerTupleSlot : TupleTableSlot;
  nl_NeedNewOuter : bool;
  nl_MatchedOuter : bool;
  ps_ResultTupleSlot : TupleTableSlot }.
Arguments mkNestLoop {S1 S2}.
Arguments leftps {S1 S2}.
Arguments rightps {S1 S2}.
Arguments nl_OuterTupleSlot {S1 S2}.
Arguments nl_InnerTupleSlot {S1 S2}.
Arguments nl_NeedNewOuter {S1 S2}.
Arguments nl_MatchedOuter {S1 S2}.
Arguments ps_ResultTupleSlot {S1 S2}.

Section nestloop.
Context `{Expressions} {S1 S2 : Type} `{PlanNode S1} `{PlanNode S2} (plan : JoinPlan).
Abbreviation State := (NestLoopState S1 S2).

Definition with_left (s : S1) (st : State) : State :=
  mkNestLoop s (rightps st) (nl_OuterTupleSlot st) (nl_InnerTupleSlot st) (nl_NeedNewOuter st) (nl_MatchedOuter st) (ps_ResultTupleSlot st).
Definition with_right (s : S2) (st : State) : State :=
  mkNestLoop (leftps st) s (nl_OuterTupleSlot st) (nl_InnerTupleSlot st) (nl_NeedNewOuter st) (nl_MatchedOuter st) (ps_ResultTupleSlot st).
Definition with_outer_slot (s : TupleTableSlot) (st : State) : State :=
  mkNestLoop (leftps st) (rightps st) s (nl_InnerTupleSlot st) (nl_NeedNewOuter st) (nl_MatchedOuter st) (ps_ResultTupleSlot st).
Definition with_inner_slot (s : TupleTableSlot) (st : State) : State :=
  mkNestLoop (leftps st) (rightps st) (nl_OuterTupleSlot st) s (nl_NeedNewOuter st) (nl_MatchedOuter st) (ps_ResultTupleSlot st).
Definition with_flags (need matched : bool) (st : State) : State :=
  mkNestLoop (leftps st) (rightps st) (nl_OuterTupleSlot st) (nl_InnerTupleSlot st) need matched (ps_ResultTupleSlot st).
Definition with_result (s : TupleTableSlot) (st : State) : State :=
  mkNestLoop (leftps st) (rightps st) (nl_OuterTupleSlot st) (nl_InnerTupleSlot st) (nl_NeedNewOuter st) (nl_MatchedOuter st) s.

Definition ExecInit (outer_desc inner_desc result_desc : TupleDescData) (l : S1) (r : S2) : State :=
  mkNestLoop l r (Make outer_desc) (Make inner_desc) true false (Make result_desc).

Definition left_next (fuel : nat) : M State (option TupleTableSlot) := λ st, let '(o, s) := PlanNode.ExecProcNode fuel (leftps st) in (o, with_left s st).
Definition right_next (fuel : nat) : M State (option TupleTableSlot) := λ st, let '(o, s) := PlanNode.ExecProcNode fuel (rightps st) in (o, with_right s st).

Definition project : M State turn :=
  modify (λ st, with_result (ExecProject (plan_targetlist plan) (join_context (nl_OuterTupleSlot st) (nl_InnerTupleSlot st)) (ps_ResultTupleSlot st)) st);;
  gets (λ st, Return (Some (ps_ResultTupleSlot st))).

(** The next inner tuple against the outer one. *)
Definition next_inner (fuel : nat) : M State turn :=
  inner ← right_next fuel;
  match inner with
  | None =>
      modify (λ st, with_flags true (nl_MatchedOuter st) st);;
      st ← get;
      match plan_jointype plan, nl_MatchedOuter st with
      | kLeft, false => modify (λ st, with_inner_slot (null_slot (nl_InnerTupleSlot st)) st);; project
      | _, _ => mret Continue
      end
  | Some inner =>
      modify (λ st, with_inner_slot (StoreVirtual (tts_values inner) (tts_isnull inner) (nl_InnerTupleSlot st)) st);;
      st ← get;
      if ExecQual (plan_qual plan) (join_context (nl_OuterTupleSlot st) (nl_InnerTupleSlot st)) then
        modify (λ st, with_flags (nl_NeedNewOuter st) true st);; project
      else mret Continue
  end.

Definition exec_step (fuel : nat) : M State turn :=
  st ← get;
  if nl_NeedNewOuter st then
    outer ← left_next fuel;
    match outer with
    | None => mret (Return None)
    | Some outer =>
        modify (λ st, with_outer_slot (StoreVirtual (tts_values outer) (tts_isnull outer) (nl_OuterTupleSlot st)) st);;
        modify (with_flags false false);;
        modify (λ st, with_right (PlanNode.ExecReScan (rightps st)) st);;
        next_inner fuel
    end
  else next_inner fuel.

Definition ExecReScan (st : State) : State := with_right (PlanNode.ExecReScan (rightps st)) (with_left (PlanNode.ExecReScan (leftps st)) (with_flags true false st)).

#[export] Instance NestLoop_node : PlanNode State := {|
  PlanNode.ExecProcNode fuel := loop exec_step fuel fuel;
  PlanNode.ExecReScan := ExecReScan;
|}.

(** ** The rows of a nested loop *)

Context (d_o d_i d_r : TupleDescData).
Hypothesis columns : length (attrs d_r) = length (plan_targetlist plan).

Definition passes (o i : TupleTableSlot) : bool := ExecQual (plan_qual plan) (join_context o i).
Definition row (o i : TupleTableSlot) : TupleTableSlot := ExecProject (plan_targetlist plan) (join_context o i) (Make d_r).
Definition outer_rows (o : TupleTableSlot) (partners : list TupleTableSlot) : list TupleTableSlot :=
  match plan_jointype plan, partners with kLeft, [] => [row o (Make d_i)] | _, _ => row o <$> partners end.
Definition nested_rows (outers inners : list TupleTableSlot) : list TupleTableSlot := outers ≫= λ o, outer_rows o (filter (λ i, passes o i = true) inners).

Lemma project_slot ec slot : slot_fits d_r slot → ExecProject (plan_targetlist plan) ec slot = ExecProject (plan_targetlist plan) ec (Make d_r).
Proof.
  intros (E1 & E2 & E3). destruct (make_fits d_r) as (F1 & F2 & F3). unfold ExecProject, Natts. rewrite E1, F1.
  rewrite (take_ge (plan_targetlist plan)) by (rewrite columns; lia). by rewrite !drop_ge by (rewrite ?E2, ?E3, ?F2, ?F3, columns; lia).
Qed.
Lemma nested_row_fits o i : slot_fits d_r (row o i).
Proof.
  destruct (make_fits d_r) as (F1 & F2 & F3). unfold row, ExecProject, slot_fits, Natts. rewrite F1. rewrite (take_ge (plan_targetlist plan)) by (rewrite columns; lia).
  rewrite !drop_ge by (rewrite ?F2, ?F3, columns; lia). cbn. by rewrite !app_nil_r, !length_fmap, columns.
Qed.

Lemma nested_project_run st : slot_fits d_r (ps_ResultTupleSlot st) →
  project st = (Ret (Return (Some (row (nl_OuterTupleSlot st) (nl_InnerTupleSlot st)))), with_result (row (nl_OuterTupleSlot st) (nl_InnerTupleSlot st)) st).
Proof.
  intros Hr. unfold project. rewrite (bind_ret_run (modify _) _ st tt (with_result (row (nl_OuterTupleSlot st) (nl_InnerTupleSlot st)) st)) by (unfold modify; by rewrite project_slot). done.
Qed.

Definition slots_fit (st : State) : Prop := slot_fits d_o (nl_OuterTupleSlot st) ∧ slot_fits d_i (nl_InnerTupleSlot st) ∧ slot_fits d_r (ps_ResultTupleSlot st).

Lemma store_fits d values isnull slot : tts_tupleDescriptor slot = d → slot_fits d (StoreVirtual values isnull slot).
Proof. intros E. unfold slot_fits, StoreVirtual, Natts. cbn. by rewrite !length_fmap, !length_seq, E. Qed.
Lemma null_slot_fits d slot : slot_fits d slot → slot_fits d (null_slot slot).
Proof. intros Hs. rewrite (null_slot_make d) by done. apply make_fits. Qed.
Lemma nested_project_fits ec slot : slot_fits d_r slot → slot_fits d_r (ExecProject (plan_targetlist plan) ec slot).
Proof.
  intros Hs. rewrite project_slot by done. destruct (make_fits d_r) as (F1 & F2 & F3). unfold ExecProject, slot_fits, Natts. rewrite F1.
  rewrite (take_ge (plan_targetlist plan)) by (rewrite columns; lia). rewrite !drop_ge by (rewrite ?F2, ?F3, columns; lia). cbn. by rewrite !app_nil_r, !length_fmap, columns.
Qed.

Section yields.
Context (I1 : S1 → Prop) (I2 : S2 → Prop) (outers inners : list TupleTableSlot).
Context (left_yields : Yields d_o I1 outers) (right_yields : Yields d_i I2 inners).

Definition nested_inv (st : State) : Prop := I1 (leftps st) ∧ I2 (rightps st) ∧ slots_fit st.

Lemma nested_intro st : I1 (leftps st) → I2 (rightps st) → slot_fits d_o (nl_OuterTupleSlot st) → slot_fits d_i (nl_InnerTupleSlot st) → slot_fits d_r (ps_ResultTupleSlot st) → nested_inv st.
Proof. by intros. Qed.

Lemma project_settles : settles nested_inv (λ _, project) (turn_gives (option_fits d_r)).
Proof.
  intros f st t st' (H1' & H2' & F1 & F2 & F3) Hp. rewrite nested_project_run in Hp by done. injection Hp as <- <-. split; [|split; [apply nested_row_fits|]].
  - apply nested_intro; try done. apply nested_row_fits.
  - intros _ _. by rewrite nested_project_run.
Qed.

Lemma right_settles : settles nested_inv right_next (option_fits d_i).
Proof. apply (settles_lift nested_inv I2 rightps with_right PlanNode.ExecProcNode); [by intros st (_ & H2' & _)|by intros s st (? & _ & ?) Hs|apply (yields_step _ _ _ right_yields)]. Qed.
Lemma left_settles : settles nested_inv left_next (option_fits d_o).
Proof. apply (settles_lift nested_inv I1 leftps with_left PlanNode.ExecProcNode); [by intros st (H1' & _)|by intros s st (_ & ? & ?) Hs|apply (yields_step _ _ _ left_yields)]. Qed.

Lemma next_inner_settles : settles nested_inv next_inner (turn_gives (option_fits d_r)).
Proof.
  unfold next_inner. eapply settles_bind; [apply right_settles|]. intros [i|] Hi.
  - eapply (settles_bind _ _ _ (λ _, True)); [apply settles_modify; [done|]; intros st (H1' & H2' & F1 & F2 & F3); apply nested_intro; try done; by apply store_fits, F2|].
    intros _ _. eapply settles_bind; [apply settles_get|]. intros st _. destruct (ExecQual _ _); [|by apply settles_ret].
    eapply (settles_bind _ _ _ (λ _, True)); [by apply settles_modify|]. intros _ _. apply project_settles.
  - eapply (settles_bind _ _ _ (λ _, True)); [by apply settles_modify|]. intros _ _. eapply settles_bind; [apply settles_get|]. intros st _.
    destruct (plan_jointype plan); try (by apply settles_ret). destruct (nl_MatchedOuter st); [by apply settles_ret|].
    eapply (settles_bind _ _ _ (λ _, True)); [apply settles_modify; [done|]; intros s (H1' & H2' & F1 & F2 & F3); apply nested_intro; try done; by apply null_slot_fits|].
    intros _ _. apply project_settles.
Qed.

Lemma exec_step_settles : settles nested_inv exec_step (turn_gives (option_fits d_r)).
Proof.
  unfold exec_step. eapply settles_bind; [apply settles_get|]. intros st _. destruct (nl_NeedNewOuter st); [|apply next_inner_settles].
  eapply settles_bind; [apply left_settles|]. intros [o|] Ho; [|by apply settles_ret].
  eapply (settles_bind _ _ _ (λ _, True)); [apply settles_modify; [done|]; intros s (H1' & H2' & F1 & F2 & F3); apply nested_intro; try done; by apply store_fits, F1|]. intros _ _.
  eapply (settles_bind _ _ _ (λ _, True)); [by apply settles_modify|]. intros _ _.
  eapply (settles_bind _ _ _ (λ _, True)); [apply settles_modify; [done|]; intros s (H1' & H2' & F); split; [done|]; split; [by apply (yields_again _ _ _ right_yields)|done]|].
  intros _ _. apply next_inner_settles.
Qed.

(** The rows still to come for an outer tuple with the given remaining partners. *)
Definition rest_rows (m : bool) (o : TupleTableSlot) (partners : list TupleTableSlot) : list TupleTableSlot :=
  if m then row o <$> partners else outer_rows o partners.

Definition scanning (o : TupleTableSlot) (m : bool) (st : State) : Prop :=
  slots_fit st ∧ nl_NeedNewOuter st = false ∧ nl_OuterTupleSlot st = o ∧ nl_MatchedOuter st = m.

(** The inner tuples left for an outer one. *)
Lemma inner_run ins : ∀ o m st s2, scanning o m st → I2 (rightps st) → produces (rightps st) ins s2 → Forall (slot_fits d_i) ins →
  ∃ st', (∀ out s, runs exec_step st' out s → runs exec_step st (rest_rows m o (filter (λ i, passes o i = true) ins) ++ out) s) ∧
    slots_fit st' ∧ nl_NeedNewOuter st' = true ∧ leftps st' = leftps st ∧ I2 (rightps st').
Proof.
  induction ins as [|i ins IH]; intros o m st s2 ((F1 & F2 & F3) & Hn & Ho & Hm) Hi2 Hp Hfit.
  - inversion Hp as [? ? (n & Hret)|]; subst. assert (Hi2' : I2 s2) by (apply (returns_fits d_i I2 inners (rightps st) None s2 right_yields Hi2); by exists n).
    set (st1 := with_flags true (nl_MatchedOuter st) (with_right s2 st)).
    assert (Ht : ∀ f, (n ≤ f)%nat → exec_step f st = (match plan_jointype plan, nl_MatchedOuter st with kLeft, false => modify (λ st, with_inner_slot (null_slot (nl_InnerTupleSlot st)) st);; project | _, _ => mret Continue end) st1).
    { intros f Hf. unfold exec_step. rewrite (bind_ret_run get _ st st st) by done. rewrite Hn. unfold next_inner. rewrite (bind_ret_run _ _ st None (with_right s2 st)) by (unfold right_next; by rewrite (Hret f Hf)).
      rewrite (bind_ret_run (modify _) _ (with_right s2 st) tt st1) by done. by rewrite (bind_ret_run get _ st1 st1 st1). }
    unfold rest_rows, outer_rows. cbn [filter list_filter]. destruct (decide (plan_jointype plan = kLeft ∧ nl_MatchedOuter st = false)) as [[E1 E2]|Hne].
    + rewrite E1, E2 in *. set (st2 := with_inner_slot (null_slot (nl_InnerTupleSlot st1)) st1). assert (E : nl_InnerTupleSlot st2 = Make d_i) by (apply null_slot_make; exact F2).
      exists (with_result (row (nl_OuterTupleSlot st) (Make d_i)) st2). split; [|split; [split; [done|split; [change (slot_fits d_i (nl_InnerTupleSlot st2)); rewrite E; apply make_fits|apply nested_row_fits]]|by split_and!]].
      intros out s Hr. eapply runs_row; [|exact Hr]. exists n. intros f Hf. rewrite (Ht f Hf). rewrite (bind_ret_run (modify _) _ st1 tt st2) by done. rewrite nested_project_run by exact F3. by rewrite E.
    + exists st1. split; [|by split_and!]. intros out s Hr. assert (Hrows : (if nl_MatchedOuter st then row (nl_OuterTupleSlot st) <$> [] else match plan_jointype plan with kLeft => [row (nl_OuterTupleSlot st) (Make d_i)] | _ => row (nl_OuterTupleSlot st) <$> [] end) = []).
      { destruct (nl_MatchedOuter st); [done|]. destruct (plan_jointype plan); done || by destruct Hne. }
      rewrite Hrows. eapply runs_go; [|exact Hr]. exists n. intros f Hf. rewrite (Ht f Hf). destruct (plan_jointype plan), (nl_MatchedOuter st); done || by destruct Hne.
  - inversion Hp as [|? ? s1 ? ? (n & Hret) Hp']; subst. apply Forall_cons in Hfit as [Hi Hfit]. assert (Hi2' : I2 s1) by (apply (returns_fits d_i I2 inners (rightps st) (Some i) s1 right_yields Hi2); by exists n).
    set (st1 := with_inner_slot i (with_right s1 st)). set (o := nl_OuterTupleSlot st) in *.
    assert (Ht : ∀ f, (n ≤ f)%nat → exec_step f st = (if passes o i then modify (λ st, with_flags (nl_NeedNewOuter st) true st);; project else mret Continue) st1).
    { intros f Hf. unfold exec_step. rewrite (bind_ret_run get _ st st st) by done. rewrite Hn. unfold next_inner. rewrite (bind_ret_run _ _ st (Some i) (with_right s1 st)) by (unfold right_next; by rewrite (Hret f Hf)).
      rewrite (bind_ret_run (modify _) _ (with_right s1 st) tt st1) by (unfold modify; by rewrite (store_virtual_same d_i)). by rewrite (bind_ret_run get _ st1 st1 st1). }
    rewrite filter_cons. destruct (passes o i) eqn:Ep.
    + rewrite decide_True by done. set (st2 := with_flags (nl_NeedNewOuter st1) true st1). set (st3 := with_result (row o i) st2).
      destruct (IH o true st3 s2) as (st' & Hy & Hrest); [split; [split; [done|split; [done|apply nested_row_fits]]|by split_and!]|done|done|done|]. exists st'. split; [|exact Hrest].
      intros out s Hr. assert (rest_rows (nl_MatchedOuter st) o (i :: filter (λ i, passes o i = true) ins) = row o i :: rest_rows true o (filter (λ i, passes o i = true) ins)) as ->.
      { unfold rest_rows, outer_rows. destruct (nl_MatchedOuter st); [done|]. by destruct (plan_jointype plan). }
      eapply runs_row; [|by apply Hy]. exists n. intros f Hf. rewrite (Ht f Hf). rewrite (bind_ret_run (modify _) _ st1 tt st2) by done. by rewrite nested_project_run by exact F3.
    + rewrite decide_False by done. destruct (IH o (nl_MatchedOuter st) st1 s2) as (st' & Hy & Hrest); [by split_and!|done|done|done|]. exists st'. split; [|exact Hrest].
      intros out s Hr. eapply runs_go; [|by apply Hy]. exists n. intros f Hf. by rewrite (Ht f Hf).
Qed.

(** From a state that needs an outer tuple, with [os] to come. *)
Lemma nested_outers_run os : ∀ st s1, slots_fit st → nl_NeedNewOuter st = true → I2 (rightps st) → produces (leftps st) os s1 → Forall (slot_fits d_o) os →
  ∃ st', runs exec_step st (nested_rows os inners) st'.
Proof.
  induction os as [|o os IH]; intros st s1 (F1 & F2 & F3) Hn Hi2 Hp Hfit.
  - inversion Hp as [? ? (n & Hret)|]; subst. exists (with_left s1 st). apply runs_end. exists n. intros f Hf. unfold exec_step. rewrite (bind_ret_run get _ st st st) by done. rewrite Hn.
    rewrite (bind_ret_run _ _ st None (with_left s1 st)) by (unfold left_next; by rewrite (Hret f Hf)). done.
  - inversion Hp as [|? ? sl ? ? (n & Hret) Hp']; subst. apply Forall_cons in Hfit as [Ho Hfit]. destruct (yields_again _ _ _ right_yields _ Hi2) as (Hi2' & s2 & Hp2).
    set (st1 := with_right (PlanNode.ExecReScan (rightps st)) (with_flags false false (with_outer_slot o (with_left sl st)))).
    assert (Hlike : ∀ f, (n ≤ f)%nat → exec_step f st = exec_step f st1).
    { intros f Hf. unfold exec_step at 1. rewrite (bind_ret_run get _ st st st) by done. rewrite Hn. rewrite (bind_ret_run _ _ st (Some o) (with_left sl st)) by (unfold left_next; by rewrite (Hret f Hf)).
      rewrite (bind_ret_run (modify _) _ (with_left sl st) tt (with_outer_slot o (with_left sl st))) by (unfold modify; by rewrite (store_virtual_same d_o)).
      rewrite (bind_ret_run (modify _) _ (with_outer_slot o (with_left sl st)) tt (with_flags false false (with_outer_slot o (with_left sl st)))) by done.
      rewrite (bind_ret_run (modify _) _ (with_flags false false (with_outer_slot o (with_left sl st))) tt st1) by done. unfold exec_step. by rewrite (bind_ret_run get _ st1 st1 st1). }
    destruct (inner_run inners o false st1 s2) as (st2 & Hy & Hfit2 & Hn2 & Hl2 & Hi22); [by split_and!|done|done|by eapply (produces_fits d_i I2 inners)|].
    destruct (IH st2 s1 Hfit2 Hn2 Hi22) as (st' & Hr); [by rewrite Hl2|done|]. exists st'. eapply runs_like; [by exists n|]. by apply Hy.
Qed.
Lemma rescan_ready st : nested_inv st → nested_inv (PlanNode.ExecReScan st) ∧ nl_NeedNewOuter (PlanNode.ExecReScan st) = true.
Proof.
  intros (H1' & H2' & F1 & F2 & F3). split; [|done]. apply nested_intro; try done; [by apply (yields_again _ _ _ left_yields)|by apply (yields_again _ _ _ right_yields)].
Qed.

(** A nested loop over children that return the same tuples each time they are
    started is such a node itself. *)
Lemma nestloop_yields : Yields d_r nested_inv (nested_rows outers inners).
Proof.
  split; [by apply loop_settles, exec_step_settles|]. intros st Hi. destruct (rescan_ready st Hi) as (Hr & Hn). split; [done|].
  pose proof Hi as (H1' & _). destruct (yields_again _ _ _ left_yields _ H1') as (G1 & s1 & Hp). destruct Hr as (_ & G2 & Hfit).
  destruct (nested_outers_run outers (PlanNode.ExecReScan st) s1 Hfit Hn G2 Hp) as (st' & Hrun); [by eapply (produces_fits d_o I1 outers)|].
  exists st'. by apply (runs_produces exec_step).
Qed.
End yields.

End nestloop.
End NestLoop.
