(* ===== verification/ExecNodes.v ===== *)
(** * Plan nodes over one or many children

    LIMIT, materialization, UNION ALL, DISTINCT, GROUP BY and ORDER BY:
    node_limit.cpp, node_material.cpp, node_append.cpp, node_unique.cpp,
    node_group.cpp and node_sort.cpp of src/executor, over any plan nodes, with the
    comparisons of exec_utils.cpp.

    The slots' descriptors have no types here; a node that compares has the types
    of its child's columns.  A slot that a node returns and fills again later is the
    value it has when it is returned: the nodes copy what they keep, and what a value
    by reference points to does not change.  The sort of
    a Sort node is in the directory /tmp, which no other sort uses at the time. *)

From stdpp Require Import base list strings.
From S2P Require Import Prelude HeapForm TupleTape Tuplesort HashJoin PlanNode.

Module ExecNodes.
Import HeapForm TupleTape PlanNode.

(** A new slot with the values of another one. *)
Definition copy_virtual (slot : TupleTableSlot) : TupleTableSlot := StoreVirtual (tts_values slot) (tts_isnull slot) (Make (tts_tupleDescriptor slot)).

(** ** Comparing tuples *)

Definition kVarcharOid : Z := 1043.

(** Nulls come first. *)
Definition CompareDatumValues (a : Datum) (a_null : bool) (b : Datum) (b_null : bool) (typid : Z) : Z :=
  if a_null && b_null then 0
  else if a_null then -1
  else if b_null then 1
  else if typid =? kVarcharOid then Tuplesort.compare_text (DatumGetTextP a) (DatumGetTextP b)
  else Tuplesort.CompareValues a b typid.

(** [types] are those of the columns of [a]. *)
Fixpoint CompareTuplesOnAttrs (types : list Z) (a b : TupleTableSlot) (attnos : list Z) : Z :=
  match attnos with
  | [] => 0
  | attno :: attnos' =>
      if attno <? 1 then CompareTuplesOnAttrs types a b attnos'
      else
        let idx := Z.to_nat (attno - 1) in
        let a_null := if (idx <? Natts a)%nat then null_at a idx else true in
        let b_null := if (idx <? Natts b)%nat then null_at b idx else true in
        let typid := if (idx <? Natts a)%nat then default Tuplesort.kInt4Oid (types !! idx) else Tuplesort.kInt4Oid in
        let cmp := CompareDatumValues (value_at a idx) a_null (value_at b idx) b_null typid in
        if cmp =? 0 then CompareTuplesOnAttrs types a b attnos' else cmp
  end.

(** ** The limit node *)

Record Limit := mkLimit { limit_count : Z; offset_count : Z }.

Record LimitState (S : Type) := mkLimitState { li_left : S; li_slot : TupleTableSlot; li_count : Z; li_offset : Z; li_done : bool }.
Arguments mkLimitState {S}.
Arguments li_left {S}.
Arguments li_slot {S}.
Arguments li_count {S}.
Arguments li_offset {S}.
Arguments li_done {S}.

Section limit.
Context {S : Type} `{PlanNode S} (plan : Limit).
Abbreviation State := (LimitState S).

Definition LimitExecInit (result_desc : TupleDescData) (child : S) : State := mkLimitState child (Make result_desc) (limit_count plan) (offset_count plan) false.

Definition limit_next (fuel : nat) : M State (option TupleTableSlot) :=
  λ st, let '(o, s) := PlanNode.ExecProcNode fuel (li_left st) in (o, mkLimitState s (li_slot st) (li_count st) (li_offset st) (li_done st)).
Definition limit_finish : M State (option TupleTableSlot) :=
  modify (λ st, mkLimitState (li_left st) (li_slot st) (li_count st) (li_offset st) true);; mret None.

(** The rows of the offset: whether the child had as many. *)
Fixpoint limit_skip (fuel n : nat) : M State bool :=
  match n with
  | O => mret true
  | Datatypes.S n' =>
      slot ← limit_next fuel;
      match slot with
      | None => mret false
      | Some _ => modify (λ st, mkLimitState (li_left st) (li_slot st) (li_count st) (li_offset st - 1) (li_done st));; limit_skip fuel n'
      end
  end.

Definition LimitExecProcNode (fuel : nat) : M State (option TupleTableSlot) :=
  st ← get;
  if li_done st then mret None
  else
    skipped ← limit_skip fuel (Z.to_nat (li_offset st));
    if (skipped : bool) then
      st ← get;
      if li_count st =? 0 then limit_finish
      else
        child_slot ← limit_next fuel;
        match child_slot with
        | None => limit_finish
        | Some child_slot =>
            modify (λ st, mkLimitState (li_left st) (Tuplesort.copy_into (li_slot st) child_slot) (if 0 <? li_count st then li_count st - 1 else li_count st) (li_offset st) (li_done st));;
            gets (λ st, Some (li_slot st))
        end
    else limit_finish.

Definition LimitExecReScan (st : State) : State :=
  mkLimitState (PlanNode.ExecReScan (li_left st)) (li_slot st) (limit_count plan) (offset_count plan) false.

#[export] Instance Limit_node : PlanNode State := {|
  PlanNode.ExecProcNode := LimitExecProcNode;
  PlanNode.ExecReScan := LimitExecReScan;
|}.
End limit.

(** ** The material node *)

Record MaterialState (S : Type) := mkMaterial { mat_left : S; mat_slot : TupleTableSlot; mat_tuples : list TupleTableSlot; mat_done : bool; mat_index : nat }.
Arguments mkMaterial {S}.
Arguments mat_left {S}.
Arguments mat_slot {S}.
Arguments mat_tuples {S}.
Arguments mat_done {S}.
Arguments mat_index {S}.

Section material.
Context {S : Type} `{PlanNode S}.
Abbreviation State := (MaterialState S).

Definition MaterialExecInit (result_desc : TupleDescData) (child : S) : State := mkMaterial child (Make result_desc) [] false 0.

Definition material_next (fuel : nat) : M State (option TupleTableSlot) :=
  λ st, let '(o, s) := PlanNode.ExecProcNode fuel (mat_left st) in (o, mkMaterial s (mat_slot st) (mat_tuples st) (mat_done st) (mat_index st)).

(** All tuples of the child into the cache. *)
Definition drain_child (fuel : nat) : M State unit :=
  for_each material_next (λ slot, modify (λ st, mkMaterial (mat_left st) (mat_slot st) (mat_tuples st ++ [copy_virtual slot]) (mat_done st) (mat_index st))) fuel fuel.

Definition replay_cached : M State (option TupleTableSlot) :=
  st ← get;
  match mat_tuples st !! mat_index st with
  | None => mret None
  | Some src =>
      modify (λ st, mkMaterial (mat_left st) (Tuplesort.copy_into (mat_slot st) src) (mat_tuples st) (mat_done st) (Datatypes.S (mat_index st)));;
      gets (λ st, Some (mat_slot st))
  end.

Definition MaterialExecProcNode (fuel : nat) : M State (option TupleTableSlot) :=
  st ← get;
  (if mat_done st then mret tt
   else
     drain_child fuel;;
     modify (λ st, mkMaterial (mat_left st) (mat_slot st) (mat_tuples st) true 0));;
  replay_cached.

Definition MaterialExecReScan (st : State) : State :=
  mkMaterial (mat_left st) (mat_slot st) (mat_tuples st) (mat_done st) 0.

#[export] Instance Material_node : PlanNode State := {|
  PlanNode.ExecProcNode := MaterialExecProcNode;
  PlanNode.ExecReScan := MaterialExecReScan;
|}.
End material.

(** ** The append node *)

Record AppendState (S : Type) := mkAppend { append_ps : list S; as_slot : TupleTableSlot; as_whichplan : nat }.
Arguments mkAppend {S}.
Arguments append_ps {S}.
Arguments as_slot {S}.
Arguments as_whichplan {S}.

Section append.
Context {S : Type} `{PlanNode S}.
Abbreviation State := (AppendState S).

Definition AppendExecInit (result_desc : TupleDescData) (children : list S) : State := mkAppend children (Make result_desc) 0.

Definition AppendExecStep (fuel : nat) : M State turn :=
  λ st,
    match append_ps st !! as_whichplan st with
    | None => (Ret (Return None), st)
    | Some child =>
        let '(o, child) := PlanNode.ExecProcNode fuel child in
        let st := mkAppend (<[as_whichplan st := child]> (append_ps st)) (as_slot st) (as_whichplan st) in
        match o with
        | Ereport e => (Ereport e, st)
        | Ret (Some child_slot) => let slot := Tuplesort.copy_into (as_slot st) child_slot in (Ret (Return (Some slot)), mkAppend (append_ps st) slot (as_whichplan st))
        | Ret None => (Ret Continue, mkAppend (append_ps st) (as_slot st) (Datatypes.S (as_whichplan st)))
        end
    end.

Definition AppendExecReScan (st : State) : State :=
  mkAppend (PlanNode.ExecReScan <$> append_ps st) (as_slot st) 0.

#[export] Instance Append_node : PlanNode State := {|
  PlanNode.ExecProcNode fuel := loop AppendExecStep fuel fuel;
  PlanNode.ExecReScan := AppendExecReScan;
|}.
End append.

(** ** The unique node *)

(** [has_last] is whether there is a [last_tuple]. *)
Record UniqueState (S : Type) := mkUnique { uniq_left : S; uniq_slot : TupleTableSlot; last_tuple : option TupleTableSlot }.
Arguments mkUnique {S}.
Arguments uniq_left {S}.
Arguments uniq_slot {S}.
Arguments last_tuple {S}.

Section unique.
Context {S : Type} `{PlanNode S} (types : list Z) (uniq_colIdx : list Z).
Abbreviation State := (UniqueState S).

Definition UniqueExecInit (result_desc : TupleDescData) (child : S) : State := mkUnique child (Make result_desc) None.

Definition unique_next (fuel : nat) : M State (option TupleTableSlot) :=
  λ st, let '(o, s) := PlanNode.ExecProcNode fuel (uniq_left st) in (o, mkUnique s (uniq_slot st) (last_tuple st)).

Definition duplicate (last : option TupleTableSlot) (slot : TupleTableSlot) : bool :=
  match last with Some t => CompareTuplesOnAttrs types t slot uniq_colIdx =? 0 | None => false end.

Definition UniqueExecStep (fuel : nat) : M State turn :=
  child_slot ← unique_next fuel;
  match child_slot with
  | None => mret (Return None)
  | Some slot =>
      st ← get;
      if duplicate (last_tuple st) slot then mret Continue
      else
        modify (λ st, mkUnique (uniq_left st) (Tuplesort.copy_into (uniq_slot st) slot) (Some (copy_virtual slot)));;
        gets (λ st, Return (Some (uniq_slot st)))
  end.

Definition UniqueExecReScan (st : State) : State :=
  mkUnique (PlanNode.ExecReScan (uniq_left st)) (uniq_slot st) None.

#[export] Instance Unique_node : PlanNode State := {|
  PlanNode.ExecProcNode fuel := loop UniqueExecStep fuel fuel;
  PlanNode.ExecReScan := UniqueExecReScan;
|}.
End unique.

(** ** The group node *)

(** [has_first] is whether there is a [first_tuple]. *)
Record GroupState (S : Type) := mkGroup { grp_left : S; grp_slot : TupleTableSlot; first_tuple : option TupleTableSlot }.
Arguments mkGroup {S}.
Arguments grp_left {S}.
Arguments grp_slot {S}.
Arguments first_tuple {S}.

Section group.
Context {S : Type} `{PlanNode S} (types : list Z) (groupColIdx : list Z).
Abbreviation State := (GroupState S).

Definition GroupExecInit (result_desc : TupleDescData) (child : S) : State := mkGroup child (Make result_desc) None.

Definition group_next (fuel : nat) : M State (option TupleTableSlot) :=
  λ st, let '(o, s) := PlanNode.ExecProcNode fuel (grp_left st) in (o, mkGroup s (grp_slot st) (first_tuple st)).

Definition emit_group (slot : TupleTableSlot) : M State turn :=
  modify (λ st, mkGroup (grp_left st) (Tuplesort.copy_into (grp_slot st) slot) (first_tuple st));;
  gets (λ st, Return (Some (grp_slot st))).

Definition GroupExecStep (fuel : nat) : M State turn :=
  child_slot ← group_next fuel;
  match child_slot with
  | None => mret (Return None)
  | Some slot =>
      st ← get;
      match first_tuple st with
      | None => modify (λ st, mkGroup (grp_left st) (grp_slot st) (Some (copy_virtual slot)));; emit_group slot
      | Some first =>
          if CompareTuplesOnAttrs types first slot groupColIdx =? 0 then mret Continue
          else modify (λ st, mkGroup (grp_left st) (grp_slot st) (Some (StoreVirtual (tts_values slot) (tts_isnull slot) first)));; emit_group slot
      end
  end.

Definition GroupExecReScan (st : State) : State :=
  mkGroup (PlanNode.ExecReScan (grp_left st)) (grp_slot st) None.

#[export] Instance Group_node : PlanNode State := {|
  PlanNode.ExecProcNode fuel := loop GroupExecStep fuel fuel;
  PlanNode.ExecReScan := GroupExecReScan;
|}.
End group.

(** ** The sort node *)

Record Sort := mkSortPlan { sortColIdx : list Z; sort_reverse : list bool; nullsFirst : list bool; sort_limit : Z; sort_offset : Z }.

Record SortState (S : Type) := mkSortState {
  sort_left : S; sort_slot : TupleTableSlot; tuplesort : Tuplesort.TupleSort; sorted_done : bool; rows_skipped : Z; rows_output : Z }.
Arguments mkSortState {S}.
Arguments sort_left {S}.
Arguments sort_slot {S}.
Arguments tuplesort {S}.
Arguments sorted_done {S}.
Arguments rows_skipped {S}.
Arguments rows_output {S}.

Section sort.
Context {S : Type} `{PlanNode S} `{Tuplesort.Process} `{Tuplesort.StdSort} (types : list Z) (plan : Sort).
Abbreviation State := (SortState S).

(** The keys, of the types of the child's columns. *)
Definition sort_key (i : nat) (idx : Z) : Tuplesort.SortKey :=
  Tuplesort.mkKey idx
    (if (1 <=? idx) && (idx <=? Z.of_nat (length types)) then default Tuplesort.kInt4Oid (types !! Z.to_nat (idx - 1)) else Tuplesort.kInt4Oid)
    (default false (sort_reverse plan !! i)) (default false (nullsFirst plan !! i)).
Definition sort_keys : list Tuplesort.SortKey := imap sort_key (sortColIdx plan).

Definition sort_work_mem : Z := 4 * 1024 * 1024.
Definition new_tuplesort (result_desc : TupleDescData) : Tuplesort.TupleSort := Tuplesort.new_sort result_desc sort_keys sort_work_mem "/tmp".

Definition SortExecInit (result_desc : TupleDescData) (child : S) : State := mkSortState child (Make result_desc) (new_tuplesort result_desc) false 0 0.

Definition sort_next (fuel : nat) : M State (option TupleTableSlot) :=
  λ st, let '(o, s) := PlanNode.ExecProcNode fuel (sort_left st) in (o, mkSortState s (sort_slot st) (tuplesort st) (sorted_done st) (rows_skipped st) (rows_output st)).
Definition on_sort {A : Type} (m : M Tuplesort.TupleSort A) : M State A :=
  λ st, let '(o, t) := m (tuplesort st) in (o, mkSortState (sort_left st) (sort_slot st) t (sorted_done st) (rows_skipped st) (rows_output st)).

(** All tuples of the child into the sort. *)
Definition put_all (fuel : nat) : M State unit := for_each sort_next (λ slot, on_sort (modify (Tuplesort.PutTuple slot))) fuel fuel.

(** At most [n] sorted tuples are skipped. *)
Fixpoint skip_sorted (n : nat) : M State unit :=
  match n with
  | O => mret tt
  | Datatypes.S n' =>
      slot ← on_sort Tuplesort.GetTuple;
      match slot with
      | None => mret tt
      | Some _ => modify (λ st, mkSortState (sort_left st) (sort_slot st) (tuplesort st) (sorted_done st) (rows_skipped st + 1) (rows_output st));; skip_sorted n'
      end
  end.

Definition next_sorted : M State (option TupleTableSlot) :=
  st ← get;
  if (0 <=? sort_limit plan) && (sort_limit plan <=? rows_output st) then mret None
  else
    src ← on_sort Tuplesort.GetTuple;
    match src with
    | None => mret None
    | Some src =>
        modify (λ st, mkSortState (sort_left st) (Tuplesort.copy_into (sort_slot st) src) (tuplesort st) (sorted_done st) (rows_skipped st) (rows_output st + 1));;
        gets (λ st, Some (sort_slot st))
    end.

Definition SortExecProcNode (fuel : nat) : M State (option TupleTableSlot) :=
  st ← get;
  (if sorted_done st then mret tt
   else
     put_all fuel;;
     on_sort Tuplesort.PerformSort;;
     modify (λ st, mkSortState (sort_left st) (sort_slot st) (tuplesort st) true (rows_skipped st) (rows_output st));;
     skip_sorted (Z.to_nat (sort_offset plan)));;
  next_sorted.

Definition SortExecReScan (st : State) : State :=
  mkSortState (PlanNode.ExecReScan (sort_left st)) (sort_slot st) (new_tuplesort (tts_tupleDescriptor (sort_slot st))) false 0 0.

#[export] Instance Sort_node : PlanNode State := {|
  PlanNode.ExecProcNode := SortExecProcNode;
  PlanNode.ExecReScan := SortExecReScan;
|}.
End sort.

End ExecNodes.
