(* ===== verification/ExecNodesSpec.v ===== *)
(** * What the plan nodes compute

    Each node of [ExecNodes] over nodes that yield their tuples yields a function
    of them, so that a plan computes the composition of these functions. *)

From stdpp Require Import base list strings.
From S2P Require Import Prelude HeapForm TupleTape Tuplesort TupleOrder TuplesortSpec TuplestoreSpec HashJoin HashJoinSpec PlanNode NestLoop ExecNodes.

Module ExecNodesSpec.
Import HeapForm TupleTape TuplestoreSpec HashJoinSpec PlanNode ExecNodes.

(** ** Slots *)

Lemma copy_into_fits d out src : slot_fits d out → slot_fits d src → Tuplesort.copy_into out src = src.
Proof.
  intros (A1 & A2 & A3) (B1 & B2 & B3). unfold Tuplesort.copy_into, Natts. rewrite A1, B1, Nat.ltb_irrefl, !take_ge, !drop_ge, !app_nil_r by lia. destruct src. cbn in *. by subst.
Qed.
Lemma copy_virtual_fits d s : slot_fits d s → copy_virtual s = s.
Proof. intros Hs. pose proof Hs as (E & _). unfold copy_virtual. rewrite E. by eapply store_virtual_same; [apply make_fits|]. Qed.
Lemma copy_into_ok d out src : slot_fits d out → slot_fits d src → slot_fits d (Tuplesort.copy_into out src).
Proof. intros Ho Hs. by rewrite (copy_into_fits d). Qed.

(** ** The limit node *)

(** LIMIT and OFFSET of a list. *)
Definition counted {A : Type} (count : Z) (l : list A) : list A := if count <? 0 then l else take (Z.to_nat count) l.
Definition limited {A : Type} (plan : Limit) (l : list A) : list A := counted (limit_count plan) (drop (Z.to_nat (offset_count plan)) l).

Section limit.
Context {S : Type} `{PlanNode S} (plan : Limit) (d : TupleDescData) (I : S → Prop).
Abbreviation State := (LimitState S).
#[local] Instance limit_node : PlanNode State := Limit_node plan.

Definition limit_inv (st : State) : Prop := I (li_left st) ∧ slot_fits d (li_slot st).

Section calls.
Context (l0 : list TupleTableSlot) (child : Yields d I l0).

Lemma limit_left_settles : settles limit_inv limit_next (option_fits d).
Proof.
  apply (settles_lift limit_inv I li_left (λ s st, mkLimitState s (li_slot st) (li_count st) (li_offset st) (li_done st)) PlanNode.ExecProcNode);
    [by intros st []|by intros s st []|apply (yields_step _ _ _ child)].
Qed.
Lemma limit_finish_settles : settles limit_inv (λ _, limit_finish) (option_fits d).
Proof. eapply (settles_bind _ _ _ (λ _, True)); [by apply settles_modify|]. intros _ _. by apply settles_ret. Qed.
Lemma limit_skip_settles n : settles limit_inv (λ f, limit_skip f n) (λ _, True).
Proof.
  induction n as [|n IH]; [by apply settles_ret|]. cbn [limit_skip]. eapply settles_bind; [apply limit_left_settles|]. intros [t|] _; [|by apply settles_ret].
  eapply (settles_bind _ _ _ (λ _, True)); [by apply settles_modify|]. by intros _ _.
Qed.

Lemma limit_settles : settles limit_inv LimitExecProcNode (option_fits d).
Proof.
  unfold LimitExecProcNode. eapply settles_bind; [apply settles_get|]. intros st _. destruct (li_done st); [by apply settles_ret|].
  eapply settles_bind; [apply limit_skip_settles|]. intros [] _; [|apply limit_finish_settles]. eapply settles_bind; [apply settles_get|]. intros st1 _.
  destruct (li_count st1 =? 0); [apply limit_finish_settles|]. eapply settles_bind; [apply limit_left_settles|]. intros [t|] Ht; [|apply limit_finish_settles].
  eapply (settles_bind _ _ _ (λ _, True)).
  { apply settles_modify; [exact Logic.I|]. intros s [Hi Hs]. split; [exact Hi|exact (copy_into_ok d _ _ Hs Ht)]. }
  intros _ _. apply settles_gets. by intros s [_ Hs].
Qed.
End calls.

Lemma limit_left_run (st : State) o s : returns (li_left st) o s →
  ∃ n, ∀ f, (n ≤ f)%nat → limit_next f st = (Ret o, mkLimitState s (li_slot st) (li_count st) (li_offset st) (li_done st)).
Proof. intros (n & Hn). exists n. intros f Hf. unfold limit_next. by rewrite Hn. Qed.

(** Past the offset. *)
Lemma limit_call f (st : State) : li_offset st ≤ 0 → PlanNode.ExecProcNode f st =
  if li_done st then (Ret None, st)
  else if li_count st =? 0 then limit_finish st
  else (child_slot ← limit_next f;
        match child_slot with
        | None => limit_finish
        | Some child_slot =>
            modify (λ st, mkLimitState (li_left st) (Tuplesort.copy_into (li_slot st) child_slot) (if 0 <? li_count st then li_count st - 1 else li_count st) (li_offset st) (li_done st));;
            gets (λ st, Some (li_slot st))
        end) st.
Proof.
  intros Ho. change (PlanNode.ExecProcNode f st) with (LimitExecProcNode f st). unfold LimitExecProcNode. rewrite (bind_ret_run get _ st st st) by done.
  destruct (li_done st) eqn:Hd; [done|]. replace (Z.to_nat (li_offset st)) with 0%nat by lia. rewrite (bind_ret_run (limit_skip f 0) _ st true st) by done. cbn iota.
  rewrite (bind_ret_run get _ st st st) by done. by destruct (li_count st =? 0).
Qed.

Lemma limit_go l : ∀ (st : State) s1, li_done st = false → li_offset st ≤ 0 → slot_fits d (li_slot st) → Forall (slot_fits d) l → produces (li_left st) l s1 →
  ∃ st', produces st (counted (li_count st) l) st'.
Proof.
  induction l as [|t l IH]; intros st s1 Hd Ho Hs Hl Hp.
  - exists (if li_count st =? 0 then mkLimitState (li_left st) (li_slot st) (li_count st) (li_offset st) true else mkLimitState s1 (li_slot st) (li_count st) (li_offset st) true).
    assert (counted (li_count st) [] = ([] : list TupleTableSlot)) as -> by (unfold counted; rewrite take_nil; by destruct (_ <? 0)). apply produces_end.
    inversion Hp as [? ? Hr|]; subst. apply limit_left_run in Hr as (n & Hn). exists n. intros f Hf. rewrite limit_call by lia. rewrite Hd.
    destruct (li_count st =? 0); [done|]. by rewrite (bind_ret_run _ _ _ _ _ (Hn f Hf)).
  - apply Forall_cons in Hl as [Ht Hl]. inversion Hp as [|? ? s2 ? ? Hr Hp']; subst. apply limit_left_run in Hr as (n & Hn). destruct (Z.eq_dec (li_count st) 0) as [E|E].
    + exists (mkLimitState (li_left st) (li_slot st) (li_count st) (li_offset st) true). assert (counted (li_count st) (t :: l) = []) as -> by (by rewrite E). apply produces_end. exists n. intros f Hf. rewrite limit_call by lia. rewrite Hd.
      by rewrite (proj2 (Z.eqb_eq _ _) E).
    + set (st1 := mkLimitState s2 t (if 0 <? li_count st then li_count st - 1 else li_count st) (li_offset st) (li_done st)).
      destruct (IH st1 s1) as (st' & Hst'); [done..|]. exists st'.
      assert (counted (li_count st) (t :: l) = t :: counted (li_count st1) l) as ->.
      { unfold counted. subst st1. cbn [li_count]. destruct (Z.ltb_spec (li_count st) 0), (Z.ltb_spec 0 (li_count st)); try lia.
        - destruct (Z.ltb_spec (li_count st) 0); [done|lia].
        - destruct (Z.ltb_spec (li_count st - 1) 0); [lia|]. by replace (Z.to_nat (li_count st)) with (Datatypes.S (Z.to_nat (li_count st - 1))) by lia. }
      eapply produces_row; [|exact Hst']. exists n. intros f Hf. rewrite limit_call by lia. rewrite Hd.
      rewrite (proj2 (Z.eqb_neq _ _) E). rewrite (bind_ret_run _ _ _ _ _ (Hn f Hf)). unfold mbind, M_bind, modify, gets. cbn.
      rewrite (copy_into_fits d) by done. unfold st1. by rewrite Hd.
Qed.

Lemma limit_skip_run k : ∀ l (st : State) s1, produces (li_left st) l s1 →
  ((length l < k)%nat → ∃ st' n, ∀ f, (n ≤ f)%nat → limit_skip f k st = (Ret false, st')) ∧
  ((k ≤ length l)%nat → ∃ s2 n, produces s2 (drop k l) s1 ∧
    ∀ f, (n ≤ f)%nat → limit_skip f k st = (Ret true, mkLimitState s2 (li_slot st) (li_count st) (li_offset st - Z.of_nat k) (li_done st))).
Proof.
  induction k as [|k IH]; intros l st s1 Hp.
  - split; [lia|]. intros _. exists (li_left st), 0%nat. split; [done|]. intros f _. cbn. rewrite Z.sub_0_r. by destruct st.
  - inversion Hp as [? ? Hr|? t s2 l' ? Hr Hp']; subst; apply limit_left_run in Hr as (n & Hn).
    + split; [|cbn; lia]. intros _. eexists _, n. intros f Hf. cbn [limit_skip]. by rewrite (bind_ret_run _ _ _ _ _ (Hn f Hf)).
    + set (st1 := mkLimitState s2 (li_slot st) (li_count st) (li_offset st - 1) (li_done st)).
      assert (Hs : ∀ f, (n ≤ f)%nat → limit_skip f (Datatypes.S k) st = limit_skip f k st1).
      { intros f Hf. cbn [limit_skip]. rewrite (bind_ret_run _ _ _ _ _ (Hn f Hf)). by rewrite (bind_ret_run (modify _) _ _ tt st1). }
      destruct (IH l' st1 s1 Hp') as [Hlt Hge]. cbn [length drop]. split; intros Hk.
      * destruct Hlt as (st' & m & Hm); [lia|]. exists st', (n + m)%nat. intros f Hf. rewrite Hs by lia. apply Hm. lia.
      * destruct Hge as (s3 & m & Hp3 & Hm); [lia|]. exists s3, (n + m)%nat. split; [done|]. intros f Hf. rewrite Hs, Hm by lia. unfold st1. cbn. do 2 f_equal. lia.
Qed.

Lemma limit_produces l (st : State) s1 : li_done st = false → slot_fits d (li_slot st) → Forall (slot_fits d) l → produces (li_left st) l s1 →
  ∃ st', produces st (counted (li_count st) (drop (Z.to_nat (li_offset st)) l)) st'.
Proof.
  intros Hd Hs Hl Hp. destruct (limit_skip_run (Z.to_nat (li_offset st)) l st s1 Hp) as [Hlt Hge]. destruct (decide (length l < Z.to_nat (li_offset st))%nat) as [Hk|Hk].
  - destruct (Hlt Hk) as (st1 & n & Hn). rewrite drop_ge by lia. exists (limit_finish st1).2.
    assert (counted (li_count st) [] = ([] : list TupleTableSlot)) as -> by (unfold counted; rewrite take_nil; by destruct (_ <? 0)).
    apply produces_end. exists n. intros f Hf. change (LimitExecProcNode f st = (Ret None, (limit_finish st1).2)). unfold LimitExecProcNode.
    rewrite (bind_ret_run get _ st st st) by done. rewrite Hd. by rewrite (bind_ret_run _ _ _ _ _ (Hn f Hf)).
  - destruct (Hge ltac:(lia)) as (s2 & n & Hp2 & Hn). set (st2 := mkLimitState _ _ _ _ _) in Hn. apply Nat.nlt_ge in Hk.
    destruct (limit_go (drop (Z.to_nat (li_offset st)) l) st2 s1) as (st' & Hst'); [done|unfold st2; cbn; lia|done|by apply Forall_drop|done|].
    exists st'. eapply produces_like; [|exact Hst']. exists n. intros f Hf. rewrite (limit_call f st2) by (unfold st2; cbn; lia).
    change (LimitExecProcNode f st = if li_done st2 then (Ret None, st2) else if li_count st2 =? 0 then limit_finish st2 else (child_slot ← limit_next f; match child_slot with None => limit_finish | Some child_slot => modify (λ st, mkLimitState (li_left st) (Tuplesort.copy_into (li_slot st) child_slot) (if 0 <? li_count st then li_count st - 1 else li_count st) (li_offset st) (li_done st));; gets (λ st, Some (li_slot st)) end) st2).
    unfold LimitExecProcNode. rewrite (bind_ret_run get _ st st st) by done. rewrite Hd. rewrite (bind_ret_run _ _ _ _ _ (Hn f Hf)). rewrite (bind_ret_run get _ st2 st2 st2) by done.
    unfold st2. cbn [li_done li_count]. rewrite Hd. by destruct (li_count st =? 0).
Qed.

(** LIMIT and OFFSET. *)
Lemma limit_yields l : Yields d I l → Yields d limit_inv (limited plan l).
Proof.
  intros Hy. split; [by apply (limit_settles l)|]. intros st [Hi Hs]. destruct (yields_again _ _ _ Hy _ Hi) as (Hi' & s1 & Hp).
  split; [by split|]. unfold limited.
  apply (limit_produces l (mkLimitState (PlanNode.ExecReScan (li_left st)) (li_slot st) (limit_count plan) (offset_count plan) false) s1); [done|done|apply (produces_fits d I l _ _ _ Hy Hi' Hp)|done].
Qed.
End limit.

(** ** The material node *)

Section material.
Context {S : Type} `{PlanNode S} (d : TupleDescData) (I : S → Prop) (l : list TupleTableSlot).
Abbreviation State := (MaterialState S).
#[local] Instance material_node : PlanNode State := Material_node.

(** The child yields its tuples once: it is not started again. *)
Context (child : settles I (PlanNode.ExecProcNode (St := S)) (option_fits d)).

Definition material_inv (st : State) : Prop :=
  slot_fits d (mat_slot st) ∧ Forall (slot_fits d) l ∧
  if mat_done st then mat_tuples st = l else mat_tuples st = [] ∧ I (mat_left st) ∧ ∃ s1, produces (mat_left st) l s1.

Lemma material_left_run (st : State) o s : returns (mat_left st) o s →
  ∃ n, ∀ f, (n ≤ f)%nat → material_next f st = (Ret o, mkMaterial s (mat_slot st) (mat_tuples st) (mat_done st) (mat_index st)).
Proof. intros (n & Hn). exists n. intros f Hf. unfold material_next. by rewrite Hn. Qed.

Lemma material_drain_run r : ∀ (st : State) s1, Forall (slot_fits d) r → produces (mat_left st) r s1 →
  ∃ n, ∀ f m, (n ≤ f)%nat → (n ≤ m)%nat →
    for_each material_next (λ slot, modify (λ st, mkMaterial (mat_left st) (mat_slot st) (mat_tuples st ++ [copy_virtual slot]) (mat_done st) (mat_index st))) f m st =
    (Ret tt, mkMaterial s1 (mat_slot st) (mat_tuples st ++ r) (mat_done st) (mat_index st)).
Proof.
  induction r as [|t r IH]; intros st s1 Hr Hp; inversion Hp as [? ? Hret|? ? s2 ? ? Hret Hp']; subst; apply material_left_run in Hret as (n & Hn).
  - exists (Datatypes.S n). intros f [|m] Hf Hm; [lia|]. cbn [for_each]. rewrite (bind_ret_run _ _ _ _ _ (Hn f ltac:(lia))). by rewrite app_nil_r.
  - apply Forall_cons in Hr as [Ht Hr]. destruct (IH (mkMaterial s2 (mat_slot st) (mat_tuples st ++ [t]) (mat_done st) (mat_index st)) s1 Hr Hp') as (k & Hk).
    exists (Datatypes.S (n + k)). intros f [|m] Hf Hm; [lia|]. cbn [for_each]. rewrite (bind_ret_run _ _ _ _ _ (Hn f ltac:(lia))).
    rewrite (bind_ret_run (modify _) _ _ tt (mkMaterial s2 (mat_slot st) (mat_tuples st ++ [t]) (mat_done st) (mat_index st))) by (unfold modify; cbn; by rewrite (copy_virtual_fits d)).
    rewrite Hk by lia. cbn. by rewrite <- app_assoc.
Qed.

Lemma material_drain_settles : settles (λ st : State, I (mat_left st)) drain_child (λ _, True).
Proof.
  eapply for_each_settles; [|intros t _; by apply settles_modify].
  by apply (settles_lift _ I mat_left (λ s st, mkMaterial s (mat_slot st) (mat_tuples st) (mat_done st) (mat_index st)) PlanNode.ExecProcNode).
Qed.

Lemma material_replay (st : State) : slot_fits d (mat_slot st) → Forall (slot_fits d) (mat_tuples st) →
  replay_cached st =
    match mat_tuples st !! mat_index st with
    | None => (Ret None, st)
    | Some t => (Ret (Some t), mkMaterial (mat_left st) t (mat_tuples st) (mat_done st) (Datatypes.S (mat_index st)))
    end.
Proof.
  intros Hs Hl. unfold replay_cached. rewrite (bind_ret_run get _ st st st) by done. destruct (mat_tuples st !! mat_index st) as [t|] eqn:E; [|done].
  unfold mbind, M_bind, modify, gets. cbn. rewrite (copy_into_fits d); [done|done|]. by eapply Forall_lookup_1.
Qed.

(** The state in which the first call leaves the cache. *)
Definition drained (s1 : S) (st : State) : State := mkMaterial s1 (mat_slot st) l true 0.

Lemma material_fills (st : State) f : mat_done st = false → PlanNode.ExecProcNode f st =
  (drain_child f ≫= λ _, modify (λ st, mkMaterial (mat_left st) (mat_slot st) (mat_tuples st) true 0) ≫= λ _, replay_cached) st.
Proof.
  intros Ed. change (MaterialExecProcNode f st = (drain_child f ≫= λ _, modify (λ st, mkMaterial (mat_left st) (mat_slot st) (mat_tuples st) true 0) ≫= λ _, replay_cached) st).
  unfold MaterialExecProcNode. rewrite (bind_ret_run get _ st st st) by done. rewrite Ed. by rewrite bind_assoc_run.
Qed.

Lemma material_first (st : State) s1 : material_inv st → mat_done st = false → produces (mat_left st) l s1 →
  ∃ n, ∀ f, (n ≤ f)%nat → PlanNode.ExecProcNode f st = replay_cached (drained s1 st).
Proof.
  intros (Hs & Hl & Hd) Ed Hp. rewrite Ed in Hd. destruct Hd as (Et & Hi & _). destruct (material_drain_run l st s1 Hl Hp) as (n & Hn). exists n. intros f Hf.
  rewrite material_fills by done. rewrite (bind_ret_run _ _ _ _ _ (Hn f f Hf Hf)). rewrite Et. by rewrite (bind_ret_run (modify _) _ _ tt (drained s1 st)).
Qed.

Lemma material_done (st : State) f : mat_done st = true → PlanNode.ExecProcNode f st = replay_cached st.
Proof.
  intros Ed. change (MaterialExecProcNode f st = replay_cached st). unfold MaterialExecProcNode. rewrite (bind_ret_run get _ st st st) by done. by rewrite Ed.
Qed.

Lemma replay_inv (st : State) : material_inv st → mat_done st = true → ∃ o st', replay_cached st = (Ret o, st') ∧ material_inv st' ∧ option_fits d o.
Proof.
  intros (Hs & Hl & Hd) Ed. rewrite Ed in Hd. rewrite material_replay by (by rewrite ?Hd). destruct (mat_tuples st !! mat_index st) as [t|] eqn:E.
  - eexists _, _. split; [done|]. assert (slot_fits d t) by (rewrite Hd in E; by eapply Forall_lookup_1). split; [|done]. split; [done|]. split; [done|]. by rewrite Ed.
  - eexists _, _. split; [done|]. split; [|done]. split; [done|]. split; [done|]. by rewrite Ed.
Qed.

(** From a state with a filled cache. *)
Lemma material_rest k : ∀ st : State, slot_fits d (mat_slot st) → Forall (slot_fits d) l → mat_done st = true → mat_tuples st = l → (length l - mat_index st = k)%nat →
  ∃ st', produces st (drop (mat_index st) l) st'.
Proof.
  induction k as [|k IH]; intros st Hs Hl Hd Ht Hk.
  - exists st. rewrite drop_ge by lia. apply produces_end. exists 0%nat. intros f _. rewrite material_done by done. rewrite material_replay by (by rewrite ?Ht). rewrite Ht.
    by rewrite (proj2 (lookup_ge_None l (mat_index st))) by lia.
  - destruct (l !! mat_index st) as [t|] eqn:E; [|apply lookup_ge_None in E; lia]. assert (Hft : slot_fits d t) by (by eapply Forall_lookup_1).
    destruct (IH (mkMaterial (mat_left st) t (mat_tuples st) (mat_done st) (Datatypes.S (mat_index st)))) as (st' & Hst'); [done..|cbn; lia|]. exists st'.
    rewrite (drop_S _ _ _ E). eapply produces_row; [|exact Hst']. exists 0%nat. intros f _. rewrite material_done by done. rewrite material_replay by (by rewrite ?Ht). by rewrite Ht, E.
Qed.

(** Whenever it is started again a material node returns its child's tuples,
    which it has read once. *)
Lemma material_yields : Yields d material_inv l.
Proof.
  split.
  - intros f st o st' Hi Hc. destruct (mat_done st) eqn:Ed.
    + rewrite material_done in Hc by done. destruct (replay_inv st Hi Ed) as (o' & st1 & Hr & Hi' & Ho). rewrite Hr in Hc. injection Hc as <- <-. split; [done|]. split; [done|].
      intros f' _. by rewrite material_done.
    + pose proof Hi as (Hs & Hl & Hd). rewrite Ed in Hd. destruct Hd as (Et & Hil & s1 & Hp). destruct (material_first st s1 Hi Ed Hp) as (n & Hn).
      assert (Hst : ∀ f', (f ≤ f')%nat → PlanNode.ExecProcNode f' st = (Ret o, st')).
      { intros f' Hf. rewrite material_fills in Hc |- * by done. apply bind_inv_ret in Hc as ([] & s2 & Hdr & Hc).
        destruct (material_drain_settles f st tt s2 Hil Hdr) as (_ & _ & Hdr'). by rewrite (bind_ret_run _ _ _ _ _ (Hdr' f' Hf)). }
      pose proof (Hst (f + n)%nat ltac:(lia)) as Hx. rewrite Hn in Hx by lia. destruct (replay_inv (drained s1 st)) as (o' & st1 & Hr & Hi' & Ho); [by split_and!|done|].
      rewrite Hr in Hx. injection Hx as <- <-. by split_and!.
  - intros st (Hs & Hl & Hd). split; [by split_and!|]. set (st0 := mkMaterial (mat_left st) (mat_slot st) (mat_tuples st) (mat_done st) 0).
    change (∃ s', produces st0 l s'). destruct (mat_done st) eqn:Ed.
    + by destruct (material_rest (length l) st0) as (st' & Hst'); [done..|cbn; lia|exists st'].
    + pose proof Hd as (Et & Hi & s1 & Hp). destruct (material_first st0 s1) as (n & Hn); [split; [done|]; split; [done|]; done|done|done|].
      destruct (material_rest (length l) (drained s1 st0)) as (st' & Hst'); [done..|cbn; lia|]. exists st'. eapply produces_like; [|exact Hst'].
      exists n. intros f Hf. rewrite Hn by lia. by rewrite material_done.
Qed.
End material.

(** ** The append node *)

Section append.
Context {S : Type} `{PlanNode S} (d : TupleDescData) (cs : list ((S → Prop) * list TupleTableSlot)).
Abbreviation State := (AppendState S).
#[local] Instance append_node : PlanNode State := Append_node.

(** The invariants of the children and what they yield. *)
Hypothesis children : Forall (λ c, Yields d c.1 c.2) cs.

Definition append_inv (st : State) : Prop := slot_fits d (as_slot st) ∧ Forall2 (λ s c, c.1 s) (append_ps st) cs.

Lemma append_settles : settles append_inv AppendExecStep (turn_gives (option_fits d)).
Proof.
  intros f st t st' (Hs & Hc) Hr. unfold AppendExecStep in *. destruct (append_ps st !! as_whichplan st) as [s|] eqn:E.
  - destruct (Forall2_lookup_l _ _ _ _ _ Hc E) as (c & Ec & Hi). pose proof (Forall_lookup_1 _ _ _ _ children Ec) as Hy.
    destruct (PlanNode.ExecProcNode f s) as [[o|e] s1] eqn:Er; [|done]. destruct (yields_step _ _ _ Hy f s o s1 Hi Er) as (Hi1 & Ho & Hf).
    assert (Hc' : Forall2 (λ s c, c.1 s) (<[as_whichplan st := s1]> (append_ps st)) cs) by (rewrite <- (list_insert_id cs _ _ Ec); by apply Forall2_insert).
    destruct o as [u|]; injection Hr as <- <-.
    + split; [split; [by apply copy_into_ok|done]|]. split; [by apply copy_into_ok|]. intros f' Hf'. by rewrite (Hf f' Hf').
    + split; [by split|]. split; [done|]. intros f' Hf'. by rewrite (Hf f' Hf').
  - injection Hr as <- <-. done.
Qed.

(** The tuples of the current child, and the step to the next one. *)
Lemma append_child (s : S) r s1 : produces s r s1 → ∀ st : State, slot_fits d (as_slot st) → Forall (slot_fits d) r → append_ps st !! as_whichplan st = Some s →
  ∃ slot, slot_fits d slot ∧ leads AppendExecStep st r (mkAppend (<[as_whichplan st := s1]> (append_ps st)) slot (Datatypes.S (as_whichplan st))).
Proof.
  induction 1 as [s s1 (n & Hn)|s t s2 r s1 (n & Hn) Hp IH]; intros st Hs Hr E.
  - exists (as_slot st). split; [done|]. eapply leads_go; [|apply leads_here]. exists n. intros f Hf. unfold AppendExecStep. by rewrite E, (Hn f Hf).
  - apply Forall_cons in Hr as [Ht Hr]. set (st2 := mkAppend (<[as_whichplan st := s2]> (append_ps st)) t (as_whichplan st)).
    destruct (IH st2) as (slot & Hslot & Hl); [done|done|cbn; apply list_lookup_insert_eq; by eapply lookup_lt_Some|]. exists slot. split; [done|].
    cbn in Hl. rewrite list_insert_insert_eq in Hl. eapply leads_row; [|exact Hl]. exists n. intros f Hf. unfold AppendExecStep. rewrite E, (Hn f Hf). by rewrite (copy_into_fits d).
Qed.

Lemma append_rest k : ∀ st : State, slot_fits d (as_slot st) → length (append_ps st) = length cs → (length cs - as_whichplan st = k)%nat →
  (∀ j c, (as_whichplan st ≤ j)%nat → cs !! j = Some c → ∃ s s1, append_ps st !! j = Some s ∧ produces s c.2 s1 ∧ Forall (slot_fits d) c.2) →
  ∃ st', runs AppendExecStep st (concat (snd <$> drop (as_whichplan st) cs)) st'.
Proof.
  induction k as [|k IH]; intros st Hs Hlen Hk Hc.
  - exists st. rewrite drop_ge by lia. apply runs_end. exists 0%nat. intros f _. unfold AppendExecStep. by rewrite (proj2 (lookup_ge_None (append_ps st) _)) by lia.
  - destruct (cs !! as_whichplan st) as [c|] eqn:E; [|apply lookup_ge_None in E; lia]. destruct (Hc _ c (le_n _) E) as (s & s1 & Es & Hp & Hr).
    destruct (append_child s c.2 s1 Hp st Hs Hr Es) as (slot & Hslot & Hl). set (st2 := mkAppend _ slot _) in Hl. destruct (IH st2) as (st' & Hst'); [done|cbn; by rewrite length_insert|cbn; lia| |].
    + intros j cj Hj Ej. cbn in Hj. destruct (Hc j cj ltac:(lia) Ej) as (sj & sj1 & Esj & Hpj). exists sj, sj1. split; [|done]. cbn. rewrite list_lookup_insert_ne by lia. done.
    + exists st'. rewrite (drop_S _ _ _ E). cbn [fmap list_fmap concat]. eapply leads_runs; [exact Hl|exact Hst'].
Qed.

(** UNION ALL: the children's tuples one after the other. *)
Lemma append_yields : Yields d append_inv (concat (snd <$> cs)).
Proof.
  split; [by apply loop_settles, append_settles|]. intros st (Hs & Hc). split.
  - split; [done|]. cbn. apply Forall2_fmap_l. apply Forall2_same_length_lookup in Hc as [Hlen Hc]. apply Forall2_same_length_lookup. split; [done|]. intros i s c Es Ec.
    apply (yields_again _ _ _ (Forall_lookup_1 _ _ _ _ children Ec)). by apply (Hc i).
  - destruct (append_rest (length cs) (PlanNode.ExecReScan st)) as (st' & Hst'); [done|cbn; rewrite length_fmap; by eapply Forall2_length|cbn; lia| |].
    + intros j c _ Ec. pose proof (Forall_lookup_1 _ _ _ _ children Ec) as Hy. destruct (Forall2_lookup_r _ _ _ _ _ Hc Ec) as (s & Es & Hi). destruct (yields_again _ _ _ Hy s Hi) as (Hi' & s1 & Hp).
      exists (PlanNode.ExecReScan s), s1. split; [cbn; by rewrite list_lookup_fmap, Es|]. split; [done|]. by eapply (produces_fits d c.1 c.2).
    + exists st'. by apply (runs_produces AppendExecStep).
Qed.
End append.

(** ** The unique and the group node *)

(** A tuple is dropped if it equals the last one kept on the columns. *)
Fixpoint dedup (types cols : list Z) (last : option TupleTableSlot) (l : list TupleTableSlot) : list TupleTableSlot :=
  match l with
  | [] => []
  | t :: l' => if duplicate types cols last t then dedup types cols last l' else t :: dedup types cols (Some t) l'
  end.

Section unique.
Context {S : Type} `{PlanNode S} (types cols : list Z) (d : TupleDescData) (I : S → Prop) (l0 : list TupleTableSlot) (child : Yields d I l0).
Abbreviation State := (UniqueState S).
#[local] Instance unique_node : PlanNode State := Unique_node types cols.

Definition unique_inv (st : State) : Prop := I (uniq_left st) ∧ slot_fits d (uniq_slot st).

Lemma unique_settles : settles unique_inv (UniqueExecStep types cols) (turn_gives (option_fits d)).
Proof.
  unfold UniqueExecStep. eapply settles_bind.
  { apply (settles_lift unique_inv I uniq_left (λ s st, mkUnique s (uniq_slot st) (last_tuple st)) PlanNode.ExecProcNode); [by intros st []|by intros s st []|apply (yields_step _ _ _ child)]. }
  intros [t|] Ht; [|by apply settles_ret]. eapply settles_bind; [apply settles_get|]. intros st _. destruct (duplicate _ _ _ _); [by apply settles_ret|].
  eapply (settles_bind _ _ _ (λ _, True)).
  { apply settles_modify; [exact Logic.I|]. intros s [Hi Hs]. split; [exact Hi|exact (copy_into_ok d _ _ Hs Ht)]. }
  intros _ _. apply settles_gets. by intros s [_ Hs].
Qed.

Lemma unique_run l : ∀ (st : State) s1, slot_fits d (uniq_slot st) → Forall (slot_fits d) l → produces (uniq_left st) l s1 →
  ∃ st', runs (UniqueExecStep types cols) st (dedup types cols (last_tuple st) l) st'.
Proof.
  induction l as [|t l IH]; intros st s1 Hs Hl Hp; inversion Hp as [? ? (n & Hn)|? ? s2 ? ? (n & Hn) Hp']; subst.
  - eexists. apply runs_end. exists n. intros f Hf. unfold UniqueExecStep, unique_next, mbind, M_bind. by rewrite (Hn f Hf).
  - apply Forall_cons in Hl as [Ht Hl]. cbn [dedup]. destruct (duplicate types cols (last_tuple st) t) eqn:E.
    + destruct (IH (mkUnique s2 (uniq_slot st) (last_tuple st)) s1) as (st' & Hst'); [done..|]. exists st'. eapply runs_go; [|exact Hst'].
      exists n. intros f Hf. unfold UniqueExecStep, unique_next, mbind, M_bind, get. rewrite (Hn f Hf). cbn. by rewrite E.
    + destruct (IH (mkUnique s2 t (Some t)) s1) as (st' & Hst'); [done..|]. exists st'. eapply runs_row; [|exact Hst'].
      exists n. intros f Hf. unfold UniqueExecStep, unique_next, mbind, M_bind, get, modify, gets. rewrite (Hn f Hf). cbn. rewrite E. cbn.
      by rewrite (copy_into_fits d), (copy_virtual_fits d).
Qed.

Lemma unique_yields : Yields d unique_inv (dedup types cols None l0).
Proof.
  split; [by apply loop_settles, unique_settles|]. intros st [Hi Hs]. destruct (yields_again _ _ _ child _ Hi) as (Hi' & s1 & Hp). split; [by split|].
  destruct (unique_run l0 (PlanNode.ExecReScan st) s1) as (st' & Hst'); [done|by eapply (produces_fits d I l0)|done|]. exists st'. by apply (runs_produces (UniqueExecStep types cols)).
Qed.
End unique.

Section group.
Context {S : Type} `{PlanNode S} (types cols : list Z) (d : TupleDescData) (I : S → Prop) (l0 : list TupleTableSlot) (child : Yields d I l0).
Abbreviation State := (GroupState S).
#[local] Instance group_node : PlanNode State := Group_node types cols.

Definition group_inv (st : State) : Prop := I (grp_left st) ∧ slot_fits d (grp_slot st).

Lemma group_emit_settles t : slot_fits d t → settles group_inv (λ _, emit_group t) (turn_gives (option_fits d)).
Proof.
  intros Ht. unfold emit_group. eapply (settles_bind _ _ _ (λ _, True)).
  { apply settles_modify; [exact Logic.I|]. intros s [Hi Hs]. split; [exact Hi|exact (copy_into_ok d _ _ Hs Ht)]. }
  intros _ _. apply settles_gets. by intros s [_ Hs].
Qed.

Lemma group_settles : settles group_inv (GroupExecStep types cols) (turn_gives (option_fits d)).
Proof.
  unfold GroupExecStep. eapply settles_bind.
  { apply (settles_lift group_inv I grp_left (λ s st, mkGroup s (grp_slot st) (first_tuple st)) PlanNode.ExecProcNode); [by intros st []|by intros s st []|apply (yields_step _ _ _ child)]. }
  intros [t|] Ht; [|by apply settles_ret]. eapply settles_bind; [apply settles_get|]. intros st _. destruct (first_tuple st) as [u|].
  - destruct (_ =? 0); [by apply settles_ret|]. eapply (settles_bind _ _ _ (λ _, True)); [by apply settles_modify|]. intros _ _. by apply group_emit_settles.
  - eapply (settles_bind _ _ _ (λ _, True)); [by apply settles_modify|]. intros _ _. by apply group_emit_settles.
Qed.

Lemma group_run l : ∀ (st : State) s1, slot_fits d (grp_slot st) → (∀ u, first_tuple st = Some u → slot_fits d u) → Forall (slot_fits d) l → produces (grp_left st) l s1 →
  ∃ st', runs (GroupExecStep types cols) st (dedup types cols (first_tuple st) l) st'.
Proof.
  induction l as [|t l IH]; intros st s1 Hs Hu Hl Hp; inversion Hp as [? ? (n & Hn)|? ? s2 ? ? (n & Hn) Hp']; subst.
  - eexists. apply runs_end. exists n. intros f Hf. unfold GroupExecStep, group_next, mbind, M_bind. by rewrite (Hn f Hf).
  - apply Forall_cons in Hl as [Ht Hl]. cbn [dedup]. assert (Hnew : ∃ st', runs (GroupExecStep types cols) (mkGroup s2 t (Some t)) (dedup types cols (Some t) l) st').
    { apply (IH (mkGroup s2 t (Some t)) s1); [done| |done|done]. by intros u [= <-]. }
    destruct Hnew as (st' & Hst'). unfold duplicate. destruct (first_tuple st) as [u|] eqn:E.
    + specialize (Hu u eq_refl). destruct (CompareTuplesOnAttrs types u t cols =? 0) eqn:Ec.
      * destruct (IH (mkGroup s2 (grp_slot st) (Some u)) s1) as (st2 & Hst2); [done|by intros v [= <-]|done|done|]. exists st2. eapply runs_go; [|exact Hst2].
        exists n. intros f Hf. unfold GroupExecStep, group_next, mbind, M_bind, get. rewrite (Hn f Hf). cbn. rewrite E, Ec. done.
      * exists st'. eapply runs_row; [|exact Hst']. exists n. intros f Hf. unfold GroupExecStep, group_next, emit_group, mbind, M_bind, get, modify, gets. rewrite (Hn f Hf). cbn.
        rewrite E, Ec. cbn. rewrite (copy_into_fits d) by done. by rewrite (store_virtual_same d).
    + exists st'. eapply runs_row; [|exact Hst']. exists n. intros f Hf. unfold GroupExecStep, group_next, emit_group, mbind, M_bind, get, modify, gets. rewrite (Hn f Hf). cbn.
      rewrite E. cbn. rewrite (copy_into_fits d) by done. by rewrite (copy_virtual_fits d).
Qed.

(** Without aggregates a group node is a unique node. *)
Lemma group_yields : Yields d group_inv (dedup types cols None l0).
Proof.
  split; [by apply loop_settles, group_settles|]. intros st [Hi Hs]. destruct (yields_again _ _ _ child _ Hi) as (Hi' & s1 & Hp). split; [by split|].
  destruct (group_run l0 (PlanNode.ExecReScan st) s1) as (st' & Hst'); [done|done|by eapply (produces_fits d I l0)|done|]. exists st'. by apply (runs_produces (GroupExecStep types cols)).
Qed.
End group.

End ExecNodesSpec.
