(* ===== verification/SortNodeSpec.v ===== *)
(** * The sort node, and DISTINCT over it

    The sort node yields its child's tuples in order, from the offset up to the
    limit; a unique node above a sort on the same columns returns one tuple of
    each class of equal ones. *)

From Stdlib Require Import Sorted.
From stdpp Require Import base list strings.
From S2P Require Import Prelude HeapForm NbtPage TupleTape Tuplesort TupleOrder RowOrder TuplesortSpec TuplestoreSpec HashJoin HashJoinSpec PlanNode ExecNodes ExecNodesSpec.

Module SortNodeSpec.
Import HeapForm TupleTape TuplestoreSpec HashJoinSpec PlanNode ExecNodes ExecNodesSpec.

Abbreviation TupleSort := Tuplesort.TupleSort.
Abbreviation GetTuple := Tuplesort.GetTuple.

(** ** Equal tuples, and lists without them *)

Section equal.
Context (types : list Z) (plan : Sort) (d : TupleDescData).
Hypothesis no_varchar : kVarcharOid ∉ types.

Definition column_type (c : Z) : Z :=
  if (1 <=? c) && (c <=? Z.of_nat (length types)) then default Tuplesort.kInt4Oid (types !! Z.to_nat (c - 1)) else Tuplesort.kInt4Oid.
Definition column_key (key : Tuplesort.SortKey) (c : Z) : Prop := Tuplesort.attnum key = c ∧ Tuplesort.typid key = column_type c.

Lemma column_type_not_varchar i : default Tuplesort.kInt4Oid (types !! i) ≠ kVarcharOid.
Proof. destruct (types !! i) as [ty|] eqn:E; [|done]. cbn. intros ->. apply no_varchar. by eapply list_elem_of_lookup_2. Qed.

Lemma datum_equal a an b bn ty : ty ≠ kVarcharOid → CompareDatumValues a an b bn ty = 0 ↔ (an = true ∧ bn = true) ∨ (an = false ∧ bn = false ∧ Tuplesort.CompareValues a b ty = 0).
Proof. intros Hty. unfold CompareDatumValues. rewrite (proj2 (Z.eqb_neq ty kVarcharOid)) by done. destruct an, bn; cbn; naive_solver. Qed.

Lemma key_equal key a b : TupleOrder.compare_key key a b = 0 ↔
  let an := Tuplesort.key_null a (Tuplesort.attnum key) in let bn := Tuplesort.key_null b (Tuplesort.attnum key) in
  (an = true ∧ bn = true) ∨ (an = false ∧ bn = false ∧ Tuplesort.CompareValues (TupleOrder.key_value a key) (TupleOrder.key_value b key) (Tuplesort.typid key) = 0).
Proof.
  unfold TupleOrder.compare_key. destruct (Tuplesort.key_null a _), (Tuplesort.key_null b _); cbn; try (destruct (Tuplesort.nulls_first key); naive_solver lia).
  destruct (Tuplesort.reverse key); naive_solver lia.
Qed.

(** The comparison of the node finds the same tuples equal as that of the sort;
    nulls are equal to each other. *)
Lemma compare_equal a b ks cs : slot_fits d a → slot_fits d b → Forall2 column_key ks cs → CompareTuplesOnAttrs types a b cs = 0 ↔ Tuplesort.Compare ks a b = 0.
Proof.
  intros (Ea & Va & Na) (Eb & Vb & Nb) Hk. induction Hk as [|key c ks cs [Ec Et] _ IH]; [done|]. rewrite TupleOrder.compare_cons. unfold TupleOrder.then_by.
  assert (E2 : (if TupleOrder.compare_key key a b =? 0 then Tuplesort.Compare ks a b else TupleOrder.compare_key key a b) = 0 ↔ TupleOrder.compare_key key a b = 0 ∧ Tuplesort.Compare ks a b = 0).
  { destruct (Z.eqb_spec (TupleOrder.compare_key key a b) 0); naive_solver. }
  rewrite E2, <- IH, key_equal. unfold Tuplesort.key_null, TupleOrder.key_value, Natts. rewrite Ec, Et, Ea, Eb. cbn [CompareTuplesOnAttrs]. destruct (Z.ltb_spec c 1) as [Hc|Hc].
  - rewrite (proj2 (Z.leb_gt 1 c)) by lia. cbn. naive_solver.
  - unfold Natts. rewrite Ea, Eb. rewrite (proj2 (Z.leb_le 1 c)) by lia. cbn [andb]. set (idx := Z.to_nat (c - 1)).
    set (cmp := CompareDatumValues _ _ _ _ _). assert (E1 : (if cmp =? 0 then CompareTuplesOnAttrs types a b cs else cmp) = 0 ↔ cmp = 0 ∧ CompareTuplesOnAttrs types a b cs = 0).
    { destruct (Z.eqb_spec cmp 0); naive_solver. }
    rewrite E1. apply and_iff_compat_r. unfold cmp. clear E1 E2 cmp. destruct (Nat.ltb_spec idx (length (attrs d))) as [Hi|Hi].
    + rewrite (proj2 (Z.leb_le c _)) by lia. rewrite datum_equal by apply column_type_not_varchar. unfold column_type. rewrite (proj2 (Z.leb_le 1 c)) by lia. cbn [andb].
      destruct (Z.leb_spec c (Z.of_nat (length types))); [done|]. by rewrite (proj2 (lookup_ge_None types idx)) by lia.
    + rewrite (proj2 (Z.leb_gt c _)) by lia. rewrite datum_equal by done. naive_solver.
Qed.

Lemma sort_keys_columns : Forall2 column_key (sort_keys types plan) (sortColIdx plan).
Proof.
  unfold sort_keys. apply Forall2_same_length_lookup. split; [by rewrite length_imap|]. intros i key c Hk Hc. rewrite list_lookup_imap, Hc in Hk. by injection Hk as <-.
Qed.
End equal.

(** Without the tuples that equal the one before, a list in order is strictly in
    order, and each of its tuples equals one that is left. *)
Section dedup.
Context (types cols : list Z) (d : TupleDescData) (keys : list Tuplesort.SortKey).
Hypothesis equal : ∀ a b, slot_fits d a → slot_fits d b → CompareTuplesOnAttrs types a b cols = 0 ↔ Tuplesort.Compare keys a b = 0.
Definition before (a b : TupleTableSlot) : Prop := Tuplesort.Compare keys a b < 0.

Lemma dedup_subset last l : dedup types cols last l ⊆+ l.
Proof. revert last. induction l as [|t l IH]; intros last; [done|]. cbn [dedup]. destruct (duplicate _ _ _ _); [by apply submseteq_cons|by apply submseteq_skip]. Qed.

Lemma dedup_clean last l : clean <$> dedup types cols last l ⊆+ clean <$> l.
Proof. apply fmap_submseteq, dedup_subset. Qed.

Lemma dedup_sorted l : ∀ last, Forall (TuplesortSpec.ok d keys) l → StronglySorted (TuplesortSpec.le keys) l →
  (∀ u, last = Some u → TuplesortSpec.ok d keys u ∧ Forall (TuplesortSpec.le keys u) l) →
  StronglySorted before (dedup types cols last l) ∧ (∀ u, last = Some u → Forall (before u) (dedup types cols last l)) ∧
  ∀ x, x ∈ l → ∃ y, (last = Some y ∨ y ∈ dedup types cols last l) ∧ Tuplesort.Compare keys y x = 0.
Proof.
  induction l as [|t l IH]; intros last Hok Hsort Hlast.
  { split; [constructor|]. split; [by constructor|]. intros x Hx. by apply not_elem_of_nil in Hx. }
  apply Forall_cons in Hok as [Ht Hok]. apply StronglySorted_inv in Hsort as [Hsort Hle]. cbn [dedup].
  assert (Hfit : ∀ s, TuplesortSpec.ok d keys s → slot_fits d s) by (intros s [Hw _]; by apply wf_fits).
  destruct (duplicate types cols last t) eqn:E.
  - unfold duplicate in E. destruct last as [u|]; [|done]. destruct (Hlast u eq_refl) as [Hu Hul]. apply Z.eqb_eq, equal in E; [|by apply Hfit..].
    apply Forall_cons in Hul as [_ Hul]. destruct (IH (Some u) Hok Hsort) as (H1 & H2 & H3); [by intros v [= <-]|]. split; [done|]. split; [done|].
    intros x [->|Hx]%elem_of_cons; [|by apply H3]. exists u. split; [by left|done].
  - destruct (IH (Some t) Hok Hsort) as (H1 & H2 & H3); [by intros v [= <-]|]. specialize (H2 t eq_refl). split; [by constructor|]. split.
    + intros u ->. destruct (Hlast u eq_refl) as [Hu Hul]. apply Forall_cons in Hul as [Hut _]. cbn in E. apply Z.eqb_neq in E. rewrite equal in E by (by apply Hfit).
      assert (Hb : before u t) by (unfold before, TuplesortSpec.le in *; lia). constructor; [done|]. rewrite Forall_forall in H2 |- *. intros y Hy. specialize (H2 y Hy).
      assert (Hyok : TuplesortSpec.ok d keys y). { rewrite Forall_forall in Hok. apply Hok. by eapply elem_of_submseteq; [|apply dedup_subset]. }
      destruct (TupleOrder.compare_ok keys) as [C1 C2]. destruct Hu as [_ Hu], Ht as [_ Ht], Hyok as [_ Hyok]. unfold before in *.
      pose proof (C1 u t Hu Ht). pose proof (C1 t y Ht Hyok). pose proof (C1 u y Hu Hyok). pose proof (C2 u t y Hu Ht Hyok). pose proof (C2 y u t Hyok Hu Ht). lia.
    + intros x [->|Hx]%elem_of_cons.
      * exists t. split; [right; by left|]. by apply TuplesortSpec.compare_same, Ht.
      * destruct (H3 x Hx) as (y & [[= <-]|Hy] & Hyx); [exists t; split; [right; by left|done]|exists y; split; [right; by right|done]].
Qed.
End dedup.

(** ** What a performed sort gives *)

Section gives.
Context `{Tuplesort.Process, Hlaws : TuplesortSpec.StdSortLaws}.

Inductive gives : TupleSort → list TupleTableSlot → Prop :=
  | gives_end ts : GetTuple ts = (Ret None, ts) → gives ts []
  | gives_row ts t ts' l : GetTuple ts = (Ret (Some t), ts') → gives ts' l → gives ts (t :: l).

(** The end of the tuples changes nothing. *)
Lemma get_none ts ts' : GetTuple ts = (Ret None, ts') → ts' = ts.
Proof.
  unfold Tuplesort.GetTuple. unfold mbind at 1, M_bind at 1, get. destruct (negb (Tuplesort.is_sorted ts)); [done|]. unfold mbind at 1, M_bind at 1. cbn. destruct (Tuplesort.tapes_ ts).
  - destruct (_ !! _); run_step; congruence.
  - unfold Tuplesort.GetTupleFromMerge. unfold mbind at 1, M_bind at 1, get. destruct (Tuplesort.merge_heap_ ts) as [|[i first] rest]; [by intros [= <-]|].
    unfold Tuplesort.take_head. unfold mbind at 1, M_bind at 1, get. destruct (_ !! _) as [[source s]|]; [|by intros [= <-]].
    intros Hg. repeat (apply bind_inv_ret in Hg as (? & ? & _ & Hg)). done.
Qed.

Lemma drain_gives n : ∀ ts out ts', TuplesortSpec.drain n ts = (Ret out, ts') → GetTuple ts' = (Ret None, ts') → gives ts out.
Proof.
  induction n as [|n IH]; intros ts out ts' Hd Hend; cbn [TuplesortSpec.drain] in Hd; [injection Hd as <- <-; by apply gives_end|].
  apply bind_inv_ret in Hd as ([t|] & ts1 & Hg & Hd).
  - apply bind_inv_ret in Hd as (l & ts2 & Hl & Hd). injection Hd as <- <-. eapply gives_row; [exact Hg|]. by eapply IH.
  - injection Hd as <- <-. pose proof (get_none _ _ Hg) as ->. by apply gives_end.
Qed.
End gives.

(** ** The sort node *)

Section sort.
Context `{Tuplesort.Process, Hlaws : TuplesortSpec.StdSortLaws}.
Context {S : Type} `{PlanNode S} (types : list Z) (plan : Sort) (d : TupleDescData) (I : S → Prop) (l : list TupleTableSlot) (child : Yields d I l).
Abbreviation State := (SortState S).
#[local] Instance sort_node : PlanNode State := Sort_node types plan.
Abbreviation keys := (sort_keys types plan).
Abbreviation fresh := (new_tuplesort types plan d).
Abbreviation call := (SortExecProcNode plan).

Hypothesis small : Z.of_nat (length (attrs d)) < 2 ^ 31.
Hypothesis sortable : Forall (TuplesortSpec.ok d keys) l.

(** The tuples in order: what the sort returns. *)
Definition sorted_rows : list TupleTableSlot := default [] (returned (TuplesortSpec.sort_tuples l fresh).1).
Definition performed : TupleSort := (Tuplesort.PerformSort (foldl (λ ts s, Tuplesort.PutTuple s ts) fresh l)).2.

Lemma sorted_rows_spec :
  Tuplesort.PerformSort (foldl (λ ts s, Tuplesort.PutTuple s ts) fresh l) = (Ret tt, performed) ∧ gives performed sorted_rows ∧ Forall (TuplesortSpec.ok d keys) sorted_rows ∧
  StronglySorted (TuplesortSpec.le keys) sorted_rows ∧ clean <$> sorted_rows ≡ₚ clean <$> l.
Proof.
  destruct (TuplesortSpec.sort_steps d keys small "/tmp" sort_work_mem l sortable) as (st1 & out & st2 & Hp & Hd & Hs & Hperm & Hend & Hok).
  change (Tuplesort.new_sort d keys sort_work_mem "/tmp") with fresh in *. unfold performed. rewrite Hp. assert (sorted_rows = out) as ->; [|split_and!; try done; by eapply drain_gives].
  unfold sorted_rows, TuplesortSpec.sort_tuples. rewrite (bind_ret_run (modify _) _ fresh tt (foldl (λ ts s, Tuplesort.PutTuple s ts) fresh l)) by done.
  rewrite (bind_ret_run _ _ _ _ _ Hp). by rewrite Hd.
Qed.

Lemma sorted_fit : Forall (slot_fits d) sorted_rows.
Proof. eapply Forall_impl; [apply sorted_rows_spec|]. intros s [Hw _]. by apply wf_fits. Qed.

(** Before the sort the child is to yield its tuples; after it the sort gives a rest of them. *)
Definition sort_inv (st : State) : Prop :=
  slot_fits d (sort_slot st) ∧ I (sort_left st) ∧
  if sorted_done st then ∃ rest, gives (tuplesort st) rest ∧ Forall (slot_fits d) rest
  else tuplesort st = fresh ∧ rows_output st = 0 ∧ ∃ s1, produces (sort_left st) l s1.

Definition sort_put (t : TupleTableSlot) : M State unit := on_sort (modify (Tuplesort.PutTuple t)).
Definition with_sort (s : S) (ts : TupleSort) (st : State) : State := mkSortState s (sort_slot st) ts (sorted_done st) (rows_skipped st) (rows_output st).

Lemma put_all_run r : ∀ (st : State) s1, produces (sort_left st) r s1 →
  ∃ n, ∀ f m, (n ≤ f)%nat → (n ≤ m)%nat → for_each sort_next sort_put f m st = (Ret tt, with_sort s1 (foldl (λ ts s, Tuplesort.PutTuple s ts) (tuplesort st) r) st).
Proof.
  induction r as [|t r IH]; intros st s1 Hp; inversion Hp as [? ? (n & Hn)|? ? s2 ? ? (n & Hn) Hp']; subst.
  - exists (Datatypes.S n). intros f [|m] Hf Hm; [lia|]. cbn [for_each]. unfold mbind at 1, M_bind at 1, sort_next at 1. by rewrite (Hn f ltac:(lia)).
  - destruct (IH (with_sort s2 (Tuplesort.PutTuple t (tuplesort st)) st) s1 Hp') as (k & Hk). exists (Datatypes.S (n + k)). intros f [|m] Hf Hm; [lia|].
    cbn [for_each]. unfold mbind at 1, M_bind at 1, sort_next at 1. rewrite (Hn f ltac:(lia)). rewrite (bind_ret_run (sort_put t) _ _ tt (with_sort s2 (Tuplesort.PutTuple t (tuplesort st)) st)) by done.
    by rewrite Hk by lia.
Qed.

Lemma put_all_settles : settles (λ st : State, I (sort_left st)) put_all (λ _, True).
Proof.
  eapply for_each_settles; [|intros t _ f st a st' Hi Hm; injection Hm as <- <-; done].
  apply (settles_lift _ I sort_left (λ s st, with_sort s (tuplesort st) st) PlanNode.ExecProcNode); [done..|]. apply (yields_step _ _ _ child).
Qed.

(** The offset. *)
Lemma skip_sorted_run k : ∀ (st : State) rest, gives (tuplesort st) rest →
  ∃ ts n, gives ts (drop k rest) ∧ skip_sorted k st = (Ret tt, mkSortState (sort_left st) (sort_slot st) ts (sorted_done st) n (rows_output st)).
Proof.
  induction k as [|k IH]; intros st rest Hg; [exists (tuplesort st), (rows_skipped st); split; [done|]; by destruct st|]. cbn [skip_sorted].
  unfold mbind at 1, M_bind at 1, on_sort at 1. inversion Hg as [ts Ht|ts t ts' rest' Ht Hg']; subst; rewrite Ht; [exists (tuplesort st), (rows_skipped st); split; [done|]; by destruct st|].
  rewrite (bind_ret_run (modify _) _ _ tt (mkSortState (sort_left st) (sort_slot st) ts' (sorted_done st) (rows_skipped st + 1) (rows_output st))) by done.
  destruct (IH (mkSortState (sort_left st) (sort_slot st) ts' (sorted_done st) (rows_skipped st + 1) (rows_output st)) rest' Hg') as (ts2 & n & Hg2 & Hs). by exists ts2, n.
Qed.

Lemma next_sorted_run (st : State) rest : gives (tuplesort st) rest → slot_fits d (sort_slot st) → Forall (slot_fits d) rest →
  next_sorted plan st =
    if (0 <=? sort_limit plan) && (sort_limit plan <=? rows_output st) then (Ret None, st)
    else match rest with
         | [] => (Ret None, st)
         | t :: rest' => (Ret (Some t), mkSortState (sort_left st) t (GetTuple (tuplesort st)).2 (sorted_done st) (rows_skipped st) (rows_output st + 1))
         end.
Proof.
  intros Hg Hs Hr. unfold next_sorted. rewrite (bind_ret_run get _ st st st) by done. destruct (_ && _); [done|]. unfold mbind at 1, M_bind at 1, on_sort.
  inversion Hg as [ts Ht|ts t ts' rest' Ht Hg']; subst; rewrite Ht; [by destruct st|]. apply Forall_cons in Hr as [Hft _]. unfold mbind, M_bind, modify, gets. cbn. by rewrite (copy_into_fits d).
Qed.

Lemma sort_done (st : State) f : sorted_done st = true → call f st = next_sorted plan st.
Proof. intros Ed. unfold SortExecProcNode. rewrite (bind_ret_run get _ st st st) by done. by rewrite Ed. Qed.

(** The first call, when the child has been read. *)
Definition sort_rest : M State (option TupleTableSlot) :=
  on_sort Tuplesort.PerformSort ≫= λ _,
  modify (λ st, mkSortState (sort_left st) (sort_slot st) (tuplesort st) true (rows_skipped st) (rows_output st)) ≫= λ _,
  skip_sorted (Z.to_nat (sort_offset plan)) ≫= λ _, next_sorted plan.

Lemma sort_reads (st : State) f : sorted_done st = false → call f st = (put_all f ≫= λ _, sort_rest) st.
Proof.
  intros Ed. unfold SortExecProcNode. rewrite (bind_ret_run get _ st st st) by done. rewrite Ed. unfold sort_rest, mbind, M_bind.
  destruct (put_all f st) as [[[]|e] s1]; [|done]. destruct (on_sort Tuplesort.PerformSort s1) as [[[]|e] s2]; [|done]. unfold modify.
  by destruct (skip_sorted _ _) as [[[]|e] s3].
Qed.

(** ... leads to a state like a sorted one. *)
Lemma sort_first (st : State) s1 : sorted_done st = false → tuplesort st = fresh → produces (sort_left st) l s1 →
  ∃ st1 n, gives (tuplesort st1) (drop (Z.to_nat (sort_offset plan)) sorted_rows) ∧ sorted_done st1 = true ∧ rows_output st1 = rows_output st ∧ sort_slot st1 = sort_slot st ∧ sort_left st1 = s1 ∧
    ∀ f, (n ≤ f)%nat → call f st = next_sorted plan st1.
Proof.
  intros Ed Ef Hp. destruct (put_all_run l st s1 Hp) as (n & Hn). destruct sorted_rows_spec as (Hperf & Hg & _).
  set (st0 := mkSortState s1 (sort_slot st) performed true (rows_skipped st) (rows_output st)).
  destruct (skip_sorted_run (Z.to_nat (sort_offset plan)) st0 sorted_rows Hg) as (ts & k & Hg' & Hskip). exists (mkSortState s1 (sort_slot st) ts true k (rows_output st)), n. split_and!; [exact Hg'|done..|].
  intros f Hf. rewrite sort_reads by done. rewrite (bind_ret_run (put_all f) _ _ _ _ (Hn f f Hf Hf)). rewrite Ef. unfold sort_rest. unfold mbind at 1, M_bind at 1, on_sort at 1. cbn [tuplesort with_sort]. rewrite Hperf.
  rewrite (bind_ret_run (modify _) _ _ tt st0) by (unfold modify; cbn; by rewrite ?Ed). by rewrite (bind_ret_run _ _ _ _ _ Hskip).
Qed.

Definition at_most (output : Z) (rest : list TupleTableSlot) : list TupleTableSlot := if sort_limit plan <? 0 then rest else take (Z.to_nat (sort_limit plan - output)) rest.

Lemma sort_produces rest : ∀ st : State, sorted_done st = true → gives (tuplesort st) rest → slot_fits d (sort_slot st) → Forall (slot_fits d) rest →
  ∃ st', produces st (at_most (rows_output st) rest) st'.
Proof.
  induction rest as [|t rest IH]; intros st Hd Hg Hs Hr.
  - exists st. assert (at_most (rows_output st) [] = []) as -> by (unfold at_most; rewrite take_nil; by destruct (_ <? _)). apply produces_end. exists 0%nat. intros f _.
    change (call f st = (Ret None, st)). rewrite sort_done, (next_sorted_run st []) by done. by destruct (_ && _).
  - unfold at_most. destruct (decide (0 ≤ sort_limit plan ∧ sort_limit plan ≤ rows_output st)) as [Hl|Hl].
    + exists st. destruct (Z.ltb_spec (sort_limit plan) 0); [lia|]. replace (Z.to_nat (sort_limit plan - rows_output st)) with 0%nat by lia. apply produces_end. exists 0%nat. intros f _.
      change (call f st = (Ret None, st)). rewrite sort_done, (next_sorted_run st (t :: rest)) by done.
      rewrite (proj2 (Z.leb_le 0 (sort_limit plan))), (proj2 (Z.leb_le (sort_limit plan) (rows_output st))) by lia. done.
    + inversion Hg as [|ts t' ts' rest' Ht Hg']; subst. apply Forall_cons in Hr as [Hft Hr].
      set (st1 := mkSortState (sort_left st) t ts' (sorted_done st) (rows_skipped st) (rows_output st + 1)). destruct (IH st1) as (st' & Hst'); [done..|]. exists st'.
      assert ((if sort_limit plan <? 0 then t :: rest else take (Z.to_nat (sort_limit plan - rows_output st)) (t :: rest)) = t :: at_most (rows_output st1) rest) as ->.
      { unfold at_most. destruct (Z.ltb_spec (sort_limit plan) 0); [done|]. subst st1. cbn [rows_output]. by replace (Z.to_nat (sort_limit plan - rows_output st)) with (Datatypes.S (Z.to_nat (sort_limit plan - (rows_output st + 1)))) by lia. }
      eapply produces_row; [|exact Hst']. exists 0%nat. intros f _. change (call f st = (Ret (Some t), st1)). rewrite sort_done, (next_sorted_run st (t :: rest)) by (done || by constructor).
      rewrite Ht. destruct (Z.leb_spec 0 (sort_limit plan)), (Z.leb_spec (sort_limit plan) (rows_output st)); try done; lia.
Qed.

(** A call on a state that was sorted. *)
Lemma next_inv (st : State) : slot_fits d (sort_slot st) → I (sort_left st) → sorted_done st = true → (∃ rest, gives (tuplesort st) rest ∧ Forall (slot_fits d) rest) →
  ∃ o st', next_sorted plan st = (Ret o, st') ∧ sort_inv st' ∧ option_fits d o.
Proof.
  intros Hs Hi Hd (rest & Hg & Hr). rewrite (next_sorted_run st rest) by done. assert (Hinv : sort_inv st) by (split; [done|]; split; [done|]; rewrite Hd; by exists rest).
  destruct (_ && _); [by eexists _, _|]. destruct rest as [|t rest]; [by eexists _, _|]. inversion Hg as [|ts t' ts' rest' Ht Hg']; subst. apply Forall_cons in Hr as [Hft Hr]. eexists _, _. split; [done|].
  split; [|done]. split; [done|]. split; [done|]. cbn. rewrite Hd, Ht. by exists rest.
Qed.

(** ORDER BY, with the limit and the offset of the plan: the child's tuples in
    order, from the offset, up to the limit. *)
Lemma sort_yields : Yields d sort_inv (at_most 0 (drop (Z.to_nat (sort_offset plan)) sorted_rows)).
Proof.
  pose proof (Forall_drop _ (Z.to_nat (sort_offset plan)) _ sorted_fit) as Hfit. split.
  - intros f st o st' Hi Hc. change (call f st = (Ret o, st')) in Hc. pose proof Hi as (Hs & Hil & Hst). destruct (sorted_done st) eqn:Ed.
    + rewrite sort_done in Hc by done. destruct (next_inv st Hs Hil Ed Hst) as (o' & st1 & Hn & Hi' & Ho). rewrite Hn in Hc. injection Hc as <- <-. split; [done|]. split; [done|].
      intros f' _. change (call f' st = (Ret o', st1)). by rewrite sort_done.
    + destruct Hst as (Ef & Er & s1 & Hp). destruct (sort_first st s1 Ed Ef Hp) as (st1 & n & Hg & Hd1 & Ho1 & Hs1 & Hl1 & Hn).
      assert (Hst : ∀ f', (f ≤ f')%nat → call f' st = (Ret o, st')).
      { intros f' Hf. rewrite sort_reads in Hc |- * by done. apply bind_inv_ret in Hc as ([] & s2 & Hput & Hc). destruct (put_all_settles f st tt s2 Hil Hput) as (_ & _ & Hput').
        by rewrite (bind_ret_run _ _ _ _ _ (Hput' f' Hf)). }
      pose proof (Hst (f + n)%nat ltac:(lia)) as Hx. rewrite Hn in Hx by lia. destruct (next_inv st1) as (o' & st2 & Hr & Hi' & Ho'); [by rewrite Hs1| |done|by eexists|].
      { rewrite Hl1. by eapply (produces_fits d I l). }
      rewrite Hr in Hx. injection Hx as <- <-. by split_and!.
  - intros st (Hs & Hi & _). destruct (yields_again _ _ _ child _ Hi) as (Hi' & s1 & Hp). pose proof Hs as (Ed & _).
    set (st0 := mkSortState (PlanNode.ExecReScan (sort_left st)) (sort_slot st) fresh false 0 0). assert (E : PlanNode.ExecReScan st = st0) by (unfold st0; rewrite <- Ed; done). rewrite E.
    split; [split; [done|]; split; [done|]; cbn; by eauto|]. destruct (sort_first st0 s1) as (st1 & n & Hg & Hd1 & Ho1 & Hs1 & Hl1 & Hn); [done..|].
    destruct (sort_produces (drop (Z.to_nat (sort_offset plan)) sorted_rows) st1) as (st' & Hst'); [done|done|by rewrite Hs1|done|]. rewrite Ho1 in Hst'. exists st'. eapply produces_like; [|exact Hst'].
    exists n. intros f Hf. change (call f st0 = call f st1). by rewrite Hn, sort_done.
Qed.
End sort.

(** ** Queries *)

Section query.
Context `{Tuplesort.Process, Hlaws : TuplesortSpec.StdSortLaws} {S : Type} `{PlanNode S}.

(** The plan of SELECT DISTINCT ... ORDER BY ... LIMIT ... OFFSET: it is distinct on the columns it is sorted by. *)
Definition distinct_plan (types : list Z) (plan : Sort) (limit : Limit) (d : TupleDescData) (child : S) : LimitState (UniqueState (SortState S)) :=
  LimitExecInit limit d (UniqueExecInit d (SortExecInit types plan d child)).
Definition distinct_node (types : list Z) (plan : Sort) (limit : Limit) : PlanNode (LimitState (UniqueState (SortState S))) :=
  Limit_node (H := Unique_node (H := Sort_node types plan) types (sortColIdx plan)) limit.
End query.

(** The sorted tuples without repetitions, in the order of the values. *)
Lemma distinct_rows_order types plan d l sorted :
  let keys := sort_keys types plan in
  let rows := dedup types (sortColIdx plan) None sorted in
  kVarcharOid ∉ types → Forall (wf_slot d) l → Forall (RowOrder.readable keys) l →
  Forall (TuplesortSpec.ok d keys) sorted → StronglySorted (TuplesortSpec.le keys) sorted → clean <$> sorted ≡ₚ clean <$> l →
  StronglySorted (RowOrder.row_lt keys) rows ∧ clean <$> rows ⊆+ clean <$> l ∧ ∀ t, t ∈ l → ∃ r, r ∈ rows ∧ RowOrder.row_same keys r t.
Proof.
  intros keys rows Hv Hw Hread Hsok Hsorted Hperm.
  assert (Heq : ∀ a b, slot_fits d a → slot_fits d b → CompareTuplesOnAttrs types a b (sortColIdx plan) = 0 ↔ Tuplesort.Compare keys a b = 0).
  { intros a b Ha Hb. apply (compare_equal types d Hv); [done|done|apply sort_keys_columns]. }
  destruct (dedup_sorted types (sortColIdx plan) d keys Heq sorted None Hsok Hsorted) as (Hstrict & _ & Hcover); [done|].
  assert (Hsw : Forall (wf_slot d) sorted) by (eapply Forall_impl; [exact Hsok|]; by intros s [? _]).
  pose proof (TuplesortSpec.readable_perm d keys l sorted Hw Hsw Hread Hperm) as Hsr. rewrite !Forall_forall in *.
  assert (Hrows : ∀ x, x ∈ rows → x ∈ sorted) by (intros x Hx; by eapply elem_of_submseteq, (dedup_subset types (sortColIdx plan) None sorted)).
  split; [|split].
  - assert (Hin : ∀ m, (∀ x, x ∈ m → x ∈ sorted) → StronglySorted (before keys) m → StronglySorted (RowOrder.row_lt keys) m); [|by apply Hin].
    intros m Hm Hs. induction Hs as [|x m _ IH Hx]; [constructor|]. constructor; [apply IH; intros y Hy; apply Hm; by right|]. rewrite Forall_forall in *. intros y Hy.
    destruct (TuplesortSpec.wf_flags d x) as [X _]; [apply Hsw, Hm; by left|]. destruct (TuplesortSpec.wf_flags d y) as [Y _]; [apply Hsw, Hm; by right|].
    apply (RowOrder.compare_decides keys x y X Y); [apply Hsr, Hm; by left|apply Hsr, Hm; by right|by apply Hx].
  - rewrite <- Hperm. apply (dedup_clean types (sortColIdx plan) None sorted).
  - intros t Ht. assert (Hct : clean t ∈ clean <$> sorted) by (rewrite Hperm; by apply list_elem_of_fmap_2). apply list_elem_of_fmap_1 in Hct as (x & Hx & Hxs).
    destruct (Hcover x Hxs) as (y & [?|Hyr] & Hyx); [done|]. exists y. split; [done|].
    destruct (TuplesortSpec.wf_flags d y) as [Y _]; [by apply Hsw, Hrows|]. destruct (TuplesortSpec.wf_flags d t) as [T _]; [by apply Hw|].
    apply (RowOrder.compare_decides keys y t Y T); [by apply Hsr, Hrows|by apply Hread|]. rewrite <- TupleOrder.compare_clean, Hx, TupleOrder.compare_clean. done.
Qed.

(** C7: SELECT DISTINCT ... ORDER BY ... LIMIT ... OFFSET returns what it says: over
    any plan that yields some tuples, the limit node above the unique node above
    the sort node ends and returns the rows from the offset up to the limit of a
    list that is strictly in the order of the keys as [RowOrder] defines it (so that
    no two of its rows are the same in the key columns), in which every tuple has a
    row with the same key columns, and which has only tuples of the plan (without
    values for their null columns).  The key columns have values of a type with an
    order there, and no column is a varchar; the sort node itself has no limit and
    no offset. *)
Theorem distinct_query `{Tuplesort.Process, TuplesortSpec.StdSortLaws} {S : Type} `{PlanNode S} types plan limit d I l child s1 :
  Yields d I l → I child → produces child l s1 → Z.of_nat (length (attrs d)) < 2 ^ 31 → Forall (wf_slot d) l → Forall (RowOrder.readable (sort_keys types plan)) l →
  kVarcharOid ∉ types → sort_limit plan < 0 → sort_offset plan = 0 →
  ∃ rows m,
    StronglySorted (RowOrder.row_lt (sort_keys types plan)) rows ∧
    clean <$> rows ⊆+ clean <$> l ∧
    (∀ t, t ∈ l → ∃ r, r ∈ rows ∧ RowOrder.row_same (sort_keys types plan) r t) ∧
    ∀ fuel, (m ≤ fuel)%nat → ∃ st,
      @collect _ (distinct_node types plan limit) fuel fuel (@PlanNode.ExecReScan _ (distinct_node types plan limit) (distinct_plan types plan limit d child)) = (Ret (limited limit rows), st).
Proof.
  intros Hy Hi Hchild small Hw Hread Hv Hlim Hoff. set (keys := sort_keys types plan) in *.
  assert (Hok : Forall (TuplesortSpec.ok d keys) l) by (rewrite Forall_forall in *; intros x Hx; apply TuplesortSpec.readable_ok; auto).
  pose proof (sort_yields types plan d I l Hy small Hok) as Hsy. rewrite Hoff in Hsy. unfold at_most in Hsy. rewrite (proj2 (Z.ltb_lt _ _) Hlim) in Hsy. cbn [Z.to_nat drop] in Hsy.
  destruct (sorted_rows_spec types plan d l small Hok) as (_ & _ & Hsok & Hsorted & Hperm). set (sorted := sorted_rows types plan d l) in *.
  destruct (distinct_rows_order types plan d l sorted Hv Hw Hread Hsok Hsorted Hperm) as (Hstrict & Hsub & Hcover). set (rows := dedup types (sortColIdx plan) None sorted) in *.
  pose proof (unique_yields types (sortColIdx plan) d _ _ Hsy) as Huy. pose proof (limit_yields limit d _ _ Huy) as Hly.
  destruct (yields_again _ _ _ Hly (distinct_plan types plan limit d child)) as (_ & s' & Hp).
  { split; [|apply make_fits]. split; [|apply make_fits]. split; [apply make_fits|]. split; [done|]. cbn. split; [done|]. split; [done|]. by exists s1. }
  destruct (produces_collect _ _ _ Hp) as (m & Hm). exists rows, m. split_and!; [done|done|done|]. intros fuel Hf. exists s'. by apply Hm.
Qed.

(** ** Examples *)

#[local] Existing Instances TuplesortSpec.insertion_std_sort TuplesortSpec.insertion_sort_laws TuplesortSpec.demo_process.

(** The rows of the example of [TuplesortSpec] twice; descending by the first column. *)
Definition demo_rows : list TupleTableSlot := TuplesortSpec.demo_ins ++ TuplesortSpec.demo_ins.
Definition demo_types : list Z := [Tuplesort.kInt4Oid; Tuplesort.kTextOid].
Definition demo_sort : Sort := mkSortPlan [1; 2] [true; false] [false; true] (-1) 0.

Lemma distinct_query_witness :
  ∃ rows m, StronglySorted (RowOrder.row_lt TuplesortSpec.demo_keys) rows ∧
    (∀ t, t ∈ demo_rows → ∃ r, r ∈ rows ∧ RowOrder.row_same TuplesortSpec.demo_keys r t) ∧
    ∀ fuel, (m ≤ fuel)%nat → ∃ st,
      @collect _ (distinct_node demo_types demo_sort (mkLimit 2 1)) fuel fuel
        (@PlanNode.ExecReScan _ (distinct_node demo_types demo_sort (mkLimit 2 1)) (distinct_plan demo_types demo_sort (mkLimit 2 1) TuplesortSpec.demo_desc (list_node demo_rows))) =
      (Ret (take 2 (drop 1 rows)), st).
Proof.
  assert (Hwf : Forall (wf_slot TuplesortSpec.demo_desc) demo_rows) by (apply Forall_app; split; apply TuplesortSpec.demo_ins_wf).
  assert (Hread : Forall (RowOrder.readable (sort_keys demo_types demo_sort)) demo_rows) by (apply Forall_app; split; apply TuplesortSpec.demo_readable).
  assert (Hfit : Forall (slot_fits TuplesortSpec.demo_desc) demo_rows) by (eapply Forall_impl; [exact Hwf|]; intros s Hw; by apply wf_fits).
  destruct (distinct_query demo_types demo_sort (mkLimit 2 1) TuplesortSpec.demo_desc (λ s, all_tuples s = demo_rows ∧ Forall (slot_fits TuplesortSpec.demo_desc) (rest_tuples s)) demo_rows (list_node demo_rows) (mkList demo_rows [])) as (rows & m & Hs & _ & Hc & Hrun);
    [by apply list_yields|done|apply list_produces|done|exact Hwf|exact Hread|unfold demo_types; rewrite !not_elem_of_cons; split_and!; [done|done|apply not_elem_of_nil]|done|done|].
  by exists rows, m.
Defined.

(** Rows of one column. *)
Definition one_column : TupleDescData := mkTupleDesc [mkAttr (-1) false HeapForm.kInt kExtended].
Definition text_row (c : Z) : TupleTableSlot := mkSlot one_column [DRef (to_le 4 5 ++ [c])] [false].
Definition distinct_rows (ty : Z) (l : list TupleTableSlot) : option (list TupleTableSlot) :=
  let plan := mkSortPlan [1] [false] [false] (-1) 0 in
  returned (@collect _ (distinct_node [ty] plan (mkLimit (-1) 0)) 20 20 (distinct_plan [ty] plan (mkLimit (-1) 0) one_column (list_node l))).1.

(** The sort takes varchars for equal, the unique node does not: SELECT DISTINCT
    of a varchar column returns a value once for each of its groups in the input. *)
Theorem distinct_varchar_repeats :
  distinct_rows kVarcharOid [text_row 97; text_row 98; text_row 97] = Some [text_row 97; text_row 98; text_row 97] ∧
  distinct_rows Tuplesort.kTextOid [text_row 97; text_row 98; text_row 97] = Some [text_row 97; text_row 98].
Proof. by vm_compute. Qed.

(** Neither knows smallint (21), real (700) or numeric (1700): of such a column
    SELECT DISTINCT returns the first row only. *)
Theorem distinct_unlisted_type_returns_one_row ty x l :
  ty ∈ [21; 700; 1700] → Natts x = 1%nat → null_at x 0 = false → Forall (λ y, Natts y = 1%nat ∧ null_at y 0 = false) l → dedup [ty] [1] None (x :: l) = [x].
Proof.
  intros Hty Hx Hn Hl. cbn [dedup duplicate]. f_equal. induction Hl as [|y l [Hy Hyn] _ IH]; [done|]. cbn [dedup]. unfold duplicate at 1.
  assert (CompareTuplesOnAttrs [ty] x y [1] = 0) as ->; [|done]. unfold CompareTuplesOnAttrs. change (1 <? 1) with false. change (Z.to_nat (1 - 1)) with 0%nat. cbv zeta iota. rewrite Hx, Hy, Hn, Hyn.
  repeat (apply elem_of_cons in Hty as [-> |Hty]; [done|]). by apply not_elem_of_nil in Hty.
Qed.

End SortNodeSpec.
