(* ===== verification/MergeJoin.v ===== *)
(** * The merge join

    src/executor/node_mergejoin.cpp: for every outer tuple the inner child is
    started again and read up to the first tuple with equal keys, which is kept in
    a buffer and tested against the join qualification.  The rest of the inner
    tuples is not read: the node joins every outer tuple with at most one inner
    tuple, and so is the join only if the inner keys are unique.

    The children are any plan nodes; the columns of the merge clauses are those of
    expressions of [Expr].  The scan tuple of the expression context is a null
    pointer, which reads like a slot without columns. *)

From stdpp Require Import base list strings.
From S2P Require Import Prelude HeapForm TupleTape Tuplesort TuplestoreSpec HashJoin HashJoinSpec PlanNode NestLoop Expr ExecNodes.

Module MergeJoin.
Import HeapForm TupleTape TuplestoreSpec HashJoin HashJoinSpec PlanNode NestLoop.

(** The columns of the clauses that compare two columns. *)
Definition merge_columns (mergeclauses : list Expr.Node) : list (Z * Z) :=
  omap (λ clause, match clause with Expr.OpExpr _ (Expr.Var _ outer_attno _ :: Expr.Var _ inner_attno _ :: _) => Some (outer_attno, inner_attno) | _ => None end) mergeclauses.

(** [types] are those of the outer columns. *)
Fixpoint TuplesMatch (types : list Z) (clauses : list (Z * Z)) (outer inner : TupleTableSlot) : bool :=
  match clauses with
  | [] => true
  | (outer_attno, inner_attno) :: clauses' =>
      if (outer_attno <? 1) || (inner_attno <? 1) then TuplesMatch types clauses' outer inner
      else
        let oidx := Z.to_nat (outer_attno - 1) in
        let iidx := Z.to_nat (inner_attno - 1) in
        if (Natts outer <=? oidx)%nat || (Natts inner <=? iidx)%nat then TuplesMatch types clauses' outer inner
        else
          let typid := default Tuplesort.kInt4Oid (types !! oidx) in
          let cmp := ExecNodes.CompareDatumValues (value_at outer oidx) (null_at outer oidx) (value_at inner iidx) (null_at inner iidx) typid in
          if cmp =? 0 then TuplesMatch types clauses' outer inner else false
  end.

Record MergeJoinState (S1 S2 : Type) := mkMergeJoin {
  mj_left : S1;
  mj_right : S2;
  mj_OuterTupleSlot : TupleTableSlot;
  mj_InnerTupleSlot : TupleTableSlot;
  mj_NeedNewOuter : bool;
  mj_NeedNewInner : bool;
  mj_MatchedOuter : bool;
  mj_buffer : list TupleTableSlot;
  mj_buffer_index : nat;
  mj_slot : TupleTableSlot }.
Arguments mkMergeJoin {S1 S2}.
Arguments mj_left {S1 S2}.
Arguments mj_right {S1 S2}.
Arguments mj_OuterTupleSlot {S1 S2}.
Arguments mj_InnerTupleSlot {S1 S2}.
Arguments mj_NeedNewOuter {S1 S2}.
Arguments mj_NeedNewInner {S1 S2}.
Arguments mj_MatchedOuter {S1 S2}.
Arguments mj_buffer {S1 S2}.
Arguments mj_buffer_index {S1 S2}.
Arguments mj_slot {S1 S2}.

Section mergejoin.
Context `{Expressions} {S1 S2 : Type} `{PlanNode S1} `{PlanNode S2} (plan : JoinPlan) (types : list Z) (clauses : list (Z * Z)).
Abbreviation State := (MergeJoinState S1 S2).

Definition with_left (s : S1) (st : State) : State :=
  mkMergeJoin s (mj_right st) (mj_OuterTupleSlot st) (mj_InnerTupleSlot st) (mj_NeedNewOuter st) (mj_NeedNewInner st) (mj_MatchedOuter st) (mj_buffer st) (mj_buffer_index st) (mj_slot st).
Definition with_right (s : S2) (st : State) : State :=
  mkMergeJoin (mj_left st) s (mj_OuterTupleSlot st) (mj_InnerTupleSlot st) (mj_NeedNewOuter st) (mj_NeedNewInner st) (mj_MatchedOuter st) (mj_buffer st) (mj_buffer_index st) (mj_slot st).
Definition with_outer_slot (s : TupleTableSlot) (st : State) : State :=
  mkMergeJoin (mj_left st) (mj_right st) s (mj_InnerTupleSlot st) (mj_NeedNewOuter st) (mj_NeedNewInner st) (mj_MatchedOuter st) (mj_buffer st) (mj_buffer_index st) (mj_slot st).
Definition with_inner_slot (s : TupleTableSlot) (st : State) : State :=
  mkMergeJoin (mj_left st) (mj_right st) (mj_OuterTupleSlot st) s (mj_NeedNewOuter st) (mj_NeedNewInner st) (mj_MatchedOuter st) (mj_buffer st) (mj_buffer_index st) (mj_slot st).
Definition with_needs (new_outer new_inner matched : bool) (st : State) : State :=
  mkMergeJoin (mj_left st) (mj_right st) (mj_OuterTupleSlot st) (mj_InnerTupleSlot st) new_outer new_inner matched (mj_buffer st) (mj_buffer_index st) (mj_slot st).
Definition with_buffer (buffer : list TupleTableSlot) (index : nat) (st : State) : State :=
  mkMergeJoin (mj_left st) (mj_right st) (mj_OuterTupleSlot st) (mj_InnerTupleSlot st) (mj_NeedNewOuter st) (mj_NeedNewInner st) (mj_MatchedOuter st) buffer index (mj_slot st).
Definition with_result (s : TupleTableSlot) (st : State) : State :=
  mkMergeJoin (mj_left st) (mj_right st) (mj_OuterTupleSlot st) (mj_InnerTupleSlot st) (mj_NeedNewOuter st) (mj_NeedNewInner st) (mj_MatchedOuter st) (mj_buffer st) (mj_buffer_index st) s.

Definition MergeExecInit (outer_desc inner_desc result_desc : TupleDescData) (l : S1) (r : S2) : State :=
  mkMergeJoin l r (Make outer_desc) (Make inner_desc) true true false [] 0 (Make result_desc).

Definition merge_left (fuel : nat) : M State (option TupleTableSlot) := λ st, let '(o, s) := PlanNode.ExecProcNode fuel (mj_left st) in (o, with_left s st).
Definition merge_right (fuel : nat) : M State (option TupleTableSlot) := λ st, let '(o, s) := PlanNode.ExecProcNode fuel (mj_right st) in (o, with_right s st).

Definition merge_project : M State turn :=
  modify (λ st, with_result (ExecProject (plan_targetlist plan) (join_context (mj_OuterTupleSlot st) (mj_InnerTupleSlot st)) (mj_slot st)) st);;
  gets (λ st, Return (Some (mj_slot st))).

(** A tuple of the buffer against the qualification. *)
Definition try_buffered (buffered_inner : TupleTableSlot) : M State turn :=
  modify (λ st, with_inner_slot (StoreVirtual (tts_values buffered_inner) (tts_isnull buffered_inner) (mj_InnerTupleSlot st)) st);;
  st ← get;
  if ExecQual (plan_qual plan) (join_context (mj_OuterTupleSlot st) (mj_InnerTupleSlot st)) then
    modify (λ st, with_needs (mj_NeedNewOuter st) (mj_NeedNewInner st) true st);; merge_project
  else mret Continue.

(** The inner child up to a tuple with equal keys, which goes into the buffer. *)
Definition find_step (fuel : nat) : M State turn :=
  inner ← merge_right fuel;
  match inner with
  | None => mret (Return None)
  | Some inner =>
      modify (λ st, with_inner_slot (StoreVirtual (tts_values inner) (tts_isnull inner) (mj_InnerTupleSlot st)) st);;
      st ← get;
      if TuplesMatch types clauses (mj_OuterTupleSlot st) (mj_InnerTupleSlot st) then
        modify (λ st, with_buffer (mj_buffer st ++ [ExecNodes.copy_virtual inner]) 0 st);; mret (Return (Some inner))
      else mret Continue
  end.
Definition find_match (fuel : nat) : M State (option TupleTableSlot) := loop find_step fuel fuel.

(** The end of the inner tuples for an outer one. *)
Definition inner_exhausted : M State turn :=
  st ← get;
  match plan_jointype plan, mj_MatchedOuter st with
  | kLeft, false =>
      modify (λ st, with_inner_slot (null_slot (mj_InnerTupleSlot st)) st);;
      modify (λ st, with_needs true (mj_NeedNewInner st) (mj_MatchedOuter st) st);;
      merge_project
  | _, _ => modify (λ st, with_needs true (mj_NeedNewInner st) (mj_MatchedOuter st) st);; mret Continue
  end.

Definition merge_inner (fuel : nat) : M State turn :=
  st ← get;
  match mj_buffer st !! mj_buffer_index st with
  | Some buffered => modify (λ st, with_buffer (mj_buffer st) (S (mj_buffer_index st)) st);; try_buffered buffered
  | None =>
      if mj_NeedNewInner st then
        find_match fuel;;
        modify (λ st, with_needs (mj_NeedNewOuter st) false (mj_MatchedOuter st) st);;
        st ← get;
        match mj_buffer st with
        | [] => inner_exhausted
        | buffered :: _ => modify (λ st, with_buffer (mj_buffer st) 1 st);; try_buffered buffered
        end
      else inner_exhausted
  end.

Definition MergeExecStep (fuel : nat) : M State turn :=
  st ← get;
  if mj_NeedNewOuter st then
    outer ← merge_left fuel;
    match outer with
    | None => mret (Return None)
    | Some outer =>
        modify (λ st, with_outer_slot (StoreVirtual (tts_values outer) (tts_isnull outer) (mj_OuterTupleSlot st)) st);;
        modify (λ st, with_buffer [] 0 (with_needs false true false st));;
        modify (λ st, with_right (PlanNode.ExecReScan (mj_right st)) st);;
        merge_inner fuel
    end
  else merge_inner fuel.

Definition MergeExecReScan (st : State) : State :=
  with_right (PlanNode.ExecReScan (mj_right st)) (with_left (PlanNode.ExecReScan (mj_left st)) (with_needs true true false (with_buffer [] 0 st))).

#[export] Instance MergeJoin_node : PlanNode State := {|
  PlanNode.ExecProcNode fuel := loop MergeExecStep fuel fuel;
  PlanNode.ExecReScan := MergeExecReScan;
|}.
End mergejoin.
End MergeJoin.
