(* ===== verification/MergeJoinSpec.v ===== *)
(** * What the merge join computes

    Every outer tuple with the first inner tuple of equal keys; this is the join
    when no outer tuple has two of them. *)

From stdpp Require Import base list strings.
From S2P Require Import Prelude HeapForm TupleTape Tuplesort TuplestoreSpec HashJoin HashJoinSpec HashJoinTotal PlanNode NestLoop ExecNodes ExecNodesSpec MergeJoin.

Module MergeJoinSpec.
Import HeapForm TupleTape TuplestoreSpec HashJoin HashJoinSpec PlanNode MergeJoin.

Section mergejoin.
Context `{Expressions} {S1 S2 : Type} `{PlanNode S1} `{PlanNode S2} (plan : NestLoop.JoinPlan) (types : list Z) (clauses : list (Z * Z)).
Abbreviation State := (MergeJoinState S1 S2).
Abbreviation step := (MergeExecStep plan types clauses).
#[local] Instance merge_node : PlanNode State := MergeJoin_node plan types clauses.

Context (d_o d_i d_r : TupleDescData).
Hypothesis columns : length (attrs d_r) = length (NestLoop.plan_targetlist plan).
Abbreviation row := (NestLoop.row plan d_r).
Abbreviation passes := (NestLoop.passes plan).
Abbreviation matches := (TuplesMatch types clauses).

(** The rows for an outer tuple. *)
Definition padded (o : TupleTableSlot) : list TupleTableSlot := match NestLoop.plan_jointype plan with kLeft => [row o (Make d_i)] | _ => [] end.
Definition first_match (o : TupleTableSlot) (inners : list TupleTableSlot) : option TupleTableSlot := head (filter (λ i, matches o i = true) inners).
Definition merge_outer (o : TupleTableSlot) (inners : list TupleTableSlot) : list TupleTableSlot :=
  match first_match o inners with Some i => if passes o i then [row o i] else padded o | None => padded o end.
Definition merge_rows (outers inners : list TupleTableSlot) : list TupleTableSlot := outers ≫= λ o, merge_outer o inners.

(** If an outer tuple has at most one inner tuple of equal keys the rows are those
    of a join on equal keys that qualify. *)
Lemma merge_rows_join outers inners :
  (∀ o, o ∈ outers → (length (filter (λ i, matches o i = true) inners) ≤ 1)%nat) →
  merge_rows outers inners = outers ≫= λ o, NestLoop.outer_rows plan d_i d_r o (filter (λ i, matches o i && passes o i = true) inners).
Proof.
  intros Hone. unfold merge_rows. induction outers as [|o outers IH]; [done|]. rewrite !bind_cons, IH by (intros x Hx; apply Hone; by right). f_equal. specialize (Hone o ltac:(by left)). clear IH.
  unfold merge_outer, first_match. assert (Hpad : padded o = NestLoop.outer_rows plan d_i d_r o []) by (unfold padded, NestLoop.outer_rows; by destruct (NestLoop.plan_jointype plan)).
  assert (filter (λ i, matches o i && passes o i = true) inners = filter (λ i, passes o i = true) (filter (λ i, matches o i = true) inners)) as ->.
  { rewrite list_filter_filter. apply list_filter_iff. intros i. rewrite andb_true_iff. tauto. }
  destruct (filter (λ i, matches o i = true) inners) as [|i [|j l]]; [done| |cbn in Hone; lia]. cbn [head]. rewrite filter_cons. destruct (passes o i) eqn:E.
  - rewrite decide_True by done. unfold NestLoop.outer_rows. by destruct (NestLoop.plan_jointype plan).
  - by rewrite decide_False.
Qed.

Lemma merge_project_run (st : State) : slot_fits d_r (mj_slot st) →
  merge_project plan st = (Ret (Return (Some (row (mj_OuterTupleSlot st) (mj_InnerTupleSlot st)))), with_result (row (mj_OuterTupleSlot st) (mj_InnerTupleSlot st)) st).
Proof.
  intros Hr. unfold merge_project. rewrite (bind_ret_run (modify _) _ st tt (with_result (row (mj_OuterTupleSlot st) (mj_InnerTupleSlot st)) st)) by (unfold modify; by rewrite (NestLoop.project_slot plan d_r columns)). done.
Qed.

Section yields.
Context (I1 : S1 → Prop) (I2 : S2 → Prop) (outers inners : list TupleTableSlot).
Context (left_yields : Yields d_o I1 outers) (right_yields : Yields d_i I2 inners).

Definition merge_inv (st : State) : Prop :=
  I1 (mj_left st) ∧ I2 (mj_right st) ∧ slot_fits d_o (mj_OuterTupleSlot st) ∧ slot_fits d_i (mj_InnerTupleSlot st) ∧ slot_fits d_r (mj_slot st).

Lemma merge_intro (st : State) : I1 (mj_left st) → I2 (mj_right st) → slot_fits d_o (mj_OuterTupleSlot st) → slot_fits d_i (mj_InnerTupleSlot st) → slot_fits d_r (mj_slot st) → merge_inv st.
Proof. by intros. Qed.

Lemma modify_settles (g : State → State) : (∀ st, merge_inv st → merge_inv (g st)) → settles merge_inv (λ _, modify g) (λ _, True).
Proof. intros Hg. by apply settles_modify. Qed.

Lemma merge_project_settles : settles merge_inv (λ _, merge_project plan) (turn_gives (option_fits d_r)).
Proof.
  intros f st t st' (H1' & H2' & F1 & F2 & F3) Hp. rewrite merge_project_run in Hp by done. injection Hp as <- <-. split; [|split; [by apply NestLoop.nested_row_fits|]].
  - apply merge_intro; try done. by apply NestLoop.nested_row_fits.
  - intros _ _. by rewrite merge_project_run.
Qed.

Lemma store_inner_inv values isnull (st : State) : merge_inv st → merge_inv (with_inner_slot (StoreVirtual values isnull (mj_InnerTupleSlot st)) st).
Proof. intros (H1' & H2' & F1 & F2 & F3). apply merge_intro; try done. by apply NestLoop.store_fits, F2. Qed.

Lemma try_settles t : settles merge_inv (λ _, try_buffered plan t) (turn_gives (option_fits d_r)).
Proof.
  unfold try_buffered. eapply settles_bind; [apply modify_settles; intros st Hi; by apply store_inner_inv|]. intros _ _. eapply settles_bind; [apply settles_get|]. intros st _.
  destruct (ExecQual _ _); [|by apply settles_ret]. eapply settles_bind; [by apply modify_settles|]. intros _ _. apply merge_project_settles.
Qed.

Lemma exhausted_settles : settles merge_inv (λ _, inner_exhausted plan) (turn_gives (option_fits d_r)).
Proof.
  unfold inner_exhausted. eapply settles_bind; [apply settles_get|]. intros st _.
  assert (Hend : settles merge_inv (λ _, modify (λ st, with_needs true (mj_NeedNewInner st) (mj_MatchedOuter st) st);; mret Continue) (turn_gives (option_fits d_r))).
  { eapply settles_bind; [by apply modify_settles|]. intros _ _. by apply settles_ret. }
  destruct (NestLoop.plan_jointype plan), (mj_MatchedOuter st); try exact Hend.
  eapply settles_bind; [apply modify_settles; intros s (H1' & H2' & F1 & F2 & F3); apply merge_intro; try done; by apply NestLoop.null_slot_fits|]. intros _ _.
  eapply settles_bind; [by apply modify_settles|]. intros _ _. apply merge_project_settles.
Qed.

Lemma merge_right_settles : settles merge_inv merge_right (option_fits d_i).
Proof. apply (settles_lift merge_inv I2 mj_right with_right PlanNode.ExecProcNode); [by intros st (_ & H2' & _)|by intros s st (? & _ & ?) Hs|apply (yields_step _ _ _ right_yields)]. Qed.
Lemma merge_left_settles : settles merge_inv merge_left (option_fits d_o).
Proof. apply (settles_lift merge_inv I1 mj_left with_left PlanNode.ExecProcNode); [by intros st (H1' & _)|by intros s st (_ & ? & ?) Hs|apply (yields_step _ _ _ left_yields)]. Qed.

Lemma find_settles : settles merge_inv (find_match types clauses) (λ _, True).
Proof.
  eapply settles_weaken; [apply (loop_settles _ _ (λ _, True))|done]. unfold find_step. eapply settles_bind; [apply merge_right_settles|]. intros [i|] Hi; [|by apply settles_ret].
  eapply settles_bind; [apply modify_settles; intros st Hst; by apply store_inner_inv|]. intros _ _. eapply settles_bind; [apply settles_get|]. intros st _.
  destruct (TuplesMatch _ _ _ _); [|by apply settles_ret]. eapply settles_bind; [by apply modify_settles|]. intros _ _. by apply settles_ret.
Qed.

Lemma merge_inner_settles : settles merge_inv (merge_inner plan types clauses) (turn_gives (option_fits d_r)).
Proof.
  unfold merge_inner. eapply settles_bind; [apply settles_get|]. intros st _. destruct (mj_buffer st !! mj_buffer_index st).
  { eapply settles_bind; [by apply modify_settles|]. intros _ _. apply try_settles. }
  destruct (mj_NeedNewInner st); [|apply exhausted_settles]. eapply settles_bind; [apply find_settles|]. intros _ _. eapply settles_bind; [by apply modify_settles|]. intros _ _.
  eapply settles_bind; [apply settles_get|]. intros st1 _. destruct (mj_buffer st1); [apply exhausted_settles|]. eapply settles_bind; [by apply modify_settles|]. intros _ _. apply try_settles.
Qed.

Lemma merge_step_settles : settles merge_inv step (turn_gives (option_fits d_r)).
Proof.
  unfold MergeExecStep. eapply settles_bind; [apply settles_get|]. intros st _. destruct (mj_NeedNewOuter st); [|apply merge_inner_settles].
  eapply settles_bind; [apply merge_left_settles|]. intros [o|] Ho; [|by apply settles_ret].
  eapply settles_bind; [apply modify_settles; intros s (H1' & H2' & F1 & F2 & F3); apply merge_intro; try done; by apply NestLoop.store_fits, F1|]. intros _ _.
  eapply settles_bind; [by apply modify_settles|]. intros _ _.
  eapply settles_bind; [apply modify_settles; intros s (H1' & H2' & F); split; [done|]; split; [by apply (yields_again _ _ _ right_yields)|done]|]. intros _ _. apply merge_inner_settles.
Qed.

Definition merge_fit (st : State) : Prop := slot_fits d_o (mj_OuterTupleSlot st) ∧ slot_fits d_i (mj_InnerTupleSlot st) ∧ slot_fits d_r (mj_slot st).

(** Done with an outer tuple. *)
Definition over (s1 : S1) (st : State) : Prop := merge_fit st ∧ mj_NeedNewOuter st = true ∧ mj_left st = s1 ∧ I2 (mj_right st).

(** When the inner tuples are at an end. *)
Lemma exhausted_leads (st st3 : State) : (∃ n, ∀ f, (n ≤ f)%nat → step f st = inner_exhausted plan st3) → merge_fit st3 → I2 (mj_right st3) →
  ∃ st', leads step st (if mj_MatchedOuter st3 then [] else padded (mj_OuterTupleSlot st3)) st' ∧ over (mj_left st3) st'.
Proof.
  intros (n & Hn) (F1 & F2 & F3) Hi. assert (Hgo : inner_exhausted plan st3 = (Ret Continue, with_needs true (mj_NeedNewInner st3) (mj_MatchedOuter st3) st3) → ∃ st', leads step st [] st' ∧ over (mj_left st3) st').
  { intros E. eexists. split; [eapply leads_go; [|apply leads_here]; exists n; intros f Hf; rewrite (Hn f Hf); exact E|]. by split_and!. }
  unfold padded. destruct (decide (NestLoop.plan_jointype plan = kLeft ∧ mj_MatchedOuter st3 = false)) as [[E1 E2]|Hne].
  - rewrite E1, E2. set (st4 := with_needs true (mj_NeedNewInner st3) (mj_MatchedOuter st3) (with_inner_slot (Make d_i) st3)).
    exists (with_result (row (mj_OuterTupleSlot st3) (Make d_i)) st4). split.
    + eapply leads_row; [|apply leads_here]. exists n. intros f Hf. rewrite (Hn f Hf). unfold inner_exhausted. rewrite (bind_ret_run get _ st3 st3 st3) by done. rewrite E1, E2.
      rewrite (bind_ret_run (modify _) _ st3 tt (with_inner_slot (Make d_i) st3)) by (unfold modify; by rewrite (null_slot_make d_i)). rewrite (bind_ret_run (modify _) _ _ tt st4) by done.
      by rewrite merge_project_run.
    + split; [|done]. split; [done|]. split; [apply make_fits|by apply NestLoop.nested_row_fits].
  - assert (E : (if mj_MatchedOuter st3 then [] else match NestLoop.plan_jointype plan with kLeft => [row (mj_OuterTupleSlot st3) (Make d_i)] | _ => [] end) = []).
    { destruct (mj_MatchedOuter st3); [done|]. destruct (NestLoop.plan_jointype plan); done || by destruct Hne. }
    rewrite E. apply Hgo. unfold inner_exhausted. rewrite (bind_ret_run get _ st3 st3 st3) by done. destruct (NestLoop.plan_jointype plan), (mj_MatchedOuter st3) eqn:Em; done || (by destruct Hne) || (unfold mbind, M_bind, modify; by rewrite Em).
Qed.

(** The search for an inner tuple of equal keys. *)
Lemma find_run ins : ∀ (st : State) s2, slot_fits d_i (mj_InnerTupleSlot st) → I2 (mj_right st) → produces (mj_right st) ins s2 → Forall (slot_fits d_i) ins →
  ∃ r slot o, I2 r ∧ slot_fits d_i slot ∧ ends (find_step types clauses) st o
    (let st' := with_right r (with_inner_slot slot st) in match first_match (mj_OuterTupleSlot st) ins with None => st' | Some i => with_buffer (mj_buffer st ++ [i]) 0 st' end).
Proof.
  induction ins as [|i ins IH]; intros st s2 Hs Hi Hp Hfit; inversion Hp as [? ? (n & Hn)|? ? s1 ? ? (n & Hn) Hp']; subst.
  - exists s2, (mj_InnerTupleSlot st), None. split; [by apply (returns_fits d_i I2 inners (mj_right st) None s2 right_yields Hi); exists n|]. split; [done|]. apply ends_now. exists n. intros f Hf.
    unfold find_step, merge_right. unfold mbind, M_bind. rewrite (Hn f Hf). by destruct st.
  - apply Forall_cons in Hfit as [Hfi Hfit]. assert (Hi1 : I2 s1) by (apply (returns_fits d_i I2 inners (mj_right st) (Some i) s1 right_yields Hi); by exists n).
    set (st1 := with_right s1 (with_inner_slot i st)).
    assert (Hstep : ∀ f, (n ≤ f)%nat → find_step types clauses f st =
      (if matches (mj_OuterTupleSlot st) i then modify (λ st, with_buffer (mj_buffer st ++ [ExecNodes.copy_virtual i]) 0 st);; mret (Return (Some i)) else mret Continue) st1).
    { intros f Hf. unfold find_step. rewrite (bind_ret_run _ _ st (Some i) (with_right s1 st)) by (unfold merge_right; by rewrite (Hn f Hf)).
      rewrite (bind_ret_run (modify _) _ (with_right s1 st) tt st1) by (unfold modify; by rewrite (store_virtual_same d_i)). by rewrite (bind_ret_run get _ st1 st1 st1). }
    unfold first_match. rewrite filter_cons. destruct (matches (mj_OuterTupleSlot st) i) eqn:E.
    + rewrite decide_True by done. exists s1, i, (Some i). split; [done|]. split; [done|]. apply ends_now. exists n. intros f Hf. rewrite (Hstep f Hf). unfold mbind, M_bind, modify. by rewrite (ExecNodesSpec.copy_virtual_fits d_i).
    + rewrite decide_False by done. destruct (IH st1 s2 Hfi Hi1 Hp' Hfit) as (r & slot & o & Hr & Hslot & Hends). exists r, slot, o. split; [done|]. split; [done|].
      eapply ends_later; [exists n; intros f Hf; rewrite (Hstep f Hf); done|exact Hends].
Qed.

(** The rows for an outer tuple: [st] has just taken it. *)
Lemma merge_outer_run (st : State) s2 : merge_fit st → mj_NeedNewOuter st = false → mj_NeedNewInner st = true → mj_MatchedOuter st = false → mj_buffer st = [] → I2 (mj_right st) → produces (mj_right st) inners s2 →
  ∃ st', leads step st (merge_outer (mj_OuterTupleSlot st) inners) st' ∧ over (mj_left st) st'.
Proof.
  intros (F1 & F2 & F3) Hno Hni Hm Hb Hi Hp. destruct (find_run inners st s2 F2 Hi Hp) as (r & slot & o & Hr & Hslot & n & Hn); [by eapply (produces_fits d_i I2 inners)|].
  set (st2 := let st' := with_right r (with_inner_slot slot st) in match first_match (mj_OuterTupleSlot st) inners with None => st' | Some i => with_buffer (mj_buffer st ++ [i]) 0 st' end) in Hn.
  set (st3 := with_needs false false false st2).
  assert (Hstep : ∀ f, (n ≤ f)%nat → step f st = match mj_buffer st3 with [] => inner_exhausted plan st3 | b :: _ => (modify (λ st, with_buffer (mj_buffer st) 1 st);; try_buffered plan b) st3 end).
  { intros f Hf. unfold MergeExecStep. rewrite (bind_ret_run get _ st st st) by done. rewrite Hno. unfold merge_inner. rewrite (bind_ret_run get _ st st st) by done. rewrite Hb, lookup_nil, Hni.
    rewrite (bind_ret_run (find_match types clauses f) _ st o st2) by (by apply Hn).
    rewrite (bind_ret_run (modify _) _ st2 tt st3) by (unfold modify, st3, st2; cbn; destruct (first_match _ _); cbn; by rewrite Hno, Hm).
    rewrite (bind_ret_run get _ st3 st3 st3) by done. by destruct (mj_buffer st3). }
  unfold merge_outer. destruct (first_match (mj_OuterTupleSlot st) inners) as [i|] eqn:E.
  - assert (Hfi : slot_fits d_i i). { unfold first_match in E. apply head_Some_elem_of in E. apply list_elem_of_filter in E as [_ E]. pose proof (produces_fits d_i I2 inners _ _ _ right_yields Hi Hp) as [Hf _]. by eapply Forall_forall in Hf. }
    assert (Hbuf : mj_buffer st3 = [i]) by (unfold st3, st2; cbn; by rewrite Hb). rewrite Hbuf in Hstep. set (st4 := with_inner_slot i (with_buffer [i] 1 st3)).
    assert (Hstep2 : ∀ f, (n ≤ f)%nat → step f st = (if passes (mj_OuterTupleSlot st) i then modify (λ st, with_needs (mj_NeedNewOuter st) (mj_NeedNewInner st) true st);; merge_project plan else mret Continue) st4).
    { intros f Hf. rewrite (Hstep f Hf). rewrite (bind_ret_run (modify _) _ st3 tt (with_buffer [i] 1 st3)) by (unfold modify; by rewrite Hbuf). unfold try_buffered.
      rewrite (bind_ret_run (modify _) _ _ tt st4) by (unfold modify, st4; by rewrite (store_virtual_same d_i)). by rewrite (bind_ret_run get _ st4 st4 st4). }
    destruct (passes (mj_OuterTupleSlot st) i).
    + set (st5 := with_result (row (mj_OuterTupleSlot st) i) (with_needs false false true st4)).
      destruct (exhausted_leads st5 st5) as (st' & Hl & Ho); [by exists 0%nat|split; [done|]; split; [done|by apply NestLoop.nested_row_fits]|done|].
      exists st'. split; [|exact Ho]. eapply leads_row; [|exact Hl]. exists n. intros f Hf. rewrite (Hstep2 f Hf). rewrite (bind_ret_run (modify _) _ st4 tt (with_needs false false true st4)) by done. by rewrite merge_project_run.
    + destruct (exhausted_leads st4 st4) as (st' & Hl & Ho); [by exists 0%nat|by split_and!|done|]. exists st'. split; [|exact Ho]. eapply leads_go; [|exact Hl]. exists n. intros f Hf. by rewrite (Hstep2 f Hf).
  - destruct (exhausted_leads st st3) as (st' & Hl & Ho).
    + exists n. intros f Hf. rewrite (Hstep f Hf). by assert (mj_buffer st3 = []) as -> by (unfold st3, st2; cbn; exact Hb).
    + by split.
    + done.
    + by exists st'.
Qed.

Lemma merge_outers_run os : ∀ (st : State) s1, merge_fit st → mj_NeedNewOuter st = true → I2 (mj_right st) → produces (mj_left st) os s1 → Forall (slot_fits d_o) os →
  ∃ st', runs step st (merge_rows os inners) st'.
Proof.
  induction os as [|o os IH]; intros st s1 (F1 & F2 & F3) Hno Hi2 Hp Hfit.
  - inversion Hp as [? ? (n & Hret)|]; subst. exists (with_left s1 st). apply runs_end. exists n. intros f Hf. unfold MergeExecStep. rewrite (bind_ret_run get _ st st st) by done. rewrite Hno.
    by rewrite (bind_ret_run _ _ st None (with_left s1 st)) by (unfold merge_left; by rewrite (Hret f Hf)).
  - inversion Hp as [|? ? sl ? ? (n & Hret) Hp']; subst. apply Forall_cons in Hfit as [Ho Hfit]. destruct (yields_again _ _ _ right_yields _ Hi2) as (Hi2' & s2 & Hp2).
    set (sta := with_outer_slot o (with_left sl st)). set (stb := with_buffer [] 0 (with_needs false true false sta)). set (st1 := with_right (PlanNode.ExecReScan (mj_right st)) stb).
    assert (Hlike : ∀ f, (n ≤ f)%nat → step f st = step f st1).
    { intros f Hf. unfold MergeExecStep at 1. rewrite (bind_ret_run get _ st st st) by done. rewrite Hno. rewrite (bind_ret_run _ _ st (Some o) (with_left sl st)) by (unfold merge_left; by rewrite (Hret f Hf)).
      rewrite (bind_ret_run (modify _) _ (with_left sl st) tt sta) by (unfold modify; by rewrite (store_virtual_same d_o)). rewrite (bind_ret_run (modify _) _ sta tt stb) by done.
      rewrite (bind_ret_run (modify _) _ stb tt st1) by done. unfold MergeExecStep. by rewrite (bind_ret_run get _ st1 st1 st1). }
    destruct (merge_outer_run st1 s2) as (st2 & Hl & Hfit2 & Hno2 & Hl2 & Hi22); try done. destruct (IH st2 s1 Hfit2 Hno2 Hi22) as (st' & Hr); [by rewrite Hl2|done|].
    exists st'. eapply runs_like; [by exists n|]. unfold merge_rows. rewrite bind_cons. by eapply leads_runs.
Qed.

(** A merge join over children that return the same tuples each time they are
    started is such a node itself; whether they are sorted makes no difference. *)
Lemma mergejoin_yields : Yields d_r merge_inv (merge_rows outers inners).
Proof.
  split; [by apply loop_settles, merge_step_settles|]. intros st (H1' & H2' & F). destruct (yields_again _ _ _ left_yields _ H1') as (G1 & s1 & Hp). destruct (yields_again _ _ _ right_yields _ H2') as (G2 & _).
  split; [done|]. destruct (merge_outers_run outers (MergeExecReScan st) s1 F eq_refl G2 Hp) as (st' & Hr); [by eapply (produces_fits d_o I1 outers)|]. exists st'. by apply (runs_produces step).
Qed.
End yields.
End mergejoin.

(** ** What differs from a join *)

(** An outer tuple with two inner tuples of equal keys gives one row, where the
    nested loop on the same clause gives two: node_mergejoin.cpp stops reading the
    inner child at the first match. *)
Theorem merge_loses_duplicates `{Expressions} (tl : list HashJoin.Node) (d_i d_r : TupleDescData) types clauses o i n : (2 ≤ n)%nat → TuplesMatch types clauses o i = true →
  let plan := NestLoop.mkJoinPlan _ kInner None tl in
  length (merge_rows plan types clauses d_i d_r [o] (replicate n i)) = 1%nat ∧
  length ([o] ≫= λ o, NestLoop.outer_rows plan d_i d_r o (filter (λ i, TuplesMatch types clauses o i = true) (replicate n i))) = n.
Proof.
  intros Hn Hm plan.
  assert (E : filter (λ i, TuplesMatch types clauses o i = true) (replicate n i) = replicate n i)
    by (clear Hn; induction n as [|n IH]; [done|]; cbn [replicate]; rewrite filter_cons, decide_True by done; by rewrite IH).
  split.
  - unfold merge_rows, merge_outer, first_match. rewrite bind_cons, E. destruct n as [|n]; [lia|]. done.
  - rewrite bind_cons, E. cbn. by rewrite app_nil_r, length_fmap, length_replicate.
Qed.

(** Two null keys match, where an equality of nulls is not true. *)
Theorem merge_matches_nulls (types : list Z) a b (o i : TupleTableSlot) : 1 ≤ a ≤ Z.of_nat (Natts o) → 1 ≤ b ≤ Z.of_nat (Natts i) → null_at o (Z.to_nat (a - 1)) = true → null_at i (Z.to_nat (b - 1)) = true →
  TuplesMatch types [(a, b)] o i = true ∧ HashJoinTotal.equal_columns a b o i = false.
Proof.
  intros Ha Hb Ho Hi. split.
  - cbn [TuplesMatch]. destruct (_ || _); [done|]. destruct (_ || _); [done|]. rewrite Ho, Hi. done.
  - unfold HashJoinTotal.equal_columns, GetSlotAttr. rewrite Ho, Hi. by destruct (_ || _), (_ || _).
Qed.
End MergeJoinSpec.
