(* ===== verification/JoinsAgree.v ===== *)
(** * Hash joins and nested loops agree

    The expressions of exec_expr.cpp are expressions of the joins.  An equality of
    two integer columns, evaluated for every pair by a nested loop or used as the
    clause of a hash join, gives the same rows. *)

From stdpp Require Import base list strings.
From S2P Require Import Prelude HeapForm TupleTape Tuplesort TuplestoreSpec HashJoin HashJoinSpec HashJoinBuild HashJoinRun HashJoinTotal PlanNode NestLoop TextFuncs Expr ExprSpec.

Module JoinsAgree.
Import HeapForm TupleTape TuplestoreSpec.

Section agree.
Context `{Expr.Libm} `{Expr.Addresses} `{TextFuncs.StdRegex} (env : Expr.Env).

(** Expressions whose evaluation raises no error, whatever the tuples; the others
    end the query.  The joins evaluate these. *)
Definition TotalNode : Type := { e : Expr.Node | ∀ ec, ∃ v, Expr.ExecEvalExpr env ec e = Ret v }.

Definition value_of {A : Type} (r : outcome A) : (∃ v, r = Ret v) → A :=
  match r with
  | Ret v => λ _, v
  | Ereport m => λ Hr, False_rect A (match Hr with ex_intro _ v E => eq_ind (Ereport m) (λ r, match r with Ret _ => False | Ereport _ => True end) I (Ret v) E end)
  end.

#[local] Instance evaluator : HashJoin.Expressions := {|
  HashJoin.Node := TotalNode;
  HashJoin.ExecEvalExpr e ec := value_of (Expr.ExecEvalExpr env ec (`e)) (proj2_sig e ec);
  HashJoin.VarType e := match `e with Expr.Var _ _ vartype => Some vartype | _ => None end;
|}.

Lemma evaluator_exact (e : TotalNode) ec : Expr.ExecEvalExpr env ec (`e) = Ret (@HashJoin.ExecEvalExpr evaluator e ec).
Proof. destruct e as [e He]. cbn. destruct (He ec) as (v & E). generalize (He ec). rewrite E. by intros. Qed.

Lemma columns_raise_nothing varno attno ty : ∀ ec, ∃ v, Expr.ExecEvalExpr env ec (Expr.Var varno attno ty) = Ret v.
Proof. intros ec. by eexists. Qed.
Definition column (varno attno ty : Z) : TotalNode := exist _ (Expr.Var varno attno ty) (columns_raise_nothing varno attno ty).

Context (jt : HashJoin.JoinType) (opno a b : Z) (clause : TotalNode) (tl : list TotalNode) (d_o d_i d_r : TupleDescData).

(** A column of the scan tuple, as hash keys have them. *)
Definition scan_column (attno : Z) : TotalNode := column 1 attno Tuplesort.kInt4Oid.
Definition hash_plan : HashJoin.HashJoin := HashJoin.mkPlan _ jt [(scan_column a, scan_column b)] None tl.
Definition nested_plan : NestLoop.JoinPlan := NestLoop.mkJoinPlan _ jt (Some (clause : HashJoin.Node)) tl.

(** The clause compares a column of each side. *)
Definition compares_columns : Prop := `clause = Expr.OpExpr opno [Expr.Var Expr.kOuterVar a Tuplesort.kInt4Oid; Expr.Var Expr.kInnerVar b Tuplesort.kInt4Oid].

Definition of_join (varno : Z) : bool := (varno =? Expr.kInnerVar) || (varno =? Expr.kOuterVar).

Hypothesis columns : length (attrs d_r) = length tl.
Hypothesis local : Forall (λ e, ExprSpec.mentions of_join (`e) = true) tl.

Lemma join_expression (e : TotalNode) o i s s' : ExprSpec.mentions of_join (`e) = true →
  @HashJoin.ExecEvalExpr evaluator e (HashJoin.mkContext o i s) = @HashJoin.ExecEvalExpr evaluator e (HashJoin.mkContext o i s').
Proof.
  intros He. assert (E : Expr.ExecEvalExpr env (HashJoin.mkContext o i s) (`e) = Expr.ExecEvalExpr env (HashJoin.mkContext o i s') (`e)); [|rewrite !evaluator_exact in E; by injection E].
  apply (ExprSpec.eval_local env of_join); [|done].
  intros n. unfold of_join, ExprSpec.slot_for. destruct (n =? Expr.kInnerVar), (n =? Expr.kOuterVar); done.
Qed.

Lemma same_rows o i : HashJoinSpec.row hash_plan d_r o i = NestLoop.row nested_plan d_r o i.
Proof.
  unfold HashJoinSpec.row, NestLoop.row, NestLoop.join_context, HashJoin.ExecProject. cbn [HashJoin.targetlist NestLoop.plan_targetlist hash_plan nested_plan].
  assert (E : ∀ n, (λ e : TotalNode, @HashJoin.ExecEvalExpr evaluator e (HashJoin.mkContext o i o)) <$> take n tl = (λ e : TotalNode, @HashJoin.ExecEvalExpr evaluator e (HashJoin.mkContext o i NestLoop.no_slot)) <$> take n tl).
  { intros n. apply list_fmap_ext. intros k e He. apply join_expression. rewrite Forall_lookup in local. apply lookup_take_Some in He as [He _]. by eapply local. }
  by rewrite E.
Qed.

Lemma hash_plan_ok : jt ≠ HashJoin.kSemi → HashJoinSpec.plan_ok hash_plan d_r.
Proof.
  intros Hjt. split; [| |done|done].
  - intros key o i i' Hk. cbn in Hk. apply list_elem_of_singleton in Hk as ->. done.
  - intros key o o' i i' s Hk. cbn in Hk. apply list_elem_of_singleton in Hk as ->. done.
Qed.

Lemma clause_hashes o i : HashJoinSpec.pairs hash_plan d_o d_i o i = HashJoinTotal.equal_columns a b o i.
Proof.
  unfold HashJoinSpec.pairs. cbn [HashJoinSpec.passes HashJoin.qual hash_plan]. unfold HashJoinSpec.passes. cbn. rewrite andb_true_r.
  unfold HashJoinSpec.same_hash, HashJoinSpec.outer_hash, HashJoinSpec.inner_hash, HashJoinTotal.equal_columns. cbn. unfold HashJoin.build_hash. cbn. unfold Expr.GetSlotAttr.
  destruct (HashJoin.GetSlotAttr o a) as [v []], (HashJoin.GetSlotAttr i b) as [w []]; cbn [negb andb].
  - by apply bool_decide_eq_false_2.
  - by apply bool_decide_eq_false_2.
  - apply bool_decide_eq_false_2. intros Hz. by apply (HashJoinTotal.int_hash_positive v); injection Hz.
  - destruct (_ =? _) eqn:E; to_prop.
    + apply bool_decide_eq_true_2. unfold HashJoin.HashDatum, HashJoin.GetExprType. cbn. by rewrite E.
    + apply bool_decide_eq_false_2. intros [=]. by apply E, HashJoinTotal.int_hash_inj.
Qed.

(** The integer equality of the catalog. *)
Hypothesis clause_columns : compares_columns.
Hypothesis int_equality : ∃ row, Expr.GetOperatorByOid env opno = Some row ∧ Expr.oprname row = "="%string ∧ Expr.oprleft row = Tuplesort.kInt4Oid.

Lemma clause_compares o i : NestLoop.passes nested_plan o i = HashJoinTotal.equal_columns a b o i.
Proof.
  destruct int_equality as (row & Hrow & Hname & Hleft). unfold NestLoop.passes, NestLoop.join_context, HashJoinTotal.equal_columns, HashJoin.ExecQual. cbn [NestLoop.plan_qual nested_plan].
  pose proof (evaluator_exact clause (HashJoin.mkContext o i NestLoop.no_slot)) as He. destruct (@HashJoin.ExecEvalExpr evaluator clause _) as [r rn]. rewrite clause_columns in He. revert He. cbn. unfold Expr.GetSlotAttr.
  destruct (HashJoin.GetSlotAttr o a) as [v vn], (HashJoin.GetSlotAttr i b) as [w wn]. rewrite Hrow. unfold Expr.CallOperator. rewrite Hname, Hleft. cbn.
  destruct vn, wn; cbn; try (by intros [= <- <-]). unfold Expr.ApplyComparison. cbn. unfold Expr.compare_integers, Expr.by_name. cbn. intros [= <- <-]. by destruct (_ =? _).
Qed.

Lemma same_join outers inners : jt = HashJoin.kInner ∨ jt = HashJoin.kLeft →
  HashJoinSpec.join_rows hash_plan d_o d_i d_r (HashJoinSpec.pairs hash_plan d_o d_i) outers inners = NestLoop.nested_rows nested_plan d_i d_r outers inners.
Proof.
  intros Hjt. unfold HashJoinSpec.join_rows, NestLoop.nested_rows. assert (HashJoinSpec.keeps_inner hash_plan = false) as -> by (unfold HashJoinSpec.keeps_inner; cbn; by destruct Hjt as [E|E]; rewrite E). rewrite app_nil_r.
  assert (Hrows : ∀ o l, HashJoinSpec.rows_with hash_plan d_i d_r o l = NestLoop.outer_rows nested_plan d_i d_r o l).
  { intros o l. assert (Hf : HashJoinSpec.row hash_plan d_r o <$> l = NestLoop.row nested_plan d_r o <$> l) by (apply list_fmap_ext; intros k x _; apply same_rows).
    unfold HashJoinSpec.rows_with, NestLoop.outer_rows, HashJoinSpec.outer_row. cbn [HashJoin.jointype hash_plan NestLoop.plan_jointype nested_plan]. destruct Hjt as [E|E]; rewrite E; [by destruct l|].
    destruct l; [by rewrite same_rows|exact Hf]. }
  induction outers as [|o outers IH]; [done|]. rewrite !bind_cons, IH, Hrows. f_equal. f_equal. apply list_filter_iff. intros i. by rewrite clause_hashes, clause_compares.
Qed.
End agree.

(** Such a clause exists: an equality of integers raises no error. *)
Lemma equality_raises_nothing `{Expr.Libm} `{Expr.Addresses} `{TextFuncs.StdRegex} env opno x y v w :
  (∃ row, Expr.GetOperatorByOid env opno = Some row ∧ Expr.oprname row = "="%string ∧ Expr.oprleft row = Tuplesort.kInt4Oid) →
  ∀ ec, ∃ r, Expr.ExecEvalExpr env ec (Expr.OpExpr opno [Expr.Var v x Tuplesort.kInt4Oid; Expr.Var w y Tuplesort.kInt4Oid]) = Ret r.
Proof.
  intros (row & Hrow & Hname & Hleft) ec. cbn. rewrite Hrow. unfold Expr.CallOperator. rewrite Hname, Hleft. cbn.
  repeat match goal with |- context [if ?c then _ else _] => destruct c; cbn end; by eexists.
Qed.

(** C6: the join algorithms agree.  For every target list of expressions whose
    evaluation raises no error, and an equality of an integer column of each side that
    is the clause of the hash join and the qualification of the nested loop: the inner
    and the left join of the tuples of two plans by either algorithm end and return
    the same rows up to order, for every limit on the hash join's memory. *)
Theorem joins_agree `{Expr.Libm} `{Expr.Addresses} `{TextFuncs.StdRegex} `{HashJoin.StdMultimap} `{!HashJoinBuild.MultimapLaws} `{HashJoin.Heap} `{Tuplesort.Process}
    {S1 S2 : Type} `{PlanNode.PlanNode S1} `{PlanNode.PlanNode S2} env jt opno a b (clause : TotalNode env) (tl : list (TotalNode env)) d_o d_i d_r mem dir (I1 : S1 → Prop) (I2 : S2 → Prop) outers inners left right :
  compares_columns env opno a b clause →
  (∃ row, Expr.GetOperatorByOid env opno = Some row ∧ Expr.oprname row = "="%string ∧ Expr.oprleft row = Tuplesort.kInt4Oid) →
  jt = HashJoin.kInner ∨ jt = HashJoin.kLeft →
  length (attrs d_r) = length tl → Forall (λ e, ExprSpec.mentions of_join (`e) = true) tl →
  Z.of_nat (length (attrs d_o)) < 2 ^ 31 → Z.of_nat (length (attrs d_i)) < 2 ^ 31 → Forall (storable d_o) outers → Forall (storable d_i) inners →
  PlanNode.Yields d_o I1 outers → PlanNode.Yields d_i I2 inners → I1 left → I2 right →
  ∃ hashed nested m, hashed ≡ₚ nested ∧ ∀ fuel, (m ≤ fuel)%nat →
    (∃ st, @HashJoinTotal.collect (evaluator env) _ _ _ (hash_plan env jt a b tl) fuel fuel (HashJoin.ExecInit d_o d_i d_i d_r mem dir outers inners) = (Ret hashed, st)) ∧
    (∃ st, @PlanNode.collect _ (NestLoop.NestLoop_node (nested_plan env jt clause tl)) fuel fuel
             (@PlanNode.ExecReScan _ (NestLoop.NestLoop_node (nested_plan env jt clause tl)) (NestLoop.ExecInit d_o d_i d_r left right)) = (Ret nested, st)).
Proof.
  intros Hcl Hop Hjt Hcols Hlocal So Si Ho Hi Y1 Y2 Hl Hr. assert (Hjs : jt ≠ HashJoin.kSemi) by (by destruct Hjt as [-> | ->]).
  pose proof (hash_plan_ok env jt a b tl d_r Hcols Hjs) as Hplan. pose proof (same_join env jt opno a b clause tl d_o d_i d_r Hlocal Hcl Hop outers inners Hjt) as Hsame.
  set (hp := hash_plan env jt a b tl) in *. set (np := nested_plan env jt clause tl) in *.
  assert (Hpairs : ∀ o i, HashJoinSpec.pairs hp d_o d_i o i = HashJoinTotal.equal_columns a b o i) by (intros o i; by apply clause_hashes).
  destruct (HashJoinTotal.run_ready hp d_o d_i d_r Hplan So Si (HashJoin.ExecInit d_o d_i d_i d_r mem dir outers inners) outers inners) as (n & out & Hn & Hruns & Hout); [by apply HashJoinTotal.init_ready|done|done|].
  destruct (HashJoinTotal.runs_collect hp (S (length inners)) _ out Hruns) as (m1 & Hm1).
  pose proof (NestLoop.nestloop_yields np d_o d_i d_r Hcols I1 I2 outers inners Y1 Y2) as Hny.
  destruct (PlanNode.yields_again _ _ _ Hny (NestLoop.ExecInit d_o d_i d_r left right)) as (_ & s' & Hp).
  { apply NestLoop.nested_intro; [done|done|apply TuplestoreSpec.make_fits..]. }
  destruct (PlanNode.produces_collect _ _ _ Hp) as (m2 & Hm2). exists out, (NestLoop.nested_rows np d_i d_r outers inners), (S (S (length inners) + m1) + m2)%nat. split.
  - rewrite Hout, <- Hsame. apply HashJoinTotal.all_batches_join; [done..| |].
    + intros o i _ _ Hnull. rewrite Hpairs. revert Hnull. unfold HashJoinSpec.null_key, HashJoinTotal.equal_columns. cbn. unfold Expr.GetSlotAttr.
      destruct (HashJoin.GetSlotAttr o a) as [v []], (HashJoin.GetSlotAttr i b) as [w []]; done.
    + intros Hk. exfalso. revert Hk. unfold HashJoinSpec.keeps_inner. cbn. by destruct Hjt as [-> | ->].
  - intros [|fuel] Hf; [lia|]. split; [|exists s'; apply Hm2; lia]. destruct (Hm1 (S fuel) (S fuel) fuel) as (st & Hst); [lia..|]. exists st. exact Hst.
Qed.

#[local] Existing Instances ExprSpec.plain_libm ExprSpec.plain_addresses ExprSpec.plain_regex HashJoinBuild.append_multimap HashJoinBuild.append_multimap_laws HashJoinTotal.demo_heap TuplestoreSpec.demo_process PlanNode.ListNode_node.

(** The left join of the tables of [HashJoinTotal] in two batches; the row of the
    outer value 5 has no partner. *)
Lemma joins_agree_witness :
  let env := ExprSpec.int_operators in
  let tl := [column env Expr.kOuterVar 2 Tuplesort.kInt4Oid; column env Expr.kInnerVar 2 Tuplesort.kInt4Oid] in
  let d := HashJoinTotal.two_ints in
  ∃ (clause : TotalNode env) hashed nested m, compares_columns env 96 1 1 clause ∧ hashed ≡ₚ nested ∧ ∀ fuel, (m ≤ fuel)%nat →
    let node := NestLoop.NestLoop_node (nested_plan env HashJoin.kLeft clause tl) (S1 := PlanNode.ListNode) (S2 := PlanNode.ListNode) in
    (∃ st, @HashJoinTotal.collect (evaluator env) _ _ _ (hash_plan env HashJoin.kLeft 1 1 tl) fuel fuel (HashJoin.ExecInit d d d d 200 "/tmp" HashJoinTotal.demo_outers HashJoinTotal.demo_inners) = (Ret hashed, st)) ∧
    (∃ st, @PlanNode.collect _ node fuel fuel
       (@PlanNode.ExecReScan _ node (NestLoop.ExecInit d d d (PlanNode.list_node HashJoinTotal.demo_outers) (PlanNode.list_node HashJoinTotal.demo_inners))) = (Ret nested, st)).
Proof.
  assert (Fo : Forall (slot_fits HashJoinTotal.two_ints) HashJoinTotal.demo_outers) by (eapply Forall_impl; [exact HashJoinTotal.demo_outers_storable|]; intros s [Hw _]; by apply HashJoinSpec.wf_fits).
  assert (Fi : Forall (slot_fits HashJoinTotal.two_ints) HashJoinTotal.demo_inners) by (eapply Forall_impl; [exact HashJoinTotal.demo_inners_storable|]; intros s [Hw _]; by apply HashJoinSpec.wf_fits).
  cbv zeta. set (tl := [column _ _ _ _; column _ _ _ _]).
  assert (Hop : ∃ row, Expr.GetOperatorByOid ExprSpec.int_operators 96 = Some row ∧ Expr.oprname row = "="%string ∧ Expr.oprleft row = Tuplesort.kInt4Oid) by (eexists; by vm_compute).
  assert (Hlocal : Forall (λ e : TotalNode ExprSpec.int_operators, ExprSpec.mentions of_join (`e) = true) tl) by (by repeat constructor).
  set (clause := exist _ (Expr.OpExpr 96 [Expr.Var Expr.kOuterVar 1 Tuplesort.kInt4Oid; Expr.Var Expr.kInnerVar 1 Tuplesort.kInt4Oid]) (equality_raises_nothing _ _ _ _ _ _ Hop) : TotalNode ExprSpec.int_operators).
  exists clause.
  destruct (joins_agree ExprSpec.int_operators HashJoin.kLeft 96 1 1 clause tl HashJoinTotal.two_ints HashJoinTotal.two_ints HashJoinTotal.two_ints 200 "/tmp"
    (λ s, PlanNode.all_tuples s = HashJoinTotal.demo_outers ∧ Forall (slot_fits HashJoinTotal.two_ints) (PlanNode.rest_tuples s))
    (λ s, PlanNode.all_tuples s = HashJoinTotal.demo_inners ∧ Forall (slot_fits HashJoinTotal.two_ints) (PlanNode.rest_tuples s))
    HashJoinTotal.demo_outers HashJoinTotal.demo_inners (PlanNode.list_node HashJoinTotal.demo_outers) (PlanNode.list_node HashJoinTotal.demo_inners) eq_refl Hop (or_intror eq_refl) eq_refl Hlocal) as (hashed & nested & m & Hp & Hrun).
  - done.
  - done.
  - exact HashJoinTotal.demo_outers_storable.
  - exact HashJoinTotal.demo_inners_storable.
  - by apply PlanNode.list_yields.
  - by apply PlanNode.list_yields.
  - by split.
  - by split.
  - by exists hashed, nested, m.
Defined.
End JoinsAgree.
